(* ===== verification/_CoqProject ===== *)
-Q . S2P
Prelude.v
Text.v
Types.v
Float.v
Clock.v
Bitemporal.v
Lineage.v
Store.v
Isolation.v
Txn.v
Stage.v
StageFacts.v
Jobs.v
Binding.v
BindingFacts.v
Ledger.v
Reads.v
ReadFacts.v
Capture.v
CaptureFacts.v
TextFacts.v
Chunks.v
ChunkFacts.v
Render.v
RenderFacts.v
Gate.v
Pack.v
PackFacts.v
Rerank.v
RerankFacts.v
Fuse.v
FuseFacts.v
Receipts.v
Compile.v
CompileFacts.v
WriteFacts.v
SubjectFacts.v
Dates.v
Decimal.v
Structured.v
StructuredFacts.v
Rollup.v
RollupFacts.v
Deep.v
DeepFacts.v
Recall.v
RecallFacts.v
Mining.v
Prepare.v
Reflect.v
Worker.v
WorkerFacts.v
ReflectFacts.v
Requests.v
Verbs.v
FileSync.v
Tasks.v
VerbFacts.v
VerbEffects.v
FileSyncFacts.v
FileTool.v
FileToolFacts.v
Plane.v
PlaneScan.v
PlaneSync.v
PlaneFacts.v
PlaneScanFacts.v
ServiceRecall.v
Fixtures.v
Witnesses.v
RecallWitnesses.v
DateWitnesses.v
WriteWitnesses.v
StructuredWitnesses.v
ReflectWitnesses.v
OrchestrationWitnesses.v
VerbWitnesses.v
SyncWitnesses.v
PlaneWitnesses.v
CoreWitnesses.v
