(* ===== verification/Prelude.v ===== *)
(** * Memphant: a verification library for the memory store (root file)

    Memphant keeps memories for agents: units of text with a validity interval
    and a history, derived from episodes and resources, owned by a subject and
    read under a policy.  This library models the core of the program: the data
    of [crates/memphant-types]; from [crates/memphant-core/src/lib.rs] the
    in-memory store, its transactions, the transitions both stores share, the
    reads, the job queue, the cross-check of captured memories, the write
    compiler and the recall; from [structured_state.rs], [deep_recall.rs] and
    [mutation_contract.rs] the structured state, the deep provider's contract
    and the request hash; from [service.rs] the mutation verbs, the worker, the
    chunkers and miners, the file sync and the recall of the service; from
    [memphant-mcp]'s [file_memory.rs] the memory tool; from [memphant-cli]'s
    [file_plane.rs] the projection as a tree of files and its sync.  It proves what makes them
    correct.  The in-memory store is the reference
    implementation of the [MemoryStore] trait: the service is written against
    the trait, and the Postgres store is tested against the same conformance
    kit.

    ** How the parts interact

    A client registers references and gets identifiers
    ([resolve_context_binding]); every later call resolves them to a
    [ResolvedMemoryContext] ([resolve_memory_context]), and every operation
    checks that context against the store ([validate_context]).  A verb of the
    service ([retain_verb], [remember], [correct], [forget], ...) checks its
    request, hashes it into a claim ([claim_for]) and runs one transaction
    ([transact_by]): it stages the claim ([stage_mutation_claim]), answers a
    replay from the ledger, or stages rows to append ([stage_episode] and its
    siblings) or edits a private copy of the context's part of the store
    ([staged_state], made by [capture] and [into_scratch]), and [commit] either
    installs everything or returns an error and installs nothing.  [file_sync]
    does so for a whole plan of corrections, new units and forgets, which the
    memory tool ([handle]) and the command line ([sync]) make of edited files.  Retained
    episodes queue reflect jobs; a worker tick claims jobs
    ([run_worker_tick_scoped]), makes candidates from each source - mined facts,
    captures, structured state a provider extracted -, resolves their subjects,
    and the write compiler admits them against the open units
    ([prepare_compiled_write]) into one write that is staged with the claim.
    Hooks write captured units, which a cross-check promotes or quarantines.
    Reads filter the tenant's rows by the policy and the two time axes.  A
    recall may run a deep provider over the sources the request may see
    ([deep_run]), adds quantity rollups, artifact bundles and vector hits to the
    pool, scores the units on several channels, gates each by the policy of the
    request ([recallable]), fuses the ranks ([fuse]), may rerank the head with a
    cross-encoder, packs the candidates into a token budget
    ([pack_recall_context]), cites what it serves ([build_recall_citations]) and
    stores a trace; the service falls back to raw episodes when nothing was
    found and reflection is pending ([fall_back]).

    ** Files, in dependency order

    - Prelude: results, field update, list, map and string functions of Rust's
      standard library, their lemmas and the proof automation.
    - Text, TextFacts: strings as UTF-8 bytes, characters, trims and splits, the
      tokenizer and token estimates.
    - Types: the data.  One module per enumeration, one record per row type.
    - Float: binary32 arithmetic and [cosine_similarity].
    - Clock: stamps, the comparison [cmp_rfc3339] and half-open intervals.
    - Bitemporal: visibility of a unit; [correction_rectangles_with_ids].
      A correction partitions valid time ([correction_partitions_valid_time]).
    - Lineage: the correction and forget transitions on units and edges.
      A forget erases exactly the lineage and what was composed from it
      ([unit_forget_erases_lineage]).
    - Store: the state record, [capture], [into_scratch], [replace_in],
      [validate_context], [erase_subject].  Of a subject an erasure leaves the
      tombstone and the deletion generation ([erase_subject_complete]); it touches
      nobody else ([erase_subject_frame]).
    - Isolation: laws of the captured part: putting it back is isolated from
      other subjects ([replace_in_isolates]) and faithful ([replace_in_installs]).
    - Txn: staging of rows, the mutation ledger, [commit].
    - Stage, StageFacts: correction, invalidation, forget, review events and
      compiled units on the private state.  History is preserved and the
      correction takes effect ([staged_correction_preserves_history] and its
      companion); forgotten and invalidated memories do not come back; what an
      episode or resource forget erases ([forget_derived_erases]).
    - Jobs: the reflect queue.  The life of a job - waiting, running, done or
      dead - is told apart from the queue, which lives it exactly
      ([queue_lives_its_jobs]); fencing tokens never return
      ([stale_claim_is_inert]).
    - Binding, BindingFacts: registration, policies, resolution.  Resolved
      contexts read only what is granted ([resolved_sources_are_authorized]);
      registration is stable; the ancestor loop ends.
    - Ledger: mutations execute once and replay ([mutation_executes_once]),
      commits of one context serialize ([commit_serializes]), erased subjects
      are frozen.
    - Reads, ReadFacts: all reads of the store.  Recall, vector, edge and deep
      reads as exact sets ([recall_returns_visible] and its companions), paging
      covers the scope ([pages_cover_scope]).
    - Capture, CaptureFacts: the cross-check.  The code's index tables compute a
      decision per unit ([crosscheck_refines_membership]), which is justified by
      evidence ([crosscheck_is_justified]).
    - Chunks, ChunkFacts: the chunkers of [service.rs].  Windows lay out the
      body in order and lose only whitespace ([resource_chunks_cover],
      [episode_chunks_cover]); the cited span reads back as offsets.
    - Render, RenderFacts: which chunks of an item are shown and how.  The
      selection is maximal within its budget, and a rendered text fits its
      charge ([packed_render_fits_charge]).
    - Gate: what a recall may serve, the channels and their scores.
    - Pack, PackFacts: admission of candidates into the context, the submodular
      order.  Limits are kept ([pack_within_limits]) and every scanned candidate
      is accounted for ([pack_accounts_for_all]).
    - Rerank, RerankFacts: lexical scorers, windows for the cross-encoder, the
      rerank.  Windows are lossless and bounded, a rerank permutes its head or
      fails open ([cross_rerank_permutes]).
    - Fuse, FuseFacts: decay, fusion, and the recall from units to items, which
      serves only what the gate admits ([recall_serves_safely]).
    - Receipts: the citations of a recall; verified ones are
      evidence ([receipts_are_grounded]).
    - Compile, CompileFacts, WriteFacts, SubjectFacts: the write compiler.
      History is preserved, rows close only with authority, a trusted statement
      takes its interval on its key, and a prepared job is applied once
      ([compile_preserves_history] and its companions).
    - Dates: dates in text and the date window of a query.
    - Decimal: exact decimals of quantity events.
    - Structured, StructuredFacts: evidence slices, grounding, fold and
      projection of structured state ([projected_states_are_grounded],
      [fold_keeps_last_states], [projected_state_reads_back]).
    - Rollup, RollupFacts: synthetic units of a recall, exact in their totals
      ([rollups_are_exact]) and no safer than their sources.
    - Deep, DeepFacts: the workspace and the contract of the deep provider
      ([deep_run_is_confined], [deep_output_check_is_exact]).
    - Recall, RecallFacts: one recall from the request to the stored trace
      ([recall_serves_only_admitted], [trace_admits_what_was_served],
      [deep_claims_are_cited]).
    - Mining: facts and captures of an episode.
    - Prepare: the structured state of a job and its recorded
      extraction ([prepared_state_survives_redelivery]).
    - Reflect, ReflectFacts: the candidates of a job and subject resolution
      ([aliases_keep_subjects_apart], [episode_candidates_are_grounded]).
    - Worker, WorkerFacts: the worker tick.  A lane is a thread, a sequence of
      atomic calls of the store; a schedule says which lane in flight calls
      next.  Every schedule is an interleaving of the calls of the lanes, each of
      which stops in order ([tick_stops_lanes_in_order]); run alone, the thread
      of a job is the operation of Prepare and Reflect ([prepare_alone],
      [compile_alone]).
    - Requests, Verbs, Tasks, VerbFacts, VerbEffects: the mutations of the
      service.  One lemma on a transaction ([transact_by_outcome]) gives
      that every verb is atomic ([calls_are_atomic]), answers a retry
      ([retried_calls_are_answered]) and keeps other subjects
      ([calls_keep_other_subjects]); then what a retained episode and a mark
      come to.
    - FileSync, FileSyncFacts: a plan of the file plane; its receipt tells the
      truth ([synced_projection_is_read_back]).
    - ServiceRecall: the recall of the service with its
      fallback ([fallback_serves_raw_episodes]) and the core of a scope.
    - FileTool, FileToolFacts: the memory tool of [memphant-mcp]: the projection
      as files below one root, and its commands as plans.  A replacement changes
      the one occurrence the model was shown ([tool_edits_what_it_showed]); the
      pages of the resource join to the projection ([resource_pages_cover]).
    - Plane, PlaneScan, PlaneSync, PlaneFacts, PlaneScanFacts: the file plane of
      the command line.  Plane renders a projection as unit files, an index and
      a manifest and reads unit and inbox files back; PlaneScan turns the answers
      of directory handles into a plan or findings, and verifies an export;
      PlaneSync has the commands [compile] and [sync].  Edits of a compiled tree
      are its plan ([edited_export_plans_its_edits]) and a plan is nothing but
      edits ([scan_plans_only_what_it_shows]); a sync says what is known of its
      commit ([sync_reports_its_outcome]).
    - Fixtures and the files named Witnesses: stores built by the model's own
      operations, and every theorem with hypotheses applied to one of them.

    ** How Rust is modelled

    Names are the source's where Rocq allows it.  A method of [InMemoryStore]
    takes the locked state and returns its result, with the state it leaves when
    it writes; the mutex makes each atomic, so interleavings are sequences of
    operations ([queue_step], [binding_step], [store_step] and their closures).
    A call of the service makes several; what other callers do in between is a
    function of the named window ([Window.t]), a state per read
    ([RecallReads]) or the turns of other threads ([Thread]), and theorems hold
    for every choice unless they say which.
    Poisoned locks are not modelled.  [Result] is [result], and the errors are
    the source's constructors with the source's messages.  [Vec] is [list];
    [HashMap] and [BTreeMap] are [gmap]; a map of rows by tenant is read with
    [rows], which is [get] with a default.  Where the code iterates over a hash
    table the order is that of a [HashOrder] instance, an arbitrary permutation
    of the entries, and no theorem depends on it.  Identifiers are the [N] value
    of a UUID, machine integers are [N] with saturation or wrap-around written
    out, strings are byte strings compared bytewise, floats are bit patterns.
    Freshly minted identifiers and the clock are arguments.

    ** Interfaces

    Third-party code and models enter as type classes or records of operations.
    [Jiff] parses and prints stamps (theorems on intervals assume [JiffLaws]:
    printing an instant and parsing it gives the instant back), [Calendar] is its
    civil calendar ([CalendarLaws]) and [CivilDate] the date of a stamp;
    [Sha256] is the digest; [ReceiptJson], [PolicyJson], [Serialize],
    [JsonWriter], [SerdeJson], [PlaneJson], [BatchJson], [DeepJson], [TraceRow] and
    [DegradedRow] are the JSON and the rows [serde] derives; [HashOrder] orders
    hash tables; [UnicodeAlphanumeric] and [UnicodeLowercase] are the Unicode
    tables beyond ASCII, [StrDebug] the Debug form of a string; [UuidParse]
    recognises a UUID, [UuidText] prints one and [TraceText] a trace id; [LibM] is the logarithm, [Fsrs] the spaced-repetition
    model; [EmbeddingProvider] and [QueryEmbedding] embed documents and queries,
    [CrossReranker] is the cross-encoder, [StructuredStateProvider] and
    [DeepRecallProvider] are the model providers.  The witness files instantiate
    all that a theorem with hypotheses needs, so no law is vacuous.

    ** Fuel

    [saturate] (the lineage loop) runs once more than there are units; each pass
    that is not the last adds one, so it stops at a fixpoint
    ([saturate_fixpoint]).  [ancestor_walk] runs with two more than the number of
    bindings; parents are registered before children and are immutable, so the
    parent chain of a reachable state is shorter ([ancestor_walk_terminates]).
    The loops of the chunkers run with the length of the text or the number of
    paragraphs, and each turn consumes one; the greedy loop of the submodular
    order with the number of candidates, since each turn selects one.  No result
    depends on more fuel.

    ** Not modelled

    Record projection (a renaming of fields); panics of a job, which are a
    result of their own and not control flow; lock poisoning.  The Postgres store
    (SQL run by an external database).  Of the command line, the
    installation of rendered files with its recovery areas and identity checks,
    which are sequences of file system calls, and the dispatch of arguments.  The
    other binaries, protocol adapters (but for the memory tool), model clients,
    configuration and evaluation harness, which are input and output around the
    service. *)

From stdpp Require Export base tactics list gmap strings sorting.
From Stdlib Require Export ZArith Lia.
From Stdlib Require Ascii String.

#[global] Open Scope N_scope.
#[global] Open Scope list_scope.

Declare Scope mem_scope.
Delimit Scope mem_scope with mem.
#[global] Open Scope mem_scope.

(** ** Results: Rust's [Result<A, E>] *)

Inductive result (E A : Type) : Type :=
| Ok (a : A)
| Err (e : E).
Arguments Ok {E A} a.
Arguments Err {E A} e.

Definition result_bind {E A B} (r : result E A) (k : A → result E B) : result E B :=
  match r with Ok a => k a | Err e => Err e end.

Notation "x <-? r ; k" := (result_bind r (λ x, k))
  (at level 100, r at next level, right associativity) : mem_scope.

(** [opt.ok_or(e)] *)
Definition ok_or {E A} (o : option A) (e : E) : result E A :=
  match o with Some a => Ok a | None => Err e end.

(** [try_fold]: a fold that stops at the first error. *)
Fixpoint try_fold {E A B} (f : B → A → result E B) (acc : B) (l : list A) : result E B :=
  match l with
  | [] => Ok acc
  | x :: l => acc <-? f acc x; try_fold f acc l
  end.

Lemma result_bind_ok {E A B} (r : result E A) (k : A → result E B) b :
  result_bind r k = Ok b → ∃ a, r = Ok a ∧ k a = Ok b.
Proof. destruct r; simpl; [eauto | discriminate]. Qed.

(** An invariant of every step is an invariant of the fold. *)
Lemma try_fold_ind {E A B} (f : B → A → result E B) (P : B → Prop) l acc acc' :
  (∀ x b b', x ∈ l → P b → f b x = Ok b' → P b') →
  P acc → try_fold f acc l = Ok acc' → P acc'.
Proof.
  revert acc. induction l as [|x l IH]; simpl; intros acc Hstep Hacc.
  - by intros [= <-].
  - intros (b & Hb & Hrest)%result_bind_ok.
    apply (IH b); [|by apply (Hstep x acc b); [apply list_elem_of_here|..]|done].
    intros y c c' Hy. apply Hstep. by apply list_elem_of_further.
Qed.

(** ** Field update

    [r <| f := v |>] is Rust's [r.f = v]: the record [r] with the field [f]
    replaced.  A record type declares its eta-expanded constructor as an
    [Eta] instance; the update of one field is found by abstracting that
    field's projection in it. *)

Class Eta (R : Type) := eta_of : R → R.

Class FieldUpdate {R T : Type} (proj : R → T) := update_field : (T → T) → R → R.
Arguments update_field {R T} proj {_} f r /.

Ltac solve_field_update :=
  lazymatch goal with
  | |- @FieldUpdate ?R ?T ?proj =>
      let inst := constr:(_ : Eta R) in
      let body := eval hnf in inst in
      lazymatch eval pattern proj in body with
      | ?rebuild proj => exact (λ (f : T → T), rebuild (λ r : R, f (proj r)))
      end
  end.
#[global] Hint Extern 1 (FieldUpdate _) => solve_field_update : typeclass_instances.

Notation "r <| p := v |>" := (update_field p (λ _, v) r)
  (at level 12, p at next level, left associativity) : mem_scope.
Notation "r <| p ::= f |>" := (update_field p f r)
  (at level 12, p at next level, left associativity) : mem_scope.


(** ** Machine integers

    Identifiers, counters and lengths are [N]; the width is written where the
    code can reach it.  [wrapping_add] is [+] as the release profile compiles
    it, [saturating_add] is the method of that name. *)

Definition u8_max : N := 2 ^ 8 - 1.
Definition u32_max : N := 2 ^ 32 - 1.
Definition u64_max : N := 2 ^ 64 - 1.
Definition saturating_add (max a b : N) : N := N.min (a + b) max.
Definition wrapping_add (max a b : N) : N := (a + b) `mod` (max + 1).
Definition checked_add (max a b : N) : option N :=
  if a + b <=? max then Some (a + b) else None.

Lemma saturating_add_le max a b : saturating_add max a b <= max.
Proof. unfold saturating_add. lia. Qed.

Lemma saturating_add_exact max a b : a + b <= max → saturating_add max a b = a + b.
Proof. unfold saturating_add. lia. Qed.

Lemma wrapping_add_exact max a b : a + b <= max → wrapping_add max a b = a + b.
Proof. intros H. unfold wrapping_add. apply N.mod_small. lia. Qed.

(** ** Vectors

    The [Vec] and iterator methods the program uses, on lists, with boolean
    predicates as the closures have them. *)

Section vectors.
Context {A : Type}.
Implicit Types (p : A → bool) (l : list A).

(** [Vec::retain], [Iterator::filter]. *)
Definition retain p l : list A := List.filter p l.

Definition is_empty l : bool := match l with [] => true | _ => false end.

(** [iter().any(p)] and [iter().find(p)]. *)
Definition any p l : bool := List.existsb p l.
Fixpoint find p l : option A :=
  match l with
  | [] => None
  | x :: l' => if p x then Some x else find p l'
  end.

(** [iter().position(p)]. *)
Fixpoint position p l : option nat :=
  match l with
  | [] => None
  | x :: l' => if p x then Some 0%nat else S <$> position p l'
  end.

(** [for x in iter_mut().filter(p) { *x = f(x) }]. *)
Definition update_where p (f : A → A) l : list A :=
  map (λ x, if p x then f x else x) l.

(** [if let Some(x) = iter_mut().find(p) { *x = f(x) }]. *)
Fixpoint update_first p (f : A → A) l : list A :=
  match l with
  | [] => []
  | x :: l' => if p x then f x :: l' else x :: update_first p f l'
  end.

(** [sort_by_key]: stable insertion sort by a [<=] on keys. *)
Fixpoint insert_sorted (leb : A → A → bool) (x : A) l : list A :=
  match l with
  | [] => [x]
  | y :: l' => if leb x y then x :: y :: l' else y :: insert_sorted leb x l'
  end.
Fixpoint sort_by (leb : A → A → bool) l : list A :=
  match l with
  | [] => []
  | x :: l' => insert_sorted leb x (sort_by leb l')
  end.

(** [dedup_by_key]: of each run of equal keys the first element is kept. *)
Fixpoint dedup_by (same : A → A → bool) l : list A :=
  match l with
  | [] => []
  | x :: l' =>
      match dedup_by same l' with
      | [] => [x]
      | y :: r => if same x y then x :: r else x :: y :: r
      end
  end.

Lemma elem_of_retain p l x : x ∈ retain p l ↔ x ∈ l ∧ p x = true.
Proof. unfold retain. rewrite !list_elem_of_In, filter_In. tauto. Qed.

Lemma retain_sublist p l : retain p l `sublist_of` l.
Proof. unfold retain. induction l as [|x l IH]; simpl; [done|]. destruct (p x); by constructor. Qed.

Lemma retain_cons p x l : retain p (x :: l) = if p x then x :: retain p l else retain p l.
Proof. done. Qed.

Lemma retain_app p l l' : retain p (l ++ l') = retain p l ++ retain p l'.
Proof. apply List.filter_app. Qed.

Lemma retain_all p l : (∀ x, x ∈ l → p x = true) → retain p l = l.
Proof.
  unfold retain. induction l as [|x l IH]; simpl; intros H; [done|].
  rewrite H by set_solver. f_equal. apply IH. set_solver.
Qed.

Lemma retain_none p l : (∀ x, x ∈ l → p x = false) → retain p l = [].
Proof.
  unfold retain. induction l as [|x l IH]; simpl; intros H; [done|].
  rewrite H by set_solver. apply IH. set_solver.
Qed.

Lemma NoDup_retain p l : NoDup l → NoDup (retain p l).
Proof.
  induction 1 as [|x l Hx Hl IH]; [constructor|]. rewrite retain_cons.
  destruct (p x); [|done]. constructor; [|done]. by rewrite elem_of_retain; intros [? _].
Qed.

Lemma retain_retain p q l : retain p (retain q l) = retain (λ x, q x && p x) l.
Proof.
  unfold retain. induction l as [|x l IH]; simpl; [done|].
  destruct (q x); simpl; [destruct (p x); simpl|]; by rewrite IH.
Qed.

Lemma retain_ext p q l : (∀ x, x ∈ l → p x = q x) → retain p l = retain q l.
Proof.
  unfold retain. induction l as [|x l IH]; simpl; intros H; [done|].
  rewrite H by set_solver. rewrite IH by set_solver. done.
Qed.

#[export] Instance retain_Permutation p : Proper ((≡ₚ) ==> (≡ₚ)) (retain p).
Proof.
  intros l k. induction 1 as [|x l k _ IH|x y l|l k m _ IH1 _ IH2]; [done| | |by etrans];
    rewrite ?retain_cons.
  - destruct (p x); [by constructor | done].
  - destruct (p x), (p y); try done. apply Permutation_swap.
Qed.

Lemma any_true p l : any p l = true ↔ ∃ x, x ∈ l ∧ p x = true.
Proof. unfold any. rewrite existsb_exists. by setoid_rewrite list_elem_of_In. Qed.

Lemma any_false p l : any p l = false ↔ ∀ x, x ∈ l → p x = false.
Proof.
  split.
  - intros H x Hx. destruct (p x) eqn:E; [|done].
    rewrite (proj2 (any_true p l)) in H by eauto. done.
  - intros H. destruct (any p l) eqn:E; [|done].
    apply any_true in E as (x & Hx & Hp). rewrite H in Hp; done.
Qed.

Lemma find_Some p l x : find p l = Some x → x ∈ l ∧ p x = true.
Proof.
  induction l as [|y l IH]; simpl; [done|].
  destruct (p y) eqn:E; intros H; simplify_eq; [set_solver|].
  destruct (IH H). set_solver.
Qed.

Lemma find_None p l : find p l = None ↔ ∀ x, x ∈ l → p x = false.
Proof.
  induction l as [|y l IH]; simpl; [set_solver|].
  destruct (p y) eqn:E.
  - split; [done|]. intros H. rewrite H in E by set_solver. done.
  - rewrite IH. set_solver.
Qed.

Lemma find_any p l : any p l = true ↔ is_Some (find p l).
Proof.
  rewrite any_true. split.
  - intros (x & Hx & Hp). destruct (find p l) eqn:E; [eauto|].
    rewrite find_None in E. rewrite (E x Hx) in Hp. done.
  - intros [x Hx]. apply find_Some in Hx. eauto.
Qed.

Lemma elem_of_update_where p f l y :
  y ∈ update_where p f l ↔ ∃ x, x ∈ l ∧ y = if p x then f x else x.
Proof. unfold update_where. rewrite list_elem_of_fmap. naive_solver. Qed.

Lemma length_update_where p f l : length (update_where p f l) = length l.
Proof. apply length_map. Qed.

Lemma update_where_none p f l :
  (∀ x, x ∈ l → p x = false) → update_where p f l = l.
Proof.
  unfold update_where. induction l as [|x l IH]; simpl; intros H; [done|].
  rewrite H by set_solver. f_equal. apply IH. set_solver.
Qed.

Lemma insert_sorted_perm leb x l : insert_sorted leb x l ≡ₚ x :: l.
Proof.
  induction l as [|y l IH]; simpl; [done|]. destruct (leb x y); [done|].
  rewrite IH. apply Permutation_swap.
Qed.

Lemma sort_by_perm leb l : sort_by leb l ≡ₚ l.
Proof. induction l as [|x l IH]; simpl; [done|]. by rewrite insert_sorted_perm, IH. Qed.

Lemma elem_of_sort_by leb l x : x ∈ sort_by leb l ↔ x ∈ l.
Proof. by rewrite sort_by_perm. Qed.

Section sorted.
Context (leb : A → A → bool).
Context (leb_total : ∀ x y, leb x y = true ∨ leb y x = true).
Context (leb_trans : ∀ x y z, leb x y = true → leb y z = true → leb x z = true).

Lemma sort_by_sorted l : StronglySorted (λ x y, leb x y = true) (sort_by leb l).
Proof using leb_total leb_trans.
  induction l as [|x l IH]; simpl; [constructor|].
  induction IH as [|y r Hr IHr Hy]; simpl; [repeat constructor|].
  destruct (leb x y) eqn:E.
  - constructor; [by constructor|]. constructor; [done|].
    eapply Forall_impl; [exact Hy|]. eauto.
  - constructor; [done|]. rewrite insert_sorted_perm. constructor; [|done].
    destruct (leb_total x y); congruence.
Qed.
End sorted.

Lemma elem_of_dedup_by same l x : x ∈ dedup_by same l → x ∈ l.
Proof.
  revert x. induction l as [|y l IH]; simpl; [done|]. intros x.
  destruct (dedup_by same l) as [|z r] eqn:E; [set_solver|].
  destruct (same y z); set_solver.
Qed.
End vectors.


(** ** Hash maps

    [HashMap<K, Vec<V>>] is a [gmap] of lists.  [rows] is
    [get(&k).into_iter().flatten()], [update_rows] is
    [*entry(k).or_default() = f(..)]: as in the code it leaves an empty vector
    behind under an absent key. *)

Section tables.
Context {K V : Type} `{Countable K}.
Implicit Types (m : gmap K (list V)).

Definition rows m (k : K) : list V := default [] (m !! k).
Definition update_rows (k : K) (f : list V → list V) m : gmap K (list V) :=
  <[k := f (rows m k)]> m.
Definition push_row (k : K) (v : V) m : gmap K (list V) :=
  update_rows k (λ l, l ++ [v]) m.

Lemma rows_update_eq k f m : rows (update_rows k f m) k = f (rows m k).
Proof. unfold rows, update_rows. by rewrite lookup_insert_eq. Qed.

Lemma rows_update_ne k k' f m : k ≠ k' → rows (update_rows k f m) k' = rows m k'.
Proof. intros Hne. unfold rows, update_rows. by rewrite lookup_insert_ne. Qed.

Lemma rows_insert_eq k l m : rows (<[k := l]> m) k = l.
Proof. unfold rows. by rewrite lookup_insert_eq. Qed.

Lemma rows_insert_ne k k' l m : k ≠ k' → rows (<[k := l]> m) k' = rows m k'.
Proof. intros Hne. unfold rows. by rewrite lookup_insert_ne. Qed.

Lemma rows_empty k : rows (∅ : gmap K (list V)) k = [].
Proof. unfold rows. by rewrite lookup_empty. Qed.
End tables.

(** [map.retain(|k, v| p(k, v))] and [map.extend(pairs)]. *)
Definition retain_map `{Countable K} {V} (p : K → V → bool) (m : gmap K V) : gmap K V :=
  filter (λ kv, p (fst kv) (snd kv) = true) m.
Definition extend_map `{Countable K} {V} (kvs : list (K * V)) (m : gmap K V) : gmap K V :=
  foldl (λ m kv, <[fst kv := snd kv]> m) m kvs.
Definition retain_set `{Countable K} (p : K → bool) (s : gset K) : gset K :=
  filter (λ k, p k = true) s.

Lemma lookup_retain_map `{Countable K} {V} (p : K → V → bool) (m : gmap K V) k v :
  retain_map p m !! k = Some v ↔ m !! k = Some v ∧ p k v = true.
Proof. unfold retain_map. by rewrite map_lookup_filter_Some. Qed.

Lemma lookup_retain_map_None `{Countable K} {V} (p : K → V → bool) (m : gmap K V) k :
  (∀ v, m !! k = Some v → p k v = false) → retain_map p m !! k = None.
Proof.
  intros Hp. apply map_lookup_filter_None. right. intros v Hv. simpl. rewrite (Hp v Hv). done.
Qed.

Lemma lookup_retain_map_id `{Countable K} {V} (p : K → V → bool) (m : gmap K V) k :
  (∀ v, m !! k = Some v → p k v = true) → retain_map p m !! k = m !! k.
Proof.
  intros Hp. destruct (m !! k) as [v|] eqn:E.
  - apply lookup_retain_map. auto.
  - apply map_lookup_filter_None. by left.
Qed.

Lemma elem_of_retain_set `{Countable K} (p : K → bool) (s : gset K) k :
  k ∈ retain_set p s ↔ p k = true ∧ k ∈ s.
Proof. unfold retain_set. by rewrite elem_of_filter. Qed.

Lemma extend_map_lookup_ne `{Countable K} {V} (kvs : list (K * V)) (m : gmap K V) k :
  k ∉ kvs.*1 → extend_map kvs m !! k = m !! k.
Proof.
  revert m. induction kvs as [|[k' v'] kvs IH]; intros m Hk; simpl in *; [done|].
  rewrite IH by set_solver. apply lookup_insert_ne. set_solver.
Qed.

Lemma extend_map_lookup `{Countable K} {V} (kvs : list (K * V)) (m : gmap K V) k v :
  NoDup kvs.*1 → (k, v) ∈ kvs → extend_map kvs m !! k = Some v.
Proof.
  revert m. induction kvs as [|[k' v'] kvs IH]; intros m Hnd Hk; simpl in *; [set_solver|].
  apply NoDup_cons in Hnd as [Hni Hnd]. apply elem_of_cons in Hk as [[= -> ->]|Hk].
  - etrans; [by apply (extend_map_lookup_ne kvs)|]. apply lookup_insert_eq.
  - by apply IH.
Qed.

(** The order in which a hash table is iterated is not specified.  It is a
    parameter: any function that lists each entry once. *)
Class HashOrder := {
  map_iter {K V : Type} `{Countable K} : gmap K V → list (K * V);
  set_iter {K : Type} `{Countable K} : gset K → list K;
  map_iter_perm {K V : Type} `{Countable K} (m : gmap K V) : map_iter m ≡ₚ map_to_list m;
  set_iter_perm {K : Type} `{Countable K} (s : gset K) : set_iter s ≡ₚ elements s;
}.

#[export] Instance listing_order : HashOrder | 100 := {|
  map_iter _ _ _ _ m := map_to_list m;
  set_iter _ _ _ s := elements s;
  map_iter_perm _ _ _ _ m := Permutation_refl _;
  set_iter_perm _ _ _ s := Permutation_refl _;
|}.

Section hash_order.
Context `{HashOrder}.

Lemma elem_of_map_iter {K V} `{Countable K} (m : gmap K V) k v :
  (k, v) ∈ map_iter m ↔ m !! k = Some v.
Proof. rewrite map_iter_perm. apply elem_of_map_to_list. Qed.

Lemma elem_of_set_iter {K} `{Countable K} (s : gset K) k : k ∈ set_iter s ↔ k ∈ s.
Proof. rewrite set_iter_perm. apply elem_of_elements. Qed.

Lemma map_iter_NoDup {K V} `{Countable K} (m : gmap K V) : NoDup (map_iter m).*1.
Proof. rewrite map_iter_perm. apply NoDup_fst_map_to_list. Qed.
End hash_order.

(** ** Byte strings: the order of [str::cmp] *)

Definition str_cmp : string → string → comparison := String.compare.

Lemma ascii_compare_refl a : Ascii.compare a a = Eq.
Proof. apply N.compare_refl. Qed.

Lemma ascii_compare_lt_trans a b c :
  Ascii.compare a b = Lt → Ascii.compare b c = Lt → Ascii.compare a c = Lt.
Proof. unfold Ascii.compare. rewrite !N.compare_lt_iff. lia. Qed.

Lemma str_cmp_refl s : str_cmp s s = Eq.
Proof. induction s as [|a s IH]; simpl; [done|]. by rewrite ascii_compare_refl. Qed.

Lemma str_cmp_antisym s t : str_cmp s t = CompOpp (str_cmp t s).
Proof. apply String.compare_antisym. Qed.

Lemma str_cmp_eq s t : str_cmp s t = Eq ↔ s = t.
Proof. split; [apply String.compare_eq_iff|]. intros ->. apply str_cmp_refl. Qed.

Lemma str_cmp_lt_trans s t u : str_cmp s t = Lt → str_cmp t u = Lt → str_cmp s u = Lt.
Proof.
  unfold str_cmp. revert t u. induction s as [|a s IH]; intros [|b t] [|c u]; simpl; try done.
  destruct (Ascii.compare a b) eqn:Eab; [| |done];
    destruct (Ascii.compare b c) eqn:Ebc; try done; intros H1 H2.
  - apply Ascii.compare_eq_iff in Eab as ->. rewrite Ebc. by eapply IH.
  - apply Ascii.compare_eq_iff in Eab as ->. by rewrite Ebc.
  - apply Ascii.compare_eq_iff in Ebc as ->. by rewrite Eab.
  - by rewrite (ascii_compare_lt_trans a b c).
Qed.

Lemma str_cmp_le_trans s t u : str_cmp s t ≠ Gt → str_cmp t u ≠ Gt → str_cmp s u ≠ Gt.
Proof.
  destruct (str_cmp s t) eqn:Est; [| |done].
  - by apply str_cmp_eq in Est as ->.
  - destruct (str_cmp t u) eqn:Etu; [| |done].
    + apply str_cmp_eq in Etu as ->. by rewrite Est.
    + by rewrite (str_cmp_lt_trans s t u).
Qed.

(** [s.trim().is_empty()]: only characters of Unicode's White_Space, in UTF-8. *)
Definition bytes_of (s : string) : list N :=
  map Ascii.N_of_ascii (String.list_ascii_of_string s).
Definition ascii_white (b : N) : bool := ((9 <=? b) && (b <=? 13)) || (b =? 32).
Definition white2 (a b : N) : bool := (a =? 0xC2) && ((b =? 0x85) || (b =? 0xA0)).
Definition white3 (a b c : N) : bool :=
  ((a =? 0xE1) && (b =? 0x9A) && (c =? 0x80)) ||
  ((a =? 0xE2) && (b =? 0x80) &&
     (((0x80 <=? c) && (c <=? 0x8A)) || (c =? 0xA8) || (c =? 0xA9) || (c =? 0xAF))) ||
  ((a =? 0xE2) && (b =? 0x81) && (c =? 0x9F)) ||
  ((a =? 0xE3) && (b =? 0x80) && (c =? 0x80)).
Fixpoint blank_bytes (l : list N) : bool :=
  match l with
  | [] => true
  | a :: l1 =>
      if ascii_white a then blank_bytes l1 else
      match l1 with
      | [] => false
      | b :: l2 =>
          if white2 a b then blank_bytes l2 else
          match l2 with
          | [] => false
          | c :: l3 => white3 a b c && blank_bytes l3
          end
      end
  end.
Definition trim_is_empty (s : string) : bool := blank_bytes (bytes_of s).

(** [str::len]: bytes. *)
Definition str_len (s : string) : N := N.of_nat (String.length s).

(** ** Automation *)

(** Case analysis on the conditions of a definition, in the goal or a
    hypothesis. *)
Ltac case_all :=
  repeat (case_match; simplify_eq/=).

(** Boolean conjunctions and negations as propositions, with the equality
    tests the code uses. *)
Ltac bool_prop :=
  repeat match goal with
  | H : (_ && _)%bool = true |- _ => apply andb_true_iff in H as [? ?]
  | H : (_ || _)%bool = false |- _ => apply orb_false_iff in H as [? ?]
  | H : negb _ = true |- _ => apply negb_true_iff in H
  | H : negb _ = false |- _ => apply negb_false_iff in H
  | H : (_ =? _) = true |- _ => apply N.eqb_eq in H
  | H : (_ =? _) = false |- _ => apply N.eqb_neq in H
  | H : bool_decide _ = true |- _ => apply bool_decide_eq_true in H
  | H : bool_decide _ = false |- _ => apply bool_decide_eq_false in H
  end.

Create HintDb memphant discriminated.
Lemma NoDup_map_inj {A B} (f : A → B) l x y :
  NoDup (map f l) → x ∈ l → y ∈ l → f x = f y → x = y.
Proof.
  induction l as [|z l IH]; simpl; [by intros _ ?%elem_of_nil|].
  intros [Hni Hnd]%NoDup_cons [->|Hx]%elem_of_cons [->|Hy]%elem_of_cons Hf; auto.
  - destruct Hni. rewrite Hf. by apply list_elem_of_fmap_2.
  - destruct Hni. rewrite <-Hf. by apply list_elem_of_fmap_2.
Qed.

#[export] Hint Resolve str_cmp_refl sort_by_perm insert_sorted_perm : memphant.
#[export] Hint Resolve saturating_add_le : memphant.
#[export] Hint Rewrite @elem_of_retain @elem_of_sort_by @elem_of_update_where : memphant.
#[export] Hint Rewrite @rows_update_eq @rows_insert_eq @rows_empty : memphant.
