(* ===== verification/Text.v ===== *)
(** * Text: UTF-8 strings as the program reads them

    The functions of [str] the chunkers, the renderer and the validators use,
    on byte lists: characters, trimming, lines, decimal numbers, whitespace
    words; and the text helpers of [crates/memphant-core/src/lib.rs] built on
    them (normalization, tokens, the token estimate).  A [string] holds bytes;
    [bytes_of] and [string_of_bytes] go between the two views. *)

From S2P Require Import Prelude.

Definition string_of_bytes (l : list N) : string :=
  String.string_of_list_ascii (map Ascii.ascii_of_N l).

Lemma string_of_bytes_of s : string_of_bytes (bytes_of s) = s.
Proof.
  unfold string_of_bytes, bytes_of. rewrite map_map.
  rewrite (map_ext _ id) by (intros a; apply Ascii.ascii_N_embedding).
  rewrite map_id. apply String.string_of_list_ascii_of_string.
Qed.

Lemma bytes_of_string l : Forall (λ b, b < 256) l → bytes_of (string_of_bytes l) = l.
Proof.
  intros Hl. unfold string_of_bytes, bytes_of.
  rewrite String.list_ascii_of_string_of_list_ascii, map_map.
  induction Hl as [|b l Hb _ IH]; simpl; [done|].
  rewrite IH. f_equal. by apply Ascii.N_ascii_embedding.
Qed.

Lemma bytes_of_bound s : Forall (λ b, b < 256) (bytes_of s).
Proof.
  unfold bytes_of. apply Forall_forall. intros b (a & -> & _)%list_elem_of_fmap.
  apply Ascii.N_ascii_bounded.
Qed.

(** [format!] and [+] on the byte view. *)
Lemma bytes_of_app s t : bytes_of (s +:+ t) = bytes_of s ++ bytes_of t.
Proof.
  unfold bytes_of. induction s as [|a s IH]; [done|].
  change (String.String a s +:+ t) with (String.String a (s +:+ t)). simpl. by rewrite IH.
Qed.

(** ** Characters

    A character is a byte that is no continuation byte, with the continuation
    bytes that follow it. *)

Definition is_cont (b : N) : bool := (0x80 <=? b) && (b <=? 0xBF).

Definition head_cont (l : list N) : bool :=
  match l with b :: _ => is_cont b | [] => false end.

Fixpoint chars (l : list N) : list (list N) :=
  match l with
  | [] => []
  | a :: l' =>
      match chars l' with
      | c :: cs => if head_cont c then (a :: c) :: cs else [a] :: c :: cs
      | [] => [[a]]
      end
  end.

(** The shapes of UTF-8: lead byte and number of continuation bytes agree. *)
Definition char_ok (c : list N) : bool :=
  match c with
  | [a] => a <? 0x80
  | [a; b] => (0xC2 <=? a) && (a <=? 0xDF) && is_cont b
  | [a; b; b'] => (0xE0 <=? a) && (a <=? 0xEF) && is_cont b && is_cont b'
  | [a; b; b'; b''] =>
      (0xF0 <=? a) && (a <=? 0xF4) && is_cont b && is_cont b' && is_cont b''
  | _ => false
  end.
Definition valid_utf8 (l : list N) : bool := forallb char_ok (chars l).

(** [char::is_whitespace]. *)
Definition is_whitespace (c : list N) : bool :=
  match c with
  | [a] => ascii_white a
  | [a; b] => white2 a b
  | [a; b; b'] => white3 a b b'
  | _ => false
  end.

(** [str::is_char_boundary]. *)
Definition is_char_boundary (l : list N) (i : nat) : bool :=
  match i with
  | 0%nat => true
  | _ => match l !! i with
         | Some b => negb (is_cont b)
         | None => (i =? length l)%nat
         end
  end.

Definition slice (start end_ : nat) (l : list N) : list N := take (end_ - start) (drop start l).

(** [str::get(start..end)]. *)
Definition get_slice (l : list N) (start end_ : nat) : option (list N) :=
  if (start <=? end_)%nat && (end_ <=? length l)%nat &&
     is_char_boundary l start && is_char_boundary l end_
  then Some (slice start end_ l) else None.

Lemma chars_concat l : concat (chars l) = l.
Proof.
  induction l as [|a l IH]; [done|]. simpl.
  destruct (chars l) as [|c cs]; simpl in *; [by rewrite <-IH|].
  destruct (head_cont c); simpl; by rewrite IH.
Qed.

Lemma chars_cons a l : chars (a :: l) =
  match chars l with
  | c :: cs => if head_cont c then (a :: c) :: cs else [a] :: c :: cs
  | [] => [[a]]
  end.
Proof. done. Qed.

Lemma chars_nil_inv l : chars l = [] → l = [].
Proof. intros H. by rewrite <-(chars_concat l), H. Qed.

Lemma chars_head l : l ≠ [] → ∃ c cs, chars l = c :: cs ∧ head_cont c = head_cont l ∧ c ≠ [].
Proof.
  destruct l as [|a l]; [done|]. intros _. rewrite chars_cons.
  destruct (chars l) as [|c cs]; [by exists [a], []|].
  destruct (head_cont c); by eexists _, _.
Qed.

Lemma chars_nonempty l : Forall (λ c, c ≠ []) (chars l).
Proof.
  induction l as [|a l IH]; [constructor|]. rewrite chars_cons.
  destruct (chars l) as [|c cs]; [by repeat constructor|].
  destruct (head_cont c); constructor; try done. by inversion IH.
Qed.

(** The first byte is no continuation byte, or there is none. *)
Definition starts_char (l : list N) : Prop := head_cont l = false.

Lemma chars_app l k : starts_char k → chars (l ++ k) = chars l ++ chars k.
Proof.
  intros Hk. induction l as [|a l IH]; [done|].
  rewrite <-app_comm_cons, !chars_cons, IH. destruct (decide (l = [])) as [->|Hl].
  - simpl. destruct (decide (k = [])) as [->|Hne]; [done|].
    destruct (chars_head k Hne) as (c & cs & -> & Hc & _). by rewrite Hc, Hk.
  - destruct (chars_head l Hl) as (c & cs & -> & _). cbn [app]. by destruct (head_cont c).
Qed.

Lemma chars_length l : (length (chars l) <= length l)%nat.
Proof.
  pose proof (chars_nonempty l) as Hne. rewrite <-(chars_concat l) at 2.
  induction Hne as [|c cs Hc _ IH]; simpl; [lia|]. rewrite length_app.
  destruct c; [done|]. simpl. lia.
Qed.

(** Well-formed characters are never merged or cut by [chars]. *)
Lemma char_ok_cons c : char_ok c = true → ∃ a r, c = a :: r ∧ is_cont a = false ∧
  Forall (λ b, is_cont b = true) r.
Proof.
  intros H. assert (∀ a, (a < 0x80 ∨ 0xBF < a) → is_cont a = false) as Hlead.
  { intros a Ha. unfold is_cont. apply andb_false_iff. rewrite !N.leb_gt. lia. }
  destruct c as [|a [|b [|b' [|b'' [|]]]]]; cbn [char_ok] in H; try done;
    bool_prop;
    repeat match goal with
    | H : (_ <=? _) = true |- _ => apply N.leb_le in H
    | H : (_ <? _) = true |- _ => apply N.ltb_lt in H
    end;
    exists a; eexists; (split; [done|]); (split; [apply Hlead; lia|]); repeat constructor; done.
Qed.

Lemma chars_tail_cont a r : Forall (λ b, is_cont b = true) r → chars (a :: r) = [a :: r].
Proof.
  revert a. induction r as [|b r IH]; intros a Hr; [done|].
  inversion Hr as [|? ? Hb Hr']; subst. rewrite chars_cons, (IH b Hr'). simpl. by rewrite Hb.
Qed.

Lemma chars_of_concat cs : forallb char_ok cs = true → chars (concat cs) = cs.
Proof.
  induction cs as [|c cs IH]; cbn [forallb concat]; intros H; [done|].
  apply andb_true_iff in H as [Hc Hcs].
  destruct (char_ok_cons c Hc) as (a & r & -> & Ha & Hr).
  rewrite chars_app; [by rewrite IH, chars_tail_cont|].
  unfold starts_char. destruct cs as [|c' cs]; [done|]. cbn [forallb] in Hcs.
  apply andb_true_iff in Hcs as [Hc' _].
  by destruct (char_ok_cons c' Hc') as (a' & r' & -> & Ha' & _).
Qed.

Lemma valid_utf8_app l k :
  valid_utf8 (l ++ k) = true → starts_char k → valid_utf8 l = true ∧ valid_utf8 k = true.
Proof.
  unfold valid_utf8. intros H Hk. rewrite chars_app, forallb_app in H by done.
  by apply andb_true_iff in H.
Qed.

Lemma valid_utf8_starts l : valid_utf8 l = true → starts_char l.
Proof.
  unfold valid_utf8. pose proof (chars_concat l) as Hl. intros H.
  destruct (chars l) as [|c cs]; [by rewrite <-Hl|]. cbn [forallb] in H.
  apply andb_true_iff in H as [Hc _].
  destruct (char_ok_cons c Hc) as (a & r & -> & Ha & _). by rewrite <-Hl.
Qed.

(** After an ASCII byte a character starts. *)
Lemma ascii_then_char l a k :
  valid_utf8 (l ++ a :: k) = true → a < 0x80 → starts_char k.
Proof.
  intros H Ha. assert (starts_char (a :: k)) as Hs.
  { unfold starts_char, head_cont, is_cont. apply andb_false_iff. left. by apply N.leb_gt. }
  destruct (valid_utf8_app _ _ H Hs) as [_ Hk]. clear H Hs.
  unfold starts_char. destruct (head_cont k) eqn:Ek; [|done]. exfalso.
  assert (k ≠ []) as Hne by (by intros ->).
  revert Hk. unfold valid_utf8. rewrite chars_cons.
  destruct (chars_head k Hne) as (c & cs & -> & Hc & Hc0). rewrite Hc, Ek.
  cbn [forallb]. intros [Hok _]%andb_true_iff.
  destruct c as [|c0 [|c1 [|c2 [|]]]]; try done; cbn [char_ok] in Hok; bool_prop;
    rewrite N.leb_le in *; lia.
Qed.

(** ** Trimming and splitting *)

Fixpoint drop_while {A} (p : A → bool) (l : list A) : list A :=
  match l with
  | [] => []
  | x :: l' => if p x then drop_while p l' else l
  end.

(** [str::trim_start], [str::trim]. *)
Definition trim_start (l : list N) : list N := concat (drop_while is_whitespace (chars l)).
Definition trim_end (l : list N) : list N :=
  concat (rev (drop_while is_whitespace (rev (chars l)))).
Definition trim (l : list N) : list N := trim_end (trim_start l).

(** [trim_end_matches] with ASCII characters. *)
Definition trim_end_bytes (p : N → bool) (l : list N) : list N := rev (drop_while p (rev l)).

Definition LF : N := 10.
Definition CR : N := 13.
Definition is_eol (b : N) : bool := (b =? LF) || (b =? CR).

(** [str::split_inclusive('\n')]. *)
Fixpoint split_inclusive_nl (l : list N) : list (list N) :=
  match l with
  | [] => []
  | a :: l' =>
      if a =? LF then [a] :: split_inclusive_nl l'
      else match split_inclusive_nl l' with
           | [] => [[a]]
           | x :: xs => (a :: x) :: xs
           end
  end.

(** [str::lines]: a line without its line feed, and without the carriage
    return before it. *)
Definition strip_line (raw : list N) : list N :=
  match rev raw with
  | a :: r =>
      if a =? LF
      then match r with
           | b :: r' => if b =? CR then rev r' else rev r
           | [] => []
           end
      else raw
  | [] => []
  end.
Definition lines (l : list N) : list (list N) := map strip_line (split_inclusive_nl l).

Fixpoint starts_with (pat l : list N) : bool :=
  match pat, l with
  | [], _ => true
  | p :: pat', a :: l' => (p =? a) && starts_with pat' l'
  | _ :: _, [] => false
  end.

(** [str::strip_prefix]. *)
Definition strip_pat (pat l : list N) : option (list N) :=
  if starts_with pat l then Some (drop (length pat) l) else None.

(** [str::contains]. *)
Fixpoint contains_bytes (l pat : list N) : bool :=
  starts_with pat l || match l with [] => false | _ :: l' => contains_bytes l' pat end.

(** [str::split_once]: at the first occurrence. *)
Fixpoint split_once (pat l : list N) : option (list N * list N) :=
  if starts_with pat l then Some ([], drop (length pat) l)
  else match l with
       | [] => None
       | a :: l' => match split_once pat l' with
                    | Some (before, after) => Some (a :: before, after)
                    | None => None
                    end
       end.

(** [str::rsplit_once] at an ASCII character. *)
Definition rsplit_once (b : N) (l : list N) : option (list N * list N) :=
  match split_once [b] (rev l) with
  | Some (after, before) => Some (rev before, rev after)
  | None => None
  end.

Lemma split_inclusive_concat l : concat (split_inclusive_nl l) = l.
Proof.
  induction l as [|a l IH]; simpl; [done|]. destruct (a =? LF); simpl; [by rewrite IH|].
  destruct (split_inclusive_nl l); simpl in *; by rewrite <-IH.
Qed.

(** ** Decimal numbers *)

Fixpoint digits_from (fuel : nat) (n : N) (acc : list N) : list N :=
  match fuel with
  | 0%nat => acc
  | S fuel =>
      let acc := (48 + n `mod` 10) :: acc in
      if n / 10 =? 0 then acc else digits_from fuel (n / 10) acc
  end.

(** [Display] of an unsigned integer. *)
Definition show_N (n : N) : list N := digits_from (S (N.size_nat n)) n [].

Definition is_digit (b : N) : bool := (48 <=? b) && (b <=? 57).
Definition digits_value (l : list N) : N := foldl (λ v b, 10 * v + (b - 48)) 0 l.

(** [str::parse] to an unsigned integer of the given maximum. *)
Definition parse_unsigned (max : N) (l : list N) : option N :=
  let digits := match l with b :: r => if b =? 43 then r else l | [] => [] end in
  if is_empty digits || negb (forallb is_digit digits) then None
  else if digits_value digits <=? max then Some (digits_value digits) else None.

Lemma digits_value_app l k :
  digits_value (l ++ k) = digits_value l * 10 ^ N.of_nat (length k) + digits_value k.
Proof.
  unfold digits_value. rewrite foldl_app. generalize (foldl (λ v b, 10 * v + (b - 48)) 0 l).
  induction k as [|b k IH] using rev_ind; intros v; [simpl; lia|].
  rewrite !foldl_app, length_app, Nat.add_comm. simpl. rewrite IH.
  rewrite Nat2N.inj_succ, N.pow_succ_r'. nia.
Qed.

Lemma digits_from_app fuel n acc : digits_from fuel n acc = digits_from fuel n [] ++ acc.
Proof.
  revert n acc. induction fuel as [|fuel IH]; intros n acc; simpl; [done|].
  destruct (n / 10 =? 0); [done|]. rewrite IH, (IH _ [_]), <-app_assoc. done.
Qed.

Lemma digits_from_spec fuel n :
  n < 2 ^ N.of_nat fuel → (0 < fuel)%nat →
  digits_value (digits_from fuel n []) = n ∧ digits_from fuel n [] ≠ [] ∧
  forallb is_digit (digits_from fuel n []) = true.
Proof.
  revert n. induction fuel as [|fuel IH]; intros n Hn Hf; [lia|]. cbn [digits_from].
  pose proof (N.mod_lt n 10 ltac:(done)) as Hm. pose proof (N.div_mod n 10 ltac:(done)) as Hd.
  revert Hm Hd. generalize (n `mod` 10) as m, (n / 10) as q. intros m q Hm Hd.
  assert (is_digit (48 + m) = true) as Hdig.
  { unfold is_digit. apply andb_true_iff. rewrite !N.leb_le. lia. }
  assert (digits_value [48 + m] = m) as Hone
    by (change (digits_value [48 + m]) with (10 * 0 + (48 + m - 48)); lia).
  destruct (N.eqb_spec q 0) as [E|E].
  - split_and!; [|done|].
    + rewrite Hone. lia.
    + cbn [forallb]. by rewrite Hdig.
  - assert (q < 2 ^ N.of_nat fuel) as Hlt.
    { rewrite Nat2N.inj_succ, N.pow_succ_r' in Hn. lia. }
    destruct fuel as [|fuel]; [simpl in Hlt; lia|].
    destruct (IH q Hlt ltac:(lia)) as (Hv & Hne & Hds).
    rewrite digits_from_app. split_and!.
    + rewrite digits_value_app, Hv. cbn [length].
      rewrite Hone. change (10 ^ N.of_nat 1) with 10. lia.
    + by destruct (digits_from (S fuel) q []).
    + rewrite forallb_app, Hds. cbn [forallb]. by rewrite Hdig.
Qed.

Lemma size_nat_bound n : n < 2 ^ N.of_nat (S (N.size_nat n)).
Proof.
  rewrite Nat2N.inj_succ, N.pow_succ_r'.
  assert (N.of_nat (N.size_nat n) = N.size n) as ->.
  { destruct n as [|p]; [done|]. simpl. induction p; simpl in *; lia. }
  pose proof (N.size_gt n). lia.
Qed.

Lemma show_N_spec n :
  digits_value (show_N n) = n ∧ show_N n ≠ [] ∧ forallb is_digit (show_N n) = true.
Proof. apply digits_from_spec; [apply size_nat_bound | lia]. Qed.

Lemma parse_show_N max n : n <= max → parse_unsigned max (show_N n) = Some n.
Proof.
  intros Hn. destruct (show_N_spec n) as (Hv & Hne & Hd). unfold parse_unsigned.
  destruct (show_N n) as [|b r] eqn:E; [done|].
  assert ((b =? 43) = false) as ->.
  { cbn [forallb] in Hd. apply andb_true_iff in Hd as [Hb _]. unfold is_digit in Hb.
    apply andb_true_iff in Hb as [Hb _]. apply N.leb_le in Hb. apply N.eqb_neq. lia. }
  cbn [is_empty orb]. rewrite Hd. cbn [negb]. rewrite Hv. by rewrite (proj2 (N.leb_le n max)).
Qed.

(** ** Words and normalization *)

Fixpoint split_words (word : list N) (l : list N) : list (list N) :=
  let flush := if is_empty word then [] else [rev word] in
  match l with
  | [] => flush
  | a :: l1 =>
      if ascii_white a then flush ++ split_words [] l1 else
      match l1 with
      | [] => split_words (a :: word) l1
      | b :: l2 =>
          if white2 a b then flush ++ split_words [] l2 else
          match l2 with
          | [] => split_words (a :: word) l1
          | c :: l3 =>
              if white3 a b c then flush ++ split_words [] l3
              else split_words (a :: word) l1
          end
      end
  end.

(** [str::split_whitespace]. *)
Definition split_whitespace (s : string) : list (list N) := split_words [] (bytes_of s).

Fixpoint join_space (words : list (list N)) : list N :=
  match words with
  | [] => []
  | [w] => w
  | w :: ws => w ++ [32] ++ join_space ws
  end.

Definition ascii_lower (b : N) : N := if (65 <=? b) && (b <=? 90) then b + 32 else b.

(** The joined words have no space at either end, so the code's [trim] returns
    them as they are. *)
Definition normalize_component (value : string) : string :=
  string_of_bytes (map ascii_lower (join_space (split_whitespace value))).

(** [str::split] at every byte that is not an ASCII letter or digit, without
    the empty pieces. *)
Definition is_ascii_alphanumeric (b : N) : bool :=
  is_digit b || ((65 <=? b) && (b <=? 90)) || ((97 <=? b) && (b <=? 122)).

Fixpoint split_tokens (word l : list N) : list (list N) :=
  let flush := if is_empty word then [] else [rev word] in
  match l with
  | [] => flush
  | a :: l' =>
      if is_ascii_alphanumeric a then split_tokens (a :: word) l'
      else flush ++ split_tokens [] l'
  end.

Definition tokenize (value : string) : list (list N) :=
  split_tokens [] (bytes_of (normalize_component value)).

(** Equal tokens, or long ones that agree in their first five characters. *)
Definition tokens_related (left right : list N) : bool :=
  bool_decide (left = right) ||
  (5 <=? length left)%nat && (5 <=? length right)%nat &&
  forallb (λ '(l, r), bool_decide (l = r)) (take 5 (zip (chars left) (chars right))).

(** [usize::div_ceil]. *)
Definition div_ceil (a b : N) : N := (a + b - 1) / b.

(** One token per three bytes, and at least one per word. *)
Definition token_estimate (text : list N) : N :=
  if is_empty text then 0
  else N.max (N.of_nat (length (split_words [] text))) (div_ceil (N.of_nat (length text)) 3).

Definition conservative_token_estimate (text : string) : N := token_estimate (bytes_of text).

(** [stable_hash]: 64-bit FNV-1a. *)
Definition stable_hash (value : list N) : N :=
  foldl (λ hash byte, N.land (N.lxor hash byte * 1099511628211) u64_max)
    14695981039346656037 value.
