(* ===== verification/Types.v ===== *)
(** * Types: the data of the program

    The enumerations and row types of [crates/memphant-types/src/lib.rs] and
    the row types [crates/memphant-core/src/lib.rs] adds for its store.  An
    enumeration is a module with the source's constructors
    ([MemoryKind.Semantic] is [MemoryKind::Semantic]); a row is a record whose
    field names carry a short prefix.  Identifiers wrap a 128-bit UUID and are
    [N], ordered as [Uuid] orders its bytes; floats are their bit patterns,
    with the comparison of [PartialEq]. *)

From S2P Require Import Prelude.

Notation TenantId := N (only parsing).
Notation SubjectId := N (only parsing).
Notation ActorId := N (only parsing).
Notation ScopeId := N (only parsing).
Notation AgentNodeId := N (only parsing).
Notation UnitId := N (only parsing).
Notation EdgeId := N (only parsing).
Notation EpisodeId := N (only parsing).
Notation ResourceId := N (only parsing).
Notation JobId := N (only parsing).
Notation TaskId := N (only parsing).
Notation TraceId := N (only parsing).
Notation Uuid := N (only parsing).
Notation f32 := N (only parsing).
Notation f64 := N (only parsing).

(** IEEE 754 equality on bit patterns: NaN differs from itself, the two zeros
    are equal. *)
Definition f32_is_nan (x : f32) : bool := 0x7f800000 <? N.land x 0x7fffffff.
Definition f32_eqb (x y : f32) : bool :=
  negb (f32_is_nan x) && negb (f32_is_nan y) &&
  ((x =? y) || ((N.land x 0x7fffffff =? 0) && (N.land y 0x7fffffff =? 0))).

(** ** Enumerations *)

Module MemoryKind.
Inductive t : Set := Episodic | Semantic | Procedural | Belief | Resource | Preference.
#[export] Instance t_eq_dec : EqDecision t.
Proof. solve_decision. Defined.
(** The discriminant order of [derive(PartialOrd)]. *)
Definition to_N (k : t) : N :=
  match k with
  | Episodic => 0 | Semantic => 1 | Procedural => 2
  | Belief => 3 | Resource => 4 | Preference => 5
  end.
Definition of_N (n : N) : option t :=
  match n with
  | 0 => Some Episodic | 1 => Some Semantic | 2 => Some Procedural
  | 3 => Some Belief | 4 => Some Resource | 5 => Some Preference | _ => None
  end.
#[export] Program Instance t_countable : Countable t :=
  inj_countable to_N of_N _.
Next Obligation. by intros []. Qed.
Definition ALL : list t := [Episodic; Semantic; Procedural; Belief; Resource; Preference].
End MemoryKind.
Export (hints) MemoryKind.

Module UnitState.
Inductive t : Set :=
| Candidate | Active | Superseded | Invalidated | Deleted | Quarantined | Expired | Validated.
#[export] Instance t_eq_dec : EqDecision t.
Proof. solve_decision. Defined.
End UnitState.
Export (hints) UnitState.

Module TrustLevel.
Inductive t : Set :=
| TrustedUser | TrustedSystem | VerifiedTool | UnverifiedTool
| WebContent | AgentOutput | ImportedExternal | Quarantined.
#[export] Instance t_eq_dec : EqDecision t.
Proof. solve_decision. Defined.
End TrustLevel.
Export (hints) TrustLevel.

Module ResourceExtractorState.
Inductive t : Set :=
| Registered | Fetching | Extracting | Chunked | Embedded | Failed | Stale.
#[export] Instance t_eq_dec : EqDecision t.
Proof. solve_decision. Defined.
End ResourceExtractorState.
Export (hints) ResourceExtractorState.

Module ResourceKind.
Inductive t : Set := Document | Code | Conversation | Other.
#[export] Instance t_eq_dec : EqDecision t.
Proof. solve_decision. Defined.
End ResourceKind.
Export (hints) ResourceKind.

Module ResourceProtectedCategory.
Inductive t : Set :=
| CredentialsSecrets | PaymentFinancial | MedicalLegal
| PersonalIdentity | HighRiskToolArgs | ChildPrivateScope.
#[export] Instance t_eq_dec : EqDecision t.
Proof. solve_decision. Defined.
End ResourceProtectedCategory.
Export (hints) ResourceProtectedCategory.

Module MemoryEdgeKind.
Inductive t : Set :=
| Supersedes | Contradicts | DerivedFrom | Cites | SameSubject | DependsOn.
#[export] Instance t_eq_dec : EqDecision t.
Proof. solve_decision. Defined.
End MemoryEdgeKind.
Export (hints) MemoryEdgeKind.

Module AdmissionAction.
Inductive t : Set := Reject | Append | Merge | Supersede | Invalidate | Quarantine.
#[export] Instance t_eq_dec : EqDecision t.
Proof. solve_decision. Defined.
End AdmissionAction.
Export (hints) AdmissionAction.

Module ReflectJobKind.
Inductive t : Set := ReflectEpisode | ReflectResource | ReflectScope.
#[export] Instance t_eq_dec : EqDecision t.
Proof. solve_decision. Defined.
End ReflectJobKind.
Export (hints) ReflectJobKind.

Module MarkOutcome.
Inductive t : Set := Success | Failure | Corrected | Ignored.
#[export] Instance t_eq_dec : EqDecision t.
Proof. solve_decision. Defined.
End MarkOutcome.
Export (hints) MarkOutcome.

Module InvalidationReason.
Inductive t : Set := Stale | Harmful.
#[export] Instance t_eq_dec : EqDecision t.
Proof. solve_decision. Defined.
Definition as_str (r : t) : string :=
  match r with Stale => "stale" | Harmful => "harmful" end.
End InvalidationReason.
Export (hints) InvalidationReason.

Module TaskCompletionStatus.
Inductive t : Set := Completed | Failed | Cancelled.
#[export] Instance t_eq_dec : EqDecision t.
Proof. solve_decision. Defined.
End TaskCompletionStatus.
Export (hints) TaskCompletionStatus.

Module TaskValidatorStatus.
Inductive t : Set := Passed | Failed | NotRun.
#[export] Instance t_eq_dec : EqDecision t.
Proof. solve_decision. Defined.
End TaskValidatorStatus.
Export (hints) TaskValidatorStatus.

Module TaskMemoryEventKind.
Inductive t : Set := Shown | Activated | Helpful | Harmful | Silenced.
#[export] Instance t_eq_dec : EqDecision t.
Proof. solve_decision. Defined.
End TaskMemoryEventKind.
Export (hints) TaskMemoryEventKind.

Module TaskMemoryAttribution.
Inductive t : Set :=
| ExplicitUser | DeterministicScorer | RandomizedCounterfactual | Observational.
#[export] Instance t_eq_dec : EqDecision t.
Proof. solve_decision. Defined.
End TaskMemoryAttribution.
Export (hints) TaskMemoryAttribution.

(** ** Capture markers *)

Module CaptureSource.
Inductive t : Set := Mirror | Summary | ErrFix | Directive.
#[export] Instance t_eq_dec : EqDecision t.
Proof. solve_decision. Defined.
End CaptureSource.
Export (hints) CaptureSource.

Module CaptureLadder.
Inductive t : Set := Captured | Corroborated | Durable.
#[export] Instance t_eq_dec : EqDecision t.
Proof. solve_decision. Defined.
(** [derive(PartialOrd, Ord)]: declaration order. *)
Definition to_N (l : t) : N := match l with Captured => 0 | Corroborated => 1 | Durable => 2 end.
Definition max (l r : t) : t := if to_N l <=? to_N r then r else l.
End CaptureLadder.
Export (hints) CaptureLadder.

Module CaptureWitness.
Inductive t : Set := SourceAgreement | WeakOutcome | Survival.
#[export] Instance t_eq_dec : EqDecision t.
Proof. solve_decision. Defined.
Definition to_N (w : t) : N :=
  match w with SourceAgreement => 0 | WeakOutcome => 1 | Survival => 2 end.
Definition leb (v w : t) : bool := to_N v <=? to_N w.
End CaptureWitness.
Export (hints) CaptureWitness.

Record CaptureMarker : Set := mkCaptureMarker {
  cm_source : CaptureSource.t;
  cm_ladder : CaptureLadder.t;
  cm_witnesses : list CaptureWitness.t;
  cm_truncated : bool;
}.
#[export] Instance CaptureMarker_eta : Eta CaptureMarker := λ r,
  mkCaptureMarker (cm_source r) (cm_ladder r) (cm_witnesses r) (cm_truncated r).
#[export] Instance CaptureMarker_eq_dec : EqDecision CaptureMarker.
Proof. solve_decision. Defined.

Definition captured (source : CaptureSource.t) : CaptureMarker :=
  mkCaptureMarker source CaptureLadder.Captured [] false.

Definition record_witness (m : CaptureMarker) (w : CaptureWitness.t) : CaptureMarker * bool :=
  if bool_decide (w ∈ cm_witnesses m) then (m, false)
  else (m <| cm_witnesses := sort_by CaptureWitness.leb (cm_witnesses m ++ [w]) |>, true).

Definition distinct_witness_count (m : CaptureMarker) : nat :=
  length (dedup_by (λ v w, bool_decide (v = w)) (sort_by CaptureWitness.leb (cm_witnesses m))).

Definition rung_for_witnesses (m : CaptureMarker) : CaptureLadder.t :=
  match distinct_witness_count m with
  | 0%nat => CaptureLadder.Captured
  | 1%nat => CaptureLadder.Corroborated
  | _ => CaptureLadder.Durable
  end.

(** ** Rows *)

Record ContextualChunk : Set := mkContextualChunk {
  ch_id : string;
  ch_header : string;
  ch_body : string;
  ch_source_span : option string;
}.
#[export] Instance ContextualChunk_eta : Eta ContextualChunk := λ r,
  mkContextualChunk (ch_id r) (ch_header r) (ch_body r) (ch_source_span r).
#[export] Instance ContextualChunk_eq_dec : EqDecision ContextualChunk.
Proof. solve_decision. Defined.

Record CompactEnvelope : Set := mkCompactEnvelope {
  ce_schema_version : N;
  ce_verification : string;
  ce_body_sha256 : string;
  ce_write_channel : string;
}.
#[export] Instance CompactEnvelope_eta : Eta CompactEnvelope := λ r,
  mkCompactEnvelope (ce_schema_version r) (ce_verification r) (ce_body_sha256 r)
    (ce_write_channel r).
#[export] Instance CompactEnvelope_eq_dec : EqDecision CompactEnvelope.
Proof. solve_decision. Defined.

Record InvalidationMarker : Set := mkInvalidationMarker {
  im_kind : InvalidationReason.t;
  im_reason : string;
}.
#[export] Instance InvalidationMarker_eta : Eta InvalidationMarker := λ r,
  mkInvalidationMarker (im_kind r) (im_reason r).
#[export] Instance InvalidationMarker_eq_dec : EqDecision InvalidationMarker.
Proof. solve_decision. Defined.

Record NewEpisode : Set := mkNewEpisode {
  ne_tenant_id : TenantId;
  ne_data_subject_id : SubjectId;
  ne_scope_id : ScopeId;
  ne_actor_id : ActorId;
  ne_agent_node_id : AgentNodeId;
  ne_subject_generation : N;
  ne_source_kind : string;
  ne_source_ref : string;
  ne_observed_at : string;
  ne_source_trust : TrustLevel.t;
  ne_dedup_key : string;
  ne_body : string;
}.
#[export] Instance NewEpisode_eta : Eta NewEpisode := λ r,
  mkNewEpisode (ne_tenant_id r) (ne_data_subject_id r) (ne_scope_id r) (ne_actor_id r)
    (ne_agent_node_id r) (ne_subject_generation r) (ne_source_kind r)
    (ne_source_ref r) (ne_observed_at r) (ne_source_trust r)
    (ne_dedup_key r) (ne_body r).

Record StoredEpisode : Set := mkStoredEpisode {
  ep_id : EpisodeId;
  ep_tenant_id : TenantId;
  ep_data_subject_id : SubjectId;
  ep_scope_id : ScopeId;
  ep_actor_id : ActorId;
  ep_agent_node_id : AgentNodeId;
  ep_subject_generation : N;
  ep_source_kind : string;
  ep_source_ref : string;
  ep_source_trust : TrustLevel.t;
  ep_dedup_key : string;
  ep_body : string;
  ep_observation_count : N;
  ep_first_observed_at : string;
  ep_last_observed_at : string;
}.
#[export] Instance StoredEpisode_eta : Eta StoredEpisode := λ r,
  mkStoredEpisode (ep_id r) (ep_tenant_id r) (ep_data_subject_id r) (ep_scope_id r)
    (ep_actor_id r) (ep_agent_node_id r) (ep_subject_generation r)
    (ep_source_kind r) (ep_source_ref r) (ep_source_trust r)
    (ep_dedup_key r) (ep_body r) (ep_observation_count r)
    (ep_first_observed_at r) (ep_last_observed_at r).
#[export] Instance StoredEpisode_eq_dec : EqDecision StoredEpisode.
Proof. solve_decision. Defined.

Record ResourceAcl : Set := mkResourceAcl {
  acl_scopes : list ScopeId;
  acl_trust_floor : option TrustLevel.t;
  acl_protected : option ResourceProtectedCategory.t;
}.
#[export] Instance ResourceAcl_eta : Eta ResourceAcl := λ r,
  mkResourceAcl (acl_scopes r) (acl_trust_floor r) (acl_protected r).
#[export] Instance ResourceAcl_eq_dec : EqDecision ResourceAcl.
Proof. solve_decision. Defined.

Definition acl_is_empty (acl : ResourceAcl) : bool :=
  match acl_scopes acl, acl_trust_floor acl, acl_protected acl with
  | [], None, None => true
  | _, _, _ => false
  end.
Definition acl_is_deep_eligible (acl : ResourceAcl) : bool := acl_is_empty acl.

Record NewResource : Set := mkNewResource {
  nr_tenant_id : TenantId;
  nr_data_subject_id : SubjectId;
  nr_scope_id : ScopeId;
  nr_actor_id : ActorId;
  nr_agent_node_id : AgentNodeId;
  nr_subject_generation : N;
  nr_uri : string;
  nr_source_ref : string;
  nr_observed_at : string;
  nr_kind : ResourceKind.t;
  nr_content_hash : string;
  nr_mime_type : string;
  nr_revision : option string;
  nr_body : option string;
  nr_source_trust : TrustLevel.t;
  nr_acl : ResourceAcl;
}.
#[export] Instance NewResource_eta : Eta NewResource := λ r,
  mkNewResource (nr_tenant_id r) (nr_data_subject_id r) (nr_scope_id r) (nr_actor_id r)
    (nr_agent_node_id r) (nr_subject_generation r) (nr_uri r)
    (nr_source_ref r) (nr_observed_at r) (nr_kind r) (nr_content_hash r)
    (nr_mime_type r) (nr_revision r) (nr_body r) (nr_source_trust r)
    (nr_acl r).

Record StoredResource : Set := mkStoredResource {
  re_id : ResourceId;
  re_tenant_id : TenantId;
  re_data_subject_id : SubjectId;
  re_scope_id : ScopeId;
  re_actor_id : ActorId;
  re_agent_node_id : AgentNodeId;
  re_subject_generation : N;
  re_uri : string;
  re_source_ref : string;
  re_observed_at : string;
  re_kind : ResourceKind.t;
  re_content_hash : string;
  re_mime_type : string;
  re_revision : option string;
  re_body : option string;
  re_source_trust : TrustLevel.t;
  re_acl : ResourceAcl;
  re_extractor_state : ResourceExtractorState.t;
}.
#[export] Instance StoredResource_eta : Eta StoredResource := λ r,
  mkStoredResource (re_id r) (re_tenant_id r) (re_data_subject_id r) (re_scope_id r)
    (re_actor_id r) (re_agent_node_id r) (re_subject_generation r)
    (re_uri r) (re_source_ref r) (re_observed_at r) (re_kind r)
    (re_content_hash r) (re_mime_type r) (re_revision r) (re_body r)
    (re_source_trust r) (re_acl r) (re_extractor_state r).
#[export] Instance StoredResource_eq_dec : EqDecision StoredResource.
Proof. solve_decision. Defined.

Record NewMemoryUnit : Set := mkNewMemoryUnit {
  nu_tenant_id : TenantId;
  nu_data_subject_id : SubjectId;
  nu_scope_id : ScopeId;
  nu_agent_node_id : AgentNodeId;
  nu_subject_generation : N;
  nu_kind : MemoryKind.t;
  nu_state : UnitState.t;
  nu_fact_key : option string;
  nu_predicate : option string;
  nu_body : string;
  nu_confidence : option f32;
  nu_trust_level : TrustLevel.t;
  nu_churn_class : option string;
  nu_freshness_due_at : option string;
  nu_actor_id : option ActorId;
  nu_source_kind : option string;
  nu_source_ref : string;
  nu_observed_at : string;
  nu_source_episode_id : option EpisodeId;
  nu_source_resource_id : option ResourceId;
  nu_deletion_generation : option N;
  nu_contextual_chunks : list ContextualChunk;
  nu_valid_from : option string;
  nu_valid_to : option string;
  nu_transaction_from : option string;
  nu_transaction_to : option string;
  nu_capture : option CaptureMarker;
}.
#[export] Instance NewMemoryUnit_eta : Eta NewMemoryUnit := λ r,
  mkNewMemoryUnit (nu_tenant_id r) (nu_data_subject_id r) (nu_scope_id r)
    (nu_agent_node_id r) (nu_subject_generation r) (nu_kind r) (nu_state r)
    (nu_fact_key r) (nu_predicate r) (nu_body r) (nu_confidence r)
    (nu_trust_level r) (nu_churn_class r) (nu_freshness_due_at r)
    (nu_actor_id r) (nu_source_kind r) (nu_source_ref r) (nu_observed_at r)
    (nu_source_episode_id r) (nu_source_resource_id r)
    (nu_deletion_generation r) (nu_contextual_chunks r) (nu_valid_from r)
    (nu_valid_to r) (nu_transaction_from r) (nu_transaction_to r)
    (nu_capture r).

Record StoredMemoryUnit : Set := mkStoredMemoryUnit {
  mu_id : UnitId;
  mu_tenant_id : TenantId;
  mu_data_subject_id : SubjectId;
  mu_scope_id : ScopeId;
  mu_agent_node_id : AgentNodeId;
  mu_subject_generation : N;
  mu_kind : MemoryKind.t;
  mu_state : UnitState.t;
  mu_fact_key : option string;
  mu_predicate : option string;
  mu_body : string;
  mu_confidence : option f32;
  mu_trust_level : TrustLevel.t;
  mu_churn_class : option string;
  mu_freshness_due_at : option string;
  mu_actor_id : option ActorId;
  mu_source_kind : option string;
  mu_source_ref : string;
  mu_observed_at : string;
  mu_source_episode_id : option EpisodeId;
  mu_source_resource_id : option ResourceId;
  mu_deletion_generation : option N;
  mu_contextual_chunks : list ContextualChunk;
  mu_valid_from : option string;
  mu_valid_to : option string;
  mu_transaction_from : option string;
  mu_transaction_to : option string;
  mu_last_reinforced_at : option string;
  mu_reinforcement_count : N;
  mu_compact : option CompactEnvelope;
  mu_invalidation : option InvalidationMarker;
  mu_capture : option CaptureMarker;
}.
#[export] Instance StoredMemoryUnit_eta : Eta StoredMemoryUnit := λ r,
  mkStoredMemoryUnit (mu_id r) (mu_tenant_id r) (mu_data_subject_id r) (mu_scope_id r)
    (mu_agent_node_id r) (mu_subject_generation r) (mu_kind r) (mu_state r)
    (mu_fact_key r) (mu_predicate r) (mu_body r) (mu_confidence r)
    (mu_trust_level r) (mu_churn_class r) (mu_freshness_due_at r)
    (mu_actor_id r) (mu_source_kind r) (mu_source_ref r) (mu_observed_at r)
    (mu_source_episode_id r) (mu_source_resource_id r)
    (mu_deletion_generation r) (mu_contextual_chunks r) (mu_valid_from r)
    (mu_valid_to r) (mu_transaction_from r) (mu_transaction_to r)
    (mu_last_reinforced_at r) (mu_reinforcement_count r) (mu_compact r)
    (mu_invalidation r) (mu_capture r).

Record StoredMemoryEdge : Set := mkStoredMemoryEdge {
  ed_id : EdgeId;
  ed_tenant_id : TenantId;
  ed_scope_id : ScopeId;
  ed_src_id : UnitId;
  ed_dst_id : UnitId;
  ed_kind : MemoryEdgeKind.t;
  ed_transaction_from : option string;
  ed_transaction_to : option string;
}.
#[export] Instance StoredMemoryEdge_eta : Eta StoredMemoryEdge := λ r,
  mkStoredMemoryEdge (ed_id r) (ed_tenant_id r) (ed_scope_id r) (ed_src_id r) (ed_dst_id r)
    (ed_kind r) (ed_transaction_from r) (ed_transaction_to r).
#[export] Instance StoredMemoryEdge_eq_dec : EqDecision StoredMemoryEdge.
Proof. solve_decision. Defined.

Record NewMemoryEdge : Set := mkNewMemoryEdge {
  nd_tenant_id : TenantId;
  nd_scope_id : ScopeId;
  nd_src_id : UnitId;
  nd_dst_id : UnitId;
  nd_kind : MemoryEdgeKind.t;
}.
#[export] Instance NewMemoryEdge_eta : Eta NewMemoryEdge := λ r,
  mkNewMemoryEdge (nd_tenant_id r) (nd_scope_id r) (nd_src_id r) (nd_dst_id r)
    (nd_kind r).

Record CitationSpan : Set := mkCitationSpan {
  cs_start : N;
  cs_end : N;
}.
#[export] Instance CitationSpan_eta : Eta CitationSpan := λ r,
  mkCitationSpan (cs_start r) (cs_end r).
#[export] Instance CitationSpan_eq_dec : EqDecision CitationSpan.
Proof. solve_decision. Defined.

Record StoredCitation : Set := mkStoredCitation {
  ci_id : Uuid;
  ci_tenant_id : TenantId;
  ci_data_subject_id : SubjectId;
  ci_scope_id : ScopeId;
  ci_agent_node_id : AgentNodeId;
  ci_subject_generation : N;
  ci_memory_unit_id : UnitId;
  ci_episode_id : option EpisodeId;
  ci_resource_id : option ResourceId;
  ci_span : option CitationSpan;
  ci_quote_hash : option string;
}.
#[export] Instance StoredCitation_eta : Eta StoredCitation := λ r,
  mkStoredCitation (ci_id r) (ci_tenant_id r) (ci_data_subject_id r) (ci_scope_id r)
    (ci_agent_node_id r) (ci_subject_generation r) (ci_memory_unit_id r)
    (ci_episode_id r) (ci_resource_id r) (ci_span r) (ci_quote_hash r).
#[export] Instance StoredCitation_eq_dec : EqDecision StoredCitation.
Proof. solve_decision. Defined.

Record ReflectJob : Set := mkReflectJob {
  rj_tenant_id : TenantId;
  rj_data_subject_id : SubjectId;
  rj_scope_id : ScopeId;
  rj_actor_id : ActorId;
  rj_agent_node_id : AgentNodeId;
  rj_subject_generation : N;
  rj_episode_id : option EpisodeId;
  rj_resource_id : option ResourceId;
  rj_kind : ReflectJobKind.t;
  rj_compiler_version : string;
  rj_subject : option string;
  rj_predicate : option string;
}.
#[export] Instance ReflectJob_eta : Eta ReflectJob := λ r,
  mkReflectJob (rj_tenant_id r) (rj_data_subject_id r) (rj_scope_id r) (rj_actor_id r)
    (rj_agent_node_id r) (rj_subject_generation r) (rj_episode_id r)
    (rj_resource_id r) (rj_kind r) (rj_compiler_version r) (rj_subject r)
    (rj_predicate r).

Record QueuedReflectJob : Set := mkQueuedReflectJob {
  qj_id : JobId;
  qj_tenant_id : TenantId;
  qj_data_subject_id : SubjectId;
  qj_scope_id : ScopeId;
  qj_actor_id : ActorId;
  qj_agent_node_id : AgentNodeId;
  qj_subject_generation : N;
  qj_episode_id : option EpisodeId;
  qj_resource_id : option ResourceId;
  qj_kind : ReflectJobKind.t;
  qj_compiler_version : string;
  qj_subject : option string;
  qj_predicate : option string;
}.
#[export] Instance QueuedReflectJob_eta : Eta QueuedReflectJob := λ r,
  mkQueuedReflectJob (qj_id r) (qj_tenant_id r) (qj_data_subject_id r) (qj_scope_id r)
    (qj_actor_id r) (qj_agent_node_id r) (qj_subject_generation r)
    (qj_episode_id r) (qj_resource_id r) (qj_kind r)
    (qj_compiler_version r) (qj_subject r) (qj_predicate r).
#[export] Instance QueuedReflectJob_eq_dec : EqDecision QueuedReflectJob.
Proof. solve_decision. Defined.

Record ReflectStageFact : Set := mkReflectStageFact {
  sf_stage : string;
  sf_detail : string;
}.
#[export] Instance ReflectStageFact_eta : Eta ReflectStageFact := λ r,
  mkReflectStageFact (sf_stage r) (sf_detail r).
#[export] Instance ReflectStageFact_eq_dec : EqDecision ReflectStageFact.
Proof. solve_decision. Defined.

Record ReflectTrace : Set := mkReflectTrace {
  rt_tenant_id : TenantId;
  rt_scope_id : ScopeId;
  rt_job_id : JobId;
  rt_episode_id : option EpisodeId;
  rt_resource_id : option ResourceId;
  rt_compiler_version : string;
  rt_actions : list AdmissionAction.t;
  rt_stages : list ReflectStageFact;
  rt_cost_units : N;
}.
#[export] Instance ReflectTrace_eta : Eta ReflectTrace := λ r,
  mkReflectTrace (rt_tenant_id r) (rt_scope_id r) (rt_job_id r) (rt_episode_id r)
    (rt_resource_id r) (rt_compiler_version r) (rt_actions r) (rt_stages r)
    (rt_cost_units r).
#[export] Instance ReflectTrace_eq_dec : EqDecision ReflectTrace.
Proof. solve_decision. Defined.

(** Of a recall trace the store reads the owner and the served ids; the other
    columns travel with it as one opaque value. *)
Record RecallItemIds : Set := mkRecallItemIds {
  ri_unit_id : UnitId;
  ri_derived_from_unit_ids : list UnitId;
}.
#[export] Instance RecallItemIds_eta : Eta RecallItemIds := λ r,
  mkRecallItemIds (ri_unit_id r) (ri_derived_from_unit_ids r).
#[export] Instance RecallItemIds_eq_dec : EqDecision RecallItemIds.
Proof. solve_decision. Defined.

Record RetrievalTrace : Set := mkRetrievalTrace {
  tr_id : TraceId;
  tr_tenant_id : TenantId;
  tr_data_subject_id : SubjectId;
  tr_scope_id : ScopeId;
  tr_actor_id : ActorId;
  tr_agent_node_id : AgentNodeId;
  tr_subject_generation : N;
  tr_policy_revision : string;
  tr_context_items : list RecallItemIds;
  tr_columns : string;
}.
#[export] Instance RetrievalTrace_eta : Eta RetrievalTrace := λ r,
  mkRetrievalTrace (tr_id r) (tr_tenant_id r) (tr_data_subject_id r) (tr_scope_id r)
    (tr_actor_id r) (tr_agent_node_id r) (tr_subject_generation r)
    (tr_policy_revision r) (tr_context_items r) (tr_columns r).
#[export] Instance RetrievalTrace_eq_dec : EqDecision RetrievalTrace.
Proof. solve_decision. Defined.

Record ReviewEvent : Set := mkReviewEvent {
  rv_tenant_id : TenantId;
  rv_trace_id : TraceId;
  rv_caller_id : string;
  rv_used_ids : list UnitId;
  rv_outcome : MarkOutcome.t;
  rv_recorded_at : string;
}.
#[export] Instance ReviewEvent_eta : Eta ReviewEvent := λ r,
  mkReviewEvent (rv_tenant_id r) (rv_trace_id r) (rv_caller_id r) (rv_used_ids r)
    (rv_outcome r) (rv_recorded_at r).
#[export] Instance ReviewEvent_eq_dec : EqDecision ReviewEvent.
Proof. solve_decision. Defined.

Record TaskOutcomeRow : Set := mkTaskOutcomeRow {
  to_tenant_id : TenantId;
  to_data_subject_id : SubjectId;
  to_subject_generation : N;
  to_scope_id : ScopeId;
  to_agent_node_id : AgentNodeId;
  to_actor_id : ActorId;
  to_task_id : TaskId;
  to_harness_id : string;
  to_model_id : string;
  to_started_at : string;
  to_ended_at : string;
  to_completion_status : TaskCompletionStatus.t;
  to_validator_status : TaskValidatorStatus.t;
  to_tool_count : N;
  to_failure_count : N;
  to_retry_count : N;
  to_planned_files : option (list string);
  to_actual_files : list string;
  to_scope_recall : option f64;
  to_scope_precision : option f64;
  to_scope_jaccard : option f64;
  to_transcript_sha256 : string;
  to_recorded_at : string;
}.
#[export] Instance TaskOutcomeRow_eta : Eta TaskOutcomeRow := λ r,
  mkTaskOutcomeRow (to_tenant_id r) (to_data_subject_id r) (to_subject_generation r)
    (to_scope_id r) (to_agent_node_id r) (to_actor_id r) (to_task_id r)
    (to_harness_id r) (to_model_id r) (to_started_at r) (to_ended_at r)
    (to_completion_status r) (to_validator_status r) (to_tool_count r)
    (to_failure_count r) (to_retry_count r) (to_planned_files r)
    (to_actual_files r) (to_scope_recall r) (to_scope_precision r)
    (to_scope_jaccard r) (to_transcript_sha256 r) (to_recorded_at r).

Record TaskMemoryEventRow : Set := mkTaskMemoryEventRow {
  te_tenant_id : TenantId;
  te_data_subject_id : SubjectId;
  te_subject_generation : N;
  te_scope_id : ScopeId;
  te_agent_node_id : AgentNodeId;
  te_actor_id : ActorId;
  te_task_id : TaskId;
  te_unit_id : UnitId;
  te_event : TaskMemoryEventKind.t;
  te_attribution : TaskMemoryAttribution.t;
  te_recorded_at : string;
}.
#[export] Instance TaskMemoryEventRow_eta : Eta TaskMemoryEventRow := λ r,
  mkTaskMemoryEventRow (te_tenant_id r) (te_data_subject_id r) (te_subject_generation r)
    (te_scope_id r) (te_agent_node_id r) (te_actor_id r) (te_task_id r)
    (te_unit_id r) (te_event r) (te_attribution r) (te_recorded_at r).
#[export] Instance TaskMemoryEventRow_eq_dec : EqDecision TaskMemoryEventRow.
Proof. solve_decision. Defined.

Record EmbeddingProfileRow : Set := mkEmbeddingProfileRow {
  pr_id : Uuid;
  pr_provider : string;
  pr_model : string;
  pr_dimensions : N;
  pr_distance : string;
  pr_version : string;
  pr_index_strategy : string;
}.
#[export] Instance EmbeddingProfileRow_eta : Eta EmbeddingProfileRow := λ r,
  mkEmbeddingProfileRow (pr_id r) (pr_provider r) (pr_model r) (pr_dimensions r)
    (pr_distance r) (pr_version r) (pr_index_strategy r).
#[export] Instance EmbeddingProfileRow_eq_dec : EqDecision EmbeddingProfileRow.
Proof. solve_decision. Defined.

Record EmbeddingRow : Set := mkEmbeddingRow {
  em_memory_unit_id : UnitId;
  em_embedding_profile_id : Uuid;
  em_vec : list f32;
}.
#[export] Instance EmbeddingRow_eta : Eta EmbeddingRow := λ r,
  mkEmbeddingRow (em_memory_unit_id r) (em_embedding_profile_id r) (em_vec r).

Record ApiKeyRow : Set := mkApiKeyRow {
  ak_id : Uuid;
  ak_tenant_id : TenantId;
  ak_key_hash : string;
  ak_label : string;
  ak_max_trust : TrustLevel.t;
  ak_data_subject_id : option SubjectId;
  ak_subject_generation : option N;
  ak_actor_id : option ActorId;
  ak_scope_id : option ScopeId;
  ak_agent_node_id : option AgentNodeId;
  ak_can_forget : bool;
  ak_can_audit_history : bool;
  ak_revoked : bool;
}.
#[export] Instance ApiKeyRow_eta : Eta ApiKeyRow := λ r,
  mkApiKeyRow (ak_id r) (ak_tenant_id r) (ak_key_hash r) (ak_label r)
    (ak_max_trust r) (ak_data_subject_id r) (ak_subject_generation r)
    (ak_actor_id r) (ak_scope_id r) (ak_agent_node_id r) (ak_can_forget r)
    (ak_can_audit_history r) (ak_revoked r).


(** [derive(PartialEq)] of the rows that hold floats. *)
Definition option_eqb {A} (eqb : A → A → bool) (x y : option A) : bool :=
  match x, y with Some x, Some y => eqb x y | None, None => true | _, _ => false end.
Fixpoint list_eqb {A} (eqb : A → A → bool) (l k : list A) : bool :=
  match l, k with
  | [], [] => true
  | x :: l, y :: k => eqb x y && list_eqb eqb l k
  | _, _ => false
  end.
#[export] Instance StoredMemoryUnit_eq_dec : EqDecision StoredMemoryUnit.
Proof. solve_decision. Defined.
Definition unit_eqb (u v : StoredMemoryUnit) : bool :=
  option_eqb f32_eqb (mu_confidence u) (mu_confidence v) &&
  bool_decide (u <| mu_confidence := None |> = v <| mu_confidence := None |>).
Definition embedding_eqb (r s : EmbeddingRow) : bool :=
  (em_memory_unit_id r =? em_memory_unit_id s) &&
  (em_embedding_profile_id r =? em_embedding_profile_id s) &&
  list_eqb f32_eqb (em_vec r) (em_vec s).

(** ** Contexts and policies *)

Record ResolvedMemorySource : Set := mkSource {
  so_scope_id : ScopeId;
  so_agent_node_id : AgentNodeId;
}.
#[export] Instance ResolvedMemorySource_eta : Eta ResolvedMemorySource := λ r,
  mkSource (so_scope_id r) (so_agent_node_id r).
#[export] Instance ResolvedMemorySource_eq_dec : EqDecision ResolvedMemorySource.
Proof. solve_decision. Defined.

Record ResolvedMemoryContext : Type := mkContext {
  cx_tenant_id : TenantId;
  cx_data_subject_id : SubjectId;
  cx_actor_id : ActorId;
  cx_actor_trust : TrustLevel.t;
  cx_scope_id : ScopeId;
  cx_agent_node_id : AgentNodeId;
  cx_agent_level : N;
  cx_subject_generation : N;
  cx_policy_revision : string;
  cx_sources_by_kind : gmap MemoryKind.t (list ResolvedMemorySource);
}.
#[export] Instance ResolvedMemoryContext_eta : Eta ResolvedMemoryContext := λ r,
  mkContext (cx_tenant_id r) (cx_data_subject_id r) (cx_actor_id r)
    (cx_actor_trust r) (cx_scope_id r) (cx_agent_node_id r)
    (cx_agent_level r) (cx_subject_generation r) (cx_policy_revision r)
    (cx_sources_by_kind r).

Definition allows (context : ResolvedMemoryContext) (kind : MemoryKind.t)
    (scope_id : ScopeId) (agent_node_id : AgentNodeId) : bool :=
  match cx_sources_by_kind context !! kind with
  | Some sources => bool_decide (mkSource scope_id agent_node_id ∈ sources)
  | None => false
  end.

Record ContextBindingEntityRef : Set := mkEntityRef {
  er_external_ref : string;
  er_kind : string;
}.
#[export] Instance ContextBindingEntityRef_eta : Eta ContextBindingEntityRef := λ r,
  mkEntityRef (er_external_ref r) (er_kind r).
#[export] Instance ContextBindingEntityRef_eq_dec : EqDecision ContextBindingEntityRef.
Proof. solve_decision. Defined.

Record ContextBindingScopeRef : Set := mkScopeRef {
  sr_external_ref : string;
  sr_kind : string;
  sr_parent_external_ref : option string;
}.
#[export] Instance ContextBindingScopeRef_eta : Eta ContextBindingScopeRef := λ r,
  mkScopeRef (sr_external_ref r) (sr_kind r) (sr_parent_external_ref r).
#[export] Instance ContextBindingScopeRef_eq_dec : EqDecision ContextBindingScopeRef.
Proof. solve_decision. Defined.

Record ContextBindingAgentRef : Set := mkAgentRef {
  ar_external_ref : string;
  ar_parent_external_ref : option string;
}.
#[export] Instance ContextBindingAgentRef_eta : Eta ContextBindingAgentRef := λ r,
  mkAgentRef (ar_external_ref r) (ar_parent_external_ref r).
#[export] Instance ContextBindingAgentRef_eq_dec : EqDecision ContextBindingAgentRef.
Proof. solve_decision. Defined.

Module ContextBindingAccessPolicy.
Inductive t : Set :=
| Inherit (source_scope_external_ref source_agent_node_external_ref : string)
    (kind : MemoryKind.t)
| Grant (source_scope_external_ref source_agent_node_external_ref : string)
    (kind : MemoryKind.t).
#[export] Instance t_eq_dec : EqDecision t.
Proof. solve_decision. Defined.
Definition source_scope_external_ref (p : t) : string :=
  match p with Inherit s _ _ | Grant s _ _ => s end.
Definition source_agent_node_external_ref (p : t) : string :=
  match p with Inherit _ a _ | Grant _ a _ => a end.
Definition kind (p : t) : MemoryKind.t :=
  match p with Inherit _ _ k | Grant _ _ k => k end.
End ContextBindingAccessPolicy.
Export (hints) ContextBindingAccessPolicy.

Record ContextBindingRequest : Set := mkBindingRequest {
  br_subject : ContextBindingEntityRef;
  br_actor : ContextBindingEntityRef;
  br_scope : ContextBindingScopeRef;
  br_agent_node : ContextBindingAgentRef;
  br_access_policies : list ContextBindingAccessPolicy.t;
}.
#[export] Instance ContextBindingRequest_eta : Eta ContextBindingRequest := λ r,
  mkBindingRequest (br_subject r) (br_actor r) (br_scope r) (br_agent_node r)
    (br_access_policies r).
#[export] Instance ContextBindingRequest_eq_dec : EqDecision ContextBindingRequest.
Proof. solve_decision. Defined.

Record ContextBindingResponse : Set := mkBindingResponse {
  bs_subject_id : SubjectId;
  bs_actor_id : ActorId;
  bs_scope_id : ScopeId;
  bs_agent_node_id : AgentNodeId;
  bs_agent_level : N;
  bs_policy_revision : string;
  bs_subject_generation : N;
}.
#[export] Instance ContextBindingResponse_eta : Eta ContextBindingResponse := λ r,
  mkBindingResponse (bs_subject_id r) (bs_actor_id r) (bs_scope_id r) (bs_agent_node_id r)
    (bs_agent_level r) (bs_policy_revision r) (bs_subject_generation r).
#[export] Instance ContextBindingResponse_eq_dec : EqDecision ContextBindingResponse.
Proof. solve_decision. Defined.

(** The kind matrix of a resolved agent: level 0 is the user-memory boundary,
    deeper agents keep agent-local families only. *)
Definition agent_level_allows_memory_kind (agent_level : N) (kind : MemoryKind.t) : bool :=
  (agent_level =? 0) ||
  match kind with
  | MemoryKind.Episodic | MemoryKind.Procedural | MemoryKind.Resource => true
  | _ => false
  end.

Definition actor_kind_trust (kind : string) : TrustLevel.t :=
  if bool_decide (kind = "user") then TrustLevel.TrustedUser
  else if bool_decide (kind = "system") then TrustLevel.TrustedSystem
  else if bool_decide (kind = "tool") then TrustLevel.UnverifiedTool
  else if bool_decide (kind = "web") then TrustLevel.WebContent
  else TrustLevel.AgentOutput.

Definition trust_rank (level : TrustLevel.t) : N :=
  match level with
  | TrustLevel.TrustedSystem => 7
  | TrustLevel.TrustedUser => 6
  | TrustLevel.VerifiedTool => 5
  | TrustLevel.UnverifiedTool => 4
  | TrustLevel.WebContent => 3
  | TrustLevel.ImportedExternal => 2
  | TrustLevel.AgentOutput => 1
  | TrustLevel.Quarantined => 0
  end.

Definition clamp_trust (declared ceiling : TrustLevel.t) : TrustLevel.t :=
  if trust_rank ceiling <? trust_rank declared then ceiling else declared.

(** ** Requests and errors *)

Module ForgetTarget.
Inductive t : Set := MemoryUnit (id : UnitId) | Episode (id : EpisodeId) | Resource (id : ResourceId).
#[export] Instance t_eq_dec : EqDecision t.
Proof. solve_decision. Defined.
End ForgetTarget.
Export (hints) ForgetTarget.

Record ForgetSelector : Set := mkForgetSelector {
  fs_memory_unit_id : option UnitId;
  fs_episode_id : option EpisodeId;
  fs_resource_id : option ResourceId;
  fs_scope_id : ScopeId;
}.
#[export] Instance ForgetSelector_eta : Eta ForgetSelector := λ r,
  mkForgetSelector (fs_memory_unit_id r) (fs_episode_id r) (fs_resource_id r)
    (fs_scope_id r).

Definition exactly_one_target (s : ForgetSelector) : result string ForgetTarget.t :=
  let targets :=
    option_list (ForgetTarget.MemoryUnit <$> fs_memory_unit_id s) ++
    option_list (ForgetTarget.Episode <$> fs_episode_id s) ++
    option_list (ForgetTarget.Resource <$> fs_resource_id s) in
  match targets with
  | [single] => Ok single
  | [] => Err "forget selector must include exactly one of memory_unit_id, episode_id, resource_id"
  | _ => Err "forget selector must include exactly one of memory_unit_id, episode_id, resource_id (got multiple)"
  end.

Record CorrectionPayload : Set := mkCorrectionPayload {
  cp_value : string;
  cp_reason : string;
  cp_source_ref : string;
  cp_observed_at : string;
  cp_valid_from : option string;
  cp_valid_to : option string;
}.
#[export] Instance CorrectionPayload_eta : Eta CorrectionPayload := λ r,
  mkCorrectionPayload (cp_value r) (cp_reason r) (cp_source_ref r) (cp_observed_at r)
    (cp_valid_from r) (cp_valid_to r).

Record CorrectResult : Set := mkCorrectResult {
  cr_correction_id : string;
  cr_superseded : list UnitId;
  cr_created : list UnitId;
  cr_correction_kind : string;
  cr_trace_ref : option string;
}.
#[export] Instance CorrectResult_eta : Eta CorrectResult := λ r,
  mkCorrectResult (cr_correction_id r) (cr_superseded r) (cr_created r)
    (cr_correction_kind r) (cr_trace_ref r).

Record RecallTime : Set := mkRecallTime {
  rc_evaluated_at : string;
  rc_transaction_as_of : string;
  rc_valid_at : string;
}.
#[export] Instance RecallTime_eta : Eta RecallTime := λ r,
  mkRecallTime (rc_evaluated_at r) (rc_transaction_as_of r) (rc_valid_at r).

Module StoreError.
Inductive t : Set :=
| TransactionAlreadyCommitted
| Poisoned
| NotFound (what : string)
| Conflict (why : string)
| PolicyDenied (why : string)
| IdempotencyConflict
| StaleSubjectGeneration
| SubjectErased
| SerializationConflict
| Backend (why : string).
#[export] Instance t_eq_dec : EqDecision t.
Proof. solve_decision. Defined.
End StoreError.
Export (hints) StoreError.

Module CoreError.
Inductive t : Set :=
| EmptyBody
| NotFound (what : string)
| Invalid (why : string)
| PolicyDenied (why : string)
| ProviderUnavailable (why : string)
| ProviderInvalid (why : string)
| DeepUnavailable
| DeepProviderInvalidOutput
| Store (error : StoreError.t).
#[export] Instance t_eq_dec : EqDecision t.
Proof. solve_decision. Defined.
End CoreError.
Export (hints) CoreError.

Module MutationVerb.
Inductive t : Set :=
| Retain | Reflect | Correct | Invalidate | Forget | Mark
| TaskOutcome | TaskMemoryEvent | FileSync | EraseSubject.
#[export] Instance t_eq_dec : EqDecision t.
Proof. solve_decision. Defined.
Definition as_str (v : t) : string :=
  match v with
  | Retain => "retain"
  | Reflect => "reflect"
  | Correct => "correct"
  | Invalidate => "invalidate"
  | Forget => "forget"
  | Mark => "mark"
  | TaskOutcome => "task_outcome"
  | TaskMemoryEvent => "task_memory_event"
  | FileSync => "file_sync"
  | EraseSubject => "erase_subject"
  end.
Definition to_N (v : t) : N :=
  match v with
  | Retain => 0 | Reflect => 1 | Correct => 2 | Invalidate => 3 | Forget => 4 | Mark => 5
  | TaskOutcome => 6 | TaskMemoryEvent => 7 | FileSync => 8 | EraseSubject => 9
  end.
Definition of_N (n : N) : option t :=
  match n with
  | 0 => Some Retain | 1 => Some Reflect | 2 => Some Correct | 3 => Some Invalidate
  | 4 => Some Forget | 5 => Some Mark | 6 => Some TaskOutcome | 7 => Some TaskMemoryEvent
  | 8 => Some FileSync | 9 => Some EraseSubject | _ => None
  end.
#[export] Program Instance t_countable : Countable t := inj_countable to_N of_N _.
Next Obligation. by intros []. Qed.
End MutationVerb.
Export (hints) MutationVerb.

Module SourceKindKey.
Inductive t : Set := Episode | Resource | MemoryUnit.
#[export] Instance t_eq_dec : EqDecision t.
Proof. solve_decision. Defined.
Definition to_N (k : t) : N := match k with Episode => 0 | Resource => 1 | MemoryUnit => 2 end.
Definition of_N (n : N) : option t :=
  match n with 0 => Some Episode | 1 => Some Resource | 2 => Some MemoryUnit | _ => None end.
#[export] Program Instance t_countable : Countable t := inj_countable to_N of_N _.
Next Obligation. by intros []. Qed.
End SourceKindKey.
Export (hints) SourceKindKey.
