(* ===== verification/Float.v ===== *)
(** * Float: binary32 arithmetic on bit patterns

    Confidences, trust scores and embedding components are Rust [f32] values.
    A value is its 32-bit pattern; the operations decode to the specification
    floats of the Standard Library (24 bits of precision, exponent bound 128),
    compute with round to nearest even there, and encode the result.  The
    payload of a NaN result is the canonical one. *)

From Stdlib Require Import Floats.SpecFloat.
From S2P Require Import Prelude Types.

Definition f32_prec : Z := 24.
Definition f32_emax : Z := 128.

Definition f32_sign (b : f32) : bool := N.testbit b 31.
Definition f32_exponent (b : f32) : N := N.land (N.shiftr b 23) 255.
Definition f32_mantissa (b : f32) : N := N.land b 0x7fffff.

Definition finite_of (s : bool) (m : N) (e : Z) : spec_float :=
  match m with 0 => S754_zero s | N.pos p => S754_finite s p e end.

Definition f32_decode (b : f32) : spec_float :=
  let s := f32_sign b in
  let e := f32_exponent b in
  let m := f32_mantissa b in
  if e =? 255 then if m =? 0 then S754_infinity s else S754_nan
  else if e =? 0 then finite_of s m (-149)
  else finite_of s (m + 0x800000) (Z.of_N e - 150).

Definition sign_bit (s : bool) : N := if s then 0x80000000 else 0.

Definition f32_encode (x : spec_float) : f32 :=
  match x with
  | S754_zero s => sign_bit s
  | S754_infinity s => sign_bit s + 0x7f800000
  | S754_nan => 0x7fc00000
  | S754_finite s p e =>
      sign_bit s +
      (if N.pos p <? 0x800000 then N.pos p
       else Z.to_N (e + 150) * 0x800000 + (N.pos p - 0x800000))
  end.

Definition f32_lift2 (op : spec_float → spec_float → spec_float) (x y : f32) : f32 :=
  f32_encode (op (f32_decode x) (f32_decode y)).
Definition f32_add : f32 → f32 → f32 := f32_lift2 (SFadd f32_prec f32_emax).
Definition f32_sub : f32 → f32 → f32 := f32_lift2 (SFsub f32_prec f32_emax).
Definition f32_mul : f32 → f32 → f32 := f32_lift2 (SFmul f32_prec f32_emax).
Definition f32_div : f32 → f32 → f32 := f32_lift2 (SFdiv f32_prec f32_emax).
Definition f32_sqrt (x : f32) : f32 := f32_encode (SFsqrt f32_prec f32_emax (f32_decode x)).

(** [PartialOrd::partial_cmp]. *)
Definition f32_partial_cmp (x y : f32) : option comparison :=
  SFcompare (f32_decode x) (f32_decode y).
(** [partial_cmp(..).unwrap_or(Ordering::Equal)]. *)
Definition f32_cmp_or_equal (x y : f32) : comparison := default Eq (f32_partial_cmp x y).
Definition f32_le (x y : f32) : bool :=
  match f32_partial_cmp x y with Some Lt | Some Eq => true | _ => false end.

Definition f32_zero : f32 := 0.
Definition f32_half : f32 := 0x3f000000.
Definition f32_one : f32 := 0x3f800000.

(** [Iterator::sum::<f32>]: a left fold from negative zero. *)
Definition f32_sum (l : list f32) : f32 := foldl f32_add 0x80000000 l.

(** ** Cosine similarity *)

Definition cosine_similarity (left right : list f32) : f32 :=
  if negb (length left =? length right)%nat || is_empty left then f32_zero
  else
    let dot := f32_sum (zip_with f32_mul left right) in
    let norm_left := f32_sqrt (f32_sum (map (λ v, f32_mul v v) left)) in
    let norm_right := f32_sqrt (f32_sum (map (λ v, f32_mul v v) right)) in
    if f32_le norm_left f32_zero || f32_le norm_right f32_zero then f32_zero
    else f32_div dot (f32_mul norm_left norm_right).

(** ** The encoding is a bijection off the NaNs *)

Lemma f32_fields b : b < 2 ^ 32 →
  b = sign_bit (f32_sign b) + f32_exponent b * 0x800000 + f32_mantissa b ∧
  f32_exponent b < 256 ∧ f32_mantissa b < 0x800000.
Proof.
  intros Hb. unfold f32_sign, f32_exponent, f32_mantissa, sign_bit.
  change 255 with (N.ones 8). change 0x7fffff with (N.ones 23).
  rewrite !N.land_ones, N.shiftr_div_pow2, N.testbit_eqb.
  change (2 ^ 8) with 256. change (2 ^ 23) with 8388608. change (2 ^ 31) with 2147483648.
  change 0x800000 with 8388608. change 0x80000000 with 2147483648.
  change (2 ^ 32) with 4294967296 in Hb.
  pose proof (N.div_mod' b 8388608). pose proof (N.mod_lt b 8388608).
  pose proof (N.div_mod' (b / 8388608) 256). pose proof (N.mod_lt (b / 8388608) 256).
  assert (b / 2147483648 = b / 8388608 / 256) as ->.
  { rewrite N.Div0.div_div. done. }
  assert (b / 8388608 / 256 < 2) by (rewrite N.Div0.div_div; apply N.Div0.div_lt_upper_bound; lia).
  destruct (N.eqb_spec ((b / 8388608 / 256) `mod` 2) 1) as [E|E];
    rewrite N.mod_small in E by done; lia.
Qed.

Lemma f32_encode_decode b : b < 2 ^ 32 → f32_is_nan b = false →
  f32_encode (f32_decode b) = b.
Proof.
  intros Hb Hnan. destruct (f32_fields b Hb) as (E & He & Hm). unfold f32_decode.
  assert (f32_exponent b = 255 → f32_mantissa b = 0) as Hinf.
  { intros Hx. unfold f32_is_nan in Hnan. apply N.ltb_ge in Hnan.
    change 0x7fffffff with (N.ones 31) in Hnan. rewrite N.land_ones in Hnan.
    rewrite E, Hx in Hnan. change (2 ^ 31) with 2147483648 in Hnan. unfold sign_bit in Hnan.
    destruct (f32_sign b); [|rewrite N.mod_small in Hnan; lia].
    replace (2147483648 + 255 * 8388608 + f32_mantissa b)
      with (255 * 8388608 + f32_mantissa b + 1 * 2147483648) in Hnan by lia.
    rewrite N.Div0.mod_add, N.mod_small in Hnan; lia. }
  destruct (N.eqb_spec (f32_exponent b) 255) as [Hx|Hx].
  all: clear Hnan; revert E Hx Hinf He Hm; generalize (f32_sign b), (f32_exponent b), (f32_mantissa b).
  all: intros s e m -> Hx Hinf He Hm; clear Hb.
  - rewrite (Hinf Hx), Hx. simpl. lia.
  - destruct (N.eqb_spec e 0) as [Hz|Hz].
    + rewrite Hz. destruct m as [|p]; simpl; [lia|].
      destruct (N.ltb_spec (N.pos p) 8388608); lia.
    + destruct (m + 0x800000) as [|p] eqn:Ep; [lia|]. simpl.
      destruct (N.ltb_spec (N.pos p) 8388608); [lia|].
      replace (Z.to_N (Z.of_N e - 150 + 150)) with e by lia. lia.
Qed.

(** A dimension mismatch scores zero, whatever the components are. *)
Lemma cosine_similarity_mismatch left right :
  length left ≠ length right → cosine_similarity left right = f32_zero.
Proof. intros H. unfold cosine_similarity. by rewrite (proj2 (Nat.eqb_neq _ _) H). Qed.
