(* ===== verification/Clock.v ===== *)
(** * Clock: RFC 3339 instants and half-open intervals

    The time functions of [crates/memphant-core/src/lib.rs].  Instants are
    nanoseconds; parsing and printing them is the job of the [jiff] crate and
    is an interface here.  [cmp_rfc3339] is the one comparison the program uses
    for stamps, on strings that may fail to parse; it is a total preorder, and
    on parseable stamps it is the order of instants. *)

From S2P Require Import Prelude Types.

(** What the program uses of [jiff]: parsing, printing and whole seconds. *)
Class Jiff := {
  parse_timestamp : string → option Z;
  fmt_rfc3339 : Z → string;
  as_second : Z → Z;
}.

(** The documented round trip: a printed instant parses back to itself. *)
Class JiffLaws `{Jiff} : Prop := {
  parse_fmt : ∀ t, parse_timestamp (fmt_rfc3339 t) = Some t;
}.

Section clock.
Context `{Jiff}.

Definition cmp_rfc3339 (left right : string) : comparison :=
  match parse_timestamp left, parse_timestamp right with
  | Some l, Some r => Z.compare l r
  | Some _, None => Gt
  | None, Some _ => Lt
  | None, None => str_cmp left right
  end.

Definition is_lt (c : comparison) : bool := match c with Lt => true | _ => false end.
Definition is_gt (c : comparison) : bool := match c with Gt => true | _ => false end.

(** [<=] of strings. *)
Definition str_leb (left right : string) : bool := negb (is_gt (str_cmp left right)).

Definition resolve_recall_time (transaction_as_of valid_at : option string) (now : Z)
    : result CoreError.t RecallTime :=
  transaction <-? match transaction_as_of with
    | Some value =>
        ok_or (parse_timestamp value) (CoreError.Invalid "transaction_as_of must be RFC3339")
    | None => Ok now
    end;
  if (now <? transaction)%Z
  then Err (CoreError.Invalid "transaction_as_of cannot be in the future")
  else
    valid <-? match valid_at with
      | Some value =>
          ok_or (parse_timestamp value) (CoreError.Invalid "valid_at must be RFC3339")
      | None => Ok transaction
      end;
    Ok {| rc_evaluated_at := fmt_rfc3339 now;
          rc_transaction_as_of := fmt_rfc3339 transaction;
          rc_valid_at := fmt_rfc3339 valid |}.

Definition validate_valid_interval (valid_from valid_to : option string)
    : result CoreError.t () :=
  let check name value :=
    match value with
    | Some v =>
        match parse_timestamp v with
        | Some _ => Ok ()
        | None => Err (CoreError.Invalid (name +:+ " must be RFC3339"))
        end
    | None => Ok ()
    end in
  _ <-? check "valid_from" valid_from;
  _ <-? check "valid_to" valid_to;
  match valid_from, valid_to with
  | Some from, Some to =>
      if negb (is_lt (cmp_rfc3339 from to))
      then Err (CoreError.Invalid "valid_from must be before valid_to")
      else Ok ()
  | _, _ => Ok ()
  end.

Definition interval_nonempty (start end_ : option string) : bool :=
  match start, end_ with
  | Some s, Some e => is_lt (cmp_rfc3339 s e)
  | _, _ => true
  end.

Definition start_before_end (start end_ : option string) : bool :=
  match start, end_ with
  | Some s, Some e => is_lt (cmp_rfc3339 s e)
  | _, _ => true
  end.

Definition intervals_overlap (left_start left_end right_start right_end : option string) : bool :=
  start_before_end left_start right_end && start_before_end right_start left_end.

Definition interval_intersection (left_start left_end right_start right_end : option string)
    : option string * option string :=
  let start :=
    match left_start, right_start with
    | Some l, Some r => Some (if is_lt (cmp_rfc3339 l r) then r else l)
    | Some v, None | None, Some v => Some v
    | None, None => None
    end in
  let end_ :=
    match left_end, right_end with
    | Some l, Some r => Some (if is_gt (cmp_rfc3339 l r) then r else l)
    | Some v, None | None, Some v => Some v
    | None, None => None
    end in
  (start, end_).

Definition start_lt (left right : option string) : bool :=
  match left, right with
  | Some l, Some r => is_lt (cmp_rfc3339 l r)
  | None, Some _ => true
  | _, _ => false
  end.

Definition end_lt (left right : option string) : bool :=
  match left, right with
  | Some l, Some r => is_lt (cmp_rfc3339 l r)
  | Some _, None => true
  | None, None => false
  | None, Some _ => false
  end.

(** [mutation_second]: the whole second of a transaction's start. *)
Definition mutation_second (value : string) : result StoreError.t Z :=
  match parse_timestamp value with
  | Some t => Ok (as_second t)
  | None => Err (StoreError.Backend "transaction time must be RFC3339")
  end.

(** ** The order *)

Lemma cmp_rfc3339_refl s : cmp_rfc3339 s s = Eq.
Proof.
  unfold cmp_rfc3339. destruct (parse_timestamp s); [apply Z.compare_refl | apply str_cmp_refl].
Qed.

Lemma cmp_rfc3339_antisym s t : cmp_rfc3339 s t = CompOpp (cmp_rfc3339 t s).
Proof.
  unfold cmp_rfc3339. destruct (parse_timestamp s), (parse_timestamp t); try done.
  - apply Z.compare_antisym.
  - apply str_cmp_antisym.
Qed.

Lemma cmp_rfc3339_gt_lt s t : cmp_rfc3339 s t = Gt ↔ cmp_rfc3339 t s = Lt.
Proof. rewrite (cmp_rfc3339_antisym s t). destruct (cmp_rfc3339 t s); done. Qed.

Lemma cmp_rfc3339_lt_trans s t u :
  cmp_rfc3339 s t = Lt → cmp_rfc3339 t u = Lt → cmp_rfc3339 s u = Lt.
Proof.
  unfold cmp_rfc3339.
  destruct (parse_timestamp s), (parse_timestamp t), (parse_timestamp u); try done.
  - rewrite !Z.compare_lt_iff. lia.
  - apply str_cmp_lt_trans.
Qed.

Lemma cmp_rfc3339_eq_l s t u : cmp_rfc3339 s t = Eq → cmp_rfc3339 s u = cmp_rfc3339 t u.
Proof.
  unfold cmp_rfc3339.
  destruct (parse_timestamp s), (parse_timestamp t), (parse_timestamp u); try done.
  all: try (intros ->%Z.compare_eq_iff; done).
  all: intros ->%str_cmp_eq; done.
Qed.

(** [s] is not after [t]. *)
Definition stamp_le (s t : string) : Prop := cmp_rfc3339 s t ≠ Gt.

#[export] Instance stamp_le_preorder : PreOrder stamp_le.
Proof.
  split.
  - intros s. unfold stamp_le. by rewrite cmp_rfc3339_refl.
  - unfold stamp_le. intros s t u Hst Htu.
    destruct (cmp_rfc3339 s t) eqn:Est; [| |done].
    + by rewrite (cmp_rfc3339_eq_l s t u).
    + destruct (cmp_rfc3339 t u) eqn:Etu; [| |done].
      * rewrite cmp_rfc3339_antisym in Etu.
        destruct (cmp_rfc3339 u t) eqn:Eut; [|done..].
        rewrite cmp_rfc3339_antisym, (cmp_rfc3339_eq_l u t s) by done.
        rewrite (cmp_rfc3339_antisym t s), Est. done.
      * by rewrite (cmp_rfc3339_lt_trans s t u).
Qed.

Lemma stamp_le_total s t : stamp_le s t ∨ stamp_le t s.
Proof.
  unfold stamp_le. rewrite (cmp_rfc3339_antisym t s). destruct (cmp_rfc3339 s t); simpl; auto.
Qed.

Lemma cmp_rfc3339_le_lt_trans s t u :
  stamp_le s t → cmp_rfc3339 t u = Lt → cmp_rfc3339 s u = Lt.
Proof.
  unfold stamp_le. intros Hst Htu. destruct (cmp_rfc3339 s t) eqn:E; [| |done].
  - by rewrite (cmp_rfc3339_eq_l s t u).
  - by eapply cmp_rfc3339_lt_trans.
Qed.

Lemma cmp_rfc3339_lt_le_trans s t u :
  cmp_rfc3339 s t = Lt → stamp_le t u → cmp_rfc3339 s u = Lt.
Proof.
  intros Hst Htu. destruct (cmp_rfc3339 s u) eqn:E; [| done |]; exfalso.
  - assert (stamp_le u s) as Hus.
    { unfold stamp_le. by rewrite cmp_rfc3339_antisym, E. }
    assert (stamp_le t s) as Hts by (by etrans).
    by apply Hts, cmp_rfc3339_gt_lt.
  - apply cmp_rfc3339_gt_lt in E.
    assert (stamp_le t s) as Hts.
    { etrans; [exact Htu|]. unfold stamp_le. by rewrite E. }
    by apply Hts, cmp_rfc3339_gt_lt.
Qed.

Lemma stamp_nlt s t : cmp_rfc3339 s t ≠ Lt ↔ stamp_le t s.
Proof. unfold stamp_le. by rewrite cmp_rfc3339_gt_lt. Qed.

Lemma is_lt_true c : is_lt c = true ↔ c = Lt.
Proof. by destruct c. Qed.
Lemma is_lt_false c : is_lt c = false ↔ c ≠ Lt.
Proof. by destruct c. Qed.

(** ** Intervals

    A stamp lies in the half-open interval from [start] to [end_]; an absent
    bound is unbounded. *)
Definition in_interval (start end_ : option string) (v : string) : Prop :=
  (∀ s, start = Some s → stamp_le s v) ∧ (∀ e, end_ = Some e → cmp_rfc3339 v e = Lt).

Lemma in_interval_split start mid end_ v :
  (∀ s, start = Some s → stamp_le s mid) → (∀ e, end_ = Some e → stamp_le mid e) →
  in_interval start end_ v ↔
  in_interval start (Some mid) v ∨ in_interval (Some mid) end_ v.
Proof.
  intros Hs He. unfold in_interval. split.
  - intros [H1 H2]. destruct (decide (cmp_rfc3339 v mid = Lt)) as [Hlt|Hge%stamp_nlt].
    + left. split; [done|]. by intros ? [= <-].
    + right. split; [|done]. by intros ? [= <-].
  - intros [[H1 H2]|[H1 H2]]; split; intros b Hb; [by apply H1| |  |by apply H2].
    + eapply cmp_rfc3339_lt_le_trans; [by apply H2|]. by apply He.
    + etrans; [by apply Hs|]. by apply H1.
Qed.

End clock.

#[export] Hint Resolve cmp_rfc3339_refl : memphant.
