(* ===== verification/Bitemporal.v ===== *)
(** * Bitemporal: what a unit says when, and how a correction splits it

    Units carry a valid interval (when the fact holds) and a transaction
    interval (when the store believed it).  Modelled from
    [crates/memphant-core/src/lib.rs]: the visibility test of recall, the split
    of a corrected unit into a replacement and the remainders of its valid
    interval, and the refresh of a compact successor. *)

From S2P Require Import Prelude Types Clock.

(** SHA-256 in hexadecimal, computed by the [sha2] crate. *)
Class Sha256 := sha256_hex : string → string.

Record CorrectionUnitIds : Set := mkCorrectionUnitIds {
  ids_replacement : UnitId;
  ids_remainders : UnitId * UnitId;
}.

Record CompactRefresh : Set := mkCompactRefresh {
  rf_envelope : CompactEnvelope;
  rf_trust_ceiling : TrustLevel.t;
}.

Section bitemporal.
Context `{Jiff}.

(** ** Visibility *)

Definition transaction_visible (unit : StoredMemoryUnit) (t : string) : bool :=
  match mu_transaction_from unit with
  | Some from => negb (is_gt (cmp_rfc3339 from t))
  | None => true
  end &&
  match mu_transaction_to unit with
  | Some to => is_lt (cmp_rfc3339 t to)
  | None => true
  end.

Definition interval_covers (start end_ : option string) (v : string) : bool :=
  match start with
  | Some from => negb (is_gt (cmp_rfc3339 from v))
  | None => true
  end &&
  match end_ with
  | Some to => is_lt (cmp_rfc3339 v to)
  | None => true
  end.

Definition valid_covers (unit : StoredMemoryUnit) (v : string) : bool :=
  interval_covers (mu_valid_from unit) (mu_valid_to unit) v.

Definition bitemporally_recallable (unit : StoredMemoryUnit) (time : RecallTime) : bool :=
  if bool_decide (is_Some (mu_deletion_generation unit)) ||
     bool_decide (mu_state unit = UnitState.Deleted)
  then false
  else transaction_visible unit (rc_transaction_as_of time) &&
       valid_covers unit (rc_valid_at time).

Definition is_active_or_validated (s : UnitState.t) : bool :=
  match s with UnitState.Active | UnitState.Validated => true | _ => false end.

Definition deep_unit_is_snapshot_eligible (unit : StoredMemoryUnit) (time : RecallTime) : bool :=
  let exactly_one_direct_source :=
    xorb (bool_decide (is_Some (mu_source_episode_id unit)))
         (bool_decide (is_Some (mu_source_resource_id unit))) in
  let live_at_snapshot :=
    is_active_or_validated (mu_state unit) ||
    (bool_decide (mu_state unit = UnitState.Superseded) &&
     bool_decide (is_Some (mu_transaction_to unit))) in
  exactly_one_direct_source && live_at_snapshot &&
  negb (bool_decide (mu_trust_level unit = TrustLevel.Quarantined)) &&
  bitemporally_recallable unit time.

(** ** Corrections *)

(** The interval a correction claims: from now on when it names no bound,
    otherwise its own bounds completed by those of the corrected unit. *)
Definition correction_start (old : StoredMemoryUnit) (correction : CorrectionPayload)
    (now : string) : option string :=
  match cp_valid_from correction, cp_valid_to correction with
  | None, None => Some now
  | Some from, _ => Some from
  | None, Some _ => mu_valid_from old
  end.

Definition correction_end (old : StoredMemoryUnit) (correction : CorrectionPayload)
    : option string :=
  match cp_valid_to correction with Some to => Some to | None => mu_valid_to old end.

Definition parses (bound : option string) : bool :=
  match bound with
  | Some value => bool_decide (is_Some (parse_timestamp value))
  | None => true
  end.

(** The closure [generation]: the next generation of a unit, open from [now]. *)
Definition generation (actor_id : ActorId) (now : string) (source : StoredMemoryUnit)
    (id : UnitId) (body : string) (valid_from valid_to : option string) : StoredMemoryUnit :=
  source <| mu_id := id |> <| mu_body := body |> <| mu_state := UnitState.Active |>
    <| mu_actor_id := Some actor_id |> <| mu_deletion_generation := None |>
    <| mu_valid_from := valid_from |> <| mu_valid_to := valid_to |>
    <| mu_transaction_from := Some now |> <| mu_transaction_to := None |>.

Definition correction_rectangles_with_ids (old : StoredMemoryUnit)
    (correction : CorrectionPayload) (source_ref observed_at : string) (actor_id : ActorId)
    (now : string) (unit_ids : CorrectionUnitIds)
    : result StoreError.t (StoredMemoryUnit * list StoredMemoryUnit) :=
  let start := correction_start old correction now in
  let end_ := correction_end old correction in
  if negb (parses start && parses end_)
  then Err (StoreError.Backend "correction valid bounds must be RFC3339")
  else if negb (interval_nonempty start end_) ||
          negb (intervals_overlap (mu_valid_from old) (mu_valid_to old) start end_)
  then Err (StoreError.Backend "correction valid interval must overlap the selected unit")
  else
    let replacement :=
      generation actor_id now old (ids_replacement unit_ids) (cp_value correction) start end_
        <| mu_source_ref := source_ref |> <| mu_observed_at := observed_at |>
        <| mu_source_kind := Some "correction" |>
        <| mu_source_episode_id := None |> <| mu_source_resource_id := None |> in
    let before :=
      if start_lt (mu_valid_from old) start
      then [generation actor_id now old (fst (ids_remainders unit_ids)) (mu_body old)
              (mu_valid_from old) start]
      else [] in
    let after :=
      if end_lt end_ (mu_valid_to old)
      then [generation actor_id now old
              (match before with
               | [] => fst (ids_remainders unit_ids)
               | _ => snd (ids_remainders unit_ids)
               end) (mu_body old) end_ (mu_valid_to old)]
      else [] in
    Ok (replacement, before ++ after).

Definition apply_compact_refresh `{Sha256} (replacement : StoredMemoryUnit)
    (refresh : option CompactRefresh) : StoredMemoryUnit :=
  match refresh with
  | None => replacement
  | Some refresh =>
      replacement
        <| mu_compact := Some (rf_envelope refresh
             <| ce_body_sha256 := sha256_hex (mu_body replacement) |>) |>
        <| mu_contextual_chunks := [] |>
        <| mu_invalidation := None |>
        <| mu_trust_level :=
             clamp_trust (mu_trust_level replacement) (rf_trust_ceiling refresh) |>
  end.

(** ** Lemmas *)

Lemma negb_is_gt c : negb (is_gt c) = true ↔ c ≠ Gt.
Proof. by destruct c. Qed.

Lemma interval_covers_spec start end_ v :
  interval_covers start end_ v = true ↔ in_interval start end_ v.
Proof.
  unfold interval_covers, in_interval, stamp_le.
  destruct start, end_; rewrite ?andb_true_iff, ?negb_is_gt, ?is_lt_true; naive_solver.
Qed.

Lemma valid_covers_interval u v :
  valid_covers u v = true ↔ in_interval (mu_valid_from u) (mu_valid_to u) v.
Proof. apply interval_covers_spec. Qed.

Lemma transaction_visible_interval u t :
  transaction_visible u t = true ↔ in_interval (mu_transaction_from u) (mu_transaction_to u) t.
Proof. apply interval_covers_spec. Qed.

Lemma recallable_spec u time :
  bitemporally_recallable u time = true ↔
  mu_deletion_generation u = None ∧ mu_state u ≠ UnitState.Deleted ∧
  in_interval (mu_transaction_from u) (mu_transaction_to u) (rc_transaction_as_of time) ∧
  in_interval (mu_valid_from u) (mu_valid_to u) (rc_valid_at time).
Proof.
  unfold bitemporally_recallable.
  rewrite <- transaction_visible_interval, <- valid_covers_interval.
  case_bool_decide as Hd; [destruct Hd as [g Hg]; naive_solver|].
  apply eq_None_not_Some in Hd. simpl.
  case_bool_decide; [naive_solver|]. rewrite andb_true_iff. naive_solver.
Qed.

Lemma generation_valid actor now src id body from to v :
  valid_covers (generation actor now src id body from to) v = true ↔ in_interval from to v.
Proof. apply valid_covers_interval. Qed.

Lemma start_lt_spec l r :
  start_lt l r = true ↔ ∃ b, r = Some b ∧ ∀ a, l = Some a → cmp_rfc3339 a b = Lt.
Proof. unfold start_lt. destruct l, r; rewrite ?is_lt_true; naive_solver. Qed.

Lemma end_lt_spec l r :
  end_lt l r = true ↔ ∃ a, l = Some a ∧ ∀ b, r = Some b → cmp_rfc3339 a b = Lt.
Proof. unfold end_lt. destruct l, r; rewrite ?is_lt_true; naive_solver. Qed.

Lemma start_before_end_spec l r :
  start_before_end l r = true ↔ ∀ a b, l = Some a → r = Some b → cmp_rfc3339 a b = Lt.
Proof. unfold start_before_end. destruct l, r; rewrite ?is_lt_true; naive_solver. Qed.

(** What a successful correction is made of. *)
Lemma correction_ok_inv old cp sr oa actor now ids repl rems :
  correction_rectangles_with_ids old cp sr oa actor now ids = Ok (repl, rems) →
  let start := correction_start old cp now in
  let end_ := correction_end old cp in
  mu_valid_from repl = start ∧ mu_valid_to repl = end_ ∧ mu_body repl = cp_value cp ∧
  parses start = true ∧ parses end_ = true ∧
  interval_nonempty start end_ = true ∧
  start_before_end (mu_valid_from old) end_ = true ∧
  start_before_end start (mu_valid_to old) = true ∧
  ∃ id1 id2,
    rems =
      (if start_lt (mu_valid_from old) start
       then [generation actor now old id1 (mu_body old) (mu_valid_from old) start] else []) ++
      (if end_lt end_ (mu_valid_to old)
       then [generation actor now old id2 (mu_body old) end_ (mu_valid_to old)] else []).
Proof.
  unfold correction_rectangles_with_ids, intervals_overlap. intros Hok.
  destruct (parses _) eqn:Hp1; [|done]. destruct (parses (correction_end _ _)) eqn:Hp2; [|done].
  simpl in Hok. destruct (interval_nonempty _ _) eqn:Hne; [|done].
  destruct (start_before_end (mu_valid_from old) _) eqn:Ho1; [|done].
  destruct (start_before_end _ (mu_valid_to old)) eqn:Ho2; [|done].
  simpl in Hok. injection Hok as <- <-. simpl. repeat split; try done.
  exists (fst (ids_remainders ids)).
  destruct (start_lt _ _); simpl; eauto.
Qed.

(** The generations a correction creates are active and open from [now]. *)
Lemma correction_generations old cp sr oa actor now ids repl rems :
  correction_rectangles_with_ids old cp sr oa actor now ids = Ok (repl, rems) →
  ∀ u, u ∈ repl :: rems →
    mu_state u = UnitState.Active ∧ mu_deletion_generation u = None ∧
    mu_transaction_from u = Some now ∧ mu_transaction_to u = None.
Proof.
  unfold correction_rectangles_with_ids. intros Hok u Hu.
  destruct (negb _); [done|]. destruct (_ || _)%bool; [done|]. injection Hok as <- <-.
  apply elem_of_cons in Hu as [->|[Hu|Hu]%elem_of_app]; [done| |].
  - destruct (start_lt _ _); [|set_solver]. by apply list_elem_of_singleton in Hu as ->.
  - destruct (end_lt _ _); [|set_solver]. by apply list_elem_of_singleton in Hu as ->.
Qed.

(** The piece before the corrected interval, the corrected interval and the
    piece after it are disjoint and together cover both intervals. *)
Lemma before_excludes (a s e : option string) v :
  start_lt a s = true → in_interval a s v → ¬ in_interval s e v.
Proof.
  intros (b & -> & _)%start_lt_spec [_ Hv] [Hs _].
  by apply (Hs b), cmp_rfc3339_gt_lt, Hv.
Qed.

Lemma after_excludes (s e b : option string) v :
  end_lt e b = true → in_interval e b v → ¬ in_interval s e v.
Proof.
  intros (a & -> & _)%end_lt_spec [Hs _] [_ Hv].
  by apply (Hs a), cmp_rfc3339_gt_lt, Hv.
Qed.

Lemma before_excludes_after (a s e b : option string) v :
  start_lt a s = true → end_lt e b = true → interval_nonempty s e = true →
  in_interval a s v → ¬ in_interval e b v.
Proof.
  intros (x & -> & _)%start_lt_spec (y & -> & _)%end_lt_spec Hne%is_lt_true [_ Hv] [Hy _].
  apply (Hy y); [done|]. apply cmp_rfc3339_gt_lt.
  eapply cmp_rfc3339_lt_trans; [by apply Hv | done].
Qed.

Lemma before_within (a s e b : option string) v :
  start_lt a s = true → start_before_end s b = true →
  in_interval a s v → in_interval a b v.
Proof.
  intros (x & -> & _)%start_lt_spec Hsb [Ha Hv]. split; [done|]. intros y ->.
  eapply cmp_rfc3339_lt_trans; [by apply Hv|]. by apply is_lt_true.
Qed.

Lemma after_within (a s e b : option string) v :
  end_lt e b = true → start_before_end a e = true →
  in_interval e b v → in_interval a b v.
Proof.
  intros (x & -> & _)%end_lt_spec Hae [He Hb]. split; [|done]. intros y ->.
  transitivity x; [|by apply He]. unfold stamp_le. apply is_lt_true in Hae. by rewrite Hae.
Qed.

Lemma outside_corrected (a s e b : option string) v :
  in_interval a b v → ¬ in_interval s e v →
  (start_lt a s = true ∧ in_interval a s v) ∨ (end_lt e b = true ∧ in_interval e b v).
Proof.
  intros [Ha Hb] Hn.
  assert ((∃ x, s = Some x ∧ cmp_rfc3339 v x = Lt) ∨ ∀ x, s = Some x → stamp_le x v)
    as [(x & -> & Hx)|Hs].
  { destruct s as [x|]; [|by right].
    destruct (decide (cmp_rfc3339 v x = Lt)) as [|Hge%stamp_nlt]; [by left; eauto|].
    right. by intros ? [= <-]. }
  - left. split.
    + apply start_lt_spec. exists x. split; [done|]. intros y ->.
      eapply cmp_rfc3339_le_lt_trans; [by apply Ha | done].
    + split; [done|]. by intros ? [= <-].
  - right. destruct e as [y|]; [|by destruct Hn].
    assert (stamp_le y v) as Hy.
    { apply stamp_nlt. intros Hlt. apply Hn. split; [done|]. by intros ? [= <-]. }
    split; [|split; [by intros ? [= <-] | done]].
    apply end_lt_spec. exists y. split; [done|]. intros z ->.
    eapply cmp_rfc3339_le_lt_trans; [exact Hy | by apply Hb].
Qed.

Lemma remainder_cases old s e actor now id1 id2 u :
  u ∈ (if start_lt (mu_valid_from old) s
       then [generation actor now old id1 (mu_body old) (mu_valid_from old) s] else []) ++
      (if end_lt e (mu_valid_to old)
       then [generation actor now old id2 (mu_body old) e (mu_valid_to old)] else []) →
  (start_lt (mu_valid_from old) s = true ∧
   ∀ v, valid_covers u v = true ↔ in_interval (mu_valid_from old) s v) ∨
  (end_lt e (mu_valid_to old) = true ∧
   ∀ v, valid_covers u v = true ↔ in_interval e (mu_valid_to old) v).
Proof.
  intros [Hu|Hu]%elem_of_app.
  - destruct (start_lt _ _); [|set_solver]. apply list_elem_of_singleton in Hu as ->.
    left. split; [done|]. intros. apply generation_valid.
  - destruct (end_lt _ _); [|set_solver]. apply list_elem_of_singleton in Hu as ->.
    right. split; [done|]. intros. apply generation_valid.
Qed.

(** Inside the corrected interval only the replacement answers. *)
Lemma correction_answers_inside old cp sr oa actor now ids repl rems v :
  correction_rectangles_with_ids old cp sr oa actor now ids = Ok (repl, rems) →
  valid_covers repl v = true → retain (λ u, valid_covers u v) rems = [].
Proof.
  intros (Hf & Ht & _ & _ & _ & _ & _ & _ & id1 & id2 & ->)%correction_ok_inv.
  rewrite valid_covers_interval, Hf, Ht. intros Hr. apply retain_none. intros u Hu.
  apply not_true_iff_false. intros E.
  destruct (remainder_cases _ _ _ _ _ _ _ _ Hu) as [[Hs Hc]|[He Hc]]; apply Hc in E.
  - by eapply before_excludes.
  - by eapply after_excludes.
Qed.

(** Outside it the old body answers once, where the old unit covered. *)
Lemma correction_answers_outside old cp sr oa actor now ids repl rems v :
  correction_rectangles_with_ids old cp sr oa actor now ids = Ok (repl, rems) →
  valid_covers repl v = false →
  map mu_body (retain (λ u, valid_covers u v) rems) =
    if valid_covers old v then [mu_body old] else [].
Proof.
  intros (Hf & Ht & _ & _ & _ & Hne & Ho1 & Ho2 & id1 & id2 & ->)%correction_ok_inv Hr.
  set (s := correction_start old cp now) in *. set (e := correction_end old cp) in *.
  assert (¬ in_interval s e v) as Hout.
  { rewrite <-Hf, <-Ht, <-valid_covers_interval. by rewrite Hr. }
  destruct (valid_covers old v) eqn:Hold.
  - apply valid_covers_interval in Hold. rewrite retain_app, map_app.
    destruct (outside_corrected _ _ _ _ _ Hold Hout) as [[Hs Hin]|[He Hin]].
    + rewrite Hs, retain_cons, (proj2 (generation_valid _ _ _ _ _ _ _ _) Hin).
      rewrite (retain_none _ (if end_lt e _ then _ else _)); [done|].
      intros u Hu. destruct (end_lt e _) eqn:He; [|set_solver].
      apply list_elem_of_singleton in Hu as ->. apply not_true_iff_false.
      rewrite generation_valid. by eapply before_excludes_after.
    + rewrite He, retain_cons, (proj2 (generation_valid _ _ _ _ _ _ _ _) Hin).
      rewrite retain_none; [done|]. intros u Hu. destruct (start_lt _ s) eqn:Hs; [|set_solver].
      apply list_elem_of_singleton in Hu as ->. apply not_true_iff_false.
      rewrite generation_valid. intros Hin'. by eapply before_excludes_after.
  - rewrite retain_none; [done|]. intros u Hu. apply not_true_iff_false in Hold.
    apply not_true_iff_false. intros E. apply Hold, valid_covers_interval.
    destruct (remainder_cases _ _ _ _ _ _ _ _ Hu) as [[Hs Hc]|[He Hc]]; apply Hc in E.
    + by eapply before_within.
    + by eapply after_within.
Qed.

(** The bodies of the new generations that cover a valid time. *)
Definition answers (units : list StoredMemoryUnit) (v : string) : list string :=
  map mu_body (retain (λ u, valid_covers u v) units).

Lemma correction_answers old cp sr oa actor now ids repl rems v :
  correction_rectangles_with_ids old cp sr oa actor now ids = Ok (repl, rems) →
  answers (repl :: rems) v =
    if interval_covers (correction_start old cp now) (correction_end old cp) v
    then [cp_value cp]
    else if valid_covers old v then [mu_body old] else [].
Proof.
  intros Hok. pose proof (correction_ok_inv _ _ _ _ _ _ _ _ _ Hok) as (Hf & Ht & Hb & _).
  rewrite <-Hf, <-Ht. fold (valid_covers repl v).
  unfold answers. rewrite retain_cons. destruct (valid_covers repl v) eqn:Hr.
  - erewrite correction_answers_inside by done. simpl. by rewrite Hb.
  - by eapply correction_answers_outside.
Qed.

(** C1: after a correction, every valid time is answered by exactly one of
    the new generations where the correction or the corrected unit spoke, and
    by none elsewhere: the corrected value inside the corrected interval, the
    old body in the rest of the old interval. *)
Theorem correction_partitions_valid_time old cp sr oa actor now ids repl rems v :
  correction_rectangles_with_ids old cp sr oa actor now ids = Ok (repl, rems) →
  map mu_body (retain (λ u, valid_covers u v) (repl :: rems)) =
    if interval_covers (correction_start old cp now) (correction_end old cp) v
    then [cp_value cp]
    else if valid_covers old v then [mu_body old] else [].
Proof. apply correction_answers. Qed.

End bitemporal.
