(* ===== verification/Lineage.v ===== *)
(** * Lineage: correction and forget transitions over units and edges

    The pure transitions of [crates/memphant-core/src/lib.rs] that the
    in-memory store and the file-sync preview share: closing a corrected unit
    and expiring what was composed from it, and deleting the whole supersedes
    lineage of a forgotten unit together with its composed dependents.  The
    lineage is computed by saturating passes over the edges; the passes reach
    a fixpoint, which is the set of units connected to the target. *)

From S2P Require Import Prelude Types Clock Bitemporal.

(** ** Ownership tests *)

(** The five owner columns the code compares inline; [unit_matches_context]
    adds the tenant. *)
Definition owner_matches (u : StoredMemoryUnit) (context : ResolvedMemoryContext) : bool :=
  (mu_data_subject_id u =? cx_data_subject_id context) &&
  (mu_subject_generation u =? cx_subject_generation context) &&
  (mu_scope_id u =? cx_scope_id context) &&
  (mu_agent_node_id u =? cx_agent_node_id context) &&
  bool_decide (mu_actor_id u = Some (cx_actor_id context)).

Definition unit_matches_context (u : StoredMemoryUnit) (context : ResolvedMemoryContext) : bool :=
  (mu_tenant_id u =? cx_tenant_id context) && owner_matches u context.

Definition is_deleted (u : StoredMemoryUnit) : bool :=
  bool_decide (mu_state u = UnitState.Deleted).

(** The open, caller-owned generation a correction or invalidation may close. *)
Definition open_owned (context : ResolvedMemoryContext) (id : UnitId)
    (u : StoredMemoryUnit) : bool :=
  (mu_id u =? id) && owner_matches u context && negb (is_deleted u) &&
  bool_decide (mu_transaction_to u = None).

Definition is_composition (u : StoredMemoryUnit) : bool :=
  bool_decide (mu_source_kind u = Some "composition").

Definition derived_by_for_unit (unit : StoredMemoryUnit) : string :=
  if bool_decide (mu_source_kind unit = Some "composition") then "composition"
  else if bool_decide (mu_source_kind unit = Some "quantity_rollup") then "quantity_rollup"
  else if bool_decide (mu_source_kind unit = Some "artifact_bundle") then "artifact_bundle"
  else "extraction".

(** ** Correction *)

Definition close_unit (state : UnitState.t) (now : string) (u : StoredMemoryUnit)
    : StoredMemoryUnit :=
  u <| mu_state := state |> <| mu_transaction_to := Some now |>.

(** Sources of the [DerivedFrom] edges into one of [targets]. *)
Definition derived_from (edges : list StoredMemoryEdge) (targets : UnitId → bool)
    : list UnitId :=
  map ed_src_id
    (retain (λ e, bool_decide (ed_kind e = MemoryEdgeKind.DerivedFrom) &&
                  targets (ed_dst_id e)) edges).

Definition apply_correction_unit_transition (units : list StoredMemoryUnit)
    (edges : list StoredMemoryEdge) (context : ResolvedMemoryContext) (old_id : UnitId)
    (now : string) : result StoreError.t (list StoredMemoryUnit) :=
  match find (open_owned context old_id) units with
  | None => Err (StoreError.NotFound "memory_unit")
  | Some _ =>
      let units := update_first (open_owned context old_id)
                     (close_unit UnitState.Superseded now) units in
      let dependent_ids := derived_from edges (λ dst, dst =? old_id) in
      Ok (update_where
            (λ u, bool_decide (mu_id u ∈ dependent_ids) && owner_matches u context &&
                  is_composition u && negb (is_deleted u) &&
                  bool_decide (mu_transaction_to u = None))
            (close_unit UnitState.Expired now) units)
  end.

(** The supersedes edges a correction adds; [new_edge_id i] is the id minted
    for the [i]-th of them. *)
Definition supersedes_edges (context : ResolvedMemoryContext) (new_edge_id : nat → EdgeId)
    (old_id : UnitId) (now : string) (created : list UnitId) : list StoredMemoryEdge :=
  imap (λ i created_id,
    {| ed_id := new_edge_id i; ed_tenant_id := cx_tenant_id context;
       ed_scope_id := cx_scope_id context; ed_src_id := created_id; ed_dst_id := old_id;
       ed_kind := MemoryEdgeKind.Supersedes; ed_transaction_from := Some now;
       ed_transaction_to := None |}) created.

Definition apply_correction_transition (new_edge_id : nat → EdgeId)
    (units : list StoredMemoryUnit) (edges : list StoredMemoryEdge)
    (context : ResolvedMemoryContext) (old_id : UnitId) (replacement : StoredMemoryUnit)
    (remainders : list StoredMemoryUnit) (now : string)
    : result StoreError.t (list StoredMemoryUnit * list StoredMemoryEdge) :=
  units <-? apply_correction_unit_transition units edges context old_id now;
  let created_ids := mu_id replacement :: map mu_id remainders in
  Ok (units ++ [replacement] ++ remainders,
      edges ++ supersedes_edges context new_edge_id old_id now created_ids).

(** ** Forget *)

(** Saturation: repeat [pass] until it adds nothing, at most [fuel] times. *)
Fixpoint saturate (fuel : nat) (pass : gset N → gset N) (s : gset N) : gset N :=
  match fuel with
  | 0%nat => s
  | S fuel =>
      let s' := pass s in
      if bool_decide (size s' = size s) then s' else saturate fuel pass s'
  end.

Definition supersedes_in_context (context : ResolvedMemoryContext) (e : StoredMemoryEdge) : bool :=
  (ed_tenant_id e =? cx_tenant_id context) && (ed_scope_id e =? cx_scope_id context) &&
  bool_decide (ed_kind e = MemoryEdgeKind.Supersedes).

Definition insert_if (b : bool) (id : UnitId) (s : gset N) : gset N :=
  if b then {[id]} ∪ s else s.

(** One edge of a pass; [both] also walks from source to destination. *)
Definition lineage_edge (both : bool) (owned : gset N) (s : gset N) (e : StoredMemoryEdge)
    : gset N :=
  let s := insert_if (both && bool_decide (ed_src_id e ∈ s) && bool_decide (ed_dst_id e ∈ owned))
             (ed_dst_id e) s in
  insert_if (bool_decide (ed_dst_id e ∈ s) && bool_decide (ed_src_id e ∈ owned))
    (ed_src_id e) s.

Definition lineage_pass (both : bool) (owned : gset N) (edges : list StoredMemoryEdge)
    (s : gset N) : gset N := foldl (lineage_edge both owned) s edges.

Definition actor_owned_ids (units : list StoredMemoryUnit) (context : ResolvedMemoryContext)
    : gset N :=
  list_to_set (map mu_id (retain (λ u, unit_matches_context u context) units)).

Definition lineage_of (both : bool) (units : list StoredMemoryUnit)
    (edges : list StoredMemoryEdge) (context : ResolvedMemoryContext) (seeds : gset N)
    : gset N :=
  let owned := actor_owned_ids units context in
  saturate (S (length units))
    (lineage_pass both owned (retain (supersedes_in_context context) edges)) seeds.

Definition scrub_unit_content (u : StoredMemoryUnit) : StoredMemoryUnit :=
  u <| mu_body := String.EmptyString |> <| mu_compact := None |> <| mu_invalidation := None |>
    <| mu_contextual_chunks := [] |>.

Definition delete_unit (deletion_generation : option N) (now : string) (u : StoredMemoryUnit)
    : StoredMemoryUnit :=
  let u := u <| mu_state := UnitState.Deleted |> in
  let u := match deletion_generation with
           | Some generation => u <| mu_deletion_generation := Some generation |>
           | None => u
           end in
  scrub_unit_content (u <| mu_transaction_to := Some now |>).

Definition forgets_lineage (context : ResolvedMemoryContext) (lineage : gset N)
    (u : StoredMemoryUnit) : bool :=
  bool_decide (mu_id u ∈ lineage) && owner_matches u context && negb (is_deleted u).

Definition forgets_dependent (context : ResolvedMemoryContext) (dependent_ids : list UnitId)
    (u : StoredMemoryUnit) : bool :=
  bool_decide (mu_id u ∈ dependent_ids) && owner_matches u context && is_composition u &&
  negb (is_deleted u).

Definition apply_unit_forget_transition (units : list StoredMemoryUnit)
    (edges : list StoredMemoryEdge) (context : ResolvedMemoryContext) (target : UnitId)
    (now : string) (deletion_generation : option N)
    : result StoreError.t (list StoredMemoryUnit * list UnitId) :=
  if negb (any (λ u, (mu_id u =? target) && owner_matches u context) units)
  then Err (StoreError.NotFound "forget target")
  else
    let lineage := lineage_of true units edges context {[target]} in
    let forgotten := forgets_lineage context lineage in
    let invalidated := map mu_id (retain forgotten units) in
    let units := update_where forgotten (delete_unit deletion_generation now) units in
    let dependent_ids := derived_from edges (λ dst, bool_decide (dst ∈ invalidated)) in
    let dependent := forgets_dependent context dependent_ids in
    Ok (update_where dependent (delete_unit deletion_generation now) units,
        invalidated ++ map mu_id (retain dependent units)).

(** ** Saturation reaches a fixpoint *)

Section saturate.
Context (pass : gset N → gset N) (owned : gset N).
Context (pass_mono : ∀ s, s ⊆ pass s) (pass_bound : ∀ s, pass s ⊆ s ∪ owned).

Lemma saturate_inv (P : gset N → Prop) fuel s :
  (∀ s, P s → P (pass s)) → P s → P (saturate fuel pass s).
Proof using Type.
  intros Hp. revert s. induction fuel as [|fuel IH]; intros s Hs; simpl; [done|].
  case_bool_decide; auto.
Qed.

Lemma saturate_fixpoint fuel s :
  (size (owned ∖ s) < fuel)%nat → pass (saturate fuel pass s) = saturate fuel pass s.
Proof using pass_mono pass_bound.
  revert s. induction fuel as [|fuel IH]; intros s Hf; simpl; [lia|].
  case_bool_decide as Hsz.
  - assert (pass s = s) as Hs.
    { symmetry. apply set_subseteq_size_eq; [apply pass_mono | lia]. }
    by rewrite !Hs.
  - apply IH. assert (size s < size (pass s))%nat as Hlt.
    { assert (size s ≤ size (pass s))%nat by (apply subseteq_size, pass_mono). lia. }
    enough (size (owned ∖ pass s) < size (owned ∖ s))%nat by lia.
    apply subset_size. split.
    + pose proof (pass_mono s). set_solver.
    + intros Hsub. assert (pass s ⊆ s).
      { intros x Hx. destruct (decide (x ∈ s)) as [|Hns]; [done|]. exfalso.
        pose proof (pass_bound s x Hx) as Ho.
        assert (x ∈ owned ∖ s) as Hxs by set_solver. apply Hsub in Hxs. set_solver. }
      assert (size (pass s) ≤ size s)%nat by (by apply subseteq_size). lia.
Qed.
End saturate.

(** ** The lineage is the connected component *)

Section lineage.
Context (both : bool) (owned : gset N).

(** One step of the walk: from [x] to an owned unit [y] along an edge,
    backwards, or forwards when [both]. *)
Definition linked (edges : list StoredMemoryEdge) (x y : UnitId) : Prop :=
  y ∈ owned ∧ ∃ e, e ∈ edges ∧
    ((ed_dst_id e = x ∧ ed_src_id e = y) ∨
     (both = true ∧ ed_src_id e = x ∧ ed_dst_id e = y)).

Lemma elem_of_insert_if b id s x : x ∈ insert_if b id s ↔ x ∈ s ∨ (b = true ∧ x = id).
Proof. unfold insert_if. destruct b; set_solver. Qed.

Lemma lineage_edge_elem s e x :
  x ∈ lineage_edge both owned s e ↔ x ∈ s ∨ ∃ y, y ∈ s ∧ linked [e] y x.
Proof.
  unfold lineage_edge, linked. rewrite !elem_of_insert_if, !andb_true_iff, !bool_decide_eq_true.
  rewrite !elem_of_insert_if, !andb_true_iff, !bool_decide_eq_true. set_solver.
Qed.

Lemma lineage_edge_mono s e : s ⊆ lineage_edge both owned s e.
Proof. intros x Hx. apply lineage_edge_elem. by left. Qed.

Lemma linked_mono edges edges' x y :
  (∀ e, e ∈ edges → e ∈ edges') → linked edges x y → linked edges' x y.
Proof. unfold linked. naive_solver. Qed.

Lemma lineage_pass_mono edges s : s ⊆ lineage_pass both owned edges s.
Proof.
  unfold lineage_pass. revert s. induction edges as [|e edges IH]; intros s; simpl; [done|].
  etrans; [apply (lineage_edge_mono s e) | apply IH].
Qed.

Lemma lineage_pass_bound edges s : lineage_pass both owned edges s ⊆ s ∪ owned.
Proof.
  unfold lineage_pass. revert s. induction edges as [|e edges IH]; intros s; simpl; [set_solver|].
  intros x Hx. apply IH, elem_of_union in Hx as [Hx|Hx]; [|set_solver].
  apply lineage_edge_elem in Hx as [Hx|(y & _ & Ho & _)]; set_solver.
Qed.

Lemma lineage_pass_sound (P : UnitId → Prop) edges s :
  (∀ x y, P x → linked edges x y → P y) →
  (∀ x, x ∈ s → P x) → ∀ x, x ∈ lineage_pass both owned edges s → P x.
Proof.
  unfold lineage_pass. revert s. induction edges as [|e edges IH]; intros s Hstep Hs; simpl; [done|].
  apply IH.
  - intros x y Hx Hl. apply (Hstep x); [done|]. eapply linked_mono, Hl. set_solver.
  - intros x [Hx|(y & Hy & Hl)]%lineage_edge_elem; [auto|].
    apply (Hstep y); [auto|]. eapply linked_mono, Hl. set_solver.
Qed.

Lemma lineage_pass_closed edges s :
  lineage_pass both owned edges s = s → ∀ x y, x ∈ s → linked edges x y → y ∈ s.
Proof.
  unfold lineage_pass. revert s. induction edges as [|e edges IH]; intros s Hfix x y Hx Hl; simpl in *.
  - destruct Hl as (_ & e & He & _). set_solver.
  - assert (lineage_edge both owned s e = s) as He.
    { apply set_eq. intros z. split; [|apply lineage_edge_mono].
      intros Hz. rewrite <-Hfix. by apply lineage_pass_mono. }
    rewrite He in Hfix. destruct Hl as (Ho & e' & [->|He']%elem_of_cons & Hl).
    + rewrite <-He. apply lineage_edge_elem. right. exists x. split; [done|].
      split; [done|]. exists e. set_solver.
    + eapply IH; [done..|]. split; eauto.
Qed.
End lineage.

Lemma list_to_set_size_le (l : list N) : (size (list_to_set l : gset N) ≤ length l)%nat.
Proof.
  induction l as [|x l IH]; [done|]. rewrite list_to_set_cons. simpl.
  rewrite size_union_alt, size_singleton.
  assert (size (list_to_set l ∖ {[x]} : gset N) ≤ size (list_to_set l : gset N))%nat
    by (apply subseteq_size; set_solver). lia.
Qed.

Lemma length_retain_le {A} (p : A → bool) l : (length (retain p l) ≤ length l)%nat.
Proof. induction l as [|x l IH]; [done|]. rewrite retain_cons. destruct (p x); simpl; lia. Qed.

Lemma actor_owned_ids_size units context :
  (size (actor_owned_ids units context) ≤ length units)%nat.
Proof.
  unfold actor_owned_ids. etrans; [apply list_to_set_size_le|].
  rewrite length_map. apply length_retain_le.
Qed.

(** The computed lineage is exactly what the walk reaches from the seeds: the
    fuel of [lineage_of] is always enough. *)
Lemma lineage_of_reachable both units edges context seeds x :
  x ∈ lineage_of both units edges context seeds ↔
  ∃ s, s ∈ seeds ∧
    rtc (linked both (actor_owned_ids units context)
           (retain (supersedes_in_context context) edges)) s x.
Proof.
  unfold lineage_of. set (owned := actor_owned_ids units context).
  set (es := retain _ edges). set (pass := lineage_pass both owned es). split.
  - revert x. apply (saturate_inv pass (λ s, ∀ x, x ∈ s → ∃ s0, s0 ∈ seeds ∧ rtc _ s0 x)).
    + intros s Hs. apply lineage_pass_sound; [|done].
      intros y z (s0 & Hs0 & Hr) Hl. exists s0. split; [done|]. by eapply rtc_r.
    + intros y Hy. exists y. split; [done|]. apply rtc_refl.
  - intros (s & Hs & Hr).
    assert (pass (saturate (S (length units)) pass seeds) =
            saturate (S (length units)) pass seeds) as Hfix.
    { apply (saturate_fixpoint pass owned).
      - intros ?. apply lineage_pass_mono.
      - intros ?. apply lineage_pass_bound.
      - assert (size (owned ∖ seeds) ≤ size owned)%nat by (apply subseteq_size; set_solver).
        pose proof (actor_owned_ids_size units context) as Hsz. fold owned in Hsz. lia. }
    assert (s ∈ saturate (S (length units)) pass seeds) as Hin.
    { apply (saturate_inv pass (λ s', s ∈ s')); [|done]. intros s'. apply lineage_pass_mono. }
    clear Hs. induction Hr as [|a b c Hab Hbc IH]; [done|]. apply IH.
    eapply lineage_pass_closed; [exact Hfix|exact Hin|exact Hab].
Qed.

(** ** What the transitions do *)

Lemma owner_matches_close s n u cx : owner_matches (close_unit s n u) cx = owner_matches u cx.
Proof. done. Qed.

Lemma owner_matches_delete g n u cx : owner_matches (delete_unit g n u) cx = owner_matches u cx.
Proof. by destruct g. Qed.

Lemma mu_id_delete g n u : mu_id (delete_unit g n u) = mu_id u.
Proof. by destruct g. Qed.

Lemma is_deleted_delete g n u : is_deleted (delete_unit g n u) = true.
Proof. by destruct g. Qed.

(** Content and state of a deleted unit: only the tombstone is left. *)
Lemma delete_unit_content g n u :
  mu_state (delete_unit g n u) = UnitState.Deleted ∧
  mu_body (delete_unit g n u) = String.EmptyString ∧
  mu_compact (delete_unit g n u) = None ∧
  mu_invalidation (delete_unit g n u) = None ∧
  mu_contextual_chunks (delete_unit g n u) = [] ∧
  mu_transaction_to (delete_unit g n u) = Some n.
Proof. by destruct g. Qed.

Section visibility.
Context `{Jiff}.

(** What a recall at [time] hears from a list of units. *)
Definition heard (units : list StoredMemoryUnit) (time : RecallTime)
    : list (UnitId * string) :=
  map (λ u, (mu_id u, mu_body u)) (retain (λ u, bitemporally_recallable u time) units).

Lemma heard_app l k time : heard (l ++ k) time = heard l time ++ heard k time.
Proof. unfold heard. by rewrite retain_app, map_app. Qed.

Lemma heard_cons u l time :
  heard (u :: l) time =
  (if bitemporally_recallable u time then [(mu_id u, mu_body u)] else []) ++ heard l time.
Proof. unfold heard. rewrite retain_cons. by destruct (bitemporally_recallable u time). Qed.

(** Closing an open unit at [now] changes no answer from before [now]. *)
Lemma close_recallable s now u time :
  mu_transaction_to u = None → is_deleted u = false → s ≠ UnitState.Deleted →
  cmp_rfc3339 (rc_transaction_as_of time) now = Lt →
  bitemporally_recallable (close_unit s now u) time = bitemporally_recallable u time.
Proof.
  unfold is_deleted, bitemporally_recallable, transaction_visible, valid_covers.
  intros Hto Hdel Hs Hlt. simpl. rewrite Hto, Hlt, Hdel.
  by rewrite (bool_decide_false (s = UnitState.Deleted)).
Qed.

(** From [now] on a closed unit is silent. *)
Lemma close_silent s now u time :
  stamp_le now (rc_transaction_as_of time) →
  bitemporally_recallable (close_unit s now u) time = false.
Proof.
  intros Hle. unfold bitemporally_recallable, transaction_visible. simpl.
  assert (is_lt (cmp_rfc3339 (rc_transaction_as_of time) now) = false) as ->.
  { by apply is_lt_false, stamp_nlt. }
  rewrite andb_false_r. by destruct (_ || _)%bool.
Qed.

Lemma open_owned_open cx id u :
  open_owned cx id u = true → mu_transaction_to u = None ∧ is_deleted u = false ∧ mu_id u = id.
Proof. unfold open_owned. intros Hu. bool_prop. auto. Qed.

Lemma heard_update_first p s now units time :
  (∀ u, p u = true → mu_transaction_to u = None ∧ is_deleted u = false) →
  s ≠ UnitState.Deleted → cmp_rfc3339 (rc_transaction_as_of time) now = Lt →
  heard (update_first p (close_unit s now) units) time = heard units time.
Proof.
  intros Hp Hs Hlt. induction units as [|u units IH]; simpl; [done|].
  destruct (p u) eqn:E; rewrite !heard_cons; [|by rewrite IH].
  destruct (Hp u E). by rewrite close_recallable.
Qed.

Lemma heard_update_where p s now units time :
  (∀ u, p u = true → mu_transaction_to u = None ∧ is_deleted u = false) →
  s ≠ UnitState.Deleted → cmp_rfc3339 (rc_transaction_as_of time) now = Lt →
  heard (update_where p (close_unit s now) units) time = heard units time.
Proof.
  intros Hp Hs Hlt. unfold update_where.
  induction units as [|u units IH]; simpl; [done|]. rewrite !heard_cons, IH.
  destruct (p u) eqn:E; [|done]. destruct (Hp u E). by rewrite close_recallable.
Qed.

Lemma heard_future units now time :
  (∀ u, u ∈ units → mu_transaction_from u = Some now) →
  cmp_rfc3339 (rc_transaction_as_of time) now = Lt →
  heard units time = [].
Proof.
  intros Hfrom Hlt. unfold heard. rewrite retain_none; [done|]. intros u Hu.
  unfold bitemporally_recallable, transaction_visible. rewrite (Hfrom u Hu).
  rewrite (proj2 (cmp_rfc3339_gt_lt _ _) Hlt). simpl. by destruct (_ || _)%bool.
Qed.

Lemma correction_history new_edge_id units edges cx old cp sr oa now ids
    replacement remainders units' edges' time :
  correction_rectangles_with_ids old cp sr oa (cx_actor_id cx) now ids
    = Ok (replacement, remainders) →
  apply_correction_transition new_edge_id units edges cx (mu_id old) replacement remainders now
    = Ok (units', edges') →
  cmp_rfc3339 (rc_transaction_as_of time) now = Lt →
  heard units' time = heard units time.
Proof.
  intros Hrect Happly Hlt.
  unfold apply_correction_transition, apply_correction_unit_transition in Happly.
  destruct (find _ units) as [u|]; simpl in Happly; [|done]. injection Happly as <- _.
  change (replacement :: remainders) with ([replacement] ++ remainders).
  rewrite heard_app, (heard_future (replacement :: remainders) now), app_nil_r; [|  |done].
  - rewrite heard_update_where, heard_update_first; [done| | |done| | |done]; try done.
    + intros v Hv. by apply open_owned_open in Hv as (? & ? & _).
    + intros v Hv. bool_prop. auto.
  - intros v Hv. by apply (correction_generations _ _ _ _ _ _ _ _ _ Hrect v Hv).
Qed.

Lemma heard_silent units time :
  (∀ u, u ∈ units → bitemporally_recallable u time = false) → heard units time = [].
Proof. intros Hs. unfold heard. by rewrite retain_none. Qed.

Lemma rectangle_recallable old cp sr oa actor now ids repl rems time :
  correction_rectangles_with_ids old cp sr oa actor now ids = Ok (repl, rems) →
  stamp_le now (rc_transaction_as_of time) → ∀ u, u ∈ repl :: rems →
  bitemporally_recallable u time = valid_covers u (rc_valid_at time).
Proof.
  intros Hrect Hle u Hu. destruct (correction_generations _ _ _ _ _ _ _ _ _ Hrect u Hu)
    as (Hs & Hd & Hf & Ht).
  unfold bitemporally_recallable, transaction_visible. rewrite Hs, Hd, Hf, Ht.
  rewrite (proj2 (negb_is_gt _) Hle). done.
Qed.

(** The units a correction leaves under the old id are silent. *)
Lemma corrected_silent units edges cx old_id now units' time :
  NoDup (map mu_id units) →
  apply_correction_unit_transition units edges cx old_id now = Ok units' →
  stamp_le now (rc_transaction_as_of time) →
  ∀ u, u ∈ units' → mu_id u = old_id → bitemporally_recallable u time = false.
Proof.
  unfold apply_correction_unit_transition. intros Hnd Happly Hle.
  destruct (find _ units) as [w|] eqn:Ef; simpl in Happly; [|done]. injection Happly as <-.
  intros u (x & Hx & ->)%elem_of_update_where Hid.
  destruct (_ && _)%bool; [by apply close_silent|].
  revert Hnd Ef Hx Hid. clear -Hle. induction units as [|y units IH]; simpl; [done|].
  intros [Hni Hnd]%NoDup_cons Ef Hx Hid. destruct (open_owned cx old_id y) eqn:E.
  - injection Ef as ->. apply open_owned_open in E as (_ & _ & E).
    apply elem_of_cons in Hx as [->|Hx]; [by apply close_silent|].
    destruct Hni. apply list_elem_of_fmap. exists x. split; [by rewrite E, Hid | done].
  - apply elem_of_cons in Hx as [->|Hx]; [|by apply IH].
    apply find_Some in Ef as [Hin Ef]. apply open_owned_open in Ef as (_ & _ & Ew).
    destruct Hni. apply list_elem_of_fmap. exists w. split; [by rewrite Ew, Hid | done].
Qed.

Lemma correction_effect new_edge_id units edges cx old cp sr oa now ids
    replacement remainders units' edges' time :
  NoDup (map mu_id units) →
  correction_rectangles_with_ids old cp sr oa (cx_actor_id cx) now ids
    = Ok (replacement, remainders) →
  apply_correction_transition new_edge_id units edges cx (mu_id old) replacement remainders now
    = Ok (units', edges') →
  stamp_le now (rc_transaction_as_of time) →
  ∃ kept, units' = kept ++ replacement :: remainders ∧
    heard (retain (λ u, mu_id u =? mu_id old) kept) time = [] ∧
    map snd (heard (replacement :: remainders) time) =
      if interval_covers (correction_start old cp now) (correction_end old cp) (rc_valid_at time)
      then [cp_value cp]
      else if valid_covers old (rc_valid_at time) then [mu_body old] else [].
Proof.
  intros Hnd Hrect Happly Hle. unfold apply_correction_transition in Happly.
  destruct (apply_correction_unit_transition _ _ _ _ _) as [kept|] eqn:Ek; simpl in Happly; [|done].
  injection Happly as <- _. exists kept. split; [done|]. split.
  - apply heard_silent. intros u [Hu Hid%N.eqb_eq]%elem_of_retain. by eapply corrected_silent.
  - rewrite <-(correction_answers _ _ _ _ _ _ _ _ _ (rc_valid_at time) Hrect).
    unfold heard, answers. rewrite map_map. apply (f_equal (map mu_body)), retain_ext.
    intros u Hu. by apply (rectangle_recallable _ _ _ _ _ _ _ _ _ _ Hrect Hle).
Qed.

End visibility.

(** ** What a forget erases *)

Section forget.
Context (units : list StoredMemoryUnit) (edges : list StoredMemoryEdge).
Context (context : ResolvedMemoryContext) (target : UnitId).

(** Connected to the target by supersedes edges between the caller's units. *)
Definition in_lineage (id : UnitId) : Prop :=
  rtc (linked true (actor_owned_ids units context)
         (retain (supersedes_in_context context) edges)) target id.

(** A live unit of the lineage. *)
Definition erased_lineage (u : StoredMemoryUnit) : Prop :=
  in_lineage (mu_id u) ∧ owner_matches u context = true ∧ is_deleted u = false.

(** A live unit composed from a live unit of the lineage. *)
Definition erased_dependent (u : StoredMemoryUnit) : Prop :=
  owner_matches u context = true ∧ is_deleted u = false ∧ is_composition u = true ∧
  ∃ e w, e ∈ edges ∧ ed_kind e = MemoryEdgeKind.DerivedFrom ∧ ed_src_id e = mu_id u ∧
    ed_dst_id e = mu_id w ∧ w ∈ units ∧ erased_lineage w.

Lemma elem_of_derived_from targets x :
  x ∈ derived_from edges targets ↔
  ∃ e, e ∈ edges ∧ ed_kind e = MemoryEdgeKind.DerivedFrom ∧ targets (ed_dst_id e) = true ∧
    x = ed_src_id e.
Proof.
  unfold derived_from. rewrite list_elem_of_fmap. setoid_rewrite elem_of_retain.
  setoid_rewrite andb_true_iff. setoid_rewrite bool_decide_eq_true. naive_solver.
Qed.

Lemma forgets_lineage_true u :
  forgets_lineage context (lineage_of true units edges context {[target]}) u = true ↔
  erased_lineage u.
Proof.
  unfold forgets_lineage, erased_lineage, in_lineage.
  rewrite !andb_true_iff, negb_true_iff, bool_decide_eq_true, lineage_of_reachable.
  set_solver.
Qed.

Lemma elem_of_forgotten_ids x :
  x ∈ map mu_id (retain (forgets_lineage context
        (lineage_of true units edges context {[target]})) units) ↔
  ∃ w, w ∈ units ∧ erased_lineage w ∧ x = mu_id w.
Proof.
  rewrite list_elem_of_fmap. setoid_rewrite elem_of_retain.
  setoid_rewrite forgets_lineage_true. naive_solver.
Qed.

Lemma forgets_dependent_true u :
  forgets_dependent context
    (derived_from edges (λ dst, bool_decide (dst ∈ map mu_id (retain (forgets_lineage context
        (lineage_of true units edges context {[target]})) units)))) u = true ↔
  erased_dependent u.
Proof.
  unfold forgets_dependent, erased_dependent.
  rewrite !andb_true_iff, negb_true_iff, bool_decide_eq_true, elem_of_derived_from.
  setoid_rewrite bool_decide_eq_true. setoid_rewrite elem_of_forgotten_ids. naive_solver.
Qed.

(** The two updates act on each unit on its own. *)
Lemma forgets_dependent_delete ids g now u :
  forgets_dependent context ids (delete_unit g now u) = false.
Proof.
  unfold forgets_dependent. rewrite is_deleted_delete. by rewrite andb_false_r.
Qed.

(** C18: forgetting a unit succeeds exactly when the caller owns it, and then
    deletes and scrubs every live unit connected to it by supersedes edges and
    every live unit composed from one of those, and leaves all others as they
    were; the ids it returns are those of the deleted units. *)
Theorem unit_forget_erases_lineage now g :
  match apply_unit_forget_transition units edges context target now g with
  | Ok (units', ids) =>
      (∃ u, u ∈ units ∧ mu_id u = target ∧ owner_matches u context = true) ∧
      Forall2 (λ u u',
        (erased_lineage u ∨ erased_dependent u) ∧ u' = delete_unit g now u ∨
        ¬ erased_lineage u ∧ ¬ erased_dependent u ∧ u' = u) units units' ∧
      ∀ x, x ∈ ids ↔ ∃ u, u ∈ units ∧ (erased_lineage u ∨ erased_dependent u) ∧ x = mu_id u
  | Err e =>
      e = StoreError.NotFound "forget target" ∧
      ∀ u, u ∈ units → mu_id u = target → owner_matches u context = false
  end.
Proof.
  unfold apply_unit_forget_transition.
  destruct (any _ units) eqn:Hown; simpl.
  2: { split; [done|]. intros u Hu Hid. rewrite any_false in Hown. specialize (Hown u Hu).
       by rewrite (proj2 (N.eqb_eq _ _) Hid) in Hown. }
  set (forgotten := forgets_lineage context (lineage_of true units edges context {[target]})).
  set (dependent := forgets_dependent context _).
  assert (∀ u, forgotten u = true ↔ erased_lineage u) as Hf by apply forgets_lineage_true.
  assert (∀ u, dependent u = true ↔ erased_dependent u) as Hd by apply forgets_dependent_true.
  assert (∀ u, dependent (delete_unit g now u) = false) as Hdd
    by (intros u; apply forgets_dependent_delete).
  split_and!.
  - apply any_true in Hown as (u & Hu & Hp). bool_prop. eauto.
  - unfold update_where. rewrite map_map. apply Forall2_fmap_r, Forall_Forall2_diag, Forall_true.
    intros u. simpl. destruct (forgotten u) eqn:Ef.
    + left. rewrite Hdd. split; [left; by apply Hf | done].
    + apply not_true_iff_false in Ef. rewrite Hf in Ef. destruct (dependent u) eqn:Ed.
      * left. split; [right; by apply Hd | done].
      * right. apply not_true_iff_false in Ed. rewrite Hd in Ed. done.
  - intros x. rewrite elem_of_app. unfold forgotten at 1. rewrite elem_of_forgotten_ids.
    rewrite list_elem_of_fmap. setoid_rewrite elem_of_retain.
    setoid_rewrite elem_of_update_where. split.
    + intros [(w & ? & ? & ->)|(u & -> & (w & Hw & ->) & Hu)]; [eauto|].
      destruct (forgotten w); [by rewrite Hdd in Hu|]. apply Hd in Hu. eauto.
    + intros (u & Hu & Hor & ->). destruct (forgotten u) eqn:Ef.
      * left. exists u. split_and!; [done| by apply Hf |done].
      * right. destruct Hor as [Hl|Hdep]; [apply Hf in Hl; congruence|].
        exists u. split; [done|]. split; [|by apply Hd]. exists u. by rewrite Ef.
Qed.
End forget.
