(* ===== verification/Store.v ===== *)
(** * Store: the state of the in-memory store

    [InMemoryState] of [crates/memphant-core/src/lib.rs]: one record of tables,
    most of them keyed by tenant.  A transaction works on the part one resolved
    context owns: [capture] copies that part out, [into_scratch] builds a
    private state from it, and [replace_in] puts an edited part back.  Hash
    tables are [gmap]s; where the code lists one, the order is that of a
    [HashOrder] instance.  Hashes and response bodies are byte strings. *)

From S2P Require Import Prelude Types Clock Bitemporal Lineage.

(** ** Rows of the store's own *)

Record JobMeta : Set := mkJobMeta {
  jm_attempts : N;
  jm_claim_generation : N;
  jm_claimed : bool;
  jm_completed : bool;
  jm_terminal : bool;
}.
#[export] Instance JobMeta_eta : Eta JobMeta := λ r,
  mkJobMeta (jm_attempts r) (jm_claim_generation r) (jm_claimed r) (jm_completed r)
    (jm_terminal r).
#[export] Instance JobMeta_eq_dec : EqDecision JobMeta.
Proof. solve_decision. Defined.
Definition JobMeta_default : JobMeta := mkJobMeta 0 0 false false false.

Module ObservationDisposition.
Inductive t : Set := State | Event.
#[export] Instance t_eq_dec : EqDecision t.
Proof. solve_decision. Defined.
End ObservationDisposition.
Export (hints) ObservationDisposition.

(** The values of [ob_fields] are JSON, kept as their serialized text. *)
Record StructuredObservation : Set := mkStructuredObservation {
  ob_namespace : string;
  ob_item_key : string;
  ob_fields : list (string * string);
  ob_disposition : ObservationDisposition.t;
  ob_evidence_slice_id : string;
  ob_evidence_quote : string;
  ob_valid_from : option string;
  ob_valid_to : option string;
}.
#[export] Instance StructuredObservation_eta : Eta StructuredObservation := λ r,
  mkStructuredObservation (ob_namespace r) (ob_item_key r) (ob_fields r) (ob_disposition r)
    (ob_evidence_slice_id r) (ob_evidence_quote r) (ob_valid_from r)
    (ob_valid_to r).
#[export] Instance StructuredObservation_eq_dec : EqDecision StructuredObservation.
Proof. solve_decision. Defined.

Record StructuredExtractionPacket : Set := mkPacket {
  pk_batch_index : N;
  pk_receipt_sha256 : string;
  pk_observations : list StructuredObservation;
}.
#[export] Instance StructuredExtractionPacket_eta : Eta StructuredExtractionPacket := λ r,
  mkPacket (pk_batch_index r) (pk_receipt_sha256 r) (pk_observations r).
#[export] Instance StructuredExtractionPacket_eq_dec : EqDecision StructuredExtractionPacket.
Proof. solve_decision. Defined.

Module ReflectJobResult.
Inductive t : Set :=
| Prepared (input_manifest_sha256 : string) (extraction_packets : list StructuredExtractionPacket)
| Completed (trace : ReflectTrace).
#[export] Instance t_eq_dec : EqDecision t.
Proof. solve_decision. Defined.
End ReflectJobResult.
Export (hints) ReflectJobResult.

Record SubjectErasureReceipt : Set := mkReceipt {
  rr_generation : N;
  rr_erased_at : string;
}.
#[export] Instance SubjectErasureReceipt_eta : Eta SubjectErasureReceipt := λ r,
  mkReceipt (rr_generation r) (rr_erased_at r).
#[export] Instance SubjectErasureReceipt_eq_dec : EqDecision SubjectErasureReceipt.
Proof. solve_decision. Defined.

Record MutationClaim : Set := mkMutationClaim {
  mc_tenant_id : TenantId;
  mc_verb : MutationVerb.t;
  mc_idempotency_key : string;
  mc_data_subject_id : SubjectId;
  mc_subject_generation : N;
  mc_request_hash : string;
}.
#[export] Instance MutationClaim_eta : Eta MutationClaim := λ r,
  mkMutationClaim (mc_tenant_id r) (mc_verb r) (mc_idempotency_key r)
    (mc_data_subject_id r) (mc_subject_generation r) (mc_request_hash r).
#[export] Instance MutationClaim_eq_dec : EqDecision MutationClaim.
Proof. solve_decision. Defined.

Record MutationResponse : Set := mkMutationResponse {
  mr_status : N;
  mr_body : string;
}.
#[export] Instance MutationResponse_eta : Eta MutationResponse := λ r,
  mkMutationResponse (mr_status r) (mr_body r).
#[export] Instance MutationResponse_eq_dec : EqDecision MutationResponse.
Proof. solve_decision. Defined.

Record MutationLedgerEntry : Set := mkLedgerEntry {
  le_claim : MutationClaim;
  le_response : MutationResponse;
  le_expires_at_second : Z;
}.
#[export] Instance MutationLedgerEntry_eta : Eta MutationLedgerEntry := λ r,
  mkLedgerEntry (le_claim r) (le_response r) (le_expires_at_second r).

Record SubjectTombstone : Set := mkSubjectTombstone {
  tb_generation : N;
  tb_erased_at : string;
}.
#[export] Instance SubjectTombstone_eta : Eta SubjectTombstone := λ r,
  mkSubjectTombstone (tb_generation r) (tb_erased_at r).

Notation ReflectOwnerKey := (N * N * string)%type (only parsing).
Notation ReflectOwnerValue := (N * N * N * N * N)%type (only parsing).
Notation ForgottenSource := (N * N * N * N * N * SourceKindKey.t * N)%type (only parsing).
Notation LedgerKey := (N * MutationVerb.t * string)%type (only parsing).

Record InMemoryState : Type := mkState {
  st_episodes : gmap TenantId (list StoredEpisode);
  st_resources : gmap TenantId (list StoredResource);
  st_memory_units : gmap TenantId (list StoredMemoryUnit);
  st_memory_edges : gmap TenantId (list StoredMemoryEdge);
  st_citations : gmap TenantId (list StoredCitation);
  st_reflect_jobs : gmap TenantId (list QueuedReflectJob);
  st_reflect_traces : gmap TenantId (list ReflectTrace);
  st_reflect_trace_owners : gmap ReflectOwnerKey ReflectOwnerValue;
  st_retrieval_traces : gmap TenantId (list RetrievalTrace);
  st_review_events : gmap TenantId (list ReviewEvent);
  st_task_outcomes : gmap TenantId (list TaskOutcomeRow);
  st_task_memory_events : gmap TenantId (list TaskMemoryEventRow);
  st_forgotten_sources : gset ForgottenSource;
  st_api_keys : list ApiKeyRow;
  st_context_bindings : gmap (TenantId * string) (ContextBindingRequest * ContextBindingResponse);
  st_embeddings : gmap TenantId (list EmbeddingRow);
  st_embedding_profiles : gmap TenantId (list EmbeddingProfileRow);
  st_job_meta : gmap JobId JobMeta;
  st_prepared_structured_state : gmap (TenantId * JobId) ReflectJobResult.t;
  st_mutation_ledger : gmap LedgerKey MutationLedgerEntry;
  st_subject_tombstones : gmap (TenantId * SubjectId) SubjectTombstone;
  st_deletion_generation : gmap (TenantId * SubjectId) N;
}.
#[export] Instance InMemoryState_eta : Eta InMemoryState := λ r,
  mkState (st_episodes r) (st_resources r) (st_memory_units r)
    (st_memory_edges r) (st_citations r) (st_reflect_jobs r)
    (st_reflect_traces r) (st_reflect_trace_owners r)
    (st_retrieval_traces r) (st_review_events r) (st_task_outcomes r)
    (st_task_memory_events r) (st_forgotten_sources r) (st_api_keys r)
    (st_context_bindings r) (st_embeddings r) (st_embedding_profiles r)
    (st_job_meta r) (st_prepared_structured_state r) (st_mutation_ledger r)
    (st_subject_tombstones r) (st_deletion_generation r).

Definition InMemoryState_default : InMemoryState :=
  mkState ∅ ∅ ∅ ∅ ∅ ∅ ∅ ∅ ∅ ∅ ∅ ∅ ∅ [] ∅ ∅ ∅ ∅ ∅ ∅ ∅ ∅.

Record InMemoryContextState : Type := mkContextState {
  ic_episodes : list StoredEpisode;
  ic_resources : list StoredResource;
  ic_units : list StoredMemoryUnit;
  ic_edges : list StoredMemoryEdge;
  ic_citations : list StoredCitation;
  ic_jobs : list QueuedReflectJob;
  ic_reflect_traces : list ReflectTrace;
  ic_reflect_owners : list (ReflectOwnerKey * ReflectOwnerValue);
  ic_retrieval_traces : list RetrievalTrace;
  ic_review_events : list ReviewEvent;
  ic_forgotten_sources : list ForgottenSource;
  ic_embeddings : list EmbeddingRow;
  ic_embedding_profiles : list EmbeddingProfileRow;
  ic_job_meta : list (JobId * JobMeta);
  ic_prepared : list (TenantId * JobId * ReflectJobResult.t);
  ic_deletion_generation : N;
}.
#[export] Instance InMemoryContextState_eta : Eta InMemoryContextState := λ r,
  mkContextState (ic_episodes r) (ic_resources r) (ic_units r) (ic_edges r)
    (ic_citations r) (ic_jobs r) (ic_reflect_traces r)
    (ic_reflect_owners r) (ic_retrieval_traces r) (ic_review_events r)
    (ic_forgotten_sources r) (ic_embeddings r) (ic_embedding_profiles r)
    (ic_job_meta r) (ic_prepared r) (ic_deletion_generation r).

(** [derive(PartialEq)] of the captured part. *)
Definition context_state_eqb (a b : InMemoryContextState) : bool :=
  bool_decide (ic_episodes a = ic_episodes b) &&
  bool_decide (ic_resources a = ic_resources b) &&
  list_eqb unit_eqb (ic_units a) (ic_units b) &&
  bool_decide (ic_edges a = ic_edges b) &&
  bool_decide (ic_citations a = ic_citations b) &&
  bool_decide (ic_jobs a = ic_jobs b) &&
  bool_decide (ic_reflect_traces a = ic_reflect_traces b) &&
  bool_decide (ic_reflect_owners a = ic_reflect_owners b) &&
  bool_decide (ic_retrieval_traces a = ic_retrieval_traces b) &&
  bool_decide (ic_review_events a = ic_review_events b) &&
  bool_decide (ic_forgotten_sources a = ic_forgotten_sources b) &&
  list_eqb embedding_eqb (ic_embeddings a) (ic_embeddings b) &&
  bool_decide (ic_embedding_profiles a = ic_embedding_profiles b) &&
  bool_decide (ic_job_meta a = ic_job_meta b) &&
  bool_decide (ic_prepared a = ic_prepared b) &&
  (ic_deletion_generation a =? ic_deletion_generation b).

(** ** Ownership of the other rows *)

Definition owns (context : ResolvedMemoryContext) (subject generation scope agent actor : N)
    : bool :=
  (subject =? cx_data_subject_id context) && (generation =? cx_subject_generation context) &&
  (scope =? cx_scope_id context) && (agent =? cx_agent_node_id context) &&
  (actor =? cx_actor_id context).

Definition owned_episode (context : ResolvedMemoryContext) (row : StoredEpisode) : bool :=
  owns context (ep_data_subject_id row) (ep_subject_generation row) (ep_scope_id row)
    (ep_agent_node_id row) (ep_actor_id row).
Definition owned_resource (context : ResolvedMemoryContext) (row : StoredResource) : bool :=
  owns context (re_data_subject_id row) (re_subject_generation row) (re_scope_id row)
    (re_agent_node_id row) (re_actor_id row).
Definition owned_job (context : ResolvedMemoryContext) (job : QueuedReflectJob) : bool :=
  (qj_tenant_id job =? cx_tenant_id context) &&
  owns context (qj_data_subject_id job) (qj_subject_generation job) (qj_scope_id job)
    (qj_agent_node_id job) (qj_actor_id job).
Definition owned_trace (context : ResolvedMemoryContext) (trace : RetrievalTrace) : bool :=
  owns context (tr_data_subject_id trace) (tr_subject_generation trace) (tr_scope_id trace)
    (tr_agent_node_id trace) (tr_actor_id trace).
Definition owner_value (context : ResolvedMemoryContext) : ReflectOwnerValue :=
  (cx_data_subject_id context, cx_subject_generation context, cx_scope_id context,
   cx_agent_node_id context, cx_actor_id context).
Definition owned_source (context : ResolvedMemoryContext) (entry : ForgottenSource) : bool :=
  let '(tenant, subject, generation, scope, agent, _, _) := entry in
  (tenant =? cx_tenant_id context) && (subject =? cx_data_subject_id context) &&
  (generation =? cx_subject_generation context) && (scope =? cx_scope_id context) &&
  (agent =? cx_agent_node_id context).

Definition mem (x : N) (l : list N) : bool := bool_decide (x ∈ l).

Definition owner_key_leb (a b : ReflectOwnerKey * ReflectOwnerValue) : bool :=
  let '((_, ja, va), _) := a in
  let '((_, jb, vb), _) := b in
  (ja <? jb) || ((ja =? jb) && negb (is_gt (str_cmp va vb))).

(** ** The captured part *)

Section store.
Context `{HashOrder}.

Definition capture (state : InMemoryState) (context : ResolvedMemoryContext)
    : InMemoryContextState :=
  let tenant := cx_tenant_id context in
  let units := retain (λ u, unit_matches_context u context) (rows (st_memory_units state) tenant) in
  let unit_ids := map mu_id units in
  let jobs := retain (owned_job context) (rows (st_reflect_jobs state) tenant) in
  let reflect_owners :=
    sort_by owner_key_leb
      (retain (λ kv, (kv.1.1.1 =? tenant) && bool_decide (kv.2 = owner_value context))
         (map_iter (st_reflect_trace_owners state))) in
  let job_ids := map qj_id jobs ++ map (λ kv, kv.1.1.2) reflect_owners in
  let retrieval_traces := retain (owned_trace context) (rows (st_retrieval_traces state) tenant) in
  let trace_ids := map tr_id retrieval_traces in
  {| ic_episodes := retain (owned_episode context) (rows (st_episodes state) tenant);
     ic_resources := retain (owned_resource context) (rows (st_resources state) tenant);
     ic_units := units;
     ic_edges := retain (λ e, mem (ed_src_id e) unit_ids && mem (ed_dst_id e) unit_ids)
                   (rows (st_memory_edges state) tenant);
     ic_citations := retain (λ c, mem (ci_memory_unit_id c) unit_ids)
                       (rows (st_citations state) tenant);
     ic_jobs := jobs;
     ic_reflect_traces := retain (λ t, mem (rt_job_id t) job_ids)
                            (rows (st_reflect_traces state) tenant);
     ic_reflect_owners := reflect_owners;
     ic_retrieval_traces := retrieval_traces;
     ic_review_events := retain (λ e, mem (rv_trace_id e) trace_ids)
                           (rows (st_review_events state) tenant);
     ic_forgotten_sources := retain (owned_source context) (set_iter (st_forgotten_sources state));
     ic_embeddings := retain (λ r, mem (em_memory_unit_id r) unit_ids)
                        (rows (st_embeddings state) tenant);
     ic_embedding_profiles := rows (st_embedding_profiles state) tenant;
     ic_job_meta := sort_by (λ a b, a.1 <=? b.1)
                      (retain (λ kv, mem kv.1 job_ids) (map_iter (st_job_meta state)));
     ic_prepared := sort_by (λ a b, a.1.2 <=? b.1.2)
                      (retain (λ kv, (kv.1.1 =? tenant) && mem kv.1.2 job_ids)
                         (map_iter (st_prepared_structured_state state)));
     ic_deletion_generation :=
       default 0 (st_deletion_generation state !! (tenant, cx_data_subject_id context)) |}.

Definition into_scratch (self : InMemoryContextState) (source : InMemoryState)
    (context : ResolvedMemoryContext) : InMemoryState :=
  let tenant := cx_tenant_id context in
  InMemoryState_default
    <| st_episodes ::= <[tenant := ic_episodes self]> |>
    <| st_resources ::= <[tenant := ic_resources self]> |>
    <| st_memory_units ::= <[tenant := ic_units self]> |>
    <| st_memory_edges ::= <[tenant := ic_edges self]> |>
    <| st_citations ::= <[tenant := ic_citations self]> |>
    <| st_reflect_jobs ::= <[tenant := ic_jobs self]> |>
    <| st_reflect_traces ::= <[tenant := ic_reflect_traces self]> |>
    <| st_reflect_trace_owners ::= extend_map (ic_reflect_owners self) |>
    <| st_retrieval_traces ::= <[tenant := ic_retrieval_traces self]> |>
    <| st_review_events ::= <[tenant := ic_review_events self]> |>
    <| st_forgotten_sources ::= union (list_to_set (ic_forgotten_sources self)) |>
    <| st_embeddings ::= <[tenant := ic_embeddings self]> |>
    <| st_embedding_profiles ::= <[tenant := ic_embedding_profiles self]> |>
    <| st_job_meta ::= extend_map (ic_job_meta self) |>
    <| st_prepared_structured_state ::= extend_map (ic_prepared self) |>
    <| st_deletion_generation ::=
         <[(tenant, cx_data_subject_id context) := ic_deletion_generation self]> |>
    <| st_context_bindings ::=
         extend_map (retain (λ kv, (kv.1.1 =? tenant) &&
                       (bs_subject_id kv.2.2 =? cx_data_subject_id context))
                     (map_iter (st_context_bindings source))) |>.

(** A profile is added only under an id the tenant does not have yet. *)
Definition add_profile (profile : EmbeddingProfileRow) (profiles : list EmbeddingProfileRow)
    : list EmbeddingProfileRow :=
  if any (λ row, pr_id row =? pr_id profile) profiles then profiles else profiles ++ [profile].

Definition replace_in (self : InMemoryContextState) (state : InMemoryState)
    (context : ResolvedMemoryContext) : InMemoryState :=
  let tenant := cx_tenant_id context in
  let old := capture state context in
  let old_units := map mu_id (ic_units old) in
  let old_jobs := map qj_id (ic_jobs old) ++ map (λ kv, kv.1.1.2) (ic_reflect_owners old) in
  let old_traces := map tr_id (ic_retrieval_traces old) in
  state
    <| st_episodes ::= update_rows tenant (λ l,
         retain (λ row, negb (any (λ owned, ep_id owned =? ep_id row) (ic_episodes old))) l
         ++ ic_episodes self) |>
    <| st_resources ::= update_rows tenant (λ l,
         retain (λ row, negb (any (λ owned, re_id owned =? re_id row) (ic_resources old))) l
         ++ ic_resources self) |>
    <| st_memory_units ::= update_rows tenant (λ l,
         retain (λ row, negb (mem (mu_id row) old_units)) l ++ ic_units self) |>
    <| st_memory_edges ::= update_rows tenant (λ l,
         retain (λ e, negb (mem (ed_src_id e) old_units) || negb (mem (ed_dst_id e) old_units)) l
         ++ ic_edges self) |>
    <| st_citations ::= update_rows tenant (λ l,
         retain (λ c, negb (mem (ci_memory_unit_id c) old_units)) l ++ ic_citations self) |>
    <| st_reflect_jobs ::= update_rows tenant (λ l,
         retain (λ job, negb (mem (qj_id job) old_jobs)) l ++ ic_jobs self) |>
    <| st_reflect_traces ::= update_rows tenant (λ l,
         retain (λ t, negb (mem (rt_job_id t) old_jobs)) l ++ ic_reflect_traces self) |>
    <| st_reflect_trace_owners ::= (λ m,
         extend_map (ic_reflect_owners self) (retain_map (λ k _, negb (mem k.1.2 old_jobs)) m)) |>
    <| st_retrieval_traces ::= update_rows tenant (λ l,
         retain (λ t, negb (mem (tr_id t) old_traces)) l ++ ic_retrieval_traces self) |>
    <| st_review_events ::= update_rows tenant (λ l,
         retain (λ e, negb (mem (rv_trace_id e) old_traces)) l ++ ic_review_events self) |>
    <| st_forgotten_sources ::= (λ s,
         list_to_set (ic_forgotten_sources self) ∪
         retain_set (λ entry, negb (owned_source context entry)) s) |>
    <| st_embeddings ::= update_rows tenant (λ l,
         retain (λ r, negb (mem (em_memory_unit_id r) old_units)) l ++ ic_embeddings self) |>
    <| st_embedding_profiles ::= update_rows tenant (λ l,
         foldl (λ l profile, add_profile profile l) l (ic_embedding_profiles self)) |>
    <| st_job_meta ::= (λ m,
         extend_map (ic_job_meta self) (retain_map (λ k _, negb (mem k old_jobs)) m)) |>
    <| st_prepared_structured_state ::= (λ m,
         extend_map (ic_prepared self) (retain_map (λ k _, negb (mem k.2 old_jobs)) m)) |>
    <| st_deletion_generation ::=
         <[(tenant, cx_data_subject_id context) := ic_deletion_generation self]> |>.

(** ** Reads *)

Definition binding_matches (context : ResolvedMemoryContext)
    (kv : (TenantId * string) * (ContextBindingRequest * ContextBindingResponse)) : bool :=
  (kv.1.1 =? cx_tenant_id context) &&
  (bs_subject_id kv.2.2 =? cx_data_subject_id context) &&
  (bs_actor_id kv.2.2 =? cx_actor_id context) &&
  (bs_scope_id kv.2.2 =? cx_scope_id context) &&
  (bs_agent_node_id kv.2.2 =? cx_agent_node_id context).

Definition validate_context (state : InMemoryState) (context : ResolvedMemoryContext)
    : result StoreError.t () :=
  if bool_decide (is_Some
       (st_subject_tombstones state !! (cx_tenant_id context, cx_data_subject_id context)))
  then Err StoreError.SubjectErased
  else
    current <-? ok_or (find (binding_matches context) (map_iter (st_context_bindings state)))
                  (StoreError.NotFound "memory context");
    if bs_subject_generation current.2.2 =? cx_subject_generation context
    then Ok () else Err StoreError.StaleSubjectGeneration.

Definition is_forgotten_source (state : InMemoryState) (unit : StoredMemoryUnit) : bool :=
  let contains kind id :=
    bool_decide
      ((mu_tenant_id unit, mu_data_subject_id unit, mu_subject_generation unit,
        mu_scope_id unit, mu_agent_node_id unit, kind, id) ∈ st_forgotten_sources state) in
  if match mu_source_episode_id unit with
     | Some episode_id => contains SourceKindKey.Episode episode_id
     | None => false
     end
  then true
  else if match mu_source_resource_id unit with
     | Some resource_id => contains SourceKindKey.Resource resource_id
     | None => false
     end
  then true
  else contains SourceKindKey.MemoryUnit (mu_id unit).

(** ** Erasure *)

Definition erased_unit_ids (self : InMemoryState) (tenant subject : N) : list UnitId :=
  map mu_id (retain (λ u, mu_data_subject_id u =? subject) (rows (st_memory_units self) tenant)).

Definition erased_job_ids (self : InMemoryState) (tenant subject : N) : list JobId :=
  map qj_id (retain (λ j, qj_data_subject_id j =? subject) (rows (st_reflect_jobs self) tenant)) ++
  map (λ kv, kv.1.1.2)
    (retain (λ kv, (kv.1.1.1 =? tenant) && (kv.2.1.1.1.1 =? subject))
       (map_iter (st_reflect_trace_owners self))).

Definition erased_trace_ids (self : InMemoryState) (tenant subject : N) : list TraceId :=
  map tr_id (retain (λ t, tr_data_subject_id t =? subject)
               (rows (st_retrieval_traces self) tenant)).

Definition erase_subject (tenant subject : N) (receipt : SubjectErasureReceipt)
    (self : InMemoryState) : InMemoryState :=
  let erased_unit_ids := erased_unit_ids self tenant subject in
  let erased_job_ids := erased_job_ids self tenant subject in
  let erased_trace_ids := erased_trace_ids self tenant subject in
  self
    <| st_context_bindings ::=
         retain_map (λ k v, negb (k.1 =? tenant) || negb (bs_subject_id v.2 =? subject)) |>
    <| st_api_keys ::=
         retain (λ k, negb (ak_tenant_id k =? tenant) ||
                      negb (bool_decide (ak_data_subject_id k = Some subject))) |>
    <| st_episodes ::= update_rows tenant (retain (λ e, negb (ep_data_subject_id e =? subject))) |>
    <| st_resources ::= update_rows tenant (retain (λ r, negb (re_data_subject_id r =? subject))) |>
    <| st_memory_units ::=
         update_rows tenant (retain (λ u, negb (mu_data_subject_id u =? subject))) |>
    <| st_memory_edges ::= update_rows tenant (retain (λ e,
         negb (mem (ed_src_id e) erased_unit_ids) && negb (mem (ed_dst_id e) erased_unit_ids))) |>
    <| st_citations ::=
         update_rows tenant (retain (λ c, negb (mem (ci_memory_unit_id c) erased_unit_ids))) |>
    <| st_embeddings ::=
         update_rows tenant (retain (λ r, negb (mem (em_memory_unit_id r) erased_unit_ids))) |>
    <| st_reflect_jobs ::=
         update_rows tenant (retain (λ j, negb (qj_data_subject_id j =? subject))) |>
    <| st_reflect_traces ::=
         update_rows tenant (retain (λ t, negb (mem (rt_job_id t) erased_job_ids))) |>
    <| st_reflect_trace_owners ::=
         retain_map (λ k v, negb (k.1.1 =? tenant) || negb (v.1.1.1.1 =? subject)) |>
    <| st_retrieval_traces ::=
         update_rows tenant (retain (λ t, negb (tr_data_subject_id t =? subject))) |>
    <| st_review_events ::=
         update_rows tenant (retain (λ e, negb (mem (rv_trace_id e) erased_trace_ids))) |>
    <| st_task_outcomes ::=
         update_rows tenant (retain (λ o, negb (to_data_subject_id o =? subject))) |>
    <| st_task_memory_events ::=
         update_rows tenant (retain (λ e, negb (te_data_subject_id e =? subject))) |>
    <| st_forgotten_sources ::=
         retain_set (λ s, negb (s.1.1.1.1.1.1 =? tenant) || negb (s.1.1.1.1.1.2 =? subject)) |>
    <| st_prepared_structured_state ::=
         retain_map (λ k _, negb (k.1 =? tenant) || negb (mem k.2 erased_job_ids)) |>
    <| st_job_meta ::= retain_map (λ k _, negb (mem k erased_job_ids)) |>
    <| st_mutation_ledger ::=
         retain_map (λ _ e, negb (mc_tenant_id (le_claim e) =? tenant) ||
                            negb (mc_data_subject_id (le_claim e) =? subject)) |>
    <| st_subject_tombstones ::=
         <[(tenant, subject) := mkSubjectTombstone (rr_generation receipt) (rr_erased_at receipt)]> |>.

(** ** What erasure leaves *)

(** The rows of a subject of a tenant that an erasure removes.  The tombstones and
    the deletion generations are keyed by subjects too; they are not in the view:
    an erasure records the one and keeps the other. *)
Record SubjectView : Type := mkSubjectView {
  sv_bindings : gmap (TenantId * string) (ContextBindingRequest * ContextBindingResponse);
  sv_api_keys : list ApiKeyRow;
  sv_episodes : list StoredEpisode;
  sv_resources : list StoredResource;
  sv_units : list StoredMemoryUnit;
  sv_jobs : list QueuedReflectJob;
  sv_trace_owners : gmap ReflectOwnerKey ReflectOwnerValue;
  sv_retrieval_traces : list RetrievalTrace;
  sv_task_outcomes : list TaskOutcomeRow;
  sv_task_memory_events : list TaskMemoryEventRow;
  sv_forgotten_sources : gset ForgottenSource;
  sv_ledger : gmap LedgerKey MutationLedgerEntry;
}.

Definition subject_view (s : InMemoryState) (tenant subject : N) : SubjectView := {|
  sv_bindings :=
    retain_map (λ k v, (k.1 =? tenant) && (bs_subject_id v.2 =? subject)) (st_context_bindings s);
  sv_api_keys :=
    retain (λ k, (ak_tenant_id k =? tenant) && bool_decide (ak_data_subject_id k = Some subject))
      (st_api_keys s);
  sv_episodes := retain (λ e, ep_data_subject_id e =? subject) (rows (st_episodes s) tenant);
  sv_resources := retain (λ r, re_data_subject_id r =? subject) (rows (st_resources s) tenant);
  sv_units := retain (λ u, mu_data_subject_id u =? subject) (rows (st_memory_units s) tenant);
  sv_jobs := retain (λ j, qj_data_subject_id j =? subject) (rows (st_reflect_jobs s) tenant);
  sv_trace_owners :=
    retain_map (λ k v, (k.1.1 =? tenant) && (v.1.1.1.1 =? subject)) (st_reflect_trace_owners s);
  sv_retrieval_traces :=
    retain (λ t, tr_data_subject_id t =? subject) (rows (st_retrieval_traces s) tenant);
  sv_task_outcomes :=
    retain (λ o, to_data_subject_id o =? subject) (rows (st_task_outcomes s) tenant);
  sv_task_memory_events :=
    retain (λ e, te_data_subject_id e =? subject) (rows (st_task_memory_events s) tenant);
  sv_forgotten_sources :=
    retain_set (λ e, (e.1.1.1.1.1.1 =? tenant) && (e.1.1.1.1.1.2 =? subject))
      (st_forgotten_sources s);
  sv_ledger :=
    retain_map (λ _ e, (mc_tenant_id (le_claim e) =? tenant) &&
                       (mc_data_subject_id (le_claim e) =? subject)) (st_mutation_ledger s);
|}.

Definition empty_view : SubjectView := mkSubjectView ∅ [] [] [] [] [] ∅ [] [] [] ∅ ∅.

(** A job of the subject, queued or only known by the trace it left. *)
Definition subject_job (s : InMemoryState) (tenant subject job : N) : Prop :=
  (∃ j, j ∈ sv_jobs (subject_view s tenant subject) ∧ qj_id j = job) ∨
  (∃ k v, sv_trace_owners (subject_view s tenant subject) !! k = Some v ∧ k.1.2 = job).

Lemma retain_disjoint {A} (p q : A → bool) l :
  (∀ x, p x = true → q x = false) → retain p (retain q l) = [].
Proof.
  intros Hpq. rewrite retain_retain. apply retain_none. intros x _.
  destruct (p x) eqn:E; [by rewrite Hpq | apply andb_false_r].
Qed.

Lemma retain_within {A} (p q : A → bool) l :
  (∀ x, p x = true → q x = true) → retain p (retain q l) = retain p l.
Proof.
  intros Hpq. rewrite retain_retain. apply retain_ext. intros x _.
  destruct (p x) eqn:E; [by rewrite Hpq | apply andb_false_r].
Qed.

Lemma retain_map_disjoint `{Countable K} {V} (p q : K → V → bool) (m : gmap K V) :
  (∀ k v, p k v = true → q k v = false) → retain_map p (retain_map q m) = ∅.
Proof.
  intros Hpq. apply map_empty. intros k. apply lookup_retain_map_None. intros v Hv.
  apply lookup_retain_map in Hv as [_ Hq]. destruct (p k v) eqn:E; [|done].
  rewrite (Hpq k v E) in Hq. done.
Qed.

Lemma retain_map_within `{Countable K} {V} (p q : K → V → bool) (m : gmap K V) :
  (∀ k v, p k v = true → q k v = true) → retain_map p (retain_map q m) = retain_map p m.
Proof.
  intros Hpq. apply map_eq. intros k. apply option_eq. intros v.
  rewrite !lookup_retain_map. naive_solver.
Qed.

Lemma retain_set_disjoint `{Countable K} (p q : K → bool) (s : gset K) :
  (∀ k, p k = true → q k = false) → retain_set p (retain_set q s) = ∅.
Proof.
  intros Hpq. apply set_eq. intros k. rewrite !elem_of_retain_set.
  split; [|set_solver]. intros (Hp & Hq & _). rewrite (Hpq k Hp) in Hq. done.
Qed.

Lemma retain_set_within `{Countable K} (p q : K → bool) (s : gset K) :
  (∀ k, p k = true → q k = true) → retain_set p (retain_set q s) = retain_set p s.
Proof.
  intros Hpq. apply set_eq. intros k. rewrite !elem_of_retain_set. naive_solver.
Qed.

(** Closes the side conditions of the five lemmas above. *)
Ltac retain_side :=
  intros; bool_prop;
  repeat match goal with H : _ =? _ = true |- _ => apply N.eqb_eq in H end; subst;
  rewrite ?N.eqb_refl, ?bool_decide_true by done; auto.

Ltac frame_side :=
  intros; bool_prop; subst;
  rewrite ?orb_true_iff, ?negb_true_iff, ?N.eqb_neq, ?bool_decide_eq_false; naive_solver.

Lemma mem_true x l : mem x l = true ↔ x ∈ l.
Proof. unfold mem. apply bool_decide_eq_true. Qed.

Lemma mem_false x l : mem x l = false ↔ x ∉ l.
Proof. unfold mem. apply bool_decide_eq_false. Qed.

Lemma elem_of_erased_job_ids s tenant subject job :
  job ∈ erased_job_ids s tenant subject ↔ subject_job s tenant subject job.
Proof.
  unfold erased_job_ids, subject_job, subject_view. simpl.
  rewrite elem_of_app, !list_elem_of_fmap. setoid_rewrite elem_of_retain.
  split; (intros [Hl|Hr]; [left; naive_solver | right]).
  - destruct Hr as ([k v] & -> & Hin & Hp). apply elem_of_map_iter in Hin.
    exists k, v. split; [|done]. by apply lookup_retain_map.
  - destruct Hr as (k & v & (Hk & Hp)%lookup_retain_map & <-). exists (k, v).
    by rewrite elem_of_map_iter.
Qed.

(** In [s'] no row that an erasure follows - edges, citations and embeddings to
    units, reflect traces, prepared results and records to jobs, review events to
    their traces - leads to what the subject had in [s]. *)
Definition no_references (s s' : InMemoryState) (tenant subject : N) : Prop :=
  let units := map mu_id (sv_units (subject_view s tenant subject)) in
  let traces := map tr_id (sv_retrieval_traces (subject_view s tenant subject)) in
  (∀ e, e ∈ rows (st_memory_edges s') tenant → ed_src_id e ∉ units ∧ ed_dst_id e ∉ units) ∧
  (∀ c, c ∈ rows (st_citations s') tenant → ci_memory_unit_id c ∉ units) ∧
  (∀ r, r ∈ rows (st_embeddings s') tenant → em_memory_unit_id r ∉ units) ∧
  (∀ e, e ∈ rows (st_review_events s') tenant → rv_trace_id e ∉ traces) ∧
  (∀ job, subject_job s tenant subject job →
     (∀ t, t ∈ rows (st_reflect_traces s') tenant → rt_job_id t ≠ job) ∧
     st_prepared_structured_state s' !! (tenant, job) = None ∧
     st_job_meta s' !! job = None).

Lemma erase_subject_view s tenant subject receipt :
  subject_view (erase_subject tenant subject receipt s) tenant subject = empty_view.
Proof.
  unfold subject_view, empty_view, erase_subject. simpl. rewrite !rows_update_eq.
  f_equal; first [ apply retain_disjoint | apply retain_map_disjoint
                 | apply retain_set_disjoint ]; retain_side.
Qed.

Lemma erase_subject_references s tenant subject receipt :
  no_references s (erase_subject tenant subject receipt s) tenant subject.
Proof.
  unfold no_references, erase_subject. simpl. rewrite !rows_update_eq.
  setoid_rewrite elem_of_retain. setoid_rewrite andb_true_iff.
  setoid_rewrite negb_true_iff. setoid_rewrite mem_false. split_and!; try naive_solver.
  intros job Hjob%elem_of_erased_job_ids. split_and!.
  - intros t [_ Ht] <-. done.
  - apply lookup_retain_map_None. intros v _. simpl.
    by rewrite N.eqb_refl, (proj2 (mem_true _ _) Hjob).
  - apply lookup_retain_map_None. intros v _. by rewrite (proj2 (mem_true _ _) Hjob).
Qed.

(** an erasure touches nobody else: the rows of every other subject, of this
    tenant or another, are what they were, and no other tombstone appears. *)
Theorem erase_subject_frame s tenant subject receipt tenant' subject' :
  (tenant, subject) ≠ (tenant', subject') →
  let s' := erase_subject tenant subject receipt s in
  subject_view s' tenant' subject' = subject_view s tenant' subject' ∧
  st_subject_tombstones s' !! (tenant', subject') =
    st_subject_tombstones s !! (tenant', subject').
Proof.
  intros Hne s'. split; [|by apply lookup_insert_ne].
  unfold s', subject_view, erase_subject. simpl.
  destruct (decide (tenant = tenant')) as [<-|Ht].
  - assert (subject' ≠ subject) as Hs by congruence. rewrite !rows_update_eq.
    f_equal; first [ apply retain_within | apply retain_map_within
                   | apply retain_set_within ]; frame_side.
  - rewrite !rows_update_ne by done.
    f_equal; first [ apply retain_within | apply retain_map_within
                   | apply retain_set_within ]; frame_side.
Qed.

(** C17: what an erasure leaves of a subject is its tombstone, with the generation
    and the time of the receipt, and its deletion generation.  No binding, key,
    episode, resource, unit, job, trace owner, retrieval trace, task outcome,
    task memory event, forgotten source or ledger entry is the subject's; no
    edge, citation or embedding refers to one of its units, no reflect trace,
    prepared result or job record to one of its jobs, no review event to one of
    its retrieval traces; every context of the subject is refused as erased;
    and the rows of every other subject are what they were.  (Identifiers inside
    rows of other subjects - the items of a trace, the ids a review event or a
    task memory event reports - are not searched.) *)
Theorem erase_subject_complete s tenant subject receipt :
  let s' := erase_subject tenant subject receipt s in
  subject_view s' tenant subject = empty_view ∧
  no_references s s' tenant subject ∧
  st_subject_tombstones s' !! (tenant, subject) =
    Some (mkSubjectTombstone (rr_generation receipt) (rr_erased_at receipt)) ∧
  st_deletion_generation s' = st_deletion_generation s ∧
  (∀ context, cx_tenant_id context = tenant → cx_data_subject_id context = subject →
    validate_context s' context = Err StoreError.SubjectErased) ∧
  ∀ tenant' subject', (tenant, subject) ≠ (tenant', subject') →
    subject_view s' tenant' subject' = subject_view s tenant' subject' ∧
    st_subject_tombstones s' !! (tenant', subject') =
      st_subject_tombstones s !! (tenant', subject').
Proof.
  split_and!; [apply erase_subject_view | apply erase_subject_references | | done | |].
  - apply lookup_insert_eq.
  - intros context <- <-. unfold validate_context, erase_subject. simpl.
    rewrite lookup_insert_eq. by rewrite bool_decide_true.
  - intros tenant' subject'. apply erase_subject_frame.
Qed.

(** ** Sorted listings of a table do not depend on the hash order *)

Lemma retain_map_iter_perm `{Countable K} {V} (p : K * V → bool) (m : gmap K V) :
  retain p (map_iter m) ≡ₚ map_to_list (retain_map (λ k v, p (k, v)) m).
Proof.
  apply NoDup_Permutation.
  - apply NoDup_retain. eapply NoDup_fmap_1, map_iter_NoDup.
  - apply NoDup_map_to_list.
  - intros [k v]. rewrite elem_of_retain, elem_of_map_iter, elem_of_map_to_list.
    by rewrite lookup_retain_map.
Qed.

(** Two tables with the same retained entries are listed alike once sorted by
    a total order that separates them. *)
Lemma sort_retain_map_iter `{Countable K} {V} (leb : K * V → K * V → bool)
    (p : K * V → bool) (m m' : gmap K V) :
  (∀ x y, leb x y = true ∨ leb y x = true) →
  (∀ x y z, leb x y = true → leb y z = true → leb x z = true) →
  (∀ x y, p x = true → p y = true → leb x y = true → leb y x = true → x.1 = y.1) →
  retain_map (λ k v, p (k, v)) m = retain_map (λ k v, p (k, v)) m' →
  sort_by leb (retain p (map_iter m)) = sort_by leb (retain p (map_iter m')).
Proof.
  intros Htot Htrans Hanti Hm.
  assert (retain p (map_iter m) ≡ₚ retain p (map_iter m')) as Hperm
    by (by rewrite !retain_map_iter_perm, Hm).
  apply (StronglySorted_unique_strong (λ x y, leb x y = true)).
  - intros x y Hx Hy Hxy Hyx. rewrite elem_of_sort_by in Hx, Hy. rewrite <-Hperm in Hy.
    apply elem_of_retain in Hx as [Hx Hpx], Hy as [Hy Hpy].
    destruct x as [k v], y as [k' v']. assert (k = k') as <- by by apply (Hanti (k, v) (k', v')).
    apply elem_of_map_iter in Hx, Hy. congruence.
  - by apply sort_by_sorted.
  - by apply sort_by_sorted.
  - by rewrite !sort_by_perm.
Qed.

Lemma owner_key_leb_total x y : owner_key_leb x y = true ∨ owner_key_leb y x = true.
Proof.
  destruct x as [[[? j] v] ?], y as [[[? j'] v'] ?]. unfold owner_key_leb.
  rewrite !orb_true_iff, !andb_true_iff, !N.ltb_lt, !N.eqb_eq, !negb_is_gt.
  rewrite (str_cmp_antisym v' v).
  destruct (N.lt_trichotomy j j') as [|[->|]]; [auto | | auto].
  destruct (str_cmp v v'); naive_solver.
Qed.

Lemma owner_key_leb_trans x y z :
  owner_key_leb x y = true → owner_key_leb y z = true → owner_key_leb x z = true.
Proof.
  destruct x as [[[? j] v] ?], y as [[[? j'] v'] ?], z as [[[? j''] v''] ?].
  unfold owner_key_leb.
  rewrite !orb_true_iff, !andb_true_iff, !N.ltb_lt, !N.eqb_eq, !negb_is_gt.
  intros [?|[<- Hv]] [?|[<- Hv']]; [left; lia | left; lia | left; lia | right].
  split; [done|]. by eapply str_cmp_le_trans.
Qed.

Lemma owner_key_leb_antisym x y :
  x.1.1.1 = y.1.1.1 → owner_key_leb x y = true → owner_key_leb y x = true → x.1 = y.1.
Proof.
  destruct x as [[[t j] v] ?], y as [[[t' j'] v'] ?]. unfold owner_key_leb. simpl. intros ->.
  rewrite !orb_true_iff, !andb_true_iff, !N.ltb_lt, !N.eqb_eq, !negb_is_gt.
  intros [?|[? Hv]] [?|[? Hv']]; [lia..|]. subst j'.
  rewrite str_cmp_antisym in Hv'. destruct (str_cmp v v') eqn:E; try done.
  by apply str_cmp_eq in E as ->.
Qed.
End store.
