(* ===== verification/Isolation.v ===== *)
(** * Isolation: what commits of captured parts change

    The laws of [capture], [into_scratch] and [replace_in] of Store.v: the
    private state of a transaction shows exactly the captured part, putting an
    edited part back makes the store show that part, and it shows every other
    context what it showed before. *)

From S2P Require Import Prelude Types Clock Bitemporal Lineage Store.

(** The captured part lists the forgotten sources in hash order; equality up
    to that order. *)
#[export] Instance context_state_equiv : Equiv InMemoryContextState := λ a b,
  a <| ic_forgotten_sources := [] |> = b <| ic_forgotten_sources := [] |> ∧
  ic_forgotten_sources a ≡ₚ ic_forgotten_sources b.

#[export] Instance context_state_equivalence : Equivalence context_state_equiv.
Proof.
  split.
  - by split.
  - intros a b [? ?]. by split.
  - intros a b c [H1 H2] [H3 H4]. split; [congruence | by rewrite H2].
Qed.

(** Two parts with the same components, sources in any order. *)
Lemma context_state_ext (a b : InMemoryContextState) :
  ic_episodes a = ic_episodes b → ic_resources a = ic_resources b →
  ic_units a = ic_units b → ic_edges a = ic_edges b → ic_citations a = ic_citations b →
  ic_jobs a = ic_jobs b → ic_reflect_traces a = ic_reflect_traces b →
  ic_reflect_owners a = ic_reflect_owners b → ic_retrieval_traces a = ic_retrieval_traces b →
  ic_review_events a = ic_review_events b →
  ic_forgotten_sources a ≡ₚ ic_forgotten_sources b →
  ic_embeddings a = ic_embeddings b →
  ic_embedding_profiles a = ic_embedding_profiles b →
  ic_job_meta a = ic_job_meta b → ic_prepared a = ic_prepared b →
  ic_deletion_generation a = ic_deletion_generation b →
  a ≡ b.
Proof. destruct a, b; simpl; intros; subst; by split. Qed.

(** The profiles are the tenant's, shared by its contexts. *)
Definition without_profiles (a : InMemoryContextState) : InMemoryContextState :=
  a <| ic_embedding_profiles := [] |>.

Lemma without_profiles_ext (a b : InMemoryContextState) :
  ic_episodes a = ic_episodes b → ic_resources a = ic_resources b →
  ic_units a = ic_units b → ic_edges a = ic_edges b → ic_citations a = ic_citations b →
  ic_jobs a = ic_jobs b → ic_reflect_traces a = ic_reflect_traces b →
  ic_reflect_owners a = ic_reflect_owners b → ic_retrieval_traces a = ic_retrieval_traces b →
  ic_review_events a = ic_review_events b →
  ic_forgotten_sources a ≡ₚ ic_forgotten_sources b →
  ic_embeddings a = ic_embeddings b → ic_job_meta a = ic_job_meta b →
  ic_prepared a = ic_prepared b →
  ic_deletion_generation a = ic_deletion_generation b →
  without_profiles a ≡ without_profiles b.
Proof. destruct a, b; simpl; intros; subst; by split. Qed.

Section isolation.
Context `{HashOrder}.

Lemma retain_idem {A} (p : A → bool) l : retain p (retain p l) = retain p l.
Proof. by apply retain_within. Qed.

Lemma extend_map_list `{Countable K} {V} (l : list (K * V)) (m0 m : gmap K V) :
  l ≡ₚ map_to_list m → extend_map l m0 = m ∪ m0.
Proof.
  intros Hl. apply map_eq. intros k.
  assert (NoDup l.*1) as Hnd by (rewrite Hl; apply NoDup_fst_map_to_list).
  destruct (m !! k) as [v|] eqn:E.
  - rewrite (lookup_union_Some_l _ _ _ v) by done. apply extend_map_lookup; [done|].
    by rewrite Hl, elem_of_map_to_list.
  - rewrite lookup_union_r by done. apply extend_map_lookup_ne.
    intros ([k' v] & -> & Hin)%list_elem_of_fmap. rewrite Hl, elem_of_map_to_list in Hin.
    simpl in E. congruence.
Qed.

Lemma extend_map_lookup_in `{Countable K} {V} (l : list (K * V)) (m : gmap K V) k :
  k ∈ l.*1 → ∃ v, (k, v) ∈ l ∧ extend_map l m !! k = Some v.
Proof.
  revert m. induction l as [|[k' v'] l IH]; intros m Hk; simpl in *; [set_solver|].
  destruct (decide (k ∈ l.*1)) as [Hin|Hni].
  - destruct (IH (<[k' := v']> m) Hin) as (v & Hv & Hl). exists v. split; [set_solver | done].
  - apply elem_of_cons in Hk as [->|]; [|done]. exists v'. split; [set_solver|].
    etrans; [by apply extend_map_lookup_ne|]. apply lookup_insert_eq.
Qed.

Lemma extend_sorted `{Countable K} {V} leb (p : K * V → bool) (m m0 : gmap K V) :
  extend_map (sort_by leb (retain p (map_iter m))) m0 = retain_map (λ k v, p (k, v)) m ∪ m0.
Proof. apply extend_map_list. by rewrite sort_by_perm, retain_map_iter_perm. Qed.

Lemma retain_map_union_out `{Countable K} {V} (p q : K → V → bool) (m m0 : gmap K V) :
  (∀ k v, q k v = true → p k v = false) → (∀ k v v', p k v = true → q k v' = true → False) →
  retain_map p (retain_map q m ∪ m0) = retain_map p m0.
Proof.
  intros Hqp Hk. apply map_eq. intros k. apply option_eq. intros v.
  rewrite !lookup_retain_map. split; intros [Hl Hp]; (split; [|done]).
  - apply lookup_union_Some_raw in Hl as [Hl|[_ Hl]]; [|done].
    apply lookup_retain_map in Hl as [_ Hq]. exfalso. eauto.
  - apply lookup_union_Some_raw. destruct (retain_map q m !! k) as [v'|] eqn:E; [|by right].
    apply lookup_retain_map in E as [_ Hq]. exfalso. eauto.
Qed.

(** Identifiers of a captured part. *)
Definition unit_ids (a : InMemoryContextState) : list UnitId := map mu_id (ic_units a).
Definition job_ids (a : InMemoryContextState) : list JobId :=
  map qj_id (ic_jobs a) ++ map (λ kv, kv.1.1.2) (ic_reflect_owners a).
Definition trace_ids (a : InMemoryContextState) : list TraceId := map tr_id (ic_retrieval_traces a).

(** Every row of [a] belongs to [cx], directly or through a row of [a]. *)
Record staged_by (cx : ResolvedMemoryContext) (a : InMemoryContextState) : Prop := {
  sb_episodes : ∀ x, x ∈ ic_episodes a → owned_episode cx x = true;
  sb_resources : ∀ x, x ∈ ic_resources a → owned_resource cx x = true;
  sb_units : ∀ x, x ∈ ic_units a → unit_matches_context x cx = true;
  sb_edges : ∀ x, x ∈ ic_edges a → ed_src_id x ∈ unit_ids a ∧ ed_dst_id x ∈ unit_ids a;
  sb_citations : ∀ x, x ∈ ic_citations a → ci_memory_unit_id x ∈ unit_ids a;
  sb_jobs : ∀ x, x ∈ ic_jobs a → owned_job cx x = true;
  sb_reflect_traces : ∀ x, x ∈ ic_reflect_traces a → rt_job_id x ∈ job_ids a;
  sb_owners : ∀ x, x ∈ ic_reflect_owners a →
    x.1.1.1 = cx_tenant_id cx ∧ x.2 = owner_value cx;
  sb_traces : ∀ x, x ∈ ic_retrieval_traces a → owned_trace cx x = true;
  sb_review_events : ∀ x, x ∈ ic_review_events a → rv_trace_id x ∈ trace_ids a;
  sb_sources : ∀ x, x ∈ ic_forgotten_sources a → owned_source cx x = true;
  sb_embeddings : ∀ x, x ∈ ic_embeddings a → em_memory_unit_id x ∈ unit_ids a;
  sb_job_meta : ∀ x, x ∈ ic_job_meta a → x.1 ∈ job_ids a;
  sb_prepared : ∀ x, x ∈ ic_prepared a → x.1.2 ∈ job_ids a;
}.

(** Two parts share no unit, job or trace identifier and no episode or resource
    identifier; identifiers are UUIDs minted per row. *)
Record disjoint_ids (a b : InMemoryContextState) : Prop := {
  di_units : ∀ x, x ∈ unit_ids a → x ∉ unit_ids b;
  di_jobs : ∀ x, x ∈ job_ids a → x ∉ job_ids b;
  di_traces : ∀ x, x ∈ trace_ids a → x ∉ trace_ids b;
  di_episodes : ∀ x, x ∈ map ep_id (ic_episodes a) → x ∉ map ep_id (ic_episodes b);
  di_resources : ∀ x, x ∈ map re_id (ic_resources a) → x ∉ map re_id (ic_resources b);
}.

Lemma capture_staged_by s cx : staged_by cx (capture s cx).
Proof.
  split; simpl; intros x; rewrite ?elem_of_sort_by, elem_of_retain; intros [Hin Hp];
    rewrite ?andb_true_iff, ?mem_true, ?bool_decide_eq_true, ?N.eqb_eq in Hp; try tauto.
Qed.

(** A row of the table survives the replacement of another context's rows. *)
Lemma rows_replaced {A} (m : gmap N (list A)) t t' p q st :
  (t = t' → (∀ x, x ∈ rows m t' → q x = true → p x = true) ∧ ∀ x, x ∈ st → q x = false) →
  retain q (rows (update_rows t (λ l, retain p l ++ st) m) t') = retain q (rows m t').
Proof.
  destruct (decide (t = t')) as [<-|Hne]; [|by rewrite rows_update_ne].
  intros [Hl Hst]; [done|]. rewrite rows_update_eq, retain_app, retain_retain.
  rewrite (retain_none q st) by done. rewrite app_nil_r. apply retain_ext. intros x Hx.
  destruct (q x) eqn:E; [by rewrite (Hl x Hx E) | apply andb_false_r].
Qed.

(** The same for the keyed tables. *)
Lemma retain_map_replaced `{Countable K} {V} (m : gmap K V) (p q : K → V → bool) st :
  (∀ k v, m !! k = Some v → q k v = true → p k v = true ∧ k ∉ st.*1) →
  (∀ k v, (k, v) ∈ st → q k v = false) →
  retain_map q (extend_map st (retain_map p m)) = retain_map q m.
Proof.
  intros Hm Hst. apply map_eq. intros k. apply option_eq. intros v.
  rewrite !lookup_retain_map. split; intros [Hl Hq]; (split; [|done]).
  - destruct (decide (k ∈ st.*1)) as [Hin|Hni].
    + destruct (extend_map_lookup_in st (retain_map p m) k Hin) as (v' & Hv' & Hk).
      simplify_eq. rewrite (Hst k v Hv') in Hq. done.
    + rewrite extend_map_lookup_ne in Hl by done. by apply lookup_retain_map in Hl as [? _].
  - destruct (Hm k v Hl Hq) as [Hp Hni]. rewrite extend_map_lookup_ne by done.
    by apply lookup_retain_map.
Qed.

Lemma owners_listing (m m' : gmap ReflectOwnerKey ReflectOwnerValue) t val :
  retain_map (λ k v, (k.1.1 =? t) && bool_decide (v = val)) m =
    retain_map (λ k v, (k.1.1 =? t) && bool_decide (v = val)) m' →
  sort_by owner_key_leb
    (retain (λ kv, (kv.1.1.1 =? t) && bool_decide (kv.2 = val)) (map_iter m)) =
  sort_by owner_key_leb
    (retain (λ kv, (kv.1.1.1 =? t) && bool_decide (kv.2 = val)) (map_iter m')).
Proof.
  intros Hm. apply sort_retain_map_iter; [apply owner_key_leb_total | apply owner_key_leb_trans
    | | exact Hm].
  intros x y Hx Hy. bool_prop. apply owner_key_leb_antisym. congruence.
Qed.

Lemma meta_listing (m m' : gmap JobId JobMeta) ids :
  retain_map (λ k _, mem k ids) m = retain_map (λ k _, mem k ids) m' →
  sort_by (λ a b, a.1 <=? b.1) (retain (λ kv, mem kv.1 ids) (map_iter m)) =
  sort_by (λ a b, a.1 <=? b.1) (retain (λ kv, mem kv.1 ids) (map_iter m')).
Proof.
  intros Hm. apply sort_retain_map_iter; [..|exact Hm]; intros; rewrite ?N.leb_le in *; lia.
Qed.

Lemma prepared_listing (m m' : gmap (TenantId * JobId) ReflectJobResult.t) t ids :
  retain_map (λ k _, (k.1 =? t) && mem k.2 ids) m =
    retain_map (λ k _, (k.1 =? t) && mem k.2 ids) m' →
  sort_by (λ a b, a.1.2 <=? b.1.2)
    (retain (λ kv, (kv.1.1 =? t) && mem kv.1.2 ids) (map_iter m)) =
  sort_by (λ a b, a.1.2 <=? b.1.2)
    (retain (λ kv, (kv.1.1 =? t) && mem kv.1.2 ids) (map_iter m')).
Proof.
  intros Hm. apply sort_retain_map_iter; [..|exact Hm].
  - intros; rewrite !N.leb_le; lia.
  - intros x y z; rewrite !N.leb_le; lia.
  - intros [[xt xj] ?] [[yt yj] ?]. simpl. intros. bool_prop.
    rewrite N.leb_le in *. f_equal; [congruence | lia].
Qed.

Lemma sources_listing (m m' : gset ForgottenSource) p :
  retain_set p m = retain_set p m' → retain p (set_iter m) ≡ₚ retain p (set_iter m').
Proof.
  intros Hm. apply NoDup_Permutation.
  1-2: apply NoDup_retain; rewrite set_iter_perm; apply NoDup_elements.
  intros x. rewrite !elem_of_retain, !elem_of_set_iter.
  rewrite (and_comm (x ∈ m)), (and_comm (x ∈ m')). by rewrite <-!elem_of_retain_set, Hm.
Qed.

Section other_context.
Context (s : InMemoryState) (cx cx' : ResolvedMemoryContext) (staged : InMemoryContextState).
Context (Hne : (cx_tenant_id cx, cx_data_subject_id cx) ≠
               (cx_tenant_id cx', cx_data_subject_id cx')).
Context (Hstaged : staged_by cx staged).
Context (Hold : disjoint_ids (capture s cx') (capture s cx)).
Context (Hnew : disjoint_ids (capture s cx') staged).
Let s' := replace_in staged s cx.

Lemma other_owner subject generation scope agent actor :
  cx_tenant_id cx = cx_tenant_id cx' →
  owns cx subject generation scope agent actor = true →
  owns cx' subject generation scope agent actor = false.
Proof using Hne.
  intros Ht. unfold owns. rewrite !andb_true_iff, !N.eqb_eq. intros ((((-> & _) & _) & _) & _).
  rewrite (proj2 (N.eqb_neq (cx_data_subject_id cx) (cx_data_subject_id cx'))); [done|].
  congruence.
Qed.

Lemma other_episodes : ic_episodes (capture s' cx') = ic_episodes (capture s cx').
Proof using Hne Hstaged Hold.
  apply rows_replaced. intros Ht. split.
  - intros x Hx Hq. apply negb_true_iff, any_false. intros y Hy. apply N.eqb_neq. intros Heq.
    apply (di_episodes _ _ Hold (ep_id x)); apply list_elem_of_fmap; [|by exists y].
    exists x. split; [done|]. simpl. by rewrite elem_of_retain.
  - intros x Hx. apply other_owner; [done|]. by apply (sb_episodes _ _ Hstaged).
Qed.

Lemma other_resources : ic_resources (capture s' cx') = ic_resources (capture s cx').
Proof using Hne Hstaged Hold.
  apply rows_replaced. intros Ht. split.
  - intros x Hx Hq. apply negb_true_iff, any_false. intros y Hy. apply N.eqb_neq. intros Heq.
    apply (di_resources _ _ Hold (re_id x)); apply list_elem_of_fmap; [|by exists y].
    exists x. split; [done|]. simpl. by rewrite elem_of_retain.
  - intros x Hx. apply other_owner; [done|]. by apply (sb_resources _ _ Hstaged).
Qed.

Lemma not_mem x l : x ∉ l → negb (mem x l) = true.
Proof using Type. intros Hx. by apply negb_true_iff, mem_false. Qed.

Lemma other_units : ic_units (capture s' cx') = ic_units (capture s cx').
Proof using Hne Hstaged Hold.
  apply rows_replaced. intros Ht. split.
  - intros x Hx Hq. apply not_mem, (di_units _ _ Hold), list_elem_of_fmap. exists x.
    split; [done|]. simpl. by rewrite elem_of_retain.
  - intros x Hx%(sb_units _ _ Hstaged). unfold unit_matches_context, owner_matches in *.
    bool_prop. apply not_true_iff_false. intros Hq. bool_prop. congruence.
Qed.

Lemma other_jobs : ic_jobs (capture s' cx') = ic_jobs (capture s cx').
Proof using Hne Hstaged Hold.
  apply rows_replaced. intros Ht. split.
  - intros x Hx Hq. apply not_mem, (di_jobs _ _ Hold), elem_of_app. left.
    apply list_elem_of_fmap. exists x. split; [done|]. simpl. by rewrite elem_of_retain.
  - intros x Hx%(sb_jobs _ _ Hstaged). unfold owned_job in *.
    apply andb_true_iff in Hx as [_ Hx]. by rewrite other_owner, andb_false_r.
Qed.

Lemma other_traces : ic_retrieval_traces (capture s' cx') = ic_retrieval_traces (capture s cx').
Proof using Hne Hstaged Hold.
  apply rows_replaced. intros Ht. split.
  - intros x Hx Hq. apply not_mem, (di_traces _ _ Hold), list_elem_of_fmap. exists x.
    split; [done|]. simpl. by rewrite elem_of_retain.
  - intros x Hx%(sb_traces _ _ Hstaged). by apply other_owner.
Qed.

Lemma other_owners : ic_reflect_owners (capture s' cx') = ic_reflect_owners (capture s cx').
Proof using Hne Hstaged Hold Hnew.
  apply owners_listing. apply (retain_map_replaced _ (λ k _, negb (mem k.1.2 _))).
  - intros k v Hk Hq.
    assert (k.1.2 ∈ job_ids (capture s cx')) as Hj.
    { apply elem_of_app. right. apply list_elem_of_fmap. exists (k, v). split; [done|]. simpl.
      rewrite elem_of_sort_by, elem_of_retain. split; [by apply elem_of_map_iter | exact Hq]. }
    split; [by apply not_mem, (di_jobs _ _ Hold)|].
    intros ([k' v'] & -> & Hin)%list_elem_of_fmap. apply (di_jobs _ _ Hnew _ Hj).
    apply elem_of_app. right. apply list_elem_of_fmap. by exists (k', v').
  - intros k v [Ht Hv]%(sb_owners _ _ Hstaged). simpl in *. subst v.
    apply not_true_iff_false. intros Hq. bool_prop. unfold owner_value in *. congruence.
Qed.

Lemma other_job_ids : job_ids (capture s' cx') = job_ids (capture s cx').
Proof using Hne Hstaged Hold Hnew. unfold job_ids. by rewrite other_jobs, other_owners. Qed.

Lemma other_unit_ids : unit_ids (capture s' cx') = unit_ids (capture s cx').
Proof using Hne Hstaged Hold. unfold unit_ids. by rewrite other_units. Qed.

Lemma other_trace_ids : trace_ids (capture s' cx') = trace_ids (capture s cx').
Proof using Hne Hstaged Hold. unfold trace_ids. by rewrite other_traces. Qed.

(** Rows that hang off a unit, a job or a trace. *)
Lemma dependent_rows {A} (m : gmap N (list A)) (key : A → N) (ids old : list N) st :
  (∀ x, x ∈ ids → x ∉ old) → (∀ y, y ∈ st → key y ∉ ids) →
  retain (λ x, mem (key x) ids)
    (rows (update_rows (cx_tenant_id cx) (λ l, retain (λ x, negb (mem (key x) old)) l ++ st) m)
       (cx_tenant_id cx')) =
  retain (λ x, mem (key x) ids) (rows m (cx_tenant_id cx')).
Proof using Type.
  intros Hids Hst. apply rows_replaced. intros _. split.
  - intros x _ Hx%mem_true. by apply not_mem, Hids.
  - intros x Hx. by apply mem_false, Hst.
Qed.

Lemma other_edges : ic_edges (capture s' cx') = ic_edges (capture s cx').
Proof using Hne Hstaged Hold Hnew.
  transitivity (retain (λ e, mem (ed_src_id e) (unit_ids (capture s' cx')) &&
                             mem (ed_dst_id e) (unit_ids (capture s' cx')))
                  (rows (st_memory_edges s') (cx_tenant_id cx'))); [done|].
  rewrite other_unit_ids. apply rows_replaced. intros _. split.
  - intros x _ [Hx%mem_true _]%andb_true_iff. apply orb_true_iff. left.
    by apply not_mem, (di_units _ _ Hold).
  - intros x [Hx _]%(sb_edges _ _ Hstaged). apply andb_false_iff. left.
    apply mem_false. intros Hin. by apply (di_units _ _ Hnew _ Hin).
Qed.

Lemma other_dependents :
  ic_citations (capture s' cx') = ic_citations (capture s cx') ∧
  ic_reflect_traces (capture s' cx') = ic_reflect_traces (capture s cx') ∧
  ic_review_events (capture s' cx') = ic_review_events (capture s cx') ∧
  ic_embeddings (capture s' cx') = ic_embeddings (capture s cx').
Proof using Hne Hstaged Hold Hnew.
  split_and!.
  - transitivity (retain (λ c, mem (ci_memory_unit_id c) (unit_ids (capture s' cx')))
                    (rows (st_citations s') (cx_tenant_id cx'))); [done|].
    rewrite other_unit_ids. apply dependent_rows; [apply Hold|].
    intros y Hy%(sb_citations _ _ Hstaged) Hin. by apply (di_units _ _ Hnew _ Hin).
  - transitivity (retain (λ t, mem (rt_job_id t) (job_ids (capture s' cx')))
                    (rows (st_reflect_traces s') (cx_tenant_id cx'))); [done|].
    rewrite other_job_ids. apply dependent_rows; [apply Hold|].
    intros y Hy%(sb_reflect_traces _ _ Hstaged) Hin. by apply (di_jobs _ _ Hnew _ Hin).
  - transitivity (retain (λ e, mem (rv_trace_id e) (trace_ids (capture s' cx')))
                    (rows (st_review_events s') (cx_tenant_id cx'))); [done|].
    rewrite other_trace_ids. apply dependent_rows; [apply Hold|].
    intros y Hy%(sb_review_events _ _ Hstaged) Hin. by apply (di_traces _ _ Hnew _ Hin).
  - transitivity (retain (λ r, mem (em_memory_unit_id r) (unit_ids (capture s' cx')))
                    (rows (st_embeddings s') (cx_tenant_id cx'))); [done|].
    rewrite other_unit_ids. apply dependent_rows; [apply Hold|].
    intros y Hy%(sb_embeddings _ _ Hstaged) Hin. by apply (di_units _ _ Hnew _ Hin).
Qed.

Lemma other_job_tables :
  ic_job_meta (capture s' cx') = ic_job_meta (capture s cx') ∧
  ic_prepared (capture s' cx') = ic_prepared (capture s cx').
Proof using Hne Hstaged Hold Hnew.
  split.
  - transitivity (sort_by (λ a b, a.1 <=? b.1)
      (retain (λ kv, mem kv.1 (job_ids (capture s' cx'))) (map_iter (st_job_meta s')))); [done|].
    rewrite other_job_ids. apply meta_listing.
    apply (retain_map_replaced _ (λ k _, negb (mem k _))).
    + intros k v _ Hk%mem_true. split; [by apply not_mem, (di_jobs _ _ Hold)|].
      intros (x & -> & Hx%(sb_job_meta _ _ Hstaged))%list_elem_of_fmap.
      by apply (di_jobs _ _ Hnew _ Hk).
    + intros k v Hx%(sb_job_meta _ _ Hstaged). apply mem_false. intros Hk.
      by apply (di_jobs _ _ Hnew _ Hk).
  - transitivity (sort_by (λ a b, a.1.2 <=? b.1.2)
      (retain (λ kv, (kv.1.1 =? cx_tenant_id cx') && mem kv.1.2 (job_ids (capture s' cx')))
        (map_iter (st_prepared_structured_state s')))); [done|].
    rewrite other_job_ids. apply prepared_listing.
    apply (retain_map_replaced _ (λ k _, negb (mem k.2 _))).
    + intros k v _ [_ Hk%mem_true]%andb_true_iff. split; [by apply not_mem, (di_jobs _ _ Hold)|].
      intros (x & -> & Hx%(sb_prepared _ _ Hstaged))%list_elem_of_fmap.
      by apply (di_jobs _ _ Hnew _ Hk).
    + intros k v Hx%(sb_prepared _ _ Hstaged). apply andb_false_iff. right.
      apply mem_false. intros Hk. by apply (di_jobs _ _ Hnew _ Hk).
Qed.

Lemma other_sources :
  ic_forgotten_sources (capture s' cx') ≡ₚ ic_forgotten_sources (capture s cx').
Proof using Hne Hstaged.
  apply sources_listing. apply set_eq. intros x. simpl.
  rewrite !elem_of_retain_set, elem_of_union, elem_of_list_to_set, elem_of_retain_set.
  assert (owned_source cx' x = true → owned_source cx x = false) as Hx.
  { destruct x as [[[[[[? ?] ?] ?] ?] ?] ?]. simpl. intros Hq. apply not_true_iff_false.
    intros Hp. bool_prop. congruence. }
  rewrite negb_true_iff. split; [|tauto].
  intros [Hq [Hin|Hin]]; [|tauto]. apply (sb_sources _ _ Hstaged) in Hin. rewrite Hx in Hin; done.
Qed.

Lemma other_deletion_generation :
  ic_deletion_generation (capture s' cx') = ic_deletion_generation (capture s cx').
Proof using Hne. simpl. f_equal. apply lookup_insert_ne. congruence. Qed.

(** putting one context's staged part back changes nothing a context of
    another subject or tenant owns: it captures what it captured before, up to
    the listing order of its forgotten sources and the embedding profiles its
    tenant shares. *)
Theorem replace_in_isolates :
  without_profiles (capture s' cx') ≡ without_profiles (capture s cx').
Proof using Hne Hstaged Hold Hnew.
  destruct other_dependents as (Hc & Ht & Hr & He), other_job_tables as (Hm & Hp).
  apply without_profiles_ext; [apply other_episodes | apply other_resources | apply other_units
    | apply other_edges | exact Hc | apply other_jobs | exact Ht | apply other_owners
    | apply other_traces | exact Hr | apply other_sources | exact He | exact Hm | exact Hp
    | apply other_deletion_generation].
Qed.

End other_context.

(** ** The committed part is the staged part *)

(** Rows of the store that refer to a staged identifier refer to one the
    context already had: the identifiers minted since are fresh. *)
Record fresh_ids (s : InMemoryState) (cx : ResolvedMemoryContext) (a : InMemoryContextState)
    : Prop := {
  fr_edges : ∀ e, e ∈ rows (st_memory_edges s) (cx_tenant_id cx) →
    ed_src_id e ∈ unit_ids a → ed_dst_id e ∈ unit_ids a →
    ed_src_id e ∈ unit_ids (capture s cx) ∧ ed_dst_id e ∈ unit_ids (capture s cx);
  fr_citations : ∀ c, c ∈ rows (st_citations s) (cx_tenant_id cx) →
    ci_memory_unit_id c ∈ unit_ids a → ci_memory_unit_id c ∈ unit_ids (capture s cx);
  fr_embeddings : ∀ r, r ∈ rows (st_embeddings s) (cx_tenant_id cx) →
    em_memory_unit_id r ∈ unit_ids a → em_memory_unit_id r ∈ unit_ids (capture s cx);
  fr_reflect_traces : ∀ t, t ∈ rows (st_reflect_traces s) (cx_tenant_id cx) →
    rt_job_id t ∈ job_ids a → rt_job_id t ∈ job_ids (capture s cx);
  fr_review_events : ∀ e, e ∈ rows (st_review_events s) (cx_tenant_id cx) →
    rv_trace_id e ∈ trace_ids a → rv_trace_id e ∈ trace_ids (capture s cx);
  fr_job_meta : ∀ k v, st_job_meta s !! k = Some v →
    k ∈ job_ids a → k ∈ job_ids (capture s cx);
  fr_prepared : ∀ k v, st_prepared_structured_state s !! k = Some v →
    k.2 ∈ job_ids a → k.2 ∈ job_ids (capture s cx);
}.

Lemma rows_installed {A} (m : gmap N (list A)) t p q st :
  (∀ x, x ∈ rows m t → q x = true → p x = false) → (∀ x, x ∈ st → q x = true) →
  retain q (rows (update_rows t (λ l, retain p l ++ st) m) t) = st.
Proof.
  intros Hl Hst. rewrite rows_update_eq, retain_app, retain_retain, (retain_all q st) by done.
  rewrite retain_none; [done|]. intros x Hx.
  destruct (q x) eqn:E; [by rewrite (Hl x Hx E) | apply andb_false_r].
Qed.

Lemma dependent_installed {A} (m : gmap N (list A)) t (key : A → N) (ids old : list N) st :
  (∀ x, x ∈ rows m t → key x ∈ ids → key x ∈ old) → (∀ x, x ∈ st → key x ∈ ids) →
  retain (λ x, mem (key x) ids)
    (rows (update_rows t (λ l, retain (λ x, negb (mem (key x) old)) l ++ st) m) t) = st.
Proof.
  intros Hl Hst. apply rows_installed.
  - intros x Hx Hin%mem_true. apply negb_false_iff, mem_true. auto.
  - intros x Hx. by apply mem_true, Hst.
Qed.

Lemma retain_map_installed `{Countable K} {V} (m m0 : gmap K V) (p q : K → V → bool) :
  (∀ k v, m !! k = Some v → q k v = true → p k v = false) →
  retain_map q (retain_map q m0 ∪ retain_map p m) = retain_map q m0.
Proof.
  intros Hm. apply map_eq. intros k. apply option_eq. intros v.
  rewrite !lookup_retain_map, lookup_union_Some_raw, !lookup_retain_map. split; [|tauto].
  intros [[Hl|[_ [Hl Hp]]] Hq]; [done|]. rewrite (Hm k v Hl Hq) in Hp. done.
Qed.

Section own_context.
Context (s scratch : InMemoryState) (cx : ResolvedMemoryContext).
Let staged := capture scratch cx.
Context (Hfresh : fresh_ids s cx staged).
Let s' := replace_in staged s cx.

Lemma elem_of_unit_ids s0 u :
  u ∈ rows (st_memory_units s0) (cx_tenant_id cx) → unit_matches_context u cx = true →
  mu_id u ∈ unit_ids (capture s0 cx).
Proof using Type.
  intros Hu Hm. apply list_elem_of_fmap. exists u. split; [done|]. simpl.
  by rewrite elem_of_retain.
Qed.

Lemma own_rows :
  ic_episodes (capture s' cx) = ic_episodes staged ∧
  ic_resources (capture s' cx) = ic_resources staged ∧
  ic_units (capture s' cx) = ic_units staged ∧
  ic_jobs (capture s' cx) = ic_jobs staged ∧
  ic_retrieval_traces (capture s' cx) = ic_retrieval_traces staged.
Proof using Type.
  destruct (capture_staged_by scratch cx). split_and!; apply rows_installed; try done.
  - intros x Hx Hq. apply negb_false_iff, any_true. exists x.
    rewrite N.eqb_refl. simpl. by rewrite elem_of_retain.
  - intros x Hx Hq. apply negb_false_iff, any_true. exists x.
    rewrite N.eqb_refl. simpl. by rewrite elem_of_retain.
  - intros x Hx Hq. apply negb_false_iff, mem_true. by apply elem_of_unit_ids.
  - intros x Hx Hq. apply negb_false_iff, mem_true, elem_of_app. left.
    apply list_elem_of_fmap. exists x. simpl. by rewrite elem_of_retain.
  - intros x Hx Hq. apply negb_false_iff, mem_true.
    apply list_elem_of_fmap. exists x. simpl. by rewrite elem_of_retain.
Qed.

Lemma own_owners : ic_reflect_owners (capture s' cx) = ic_reflect_owners staged.
Proof using Type.
  apply owners_listing. simpl. rewrite extend_sorted.
  apply (retain_map_installed _ _ (λ k _, negb (mem k.1.2 _))).
  intros k v Hk Hq. apply negb_false_iff, mem_true, elem_of_app. right.
  apply list_elem_of_fmap. exists (k, v). split; [done|]. simpl.
  by rewrite elem_of_sort_by, elem_of_retain, elem_of_map_iter.
Qed.

Lemma own_ids :
  unit_ids (capture s' cx) = unit_ids staged ∧ job_ids (capture s' cx) = job_ids staged ∧
  trace_ids (capture s' cx) = trace_ids staged.
Proof using Type.
  destruct own_rows as (_ & _ & Hu & Hj & Ht). unfold unit_ids, job_ids, trace_ids.
  by rewrite Hu, Hj, Ht, own_owners.
Qed.

Lemma own_dependents :
  ic_edges (capture s' cx) = ic_edges staged ∧
  ic_citations (capture s' cx) = ic_citations staged ∧
  ic_reflect_traces (capture s' cx) = ic_reflect_traces staged ∧
  ic_review_events (capture s' cx) = ic_review_events staged ∧
  ic_embeddings (capture s' cx) = ic_embeddings staged.
Proof using Hfresh.
  destruct own_ids as (Hu & Hj & Ht), (capture_staged_by scratch cx), Hfresh. split_and!.
  - transitivity (retain (λ e, mem (ed_src_id e) (unit_ids (capture s' cx)) &&
                               mem (ed_dst_id e) (unit_ids (capture s' cx)))
                    (rows (st_memory_edges s') (cx_tenant_id cx))); [done|].
    rewrite Hu. apply rows_installed.
    + intros x Hx [Hsrc%mem_true Hdst%mem_true]%andb_true_iff.
      destruct (fr_edges0 x Hx Hsrc Hdst).
      by apply orb_false_iff; split; apply negb_false_iff, mem_true.
    + intros x Hx. apply andb_true_iff. rewrite !mem_true. by apply sb_edges0.
  - transitivity (retain (λ c, mem (ci_memory_unit_id c) (unit_ids (capture s' cx)))
                    (rows (st_citations s') (cx_tenant_id cx))); [done|].
    rewrite Hu. by apply dependent_installed.
  - transitivity (retain (λ t, mem (rt_job_id t) (job_ids (capture s' cx)))
                    (rows (st_reflect_traces s') (cx_tenant_id cx))); [done|].
    rewrite Hj. by apply dependent_installed.
  - transitivity (retain (λ e, mem (rv_trace_id e) (trace_ids (capture s' cx)))
                    (rows (st_review_events s') (cx_tenant_id cx))); [done|].
    rewrite Ht. by apply dependent_installed.
  - transitivity (retain (λ r, mem (em_memory_unit_id r) (unit_ids (capture s' cx)))
                    (rows (st_embeddings s') (cx_tenant_id cx))); [done|].
    rewrite Hu. by apply dependent_installed.
Qed.

Lemma own_job_tables :
  ic_job_meta (capture s' cx) = ic_job_meta staged ∧
  ic_prepared (capture s' cx) = ic_prepared staged.
Proof using Hfresh.
  destruct own_ids as (_ & Hj & _), Hfresh. split.
  - transitivity (sort_by (λ a b, a.1 <=? b.1)
      (retain (λ kv, mem kv.1 (job_ids (capture s' cx))) (map_iter (st_job_meta s')))); [done|].
    rewrite Hj. apply meta_listing. simpl. rewrite extend_sorted.
    apply (retain_map_installed _ _ (λ k _, negb (mem k _))).
    intros k v Hk Hin%mem_true. apply negb_false_iff, mem_true. by eapply fr_job_meta0.
  - transitivity (sort_by (λ a b, a.1.2 <=? b.1.2)
      (retain (λ kv, (kv.1.1 =? cx_tenant_id cx) && mem kv.1.2 (job_ids (capture s' cx)))
        (map_iter (st_prepared_structured_state s')))); [done|].
    rewrite Hj. apply prepared_listing. simpl. rewrite extend_sorted.
    apply (retain_map_installed _ _ (λ k _, negb (mem k.2 _))).
    intros k v Hk [_ Hin%mem_true]%andb_true_iff. apply negb_false_iff, mem_true.
    by eapply fr_prepared0.
Qed.

Lemma own_sources :
  ic_forgotten_sources (capture s' cx) ≡ₚ ic_forgotten_sources staged.
Proof using Type.
  apply sources_listing. apply set_eq. intros x. simpl.
  rewrite !elem_of_retain_set, elem_of_union, elem_of_list_to_set, elem_of_retain,
    elem_of_retain_set, elem_of_set_iter, negb_true_iff.
  destruct (owned_source cx x); naive_solver.
Qed.

Lemma committed_part :
  without_profiles (capture s' cx) ≡ without_profiles staged.
Proof using Hfresh.
  destruct own_rows as (He & Hr & Hu & Hj & Ht), own_job_tables as (Hm & Hp).
  destruct own_dependents as (Hed & Hc & Hrt & Hre & Hem).
  apply without_profiles_ext; [exact He | exact Hr | exact Hu | exact Hed | exact Hc | exact Hj
    | exact Hrt | apply own_owners | exact Ht | exact Hre | apply own_sources | exact Hem
    | exact Hm | exact Hp | simpl; by rewrite lookup_insert_eq].
Qed.

(** after a staged part is put back, the context captures exactly that part
    (the listing order of its forgotten sources and the shared embedding
    profiles aside). *)
Theorem replace_in_installs :
  without_profiles (capture s' cx) ≡ without_profiles staged.
Proof using Hfresh. apply committed_part. Qed.
End own_context.

(** ** A transaction starts from what it captured *)

Section scratch.
Context (s source : InMemoryState) (cx : ResolvedMemoryContext).
Let s' := into_scratch (capture s cx) source cx.

Lemma scratch_own :
  ic_units (capture s' cx) = ic_units (capture s cx) ∧
  ic_jobs (capture s' cx) = ic_jobs (capture s cx) ∧
  ic_retrieval_traces (capture s' cx) = ic_retrieval_traces (capture s cx) ∧
  ic_reflect_owners (capture s' cx) = ic_reflect_owners (capture s cx).
Proof using Type.
  split_and!; [simpl; rewrite rows_insert_eq; apply retain_idem..|].
  apply owners_listing. simpl. rewrite extend_sorted, map_union_empty.
  by apply retain_map_within.
Qed.

Lemma scratch_ids :
  unit_ids (capture s' cx) = unit_ids (capture s cx) ∧
  job_ids (capture s' cx) = job_ids (capture s cx) ∧
  trace_ids (capture s' cx) = trace_ids (capture s cx).
Proof using Type.
  destruct scratch_own as (Hu & Hj & Ht & Ho). unfold unit_ids, job_ids, trace_ids.
  by rewrite Hu, Hj, Ht, Ho.
Qed.

Lemma scratch_rows {A} (p q : A → bool) (l : list A) (t : N) :
  (∀ x, p x = q x) → retain p (rows (<[t := retain q l]> ∅) t) = retain q l.
Proof using Type.
  intros Hpq. rewrite rows_insert_eq, (retain_ext p q) by done. apply retain_idem.
Qed.

Lemma scratch_job_tables :
  ic_job_meta (capture s' cx) = ic_job_meta (capture s cx) ∧
  ic_prepared (capture s' cx) = ic_prepared (capture s cx).
Proof using Type.
  destruct scratch_ids as (_ & Hj & _). split.
  - transitivity (sort_by (λ a b, a.1 <=? b.1)
      (retain (λ kv, mem kv.1 (job_ids (capture s' cx))) (map_iter (st_job_meta s')))); [done|].
    rewrite Hj. apply meta_listing. simpl. rewrite extend_sorted, map_union_empty.
    by apply retain_map_within.
  - transitivity (sort_by (λ a b, a.1.2 <=? b.1.2)
      (retain (λ kv, (kv.1.1 =? cx_tenant_id cx) && mem kv.1.2 (job_ids (capture s' cx)))
        (map_iter (st_prepared_structured_state s')))); [done|].
    rewrite Hj. apply prepared_listing. simpl. rewrite extend_sorted, map_union_empty.
    by apply retain_map_within.
Qed.

(** the private state of a transaction shows the captured part, whatever
    the order in which hash tables list their entries. *)
Theorem scratch_shows_capture : capture s' cx ≡ capture s cx.
Proof using Type.
  destruct scratch_own as (Hu & Hj & Ht & Ho), scratch_ids as (Hui & Hji & Hti).
  destruct scratch_job_tables as (Hm & Hp). unfold unit_ids, job_ids, trace_ids in *.
  apply context_state_ext; [| |exact Hu| | |exact Hj| |exact Ho|exact Ht| | | | |exact Hm|exact Hp|].
  - by apply scratch_rows.
  - by apply scratch_rows.
  - apply scratch_rows. intros e. simpl in Hui |- *. by rewrite Hui.
  - apply scratch_rows. intros c. simpl in Hui |- *. by rewrite Hui.
  - apply scratch_rows. intros t. simpl in Hji |- *. by rewrite Hji.
  - apply scratch_rows. intros e. simpl in Hti |- *. by rewrite Hti.
  - apply sources_listing. apply set_eq. intros x. simpl.
    rewrite !elem_of_retain_set, elem_of_union, elem_of_list_to_set, elem_of_retain,
      elem_of_set_iter. set_solver.
  - apply scratch_rows. intros r. simpl in Hui |- *. by rewrite Hui.
  - simpl. by rewrite rows_insert_eq.
  - simpl. by rewrite lookup_insert_eq.
Qed.
End scratch.

End isolation.
