(* ===== verification/Txn.v ===== *)
(** * Txn: transactions of the in-memory store

    [InMemoryTxn], its staging operations and [commit] of
    [crates/memphant-core/src/lib.rs], with the mutation ledger that makes
    retried mutations idempotent.  A staging operation reads the committed
    state and returns the transaction it leaves; [commit] returns the state to
    install, or an error that installs nothing.  New identifiers are arguments;
    the mutexes serialize the operations and are not modelled further, except
    the lock of an idempotency key, which the transaction holds. *)

From S2P Require Import Prelude Types Clock Bitemporal Lineage Store.

Record StagedMutation : Set := mkStagedMutation {
  sm_claim : MutationClaim;
  sm_response : option MutationResponse;
  sm_replay : bool;
}.
#[export] Instance StagedMutation_eta : Eta StagedMutation := λ r,
  mkStagedMutation (sm_claim r) (sm_response r) (sm_replay r).

Record InMemoryTxn : Type := mkTxn {
  tx_context : ResolvedMemoryContext;
  tx_episodes : list StoredEpisode;
  tx_episode_observation_updates : list (TenantId * EpisodeId * string);
  tx_resources : list StoredResource;
  tx_memory_units : list StoredMemoryUnit;
  tx_memory_edges : list StoredMemoryEdge;
  tx_reflect_jobs : list QueuedReflectJob;
  tx_task_outcomes : list TaskOutcomeRow;
  tx_task_memory_events : list TaskMemoryEventRow;
  tx_state_snapshot : option (InMemoryContextState * InMemoryState);
  tx_mutation : option StagedMutation;
  tx_subject_erasure : option SubjectErasureReceipt;
  tx_transaction_time : string;
  tx_committed : bool;
}.
#[export] Instance InMemoryTxn_eta : Eta InMemoryTxn := λ r,
  mkTxn (tx_context r) (tx_episodes r) (tx_episode_observation_updates r)
    (tx_resources r) (tx_memory_units r) (tx_memory_edges r)
    (tx_reflect_jobs r) (tx_task_outcomes r) (tx_task_memory_events r)
    (tx_state_snapshot r) (tx_mutation r) (tx_subject_erasure r)
    (tx_transaction_time r) (tx_committed r).

Record DedupOutcome : Set := mkDedupOutcome {
  do_matched : bool;
  do_observation_count : N;
}.
Record RetainOutcome : Set := mkRetainOutcome {
  ro_episode_id : EpisodeId;
  ro_dedup : DedupOutcome;
}.

Module MutationClaimOutcome.
Inductive t : Set := Execute | Replay (response : MutationResponse).
End MutationClaimOutcome.

(** What [serde_json] renders for an erasure receipt. *)
Class ReceiptJson := receipt_json : SubjectErasureReceipt → string.

Definition DAY_SECONDS : Z := 24 * 60 * 60.

(** ** Claims and responses *)

Definition validate_idempotency_key (key : string) : result StoreError.t () :=
  if trim_is_empty key || (255 <? str_len key)
  then Err (StoreError.Conflict "idempotency key must contain 1 to 255 bytes")
  else Ok ().

(** [MutationClaim::new]. *)
Definition MutationClaim_new (context : ResolvedMemoryContext) (verb : MutationVerb.t)
    (idempotency_key request_hash : string) : result StoreError.t MutationClaim :=
  _ <-? validate_idempotency_key idempotency_key;
  Ok {| mc_tenant_id := cx_tenant_id context; mc_verb := verb;
        mc_idempotency_key := idempotency_key;
        mc_data_subject_id := cx_data_subject_id context;
        mc_subject_generation := cx_subject_generation context;
        mc_request_hash := request_hash |}.

(** [MutationResponse::success]. *)
Definition MutationResponse_success (status : N) (body : string)
    : result StoreError.t MutationResponse :=
  if (200 <=? status) && (status <? 300) then Ok (mkMutationResponse status body)
  else Err (StoreError.Conflict "only successful mutation responses may be recorded").

Definition claim_key (claim : MutationClaim) : LedgerKey :=
  (mc_tenant_id claim, mc_verb claim, mc_idempotency_key claim).

Section txn.
Context `{HashOrder} `{Jiff} `{ReceiptJson}.

Definition begin_at (context : ResolvedMemoryContext) (now : Z) : InMemoryTxn :=
  mkTxn context [] [] [] [] [] [] [] [] None None None (fmt_rfc3339 now) false.

(** ** Staging rows *)

Definition validate_context_identity (context : ResolvedMemoryContext)
    (tenant_id data_subject_id subject_generation scope_id agent_node_id : N)
    (actor_id : option ActorId) : result StoreError.t () :=
  if negb (tenant_id =? cx_tenant_id context) ||
     negb (data_subject_id =? cx_data_subject_id context) ||
     negb (subject_generation =? cx_subject_generation context) ||
     negb (scope_id =? cx_scope_id context) ||
     negb (agent_node_id =? cx_agent_node_id context) ||
     negb (bool_decide (actor_id = Some (cx_actor_id context)))
  then Err (StoreError.Conflict "write does not match transaction context")
  else Ok ().

(** One more observation of an episode at [observed_at]. *)
Definition observe_episode (observed_at : string) (e : StoredEpisode) : StoredEpisode :=
  let e := e <| ep_observation_count ::= λ n, wrapping_add u32_max n 1 |> in
  let e := if is_lt (cmp_rfc3339 observed_at (ep_first_observed_at e))
           then e <| ep_first_observed_at := observed_at |> else e in
  if is_gt (cmp_rfc3339 observed_at (ep_last_observed_at e))
  then e <| ep_last_observed_at := observed_at |> else e.

(** The row a retained episode dedups with, but for the tenant. *)
Definition same_episode (episode : NewEpisode) (stored : StoredEpisode) : bool :=
  (ep_data_subject_id stored =? ne_data_subject_id episode) &&
  (ep_subject_generation stored =? ne_subject_generation episode) &&
  (ep_scope_id stored =? ne_scope_id episode) &&
  (ep_agent_node_id stored =? ne_agent_node_id episode) &&
  (ep_actor_id stored =? ne_actor_id episode) &&
  bool_decide (ep_dedup_key stored = ne_dedup_key episode).

Definition new_episode (id : EpisodeId) (episode : NewEpisode) : StoredEpisode := {|
  ep_id := id;
  ep_tenant_id := ne_tenant_id episode;
  ep_data_subject_id := ne_data_subject_id episode;
  ep_scope_id := ne_scope_id episode;
  ep_actor_id := ne_actor_id episode;
  ep_agent_node_id := ne_agent_node_id episode;
  ep_subject_generation := ne_subject_generation episode;
  ep_source_kind := ne_source_kind episode;
  ep_source_ref := ne_source_ref episode;
  ep_source_trust := ne_source_trust episode;
  ep_dedup_key := ne_dedup_key episode;
  ep_body := ne_body episode;
  ep_observation_count := 1;
  ep_first_observed_at := ne_observed_at episode;
  ep_last_observed_at := ne_observed_at episode;
|}.

Definition stage_episode (store : InMemoryState) (new_id : EpisodeId) (episode : NewEpisode)
    (tx : InMemoryTxn) : InMemoryTxn * result StoreError.t RetainOutcome :=
  if tx_committed tx then (tx, Err StoreError.TransactionAlreadyCommitted) else
  match validate_context_identity (tx_context tx) (ne_tenant_id episode)
          (ne_data_subject_id episode) (ne_subject_generation episode) (ne_scope_id episode)
          (ne_agent_node_id episode) (Some (ne_actor_id episode)) with
  | Err e => (tx, Err e)
  | Ok _ =>
      let same staged :=
        (ep_tenant_id staged =? ne_tenant_id episode) && same_episode episode staged in
      match find same (tx_episodes tx) with
      | Some staged =>
          let staged := observe_episode (ne_observed_at episode) staged in
          (tx <| tx_episodes ::= update_first same (observe_episode (ne_observed_at episode)) |>,
           Ok (mkRetainOutcome (ep_id staged) (mkDedupOutcome true (ep_observation_count staged))))
      | None =>
          match find (same_episode episode) (rows (st_episodes store) (ne_tenant_id episode)) with
          | Some existing =>
              let pending_updates :=
                N.of_nat (length (retain (λ '(_, id, _), id =? ep_id existing)
                                    (tx_episode_observation_updates tx))) in
              (tx <| tx_episode_observation_updates ::= λ l,
                      l ++ [(ne_tenant_id episode, ep_id existing, ne_observed_at episode)] |>,
               Ok (mkRetainOutcome (ep_id existing)
                     (mkDedupOutcome true
                        (wrapping_add u32_max
                           (wrapping_add u32_max (ep_observation_count existing) pending_updates)
                           1))))
          | None =>
              (tx <| tx_episodes ::= λ l, l ++ [new_episode new_id episode] |>,
               Ok (mkRetainOutcome new_id (mkDedupOutcome false 1)))
          end
      end
  end.

Definition new_unit (id : UnitId) (unit : NewMemoryUnit) : StoredMemoryUnit := {|
  mu_id := id;
  mu_tenant_id := nu_tenant_id unit;
  mu_data_subject_id := nu_data_subject_id unit;
  mu_scope_id := nu_scope_id unit;
  mu_agent_node_id := nu_agent_node_id unit;
  mu_subject_generation := nu_subject_generation unit;
  mu_kind := nu_kind unit;
  mu_state := nu_state unit;
  mu_fact_key := nu_fact_key unit;
  mu_predicate := nu_predicate unit;
  mu_body := nu_body unit;
  mu_confidence := nu_confidence unit;
  mu_trust_level := nu_trust_level unit;
  mu_churn_class := nu_churn_class unit;
  mu_freshness_due_at := nu_freshness_due_at unit;
  mu_actor_id := nu_actor_id unit;
  mu_source_kind := nu_source_kind unit;
  mu_source_ref := nu_source_ref unit;
  mu_observed_at := nu_observed_at unit;
  mu_source_episode_id := nu_source_episode_id unit;
  mu_source_resource_id := nu_source_resource_id unit;
  mu_deletion_generation := nu_deletion_generation unit;
  mu_contextual_chunks := nu_contextual_chunks unit;
  mu_valid_from := nu_valid_from unit;
  mu_valid_to := nu_valid_to unit;
  mu_transaction_from := nu_transaction_from unit;
  mu_transaction_to := nu_transaction_to unit;
  mu_last_reinforced_at := None;
  mu_reinforcement_count := 0;
  mu_compact := None;
  mu_invalidation := None;
  mu_capture := nu_capture unit;
|}.

Definition stage_memory_unit (new_id : UnitId) (unit : NewMemoryUnit) (tx : InMemoryTxn)
    : InMemoryTxn * result StoreError.t UnitId :=
  if tx_committed tx then (tx, Err StoreError.TransactionAlreadyCommitted) else
  match validate_context_identity (tx_context tx) (nu_tenant_id unit)
          (nu_data_subject_id unit) (nu_subject_generation unit) (nu_scope_id unit)
          (nu_agent_node_id unit) (nu_actor_id unit) with
  | Err e => (tx, Err e)
  | Ok _ => (tx <| tx_memory_units ::= λ l, l ++ [new_unit new_id unit] |>, Ok new_id)
  end.

Definition new_resource (id : ResourceId) (resource : NewResource) : StoredResource := {|
  re_id := id;
  re_tenant_id := nr_tenant_id resource;
  re_data_subject_id := nr_data_subject_id resource;
  re_scope_id := nr_scope_id resource;
  re_actor_id := nr_actor_id resource;
  re_agent_node_id := nr_agent_node_id resource;
  re_subject_generation := nr_subject_generation resource;
  re_uri := nr_uri resource;
  re_source_ref := nr_source_ref resource;
  re_observed_at := nr_observed_at resource;
  re_kind := nr_kind resource;
  re_content_hash := nr_content_hash resource;
  re_mime_type := nr_mime_type resource;
  re_revision := nr_revision resource;
  re_body := nr_body resource;
  re_source_trust := nr_source_trust resource;
  re_acl := nr_acl resource;
  re_extractor_state := ResourceExtractorState.Registered;
|}.

Definition stage_resource (new_id : ResourceId) (resource : NewResource) (tx : InMemoryTxn)
    : InMemoryTxn * result StoreError.t ResourceId :=
  if tx_committed tx then (tx, Err StoreError.TransactionAlreadyCommitted) else
  match validate_context_identity (tx_context tx) (nr_tenant_id resource)
          (nr_data_subject_id resource) (nr_subject_generation resource) (nr_scope_id resource)
          (nr_agent_node_id resource) (Some (nr_actor_id resource)) with
  | Err e => (tx, Err e)
  | Ok _ => (tx <| tx_resources ::= λ l, l ++ [new_resource new_id resource] |>, Ok new_id)
  end.

Definition stage_memory_edge (store : InMemoryState) (new_id : EdgeId) (edge : NewMemoryEdge)
    (tx : InMemoryTxn) : InMemoryTxn * result StoreError.t EdgeId :=
  let context := tx_context tx in
  if tx_committed tx then (tx, Err StoreError.TransactionAlreadyCommitted) else
  if negb (nd_tenant_id edge =? cx_tenant_id context) ||
     negb (nd_scope_id edge =? cx_scope_id context)
  then (tx, Err (StoreError.Conflict "memory edge does not match transaction context")) else
  let endpoint_matches id :=
    any (λ unit, (mu_id unit =? id) && unit_matches_context unit context)
      (tx_memory_units tx ++ rows (st_memory_units store) (cx_tenant_id context)) in
  if negb (endpoint_matches (nd_src_id edge)) || negb (endpoint_matches (nd_dst_id edge))
  then (tx, Err (StoreError.Conflict
                   "memory edge endpoints must belong to the transaction context"))
  else
    (tx <| tx_memory_edges ::= λ l, l ++ [
       {| ed_id := new_id; ed_tenant_id := nd_tenant_id edge; ed_scope_id := nd_scope_id edge;
          ed_src_id := nd_src_id edge; ed_dst_id := nd_dst_id edge; ed_kind := nd_kind edge;
          ed_transaction_from := Some (tx_transaction_time tx); ed_transaction_to := None |}] |>,
     Ok new_id).

(** The target of a reflect job exists in the transaction or, for the context,
    in the store. *)
Definition job_target_matches (store : InMemoryState) (tx : InMemoryTxn) (job : ReflectJob)
    : bool :=
  let context := tx_context tx in
  match rj_kind job, rj_episode_id job, rj_resource_id job with
  | ReflectJobKind.ReflectEpisode, Some id, None =>
      any (λ e, ep_id e =? id) (tx_episodes tx) ||
      any (λ e, (ep_id e =? id) && owned_episode context e)
        (rows (st_episodes store) (cx_tenant_id context))
  | ReflectJobKind.ReflectResource, None, Some id =>
      any (λ r, re_id r =? id) (tx_resources tx) ||
      any (λ r, (re_id r =? id) && owned_resource context r)
        (rows (st_resources store) (cx_tenant_id context))
  | ReflectJobKind.ReflectScope, None, None => true
  | _, _, _ => false
  end.

Definition same_job (job : ReflectJob) (queued : QueuedReflectJob) : bool :=
  (qj_tenant_id queued =? rj_tenant_id job) &&
  (qj_data_subject_id queued =? rj_data_subject_id job) &&
  (qj_subject_generation queued =? rj_subject_generation job) &&
  (qj_scope_id queued =? rj_scope_id job) &&
  (qj_actor_id queued =? rj_actor_id job) &&
  (qj_agent_node_id queued =? rj_agent_node_id job) &&
  bool_decide (qj_kind queued = rj_kind job) &&
  bool_decide (qj_episode_id queued = rj_episode_id job) &&
  bool_decide (qj_resource_id queued = rj_resource_id job) &&
  bool_decide (qj_compiler_version queued = rj_compiler_version job).

Definition queue_job (id : JobId) (job : ReflectJob) : QueuedReflectJob := {|
  qj_id := id;
  qj_tenant_id := rj_tenant_id job;
  qj_data_subject_id := rj_data_subject_id job;
  qj_scope_id := rj_scope_id job;
  qj_actor_id := rj_actor_id job;
  qj_agent_node_id := rj_agent_node_id job;
  qj_subject_generation := rj_subject_generation job;
  qj_episode_id := rj_episode_id job;
  qj_resource_id := rj_resource_id job;
  qj_kind := rj_kind job;
  qj_compiler_version := rj_compiler_version job;
  qj_subject := rj_subject job;
  qj_predicate := rj_predicate job;
|}.

Definition enqueue_reflect (store : InMemoryState) (new_id : JobId) (job : ReflectJob)
    (tx : InMemoryTxn) : InMemoryTxn * result StoreError.t JobId :=
  if tx_committed tx then (tx, Err StoreError.TransactionAlreadyCommitted) else
  match validate_context_identity (tx_context tx) (rj_tenant_id job)
          (rj_data_subject_id job) (rj_subject_generation job) (rj_scope_id job)
          (rj_agent_node_id job) (Some (rj_actor_id job)) with
  | Err e => (tx, Err e)
  | Ok _ =>
      if negb (job_target_matches store tx job)
      then (tx, Err (StoreError.Conflict
                       "reflect job target must belong to the transaction context"))
      else
        let existing :=
          if bool_decide (rj_kind job = ReflectJobKind.ReflectScope) then None
          else match find (same_job job) (tx_reflect_jobs tx) with
               | Some queued => Some queued
               | None => find (same_job job) (rows (st_reflect_jobs store) (rj_tenant_id job))
               end in
        match existing with
        | Some queued => (tx, Ok (qj_id queued))
        | None => (tx <| tx_reflect_jobs ::= λ l, l ++ [queue_job new_id job] |>, Ok new_id)
        end
  end.

(** ** The mutation ledger *)

Definition lookup_mutation_replay (store : InMemoryState) (now_second : Z)
    (context : ResolvedMemoryContext) (claim : MutationClaim)
    : result StoreError.t (option MutationResponse) :=
  if negb (mc_tenant_id claim =? cx_tenant_id context) ||
     negb (mc_data_subject_id claim =? cx_data_subject_id context) ||
     negb (mc_subject_generation claim =? cx_subject_generation context)
  then Err StoreError.IdempotencyConflict
  else
    _ <-? validate_context store context;
    match st_mutation_ledger store !! claim_key claim with
    | Some entry =>
        if (now_second <? le_expires_at_second entry)%Z then
          if bool_decide (le_claim entry = claim) then Ok (Some (le_response entry))
          else Err StoreError.IdempotencyConflict
        else Ok None
    | None => Ok None
    end.

(** [mutation_ledger.retain(expires_at_second > now_second)] *)
Definition prune_ledger (now_second : Z) (store : InMemoryState) : InMemoryState :=
  store <| st_mutation_ledger ::=
             retain_map (λ _ entry, (now_second <? le_expires_at_second entry)%Z) |>.

(** Runs once the caller holds the lock of the claim's key; a transaction holds
    the lock exactly while [tx_mutation] is set. *)
Definition stage_mutation_claim (store : InMemoryState) (claim : MutationClaim)
    (tx : InMemoryTxn)
    : InMemoryState * InMemoryTxn * result StoreError.t MutationClaimOutcome.t :=
  if tx_committed tx then (store, tx, Err StoreError.TransactionAlreadyCommitted) else
  if negb (mc_subject_generation claim =? cx_subject_generation (tx_context tx))
  then (store, tx, Err StoreError.StaleSubjectGeneration) else
  if negb (mc_tenant_id claim =? cx_tenant_id (tx_context tx)) ||
     negb (mc_data_subject_id claim =? cx_data_subject_id (tx_context tx))
  then (store, tx, Err StoreError.IdempotencyConflict) else
  match tx_mutation tx with
  | Some staged =>
      if negb (bool_decide (sm_claim staged = claim))
      then (store, tx, Err StoreError.IdempotencyConflict)
      else (store, tx,
        Ok (match sm_response staged, sm_replay staged with
            | Some response, true => MutationClaimOutcome.Replay response
            | _, _ => MutationClaimOutcome.Execute
            end))
  | None =>
      match mutation_second (tx_transaction_time tx) with
      | Err e => (store, tx, Err e)
      | Ok now_second =>
          let store := prune_ledger now_second store in
          let outcome :=
            match st_mutation_ledger store !! claim_key claim with
            | Some entry =>
                if bool_decide (le_claim entry = claim)
                then Ok (MutationClaimOutcome.Replay (le_response entry))
                else Err StoreError.IdempotencyConflict
            | None =>
                _ <-? validate_context store (tx_context tx);
                Ok MutationClaimOutcome.Execute
            end in
          match outcome with
          | Err e => (store, tx, Err e)
          | Ok outcome =>
              let staged :=
                match outcome with
                | MutationClaimOutcome.Replay response => mkStagedMutation claim (Some response) true
                | MutationClaimOutcome.Execute => mkStagedMutation claim None false
                end in
              (store, tx <| tx_mutation := Some staged |>, Ok outcome)
          end
      end
  end.

Definition stage_mutation_response (response : MutationResponse) (tx : InMemoryTxn)
    : InMemoryTxn * result StoreError.t () :=
  if tx_committed tx then (tx, Err StoreError.TransactionAlreadyCommitted) else
  match tx_mutation tx with
  | None =>
      (tx, Err (StoreError.Conflict "mutation claim must be staged before its response"))
  | Some staged =>
      if sm_replay staged
      then (tx, Err (StoreError.Conflict "replayed mutation cannot stage a new response"))
      else if bool_decide (is_Some (tx_subject_erasure tx))
      then (tx, Err (StoreError.Conflict "subject erasure response is generated by the store"))
      else (tx <| tx_mutation := Some (staged <| sm_response := Some response |>) |>, Ok ())
  end.

Definition has_rows (tx : InMemoryTxn) : bool :=
  negb (is_empty (tx_episodes tx)) ||
  negb (is_empty (tx_episode_observation_updates tx)) ||
  negb (is_empty (tx_resources tx)) ||
  negb (is_empty (tx_memory_units tx)) ||
  negb (is_empty (tx_memory_edges tx)) ||
  negb (is_empty (tx_reflect_jobs tx)).

Definition has_task_rows (tx : InMemoryTxn) : bool :=
  negb (is_empty (tx_task_outcomes tx)) || negb (is_empty (tx_task_memory_events tx)).

Definition has_snapshot (tx : InMemoryTxn) : bool :=
  match tx_state_snapshot tx with Some _ => true | None => false end.

Definition stage_subject_erasure (tx : InMemoryTxn)
    : InMemoryTxn * result StoreError.t SubjectErasureReceipt :=
  if tx_committed tx then (tx, Err StoreError.TransactionAlreadyCommitted) else
  if has_rows tx || has_task_rows tx || has_snapshot tx
  then (tx, Err (StoreError.Conflict "subject erasure requires an otherwise empty transaction"))
  else
  match tx_mutation tx with
  | None => (tx, Err (StoreError.Conflict "erasure claim must be staged first"))
  | Some staged =>
      if sm_replay staged ||
         negb (bool_decide (mc_verb (sm_claim staged) = MutationVerb.EraseSubject))
      then (tx, Err (StoreError.Conflict
                       "subject erasure requires an executable erase_subject claim"))
      else if negb (mc_subject_generation (sm_claim staged) =?
                    cx_subject_generation (tx_context tx))
      then (tx, Err StoreError.StaleSubjectGeneration)
      else if bool_decide (is_Some (tx_subject_erasure tx))
      then (tx, Err (StoreError.Conflict "subject erasure is already staged"))
      else
        match checked_add u64_max (cx_subject_generation (tx_context tx)) 1 with
        | None => (tx, Err (StoreError.Conflict "subject generation overflow"))
        | Some generation =>
            let receipt := mkReceipt generation (tx_transaction_time tx) in
            match MutationResponse_success 200 (receipt_json receipt) with
            | Err e => (tx, Err e)
            | Ok response =>
                (tx <| tx_mutation := Some (staged <| sm_response := Some response |>) |>
                    <| tx_subject_erasure := Some receipt |>, Ok receipt)
            end
        end
  end.

Definition owned_unit_exists (store : InMemoryState) (context : ResolvedMemoryContext)
    (tenant : TenantId) (id : UnitId) : bool :=
  any (λ unit, (mu_id unit =? id) && unit_matches_context unit context)
    (rows (st_memory_units store) tenant).

Definition stage_task_outcome (store : InMemoryState) (outcome : TaskOutcomeRow)
    (events : list TaskMemoryEventRow) (tx : InMemoryTxn)
    : InMemoryTxn * result StoreError.t () :=
  match validate_context_identity (tx_context tx) (to_tenant_id outcome)
          (to_data_subject_id outcome) (to_subject_generation outcome) (to_scope_id outcome)
          (to_agent_node_id outcome) (Some (to_actor_id outcome)) with
  | Err e => (tx, Err e)
  | Ok _ =>
      if any (λ event, negb (owned_unit_exists store (tx_context tx) (to_tenant_id outcome)
                               (te_unit_id event))) events
      then (tx, Err (StoreError.NotFound "memory unit"))
      else if any (λ row, to_task_id row =? to_task_id outcome) (tx_task_outcomes tx)
      then (tx, Err (StoreError.Conflict "task already exists"))
      else (tx <| tx_task_outcomes ::= λ l, l ++ [outcome] |>
               <| tx_task_memory_events ::= λ l, l ++ events |>, Ok ())
  end.

Definition is_exposure (kind : TaskMemoryEventKind.t) : bool :=
  match kind with TaskMemoryEventKind.Shown | TaskMemoryEventKind.Activated => true | _ => false end.
Definition is_evidence (kind : TaskMemoryEventKind.t) : bool :=
  match kind with TaskMemoryEventKind.Helpful | TaskMemoryEventKind.Harmful => true | _ => false end.

Definition check_task_event (store : InMemoryState) (context : ResolvedMemoryContext)
    (event : TaskMemoryEventRow) : result StoreError.t () :=
  _ <-? validate_context_identity context (te_tenant_id event) (te_data_subject_id event)
          (te_subject_generation event) (te_scope_id event) (te_agent_node_id event)
          (Some (te_actor_id event));
  if negb (any (λ row, to_task_id row =? te_task_id event)
             (rows (st_task_outcomes store) (te_tenant_id event)))
  then Err (StoreError.NotFound "task outcome")
  else if negb (owned_unit_exists store context (te_tenant_id event) (te_unit_id event))
  then Err (StoreError.NotFound "memory unit")
  else if is_evidence (te_event event) &&
     negb (any (λ row, (te_task_id row =? te_task_id event) && (te_unit_id row =? te_unit_id event)
                       && is_exposure (te_event row))
             (rows (st_task_memory_events store) (te_tenant_id event)))
  then Err (StoreError.Conflict "task evidence requires prior exposure")
  else Ok ().

(** [for event in &events { .. ?; }] *)
Fixpoint check_all {A E} (f : A → result E ()) (l : list A) : result E () :=
  match l with
  | [] => Ok ()
  | x :: l => _ <-? f x; check_all f l
  end.

Definition stage_task_memory_events (store : InMemoryState) (events : list TaskMemoryEventRow)
    (tx : InMemoryTxn) : InMemoryTxn * result StoreError.t () :=
  match check_all (check_task_event store (tx_context tx)) events with
  | Err e => (tx, Err e)
  | Ok _ => (tx <| tx_task_memory_events ::= λ l, l ++ events |>, Ok ())
  end.

(** ** Commit *)

(** What the staged mutation asks of a commit: [None] for a replay, otherwise
    the claim and response to record. *)
Definition commit_mutation (tx : InMemoryTxn)
    : result StoreError.t (option (option (MutationClaim * MutationResponse))) :=
  let has_staged_writes :=
    has_rows tx || has_snapshot tx || bool_decide (is_Some (tx_subject_erasure tx)) in
  match tx_mutation tx with
  | Some staged =>
      if sm_replay staged then
        if has_staged_writes
        then Err (StoreError.Conflict "replayed mutation cannot contain staged writes")
        else Ok None
      else
        response <-? ok_or (sm_response staged)
          (StoreError.Conflict "successful mutation response must be staged before commit");
        Ok (Some (Some (sm_claim staged, response)))
  | None => Ok (Some None)
  end.

Definition commit_snapshot (state : InMemoryState) (tx : InMemoryTxn)
    : result StoreError.t InMemoryState :=
  match tx_state_snapshot tx with
  | Some (baseline, staged) =>
      if negb (context_state_eqb (capture state (tx_context tx)) baseline)
      then Err (StoreError.Conflict "in-memory transaction state changed before commit")
      else Ok (replace_in (capture staged (tx_context tx)) state (tx_context tx))
  | None => Ok state
  end.

Definition record_mutation (claim : MutationClaim) (response : MutationResponse)
    (now_second : Z) (next : InMemoryState) : InMemoryState :=
  next <| st_mutation_ledger ::=
            <[claim_key claim := mkLedgerEntry claim response (now_second + DAY_SECONDS)%Z]> |>.

(** The pushes of a commit, in the order of the code. *)
Definition push_all {A} (tenant : A → TenantId) (l : list A) (m : gmap TenantId (list A))
    : gmap TenantId (list A) := foldl (λ m x, push_row (tenant x) x m) m l.

Definition apply_rows (tx : InMemoryTxn) (next : InMemoryState) : InMemoryState :=
  next
    <| st_episodes ::= λ m,
         foldl (λ m '(tenant, id, observed_at),
                  update_rows tenant
                    (update_first (λ e, ep_id e =? id) (observe_episode observed_at)) m)
           m (tx_episode_observation_updates tx) |>
    <| st_episodes ::= push_all ep_tenant_id (tx_episodes tx) |>
    <| st_resources ::= push_all re_tenant_id (tx_resources tx) |>
    <| st_memory_units ::= push_all mu_tenant_id (tx_memory_units tx) |>
    <| st_memory_edges ::= push_all ed_tenant_id (tx_memory_edges tx) |>
    <| st_reflect_jobs ::= push_all qj_tenant_id (tx_reflect_jobs tx) |>
    <| st_task_outcomes ::= push_all to_tenant_id (tx_task_outcomes tx) |>
    <| st_task_memory_events ::= push_all te_tenant_id (tx_task_memory_events tx) |>.

(** The state a commit installs; an error installs nothing. *)
Definition commit (state : InMemoryState) (tx : InMemoryTxn)
    : result StoreError.t InMemoryState :=
  if tx_committed tx then Err StoreError.TransactionAlreadyCommitted else
  now_second <-? mutation_second (tx_transaction_time tx);
  plan <-? commit_mutation tx;
  match plan with
  | None => Ok state
  | Some mutation =>
      next <-? commit_snapshot state tx;
      _ <-? validate_context next (tx_context tx);
      let recorded :=
        match mutation with
        | Some (claim, _) =>
            match st_mutation_ledger next !! claim_key claim with
            | Some existing =>
                if (now_second <? le_expires_at_second existing)%Z
                then Some (bool_decide (le_claim existing = claim)) else None
            | None => None
            end
        | None => None
        end in
      match recorded with
      | Some true => Ok state
      | Some false => Err StoreError.IdempotencyConflict
      | None =>
          match tx_subject_erasure tx with
          | Some receipt =>
              recorded <-? ok_or mutation
                (StoreError.Conflict "subject erasure requires a mutation claim");
              let '(claim, response) := recorded in
              if negb (bool_decide (mc_verb claim = MutationVerb.EraseSubject)) ||
                 negb (rr_generation receipt =?
                       wrapping_add u64_max (mc_subject_generation claim) 1)
              then Err (StoreError.Conflict "subject erasure does not match its claim")
              else
                Ok (record_mutation claim response now_second
                      (erase_subject (mc_tenant_id claim) (mc_data_subject_id claim) receipt next))
          | None =>
              let next := apply_rows tx next in
              Ok (match mutation with
                  | Some (claim, response) => record_mutation claim response now_second next
                  | None => next
                  end)
          end
      end
  end.

End txn.
