(* ===== verification/Stage.v ===== *)
(** * Stage: operations on the private state of a transaction

    The staging operations of [crates/memphant-core/src/lib.rs] that edit a
    snapshot of the context's part: correction, invalidation, forgetting,
    review events and compiled units, with the tombstones that keep forgotten
    and invalidated memories from coming back. *)

From S2P Require Import Prelude Types Clock Bitemporal Lineage Store Txn.

Record CorrectionWrite : Set := mkCorrectionWrite {
  cw_memory_unit_id : UnitId;
  cw_correction : CorrectionPayload;
  cw_source_ref : string;
  cw_observed_at : string;
  cw_now : string;
  cw_embedding : option (EmbeddingProfileRow * list f32);
  cw_unit_ids : CorrectionUnitIds;
  cw_compact_refresh : option CompactRefresh;
}.
#[export] Instance CorrectionWrite_eta : Eta CorrectionWrite := λ r,
  mkCorrectionWrite (cw_memory_unit_id r) (cw_correction r) (cw_source_ref r)
    (cw_observed_at r) (cw_now r) (cw_embedding r) (cw_unit_ids r)
    (cw_compact_refresh r).

Record InvalidationWrite : Set := mkInvalidationWrite {
  iw_target : UnitId;
  iw_reason_kind : InvalidationReason.t;
  iw_reason : string;
  iw_source_ref : string;
  iw_observed_at : string;
  iw_now : string;
  iw_tombstone_id : UnitId;
}.
#[export] Instance InvalidationWrite_eta : Eta InvalidationWrite := λ r,
  mkInvalidationWrite (iw_target r) (iw_reason_kind r) (iw_reason r) (iw_source_ref r)
    (iw_observed_at r) (iw_now r) (iw_tombstone_id r).

Record ForgetWrite : Set := mkForgetWrite {
  fw_target : ForgetTarget.t;
  fw_now : string;
}.
#[export] Instance ForgetWrite_eta : Eta ForgetWrite := λ r,
  mkForgetWrite (fw_target r) (fw_now r).

Record ForgetOutcome : Set := mkForgetOutcome {
  fo_deletion_generation : N;
  fo_invalidated_units : list UnitId;
}.
#[export] Instance ForgetOutcome_eta : Eta ForgetOutcome := λ r,
  mkForgetOutcome (fo_deletion_generation r) (fo_invalidated_units r).

Record UnitUpdate : Set := mkUnitUpdate {
  up_id : UnitId;
  up_state : UnitState.t;
  up_transaction_to : option string;
  up_reinforced_at : option string;
}.
#[export] Instance UnitUpdate_eta : Eta UnitUpdate := λ r,
  mkUnitUpdate (up_id r) (up_state r) (up_transaction_to r) (up_reinforced_at r).

Record CompiledWrite : Set := mkCompiledWrite {
  wr_job_id : JobId;
  wr_compiler_version : string;
  wr_new_units : list StoredMemoryUnit;
  wr_new_edges : list StoredMemoryEdge;
  wr_citations : list StoredCitation;
  wr_unit_updates : list UnitUpdate;
  wr_trace : ReflectTrace;
  wr_embedding_profile : option EmbeddingProfileRow;
  wr_embeddings : list EmbeddingRow;
}.
#[export] Instance CompiledWrite_eta : Eta CompiledWrite := λ r,
  mkCompiledWrite (wr_job_id r) (wr_compiler_version r) (wr_new_units r) (wr_new_edges r)
    (wr_citations r) (wr_unit_updates r) (wr_trace r)
    (wr_embedding_profile r) (wr_embeddings r).

(** A claimed reflect job with its claim bookkeeping. *)
Record ReflectJobRow : Set := mkReflectJobRow {
  jr_job : QueuedReflectJob;
  jr_attempts : N;
  jr_claim_generation : N;
}.
#[export] Instance ReflectJobRow_eta : Eta ReflectJobRow := λ r,
  mkReflectJobRow (jr_job r) (jr_attempts r) (jr_claim_generation r).
#[export] Instance ReflectJobRow_eq_dec : EqDecision ReflectJobRow.
Proof. solve_decision. Defined.

Module ClaimMutationOutcome.
Inductive t : Set := Applied | Stale.
#[export] Instance t_eq_dec : EqDecision t.
Proof. solve_decision. Defined.
End ClaimMutationOutcome.
Export (hints) ClaimMutationOutcome.

(** [format!("cor_{}", id)]: the hyphenated hexadecimal form of a UUID. *)
Definition hex_digit (n : N) : Ascii.ascii :=
  Ascii.ascii_of_N (if n <? 10 then 48 + n else 87 + n).
Fixpoint hex_from (digits : nat) (n : N) : string :=
  match digits with
  | 0%nat => String.EmptyString
  | S d => String.String (hex_digit (N.land (N.shiftr n (4 * N.of_nat d)) 15)) (hex_from d n)
  end.
Definition uuid_string (id : Uuid) : string :=
  hex_from 8 (N.shiftr id 96) +:+ "-" +:+ hex_from 4 (N.shiftr id 80) +:+ "-" +:+
  hex_from 4 (N.shiftr id 64) +:+ "-" +:+ hex_from 4 (N.shiftr id 48) +:+ "-" +:+
  hex_from 12 id.

Section stage.
Context `{HashOrder} `{Jiff} `{Sha256}.

(** ** The private state

    [staged_state]: the first operation that needs it validates the context
    and captures its part; from then on the operations edit the scratch. *)
Definition staged_state (store : InMemoryState) (tx : InMemoryTxn)
    : result StoreError.t (InMemoryContextState * InMemoryState) :=
  if tx_committed tx then Err StoreError.TransactionAlreadyCommitted
  else match tx_state_snapshot tx with
  | Some snapshot => Ok snapshot
  | None =>
      _ <-? validate_context store (tx_context tx);
      let baseline := capture store (tx_context tx) in
      Ok (baseline, into_scratch baseline store (tx_context tx))
  end.

(** Runs an operation on the staged state.  An operation that fails has not
    edited it; the snapshot it took stays. *)
Definition with_staged {A} (store : InMemoryState)
    (op : ResolvedMemoryContext → InMemoryState → result StoreError.t (A * InMemoryState))
    (tx : InMemoryTxn) : InMemoryTxn * result StoreError.t A :=
  match staged_state store tx with
  | Err e => (tx, Err e)
  | Ok (baseline, scratch) =>
      match op (tx_context tx) scratch with
      | Err e => (tx <| tx_state_snapshot := Some (baseline, scratch) |>, Err e)
      | Ok (a, scratch) => (tx <| tx_state_snapshot := Some (baseline, scratch) |>, Ok a)
      end
  end.

(** Replaces the embedding of a unit under a profile. *)
Definition put_embedding (row : EmbeddingRow) (stored : list EmbeddingRow) : list EmbeddingRow :=
  retain (λ existing, negb ((em_memory_unit_id existing =? em_memory_unit_id row) &&
                            (em_embedding_profile_id existing =? em_embedding_profile_id row)))
    stored ++ [row].

(** ** Correction *)

Definition correct_in (new_edge_id : nat → EdgeId) (correction : CorrectionWrite)
    (context : ResolvedMemoryContext) (state : InMemoryState)
    : result StoreError.t (CorrectResult * InMemoryState) :=
  let tenant := cx_tenant_id context in
  old_unit <-? ok_or (find (open_owned context (cw_memory_unit_id correction))
                        (rows (st_memory_units state) tenant))
                 (StoreError.NotFound "memory_unit");
  let old_id := mu_id old_unit in
  rectangles <-? correction_rectangles_with_ids old_unit (cw_correction correction)
    (cw_source_ref correction) (cw_observed_at correction) (cx_actor_id context)
    (cw_now correction) (cw_unit_ids correction);
  let replacement := apply_compact_refresh (fst rectangles) (cw_compact_refresh correction) in
  let remainders := snd rectangles in
  let new_id := mu_id replacement in
  let remainder_ids := map mu_id remainders in
  let old_embeddings :=
    retain (λ row, em_memory_unit_id row =? old_id) (rows (st_embeddings state) tenant) in
  let is_retroactive :=
    bool_decide (is_Some (cp_valid_from (cw_correction correction))) ||
    bool_decide (is_Some (cp_valid_to (cw_correction correction))) in
  applied <-? apply_correction_transition new_edge_id (rows (st_memory_units state) tenant)
    (rows (st_memory_edges state) tenant) context old_id replacement remainders
    (cw_now correction);
  let state :=
    state <| st_memory_units ::= <[tenant := fst applied]> |>
          <| st_memory_edges ::= <[tenant := snd applied]> |> in
  let state :=
    match cw_embedding correction with
    | Some (profile, (_ :: _) as vec) =>
        state <| st_embedding_profiles ::= update_rows tenant (add_profile profile) |>
              <| st_embeddings ::= update_rows tenant
                   (put_embedding (mkEmbeddingRow new_id (pr_id profile) vec)) |>
    | _ => state
    end in
  let state :=
    state <| st_embeddings ::= update_rows tenant (λ stored,
      foldl (λ stored remainder_id,
        stored ++ map (λ row, row <| em_memory_unit_id := remainder_id |>) old_embeddings)
        stored remainder_ids) |> in
  Ok ({| cr_correction_id := "cor_" +:+ uuid_string new_id;
         cr_superseded := [old_id];
         cr_created := new_id :: remainder_ids;
         cr_correction_kind := if is_retroactive then "retroactive" else "current";
         cr_trace_ref := None |}, state).

Definition stage_correction (store : InMemoryState) (new_edge_id : nat → EdgeId)
    (correction : CorrectionWrite) : InMemoryTxn → InMemoryTxn * result StoreError.t CorrectResult :=
  with_staged store (correct_in new_edge_id correction).

(** ** Invalidation *)

Definition invalidation_tombstone (invalidation : InvalidationWrite) (old : StoredMemoryUnit)
    : StoredMemoryUnit :=
  old <| mu_id := iw_tombstone_id invalidation |> <| mu_state := UnitState.Invalidated |>
      <| mu_body := String.EmptyString |> <| mu_compact := None |>
      <| mu_contextual_chunks := [] |>
      <| mu_invalidation := Some (mkInvalidationMarker (iw_reason_kind invalidation)
                                    (iw_reason invalidation)) |>
      <| mu_source_ref := iw_source_ref invalidation |>
      <| mu_observed_at := iw_observed_at invalidation |>
      <| mu_transaction_from := Some (iw_now invalidation) |>
      <| mu_transaction_to := None |>.

Definition invalidate_in (new_edge_id : EdgeId) (invalidation : InvalidationWrite)
    (context : ResolvedMemoryContext) (state : InMemoryState)
    : result StoreError.t (CorrectResult * InMemoryState) :=
  let tenant := cx_tenant_id context in
  let target := open_owned context (iw_target invalidation) in
  match find target (rows (st_memory_units state) tenant) with
  | None => Err (StoreError.NotFound "memory_unit")
  | Some old =>
      let edge :=
        {| ed_id := new_edge_id; ed_tenant_id := tenant; ed_scope_id := cx_scope_id context;
           ed_src_id := iw_tombstone_id invalidation; ed_dst_id := mu_id old;
           ed_kind := MemoryEdgeKind.Supersedes;
           ed_transaction_from := Some (iw_now invalidation); ed_transaction_to := None |} in
      Ok ({| cr_correction_id := "inv_" +:+ uuid_string (iw_tombstone_id invalidation);
             cr_superseded := [mu_id old];
             cr_created := [iw_tombstone_id invalidation];
             cr_correction_kind := "invalidation";
             cr_trace_ref := None |},
          state <| st_memory_units ::= update_rows tenant (λ units,
                     update_first target (close_unit UnitState.Superseded (iw_now invalidation))
                       units ++ [invalidation_tombstone invalidation old]) |>
                <| st_memory_edges ::= push_row tenant edge |>)
  end.

Definition stage_invalidation (store : InMemoryState) (new_edge_id : EdgeId)
    (invalidation : InvalidationWrite)
    : InMemoryTxn → InMemoryTxn * result StoreError.t CorrectResult :=
  with_staged store (invalidate_in new_edge_id invalidation).

(** ** Forget *)

Definition forget_authorized (state : InMemoryState) (context : ResolvedMemoryContext)
    (target : ForgetTarget.t) : bool :=
  let tenant := cx_tenant_id context in
  match target with
  | ForgetTarget.MemoryUnit id =>
      any (λ u, (mu_id u =? id) && owner_matches u context) (rows (st_memory_units state) tenant)
  | ForgetTarget.Episode id =>
      any (λ e, (ep_id e =? id) && owned_episode context e) (rows (st_episodes state) tenant)
  | ForgetTarget.Resource id =>
      any (λ r, (re_id r =? id) && owned_resource context r) (rows (st_resources state) tenant)
  end.

Definition forget_source (context : ResolvedMemoryContext) (target : ForgetTarget.t)
    : ForgottenSource :=
  let '(kind, id) :=
    match target with
    | ForgetTarget.MemoryUnit id => (SourceKindKey.MemoryUnit, id)
    | ForgetTarget.Episode id => (SourceKindKey.Episode, id)
    | ForgetTarget.Resource id => (SourceKindKey.Resource, id)
    end in
  (cx_tenant_id context, cx_data_subject_id context, cx_subject_generation context,
   cx_scope_id context, cx_agent_node_id context, kind, id).

(** The unit came from the forgotten episode or resource. *)
Definition from_target (target : ForgetTarget.t) (u : StoredMemoryUnit) : bool :=
  match target with
  | ForgetTarget.Episode id => bool_decide (mu_source_episode_id u = Some id)
  | ForgetTarget.Resource id => bool_decide (mu_source_resource_id u = Some id)
  | ForgetTarget.MemoryUnit _ => false
  end.

(** [composed_dependent_ids] and [delete_composed_dependents]: unlike the
    deletion of the lineage itself, the content stays. *)
Definition composed_dependent_ids (units : list StoredMemoryUnit)
    (edges : list StoredMemoryEdge) (source_ids : list UnitId) : list UnitId :=
  retain (λ id, any (λ u, (mu_id u =? id) && is_composition u) units)
    (derived_from edges (λ dst, mem dst source_ids)).

Definition delete_dependent (deletion_generation : N) (now : string) (u : StoredMemoryUnit)
    : StoredMemoryUnit :=
  u <| mu_state := UnitState.Deleted |>
    <| mu_deletion_generation := Some deletion_generation |>
    <| mu_transaction_to := Some now |>.

Definition delete_composed_dependents (units : list StoredMemoryUnit)
    (edges : list StoredMemoryEdge) (context : ResolvedMemoryContext) (source_ids : list UnitId)
    (deletion_generation : N) (now : string) : list StoredMemoryUnit * list UnitId :=
  let dependent_ids := composed_dependent_ids units edges source_ids in
  let dependent u := mem (mu_id u) dependent_ids && owner_matches u context &&
                     negb (is_deleted u) in
  (update_where dependent (delete_dependent deletion_generation now) units,
   map mu_id (retain dependent units)).

(** The part of a forget that follows from an episode or resource. *)
Definition forget_derived (units : list StoredMemoryUnit) (edges : list StoredMemoryEdge)
    (context : ResolvedMemoryContext) (target : ForgetTarget.t) (deletion_generation : N)
    (now : string) : list StoredMemoryUnit * list UnitId :=
  let seeds :=
    list_to_set (map mu_id
      (retain (λ u, owner_matches u context && from_target target u) units)) in
  let lineage := lineage_of false units edges context seeds in
  let forgotten := forgets_lineage context lineage in
  let invalidated := map mu_id (retain forgotten units) in
  let units := update_where forgotten (delete_unit (Some deletion_generation) now) units in
  let '(units, dependents) :=
    delete_composed_dependents units edges context invalidated deletion_generation now in
  (units, invalidated ++ dependents).

Definition forget_in (forget : ForgetWrite) (context : ResolvedMemoryContext)
    (state : InMemoryState) : result StoreError.t (ForgetOutcome * InMemoryState) :=
  let tenant := cx_tenant_id context in
  let target := fw_target forget in
  if negb (forget_authorized state context target)
  then Err (StoreError.NotFound "forget target")
  else
    let subject := (tenant, cx_data_subject_id context) in
    let deletion_generation :=
      saturating_add u64_max (default 0 (st_deletion_generation state !! subject)) 1 in
    let state :=
      state <| st_deletion_generation ::= <[subject := deletion_generation]> |>
            <| st_forgotten_sources ::= union {[forget_source context target]} |> in
    let state :=
      match target with
      | ForgetTarget.Episode id =>
          state <| st_episodes ::= alter (retain (λ e,
                     negb ((ep_id e =? id) && owned_episode context e))) tenant |>
      | _ => state
      end in
    let units := rows (st_memory_units state) tenant in
    let edges := rows (st_memory_edges state) tenant in
    forgotten <-? match target with
      | ForgetTarget.MemoryUnit id =>
          apply_unit_forget_transition units edges context id (fw_now forget)
            (Some deletion_generation)
      | _ => Ok (forget_derived units edges context target deletion_generation (fw_now forget))
      end;
    let '(units, invalidated_units) := forgotten in
    Ok (mkForgetOutcome deletion_generation invalidated_units,
        state <| st_memory_units ::= <[tenant := units]> |>
              <| st_embeddings ::= alter (retain (λ r,
                   negb (mem (em_memory_unit_id r) invalidated_units))) tenant |>).

Definition stage_forget (store : InMemoryState) (forget : ForgetWrite)
    : InMemoryTxn → InMemoryTxn * result StoreError.t ForgetOutcome :=
  with_staged store (forget_in forget).

(** ** Review events *)

Definition trace_whitelist (trace : RetrievalTrace) : list UnitId :=
  flat_map (λ item, ri_unit_id item :: ri_derived_from_unit_ids item) (tr_context_items trace).

Definition check_review_event (state : InMemoryState) (context : ResolvedMemoryContext)
    (event : ReviewEvent) : result StoreError.t () :=
  match find (λ t, tr_id t =? rv_trace_id event)
          (reverse (retain (owned_trace context)
                      (rows (st_retrieval_traces state) (cx_tenant_id context)))) with
  | None => Err (StoreError.NotFound "retrieval trace")
  | Some trace =>
      if negb (rv_tenant_id event =? cx_tenant_id context) ||
         any (λ id, negb (mem id (trace_whitelist trace))) (rv_used_ids event)
      then Err (StoreError.NotFound "retrieval trace review whitelist")
      else Ok ()
  end.

Definition add_review_event (stored : list ReviewEvent) (event : ReviewEvent)
    : list ReviewEvent :=
  if any (λ existing, (rv_trace_id existing =? rv_trace_id event) &&
                      bool_decide (rv_caller_id existing = rv_caller_id event)) stored
  then stored else stored ++ [event].

Definition review_in (events : list ReviewEvent) (context : ResolvedMemoryContext)
    (state : InMemoryState) : result StoreError.t (() * InMemoryState) :=
  _ <-? check_all (check_review_event state context) events;
  Ok ((), state <| st_review_events ::= update_rows (cx_tenant_id context)
                     (λ stored, foldl add_review_event stored events) |>).

Definition stage_review_events (store : InMemoryState) (events : list ReviewEvent)
    : InMemoryTxn → InMemoryTxn * result StoreError.t () := with_staged store (review_in events).

(** ** Compiled units *)

Definition claim_is_current (state : InMemoryState) (claim : ReflectJobRow) : bool :=
  let job := jr_job claim in
  bool_decide (job ∈ rows (st_reflect_jobs state) (qj_tenant_id job)) &&
  match st_job_meta state !! qj_id job with
  | Some meta =>
      jm_claimed meta && (jm_attempts meta =? jr_attempts claim) &&
      (jm_claim_generation meta =? jr_claim_generation claim) &&
      negb (jm_completed meta) && negb (jm_terminal meta)
  | None => false
  end.

Definition claim_matches (context : ResolvedMemoryContext) (claim : ReflectJobRow)
    (write : CompiledWrite) : bool :=
  owned_job context (jr_job claim) && (qj_id (jr_job claim) =? wr_job_id write) &&
  bool_decide (qj_compiler_version (jr_job claim) = wr_compiler_version write).

Definition citation_ok (context : ResolvedMemoryContext) (new_ids : list UnitId)
    (c : StoredCitation) : bool :=
  (ci_tenant_id c =? cx_tenant_id context) &&
  (ci_data_subject_id c =? cx_data_subject_id context) &&
  (ci_subject_generation c =? cx_subject_generation context) &&
  (ci_scope_id c =? cx_scope_id context) && (ci_agent_node_id c =? cx_agent_node_id context) &&
  mem (ci_memory_unit_id c) new_ids &&
  negb (bool_decide (is_Some (ci_episode_id c)) && bool_decide (is_Some (ci_resource_id c))).

(** An open invalidation tombstone of the same owner, kind and fact key. *)
Definition blocks (context : ResolvedMemoryContext) (new_unit unit : StoredMemoryUnit) : bool :=
  bool_decide (mu_state unit = UnitState.Invalidated) &&
  bool_decide (mu_transaction_to unit = None) && unit_matches_context unit context &&
  bool_decide (mu_kind unit = mu_kind new_unit) &&
  bool_decide (mu_fact_key unit = mu_fact_key new_unit).

Definition is_blocked (context : ResolvedMemoryContext) (existing : list StoredMemoryUnit)
    (new_unit : StoredMemoryUnit) : bool :=
  bool_decide (is_Some (mu_fact_key new_unit)) && any (blocks context new_unit) existing.

(** The checks of [stage_compiled_units], in order. *)
Definition check_compiled (context : ResolvedMemoryContext) (state : InMemoryState)
    (write : CompiledWrite) : result StoreError.t () :=
  let existing := rows (st_memory_units state) (cx_tenant_id context) in
  let owned u := unit_matches_context u context in
  let existing_owned_ids := map mu_id (retain owned existing) in
  let new_ids := map mu_id (wr_new_units write) in
  let known id := mem id new_ids || mem id existing_owned_ids in
  if any (λ u, negb (owned u)) (wr_new_units write)
  then Err (StoreError.Conflict "compiled unit does not match memory context")
  else if any (λ update, negb (mem (up_id update) existing_owned_ids)) (wr_unit_updates write)
  then Err (StoreError.Conflict "compiled update does not match memory context")
  else if any (λ e, negb (ed_tenant_id e =? cx_tenant_id context) ||
                    negb (ed_scope_id e =? cx_scope_id context) ||
                    negb (known (ed_src_id e)) || negb (known (ed_dst_id e)))
            (wr_new_edges write)
  then Err (StoreError.Conflict "compiled edge does not match memory context")
  else if any (λ c, negb (citation_ok context new_ids c)) (wr_citations write)
  then Err (StoreError.Conflict "compiled citation does not match memory context")
  else if any (is_blocked context existing) (wr_new_units write)
  then Err (StoreError.Conflict
    "an open invalidation tombstone blocks re-creating this memory; use correct_memory to revise it instead")
  else Ok ().

Definition apply_unit_update (update : UnitUpdate) (u : StoredMemoryUnit) : StoredMemoryUnit :=
  let u := u <| mu_state := up_state update |>
             <| mu_transaction_to := up_transaction_to update |> in
  match up_reinforced_at update with
  | Some reinforced_at =>
      u <| mu_reinforcement_count ::= λ n, saturating_add u32_max n 1 |>
        <| mu_last_reinforced_at := Some reinforced_at |>
  | None => u
  end.

Definition write_compiled (context : ResolvedMemoryContext) (claimed : bool)
    (write : CompiledWrite) (state : InMemoryState) : InMemoryState :=
  let tenant := cx_tenant_id context in
  let state :=
    state <| st_memory_units ::= λ m,
      foldl (λ m update, update_rows tenant
               (update_first (λ u, mu_id u =? up_id update) (apply_unit_update update)) m)
        m (wr_unit_updates write) |> in
  let admitted_units := retain (λ u, negb (is_forgotten_source state u)) (wr_new_units write) in
  let admitted_ids := map mu_id admitted_units in
  let existing_ids := map mu_id (rows (st_memory_units state) tenant) in
  let stands id := mem id admitted_ids || mem id existing_ids in
  let state :=
    state
      <| st_memory_units ::= update_rows tenant (λ l, l ++ admitted_units) |>
      <| st_memory_edges ::= update_rows tenant (λ l,
           l ++ retain (λ e, stands (ed_src_id e) && stands (ed_dst_id e)) (wr_new_edges write)) |>
      <| st_citations ::= update_rows tenant (λ l,
           l ++ retain (λ c, mem (ci_memory_unit_id c) admitted_ids) (wr_citations write)) |>
      <| st_reflect_traces ::= push_row tenant (wr_trace write) |>
      <| st_reflect_trace_owners ::=
           <[(tenant, wr_job_id write, wr_compiler_version write) := owner_value context]> |> in
  let state :=
    match wr_embedding_profile write with
    | None => state
    | Some profile =>
        let embedded :=
          retain (λ r, mem (em_memory_unit_id r) admitted_ids && negb (is_empty (em_vec r)))
            (wr_embeddings write) in
        if is_empty embedded then state
        else
          state <| st_embedding_profiles ::= update_rows tenant (add_profile profile) |>
                <| st_embeddings ::= update_rows tenant (λ stored,
                     foldl (λ stored row, put_embedding row stored) stored embedded) |>
    end in
  if claimed then
    state <| st_job_meta ::= λ m,
      <[wr_job_id write := default JobMeta_default (m !! wr_job_id write)
           <| jm_completed := true |> <| jm_claimed := false |>]> m |>
  else state.

Definition compiled_in (claim : option ReflectJobRow) (write : CompiledWrite)
    (context : ResolvedMemoryContext) (state : InMemoryState)
    : result StoreError.t (ClaimMutationOutcome.t * InMemoryState) :=
  let stale := match claim with Some c => negb (claim_is_current state c) | None => false end in
  let foreign := match claim with Some c => negb (claim_matches context c write) | None => false end in
  if stale then Ok (ClaimMutationOutcome.Stale, state)
  else if foreign
  then Err (StoreError.Conflict "reflect claim does not match memory context")
  else
    match st_reflect_trace_owners state !!
            (cx_tenant_id context, wr_job_id write, wr_compiler_version write) with
    | Some owner =>
        if bool_decide (owner = owner_value context)
        then Ok (ClaimMutationOutcome.Applied, state)
        else Err (StoreError.Conflict "reflect job identity belongs to another memory context")
    | None =>
        _ <-? check_compiled context state write;
        Ok (ClaimMutationOutcome.Applied,
            write_compiled context (bool_decide (is_Some claim)) write state)
    end.

Definition stage_compiled_units (store : InMemoryState) (claim : option ReflectJobRow)
    (write : CompiledWrite)
    : InMemoryTxn → InMemoryTxn * result StoreError.t ClaimMutationOutcome.t :=
  with_staged store (compiled_in claim write).

End stage.
