(* ===== verification/StageFacts.v ===== *)
(** * StageFacts: what the staged operations guarantee

    Theorems on the operations of Stage.v: a staged correction rewrites no
    history, a forget deletes everything derived from its target, and neither
    forgotten nor invalidated memories come back through compilation. *)

From S2P Require Import Prelude Types Clock Bitemporal Lineage Store Txn Stage.

Section facts.
Context `{HashOrder} `{Jiff} `{Sha256}.

(** ** Correction *)

Lemma refresh_recallable r refresh time :
  bitemporally_recallable (apply_compact_refresh r refresh) time = bitemporally_recallable r time.
Proof. by destruct refresh. Qed.

Lemma refresh_id r refresh : mu_id (apply_compact_refresh r refresh) = mu_id r.
Proof. by destruct refresh. Qed.

Lemma refresh_body r refresh : mu_body (apply_compact_refresh r refresh) = mu_body r.
Proof. by destruct refresh. Qed.

Lemma heard_refresh l r refresh k time :
  heard (l ++ apply_compact_refresh r refresh :: k) time = heard (l ++ r :: k) time.
Proof.
  rewrite !heard_app, !heard_cons, refresh_recallable, refresh_id, refresh_body. done.
Qed.

(** Correcting leaves the list of units of the pure transition, with the
    refreshed replacement. *)
Lemma correct_in_inv new_edge_id cw cx s res s' :
  correct_in new_edge_id cw cx s = Ok (res, s') →
  ∃ old replacement remainders kept edges',
    find (open_owned cx (cw_memory_unit_id cw)) (rows (st_memory_units s) (cx_tenant_id cx))
      = Some old ∧
    correction_rectangles_with_ids old (cw_correction cw) (cw_source_ref cw) (cw_observed_at cw)
      (cx_actor_id cx) (cw_now cw) (cw_unit_ids cw) = Ok (replacement, remainders) ∧
    apply_correction_transition new_edge_id (rows (st_memory_units s) (cx_tenant_id cx))
      (rows (st_memory_edges s) (cx_tenant_id cx)) cx (mu_id old) replacement remainders
      (cw_now cw) = Ok (kept ++ replacement :: remainders, edges') ∧
    rows (st_memory_units s') (cx_tenant_id cx) =
      kept ++ apply_compact_refresh replacement (cw_compact_refresh cw) :: remainders ∧
    rows (st_memory_edges s') (cx_tenant_id cx) = edges' ∧
    cr_superseded res = [mu_id old] ∧
    cr_created res = mu_id replacement :: map mu_id remainders.
Proof.
  unfold correct_in. intros Hok.
  destruct (find _ _) as [old|] eqn:Hold; simpl in Hok; [|done].
  destruct (correction_rectangles_with_ids _ _ _ _ _ _ _) as [[r rems]|] eqn:Hrect;
    simpl in Hok; [|done].
  unfold apply_correction_transition in Hok |- *.
  destruct (apply_correction_unit_transition _ _ _ _ _) as [kept|] eqn:Hk; simpl in Hok; [|done].
  rewrite refresh_id in Hok. injection Hok as <- <-.
  exists old, r, rems, kept. eexists. simpl. rewrite Hk. simpl. split_and!; try done.
  - destruct (cw_embedding cw) as [[profile [|x vec]]|]; simpl; by rewrite rows_insert_eq.
  - destruct (cw_embedding cw) as [[profile [|x vec]]|]; simpl; by rewrite rows_insert_eq.
Qed.

(** a staged correction changes no answer about the past: a recall as of an
    earlier transaction time hears what it heard before. *)
Theorem staged_correction_preserves_history new_edge_id cw cx s res s' time :
  correct_in new_edge_id cw cx s = Ok (res, s') →
  cmp_rfc3339 (rc_transaction_as_of time) (cw_now cw) = Lt →
  heard (rows (st_memory_units s') (cx_tenant_id cx)) time =
  heard (rows (st_memory_units s) (cx_tenant_id cx)) time.
Proof.
  intros (old & r & rems & kept & edges' & _ & Hrect & Happly & -> & _)%correct_in_inv Hlt.
  rewrite heard_refresh. by eapply correction_history.
Qed.

(** from the correction on, what is heard about the corrected identity is
    the corrected value inside the corrected interval, the old body elsewhere
    in the old interval, and nothing outside both; the corrected row itself is
    silent. *)
Theorem staged_correction_takes_effect new_edge_id cw cx s res s' time :
  NoDup (map mu_id (rows (st_memory_units s) (cx_tenant_id cx))) →
  correct_in new_edge_id cw cx s = Ok (res, s') →
  stamp_le (cw_now cw) (rc_transaction_as_of time) →
  ∃ old kept created,
    find (open_owned cx (cw_memory_unit_id cw)) (rows (st_memory_units s) (cx_tenant_id cx))
      = Some old ∧
    rows (st_memory_units s') (cx_tenant_id cx) = kept ++ created ∧
    map mu_id created = cr_created res ∧
    heard (retain (λ u, mu_id u =? mu_id old) kept) time = [] ∧
    map snd (heard created time) =
      if interval_covers (correction_start old (cw_correction cw) (cw_now cw))
           (correction_end old (cw_correction cw)) (rc_valid_at time)
      then [cp_value (cw_correction cw)]
      else if valid_covers old (rc_valid_at time) then [mu_body old] else [].
Proof.
  intros Hnd (old & r & rems & kept & edges' & Hold & Hrect & Happly & Hrows & _ & _ & Hcr
    )%correct_in_inv Hle.
  exists old, kept, (apply_compact_refresh r (cw_compact_refresh cw) :: rems).
  destruct (correction_effect _ _ _ _ _ _ _ _ _ _ _ _ _ _ time Hnd Hrect Happly Hle)
    as (kept' & Heq & Hsilent & Hans).
  apply (inj (λ l, l ++ _)) in Heq as <-. split_and!; try done.
  - simpl. by rewrite refresh_id.
  - rewrite <-Hans. f_equal. exact (heard_refresh [] r _ rems time).
Qed.

(** ** Invalidation *)

Lemma update_first_app_notin {A} (p : A → bool) f l k :
  any p l = false → update_first p f (l ++ k) = l ++ update_first p f k.
Proof.
  induction l as [|x l IH]; simpl; [done|]. destruct (p x); simpl; [done|].
  intros Hl. by rewrite IH.
Qed.

Lemma compiled_in_inv claim write cx s out s' :
  compiled_in claim write cx s = Ok (out, s') →
  s' = s ∨
  (check_compiled cx s write = Ok () ∧
   s' = write_compiled cx (bool_decide (is_Some claim)) write s).
Proof.
  unfold compiled_in. intros Hok.
  destruct (match claim with Some c => negb (claim_is_current s c) | None => false end).
  { injection Hok as <- <-. by left. }
  destruct (match claim with Some c => negb (claim_matches cx c write) | None => false end); [done|].
  destruct (st_reflect_trace_owners s !! _) as [owner|].
  { case_bool_decide; [|done]. injection Hok as <- <-. by left. }
  destruct (check_compiled cx s write) as [[]|] eqn:E; simpl in Hok; [|done].
  injection Hok as <- <-. by right.
Qed.

Lemma check_compiled_unblocked cx s write :
  check_compiled cx s write = Ok () →
  ∀ u, u ∈ wr_new_units write →
    is_blocked cx (rows (st_memory_units s) (cx_tenant_id cx)) u = false.
Proof.
  unfold check_compiled. intros Hok.
  do 4 (destruct (any _ _) in Hok; [done|]).
  destruct (any (is_blocked _ _) _) eqn:E in Hok; [done|]. by apply any_false.
Qed.

Lemma invalidation_fails_check e iw cx s res s' old k write u :
  invalidate_in e iw cx s = Ok (res, s') →
  find (open_owned cx (iw_target iw)) (rows (st_memory_units s) (cx_tenant_id cx)) = Some old →
  unit_matches_context old cx = true → mu_fact_key old = Some k →
  u ∈ wr_new_units write → mu_kind u = mu_kind old → mu_fact_key u = Some k →
  check_compiled cx s' write ≠ Ok ().
Proof.
  unfold invalidate_in. intros Hinv Hold Hcx Hk Hu Hkind Huk Hcheck.
  rewrite Hold in Hinv. injection Hinv as <- <-.
  apply (check_compiled_unblocked _ _ _ Hcheck) in Hu. revert Hu.
  unfold is_blocked. rewrite Huk, bool_decide_true by done. simpl.
  rewrite rows_update_eq. apply not_false_iff_true, any_true.
  exists (invalidation_tombstone iw old). split; [set_solver|].
  unfold blocks. simpl. rewrite Huk, Hk, Hkind. rewrite !bool_decide_true by done.
  rewrite !andb_true_r. exact Hcx.
Qed.

(** after an invalidation nothing re-creates the memory by compilation: a
    write with a unit of the same kind and fact key never changes the store,
    and one that is current and was not applied before is refused. *)
Theorem invalidation_blocks_recompilation e iw cx s res s' old k claim write u :
  invalidate_in e iw cx s = Ok (res, s') →
  find (open_owned cx (iw_target iw)) (rows (st_memory_units s) (cx_tenant_id cx)) = Some old →
  unit_matches_context old cx = true → mu_fact_key old = Some k →
  u ∈ wr_new_units write → mu_kind u = mu_kind old → mu_fact_key u = Some k →
  (∀ out s'', compiled_in claim write cx s' = Ok (out, s'') → s'' = s') ∧
  (match claim with Some c => claim_is_current s' c | None => true end = true →
   st_reflect_trace_owners s' !! (cx_tenant_id cx, wr_job_id write, wr_compiler_version write)
     = None →
   ∃ error, compiled_in claim write cx s' = Err error).
Proof.
  intros Hi Hf Hm Hk Hu Hkind Huk.
  pose proof (invalidation_fails_check _ _ _ _ _ _ _ _ _ _ Hi Hf Hm Hk Hu Hkind Huk) as Hno.
  split.
  - intros out s'' [->|[Hcheck _]]%compiled_in_inv; [done|]. congruence.
  - intros Hcur Howner. unfold compiled_in. rewrite Howner.
    destruct (match claim with Some c => negb (claim_matches cx c write) | None => false end).
    + destruct claim as [c|]; [rewrite Hcur|]; by eexists.
    + destruct (check_compiled cx s' write) as [[]|error]; [done|].
      destruct claim as [c|]; [rewrite Hcur|]; by eexists.
Qed.

(** ** Forget *)

Lemma is_forgotten_sources s s' u :
  st_forgotten_sources s = st_forgotten_sources s' →
  is_forgotten_source s u = is_forgotten_source s' u.
Proof. unfold is_forgotten_source. by intros ->. Qed.

(** The update pass of a compilation keeps the identity, source and content of
    every unit. *)
Definition same_content (u v : StoredMemoryUnit) : Prop :=
  mu_id u = mu_id v ∧ mu_body u = mu_body v ∧
  (∀ cx, unit_matches_context u cx = unit_matches_context v cx) ∧
  mu_source_episode_id u = mu_source_episode_id v ∧
  mu_source_resource_id u = mu_source_resource_id v.

#[local] Instance same_content_preorder : PreOrder same_content.
Proof. split; unfold same_content; [done|]. intros ???. naive_solver congruence. Qed.

Lemma apply_unit_update_content update u : same_content (apply_unit_update update u) u.
Proof. unfold apply_unit_update. by destruct (up_reinforced_at update). Qed.

Lemma update_first_Forall2 {A} (R : A → A → Prop) p f l :
  (∀ x, R x x) → (∀ x, R (f x) x) → Forall2 R (update_first p f l) l.
Proof.
  intros Hr Hf. induction l as [|x l IH]; simpl; [constructor|].
  assert (Reflexive R) by exact Hr. destruct (p x); constructor; auto; reflexivity.
Qed.

Lemma Forall2_elem {A B} (R : A → B → Prop) l k x :
  Forall2 R l k → x ∈ l → ∃ y, y ∈ k ∧ R x y.
Proof. induction 1 as [|a b l k Hab _ IH]; [set_solver|]. set_solver. Qed.

Lemma Forall2_elem_r {A B} (R : A → B → Prop) l k y :
  Forall2 R l k → y ∈ k → ∃ x, x ∈ l ∧ R x y.
Proof. induction 1 as [|a b l k Hab _ IH]; [set_solver|]. set_solver. Qed.

Lemma updates_content (tenant : N) updates m :
  Forall2 same_content
    (rows (foldl (λ m update, update_rows tenant
        (update_first (λ u, mu_id u =? up_id update) (apply_unit_update update)) m) m updates) tenant)
    (rows m tenant).
Proof.
  revert m. induction updates as [|update updates IH]; intros m; simpl; [done|].
  etrans; [apply IH|]. rewrite rows_update_eq.
  apply update_first_Forall2; [done | apply apply_unit_update_content].
Qed.

Lemma write_compiled_units cx claimed write s u :
  u ∈ rows (st_memory_units (write_compiled cx claimed write s)) (cx_tenant_id cx) →
  (∃ u0, u0 ∈ rows (st_memory_units s) (cx_tenant_id cx) ∧ same_content u u0) ∨
  (u ∈ wr_new_units write ∧ is_forgotten_source s u = false).
Proof.
  intros Hu. unfold write_compiled in Hu.
  set (tenant := cx_tenant_id cx) in *.
  set (m := foldl (λ m update, update_rows tenant
        (update_first (λ u, mu_id u =? up_id update) (apply_unit_update update)) m)
        (st_memory_units s) (wr_unit_updates write)).
  assert (u ∈ rows m tenant ++
              retain (λ u, negb (is_forgotten_source s u)) (wr_new_units write)) as Hu'.
  { revert Hu. destruct claimed, (wr_embedding_profile write); simpl;
      try (destruct (is_empty _)); simpl; rewrite rows_update_eq; exact id. }
  apply elem_of_app in Hu' as [Hu'|Hu'].
  - left. destruct (Forall2_elem _ _ _ u (updates_content tenant _ _) Hu')
      as (u0 & Hu0 & Hc). eauto.
  - right. apply elem_of_retain in Hu' as [? ?%negb_true_iff]. done.
Qed.

(** What forgetting an episode or resource deletes: the live units of its
    lineage, and the live units composed from one of those. *)
Lemma is_composition_delete g now u : is_composition (delete_unit g now u) = is_composition u.
Proof. by destruct g. Qed.

Section derived.
Context (units : list StoredMemoryUnit) (edges : list StoredMemoryEdge).
Context (cx : ResolvedMemoryContext) (target : ForgetTarget.t).

(** Reached from a unit of the target by superseding, and still live. *)
Definition erased_source (u : StoredMemoryUnit) : Prop :=
  owner_matches u cx = true ∧ is_deleted u = false ∧
  ∃ w, w ∈ units ∧ owner_matches w cx = true ∧ from_target target w = true ∧
    rtc (linked false (actor_owned_ids units cx) (retain (supersedes_in_context cx) edges))
      (mu_id w) (mu_id u).

Definition erased_composed (u : StoredMemoryUnit) : Prop :=
  owner_matches u cx = true ∧ is_deleted u = false ∧
  (∃ c, c ∈ units ∧ mu_id c = mu_id u ∧ is_composition c = true) ∧
  ∃ e w, e ∈ edges ∧ ed_kind e = MemoryEdgeKind.DerivedFrom ∧ ed_src_id e = mu_id u ∧
    ed_dst_id e = mu_id w ∧ w ∈ units ∧ erased_source w.

Let seeds : gset N :=
  list_to_set (map mu_id (retain (λ u, owner_matches u cx && from_target target u) units)).
Let forgotten := forgets_lineage cx (lineage_of false units edges cx seeds).

#[local] Opaque owner_matches is_deleted is_composition from_target.

Lemma forgotten_true u : forgotten u = true ↔ erased_source u.
Proof using Type.
  unfold forgotten, forgets_lineage, erased_source.
  rewrite !andb_true_iff, negb_true_iff, bool_decide_eq_true, lineage_of_reachable.
  unfold seeds. setoid_rewrite elem_of_list_to_set. setoid_rewrite list_elem_of_fmap.
  setoid_rewrite elem_of_retain. setoid_rewrite andb_true_iff.
  split.
  - intros [[(i & (w & -> & ? & ? & ?) & ?) ?] ?]. split_and!; [done|done|]. by exists w.
  - intros (? & ? & w & ? & ? & ? & ?). split_and!; [|done|done].
    exists (mu_id w). split; [by exists w | done].
Qed.

Lemma composed_ids_true g now id :
  id ∈ composed_dependent_ids (update_where forgotten (delete_unit g now) units) edges
         (map mu_id (retain forgotten units)) ↔
  (∃ c, c ∈ units ∧ mu_id c = id ∧ is_composition c = true) ∧
  ∃ e w, e ∈ edges ∧ ed_kind e = MemoryEdgeKind.DerivedFrom ∧ ed_src_id e = id ∧
    ed_dst_id e = mu_id w ∧ w ∈ units ∧ erased_source w.
Proof using Type.
  unfold composed_dependent_ids. rewrite elem_of_retain, elem_of_derived_from, any_true.
  setoid_rewrite elem_of_update_where. setoid_rewrite mem_true.
  setoid_rewrite list_elem_of_fmap. setoid_rewrite elem_of_retain.
  setoid_rewrite forgotten_true. setoid_rewrite andb_true_iff. setoid_rewrite N.eqb_eq. split.
  - intros [(e & He & Hk & (w & Hw & Hin & Her) & ->) (u & (c & Hc & ->) & Hid & Hcomp)].
    split; [|by exists e, w]. exists c. split; [done|].
    destruct (forgotten c); [|done]. by rewrite mu_id_delete, is_composition_delete in *.
  - intros [(c & Hc & <- & Hcomp) (e & w & He & Hk & Hs & Hd & Hw & Her)]. split.
    + exists e. split_and!; try done. by exists w.
    + eexists. split; [by exists c|].
      destruct (forgotten c); by rewrite ?mu_id_delete, ?is_composition_delete.
Qed.

Lemma forget_derived_erased g now units' ids :
  forget_derived units edges cx target g now = (units', ids) →
  Forall2 (λ u u',
    erased_source u ∧ u' = delete_unit (Some g) now u ∨
    ¬ erased_source u ∧ erased_composed u ∧ u' = delete_dependent g now u ∨
    ¬ erased_source u ∧ ¬ erased_composed u ∧ u' = u) units units' ∧
  ∀ x, x ∈ ids ↔ ∃ u, u ∈ units ∧ (erased_source u ∨ erased_composed u) ∧ x = mu_id u.
Proof using Type.
  unfold forget_derived. fold seeds. fold forgotten. simpl.
  set (dependent := λ u, mem _ _ && owner_matches u cx && negb (is_deleted u)).
  assert (∀ u, dependent u = true ↔ erased_composed u) as Hd.
  { intros u. unfold dependent, erased_composed.
    rewrite !andb_true_iff, mem_true, composed_ids_true, negb_true_iff. tauto. }
  assert (∀ u, dependent (delete_unit (Some g) now u) = false) as Hdd.
  { intros u. unfold dependent. rewrite is_deleted_delete. apply andb_false_r. }
  intros [= <- <-]. split.
  - unfold update_where. rewrite map_map. apply Forall2_fmap_r, Forall_Forall2_diag, Forall_true.
    intros u. simpl. destruct (forgotten u) eqn:Ef.
    + left. rewrite Hdd. split; [by apply forgotten_true | done].
    + right. apply not_true_iff_false in Ef. rewrite forgotten_true in Ef.
      destruct (dependent u) eqn:Ed; [left|right]; (split; [done|]); (split; [|done]).
      * by apply Hd.
      * apply not_true_iff_false in Ed. by rewrite Hd in Ed.
  - intros x. rewrite elem_of_app, !list_elem_of_fmap. setoid_rewrite elem_of_retain.
    setoid_rewrite forgotten_true. setoid_rewrite elem_of_update_where. split.
    + intros [(w & -> & ? & ?)|(u & -> & (w & Hw & ->) & Hu)]; [eauto|].
      destruct (forgotten w); [by rewrite Hdd in Hu|]. apply Hd in Hu. eauto.
    + intros (u & Hu & Hor & ->). destruct (forgotten u) eqn:Ef.
      * left. exists u. by rewrite <-forgotten_true.
      * right. destruct Hor as [Hl|Hdep]; [apply forgotten_true in Hl; congruence|].
        exists u. split; [done|]. split; [|by apply Hd]. exists u. by rewrite Ef.
Qed.

(** forgetting an episode or resource deletes and scrubs every live unit
    that came from it or supersedes such a unit, marks every live unit composed
    from one of those as deleted - its content is kept - and leaves all others
    as they were; the ids returned are those of the deleted units. *)
Theorem forget_derived_erases g now units' ids :
  forget_derived units edges cx target g now = (units', ids) →
  Forall2 (λ u u',
    erased_source u ∧ u' = delete_unit (Some g) now u ∨
    ¬ erased_source u ∧ erased_composed u ∧ u' = delete_dependent g now u ∨
    ¬ erased_source u ∧ ¬ erased_composed u ∧ u' = u) units units' ∧
  ∀ x, x ∈ ids ↔ ∃ u, u ∈ units ∧ (erased_source u ∨ erased_composed u) ∧ x = mu_id u.
Proof using Type. apply forget_derived_erased. Qed.
End derived.


Lemma elem_of_alter_retain {A} (m : gmap N (list A)) t p x :
  x ∈ rows (alter (retain p) t m) t → p x = true.
Proof.
  unfold rows. rewrite lookup_alter_eq. destruct (m !! t); simpl; [|by intros ?%not_elem_of_nil].
  by intros [_ ?]%elem_of_retain.
Qed.

Lemma forget_in_inv fw cx s o s' :
  forget_in fw cx s = Ok (o, s') →
  let tenant := cx_tenant_id cx in
  let g := fo_deletion_generation o in
  g = saturating_add u64_max
        (default 0 (st_deletion_generation s !! (tenant, cx_data_subject_id cx))) 1 ∧
  st_forgotten_sources s' = {[forget_source cx (fw_target fw)]} ∪ st_forgotten_sources s ∧
  (∀ id, fw_target fw = ForgetTarget.MemoryUnit id →
    apply_unit_forget_transition (rows (st_memory_units s) tenant) (rows (st_memory_edges s) tenant)
      cx id (fw_now fw) (Some g)
    = Ok (rows (st_memory_units s') tenant, fo_invalidated_units o)) ∧
  ((∀ id, fw_target fw ≠ ForgetTarget.MemoryUnit id) →
    forget_derived (rows (st_memory_units s) tenant) (rows (st_memory_edges s) tenant)
      cx (fw_target fw) g (fw_now fw)
    = (rows (st_memory_units s') tenant, fo_invalidated_units o)) ∧
  (∀ r, r ∈ rows (st_embeddings s') tenant → em_memory_unit_id r ∉ fo_invalidated_units o).
Proof.
  unfold forget_in. intros Hok. destruct (negb _); [done|].
  destruct (fw_target fw) as [id|id|id] eqn:Ht; simpl in Hok.
  1: destruct (apply_unit_forget_transition _ _ _ _ _ _) as [[units' ids]|] eqn:Ef;
    simpl in Hok; [|done].
  2-3: destruct (forget_derived _ _ _ _ _ _) as [units' ids] eqn:Ef; simpl in Hok.
  all: injection Hok as <- <-; simpl; rewrite !rows_insert_eq; split_and!; try done.
  all: try (intros ? [= <-]; exact Ef).
  all: try (intros Hne; by destruct (Hne id)).
  all: try (intros r Hr%elem_of_alter_retain Hin; apply negb_true_iff, mem_false in Hr; done).
Qed.

Lemma forgotten_after_forget fw cx s o s' u :
  forget_in fw cx s = Ok (o, s') → unit_matches_context u cx = true →
  from_target (fw_target fw) u = true → is_forgotten_source s' u = true.
Proof.
  intros (_ & Hsrc & _)%forget_in_inv Hcx Ht. unfold is_forgotten_source.
  rewrite Hsrc. unfold unit_matches_context, owner_matches in Hcx. bool_prop.
  unfold from_target, forget_source in *.
  destruct (fw_target fw) as [id|id|id]; [done|..]; bool_prop;
    repeat match goal with Hf : _ u = _ |- _ => rewrite Hf; clear Hf end.
  - rewrite bool_decide_true by set_solver. done.
  - rewrite (bool_decide_true (_ ∈ {[(_, _, _, _, _, SourceKindKey.Resource, _)]} ∪ _))
      by set_solver. by case_match.
Qed.

(** C40: after an episode or resource is forgotten, whatever is compiled next, no
    unit of the caller that names it as its source has content, unless the unit
    had been deleted before. *)
Theorem forgotten_source_stays_blank fw cx s o s1 claim write out s2 u :
  forget_in fw cx s = Ok (o, s1) → compiled_in claim write cx s1 = Ok (out, s2) →
  u ∈ rows (st_memory_units s2) (cx_tenant_id cx) →
  unit_matches_context u cx = true → from_target (fw_target fw) u = true →
  mu_body u = String.EmptyString ∨
  ∃ u0, u0 ∈ rows (st_memory_units s) (cx_tenant_id cx) ∧ mu_id u0 = mu_id u ∧
    is_deleted u0 = true.
Proof.
  intros Hf Hc Hu Hcx Ht.
  assert (∃ u1, u1 ∈ rows (st_memory_units s1) (cx_tenant_id cx) ∧ same_content u u1)
    as (u1 & Hu1 & Hid & Hb & Hown & He & Hr).
  { apply compiled_in_inv in Hc as [->|[_ ->]]; [by exists u|].
    apply write_compiled_units in Hu as [?|[_ Hno]]; [done|].
    by rewrite (forgotten_after_forget _ _ _ _ _ _ Hf Hcx Ht) in Hno. }
  assert (from_target (fw_target fw) u1 = true) as Ht1.
  { unfold from_target in *. by rewrite <-He, <-Hr. }
  rewrite Hown in Hcx. apply forget_in_inv in Hf as (_ & _ & _ & Hf & _).
  assert (∀ id, fw_target fw ≠ ForgetTarget.MemoryUnit id) as Hne
    by (intros id Heq; by rewrite Heq in Ht).
  apply Hf, forget_derived_erased in Hne as [Hall _].
  destruct (Forall2_elem_r _ _ _ _ Hall Hu1) as (u0 & Hu0 & Hcase).
  assert (∀ v, v ∈ rows (st_memory_units s) (cx_tenant_id cx) → owner_matches v cx = true →
    is_deleted v = false → from_target (fw_target fw) v = true →
    erased_source (rows (st_memory_units s) (cx_tenant_id cx))
      (rows (st_memory_edges s) (cx_tenant_id cx)) cx (fw_target fw) v) as Hsrc.
  { intros v Hv Ho Hd Hft. split_and!; [done..|]. exists v. split_and!; [done..|].
    apply rtc_refl. }
  destruct Hcase as [[_ ->]|[(Hns & Hcomp & ->)|(Hns & _ & ->)]].
  - left. rewrite Hb. apply delete_unit_content.
  - destruct Hns, Hcomp as (Ho & Hd & _). by apply Hsrc.
  - right. exists u0. split_and!; [done..|]. destruct (is_deleted u0) eqn:Hd; [done|].
    destruct Hns. apply Hsrc; try done. by apply andb_true_iff in Hcx as [_ ?].
Qed.


(** ** Review events *)

Definition review_key (e : ReviewEvent) : TraceId * string := (rv_trace_id e, rv_caller_id e).

Lemma add_review_event_known stored e :
  review_key e ∈ map review_key stored → add_review_event stored e = stored.
Proof.
  intros (x & Hk & Hx)%list_elem_of_fmap. unfold add_review_event.
  destruct (any _ stored) eqn:Ea; [done|]. rewrite any_false in Ea. specialize (Ea x Hx).
  injection Hk as Ht Hc. rewrite Ht, Hc, N.eqb_refl, bool_decide_true in Ea; done.
Qed.

Lemma add_review_event_keys stored e :
  NoDup (map review_key stored) →
  NoDup (map review_key (add_review_event stored e)) ∧
  (∀ k, k ∈ map review_key stored → k ∈ map review_key (add_review_event stored e)) ∧
  review_key e ∈ map review_key (add_review_event stored e).
Proof.
  intros Hnd. unfold add_review_event. destruct (any _ stored) eqn:Ea.
  - split_and!; try done. apply any_true in Ea as (x & Hx & Hp). bool_prop.
    apply list_elem_of_fmap. exists x. unfold review_key. split; [congruence | done].
  - rewrite map_app. rewrite any_false in Ea. split_and!; [|set_solver..].
    apply NoDup_app. split_and!; [done| |apply NoDup_singleton].
    intros k (x & -> & Hx)%list_elem_of_fmap Hin%list_elem_of_singleton.
    specialize (Ea x Hx). injection Hin as Ht Hc.
    rewrite Ht, Hc, N.eqb_refl, bool_decide_true in Ea; done.
Qed.

Lemma add_review_events_keys events stored :
  NoDup (map review_key stored) →
  NoDup (map review_key (foldl add_review_event stored events)) ∧
  (∀ k, k ∈ map review_key stored → k ∈ map review_key (foldl add_review_event stored events)) ∧
  ∀ e, e ∈ events → review_key e ∈ map review_key (foldl add_review_event stored events).
Proof.
  revert stored. induction events as [|e events IH]; intros stored Hnd; simpl; [set_solver|].
  destruct (add_review_event_keys stored e Hnd) as (Hnd' & Hsub & He).
  destruct (IH _ Hnd') as (? & Hsub' & Hall). split_and!; [done|auto|].
  intros x [->|Hx]%elem_of_cons; auto.
Qed.

Lemma add_review_events_known events stored :
  (∀ e, e ∈ events → review_key e ∈ map review_key stored) →
  foldl add_review_event stored events = stored.
Proof.
  revert stored. induction events as [|e events IH]; intros stored Hk; simpl; [done|].
  rewrite add_review_event_known by set_solver. apply IH. set_solver.
Qed.

(** staging review events keeps one event per trace and caller, and staging
    the same events again changes nothing. *)
Theorem review_events_once events cx s s1 :
  NoDup (map review_key (rows (st_review_events s) (cx_tenant_id cx))) →
  review_in events cx s = Ok ((), s1) →
  NoDup (map review_key (rows (st_review_events s1) (cx_tenant_id cx))) ∧
  review_in events cx s1 = Ok ((), s1).
Proof.
  unfold review_in. intros Hnd Hok.
  destruct (check_all (check_review_event s cx) events) as [[]|] eqn:Ec; simpl in Hok; [|done].
  injection Hok as <-.
  destruct (add_review_events_keys events _ Hnd) as (Hnd' & _ & Hall). split.
  - simpl. by rewrite rows_update_eq.
  - change (check_review_event _ cx) with (check_review_event s cx). rewrite Ec. simpl.
    unfold update_field. simpl. unfold update_rows at 1. rewrite rows_update_eq.
    rewrite add_review_events_known by done. unfold update_rows. by rewrite insert_insert_eq.
Qed.

End facts.
