(* ===== verification/Jobs.v ===== *)
(** * Jobs: the reflect job queue

    Claiming, completing, requeueing, releasing and failing reflect jobs, from
    [crates/memphant-core/src/lib.rs].  A claim carries a fencing token, the
    pair of the job's claim generation and its attempts; only the claim whose
    token is current may act on the job.  The life of one job is told apart from
    the queue, and every operation of the queue takes jobs through it. *)

From S2P Require Import Prelude Types Clock Bitemporal Lineage Store Txn Stage.

Definition JOB_DEAD_LETTER_ATTEMPTS : N := 5.

Record JobFilter : Set := mkJobFilter {
  jf_tenant : option TenantId;
  jf_scope : option ScopeId;
}.

(** What one worker tick did. *)
Record WorkerTickOutcome : Set := mkWorkerTickOutcome {
  wt_completed : N;
  wt_failed : N;
  wt_retried : N;
  wt_deferred : N;
}.
Definition is_idle (o : WorkerTickOutcome) : bool :=
  (wt_completed o =? 0) && (wt_failed o =? 0) && (wt_retried o =? 0) && (wt_deferred o =? 0).
Definition is_clean (o : WorkerTickOutcome) : bool :=
  (wt_failed o =? 0) && (wt_retried o =? 0).

Definition job_meta (s : InMemoryState) (id : JobId) : JobMeta :=
  default JobMeta_default (st_job_meta s !! id).

Definition set_meta (id : JobId) (f : JobMeta → JobMeta) (s : InMemoryState) : InMemoryState :=
  s <| st_job_meta ::= λ m, <[id := f (default JobMeta_default (m !! id))]> m |>.

(** ** The life of one job, told apart from the queue

    A job waits, runs, is done or is dead; its attempts count the claims of its
    present generation.  A fifth attempt is the last: a job released on it is
    dead.  A job that a later one of the same source replaces is retired; one
    put back for a new compiler starts over in the next generation. *)
Module JobPhase.
Inductive t : Set := Waiting | Running | Done | Dead.
End JobPhase.

Module JobEvent.
Inductive t : Set := Claimed | Completed | Released | Failed | Retired | Requeued.
End JobEvent.

Record JobLife : Set := mkJobLife {
  jl_phase : JobPhase.t;
  jl_attempts : N;
  jl_generation : N;
}.

Definition job_after (event : JobEvent.t) (job : JobLife) : option JobLife :=
  let 'mkJobLife phase attempts generation := job in
  let next_generation := N.min (generation + 1) u64_max in
  match phase, event with
  | JobPhase.Waiting, JobEvent.Claimed =>
      Some (mkJobLife JobPhase.Running (attempts + 1) generation)
  | JobPhase.Running, JobEvent.Completed => Some (mkJobLife JobPhase.Done attempts generation)
  | JobPhase.Running, JobEvent.Released =>
      Some (mkJobLife (if 5 <=? attempts then JobPhase.Dead else JobPhase.Waiting) attempts generation)
  | JobPhase.Running, JobEvent.Failed => Some (mkJobLife JobPhase.Dead attempts generation)
  | JobPhase.Running, JobEvent.Retired => Some (mkJobLife JobPhase.Dead attempts next_generation)
  | JobPhase.Running, JobEvent.Requeued => Some (mkJobLife JobPhase.Waiting 0 next_generation)
  | _, _ => None
  end.

Definition job_moves (job job' : JobLife) : Prop := ∃ event, job_after event job = Some job'.

Section jobs.
Context `{HashOrder}.

(** ** Claiming *)

(** Jobs of one lane run one at a time. *)
Definition lane (job : QueuedReflectJob) : N * N * N * N * N :=
  (qj_tenant_id job, qj_data_subject_id job, qj_subject_generation job, qj_scope_id job,
   qj_agent_node_id job).

Definition all_jobs (s : InMemoryState) : list QueuedReflectJob :=
  flat_map snd (map_iter (st_reflect_jobs s)).

Definition matches_option (wanted : option N) (x : N) : bool :=
  match wanted with Some w => x =? w | None => true end.

Definition job_is_bound (s : InMemoryState) (job : QueuedReflectJob) : bool :=
  any (λ kv : (TenantId * string) * (ContextBindingRequest * ContextBindingResponse),
         (bs_subject_id kv.2.2 =? qj_data_subject_id job) &&
         (bs_actor_id kv.2.2 =? qj_actor_id job) &&
         (bs_scope_id kv.2.2 =? qj_scope_id job) &&
         (bs_agent_node_id kv.2.2 =? qj_agent_node_id job) &&
         (bs_subject_generation kv.2.2 =? qj_subject_generation job))
    (map_iter (st_context_bindings s)).

Definition claimable (meta : JobMeta) : bool :=
  negb (jm_completed meta) && negb (jm_terminal meta) && negb (jm_claimed meta) &&
  (jm_attempts meta <? JOB_DEAD_LETTER_ATTEMPTS).

Definition lane_is_free (s : InMemoryState) (job : QueuedReflectJob) : bool :=
  negb (any (λ other, bool_decide (lane other = lane job) &&
               match st_job_meta s !! qj_id other with
               | Some meta => jm_claimed meta && negb (jm_completed meta)
               | None => false
               end) (all_jobs s)).

Definition candidates (s : InMemoryState) (filter : JobFilter) (limit : nat)
    : list QueuedReflectJob :=
  take limit
    (retain (λ job, matches_option (jf_scope filter) (qj_scope_id job) && job_is_bound s job &&
                    claimable (job_meta s (qj_id job)) && lane_is_free s job)
       (flat_map snd
          (retain (λ kv, matches_option (jf_tenant filter) kv.1) (map_iter (st_reflect_jobs s))))).

Definition claim_meta (meta : JobMeta) : JobMeta :=
  meta <| jm_claimed := true |> <| jm_attempts ::= λ n, saturating_add u32_max n 1 |>.

Fixpoint claim_all (jobs : list QueuedReflectJob) (s : InMemoryState)
    : InMemoryState * list ReflectJobRow :=
  match jobs with
  | [] => (s, [])
  | job :: jobs =>
      let s := set_meta (qj_id job) claim_meta s in
      let meta := job_meta s (qj_id job) in
      let '(s', claimed) := claim_all jobs s in
      (s', mkReflectJobRow job (jm_attempts meta) (jm_claim_generation meta) :: claimed)
  end.

Definition claim_reflect_jobs (filter : JobFilter) (limit : nat) (s : InMemoryState)
    : InMemoryState * list ReflectJobRow := claim_all (candidates s filter limit) s.

(** ** Acting on a claim *)

Definition complete_meta (meta : JobMeta) : JobMeta :=
  meta <| jm_completed := true |> <| jm_claimed := false |>.

Definition complete_reflect_job (claim : ReflectJobRow) (s : InMemoryState)
    : InMemoryState * ClaimMutationOutcome.t :=
  let job := jr_job claim in
  let exact_completed :=
    bool_decide (job ∈ rows (st_reflect_jobs s) (qj_tenant_id job)) &&
    match st_job_meta s !! qj_id job with
    | Some meta =>
        jm_completed meta && (jm_attempts meta =? jr_attempts claim) &&
        (jm_claim_generation meta =? jr_claim_generation claim)
    | None => false
    end in
  if exact_completed then (s, ClaimMutationOutcome.Applied)
  else if negb (claim_is_current s claim) then (s, ClaimMutationOutcome.Stale)
  else (set_meta (qj_id job) complete_meta s, ClaimMutationOutcome.Applied).

(** Another queued job for the same source under the new compiler. *)
Definition same_source (claimed : QueuedReflectJob) (compiler_version : string)
    (job : QueuedReflectJob) : bool :=
  negb (qj_id job =? qj_id claimed) &&
  (qj_tenant_id job =? qj_tenant_id claimed) &&
  (qj_data_subject_id job =? qj_data_subject_id claimed) &&
  (qj_subject_generation job =? qj_subject_generation claimed) &&
  (qj_scope_id job =? qj_scope_id claimed) &&
  (qj_agent_node_id job =? qj_agent_node_id claimed) &&
  (qj_actor_id job =? qj_actor_id claimed) &&
  bool_decide (qj_kind job = qj_kind claimed) &&
  bool_decide (qj_episode_id job = qj_episode_id claimed) &&
  bool_decide (qj_resource_id job = qj_resource_id claimed) &&
  bool_decide (qj_compiler_version job = compiler_version).

(** [slice::swap]. *)
Definition swap {A} (i j : nat) (l : list A) : list A :=
  match l !! i, l !! j with
  | Some x, Some y => <[j := x]> (<[i := y]> l)
  | _, _ => l
  end.

Definition retire_meta (meta : JobMeta) : JobMeta :=
  meta <| jm_claimed := false |> <| jm_terminal := true |>
       <| jm_claim_generation ::= λ n, saturating_add u64_max n 1 |>.

Definition requeue_meta (meta : JobMeta) : JobMeta :=
  meta <| jm_attempts := 0 |> <| jm_claim_generation ::= λ n, saturating_add u64_max n 1 |>
       <| jm_claimed := false |> <| jm_completed := false |> <| jm_terminal := false |>.

Definition requeue_reflect_job_with_compiler (claim : ReflectJobRow) (compiler_version : string)
    (s : InMemoryState) : InMemoryState * result StoreError.t ClaimMutationOutcome.t :=
  let job := jr_job claim in
  let tenant := qj_tenant_id job in
  if trim_is_empty compiler_version
  then (s, Err (StoreError.Conflict "reflect compiler identity must not be empty"))
  else if negb (claim_is_current s claim) then (s, Ok ClaimMutationOutcome.Stale)
  else
    let jobs := rows (st_reflect_jobs s) tenant in
    match position (λ j, qj_id j =? qj_id job) jobs with
    | None => (s, Err (StoreError.NotFound "reflect_job"))
    | Some stale_index =>
        let s :=
          match position (same_source job compiler_version) jobs with
          | Some authoritative_index =>
              set_meta (qj_id job) retire_meta
                (s <| st_reflect_jobs ::= <[tenant := swap stale_index authoritative_index jobs]> |>)
          | None =>
              set_meta (qj_id job) requeue_meta
                (s <| st_reflect_jobs ::= <[tenant :=
                        update_first (λ j, qj_id j =? qj_id job)
                          (λ j, j <| qj_compiler_version := compiler_version |>) jobs]> |>)
          end in
        (s <| st_prepared_structured_state ::= delete (tenant, qj_id job) |>,
         Ok ClaimMutationOutcome.Applied)
    end.

Definition release_reflect_job (claim : ReflectJobRow) (s : InMemoryState) : InMemoryState :=
  if negb (claim_is_current s claim) then s
  else set_meta (qj_id (jr_job claim)) (λ meta, meta <| jm_claimed := false |>) s.

Definition fail_reflect_job (claim : ReflectJobRow) (s : InMemoryState) : InMemoryState :=
  if negb (claim_is_current s claim) then s
  else set_meta (qj_id (jr_job claim))
         (λ meta, meta <| jm_claimed := false |> <| jm_terminal := true |>) s.

(** ** Counting *)

Definition is_pending (s : InMemoryState) (context : ResolvedMemoryContext)
    (job : QueuedReflectJob) : bool :=
  (qj_data_subject_id job =? cx_data_subject_id context) &&
  (qj_subject_generation job =? cx_subject_generation context) &&
  (qj_scope_id job =? cx_scope_id context) &&
  (qj_agent_node_id job =? cx_agent_node_id context) &&
  negb match st_job_meta s !! qj_id job with Some meta => jm_completed meta | None => false end.

Definition pending_job_count (s : InMemoryState) (context : ResolvedMemoryContext)
    : result StoreError.t nat :=
  _ <-? validate_context s context;
  Ok (length (retain (is_pending s context) (rows (st_reflect_jobs s) (cx_tenant_id context)))).

Definition pending_worker_job_count (s : InMemoryState) : nat :=
  length (retain (λ job,
    match st_job_meta s !! qj_id job with
    | Some meta => negb (jm_completed meta) && negb (jm_terminal meta) &&
                   (jm_attempts meta <? JOB_DEAD_LETTER_ATTEMPTS)
    | None => true
    end) (all_jobs s)).

Definition dead_letter_count (s : InMemoryState) : nat :=
  length (retain (λ kv : JobId * JobMeta,
    negb (jm_completed kv.2) &&
    (jm_terminal kv.2 || (JOB_DEAD_LETTER_ATTEMPTS <=? jm_attempts kv.2)))
    (map_iter (st_job_meta s))).

(** ** The state machine of one job *)

Definition held (meta : JobMeta) : Prop :=
  jm_claimed meta = true ∧ jm_completed meta = false ∧ jm_terminal meta = false.

Inductive meta_step (meta : JobMeta) : JobMeta → Prop :=
| ms_claim : claimable meta = true → meta_step meta (claim_meta meta)
| ms_complete : held meta → meta_step meta (complete_meta meta)
| ms_release : held meta → meta_step meta (meta <| jm_claimed := false |>)
| ms_fail : held meta → meta_step meta (meta <| jm_claimed := false |> <| jm_terminal := true |>)
| ms_retire : held meta → meta_step meta (retire_meta meta)
| ms_requeue : held meta → meta_step meta (requeue_meta meta).

(** The fencing token and its order. *)
Definition token (meta : JobMeta) : N * N := (jm_claim_generation meta, jm_attempts meta).
Definition token_lt (a b : N * N) : Prop := a.1 < b.1 ∨ (a.1 = b.1 ∧ a.2 < b.2).
Definition token_le (a b : N * N) : Prop := a = b ∨ token_lt a b.

#[export] Instance token_le_preorder : PreOrder token_le.
Proof.
  split; [by left|]. intros [a1 a2] [b1 b2] [c1 c2]. unfold token_le, token_lt. simpl.
  intros [[= -> ->]|[?|[-> ?]]] [[= -> ->]|[?|[-> ?]]];
    first [by left | right; left; lia | right; right; lia].
Qed.

(** A reachable bookkeeping: a held job is neither done nor dead, attempts stay
    within the dead-letter bound and generations within their width. *)
Record meta_wf (meta : JobMeta) : Prop := {
  mw_attempts : jm_attempts meta ≤ JOB_DEAD_LETTER_ATTEMPTS;
  mw_claimed : jm_claimed meta = true →
    1 ≤ jm_attempts meta ∧ jm_completed meta = false ∧ jm_terminal meta = false;
  mw_done : jm_completed meta = true → jm_terminal meta = false;
  mw_generation : jm_claim_generation meta ≤ u64_max;
}.

Lemma meta_wf_default : meta_wf JobMeta_default.
Proof. split; done. Qed.

Lemma claimable_true meta :
  claimable meta = true ↔
  jm_completed meta = false ∧ jm_terminal meta = false ∧ jm_claimed meta = false ∧
  jm_attempts meta < JOB_DEAD_LETTER_ATTEMPTS.
Proof. unfold claimable. rewrite !andb_true_iff, !negb_true_iff, N.ltb_lt. tauto. Qed.

Lemma claim_attempts meta :
  claimable meta = true → jm_attempts (claim_meta meta) = jm_attempts meta + 1.
Proof.
  intros (_ & _ & _ & Hlt)%claimable_true. simpl. apply saturating_add_exact.
  unfold JOB_DEAD_LETTER_ATTEMPTS, u32_max in *. lia.
Qed.

Lemma meta_step_wf m m' : meta_step m m' → meta_wf m → meta_wf m'.
Proof.
  intros Hs [Ha Hc Hd Hg]. destruct Hs as [Hcl|Hh|Hh|Hh|Hh|Hh].
  1: pose proof (claim_attempts m Hcl); apply claimable_true in Hcl as (? & ? & ? & ?);
     split; simpl in *; intros; unfold JOB_DEAD_LETTER_ATTEMPTS in *; try done; try lia;
     split_and!; done || lia.
  all: destruct Hh as (? & ? & ?); split; simpl in *; intros;
    auto using saturating_add_le; try done; try congruence;
    unfold JOB_DEAD_LETTER_ATTEMPTS; lia.
Qed.

Lemma meta_steps_wf m m' : rtc meta_step m m' → meta_wf m → meta_wf m'.
Proof. induction 1; eauto using meta_step_wf. Qed.

(** Below the top generation every step keeps or raises the token. *)
Lemma meta_step_token m m' :
  meta_step m m' → jm_claim_generation m' < u64_max → token_le (token m) (token m').
Proof.
  intros Hs Hg. destruct Hs as [Hcl|Hh|Hh|Hh|Hh|Hh]; try by left.
  - right. right. pose proof (claim_attempts m Hcl) as Hat. split; [done|]. unfold token. simpl in *.
    rewrite Hat. lia.
  - right. left. simpl in *. unfold saturating_add in *. lia.
  - right. left. simpl in *. unfold saturating_add in *. lia.
Qed.

Lemma meta_step_generation m m' :
  meta_step m m' → jm_claim_generation m ≤ u64_max →
  jm_claim_generation m ≤ jm_claim_generation m' ∧ jm_claim_generation m' ≤ u64_max.
Proof.
  intros Hs Hg. destruct Hs; simpl; try done; unfold saturating_add; lia.
Qed.

Lemma meta_steps_generation m m' :
  rtc meta_step m m' → jm_claim_generation m ≤ u64_max →
  jm_claim_generation m ≤ jm_claim_generation m'.
Proof.
  induction 1 as [|a b c Hab _ IH]; [done|]. intros Hg.
  destruct (meta_step_generation a b Hab Hg). etrans; [done | by apply IH].
Qed.

Lemma meta_steps_token m m' :
  rtc meta_step m m' → jm_claim_generation m ≤ u64_max →
  jm_claim_generation m' < u64_max → token_le (token m) (token m').
Proof.
  induction 1 as [|a b c Hab Hbc IH]; [done|]. intros Hg Htop.
  destruct (meta_step_generation a b Hab Hg) as [_ Hgb].
  etrans; [|by apply IH]. apply meta_step_token; [done|].
  pose proof (meta_steps_generation b c Hbc Hgb). lia.
Qed.


(** ** The queue refines it *)

(** A queue operation of any worker. *)
Inductive queue_step (s : InMemoryState) : InMemoryState → Prop :=
| qs_claim filter limit : queue_step s (claim_reflect_jobs filter limit s).1
| qs_complete claim : queue_step s (complete_reflect_job claim s).1
| qs_requeue claim v : queue_step s (requeue_reflect_job_with_compiler claim v s).1
| qs_release claim : queue_step s (release_reflect_job claim s)
| qs_fail claim : queue_step s (fail_reflect_job claim s).

Definition unique_jobs (s : InMemoryState) : Prop := NoDup (map qj_id (all_jobs s)).

Lemma job_meta_set id f s j :
  job_meta (set_meta id f s) j = if bool_decide (id = j) then f (job_meta s id) else job_meta s j.
Proof.
  unfold job_meta, set_meta. simpl. case_bool_decide as Hid.
  - subst. by rewrite lookup_insert_eq.
  - by rewrite lookup_insert_ne.
Qed.

Lemma claim_is_current_inv s claim :
  claim_is_current s claim = true →
  jr_job claim ∈ rows (st_reflect_jobs s) (qj_tenant_id (jr_job claim)) ∧
  held (job_meta s (qj_id (jr_job claim))) ∧
  token (job_meta s (qj_id (jr_job claim))) = (jr_claim_generation claim, jr_attempts claim).
Proof.
  unfold claim_is_current, job_meta, held, token. intros Hc.
  apply andb_true_iff in Hc as [Hin%bool_decide_eq_true Hm].
  destruct (st_job_meta s !! _) as [meta|]; [|done]. bool_prop. simpl.
  split_and!; congruence || done.
Qed.

Lemma claim_all_meta jobs s j :
  NoDup (map qj_id jobs) → 
  job_meta (claim_all jobs s).1 j =
    if bool_decide (j ∈ map qj_id jobs) then claim_meta (job_meta s j) else job_meta s j.
Proof.
  revert s. induction jobs as [|job jobs IH]; intros s Hnd; [done|].
  apply NoDup_cons in Hnd as [Hni Hnd]. simpl.
  specialize (IH (set_meta (qj_id job) claim_meta s) Hnd).
  destruct (claim_all jobs _) as [s' claimed]. simpl in *. rewrite IH, job_meta_set.
  destruct (decide (qj_id job = j)) as [<-|Hne].
  - rewrite bool_decide_false by done. rewrite !bool_decide_true by set_solver. done.
  - rewrite (bool_decide_false (qj_id job = j)) by done.
    by rewrite (bool_decide_ext (j ∈ qj_id job :: map qj_id jobs) (j ∈ map qj_id jobs))
      by set_solver.
Qed.

Lemma claim_all_rows jobs s row :
  NoDup (map qj_id jobs) → row ∈ (claim_all jobs s).2 →
  jr_job row ∈ jobs ∧
  jr_attempts row = jm_attempts (claim_meta (job_meta s (qj_id (jr_job row)))) ∧
  jr_claim_generation row = jm_claim_generation (job_meta s (qj_id (jr_job row))).
Proof.
  revert s. induction jobs as [|job jobs IH]; intros s Hnd; [set_solver|].
  apply NoDup_cons in Hnd as [Hni Hnd]. simpl.
  specialize (IH (set_meta (qj_id job) claim_meta s) Hnd).
  destruct (claim_all jobs _) as [s' claimed]. simpl in *.
  intros [->|Hrow]%elem_of_cons.
  - simpl. rewrite job_meta_set, bool_decide_true by done. split; [set_solver | done].
  - destruct (IH Hrow) as (Hin & Ha & Hg). split; [set_solver|].
    assert (qj_id job ≠ qj_id (jr_job row)) as Hne.
    { intros Heq. apply Hni. rewrite Heq. apply list_elem_of_fmap. eauto. }
    rewrite job_meta_set in Ha, Hg. by rewrite bool_decide_false in Ha, Hg by done.
Qed.

Lemma sublist_retain {A} (p : A → bool) l : retain p l `sublist_of` l.
Proof.
  induction l as [|x l IH]; [done|]. rewrite retain_cons.
  destruct (p x); by constructor.
Qed.

Lemma sublist_flat_map {A B} (f : A → list B) l k :
  l `sublist_of` k → flat_map f l `sublist_of` flat_map f k.
Proof.
  induction 1 as [|x l k _ IH|x l k _ IH]; simpl; [done|by apply sublist_app|].
  by apply sublist_inserts_l.
Qed.

Lemma candidates_sublist s filter limit : candidates s filter limit `sublist_of` all_jobs s.
Proof.
  unfold candidates. etrans; [apply sublist_take|]. etrans; [apply sublist_retain|].
  apply sublist_flat_map, sublist_retain.
Qed.

Lemma candidates_NoDup s filter limit :
  unique_jobs s → NoDup (map qj_id (candidates s filter limit)).
Proof.
  intros Hu. eapply sublist_NoDup; [exact Hu|].
  apply (fmap_sublist qj_id), candidates_sublist.
Qed.

Lemma candidates_claimable s filter limit job :
  job ∈ candidates s filter limit →
  claimable (job_meta s (qj_id job)) = true ∧ lane_is_free s job = true.
Proof.
  unfold candidates. intros (i & Hi & _)%elem_of_take.
  apply list_elem_of_lookup_2, elem_of_retain in Hi as [_ Hp]. bool_prop. done.
Qed.

(** The jobs themselves change only by a requeue, which keeps their ids. *)
Lemma set_meta_jobs id f s : all_jobs (set_meta id f s) = all_jobs s.
Proof. done. Qed.

Lemma claim_all_jobs jobs s : st_reflect_jobs (claim_all jobs s).1 = st_reflect_jobs s.
Proof.
  revert s. induction jobs as [|job jobs IH]; intros s; [done|]. simpl.
  specialize (IH (set_meta (qj_id job) claim_meta s)).
  by destruct (claim_all jobs _).
Qed.

Lemma swap_perm {A} i j (l : list A) : swap i j l ≡ₚ l.
Proof.
  unfold swap. destruct (l !! i) as [x|] eqn:Hi, (l !! j) as [y|] eqn:Hj; try done.
  by apply Permutation_insert_swap.
Qed.

Lemma update_first_ids {A} (p : A → bool) (g : A → A) (key : A → N) l :
  (∀ x, key (g x) = key x) → map key (update_first p g l) = map key l.
Proof.
  intros Hk. induction l as [|x l IH]; [done|]. simpl. destruct (p x); simpl.
  - by rewrite Hk.
  - by rewrite IH.
Qed.

Lemma all_jobs_insert s t l :
  map qj_id l ≡ₚ map qj_id (rows (st_reflect_jobs s) t) →
  map qj_id (all_jobs (s <| st_reflect_jobs ::= <[t := l]> |>)) ≡ₚ map qj_id (all_jobs s).
Proof.
  intros Hl. unfold all_jobs. simpl. set (m := st_reflect_jobs s) in *.
  assert (∀ m : gmap TenantId (list QueuedReflectJob),
    map qj_id (flat_map snd (map_iter m)) ≡ₚ
    map qj_id (rows m t) ++ map qj_id (flat_map snd (map_to_list (delete t m)))) as Hall.
  { intros m'. rewrite <-map_app. apply Permutation_map. rewrite map_iter_perm.
    unfold rows. destruct (m' !! t) as [l'|] eqn:E.
    - by rewrite <-(map_to_list_delete m' t l' E).
    - simpl. by rewrite delete_id. }
  rewrite !Hall, rows_insert_eq, delete_insert_eq, Hl. done.
Qed.

Lemma queue_step_unique s s' : queue_step s s' → unique_jobs s → unique_jobs s'.
Proof.
  intros Hstep Hu. destruct Hstep as [filter limit|claim|claim v|claim|claim].
  - unfold unique_jobs, all_jobs, claim_reflect_jobs. by rewrite claim_all_jobs.
  - unfold complete_reflect_job. destruct (_ && _)%bool; [done|]. by destruct (negb _).
  - unfold requeue_reflect_job_with_compiler. destruct (trim_is_empty v); [done|].
    destruct (negb _); [done|]. destruct (position _ _) as [i|]; [|done]. simpl.
    assert (∀ l, map qj_id l ≡ₚ map qj_id (rows (st_reflect_jobs s) (qj_tenant_id (jr_job claim))) →
      unique_jobs (s <| st_reflect_jobs ::= <[qj_tenant_id (jr_job claim) := l]> |>)) as Hl.
    { intros l Hl. unfold unique_jobs. by rewrite all_jobs_insert. }
    destruct (position (same_source _ _) _) as [k|]; apply Hl.
    + by rewrite swap_perm.
    + by rewrite update_first_ids.
  - unfold release_reflect_job. by destruct (negb _).
  - unfold fail_reflect_job. by destruct (negb _).
Qed.

Lemma queue_step_meta s s' j :
  unique_jobs s → queue_step s s' → rtc meta_step (job_meta s j) (job_meta s' j).
Proof.
  intros Hu Hstep.
  assert (∀ claim f, claim_is_current s claim = true →
    (held (job_meta s (qj_id (jr_job claim))) →
     meta_step (job_meta s (qj_id (jr_job claim))) (f (job_meta s (qj_id (jr_job claim))))) →
    rtc meta_step (job_meta s j) (job_meta (set_meta (qj_id (jr_job claim)) f s) j)) as Hset.
  { intros claim f (_ & Hh & _)%claim_is_current_inv Hf. rewrite job_meta_set.
    case_bool_decide as Hid; [|done]. subst j. by apply rtc_once, Hf. }
  destruct Hstep as [filter limit|claim|claim v|claim|claim].
  - unfold claim_reflect_jobs. rewrite claim_all_meta by by apply candidates_NoDup.
    case_bool_decide as Hin; [|done]. apply list_elem_of_fmap in Hin as (job & -> & Hjob).
    apply rtc_once, ms_claim. by apply candidates_claimable in Hjob as [? _].
  - unfold complete_reflect_job. destruct (_ && _)%bool; [done|].
    destruct (claim_is_current s claim) eqn:Hc; simpl; [|done]. apply Hset; [done|constructor; done].
  - unfold requeue_reflect_job_with_compiler. destruct (trim_is_empty v); [done|].
    destruct (claim_is_current s claim) eqn:Hc; simpl; [|done].
    destruct (position _ _) as [i|]; [|done].
    destruct (position (same_source _ _) _) as [k|].
    + apply (Hset claim retire_meta Hc). by constructor.
    + apply (Hset claim requeue_meta Hc). by constructor.
  - unfold release_reflect_job. destruct (claim_is_current s claim) eqn:Hc; simpl; [|done].
    apply Hset; [done|]. by constructor.
  - unfold fail_reflect_job. destruct (claim_is_current s claim) eqn:Hc; simpl; [|done].
    apply Hset; [done|]. by constructor.
Qed.

Lemma queue_steps_meta s s' j :
  unique_jobs s → rtc queue_step s s' → rtc meta_step (job_meta s j) (job_meta s' j).
Proof.
  intros Hu Hr. induction Hr as [|s1 s2 s3 Hs _ IH]; [done|]. etrans.
  - by apply queue_step_meta.
  - apply IH. by eapply queue_step_unique.
Qed.

Lemma queue_steps_unique s s' : rtc queue_step s s' → unique_jobs s → unique_jobs s'.
Proof. induction 1; eauto using queue_step_unique. Qed.

(** ** The queue keeps the lives of its jobs *)

(** The life that the bookkeeping of a job records. *)
Definition job_life (s : InMemoryState) (id : JobId) : JobLife :=
  let meta := job_meta s id in
  mkJobLife
    (if jm_completed meta then JobPhase.Done
     else if jm_terminal meta then JobPhase.Dead
     else if jm_claimed meta then JobPhase.Running
     else if 5 <=? jm_attempts meta then JobPhase.Dead
     else JobPhase.Waiting)
    (jm_attempts meta) (jm_claim_generation meta).

(** The claim is the one the job runs under. *)
Definition holds (s : InMemoryState) (claim : ReflectJobRow) : Prop :=
  jr_job claim ∈ rows (st_reflect_jobs s) (qj_tenant_id (jr_job claim)) ∧
  job_life s (qj_id (jr_job claim)) =
    mkJobLife JobPhase.Running (jr_attempts claim) (jr_claim_generation claim).

(** One job goes through an event; no other job is touched. *)
Definition only_job (id : JobId) (event : JobEvent.t) (s s' : InMemoryState) : Prop :=
  ∀ j, if bool_decide (j = id) then job_after event (job_life s j) = Some (job_life s' j)
       else job_life s' j = job_life s j.

(** Another job of the tenant's queue for the source of [job], compiled by
    [version]. *)
Definition replaced_by (s : InMemoryState) (job : QueuedReflectJob) (version : string)
    (other : QueuedReflectJob) : Prop :=
  other ∈ rows (st_reflect_jobs s) (qj_tenant_id job) ∧ qj_id other ≠ qj_id job ∧
  qj_tenant_id other = qj_tenant_id job ∧ lane other = lane job ∧
  qj_actor_id other = qj_actor_id job ∧ qj_kind other = qj_kind job ∧
  qj_episode_id other = qj_episode_id job ∧ qj_resource_id other = qj_resource_id job ∧
  qj_compiler_version other = version.

Lemma holds_current s claim : holds s claim ↔ claim_is_current s claim = true.
Proof.
  unfold holds, claim_is_current, job_life, job_meta. rewrite andb_true_iff, bool_decide_eq_true.
  apply and_iff_compat_l.
  destruct (st_job_meta s !! _) as [[a g [] [] []]|]; cbn; rewrite ?andb_false_r; try done;
    try (by destruct (5 <=? a)).
  rewrite !andb_true_r, andb_true_iff, !N.eqb_eq. split; [by intros [=]|by intros [-> ->]].
Qed.

Lemma job_life_set id f s j :
  job_life (set_meta id f s) j =
  if bool_decide (j = id) then job_life (set_meta id (λ _, f (job_meta s id)) s) id else job_life s j.
Proof.
  unfold job_life. rewrite !job_meta_set, (bool_decide_true (id = id)) by done.
  case_bool_decide as E; case_bool_decide; subst; done.
Qed.

Lemma life_running s claim :
  holds s claim →
  let meta := job_meta s (qj_id (jr_job claim)) in
  jm_claimed meta = true ∧ jm_completed meta = false ∧ jm_terminal meta = false.
Proof. rewrite holds_current. by intros (_ & Hh & _)%claim_is_current_inv. Qed.

Lemma only_job_set s claim f event :
  holds s claim →
  (∀ meta, jm_claimed meta = true → jm_completed meta = false → jm_terminal meta = false →
    job_after event (mkJobLife JobPhase.Running (jm_attempts meta) (jm_claim_generation meta)) =
    Some (job_life (set_meta (qj_id (jr_job claim)) (λ _, f meta) s) (qj_id (jr_job claim)))) →
  only_job (qj_id (jr_job claim)) event s (set_meta (qj_id (jr_job claim)) f s).
Proof.
  intros Hh Hf j. destruct (life_running s claim Hh) as (Hc & Hd & Ht').
  rewrite job_life_set.
  case_bool_decide as E; [|done]. subst j.
  rewrite <-(Hf (job_meta s (qj_id (jr_job claim))) Hc Hd Ht'). f_equal. unfold job_life. by rewrite Hc, Hd, Ht'.
Qed.

Lemma position_is_Some {A} (p : A → bool) l :
  is_Some (position p l) ↔ ∃ x, x ∈ l ∧ p x = true.
Proof.
  induction l as [|x l IH]; cbn [position].
  - split; [by intros []|by intros (y & []%not_elem_of_nil & _)].
  - destruct (p x) eqn:Ex.
    + split; [|by eexists]. intros _. exists x. split; [apply list_elem_of_here|done].
    + transitivity (is_Some (position p l)).
      { destruct (position p l); cbn; split; intros []; by try eexists. }
      rewrite IH. split; intros (y & Hy & Hp); exists y; (split; [|done]).
      * by apply list_elem_of_further.
      * apply elem_of_cons in Hy as [->|?]; [congruence|done].
Qed.

Lemma same_source_replaced s job version other :
  other ∈ rows (st_reflect_jobs s) (qj_tenant_id job) →
  same_source job version other = true ↔ replaced_by s job version other.
Proof.
  intros Hin. unfold same_source, replaced_by, lane. split.
  - intros Hs. bool_prop. split_and!; try done. congruence.
  - intros (_ & Hid & Htenant & [= ? ? ? ? ?] & ? & ? & ? & ? & ?).
    repeat (apply andb_true_iff; split);
      first [by apply N.eqb_eq | by apply bool_decide_eq_true | by apply negb_true_iff, N.eqb_neq].
Qed.

Lemma complete_life s claim :
  holds s claim →
  (complete_reflect_job claim s).2 = ClaimMutationOutcome.Applied ∧
  only_job (qj_id (jr_job claim)) JobEvent.Completed s (complete_reflect_job claim s).1.
Proof.
  intros Hh. pose proof (life_running s claim Hh) as (Hc & Hd & Ht).
  pose proof Hh as Hcur%holds_current. unfold complete_reflect_job.
  destruct (_ && match _ with Some _ => _ | None => _ end)%bool eqn:E.
  { exfalso. apply andb_true_iff in E as [_ E]. unfold job_meta in Hd.
    destruct (st_job_meta s !! _); [|done]. cbn in Hd. rewrite Hd in E. done. }
  rewrite Hcur. cbn [negb fst snd]. split; [done|]. apply only_job_set; [done|].
  intros meta _ _ _. unfold job_life. rewrite job_meta_set, bool_decide_true by done.
  by destruct meta.
Qed.

Lemma release_life s claim :
  holds s claim → only_job (qj_id (jr_job claim)) JobEvent.Released s (release_reflect_job claim s).
Proof.
  intros Hh. pose proof Hh as Hcur%holds_current. unfold release_reflect_job. rewrite Hcur.
  apply only_job_set; [done|]. intros meta _ Hd Ht. unfold job_life.
  rewrite job_meta_set, bool_decide_true by done. cbn. by rewrite Hd, Ht.
Qed.

Lemma fail_life s claim :
  holds s claim → only_job (qj_id (jr_job claim)) JobEvent.Failed s (fail_reflect_job claim s).
Proof.
  intros Hh. pose proof Hh as Hcur%holds_current. unfold fail_reflect_job. rewrite Hcur.
  apply only_job_set; [done|]. intros meta _ Hd _. unfold job_life.
  rewrite job_meta_set, bool_decide_true by done. cbn. by rewrite Hd.
Qed.

Lemma requeue_life s claim version :
  holds s claim → trim_is_empty version = false →
  let after := requeue_reflect_job_with_compiler claim version s in
  after.2 = Ok ClaimMutationOutcome.Applied ∧
  ((∃ other, replaced_by s (jr_job claim) version other) ∧
     only_job (qj_id (jr_job claim)) JobEvent.Retired s after.1 ∨
   (¬ ∃ other, replaced_by s (jr_job claim) version other) ∧
     only_job (qj_id (jr_job claim)) JobEvent.Requeued s after.1).
Proof.
  intros Hh Hv. pose proof Hh as Hcur%holds_current.
  unfold requeue_reflect_job_with_compiler. rewrite Hv, Hcur. cbn [negb].
  destruct (position (λ j, _ =? _) _) as [i|] eqn:Ei.
  2: { exfalso. destruct Hh as [Hin _]. pose proof (position_is_Some (λ j, qj_id j =? qj_id (jr_job claim))
         (rows (st_reflect_jobs s) (qj_tenant_id (jr_job claim)))) as [_ Hp].
       rewrite Ei in Hp. destruct Hp as [? ?]; [|done]. exists (jr_job claim). by rewrite N.eqb_refl. }
  pose proof (position_is_Some (same_source (jr_job claim) version)
    (rows (st_reflect_jobs s) (qj_tenant_id (jr_job claim)))) as Hp.
  cbn [fst snd]. split; [done|].
  destruct (position (same_source _ _) _) as [k|]; [left|right].
  - destruct Hp as [(other & Hin & Hs) _]; [by eexists|]. split.
    { exists other. by apply (same_source_replaced s). }
    apply (only_job_set s claim retire_meta JobEvent.Retired Hh). intros meta _ Hd _. unfold job_life.
    rewrite job_meta_set, bool_decide_true by done. cbn. by rewrite Hd.
  - split.
    { intros (other & Hr). destruct Hp as [_ []]; [|done]. exists other. destruct Hr as [Hin Hr].
      split; [done|]. by apply (same_source_replaced s). }
    apply (only_job_set s claim requeue_meta JobEvent.Requeued Hh). intros meta _ _ _. unfold job_life.
    by rewrite job_meta_set, bool_decide_true by done.
Qed.

Lemma requeue_blank s claim version :
  trim_is_empty version = true → (requeue_reflect_job_with_compiler claim version s).1 = s.
Proof. intros Hv. unfold requeue_reflect_job_with_compiler. by rewrite Hv. Qed.

Lemma not_holding_inert s claim version :
  ¬ holds s claim →
  (complete_reflect_job claim s).1 = s ∧ release_reflect_job claim s = s ∧
  fail_reflect_job claim s = s ∧ (requeue_reflect_job_with_compiler claim version s).1 = s.
Proof.
  rewrite holds_current, not_true_iff_false. intros Hc.
  unfold complete_reflect_job, release_reflect_job, fail_reflect_job, requeue_reflect_job_with_compiler.
  rewrite Hc. cbn [negb]. split_and!; try done; [by destruct (_ && _)%bool|by destruct (trim_is_empty _)].
Qed.

Lemma claim_all_jobs_rows jobs s : map jr_job (claim_all jobs s).2 = jobs.
Proof.
  revert s. induction jobs as [|job jobs IH]; intros s; [done|]. cbn.
  specialize (IH (set_meta (qj_id job) claim_meta s)).
  destruct (claim_all jobs _) as [s' claims]. cbn in *. by rewrite IH.
Qed.

Lemma only_job_moves id event s s' j :
  only_job id event s s' → rtc job_moves (job_life s j) (job_life s' j).
Proof.
  intros Ho. specialize (Ho j). case_bool_decide; [|by rewrite Ho]. apply rtc_once. by exists event.
Qed.

(** A job a worker may take: it waits, a context binds it, and nothing of its
    lane runs. *)
Definition available (s : InMemoryState) (job : QueuedReflectJob) : Prop :=
  job ∈ all_jobs s ∧ jl_phase (job_life s (qj_id job)) = JobPhase.Waiting ∧
  (∃ key request binding, st_context_bindings s !! key = Some (request, binding) ∧
    bs_subject_id binding = qj_data_subject_id job ∧ bs_actor_id binding = qj_actor_id job ∧
    bs_scope_id binding = qj_scope_id job ∧ bs_agent_node_id binding = qj_agent_node_id job ∧
    bs_subject_generation binding = qj_subject_generation job) ∧
  ∀ other, other ∈ all_jobs s → lane other = lane job →
    jl_phase (job_life s (qj_id other)) ≠ JobPhase.Running.

Lemma claimable_waiting s id :
  claimable (job_meta s id) = true ↔ jl_phase (job_life s id) = JobPhase.Waiting.
Proof.
  rewrite claimable_true. unfold job_life, JOB_DEAD_LETTER_ATTEMPTS.
  destruct (job_meta s id) as [a g [] [] []]; cbn;
    (destruct (5 <=? a) eqn:E; [apply N.leb_le in E|apply N.leb_gt in E]);
    (split; [intros (? & ? & ? & ?)|intros ?]); done || lia.
Qed.

Lemma bound_iff s job :
  job_is_bound s job = true ↔
  ∃ key request binding, st_context_bindings s !! key = Some (request, binding) ∧
    bs_subject_id binding = qj_data_subject_id job ∧ bs_actor_id binding = qj_actor_id job ∧
    bs_scope_id binding = qj_scope_id job ∧ bs_agent_node_id binding = qj_agent_node_id job ∧
    bs_subject_generation binding = qj_subject_generation job.
Proof.
  unfold job_is_bound. rewrite any_true. setoid_rewrite andb_true_iff. split.
  - intros ([key [request binding]] & Hin%elem_of_map_iter & Hb). exists key, request, binding.
    split; [done|]. cbn in Hb. rewrite !andb_true_iff, !N.eqb_eq in Hb. tauto.
  - intros (key & request & binding & Hin%elem_of_map_iter & Hb). eexists. split; [exact Hin|].
    cbn. rewrite !andb_true_iff, !N.eqb_eq. tauto.
Qed.

Lemma free_iff s job :
  (∀ j, meta_wf (job_meta s j)) →
  lane_is_free s job = true ↔
  ∀ other, other ∈ all_jobs s → lane other = lane job →
    jl_phase (job_life s (qj_id other)) ≠ JobPhase.Running.
Proof.
  intros Hwf. unfold lane_is_free. rewrite negb_true_iff, any_false.
  apply forall_proper. intros other. apply imp_iff_compat_l.
  rewrite andb_false_iff, bool_decide_eq_false. pose proof (Hwf (qj_id other)) as [_ Hc _ _].
  unfold job_life. unfold job_meta in *.
  destruct (st_job_meta s !! qj_id other) as [[a g [] [] []]|]; cbn in *;
    (split; [intros [?|?] ?|intros Hn]);
    first [done | by destruct (5 <=? a) | by right | idtac].
  - destruct Hc as (_ & _ & ?); done.
  - destruct (decide (lane other = lane job)); [by destruct (Hn ltac:(done))|by left].
Qed.

Lemma candidates_available s filter limit job :
  (∀ j, meta_wf (job_meta s j)) → job ∈ candidates s filter limit → available s job.
Proof.
  intros Hwf Hin. split_and!.
  - eapply elem_of_submseteq; [exact Hin|]. apply sublist_submseteq, candidates_sublist.
  - apply candidates_claimable in Hin as [Hcl _]. by apply claimable_waiting.
  - apply bound_iff. unfold candidates in Hin. apply elem_of_take in Hin as (i & Hi & _).
    apply list_elem_of_lookup_2, elem_of_retain in Hi as [_ Hp]. bool_prop. done.
  - apply free_iff; [done|]. apply candidates_claimable in Hin. apply Hin.
Qed.

Lemma available_candidate s limit job :
  (∀ j, meta_wf (job_meta s j)) → available s job → (length (all_jobs s) ≤ limit)%nat →
  job ∈ candidates s (mkJobFilter None None) limit.
Proof.
  intros Hwf (Hin & Hw%claimable_waiting & Hb%bound_iff & Hf%(free_iff s job Hwf)) Hlimit.
  unfold candidates. rewrite take_ge.
  - apply elem_of_retain. cbn. rewrite Hb, Hw, Hf. split; [|done].
    rewrite retain_all by done. exact Hin.
  - etrans; [apply length_retain_le|]. by rewrite retain_all.
Qed.

Lemma claims_life s filter limit j :
  unique_jobs s →
  let '(s', claims) := claim_reflect_jobs filter limit s in
  (∃ row, row ∈ claims ∧ qj_id (jr_job row) = j ∧
     job_after JobEvent.Claimed (job_life s j) = Some (job_life s' j) ∧
     job_life s' j = mkJobLife JobPhase.Running (jr_attempts row) (jr_claim_generation row)) ∨
  (j ∉ map (λ row, qj_id (jr_job row)) claims ∧ job_life s' j = job_life s j).
Proof.
  intros Hu. destruct (claim_reflect_jobs filter limit s) as [s' claims] eqn:Ec.
  pose proof (candidates_NoDup s filter limit Hu) as Hnd.
  pose proof (claim_all_meta (candidates s filter limit) s j Hnd) as Hmeta.
  pose proof (claim_all_jobs_rows (candidates s filter limit) s) as Hrows.
  unfold claim_reflect_jobs in Ec. rewrite Ec in Hmeta, Hrows. cbn [fst snd] in Hmeta, Hrows.
  case_bool_decide as Hj; [left|right].
  - rewrite <-Hrows, map_map in Hj. apply list_elem_of_fmap in Hj as (row & -> & Hrow).
    exists row. split; [done|]. split; [done|].
    assert (row ∈ (claim_all (candidates s filter limit) s).2) as Hrow' by (by rewrite Ec).
    destruct (claim_all_rows _ _ _ Hnd Hrow') as (Hin & Ha & Hg).
    apply candidates_claimable in Hin as [Hcl _]. pose proof (claim_attempts _ Hcl) as Hat.
    pose proof Hcl as Hw%claimable_waiting. apply claimable_true in Hcl as (Hd & Ht & Hc & Hlt).
    unfold job_life in *. rewrite Hmeta, Ha, Hg. cbn [jl_phase] in Hw. rewrite Hw.
    cbn in Hat |- *. rewrite Hd, Ht, Hat. done.
  - rewrite <-Hrows, map_map in Hj. split; [done|]. unfold job_life. by rewrite Hmeta.
Qed.

Lemma queue_step_life s s' j :
  unique_jobs s → queue_step s s' → rtc job_moves (job_life s j) (job_life s' j).
Proof.
  intros Hu Hstep.
  assert (∀ claim, holds s claim ∨ ¬ holds s claim) as Hdec.
  { intros claim. rewrite holds_current. by destruct (claim_is_current s claim); [left|right]. }
  destruct Hstep as [filter limit|claim|claim v|claim|claim];
    try destruct (Hdec claim) as [Hh|Hn].
  - pose proof (claims_life s filter limit j Hu) as Hl.
    destruct (claim_reflect_jobs filter limit s) as [s' claims]. cbn [fst].
    destruct Hl as [(row & _ & _ & Ha & _)|[_ ->]]; [|done]. apply rtc_once. by eexists.
  - by eapply only_job_moves, complete_life.
  - by destruct (not_holding_inert s claim "" Hn) as (-> & _).
  - destruct (trim_is_empty v) eqn:Ev; [by rewrite requeue_blank|].
    destruct (requeue_life s claim v Hh Ev) as [_ [[_ Ho]|[_ Ho]]]; by eapply only_job_moves.
  - by destruct (not_holding_inert s claim v Hn) as (_ & _ & _ & ->).
  - by eapply only_job_moves, release_life.
  - by destruct (not_holding_inert s claim "" Hn) as (_ & -> & _).
  - by eapply only_job_moves, fail_life.
  - by destruct (not_holding_inert s claim "" Hn) as (_ & _ & -> & _).
Qed.

Lemma queue_steps_life s s' :
  unique_jobs s → rtc queue_step s s' → ∀ j, rtc job_moves (job_life s j) (job_life s' j).
Proof.
  intros Hu Hr j. induction Hr as [|s1 s2 s3 Hs _ IH]; [done|]. etrans.
  - by apply queue_step_life.
  - apply IH. by eapply queue_step_unique.
Qed.

(** C39: the queue lives its jobs' lives.  From a well-kept queue, in every state its
    operations reach: each job has moved only by events of the life above, and
    the ids stay unique; a call that claims hands out waiting jobs that a
    context binds and whose lane is idle, each once and under its new token,
    and no other job moves; an unrestricted call misses none; the operations of
    a worker that holds the claim of a job take that job, and no other, through
    their event - a requeue retires it exactly when another job of its source
    has the new compiler; and for a worker that does not hold it they change
    nothing. *)
Theorem queue_lives_its_jobs s0 s :
  unique_jobs s0 → (∀ j, meta_wf (job_meta s0 j)) → rtc queue_step s0 s →
  unique_jobs s ∧ (∀ j, rtc job_moves (job_life s0 j) (job_life s j)) ∧
  (∀ filter limit, let '(s', claims) := claim_reflect_jobs filter limit s in
    NoDup (map (λ row, qj_id (jr_job row)) claims) ∧
    ∀ j, (∃ row, row ∈ claims ∧ qj_id (jr_job row) = j ∧ available s (jr_job row) ∧
            job_after JobEvent.Claimed (job_life s j) = Some (job_life s' j) ∧
            job_life s' j = mkJobLife JobPhase.Running (jr_attempts row) (jr_claim_generation row)) ∨
         (j ∉ map (λ row, qj_id (jr_job row)) claims ∧ job_life s' j = job_life s j)) ∧
  (∀ job limit, available s job → (length (all_jobs s) ≤ limit)%nat →
    job ∈ map jr_job (claim_reflect_jobs (mkJobFilter None None) limit s).2) ∧
  (∀ claim version, let id := qj_id (jr_job claim) in
    let requeued := requeue_reflect_job_with_compiler claim version s in
    (holds s claim →
      ((complete_reflect_job claim s).2 = ClaimMutationOutcome.Applied ∧
       only_job id JobEvent.Completed s (complete_reflect_job claim s).1) ∧
      only_job id JobEvent.Released s (release_reflect_job claim s) ∧
      only_job id JobEvent.Failed s (fail_reflect_job claim s) ∧
      (trim_is_empty version = false →
        requeued.2 = Ok ClaimMutationOutcome.Applied ∧
        ((∃ other, replaced_by s (jr_job claim) version other) ∧
           only_job id JobEvent.Retired s requeued.1 ∨
         (¬ ∃ other, replaced_by s (jr_job claim) version other) ∧
           only_job id JobEvent.Requeued s requeued.1))) ∧
    (¬ holds s claim →
      (complete_reflect_job claim s).1 = s ∧ release_reflect_job claim s = s ∧
      fail_reflect_job claim s = s ∧ requeued.1 = s)).
Proof.
  intros Hu0 Hwf0 Hr. pose proof (queue_steps_unique _ _ Hr Hu0) as Hu.
  assert (∀ j, meta_wf (job_meta s j)) as Hwf.
  { intros j. apply (meta_steps_wf _ _ (queue_steps_meta s0 s j Hu0 Hr)), Hwf0. }
  split_and!; [done|by apply queue_steps_life| | |].
  - intros filter limit. pose proof (λ j, claims_life s filter limit j Hu) as Hl.
    pose proof (claim_all_jobs_rows (candidates s filter limit) s) as Hrows.
    destruct (claim_reflect_jobs filter limit s) as [s' claims] eqn:Ec.
    unfold claim_reflect_jobs in Ec. rewrite Ec in Hrows. cbn [snd] in Hrows. split.
    { rewrite <-map_map, Hrows. by apply candidates_NoDup. }
    intros j. destruct (Hl j) as [(row & Hrow & Hid & Hlife)|?]; [left|by right].
    exists row. split_and!; try done; [|apply Hlife..].
    eapply candidates_available; [done|]. rewrite <-Hrows. apply list_elem_of_fmap. by exists row.
  - intros job limit Hav Hlimit. unfold claim_reflect_jobs. rewrite claim_all_jobs_rows.
    by apply available_candidate.
  - intros claim version. split; [|by apply not_holding_inert].
    intros Hh. split_and!; [by apply complete_life..|by apply release_life|by apply fail_life|].
    by apply requeue_life.
Qed.

(** no job is ever claimed beyond the dead-letter bound: in every state the
    queue reaches from well-formed bookkeeping, attempts are at most five, a
    claimed job is neither completed nor dead, and a job with five attempts or
    a terminal failure is not handed out again. *)
Theorem attempts_bounded s s' j filter limit :
  unique_jobs s → (∀ j, meta_wf (job_meta s j)) → rtc queue_step s s' →
  meta_wf (job_meta s' j) ∧
  ∀ row, row ∈ (claim_reflect_jobs filter limit s').2 →
    1 ≤ jr_attempts row ≤ JOB_DEAD_LETTER_ATTEMPTS ∧
    jm_terminal (job_meta s' (qj_id (jr_job row))) = false ∧
    jm_completed (job_meta s' (qj_id (jr_job row))) = false.
Proof.
  intros Hu Hwf Hr. split.
  { eapply meta_steps_wf; [by apply queue_steps_meta | done]. }
  intros row Hrow. pose proof (queue_steps_unique _ _ Hr Hu) as Hu'.
  apply claim_all_rows in Hrow as (Hin & Ha & _); [|by apply candidates_NoDup].
  apply candidates_claimable in Hin as [Hcl _].
  rewrite Ha, claim_attempts by done. apply claimable_true in Hcl as (? & ? & _ & ?).
  split_and!; try done; unfold JOB_DEAD_LETTER_ATTEMPTS in *; lia.
Qed.

(** The claims a call hands out are current, with the token of their job. *)
Lemma issued_token s filter limit row :
  unique_jobs s → row ∈ (claim_reflect_jobs filter limit s).2 →
  let s' := (claim_reflect_jobs filter limit s).1 in
  token (job_meta s' (qj_id (jr_job row))) = (jr_claim_generation row, jr_attempts row) ∧
  token_lt (token (job_meta s (qj_id (jr_job row)))) (jr_claim_generation row, jr_attempts row).
Proof.
  intros Hu Hrow. unfold claim_reflect_jobs in *. pose proof (candidates_NoDup s filter limit Hu) as Hnd.
  pose proof (claim_all_rows _ _ _ Hnd Hrow) as (Hin & Ha & Hg).
  apply candidates_claimable in Hin as Hcl. destruct Hcl as [Hcl _].
  rewrite claim_all_meta by done.
  rewrite bool_decide_true by (apply list_elem_of_fmap; eauto).
  unfold token. rewrite Ha, Hg. split; [done|].
  right. simpl fst. split; [done|]. rewrite claim_attempts by done. simpl. lia.
Qed.

Lemma token_le_lt_trans a b c : token_le a b → token_lt b c → token_lt a c.
Proof.
  destruct a as [a1 a2], b as [b1 b2], c as [c1 c2]. unfold token_le, token_lt. simpl.
  intros [[= -> ->]|[?|[-> ?]]] [?|[-> ?]]; first [left; lia | right; lia].
Qed.

Lemma token_lt_le_trans a b c : token_lt a b → token_le b c → token_lt a c.
Proof.
  destruct a as [a1 a2], b as [b1 b2], c as [c1 c2]. unfold token_le, token_lt. simpl.
  intros [?|[-> ?]] [[= -> ->]|[?|[-> ?]]]; first [left; lia | right; lia].
Qed.

Lemma token_lt_irrefl a : ¬ token_lt a a.
Proof. unfold token_lt. lia. Qed.

(** A claim whose token is not the job's acts on nothing. *)
Lemma stale_inert s claim :
  token (job_meta s (qj_id (jr_job claim))) ≠ (jr_claim_generation claim, jr_attempts claim) →
  claim_is_current s claim = false ∧
  complete_reflect_job claim s = (s, ClaimMutationOutcome.Stale) ∧
  release_reflect_job claim s = s ∧ fail_reflect_job claim s = s.
Proof.
  intros Hneq. assert (claim_is_current s claim = false) as Hc.
  { apply not_true_iff_false. intros (_ & _ & Ht)%claim_is_current_inv. done. }
  unfold complete_reflect_job, release_reflect_job, fail_reflect_job. rewrite Hc.
  split_and!; try done. destruct (_ && _)%bool eqn:E; [|done]. exfalso. apply Hneq.
  unfold job_meta, token. apply andb_true_iff in E as [_ E].
  destruct (st_job_meta s !! _) as [meta|]; [|done]. bool_prop. simpl. congruence.
Qed.

(** C20: a fencing token never comes back.  Once a job has been handed out again,
    the earlier claim is not current any more, in any later state, and
    completing, releasing or failing it changes nothing. *)
Theorem stale_claim_is_inert s1 f1 l1 old s2 f2 l2 new s3 :
  unique_jobs s1 → (∀ j, meta_wf (job_meta s1 j)) →
  old ∈ (claim_reflect_jobs f1 l1 s1).2 →
  rtc queue_step (claim_reflect_jobs f1 l1 s1).1 s2 →
  new ∈ (claim_reflect_jobs f2 l2 s2).2 →
  qj_id (jr_job new) = qj_id (jr_job old) →
  rtc queue_step (claim_reflect_jobs f2 l2 s2).1 s3 →
  jm_claim_generation (job_meta s3 (qj_id (jr_job old))) < u64_max →
  claim_is_current s3 old = false ∧
  complete_reflect_job old s3 = (s3, ClaimMutationOutcome.Stale) ∧
  release_reflect_job old s3 = s3 ∧ fail_reflect_job old s3 = s3.
Proof.
  intros Hu Hwf Hold H12 Hnew Hid H23 Hgen. set (j := qj_id (jr_job old)) in *.
  destruct (issued_token _ _ _ _ Hu Hold) as [Htok _]. fold j in Htok.
  pose proof (queue_step_unique _ _ (qs_claim s1 f1 l1) Hu) as Hu1.
  pose proof (queue_steps_unique _ _ H12 Hu1) as Hu2.
  pose proof (queue_step_unique _ _ (qs_claim s2 f2 l2) Hu2) as Hu2'.
  destruct (issued_token _ _ _ _ Hu2 Hnew) as [Htok' Hlt]. rewrite Hid in Htok', Hlt.
  fold j in Htok', Hlt.
  pose proof (queue_step_meta _ _ j Hu (qs_claim s1 f1 l1)) as Hm1.
  pose proof (meta_steps_wf _ _ Hm1 (Hwf j)) as Hwf1.
  pose proof (queue_steps_meta _ _ j Hu1 H12) as Hm12.
  pose proof (meta_steps_wf _ _ Hm12 Hwf1) as Hwf2.
  pose proof (queue_step_meta _ _ j Hu2 (qs_claim s2 f2 l2)) as Hm2.
  pose proof (meta_steps_wf _ _ Hm2 Hwf2) as Hwf2'.
  pose proof (queue_steps_meta _ _ j Hu2' H23) as Hm23.
  pose proof (meta_steps_generation _ _ Hm23 (mw_generation _ Hwf2')) as Hg23.
  pose proof (meta_steps_token _ _ Hm23 (mw_generation _ Hwf2') Hgen) as Hle23.
  assert (jm_claim_generation (job_meta s2 j) < u64_max) as Hg2.
  { pose proof (meta_steps_generation _ _ Hm2 (mw_generation _ Hwf2)). lia. }
  pose proof (meta_steps_token _ _ Hm12 (mw_generation _ Hwf1) Hg2) as Hle12.
  rewrite Htok in Hle12. rewrite Htok' in Hle23.
  assert (token (job_meta s3 j) ≠ (jr_claim_generation old, jr_attempts old)) as Hneq.
  { intros Heq. rewrite Heq in Hle23. by eapply token_lt_irrefl, token_lt_le_trans, Hle23;
      eapply token_le_lt_trans. }
  by apply stale_inert.
Qed.

(** ** Lanes *)

(** A job a worker is on. *)
Definition is_running (s : InMemoryState) (id : JobId) : bool :=
  match st_job_meta s !! id with
  | Some meta => jm_claimed meta && negb (jm_completed meta)
  | None => false
  end.

Definition lanes_exclusive (s : InMemoryState) : Prop :=
  ∀ a b, a ∈ all_jobs s → b ∈ all_jobs s → lane a = lane b →
    is_running s (qj_id a) = true → is_running s (qj_id b) = true → a = b.

Lemma unique_job s a b :
  unique_jobs s → a ∈ all_jobs s → b ∈ all_jobs s → qj_id a = qj_id b → a = b.
Proof.
  intros Hu Ha Hb Hid. apply list_elem_of_lookup in Ha as [i Hi], Hb as [k Hk].
  assert (i = k) as <-; [|congruence].
  apply (NoDup_lookup (map qj_id (all_jobs s)) i k (qj_id a) Hu).
  - change (map qj_id (all_jobs s)) with (qj_id <$> all_jobs s).
    by rewrite list_lookup_fmap, Hi.
  - change (map qj_id (all_jobs s)) with (qj_id <$> all_jobs s).
    by rewrite list_lookup_fmap, Hk, Hid.
Qed.

(** claiming one job at a time keeps lanes exclusive: a job is handed out
    only when no other job of its lane is running. *)
Theorem single_claims_keep_lanes s filter :
  unique_jobs s → lanes_exclusive s → lanes_exclusive (claim_reflect_jobs filter 1 s).1.
Proof.
  intros Hu Hex. unfold claim_reflect_jobs.
  destruct (candidates s filter 1) as [|job [|job' rest]] eqn:Ec; [done| |].
  2: { assert (length (candidates s filter 1) ≤ 1)%nat as Hlen
         by (unfold candidates; rewrite length_take; lia). rewrite Ec in Hlen. simpl in Hlen. lia. }
  assert (job ∈ candidates s filter 1) as Hin by (rewrite Ec; set_solver).
  pose proof (candidates_claimable _ _ _ _ Hin) as [_ Hfree].
  assert (job ∈ all_jobs s) as Hjob
    by (eapply elem_of_submseteq; [exact Hin|]; apply sublist_submseteq, candidates_sublist).
  simpl. intros a b Ha Hb Hlane Hra Hrb. change (a ∈ all_jobs s) in Ha.
  change (b ∈ all_jobs s) in Hb. unfold is_running in Hra, Hrb. simpl in Hra, Hrb.
  assert (∀ x y, x ∈ all_jobs s → y ∈ all_jobs s → lane x = lane y → qj_id job = qj_id x →
    qj_id job ≠ qj_id y → is_running s (qj_id y) = true → False) as Hno.
  { intros x y Hx Hy Hl Hidx Hidy Hry.
    rewrite <-(unique_job s job x Hu Hjob Hx Hidx) in Hl.
    unfold lane_is_free in Hfree. apply negb_true_iff in Hfree. rewrite any_false in Hfree.
    specialize (Hfree y Hy). rewrite bool_decide_true in Hfree by done.
    unfold is_running in Hry. simpl in Hfree. congruence. }
  destruct (decide (qj_id job = qj_id a)) as [Ea|Ea], (decide (qj_id job = qj_id b)) as [Eb|Eb].
  - apply (unique_job s); congruence.
  - rewrite lookup_insert_ne in Hrb by done. by destruct (Hno a b).
  - rewrite lookup_insert_ne in Hra by done. by destruct (Hno b a).
  - rewrite lookup_insert_ne in Hra, Hrb by done. by apply Hex.
Qed.

End jobs.
