(* ===== verification/Binding.v ===== *)
(** * Binding: registering and resolving memory contexts

    A client registers a subject, actor, scope and agent node by external
    references ([resolve_context_binding]); later requests resolve the minted
    identifiers to a [ResolvedMemoryContext], the authority every other
    operation checks ([resolve_memory_context]).  From
    [crates/memphant-core/src/lib.rs]; JSON rendering is an interface. *)

From S2P Require Import Prelude Types Clock Bitemporal Lineage Store.

(** What [serde_json] renders for access policies. *)
Class PolicyJson := {
  policy_json : ContextBindingAccessPolicy.t → string;
  policies_json : list ContextBindingAccessPolicy.t → string;
}.

Section binding.
Context `{HashOrder} `{PolicyJson} `{Sha256}.

Notation Binding := (ContextBindingRequest * ContextBindingResponse)%type.

Definition canonicalize_access_policies (policies : list ContextBindingAccessPolicy.t)
    : list ContextBindingAccessPolicy.t :=
  sort_by (λ p q, negb match str_cmp (policy_json p) (policy_json q) with Gt => true | _ => false end)
    policies.

Definition context_policy_revision (policies : list ContextBindingAccessPolicy.t) : string :=
  sha256_hex (policies_json (canonicalize_access_policies policies)).

(** The bindings of a tenant, in hash order. *)
Definition tenant_bindings (s : InMemoryState) (tenant : TenantId) : list Binding :=
  map snd (retain (λ kv, kv.1.1 =? tenant) (map_iter (st_context_bindings s))).

Definition same_subject (subject_external_ref : string) (b : Binding) : bool :=
  bool_decide (er_external_ref (br_subject b.1) = subject_external_ref).
Definition same_scope (scope_external_ref : string) (b : Binding) : bool :=
  bool_decide (sr_external_ref (br_scope b.1) = scope_external_ref).
Definition same_agent (agent_external_ref : string) (b : Binding) : bool :=
  bool_decide (ar_external_ref (br_agent_node b.1) = agent_external_ref).
Definition same_actor (actor_external_ref : string) (b : Binding) : bool :=
  bool_decide (er_external_ref (br_actor b.1) = actor_external_ref).

Definition in_memory_binding_by_external_pair (s : InMemoryState) (tenant : TenantId)
    (subject_external_ref scope_external_ref agent_external_ref : string) : option Binding :=
  find (λ b, same_subject subject_external_ref b && same_scope scope_external_ref b &&
             same_agent agent_external_ref b) (tenant_bindings s tenant).

(** ** Ancestry

    One turn of the loop looks up the parent of a scope; [None] says the fuel
    ran out. *)
Definition scope_parent (s : InMemoryState) (tenant : TenantId)
    (subject_external_ref scope_external_ref : string) : option string :=
  match find (λ b, same_subject subject_external_ref b && same_scope scope_external_ref b)
          (tenant_bindings s tenant) with
  | Some b => sr_parent_external_ref (br_scope b.1)
  | None => None
  end.

Fixpoint ancestor_walk (fuel : nat) (s : InMemoryState) (tenant : TenantId)
    (subject_external_ref ancestor_external_ref : string) (parent : option string)
    : option bool :=
  match fuel with
  | 0%nat => None
  | S fuel =>
      match parent with
      | None => Some false
      | Some parent_ref =>
          if bool_decide (parent_ref = ancestor_external_ref) then Some true
          else ancestor_walk fuel s tenant subject_external_ref ancestor_external_ref
                 (scope_parent s tenant subject_external_ref parent_ref)
      end
  end.

(** The number of bindings bounds the walk; see [ancestor_walk_terminates]. *)
Definition ancestor_fuel (s : InMemoryState) : nat := (2 + size (st_context_bindings s))%nat.

Definition in_memory_scope_is_strict_ancestor (s : InMemoryState) (tenant : TenantId)
    (subject_external_ref ancestor_external_ref : string) (request : ContextBindingRequest)
    : bool :=
  default false (ancestor_walk (ancestor_fuel s) s tenant subject_external_ref
    ancestor_external_ref (sr_parent_external_ref (br_scope request))).

(** ** Access policies *)

Definition policy_key (p : ContextBindingAccessPolicy.t) : string * string * MemoryKind.t :=
  (ContextBindingAccessPolicy.source_scope_external_ref p,
   ContextBindingAccessPolicy.source_agent_node_external_ref p,
   ContextBindingAccessPolicy.kind p).

Definition inheritable (kind : MemoryKind.t) : bool :=
  match kind with
  | MemoryKind.Episodic | MemoryKind.Semantic | MemoryKind.Belief => true
  | _ => false
  end.

Definition validate_policy (s : InMemoryState) (tenant : TenantId)
    (request : ContextBindingRequest) (agent_level : N) (policy : ContextBindingAccessPolicy.t)
    : result StoreError.t () :=
  let kind := ContextBindingAccessPolicy.kind policy in
  let subject := er_external_ref (br_subject request) in
  let source_scope := ContextBindingAccessPolicy.source_scope_external_ref policy in
  let source_agent := ContextBindingAccessPolicy.source_agent_node_external_ref policy in
  if negb (agent_level_allows_memory_kind agent_level kind)
  then Err (StoreError.Conflict "memory kind is not allowed for the grantee agent level")
  else
    _ <-? ok_or (in_memory_binding_by_external_pair s tenant subject source_scope source_agent)
            (StoreError.NotFound "access policy source context");
    let source_is_grantee :=
      bool_decide (source_scope = sr_external_ref (br_scope request)) &&
      bool_decide (source_agent = ar_external_ref (br_agent_node request)) in
    match policy with
    | ContextBindingAccessPolicy.Inherit _ _ _ =>
        if negb (agent_level =? 0) || negb (inheritable kind) ||
           negb (in_memory_scope_is_strict_ancestor s tenant subject source_scope request)
        then Err (StoreError.Conflict
          "inherit source must be a strict same-subject ancestor root-memory context")
        else Ok ()
    | ContextBindingAccessPolicy.Grant _ _ _ =>
        if source_is_grantee
        then Err (StoreError.Conflict "grant source must differ from the grantee context")
        else Ok ()
    end.

Fixpoint validate_policies (s : InMemoryState) (tenant : TenantId)
    (request : ContextBindingRequest) (agent_level : N)
    (seen : list (string * string * MemoryKind.t))
    (policies : list ContextBindingAccessPolicy.t) : result StoreError.t () :=
  match policies with
  | [] => Ok ()
  | policy :: policies =>
      if bool_decide (policy_key policy ∈ seen)
      then Err (StoreError.Conflict "duplicate access policy")
      else
        _ <-? validate_policy s tenant request agent_level policy;
        validate_policies s tenant request agent_level (policy_key policy :: seen) policies
  end.

Definition validate_in_memory_access_policies (s : InMemoryState) (tenant : TenantId)
    (request : ContextBindingRequest) (agent_level : N) : result StoreError.t () :=
  validate_policies s tenant request agent_level [] (br_access_policies request).

(** ** Registering *)

(** A request without its policies: what a client_ref is bound to for good. *)
Definition identity (request : ContextBindingRequest) : ContextBindingRequest :=
  request <| br_access_policies := [] |>.

(** What two bindings of one subject must agree on. *)
Definition check_immutable (request : ContextBindingRequest) (b : Binding)
    : result StoreError.t () :=
  let bound := b.1 in
  let subject := same_subject (er_external_ref (br_subject request)) b in
  if subject && negb (bool_decide (er_kind (br_subject bound) = er_kind (br_subject request)))
  then Err (StoreError.Conflict "subject kind is immutable")
  else if subject && same_actor (er_external_ref (br_actor request)) b &&
     negb (bool_decide (er_kind (br_actor bound) = er_kind (br_actor request)))
  then Err (StoreError.Conflict "actor kind is immutable")
  else if subject && same_scope (sr_external_ref (br_scope request)) b &&
     (negb (bool_decide (sr_kind (br_scope bound) = sr_kind (br_scope request))) ||
      negb (bool_decide (sr_parent_external_ref (br_scope bound) =
                         sr_parent_external_ref (br_scope request))))
  then Err (StoreError.Conflict "scope kind or parent is immutable")
  else if subject && same_agent (ar_external_ref (br_agent_node request)) b &&
     (negb (bool_decide (ar_parent_external_ref (br_agent_node bound) =
                         ar_parent_external_ref (br_agent_node request))) ||
      negb (bool_decide (sr_external_ref (br_scope bound) = sr_external_ref (br_scope request))))
  then Err (StoreError.Conflict "agent node parent or scope is immutable")
  else Ok ().

Fixpoint check_bindings (request : ContextBindingRequest) (l : list Binding)
    : result StoreError.t () :=
  match l with
  | [] => Ok ()
  | b :: l => _ <-? check_immutable request b; check_bindings request l
  end.

Definition new_agent_level (s : InMemoryState) (tenant : TenantId)
    (request : ContextBindingRequest) : result StoreError.t N :=
  match ar_parent_external_ref (br_agent_node request) with
  | None => Ok 0
  | Some parent_ref =>
      parent <-? ok_or (find (λ b, same_subject (er_external_ref (br_subject request)) b &&
                                   same_agent parent_ref b) (tenant_bindings s tenant))
                   (StoreError.NotFound "parent agent node");
      Ok (saturating_add u8_max (bs_agent_level parent.2) 1)
  end.

(** Fresh identifiers for a registration: subject, actor, scope, agent node. *)
Record FreshIds : Set := mkFreshIds {
  new_subject_id : SubjectId;
  new_actor_id : ActorId;
  new_scope_id : ScopeId;
  new_agent_node_id : AgentNodeId;
}.

Definition register_binding (s : InMemoryState) (tenant : TenantId) (client_ref : string)
    (fresh : FreshIds) (request : ContextBindingRequest)
    : result StoreError.t (ContextBindingResponse * InMemoryState) :=
  let subject := er_external_ref (br_subject request) in
  let bound := tenant_bindings s tenant in
  if any (λ b, bool_decide (identity b.1 = identity request)) bound
  then Err (StoreError.Conflict "context identity is already registered under another client_ref")
  else if any (λ b, same_subject subject b &&
                    same_agent (ar_external_ref (br_agent_node request)) b) bound
  then Err (StoreError.Conflict "agent node is already registered under another client_ref")
  else
    _ <-? check_bindings request bound;
    agent_level <-? new_agent_level s tenant request;
    if match sr_parent_external_ref (br_scope request) with
       | Some parent_ref => negb (any (λ b, same_subject subject b && same_scope parent_ref b) bound)
       | None => false
       end
    then Err (StoreError.NotFound "parent scope")
    else
      _ <-? validate_in_memory_access_policies s tenant request agent_level;
      let existing_subject := find (same_subject subject) bound in
      let existing_actor :=
        find (λ b, same_subject subject b &&
                   same_actor (er_external_ref (br_actor request)) b) bound in
      let existing_scope :=
        find (λ b, same_subject subject b &&
                   same_scope (sr_external_ref (br_scope request)) b) bound in
      let response :=
        {| bs_subject_id := default (new_subject_id fresh) ((λ b, bs_subject_id b.2) <$> existing_subject);
           bs_actor_id := default (new_actor_id fresh) ((λ b, bs_actor_id b.2) <$> existing_actor);
           bs_scope_id := default (new_scope_id fresh) ((λ b, bs_scope_id b.2) <$> existing_scope);
           bs_agent_node_id := new_agent_node_id fresh;
           bs_agent_level := agent_level;
           bs_policy_revision := context_policy_revision (br_access_policies request);
           bs_subject_generation :=
             default 0 ((λ b, bs_subject_generation b.2) <$> existing_subject) |} in
      Ok (response,
          s <| st_context_bindings ::= <[(tenant, client_ref) := (request, response)]> |>).

Definition resolve_context_binding (s : InMemoryState) (tenant : TenantId) (client_ref : string)
    (fresh : FreshIds) (request : ContextBindingRequest)
    : result StoreError.t (ContextBindingResponse * InMemoryState) :=
  let request := request <| br_access_policies ::= canonicalize_access_policies |> in
  match st_context_bindings s !! (tenant, client_ref) with
  | Some (existing_request, existing_response) =>
      if negb (bool_decide (identity existing_request = identity request))
      then Err (StoreError.Conflict "context binding identity, kind, and parent are immutable")
      else if bool_decide (existing_request = request) then Ok (existing_response, s)
      else
        _ <-? validate_in_memory_access_policies s tenant request
                (bs_agent_level existing_response);
        let updated_response :=
          existing_response <| bs_policy_revision :=
            context_policy_revision (br_access_policies request) |> in
        Ok (updated_response,
            s <| st_context_bindings ::= <[(tenant, client_ref) := (request, updated_response)]> |>)
  | None => register_binding s tenant client_ref fresh request
  end.

(** ** Resolving *)

Definition response_matches (subject_id actor_id scope_id agent_node_id : N) (b : Binding)
    : bool :=
  (bs_subject_id b.2 =? subject_id) && (bs_actor_id b.2 =? actor_id) &&
  (bs_scope_id b.2 =? scope_id) && (bs_agent_node_id b.2 =? agent_node_id).

Definition exact_sources (agent_level : N) (own : ResolvedMemorySource)
    : gmap MemoryKind.t (list ResolvedMemorySource) :=
  list_to_map (map (λ kind,
    (kind, if agent_level_allows_memory_kind agent_level kind then [own] else []))
    MemoryKind.ALL).

Definition policy_source (s : InMemoryState) (tenant subject_id : N)
    (policy : ContextBindingAccessPolicy.t) : result StoreError.t ResolvedMemorySource :=
  source <-? ok_or
    (find (λ b, (bs_subject_id b.2 =? subject_id) &&
                same_scope (ContextBindingAccessPolicy.source_scope_external_ref policy) b &&
                same_agent (ContextBindingAccessPolicy.source_agent_node_external_ref policy) b)
       (tenant_bindings s tenant))
    (StoreError.NotFound "access policy source context");
  Ok (mkSource (bs_scope_id source.2) (bs_agent_node_id source.2)).

Fixpoint add_policy_sources (s : InMemoryState) (tenant subject_id : N)
    (policies : list ContextBindingAccessPolicy.t)
    (sources : gmap MemoryKind.t (list ResolvedMemorySource))
    : result StoreError.t (gmap MemoryKind.t (list ResolvedMemorySource)) :=
  match policies with
  | [] => Ok sources
  | policy :: policies =>
      source <-? policy_source s tenant subject_id policy;
      add_policy_sources s tenant subject_id policies
        (push_row (ContextBindingAccessPolicy.kind policy) source sources)
  end.

Definition source_leb (a b : ResolvedMemorySource) : bool :=
  (so_scope_id a <? so_scope_id b) ||
  ((so_scope_id a =? so_scope_id b) && (so_agent_node_id a <=? so_agent_node_id b)).

Definition normalize_sources (sources : list ResolvedMemorySource) : list ResolvedMemorySource :=
  dedup_by (λ a b, bool_decide (a = b)) (sort_by source_leb sources).

Definition resolve_memory_context (s : InMemoryState)
    (tenant subject_id actor_id scope_id agent_node_id : N)
    : result StoreError.t ResolvedMemoryContext :=
  match st_subject_tombstones s !! (tenant, subject_id) with
  | Some tombstone =>
      if (tb_generation tombstone =? 0) || bool_decide (tb_erased_at tombstone = String.EmptyString)
      then Err (StoreError.Backend "invalid subject erasure tombstone")
      else Err StoreError.SubjectErased
  | None =>
      found <-? ok_or (find (response_matches subject_id actor_id scope_id agent_node_id)
                         (tenant_bindings s tenant))
                  (StoreError.NotFound "memory context");
      let '(binding, response) := found in
      sources <-? add_policy_sources s tenant subject_id (br_access_policies binding)
        (exact_sources (bs_agent_level response) (mkSource scope_id agent_node_id));
      Ok {| cx_tenant_id := tenant;
            cx_data_subject_id := subject_id;
            cx_actor_id := actor_id;
            cx_actor_trust := actor_kind_trust (er_kind (br_actor binding));
            cx_scope_id := scope_id;
            cx_agent_node_id := agent_node_id;
            cx_agent_level := bs_agent_level response;
            cx_subject_generation := bs_subject_generation response;
            cx_policy_revision := bs_policy_revision response;
            cx_sources_by_kind := normalize_sources <$> sources |}
  end.

(** ** API keys *)

Definition lookup_api_key (s : InMemoryState) (key_hash : string) : option ApiKeyRow :=
  find (λ row, bool_decide (ak_key_hash row = key_hash)) (st_api_keys s).

Definition create_api_key (s : InMemoryState) (id : Uuid) (tenant : TenantId)
    (key_hash label : string) (max_trust : TrustLevel.t)
    (scoped_context : option ResolvedMemoryContext)
    : result StoreError.t (Uuid * InMemoryState) :=
  if match scoped_context with Some cx => negb (cx_tenant_id cx =? tenant) | None => false end
  then Err (StoreError.PolicyDenied "API key context does not match tenant")
  else
    let row :=
      {| ak_id := id; ak_tenant_id := tenant; ak_key_hash := key_hash; ak_label := label;
         ak_max_trust := max_trust;
         ak_data_subject_id := cx_data_subject_id <$> scoped_context;
         ak_subject_generation := cx_subject_generation <$> scoped_context;
         ak_actor_id := cx_actor_id <$> scoped_context;
         ak_scope_id := cx_scope_id <$> scoped_context;
         ak_agent_node_id := cx_agent_node_id <$> scoped_context;
         ak_can_forget := false; ak_can_audit_history := false; ak_revoked := false |} in
    Ok (id, s <| st_api_keys ::= λ l,
      retain (λ k, negb (ak_id k =? id) && negb (bool_decide (ak_key_hash k = key_hash))) l
      ++ [row] |>).

Definition is_live_key (tenant : TenantId) (id : Uuid) (row : ApiKeyRow) : bool :=
  (ak_id row =? id) && (ak_tenant_id row =? tenant) && negb (ak_revoked row).

Definition revoke_tenant_api_key (s : InMemoryState) (tenant : TenantId) (id : Uuid)
    : bool * InMemoryState :=
  (any (is_live_key tenant id) (st_api_keys s),
   s <| st_api_keys ::= update_first (is_live_key tenant id) (λ row, row <| ak_revoked := true |>) |>).

End binding.
