(* ===== verification/BindingFacts.v ===== *)
(** * BindingFacts: contexts resolve to what was registered

    Invariants of the binding table of Binding.v over registrations and
    erasures - every scope hierarchy is a forest, so the ancestor loop ends and
    decides ancestry - and what a resolved context may read. *)

From S2P Require Import Prelude Types Clock Bitemporal Lineage Store Binding.

Section facts.
Context `{HashOrder} `{PolicyJson} `{Sha256}.

Notation Binding := (ContextBindingRequest * ContextBindingResponse)%type.

(** The bindings of a tenant other than that of one client_ref. *)
Definition rest_bindings (s : InMemoryState) (key : TenantId * string) : list Binding :=
  map snd (retain (λ kv, kv.1.1 =? key.1) (map_to_list (delete key (st_context_bindings s)))).

Lemma tenant_bindings_perm s tenant :
  tenant_bindings s tenant ≡ₚ
  map snd (retain (λ kv, kv.1.1 =? tenant) (map_to_list (st_context_bindings s))).
Proof. unfold tenant_bindings. by rewrite map_iter_perm. Qed.

Lemma tenant_bindings_insert s key b tenant :
  tenant_bindings (s <| st_context_bindings ::= <[key := b]> |>) tenant ≡ₚ
  (if key.1 =? tenant then [b] else []) ++
  map snd (retain (λ kv, kv.1.1 =? tenant) (map_to_list (delete key (st_context_bindings s)))).
Proof.
  rewrite tenant_bindings_perm. simpl. rewrite <-insert_delete_eq.
  rewrite map_to_list_insert by apply lookup_delete_eq. rewrite retain_cons. simpl.
  by destruct (key.1 =? tenant).
Qed.

Lemma tenant_bindings_lookup s key b tenant :
  st_context_bindings s !! key = Some b →
  tenant_bindings s tenant ≡ₚ
  (if key.1 =? tenant then [b] else []) ++
  map snd (retain (λ kv, kv.1.1 =? tenant) (map_to_list (delete key (st_context_bindings s)))).
Proof.
  intros Hk. rewrite tenant_bindings_perm.
  rewrite <-(map_to_list_delete _ _ _ Hk). rewrite retain_cons. simpl.
  by destruct (key.1 =? tenant).
Qed.

Lemma tenant_bindings_fresh s key b tenant :
  st_context_bindings s !! key = None →
  tenant_bindings (s <| st_context_bindings ::= <[key := b]> |>) tenant ≡ₚ
  (if key.1 =? tenant then [b] else []) ++ tenant_bindings s tenant.
Proof.
  intros Hk. rewrite tenant_bindings_insert, (tenant_bindings_perm s). by rewrite delete_id.
Qed.

(** ** The invariant *)

Definition subject_of (b : Binding) : string := er_external_ref (br_subject b.1).
Definition scope_of (b : Binding) : string := sr_external_ref (br_scope b.1).
Definition parent_of (b : Binding) : option string := sr_parent_external_ref (br_scope b.1).

Definition subject_bindings (l : list Binding) (subject : string) : list Binding :=
  retain (same_subject subject) l.

(** The scopes of one subject form a forest, ranked below their number, and
    its bindings share one subject id. *)
Record forest (l : list Binding) : Prop := {
  fo_rank : ∃ rank : string → nat, ∀ b, b ∈ l →
    (rank (scope_of b) < length l)%nat ∧
    ∀ p, parent_of b = Some p →
      (rank p < rank (scope_of b))%nat ∧ ∃ b', b' ∈ l ∧ scope_of b' = p;
  fo_parent : ∀ b b', b ∈ l → b' ∈ l → scope_of b = scope_of b' → parent_of b = parent_of b';
  fo_subject : ∀ b b', b ∈ l → b' ∈ l → bs_subject_id b.2 = bs_subject_id b'.2;
}.

Definition bindings_wf (s : InMemoryState) : Prop :=
  ∀ tenant subject, forest (subject_bindings (tenant_bindings s tenant) subject).

Lemma forest_perm l k : l ≡ₚ k → forest l → forest k.
Proof.
  intros Hp [(rank & Hr) Hpar Hs]. split.
  - exists rank. intros b Hb. rewrite <-Hp in Hb. destruct (Hr b Hb) as [Hlt Hb']. split.
    + by rewrite <-Hp.
    + intros p Hpp. destruct (Hb' p Hpp) as (? & b' & ? & ?). split; [done|].
      exists b'. by rewrite <-Hp.
  - intros b b'. rewrite <-!Hp. apply Hpar.
  - intros b b'. rewrite <-!Hp. apply Hs.
Qed.

Lemma forest_nil : forest [].
Proof. split; [exists (λ _, 0%nat)|..]; set_solver. Qed.

(** Same identity, same place in the forest. *)
Lemma forest_update b b' l :
  scope_of b' = scope_of b → parent_of b' = parent_of b →
  bs_subject_id b'.2 = bs_subject_id b.2 →
  forest (b :: l) → forest (b' :: l).
Proof.
  intros Hsc Hpa Hid [(rank & Hr) Hpar Hs].
  assert (∀ x, x ∈ b' :: l → ∃ y, y ∈ b :: l ∧ scope_of x = scope_of y ∧
    parent_of x = parent_of y ∧ bs_subject_id x.2 = bs_subject_id y.2) as Hto.
  { intros x [->|Hx]%elem_of_cons; [exists b | exists x]; set_solver. }
  assert (∀ y, y ∈ b :: l → ∃ x, x ∈ b' :: l ∧ scope_of x = scope_of y) as Hfrom.
  { intros y [->|Hy]%elem_of_cons; [exists b' | exists y]; set_solver. }
  split.
  - exists rank. intros x Hx. destruct (Hto x Hx) as (y & Hy & -> & -> & _).
    destruct (Hr y Hy) as [Hlt Hp]. split; [done|]. intros p Hpp.
    destruct (Hp p Hpp) as (? & y' & Hy' & <-). split; [done|]. by apply Hfrom.
  - intros x x' Hx Hx'. destruct (Hto x Hx) as (y & Hy & -> & -> & _).
    destruct (Hto x' Hx') as (y' & Hy' & -> & -> & _). by apply Hpar.
  - intros x x' Hx Hx'. destruct (Hto x Hx) as (y & Hy & _ & _ & ->).
    destruct (Hto x' Hx') as (y' & Hy' & _ & _ & ->). by apply Hs.
Qed.

(** A new binding whose parent is bound, and which agrees with the bindings of
    its own scope. *)
Lemma forest_register b l :
  (∀ p, parent_of b = Some p → ∃ b', b' ∈ l ∧ scope_of b' = p) →
  (∀ b', b' ∈ l → scope_of b' = scope_of b → parent_of b' = parent_of b) →
  (∀ b', b' ∈ l → bs_subject_id b'.2 = bs_subject_id b.2) →
  forest l → forest (b :: l).
Proof.
  intros Hp Hsame Hid [(rank & Hr) Hpar Hs].
  destruct (decide (Exists (λ b', scope_of b' = scope_of b) l)) as [Hex|Hnex].
  - apply Exists_exists in Hex as (b0 & Hb0 & Hsc). split.
    + exists rank. intros x [->|Hx]%elem_of_cons.
      * destruct (Hr b0 Hb0) as [Hlt Hpp]. rewrite Hsc in Hlt, Hpp. split; [simpl; lia|].
        intros p Hpb. rewrite (Hsame b0 Hb0 Hsc) in Hpp.
        destruct (Hpp p Hpb) as (? & b' & ? & ?). set_solver.
      * destruct (Hr x Hx) as [Hlt Hpp]. split; [simpl; lia|]. set_solver.
    + intros x x' [->|Hx]%elem_of_cons [->|Hx']%elem_of_cons Heq; auto; symmetry; auto.
    + intros x x' [->|Hx]%elem_of_cons [->|Hx']%elem_of_cons; auto; symmetry; auto.
  - assert (∀ b', b' ∈ l → scope_of b' ≠ scope_of b) as Hno.
    { intros b' Hb' Heq. apply Hnex, Exists_exists. eauto. }
    split.
    + exists (λ y, if decide (y = scope_of b) then length l else rank y).
      assert (∀ p, (∃ b', b' ∈ l ∧ scope_of b' = p) →
        p ≠ scope_of b ∧ (rank p < length l)%nat) as Hbound.
      { intros p (b' & Hb' & <-). split; [by apply Hno|]. by apply Hr. }
      intros x [->|Hx]%elem_of_cons.
      * rewrite decide_True by done. split; [simpl; lia|]. intros p Hpb.
        destruct (Hbound p (Hp p Hpb)) as [Hne Hlt]. rewrite decide_False by done.
        split; [done|]. destruct (Hp p Hpb) as (b' & ? & ?). set_solver.
      * destruct (Hr x Hx) as [Hlt Hpp]. rewrite decide_False by by apply Hno.
        split; [simpl; lia|]. intros p Hpx. destruct (Hpp p Hpx) as (Hrk & b' & Hb' & Hsb).
        rewrite decide_False by (rewrite <-Hsb; by apply Hno). set_solver.
    + intros x x' [->|Hx]%elem_of_cons [->|Hx']%elem_of_cons Heq; auto; symmetry; auto.
    + intros x x' [->|Hx]%elem_of_cons [->|Hx']%elem_of_cons; auto; symmetry; auto.
Qed.


Lemma check_bindings_ok request l b :
  check_bindings request l = Ok () → b ∈ l → check_immutable request b = Ok ().
Proof.
  induction l as [|x l IH]; simpl; [set_solver|].
  destruct (check_immutable request x) as [[]|] eqn:E; simpl; [|done].
  intros Hl [->|Hb]%elem_of_cons; auto.
Qed.

Lemma check_immutable_scope request b :
  check_immutable request b = Ok () →
  same_subject (er_external_ref (br_subject request)) b = true →
  scope_of b = sr_external_ref (br_scope request) →
  parent_of b = sr_parent_external_ref (br_scope request).
Proof.
  unfold check_immutable. intros Hok Hs Hsc. rewrite Hs in Hok. simpl in Hok.
  destruct (negb (bool_decide (er_kind _ = _))); [done|].
  destruct (same_actor _ _ && _)%bool; [done|].
  unfold same_scope in Hok. rewrite bool_decide_true in Hok by exact Hsc. simpl in Hok.
  destruct (negb (bool_decide (sr_kind _ = _))); simpl in Hok; [done|].
  destruct (negb (bool_decide (sr_parent_external_ref _ = _))) eqn:E; [done|].
  by bool_prop.
Qed.

Lemma same_subject_true subject b : same_subject subject b = true ↔ subject_of b = subject.
Proof. unfold same_subject. apply bool_decide_eq_true. Qed.

(** What a registration adds. *)
Lemma register_binding_inv s tenant client_ref fresh request response s' :
  register_binding s tenant client_ref fresh request = Ok (response, s') →
  s' = s <| st_context_bindings ::= <[(tenant, client_ref) := (request, response)]> |> ∧
  let subject := er_external_ref (br_subject request) in
  let l := subject_bindings (tenant_bindings s tenant) subject in
  (∀ p, sr_parent_external_ref (br_scope request) = Some p → ∃ b', b' ∈ l ∧ scope_of b' = p) ∧
  (∀ b', b' ∈ l → scope_of b' = sr_external_ref (br_scope request) →
     parent_of b' = sr_parent_external_ref (br_scope request)) ∧
  (∀ b', find (same_subject subject) (tenant_bindings s tenant) = Some b' →
     bs_subject_id response = bs_subject_id b'.2) ∧
  validate_in_memory_access_policies s tenant request (bs_agent_level response) = Ok ().
Proof.
  unfold register_binding. intros Hok.
  destruct (any _ _); [done|]. destruct (any _ _) in Hok; [done|].
  destruct (check_bindings _ _) as [[]|] eqn:Hcheck; simpl in Hok; [|done].
  destruct (new_agent_level _ _ _) as [level|]; simpl in Hok; [|done].
  destruct (match sr_parent_external_ref _ with Some _ => _ | None => _ end) eqn:Hpar; [done|].
  destruct (validate_in_memory_access_policies _ _ _ _) as [[]|] eqn:Hval; simpl in Hok; [|done].
  injection Hok as <- <-. split; [done|]. simpl. split_and!; [| | |done].
  - intros p Hp. rewrite Hp in Hpar. apply negb_false_iff, any_true in Hpar as (b' & Hb' & Hs).
    apply andb_true_iff in Hs as [Hs Hsc%bool_decide_eq_true]. exists b'.
    unfold subject_bindings. by rewrite elem_of_retain.
  - intros b' [Hb' Hs]%elem_of_retain. apply check_immutable_scope; [|done].
    by eapply check_bindings_ok.
  - intros b' ->. done.
Qed.

Lemma find_is_Some {A} (p : A → bool) l x : x ∈ l → p x = true → is_Some (find p l).
Proof. intros Hx Hp. apply find_any, any_true. eauto. Qed.

Lemma register_keeps_wf s tenant client_ref fresh request response s' :
  st_context_bindings s !! (tenant, client_ref) = None →
  register_binding s tenant client_ref fresh request = Ok (response, s') →
  bindings_wf s → bindings_wf s'.
Proof.
  intros Hnone (-> & Hp & Hsame & Hid & _)%register_binding_inv Hwf t subject.
  eapply forest_perm.
  { unfold subject_bindings. by rewrite tenant_bindings_fresh. }
  cbn [fst]. destruct (N.eqb_spec tenant t) as [->|Hne]; [|apply Hwf].
  cbn [app]. rewrite retain_cons. destruct (same_subject subject (request, response)) eqn:Es;
    [|apply Hwf].
  apply same_subject_true in Es. unfold subject_of in Es. simpl in Es. subst subject.
  apply forest_register; [done|done| |apply Hwf].
  intros b' Hb'. simpl. apply elem_of_retain in Hb' as [Hb' Hs].
  destruct (find_is_Some _ _ _ Hb' Hs) as [b0 Hb0]. rewrite (Hid b0 Hb0).
  apply find_Some in Hb0 as [Hb0 Hs0].
  apply (fo_subject _ (Hwf t (er_external_ref (br_subject request)))); by apply elem_of_retain.
Qed.

Lemma update_keeps_wf s key b b' :
  st_context_bindings s !! key = Some b → identity b'.1 = identity b.1 →
  bs_subject_id b'.2 = bs_subject_id b.2 → bindings_wf s →
  bindings_wf (s <| st_context_bindings ::= <[key := b']> |>).
Proof.
  intros Hk Hidn Hid Hwf t subject. specialize (Hwf t subject).
  eapply forest_perm; [unfold subject_bindings; by rewrite tenant_bindings_insert|].
  eapply forest_perm in Hwf; [|unfold subject_bindings; by rewrite (tenant_bindings_lookup _ _ _ t Hk)].
  destruct (key.1 =? t); [|exact Hwf]. cbn [app] in *. rewrite retain_cons in *.
  assert (subject_of b' = subject_of b ∧ scope_of b' = scope_of b ∧ parent_of b' = parent_of b)
    as (Hsub & Hsc & Hpa).
  { unfold identity in Hidn. destruct b' as [[] ?], b as [[] ?]. simpl in *.
    injection Hidn as -> -> -> ->. done. }
  assert (same_subject subject b' = same_subject subject b) as ->.
  { apply bool_decide_ext. unfold subject_of in Hsub. by rewrite Hsub. }
  destruct (same_subject subject b); [|exact Hwf]. by eapply forest_update.
Qed.

Lemma resolve_keeps_wf s tenant client_ref fresh request response s' :
  resolve_context_binding s tenant client_ref fresh request = Ok (response, s') →
  bindings_wf s → bindings_wf s'.
Proof.
  unfold resolve_context_binding. intros Hok Hwf.
  destruct (st_context_bindings s !! _) as [[er ersp]|] eqn:Hk.
  - destruct (bool_decide (identity er = _)) eqn:Hidn; simpl in Hok; [|done].
    apply bool_decide_eq_true in Hidn.
    destruct (bool_decide (er = _)); [by injection Hok as <- <-|].
    destruct (validate_in_memory_access_policies _ _ _ _); simpl in Hok; [|done].
    injection Hok as <- <-. by eapply update_keeps_wf.
  - by eapply register_keeps_wf.
Qed.

Lemma map_to_list_retain_map `{Countable K} {V} (p : K → V → bool) (m : gmap K V) :
  map_to_list (retain_map p m) ≡ₚ retain (λ kv, p kv.1 kv.2) (map_to_list m).
Proof.
  apply NoDup_Permutation; [apply NoDup_map_to_list|apply NoDup_retain, NoDup_map_to_list|].
  intros [k v]. by rewrite elem_of_retain, !elem_of_map_to_list, lookup_retain_map.
Qed.

Lemma retain_map_comm {A B} (f : A → B) (p : B → bool) l :
  retain p (map f l) = map f (retain (λ x, p (f x)) l).
Proof.
  induction l as [|x l IH]; [done|]. cbn [map]. rewrite !retain_cons, IH.
  by destruct (p (f x)).
Qed.

Lemma erase_bindings s tenant subject receipt t ext :
  subject_bindings (tenant_bindings (erase_subject tenant subject receipt s) t) ext ≡ₚ
  retain (λ b, negb (t =? tenant) || negb (bs_subject_id b.2 =? subject))
    (subject_bindings (tenant_bindings s t) ext).
Proof.
  unfold subject_bindings. rewrite !tenant_bindings_perm. cbn [erase_subject st_context_bindings].
  unfold erase_subject. simpl st_context_bindings. rewrite map_to_list_retain_map.
  rewrite !retain_map_comm, !retain_retain. apply Permutation_map.
  apply reflexive_eq, retain_ext. intros [[k c] [b r]] _. simpl.
  destruct (N.eqb_spec k t) as [->|];
    by destruct (_ =? tenant), (_ =? subject), (same_subject ext _).
Qed.

Lemma erase_keeps_wf s tenant subject receipt :
  bindings_wf s → bindings_wf (erase_subject tenant subject receipt s).
Proof.
  intros Hwf t ext. specialize (Hwf t ext).
  eapply forest_perm; [symmetry; apply erase_bindings|].
  destruct (N.eqb_spec t tenant) as [->|Hne]; simpl; [|by rewrite retain_all].
  destruct (subject_bindings _ _) as [|b l]; [apply forest_nil|].
  destruct (N.eqb_spec (bs_subject_id b.2) subject) as [Heq|Hneq].
  - rewrite retain_none; [apply forest_nil|]. intros x Hx.
    rewrite (fo_subject _ Hwf x b) by set_solver. by rewrite Heq, N.eqb_refl.
  - rewrite retain_all; [done|]. intros x Hx.
    rewrite (fo_subject _ Hwf x b) by set_solver. by apply negb_true_iff, N.eqb_neq.
Qed.

(** Steps of the binding table. *)
Inductive binding_step (s : InMemoryState) : InMemoryState → Prop :=
| bstep_resolve tenant client_ref fresh request response s' :
    resolve_context_binding s tenant client_ref fresh request = Ok (response, s') →
    binding_step s s'
| bstep_erase tenant subject receipt :
    binding_step s (erase_subject tenant subject receipt s)
| bstep_other s' :
    st_context_bindings s' = st_context_bindings s → binding_step s s'.

Lemma bindings_wf_steps s s' : rtc binding_step s s' → bindings_wf s → bindings_wf s'.
Proof.
  induction 1 as [|s1 s2 s3 Hs _ IH]; [done|]. intros Hwf. apply IH.
  destruct Hs as [? ? ? ? ? ? Hr| |s' Heq].
  - by eapply resolve_keeps_wf.
  - by apply erase_keeps_wf.
  - unfold bindings_wf, tenant_bindings in *. by rewrite Heq.
Qed.

Lemma bindings_wf_default : bindings_wf InMemoryState_default.
Proof.
  intros t ext. eapply forest_perm; [|apply forest_nil].
  unfold subject_bindings. by rewrite tenant_bindings_perm.
Qed.


(** ** The ancestor loop *)

Lemma scope_parent_spec s tenant ext r p :
  bindings_wf s → scope_parent s tenant ext r = Some p →
  ∃ b, b ∈ subject_bindings (tenant_bindings s tenant) ext ∧ scope_of b = r ∧ parent_of b = Some p.
Proof.
  unfold scope_parent. intros Hwf Hp. destruct (find _ _) as [b|] eqn:Hf; [|done].
  apply find_Some in Hf as [Hb Hs]. apply andb_true_iff in Hs as [Hs Hsc%bool_decide_eq_true].
  exists b. unfold subject_bindings. by rewrite elem_of_retain.
Qed.

Lemma subject_bindings_length s tenant ext :
  (length (subject_bindings (tenant_bindings s tenant) ext) ≤ size (st_context_bindings s))%nat.
Proof.
  unfold subject_bindings. etrans; [apply length_retain_le|].
  rewrite tenant_bindings_perm, length_map. etrans; [apply length_retain_le|].
  by rewrite length_map_to_list.
Qed.

Section walk.
Context (s : InMemoryState) (tenant : TenantId) (ext ancestor : string).
Context (Hwf : bindings_wf s).

(** [p] is an ancestor of [r] or [r] itself. *)
Definition ascends (r p : string) : Prop :=
  rtc (λ x y, scope_parent s tenant ext x = Some y) r p.

Lemma walk_decides fuel rank r :
  (∀ x y, scope_parent s tenant ext x = Some y → (rank y < rank x)%nat) →
  (rank r + 1 < fuel)%nat →
  ∃ b, ancestor_walk fuel s tenant ext ancestor (Some r) = Some b ∧
    (b = true ↔ ascends r ancestor).
Proof using Type.
  intros Hrank. revert r. induction fuel as [|fuel IH]; intros r Hf; [lia|]. simpl.
  case_bool_decide as Hr.
  - exists true. split; [done|]. split; [|done]. intros _. rewrite Hr. apply rtc_refl.
  - destruct (scope_parent s tenant ext r) as [p|] eqn:Hp.
    + destruct (IH p) as (b & -> & Hb); [apply Hrank in Hp; lia|]. exists b. split; [done|].
      rewrite Hb. split; [by apply rtc_l|].
      intros [->|(y & Hy & Has)]%rtc_inv; [done|]. rewrite Hp in Hy. by injection Hy as <-.
    + exists false. destruct fuel; [lia|]. split; [done|]. split; [done|].
      intros [->|(y & Hy & Has)]%rtc_inv; [done|]. by rewrite Hp in Hy.
Qed.

Lemma walk_rank :
  ∃ rank : string → nat,
    (∀ x y, scope_parent s tenant ext x = Some y → (rank y < rank x)%nat) ∧
    ∀ x, (rank x ≤ size (st_context_bindings s))%nat.
Proof using Hwf.
  destruct (fo_rank _ (Hwf tenant ext)) as (rank & Hr).
  pose proof (subject_bindings_length s tenant ext) as Hlen.
  exists (λ x, Nat.min (rank x) (size (st_context_bindings s))). split; [|lia].
  intros x y (b & Hb & <- & Hp)%scope_parent_spec; [|done].
  destruct (Hr b Hb) as [Hlt Hpp]. destruct (Hpp y Hp) as [? _]. lia.
Qed.

Lemma ancestor_walk_total r :
  ∃ b, ancestor_walk (ancestor_fuel s) s tenant ext ancestor r = Some b ∧
    (b = true ↔ ∃ p, r = Some p ∧ ascends p ancestor).
Proof using Hwf.
  destruct r as [r|].
  - destruct walk_rank as (rank & Hrank & Hle).
    destruct (walk_decides (ancestor_fuel s) rank r Hrank) as (b & Hb & Hspec).
    { unfold ancestor_fuel. specialize (Hle r). lia. }
    exists b. split; [done|]. rewrite Hspec. naive_solver.
  - exists false. split; [done|]. naive_solver.
Qed.
End walk.

(** the ancestor loop ends, and answers whether the scope is a strict
    ancestor, in every state that registrations and erasures reach. *)
Theorem ancestor_walk_terminates s tenant ext ancestor request :
  rtc binding_step InMemoryState_default s →
  (∃ b, ancestor_walk (ancestor_fuel s) s tenant ext ancestor
          (sr_parent_external_ref (br_scope request)) = Some b) ∧
  (in_memory_scope_is_strict_ancestor s tenant ext ancestor request = true ↔
   ∃ p, sr_parent_external_ref (br_scope request) = Some p ∧ ascends s tenant ext p ancestor).
Proof.
  intros Hr. pose proof (bindings_wf_steps _ _ Hr bindings_wf_default) as Hwf.
  destruct (ancestor_walk_total s tenant ext ancestor Hwf
              (sr_parent_external_ref (br_scope request))) as (b & Hb & Hspec).
  unfold in_memory_scope_is_strict_ancestor. rewrite Hb. split; [by exists b|done].
Qed.


(** ** Stability *)

(** registering is idempotent, and a client_ref keeps its identifiers: the
    same request again answers the same and changes nothing, and any accepted
    request under the client_ref names the same subject, actor, scope, agent
    node and generation as before. *)
Theorem binding_is_stable s tenant client_ref fresh request response s' :
  resolve_context_binding s tenant client_ref fresh request = Ok (response, s') →
  (∀ fresh', resolve_context_binding s' tenant client_ref fresh' request = Ok (response, s')) ∧
  ∀ q0 r0, st_context_bindings s !! (tenant, client_ref) = Some (q0, r0) →
    identity request = identity q0 ∧
    response <| bs_policy_revision := String.EmptyString |> =
      r0 <| bs_policy_revision := String.EmptyString |>.
Proof.
  unfold resolve_context_binding. set (req := request <| br_access_policies ::= _ |>).
  assert (identity req = identity request) as Hreq by done.
  intros Hok. destruct (st_context_bindings s !! (tenant, client_ref)) as [[er ersp]|] eqn:Hk.
  - destruct (bool_decide (identity er = _)) eqn:Hidn; simpl in Hok; [|done].
    apply bool_decide_eq_true in Hidn.
    destruct (bool_decide (er = req)) eqn:Heq.
    + injection Hok as <- <-. rewrite Hk, Hidn, Heq, bool_decide_true by done. split; [done|].
      intros q0 r0 [= <- <-]. by rewrite Hidn.
    + destruct (validate_in_memory_access_policies _ _ _ _); simpl in Hok; [|done].
      injection Hok as <- <-. simpl. rewrite lookup_insert_eq, !bool_decide_true by done.
      split; [done|]. intros q0 r0 [= <- <-]. by rewrite Hidn.
  - apply register_binding_inv in Hok as (-> & _). simpl.
    rewrite lookup_insert_eq, !bool_decide_true by done. split; [done|]. done.
Qed.

(** ** What a resolved context may read *)

(** No binding holds a policy its agent level does not allow. *)
Definition policies_wf (s : InMemoryState) : Prop :=
  ∀ key q r, st_context_bindings s !! key = Some (q, r) →
    ∀ p, p ∈ br_access_policies q →
      agent_level_allows_memory_kind (bs_agent_level r) (ContextBindingAccessPolicy.kind p) = true.

Lemma validate_policies_levels s tenant request level seen policies :
  validate_policies s tenant request level seen policies = Ok () →
  ∀ p, p ∈ policies →
    agent_level_allows_memory_kind level (ContextBindingAccessPolicy.kind p) = true.
Proof.
  revert seen. induction policies as [|p policies IH]; intros seen; simpl; [set_solver|].
  case_bool_decide; [done|]. unfold validate_policy.
  destruct (agent_level_allows_memory_kind level _) eqn:E; simpl; [|done].
  destruct (ok_or _ _); simpl; [|done]. intros Hok.
  destruct (match p with ContextBindingAccessPolicy.Inherit _ _ _ => _ | _ => _ end); [|done].
  intros p' [->|Hp']%elem_of_cons; [done|]. by eapply IH.
Qed.

Lemma policies_wf_insert s key q r :
  (∀ p, p ∈ br_access_policies q →
     agent_level_allows_memory_kind (bs_agent_level r) (ContextBindingAccessPolicy.kind p) = true) →
  policies_wf s → policies_wf (s <| st_context_bindings ::= <[key := (q, r)]> |>).
Proof.
  intros Hq Hwf k q' r'. simpl. intros [[<- [= <- <-]]|[_ Hk]]%lookup_insert_Some; [done|].
  by eapply Hwf.
Qed.

Lemma policies_wf_step s s' : binding_step s s' → policies_wf s → policies_wf s'.
Proof.
  intros [tenant client_ref fresh request response s'' Hr|tenant subject receipt|s'' Heq] Hwf.
  - unfold resolve_context_binding in Hr.
    destruct (st_context_bindings s !! _) as [[er ersp]|] eqn:Hk.
    + destruct (negb _); [done|]. destruct (bool_decide _); [by injection Hr as _ <-|].
      destruct (validate_in_memory_access_policies _ _ _ _) as [[]|] eqn:Hv; simpl in Hr; [|done].
      injection Hr as _ <-. apply policies_wf_insert; [|done].
      exact (validate_policies_levels _ _ _ _ _ _ Hv).
    + apply register_binding_inv in Hr as (-> & _ & _ & _ & Hv).
      apply policies_wf_insert; [|done]. exact (validate_policies_levels _ _ _ _ _ _ Hv).
  - intros k q r [Hk _]%lookup_retain_map. by eapply Hwf.
  - unfold policies_wf. by rewrite Heq.
Qed.

Lemma policies_wf_steps s : rtc binding_step InMemoryState_default s → policies_wf s.
Proof.
  enough (∀ s0, rtc binding_step s0 s → policies_wf s0 → policies_wf s) as Hall.
  { intros Hr. by eapply Hall. }
  induction 1; eauto using policies_wf_step.
Qed.

Lemma elem_of_add_policy_sources s tenant subject policies m m' kind source :
  add_policy_sources s tenant subject policies m = Ok m' →
  source ∈ rows m' kind ↔
  source ∈ rows m kind ∨
  ∃ p, p ∈ policies ∧ ContextBindingAccessPolicy.kind p = kind ∧
    policy_source s tenant subject p = Ok source.
Proof.
  revert m. induction policies as [|p policies IH]; intros m; simpl.
  { intros [= <-]. set_solver. }
  destruct (policy_source s tenant subject p) as [src|] eqn:Hp; simpl; [|done].
  intros Hm. rewrite (IH _ Hm). unfold push_row.
  destruct (decide (ContextBindingAccessPolicy.kind p = kind)) as [<-|Hne].
  - rewrite rows_update_eq, elem_of_app, list_elem_of_singleton. split.
    + intros [[? | -> ] | (p' & ? & ? & ?)]; [by left| |]; right; [exists p | exists p']; set_solver.
    + intros [?|(p' & [->|?]%elem_of_cons & Hk & Hs)]; [by left; left| |].
      * left. right. congruence.
      * right. by exists p'.
  - rewrite rows_update_ne by done. set_solver.
Qed.

Lemma elem_of_dedup_eq `{EqDecision A} (l : list A) x :
  x ∈ dedup_by (λ a b, bool_decide (a = b)) l ↔ x ∈ l.
Proof.
  split; [apply elem_of_dedup_by|]. induction l as [|y l IH]; simpl; [done|].
  destruct (dedup_by _ l) as [|z r]; [set_solver|].
  case_bool_decide as Hyz; [subst|]; set_solver.
Qed.

Lemma rows_exact_sources level own kind :
  rows (exact_sources level own) kind =
  if agent_level_allows_memory_kind level kind then [own] else [].
Proof. by destruct kind. Qed.

Lemma rows_normalize (m : gmap MemoryKind.t (list ResolvedMemorySource)) kind x :
  match (normalize_sources <$> m) !! kind with Some l => bool_decide (x ∈ l) | None => false end
    = true ↔ x ∈ rows m kind.
Proof.
  unfold rows. rewrite lookup_fmap. destruct (m !! kind) as [l|]; simpl.
  - rewrite bool_decide_eq_true. unfold normalize_sources.
    by rewrite elem_of_dedup_eq, elem_of_sort_by.
  - split; [done | by intros ?%not_elem_of_nil].
Qed.

Lemma find_map {A B} (f : A → B) (p : B → bool) l :
  find p (map f l) = f <$> find (λ x, p (f x)) l.
Proof. induction l as [|x l IH]; simpl; [done|]. by destruct (p (f x)). Qed.

Lemma find_retain {A} (p q : A → bool) l :
  find p (retain q l) = find (λ x, q x && p x) l.
Proof.
  induction l as [|x l IH]; [done|]. rewrite retain_cons. simpl.
  destruct (q x); simpl; [|done]. by destruct (p x).
Qed.

Lemma find_ext {A} (p q : A → bool) l : (∀ x, p x = q x) → find p l = find q l.
Proof. intros Hpq. induction l as [|x l IH]; simpl; [done|]. by rewrite Hpq, IH. Qed.

(** A resolved context comes from one binding of the tenant. *)
Lemma resolve_memory_context_inv s tenant subject actor scope agent cx :
  resolve_memory_context s tenant subject actor scope agent = Ok cx →
  ∃ key q r m,
    st_subject_tombstones s !! (tenant, subject) = None ∧
    st_context_bindings s !! (tenant, key) = Some (q, r) ∧
    find (binding_matches cx) (map_iter (st_context_bindings s)) = Some ((tenant, key), (q, r)) ∧
    add_policy_sources s tenant subject (br_access_policies q)
      (exact_sources (bs_agent_level r) (mkSource scope agent)) = Ok m ∧
    cx_tenant_id cx = tenant ∧ cx_data_subject_id cx = subject ∧
    cx_scope_id cx = scope ∧ cx_agent_node_id cx = agent ∧
    cx_agent_level cx = bs_agent_level r ∧ cx_subject_generation cx = bs_subject_generation r ∧
    cx_sources_by_kind cx = normalize_sources <$> m.
Proof.
  unfold resolve_memory_context. intros Hok.
  destruct (st_subject_tombstones s !! _) as [tb|] eqn:Ht; [by destruct (_ || _)%bool|].
  unfold tenant_bindings in Hok. rewrite find_map, find_retain in Hok.
  destruct (find _ _) as [[[t key] [q r]]|] eqn:Hf; simpl in Hok; [|done].
  destruct (add_policy_sources _ _ _ _ _) as [m|] eqn:Hm; simpl in Hok; [|done].
  injection Hok as <-. pose proof Hf as [Hin Hp]%find_Some. simpl in Hp. bool_prop. subst t.
  exists key, q, r, m. split_and!; try done.
  - by apply elem_of_map_iter.
  - rewrite <-Hf. apply find_ext. intros kv. unfold binding_matches, response_matches. simpl.
    by rewrite !andb_assoc.
Qed.

(** a context that resolution returns is accepted, in the same state, by the context
    check of every operation. *)
Theorem resolved_context_is_valid s tenant subject actor scope agent cx :
  resolve_memory_context s tenant subject actor scope agent = Ok cx →
  validate_context s cx = Ok ().
Proof.
  intros (key & q & r & m & Ht & _ & Hf & _ & Htn & Hsu & _ & _ & _ & Hg & _)%resolve_memory_context_inv.
  unfold validate_context. rewrite Htn, Hsu, Ht, Hf, Hg. simpl. by rewrite N.eqb_refl.
Qed.

(** a resolved context reads a kind only where its agent level allows the
    kind, and only at its own node or at a node bound to the same subject in
    the same tenant; its own node it reads in every allowed kind. *)
Theorem resolved_sources_are_authorized s tenant subject actor scope agent cx kind sc ag :
  rtc binding_step InMemoryState_default s →
  resolve_memory_context s tenant subject actor scope agent = Ok cx →
  (allows cx kind sc ag = true →
     agent_level_allows_memory_kind (cx_agent_level cx) kind = true ∧
     ((sc, ag) = (scope, agent) ∨
      ∃ b, b ∈ tenant_bindings s tenant ∧ bs_subject_id b.2 = subject ∧
        bs_scope_id b.2 = sc ∧ bs_agent_node_id b.2 = ag)) ∧
  (agent_level_allows_memory_kind (cx_agent_level cx) kind = true →
     allows cx kind scope agent = true).
Proof.
  intros Hreach (key & q & r & m & _ & Hk & _ & Hm & _ & _ & _ & _ & Hl & _ & Hs)%resolve_memory_context_inv.
  unfold allows. rewrite Hs, Hl, !rows_normalize.
  rewrite !(elem_of_add_policy_sources _ _ _ _ _ _ _ _ Hm), !rows_exact_sources. split.
  - intros [Hown|(p & Hp & <- & Hsrc)].
    + destruct (agent_level_allows_memory_kind _ kind); [|by apply not_elem_of_nil in Hown].
      apply list_elem_of_singleton in Hown as [= -> ->]. auto.
    + split; [by eapply (policies_wf_steps s Hreach)|]. right. unfold policy_source in Hsrc.
      destruct (find _ _) as [b|] eqn:Hf; simpl in Hsrc; [|done]. injection Hsrc as <- <-.
      apply find_Some in Hf as [Hb Hf]. bool_prop. by exists b.
  - intros ->. left. set_solver.
Qed.

End facts.
