(* ===== verification/Ledger.v ===== *)
(** * Ledger: a mutation executes at most once

    Theorems on [commit] and [stage_mutation_claim] of Txn.v: within the
    retention window of its ledger entry a claim executes once, retries replay
    the recorded response, another request under the same key conflicts, and
    nothing is written for an erased subject. *)

From S2P Require Import Prelude Types Clock Bitemporal Lineage Store Isolation Txn.

Section ledger.
Context `{HashOrder} `{Jiff} `{ReceiptJson}.

(** A claim names the subject of the transaction that stages it. *)
Definition tx_wf (tx : InMemoryTxn) : Prop :=
  ∀ staged, tx_mutation tx = Some staged →
    mc_tenant_id (sm_claim staged) = cx_tenant_id (tx_context tx) ∧
    mc_data_subject_id (sm_claim staged) = cx_data_subject_id (tx_context tx) ∧
    mc_subject_generation (sm_claim staged) = cx_subject_generation (tx_context tx).

Lemma tx_wf_begin context now : tx_wf (begin_at context now).
Proof. by intros staged. Qed.

Lemma tx_wf_claim store claim tx :
  tx_wf tx → tx_wf (stage_mutation_claim store claim tx).1.2.
Proof.
  intros Hwf. unfold stage_mutation_claim. destruct (tx_committed tx); [done|].
  destruct (negb (mc_subject_generation claim =? _)) eqn:Eg; [done|].
  destruct (negb (mc_tenant_id claim =? _) || _)%bool eqn:Et; [done|]. bool_prop.
  destruct (tx_mutation tx) as [staged|]; [by destruct (negb _)|].
  destruct (mutation_second _) as [now|]; [|done].
  destruct (match st_mutation_ledger _ !! _ with Some _ => _ | None => _ end) as [o|]; [|done].
  intros staged. simpl. intros [= <-]. by destruct o.
Qed.

Lemma tx_wf_response response tx : tx_wf tx → tx_wf (stage_mutation_response response tx).1.
Proof.
  intros Hwf. unfold stage_mutation_response. destruct (tx_committed tx); [done|].
  destruct (tx_mutation tx) as [staged|] eqn:E; [|done].
  destruct (sm_replay staged); [done|]. case_bool_decide; [done|].
  intros staged'. simpl. intros [= <-]. simpl. by apply Hwf.
Qed.

(** What an accepted commit does. *)
Definition unrecorded (now : Z) (mutation : option (MutationClaim * MutationResponse))
    (state : InMemoryState) : Prop :=
  ∀ claim response, mutation = Some (claim, response) →
    ∀ entry, st_mutation_ledger state !! claim_key claim = Some entry →
      (le_expires_at_second entry ≤ now)%Z.

Definition record_opt (mutation : option (MutationClaim * MutationResponse)) (now : Z)
    (state : InMemoryState) : InMemoryState :=
  match mutation with
  | Some (claim, response) => record_mutation claim response now state
  | None => state
  end.

Inductive commit_effect (s : InMemoryState) (tx : InMemoryTxn) (s' : InMemoryState) : Prop :=
| commit_nothing : s' = s → commit_effect s tx s'
| commit_writes now mutation next :
    mutation_second (tx_transaction_time tx) = Ok now →
    commit_mutation tx = Ok (Some mutation) →
    commit_snapshot s tx = Ok next →
    validate_context next (tx_context tx) = Ok () →
    unrecorded now mutation next →
    tx_subject_erasure tx = None →
    s' = record_opt mutation now (apply_rows tx next) →
    commit_effect s tx s'
| commit_erases now claim response next receipt :
    mutation_second (tx_transaction_time tx) = Ok now →
    commit_mutation tx = Ok (Some (Some (claim, response))) →
    commit_snapshot s tx = Ok next →
    validate_context next (tx_context tx) = Ok () →
    unrecorded now (Some (claim, response)) next →
    tx_subject_erasure tx = Some receipt →
    mc_verb claim = MutationVerb.EraseSubject →
    s' = record_mutation claim response now
           (erase_subject (mc_tenant_id claim) (mc_data_subject_id claim) receipt next) →
    commit_effect s tx s'.

Lemma commit_inv s tx s' : commit s tx = Ok s' → commit_effect s tx s'.
Proof.
  unfold commit. destruct (tx_committed tx); [done|].
  destruct (mutation_second _) as [now|] eqn:Enow; simpl; [|done].
  destruct (commit_mutation tx) as [[mutation|]|] eqn:Emut; simpl; [| |done].
  2: { intros [= <-]. by apply commit_nothing. }
  destruct (commit_snapshot s tx) as [next|] eqn:Enext; simpl; [|done].
  destruct (validate_context next _) as [[]|] eqn:Eval; simpl; [|done].
  destruct (match mutation with Some _ => _ | None => _ end) as [[|]|] eqn:Erec; [|done|].
  { intros [= <-]. by apply commit_nothing. }
  assert (unrecorded now mutation next) as Hun.
  { intros claim response -> entry Hentry. rewrite Hentry in Erec.
    destruct (Z.ltb_spec now (le_expires_at_second entry)); [done|lia]. }
  destruct (tx_subject_erasure tx) as [receipt|] eqn:Eer.
  - destruct mutation as [[claim response]|]; simpl; [|done].
    case_bool_decide; simpl; [|done]. destruct (negb _); [done|]. intros [= <-].
    by eapply commit_erases.
  - intros [= <-]. by eapply commit_writes.
Qed.

Lemma commit_snapshot_frame s tx next :
  commit_snapshot s tx = Ok next →
  st_mutation_ledger next = st_mutation_ledger s ∧
  st_subject_tombstones next = st_subject_tombstones s ∧
  st_context_bindings next = st_context_bindings s.
Proof.
  unfold commit_snapshot. destruct (tx_state_snapshot tx) as [[baseline staged]|].
  - destruct (negb _); [done|]. by intros [= <-].
  - by intros [= <-].
Qed.

Lemma validate_erased s context :
  is_Some (st_subject_tombstones s !! (cx_tenant_id context, cx_data_subject_id context)) →
  validate_context s context = Err StoreError.SubjectErased.
Proof. intros Ht. unfold validate_context. by rewrite bool_decide_true. Qed.

Lemma commit_keeps_tombstones s tx s' key :
  commit s tx = Ok s' →
  is_Some (st_subject_tombstones s !! key) → is_Some (st_subject_tombstones s' !! key).
Proof.
  intros [ -> |now mutation next _ _ Hs _ _ _ ->|now claim response next receipt _ _ Hs _ _ _ _ ->
    ]%commit_inv Hk; [done| |]; apply commit_snapshot_frame in Hs as (_ & Ht & _).
  - destruct mutation as [[]|]; simpl; by rewrite Ht.
  - simpl. rewrite Ht. apply lookup_insert_is_Some'. by right.
Qed.

(** once a subject is erased no transaction of any of its contexts changes
    the store: its commit is refused, unless it only replays a recorded
    mutation, and then the store stays as it is. *)
Theorem erased_subject_is_frozen s tx s' :
  is_Some (st_subject_tombstones s !!
             (cx_tenant_id (tx_context tx), cx_data_subject_id (tx_context tx))) →
  commit s tx = Ok s' → s' = s ∧ commit_mutation tx = Ok None.
Proof.
  intros Ht. unfold commit. destruct (tx_committed tx); [done|].
  destruct (mutation_second _) as [now|]; simpl; [|done].
  destruct (commit_mutation tx) as [[mutation|]|]; simpl; [| |done].
  2: { by intros [= <-]. }
  destruct (commit_snapshot s tx) as [next|] eqn:Hs; simpl; [|done].
  apply commit_snapshot_frame in Hs as (_ & Hn & _).
  rewrite validate_erased; [done|]. by rewrite Hn.
Qed.

(** ** The retention window *)

(** A claim is settled: its subject is erased, or its response is on record. *)
Definition settled (claim : MutationClaim) (response : MutationResponse) (expires : Z)
    (s : InMemoryState) : Prop :=
  is_Some (st_subject_tombstones s !! (mc_tenant_id claim, mc_data_subject_id claim)) ∨
  st_mutation_ledger s !! claim_key claim = Some (mkLedgerEntry claim response expires).

(** Steps of the store at times before [horizon]: commits and claims of any
    transactions, and operations that leave ledger and tombstones alone. *)
Inductive store_step (horizon : Z) (s : InMemoryState) : InMemoryState → Prop :=
| step_commit tx now s' :
    tx_wf tx → mutation_second (tx_transaction_time tx) = Ok now → (now < horizon)%Z →
    commit s tx = Ok s' → store_step horizon s s'
| step_claim claim tx now :
    mutation_second (tx_transaction_time tx) = Ok now → (now < horizon)%Z →
    store_step horizon s (stage_mutation_claim s claim tx).1.1
| step_other s' :
    st_mutation_ledger s' = st_mutation_ledger s →
    st_subject_tombstones s' = st_subject_tombstones s → store_step horizon s s'.

Lemma settled_record claim response expires c r now s :
  (∀ entry, st_mutation_ledger s !! claim_key c = Some entry →
     (le_expires_at_second entry ≤ now)%Z) →
  (now < expires)%Z →
  settled claim response expires s →
  settled claim response expires (record_mutation c r now s).
Proof.
  intros Hun Hlt [Ht|Hl]; [by left|]. right. simpl.
  rewrite lookup_insert_ne; [done|]. intros Heq. rewrite Heq in Hun.
  specialize (Hun _ Hl). simpl in Hun. lia.
Qed.

Lemma settled_erase claim response expires receipt tenant subject s :
  settled claim response expires s →
  settled claim response expires (erase_subject tenant subject receipt s).
Proof.
  intros [Ht|Hl].
  - left. simpl. apply lookup_insert_is_Some'. by right.
  - destruct (decide ((tenant, subject) = (mc_tenant_id claim, mc_data_subject_id claim)))
      as [[= -> ->]|Hne].
    + left. simpl. by rewrite lookup_insert_eq.
    + right. simpl. apply lookup_retain_map. split; [done|]. simpl.
      apply orb_true_iff. rewrite !negb_true_iff, !N.eqb_neq.
      destruct (decide (mc_tenant_id claim = tenant)); [right|by left]. congruence.
Qed.

Lemma settled_frame claim response expires s s' :
  st_mutation_ledger s' = st_mutation_ledger s →
  st_subject_tombstones s' = st_subject_tombstones s →
  settled claim response expires s → settled claim response expires s'.
Proof. unfold settled. by intros -> ->. Qed.

Lemma claim_store s c tx :
  (stage_mutation_claim s c tx).1.1 = s ∨
  ∃ now, mutation_second (tx_transaction_time tx) = Ok now ∧
    (stage_mutation_claim s c tx).1.1 = prune_ledger now s.
Proof.
  unfold stage_mutation_claim. destruct (tx_committed tx); [by left|].
  destruct (negb _); [by left|]. destruct (negb _ || negb _)%bool; [by left|].
  destruct (tx_mutation tx); [left; by destruct (negb _)|].
  destruct (mutation_second _) as [now|]; [|by left]. right. exists now. split; [done|].
  by destruct (match st_mutation_ledger _ !! _ with Some _ => _ | None => _ end).
Qed.

Lemma settled_step claim response expires s s' :
  store_step expires s s' → settled claim response expires s → settled claim response expires s'.
Proof.
  intros [tx now s'' _ Hnow Hlt Hc|c tx now Hnow Hlt|s'' Hl Ht] Hset.
  - apply commit_inv in Hc as [ -> |now' mutation next Hn _ Hs _ Hun _ ->
      |now' c r next receipt Hn _ Hs _ Hun _ _ ->]; [done| |];
      apply commit_snapshot_frame in Hs as (Hl & Ht & _);
      assert (now' = now) as -> by congruence.
    + apply (settled_frame _ _ _ s (apply_rows tx next)) in Hset; [|exact Hl|exact Ht].
      destruct mutation as [[c r]|]; [|done]. apply settled_record; [|done..].
      intros entry He. by eapply Hun.
    + apply (settled_frame _ _ _ s next) in Hset; [|exact Hl|exact Ht].
      apply settled_record; [|done|by apply settled_erase].
      intros entry He%lookup_retain_map. eapply Hun; [done|]. apply He.
  - destruct (claim_store s c tx) as [->|(now' & Hnow' & ->)]; [done|].
    assert (now' = now) as -> by congruence.
    destruct Hset as [Ht|Hl]; [by left|right]. simpl. apply lookup_retain_map.
    split; [done|]. simpl. by apply Z.ltb_lt.
  - by apply (settled_frame _ _ _ s).
Qed.

Lemma settled_steps claim response expires s s' :
  rtc (store_step expires) s s' → settled claim response expires s →
  settled claim response expires s'.
Proof. induction 1; eauto using settled_step. Qed.

(** The transaction executes the claim: it is no replay, carries its response
    and no unexpired entry is on record under the key. *)
Definition executes (s : InMemoryState) (tx : InMemoryTxn) (claim : MutationClaim)
    (response : MutationResponse) (now : Z) : Prop :=
  tx_mutation tx = Some (mkStagedMutation claim (Some response) false) ∧
  mutation_second (tx_transaction_time tx) = Ok now ∧
  ∀ entry, st_mutation_ledger s !! claim_key claim = Some entry →
    (le_expires_at_second entry ≤ now)%Z.

Lemma executes_recorded s tx s' claim response now :
  executes s tx claim response now → commit s tx = Ok s' →
  st_mutation_ledger s' !! claim_key claim = Some (mkLedgerEntry claim response (now + DAY_SECONDS)).
Proof.
  intros (Hm & Hnow & Hun) Hc. unfold commit in Hc.
  destruct (tx_committed tx); [done|]. rewrite Hnow in Hc. simpl in Hc.
  unfold commit_mutation in Hc. rewrite Hm in Hc. simpl in Hc.
  destruct (commit_snapshot s tx) as [next|] eqn:Hs; simpl in Hc; [|done].
  apply commit_snapshot_frame in Hs as (Hl & _). rewrite Hl in Hc.
  destruct (validate_context _ _); simpl in Hc; [|done].
  assert (match st_mutation_ledger s !! claim_key claim with
          | Some existing =>
              if (now <? le_expires_at_second existing)%Z
              then Some (bool_decide (le_claim existing = claim)) else None
          | None => None
          end = None) as Hnone.
  { destruct (_ !! _) as [entry|] eqn:E; [|done].
    destruct (Z.ltb_spec now (le_expires_at_second entry)); [|done].
    specialize (Hun entry eq_refl). lia. }
  rewrite Hnone in Hc. destruct (tx_subject_erasure tx); simpl in Hc.
  - case_bool_decide; simpl in Hc; [|done]. destruct (negb _); [done|].
    injection Hc as <-. simpl. apply lookup_insert_eq.
  - injection Hc as <-. simpl. apply lookup_insert_eq.
Qed.

(** A commit of an execution that is no erasure installs the staged part and the
    rows, and records the response. *)
Lemma commit_installs s tx s' claim response now :
  executes s tx claim response now → mc_verb claim ≠ MutationVerb.EraseSubject →
  commit s tx = Ok s' →
  ∃ next, commit_snapshot s tx = Ok next ∧ validate_context next (tx_context tx) = Ok () ∧
    s' = record_mutation claim response now (apply_rows tx next).
Proof.
  intros Hex Hverb Hc. pose proof (executes_recorded _ _ _ _ _ _ Hex Hc) as Hrec.
  destruct Hex as (Hm & Hnow & Hun).
  apply commit_inv in Hc as [ -> |now' mutation next Hn Hmut Hs Hv _ _ ->
    |now' claim' response' next receipt _ Hmut _ _ _ _ Hverb' _].
  - specialize (Hun _ Hrec). simpl in Hun. unfold DAY_SECONDS in Hun. lia.
  - unfold commit_mutation in Hmut. rewrite Hm in Hmut. injection Hmut as <-.
    exists next. split_and!; [done..|]. simpl. congruence.
  - exfalso. unfold commit_mutation in Hmut. rewrite Hm in Hmut. injection Hmut as <- _. done.
Qed.

Lemma executes_settled s tx s' claim response now :
  executes s tx claim response now → commit s tx = Ok s' →
  settled claim response (now + DAY_SECONDS) s'.
Proof. intros. right. by eapply executes_recorded. Qed.

(** A commit of a settled claim changes nothing. *)
Lemma settled_commit s tx s' claim response expires staged now :
  settled claim response expires s → tx_wf tx →
  tx_mutation tx = Some staged → sm_claim staged = claim →
  mutation_second (tx_transaction_time tx) = Ok now → (now < expires)%Z →
  commit s tx = Ok s' → s' = s.
Proof.
  intros Hset Hwf Hm Hclaim Hnow Hlt Hc. apply commit_inv in Hc.
  assert (∀ mutation next,
    commit_mutation tx = Ok (Some mutation) → commit_snapshot s tx = Ok next →
    validate_context next (tx_context tx) = Ok () → unrecorded now mutation next → False) as Hno.
  { intros mutation next Hmut Hs Hv Hun. apply commit_snapshot_frame in Hs as (Hl & Ht & _).
    unfold commit_mutation in Hmut. rewrite Hm in Hmut.
    destruct (sm_replay staged); [by destruct (_ || _)%bool|].
    destruct (sm_response staged); simpl in Hmut; [|done]. injection Hmut as <-.
    destruct (Hwf staged Hm) as (Htn & Hsu & _). destruct Hset as [Hset|Hset].
    - rewrite validate_erased in Hv; [done|]. by rewrite Ht, <-Htn, <-Hsu, Hclaim.
    - specialize (Hun _ _ eq_refl (mkLedgerEntry claim response expires)).
      rewrite Hl, Hclaim in Hun. specialize (Hun Hset). simpl in Hun. lia. }
  destruct Hc as [|now' ? ? Hn|now' ? ? ? ? Hn]; [done|..]; exfalso;
    assert (now' = now) as -> by congruence; eauto.
Qed.

(** C16: a claim executes at most once in the 24 hours of its ledger entry.
    After a commit executed it, whatever claims and commits follow, any later
    commit of the same claim before the entry expires is refused or changes
    nothing. *)
Theorem mutation_executes_once s0 tx0 s1 claim response now0 s2 tx staged now s3 :
  executes s0 tx0 claim response now0 → commit s0 tx0 = Ok s1 →
  rtc (store_step (now0 + DAY_SECONDS)) s1 s2 →
  tx_wf tx → tx_mutation tx = Some staged → sm_claim staged = claim →
  mutation_second (tx_transaction_time tx) = Ok now → (now < now0 + DAY_SECONDS)%Z →
  commit s2 tx = Ok s3 → s3 = s2.
Proof.
  intros Hex Hc Hsteps Hwf Hm Hcl Hnow Hlt. eapply settled_commit; try done.
  eapply settled_steps; [done|]. by eapply executes_settled.
Qed.

(** in the same window, and unless the subject was erased since, a retry of
    the request is answered with the recorded response, and another request
    under the same key is an idempotency conflict. *)
Theorem mutation_retry_replays s0 tx0 s1 claim response now0 s2 tx now claim' :
  executes s0 tx0 claim response now0 → commit s0 tx0 = Ok s1 →
  rtc (store_step (now0 + DAY_SECONDS)) s1 s2 →
  st_subject_tombstones s2 !! (mc_tenant_id claim, mc_data_subject_id claim) = None →
  tx_mutation tx = None → tx_committed tx = false →
  mutation_second (tx_transaction_time tx) = Ok now → (now < now0 + DAY_SECONDS)%Z →
  claim_key claim' = claim_key claim →
  mc_subject_generation claim' = cx_subject_generation (tx_context tx) →
  mc_tenant_id claim' = cx_tenant_id (tx_context tx) →
  mc_data_subject_id claim' = cx_data_subject_id (tx_context tx) →
  (stage_mutation_claim s2 claim' tx).2 =
    if bool_decide (claim = claim') then Ok (MutationClaimOutcome.Replay response)
    else Err StoreError.IdempotencyConflict.
Proof.
  intros Hex Hc Hsteps Hnt Hm Hcom Hnow Hlt Hkey Hg Ht Hs.
  assert (settled claim response (now0 + DAY_SECONDS) s2) as [Hset|Hset]
    by (eapply settled_steps; [done|]; by eapply executes_settled).
  { rewrite Hnt in Hset. by destruct Hset. }
  unfold stage_mutation_claim. rewrite Hcom, Hm, Hg, Ht, Hs, !N.eqb_refl, Hnow. simpl.
  assert (retain_map (λ _ entry, (now <? le_expires_at_second entry)%Z) (st_mutation_ledger s2)
            !! claim_key claim' = Some (mkLedgerEntry claim response (now0 + DAY_SECONDS))) as ->.
  { rewrite Hkey. apply lookup_retain_map. split; [done|]. by apply Z.ltb_lt. }
  simpl. by case_bool_decide.
Qed.

(** ** Snapshots *)

Lemma has_rows_false tx :
  has_rows tx = false →
  tx_episodes tx = [] ∧ tx_episode_observation_updates tx = [] ∧ tx_resources tx = [] ∧
  tx_memory_units tx = [] ∧ tx_memory_edges tx = [] ∧ tx_reflect_jobs tx = [].
Proof.
  unfold has_rows. intros Hr. bool_prop.
  destruct (tx_episodes tx), (tx_episode_observation_updates tx), (tx_resources tx),
    (tx_memory_units tx), (tx_memory_edges tx), (tx_reflect_jobs tx); done.
Qed.

Lemma capture_record claim response now s cx :
  capture (record_mutation claim response now s) cx = capture s cx.
Proof. done. Qed.

Lemma capture_apply_rows tx mutation now next cx :
  has_rows tx = false →
  capture (record_opt mutation now (apply_rows tx next)) cx = capture next cx.
Proof.
  intros (He & Ho & Hr & Hu & Hd & Hj)%has_rows_false.
  assert (capture (apply_rows tx next) cx = capture next cx) as <-.
  { unfold apply_rows. rewrite He, Ho, Hr, Hu, Hd, Hj. done. }
  generalize (apply_rows tx next). intros s.
  destruct mutation as [[claim response]|]; [apply capture_record | exact eq_refl].
Qed.

(** C19: a commit of a snapshot takes effect only if the part of its context has
    not changed since it was captured, and then makes the store show exactly
    the staged part: concurrent transactions of one context serialize. *)
Theorem commit_serializes s tx s' baseline staged :
  tx_state_snapshot tx = Some (baseline, staged) →
  has_rows tx = false → tx_subject_erasure tx = None →
  fresh_ids s (tx_context tx) (capture staged (tx_context tx)) →
  commit s tx = Ok s' →
  s' = s ∨
  context_state_eqb (capture s (tx_context tx)) baseline = true ∧
  without_profiles (capture s' (tx_context tx)) ≡
    without_profiles (capture staged (tx_context tx)).
Proof.
  intros Hsnap Hrows Her Hfresh [ -> |now mutation next _ _ Hs _ _ _ ->
    |now claim response next receipt _ _ _ _ _ Her']%commit_inv; [by left| |congruence].
  right. unfold commit_snapshot in Hs. rewrite Hsnap in Hs.
  destruct (context_state_eqb _ _) eqn:Eeq; simpl in Hs; [|done]. split; [done|].
  injection Hs as <-. rewrite capture_apply_rows by done. by apply committed_part.
Qed.

(** ** Other subjects *)

Definition subject_units (s : InMemoryState) (tenant subject : N) : list StoredMemoryUnit :=
  sv_units (subject_view s tenant subject).

Definition other_subject (cx : ResolvedMemoryContext) (tenant subject : N) : Prop :=
  (cx_tenant_id cx, cx_data_subject_id cx) ≠ (tenant, subject).

Lemma captured_units_foreign s cx subject : other_subject cx (cx_tenant_id cx) subject →
  retain (λ u, mu_data_subject_id u =? subject) (ic_units (capture s cx)) = [].
Proof.
  intros Hne. apply retain_none. intros u [_ Hu]%elem_of_retain.
  apply N.eqb_neq. intros Hs. apply Hne. unfold unit_matches_context, owner_matches in Hu.
  bool_prop. congruence.
Qed.

Lemma replace_in_units staged s cx tenant subject : other_subject cx tenant subject →
  NoDup (map mu_id (rows (st_memory_units s) (cx_tenant_id cx))) →
  subject_units (replace_in (capture staged cx) s cx) tenant subject =
    subject_units s tenant subject.
Proof.
  intros Hne Hnd. unfold subject_units, subject_view, replace_in. cbn [sv_units]. simpl.
  destruct (decide (cx_tenant_id cx = tenant)) as [Ht|Ht]; [|by rewrite rows_update_ne by done].
  subst tenant. rewrite rows_update_eq, retain_app.
  change (retain (λ u, unit_matches_context u cx) (rows (st_memory_units staged) (cx_tenant_id cx)))
    with (ic_units (capture staged cx)). rewrite captured_units_foreign, app_nil_r by done.
  rewrite retain_retain. apply retain_ext. intros u Hu.
  destruct (mu_data_subject_id u =? subject) eqn:Es; [|by rewrite andb_false_r].
  rewrite andb_true_r. apply negb_true_iff, mem_false.
  intros (u' & Hid & Hu')%list_elem_of_fmap. apply elem_of_retain in Hu' as [Hu' Hm].
  assert (u' = u) as -> by (eapply NoDup_map_inj; done).
  apply Hne. unfold unit_matches_context, owner_matches in Hm. bool_prop. congruence.
Qed.

(** A commit that appends no units changes units of its own subject only. *)
Lemma commit_keeps_subjects s tx s' tenant subject : tx_wf tx → tx_memory_units tx = [] →
  other_subject (tx_context tx) tenant subject →
  NoDup (map mu_id (rows (st_memory_units s) (cx_tenant_id (tx_context tx)))) →
  commit s tx = Ok s' → subject_units s' tenant subject = subject_units s tenant subject.
Proof.
  intros Hwf Hrows Hne Hnd Hc.
  assert (∀ next, commit_snapshot s tx = Ok next →
    subject_units next tenant subject = subject_units s tenant subject) as Hsnap.
  { intros next. unfold commit_snapshot. destruct (tx_state_snapshot tx) as [[baseline staged]|];
      [destruct (negb _); [done|]|]; intros [= <-]; [by apply replace_in_units|done]. }
  apply commit_inv in Hc as [ -> |now mutation next _ _ Hs _ _ _ ->
    |now claim response next receipt _ Hm Hs _ _ _ _ ->]; [done|..]; apply Hsnap in Hs as <-.
  - unfold subject_units, subject_view. cbn [sv_units].
    assert (st_memory_units (record_opt mutation now (apply_rows tx next)) = st_memory_units next)
      as ->; [|done].
    destruct mutation as [[c r]|]; simpl; by rewrite Hrows.
  - unfold commit_mutation in Hm. destruct (tx_mutation tx) as [staged|] eqn:Et; [|done].
    destruct (sm_replay staged); [by destruct (_ || _)%bool|].
    destruct (sm_response staged); simpl in Hm; [|done]. injection Hm as <- _.
    destruct (Hwf _ Et) as (-> & -> & _). unfold subject_units.
    destruct (erase_subject_frame next _ _ receipt _ _ Hne) as [Hv _].
    transitivity (sv_units (subject_view (erase_subject (cx_tenant_id (tx_context tx))
      (cx_data_subject_id (tx_context tx)) receipt next) tenant subject)); [done|]. by rewrite Hv.
Qed.
End ledger.
