(* ===== verification/Reads.v ===== *)
(** * Reads: what a resolved context may see

    The read operations of [InMemoryStore]
    ([crates/memphant-core/src/lib.rs]).  Every read validates the context
    against the store and then filters the tenant's rows; a definition takes
    the locked state and returns what the operation returns. *)

From S2P Require Import Prelude Types Float Clock Bitemporal Lineage Store Txn Stage.

Record ScopePage : Set := mkScopePage {
  pg_items : list StoredMemoryUnit;
  pg_next_cursor : option UnitId;
  pg_has_more : bool;
}.

Record RecordMaterial : Set := mkRecordMaterial {
  rm_unit : StoredMemoryUnit;
  rm_citations : list StoredCitation;
  rm_lineage : list StoredMemoryEdge;
}.

Record FileSyncTransitionSnapshot : Set := mkSnapshot {
  sn_units : list StoredMemoryUnit;
  sn_edges : list StoredMemoryEdge;
}.

Module DeepSnapshotSourceKind.
Inductive t : Set := Episode | Resource.
#[export] Instance t_eq_dec : EqDecision t.
Proof. solve_decision. Defined.
(** Declaration order, the order of the grouping map's keys. *)
Definition to_N (k : t) : N := match k with Episode => 0 | Resource => 1 end.
Definition of_N (n : N) : option t :=
  match n with 0 => Some Episode | 1 => Some Resource | _ => None end.
#[export] Program Instance t_countable : Countable t := inj_countable to_N of_N _.
Next Obligation. by intros []. Qed.
End DeepSnapshotSourceKind.
Export (hints) DeepSnapshotSourceKind.

Record DeepSnapshotEntry : Set := mkDeepSnapshotEntry {
  de_source_kind : DeepSnapshotSourceKind.t;
  de_source_id : Uuid;
  de_path : string;
  de_body : string;
  de_body_sha256 : string;
  de_bound_units : list StoredMemoryUnit;
}.

Definition deep_source_path (kind : DeepSnapshotSourceKind.t) (id : Uuid) : string :=
  let directory := match kind with
    | DeepSnapshotSourceKind.Episode => "episodes"
    | DeepSnapshotSourceKind.Resource => "resources"
    end in
  directory +:+ "/" +:+ uuid_string id +:+ ".md".

(** [units.sort_by_key(|unit| unit.id.as_uuid())]. *)
Definition unit_id_leb (u v : StoredMemoryUnit) : bool := mu_id u <=? mu_id v.
Definition edge_id_leb (e f : StoredMemoryEdge) : bool := ed_id e <=? ed_id f.

Definition FileSyncTransitionSnapshot_new (units : list StoredMemoryUnit)
    (edges : list StoredMemoryEdge) : FileSyncTransitionSnapshot :=
  mkSnapshot
    (dedup_by (λ u v, mu_id u =? mu_id v) (sort_by unit_id_leb units))
    (dedup_by (λ e f, ed_id e =? ed_id f) (sort_by edge_id_leb edges)).

Definition open_units (self : FileSyncTransitionSnapshot) (context : ResolvedMemoryContext)
    : list StoredMemoryUnit :=
  retain (λ u, bool_decide (mu_transaction_to u = None) &&
               bool_decide (mu_actor_id u = Some (cx_actor_id context)) &&
               allows context (mu_kind u) (mu_scope_id u) (mu_agent_node_id u))
    (sn_units self).

(** ** Row filters *)

(** The subject's row, from a scope and agent the context's policy grants. *)
Definition unit_allowed (context : ResolvedMemoryContext) (u : StoredMemoryUnit) : bool :=
  (mu_data_subject_id u =? cx_data_subject_id context) &&
  (mu_subject_generation u =? cx_subject_generation context) &&
  allows context (mu_kind u) (mu_scope_id u) (mu_agent_node_id u).

(** Gate G2: on the context's own node another actor's unit is denied. *)
Definition actor_fence (context : ResolvedMemoryContext) (u : StoredMemoryUnit) : bool :=
  negb ((mu_scope_id u =? cx_scope_id context) &&
        (mu_agent_node_id u =? cx_agent_node_id context)) ||
  bool_decide (mu_actor_id u = Some (cx_actor_id context)) ||
  bool_decide (mu_actor_id u = None).

(** A unit of the context's own scope and agent node, by any actor. *)
Definition own_node_unit (context : ResolvedMemoryContext) (u : StoredMemoryUnit) : bool :=
  (mu_data_subject_id u =? cx_data_subject_id context) &&
  (mu_subject_generation u =? cx_subject_generation context) &&
  (mu_scope_id u =? cx_scope_id context) &&
  (mu_agent_node_id u =? cx_agent_node_id context).

Section reads.
Context `{HashOrder} `{Jiff} `{Sha256}.
Implicit Types (state : InMemoryState) (context : ResolvedMemoryContext).

(** [state.validate_context(context)?] before a read. *)
Definition reading {A} state context (a : A) : result StoreError.t A :=
  _ <-? validate_context state context; Ok a.

Definition tenant_units state context : list StoredMemoryUnit :=
  rows (st_memory_units state) (cx_tenant_id context).
Definition tenant_edges state context : list StoredMemoryEdge :=
  rows (st_memory_edges state) (cx_tenant_id context).

(** ** Recall candidates *)

Definition recall_candidate context (kinds : list MemoryKind.t) (time : RecallTime)
    (u : StoredMemoryUnit) : bool :=
  unit_allowed context u && actor_fence context u &&
  (is_empty kinds || bool_decide (mu_kind u ∈ kinds)) &&
  bitemporally_recallable u time.

Definition fetch_recall_candidates state context (kinds : list MemoryKind.t)
    (time : RecallTime) (limit : nat) : result StoreError.t (list StoredMemoryUnit) :=
  reading state context
    (take limit (retain (recall_candidate context kinds time) (tenant_units state context))).

(** The nearest of a unit's embeddings: [min_by] keeps the first minimum. *)
Definition nearer (best d : f32) : f32 :=
  match f32_cmp_or_equal best d with Gt => d | _ => best end.
Definition min_distance (ds : list f32) : option f32 :=
  match ds with [] => None | d :: ds => Some (foldl nearer d ds) end.

Definition unit_distance (rows : list EmbeddingRow) (query_vec : list f32) (profile_id : Uuid)
    (u : StoredMemoryUnit) : option f32 :=
  min_distance
    (map (λ row, f32_sub f32_one (cosine_similarity query_vec (em_vec row)))
       (retain (λ row, (em_embedding_profile_id row =? profile_id) &&
                       (em_memory_unit_id row =? mu_id u)) rows)).

Definition scored_leb (l r : StoredMemoryUnit * f32) : bool :=
  match f32_cmp_or_equal l.2 r.2 with
  | Lt => true
  | Gt => false
  | Eq => negb (is_gt (str_cmp (mu_body l.1) (mu_body r.1)))
  end.

Definition fetch_vector_candidates state context (query_vec : list f32) (profile_id : Uuid)
    (time : RecallTime) (limit : nat)
    : result StoreError.t (list (StoredMemoryUnit * f32)) :=
  let embeddings := rows (st_embeddings state) (cx_tenant_id context) in
  let scored :=
    omap (λ u, d ← unit_distance embeddings query_vec profile_id u; Some (u, d))
      (retain (λ u, unit_allowed context u && bitemporally_recallable u time)
         (tenant_units state context)) in
  reading state context (take limit (sort_by scored_leb scored)).

Definition fetch_units_by_ids state context (ids : list UnitId)
    : result StoreError.t (list StoredMemoryUnit) :=
  reading state context
    (retain (λ u, mem (mu_id u) ids && unit_allowed context u) (tenant_units state context)).

(** ** Edges *)

Definition edge_transaction_visible (t : string) (e : StoredMemoryEdge) : bool :=
  match ed_transaction_from e with
  | Some from => negb (is_gt (cmp_rfc3339 from t))
  | None => true
  end &&
  match ed_transaction_to e with
  | Some to => is_lt (cmp_rfc3339 t to)
  | None => true
  end.

Definition fetch_edges state context (unit_ids : list UnitId) (time : RecallTime)
    : result StoreError.t (list StoredMemoryEdge) :=
  let requested_ids : gset N := list_to_set (map mu_id
    (retain (λ u, mem (mu_id u) unit_ids && unit_allowed context u)
       (tenant_units state context))) in
  let authorized_ids : gset N := list_to_set (map mu_id
    (retain (unit_allowed context) (tenant_units state context))) in
  reading state context
    (retain (edge_transaction_visible (rc_transaction_as_of time))
      (retain (λ e, (bool_decide (ed_src_id e ∈ requested_ids) ||
                     bool_decide (ed_dst_id e ∈ requested_ids)) &&
                    bool_decide (ed_src_id e ∈ authorized_ids) &&
                    bool_decide (ed_dst_id e ∈ authorized_ids))
         (tenant_edges state context))).

(** ** Record material *)

Definition is_lineage_kind (k : MemoryEdgeKind.t) : bool :=
  match k with
  | MemoryEdgeKind.Supersedes | MemoryEdgeKind.Contradicts
  | MemoryEdgeKind.DerivedFrom | MemoryEdgeKind.Cites => true
  | _ => false
  end.

Definition fetch_record_material state context (ids : list UnitId) (time : RecallTime)
    : result StoreError.t (list RecordMaterial) :=
  let authorized : gmap N StoredMemoryUnit := extend_map
    (map (λ u, (mu_id u, u))
       (retain (λ u, unit_allowed context u && bitemporally_recallable u time)
          (tenant_units state context))) ∅ in
  let contains id := bool_decide (is_Some (authorized !! id)) in
  reading state context
    (map (λ unit,
       mkRecordMaterial unit
         (retain (λ c, (ci_memory_unit_id c =? mu_id unit) &&
                       (ci_data_subject_id c =? cx_data_subject_id context) &&
                       (ci_subject_generation c =? cx_subject_generation context))
            (rows (st_citations state) (cx_tenant_id context)))
         (retain (λ e, ((ed_src_id e =? mu_id unit) || (ed_dst_id e =? mu_id unit)) &&
                       (contains (ed_src_id e) && contains (ed_dst_id e)) &&
                       edge_transaction_visible (rc_transaction_as_of time) e &&
                       is_lineage_kind (ed_kind e))
            (tenant_edges state context)))
       (omap (λ id, authorized !! id) ids)).

(** ** Review events *)

Definition own_trace context (trace : RetrievalTrace) : bool :=
  (tr_data_subject_id trace =? cx_data_subject_id context) &&
  (tr_subject_generation trace =? cx_subject_generation context) &&
  (tr_scope_id trace =? cx_scope_id context) &&
  (tr_actor_id trace =? cx_actor_id context) &&
  (tr_agent_node_id trace =? cx_agent_node_id context).

Definition tenant_traces state context : list RetrievalTrace :=
  rows (st_retrieval_traces state) (cx_tenant_id context).

Definition fetch_review_events state context (unit_ids : list UnitId) (time : RecallTime)
    : result StoreError.t (list ReviewEvent) :=
  let trace_ids : gset N :=
    list_to_set (map tr_id (retain (own_trace context) (tenant_traces state context))) in
  reading state context
    (map (λ event, event <| rv_used_ids ::= retain (λ id, mem id unit_ids) |>)
      (retain (λ event,
           bool_decide (rv_trace_id event ∈ trace_ids) &&
           (is_empty (rv_used_ids event) || any (λ id, mem id unit_ids) (rv_used_ids event)) &&
           negb (is_gt (cmp_rfc3339 (rv_recorded_at event) (rc_transaction_as_of time))))
         (rows (st_review_events state) (cx_tenant_id context)))).

(** ** Sources *)

Definition tenant_episodes state context : list StoredEpisode :=
  rows (st_episodes state) (cx_tenant_id context).
Definition tenant_resources state context : list StoredResource :=
  rows (st_resources state) (cx_tenant_id context).

Definition fetch_episodes_for_scope state context (limit : nat)
    : result StoreError.t (list StoredEpisode) :=
  reading state context
    (take limit (retain (λ e,
       (ep_data_subject_id e =? cx_data_subject_id context) &&
       (ep_subject_generation e =? cx_subject_generation context) &&
       allows context MemoryKind.Episodic (ep_scope_id e) (ep_agent_node_id e))
       (tenant_episodes state context))).

Definition fetch_episode state context (id : EpisodeId)
    : result StoreError.t (option StoredEpisode) :=
  reading state context
    (find (λ e, (ep_id e =? id) && owned_episode context e) (tenant_episodes state context)).

Definition fetch_episodes_by_ids state context (ids : list EpisodeId)
    : result StoreError.t (list StoredEpisode) :=
  reading state context
    (retain (λ e, mem (ep_id e) ids && owned_episode context e) (tenant_episodes state context)).

Definition fetch_resource state context (id : ResourceId)
    : result StoreError.t (option StoredResource) :=
  reading state context
    (find (λ r, (re_id r =? id) && owned_resource context r) (tenant_resources state context)).

Definition fetch_resources_by_ids state context (ids : list ResourceId)
    : result StoreError.t (list StoredResource) :=
  reading state context
    (retain (λ r, mem (re_id r) ids && owned_resource context r)
       (tenant_resources state context)).

(** ** Listing *)

Definition page_units state context : list StoredMemoryUnit :=
  retain (λ u, own_node_unit context u &&
               allows context (mu_kind u) (mu_scope_id u) (mu_agent_node_id u))
    (tenant_units state context).

Definition page_after (cursor : option UnitId) (units : list StoredMemoryUnit)
    : list StoredMemoryUnit :=
  match cursor with Some c => retain (λ u, c <? mu_id u) units | None => units end.

(** The page of the units after the cursor, in id order. *)
Definition page_of (units : list StoredMemoryUnit) (cursor : option UnitId) (limit : nat)
    : ScopePage :=
  let units := page_after cursor (sort_by unit_id_leb units) in
  let has_more := (limit <? length units)%nat in
  let items := take (Nat.max limit 1) units in
  mkScopePage items (if has_more then mu_id <$> last items else None) has_more.

Definition scope_memory_page state context (cursor : option UnitId) (limit : nat)
    : result StoreError.t ScopePage :=
  reading state context (page_of (page_units state context) cursor limit).

(** ** Projections *)

Definition is_canonical_kind (kind : MemoryKind.t) (s : UnitState.t) : bool :=
  match kind, s with
  | MemoryKind.Semantic, (UnitState.Active | UnitState.Validated) => true
  | MemoryKind.Procedural, UnitState.Validated => true
  | _, _ => false
  end.

Definition in_memory_canonical_projection_units state context (evaluated_at : string)
    : list StoredMemoryUnit :=
  let time := mkRecallTime evaluated_at evaluated_at evaluated_at in
  sort_by unit_id_leb
    (retain (λ u,
       unit_matches_context u context &&
       allows context (mu_kind u) (mu_scope_id u) (mu_agent_node_id u) &&
       bool_decide (mu_deletion_generation u = None) &&
       negb (bool_decide (mu_trust_level u = TrustLevel.Quarantined)) &&
       bitemporally_recallable u time &&
       is_canonical_kind (mu_kind u) (mu_state u)) (tenant_units state context)).

Definition canonical_projection_units state context (evaluated_at : string)
    : result StoreError.t (list StoredMemoryUnit) :=
  reading state context (in_memory_canonical_projection_units state context evaluated_at).

Definition in_memory_scope_open_units state context : list StoredMemoryUnit :=
  sort_by unit_id_leb
    (retain (λ u, own_node_unit context u &&
                  allows context (mu_kind u) (mu_scope_id u) (mu_agent_node_id u) &&
                  bool_decide (mu_transaction_to u = None)) (tenant_units state context)).

Definition fetch_scope_open_units state context : result StoreError.t (list StoredMemoryUnit) :=
  reading state context (in_memory_scope_open_units state context).

Definition in_memory_file_sync_transition_snapshot state context : FileSyncTransitionSnapshot :=
  let units := retain (λ u, owner_matches u context) (tenant_units state context) in
  let unit_ids : gset N := list_to_set (map mu_id units) in
  FileSyncTransitionSnapshot_new units
    (retain (λ e, bool_decide (ed_src_id e ∈ unit_ids) && bool_decide (ed_dst_id e ∈ unit_ids))
       (tenant_edges state context)).

Definition fetch_file_sync_transition_snapshot state context
    : result StoreError.t FileSyncTransitionSnapshot :=
  reading state context (in_memory_file_sync_transition_snapshot state context).

(** The three reads inside a transaction see its staged state. *)
Definition reading_in_tx {A} (read : InMemoryState → ResolvedMemoryContext → A)
    (store : InMemoryState) (tx : InMemoryTxn) : InMemoryTxn * result StoreError.t A :=
  with_staged store (λ context state, Ok (read state context, state)) tx.

Definition canonical_projection_units_in_tx (evaluated_at : string) :=
  reading_in_tx (λ state context, in_memory_canonical_projection_units state context evaluated_at).
Definition fetch_scope_open_units_in_tx := reading_in_tx in_memory_scope_open_units.
Definition fetch_file_sync_transition_snapshot_in_tx :=
  reading_in_tx in_memory_file_sync_transition_snapshot.

(** ** The deep snapshot *)

(** The columns a source row must share with the unit it is the source of. *)
Definition source_owner_matches (u : StoredMemoryUnit)
    (tenant_id data_subject_id subject_generation scope_id agent_node_id : N) : bool :=
  (tenant_id =? mu_tenant_id u) && (data_subject_id =? mu_data_subject_id u) &&
  (subject_generation =? mu_subject_generation u) && (scope_id =? mu_scope_id u) &&
  (agent_node_id =? mu_agent_node_id u).

Definition is_quarantined (t : TrustLevel.t) : bool := bool_decide (t = TrustLevel.Quarantined).

(** A map collected from rows keeps the last row of a key. *)
Definition episode_by_id state context : gmap N StoredEpisode :=
  extend_map (map (λ e, (ep_id e, e)) (tenant_episodes state context)) ∅.
Definition resource_by_id state context : gmap N StoredResource :=
  extend_map (map (λ r, (re_id r, r)) (tenant_resources state context)) ∅.

Definition deep_episode_source state context (u : StoredMemoryUnit) (episode_id : EpisodeId)
    : option (DeepSnapshotSourceKind.t * N * string) :=
  episode ← episode_by_id state context !! episode_id;
  if negb (allows context MemoryKind.Episodic (ep_scope_id episode) (ep_agent_node_id episode)) ||
     negb (source_owner_matches u (ep_tenant_id episode) (ep_data_subject_id episode)
             (ep_subject_generation episode) (ep_scope_id episode) (ep_agent_node_id episode)) ||
     is_quarantined (ep_source_trust episode)
  then None
  else Some (DeepSnapshotSourceKind.Episode, episode_id, ep_body episode).

Definition deep_resource_source state context (u : StoredMemoryUnit) (resource_id : ResourceId)
    : option (DeepSnapshotSourceKind.t * N * string) :=
  resource ← resource_by_id state context !! resource_id;
  if negb (allows context MemoryKind.Resource (re_scope_id resource) (re_agent_node_id resource)) ||
     negb (source_owner_matches u (re_tenant_id resource) (re_data_subject_id resource)
             (re_subject_generation resource) (re_scope_id resource)
             (re_agent_node_id resource)) ||
     is_quarantined (re_source_trust resource) || negb (acl_is_deep_eligible (re_acl resource))
  then None
  else body ← re_body resource;
       Some (DeepSnapshotSourceKind.Resource, resource_id, body).

Definition deep_eligible state context (time : RecallTime) (u : StoredMemoryUnit) : bool :=
  (mu_tenant_id u =? cx_tenant_id context) && unit_allowed context u &&
  deep_unit_is_snapshot_eligible u time && negb (is_forgotten_source state u).

Definition deep_source state context (u : StoredMemoryUnit)
    : option (DeepSnapshotSourceKind.t * N * string) :=
  match mu_source_episode_id u with
  | Some episode_id => deep_episode_source state context u episode_id
  | None =>
      match mu_source_resource_id u with
      | Some resource_id => deep_resource_source state context u resource_id
      | None => None
      end
  end.

Notation DeepGroups := (gmap (DeepSnapshotSourceKind.t * N) (string * list StoredMemoryUnit)).

(** One iteration of the loop over the tenant's units. *)
Definition deep_step state context (time : RecallTime) (grouped : DeepGroups)
    (u : StoredMemoryUnit) : DeepGroups :=
  if negb (deep_eligible state context time u) then grouped
  else match deep_source state context u with
  | None => grouped
  | Some (kind, id, body) =>
      let entry := default (body, []) (grouped !! (kind, id)) in
      <[(kind, id) := (entry.1, entry.2 ++ [u])]> grouped
  end.

Definition deep_key_leb (a b : DeepSnapshotSourceKind.t * N) : bool :=
  match DeepSnapshotSourceKind.to_N a.1 ?= DeepSnapshotSourceKind.to_N b.1 with
  | Lt => true | Gt => false | Eq => a.2 <=? b.2
  end.

Definition deep_entry (kv : (DeepSnapshotSourceKind.t * N) * (string * list StoredMemoryUnit))
    : DeepSnapshotEntry :=
  mkDeepSnapshotEntry kv.1.1 kv.1.2 (deep_source_path kv.1.1 kv.1.2) kv.2.1
    (sha256_hex kv.2.1) (sort_by unit_id_leb kv.2.2).

Definition fetch_deep_snapshot state context (time : RecallTime)
    : result StoreError.t (list DeepSnapshotEntry) :=
  let grouped := foldl (deep_step state context time) ∅ (tenant_units state context) in
  reading state context
    (map deep_entry (sort_by (λ a b, deep_key_leb a.1 b.1) (map_to_list grouped))).

(** ** Traces *)

Definition trace_matches_context context (trace : RetrievalTrace) : bool :=
  (tr_tenant_id trace =? cx_tenant_id context) && own_trace context trace &&
  String.eqb (tr_policy_revision trace) (cx_policy_revision context).

Definition put_trace (trace : RetrievalTrace) (traces : list RetrievalTrace)
    : list RetrievalTrace :=
  if any (λ t, tr_id t =? tr_id trace) traces
  then update_first (λ t, tr_id t =? tr_id trace) (λ _, trace) traces
  else traces ++ [trace].

Definition store_trace state context (trace : RetrievalTrace)
    : result StoreError.t InMemoryState :=
  if negb (trace_matches_context context trace)
  then Err (StoreError.Conflict "trace context mismatch")
  else reading state context
    (state <| st_retrieval_traces ::=
       update_rows (cx_tenant_id context) (put_trace trace) |>).

Definition trace_by_id state context (id : TraceId)
    : result StoreError.t (option RetrievalTrace) :=
  reading state context
    (find (λ t, (tr_id t =? id) && own_trace context t) (tenant_traces state context)).

(** The trace of a completed job under a compiler, refused to a context that
    does not own the job's identity. *)
Definition fetch_reflect_trace state context (job_id : JobId) (compiler_version : string)
    : result StoreError.t (option ReflectTrace) :=
  _ <-? validate_context state context;
    match st_reflect_trace_owners state !! (cx_tenant_id context, job_id, compiler_version) with
    | None => Ok None
    | Some existing =>
        if bool_decide (existing = owner_value context)
        then Ok (find (λ t, (rt_job_id t =? job_id) &&
                            String.eqb (rt_compiler_version t) compiler_version)
                   (rows (st_reflect_traces state) (cx_tenant_id context)))
        else Err (StoreError.Conflict "reflect job identity belongs to another memory context")
    end.

(** ** Embeddings *)

Definition upsert_embeddings state context (new_rows : list EmbeddingRow)
    : result StoreError.t InMemoryState :=
  _ <-? validate_context state context;
    let owned_ids : gset N := list_to_set (map mu_id
      (retain (λ u, unit_matches_context u context) (tenant_units state context))) in
    if any (λ row, negb (bool_decide (em_memory_unit_id row ∈ owned_ids))) new_rows
    then Err (StoreError.PolicyDenied "embedding unit does not match context")
    else Ok (state <| st_embeddings ::= update_rows (cx_tenant_id context)
               (λ stored, foldl (λ stored row, put_embedding row stored) stored new_rows) |>).

Definition upsert_embedding_profile state (tenant : TenantId) (profile : EmbeddingProfileRow)
    : InMemoryState :=
  state <| st_embedding_profiles ::= update_rows tenant
    (λ profiles, if any (λ p, pr_id p =? pr_id profile) profiles then profiles
                 else profiles ++ [profile]) |>.

Definition fetch_embeddings state context (unit_ids : list UnitId)
    : result StoreError.t (list EmbeddingRow) :=
  let owned_ids : gset N := list_to_set (map mu_id
    (retain (λ u, unit_matches_context u context && mem (mu_id u) unit_ids)
       (tenant_units state context))) in
  reading state context
    (retain (λ row, bool_decide (em_memory_unit_id row ∈ owned_ids))
       (rows (st_embeddings state) (cx_tenant_id context))).
End reads.
