(* ===== verification/ReadFacts.v ===== *)
(** * ReadFacts: what the reads guarantee

    Authorization and completeness of the recall reads, the traversal of a
    scope by pages, the deep snapshot as a function of the tenant's rows, and
    the round trips of traces and embeddings. *)

From S2P Require Import Prelude Types Float Clock Bitemporal Lineage Store Txn Stage Reads.

(** ** Lists sorted by id *)

Lemma same_id_same_unit (l : list StoredMemoryUnit) u v :
  NoDup (map mu_id l) → u ∈ l → v ∈ l → mu_id u = mu_id v → u = v.
Proof.
  induction l as [|w l IH]; [by intros _ ?%elem_of_nil|]. simpl.
  intros [Hni Hnd]%NoDup_cons [->|Hu]%elem_of_cons [->|Hv]%elem_of_cons E; [done| | |by apply IH].
  - destruct Hni. rewrite E. by apply list_elem_of_fmap_2.
  - destruct Hni. rewrite <- E. by apply list_elem_of_fmap_2.
Qed.

Definition id_lt (u v : StoredMemoryUnit) : Prop := mu_id u < mu_id v.

Lemma unit_id_sorted units :
  NoDup (map mu_id units) → StronglySorted id_lt (sort_by unit_id_leb units).
Proof.
  intros Hnd.
  assert (NoDup (map mu_id (sort_by unit_id_leb units))) as Hnd'
    by (by rewrite (Permutation_map mu_id (sort_by_perm unit_id_leb units))).
  assert (StronglySorted (λ u v, unit_id_leb u v = true) (sort_by unit_id_leb units)) as Hs.
  { apply sort_by_sorted; unfold unit_id_leb; intros *; rewrite !N.leb_le; lia. }
  revert Hnd'. induction Hs as [|u l Hl IH Hu]; simpl; intros Hnd'; [constructor|].
  apply NoDup_cons in Hnd' as [Hni Hnd']. constructor; [auto|].
  rewrite Forall_forall in *. intros v Hv. specialize (Hu v Hv).
  unfold unit_id_leb in Hu. apply N.leb_le in Hu. unfold id_lt.
  destruct (N.eq_dec (mu_id u) (mu_id v)) as [E|]; [|lia].
  destruct Hni. rewrite E. by apply list_elem_of_fmap_2.
Qed.

Lemma page_after_split A u B :
  StronglySorted id_lt ((A ++ [u]) ++ B) → page_after (Some (mu_id u)) ((A ++ [u]) ++ B) = B.
Proof.
  intros Hs. simpl. rewrite <- app_assoc in *. simpl in *. rewrite retain_app.
  apply StronglySorted_app in Hs as (HA & _ & Hs).
  inversion Hs as [|? ? _ Hu]; subst. rewrite Forall_forall in Hu.
  rewrite retain_none, retain_cons, N.ltb_irrefl; simpl.
  - apply retain_all. intros v Hv. apply N.ltb_lt. by apply Hu.
  - intros v Hv. apply N.ltb_ge. specialize (HA v u Hv ltac:(left)). unfold id_lt in HA. lia.
Qed.

(** ** Traversal by pages *)

(** A client that follows the cursors until a page says it is the last. *)
Fixpoint collect_pages (fuel : nat)
    (fetch : option UnitId → result StoreError.t ScopePage) (cursor : option UnitId)
    : option (result StoreError.t (list ScopePage)) :=
  match fuel with
  | 0%nat => None
  | S fuel =>
      match fetch cursor with
      | Err e => Some (Err e)
      | Ok page =>
          if pg_has_more page then
            match collect_pages fuel fetch (pg_next_cursor page) with
            | Some (Ok pages) => Some (Ok (page :: pages))
            | r => r
            end
          else Some (Ok [page])
      end
  end.

Section pages.
Context `{HashOrder} `{Jiff} `{Sha256}.

Lemma page_of_last units cursor limit :
  (length (page_after cursor (sort_by unit_id_leb units)) <= limit)%nat →
  pg_has_more (page_of units cursor limit) = false ∧
  pg_items (page_of units cursor limit) = page_after cursor (sort_by unit_id_leb units).
Proof.
  intros Hl. unfold page_of. simpl. split; [apply Nat.ltb_ge; lia|]. apply take_ge. lia.
Qed.

Lemma page_of_more units cursor limit A B :
  (limit < length B)%nat →
  sort_by unit_id_leb units = A ++ B → page_after cursor (A ++ B) = B →
  StronglySorted id_lt (A ++ B) →
  let page := page_of units cursor limit in
  let m := Nat.max limit 1 in
  pg_has_more page = true ∧ pg_items page = take m B ∧
  page_after (pg_next_cursor page) (A ++ B) = drop m B.
Proof.
  intros Hl E Hc Hs page m. subst page. unfold page_of. rewrite E, Hc. simpl.
  fold m. rewrite (proj2 (Nat.ltb_lt _ _) Hl). split_and!; [done..|].
  destruct (take m B) as [|x l] eqn:Et using rev_ind.
  { apply (f_equal length) in Et. rewrite length_take in Et. simpl in Et. lia. }
  clear IHl. rewrite last_snoc. simpl fmap.
  assert (A ++ B = ((A ++ l) ++ [x]) ++ drop m B) as EB
    by (by rewrite <- (app_assoc A), <- app_assoc, <- Et, take_drop).
  rewrite EB in *. by apply page_after_split.
Qed.

Lemma collect_pages_from state context limit fuel cursor A B :
  validate_context state context = Ok () →
  (length B < fuel)%nat →
  sort_by unit_id_leb (page_units state context) = A ++ B →
  page_after cursor (A ++ B) = B → StronglySorted id_lt (A ++ B) →
  ∃ pages,
    collect_pages fuel (λ c, scope_memory_page state context c limit) cursor = Some (Ok pages) ∧
    concat (map pg_items pages) = B ∧
    Forall (λ p, (length (pg_items p) <= Nat.max limit 1)%nat) pages.
Proof.
  intros Hv. revert cursor A B. induction fuel as [|fuel IH]; intros cursor A B Hf E Hc Hs; [lia|].
  assert (scope_memory_page state context cursor limit =
          Ok (page_of (page_units state context) cursor limit)) as Hp
    by (unfold scope_memory_page, reading; by rewrite Hv).
  assert (page_after cursor (sort_by unit_id_leb (page_units state context)) = B) as HB
    by (by rewrite E).
  simpl. rewrite Hp. destruct (Nat.le_gt_cases (length B) limit) as [Hl|Hl].
  - destruct (page_of_last (page_units state context) cursor limit) as [-> Hi];
      rewrite HB in *; [done|].
    eexists. split_and!; [done| |]; cbn [concat map]; [rewrite Hi|constructor; [rewrite Hi|done]].
    + apply app_nil_r.
    + lia.
  - destruct (page_of_more (page_units state context) cursor limit A B) as (-> & Hi & Hn); auto.
    set (m := Nat.max limit 1) in *.
    destruct (IH (pg_next_cursor (page_of (page_units state context) cursor limit))
                (A ++ take m B) (drop m B)) as (pages & -> & Hcat & Hlen);
      rewrite <- ?app_assoc, ?take_drop; auto.
    { rewrite length_drop. lia. }
    eexists. split_and!; [done| |]; cbn [concat map]; [rewrite Hi|constructor; [rewrite Hi|done]].
    + by rewrite Hcat, take_drop.
    + rewrite length_take. lia.
Qed.

(** C30: Following the cursors of [scope_memory_page] from the start ends, and
    lists every unit of the context's scope it may see exactly once, in id
    order, whatever the page size (a limit of zero is served as one); no page
    is longer than the limit. *)
Theorem pages_cover_scope state context limit :
  validate_context state context = Ok () →
  NoDup (map mu_id (page_units state context)) →
  ∃ pages,
    collect_pages (S (length (page_units state context)))
      (λ c, scope_memory_page state context c limit) None = Some (Ok pages) ∧
    concat (map pg_items pages) = sort_by unit_id_leb (page_units state context) ∧
    Forall (λ p, (length (pg_items p) <= Nat.max limit 1)%nat) pages.
Proof.
  intros Hv Hnd.
  apply (collect_pages_from _ _ _ _ _ [] (sort_by unit_id_leb (page_units state context)));
    [done| |done|done|by apply unit_id_sorted].
  rewrite (Permutation_length (sort_by_perm unit_id_leb _)). lia.
Qed.
End pages.

(** ** Authorization *)

(** The context's access policy grants the kind from that scope and agent. *)
Definition granted (context : ResolvedMemoryContext) (kind : MemoryKind.t)
    (scope agent : N) : Prop :=
  ∃ sources, cx_sources_by_kind context !! kind = Some sources ∧ mkSource scope agent ∈ sources.

Definition same_subject (context : ResolvedMemoryContext) (subject generation : N) : Prop :=
  subject = cx_data_subject_id context ∧ generation = cx_subject_generation context.

Definition unit_readable (context : ResolvedMemoryContext) (u : StoredMemoryUnit) : Prop :=
  same_subject context (mu_data_subject_id u) (mu_subject_generation u) ∧
  granted context (mu_kind u) (mu_scope_id u) (mu_agent_node_id u).

(** Another actor's unit on the context's own node is private to that actor. *)
Definition foreign_on_own_node (context : ResolvedMemoryContext) (u : StoredMemoryUnit) : Prop :=
  mu_scope_id u = cx_scope_id context ∧ mu_agent_node_id u = cx_agent_node_id context ∧
  ∃ actor, mu_actor_id u = Some actor ∧ actor ≠ cx_actor_id context.

Lemma allows_granted context kind scope agent :
  allows context kind scope agent = true ↔ granted context kind scope agent.
Proof.
  unfold allows, granted. destruct (_ !! kind) as [sources|]; [|naive_solver].
  rewrite bool_decide_eq_true. naive_solver.
Qed.

Lemma unit_allowed_readable context u : unit_allowed context u = true ↔ unit_readable context u.
Proof.
  unfold unit_allowed, unit_readable, same_subject.
  rewrite !andb_true_iff, !N.eqb_eq, allows_granted. done.
Qed.

Lemma actor_fence_spec context u : actor_fence context u = true ↔ ¬ foreign_on_own_node context u.
Proof.
  unfold actor_fence, foreign_on_own_node.
  rewrite !orb_true_iff, negb_true_iff, andb_false_iff, !N.eqb_neq, !bool_decide_eq_true.
  destruct (mu_actor_id u) as [a|]; split; [|intros Hn| |intros Hn].
  - naive_solver.
  - destruct (decide (mu_scope_id u = cx_scope_id context)); [|auto].
    destruct (decide (mu_agent_node_id u = cx_agent_node_id context)); [|auto].
    destruct (decide (a = cx_actor_id context)) as [->|]; [auto|]. destruct Hn. eauto.
  - naive_solver.
  - auto.
Qed.

Section recall.
Context `{HashOrder} `{Jiff} `{Sha256}.

Lemma reading_ok {A} state context (a b : A) :
  reading state context a = Ok b ↔ validate_context state context = Ok () ∧ a = b.
Proof.
  unfold reading. destruct (validate_context state context) as [[]|e]; simpl; naive_solver.
Qed.

Lemma recall_candidate_spec context kinds time u :
  recall_candidate context kinds time u = true ↔
  unit_readable context u ∧ ¬ foreign_on_own_node context u ∧
  (kinds = [] ∨ mu_kind u ∈ kinds) ∧
  mu_deletion_generation u = None ∧ mu_state u ≠ UnitState.Deleted ∧
  in_interval (mu_transaction_from u) (mu_transaction_to u) (rc_transaction_as_of time) ∧
  in_interval (mu_valid_from u) (mu_valid_to u) (rc_valid_at time).
Proof.
  unfold recall_candidate.
  rewrite !andb_true_iff, unit_allowed_readable, actor_fence_spec, recallable_spec,
    orb_true_iff, bool_decide_eq_true.
  assert (is_empty kinds = true ↔ kinds = []) as -> by (destruct kinds; naive_solver).
  tauto.
Qed.

(** recall returns, in storage order and up to the limit, exactly the rows
    of the context's subject and generation that its policy grants, that no
    other actor wrote on the context's own node, of a requested kind, not
    deleted, believed at the transaction time and valid at the valid time. *)
Theorem recall_returns_visible state context kinds time limit units :
  fetch_recall_candidates state context kinds time limit = Ok units →
  ∃ rest,
    units ++ rest `sublist_of` tenant_units state context ∧
    (rest ≠ [] → length units = limit) ∧
    ∀ u, u ∈ units ++ rest ↔
      u ∈ tenant_units state context ∧
      unit_readable context u ∧ ¬ foreign_on_own_node context u ∧
      (kinds = [] ∨ mu_kind u ∈ kinds) ∧
      mu_deletion_generation u = None ∧ mu_state u ≠ UnitState.Deleted ∧
      in_interval (mu_transaction_from u) (mu_transaction_to u) (rc_transaction_as_of time) ∧
      in_interval (mu_valid_from u) (mu_valid_to u) (rc_valid_at time).
Proof.
  intros (_ & <-)%reading_ok.
  set (l := retain _ _). exists (drop limit l). rewrite take_drop. split_and!.
  - apply retain_sublist.
  - intros Hr. rewrite length_take. apply Nat.min_l.
    destruct (Nat.le_gt_cases limit (length l)); [done|]. by rewrite drop_ge in Hr by lia.
  - intros u. subst l. by rewrite elem_of_retain, recall_candidate_spec.
Qed.

(** ** Vector candidates *)

Definition embedded state context (profile_id : Uuid) (u : StoredMemoryUnit) : Prop :=
  ∃ row, row ∈ rows (st_embeddings state) (cx_tenant_id context) ∧
    em_embedding_profile_id row = profile_id ∧ em_memory_unit_id row = mu_id u.

Lemma min_distance_Some ds : is_Some (min_distance ds) ↔ ds ≠ [].
Proof. destruct ds; simpl; split; [by intros [? ?]|done|done|by eexists]. Qed.

Lemma unit_distance_Some state context query_vec profile_id u :
  is_Some (unit_distance (rows (st_embeddings state) (cx_tenant_id context))
             query_vec profile_id u) ↔ embedded state context profile_id u.
Proof.
  unfold unit_distance. rewrite min_distance_Some. unfold embedded. split.
  - intros Hne. destruct (retain _ _) as [|row l] eqn:E; [done|].
    assert (row ∈ row :: l) as Hrow by left. rewrite <- E in Hrow.
    apply elem_of_retain in Hrow as [Hin ?]. bool_prop. eauto.
  - intros (row & Hin & Hp & Hu) E. apply map_eq_nil in E.
    apply (not_elem_of_nil row). rewrite <- E. apply elem_of_retain.
    by rewrite Hp, Hu, !N.eqb_refl.
Qed.

Lemma vector_candidates_elem state context query_vec profile_id time limit scored :
  fetch_vector_candidates state context query_vec profile_id time limit = Ok scored →
  ∃ rest,
    (rest ≠ [] → length scored = limit) ∧
    ∀ u, u ∈ (scored ++ rest).*1 ↔
      u ∈ tenant_units state context ∧ unit_readable context u ∧
      bitemporally_recallable u time = true ∧ embedded state context profile_id u.
Proof.
  intros (_ & <-)%reading_ok. set (l := sort_by _ _).
  exists (drop limit l). rewrite take_drop. split.
  - intros Hr. rewrite length_take. apply Nat.min_l.
    destruct (Nat.le_gt_cases limit (length l)); [done|]. by rewrite drop_ge in Hr by lia.
  - intros u. rewrite list_elem_of_fmap. unfold l. setoid_rewrite elem_of_sort_by.
    setoid_rewrite list_elem_of_omap. setoid_rewrite elem_of_retain.
    rewrite <- (unit_distance_Some state context query_vec). split.
    + intros ([v d] & -> & w & [Hin Hp] & E). simpl.
      destruct (unit_distance _ _ _ w) as [d'|] eqn:Ed; simplify_eq/=.
      apply andb_true_iff in Hp as [Ha%unit_allowed_readable Hb]. rewrite Ed. eauto.
    + intros (Hin & Ha & Hb & d & Ed). exists (u, d). split; [done|].
      exists u. rewrite Ed, (proj2 (unit_allowed_readable _ _) Ha), Hb. done.
Qed.

(** the vector read returns exactly the granted, recallable units with an
    embedding under the profile when the limit admits them all; it applies no
    fence between actors, so another actor's unit on the context's own node is
    a candidate here, though [fetch_recall_candidates] never returns it. *)
Theorem vector_candidates_unfenced state context query_vec profile_id time limit scored :
  fetch_vector_candidates state context query_vec profile_id time limit = Ok scored →
  (length scored < limit)%nat →
  (∀ u, u ∈ scored.*1 ↔
     u ∈ tenant_units state context ∧ unit_readable context u ∧
     bitemporally_recallable u time = true ∧ embedded state context profile_id u) ∧
  ∀ u kinds limit' units, foreign_on_own_node context u →
    fetch_recall_candidates state context kinds time limit' = Ok units → u ∉ units.
Proof.
  intros (rest & Hrest & Hin)%vector_candidates_elem Hlt. split.
  - assert (rest = []) as -> by (destruct rest; [done|]; specialize (Hrest ltac:(done)); lia).
    by rewrite app_nil_r in Hin.
  - intros u kinds limit' units Hf (_ & <-)%reading_ok Hm.
    apply elem_of_take in Hm as (i & Hi & _). apply list_elem_of_lookup_2 in Hi.
    apply elem_of_retain in Hi as [_ Hi].
    apply recall_candidate_spec in Hi. naive_solver.
Qed.

(** ** Edges *)

(** A unit of the tenant the context may read has this id. *)
Definition readable_id state context (id : UnitId) : Prop :=
  ∃ u, u ∈ tenant_units state context ∧ mu_id u = id ∧ unit_readable context u.

Lemma elem_of_id_set p units id :
  id ∈ (list_to_set (map mu_id (retain p units)) : gset N) ↔
  ∃ u, u ∈ units ∧ mu_id u = id ∧ p u = true.
Proof.
  rewrite elem_of_list_to_set, list_elem_of_fmap. setoid_rewrite elem_of_retain. naive_solver.
Qed.

Lemma elem_of_authorized state context id :
  id ∈ (list_to_set (map mu_id (retain (unit_allowed context) (tenant_units state context)))
          : gset N) ↔ readable_id state context id.
Proof.
  rewrite elem_of_id_set. unfold readable_id. split; intros (u & Hu & Hi & Hr);
    exists u; by apply unit_allowed_readable in Hr.
Qed.

Lemma elem_of_requested state context unit_ids id :
  id ∈ (list_to_set (map mu_id
          (retain (λ u, mem (mu_id u) unit_ids && unit_allowed context u)
             (tenant_units state context))) : gset N) ↔
  id ∈ unit_ids ∧ readable_id state context id.
Proof.
  rewrite elem_of_id_set. unfold readable_id, mem. split.
  - intros (u & Hu & <- & Hr). apply andb_true_iff in Hr as [Hm Hr].
    apply bool_decide_eq_true in Hm. apply unit_allowed_readable in Hr. eauto.
  - intros (Hm & u & Hu & <- & Hr). apply unit_allowed_readable in Hr.
    exists u. rewrite Hr. by rewrite bool_decide_true.
Qed.

(** the edges a context reads are exactly the edges of the tenant with an
    endpoint asked for, both endpoints units it may read, and believed at the
    transaction time. *)
Theorem edges_join_readable_units state context unit_ids time edges :
  fetch_edges state context unit_ids time = Ok edges →
  edges `sublist_of` tenant_edges state context ∧
  ∀ e, e ∈ edges ↔
    e ∈ tenant_edges state context ∧
    (ed_src_id e ∈ unit_ids ∨ ed_dst_id e ∈ unit_ids) ∧
    readable_id state context (ed_src_id e) ∧ readable_id state context (ed_dst_id e) ∧
    in_interval (ed_transaction_from e) (ed_transaction_to e) (rc_transaction_as_of time).
Proof.
  intros (_ & <-)%reading_ok. split; [by etrans; apply retain_sublist|]. intros e.
  rewrite !elem_of_retain, !andb_true_iff, orb_true_iff, !bool_decide_eq_true,
    !elem_of_requested, !elem_of_authorized.
  change (edge_transaction_visible (rc_transaction_as_of time) e)
    with (interval_covers (ed_transaction_from e) (ed_transaction_to e)
            (rc_transaction_as_of time)).
  rewrite interval_covers_spec. tauto.
Qed.
End recall.

(** ** The deep snapshot *)

Section deep.
Context `{HashOrder} `{Jiff} `{Sha256}.
Context (state : InMemoryState) (context : ResolvedMemoryContext) (time : RecallTime).
Implicit Types (k : DeepSnapshotSourceKind.t).

(** The unit is bound to the source [(k, id)], whose body is [body]. *)
Definition deep_bound (k : DeepSnapshotSourceKind.t) (id : Uuid) (body : string)
    (u : StoredMemoryUnit) : bool :=
  deep_eligible state context time u &&
  bool_decide (deep_source state context u = Some (k, id, body)).

Definition bound_to (k : DeepSnapshotSourceKind.t) (id : Uuid) (u : StoredMemoryUnit) : bool :=
  deep_eligible state context time u &&
  match deep_source state context u with
  | Some (k', id', _) => bool_decide ((k', id') = (k, id))
  | None => false
  end.

Lemma deep_source_episode u k id body :
  deep_source state context u = Some (k, id, body) →
  k = DeepSnapshotSourceKind.Episode →
  ∃ episode, episode_by_id state context !! id = Some episode ∧ body = ep_body episode ∧
    mu_source_episode_id u = Some id ∧
    granted context MemoryKind.Episodic (ep_scope_id episode) (ep_agent_node_id episode) ∧
    source_owner_matches u (ep_tenant_id episode) (ep_data_subject_id episode)
      (ep_subject_generation episode) (ep_scope_id episode) (ep_agent_node_id episode) = true ∧
    ep_source_trust episode ≠ TrustLevel.Quarantined.
Proof.
  intros E ->. unfold deep_source, deep_episode_source, deep_resource_source, is_quarantined in E.
  destruct (mu_source_episode_id u) as [i|].
  - destruct (_ !! i) as [ep|] eqn:Hl; simplify_eq/=. case_match eqn:Hc; simplify_eq/=.
    bool_prop. eexists. rewrite <- allows_granted. split_and!; eauto.
  - destruct (mu_source_resource_id u) as [i|]; [|done].
    destruct (_ !! i) as [re|] eqn:Hl; simplify_eq/=. case_match; simplify_eq/=.
    destruct (re_body re); simplify_eq/=.
Qed.

Lemma deep_source_resource u k id body :
  deep_source state context u = Some (k, id, body) →
  k = DeepSnapshotSourceKind.Resource →
  ∃ resource, resource_by_id state context !! id = Some resource ∧ re_body resource = Some body ∧
    mu_source_resource_id u = Some id ∧
    granted context MemoryKind.Resource (re_scope_id resource) (re_agent_node_id resource) ∧
    source_owner_matches u (re_tenant_id resource) (re_data_subject_id resource)
      (re_subject_generation resource) (re_scope_id resource)
      (re_agent_node_id resource) = true ∧
    re_source_trust resource ≠ TrustLevel.Quarantined ∧
    acl_is_deep_eligible (re_acl resource) = true.
Proof.
  intros E ->. unfold deep_source, deep_episode_source, deep_resource_source, is_quarantined in E.
  destruct (mu_source_episode_id u) as [i|].
  - destruct (_ !! i) as [ep|] eqn:Hl; simplify_eq/=. case_match eqn:Hc; simplify_eq/=.
  - destruct (mu_source_resource_id u) as [i|]; [|done].
    destruct (_ !! i) as [re|] eqn:Hl; simplify_eq/=. case_match; simplify_eq/=.
    destruct (re_body re) as [b|] eqn:Hb; simplify_eq/=. bool_prop.
    eexists. rewrite <- allows_granted. split_and!; eauto.
Qed.

(** A source has one body. *)
Lemma deep_source_body u u' k id body body' :
  deep_source state context u = Some (k, id, body) →
  deep_source state context u' = Some (k, id, body') → body = body'.
Proof.
  intros E E'. destruct k.
  - apply deep_source_episode in E as (e & ? & ? & _); [|done].
    apply deep_source_episode in E' as (e' & ? & ? & _); [|done]. congruence.
  - apply deep_source_resource in E as (e & ? & ? & _); [|done].
    apply deep_source_resource in E' as (e' & ? & ? & _); [|done]. congruence.
Qed.

Lemma bound_to_spec k id u :
  bound_to k id u = true ↔ ∃ body, deep_bound k id body u = true.
Proof.
  unfold bound_to, deep_bound. destruct (deep_eligible _ _ _ u); simpl; [|naive_solver].
  destruct (deep_source state context u) as [[[k' i'] b]|] eqn:E.
  - rewrite bool_decide_eq_true. setoid_rewrite bool_decide_eq_true. naive_solver.
  - setoid_rewrite bool_decide_eq_true. naive_solver.
Qed.

(** After any prefix of the loop a group holds the units bound to its source,
    in order. *)
Lemma deep_fold units k id :
  match foldl (deep_step state context time) ∅ units !! (k, id) with
  | Some (body, us) =>
      us = retain (bound_to k id) units ∧ us ≠ [] ∧
      Forall (λ u, deep_bound k id body u = true) us
  | None => retain (bound_to k id) units = []
  end.
Proof.
  induction units as [|u units IH] using rev_ind; [done|].
  rewrite foldl_app, retain_app, retain_cons. simpl. set (m := foldl _ _ units) in *.
  unfold deep_step. destruct (deep_eligible state context time u) eqn:Ee; simpl.
  2: { replace (bound_to k id u) with false by (unfold bound_to; by rewrite Ee).
       by rewrite app_nil_r. }
  destruct (deep_source state context u) as [[[k' i'] b]|] eqn:Es.
  2: { replace (bound_to k id u) with false by (unfold bound_to; by rewrite Ee, Es).
       by rewrite app_nil_r. }
  destruct (decide ((k', i') = (k, id))) as [[= -> ->]|Hne].
  - rewrite lookup_insert_eq. replace (bound_to k id u) with true
      by (symmetry; unfold bound_to; rewrite Ee, Es; by rewrite bool_decide_true).
    assert (deep_bound k id b u = true) as Hb
      by (unfold deep_bound; rewrite Ee, Es; by rewrite bool_decide_true).
    destruct (m !! (k, id)) as [[body us]|] eqn:El; simpl.
    + destruct IH as (-> & Hus & Hall). split_and!; [done|by intros []%app_nil|].
      apply Forall_app. split; [done|]. constructor; [|done].
      destruct (retain (bound_to k id) units) as [|v vs] eqn:Ev; [done|].
      inversion Hall as [|? ? Hv _]; subst. unfold deep_bound in Hv, Hb |- *.
      apply andb_true_iff in Hv as [_ Hv%bool_decide_eq_true].
      by rewrite (deep_source_body _ _ _ _ _ _ Hv Es).
    + rewrite IH. split_and!; [done|done|]. by constructor.
  - rewrite lookup_insert_ne by congruence.
    replace (bound_to k id u) with false
      by (symmetry; unfold bound_to; rewrite Ee, Es; by rewrite bool_decide_false).
    simpl. by rewrite app_nil_r.
Qed.

Lemma elem_of_deep_entries entries e :
  fetch_deep_snapshot state context time = Ok entries →
  e ∈ entries ↔ ∃ k id body us,
    foldl (deep_step state context time) ∅ (tenant_units state context) !! (k, id)
      = Some (body, us) ∧ e = deep_entry ((k, id), (body, us)).
Proof.
  intros (_ & <-)%reading_ok. rewrite list_elem_of_fmap. split.
  - intros ([[k id] [body us]] & -> & Hin). rewrite elem_of_sort_by, elem_of_map_to_list in Hin.
    eauto 10.
  - intros (k & id & body & us & Hl & ->). exists ((k, id), (body, us)). split; [done|].
    by rewrite elem_of_sort_by, elem_of_map_to_list.
Qed.

Definition entry_key (e : DeepSnapshotEntry) : DeepSnapshotSourceKind.t * Uuid :=
  (de_source_kind e, de_source_id e).

Lemma deep_key_leb_spec a b :
  deep_key_leb a b = true ↔
  DeepSnapshotSourceKind.to_N a.1 < DeepSnapshotSourceKind.to_N b.1 ∨
  (DeepSnapshotSourceKind.to_N a.1 = DeepSnapshotSourceKind.to_N b.1 ∧ a.2 <= b.2).
Proof.
  unfold deep_key_leb. destruct (N.compare_spec (DeepSnapshotSourceKind.to_N a.1)
    (DeepSnapshotSourceKind.to_N b.1)); rewrite ?N.leb_le; split; intros; try lia; done.
Qed.

Lemma entry_keys_sorted entries :
  fetch_deep_snapshot state context time = Ok entries →
  NoDup (map entry_key entries) ∧
  StronglySorted (λ a b, deep_key_leb a b = true) (map entry_key entries).
Proof.
  intros (_ & <-)%reading_ok.
  set (m := foldl (deep_step state context time) ∅ (tenant_units state context)).
  set (l := sort_by _ _).
  assert (map entry_key (map deep_entry l) = l.*1) as ->
    by (rewrite map_map; apply map_ext; by intros [[k i] [b us]]).
  split.
  - assert (l.*1 ≡ₚ (map_to_list m).*1) as -> by (apply Permutation_map, sort_by_perm).
    apply NoDup_fst_map_to_list.
  - assert (StronglySorted (λ a b, deep_key_leb a.1 b.1 = true) l) as Hs.
    { apply sort_by_sorted; intros *; rewrite !deep_key_leb_spec; lia. }
    induction Hs as [|x r _ IH Hx]; simpl; [constructor|]. constructor; [done|].
    apply Forall_map. exact Hx.
Qed.

(** the deep snapshot groups the eligible units by their source: an entry
    per source in the order of kind and id, no source twice, no entry without
    units, its path and digest those of its source and body, and its units in
    id order exactly the tenant's eligible ones bound to that source. *)
Theorem deep_snapshot_groups_sources entries :
  fetch_deep_snapshot state context time = Ok entries →
  NoDup (map entry_key entries) ∧
  StronglySorted (λ a b, deep_key_leb a b = true) (map entry_key entries) ∧
  Forall (λ e,
    de_path e = deep_source_path (de_source_kind e) (de_source_id e) ∧
    de_body_sha256 e = sha256_hex (de_body e) ∧ de_bound_units e ≠ [] ∧
    StronglySorted (λ u v, unit_id_leb u v = true) (de_bound_units e) ∧
    de_bound_units e ≡ₚ
      retain (deep_bound (de_source_kind e) (de_source_id e) (de_body e))
        (tenant_units state context)) entries ∧
  ∀ k id body u, u ∈ tenant_units state context → deep_bound k id body u = true →
    ∃ e, e ∈ entries ∧ entry_key e = (k, id) ∧ de_body e = body ∧ u ∈ de_bound_units e.
Proof.
  intros Hok. pose proof (elem_of_deep_entries entries) as Helem.
  destruct (entry_keys_sorted entries Hok) as [Hnd Hs]. split_and!; [done|done| |].
  - apply Forall_forall. intros e (k & id & body & us & Hl & ->)%Helem; [|done].
    pose proof (deep_fold (tenant_units state context) k id) as Hf. rewrite Hl in Hf.
    destruct Hf as (Hus & Hne & Hall). unfold deep_entry. simpl. split_and!; try done.
    + intros E. apply Hne, Permutation_nil. rewrite <- E. by rewrite sort_by_perm.
    + apply sort_by_sorted; unfold unit_id_leb; intros *; rewrite !N.leb_le; lia.
    + rewrite sort_by_perm, Hus. apply reflexive_eq, retain_ext. intros u Hu.
      apply eq_iff_eq_true. rewrite bound_to_spec. split; [|by eauto].
      intros Hb. assert (u ∈ us) as Hin by (rewrite Hus; apply elem_of_retain; by rewrite bound_to_spec).
      rewrite Forall_forall in Hall. by apply Hall.
  - intros k id body u Hu Hb.
    pose proof (deep_fold (tenant_units state context) k id) as Hf.
    assert (u ∈ retain (bound_to k id) (tenant_units state context)) as Hin
      by (apply elem_of_retain; rewrite bound_to_spec; eauto).
    destruct (_ !! (k, id)) as [[b us]|] eqn:Hl; [|rewrite Hf in Hin; by apply elem_of_nil in Hin].
    destruct Hf as (-> & _ & Hall). exists (deep_entry ((k, id), (b, retain (bound_to k id) (tenant_units state context)))).
    split_and!; [apply Helem; eauto 10|done| |by apply elem_of_sort_by].
    rewrite Forall_forall in Hall. specialize (Hall u Hin). simpl. unfold deep_bound in Hall, Hb.
    apply andb_true_iff in Hall as [_ Hall%bool_decide_eq_true].
    apply andb_true_iff in Hb as [_ Hb%bool_decide_eq_true]. by eapply deep_source_body.
Qed.

Lemma extend_map_in {V} (f : V → N) (l : list V) (i : N) v :
  extend_map (map (λ v, (f v, v)) l) (∅ : gmap N V) !! i = Some v → v ∈ l ∧ f v = i.
Proof.
  induction l as [|w l IH] using rev_ind; [done|].
  unfold extend_map. rewrite map_app, foldl_app. simpl. rewrite lookup_insert_Some.
  intros [[<- <-]|[_ Hl]]; [set_solver|]. destruct (IH Hl). set_solver.
Qed.

(** a deep snapshot quotes only sources the context's policy grants: an
    entry's body is the body of an episode or resource row of the tenant, not
    quarantined, a resource without access restrictions; every bound unit
    belongs to the context's subject and generation, is recallable and not
    quarantined, and is no forgotten source. *)
Theorem deep_snapshot_is_authorized entries e u :
  fetch_deep_snapshot state context time = Ok entries →
  e ∈ entries → u ∈ de_bound_units e →
  unit_readable context u ∧ bitemporally_recallable u time = true ∧
  mu_trust_level u ≠ TrustLevel.Quarantined ∧ is_forgotten_source state u = false ∧
  match de_source_kind e with
  | DeepSnapshotSourceKind.Episode => ∃ episode,
      episode ∈ tenant_episodes state context ∧ ep_id episode = de_source_id e ∧
      ep_body episode = de_body e ∧ mu_source_episode_id u = Some (de_source_id e) ∧
      granted context MemoryKind.Episodic (ep_scope_id episode) (ep_agent_node_id episode) ∧
      ep_source_trust episode ≠ TrustLevel.Quarantined
  | DeepSnapshotSourceKind.Resource => ∃ resource,
      resource ∈ tenant_resources state context ∧ re_id resource = de_source_id e ∧
      re_body resource = Some (de_body e) ∧ mu_source_resource_id u = Some (de_source_id e) ∧
      granted context MemoryKind.Resource (re_scope_id resource) (re_agent_node_id resource) ∧
      re_source_trust resource ≠ TrustLevel.Quarantined ∧
      acl_is_deep_eligible (re_acl resource) = true
  end.
Proof.
  intros Hok (k & id & body & us & Hl & ->)%elem_of_deep_entries Hu; [|done]. simpl in *.
  rewrite elem_of_sort_by in Hu.
  pose proof (deep_fold (tenant_units state context) k id) as Hf. rewrite Hl in Hf.
  destruct Hf as (_ & _ & Hall). rewrite Forall_forall in Hall. specialize (Hall u Hu).
  unfold deep_bound in Hall. apply andb_true_iff in Hall as [He Hs%bool_decide_eq_true].
  unfold deep_eligible, deep_unit_is_snapshot_eligible in He.
  rewrite !andb_true_iff, unit_allowed_readable, !negb_true_iff, bool_decide_eq_false in He.
  destruct He as [[[_ Hr] [[_ Hq] Hb]] Hfs]. split_and!; try done.
  destruct k.
  - apply deep_source_episode in Hs as (ep & Hin & -> & ? & ? & _ & ?); [|done].
    apply extend_map_in in Hin as [? ?]. eauto 10.
  - apply deep_source_resource in Hs as (re & Hin & ? & ? & ? & _ & ? & ?); [|done].
    apply extend_map_in in Hin as [? ?]. eauto 10.
Qed.
End deep.

(** ** Round trips *)

Section round_trips.
Context `{HashOrder} `{Jiff} `{Sha256}.

Lemma find_put_trace trace traces p :
  p trace = true →
  find (λ t, (tr_id t =? tr_id trace) && p t) (put_trace trace traces) = Some trace.
Proof.
  intros Hp. unfold put_trace. destruct (any _ traces) eqn:E.
  - induction traces as [|t l IH]; simpl in *; [done|].
    destruct (tr_id t =? tr_id trace) eqn:Et; simpl.
    + by rewrite N.eqb_refl, Hp.
    + rewrite Et. simpl. by apply IH.
  - induction traces as [|t l IH]; simpl in *.
    + by rewrite N.eqb_refl, Hp.
    + apply orb_false_iff in E as [-> E]. simpl. by apply IH.
Qed.

Lemma find_put_trace_ne trace traces id p :
  id ≠ tr_id trace →
  find (λ t, (tr_id t =? id) && p t) (put_trace trace traces) =
  find (λ t, (tr_id t =? id) && p t) traces.
Proof.
  intros Hne. unfold put_trace. destruct (any _ traces) eqn:E; clear E.
  - induction traces as [|t l IH]; simpl; [done|].
    destruct (N.eqb_spec (tr_id t) (tr_id trace)) as [Et|Et]; simpl.
    + by rewrite Et, (proj2 (N.eqb_neq (tr_id trace) id)) by done.
    + by rewrite IH.
  - induction traces as [|t l IH]; simpl; [|by rewrite IH].
    by rewrite (proj2 (N.eqb_neq (tr_id trace) id)) by done.
Qed.

(** a stored trace is read back by its id in its own context, replacing any
    earlier version, and no other trace id answers differently; a trace of
    another context is refused. *)
Theorem trace_round_trip state context trace s' :
  store_trace state context trace = Ok s' →
  trace_matches_context context trace = true ∧
  trace_by_id s' context (tr_id trace) = Ok (Some trace) ∧
  ∀ id, id ≠ tr_id trace → trace_by_id s' context id = trace_by_id state context id.
Proof.
  unfold store_trace. destruct (trace_matches_context context trace) eqn:Hm; [|done]. simpl.
  intros (Hv & <-)%reading_ok. split; [done|].
  assert (∀ id, trace_by_id (state <| st_retrieval_traces ::=
            update_rows (cx_tenant_id context) (put_trace trace) |>) context id =
          Ok (find (λ t, (tr_id t =? id) && own_trace context t)
                (put_trace trace (tenant_traces state context)))) as Hr.
  { intros id. apply reading_ok. split; [exact Hv|]. unfold tenant_traces. simpl.
    by rewrite rows_update_eq. }
  split.
  - rewrite Hr. f_equal. apply find_put_trace. unfold trace_matches_context in Hm.
    by apply andb_true_iff in Hm as [[_ ?]%andb_true_iff _].
  - intros id Hne. rewrite Hr, find_put_trace_ne by done. symmetry. by apply reading_ok.
Qed.

Definition has_key (unit_id profile_id : N) (row : EmbeddingRow) : bool :=
  (em_memory_unit_id row =? unit_id) && (em_embedding_profile_id row =? profile_id).

Lemma put_embedding_key unit_id profile_id row stored :
  retain (has_key unit_id profile_id) (put_embedding row stored) =
  if has_key unit_id profile_id row then [row] else retain (has_key unit_id profile_id) stored.
Proof.
  unfold put_embedding. rewrite retain_app, retain_retain, retain_cons. unfold has_key. simpl.
  destruct (N.eqb_spec (em_memory_unit_id row) unit_id) as [<-|Hu];
    [destruct (N.eqb_spec (em_embedding_profile_id row) profile_id) as [<-|Hp]|]; simpl.
  - rewrite retain_none; [done|]. intros x _. apply andb_negb_l.
  - rewrite app_nil_r. apply retain_ext. intros x _.
    destruct (N.eqb_spec (em_memory_unit_id x) (em_memory_unit_id row)); simpl; [|done].
    destruct (N.eqb_spec (em_embedding_profile_id x) (em_embedding_profile_id row)) as [->|]; simpl; [|done].
    symmetry. by apply N.eqb_neq.
  - rewrite app_nil_r. apply retain_ext. intros x _.
    destruct (N.eqb_spec (em_memory_unit_id x) (em_memory_unit_id row)) as [->|]; simpl; [|done].
    rewrite (proj2 (N.eqb_neq _ _) Hu). by destruct (_ =? _).
Qed.

Lemma upsert_rows_key unit_id profile_id new_rows stored :
  retain (has_key unit_id profile_id)
    (foldl (λ stored row, put_embedding row stored) stored new_rows) =
  match last (retain (has_key unit_id profile_id) new_rows) with
  | Some row => [row]
  | None => retain (has_key unit_id profile_id) stored
  end.
Proof.
  induction new_rows as [|row l IH] using rev_ind; [done|].
  rewrite foldl_app, retain_app, retain_cons. simpl. rewrite put_embedding_key.
  destruct (has_key unit_id profile_id row); [by rewrite last_snoc|]. by rewrite app_nil_r.
Qed.

(** an upsert of embeddings is refused unless every row is for a unit the
    context owns; accepted, each unit and profile of the batch has exactly its
    last row in the batch, and every other unit, profile and tenant keeps its
    rows. *)
Theorem embeddings_replace_by_key state context new_rows s' :
  upsert_embeddings state context new_rows = Ok s' →
  (∀ row, row ∈ new_rows → ∃ u, u ∈ tenant_units state context ∧
     mu_id u = em_memory_unit_id row ∧ unit_matches_context u context = true) ∧
  (∀ unit_id profile_id,
     retain (has_key unit_id profile_id) (rows (st_embeddings s') (cx_tenant_id context)) =
     match last (retain (has_key unit_id profile_id) new_rows) with
     | Some row => [row]
     | None => retain (has_key unit_id profile_id)
                 (rows (st_embeddings state) (cx_tenant_id context))
     end) ∧
  ∀ tenant, tenant ≠ cx_tenant_id context →
    rows (st_embeddings s') tenant = rows (st_embeddings state) tenant.
Proof.
  unfold upsert_embeddings. intros ([] & Hv & Hs)%result_bind_ok.
  destruct (any _ new_rows) eqn:Ea; [done|]. injection Hs as <-. simpl. split_and!.
  - intros row Hrow. rewrite any_false in Ea. specialize (Ea row Hrow).
    apply negb_false_iff, bool_decide_eq_true, elem_of_id_set in Ea. exact Ea.
  - intros. by rewrite rows_update_eq, upsert_rows_key.
  - intros. by rewrite rows_update_ne.
Qed.
End round_trips.
