(* ===== verification/Capture.v ===== *)
(** * Capture: the cross-check of captured memories

    Units written by capture hooks carry a marker and start inert.  The
    cross-check of [crates/memphant-core/src/lib.rs] reads the open units of a
    scope and its review events and decides which captured units to promote,
    quarantine, demote or only mark; [apply_capture_transitions] persists the
    decisions. *)

From S2P Require Import Prelude Text Types Float Clock Bitemporal Lineage Store Txn Stage Reads.

(** ** Decisions *)

Definition CAPTURE_FAILURE_CONFIDENCE_FACTOR : f32 := f32_half.

Module CaptureTransitionKind.
Inductive t : Set := Promote | Quarantine | Demote | Witness.
#[export] Instance t_eq_dec : EqDecision t.
Proof. solve_decision. Defined.
End CaptureTransitionKind.
Export (hints) CaptureTransitionKind.

Record CaptureTransition : Set := mkTransition {
  tn_id : UnitId;
  tn_kind : CaptureTransitionKind.t;
  tn_state : UnitState.t;
  tn_confidence : option f32;
  tn_capture : CaptureMarker;
}.

Record CaptureCrossCheckReport : Set := mkReport {
  rp_promoted : list UnitId;
  rp_quarantined : list UnitId;
  rp_demoted : list UnitId;
  rp_witnessed : list UnitId;
}.
#[export] Instance CaptureCrossCheckReport_eta : Eta CaptureCrossCheckReport := λ r,
  mkReport (rp_promoted r) (rp_quarantined r) (rp_demoted r) (rp_witnessed r).

Definition CaptureCrossCheckReport_default : CaptureCrossCheckReport := mkReport [] [] [] [].

Definition record (self : CaptureCrossCheckReport) (transition : CaptureTransition)
    : CaptureCrossCheckReport :=
  let push l := l ++ [tn_id transition] in
  match tn_kind transition with
  | CaptureTransitionKind.Promote => self <| rp_promoted ::= push |>
  | CaptureTransitionKind.Quarantine => self <| rp_quarantined ::= push |>
  | CaptureTransitionKind.Demote => self <| rp_demoted ::= push |>
  | CaptureTransitionKind.Witness => self <| rp_witnessed ::= push |>
  end.

Definition capture_body_key (u : StoredMemoryUnit) : string := normalize_component (mu_body u).

Definition is_candidate_or_active (s : UnitState.t) : bool :=
  match s with UnitState.Candidate | UnitState.Active => true | _ => false end.

Definition capture_eligible (u : StoredMemoryUnit) : bool :=
  bool_decide (is_Some (mu_capture u)) && bool_decide (mu_transaction_to u = None) &&
  is_candidate_or_active (mu_state u).

(** *** Subject groups: unit indices by fact key and kind *)

Notation SubjectKey := (string * MemoryKind.t)%type.
Notation SubjectGroups := (gmap SubjectKey (list nat)).

Definition subject_key (u : StoredMemoryUnit) : option SubjectKey :=
  fact_key ← mu_fact_key u; Some (fact_key, mu_kind u).

Definition add_to_group (groups : SubjectGroups) (idx : nat) (u : StoredMemoryUnit)
    : SubjectGroups :=
  match subject_key u with Some k => push_row k idx groups | None => groups end.

Fixpoint group_from (idx : nat) (eligible : list StoredMemoryUnit) (groups : SubjectGroups)
    : SubjectGroups :=
  match eligible with
  | [] => groups
  | u :: l => group_from (S idx) l (add_to_group groups idx u)
  end.

Definition subject_key_leb (a b : SubjectKey) : bool :=
  match str_cmp a.1 b.1 with
  | Lt => true
  | Gt => false
  | Eq => MemoryKind.to_N a.2 <=? MemoryKind.to_N b.2
  end.

(** *** Agreement and collision within a group *)

Section group.
Context (eligible : list StoredMemoryUnit).

Definition source_of (idx : nat) : option CaptureSource.t :=
  u ← eligible !! idx; cm_source <$> mu_capture u.
Definition body_key_of (idx : nat) : option string := capture_body_key <$> eligible !! idx.

Definition sources_differ (a b : nat) : bool := negb (bool_decide (source_of a = source_of b)).
Definition bodies_agree (a b : nat) : bool := bool_decide (body_key_of a = body_key_of b).

Definition collision (members : list nat) : bool :=
  any (λ a, any (λ b, sources_differ a b && negb (bodies_agree a b)) members) members.

Definition agrees (members : list nat) (a : nat) : bool :=
  any (λ b, negb (a =? b)%nat && sources_differ a b && bodies_agree a b) members.

Definition set_flag (flags : list bool) (idx : nat) : list bool := <[idx := true]> flags.

Definition group_flags (flags : list bool * list bool) (members : list nat)
    : list bool * list bool :=
  let '(quarantine, add_agreement) := flags in
  if (length members <? 2)%nat then flags
  else if collision members then (foldl set_flag quarantine members, add_agreement)
  else (quarantine, foldl set_flag add_agreement (retain (agrees members) members)).
End group.

(** *** One unit *)

Record OutcomeFlags : Set := mkFlags {
  fl_corrected : bool;
  fl_failure : bool;
  fl_success : bool;
}.

(** The outcomes of the review events that used the unit. *)
Definition outcome_flags (review_events : list ReviewEvent) (id : UnitId) : OutcomeFlags :=
  foldl (λ f event,
      match rv_outcome event with
      | MarkOutcome.Corrected => mkFlags true (fl_failure f) (fl_success f)
      | MarkOutcome.Failure => mkFlags (fl_corrected f) true (fl_success f)
      | MarkOutcome.Success => mkFlags (fl_corrected f) (fl_failure f) true
      | MarkOutcome.Ignored => f
      end) (mkFlags false false false)
    (retain (λ event, mem id (rv_used_ids event)) review_events).

Definition witness_if (b : bool) (w : CaptureWitness.t) (m : CaptureMarker) : CaptureMarker :=
  if b then (record_witness m w).1 else m.

Definition next_marker (add_agreement success : bool) (marker : CaptureMarker) : CaptureMarker :=
  let marker := witness_if add_agreement CaptureWitness.SourceAgreement marker in
  let marker := witness_if success CaptureWitness.WeakOutcome marker in
  marker <| cm_ladder := CaptureLadder.max (cm_ladder marker) (rung_for_witnesses marker) |>.

Definition is_corroborated (l : CaptureLadder.t) : bool :=
  CaptureLadder.to_N CaptureLadder.Corroborated <=? CaptureLadder.to_N l.

(** The decision about one eligible unit, [None] when it changes nothing. *)
Definition crosscheck_unit (review_events : list ReviewEvent) (quarantine add_agreement : bool)
    (u : StoredMemoryUnit) : option CaptureTransition :=
  let f := outcome_flags review_events (mu_id u) in
  capture ← mu_capture u;
  let marker := next_marker add_agreement (fl_success f) capture in
  let hard_quarantine := quarantine || fl_corrected f in
  let '(new_state, kind) :=
    if hard_quarantine then (UnitState.Quarantined, CaptureTransitionKind.Quarantine)
    else if bool_decide (mu_state u = UnitState.Candidate) && is_corroborated (cm_ladder marker)
    then (UnitState.Active, CaptureTransitionKind.Promote)
    else if fl_failure f then (mu_state u, CaptureTransitionKind.Demote)
    else (mu_state u, CaptureTransitionKind.Witness) in
  let new_confidence :=
    if hard_quarantine then Some f32_zero
    else if fl_failure f
    then Some (f32_mul (default f32_one (mu_confidence u)) CAPTURE_FAILURE_CONFIDENCE_FACTOR)
    else mu_confidence u in
  let changed := negb (bool_decide (new_state = mu_state u)) ||
                 negb (option_eqb f32_eqb new_confidence (mu_confidence u)) ||
                 negb (bool_decide (Some marker = mu_capture u)) in
  if changed then Some (mkTransition (mu_id u) kind new_state new_confidence marker) else None.

Fixpoint crosscheck_from (review_events : list ReviewEvent) (quarantine add_agreement : list bool)
    (idx : nat) (eligible : list StoredMemoryUnit) : list CaptureTransition :=
  match eligible with
  | [] => []
  | u :: l =>
      match crosscheck_unit review_events (default false (quarantine !! idx))
              (default false (add_agreement !! idx)) u with
      | Some t => [t]
      | None => []
      end ++ crosscheck_from review_events quarantine add_agreement (S idx) l
  end.

Definition crosscheck_flags (eligible : list StoredMemoryUnit) : list bool * list bool :=
  let n := length eligible in
  let groups := sort_by (λ a b, subject_key_leb a.1 b.1)
                  (map_to_list (group_from 0 eligible ∅)) in
  foldl (λ flags kv, group_flags eligible flags kv.2)
    (replicate n false, replicate n false) groups.

Definition compute_capture_crosscheck (units : list StoredMemoryUnit)
    (review_events : list ReviewEvent) : list CaptureTransition :=
  let eligible := retain capture_eligible units in
  if is_empty eligible then []
  else let '(quarantine, add_agreement) := crosscheck_flags eligible in
       crosscheck_from review_events quarantine add_agreement 0 eligible.

(** ** Persistence *)

Definition transition_target (context : ResolvedMemoryContext) (transition : CaptureTransition)
    (u : StoredMemoryUnit) : bool :=
  (mu_id u =? tn_id transition) && own_node_unit context u &&
  bool_decide (mu_transaction_to u = None).

Definition apply_transition (transition : CaptureTransition) (u : StoredMemoryUnit)
    : StoredMemoryUnit :=
  u <| mu_state := tn_state transition |>
    <| mu_confidence := tn_confidence transition |>
    <| mu_capture := Some (tn_capture transition) |>.

(** The loop edits the units in place: a transition without its unit ends it
    with an error, and the units edited before stay edited. *)
Fixpoint apply_transitions (context : ResolvedMemoryContext)
    (transitions : list CaptureTransition) (units : list StoredMemoryUnit)
    (report : CaptureCrossCheckReport)
    : list StoredMemoryUnit * result StoreError.t CaptureCrossCheckReport :=
  match transitions with
  | [] => (units, Ok report)
  | t :: ts =>
      if any (transition_target context t) units then
        apply_transitions context ts
          (update_first (transition_target context t) (apply_transition t) units)
          (record report t)
      else (units, Err (StoreError.Conflict "capture transition does not match memory context"))
  end.

Definition apply_capture_transitions `{HashOrder} (state : InMemoryState)
    (context : ResolvedMemoryContext) (transitions : list CaptureTransition)
    : InMemoryState * result StoreError.t CaptureCrossCheckReport :=
  match validate_context state context with
  | Err e => (state, Err e)
  | Ok _ =>
      let '(units, r) := apply_transitions context transitions
        (rows (st_memory_units state) (cx_tenant_id context)) CaptureCrossCheckReport_default in
      (state <| st_memory_units ::= update_rows (cx_tenant_id context) (λ _, units) |>, r)
  end.

(** [MemoryService::run_capture_crosscheck]: the stages are separate store
    calls; here they run with nothing in between. *)
Definition run_capture_crosscheck `{HashOrder} `{Jiff} (capture_crosscheck_enabled : bool)
    (now : string) (state : InMemoryState) (context : ResolvedMemoryContext)
    : InMemoryState * result StoreError.t CaptureCrossCheckReport :=
  if negb capture_crosscheck_enabled then (state, Ok CaptureCrossCheckReport_default)
  else match fetch_scope_open_units state context with
  | Err e => (state, Err e)
  | Ok units =>
      let captured_ids := map mu_id
        (retain (λ u, bool_decide (is_Some (mu_capture u))) units) in
      if is_empty captured_ids then (state, Ok CaptureCrossCheckReport_default)
      else match fetch_review_events state context captured_ids (mkRecallTime now now now) with
      | Err e => (state, Err e)
      | Ok review_events =>
          let transitions := compute_capture_crosscheck units review_events in
          if is_empty transitions then (state, Ok CaptureCrossCheckReport_default)
          else apply_capture_transitions state context transitions
      end
  end.
