(* ===== verification/CaptureFacts.v ===== *)
(** * CaptureFacts: the cross-check decides what it means to

    The index-based flags of the code are a per-unit decision by membership
    ([collides], [agreeing]); from that the safety of the decisions and the
    stability of a second run follow. *)

From S2P Require Import Prelude Types Float Clock Bitemporal Lineage Store Txn Stage Reads.
From S2P Require Import ReadFacts Capture.

(** ** The decision by membership *)

Definition same_group (u v : StoredMemoryUnit) : bool :=
  match subject_key u, subject_key v with
  | Some k, Some k' => bool_decide (k = k')
  | _, _ => false
  end.
Definition unit_source (u : StoredMemoryUnit) : option CaptureSource.t :=
  cm_source <$> mu_capture u.
Definition differ (u v : StoredMemoryUnit) : bool :=
  negb (bool_decide (unit_source u = unit_source v)).
Definition same_body (u v : StoredMemoryUnit) : bool :=
  bool_decide (capture_body_key u = capture_body_key v).

(** Two sources report different bodies for the subject of [u]. *)
Definition collides (E : list StoredMemoryUnit) (u : StoredMemoryUnit) : bool :=
  any (λ v, any (λ w, same_group u v && same_group u w && differ v w && negb (same_body v w)) E) E.
(** Another source reports the body of [u] for its subject. *)
Definition agreeing (E : list StoredMemoryUnit) (u : StoredMemoryUnit) : bool :=
  any (λ v, same_group u v && differ u v && same_body u v) E.

Definition decision (E : list StoredMemoryUnit) (events : list ReviewEvent)
    (u : StoredMemoryUnit) : option CaptureTransition :=
  crosscheck_unit events (collides E u) (negb (collides E u) && agreeing E u) u.

(** ** Flags *)

Definition flag (flags : list bool) (i : nat) : bool := default false (flags !! i).

Lemma length_set_flags members flags : length (foldl set_flag flags members) = length flags.
Proof.
  revert flags. induction members as [|m l IH]; intros flags; simpl; [done|].
  rewrite IH. apply length_insert.
Qed.

Lemma flag_set_flags members flags i : (i < length flags)%nat →
  flag (foldl set_flag flags members) i = true ↔ flag flags i = true ∨ i ∈ members.
Proof.
  revert flags. induction members as [|m l IH]; intros flags Hi; simpl; [set_solver|].
  rewrite IH by (unfold set_flag; by rewrite length_insert).
  unfold flag, set_flag. rewrite elem_of_cons. destruct (decide (m = i)) as [->|Hne].
  - rewrite list_lookup_insert_eq by done. simpl. naive_solver.
  - rewrite list_lookup_insert_ne by done. naive_solver.
Qed.

Section flags.
Context (E : list StoredMemoryUnit).

Definition quarantines (members : list nat) : bool :=
  (2 <=? length members)%nat && collision E members.
Definition agreement (members : list nat) (i : nat) : bool :=
  (2 <=? length members)%nat && negb (collision E members) && agrees E members i.

Lemma group_flags_spec fs members i :
  (i < length fs.1)%nat → (i < length fs.2)%nat →
  (flag (group_flags E fs members).1 i = true ↔
     flag fs.1 i = true ∨ (quarantines members = true ∧ i ∈ members)) ∧
  (flag (group_flags E fs members).2 i = true ↔
     flag fs.2 i = true ∨ (agreement members i = true ∧ i ∈ members)).
Proof.
  destruct fs as [q a]. simpl. intros Hq Ha. unfold group_flags, quarantines, agreement.
  destruct (Nat.ltb_spec (length members) 2) as [Hl|Hl].
  { rewrite (proj2 (Nat.leb_gt 2 _)) by lia. simpl. naive_solver. }
  rewrite (proj2 (Nat.leb_le 2 _)) by lia.
  destruct (collision E members) eqn:Hc; simpl; rewrite flag_set_flags by done.
  - naive_solver.
  - rewrite elem_of_retain. naive_solver.
Qed.

Lemma length_group_flags fs members :
  length (group_flags E fs members).1 = length fs.1 ∧
  length (group_flags E fs members).2 = length fs.2.
Proof.
  destruct fs as [q a]. unfold group_flags. destruct (_ <? _)%nat; [done|].
  destruct (collision _ _); simpl; by rewrite length_set_flags.
Qed.

Lemma or_exists_cons {A} (P : A → Prop) x l (Q : Prop) :
  (Q ∨ P x) ∨ (∃ y, y ∈ l ∧ P y) ↔ Q ∨ ∃ y, y ∈ x :: l ∧ P y.
Proof.
  split.
  - intros [[?|?]|(y & ? & ?)]; [by left|right; exists x; split; [left|done]|].
    right. exists y. split; [by right|done].
  - intros [?|(y & [->|?]%elem_of_cons & ?)]; [by left; left|by left; right|right; eauto].
Qed.

Lemma all_flags_spec (groups : list (SubjectKey * list nat)) fs i :
  (i < length fs.1)%nat → (i < length fs.2)%nat →
  let fs' := foldl (λ fs kv, group_flags E fs kv.2) fs groups in
  (flag fs'.1 i = true ↔
     flag fs.1 i = true ∨ ∃ kv, kv ∈ groups ∧ quarantines kv.2 = true ∧ i ∈ kv.2) ∧
  (flag fs'.2 i = true ↔
     flag fs.2 i = true ∨ ∃ kv, kv ∈ groups ∧ agreement kv.2 i = true ∧ i ∈ kv.2).
Proof.
  revert fs. induction groups as [|kv l IH]; intros fs Hq Ha; simpl.
  { split; split; [by left|by intros [?|(? & []%elem_of_nil & _)]
                  |by left|by intros [?|(? & []%elem_of_nil & _)]]. }
  destruct (length_group_flags fs kv.2) as [Lq La].
  destruct (IH (group_flags E fs kv.2)) as [-> ->]; [by rewrite Lq|by rewrite La|].
  destruct (group_flags_spec fs kv.2 i Hq Ha) as [-> ->].
  split; [apply (or_exists_cons (λ kv, quarantines kv.2 = true ∧ i ∈ kv.2))|].
  apply (or_exists_cons (λ kv, agreement kv.2 i = true ∧ i ∈ kv.2)).
Qed.

(** ** Groups *)

Definition in_group (k : SubjectKey) (i : nat) : bool :=
  match E !! i with Some u => bool_decide (subject_key u = Some k) | None => false end.

Lemma elem_of_group_from idx l m k i :
  i ∈ rows (group_from idx l m) k ↔
  i ∈ rows m k ∨ ∃ j u, l !! j = Some u ∧ i = (idx + j)%nat ∧ subject_key u = Some k.
Proof.
  revert idx m. induction l as [|u l IH]; intros idx m; simpl.
  { split; [by left|]. intros [?|(j & v & Hj & _)]; [done|]. by rewrite lookup_nil in Hj. }
  rewrite IH. unfold add_to_group.
  assert (i ∈ rows (match subject_key u with Some k => push_row k idx m | None => m end) k ↔
          i ∈ rows m k ∨ (i = idx ∧ subject_key u = Some k)) as ->.
  { destruct (subject_key u) as [k'|]; [|naive_solver]. unfold push_row.
    destruct (decide (k' = k)) as [->|Hne].
    - rewrite rows_update_eq, elem_of_app, list_elem_of_singleton. naive_solver.
    - rewrite rows_update_ne by done. naive_solver. }
  split.
  - intros [[?|[-> Hk]]|(j & v & Hj & -> & Hk)]; [by left| |]; right.
    + exists 0%nat, u. split_and!; [done|lia|done].
    + exists (S j), v. split_and!; [done|lia|done].
  - intros [?|([|j] & v & Hj & -> & Hk)]; [by left; left| |]; simpl in Hj.
    + left. right. injection Hj as ->. split; [lia|done].
    + right. exists j, v. split_and!; [done|lia|done].
Qed.

Lemma elem_of_groups kv :
  kv ∈ map_to_list (group_from 0 E ∅) → ∀ i, i ∈ kv.2 ↔ in_group kv.1 i = true.
Proof.
  destruct kv as [k l]. rewrite elem_of_map_to_list. intros Hl i. simpl.
  assert (rows (group_from 0 E ∅) k = l) as <- by (unfold rows; by rewrite Hl).
  rewrite elem_of_group_from, rows_empty. unfold in_group. split.
  - intros [[]%elem_of_nil|(j & u & Hj & -> & Hk)].
    rewrite Nat.add_0_l, Hj, Hk. by apply bool_decide_eq_true.
  - intros Hi. right. destruct (E !! i) as [u|] eqn:Hu; [|done].
    apply bool_decide_eq_true in Hi. eauto.
Qed.

Lemma group_exists i k : in_group k i = true →
  ∃ l, (k, l) ∈ map_to_list (group_from 0 E ∅).
Proof.
  intros Hi. destruct (group_from 0 E ∅ !! k) as [l|] eqn:El.
  - exists l. by apply elem_of_map_to_list.
  - unfold in_group in Hi. destruct (E !! i) as [u|] eqn:Hu; [|done].
    apply bool_decide_eq_true in Hi.
    assert (i ∈ rows (group_from 0 E ∅) k) as Hr.
    { apply elem_of_group_from. right. exists i, u. split_and!; [done|lia|done]. }
    unfold rows in Hr. rewrite El in Hr. by apply elem_of_nil in Hr.
Qed.

Lemma in_group_unit k i : in_group k i = true ↔ ∃ u, E !! i = Some u ∧ subject_key u = Some k.
Proof.
  unfold in_group. destruct (E !! i) as [u|]; [rewrite bool_decide_eq_true|]; naive_solver.
Qed.

Lemma sources_differ_units a b v w : E !! a = Some v → E !! b = Some w →
  sources_differ E a b = differ v w ∧ bodies_agree E a b = same_body v w.
Proof.
  intros Ha Hb. unfold sources_differ, differ, bodies_agree, same_body, source_of, body_key_of.
  rewrite Ha, Hb. simpl. split; [done|].
  apply bool_decide_ext. split; [by intros [=]|congruence].
Qed.

Lemma same_group_key u v k : subject_key u = Some k →
  same_group u v = true ↔ subject_key v = Some k.
Proof.
  unfold same_group. intros ->. destruct (subject_key v) as [k'|]; [|done].
  rewrite bool_decide_eq_true. naive_solver.
Qed.

Lemma two_members {A} (a b : A) l : a ∈ l → b ∈ l → a ≠ b → (2 <= length l)%nat.
Proof.
  destruct l as [|x [|y l]]; simpl; [set_solver| |lia].
  intros ->%list_elem_of_singleton ->%list_elem_of_singleton. done.
Qed.

Section one_group.
Context (kv : SubjectKey * list nat) (Hkv : kv ∈ map_to_list (group_from 0 E ∅)).
Context (i : nat) (u : StoredMemoryUnit) (Hi : i ∈ kv.2) (Hu : E !! i = Some u).

Lemma group_key : subject_key u = Some kv.1.
Proof using Hkv Hi Hu.
  apply (elem_of_groups _ Hkv), in_group_unit in Hi as (v & Hv & Hk). congruence.
Qed.

Lemma group_member v : v ∈ E ∧ same_group u v = true ↔ ∃ a, a ∈ kv.2 ∧ E !! a = Some v.
Proof using Hkv Hi Hu.
  rewrite (same_group_key u v kv.1 group_key), list_elem_of_lookup.
  setoid_rewrite (elem_of_groups _ Hkv). setoid_rewrite in_group_unit. split.
  - intros [[a Ha] Hk]. eauto.
  - intros (a & (v' & Ha & Hk) & Ha'). simplify_eq. eauto.
Qed.

Lemma collision_collides : collision E kv.2 = true ↔ collides E u = true.
Proof using Hkv Hi Hu.
  unfold collision, collides. rewrite !any_true. split.
  - intros (a & Ha & (b & Hb & Hc)%any_true).
    pose proof (proj1 (elem_of_groups _ Hkv a) Ha) as (v & Hv & _)%in_group_unit.
    pose proof (proj1 (elem_of_groups _ Hkv b) Hb) as (w & Hw & _)%in_group_unit.
    destruct (sources_differ_units a b v w Hv Hw) as [Es Eb]. rewrite Es, Eb in Hc.
    apply andb_true_iff in Hc as [Hs Hb'].
    destruct (proj2 (group_member v) ltac:(eauto)) as [Hv1 Hv2].
    destruct (proj2 (group_member w) ltac:(eauto)) as [Hw1 Hw2].
    exists v. split; [done|]. apply any_true. exists w. split; [done|].
    by rewrite Hv2, Hw2, Hs, Hb'.
  - intros (v & Hv & (w & Hw & Hc)%any_true). rewrite !andb_true_iff in Hc.
    destruct Hc as [[[Hgv Hgw] Hs] Hb].
    destruct (proj1 (group_member v) (conj Hv Hgv)) as (a & Ha & Hav).
    destruct (proj1 (group_member w) (conj Hw Hgw)) as (b & Hb' & Hbw).
    destruct (sources_differ_units a b v w Hav Hbw) as [Es Eb].
    exists a. split; [done|]. apply any_true. exists b. split; [done|]. by rewrite Es, Eb, Hs, Hb.
Qed.

Lemma differ_irrefl v : differ v v = false.
Proof. unfold differ. by rewrite bool_decide_true. Qed.

Lemma quarantines_collides : quarantines kv.2 = collides E u.
Proof using Hkv Hi Hu.
  apply eq_iff_eq_true. unfold quarantines.
  rewrite andb_true_iff, <- collision_collides, Nat.leb_le. split; [tauto|]. intros Hc.
  split; [|done]. unfold collision in Hc. apply any_true in Hc as (a & Ha & (b & Hb & Hc)%any_true).
  apply andb_true_iff in Hc as [Hs _]. apply (two_members a b); [done..|]. intros <-.
  unfold sources_differ in Hs. by rewrite bool_decide_true in Hs.
Qed.

Lemma agrees_agreeing : agrees E kv.2 i = true ↔ agreeing E u = true.
Proof using Hkv Hi Hu.
  unfold agrees, agreeing. rewrite !any_true. split.
  - intros (b & Hb & Hc).
    pose proof (proj1 (elem_of_groups _ Hkv b) Hb) as (w & Hw & _)%in_group_unit.
    destruct (sources_differ_units i b u w Hu Hw) as [Es Eb]. rewrite Es, Eb in Hc.
    destruct (proj2 (group_member w) ltac:(eauto)) as [Hw1 Hw2].
    exists w. split; [done|]. rewrite Hw2. apply andb_true_iff in Hc as [[_ Hs]%andb_true_iff Hbd].
    by rewrite Hs, Hbd.
  - intros (w & Hw & Hc). rewrite !andb_true_iff in Hc. destruct Hc as [[Hg Hs] Hb].
    destruct (proj1 (group_member w) (conj Hw Hg)) as (b & Hb' & Hbw).
    destruct (sources_differ_units i b u w Hu Hbw) as [Es Eb].
    exists b. split; [done|]. rewrite Es, Eb, Hs, Hb.
    destruct (Nat.eqb_spec i b) as [->|]; [|done].
    rewrite Hu in Hbw. injection Hbw as ->. by rewrite differ_irrefl in Hs.
Qed.

Lemma agreement_agreeing : agreement kv.2 i = negb (collides E u) && agreeing E u.
Proof using Hkv Hi Hu.
  apply eq_iff_eq_true. unfold agreement.
  rewrite !andb_true_iff, <- agrees_agreeing, !negb_true_iff, Nat.leb_le.
  assert (collision E kv.2 = collides E u) as -> by apply eq_iff_eq_true, collision_collides.
  split; [tauto|]. intros [Hc Ha]. split_and!; [|done..].
  unfold agrees in Ha. apply any_true in Ha as (b & Hb & Hc').
  apply andb_true_iff in Hc' as [[Hne%negb_true_iff _]%andb_true_iff _].
  apply (two_members i b); [done..|]. intros <-. by rewrite Nat.eqb_refl in Hne.
Qed.
End one_group.

(** Without a subject no agreement or collision is derivable. *)
Lemma no_subject u : subject_key u = None → collides E u = false ∧ agreeing E u = false.
Proof.
  intros Hk. assert (∀ v, same_group u v = false) as Hg
    by (intros v; unfold same_group; by rewrite Hk).
  split; apply any_false; intros v _; [apply any_false; intros w _|]; by rewrite Hg.
Qed.

Lemma crosscheck_flags_spec i u : E !! i = Some u →
  flag (crosscheck_flags E).1 i = collides E u ∧
  flag (crosscheck_flags E).2 i = negb (collides E u) && agreeing E u.
Proof.
  intros Hu. assert (i < length E)%nat as Hi by (by eapply lookup_lt_Some).
  unfold crosscheck_flags. set (groups := sort_by _ _).
  destruct (all_flags_spec groups (replicate (length E) false, replicate (length E) false) i)
    as [Hq Ha]; [by simpl; rewrite length_replicate..|].
  assert (flag (replicate (length E) false) i = false) as Hf
    by (unfold flag; by rewrite lookup_replicate_2).
  simpl in Hq, Ha. rewrite Hf in Hq, Ha.
  assert (∀ kv, kv ∈ groups ↔ kv ∈ map_to_list (group_from 0 E ∅)) as Hg
    by (intros kv; apply elem_of_sort_by).
  destruct (subject_key u) as [k|] eqn:Hk.
  - destruct (group_exists i k) as [l Hl]; [by apply in_group_unit; eauto|].
    assert (i ∈ l) as Hil by (apply (elem_of_groups _ Hl), in_group_unit; eauto).
    split; apply eq_iff_eq_true; [rewrite Hq|rewrite Ha]; split.
    + intros [|(kv & Hkv & Hm & Hin)]; [done|]. apply Hg in Hkv.
      by rewrite (quarantines_collides kv Hkv i u Hin Hu) in Hm.
    + intros Hc. right. exists (k, l). rewrite Hg. split_and!; [done| |done].
      by rewrite (quarantines_collides _ Hl i u Hil Hu).
    + intros [|(kv & Hkv & Hm & Hin)]; [done|]. apply Hg in Hkv.
      by rewrite (agreement_agreeing kv Hkv i u Hin Hu) in Hm.
    + intros Hc. right. exists (k, l). rewrite Hg. split_and!; [done| |done].
      by rewrite (agreement_agreeing _ Hl i u Hil Hu).
  - destruct (no_subject u Hk) as [-> ->]. simpl.
    assert (∀ kv, kv ∈ groups → i ∉ kv.2) as Hno.
    { intros kv Hkv%Hg Hin. by rewrite (group_key kv Hkv i u Hin Hu) in Hk. }
    split; apply not_true_iff_false; [rewrite Hq|rewrite Ha]; intros [|(kv & Hkv & _ & Hin)];
      try done; by eapply Hno.
Qed.
End flags.

Lemma crosscheck_from_decision E events idx l :
  (∀ j u, l !! j = Some u → E !! (idx + j)%nat = Some u) →
  crosscheck_from events (crosscheck_flags E).1 (crosscheck_flags E).2 idx l =
  omap (decision E events) l.
Proof.
  revert idx. induction l as [|u l IH]; intros idx Hl; simpl; [done|].
  assert (E !! idx = Some u) as Hu by (rewrite <- (Nat.add_0_r idx); by apply Hl).
  destruct (crosscheck_flags_spec E idx u Hu) as [Eq Ea]. unfold flag in Eq, Ea.
  rewrite Eq, Ea, IH.
  - unfold decision at 2. by destruct (crosscheck_unit _ _ _ u).
  - intros j v Hj. rewrite Nat.add_succ_l, <- Nat.add_succ_r. by apply Hl.
Qed.

Lemma crosscheck_decisions units events :
  compute_capture_crosscheck units events =
  let E := retain capture_eligible units in omap (decision E events) E.
Proof.
  unfold compute_capture_crosscheck. set (E := retain _ _). simpl.
  destruct (is_empty E) eqn:He; [by destruct E|].
  rewrite (surjective_pairing (crosscheck_flags E)). by apply crosscheck_from_decision.
Qed.

(** C23: the cross-check's index tables compute a decision per unit by membership
    alone: a captured, open, candidate or active unit is quarantined by a
    collision exactly when two sources report different bodies for its subject
    and kind, and gains an agreement exactly when there is no collision and
    another source reports its body; how the units are indexed and in which
    order the groups are visited is immaterial. *)
Theorem crosscheck_refines_membership units events :
  compute_capture_crosscheck units events =
  omap (decision (retain capture_eligible units) events) (retain capture_eligible units).
Proof. apply crosscheck_decisions. Qed.

(** ** Markers *)

Lemma elem_of_witness_if b w m v :
  v ∈ cm_witnesses (witness_if b w m) ↔ v ∈ cm_witnesses m ∨ (b = true ∧ v = w).
Proof.
  unfold witness_if, record_witness. destruct b; [|naive_solver].
  case_bool_decide; simpl; [naive_solver|].
  rewrite elem_of_sort_by, elem_of_app, list_elem_of_singleton. naive_solver.
Qed.

Lemma witness_if_present b w m : (b = true → w ∈ cm_witnesses m) → witness_if b w m = m.
Proof.
  unfold witness_if, record_witness. destruct b; [|done]. intros Hw.
  by rewrite bool_decide_true by auto.
Qed.

Lemma witness_if_source b w m :
  cm_source (witness_if b w m) = cm_source m ∧ cm_ladder (witness_if b w m) = cm_ladder m.
Proof. unfold witness_if, record_witness. destruct b; [by case_bool_decide|done]. Qed.

Lemma elem_of_next_marker a s m v :
  v ∈ cm_witnesses (next_marker a s m) ↔
  v ∈ cm_witnesses m ∨ (a = true ∧ v = CaptureWitness.SourceAgreement) ∨
  (s = true ∧ v = CaptureWitness.WeakOutcome).
Proof. unfold next_marker. simpl. rewrite !elem_of_witness_if. tauto. Qed.

Lemma next_marker_source a s m : cm_source (next_marker a s m) = cm_source m.
Proof.
  unfold next_marker. simpl. rewrite (proj1 (witness_if_source s _ _)). apply witness_if_source.
Qed.

Lemma next_marker_ladder a s m :
  cm_ladder (next_marker a s m) =
    CaptureLadder.max (cm_ladder m) (rung_for_witnesses (next_marker a s m)).
Proof.
  unfold next_marker at 1. simpl.
  rewrite (proj2 (witness_if_source s _ _)), (proj2 (witness_if_source a _ _)). done.
Qed.

Lemma ladder_max_le l r : CaptureLadder.to_N l <= CaptureLadder.to_N (CaptureLadder.max l r).
Proof. by destruct l, r. Qed.

Lemma ladder_max_again l r : CaptureLadder.max (CaptureLadder.max l r) r = CaptureLadder.max l r.
Proof. by destruct l, r. Qed.

Lemma ladder_max_durable l r : l ≠ CaptureLadder.Durable →
  CaptureLadder.max l r = CaptureLadder.Durable → r = CaptureLadder.Durable.
Proof. by destruct l, r; cbv. Qed.

(** Recording the same witnesses again changes nothing. *)
Lemma next_marker_again a a' s m : (a' = true → a = true) →
  next_marker a' s (next_marker a s m) = next_marker a s m.
Proof.
  intros Ha. set (m' := next_marker a s m). unfold next_marker at 1.
  rewrite (witness_if_present a'); [|intros; apply elem_of_next_marker; auto].
  rewrite witness_if_present; [|intros; apply elem_of_next_marker; auto].
  assert (cm_ladder m' = CaptureLadder.max (cm_ladder m) (rung_for_witnesses m')) as El
    by apply next_marker_ladder.
  assert (CaptureLadder.max (cm_ladder m') (rung_for_witnesses m') = cm_ladder m') as ->
    by (rewrite El at 1 2; by rewrite ladder_max_again).
  by destruct m'.
Qed.

Lemma dedup_heads (l : list CaptureWitness.t) x y r :
  dedup_by (λ v w, bool_decide (v = w)) l = x :: y :: r → x ≠ y.
Proof.
  revert x y r. induction l as [|z l IH]; intros x y r; simpl; [done|].
  destruct (dedup_by _ l) as [|z' r']; [done|].
  case_bool_decide as Hz; intros [=]; subst; [by eapply IH|done].
Qed.

(** The top rung takes two witness families. *)
Lemma durable_needs_two m : rung_for_witnesses m = CaptureLadder.Durable →
  ∃ v w, v ∈ cm_witnesses m ∧ w ∈ cm_witnesses m ∧ v ≠ w.
Proof.
  unfold rung_for_witnesses, distinct_witness_count.
  destruct (dedup_by _ _) as [|x [|y r]] eqn:E; [done..|]. intros _.
  assert (∀ v, v ∈ x :: y :: r → v ∈ cm_witnesses m) as Hin
    by (intros v Hv; rewrite <- E in Hv; by apply elem_of_dedup_by, elem_of_sort_by in Hv).
  exists x, y. split_and!; [apply Hin; left|apply Hin; right; left|by eapply dedup_heads].
Qed.

#[local] Arguments next_marker : simpl never.

(** ** What a decision may do *)

Lemma crosscheck_unit_inv events q a u t :
  crosscheck_unit events q a u = Some t →
  let f := outcome_flags events (mu_id u) in
  ∃ m, mu_capture u = Some m ∧ tn_id t = mu_id u ∧
    tn_capture t = next_marker a (fl_success f) m ∧
    tn_state t =
      (if q || fl_corrected f then UnitState.Quarantined
       else if bool_decide (mu_state u = UnitState.Candidate) &&
               is_corroborated (cm_ladder (tn_capture t)) then UnitState.Active
       else mu_state u) ∧
    tn_confidence t =
      (if q || fl_corrected f then Some f32_zero
       else if fl_failure f
       then Some (f32_mul (default f32_one (mu_confidence u)) CAPTURE_FAILURE_CONFIDENCE_FACTOR)
       else mu_confidence u).
Proof.
  unfold crosscheck_unit. destruct (mu_capture u) as [m|]; [simpl|done].
  set (f := outcome_flags events (mu_id u)). intros E. exists m.
  destruct (q || fl_corrected f); [|destruct (bool_decide (mu_state u = UnitState.Candidate) && _) eqn:Hp;
    [|destruct (fl_failure f)]]; case_match; simplify_eq/=; rewrite ?Hp; done.
Qed.

Lemma is_corroborated_spec l : is_corroborated l = true ↔ l ≠ CaptureLadder.Captured.
Proof. destruct l; unfold is_corroborated; simpl; naive_solver. Qed.

(** the cross-check decides only about captured, open, candidate or active
    units, and only within its evidence: a unit becomes quarantined exactly
    when its sources collide or an event corrected it, active only with a
    witness, and its ladder never falls and reaches the top only on two
    distinct witness families. *)
Theorem crosscheck_is_justified units events t :
  t ∈ compute_capture_crosscheck units events →
  ∃ u m, u ∈ units ∧ tn_id t = mu_id u ∧ mu_capture u = Some m ∧ capture_eligible u = true ∧
    let m' := tn_capture t in
    (tn_state t = UnitState.Quarantined ↔
       collides (retain capture_eligible units) u = true ∨
       fl_corrected (outcome_flags events (mu_id u)) = true) ∧
    (tn_state t = UnitState.Quarantined ∨ tn_state t = mu_state u ∨
     tn_state t = UnitState.Active ∧ mu_state u = UnitState.Candidate ∧
       cm_ladder m' ≠ CaptureLadder.Captured) ∧
    cm_source m' = cm_source m ∧
    CaptureLadder.to_N (cm_ladder m) <= CaptureLadder.to_N (cm_ladder m') ∧
    (cm_ladder m' = CaptureLadder.Durable → cm_ladder m ≠ CaptureLadder.Durable →
       ∃ v w, v ∈ cm_witnesses m' ∧ w ∈ cm_witnesses m' ∧ v ≠ w).
Proof.
  rewrite crosscheck_decisions. simpl. intros (u & [Hu He]%elem_of_retain & Hd)%list_elem_of_omap.
  apply crosscheck_unit_inv in Hd as (m & Hm & Hid & Hc & Hs & _).
  exists u, m. rewrite Hc in *. rewrite next_marker_source.
  set (E := retain _ _) in *. set (f := outcome_flags _ _) in *. split_and!; try done.
  - rewrite Hs. destruct (collides E u); simpl; [naive_solver|].
    destruct (fl_corrected f); simpl; [naive_solver|]. split; [|naive_solver].
    unfold capture_eligible in He. apply andb_true_iff in He as [_ He].
    intros Hq. exfalso. case_match; [done|]. by rewrite Hq in He.
  - rewrite Hs. destruct (_ || fl_corrected f); [by left|].
    destruct (bool_decide (mu_state u = UnitState.Candidate) && _) eqn:Hp; [|auto].
    apply andb_true_iff in Hp as [Hp1 Hp2].
    apply bool_decide_eq_true in Hp1. apply is_corroborated_spec in Hp2. auto.
  - rewrite next_marker_ladder. apply ladder_max_le.
  - rewrite next_marker_ladder. intros Hmax Hne. apply durable_needs_two.
    revert Hmax. apply ladder_max_durable, Hne.
Qed.

(** ** A second run *)

Lemma any_map {A B} (f : A → B) p l : any p (map f l) = any (λ x, p (f x)) l.
Proof. unfold any. induction l as [|x l IH]; simpl; [done|]. by rewrite IH. Qed.

Section second_run.
Context (units : list StoredMemoryUnit) (events : list ReviewEvent).
Let E := retain capture_eligible units.

(** The unit after its decision is applied. *)
Definition after (u : StoredMemoryUnit) : StoredMemoryUnit :=
  if capture_eligible u then
    match decision E events u with Some t => apply_transition t u | None => u end
  else u.

Let E' := retain capture_eligible (map after units).

Lemma after_fields u :
  mu_id (after u) = mu_id u ∧ subject_key (after u) = subject_key u ∧
  capture_body_key (after u) = capture_body_key u ∧ unit_source (after u) = unit_source u ∧
  mu_transaction_to (after u) = mu_transaction_to u.
Proof using Type.
  unfold after. destruct (capture_eligible u); [|done].
  destruct (decision E events u) as [t|] eqn:Hd; [|done].
  apply crosscheck_unit_inv in Hd as (m & Hm & _ & Hc & _).
  unfold unit_source. simpl. rewrite Hm. cbn [fmap option_fmap option_map]. by rewrite Hc, next_marker_source.
Qed.

Lemma same_group_after u v : same_group (after u) (after v) = same_group u v.
Proof using Type.
  unfold same_group. destruct (after_fields u) as (_ & -> & _), (after_fields v) as (_ & -> & _).
  done.
Qed.
Lemma differ_after u v : differ (after u) (after v) = differ u v.
Proof using Type.
  unfold differ. destruct (after_fields u) as (_ & _ & _ & -> & _).
  by destruct (after_fields v) as (_ & _ & _ & -> & _).
Qed.
Lemma same_body_after u v : same_body (after u) (after v) = same_body u v.
Proof using Type.
  unfold same_body. destruct (after_fields u) as (_ & _ & -> & _).
  by destruct (after_fields v) as (_ & _ & -> & _).
Qed.

Lemma after_eligible u : capture_eligible (after u) = true → capture_eligible u = true.
Proof using Type.
  intros He. destruct (capture_eligible u) eqn:Hu; [done|].
  unfold after in He. by rewrite Hu, Hu in He.
Qed.

Lemma elem_of_second v : v ∈ E' → ∃ u, u ∈ E ∧ v = after u.
Proof using Type.
  intros [(u & -> & Hu)%list_elem_of_fmap He]%elem_of_retain.
  exists u. split; [|done]. apply elem_of_retain. split; [done|]. by apply after_eligible.
Qed.

(** What is left of the evidence was there before. *)
Lemma collides_after u : collides E' (after u) = true → collides E u = true.
Proof using Type.
  unfold collides. rewrite !any_true. intros (v & Hv & (w & Hw & Hc)%any_true).
  apply elem_of_second in Hv as (v' & Hv & ->). apply elem_of_second in Hw as (w' & Hw & ->).
  rewrite !same_group_after, differ_after, same_body_after in Hc.
  exists v'. split; [done|]. apply any_true. eauto.
Qed.
Lemma agreeing_after u : agreeing E' (after u) = true → agreeing E u = true.
Proof using Type.
  unfold agreeing. rewrite !any_true. intros (v & Hv & Hc).
  apply elem_of_second in Hv as (v' & Hv & ->).
  rewrite same_group_after, differ_after, same_body_after in Hc. eauto.
Qed.

Context (no_failure : ∀ u, u ∈ E → fl_failure (outcome_flags events (mu_id u)) = false).
Context (no_nan : ∀ u c, u ∈ E → mu_confidence u = Some c → f32_is_nan c = false).

Lemma confidence_settled u : u ∈ E →
  option_eqb f32_eqb (mu_confidence u) (mu_confidence u) = true.
Proof using no_nan.
  intros Hu. destruct (mu_confidence u) as [c|] eqn:Ec; [|done]. simpl.
  unfold f32_eqb. by rewrite (no_nan u c), N.eqb_refl.
Qed.

(** Collisions and corrections always take effect. *)
Lemma quarantined_after u : u ∈ E →
  collides E u || fl_corrected (outcome_flags events (mu_id u)) = true →
  capture_eligible (after u) = false.
Proof using Type.
  intros [Hin Hu]%elem_of_retain Hq. unfold after. rewrite Hu.
  assert (∃ t, decision E events u = Some t) as [t Ht].
  { unfold decision, crosscheck_unit. destruct (mu_capture u) as [m|] eqn:Hm; simpl.
    - rewrite Hq. rewrite (bool_decide_false (UnitState.Quarantined = mu_state u)); [by eexists|].
      intros Hs. unfold capture_eligible in Hu. rewrite <- Hs in Hu. by rewrite andb_false_r in Hu.
    - unfold capture_eligible in Hu. by rewrite Hm in Hu. }
  rewrite Ht. apply crosscheck_unit_inv in Ht as (m & _ & _ & _ & Hs & _). rewrite Hq in Hs.
  unfold capture_eligible. simpl. rewrite Hs. apply andb_false_r.
Qed.

(** A unit that stays eligible was not quarantined: its decision set the
    marker and at most promoted it. *)
Lemma after_settled u m : u ∈ E → capture_eligible (after u) = true → mu_capture u = Some m →
  let f := outcome_flags events (mu_id u) in
  collides E u = false ∧ fl_corrected f = false ∧
  let m' := next_marker (agreeing E u) (fl_success f) m in
  let s := if bool_decide (mu_state u = UnitState.Candidate) && is_corroborated (cm_ladder m')
           then UnitState.Active else mu_state u in
  mu_state (after u) = s ∧ mu_confidence (after u) = mu_confidence u ∧
  mu_capture (after u) = Some m'.
Proof using no_failure no_nan.
  intros [Hin Hu]%elem_of_retain He Hm f.
  assert (u ∈ E) as HE by (by apply elem_of_retain).
  assert (collides E u = false ∧ fl_corrected f = false) as [Hc Hcor].
  { apply orb_false_iff, not_true_iff_false. intros Hq%quarantined_after; [congruence|done]. }
  pose proof (no_failure u HE) as Hf. pose proof (confidence_settled u HE) as Hconf.
  fold f in Hf. unfold after, decision, crosscheck_unit. rewrite Hu, Hm. simpl. fold f.
  rewrite Hf, Hc, Hcor. simpl.
  split_and!; [done|done| | |]; clear He.
  all: set (m' := next_marker _ _ m).
  all: destruct (bool_decide (mu_state u = UnitState.Candidate) && _) eqn:Hp; simpl;
    rewrite Hconf; simpl;
    match goal with |- context [if ?b then Some _ else None] => destruct b eqn:Hch end;
    simpl; try done.
  all: rewrite ?orb_false_r in Hch.
  all: apply orb_false_iff in Hch as [Hs%negb_false_iff%bool_decide_eq_true
                                      Hx%negb_false_iff%bool_decide_eq_true].
  all: congruence.
Qed.

Lemma second_decision u : u ∈ E → capture_eligible (after u) = true →
  decision E' events (after u) = None.
Proof using no_failure no_nan.
  intros HE He. assert (∃ m, mu_capture u = Some m) as [m Hm].
  { apply elem_of_retain in HE as [_ HE]. unfold capture_eligible in HE.
    apply andb_true_iff in HE as [[HE _]%andb_true_iff _]. by apply bool_decide_eq_true in HE. }
  destruct (after_settled u m HE He Hm) as (Hc & Hcor & Hs & Hcf & Hcp).
  assert (collides E' (after u) = false) as Hc'.
  { apply not_true_iff_false. intros Hx%collides_after. congruence. }
  unfold decision, crosscheck_unit. rewrite Hcp, Hc'. cbn [mbind option_bind negb andb orb].
  destruct (after_fields u) as (-> & _). rewrite Hcor, (no_failure u HE), Hcf, Hs.
  rewrite (confidence_settled u HE), next_marker_again by apply agreeing_after.
  set (m' := next_marker _ _ m) in *.
  destruct (bool_decide (mu_state u = UnitState.Candidate) && _) eqn:Hp.
  - rewrite (bool_decide_false (UnitState.Active = UnitState.Candidate)) by done. cbn [andb].
    by rewrite !bool_decide_true.
  - rewrite Hp. by rewrite !bool_decide_true.
Qed.

Lemma second_run_empty : compute_capture_crosscheck (map after units) events = [].
Proof using no_failure no_nan.
  rewrite crosscheck_decisions. simpl. fold E'.
  destruct (omap _ E') as [|t l] eqn:Et; [done|]. exfalso.
  assert (t ∈ omap (decision E' events) E') as Ht by (rewrite Et; left).
  apply list_elem_of_omap in Ht as (v & Hv & Hd).
  pose proof Hv as (u & Hu & ->)%elem_of_second. apply elem_of_retain in Hv as [_ He].
  by rewrite second_decision in Hd.
Qed.
End second_run.

(** ** Applying the decisions to the store *)

Definition find_transition (ts : list CaptureTransition) (u : StoredMemoryUnit)
    : option CaptureTransition := find (λ t, tn_id t =? mu_id u) ts.
Definition transitioned (ts : list CaptureTransition) (u : StoredMemoryUnit) : StoredMemoryUnit :=
  match find_transition ts u with Some t => apply_transition t u | None => u end.

Lemma update_first_unique p f (l : list StoredMemoryUnit) (k : N) :
  NoDup (map mu_id l) → (∀ u, u ∈ l → p u = (mu_id u =? k)) →
  update_first p f l = map (λ u, if mu_id u =? k then f u else u) l.
Proof.
  induction l as [|u l IH]; intros Hnd Hp; simpl; [done|].
  apply NoDup_cons in Hnd as [Hni Hnd]. rewrite Hp by left.
  destruct (N.eqb_spec (mu_id u) k) as [<-|Hne].
  - f_equal. symmetry. etrans; [|apply map_id]. apply map_ext_in. intros v Hv.
    destruct (N.eqb_spec (mu_id v) (mu_id u)) as [E|]; [|done].
    destruct Hni. rewrite <- E. apply list_elem_of_fmap_2. by apply list_elem_of_In.
  - f_equal. apply IH; [done|]. intros v Hv. apply Hp. by right.
Qed.

Lemma apply_transitions_map context ts units report :
  NoDup (map mu_id units) → NoDup (map tn_id ts) →
  (∀ t, t ∈ ts → ∃ u, u ∈ units ∧ transition_target context t u = true) →
  apply_transitions context ts units report =
    (map (transitioned ts) units, Ok (foldl record report ts)).
Proof.
  revert units report. induction ts as [|t ts IH]; intros units report Hnd Hts Htg; simpl.
  { by rewrite map_id. }
  destruct (Htg t) as (u0 & Hu0 & Ht0); [left|].
  assert (any (transition_target context t) units = true) as -> by (apply any_true; eauto).
  unfold transition_target in Ht0. rewrite !andb_true_iff, N.eqb_eq in Ht0.
  destruct Ht0 as [[Hid Hown] Hopen].
  apply NoDup_cons in Hts as [Hni Hts].
  assert (∀ u, u ∈ units → transition_target context t u = (mu_id u =? tn_id t)) as Hp.
  { intros u Hu. unfold transition_target. destruct (N.eqb_spec (mu_id u) (tn_id t)) as [E|]; [|done].
    rewrite <- Hid in E. by rewrite (same_id_same_unit units u u0), Hown, Hopen. }
  rewrite (update_first_unique _ _ _ (tn_id t)) by done.
  set (g := λ u, if mu_id u =? tn_id t then apply_transition t u else u).
  assert (∀ u, mu_id (g u) = mu_id u) as Hg by (intros u; unfold g; by destruct (_ =? _)).
  assert (∀ t' u, transition_target context t' (g u) = transition_target context t' u) as Hgt
    by (intros t' u; unfold g; by destruct (_ =? _)).
  rewrite IH.
  - f_equal. rewrite map_map. apply map_ext. intros u. unfold transitioned, find_transition.
    simpl. unfold g. destruct (N.eqb_spec (mu_id u) (tn_id t)) as [E|E]; simpl.
    + rewrite E, N.eqb_refl. replace (find _ ts) with (@None CaptureTransition); [done|].
      symmetry. apply find_None. intros t' Ht'. apply N.eqb_neq. intros E'. apply Hni.
      rewrite <- E'. by apply list_elem_of_fmap_2.
    + by rewrite (proj2 (N.eqb_neq (tn_id t) (mu_id u))) by done.
  - rewrite map_map. by rewrite (map_ext _ mu_id Hg).
  - done.
  - intros t' Ht'. destruct (Htg t') as (u & Hu & Hu'); [by right|].
    exists (g u). split; [by apply list_elem_of_fmap_2|]. by rewrite Hgt.
Qed.

Lemma no_failure_flags events id :
  (∀ e, e ∈ events → rv_outcome e ≠ MarkOutcome.Failure) →
  fl_failure (outcome_flags events id) = false.
Proof.
  intros Hno. unfold outcome_flags.
  assert (∀ e, e ∈ retain (λ e, mem id (rv_used_ids e)) events →
            rv_outcome e ≠ MarkOutcome.Failure) as Hno'
    by (intros e [He _]%elem_of_retain; by apply Hno).
  clear Hno. induction (retain _ events) as [|e l IH] using rev_ind; [done|].
  rewrite foldl_app. simpl. set (f := foldl _ _ l) in *.
  assert (fl_failure f = false) as Hf by (apply IH; intros e' He'; apply Hno'; set_solver).
  assert (rv_outcome e ≠ MarkOutcome.Failure) as He by (apply Hno'; set_solver).
  by destruct (rv_outcome e).
Qed.

Lemma sort_by_map {A} (leb : A → A → bool) (g : A → A) l :
  (∀ x y, leb (g x) (g y) = leb x y) → sort_by leb (map g l) = map g (sort_by leb l).
Proof.
  intros Hg. assert (∀ x k, insert_sorted leb (g x) (map g k) = map g (insert_sorted leb x k)) as Hi.
  { intros x k. induction k as [|y k IH]; simpl; [done|]. rewrite Hg.
    destruct (leb x y); simpl; [done|]. by rewrite IH. }
  induction l as [|x l IH]; simpl; [done|]. by rewrite IH, Hi.
Qed.

Lemma retain_map_ext {A} p (g : A → A) l :
  (∀ x, x ∈ l → p (g x) = p x) → retain p (map g l) = map g (retain p l).
Proof.
  induction l as [|x l IH]; intros Hp; [done|]. cbn [map]. rewrite !retain_cons, Hp by left.
  rewrite IH by (intros; apply Hp; by right). by destruct (p x).
Qed.

Lemma omap_ids_sublist (d : StoredMemoryUnit → option CaptureTransition) l :
  (∀ u t, d u = Some t → tn_id t = mu_id u) → map tn_id (omap d l) `sublist_of` map mu_id l.
Proof.
  intros Hd. induction l as [|u l IH]; simpl; [done|].
  destruct (d u) as [t|] eqn:E; simpl; [rewrite (Hd u t E)|]; by constructor.
Qed.

Section store_run.
Context `{HashOrder} `{Jiff}.
Context (state : InMemoryState) (context : ResolvedMemoryContext) (now : string).
Context (valid : validate_context state context = Ok ()).
Context (ids_unique : NoDup (map mu_id (tenant_units state context))).

Let open := in_memory_scope_open_units state context.
Let captured_ids := map mu_id (retain (λ u, bool_decide (is_Some (mu_capture u))) open).
Definition is_open_unit (u : StoredMemoryUnit) : bool :=
  own_node_unit context u && allows context (mu_kind u) (mu_scope_id u) (mu_agent_node_id u) &&
  bool_decide (mu_transaction_to u = None).

Definition scope_events (s : InMemoryState) (ids : list UnitId) : list ReviewEvent :=
  match fetch_review_events s context ids (mkRecallTime now now now) with
  | Ok events => events
  | Err _ => []
  end.

Let events := scope_events state captured_ids.
Let ts := compute_capture_crosscheck open events.

Definition applied : InMemoryState :=
  state <| st_memory_units ::=
    update_rows (cx_tenant_id context) (λ _, map (transitioned ts) (tenant_units state context)) |>.

Lemma elem_of_open u : u ∈ open ↔ u ∈ tenant_units state context ∧ is_open_unit u = true.
Proof using Type.
  unfold open, in_memory_scope_open_units. by rewrite elem_of_sort_by, elem_of_retain.
Qed.

Lemma open_ids : NoDup (map mu_id open).
Proof using ids_unique.
  unfold open, in_memory_scope_open_units.
  rewrite (Permutation_map mu_id (sort_by_perm unit_id_leb _)).
  eapply sublist_NoDup; [exact ids_unique|]. apply fmap_sublist, retain_sublist.
Qed.

Lemma transition_of t : t ∈ ts → ∃ u, u ∈ open ∧ tn_id t = mu_id u ∧
  capture_eligible u = true ∧ decision (retain capture_eligible open) events u = Some t.
Proof using Type.
  unfold ts. rewrite crosscheck_decisions. simpl.
  intros (u & [Hu He]%elem_of_retain & Hd)%list_elem_of_omap. exists u.
  pose proof Hd as (m & _ & Hid & _)%crosscheck_unit_inv. done.
Qed.

Lemma transition_ids : NoDup (map tn_id ts).
Proof using ids_unique.
  eapply sublist_NoDup; [exact open_ids|]. unfold ts. rewrite crosscheck_decisions. simpl.
  etrans; [|apply (fmap_sublist mu_id), (retain_sublist capture_eligible)].
  apply omap_ids_sublist. intros u t (m & _ & Hid & _)%crosscheck_unit_inv. done.
Qed.

Lemma transitioned_after u : u ∈ tenant_units state context →
  transitioned ts u = if is_open_unit u then after open events u else u.
Proof using ids_unique.
  intros Hu. unfold transitioned. destruct (find_transition ts u) as [t|] eqn:Ef.
  - apply find_Some in Ef as [Ht Hid%N.eqb_eq].
    destruct (transition_of t Ht) as (v & [Hv Ho]%elem_of_open & Hid' & He & Hd).
    assert (u = v) as <- by (eapply same_id_same_unit; [exact ids_unique|done|done|congruence]).
    unfold after. by rewrite Ho, He, Hd.
  - destruct (is_open_unit u) eqn:Ho; [|done]. unfold after.
    destruct (capture_eligible u) eqn:He; [|done].
    destruct (decision _ events u) as [t|] eqn:Hd; [|done]. exfalso.
    pose proof Hd as (m & _ & Hid & _)%crosscheck_unit_inv.
    assert (t ∈ ts) as Ht.
    { unfold ts. rewrite crosscheck_decisions. apply list_elem_of_omap. exists u.
      split; [|done]. apply elem_of_retain. split; [by apply elem_of_open|done]. }
    unfold find_transition in Ef. rewrite find_None in Ef. specialize (Ef t Ht).
    by rewrite Hid, N.eqb_refl in Ef.
Qed.

Lemma transitioned_fields u :
  mu_id (transitioned ts u) = mu_id u ∧ is_open_unit (transitioned ts u) = is_open_unit u.
Proof using Type. unfold transitioned. by destruct (find_transition ts u). Qed.

Lemma second_open : in_memory_scope_open_units applied context = map (after open events) open.
Proof using ids_unique.
  transitivity (map (transitioned ts) open).
  - unfold in_memory_scope_open_units, tenant_units at 1, applied. simpl. rewrite rows_update_eq.
    rewrite (retain_map_ext _ (transitioned ts)) by (intros u _; apply transitioned_fields).
    apply sort_by_map. intros u v. unfold unit_id_leb.
    destruct (transitioned_fields u) as [-> _], (transitioned_fields v) as [-> _]. done.
  - apply map_ext_in. intros u Hu%list_elem_of_In%elem_of_open. destruct Hu as [Hu Ho].
    by rewrite transitioned_after, Ho.
Qed.

Lemma second_captured :
  map mu_id (retain (λ u, bool_decide (is_Some (mu_capture u))) (map (after open events) open)) =
  captured_ids.
Proof using Type.
  unfold captured_ids. rewrite retain_map_ext.
  - rewrite map_map. apply map_ext. intros u. apply (after_fields open events u).
  - intros u _. apply bool_decide_ext.
    destruct (after_fields open events u) as (_ & _ & _ & Hs & _). unfold unit_source in Hs.
    destruct (mu_capture u), (mu_capture (after open events u)); simpl in Hs; try done;
      split; intros [? ?]; done.
Qed.

Lemma scope_read s : validate_context s context = Ok () →
  fetch_scope_open_units s context = Ok (in_memory_scope_open_units s context) ∧
  ∀ ids, fetch_review_events s context ids (mkRecallTime now now now) = Ok (scope_events s ids).
Proof using Type.
  intros Hv. unfold scope_events, fetch_scope_open_units, fetch_review_events, reading.
  by rewrite Hv.
Qed.

Context (no_nan : ∀ u c, u ∈ tenant_units state context →
  mu_confidence u = Some c → f32_is_nan c = false).
Context (no_failure : ∀ e, e ∈ rows (st_review_events state) (cx_tenant_id context) →
  rv_outcome e ≠ MarkOutcome.Failure).

Lemma events_no_failure e : e ∈ events → rv_outcome e ≠ MarkOutcome.Failure.
Proof using valid no_failure.
  unfold events, scope_events, fetch_review_events, reading. rewrite valid. simpl.
  intros (e' & -> & [He' _]%elem_of_retain)%list_elem_of_fmap. simpl. by apply no_failure.
Qed.

Lemma second_empty : compute_capture_crosscheck (map (after open events) open) events = [].
Proof using valid no_nan no_failure.
  apply second_run_empty.
  - intros u _. apply no_failure_flags, events_no_failure.
  - intros u c [[Hu _]%elem_of_open _]%elem_of_retain. by apply no_nan.
Qed.

Lemma run_once :
  run_capture_crosscheck true now state context =
    if is_empty captured_ids || is_empty ts then (state, Ok CaptureCrossCheckReport_default)
    else (applied, Ok (foldl record CaptureCrossCheckReport_default ts)).
Proof using valid ids_unique.
  destruct (scope_read state valid) as [Ho He]. unfold run_capture_crosscheck. simpl.
  rewrite Ho. fold open captured_ids. destruct (is_empty captured_ids); [done|]. simpl.
  rewrite He. fold events ts. destruct (is_empty ts); [done|].
  unfold apply_capture_transitions. rewrite valid.
  rewrite apply_transitions_map; [done|exact ids_unique|exact transition_ids|].
  intros t Ht. destruct (transition_of t Ht) as (u & [Hu Ho']%elem_of_open & Hid & _ & _).
  exists u. split; [done|]. unfold is_open_unit in Ho'. rewrite !andb_true_iff in Ho'.
  destruct Ho' as [[Ho1 _] Ho2]. unfold transition_target. by rewrite Ho1, Ho2, Hid, N.eqb_refl.
Qed.

(** a cross-check run of a valid context always completes, and when no
    review event reports a failure a second run finds nothing left to decide:
    it changes nothing and reports nothing. *)
Theorem crosscheck_settles : ∃ s' report,
  run_capture_crosscheck true now state context = (s', Ok report) ∧
  run_capture_crosscheck true now s' context = (s', Ok CaptureCrossCheckReport_default).
Proof using valid ids_unique no_nan no_failure.
  pose proof run_once as Hrun.
  destruct (is_empty captured_ids || is_empty ts) eqn:Hempty.
  { do 2 eexists. split; exact Hrun. }
  do 2 eexists. split; [exact Hrun|].
  assert (validate_context applied context = Ok ()) as Hv by exact valid.
  destruct (scope_read applied Hv) as [Ho He]. unfold run_capture_crosscheck. cbn [negb].
  rewrite Ho, second_open, second_captured. apply orb_false_iff in Hempty as [-> _].
  rewrite He. change (scope_events applied captured_ids) with events.
  by rewrite second_empty.
Qed.
End store_run.

Lemma lone_failure u m e c : capture_eligible u = true → mu_capture u = Some m →
  subject_key u = None → mu_state u = UnitState.Active →
  rv_outcome e = MarkOutcome.Failure → mu_id u ∈ rv_used_ids e →
  f32_mul (default f32_one (mu_confidence u)) CAPTURE_FAILURE_CONFIDENCE_FACTOR = c →
  option_eqb f32_eqb (Some c) (mu_confidence u) = false →
  compute_capture_crosscheck [u] [e] =
    [mkTransition (mu_id u) CaptureTransitionKind.Demote UnitState.Active (Some c)
       (next_marker false false m)].
Proof.
  intros He Hm Hk Hs Ho Hid Hc Hne. rewrite crosscheck_decisions, retain_cons, He. simpl.
  destruct (no_subject [u] u Hk) as [Hc1 Ha1]. unfold decision. rewrite Hc1. cbn [negb andb].
  rewrite Ha1. unfold crosscheck_unit. rewrite Hm.
  assert (outcome_flags [e] (mu_id u) = mkFlags false true false) as ->.
  { unfold outcome_flags, mem. rewrite retain_cons, bool_decide_true by done. simpl. by rewrite Ho. }
  cbn [mbind option_bind fl_success fl_corrected fl_failure orb]. rewrite Hs.
  rewrite (bool_decide_false (UnitState.Active = UnitState.Candidate)) by done. cbn [andb].
  rewrite Hc, Hne. cbn [negb]. by rewrite orb_true_r.
Qed.

(** a failure is not settled by a run: an active captured unit with no
    recorded confidence and one failure event is demoted to half confidence by
    one run and to a quarter by the next, though its evidence is the same; the
    comment on the cross-check calls it idempotent. *)
Theorem failure_demotes_again u m e : capture_eligible u = true → mu_capture u = Some m →
  subject_key u = None → mu_state u = UnitState.Active → mu_confidence u = None →
  rv_outcome e = MarkOutcome.Failure → mu_id u ∈ rv_used_ids e →
  ∃ t t',
    compute_capture_crosscheck [u] [e] = [t] ∧ tn_confidence t = Some f32_half ∧
    compute_capture_crosscheck [apply_transition t u] [e] = [t'] ∧
    tn_confidence t' = Some 0x3e800000 ∧ tn_kind t' = CaptureTransitionKind.Demote.
Proof.
  intros He Hm Hk Hs Hcf Ho Hid.
  do 2 eexists. split_and!.
  - apply (lone_failure u m e f32_half); try done; by rewrite Hcf.
  - done.
  - eapply lone_failure; try done. unfold capture_eligible in *. simpl.
    rewrite Hm, Hs in He. exact He.
  - done.
  - done.
Qed.

(** ** Other subjects *)

Lemma retain_update_first_frame {A} (p q : A → bool) f l :
  (∀ x, p x = true → q x = false ∧ q (f x) = false) → retain q (update_first p f l) = retain q l.
Proof.
  intros Hf. induction l as [|x l IH]; [done|]. cbn [update_first]. destruct (p x) eqn:E.
  - destruct (Hf x E) as [Hx Hfx]. by rewrite !retain_cons, Hx, Hfx.
  - by rewrite !retain_cons, IH.
Qed.

(** The transitions of a context edit units of its subject. *)
Lemma apply_transitions_frame context subject ts units report :
  subject ≠ cx_data_subject_id context →
  retain (λ u, mu_data_subject_id u =? subject) (apply_transitions context ts units report).1 =
    retain (λ u, mu_data_subject_id u =? subject) units.
Proof.
  intros Hne. revert units report. induction ts as [|t ts IH]; intros units report; [done|].
  cbn [apply_transitions]. destruct (any _ units); [|done]. rewrite IH.
  apply retain_update_first_frame. intros u Hu.
  assert (mu_data_subject_id u ≠ subject).
  { unfold transition_target, own_node_unit in Hu. bool_prop. congruence. }
  split; by apply N.eqb_neq.
Qed.
