(* ===== verification/TextFacts.v ===== *)
(** * TextFacts: slices, boundaries and blanks

    Lemmas on the functions of Text.v that the chunkers, the renderer and the
    validators share: cutting a valid text at character boundaries, appending
    blank texts, and counting the words of joined texts. *)

From S2P Require Import Prelude Text.

(** ** Slices *)

Lemma slice_join (l : list N) i j k :
  (i <= j <= k)%nat → slice i k l = slice i j l ++ slice j k l.
Proof.
  intros H. unfold slice. replace (k - i)%nat with ((j - i) + (k - j))%nat by lia.
  rewrite <-take_take_drop, drop_drop. repeat f_equal. lia.
Qed.

Lemma slice_rest (l : list N) i j : (i <= j)%nat → drop i l = slice i j l ++ drop j l.
Proof.
  intros H. unfold slice. rewrite <-(take_drop (j - i) (drop i l)) at 1.
  rewrite drop_drop. repeat f_equal. lia.
Qed.

Lemma slice_refl (l : list N) i : slice i i l = [].
Proof. unfold slice. by rewrite Nat.sub_diag. Qed.

Lemma length_slice (l : list N) i j : (j <= length l)%nat → length (slice i j l) = (j - i)%nat.
Proof. intros H. unfold slice. rewrite length_take, length_drop. lia. Qed.

(** The slice a prefix leaves. *)
Lemma slice_at (a b c : list N) i j :
  i = length a → j = (length a + length b)%nat → slice i j (a ++ b ++ c) = b.
Proof.
  intros -> ->. unfold slice. rewrite drop_app_length, take_app_length'; [done | lia].
Qed.

(** ** Character boundaries *)

Definition boundary (l : list N) (i : nat) : Prop :=
  (i <= length l)%nat ∧ starts_char (drop i l).

Lemma boundary_test l i : boundary l i → is_char_boundary l i = true.
Proof.
  intros [Hi Hs]. unfold is_char_boundary. destruct i as [|i]; [done|].
  destruct (l !! S i) as [b|] eqn:E.
  - unfold starts_char in Hs. rewrite (drop_S _ _ _ E) in Hs. simpl in Hs. by rewrite Hs.
  - apply lookup_ge_None in E. apply Nat.eqb_eq. lia.
Qed.

Lemma boundary_start l : valid_utf8 l = true → boundary l 0.
Proof. intros H. split; [lia|]. by apply valid_utf8_starts. Qed.

Lemma boundary_end l : boundary l (length l).
Proof. split; [lia|]. by rewrite drop_all. Qed.

Lemma boundary_app a k : starts_char k → boundary (a ++ k) (length a).
Proof. intros Hk. split; [rewrite length_app; lia|]. by rewrite drop_app_length. Qed.

Lemma get_slice_length l i j s : get_slice l i j = Some s → length s = (j - i)%nat.
Proof.
  unfold get_slice. destruct (_ && _) eqn:E; [|done]. intros [= <-].
  apply andb_true_iff in E as [[[_ E%Nat.leb_le]%andb_true_iff _]%andb_true_iff _].
  unfold slice. rewrite length_take, length_drop. lia.
Qed.

Lemma get_slice_boundary l i j :
  (i <= j)%nat → boundary l i → boundary l j → get_slice l i j = Some (slice i j l).
Proof.
  intros H Hi Hj. unfold get_slice. rewrite !boundary_test by done.
  rewrite (proj2 (Nat.leb_le i j)), (proj2 (Nat.leb_le j (length l))) by (done || apply Hj).
  done.
Qed.

Lemma valid_drop l i : valid_utf8 l = true → boundary l i → valid_utf8 (drop i l) = true.
Proof.
  intros H [Hi Hs]. rewrite <-(take_drop i l) in H. by apply valid_utf8_app in H as [_ ?].
Qed.

Lemma valid_slice l i j :
  (i <= j)%nat → valid_utf8 l = true → boundary l i → boundary l j →
  valid_utf8 (slice i j l) = true.
Proof.
  intros H Hv Hi [_ Hj]. pose proof (valid_drop l i Hv Hi) as Hd.
  rewrite (slice_rest l i j) in Hd by done. by apply valid_utf8_app in Hd as [? _].
Qed.

(** Cutting a valid text after some of its characters. *)
Lemma valid_chars_take l n :
  valid_utf8 l = true → chars (concat (take n (chars l))) = take n (chars l).
Proof.
  intros H. apply chars_of_concat. unfold valid_utf8 in H.
  rewrite <-(take_drop n (chars l)), forallb_app in H. by apply andb_true_iff in H as [? _].
Qed.

Lemma starts_char_chars cs : forallb char_ok cs = true → starts_char (concat cs).
Proof.
  intros H. unfold starts_char. destruct cs as [|c cs]; [done|]. cbn [forallb] in H.
  apply andb_true_iff in H as [Hc _]. by destruct (char_ok_cons c Hc) as (a & r & -> & Ha & _).
Qed.

Lemma boundary_chars l i j n :
  (i <= j)%nat → valid_utf8 l = true → boundary l i → boundary l j →
  let k := (i + length (concat (take n (chars (slice i j l)))))%nat in
  (k <= j)%nat ∧ boundary l k ∧ slice i k l = concat (take n (chars (slice i j l))).
Proof.
  intros H Hv Hi Hj k. set (cs := chars (slice i j l)) in *.
  assert (slice i j l = concat (take n cs) ++ concat (drop n cs)) as Hcut.
  { rewrite <-concat_app, take_drop. symmetry. apply chars_concat. }
  assert (Hlen := length_slice l i j (proj1 Hj)). rewrite Hcut, length_app in Hlen.
  assert (k <= j)%nat as Hk by (unfold k; lia).
  assert (slice i k l = concat (take n cs)) as Hs.
  { assert (take (k - i) (slice i j l) = slice i k l) as <-.
    { unfold slice. rewrite take_take. f_equal. lia. }
    rewrite Hcut. apply take_app_length'. unfold k. lia. }
  split_and!; [done| |done]. split; [destruct Hj; lia|].
  assert (drop k l = concat (drop n cs) ++ drop j l) as ->.
  { apply (app_inv_head (slice i k l)). rewrite <-slice_rest by (unfold k; lia).
    rewrite Hs, app_assoc, <-Hcut. by apply slice_rest. }
  assert (forallb char_ok (drop n cs) = true) as Hok.
  { pose proof (valid_slice l i j H Hv Hi Hj) as Hvs. unfold valid_utf8 in Hvs. fold cs in Hvs.
    rewrite <-(take_drop n cs), forallb_app in Hvs. by apply andb_true_iff in Hvs as [_ ?]. }
  apply starts_char_chars in Hok. unfold starts_char in *.
  destruct (concat (drop n cs)); [apply Hj | exact Hok].
Qed.

(** ** Blank texts *)

Lemma list_ind3 (P : list N → Prop) :
  P [] → (∀ a l, P l → (∀ b k, l = b :: k → P k ∧ ∀ c m, k = c :: m → P m) → P (a :: l)) →
  ∀ l, P l.
Proof.
  intros H0 Hs. apply (induction_ltof1 _ (@length N)). intros l IH. unfold ltof in IH.
  destruct l as [|a l]; [done|]. apply Hs; [apply IH; simpl; lia|].
  intros b k ->. split; [apply IH; simpl; lia|]. intros c m ->. apply IH. simpl. lia.
Qed.

Lemma blank_app a b : blank_bytes a = true → blank_bytes b = true → blank_bytes (a ++ b) = true.
Proof.
  intros Ha Hb. revert Ha. induction a as [|x a IH Hrec] using list_ind3; [done|].
  simpl. destruct (ascii_white x); [apply IH|].
  destruct a as [|y a]; [done|]. destruct (Hrec y a eq_refl) as [IH2 Hrec3].
  simpl. destruct (white2 x y); [apply IH2|].
  destruct a as [|z a]; [done|]. simpl. rewrite !andb_true_iff.
  intros [? ?]. split; [done|]. by apply (Hrec3 z a eq_refl).
Qed.

Lemma white2_cont a b : white2 a b = true → is_cont b = true.
Proof.
  unfold white2, is_cont. rewrite andb_true_iff, orb_true_iff, !N.eqb_eq.
  intros [_ [-> | ->]]; done.
Qed.

Lemma white3_cont a b c : white3 a b c = true → is_cont b = true ∧ is_cont c = true.
Proof.
  unfold white3, is_cont. rewrite !orb_true_iff, !andb_true_iff, !orb_true_iff, !andb_true_iff,
    !N.eqb_eq, !N.leb_le. lia.
Qed.

Lemma blank_app_inv a b :
  starts_char b → blank_bytes (a ++ b) = true → blank_bytes a = true ∧ blank_bytes b = true.
Proof.
  intros Hb. induction a as [|x a IH Hrec] using list_ind3; [done|].
  simpl. destruct (ascii_white x); [apply IH|].
  destruct a as [|y a]; simpl.
  { destruct b as [|b0 b]; [done|]. unfold starts_char in Hb. simpl in Hb.
    destruct (white2 x b0) eqn:E2; [apply white2_cont in E2; congruence|].
    destruct b as [|b1 b]; [done|]. rewrite andb_true_iff. intros [E3 _].
    apply white3_cont in E3 as [E3 _]. congruence. }
  destruct (Hrec y a eq_refl) as [IH2 Hrec3]. destruct (white2 x y); [apply IH2|].
  destruct a as [|z a]; simpl.
  { destruct b as [|b0 b]; [done|]. unfold starts_char in Hb. simpl in Hb.
    rewrite andb_true_iff. intros [E3 _]. apply white3_cont in E3 as [_ E3]. congruence. }
  rewrite !andb_true_iff. intros [Hw Hr]. destruct (Hrec3 z a eq_refl Hr). done.
Qed.

Lemma blank_ascii l : Forall (λ b, ascii_white b = true) l → blank_bytes l = true.
Proof. induction 1 as [|b l Hb _ IH]; simpl; [done|]. by rewrite Hb. Qed.

(** Trimming ASCII bytes off the end. *)
Lemma trim_end_bytes_split p (l : list N) :
  ∃ k, l = trim_end_bytes p l ++ k ∧ Forall (λ b, p b = true) k.
Proof.
  assert (∀ r, ∃ k, rev r = rev (drop_while p r) ++ k ∧ Forall (λ b, p b = true) k) as Hr.
  { induction r as [|b r (k & Hk & Hp)]; simpl; [by exists []|].
    destruct (p b) eqn:E; simpl.
    - exists (k ++ [b]). rewrite app_assoc, <-Hk. split; [done|].
      apply Forall_app. by repeat constructor.
    - exists []. by rewrite app_nil_r. }
  destruct (Hr (rev l)) as (k & Hk & Hp). rewrite rev_involutive in Hk. by exists k.
Qed.

(** The first line of a text, and what follows it. *)
Lemma split_inclusive_inv l raw raws :
  split_inclusive_nl l = raw :: raws →
  ∃ rest, l = raw ++ rest ∧ raws = split_inclusive_nl rest ∧ raw ≠ [] ∧
    (rest = [] ∨ ∃ r, raw = r ++ [LF]).
Proof.
  revert raw raws. induction l as [|a l IH]; intros raw raws H; [done|]. simpl in H.
  destruct (N.eqb_spec a LF) as [->|Ha].
  - injection H as <- <-. exists l. split_and!; [done..|]. right. by exists [].
  - destruct (split_inclusive_nl l) as [|x xs] eqn:E; injection H as <- <-.
    + exists []. assert (l = []) as -> by (by rewrite <-(split_inclusive_concat l), E).
      by split_and!; [..|left].
    + destruct (IH x xs eq_refl) as (rest & -> & -> & _ & Hrest). exists rest.
      split_and!; [done..|]. destruct Hrest as [->|[r ->]]; [by left|]. right. by exists (a :: r).
Qed.

(** ** Words of valid text *)

Lemma split_words_step w a k :
  ascii_white a = false → (∀ b, white2 a b = false) → (∀ b c, white3 a b c = false) →
  split_words w (a :: k) = split_words (a :: w) k.
Proof.
  intros Ha H2 H3. cbn [split_words]. rewrite Ha. destruct k as [|b k]; [done|].
  rewrite H2. destruct k as [|c k]; [done|]. by rewrite H3.
Qed.

Lemma white2_lead a b : a ≠ 0xC2 → white2 a b = false.
Proof. intros H. unfold white2. by rewrite (proj2 (N.eqb_neq _ _) H). Qed.

Lemma white3_lead a b c : (a < 0xE1 ∨ 0xE3 < a) → white3 a b c = false.
Proof.
  intros H. unfold white3.
  rewrite !(proj2 (N.eqb_neq a _)) by lia. done.
Qed.

Lemma not_ascii_white a : 0x80 <= a → ascii_white a = false.
Proof.
  intros H. unfold ascii_white. apply orb_false_iff. split.
  - apply andb_false_iff. right. apply N.leb_gt. lia.
  - apply N.eqb_neq. lia.
Qed.

Lemma is_cont_bounds b : is_cont b = true → 0x80 <= b <= 0xBF.
Proof. unfold is_cont. rewrite andb_true_iff, !N.leb_le. lia. Qed.

Lemma split_words_cont w b k : is_cont b = true → split_words w (b :: k) = split_words (b :: w) k.
Proof.
  intros Hb%is_cont_bounds. apply split_words_step.
  - apply not_ascii_white. lia.
  - intros c. apply white2_lead. lia.
  - intros c d. apply white3_lead. lia.
Qed.

Definition flush_word (w : list N) : list (list N) := if is_empty w then [] else [rev w].

(** One character at a time. *)
Lemma split_words_char w c k : char_ok c = true →
  split_words w (c ++ k) =
  if is_whitespace c then flush_word w ++ split_words [] k else split_words (rev c ++ w) k.
Proof.
  intros Hc. destruct c as [|a [|b [|b' [|b'' [|]]]]]; cbn [char_ok] in Hc; try done; cbn [is_whitespace app].
  - apply N.ltb_lt in Hc. destruct (ascii_white a) eqn:E; [cbn [split_words]; by rewrite E|].
    apply split_words_step; [done| |].
    + intros d. apply white2_lead. lia.
    + intros d e. apply white3_lead. lia.
  - apply andb_true_iff in Hc as [[Ha1%N.leb_le Ha2%N.leb_le]%andb_true_iff Hb].
    destruct (white2 a b) eqn:E.
    { cbn [split_words]. rewrite not_ascii_white by lia. by rewrite E. }
    cbn [rev app]. rewrite <-(split_words_cont _ b) by done.
    cbn [split_words]. rewrite not_ascii_white, E by lia. destruct k as [|d k]; [done|].
    by rewrite white3_lead by lia.
  - apply andb_true_iff in Hc as [[[Ha1%N.leb_le Ha2%N.leb_le]%andb_true_iff Hb]%andb_true_iff Hb'].
    destruct (white3 a b b') eqn:E.
    { cbn [split_words]. rewrite not_ascii_white, white2_lead by lia. by rewrite E. }
    cbn [rev app]. rewrite <-(split_words_cont _ b') by done. rewrite <-(split_words_cont _ b) by done.
    cbn [split_words]. by rewrite not_ascii_white, white2_lead, E by lia.
  - apply andb_true_iff in Hc as [[[[Ha1%N.leb_le Ha2%N.leb_le]%andb_true_iff Hb]%andb_true_iff
      Hb']%andb_true_iff Hb''].
    cbn [rev app]. rewrite <-(split_words_cont _ b'') by done.
    rewrite <-(split_words_cont _ b') by done. rewrite <-(split_words_cont _ b) by done.
    apply split_words_step.
    + apply not_ascii_white. lia.
    + intros d. apply white2_lead. lia.
    + intros d e. apply white3_lead. lia.
Qed.

Definition nonwhite (c : list N) : bool := negb (is_whitespace c).

(** The characters of a text that are no whitespace. *)
Definition ink (l : list N) : list (list N) := retain nonwhite (chars l).

(** A word of valid text: well-formed characters, none of them white. *)
Definition word_ok (word : list N) : Prop :=
  word ≠ [] ∧ forallb char_ok (chars word) = true ∧ forallb nonwhite (chars word) = true.

Lemma split_words_chars ws cs :
  forallb char_ok ws = true → forallb nonwhite ws = true → forallb char_ok cs = true →
  Forall word_ok (split_words (rev (concat ws)) (concat cs)) ∧
  flat_map chars (split_words (rev (concat ws)) (concat cs)) = ws ++ retain nonwhite cs.
Proof.
  revert ws. induction cs as [|c cs IH]; intros ws Hw Hn Hcs; cbn [concat].
  - cbn [split_words]. rewrite app_nil_r. destruct (decide (ws = [])) as [->|Hne]; [done|].
    assert (concat ws ≠ []) as Hc.
    { destruct ws as [|c ws]; [done|]. cbn [forallb] in Hw. apply andb_true_iff in Hw as [Hc _].
      by destruct c. }
    assert (is_empty (rev (concat ws)) = false) as ->.
    { destruct (rev (concat ws)) eqn:E; [|done]. by rewrite <-(rev_involutive (concat ws)), E in Hc. }
    cbn [app flat_map]. rewrite rev_involutive, app_nil_r. split.
    + apply Forall_singleton. unfold word_ok. by rewrite chars_of_concat.
    + by apply chars_of_concat.
  - cbn [forallb] in Hcs. apply andb_true_iff in Hcs as [Hc Hcs].
    rewrite split_words_char by done. rewrite retain_cons. change (nonwhite c) with (negb (is_whitespace c)).
    destruct (is_whitespace c) eqn:E; cbn [negb].
    + destruct (IH [] eq_refl eq_refl Hcs) as [IH1 IH2]. cbn [concat rev app] in IH1, IH2.
      rewrite flat_map_app, IH2.
      specialize (IH ws Hw Hn). unfold flush_word.
      destruct (decide (ws = [])) as [->|Hne]; [split; [exact IH1 | reflexivity]|].
      assert (concat ws ≠ []) as Hcne.
      { destruct ws as [|c' ws]; [done|]. cbn [forallb] in Hw. apply andb_true_iff in Hw as [Hc' _].
        by destruct c'. }
      assert (is_empty (rev (concat ws)) = false) as ->.
      { destruct (rev (concat ws)) eqn:Er; [|done]. by rewrite <-(rev_involutive (concat ws)), Er in Hcne. }
      cbn [app flat_map]. rewrite rev_involutive, app_nil_r, chars_of_concat by done. split; [|done].
      constructor; [|done]. unfold word_ok. by rewrite chars_of_concat.
    + assert (rev c ++ rev (concat ws) = rev (concat (ws ++ [c]))) as ->.
      { rewrite concat_app. cbn [concat]. by rewrite app_nil_r, rev_app_distr. }
      destruct (IH (ws ++ [c])) as [IH1 IH2]; [|rewrite forallb_app, Hn; cbn [forallb]; change (nonwhite c) with (negb (is_whitespace c)); by rewrite E|done|].
      { rewrite forallb_app, Hw. cbn [forallb]. by rewrite Hc. }
      split; [done|]. by rewrite IH2, <-app_assoc.
Qed.

(** The words of a valid text carry its non-white characters. *)
Lemma split_words_valid l : valid_utf8 l = true →
  Forall word_ok (split_words [] l) ∧ flat_map chars (split_words [] l) = ink l.
Proof.
  intros Hv. pose proof (split_words_chars [] (chars l) eq_refl eq_refl Hv) as H.
  by rewrite chars_concat in H.
Qed.

(** Trimming drops white characters only. *)
Lemma drop_while_split {A} (p : A → bool) l :
  ∃ k, l = k ++ drop_while p l ∧ Forall (λ x, p x = true) k.
Proof.
  induction l as [|x l (k & Hk & Hp)]; [by exists []|]. simpl. destruct (p x) eqn:E.
  - exists (x :: k). split; [by rewrite Hk at 1|by constructor].
  - by exists [].
Qed.

Lemma trim_start_spec l : valid_utf8 l = true →
  valid_utf8 (trim_start l) = true ∧ ink (trim_start l) = ink l.
Proof.
  intros Hv. unfold trim_start, valid_utf8, ink in *.
  destruct (drop_while_split is_whitespace (chars l)) as (k & Hk & Hp).
  revert Hk. generalize (drop_while is_whitespace (chars l)). intros cs Hk.
  rewrite Hk, forallb_app in Hv. apply andb_true_iff in Hv as [_ Hv].
  rewrite chars_of_concat by done. split; [done|]. rewrite Hk, retain_app.
  rewrite (retain_none nonwhite k); [done|]. intros c Hc. rewrite Forall_forall in Hp.
  unfold nonwhite. by rewrite Hp.
Qed.

Lemma trim_end_spec l : valid_utf8 l = true →
  valid_utf8 (trim_end l) = true ∧ ink (trim_end l) = ink l.
Proof.
  intros Hv. unfold trim_end, valid_utf8, ink in *.
  destruct (drop_while_split is_whitespace (rev (chars l))) as (k & Hk & Hp).
  revert Hk. generalize (drop_while is_whitespace (rev (chars l))). intros cs Hk.
  apply (f_equal (@rev _)) in Hk. rewrite rev_involutive, rev_app_distr in Hk.
  rewrite Hk, forallb_app in Hv. apply andb_true_iff in Hv as [Hv _].
  rewrite chars_of_concat by done. split; [done|]. rewrite Hk, retain_app.
  rewrite (retain_none nonwhite (rev k)); [by rewrite app_nil_r|]. intros c Hc.
  apply list_elem_of_In, in_rev, list_elem_of_In in Hc. rewrite Forall_forall in Hp.
  unfold nonwhite. by rewrite Hp.
Qed.

Lemma trim_spec l : valid_utf8 l = true → valid_utf8 (trim l) = true ∧ ink (trim l) = ink l.
Proof.
  intros Hv. destruct (trim_start_spec l Hv) as [H1 H2].
  destruct (trim_end_spec _ H1) as [H3 H4]. unfold trim. by rewrite H4, H2.
Qed.
