(* ===== verification/Chunks.v ===== *)
(** * Chunks: contextual chunks of episodes and resources

    The chunkers of [crates/memphant-core/src/service.rs]: an episode body is
    windowed over its turns or lines, a document body over its paragraphs, and
    every window becomes a [ContextualChunk] with the byte span it was cut
    from.  Bodies are byte lists here; offsets are byte offsets, budgets count
    characters.  Loops run on fuel, a bound on the bytes or segments left. *)

From S2P Require Import Prelude Text Types Stage.

Definition CONTEXTUAL_CHUNK_WINDOW : nat := 4.
Definition MAX_CONTEXTUAL_CHUNKS : nat := 32.
Definition RESOURCE_CHUNK_TARGET_MIN_CHARS : nat := 700.
Definition RESOURCE_CHUNK_TARGET_MAX_CHARS : nat := 1100.
Definition RESOURCE_CHUNK_HARD_MAX_CHARS : nat := 1600.

Notation Span := (nat * nat)%type.

(** [format!("{start}-{end}")]. *)
Definition show_span (start end_ : N) : list N := show_N start ++ [45] ++ show_N end_.
Definition span_string (span : Span) : string :=
  string_of_bytes (show_span (N.of_nat (fst span)) (N.of_nat (snd span))).

(** ** Episodes *)

Definition adaptive_chunk_window (segment_count : nat) : nat :=
  Nat.max CONTEXTUAL_CHUNK_WINDOW
    ((segment_count + MAX_CONTEXTUAL_CHUNKS - 1) / MAX_CONTEXTUAL_CHUNKS).

(** [char::is_alphanumeric] outside ASCII follows Unicode's tables. *)
Class UnicodeAlphanumeric := wide_alphanumeric : list N → bool.

Section chunks.
Context `{UnicodeAlphanumeric}.

Definition is_alphanumeric (c : list N) : bool :=
  match c with
  | [a] => is_ascii_alphanumeric a
  | _ => wide_alphanumeric c
  end.

Definition role_char (c : list N) : bool :=
  is_alphanumeric c || bool_decide (c = [32]) || bool_decide (c = [95]) ||
  bool_decide (c = [45]).

Definition parse_turn (line : list N) : option (list N * list N) :=
  match split_once [58; 32] (trim line) with
  | Some (role, content) =>
      if negb (is_empty role) && (length role <=? 32)%nat && negb (blank_bytes content) &&
         forallb role_char (chars role)
      then Some (role, content) else None
  | None => None
  end.

Definition line_is_turn (line : list N) : bool := bool_decide (is_Some (parse_turn line)).

Record EpisodeLine : Set := mkLine {
  ln_start : nat;
  ln_end : nat;
  ln_is_turn : bool;
}.

(** The loop over [split_inclusive('\n')]. *)
Fixpoint episode_lines (offset : nat) (raws : list (list N)) : list EpisodeLine :=
  match raws with
  | [] => []
  | raw :: raws =>
      let start := offset in
      let offset := (offset + length raw)%nat in
      let content := trim_end_bytes is_eol raw in
      if blank_bytes content then episode_lines offset raws
      else mkLine start (start + length content) (line_is_turn content)
           :: episode_lines offset raws
  end.

Definition segment_episode_body (body : list N) : list Span * bool :=
  let lines := episode_lines 0 (split_inclusive_nl body) in
  let turn_count := length (retain ln_is_turn lines) in
  let turn_structured :=
    (2 <=? turn_count)%nat && (length lines <=? turn_count * 2)%nat in
  (map (λ l, (ln_start l, ln_end l))
     (retain (λ l, negb turn_structured || ln_is_turn l) lines), turn_structured).

(** [slice::chunks]. *)
Fixpoint chunks_of {A} (fuel window : nat) (l : list A) : list (list A) :=
  match fuel, l with
  | S fuel, _ :: _ => take window l :: chunks_of fuel window (drop window l)
  | _, _ => []
  end.

Definition window_span (window : list Span) : option Span :=
  match window, last window with
  | (start, _) :: _, Some (_, end_) => Some (start, end_)
  | _, _ => None
  end.

Definition chunk_id (id : Uuid) (window_index : nat) : string :=
  "chunk-" +:+ uuid_string id +:+ "-" +:+
  string_of_bytes (show_N (N.of_nat window_index)).

Definition episode_chunk (episode_id : EpisodeId) (source_kind date_slot span_label : string)
    (body : list N) (window_size window_index : nat) (window : list Span)
    : option ContextualChunk :=
  match window_span window with
  | Some (start, end_) =>
      match get_slice body start end_ with
      | Some text =>
          if blank_bytes text then None
          else
            let first := (window_index * window_size + 1)%nat in
            let last := (window_index * window_size + length window)%nat in
            Some {|
              ch_id := chunk_id episode_id window_index;
              ch_header := "[episode " +:+ uuid_string episode_id +:+ "] [kind " +:+
                source_kind +:+ "]" +:+ date_slot +:+ " [" +:+ span_label +:+ " " +:+
                span_string (first, last) +:+ "]";
              ch_body := string_of_bytes text;
              ch_source_span := Some (span_string (start, end_)) |}
      | None => None
      end
  | None => None
  end.

Definition episode_windows (spans : list Span) : list (list Span) :=
  take MAX_CONTEXTUAL_CHUNKS
    (chunks_of (length spans) (adaptive_chunk_window (length spans)) spans).

Definition episode_contextual_chunks (episode_id : EpisodeId) (source_kind : string)
    (body : list N) (content_date : option string) : list ContextualChunk :=
  let '(spans, turn_structured) := segment_episode_body body in
  if (length spans <=? CONTEXTUAL_CHUNK_WINDOW)%nat then []
  else
    let window_size := adaptive_chunk_window (length spans) in
    let span_label := if turn_structured then "turns" else "segments" in
    let date_slot := match content_date with
                     | Some date => " [date " +:+ date +:+ "]"
                     | None => String.EmptyString
                     end in
    omap (λ '(index, window),
        episode_chunk episode_id source_kind date_slot span_label body window_size index window)
      (imap pair (episode_windows spans)).

(** ** Resources *)

Definition is_fence (content : list N) : bool :=
  let trimmed := trim_start content in
  starts_with [96; 96; 96] trimmed || starts_with [126; 126; 126] trimmed.

(** The loop over lines; [current] is the open paragraph. *)
Fixpoint paragraphs_from (offset : nat) (in_fence : bool) (current : option Span)
    (raws : list (list N)) : list Span :=
  match raws with
  | [] => match current with Some span => [span] | None => [] end
  | raw :: raws =>
      let line_start := offset in
      let offset := (offset + length raw)%nat in
      let content := trim_end_bytes is_eol raw in
      if blank_bytes content && negb in_fence then
        match current with Some span => [span] | None => [] end ++
        paragraphs_from offset in_fence None raws
      else
        let content_end := (line_start + length content)%nat in
        let current := match current with
                       | Some span => (fst span, content_end)
                       | None => (line_start, content_end)
                       end in
        let in_fence := if is_fence content then negb in_fence else in_fence in
        paragraphs_from offset in_fence (Some current) raws
  end.

(** [char_indices().nth(n)]: the byte offset of the [n]-th character. *)
Definition char_offset (cs : list (list N)) (n : nat) : option nat :=
  if (n <? length cs)%nat then Some (length (concat (take n cs))) else None.

(** The end of the last whitespace character from the [TARGET_MIN]-th on. *)
Fixpoint preferred_split (index offset : nat) (cs : list (list N)) (best : option nat)
    : option nat :=
  match cs with
  | [] => best
  | c :: cs =>
      let next := (offset + length c)%nat in
      let best := if (RESOURCE_CHUNK_TARGET_MIN_CHARS <=? index)%nat && is_whitespace c
                  then Some next else best in
      preferred_split (S index) next cs best
  end.

Fixpoint split_oversized (fuel : nat) (body : list N) (cursor end_ : nat) : list Span :=
  match fuel with
  | 0%nat => []
  | S fuel =>
      if (end_ <=? cursor)%nat then []
      else
        let remaining := chars (slice cursor end_ body) in
        match char_offset remaining RESOURCE_CHUNK_HARD_MAX_CHARS with
        | None => [(cursor, end_)]
        | Some hard_offset =>
            let hard_end := (cursor + hard_offset)%nat in
            let target_end := match char_offset remaining RESOURCE_CHUNK_TARGET_MAX_CHARS with
                              | Some offset => (cursor + offset)%nat
                              | None => hard_end
                              end in
            let preferred := preferred_split 0 0 (chars (slice cursor target_end body)) None in
            let split := match preferred with
                         | Some offset => (cursor + offset)%nat
                         | None => hard_end
                         end in
            (cursor, split) :: split_oversized fuel body split end_
        end
  end.

Definition split_oversized_resource_span (body : list N) (start end_ : nat) : list Span :=
  split_oversized (S (end_ - start)) body start end_.

Definition segment_resource_paragraphs (body : list N) : list Span :=
  flat_map (λ '(start, end_), split_oversized_resource_span body start end_)
    (paragraphs_from 0 false None (split_inclusive_nl body)).

Definition char_len (body : list N) (start end_ : nat) : nat :=
  match get_slice body start end_ with
  | Some text => length (chars text)
  | None => 0
  end.

Definition para (paras : list Span) (i : nat) : Span := default (0, 0)%nat (paras !! i).

(** The inner loop: the last paragraph of the window that starts at
    [start_byte] and has grown to [end_idx]. *)
Fixpoint grow_window (fuel : nat) (body : list N) (paras : list Span)
    (start_byte end_idx : nat) : nat :=
  match fuel with
  | 0%nat => end_idx
  | S fuel =>
      if negb (S end_idx <? length paras)%nat then end_idx
      else
        let current := char_len body start_byte (snd (para paras end_idx)) in
        if (RESOURCE_CHUNK_TARGET_MAX_CHARS <=? current)%nat then end_idx
        else
          let with_next := char_len body start_byte (snd (para paras (S end_idx))) in
          if (RESOURCE_CHUNK_HARD_MAX_CHARS <? with_next)%nat then end_idx
          else if (with_next <=? RESOURCE_CHUNK_TARGET_MAX_CHARS)%nat ||
                  (current <? RESOURCE_CHUNK_TARGET_MIN_CHARS)%nat
               then grow_window fuel body paras start_byte (S end_idx)
               else end_idx
  end.

(** The outer loop: inclusive index pairs. *)
Fixpoint windows_from (fuel : nat) (body : list N) (paras : list Span) (i : nat) : list Span :=
  match fuel with
  | 0%nat => []
  | S fuel =>
      if (i <? length paras)%nat then
        let end_idx := grow_window (length paras) body paras (fst (para paras i)) i in
        (i, end_idx) :: windows_from fuel body paras (S end_idx)
      else []
  end.

Definition merge_trailing (body : list N) (paras windows : list Span) : list Span :=
  match rev windows with
  | last :: prev :: before =>
      let last_chars := char_len body (fst (para paras (fst last))) (snd (para paras (snd last))) in
      let merged_chars :=
        char_len body (fst (para paras (fst prev))) (snd (para paras (snd last))) in
      if (last_chars <? RESOURCE_CHUNK_TARGET_MIN_CHARS)%nat &&
         (merged_chars <=? RESOURCE_CHUNK_HARD_MAX_CHARS)%nat
      then rev before ++ [(fst prev, snd last)] else windows
  | _ => windows
  end.

Definition window_resource_paragraphs (body : list N) (paras : list Span) : list Span :=
  merge_trailing body paras (windows_from (length paras) body paras 0).

(** The piece after the last, or before the first, of the given bytes. *)
Fixpoint before_any (p : N → bool) (l : list N) : list N :=
  match l with
  | [] => []
  | b :: l' => if p b then [] else b :: before_any p l'
  end.
Definition after_last (p : N → bool) (l : list N) : list N := rev (before_any p (rev l)).

Definition uri_stem (uri : list N) : list N :=
  let stem := after_last (λ b, (b =? 47) || (b =? 92)) uri in
  let stem := before_any (λ b, (b =? 63) || (b =? 35)) stem in
  match rsplit_once 46 stem with Some (base, _) => base | None => stem end.

Definition resource_chunk_header (body uri : list N) : list N :=
  match find (starts_with [35]) (map trim (lines body)) with
  | Some heading => heading
  | None => let stem := uri_stem uri in if is_empty stem then bytes_of "resource" else stem
  end.

Definition resource_chunk (resource_id : ResourceId) (header : string) (body : list N)
    (paras : list Span) (window_index : nat) (window : Span) : option ContextualChunk :=
  let start := fst (para paras (fst window)) in
  let end_ := snd (para paras (snd window)) in
  match get_slice body start end_ with
  | Some text =>
      if blank_bytes text then None
      else Some {|
        ch_id := chunk_id resource_id window_index;
        ch_header := header;
        ch_body := string_of_bytes text;
        ch_source_span := Some (span_string (start, end_)) |}
  | None => None
  end.

Definition resource_contextual_chunks (resource_id : ResourceId) (uri body : list N)
    : list ContextualChunk :=
  let paras := segment_resource_paragraphs body in
  let windows := window_resource_paragraphs body paras in
  if (length windows <=? 1)%nat then []
  else
    let header := string_of_bytes (resource_chunk_header body uri) in
    omap (λ '(index, window), resource_chunk resource_id header body paras index window)
      (imap pair windows).

(** ** Spans of a unit *)

Definition usize_max : N := u64_max.

Definition parse_source_span (span : list N) : option (N * N) :=
  match split_once [45] span with
  | Some (start, end_) =>
      start ← parse_unsigned usize_max start;
      end_ ← parse_unsigned usize_max end_;
      if start <=? end_ then Some (start, end_) else None
  | None => None
  end.

Definition widen (bounds : option (N * N)) (span : string) : option (N * N) :=
  match parse_source_span (bytes_of span) with
  | None => bounds
  | Some (start, end_) =>
      Some match bounds with
           | Some (lo, hi) => (N.min lo start, N.max hi end_)
           | None => (start, end_)
           end
  end.

Definition covering_source_span (chunks : list ContextualChunk) : option string :=
  '(start, end_) ← foldl widen None (omap ch_source_span chunks);
  Some (string_of_bytes (show_span start end_)).

End chunks.
