(* ===== verification/ChunkFacts.v ===== *)
(** * ChunkFacts: chunks cover their source

    Theorems on the chunkers of Chunks.v.  Spans laid out over a body are in
    order and disjoint, with only whitespace between them; the windows of a
    document are laid out over its body, so its chunks lose no text, and the
    windows of an episode hold each of its segments once. *)

From S2P Require Import Prelude Text Types Stage TextFacts Chunks.

(** ** Layouts *)

(** From [pos] on, [spans] are in order, and everything outside is blank. *)
Fixpoint laid_out (body : list N) (pos : nat) (spans : list Span) : Prop :=
  match spans with
  | [] => (pos <= length body)%nat ∧ blank_bytes (drop pos body) = true
  | (start, end_) :: spans =>
      (pos <= start <= end_)%nat ∧ (end_ <= length body)%nat ∧
      blank_bytes (slice pos start body) = true ∧ laid_out body end_ spans
  end.

Definition span_bounded (body : list N) (span : Span) : Prop :=
  boundary body (fst span) ∧ boundary body (snd span).

Definition span_text (body : list N) (span : Span) : list N := slice (fst span) (snd span) body.

Lemma laid_out_weaken body p q spans :
  (p <= q)%nat → blank_bytes (slice p q body) = true → laid_out body q spans →
  laid_out body p spans.
Proof.
  intros H Hb. destruct spans as [|[s e] spans]; simpl.
  - intros [Hq Hd]. split; [lia|]. rewrite (slice_rest body p q) by done. by apply blank_app.
  - intros (Hs & He & Hg & Hr). split_and!; [lia..| |done].
    rewrite (slice_join body p q s) by lia. by apply blank_app.
Qed.

(** Spans with blank text may be left out. *)
Lemma laid_out_retain body (p : Span → bool) pos spans :
  (∀ span, span ∈ spans → p span = false → blank_bytes (span_text body span) = true) →
  laid_out body pos spans → laid_out body pos (retain p spans).
Proof.
  revert pos. induction spans as [|[s e] spans IH]; intros pos Hp; [done|].
  intros (Hs & He & Hg & Hr). rewrite retain_cons.
  assert (laid_out body e (retain p spans)) as Hl by (apply IH; [set_solver | done]).
  destruct (p (s, e)) eqn:E; [by simpl|].
  apply (laid_out_weaken body pos e); [lia| |done].
  rewrite (slice_join body pos s e) by lia. apply blank_app; [done|].
  apply (Hp (s, e)); [set_solver | done].
Qed.

(** Spans without a gap. *)
Fixpoint tiles (start end_ : nat) (spans : list Span) : Prop :=
  match spans with
  | [] => start = end_
  | (s, e) :: spans => s = start ∧ (s < e)%nat ∧ tiles e end_ spans
  end.

Lemma tiles_le s e spans : tiles s e spans → (s <= e)%nat.
Proof.
  revert s. induction spans as [|[a b] spans IH]; intros s; simpl; [lia|].
  intros (-> & Hab & Hr). apply IH in Hr. lia.
Qed.

Lemma laid_out_tiles body s e spans rest :
  tiles s e spans → (e <= length body)%nat → laid_out body e rest →
  laid_out body s (spans ++ rest).
Proof.
  revert s. induction spans as [|[a b] spans IH]; intros s; simpl; [by intros ->|].
  intros (-> & Hab & Hr) He Hl. pose proof (tiles_le _ _ _ Hr).
  split_and!; [lia..| |by apply IH]. by rewrite slice_refl.
Qed.

(** ** Paragraphs *)

Lemma is_eol_facts k :
  Forall (λ b, is_eol b = true) k → blank_bytes k = true ∧ starts_char k.
Proof.
  intros Hk. assert (∀ b, is_eol b = true → ascii_white b = true ∧ is_cont b = false) as Hb.
  { unfold is_eol, LF, CR. intros b. rewrite orb_true_iff, !N.eqb_eq. by intros [-> | ->]. }
  split.
  - apply blank_ascii. eapply Forall_impl; [exact Hk|]. simpl. naive_solver.
  - unfold starts_char. destruct Hk as [|b k Hb' _]; [done|]. simpl. naive_solver.
Qed.

(** One line: its content and its end, with both ends of the content at
    boundaries of the body and the next line starting at one. *)
Lemma line_facts pre l raw raws :
  valid_utf8 (pre ++ l) = true → split_inclusive_nl l = raw :: raws →
  let body := pre ++ l in
  let content := trim_end_bytes is_eol raw in
  let s := length pre in
  let e := (length pre + length content)%nat in
  let next := (length pre + length raw)%nat in
  ∃ rest, l = raw ++ rest ∧ raws = split_inclusive_nl rest ∧
    (s <= e <= next)%nat ∧ (next <= length body)%nat ∧ slice s e body = content ∧
    blank_bytes (slice e next body) = true ∧ boundary body e ∧ boundary body next ∧
    length (pre ++ raw) = next.
Proof.
  intros Hv Hl. destruct (split_inclusive_inv _ _ _ Hl) as (rest & -> & -> & Hne & Hrest).
  cbv zeta. exists rest.
  destruct (trim_end_bytes_split is_eol raw) as (k & Hk & Hkp).
  set (content := trim_end_bytes is_eol raw) in *.
  destruct (is_eol_facts k Hkp) as [Hkb Hks].
  assert (length raw = length content + length k)%nat as Hlen by (rewrite Hk at 1; apply length_app).
  assert (pre ++ raw ++ rest = (pre ++ content) ++ k ++ rest) as Hb1
    by (rewrite Hk at 1; by rewrite <-!app_assoc).
  assert (pre ++ raw ++ rest = (pre ++ raw) ++ rest) as Hb2 by (by rewrite <-app_assoc).
  split_and!; [done..|lia|lia|rewrite !length_app; lia| | | | |by rewrite length_app].
  - rewrite Hb1, <-app_assoc. by apply slice_at.
  - rewrite Hb1. apply eq_trans with (blank_bytes k); [|done]. f_equal.
    apply slice_at; rewrite !length_app; lia.
  - rewrite Hb1. replace (length pre + length content)%nat with (length (pre ++ content))
      by apply length_app.
    apply boundary_app. unfold starts_char in *. destruct k as [|b k]; [|exact Hks].
    destruct Hrest as [->|[r Hr]]; [done|]. exfalso. rewrite app_nil_r in Hk.
    revert Hk. unfold content, trim_end_bytes. rewrite Hr, rev_app_distr. simpl.
    intros Hk%(f_equal length). rewrite length_app in Hk. simpl in Hk.
    assert (∀ (p : N → bool) m, (length (drop_while p m) <= length m)%nat) as Hd.
    { intros p m. induction m as [|y m IHm]; simpl; [lia|]. destruct (p y); simpl; lia. }
    rewrite length_rev in Hk. specialize (Hd is_eol (rev r)). rewrite length_rev in Hd. lia.
  - rewrite Hb2. replace (length pre + length raw)%nat with (length (pre ++ raw))
      by apply length_app.
    apply boundary_app. destruct Hrest as [->|[r ->]]; [done|].
    rewrite <-!app_assoc, app_assoc in Hv. by apply (ascii_then_char _ LF rest Hv).
Qed.

Lemma paragraphs_laid_out pre l in_fence current p :
  valid_utf8 (pre ++ l) = true → boundary (pre ++ l) (length pre) →
  match current with
  | None => in_fence = false ∧ (p <= length pre)%nat ∧
      blank_bytes (slice p (length pre) (pre ++ l)) = true
  | Some (s, e) => (p <= s <= e)%nat ∧ (e <= length pre)%nat ∧
      span_bounded (pre ++ l) (s, e) ∧ blank_bytes (slice p s (pre ++ l)) = true ∧
      blank_bytes (slice e (length pre) (pre ++ l)) = true
  end →
  let spans := paragraphs_from (length pre) in_fence current (split_inclusive_nl l) in
  laid_out (pre ++ l) p spans ∧ Forall (span_bounded (pre ++ l)) spans.
Proof.
  remember (split_inclusive_nl l) as raws eqn:Hl. symmetry in Hl. cbv zeta.
  revert pre l in_fence current p Hl. induction raws as [|raw raws IH];
    intros pre l in_fence current p Hl Hv Hb Hc.
  - assert (l = []) as -> by (by rewrite <-(split_inclusive_concat l), Hl).
    rewrite app_nil_r in *. destruct current as [[s e]|]; simpl.
    + destruct Hc as (Hs & He & Hsp & Hg & Hr). split; [|by apply Forall_singleton].
      split_and!; [lia..|done|lia|].
      by rewrite (slice_rest pre e (length pre)), drop_all, app_nil_r by lia.
    + destruct Hc as (_ & Hp & Hg). split; [|constructor]. split; [lia|].
      by rewrite (slice_rest pre p (length pre)), drop_all, app_nil_r by lia.
  - destruct (line_facts pre l raw raws Hv Hl) as (rest & -> & Hr & He & Hn & Hct & Htl & Hbe & Hbn & Hlen).
    cbn [paragraphs_from]. rewrite <-Hlen in *. set (content := trim_end_bytes is_eol raw) in *.
    assert (pre ++ raw ++ rest = (pre ++ raw) ++ rest) as Ha by (by rewrite <-app_assoc).
    specialize (IH (pre ++ raw) rest). rewrite <-Ha in IH.
    set (body := pre ++ raw ++ rest) in *.
    destruct (blank_bytes content && negb in_fence) eqn:E.
    + apply andb_true_iff in E as [Hbl Hf%negb_true_iff]. subst in_fence.
      assert (blank_bytes (slice (length pre) (length (pre ++ raw)) body) = true) as Hline.
      { rewrite (slice_join body _ (length pre + length content)) by lia.
        rewrite Hct. by apply blank_app. }
      destruct current as [[s e]|].
      * destruct Hc as (Hs & Hel & Hsp & Hg & Hgr).
        destruct (IH false None e (eq_sym Hr) Hv Hbn) as [IHl IHb].
        { split_and!; [done|lia|]. rewrite (slice_join body e (length pre)) by lia.
          by apply blank_app. }
        split; [|by constructor]. cbn [app laid_out]. split_and!; [lia..|done|done].
      * destruct Hc as (_ & Hp & Hg). apply (IH false None p (eq_sym Hr) Hv Hbn).
        split_and!; [done|lia|]. rewrite (slice_join body p (length pre)) by lia.
        by apply blank_app.
    + apply IH; [done..|]. destruct current as [[s e]|]; cbn [fst].
      * destruct Hc as (Hs & Hel & [Hs1 Hs2] & Hg & Hgr). by split_and!; [lia..| | |].
      * destruct Hc as (-> & Hp & Hg). by split_and!; [lia..| | |].
Qed.

(** ** Oversized paragraphs *)

Lemma preferred_split_spec index offset cs best r :
  preferred_split index offset cs best = Some r →
  best = Some r ∨ ∃ m, (0 < m <= length cs)%nat ∧ r = (offset + length (concat (take m cs)))%nat.
Proof.
  revert index offset best. induction cs as [|c cs IH]; intros index offset best; simpl; [by left|].
  intros [Hb|(m & Hm & ->)]%IH.
  - destruct (_ && _); [|by left]. injection Hb as <-. right. exists 1%nat. simpl.
    rewrite length_app. simpl. lia.
  - right. exists (S m). simpl. rewrite length_app. lia.
Qed.

Definition span_fits (body : list N) (span : Span) : Prop :=
  (length (chars (span_text body span)) <= RESOURCE_CHUNK_HARD_MAX_CHARS)%nat.

(** The end of a cut is a number of characters after the cursor. *)
Lemma split_point body cursor end_ hard target split :
  (cursor < end_)%nat → valid_utf8 body = true → boundary body cursor → boundary body end_ →
  let cs := chars (slice cursor end_ body) in
  char_offset cs RESOURCE_CHUNK_HARD_MAX_CHARS = Some hard →
  target = match char_offset cs RESOURCE_CHUNK_TARGET_MAX_CHARS with
           | Some offset => (cursor + offset)%nat
           | None => (cursor + hard)%nat
           end →
  split = match preferred_split 0 0 (chars (slice cursor target body)) None with
          | Some offset => (cursor + offset)%nat
          | None => (cursor + hard)%nat
          end →
  ∃ m, (0 < m <= RESOURCE_CHUNK_HARD_MAX_CHARS)%nat ∧
    split = (cursor + length (concat (take m cs)))%nat ∧ (m < length cs)%nat.
Proof.
  intros H Hv Hc He cs. unfold char_offset.
  destruct (Nat.ltb_spec RESOURCE_CHUNK_HARD_MAX_CHARS (length cs)) as [Hh|]; [|done].
  intros [= <-].
  assert (RESOURCE_CHUNK_TARGET_MAX_CHARS < RESOURCE_CHUNK_HARD_MAX_CHARS)%nat as Hth
    by (apply Nat.ltb_lt; reflexivity).
  rewrite (proj2 (Nat.ltb_lt _ _)) by lia. intros ->.
  destruct (boundary_chars body cursor end_ RESOURCE_CHUNK_TARGET_MAX_CHARS
              ltac:(lia) Hv Hc He) as (_ & _ & Ht). fold cs in Ht. rewrite Ht.
  unfold cs at 1. rewrite valid_chars_take by (by apply valid_slice; [lia| | |]). fold cs.
  destruct (preferred_split _ _ _ _) as [r|] eqn:Ep; intros ->.
  - apply preferred_split_spec in Ep as [|(m & Hm & ->)]; [done|].
    rewrite length_take in Hm. exists m. rewrite take_take.
    rewrite Nat.min_l by lia. split_and!; lia.
  - exists RESOURCE_CHUNK_HARD_MAX_CHARS. split_and!; [lia..|done|done].
Qed.

Lemma concat_take_pos (cs : list (list N)) m :
  Forall (λ c, c ≠ []) cs → (0 < m)%nat → cs ≠ [] → (0 < length (concat (take m cs)))%nat.
Proof.
  intros Hne Hm. destruct Hne as [|c cs Hc _]; [done|]. intros _. destruct m; [lia|]. simpl.
  rewrite length_app. destruct c; [done|]. simpl. lia.
Qed.

Lemma split_oversized_spec fuel body cursor end_ :
  valid_utf8 body = true → boundary body cursor → boundary body end_ →
  (cursor <= end_)%nat → (end_ - cursor < fuel)%nat →
  let spans := split_oversized fuel body cursor end_ in
  tiles cursor end_ spans ∧ Forall (span_bounded body) spans ∧ Forall (span_fits body) spans.
Proof.
  intros Hv. revert cursor. induction fuel as [|fuel IH]; intros cursor Hc He Hle Hf; [lia|].
  cbn [split_oversized]. destruct (Nat.leb_spec end_ cursor) as [H|H].
  { assert (cursor = end_) as <- by lia. split_and!; constructor. }
  set (cs := chars (slice cursor end_ body)).
  destruct (char_offset cs RESOURCE_CHUNK_HARD_MAX_CHARS) as [hard|] eqn:Eh.
  - cbv zeta. set (split := match preferred_split _ _ _ _ with Some _ => _ | None => _ end).
    destruct (split_point body cursor end_ hard _ split H Hv Hc He Eh eq_refl eq_refl)
      as (m & Hm & Hs & Hlt). clearbody split. subst split.
    destruct (boundary_chars body cursor end_ m Hle Hv Hc He) as (Hk & Hkb & Hkt).
    fold cs in Hk, Hkb, Hkt, Hlt |- *.
    assert (0 < length (concat (take m cs)))%nat as Hpos.
    { apply concat_take_pos; [apply chars_nonempty | lia |]. intros Hn. rewrite Hn in Hlt.
      simpl in Hlt. lia. }
    destruct (IH _ Hkb He Hk ltac:(lia)) as (IHt & IHb & IHf). split_and!.
    + split_and!; [done|lia|done].
    + by constructor.
    + constructor; [|done]. unfold span_fits, span_text. cbn [fst snd]. rewrite Hkt.
      unfold cs. rewrite valid_chars_take by (by apply valid_slice). rewrite length_take. lia.
  - split_and!; [by split_and!|by apply Forall_singleton|]. apply Forall_singleton.
    unfold span_fits, span_text. cbn [fst snd]. fold cs. unfold char_offset in Eh.
    destruct (Nat.ltb_spec RESOURCE_CHUNK_HARD_MAX_CHARS (length cs)); [done | lia].
Qed.

Lemma split_laid_out body pos spans :
  valid_utf8 body = true → laid_out body pos spans → Forall (span_bounded body) spans →
  let parts := flat_map (λ '(s, e), split_oversized_resource_span body s e) spans in
  laid_out body pos parts ∧ Forall (span_bounded body) parts ∧ Forall (span_fits body) parts.
Proof.
  intros Hv. cbv zeta. revert pos. induction spans as [|[s e] spans IH]; intros pos Hl Hb.
  { split_and!; [done|constructor..]. }
  destruct Hl as (Hs & He & Hg & Hr). inversion Hb as [|? ? [Hsb Heb] Hb']; subst.
  destruct (IH e Hr Hb') as (IHl & IHb & IHf). cbn [flat_map].
  destruct (split_oversized_spec (S (e - s)) body s e Hv Hsb Heb ltac:(lia) ltac:(lia))
    as (Ht & Hsb' & Hsf). split_and!.
  - apply (laid_out_weaken body pos s); [lia|done|]. by apply (laid_out_tiles body s e).
  - by apply Forall_app.
  - by apply Forall_app.
Qed.

Lemma paragraphs_spec body : valid_utf8 body = true →
  let paras := segment_resource_paragraphs body in
  laid_out body 0 paras ∧ Forall (span_bounded body) paras ∧ Forall (span_fits body) paras.
Proof.
  intros Hv. destruct (paragraphs_laid_out [] body false None 0) as [Hl Hb];
    [done | by apply boundary_start | by split_and!; [|simpl; lia|] |].
  by apply split_laid_out.
Qed.

(** ** Windows of paragraphs *)

Definition window_extent (paras : list Span) (window : Span) : Span :=
  (fst (para paras (fst window)), snd (para paras (snd window))).

Definition extent_chars (body : list N) (paras : list Span) (window : Span) : nat :=
  char_len body (fst (window_extent paras window)) (snd (window_extent paras window)).

(** Windows are consecutive ranges of indices. *)
Fixpoint index_tiles (i n : nat) (windows : list Span) : Prop :=
  match windows with
  | [] => i = n
  | (a, b) :: windows => a = i ∧ (i <= b < n)%nat ∧ index_tiles (S b) n windows
  end.

Section windows.
Context (body : list N) (paras : list Span).
Hypothesis Hfits : ∀ i, (i < length paras)%nat →
  (extent_chars body paras (i, i) <= RESOURCE_CHUNK_HARD_MAX_CHARS)%nat.

Definition window_ok (window : Span) : Prop :=
  (extent_chars body paras window <= RESOURCE_CHUNK_HARD_MAX_CHARS)%nat.

Lemma grow_window_spec fuel i end_idx :
  (i <= end_idx < length paras)%nat → window_ok (i, end_idx) →
  let j := grow_window fuel body paras (fst (para paras i)) end_idx in
  (end_idx <= j < length paras)%nat ∧ window_ok (i, j).
Proof using Type.
  revert end_idx. induction fuel as [|fuel IH]; intros end_idx Hi Hok; cbn [grow_window];
    [by split; [lia|]|].
  destruct (Nat.ltb_spec (S end_idx) (length paras)) as [Hlt|]; cbn [negb]; [|by split; [lia|]].
  destruct (_ <=? _)%nat; [by split; [lia|]|].
  destruct (Nat.ltb_spec RESOURCE_CHUNK_HARD_MAX_CHARS
              (char_len body (fst (para paras i)) (snd (para paras (S end_idx)))));
    [by split; [lia|]|].
  destruct (_ || _); [|by split; [lia|]].
  destruct (IH (S end_idx)) as [Hj Hw]; [lia | done |]. split; [lia | done].
Qed.

Lemma windows_from_spec fuel i :
  (i <= length paras)%nat → (length paras - i <= fuel)%nat →
  index_tiles i (length paras) (windows_from fuel body paras i) ∧
  Forall window_ok (windows_from fuel body paras i).
Proof using Hfits.
  revert i. induction fuel as [|fuel IH]; intros i Hi Hf; cbn [windows_from].
  { split; [simpl; lia | constructor]. }
  destruct (Nat.ltb_spec i (length paras)) as [Hlt|]; [|split; [simpl; lia | constructor]].
  destruct (grow_window_spec (length paras) i i ltac:(lia) (Hfits i Hlt)) as [Hj Hw].
  destruct (IH (S (grow_window (length paras) body paras (fst (para paras i)) i)))
    as [IHt IHw]; [lia..|]. split; [by split_and!; [|lia..|] | by constructor].
Qed.

Lemma index_tiles_app i n l k :
  index_tiles i n (l ++ k) ↔ ∃ m, index_tiles i m l ∧ index_tiles m n k ∧ (m <= n)%nat.
Proof using Type.
  revert i. induction l as [|[a b] l IH]; intros i; simpl.
  - split; [intros H|by intros (m & -> & H & _)]. exists i. split_and!; [done..|].
    clear -H. revert i H. induction k as [|[a b] k IH]; intros i; simpl; [lia|].
    intros (-> & Hb & Hk). apply IH in Hk. lia.
  - split.
    + intros (-> & Hb & (m & Hl & Hk & Hm)%IH). exists m. split_and!; try done; [lia|].
      clear -Hl. assert (S b <= m)%nat; [|lia]. revert Hl. generalize (S b) as i.
      clear. induction l as [|[a b] l IH]; intros i; simpl; [lia|].
      intros (-> & Hb & Hl). apply IH in Hl. lia.
    + intros (m & (-> & Hb & Hl) & Hk & Hm). split_and!; [done|lia|lia|].
      apply IH. by exists m.
Qed.

Lemma merge_trailing_spec n windows :
  index_tiles 0 n windows → Forall window_ok windows →
  index_tiles 0 n (merge_trailing body paras windows) ∧
  Forall window_ok (merge_trailing body paras windows).
Proof using Type.
  intros Ht Hw. unfold merge_trailing. destruct (rev windows) as [|last [|prev before]] eqn:E;
    [done..|].
  destruct (_ && _) eqn:Em; [|done].
  apply andb_true_iff in Em as [_ Hm%Nat.leb_le].
  assert (windows = rev before ++ [prev; last]) as Heq.
  { rewrite <-(rev_involutive windows), E. simpl. by rewrite <-app_assoc. }
  rewrite Heq in Ht, Hw. destruct prev as [pa pb], last as [la lb].
  apply index_tiles_app in Ht as (m & Hb & (-> & Hpb & -> & Hlb & Hn) & Hmn).
  apply Forall_app in Hw as [Hwb _]. split.
  - apply index_tiles_app. exists m. simpl. split_and!; try done; lia.
  - apply Forall_app. split; [done|]. by apply Forall_singleton.
Qed.

Lemma window_resource_spec :
  index_tiles 0 (length paras) (window_resource_paragraphs body paras) ∧
  Forall window_ok (window_resource_paragraphs body paras).
Proof using Hfits.
  destruct (windows_from_spec (length paras) 0) as [Ht Hw]; [lia..|].
  by apply merge_trailing_spec.
Qed.

(** A layout of paragraphs is a layout of windows of paragraphs. *)
Lemma para_drop i : (i < length paras)%nat →
  drop i paras = para paras i :: drop (S i) paras.
Proof using Type.
  intros Hi. destruct (lookup_lt_is_Some_2 paras i Hi) as [x Hx].
  rewrite (drop_S _ _ _ Hx). unfold para. by rewrite Hx.
Qed.

Lemma laid_out_window p i j :
  (i <= j < length paras)%nat → laid_out body p (drop i paras) →
  (p <= fst (para paras i) <= snd (para paras j))%nat ∧
  (snd (para paras j) <= length body)%nat ∧
  blank_bytes (slice p (fst (para paras i)) body) = true ∧
  laid_out body (snd (para paras j)) (drop (S j) paras).
Proof using Type.
  intros [Hij Hj]. revert p. remember (j - i)%nat as d eqn:Hd.
  revert i Hij Hd. induction d as [|d IH]; intros i Hij Hd p Hl.
  - assert (i = j) as -> by lia. rewrite para_drop in Hl by done.
    destruct (para paras j) as [s e]. destruct Hl as (? & ? & ? & ?). cbn [fst snd].
    by split_and!; [lia..| |].
  - rewrite para_drop in Hl by lia. destruct (para paras i) as [s e] eqn:Ep.
    destruct Hl as (Hs & He & Hg & Hr).
    destruct (IH (S i) ltac:(lia) ltac:(lia) e Hr) as (H1 & H2 & _ & H4).
    cbn [fst]. by split_and!; [lia..| |].
Qed.

Lemma windows_laid_out p i windows :
  index_tiles i (length paras) windows → laid_out body p (drop i paras) →
  laid_out body p (map (window_extent paras) windows).
Proof using Type.
  revert p i. induction windows as [|[a b] windows IH]; intros p i; cbn [index_tiles map].
  - intros ->. by rewrite drop_all.
  - intros (-> & Hb & Ht) Hl. destruct (laid_out_window p i b Hb Hl) as (H1 & H2 & H3 & H4).
    cbn [window_extent fst snd laid_out]. split_and!; [lia..|done|]. by apply (IH _ (S b)).
Qed.
End windows.

(** ** The chunks of a document *)

Lemma omap_imap_retain {A B} (g : nat → A → option B) (p : A → bool) l :
  (∀ i a, a ∈ l → g i a = None ↔ p a = false) →
  Forall2 (λ a b, a ∈ l ∧ ∃ i, g i a = Some b) (retain p l)
    (omap (λ '(i, a), g i a) (imap pair l)).
Proof.
  intros Hp. assert (∀ k, Forall2 (λ a b, a ∈ l ∧ ∃ i, g i a = Some b) (retain p l)
    (omap (λ '(i, a), g i a) (imap (λ i a, ((k + i)%nat, a)) l))) as Hk; [|apply (Hk 0%nat)].
  induction l as [|a l IH]; intros k; [constructor|].
  assert (∀ i x, x ∈ l → g i x = None ↔ p x = false) as Hl by (intros; apply Hp; set_solver).
  assert (Forall2 (λ x b, x ∈ a :: l ∧ ∃ i, g i x = Some b) (retain p l)
    (omap (λ '(i, a), g i a) (imap (λ i a, ((S k + i)%nat, a)) l))) as IH'.
  { eapply Forall2_impl; [by apply IH|]. intros x b [Hx Hi]. split; [set_solver | done]. }
  pose proof (Hp (k + 0)%nat a ltac:(set_solver)) as Ha.
  rewrite retain_cons, imap_cons. cbn [omap list_omap].
  assert (imap ((λ i x, ((k + i)%nat, x)) ∘ S) l = imap (λ i x, ((S k + i)%nat, x)) l) as ->.
  { apply imap_ext. intros i x _. simpl. f_equal. lia. }
  destruct (g (k + 0)%nat a) as [b|] eqn:Eg, (p a).
  - constructor; [|done]. split; [set_solver | by eexists].
  - destruct Ha as [_ Ha]. by specialize (Ha eq_refl).
  - destruct Ha as [Ha _]. by specialize (Ha eq_refl).
  - done.
Qed.

Lemma retain_fmap {A B} (f : A → B) (p : B → bool) l :
  retain p (map f l) = map f (retain (λ x, p (f x)) l).
Proof.
  induction l as [|a l IH]; [done|]. cbn [map]. rewrite !retain_cons, IH. by destruct (p (f a)).
Qed.

(** The chunk cut out of a body at a span. *)
Definition chunk_at (body : list N) (span : Span) (chunk : ContextualChunk) : Prop :=
  ch_source_span chunk = Some (span_string span) ∧
  get_slice body (fst span) (snd span) = Some (span_text body span) ∧
  ch_body chunk = string_of_bytes (span_text body span) ∧
  blank_bytes (span_text body span) = false.

Lemma span_extent_bounded body paras windows n i :
  Forall (span_bounded body) paras → n = length paras → index_tiles i n windows →
  Forall (λ w, span_bounded body (window_extent paras w)) windows.
Proof.
  intros Hb ->. revert i. induction windows as [|[a b] windows IH]; intros i; [constructor|].
  intros (-> & Hw & Ht). constructor; [|by apply (IH (S b))].
  assert (∀ j, (j < length paras)%nat → span_bounded body (para paras j)) as Hp.
  { intros j Hj. destruct (lookup_lt_is_Some_2 paras j Hj) as [x Hx]. unfold para. rewrite Hx.
    by eapply Forall_lookup_1. }
  destruct (Hp i ltac:(lia)), (Hp b ltac:(lia)). by split.
Qed.

Lemma laid_out_le body p spans span :
  laid_out body p spans → span ∈ spans → (fst span <= snd span)%nat.
Proof.
  revert p. induction spans as [|[s e] spans IH]; intros p; [set_solver|].
  intros (? & ? & ? & ?) [->|Hin]%elem_of_cons; [simpl; lia | by eapply IH].
Qed.

Lemma char_len_fits body span :
  (fst span <= snd span)%nat → span_bounded body span →
  char_len body (fst span) (snd span) = length (chars (span_text body span)).
Proof. intros H [Hs He]. unfold char_len. by rewrite get_slice_boundary. Qed.

Lemma resource_windows_spec body : valid_utf8 body = true →
  let paras := segment_resource_paragraphs body in
  let spans := map (window_extent paras) (window_resource_paragraphs body paras) in
  laid_out body 0 spans ∧ Forall (span_bounded body) spans ∧ Forall (span_fits body) spans.
Proof.
  intros Hv paras spans. destruct (paragraphs_spec body Hv) as (Hl & Hb & Hf). fold paras in Hl, Hb, Hf.
  assert (∀ i, (i < length paras)%nat →
    (extent_chars body paras (i, i) <= RESOURCE_CHUNK_HARD_MAX_CHARS)%nat) as Hfits.
  { intros i Hi. destruct (lookup_lt_is_Some_2 paras i Hi) as [x Hx].
    unfold extent_chars, window_extent, para. cbn [fst snd]. rewrite Hx. cbn [default].
    rewrite char_len_fits; [by eapply Forall_lookup_1 in Hf | |by eapply Forall_lookup_1].
    eapply laid_out_le; [exact Hl|]. by eapply list_elem_of_lookup_2. }
  destruct (window_resource_spec body paras Hfits) as [Ht Hw].
  assert (laid_out body 0 spans) as Hls by (by apply (windows_laid_out body paras 0 0)).
  assert (Forall (span_bounded body) spans) as Hbs.
  { apply Forall_map. by apply (span_extent_bounded body paras _ (length paras) 0). }
  split_and!; [done..|]. apply Forall_forall. intros span Hin.
  pose proof (laid_out_le body 0 spans span Hls Hin) as Hle.
  rewrite Forall_forall in Hbs. specialize (Hbs span Hin). unfold span_fits.
  rewrite <-char_len_fits by done. apply list_elem_of_fmap in Hin as (w & -> & Hin).
  rewrite Forall_forall in Hw. by apply Hw.
Qed.

Definition nonblank_span (body : list N) (span : Span) : bool :=
  negb (blank_bytes (span_text body span)).

Lemma resource_chunk_spec id header body paras i w :
  let span := window_extent paras w in
  (fst span <= snd span)%nat → span_bounded body span →
  (resource_chunk id header body paras i w = None ↔ nonblank_span body span = false) ∧
  ∀ c, resource_chunk id header body paras i w = Some c → chunk_at body span c.
Proof.
  intros span Hle [Hs He]. unfold resource_chunk. unfold window_extent in span.
  change (fst (para paras (fst w))) with (fst span).
  change (snd (para paras (snd w))) with (snd span).
  rewrite get_slice_boundary by done. unfold nonblank_span, chunk_at.
  rewrite (get_slice_boundary body) by done. unfold span_text.
  destruct (blank_bytes (slice (fst span) (snd span) body)) eqn:E; cbn [negb]; split.
  - by split.
  - done.
  - split; intros; discriminate.
  - intros c [= <-]. cbn. split_and!; [by destruct span|done..].
Qed.

Lemma resource_chunks_spec id uri body : valid_utf8 body = true → ∃ spans,
  laid_out body 0 spans ∧ Forall (span_fits body) spans ∧
  (resource_contextual_chunks id uri body = [] ∧ (length spans <= 1)%nat ∨
   Forall2 (chunk_at body) spans (resource_contextual_chunks id uri body)).
Proof.
  intros Hv. destruct (resource_windows_spec body Hv) as (Hl & Hb & Hf).
  unfold resource_contextual_chunks.
  set (paras := segment_resource_paragraphs body) in *.
  set (windows := window_resource_paragraphs body paras) in *.
  set (spans := map (window_extent paras) windows) in *.
  destruct (Nat.leb_spec (length windows) 1) as [Hlen|Hlen].
  { exists spans. split_and!; [done..|]. left. split; [done|]. unfold spans. by rewrite length_map. }
  exists (retain (nonblank_span body) spans). split_and!.
  - apply laid_out_retain; [|done]. intros span _ Hn. unfold nonblank_span in Hn.
    by apply negb_false_iff in Hn.
  - apply Forall_forall. intros x [Hx _]%elem_of_retain. rewrite Forall_forall in Hf. by apply Hf.
  - right. assert (∀ w, w ∈ windows → (fst (window_extent paras w) <= snd (window_extent paras w))%nat
      ∧ span_bounded body (window_extent paras w)) as Hw.
    { intros w Hw. assert (window_extent paras w ∈ spans) as Hin by (by apply list_elem_of_fmap_2).
      split; [by eapply laid_out_le|]. rewrite Forall_forall in Hb. by apply Hb. }
    unfold spans. rewrite retain_fmap. apply Forall2_fmap_l. eapply Forall2_impl.
    + apply (omap_imap_retain
        (resource_chunk id (string_of_bytes (resource_chunk_header body uri)) body paras)).
      intros i w Hin. by apply resource_chunk_spec; apply Hw.
    + intros w c [Hin [i Hi]]. by eapply resource_chunk_spec; [apply Hw..|].
Qed.

(** ** Spans as text *)

Lemma split_once_digits l r :
  forallb is_digit l = true → split_once [45] (l ++ 45 :: r) = Some (l, r).
Proof.
  induction l as [|b l IH]; [done|]. cbn [forallb]. intros [Hb Hl]%andb_true_iff.
  assert (starts_with [45] ((b :: l) ++ 45 :: r) = false) as Hs.
  { cbn [starts_with app]. destruct (N.eqb_spec 45 b) as [<-|]; [by vm_compute in Hb | done]. }
  cbn [app] in *. unfold split_once; fold split_once. rewrite Hs. by rewrite IH.
Qed.

Lemma show_N_bytes n : Forall (λ b, b < 256) (show_N n).
Proof.
  destruct (show_N_spec n) as (_ & _ & Hd%Is_true_true_2%forallb_True).
  eapply Forall_impl; [exact Hd|]. intros b Hb%Is_true_true. unfold is_digit in Hb. apply andb_true_iff in Hb as [_ Hb%N.leb_le]. lia.
Qed.

Lemma parse_show_span start end_ :
  start <= end_ → end_ <= usize_max →
  parse_source_span (bytes_of (string_of_bytes (show_span start end_))) = Some (start, end_).
Proof.
  intros H Hm. rewrite bytes_of_string.
  - unfold parse_source_span, show_span. cbn [app]. rewrite split_once_digits by apply show_N_spec.
    rewrite !parse_show_N by lia. simpl. by rewrite (proj2 (N.leb_le _ _)).
  - unfold show_span. rewrite !Forall_app. split_and!; [apply show_N_bytes| |apply show_N_bytes].
    by apply Forall_singleton.
Qed.

(** Where the last span ends. *)
Fixpoint end_of (pos : nat) (spans : list Span) : nat :=
  match spans with [] => pos | (_, e) :: spans => end_of e spans end.

Lemma laid_out_end body pos spans :
  laid_out body pos spans →
  (pos <= end_of pos spans <= length body)%nat ∧ blank_bytes (drop (end_of pos spans) body) = true.
Proof.
  revert pos. induction spans as [|[s e] spans IH]; intros pos; cbn [laid_out end_of].
  - intros [H Hb]. split; [lia | done].
  - intros (Hs & He & Hg & Hr). destruct (IH e Hr). split; [lia | done].
Qed.

Lemma widen_laid_out body lo pos spans chunks :
  N.of_nat (length body) <= usize_max → (lo <= pos)%nat →
  laid_out body pos spans → Forall2 (chunk_at body) spans chunks →
  foldl widen (Some (N.of_nat lo, N.of_nat pos)) (omap ch_source_span chunks) =
    Some (N.of_nat lo, N.of_nat (end_of pos spans)).
Proof.
  intros Hm Hle Hl Hc. revert pos Hle Hl.
  induction Hc as [|[s e] c spans chunks Hc _ IH]; intros pos Hle; [done|].
  intros (Hs & He & Hg & Hr). cbn [omap list_omap end_of]. destruct Hc as [-> _].
  cbn [foldl]. rewrite <-(IH e); [|lia|done]. f_equal. unfold widen, span_string. cbn [fst snd].
  rewrite parse_show_span by lia. f_equal. f_equal; lia.
Qed.

Lemma covering_span_spec body spans chunks :
  N.of_nat (length body) <= usize_max → laid_out body 0 spans →
  Forall2 (chunk_at body) spans chunks → chunks ≠ [] → ∃ start end_,
  covering_source_span chunks = Some (span_string (start, end_)) ∧
  parse_source_span (bytes_of (span_string (start, end_))) =
    Some (N.of_nat start, N.of_nat end_) ∧
  (start <= end_ <= length body)%nat ∧
  blank_bytes (take start body) = true ∧ blank_bytes (drop end_ body) = true.
Proof.
  intros Hm Hl Hc Hne. destruct Hc as [|[s e] c spans chunks Hc Hcs]; [done|].
  destruct Hl as (Hs & He & Hg & Hr). destruct (laid_out_end _ _ _ Hr) as [Hb Hd].
  exists s, (end_of e spans). split_and!; [|unfold span_string; cbn [fst snd]|lia..| |done].
  - unfold covering_source_span. cbn [omap list_omap]. destruct Hc as [-> _]. cbn [foldl].
    unfold widen at 2. unfold span_string at 1. cbn [fst snd]. rewrite parse_show_span by lia.
    rewrite (widen_laid_out body s e spans) by (done || lia). done.
  - apply parse_show_span; lia.
  - revert Hg. unfold slice. by rewrite Nat.sub_0_r, drop_0.
Qed.

(** ** The segments of an episode *)

(** In order and disjoint, whatever is between them. *)
Fixpoint in_order (body : list N) (pos : nat) (spans : list Span) : Prop :=
  match spans with
  | [] => (pos <= length body)%nat
  | (start, end_) :: spans =>
      (pos <= start <= end_)%nat ∧ (end_ <= length body)%nat ∧ in_order body end_ spans
  end.

Lemma laid_out_in_order body pos spans : laid_out body pos spans → in_order body pos spans.
Proof. revert pos. induction spans as [|[s e] spans IH]; intros pos; simpl; naive_solver. Qed.

Lemma in_order_weaken body p q spans :
  (p <= q)%nat → in_order body q spans → in_order body p spans.
Proof. destruct spans as [|[s e] spans]; simpl; [lia | naive_solver lia]. Qed.

Lemma in_order_retain body keep pos spans :
  in_order body pos spans → in_order body pos (retain keep spans).
Proof.
  revert pos. induction spans as [|[s e] spans IH]; intros pos; [done|].
  intros (Hs & He & Hr). rewrite retain_cons. destruct (keep (s, e)).
  - split_and!; [lia..|by apply IH].
  - apply (in_order_weaken body pos e); [lia|by apply IH].
Qed.

Lemma in_order_skip body pos w rest :
  in_order body pos (w ++ rest) →
  (pos <= end_of pos w <= length body)%nat ∧ in_order body (end_of pos w) rest.
Proof.
  revert pos. induction w as [|[s e] w IH]; intros pos; cbn [app in_order end_of].
  - intros H. split; [|done]. split; [lia|]. destruct rest as [|[s e] r]; simpl in H; lia.
  - intros (Hs & He & Hr). destruct (IH e Hr). split; [lia | done].
Qed.

Lemma laid_out_skip body pos w rest :
  laid_out body pos (w ++ rest) → laid_out body (end_of pos w) rest.
Proof. revert pos. induction w as [|[s e] w IH]; intros pos; simpl; naive_solver. Qed.

Lemma end_of_boundary body pos w :
  boundary body pos → Forall (span_bounded body) w → boundary body (end_of pos w).
Proof.
  intros Hp Hw. revert pos Hp. induction Hw as [|[s e] w [_ He] _ IH]; intros pos Hp; simpl; auto.
Qed.

Lemma window_span_cons s e w : window_span ((s, e) :: w) = Some (s, end_of e w).
Proof.
  unfold window_span. revert s e. induction w as [|[a b] w IH]; intros s e; [done|].
  specialize (IH s b). rewrite last_cons_cons. by destruct w.
Qed.

Definition segment_ok (body : list N) (span : Span) : Prop :=
  span_bounded body span ∧ blank_bytes (span_text body span) = false.

(** A window of segments is cut as one chunk. *)
Lemma window_chunk body pos s e w rest id kind date label size i :
  valid_utf8 body = true → in_order body pos (((s, e) :: w) ++ rest) →
  Forall (segment_ok body) ((s, e) :: w) → ∃ c,
  episode_chunk id kind date label body size i ((s, e) :: w) = Some c ∧
  chunk_at body (s, end_of e w) c.
Proof.
  intros Hv (Hs & He & Hr) Hok. destruct (in_order_skip _ _ _ _ Hr) as [Hend _].
  inversion Hok as [|? ? [[Hsb Heb] Hnb] Hw]; subst. cbn [fst snd] in *.
  assert (boundary body (end_of e w)) as Hb.
  { apply end_of_boundary; [done|]. eapply Forall_impl; [exact Hw|]. by intros ? []. }
  assert (blank_bytes (slice s (end_of e w) body) = false) as Hnb'.
  { apply not_true_iff_false. rewrite (slice_join body s e) by lia. intros Hbl.
    apply blank_app_inv in Hbl as [Hbl _]; [by unfold span_text in Hnb; cbn [fst snd] in Hnb; congruence|].
    by apply valid_utf8_starts, valid_slice; [lia| | |]. }
  unfold episode_chunk. rewrite window_span_cons, get_slice_boundary by (done || lia).
  rewrite Hnb'. eexists. split; [done|]. unfold chunk_at, span_text. cbn [fst snd].
  rewrite get_slice_boundary by (done || lia). by split_and!.
Qed.

Lemma windows_chunks body id kind date label size : valid_utf8 body = true →
  ∀ windows k pos, Forall (λ w, w ≠ []) windows → in_order body pos (concat windows) →
  Forall (segment_ok body) (concat windows) → ∃ spans,
  map window_span windows = map Some spans ∧
  (laid_out body pos (concat windows) → laid_out body pos spans) ∧
  Forall2 (chunk_at body) spans
    (omap (λ '(i, w), episode_chunk id kind date label body size i w)
      (imap (λ i w, ((k + i)%nat, w)) windows)).
Proof.
  intros Hv windows. induction windows as [|w windows IH]; intros k pos Hne Ho Hok.
  { exists []. by split_and!; [| |constructor]. }
  inversion Hne as [|? ? Hw Hne']; subst. destruct w as [|[s e] w]; [done|].
  cbn [concat] in *. apply Forall_app in Hok as [Hokw Hok].
  destruct (window_chunk body pos s e w _ id kind date label size (k + 0) Hv Ho Hokw)
    as (c & Hc & Hat).
  destruct (in_order_skip _ _ _ _ Ho) as [_ Hrest]. cbn [end_of] in Hrest.
  destruct (IH (S k) _ Hne' Hrest Hok) as (spans & Hm & Hl & Hf).
  exists ((s, end_of e w) :: spans). split_and!.
  - cbn [map]. by rewrite window_span_cons, Hm.
  - intros Hlo. pose proof (laid_out_skip body pos _ _ Hlo) as Hsk. cbn [end_of] in Hsk.
    destruct Ho as (Hs & He & Hr). destruct (in_order_skip _ _ _ _ Hr) as [He' _].
    destruct Hlo as (_ & _ & Hg & _). split_and!; [lia..|done|by apply Hl].
  - rewrite imap_cons. cbn [omap list_omap]. rewrite Hc. constructor; [done|].
    rewrite (imap_ext _ (λ i x, ((S k + i)%nat, x))); [done|]. intros i x _. simpl. f_equal. lia.
Qed.

(** ** The windows of a list *)

Lemma chunks_of_spec {A} fuel window (l : list A) :
  (0 < window)%nat → (length l <= fuel)%nat →
  concat (chunks_of fuel window l) = l ∧ Forall (λ w, w ≠ []) (chunks_of fuel window l) ∧
  (length (chunks_of fuel window l) * window < length l + window)%nat.
Proof.
  intros Hw. revert l. induction fuel as [|fuel IH]; intros l Hl.
  { destruct l; [|simpl in Hl; lia]. by split_and!; [|constructor|simpl; lia]. }
  destruct l as [|a l]; [by split_and!; [|constructor|simpl; lia]|]. cbn [chunks_of].
  destruct (IH (drop window (a :: l))) as (Hc & Hn & Hb).
  { rewrite length_drop. simpl in *. lia. }
  rewrite length_drop in Hb. split_and!.
  - cbn [concat]. by rewrite Hc, take_drop.
  - constructor; [|done]. by destruct window; [lia|].
  - cbn [length] in *. destruct (Nat.le_gt_cases (S (length l)) window); [|lia].
    destruct (length (chunks_of _ _ _)); lia.
Qed.

Lemma adaptive_chunk_window_spec n :
  (0 < adaptive_chunk_window n)%nat ∧ (n <= MAX_CONTEXTUAL_CHUNKS * adaptive_chunk_window n)%nat.
Proof.
  unfold adaptive_chunk_window, CONTEXTUAL_CHUNK_WINDOW, MAX_CONTEXTUAL_CHUNKS.
  pose proof (Nat.div_mod (n + 32 - 1) 32 ltac:(done)).
  pose proof (Nat.mod_upper_bound (n + 32 - 1) 32 ltac:(done)). lia.
Qed.

Lemma episode_windows_spec spans :
  concat (episode_windows spans) = spans ∧ Forall (λ w, w ≠ []) (episode_windows spans) ∧
  (length (episode_windows spans) <= MAX_CONTEXTUAL_CHUNKS)%nat.
Proof.
  destruct (adaptive_chunk_window_spec (length spans)) as [Hp Hw].
  destruct (chunks_of_spec (length spans) (adaptive_chunk_window (length spans)) spans Hp ltac:(done))
    as (Hc & Hn & Hb).
  assert (length (chunks_of (length spans) (adaptive_chunk_window (length spans)) spans)
    < S MAX_CONTEXTUAL_CHUNKS)%nat as Hlt.
  { apply (Nat.mul_lt_mono_pos_r (adaptive_chunk_window (length spans))); [done|].
    rewrite Nat.mul_succ_l. lia. }
  unfold episode_windows. rewrite take_ge by lia. split_and!; [done..|lia].
Qed.

Section episodes.
Context `{UnicodeAlphanumeric}.

Lemma episode_lines_spec body pre l p :
  body = pre ++ l → valid_utf8 body = true → boundary body (length pre) →
  (p <= length pre)%nat → blank_bytes (slice p (length pre) body) = true →
  let spans := map (λ l, (ln_start l, ln_end l)) (episode_lines (length pre) (split_inclusive_nl l)) in
  laid_out body p spans ∧ Forall (segment_ok body) spans.
Proof.
  remember (split_inclusive_nl l) as raws eqn:Hl. symmetry in Hl. cbv zeta.
  revert pre l p Hl. induction raws as [|raw raws IH]; intros pre l p Hl Hbody Hv Hb Hp Hg.
  - assert (l = []) as -> by (by rewrite <-(split_inclusive_concat l), Hl).
    rewrite app_nil_r in Hbody. subst pre. split; [|constructor]. split; [lia|].
    by rewrite (slice_rest body p (length body)), drop_all, app_nil_r by lia.
  - pose proof Hv as Hv'. rewrite Hbody in Hv'.
    destruct (line_facts pre l raw raws Hv' Hl) as (rest & -> & Hr & He & Hn & Hct & Htl & Hbe & Hbn & Hlen).
    rewrite <-Hbody, <-Hlen in *. set (content := trim_end_bytes is_eol raw) in *.
    specialize (IH (pre ++ raw) rest). rewrite <-Hr, <-app_assoc in IH.
    cbn [episode_lines]. fold content. rewrite <-Hlen.
    destruct (blank_bytes content) eqn:E.
    + apply (IH p); try done; [lia|].
      rewrite (slice_join body p (length pre)) by lia.
      apply blank_app; [done|]. rewrite (slice_join body _ (length pre + length content)) by lia.
      rewrite Hct. by apply blank_app.
    + destruct (IH (length pre + length content)%nat) as [IHl IHf]; [done..|lia|done|].
      cbn [map ln_start ln_end]. split; [by split_and!; [lia..| |]|]. constructor; [|done].
      split; [by split|]. unfold span_text. cbn [fst snd ln_start ln_end]. by rewrite Hct.
Qed.

Lemma segment_episode_body_spec body : valid_utf8 body = true →
  let '(segments, turn_structured) := segment_episode_body body in
  in_order body 0 segments ∧ Forall (segment_ok body) segments ∧
  (turn_structured = false → laid_out body 0 segments).
Proof.
  intros Hv. unfold segment_episode_body.
  destruct (episode_lines_spec body [] body 0 eq_refl Hv (boundary_start body Hv) ltac:(done) eq_refl)
    as [Hl Hf]. cbn [length] in Hl, Hf.
  set (lines := episode_lines 0 (split_inclusive_nl body)) in *.
  set (turns := (_ && _)). set (extent := λ l, (ln_start l, ln_end l)) in *.
  assert (∀ keep pos ls, in_order body pos (map extent ls) →
    in_order body pos (map extent (retain keep ls))) as Hord.
  { intros keep pos ls. revert pos. induction ls as [|a ls IH]; intros pos; [done|].
    intros (Hs & He & Hr). rewrite retain_cons. destruct (keep a).
    - split_and!; [lia..|by apply IH].
    - apply (in_order_weaken body pos (ln_end a)); [lia|by apply IH]. }
  split_and!.
  - by apply Hord, laid_out_in_order.
  - apply Forall_forall. intros span (a & -> & [Ha _]%elem_of_retain)%list_elem_of_fmap.
    rewrite Forall_forall in Hf. by apply Hf, list_elem_of_fmap_2.
  - intros ->. rewrite retain_all; [done|]. by intros.
Qed.

Lemma episode_chunks_spec id kind body date : valid_utf8 body = true →
  let '(segments, turn_structured) := segment_episode_body body in
  let chunks := episode_contextual_chunks id kind body date in
  (length segments <= CONTEXTUAL_CHUNK_WINDOW)%nat ∧ chunks = [] ∨
  ∃ windows spans, concat windows = segments ∧ (length windows <= MAX_CONTEXTUAL_CHUNKS)%nat ∧
    map window_span windows = map Some spans ∧ Forall2 (chunk_at body) spans chunks ∧
    (turn_structured = false → laid_out body 0 spans).
Proof.
  intros Hv. pose proof (segment_episode_body_spec body Hv) as Hs.
  unfold episode_contextual_chunks. destruct (segment_episode_body body) as [segments turns].
  destruct Hs as (Ho & Hok & Hl).
  destruct (Nat.leb_spec (length segments) CONTEXTUAL_CHUNK_WINDOW) as [H4|H4]; [by left|right].
  destruct (episode_windows_spec segments) as (Hc & Hn & Hb). rewrite <-Hc in Ho, Hok, Hl.
  destruct (windows_chunks body id kind
    (match date with Some date => " [date " +:+ date +:+ "]" | None => String.EmptyString end)
    (if turns then "turns" else "segments") (adaptive_chunk_window (length segments)) Hv
    (episode_windows segments) 0 0 Hn Ho Hok) as (spans & Hm & Hlo & Hf).
  exists (episode_windows segments), spans. split_and!; [done..|auto].
Qed.
End episodes.

(** ** The properties *)

(** C31: A document is never lost in its chunks.  The spans cut from a body are
    in order and disjoint with only whitespace outside them, each at most
    1600 characters; each chunk carries its span, the slice there and nothing
    blank.  No chunk at all means the body fits one window. *)
Theorem resource_chunks_cover id uri body : valid_utf8 body = true → ∃ spans,
  laid_out body 0 spans ∧ Forall (span_fits body) spans ∧
  (resource_contextual_chunks id uri body = [] ∧ (length spans <= 1)%nat ∨
   Forall2 (chunk_at body) spans (resource_contextual_chunks id uri body)).
Proof. apply resource_chunks_spec. Qed.

(** Every segment of an episode body (its turns, or its non-blank lines)
    lands in one window, in order, of at most 32 windows, and every window is
    one chunk: the slice of the body from its first segment to the end of its
    last.  A body that is not turn-structured is covered entirely. *)
Theorem episode_chunks_cover `{UnicodeAlphanumeric} id kind body date :
  valid_utf8 body = true →
  let '(segments, turn_structured) := segment_episode_body body in
  let chunks := episode_contextual_chunks id kind body date in
  (length segments <= CONTEXTUAL_CHUNK_WINDOW)%nat ∧ chunks = [] ∨
  ∃ windows spans, concat windows = segments ∧ (length windows <= MAX_CONTEXTUAL_CHUNKS)%nat ∧
    map window_span windows = map Some spans ∧ Forall2 (chunk_at body) spans chunks ∧
    (turn_structured = false → laid_out body 0 spans).
Proof. apply episode_chunks_spec. Qed.

(** The span a chunked document is cited by ([covering_source_span]) reads
    back as byte offsets of the body, with only whitespace before the start
    and after the end. *)
Theorem covering_span_round_trip id uri body :
  valid_utf8 body = true → N.of_nat (length body) <= usize_max →
  resource_contextual_chunks id uri body ≠ [] → ∃ start end_,
  covering_source_span (resource_contextual_chunks id uri body) =
    Some (span_string (start, end_)) ∧
  parse_source_span (bytes_of (span_string (start, end_))) =
    Some (N.of_nat start, N.of_nat end_) ∧
  (start <= end_ <= length body)%nat ∧
  blank_bytes (take start body) = true ∧ blank_bytes (drop end_ body) = true.
Proof.
  intros Hv Hm Hne. destruct (resource_chunks_spec id uri body Hv) as (spans & Hl & _ & Hc).
  destruct Hc as [[Hnil _]|Hc]; [done|]. by apply (covering_span_spec body spans).
Qed.
