(* ===== verification/Render.v ===== *)
(** * Render: what a packed item shows and what it is charged

    Token-overlap scores and the chunk rendering of
    [crates/memphant-core/src/lib.rs]: which contextual chunks of a unit are
    shown within a token budget, how adjacent chunks share one header, and the
    conservative token cost the pack is charged.  Texts are byte lists; an
    index is below the number of chunks wherever the code indexes. *)

From Stdlib Require Import Floats.SpecFloat.
From S2P Require Import Prelude Text Types Float Chunks.

(** ** Overlap scores *)

(** [n as f32]. *)
Definition f32_of_N (n : N) : f32 :=
  f32_encode (binary_normalize f32_prec f32_emax (Z.of_N n) 0 false).
Definition f32_ratio (n d : nat) : f32 := f32_div (f32_of_N (N.of_nat n)) (f32_of_N (N.of_nat d)).

(** [x > 0.0], and [f32::max] of values that are not NaN. *)
Definition f32_pos (x : f32) : bool :=
  match f32_partial_cmp x f32_zero with Some Gt => true | _ => false end.
Definition f32_max (x y : f32) : f32 :=
  match f32_partial_cmp x y with Some Lt => y | _ => x end.

Definition query_related (query_tokens : list (list N)) (token : list N) : bool :=
  existsb (tokens_related token) query_tokens.

Definition lexical_text_score (text : string) (query_tokens : list (list N)) : f32 :=
  let body_tokens := tokenize text in
  let overlap := length (retain (query_related query_tokens) body_tokens) in
  f32_ratio overlap (Nat.max (length body_tokens) 1).

Definition token_set_overlap_text_score (text : string) (query_tokens : list (list N)) : f32 :=
  let body_tokens := tokenize text in
  let union := length (remove_dups (body_tokens ++ query_tokens)) in
  let intersection := length (remove_dups (retain (query_related query_tokens) body_tokens)) in
  if (union =? 0)%nat then f32_zero else f32_ratio intersection union.

Definition chunk_query_score (chunk : ContextualChunk) (query_tokens : list (list N)) : f32 :=
  token_set_overlap_text_score (ch_header chunk +:+ " " +:+ ch_body chunk) query_tokens.

Definition contextual_chunk_score (chunks : list ContextualChunk) (query_tokens : list (list N))
    : f32 :=
  foldl f32_max f32_zero (map (λ chunk, chunk_query_score chunk query_tokens) chunks).

Definition token_set_overlap_score (body : string) (chunks : list ContextualChunk)
    (query_tokens : list (list N)) : f32 :=
  f32_max (token_set_overlap_text_score body query_tokens)
    (contextual_chunk_score chunks query_tokens).

(** ** Headers with a span slot *)

(** [str::strip_suffix] of an ASCII character. *)
Definition strip_suffix (b : N) (l : list N) : option (list N) :=
  match rev l with a :: r => if a =? b then Some (rev r) else None | [] => None end.

Definition split_header_span (header : list N) : option (list N * N * N) :=
  inner ← strip_suffix 93 header;
  '(head, last) ← rsplit_once 45 inner;
  last ← parse_unsigned u64_max last;
  let prefix := trim_end_bytes is_digit head in
  if (length head - length prefix =? 0)%nat then None
  else
    first ← parse_unsigned u64_max (drop (length prefix) head);
    Some (prefix, first, last).

Definition headers_mergeable (left right : list N) : bool :=
  bool_decide (left = right) ||
  match split_header_span left, split_header_span right with
  | Some (left_prefix, _, _), Some (right_prefix, _, _) => bool_decide (left_prefix = right_prefix)
  | _, _ => false
  end.

(** ** Runs of selected chunks *)

Section render.
Context (chunks : list ContextualChunk).

Definition header (index : nat) : list N :=
  match chunks !! index with Some chunk => bytes_of (ch_header chunk) | None => [] end.

Definition is_selected (selected : list bool) (index : nat) : bool :=
  default false (selected !! index).

Definition push_run (merge : bool) (runs : list Span) (index : nat) : list Span :=
  match rev runs with
  | (start, end_) :: before =>
      if merge && (index =? S end_)%nat && headers_mergeable (header start) (header index)
      then rev before ++ [(start, index)] else runs ++ [(index, index)]
  | [] => [(index, index)]
  end.

Definition selected_indices (selected : list bool) : list nat :=
  retain (is_selected selected) (seq 0 (length chunks)).

Definition selected_runs (selected : list bool) (merge : bool) : list Span :=
  foldl (push_run merge) [] (selected_indices selected).

Definition run_header (start end_ : nat) : list N :=
  if (start =? end_)%nat then header start
  else match split_header_span (header start), split_header_span (header end_) with
       | Some (prefix, first, _), Some (_, _, last) =>
           if first <=? last then prefix ++ show_span first last ++ [93] else header start
       | _, _ => header start
       end.

(** The chunks of [start..=end]. *)
Definition run_chunks (start end_ : nat) : list ContextualChunk :=
  take (S end_ - start) (drop start chunks).

Definition run_block (start end_ : nat) : list N :=
  run_header start end_ ++
  concat (map (λ chunk, LF :: bytes_of (ch_body chunk)) (run_chunks start end_)).

(** [saturating_add(1)]. *)
Definition separated (cost : N) : N := N.min u64_max (cost + 1).

Definition run_block_token_cost (run : Span) : N :=
  separated (token_estimate (run_block (fst run) (snd run))).

Fixpoint join_blank (blocks : list (list N)) : list N :=
  match blocks with
  | [] => []
  | [block] => block
  | block :: blocks => block ++ [LF; LF] ++ join_blank blocks
  end.

Definition emit_selected_chunks (selected : list bool) (merge : bool) : list N :=
  join_blank (map (λ run, run_block (fst run) (snd run)) (selected_runs selected merge)).

Definition sum_N (l : list N) : N := foldr N.add 0 l.

Definition selected_chunk_cost (selected : list bool) (merge : bool) : N :=
  sum_N (map run_block_token_cost (selected_runs selected merge)).

(** ** Selection within a budget *)

Definition chunk_block (chunk : ContextualChunk) : list N :=
  bytes_of (ch_header chunk) ++ [LF] ++ bytes_of (ch_body chunk).

Definition chunk_block_token_cost (index : nat) : N :=
  match chunks !! index with
  | Some chunk => separated (token_estimate (chunk_block chunk))
  | None => 0
  end.

(** The mask and the tokens used. *)
Notation Selection := (list bool * N)%type.

Definition select_if_fits (budget_tokens : N) (index : nat) (st : Selection) : Selection * bool :=
  let '(selected, used_tokens) := st in
  let cost := chunk_block_token_cost index in
  if used_tokens + cost <=? budget_tokens
  then ((<[index := true]> selected, used_tokens + cost), true) else (st, false).

Definition expand_step (budget_tokens : N) (st : Selection) (candidate : option nat) : Selection :=
  match candidate with
  | Some index =>
      if (length chunks <=? index)%nat || is_selected (fst st) index then st
      else fst (select_if_fits budget_tokens index st)
  | None => st
  end.

(** [checked_sub]. *)
Definition checked_sub (a b : nat) : option nat := if (b <=? a)%nat then Some (a - b)%nat else None.

Definition sibling_candidates (anchors : list nat) : list (option nat) :=
  flat_map (λ radius, flat_map (λ anchor,
      [checked_sub anchor radius; Some (anchor + radius)%nat]) anchors)
    (seq 1 (length chunks - 1)).

Definition expand_siblings (anchors : list nat) (budget_tokens : N) (st : Selection) : Selection :=
  foldl (expand_step budget_tokens) st (sibling_candidates anchors).

Definition anchor_step (budget_tokens : N) (st : Selection * list nat) (index : nat)
    : Selection * list nat :=
  let '(selection, anchors) := st in
  let '(selection, fits) := select_if_fits budget_tokens index selection in
  (selection, if fits then anchors ++ [index] else anchors).

Section scored.
Context (query_tokens : list (list N)).

Definition chunk_score (index : nat) : f32 :=
  match chunks !! index with
  | Some chunk => chunk_query_score chunk query_tokens
  | None => f32_zero
  end.

(** Highest score first, document order breaking ties. *)
Definition score_order (left right : nat) : bool :=
  match f32_cmp_or_equal (chunk_score right) (chunk_score left) with
  | Lt => true
  | Eq => (left <=? right)%nat
  | Gt => false
  end.

Definition matched_chunks : list nat :=
  sort_by score_order (retain (λ index, f32_pos (chunk_score index)) (seq 0 (length chunks))).

Definition select_chunk_mask (budget_tokens : N) : option (list bool) :=
  if is_empty chunks then None
  else if is_empty matched_chunks then None
  else
    let '(selection, anchors) :=
      foldl (anchor_step budget_tokens) ((replicate (length chunks) false, 0), [])
        matched_chunks in
    let anchors := sort_by Nat.leb anchors in
    let '(selected, _) := expand_siblings anchors budget_tokens selection in
    if existsb id selected then Some selected else None.

Definition packed_render (body : string) (request_budget_tokens : N) (render_cap : option N)
    (merge_chunk_blocks : bool) : option (list N) * N * option (list bool) :=
  let whole_body_tokens := conservative_token_estimate body in
  let render_budget :=
    N.min (N.min whole_body_tokens request_budget_tokens) (default u64_max render_cap) in
  match select_chunk_mask render_budget with
  | Some selected =>
      (Some (emit_selected_chunks selected merge_chunk_blocks),
       selected_chunk_cost selected merge_chunk_blocks, Some selected)
  | None => (None, whole_body_tokens, None)
  end.

End scored.
End render.
