(* ===== verification/RenderFacts.v ===== *)
(** * RenderFacts: a rendered item fits what it is charged

    Theorems on Render.v: the estimate of a text is bounded through its words
    and its length, both of which a merged run keeps below the sum of its
    chunks; so the charge of the merged emission never exceeds the per-chunk
    sum the selection gate counted, and the rendered text never exceeds the
    charge.  The selection itself is within its budget and maximal. *)

From S2P Require Import Prelude Text Types Float TextFacts Chunks Render.

(** ** Counting words *)

Definition words (l : list N) : nat := length (split_words [] l).

Lemma white2_ascii a b : b < 128 → white2 a b = false.
Proof.
  intros Hb. apply not_true_iff_false. intros H%white2_cont. unfold is_cont in H.
  apply andb_true_iff in H as [H%N.leb_le _]. lia.
Qed.

Lemma white3_ascii a b c : b < 128 ∨ c < 128 → white3 a b c = false.
Proof.
  intros Hb. apply not_true_iff_false. intros [H1 H2]%white3_cont. unfold is_cont in *.
  apply andb_true_iff in H1 as [H1%N.leb_le _]. apply andb_true_iff in H2 as [H2%N.leb_le _]. lia.
Qed.

(** A newline always ends a word. *)
Lemma split_words_newline w a b :
  split_words w (a ++ LF :: b) = split_words w a ++ split_words [] b.
Proof.
  revert w. induction a as [|x a IH Hrec] using list_ind3; intros w; [done|].
  cbn [app split_words]. destruct (ascii_white x); [by rewrite IH, app_assoc|].
  destruct a as [|y a].
  - cbn [app]. rewrite white2_ascii by done.
    destruct b as [|c b]; [exact (IH (x :: w))|]. rewrite white3_ascii by (by left).
    exact (IH (x :: w)).
  - destruct (Hrec y a eq_refl) as [IH2 Hrec3]. cbn [app] in IH |- *.
    destruct (white2 x y); [by rewrite IH2, app_assoc|].
    destruct a as [|z a].
    + cbn [app]. rewrite white3_ascii by (by right). exact (IH (x :: w)).
    + cbn [app] in IH |- *. destruct (white3 x y z); [|exact (IH (x :: w))].
      by rewrite (Hrec3 z a eq_refl), app_assoc.
Qed.

Lemma words_newline a b : words (a ++ LF :: b) = (words a + words b)%nat.
Proof. unfold words. by rewrite split_words_newline, length_app. Qed.

(** Plain bytes: ASCII, not white. *)
Definition plain (l : list N) : Prop := Forall (λ b, b < 128 ∧ ascii_white b = false) l.

Lemma split_words_plain w l : plain l → w ≠ [] ∨ l ≠ [] → length (split_words w l) = 1%nat.
Proof.
  intros Hl. revert w. induction Hl as [|b l [Hb Hw] Hl IH]; intros w Hne.
  - destruct w; [naive_solver | done].
  - cbn [split_words]. rewrite Hw. destruct l as [|c l]; [apply IH; by left|].
    inversion Hl as [|? ? [Hc _] _]; subst. rewrite white2_ascii by done.
    destruct l as [|d l]; [apply IH; by left|]. rewrite white3_ascii by (by left).
    apply IH; by left.
Qed.

(** The word a text ends with counts once, whatever plain bytes it ends in. *)
Lemma words_plain_tail a x y :
  plain x → plain y → x ≠ [] → y ≠ [] → words (a ++ x) = words (a ++ y).
Proof.
  intros Hx Hy Hxn Hyn. unfold words. generalize (@nil N) as w.
  induction a as [|p a IH Hrec] using list_ind3; intros w.
  { cbn [app]. rewrite !split_words_plain; [done|done|by right|done|by right]. }
  destruct x as [|x0 x]; [done|]. destruct y as [|y0 y]; [done|].
  pose proof (Forall_inv Hx) as [Hx0 _]. pose proof (Forall_inv Hy) as [Hy0 _].
  cbn [app split_words]. destruct (ascii_white p); [by rewrite !length_app, IH|].
  destruct a as [|q a].
  - cbn [app]. rewrite !white2_ascii by done.
    assert (∀ (l : list N) z0, z0 < 128 →
      match l with [] => split_words (p :: w) (z0 :: l)
      | c :: l3 => if white3 p z0 c then (if is_empty w then [] else [rev w]) ++ split_words [] l3
                   else split_words (p :: w) (z0 :: l) end = split_words (p :: w) (z0 :: l)) as Hm.
    { intros l z0 Hz. destruct l; [done|]. by rewrite white3_ascii by (by left). }
    rewrite !Hm by done. apply (IH (p :: w)).
  - destruct (Hrec q a eq_refl) as [IH2 Hrec3]. cbn [app] in IH |- *.
    destruct (white2 p q); [by rewrite !length_app, IH2|]. destruct a as [|r a].
    + cbn [app] in IH |- *. rewrite !white3_ascii by (by right). apply IH.
    + cbn [app] in IH |- *. destruct (white3 p q r); [|apply IH].
      by rewrite !length_app, (Hrec3 r a eq_refl).
Qed.

Lemma words_le_length l : (words l <= length l)%nat.
Proof.
  unfold words. assert (∀ w, (length (split_words w l) <= length l + (if is_empty w then 0 else 1))%nat)
    as H; [|specialize (H []); simpl in H; lia].
  induction l as [|x l IH Hrec] using list_ind3; intros w; [by destruct w|].
  assert (length (if is_empty w then [] else [rev w]) = if is_empty w then 0 else 1)%nat as Hf
    by (by destruct w).
  pose proof (IH (x :: w)) as IHx. cbn [is_empty] in IHx.
  cbn [split_words]. destruct (ascii_white x).
  { rewrite length_app, Hf. specialize (IH []). simpl in *. lia. }
  destruct l as [|y l]; [cbn [length] in *; lia|].
  destruct (Hrec y l eq_refl) as [IH2 Hrec3]. destruct (white2 x y).
  { rewrite length_app, Hf. specialize (IH2 []). simpl in *. lia. }
  destruct l as [|z l]; [cbn [length] in *; lia|]. destruct (white3 x y z); [|cbn [length] in *; lia].
  rewrite length_app, Hf. pose proof (Hrec3 z l eq_refl []). simpl in *. lia.
Qed.

(** ** The estimate *)

Lemma div_ceil_3 a : a <= 3 * div_ceil a 3 ∧ 3 * div_ceil a 3 <= a + 2.
Proof.
  unfold div_ceil. pose proof (N.div_mod (a + 3 - 1) 3 ltac:(done)) as H.
  pose proof (N.mod_lt (a + 3 - 1) 3 ltac:(done)) as Hm. revert H Hm.
  generalize ((a + 3 - 1) / 3), ((a + 3 - 1) `mod` 3). lia.
Qed.

Lemma token_estimate_le t n :
  token_estimate t <= n ↔ N.of_nat (words t) <= n ∧ N.of_nat (length t) <= 3 * n.
Proof.
  unfold token_estimate, words. pose proof (div_ceil_3 (N.of_nat (length t))).
  destruct t as [|a t]; [simpl; lia|]. cbn [is_empty]. lia.
Qed.

Lemma token_estimate_bounds t :
  N.of_nat (words t) <= token_estimate t ∧ N.of_nat (length t) <= 3 * token_estimate t ∧
  token_estimate t <= N.of_nat (length t).
Proof.
  destruct (proj1 (token_estimate_le t (token_estimate t)) ltac:(lia)).
  split_and!; [done..|]. apply token_estimate_le. pose proof (words_le_length t). lia.
Qed.

Definition estimates (l : list (list N)) : N := sum_N (map token_estimate l).

(** A text within the words and the bytes of others is within their estimates. *)
Lemma token_estimate_sum t l :
  (words t <= sum_list_with words l)%nat → (length t <= sum_list_with length l)%nat →
  token_estimate t <= estimates l.
Proof.
  intros Hw Hl. apply token_estimate_le. unfold estimates.
  assert (N.of_nat (sum_list_with words l) <= sum_N (map token_estimate l) ∧
    N.of_nat (sum_list_with length l) <= 3 * sum_N (map token_estimate l)); [|lia].
  clear. induction l as [|t l [IH1 IH2]]; [simpl; lia|].
  destruct (token_estimate_bounds t) as (H1 & H2 & _). simpl. lia.
Qed.

(** ** Headers *)

Lemma split_once_inv b l x y : split_once [b] l = Some (x, y) → l = x ++ b :: y.
Proof.
  revert x. induction l as [|a l IH]; intros x; [done|].
  unfold split_once; fold split_once. cbn [starts_with andb length drop].
  destruct (N.eqb_spec b a) as [<-|Hb]; cbn [andb].
  - intros [= <- <-]. by rewrite drop_0.
  - destruct (split_once [b] l) as [[u v]|]; [|done]. intros [= <- <-]. by rewrite (IH u eq_refl).
Qed.

Lemma rsplit_once_inv b l x y : rsplit_once b l = Some (x, y) → l = x ++ b :: y.
Proof.
  unfold rsplit_once. destruct (split_once [b] (rev l)) as [[u v]|] eqn:E; [|done].
  intros [= <- <-]. apply split_once_inv in E. rewrite <-(rev_involutive l), E, rev_app_distr.
  simpl. by rewrite <-app_assoc.
Qed.

Lemma strip_suffix_inv b l x : strip_suffix b l = Some x → l = x ++ [b].
Proof.
  unfold strip_suffix. destruct (rev l) as [|a r] eqn:E; [done|].
  destruct (N.eqb_spec a b) as [->|]; [|done]. intros [= <-].
  by rewrite <-(rev_involutive l), E.
Qed.

Lemma is_digit_plain b : is_digit b = true → b < 128 ∧ ascii_white b = false.
Proof.
  unfold is_digit. rewrite andb_true_iff, !N.leb_le. intros [H1 H2]. split; [lia|].
  apply not_true_iff_false. unfold ascii_white. rewrite !orb_true_iff, ?andb_true_iff, ?N.leb_le, ?N.eqb_eq. lia.
Qed.

Lemma digits_plain l : forallb is_digit l = true → plain l.
Proof.
  intros H%Is_true_true_2%forallb_True. eapply Forall_impl; [exact H|].
  intros b Hb. by apply is_digit_plain, Is_true_true.
Qed.

(** A number is displayed with no more digits than it was parsed from. *)
Lemma digits_value_lt l : forallb is_digit l = true → digits_value l < 10 ^ N.of_nat (length l).
Proof.
  induction l as [|b l IH] using rev_ind; [done|]. rewrite forallb_app.
  intros [Hl Hb]%andb_true_iff. cbn [forallb] in Hb. rewrite andb_true_r in Hb.
  rewrite digits_value_app, length_app. cbn [length]. specialize (IH Hl).
  change (digits_value [b]) with (10 * 0 + (b - 48)). unfold is_digit in Hb.
  apply andb_true_iff in Hb as [Hb1%N.leb_le Hb2%N.leb_le].
  rewrite Nat2N.inj_add, N.pow_add_r. change (10 ^ N.of_nat 1) with 10. lia.
Qed.

Lemma length_digits_from fuel n k :
  n < 10 ^ N.of_nat (S k) → (length (digits_from fuel n []) <= S k)%nat.
Proof.
  revert n k. induction fuel as [|fuel IH]; intros n k Hn; cbn [digits_from]; [simpl; lia|].
  pose proof (N.div_mod n 10 ltac:(done)) as Hd. pose proof (N.mod_lt n 10 ltac:(done)) as Hm.
  revert Hd Hm. generalize (n `mod` 10), (n / 10). intros m q Hd Hm.
  destruct (N.eqb_spec q 0) as [|Hq]; [simpl; lia|].
  rewrite digits_from_app, length_app. cbn [length].
  destruct k as [|k]; [change (10 ^ N.of_nat 1) with 10 in Hn; lia|].
  rewrite Nat2N.inj_succ, N.pow_succ_r' in Hn. specialize (IH q k ltac:(lia)). lia.
Qed.

Lemma length_show_N l : l ≠ [] → forallb is_digit l = true →
  (length (show_N (digits_value l)) <= length l)%nat.
Proof.
  intros Hne Hd%digits_value_lt. destruct l as [|b l]; [done|].
  by apply length_digits_from.
Qed.

Lemma parse_unsigned_inv max l n :
  parse_unsigned max l = Some n → plain l ∧ l ≠ [] ∧ (length (show_N n) <= length l)%nat.
Proof.
  unfold parse_unsigned. set (digits := match l with [] => _ | _ => _ end).
  assert (l = digits ∨ l = 43 :: digits) as Hl.
  { unfold digits. destruct l as [|b r]; [by left|]. destruct (N.eqb_spec b 43) as [->|];
      [by right | by left]. }
  destruct (is_empty digits) eqn:Ee; [done|]. cbn [orb].
  destruct (forallb is_digit digits) eqn:Ed; [|done]. cbn [negb].
  destruct (_ <=? max); [|done]. intros [= <-].
  assert (digits ≠ []) as Hne by (by destruct digits).
  pose proof (length_show_N digits Hne Ed). pose proof (digits_plain digits Ed).
  clearbody digits. destruct Hl as [-> | ->]; split_and!; try done.
  - by constructor.
  - simpl. lia.
Qed.

Lemma trim_end_digits l : ∃ ds, l = trim_end_bytes is_digit l ++ ds ∧ forallb is_digit ds = true.
Proof.
  destruct (trim_end_bytes_split is_digit l) as (k & Hk & Hp). exists k. split; [done|].
  apply Is_true_true. apply forallb_True. eapply Forall_impl; [exact Hp|]. by intros b ->.
Qed.

Lemma split_header_span_inv h prefix first last :
  split_header_span h = Some (prefix, first, last) → ∃ ds ls,
  h = prefix ++ ds ++ [45] ++ ls ++ [93] ∧ plain ds ∧ plain ls ∧ ls ≠ [] ∧
  (length (show_N first) <= length ds)%nat ∧ (length (show_N last) <= length ls)%nat.
Proof.
  unfold split_header_span. destruct (strip_suffix 93 h) as [inner|] eqn:Es; [|done].
  apply strip_suffix_inv in Es as ->. cbn [mbind option_bind].
  destruct (rsplit_once 45 inner) as [[head ls]|] eqn:Er; [|done].
  apply rsplit_once_inv in Er as ->. cbn [mbind option_bind].
  destruct (parse_unsigned u64_max ls) as [lastn|] eqn:El; [|done].
  apply parse_unsigned_inv in El as (Hlp & Hln & Hll). cbn [mbind option_bind].
  destruct (trim_end_digits head) as (ds & Hh & Hds). revert Hh.
  generalize (trim_end_bytes is_digit head) as p. intros p ->.
  destruct (_ =? 0)%nat; [done|]. rewrite drop_app_length.
  destruct (parse_unsigned u64_max ds) as [f|] eqn:Ef; [|done].
  apply parse_unsigned_inv in Ef as (Hfp & Hfn & Hfl).
  intros [= <- <- <-]. exists ds, ls. split_and!; [|done..]. by rewrite <-!app_assoc.
Qed.

Lemma show_span_plain first last : plain (show_span first last).
Proof.
  unfold plain, show_span. rewrite !Forall_app. split_and!;
    [apply digits_plain, show_N_spec | by apply Forall_singleton | apply digits_plain, show_N_spec].
Qed.

Section runs.
Context (chunks : list ContextualChunk).

(** The shared header costs no more than the two it replaces. *)
Lemma run_header_bounds start end_ :
  words (run_header chunks start end_) = words (header chunks start) ∧
  (start ≠ end_ → length (run_header chunks start end_) <=
    length (header chunks start) + length (header chunks end_))%nat.
Proof.
  unfold run_header. destruct (Nat.eqb_spec start end_) as [|Hne]; [by split|].
  destruct (split_header_span (header chunks start)) as [[[prefix first] l0]|] eqn:Es;
    [|split; [done|lia]].
  destruct (split_header_span (header chunks end_)) as [[[p1 f1] last]|] eqn:Ee;
    [|split; [done|lia]].
  destruct (first <=? last); [|split; [done|lia]].
  apply split_header_span_inv in Es as (ds & ls & -> & Hds & Hls & _ & Hf & _).
  apply split_header_span_inv in Ee as (ds' & ls' & -> & _ & _ & _ & _ & Hl). split.
  - apply words_plain_tail.
    + apply Forall_app. split; [apply show_span_plain|]. by apply Forall_singleton.
    + unfold plain. rewrite !Forall_app. by split_and!; [|apply Forall_singleton| |apply Forall_singleton].
    + unfold show_span. by destruct (show_N first).
    + by destruct ds.
  - intros _. unfold show_span. rewrite !length_app. cbn [length]. lia.
Qed.

Lemma words_block h bodies :
  words (h ++ concat (map (λ chunk, LF :: bytes_of (ch_body chunk)) bodies)) =
  (words h + sum_list_with (λ chunk, words (bytes_of (ch_body chunk))) bodies)%nat.
Proof.
  revert h. induction bodies as [|c bodies IH]; intros h; cbn [map concat sum_list_with].
  - by rewrite app_nil_r, Nat.add_0_r.
  - cbn [app]. rewrite words_newline, IH. lia.
Qed.

Lemma length_block h bodies :
  length (h ++ concat (map (λ chunk, LF :: bytes_of (ch_body chunk)) bodies)) =
  (length h + sum_list_with (λ chunk, S (length (bytes_of (ch_body chunk)))) bodies)%nat.
Proof.
  rewrite length_app. f_equal. induction bodies as [|c bodies IH]; [done|].
  cbn [map concat sum_list_with]. rewrite length_app, IH. simpl. lia.
Qed.

Lemma block_counts c :
  words (chunk_block c) = (words (bytes_of (ch_header c)) + words (bytes_of (ch_body c)))%nat ∧
  length (chunk_block c) =
    (length (bytes_of (ch_header c)) + S (length (bytes_of (ch_body c))))%nat.
Proof.
  unfold chunk_block. cbn [app]. split; [apply words_newline|]. by rewrite length_app.
Qed.

Lemma sum_list_with_le {A} (f g : A → nat) l :
  (∀ x, x ∈ l → (f x <= g x)%nat) → (sum_list_with f l <= sum_list_with g l)%nat.
Proof.
  induction l as [|x l IH]; intros H; simpl; [lia|].
  pose proof (H x ltac:(set_solver)). specialize (IH ltac:(set_solver)). lia.
Qed.

(** The chunks of a run are its first, those between, and its last. *)
Lemma run_chunks_ends start end_ :
  (start < end_ < length chunks)%nat → ∃ c0 cs c1,
  run_chunks chunks start end_ = c0 :: cs ++ [c1] ∧
  header chunks start = bytes_of (ch_header c0) ∧ header chunks end_ = bytes_of (ch_header c1).
Proof.
  intros [Hse He]. destruct (lookup_lt_is_Some_2 chunks start ltac:(lia)) as [c0 H0].
  destruct (lookup_lt_is_Some_2 chunks end_ He) as [c1 H1].
  exists c0, (take (end_ - S start) (drop (S start) chunks)), c1.
  unfold run_chunks, header. rewrite H0, H1. split_and!; [|done..].
  rewrite (drop_S _ _ _ H0). replace (S end_ - start)%nat with (S (S (end_ - S start))) by lia.
  cbn [take]. f_equal. apply take_S_r. rewrite lookup_drop. rewrite <-H1. f_equal. lia.
Qed.

Lemma run_block_single i c :
  chunks !! i = Some c → run_chunks chunks i i = [c] ∧ run_block chunks i i = chunk_block c.
Proof.
  intros Hc. assert (run_chunks chunks i i = [c]) as Hr.
  { unfold run_chunks. replace (S i - i)%nat with 1%nat by lia. by rewrite (drop_S _ _ _ Hc). }
  split; [done|]. unfold run_block, run_header, chunk_block, header. rewrite Nat.eqb_refl, Hr, Hc.
  simpl. by rewrite app_nil_r.
Qed.

(** A merged block reads as at most its chunks' blocks. *)
Lemma run_block_estimate start end_ :
  (start <= end_ < length chunks)%nat →
  token_estimate (run_block chunks start end_) <=
    estimates (map chunk_block (run_chunks chunks start end_)).
Proof.
  intros [Hse He]. destruct (Nat.eq_dec start end_) as [->|Hne].
  { destruct (lookup_lt_is_Some_2 chunks end_ He) as [c Hc].
    destruct (run_block_single end_ c Hc) as [-> ->]. unfold estimates. simpl. lia. }
  destruct (run_header_bounds start end_) as [Hw Hl]. specialize (Hl Hne).
  destruct (run_chunks_ends start end_ ltac:(lia)) as (c0 & cs & c1 & Hr & H0 & H1).
  apply token_estimate_sum; unfold run_block.
  - rewrite words_block, Hw, H0, Hr. cbn [map sum_list_with].
    destruct (block_counts c0) as [-> _].
    enough (sum_list_with (λ c, words (bytes_of (ch_body c))) (cs ++ [c1]) <=
      sum_list_with words (map chunk_block (cs ++ [c1])))%nat by lia.
    generalize (cs ++ [c1]). clear. intros l. induction l as [|c l IH]; simpl; [lia|].
    destruct (block_counts c) as [-> _]. lia.
  - rewrite length_block, Hr, map_cons, map_app. cbn [map sum_list_with].
    rewrite H0, H1 in Hl. rewrite !sum_list_with_app. cbn [sum_list_with].
    destruct (block_counts c0) as [_ ->], (block_counts c1) as [_ ->].
    enough (sum_list_with (λ c, S (length (bytes_of (ch_body c)))) cs <=
      sum_list_with length (map chunk_block cs))%nat by lia.
    clear. induction cs as [|c l IH]; simpl; [lia|].
    destruct (block_counts c) as [_ ->]. lia.
Qed.
End runs.

(** ** Charges *)

Lemma separated_sum l : l ≠ [] → separated (sum_N l) <= sum_N (map separated l).
Proof.
  intros Hne. destruct l as [|x l]; [done|]. clear Hne. revert x.
  induction l as [|y l IH]; intros x; unfold separated in *.
  { simpl. lia. }
  specialize (IH y). cbn [map sum_N foldr] in *. lia.
Qed.

Lemma sum_N_cons x l : sum_N (x :: l) = x + sum_N l.
Proof. done. Qed.

Lemma sum_N_app l k : sum_N (l ++ k) = sum_N l + sum_N k.
Proof. induction l as [|x l IH]; simpl; [done|]. rewrite IH. lia. Qed.

Section charges.
Context (chunks : list ContextualChunk).

Definition indices_cost (indices : list nat) : N :=
  sum_N (map (chunk_block_token_cost chunks) indices).

(** The indices of a run. *)
Definition run_indices (run : Span) : list nat := seq (fst run) (S (snd run) - fst run).

Lemma run_chunks_cost start n : (start + n <= length chunks)%nat →
  map (chunk_block_token_cost chunks) (seq start n) =
    map separated (map token_estimate (map chunk_block (take n (drop start chunks)))).
Proof.
  revert start. induction n as [|n IH]; intros start Hn; [done|].
  destruct (lookup_lt_is_Some_2 chunks start ltac:(lia)) as [c Hc].
  rewrite (drop_S _ _ _ Hc). cbn [seq take map]. f_equal; [|apply IH; lia].
  unfold chunk_block_token_cost. by rewrite Hc.
Qed.

Lemma run_cost_le run : (fst run <= snd run < length chunks)%nat →
  run_block_token_cost chunks run <= indices_cost (run_indices run).
Proof.
  intros Hr. unfold indices_cost, run_indices. rewrite run_chunks_cost by lia.
  destruct run as [start end_]. cbn [fst snd] in *. unfold run_block_token_cost. cbn [fst snd].
  pose proof (run_block_estimate chunks start end_ Hr) as He.
  unfold estimates in He. unfold run_chunks in He.
  etransitivity; [|apply separated_sum].
  - unfold separated in *. lia.
  - intros Hn%(f_equal length). rewrite !length_map, length_take, length_drop in Hn. simpl in Hn. lia.
Qed.

(** Runs are consecutive ranges of the selected indices. *)
Definition runs_of (indices : list nat) (runs : list Span) : Prop :=
  flat_map run_indices runs = indices ∧ Forall (λ run, (fst run <= snd run)%nat) runs.

Lemma push_run_spec merge indices runs index :
  runs_of indices runs → runs_of (indices ++ [index]) (push_run chunks merge runs index).
Proof.
  intros [Hf Hle]. unfold push_run.
  assert (runs_of (indices ++ [index]) (runs ++ [(index, index)])) as Hnew.
  { split.
    - rewrite flat_map_app, Hf. unfold run_indices. cbn [flat_map fst snd].
      by replace (S index - index)%nat with 1%nat by lia.
    - apply Forall_app. split; [done|]. apply Forall_singleton. simpl. lia. }
  destruct (rev runs) as [|[start end_] before] eqn:E.
  { assert (runs = []) as -> by (by rewrite <-(rev_involutive runs), E). done. }
  assert (runs = rev before ++ [(start, end_)]) as ->
    by (rewrite <-(rev_involutive runs), E; done).
  destruct (_ && _) eqn:Em; [|done].
  apply andb_true_iff in Em as [[_ Hi]%andb_true_iff _]. apply Nat.eqb_eq in Hi as ->.
  apply Forall_app in Hle as [Hb Hse]. pose proof (Forall_inv Hse) as Hle. cbn [fst snd] in Hle.
  rewrite flat_map_app in Hf. split.
  - rewrite flat_map_app, <-Hf, <-app_assoc. f_equal. unfold run_indices. cbn [flat_map fst snd].
    rewrite !app_nil_r. replace (S (S end_) - start)%nat with ((S end_ - start) + 1)%nat by lia.
    rewrite seq_app. repeat f_equal. simpl. f_equal. lia.
  - apply Forall_app. split; [done|]. apply Forall_singleton. simpl. lia.
Qed.

Lemma selected_runs_spec selected merge :
  runs_of (selected_indices chunks selected) (selected_runs chunks selected merge) ∧
  Forall (λ run, (fst run <= snd run < length chunks)%nat) (selected_runs chunks selected merge).
Proof.
  assert (runs_of (selected_indices chunks selected) (selected_runs chunks selected merge)) as H.
  { unfold selected_runs. induction (selected_indices chunks selected) as [|i l IH] using rev_ind.
    - by split.
    - rewrite foldl_app. by apply push_run_spec. }
  split; [done|]. destruct H as [Hf Hle]. rewrite Forall_forall in Hle |- *. intros run Hr.
  specialize (Hle run Hr). split; [done|].
  assert (snd run ∈ selected_indices chunks selected) as Hin.
  { rewrite <-Hf. apply list_elem_of_In, in_flat_map. exists run.
    split; [by apply list_elem_of_In|]. unfold run_indices. apply in_seq. lia. }
  apply elem_of_retain in Hin as [Hin _]. apply elem_of_seq in Hin. lia.
Qed.

Lemma runs_cost_le runs :
  Forall (λ run, (fst run <= snd run < length chunks)%nat) runs →
  sum_N (map (run_block_token_cost chunks) runs) <= indices_cost (flat_map run_indices runs).
Proof.
  induction 1 as [|run runs Hr _ IH]; unfold indices_cost in *; cbn [flat_map map]; [simpl; lia|].
  rewrite map_app, sum_N_app. pose proof (run_cost_le run Hr). unfold indices_cost in *. simpl. lia.
Qed.

(** The merged charge never exceeds the per-chunk sum. *)
Lemma selected_cost_le selected merge :
  selected_chunk_cost chunks selected merge <= indices_cost (selected_indices chunks selected).
Proof.
  destruct (selected_runs_spec selected merge) as [[Hf _] Hr].
  rewrite <-Hf. by apply runs_cost_le.
Qed.

(** All blocks together are a text of fewer than 2^64 - 1 bytes. *)
Definition fits_memory : Prop :=
  N.of_nat (sum_list_with (λ c, length (chunk_block c)) chunks) < u64_max.

Lemma sum_list_with_sublist {A} (f : A → nat) i n l :
  (sum_list_with f (take n (drop i l)) <= sum_list_with f l)%nat.
Proof.
  rewrite <-(take_drop i l) at 2. rewrite <-(take_drop n (drop i l)) at 2.
  rewrite !sum_list_with_app. lia.
Qed.

Lemma estimates_le_bytes l :
  estimates (map chunk_block l) <= N.of_nat (sum_list_with (λ c, length (chunk_block c)) l).
Proof.
  unfold estimates. induction l as [|c l IH]; [simpl; lia|].
  pose proof (token_estimate_bounds (chunk_block c)). cbn [map sum_list_with].
  rewrite sum_N_cons. lia.
Qed.

Lemma run_estimates_small start end_ : fits_memory →
  estimates (map chunk_block (run_chunks chunks start end_)) < u64_max.
Proof.
  intros Hm. eapply N.le_lt_trans; [apply estimates_le_bytes|]. unfold fits_memory in Hm.
  pose proof (sum_list_with_sublist (λ c, length (chunk_block c)) start (S end_ - start) chunks).
  unfold run_chunks. lia.
Qed.

(** A run of two or more is strictly cheaper than its chunks. *)
Lemma run_cost_lt run : fits_memory → (fst run < snd run < length chunks)%nat →
  run_block_token_cost chunks run < indices_cost (run_indices run).
Proof.
  intros Hm Hr. unfold indices_cost, run_indices. rewrite run_chunks_cost by lia.
  destruct run as [start end_]. cbn [fst snd] in *. unfold run_block_token_cost. cbn [fst snd].
  pose proof (run_block_estimate chunks start end_ ltac:(lia)) as He.
  pose proof (run_estimates_small start end_ Hm) as Hs. unfold estimates, run_chunks in He, Hs.
  set (l := map token_estimate _) in *.
  assert (2 <= length l)%nat as Hl.
  { unfold l. rewrite !length_map, length_take, length_drop. lia. }
  clearbody l. enough (sum_N l + N.of_nat (length l) <= sum_N (map separated l))
    by (unfold separated in *; lia).
  clear -Hs. revert Hs. induction l as [|x l IH]; [simpl; lia|].
  cbn [map length]. rewrite !sum_N_cons. intros Hs. specialize (IH ltac:(lia)).
  unfold separated at 1. lia.
Qed.

Lemma selected_cost_lt selected merge : fits_memory →
  Exists (λ run, (fst run < snd run)%nat) (selected_runs chunks selected merge) →
  selected_chunk_cost chunks selected merge < indices_cost (selected_indices chunks selected).
Proof.
  intros Hm He. destruct (selected_runs_spec selected merge) as [[Hf _] Hr]. rewrite <-Hf.
  unfold selected_chunk_cost. clear Hf. induction He as [run runs Hlt|run runs He IH];
    inversion Hr as [|? ? Hrun Hruns]; subst; unfold indices_cost in *; cbn [flat_map map];
    rewrite map_app, sum_N_app, sum_N_cons.
  - pose proof (run_cost_lt run Hm ltac:(lia)). pose proof (runs_cost_le runs Hruns).
    unfold indices_cost in *. lia.
  - pose proof (run_cost_le run Hrun). specialize (IH Hruns). unfold indices_cost in *. lia.
Qed.

(** The rendered text is within its charge. *)
Lemma join_blank_estimate blocks :
  token_estimate (join_blank blocks) <= sum_N (map (λ block, token_estimate block + 1) blocks).
Proof.
  apply token_estimate_le. induction blocks as [|block blocks [IH1 IH2]]; [by split|].
  destruct (token_estimate_bounds block) as (H1 & H2 & _).
  destruct blocks as [|next blocks]; [cbn [join_blank map]; rewrite sum_N_cons; lia|].
  change (join_blank (block :: next :: blocks))
    with (block ++ LF :: LF :: join_blank (next :: blocks)).
  revert IH1 IH2. generalize (join_blank (next :: blocks)). intros rest IH1 IH2.
  assert (words (LF :: rest) = words rest) as Hw by (apply (words_newline [] rest)).
  rewrite words_newline, Hw, length_app. cbn [map length] in *. rewrite !sum_N_cons in *. lia.
Qed.

Lemma emitted_estimate selected merge : fits_memory →
  token_estimate (emit_selected_chunks chunks selected merge) <=
    selected_chunk_cost chunks selected merge.
Proof.
  intros Hm. destruct (selected_runs_spec selected merge) as [_ Hr].
  unfold emit_selected_chunks, selected_chunk_cost.
  etransitivity; [apply join_blank_estimate|]. rewrite map_map.
  induction Hr as [|[s e] runs Hrun _ IH]; [simpl; lia|].
  cbn [map]. rewrite !sum_N_cons. cbn [fst snd] in *.
  pose proof (run_block_estimate chunks s e Hrun). pose proof (run_estimates_small s e Hm).
  unfold run_block_token_cost at 1, separated. cbn [fst snd]. lia.
Qed.
End charges.

(** ** The selection *)

Lemma sum_retain_set (f : nat → N) (p q : nat → bool) l i :
  NoDup l → i ∈ l → p i = false → q i = true → (∀ j, j ≠ i → q j = p j) →
  sum_N (map f (retain q l)) = sum_N (map f (retain p l)) + f i.
Proof.
  intros Hnd Hi Hp Hq Ho. induction Hnd as [|x l Hx Hnd IH]; [set_solver|].
  rewrite !retain_cons. apply elem_of_cons in Hi as [->|Hi].
  - rewrite Hp, Hq. cbn [map]. rewrite sum_N_cons.
    assert (retain q l = retain p l) as ->; [|lia].
    clear -Ho Hx. induction l as [|y l IH]; [done|].
    rewrite !retain_cons, Ho, IH by set_solver. done.
  - specialize (IH Hi). rewrite (Ho x) by set_solver.
    destruct (p x); cbn [map]; rewrite ?sum_N_cons; lia.
Qed.

Section selection.
Context (chunks : list ContextualChunk) (budget : N).

Notation n := (length chunks).
Notation cost := (chunk_block_token_cost chunks).
Notation selected_cost sel := (indices_cost chunks (selected_indices chunks sel)).

(** The mask has a place per chunk, the used tokens are the cost of what is
    selected and within the budget, and whatever was [seen] is selected or
    does not fit any more. *)
Record selection_ok (seen : list nat) (st : list bool * N) : Prop := {
  so_length : length (fst st) = n;
  so_used : snd st = selected_cost (fst st);
  so_budget : snd st <= budget;
  so_seen : ∀ i, i ∈ seen → (i < n)%nat →
    is_selected (fst st) i = true ∨ budget < snd st + cost i;
}.

Lemma is_selected_insert sel i j :
  (i < length sel)%nat → is_selected (<[i := true]> sel) j = bool_decide (j = i) || is_selected sel j.
Proof.
  intros Hi. unfold is_selected. case_bool_decide as Hj.
  - subst. by rewrite list_lookup_insert_eq.
  - by rewrite list_lookup_insert_ne.
Qed.

(** One offer of a chunk that is not selected yet. *)
Lemma select_if_fits_ok seen st i :
  selection_ok seen st → (i < n)%nat → is_selected (fst st) i = false →
  let '(st', fits) := select_if_fits chunks budget i st in
  selection_ok (i :: seen) st' ∧
  ∀ j, is_selected (fst st') j = (fits && bool_decide (j = i)) || is_selected (fst st) j.
Proof.
  intros [Hl Hu Hb Hs] Hi Hn. destruct st as [sel used]. cbn [fst snd] in *. unfold select_if_fits.
  destruct (N.leb_spec (used + cost i) budget) as [Hfit|Hfit].
  - assert (∀ j, is_selected (<[i := true]> sel) j = bool_decide (j = i) || is_selected sel j) as Hsel
      by (intros j; apply is_selected_insert; lia).
    split; [|done]. constructor; cbn [fst snd].
    + by rewrite length_insert.
    + rewrite Hu. symmetry. unfold indices_cost, selected_indices.
      apply sum_retain_set; [apply NoDup_seq | apply elem_of_seq; lia | done | |].
      * by rewrite Hsel, bool_decide_true.
      * intros j Hj. by rewrite Hsel, bool_decide_false.
    + done.
    + intros j [->|Hj]%elem_of_cons Hjn.
      * left. by rewrite Hsel, bool_decide_true.
      * rewrite Hsel. destruct (Hs j Hj Hjn) as [-> | ?]; [left; apply orb_true_r | right; lia].
  - split; [|done]. constructor; try done. cbn [fst snd].
    intros j [->|Hj]%elem_of_cons Hjn; [by right | by apply Hs].
Qed.

Lemma expand_step_ok seen st c :
  selection_ok seen st →
  let st' := expand_step chunks budget st c in
  selection_ok (match c with Some i => i :: seen | None => seen end) st' ∧
  ∀ j, is_selected (fst st) j = true → is_selected (fst st') j = true.
Proof.
  intros Hok. destruct c as [i|]; [|done]. cbn [expand_step].
  destruct (Nat.leb_spec n i) as [Hn|Hn]; cbn [orb].
  { split; [|done]. destruct Hok as [Hl Hu Hb Hs]. constructor; [done..|].
    intros j [->|Hj]%elem_of_cons Hjn; [lia | by apply Hs]. }
  destruct (is_selected (fst st) i) eqn:E.
  { split; [|done]. destruct Hok as [Hl Hu Hb Hs]. constructor; [done..|].
    intros j [->|Hj]%elem_of_cons Hjn; [by left | by apply Hs]. }
  pose proof (select_if_fits_ok seen st i Hok Hn E) as H.
  destruct (select_if_fits chunks budget i st) as [st' fits]. destruct H as [H Hsel].
  split; [done|]. intros j Hj. cbn [fst]. by rewrite Hsel, Hj, orb_true_r.
Qed.

Lemma expand_all_ok cs seen st :
  selection_ok seen st →
  let st' := foldl (expand_step chunks budget) st cs in
  selection_ok (omap id cs ++ seen) st' ∧
  ∀ j, is_selected (fst st) j = true → is_selected (fst st') j = true.
Proof.
  revert seen st. induction cs as [|c cs IH]; intros seen st Hok; [done|]. cbn [foldl].
  destruct (expand_step_ok seen st c Hok) as [Hok' Hmono].
  destruct (IH _ _ Hok') as [[Hl Hu Hb Hs] Hmono']. split; [|auto].
  constructor; [done..|]. intros j Hj. apply Hs. destruct c; cbn [omap list_omap id] in *; set_solver.
Qed.

(** Phase A: the anchors are what is selected. *)
Lemma anchors_ok matched :
  NoDup matched → Forall (λ i, (i < n)%nat) matched →
  let '(st, anchors) := foldl (anchor_step chunks budget) ((replicate n false, 0), []) matched in
  selection_ok matched st ∧ (∀ j, is_selected (fst st) j = true ↔ j ∈ anchors) ∧ anchors ⊆ matched.
Proof.
  intros Hnd Hlt. induction matched as [|i l IH] using rev_ind.
  - cbn [foldl]. assert (∀ j, is_selected (replicate n false) j = false) as Hn.
    { intros j. unfold is_selected. destruct (replicate n false !! j) eqn:E; [|done].
      by apply lookup_replicate in E as [-> _]. }
    split_and!; [|intros j; cbn [fst]; rewrite Hn; set_solver|set_solver].
    constructor; cbn [fst snd]; [by rewrite length_replicate| |lia|set_solver].
    unfold selected_indices, indices_cost. rewrite retain_none; [done|]. intros j _. apply Hn.
  - apply NoDup_app in Hnd as (Hnd & Hdis & _). apply Forall_app in Hlt as [Hlt Hi].
    pose proof (Forall_inv Hi) as Hi'. specialize (IH Hnd Hlt). rewrite foldl_app. cbn [foldl].
    destruct (foldl (anchor_step chunks budget) _ l) as [st anchors]. destruct IH as (Hok & Hsel & Hsub).
    unfold anchor_step. assert (is_selected (fst st) i = false) as Hn.
    { apply not_true_iff_false. rewrite Hsel. set_solver. }
    pose proof (select_if_fits_ok l st i Hok Hi' Hn) as H.
    destruct (select_if_fits chunks budget i st) as [st' fits]. destruct H as [[Hl Hu Hb Hs] Hsel'].
    split_and!.
    + constructor; [done..|]. intros j Hj. apply Hs. set_solver.
    + intros j. rewrite Hsel', orb_true_iff, andb_true_iff, bool_decide_eq_true, Hsel.
      destruct fits; set_solver.
    + destruct fits; set_solver.
Qed.

(** Phase B offers every chunk that is not an anchor. *)
Lemma sibling_candidates_all anchors a i :
  a ∈ anchors → (a < n)%nat → (i < n)%nat → i ≠ a →
  i ∈ omap id (sibling_candidates chunks anchors).
Proof.
  intros Ha Han Hi Hne. apply list_elem_of_omap. exists (Some i). split; [|done].
  unfold sibling_candidates. apply list_elem_of_In, in_flat_map.
  destruct (Nat.lt_ge_cases i a) as [Hlt|Hge].
  - exists (a - i)%nat. split; [apply in_seq; lia|]. apply in_flat_map. exists a.
    split; [by apply list_elem_of_In|]. left. unfold checked_sub.
    rewrite (proj2 (Nat.leb_le _ _)) by lia. f_equal. lia.
  - exists (i - a)%nat. split; [apply in_seq; lia|]. apply in_flat_map. exists a.
    split; [by apply list_elem_of_In|]. right. left. f_equal. lia.
Qed.

Lemma existsb_selected sel : existsb id sel = true ↔ ∃ i, is_selected sel i = true.
Proof.
  rewrite existsb_exists. split.
  - intros (b & Hb & Hid). apply list_elem_of_In, list_elem_of_lookup in Hb as [i Hi].
    exists i. unfold is_selected. by rewrite Hi.
  - intros [i Hi]. unfold is_selected in Hi. destruct (sel !! i) as [b|] eqn:E; [|done].
    exists b. split; [|done]. by eapply list_elem_of_In, list_elem_of_lookup_2.
Qed.

Lemma select_chunk_mask_spec query_tokens sel :
  select_chunk_mask chunks query_tokens budget = Some sel →
  length sel = n ∧ selected_cost sel <= budget ∧
  (∃ i, is_selected sel i = true ∧ f32_pos (chunk_score chunks query_tokens i) = true) ∧
  ∀ i, (i < n)%nat → is_selected sel i = false → budget < selected_cost sel + cost i.
Proof.
  unfold select_chunk_mask. destruct (is_empty chunks); [done|].
  destruct (is_empty (matched_chunks chunks query_tokens)) eqn:Em; [done|].
  assert (∀ i, i ∈ matched_chunks chunks query_tokens →
    (i < n)%nat ∧ f32_pos (chunk_score chunks query_tokens i) = true) as Hm.
  { intros i. unfold matched_chunks. rewrite elem_of_sort_by, elem_of_retain, elem_of_seq.
    intros [H ?]. split; [lia|done]. }
  assert (NoDup (matched_chunks chunks query_tokens)) as Hnd.
  { unfold matched_chunks. rewrite sort_by_perm. apply NoDup_retain, NoDup_seq. }
  pose proof (anchors_ok (matched_chunks chunks query_tokens) Hnd) as HA.
  rewrite Forall_forall in HA. specialize (HA (λ i Hi, proj1 (Hm i Hi))).
  destruct (foldl (anchor_step chunks budget) _ _) as [st anchors].
  destruct HA as (Hok & Hsel & Hsub). unfold expand_siblings.
  destruct (expand_all_ok (sibling_candidates chunks (sort_by Nat.leb anchors)) _ _ Hok)
    as [[Hl Hu Hb Hs] Hmono].
  destruct (foldl (expand_step chunks budget) st _) as [sel' used] eqn:Ef. cbn [fst snd] in *.
  destruct (existsb id sel') eqn:Ee; [|done]. intros [= <-].
  assert (∃ a, a ∈ anchors) as [a Ha].
  { destruct anchors as [|a l]; [|exists a; set_solver]. exfalso.
    cbn in Ef. assert (sibling_candidates chunks [] = []) as Hnil.
    { unfold sibling_candidates. by induction (seq _ _). }
    rewrite Hnil in Ef. cbn in Ef. subst st. apply existsb_selected in Ee as [i Hi].
    apply Hsel in Hi. set_solver. }
  split_and!.
  - done.
  - lia.
  - exists a. split; [by apply Hmono, Hsel|]. by apply Hm, Hsub.
  - intros i Hi Hni. rewrite <-Hu.
    destruct (Hs i) as [Hy|]; [|done|congruence|done].
    apply elem_of_app. left. apply (sibling_candidates_all _ a).
    + by apply elem_of_sort_by.
    + by apply Hm, Hsub.
    + done.
    + intros ->. rewrite (Hmono a) in Hni; [done|]. by apply Hsel.
Qed.
End selection.

(** ** The properties *)

(** The chunk selection is within its budget and maximal: a selection holds
    a chunk that matches the query, its blocks cost at most the budget, and
    every chunk left out would exceed it. *)
Theorem selection_is_maximal chunks budget query_tokens selected :
  select_chunk_mask chunks query_tokens budget = Some selected →
  let used := indices_cost chunks (selected_indices chunks selected) in
  length selected = length chunks ∧ used <= budget ∧
  (∃ i, is_selected selected i = true ∧ f32_pos (chunk_score chunks query_tokens i) = true) ∧
  ∀ i, (i < length chunks)%nat → is_selected selected i = false →
    budget < used + chunk_block_token_cost chunks i.
Proof. apply select_chunk_mask_spec. Qed.

(** A packed item fits its charge.  Rendered from chunks, the text's
    estimate is at most the charge, the charge at most the per-chunk costs the
    selection counted, and those at most the whole body's estimate, the
    request's budget and the cap; a merged run makes the charge strictly
    smaller.  Otherwise the item shows the whole body for its estimate. *)
Theorem packed_render_fits_charge chunks query_tokens body request_budget cap merge :
  fits_memory chunks →
  let budget := N.min (N.min (conservative_token_estimate body) request_budget)
                  (default u64_max cap) in
  match packed_render chunks query_tokens body request_budget cap merge with
  | (Some text, charged, Some selected) =>
      let used := indices_cost chunks (selected_indices chunks selected) in
      token_estimate text <= charged ∧ charged <= used ∧ used <= budget ∧
      (Exists (λ run, (fst run < snd run)%nat) (selected_runs chunks selected merge) →
       charged < used)
  | (None, charged, None) => charged = conservative_token_estimate body
  | _ => False
  end.
Proof.
  intros Hm budget. unfold packed_render. fold budget.
  destruct (select_chunk_mask chunks query_tokens budget) as [selected|] eqn:E; [|done].
  apply select_chunk_mask_spec in E as (_ & Hb & _). cbv zeta. split_and!.
  - by apply emitted_estimate.
  - apply selected_cost_le.
  - done.
  - by apply selected_cost_lt.
Qed.
