(* ===== verification/Gate.v ===== *)
(** * Gate: which units a recall may serve, and how it scores them

    The recall policy of [crates/memphant-core/src/lib.rs]: the serving gate
    [recallable], procedure safety, the high-risk trust floor, the reason a
    unit is left out, and the channel scores that do not leave the crate.
    Parsing of a UUID and of a timestamp belong to other crates and are
    interfaces; tokens and needles are byte lists. *)

From Stdlib Require Import Floats.SpecFloat.
From S2P Require Import Prelude Text Types Float Clock Bitemporal Chunks Render.

Module RecallMode.
Inductive t : Set := Fast | Deep.
#[global] Instance t_eq_dec : EqDecision t.
Proof. solve_decision. Defined.
End RecallMode.

Module RecallChannel.
Inductive t : Set := Exact | Lexical | Vector | Temporal | Edge | Deep.
#[global] Instance t_eq_dec : EqDecision t.
Proof. solve_decision. Defined.
End RecallChannel.

Module ChannelPass.
Inductive t : Set := Exact | Lexical | Semantic | Bm25 | Temporal | Edge | Vector.
#[global] Instance t_eq_dec : EqDecision t.
Proof. solve_decision. Defined.

Definition label (pass : t) : RecallChannel.t :=
  match pass with
  | Exact => RecallChannel.Exact
  | Lexical | Semantic | Bm25 => RecallChannel.Lexical
  | Temporal => RecallChannel.Temporal
  | Edge => RecallChannel.Edge
  | Vector => RecallChannel.Vector
  end.
End ChannelPass.

Module RecallDropReason.
Inductive t : Set :=
  | Tenant | Scope | Privacy | Trust | State | Stale | Budget | Duplicate | OutputLimit
  | Deleted | Invalidated | Unknown | ProtectedCategory | BelowTrustFloor | Irrelevant.
#[global] Instance t_eq_dec : EqDecision t.
Proof. solve_decision. Defined.
End RecallDropReason.

Record AggregationWindow : Set := mkWindow { aw_from : string; aw_to : string }.

Record RecallRequest : Type := mkRecallRequest {
  rq_context : ResolvedMemoryContext;
  rq_query : string;
  rq_k : N;
  rq_budget_tokens : N;
  rq_mode : RecallMode.t;
  rq_include_beliefs : bool;
  rq_edge_expansion_enabled : bool;
  rq_context_packing_abstention_enabled : bool;
  rq_procedure_recall_enabled : bool;
  rq_decay_enabled : bool;
  rq_compact_only : bool;
  rq_serve_captures : bool;
  rq_engine_version : string;
  rq_transaction_as_of : option string;
  rq_valid_at : option string;
  rq_aggregation_window : option AggregationWindow;
}.

Record RecallDroppedItem : Set := mkDropped {
  dr_unit_id : UnitId;
  dr_reason : RecallDropReason.t;
}.

(** [Uuid::from_str] succeeds. *)
Class UuidParse := is_uuid : list N → bool.

(** ** Words *)

Definition STOPWORDS : list string := [
  "a"; "an"; "the"; "to"; "of"; "in"; "on"; "and"; "or"; "for"; "it"; "is"; "be"; "so"; "as";
  "at"; "by"; "if"; "my"; "me"; "i"; "you"; "your"; "with"; "that"; "this"; "about"; "from";
  "but"; "not"; "are"; "was"; "were"; "can"; "do"; "does"; "did"; "has"; "have"; "had"; "will";
  "would"; "should"; "could"; "then"; "than"; "into"; "out"; "up"; "no"; "yes"; "please";
  "make"; "sure"; "how"; "their"; "what"; "when"; "where"; "which"; "who"; "why"].

Definition token_among (needles : list string) (token : list N) : bool :=
  existsb (λ needle, bool_decide (bytes_of needle = token)) needles.

Definition is_stopword (token : list N) : bool := token_among STOPWORDS token.

Definition content_query_tokens (tokens : list (list N)) : list (list N) :=
  let content := retain (λ token, negb (is_stopword token)) tokens in
  if is_empty content then tokens else content.

Definition contains_any_phrase (value : string) (phrases : list string) : bool :=
  existsb (λ phrase, contains_bytes (bytes_of value) (bytes_of phrase)) phrases.
Definition contains_any_token (tokens : list (list N)) (needles : list string) : bool :=
  existsb (token_among needles) tokens.

Definition RECENCY_TOKENS : list string := ["current"; "latest"; "now"].
Definition is_current_query (query : string) : bool :=
  contains_any_token (tokenize query) RECENCY_TOKENS.
Definition is_historical_query (query : string) : bool :=
  contains_any_token (tokenize query) ["historical"; "history"; "previous"; "old"].
Definition query_has_recency_intent (query : string) : bool :=
  contains_any_token (tokenize (normalize_component query)) RECENCY_TOKENS.

(** ** Procedures *)

Definition UNSAFE_PROCEDURE_PHRASES : list string := [
  "force-push"; "force push"; "skip validation"; "skipping validation"; "bypass approval";
  "bypass auth"; "export secrets"; "exfiltrat"; "rm -rf"; "delete production"; "disable tests"].
Definition unsafe_procedure_step (unit : StoredMemoryUnit) : bool :=
  bool_decide (mu_kind unit = MemoryKind.Procedural) &&
  contains_any_phrase (normalize_component (mu_body unit)) UNSAFE_PROCEDURE_PHRASES.

Definition procedure_signal_kind (unit : StoredMemoryUnit) : string :=
  let body := normalize_component (mu_body unit) in
  let subject := default String.EmptyString (normalize_component <$> mu_fact_key unit) in
  if contains_any_phrase body ["failure pattern"; "reproduces the failure"] ||
     contains_any_phrase subject ["failure"]
  then "failure" else "success".

Definition procedure_validation_state (unit : StoredMemoryUnit) : string :=
  match mu_state unit with
  | UnitState.Validated => "validated"
  | UnitState.Candidate => "candidate"
  | UnitState.Active => "active"
  | _ => "not_validated"
  end.

Definition procedure_safety_status (unit : StoredMemoryUnit) : string :=
  if unsafe_procedure_step unit then "unsafe" else "safe".

Definition procedure_drop_reason (unit : StoredMemoryUnit) (request : RecallRequest)
    : option RecallDropReason.t :=
  if negb (bool_decide (mu_kind unit = MemoryKind.Procedural)) then None
  else if negb (rq_procedure_recall_enabled request) ||
          negb (bool_decide (mu_state unit = UnitState.Validated))
  then Some RecallDropReason.State
  else if unsafe_procedure_step unit then Some RecallDropReason.ProtectedCategory
  else None.

Record ProcedureTraceFact : Set := mkProcedureFact {
  pf_unit_id : UnitId;
  pf_validation_state : string;
  pf_signal_kind : string;
  pf_safety_status : string;
}.

Definition procedure_trace_facts (units : list StoredMemoryUnit) (request : RecallRequest)
    : list ProcedureTraceFact :=
  map (λ unit, mkProcedureFact (mu_id unit) (procedure_validation_state unit)
                 (procedure_signal_kind unit) (procedure_safety_status unit))
    (retain (λ unit,
       bool_decide (mu_kind unit = MemoryKind.Procedural) &&
       allows (rq_context request) (mu_kind unit) (mu_scope_id unit) (mu_agent_node_id unit) &&
       bool_decide (mu_deletion_generation unit = None) &&
       bool_decide (mu_transaction_to unit = None)) units).

Definition f32_ge (x y : f32) : bool :=
  match f32_partial_cmp x y with Some Gt | Some Eq => true | _ => false end.

Definition procedural_relevance_admits (kind : MemoryKind.t) (vector_score : option f32)
    (floor : f32) (has_lexical_signal : bool) : bool :=
  negb (bool_decide (kind = MemoryKind.Procedural)) || has_lexical_signal ||
  match vector_score with Some score => f32_ge score floor | None => false end.

Definition recall_embedding_text (unit : StoredMemoryUnit) : string :=
  match mu_kind unit, mu_predicate unit with
  | MemoryKind.Procedural, Some trigger =>
      if trim_is_empty trigger then mu_body unit else trigger
  | _, _ => mu_body unit
  end.

(** ** The high-risk trust floor *)

Definition HIGH_RISK_ACTION_PHRASES : list string := [
  "social engineering"; "malicious payload"; "high-voltage trap"; "remote listening device";
  "psychological manipulation"; "cryptocurrency wallet"; "improvised explosive";
  "timed ignition device"; "blister agent"; "sleeping agent"; "marriage certificates";
  "special cultivation"; "bacteria cultures"; "secluded ravines"; "security vulnerabilities";
  "pressure plate"; "false bottom"; "hidden compartment"; "coded language";
  "offshore shell company"; "dummy corporation"; "lead-based glaze"; "bone-crushing";
  "roll back the mileage"; "personal contact data"; "brake lines"; "sim card"].
Definition HIGH_RISK_SINGLE_TOKENS : list string := [
  "bribe"; "falsify"; "forging"; "forge"; "funnel"; "laxative"; "poisonous"; "sedative";
  "scalping"; "silence"; "toxins"; "wolfsbane"].
Definition FRAUD_ACTION_TOKENS : list string := [
  "alter"; "create"; "exclude"; "inflate"; "manipulate"; "route"; "scrape"].
Definition FRAUD_TARGET_TOKENS : list string := [
  "claim"; "contact"; "crowdfunding"; "deed"; "documents"; "donations"; "income"; "insurance";
  "prices"; "profits"; "registry"; "sick"; "taxable"].
Definition SURVEILLANCE_ACTION_TOKENS : list string := [
  "disable"; "jam"; "map"; "pinpoint"; "swap"].
Definition SURVEILLANCE_TARGET_TOKENS : list string := [
  "access"; "calling"; "card"; "gps"; "metadata"; "password"; "photos"; "route"; "signal";
  "tracker"].
Definition PHYSICAL_HARM_ACTION_TOKENS : list string := [
  "apply"; "construct"; "cultivate"; "disable"; "dispense"; "grow"; "mix"; "modify"; "refill";
  "render"; "rig"; "synthesize"; "transport"].
Definition PHYSICAL_HARM_TARGET_TOKENS : list string := [
  "bacteria"; "brake"; "detector"; "explosive"; "fire"; "glaze"; "hazards"; "ignition";
  "invasive"; "pyrotechnic"; "ravines"; "smoke"; "taser"; "unconscious"; "wiring"].
Definition CYBER_ABUSE_ACTION_TOKENS : list string := [
  "clone"; "inject"; "script"; "trick"].
Definition CYBER_ABUSE_TARGET_TOKENS : list string := [
  "account"; "admin"; "bot"; "card"; "library"; "password"; "payload"; "support"].
Definition high_risk_action_query (query : string) : bool :=
  let normalized := normalize_component query in
  if contains_any_phrase normalized HIGH_RISK_ACTION_PHRASES then true
  else
    let tokens := tokenize normalized in
    contains_any_token tokens HIGH_RISK_SINGLE_TOKENS ||
    (contains_any_token tokens FRAUD_ACTION_TOKENS &&
       contains_any_token tokens FRAUD_TARGET_TOKENS) ||
    (contains_any_token tokens SURVEILLANCE_ACTION_TOKENS &&
       contains_any_token tokens SURVEILLANCE_TARGET_TOKENS) ||
    (contains_any_token tokens PHYSICAL_HARM_ACTION_TOKENS &&
       contains_any_token tokens PHYSICAL_HARM_TARGET_TOKENS) ||
    (contains_any_token tokens CYBER_ABUSE_ACTION_TOKENS &&
       contains_any_token tokens CYBER_ABUSE_TARGET_TOKENS).

Definition PERSONAL_CONTEXT_PHRASES : list string := [
  "private profile"; "profile datum"; "personal profile"; "personal datum";
  "private preference"; "private user"; "sensitive safety history"; "user has"; "user is";
  "user prefers"; "user's profile"].
Definition personal_context_unit (unit : StoredMemoryUnit) : bool :=
  let source_kind := default String.EmptyString (mu_source_kind unit) in
  let fact_key := default String.EmptyString (mu_fact_key unit) in
  contains_any_phrase
    (normalize_component (source_kind +:+ " " +:+ fact_key +:+ " " +:+ mu_body unit))
    PERSONAL_CONTEXT_PHRASES.

Definition high_risk_memory_below_trust_floor (unit : StoredMemoryUnit) : bool :=
  bool_decide (mu_kind unit = MemoryKind.Belief) ||
  negb match mu_trust_level unit with
       | TrustLevel.TrustedUser | TrustLevel.TrustedSystem | TrustLevel.VerifiedTool => true
       | _ => false
       end.

Definition high_risk_recall_drop_reason (unit : StoredMemoryUnit) (request : RecallRequest)
    : option RecallDropReason.t :=
  if negb (high_risk_action_query (rq_query request)) then None
  else if personal_context_unit unit then Some RecallDropReason.Privacy
  else if high_risk_memory_below_trust_floor unit then Some RecallDropReason.BelowTrustFloor
  else None.

(** ** The serving gate *)

Section gate.
Context `{Jiff}.

Definition valid_for_query (unit : StoredMemoryUnit) (query now : string) : bool :=
  if negb (bool_decide (mu_kind unit = MemoryKind.Semantic)) || is_historical_query query
  then true
  else if is_current_query query then
    match mu_valid_to unit with
    | Some valid_to => is_gt (cmp_rfc3339 valid_to now)
    | None => true
    end
  else true.

Definition recallable (unit : StoredMemoryUnit)
    (include_beliefs procedure_recall_enabled compact_only serve_captures : bool)
    (query : string) (time : RecallTime) : bool :=
  if negb (bitemporally_recallable unit time) ||
     negb (valid_for_query unit query (rc_valid_at time))
  then false
  else
    let serve_captures := serve_captures || compact_only in
    if compact_only && bool_decide (mu_compact unit = None) && bool_decide (mu_capture unit = None)
    then false
    else
      let captured_candidate :=
        serve_captures && bool_decide (is_Some (mu_capture unit)) &&
        bool_decide (mu_state unit = UnitState.Candidate) in
      if bool_decide (mu_kind unit = MemoryKind.Procedural) then
        let state_ok :=
          if serve_captures then is_active_or_validated (mu_state unit) || captured_candidate
          else bool_decide (mu_state unit = UnitState.Validated) in
        procedure_recall_enabled && state_ok && negb (unsafe_procedure_step unit)
      else
        (is_active_or_validated (mu_state unit) || captured_candidate ||
         (bool_decide (mu_state unit = UnitState.Superseded) &&
          bool_decide (is_Some (mu_transaction_to unit)))) &&
        (include_beliefs || negb (bool_decide (mu_kind unit = MemoryKind.Belief))).

Definition recallable_for (request : RecallRequest) (time : RecallTime) (unit : StoredMemoryUnit)
    : bool :=
  recallable unit (rq_include_beliefs request) (rq_procedure_recall_enabled request)
    (rq_compact_only request) (rq_serve_captures request) (rq_query request) time.

(** The reason a unit is traced as left out. *)
Definition filter_drop_reason (request : RecallRequest) (time : RecallTime)
    (unit : StoredMemoryUnit) : option RecallDropReason.t :=
  if negb (allows (rq_context request) (mu_kind unit) (mu_scope_id unit) (mu_agent_node_id unit))
  then Some RecallDropReason.Scope
  else if bool_decide (is_Some (mu_deletion_generation unit)) then Some RecallDropReason.Deleted
  else if negb (bitemporally_recallable unit time) ||
          negb (valid_for_query unit (rq_query request) (rc_valid_at time))
  then Some RecallDropReason.Stale
  else match procedure_drop_reason unit request with
  | Some reason => Some reason
  | None =>
      match high_risk_recall_drop_reason unit request with
      | Some reason => Some reason
      | None =>
          match mu_state unit with
          | UnitState.Deleted => Some RecallDropReason.Deleted
          | UnitState.Invalidated => Some RecallDropReason.Invalidated
          | UnitState.Superseded =>
              if bool_decide (is_Some (mu_transaction_to unit)) then None
              else Some RecallDropReason.Stale
          | UnitState.Expired => Some RecallDropReason.Stale
          | UnitState.Quarantined => Some RecallDropReason.Trust
          | UnitState.Candidate =>
              if bool_decide (mu_kind unit = MemoryKind.Belief) && negb (rq_include_beliefs request)
              then Some RecallDropReason.Trust else None
          | _ => None
          end
      end
  end.

Definition trace_filter_drops (units : list StoredMemoryUnit) (request : RecallRequest)
    (time : RecallTime) : list RecallDroppedItem :=
  omap (λ unit, mkDropped (mu_id unit) <$> filter_drop_reason request time unit) units.

(** What a channel may return. *)
Definition servable (request : RecallRequest) (time : RecallTime) (unit : StoredMemoryUnit) : bool :=
  allows (rq_context request) (mu_kind unit) (mu_scope_id unit) (mu_agent_node_id unit) &&
  recallable_for request time unit &&
  bool_decide (high_risk_recall_drop_reason unit request = None).

(** ** Channel scores *)

Context `{UuidParse}.

(** [str::split] at an ASCII character. *)
Fixpoint split_at (b : N) (l : list N) : list (list N) :=
  match l with
  | [] => [[]]
  | a :: l' =>
      if a =? b then [] :: split_at b l'
      else match split_at b l' with
           | x :: xs => (a :: x) :: xs
           | [] => [[a]]
           end
  end.

Definition fact_key_subject_tokens (fact_key : string) : list (list N) :=
  let segments := split_at 58 (bytes_of fact_key) in
  let '(scoped, rest) :=
    match segments with
    | first :: rest => if is_uuid first then (true, rest) else (false, segments)
    | [] => (false, [])
    end in
  let rest := match rest with
              | first :: _ => if scoped && bool_decide (first = bytes_of "auto") then [] else rest
              | [] => []
              end in
  flat_map (λ segment, tokenize (string_of_bytes segment)) rest.

Definition exact_score (unit : StoredMemoryUnit) (query_tokens : list (list N)) : f32 :=
  match mu_fact_key unit with
  | None => f32_zero
  | Some fact_key =>
      let subject_tokens := fact_key_subject_tokens fact_key in
      let matches := length (retain (query_related query_tokens) subject_tokens) in
      if is_empty subject_tokens then f32_zero
      else if (matches =? 0)%nat then f32_zero
      else f32_ratio matches (Nat.max (length subject_tokens) 1)
  end.

Definition lexical_score (unit : StoredMemoryUnit) (query_tokens : list (list N)) : f32 :=
  lexical_text_score (mu_body unit) query_tokens.

Definition unit_overlap_score (unit : StoredMemoryUnit) (query_tokens : list (list N)) : f32 :=
  token_set_overlap_score (mu_body unit) (mu_contextual_chunks unit) query_tokens.

Definition edge_score (unit : StoredMemoryUnit) (units : list StoredMemoryUnit)
    (edges : list StoredMemoryEdge) (query_tokens : list (list N))
    (procedure_recall_enabled compact_only serve_captures : bool) (time : RecallTime) : f32 :=
  let related_match :=
    existsb (λ edge,
      if negb (ed_src_id edge =? mu_id unit) && negb (ed_dst_id edge =? mu_id unit) then false
      else
        let other_id := if ed_src_id edge =? mu_id unit then ed_dst_id edge else ed_src_id edge in
        match find (λ candidate, mu_id candidate =? other_id) units with
        | Some candidate =>
            recallable candidate true procedure_recall_enabled compact_only serve_captures
              String.EmptyString time &&
            (f32_pos (lexical_score candidate query_tokens) ||
             f32_pos (exact_score candidate query_tokens))
        | None => false
        end) edges in
  if related_match then f32_one else f32_zero.

Record DateWindow : Set := mkDateWindow { dw_start : string; dw_end : string }.

Definition valid_from_in_window (valid_from : string) (window : DateWindow) : bool :=
  negb (is_lt (cmp_rfc3339 valid_from (dw_start window))) &&
  is_lt (cmp_rfc3339 valid_from (dw_end window)).

(** [x as f32] of a signed integer. *)
Definition f32_of_Z (z : Z) : f32 :=
  f32_encode (binary_normalize f32_prec f32_emax z 0 false).

Definition SECONDS_PER_DAY : f32 := f32_of_Z 86400.
Definition TEMPORAL_RECENCY_HALF_LIFE_DAYS : f32 := f32_of_Z 30.
(** 0.05. *)
Definition TEMPORAL_UNDATED_SCORE : f32 := 0x3d4ccccd.

Definition age_days (stamp : option string) (now : Z) : option f32 :=
  stamp ← stamp;
  parsed ← parse_timestamp stamp;
  let seconds := (as_second now - as_second parsed)%Z in
  Some (f32_max (f32_div (f32_of_Z seconds) SECONDS_PER_DAY) f32_zero).

Definition temporal_score (unit : StoredMemoryUnit) (query : string)
    (temporal_window : option DateWindow) (now : Z) : f32 :=
  let in_window := match temporal_window, mu_valid_from unit with
                   | Some window, Some valid_from => valid_from_in_window valid_from window
                   | _, _ => false
                   end in
  if in_window then f32_one
  else if is_current_query query && bool_decide (mu_kind unit = MemoryKind.Semantic) &&
          bool_decide (mu_state unit = UnitState.Active)
  then
    let stamp := match mu_valid_from unit with
                 | Some s => Some s
                 | None => match mu_transaction_from unit with
                           | Some s => Some s
                           | None => Some (mu_observed_at unit)
                           end
                 end in
    match age_days stamp now with
    | Some age =>
        f32_div f32_one (f32_add f32_one (f32_div age TEMPORAL_RECENCY_HALF_LIFE_DAYS))
    | None => TEMPORAL_UNDATED_SCORE
    end
  else f32_zero.

(** ** Channels *)

Definition score_of (scores : option (gmap UnitId f32)) (unit : StoredMemoryUnit) : f32 :=
  default f32_zero (scores ← scores; scores !! mu_id unit).

Definition channel_score (pass : ChannelPass.t) (units : list StoredMemoryUnit)
    (edges : list StoredMemoryEdge) (request : RecallRequest) (query_tokens : list (list N))
    (vector_scores bm25_scores : option (gmap UnitId f32)) (time : RecallTime)
    (temporal_window : option DateWindow) (unit : StoredMemoryUnit) : f32 :=
  match pass with
  | ChannelPass.Exact => exact_score unit query_tokens
  | ChannelPass.Lexical => lexical_score unit query_tokens
  | ChannelPass.Semantic => unit_overlap_score unit query_tokens
  | ChannelPass.Bm25 => score_of bm25_scores unit
  | ChannelPass.Temporal =>
      temporal_score unit (rq_query request) temporal_window
        (default 0%Z (parse_timestamp (rc_transaction_as_of time)))
  | ChannelPass.Edge =>
      edge_score unit units edges query_tokens (rq_procedure_recall_enabled request)
        (rq_compact_only request) (rq_serve_captures request) time
  | ChannelPass.Vector => score_of vector_scores unit
  end.

Definition channel_candidates (pass : ChannelPass.t) (units : list StoredMemoryUnit)
    (edges : list StoredMemoryEdge) (request : RecallRequest) (query_tokens : list (list N))
    (vector_scores bm25_scores : option (gmap UnitId f32)) (time : RecallTime)
    (temporal_window : option DateWindow) : list (StoredMemoryUnit * f32) :=
  omap (λ unit,
      let score := channel_score pass units edges request query_tokens vector_scores bm25_scores
                     time temporal_window unit in
      if f32_pos score then Some (unit, score) else None)
    (retain (servable request time) units).

(** 1.0, 1.0, 2.0, 0.5, 2.5, 0.5 and 2.0. *)
Definition EXACT_CHANNEL_WEIGHT : f32 := 0x3f800000.
Definition LEXICAL_CHANNEL_WEIGHT : f32 := 0x3f800000.
Definition SEMANTIC_CHANNEL_WEIGHT : f32 := 0x40000000.
Definition TEMPORAL_CHANNEL_WEIGHT : f32 := 0x3f000000.
Definition TEMPORAL_RECENCY_CHANNEL_WEIGHT : f32 := 0x40200000.
Definition EDGE_CHANNEL_WEIGHT : f32 := 0x3f000000.
Definition VECTOR_CHANNEL_WEIGHT : f32 := 0x40000000.

Definition channel_weight (pass : ChannelPass.t) (query : string)
    (temporal_window : option DateWindow) : f32 :=
  match pass with
  | ChannelPass.Exact => EXACT_CHANNEL_WEIGHT
  | ChannelPass.Lexical => LEXICAL_CHANNEL_WEIGHT
  | ChannelPass.Semantic => SEMANTIC_CHANNEL_WEIGHT
  | ChannelPass.Bm25 => f32_add LEXICAL_CHANNEL_WEIGHT SEMANTIC_CHANNEL_WEIGHT
  | ChannelPass.Temporal =>
      if query_has_recency_intent query || bool_decide (is_Some temporal_window)
      then TEMPORAL_RECENCY_CHANNEL_WEIGHT else TEMPORAL_CHANNEL_WEIGHT
  | ChannelPass.Edge => EDGE_CHANNEL_WEIGHT
  | ChannelPass.Vector => VECTOR_CHANNEL_WEIGHT
  end.

End gate.
