(* ===== verification/Pack.v ===== *)
(** * Pack: filling the context of a recall

    The packing stage of [crates/memphant-core/src/lib.rs]: fused candidates in
    a governed order are admitted one by one under an item limit and a token
    budget, with subject deduplication, near-duplicate collapse, the weak
    dense tail cut, budget-driven replacement and a session quota; partially
    rendered items then complete themselves from what is left of the budget.
    The optional submodular ordering computes in [f64], here the
    specification floats of the Standard Library (53 bits, exponent bound
    1024).  The accumulator keeps the parallel vectors of the code. *)

From Stdlib Require Import Floats.SpecFloat.
From S2P Require Import Prelude Text Types Float Clock Bitemporal Lineage Chunks Render Gate.

(** ** Candidates *)

Record DecayScore : Set := mkDecay {
  dc_retrievability : f32;
  dc_reinforcement_count : N;
}.

Record CandidateAccumulator : Set := mkCandidate {
  ca_unit : StoredMemoryUnit;
  ca_fused_score : f32;
  ca_vector_strength : option f32;
  ca_deep_rank : option N;
  ca_cross_rerank_rank : option N;
  ca_decay : DecayScore;
  ca_channels : list (RecallChannel.t * N * f32);
}.
#[export] Instance CandidateAccumulator_eta : Eta CandidateAccumulator := λ r,
  mkCandidate (ca_unit r) (ca_fused_score r) (ca_vector_strength r) (ca_deep_rank r)
    (ca_cross_rerank_rank r) (ca_decay r) (ca_channels r).

Definition ca_id (candidate : CandidateAccumulator) : UnitId := mu_id (ca_unit candidate).

Definition is_authoritative_projection (unit : StoredMemoryUnit) : bool :=
  bool_decide (mu_source_kind unit = Some "quantity_rollup") ||
  bool_decide (mu_source_kind unit = Some "artifact_bundle").

(** 0.5, 0.1 and infinity. *)
Definition PACK_GAP_RATIO : f32 := 0x3f000000.
Definition MIN_STRENGTH_RANGE : f32 := 0x3dcccccd.
Definition f32_infinity : f32 := 0x7f800000.

Definition f32_lt (x y : f32) : bool :=
  match f32_partial_cmp x y with Some Lt => true | _ => false end.

Definition min_max_strength (score : f32) (range : f32 * f32) : f32 :=
  let '(min, max) := range in
  if f32_lt (f32_sub max min) MIN_STRENGTH_RANGE then f32_one
  else f32_div (f32_sub score min) (f32_sub max min).

Definition in_weak_dense_tail (candidate : CandidateAccumulator) : bool :=
  bool_decide (ca_deep_rank candidate = None) &&
  negb (is_authoritative_projection (ca_unit candidate)) &&
  forallb (λ '(channel, _, _), bool_decide (channel = RecallChannel.Vector))
    (ca_channels candidate) &&
  match ca_vector_strength candidate with
  | Some strength => f32_lt strength PACK_GAP_RATIO
  | None => false
  end.

Definition has_contradiction_with_any (unit_id : UnitId) (seen_ids : list UnitId)
    (tenant_edges : list StoredMemoryEdge) : bool :=
  existsb (λ seen_id,
    existsb (λ edge,
      bool_decide (ed_kind edge = MemoryEdgeKind.Contradicts) &&
      ((ed_src_id edge =? unit_id) && (ed_dst_id edge =? seen_id) ||
       (ed_src_id edge =? seen_id) && (ed_dst_id edge =? unit_id))) tenant_edges) seen_ids.

Definition suppression_labels_for (unit : StoredMemoryUnit) (edges : list StoredMemoryEdge)
    (live_candidate_ids : list UnitId) : list string :=
  (if existsb (λ edge,
        bool_decide (ed_kind edge = MemoryEdgeKind.Contradicts) &&
        ((ed_src_id edge =? mu_id unit) && bool_decide (ed_dst_id edge ∈ live_candidate_ids) ||
         (ed_dst_id edge =? mu_id unit) && bool_decide (ed_src_id edge ∈ live_candidate_ids)))
        edges
   then ["unresolved_contradiction"] else []) ++
  (if bool_decide (mu_kind unit = MemoryKind.Procedural) &&
      bool_decide (procedure_signal_kind unit = "failure")
   then ["avoid_failed_procedure"] else []).

(** ** The items of a recall *)

Record CorrectionHandle : Set := mkHandle {
  hd_unit_id : UnitId;
  hd_subject_generation : N;
  hd_fact_key : option string;
  hd_valid_from : option string;
  hd_valid_to : option string;
  hd_source_span : option string;
  hd_episode_id : option EpisodeId;
}.

Definition for_unit (unit : StoredMemoryUnit) : CorrectionHandle := {|
  hd_unit_id := mu_id unit;
  hd_subject_generation := mu_subject_generation unit;
  hd_fact_key := mu_fact_key unit;
  hd_valid_from := mu_valid_from unit;
  hd_valid_to := mu_valid_to unit;
  hd_source_span := covering_source_span (mu_contextual_chunks unit);
  hd_episode_id := mu_source_episode_id unit;
|}.

Record RecallContextItem : Set := mkContextItem {
  it_unit_id : UnitId;
  it_body : string;
  it_kind : MemoryKind.t;
  it_derived_by : string;
  it_inclusion_reason : string;
  it_citation_episode_id : option EpisodeId;
  it_citation_resource_id : option ResourceId;
  it_derived_from_unit_ids : list UnitId;
  it_suppression_labels : list string;
  it_correction : option CorrectionHandle;
}.
#[export] Instance RecallContextItem_eta : Eta RecallContextItem := λ r,
  mkContextItem (it_unit_id r) (it_body r) (it_kind r) (it_derived_by r) (it_inclusion_reason r)
    (it_citation_episode_id r) (it_citation_resource_id r) (it_derived_from_unit_ids r)
    (it_suppression_labels r) (it_correction r).

Definition inclusion_reason (unit : StoredMemoryUnit) (query_tokens : list (list N)) : string :=
  if bool_decide (is_Some (mu_capture unit)) then
    if bool_decide (mu_state unit = UnitState.Candidate) then "captured_unconfirmed"
    else "captured_confirmed"
  else if bool_decide (mu_kind unit = MemoryKind.Procedural) then
    if bool_decide (procedure_signal_kind unit = "failure") then "validated_failure_pattern"
    else "validated_procedure"
  else if f32_pos (contextual_chunk_score (mu_contextual_chunks unit) query_tokens)
  then "contextual_chunk" else "fused_top_k".

Definition context_item_for (candidate : CandidateAccumulator)
    (tenant_edges : list StoredMemoryEdge) (live_candidate_ids : list UnitId)
    (query_tokens : list (list N)) (rendered_body : option (list N)) : RecallContextItem :=
  let unit := ca_unit candidate in {|
    it_unit_id := mu_id unit;
    it_body := match rendered_body with
               | Some text => string_of_bytes text
               | None => mu_body unit
               end;
    it_kind := mu_kind unit;
    it_derived_by := derived_by_for_unit unit;
    it_inclusion_reason := inclusion_reason unit query_tokens;
    it_citation_episode_id := mu_source_episode_id unit;
    it_citation_resource_id := mu_source_resource_id unit;
    it_derived_from_unit_ids := [];
    it_suppression_labels := suppression_labels_for unit tenant_edges live_candidate_ids;
    it_correction := Some (for_unit unit);
  |}.

(** ** [f64] *)

Definition f64_of_N (n : N) : spec_float := binary_normalize 53 1024 (Z.of_N n) 0 false.
Definition f64_of_f32 (x : f32) : spec_float :=
  match f32_decode x with
  | S754_finite s m e => binary_normalize 53 1024 (cond_Zopp s (Z.pos m)) e s
  | y => y
  end.
Definition f64_add : spec_float → spec_float → spec_float := SFadd 53 1024.
Definition f64_sub : spec_float → spec_float → spec_float := SFsub 53 1024.
Definition f64_mul : spec_float → spec_float → spec_float := SFmul 53 1024.
Definition f64_div : spec_float → spec_float → spec_float := SFdiv 53 1024.
Definition f64_sqrt : spec_float → spec_float := SFsqrt 53 1024.
Definition f64_zero : spec_float := S754_zero false.
Definition f64_one : spec_float := f64_of_N 1.
Definition f64_is_nan (x : spec_float) : bool := match x with S754_nan => true | _ => false end.
Definition f64_max (x y : spec_float) : spec_float :=
  if f64_is_nan x then y else match SFcompare x y with Some Lt => y | _ => x end.
Definition f64_min (x y : spec_float) : spec_float :=
  if f64_is_nan x then y else match SFcompare x y with Some Gt => y | _ => x end.
Definition f64_gt (x y : spec_float) : bool :=
  match SFcompare x y with Some Gt => true | _ => false end.
Definition f64_ge (x y : spec_float) : bool :=
  match SFcompare x y with Some Gt | Some Eq => true | _ => false end.
Definition f64_is_negative (x : spec_float) : bool :=
  match x with S754_zero s | S754_infinity s | S754_finite s _ _ => s | S754_nan => false end.

(** [f64::total_cmp]; a NaN result is the canonical, positive one. *)
Definition f64_total_cmp (x y : spec_float) : comparison :=
  match SFcompare x y with
  | Some Eq => match f64_is_negative x, f64_is_negative y with
               | true, false => Lt
               | false, true => Gt
               | _, _ => Eq
               end
  | Some c => c
  | None => match f64_is_nan x, f64_is_nan y with
            | true, true => Eq
            | true, false => Gt
            | _, _ => Lt
            end
  end.
Definition f64_sum (l : list spec_float) : spec_float := foldl f64_add (S754_zero true) l.

(** 2{^-52}, and the nearest [f64] to 0.8. *)
Definition f64_EPSILON : spec_float := S754_finite false 4503599627370496 (-104).
Definition NEAR_DUPLICATE_JACCARD : spec_float := S754_finite false 7205759403792794 (-53).

Notation Terms := (gset (list N)) (only parsing).

Definition content_terms (terms : list (list N)) : Terms :=
  list_to_set (retain (λ term, (3 <=? length term)%nat && negb (is_stopword term)) terms).

Definition jaccard (left right : Terms) : spec_float :=
  if (size left =? 0)%nat && (size right =? 0)%nat then f64_one
  else
    let intersection := size (left ∩ right) in
    let union := (size left + size right - intersection)%nat in
    f64_div (f64_of_N (N.of_nat intersection)) (f64_of_N (N.of_nat (Nat.max union 1))).

(** ** Restatements *)

Definition NEGATION_MARKERS : list string :=
  ["not"; "no"; "never"; "don"; "doesn"; "cannot"; "avoid"; "without"; "instead"].

Record Restatement : Type := mkRestatement {
  rs_terms : Terms;
  rs_markers : Terms;
  rs_observed_at : string;
}.

Definition then_cmp (c d : comparison) : comparison := match c with Eq => d | _ => c end.

Section pack.
Context `{Jiff} `{UuidParse}.

(** [head.parse::<civil::Date>()] printed back. *)
Class CivilDate := civil_date : list N → option (list N).
Context `{CivilDate} `{HashOrder}.

Definition restatement_of (unit : StoredMemoryUnit) : option Restatement :=
  fact_key ← mu_fact_key unit;
  if is_empty (fact_key_subject_tokens fact_key) then None
  else
    let tokens := tokenize (mu_body unit) in
    Some {|
      rs_markers := list_to_set
        (retain (λ token, token_among NEGATION_MARKERS token || existsb is_digit token) tokens);
      rs_terms := list_to_set (retain (λ token, negb (is_stopword token)) tokens);
      rs_observed_at := mu_observed_at unit;
    |}.

Definition restates (self other : Restatement) : bool :=
  negb (bool_decide (rs_terms self = ∅)) && bool_decide (rs_markers self = rs_markers other) &&
  f64_ge (jaccard (rs_terms self) (rs_terms other)) NEAR_DUPLICATE_JACCARD.

(** ** The accumulator *)

Record ChunkCompletion : Set := mkCompletion {
  cc_chunks : list ContextualChunk;
  cc_whole_body : string;
}.

Record PackLevers : Set := mkLevers {
  lv_session_quota : option N;
  lv_pack_render_cap : option N;
  lv_merge_chunk_blocks : bool;
  lv_submodular_ordering_enabled : bool;
}.

Record PackCtx : Type := mkPackCtx {
  px_request : RecallRequest;
  px_tenant_edges : list StoredMemoryEdge;
  px_query_tokens : list (list N);
  px_output_limit : N;
  px_temporal_grounding_enabled : bool;
  px_live_candidate_ids : list UnitId;
  px_pack_render_cap : option N;
  px_merge_chunk_blocks : bool;
}.

Record Admission : Type := mkAdmission {
  ad_candidate : CandidateAccumulator;
  ad_rendered_body : option (list N);
  ad_unit_tokens : N;
  ad_candidate_score : f32;
  ad_chunk_mask : option (list bool);
  ad_episode_id : option EpisodeId;
  ad_restatement : option Restatement;
}.

Record PackAccumulator : Type := mkPack {
  pa_items : list RecallContextItem;
  pa_token_counts : list N;
  pa_relevance_scores : list f32;
  pa_episode_ids : list (option EpisodeId);
  pa_completions : list (option ChunkCompletion);
  pa_date_prefixes : list (option (list N));
  pa_restatements : list (option Restatement);
  pa_token_estimate : N;
  pa_episode_counts : gmap N N;
  pa_gap_cut : N;
}.
#[export] Instance PackAccumulator_eta : Eta PackAccumulator := λ r,
  mkPack (pa_items r) (pa_token_counts r) (pa_relevance_scores r) (pa_episode_ids r)
    (pa_completions r) (pa_date_prefixes r) (pa_restatements r) (pa_token_estimate r)
    (pa_episode_counts r) (pa_gap_cut r).

Definition empty_pack : PackAccumulator := mkPack [] [] [] [] [] [] [] 0 ∅ 0.

(** [Vec::remove] at a valid index, from every vector. *)
Definition evict (index : nat) (acc : PackAccumulator) : PackAccumulator :=
  let tokens := default 0 (pa_token_counts acc !! index) in
  let episode := default None (pa_episode_ids acc !! index) in
  {|
    pa_items := delete index (pa_items acc);
    pa_token_counts := delete index (pa_token_counts acc);
    pa_relevance_scores := delete index (pa_relevance_scores acc);
    pa_episode_ids := delete index (pa_episode_ids acc);
    pa_completions := delete index (pa_completions acc);
    pa_date_prefixes := delete index (pa_date_prefixes acc);
    pa_restatements := delete index (pa_restatements acc);
    pa_token_estimate := pa_token_estimate acc - tokens;
    pa_episode_counts :=
      match episode with
      | Some episode_id => alter (λ count, count - 1) episode_id (pa_episode_counts acc)
      | None => pa_episode_counts acc
      end;
    pa_gap_cut := pa_gap_cut acc;
  |}.

(** The unit id [evict] returns. *)
Definition evicted_id (index : nat) (acc : PackAccumulator) : UnitId :=
  default 0 (it_unit_id <$> (pa_items acc !! index)).

Definition date_prefix_from_valid_from (valid_from : string) : option (list N) :=
  head ← get_slice (bytes_of valid_from) 0 10;
  civil_date head.

Definition admit_new (ctx : PackCtx) (admission : Admission) (acc : PackAccumulator)
    : PackAccumulator :=
  let unit := ca_unit (ad_candidate admission) in
  let completion :=
    match ad_chunk_mask admission, px_pack_render_cap ctx with
    | Some selected, None =>
        if existsb negb selected
        then Some (mkCompletion (mu_contextual_chunks unit) (mu_body unit)) else None
    | _, _ => None
    end in
  let date_prefix := if px_temporal_grounding_enabled ctx
                     then valid_from ← mu_valid_from unit; date_prefix_from_valid_from valid_from
                     else None in
  {|
    pa_items := pa_items acc ++
      [context_item_for (ad_candidate admission) (px_tenant_edges ctx) (px_live_candidate_ids ctx)
         (px_query_tokens ctx) (ad_rendered_body admission)];
    pa_token_counts := pa_token_counts acc ++ [ad_unit_tokens admission];
    pa_relevance_scores := pa_relevance_scores acc ++ [ad_candidate_score admission];
    pa_episode_ids := pa_episode_ids acc ++ [ad_episode_id admission];
    pa_completions := pa_completions acc ++ [completion];
    pa_date_prefixes := pa_date_prefixes acc ++ [date_prefix];
    pa_restatements := pa_restatements acc ++ [ad_restatement admission];
    pa_token_estimate := pa_token_estimate acc + ad_unit_tokens admission;
    pa_episode_counts :=
      match ad_episode_id admission with
      | Some episode_id =>
          <[episode_id := default 0 (pa_episode_counts acc !! episode_id) + 1]>
            (pa_episode_counts acc)
      | None => pa_episode_counts acc
      end;
    pa_gap_cut := pa_gap_cut acc;
  |}.

Definition packing_relevance_score (candidate : CandidateAccumulator)
    (query_tokens : list (list N)) : f32 :=
  let unit := ca_unit candidate in
  f32_add (f32_add (f32_add (f32_add (ca_fused_score candidate) (exact_score unit query_tokens))
    (lexical_score unit query_tokens)) (unit_overlap_score unit query_tokens))
    (dc_retrievability (ca_decay candidate)).

(** [Iterator::min_by]: the first minimum. *)
Fixpoint min_by {A} (cmp : A → A → comparison) (best : A) (l : list A) : A :=
  match l with
  | [] => best
  | x :: l => min_by cmp (match cmp best x with Gt => x | _ => best end) l
  end.
(** [Iterator::max_by]: the last maximum. *)
Fixpoint max_by {A} (cmp : A → A → comparison) (best : A) (l : list A) : A :=
  match l with
  | [] => best
  | x :: l => max_by cmp (match cmp best x with Gt => best | _ => x end) l
  end.

Definition replacement_index (packed_token_counts : list N) (packed_relevance_scores : list f32)
    (token_estimate candidate_tokens : N) (candidate_score : f32) (budget_tokens : N)
    : option nat :=
  match retain (λ '(index, score),
            f32_lt score candidate_score &&
            (token_estimate - default 0 (packed_token_counts !! index) + candidate_tokens
               <=? budget_tokens))
          (imap pair packed_relevance_scores) with
  | [] => None
  | first :: rest =>
      Some (fst (min_by (λ l r, f32_cmp_or_equal (snd l) (snd r)) first rest))
  end.

(** ** Admission *)

Record PackState : Type := mkPackState {
  ps_acc : PackAccumulator;
  ps_seen_subjects : gmap string (list UnitId);
  ps_dropped : list RecallDroppedItem;
}.
#[export] Instance PackState_eta : Eta PackState := λ r,
  mkPackState (ps_acc r) (ps_seen_subjects r) (ps_dropped r).

Definition drop_item (unit_id : UnitId) (reason : RecallDropReason.t) (st : PackState) : PackState :=
  st <| ps_dropped ::= λ dropped, dropped ++ [mkDropped unit_id reason] |>.

(** The subject deduplication: [None] when the candidate is a duplicate. *)
Definition subject_dedup (ctx : PackCtx) (candidate : CandidateAccumulator) (st : PackState)
    : option PackState :=
  match mu_fact_key (ca_unit candidate) with
  | Some fact_key =>
      let dedup_key := normalize_component fact_key in
      if rq_context_packing_abstention_enabled (px_request ctx) &&
         negb (bool_decide (dedup_key = String.EmptyString))
      then
        let seen_ids := default [] (ps_seen_subjects st !! dedup_key) in
        if negb (is_empty seen_ids) &&
           negb (has_contradiction_with_any (ca_id candidate) seen_ids (px_tenant_edges ctx))
        then None
        else Some (st <| ps_seen_subjects ::= <[dedup_key := seen_ids ++ [ca_id candidate]]> |>)
      else Some st
  | None => Some st
  end.

(** [Iterator::position]. *)
Fixpoint position {A} (p : A → bool) (l : list A) : option nat :=
  match l with
  | [] => None
  | x :: l => if p x then Some 0%nat else S <$> position p l
  end.

(** The admitted item a candidate restates. *)
Definition restated_index (ctx : PackCtx) (acc : PackAccumulator)
    (candidate : CandidateAccumulator) (restatement : option Restatement) : option nat :=
  restatement ← restatement;
  if rq_context_packing_abstention_enabled (px_request ctx) then
    index ← position (λ seen, match seen with
                              | Some seen => restates seen restatement
                              | None => false
                              end) (pa_restatements acc);
    if has_contradiction_with_any (ca_id candidate) [evicted_id index acc] (px_tenant_edges ctx)
    then None else Some index
  else None.

(** The end of [admit_or_drop]: the item limit, the budget, replacement. *)
Definition admit_within (ctx : PackCtx) (admission : Admission) (st : PackState) : PackState :=
  let request := px_request ctx in
  let acc := ps_acc st in
  let candidate_id := ca_id (ad_candidate admission) in
  let unit_tokens := ad_unit_tokens admission in
  if px_output_limit ctx <=? N.of_nat (length (pa_items acc))
  then drop_item candidate_id RecallDropReason.OutputLimit st
  else if rq_budget_tokens request <? pa_token_estimate acc + unit_tokens then
    match (if rq_context_packing_abstention_enabled request
           then replacement_index (pa_token_counts acc) (pa_relevance_scores acc)
                  (pa_token_estimate acc) unit_tokens (ad_candidate_score admission)
                  (rq_budget_tokens request)
           else None) with
    | Some replace_index =>
        let st := drop_item (evicted_id replace_index acc) RecallDropReason.Budget st in
        st <| ps_acc := admit_new ctx admission (evict replace_index acc) |>
    | None => drop_item candidate_id RecallDropReason.Budget st
    end
  else st <| ps_acc := admit_new ctx admission acc |>.

Definition admission_of (ctx : PackCtx) (candidate : CandidateAccumulator)
    (restatement : option Restatement) : Admission :=
  let unit := ca_unit candidate in
  let '(rendered_body, unit_tokens, chunk_mask) :=
    packed_render (mu_contextual_chunks unit) (px_query_tokens ctx) (mu_body unit)
      (rq_budget_tokens (px_request ctx)) (px_pack_render_cap ctx) (px_merge_chunk_blocks ctx) in
  {|
    ad_candidate := candidate;
    ad_rendered_body := rendered_body;
    ad_unit_tokens := unit_tokens;
    ad_candidate_score := if is_authoritative_projection unit then f32_infinity
                          else packing_relevance_score candidate (px_query_tokens ctx);
    ad_chunk_mask := chunk_mask;
    ad_episode_id := mu_source_episode_id unit;
    ad_restatement := restatement;
  |}.

Definition is_newer (restatement seen : Restatement) : bool :=
  is_gt (cmp_rfc3339 (rs_observed_at restatement) (rs_observed_at seen)).

Definition admit_or_drop (ctx : PackCtx) (st : PackState) (candidate : CandidateAccumulator)
    : PackState :=
  match subject_dedup ctx candidate st with
  | None => drop_item (ca_id candidate) RecallDropReason.Duplicate st
  | Some st =>
      let acc := ps_acc st in
      let restatement := restatement_of (ca_unit candidate) in
      let restated := restated_index ctx acc candidate restatement in
      if rq_context_packing_abstention_enabled (px_request ctx) &&
         bool_decide (restated = None) && in_weak_dense_tail candidate
      then drop_item (ca_id candidate) RecallDropReason.Budget
             (st <| ps_acc ::= λ acc, acc <| pa_gap_cut ::= N.succ |> |>)
      else
        let admission := admission_of ctx candidate restatement in
        match restated, restatement, restated ≫= λ index, pa_restatements acc !! index with
        | Some index, Some restatement, Some (Some seen) =>
            let fits_in_its_place :=
              pa_token_estimate acc - default 0 (pa_token_counts acc !! index) +
                ad_unit_tokens admission <=? rq_budget_tokens (px_request ctx) in
            if is_newer restatement seen && fits_in_its_place
            then
              let st := drop_item (evicted_id index acc) RecallDropReason.Duplicate
                          (st <| ps_acc := evict index acc |>) in
              if evicted_id index acc =? ca_id candidate then st
              else admit_within ctx admission st
            else drop_item (ca_id candidate) RecallDropReason.Duplicate st
        | _, _, _ => admit_within ctx admission st
        end
  end.

(** The greedy fill: a candidate of a session at its quota is deferred. *)
Definition fill_step (ctx : PackCtx) (session_quota : option N)
    (st : PackState * list CandidateAccumulator) (candidate : CandidateAccumulator)
    : PackState * list CandidateAccumulator :=
  let '(st, deferred) := st in
  let at_quota :=
    match session_quota, mu_source_episode_id (ca_unit candidate) with
    | Some cap, Some episode_id =>
        cap <=? default 0 (pa_episode_counts (ps_acc st) !! episode_id)
    | _, _ => false
    end in
  if at_quota then (st, deferred ++ [candidate]) else (admit_or_drop ctx st candidate, deferred).

Definition fill (ctx : PackCtx) (session_quota : option N)
    (candidates : list CandidateAccumulator) (dropped_items : list RecallDroppedItem) : PackState :=
  let '(st, deferred) :=
    foldl (fill_step ctx session_quota) (mkPackState empty_pack ∅ dropped_items, []) candidates in
  foldl (admit_or_drop ctx) st deferred.

(** ** Completion *)

(** [Vec<bool>] of [true], and [saturating_sub], which [N]'s minus is. *)
Definition complete_item (budget_tokens : N) (merge : bool) (acc : PackAccumulator) (index : nat)
    : PackAccumulator :=
  match pa_completions acc !! index with
  | Some (Some state) =>
      let acc := acc <| pa_completions ::= <[index := None]> |> in
      let charged := default 0 (pa_token_counts acc !! index) in
      let leftover := budget_tokens - pa_token_estimate acc in
      let all_chunks := replicate (length (cc_chunks state)) true in
      let full_coverage := selected_chunk_cost (cc_chunks state) all_chunks merge in
      let whole_cost := conservative_token_estimate (cc_whole_body state) in
      let complete_with (body : string) (cost : N) :=
        acc <| pa_items ::= alter (λ item, item <| it_body := body |>) index |>
            <| pa_token_estimate ::= λ t, t + (cost - charged) |>
            <| pa_token_counts ::= <[index := N.max charged cost]> |> in
      if full_coverage - charged <=? leftover
      then complete_with
             (string_of_bytes (emit_selected_chunks (cc_chunks state) all_chunks merge)) full_coverage
      else if whole_cost - charged <=? leftover
      then complete_with (cc_whole_body state) whole_cost
      else acc
  | _ => acc
  end.

Definition chunk_completion_pass (budget_tokens : N) (merge : bool) (acc : PackAccumulator)
    : PackAccumulator :=
  foldl (complete_item budget_tokens merge) acc (seq 0 (length (pa_items acc))).

Definition dated (item : RecallContextItem) (prefix : option (list N)) : RecallContextItem :=
  match prefix with
  | Some date =>
      item <| it_body := "[date " +:+ string_of_bytes date +:+ "]" +:+
                           string_of_bytes [LF] +:+ it_body item |>
  | None => item
  end.

(** ** The order of the pack *)

Definition packing_density_score (candidate : CandidateAccumulator) : f32 :=
  f32_div (ca_fused_score candidate)
    (f32_of_N (N.max (conservative_token_estimate (mu_body (ca_unit candidate))) 1)).

(** [unwrap_or(usize::MAX)]. *)
Definition rank_or_max (rank : option N) : N := default u64_max rank.

Definition pack_cmp (left right : CandidateAccumulator) : comparison :=
  let by_score := f32_cmp_or_equal (ca_fused_score right) (ca_fused_score left) in
  let by_body := str_cmp (mu_body (ca_unit left)) (mu_body (ca_unit right)) in
  if bool_decide (is_Some (ca_deep_rank left)) || bool_decide (is_Some (ca_deep_rank right)) then
    then_cmp (rank_or_max (ca_deep_rank left) ?= rank_or_max (ca_deep_rank right))
      (ca_id left ?= ca_id right)
  else if bool_decide (is_Some (ca_cross_rerank_rank left)) ||
          bool_decide (is_Some (ca_cross_rerank_rank right)) then
    then_cmp (rank_or_max (ca_cross_rerank_rank left) ?= rank_or_max (ca_cross_rerank_rank right))
      (then_cmp by_score by_body)
  else
    then_cmp by_score
      (then_cmp (f32_cmp_or_equal (packing_density_score right) (packing_density_score left))
         by_body).

(** Stable sorting by a comparison. *)
Definition sort_by_cmp {A} (cmp : A → A → comparison) : list A → list A :=
  sort_by (λ l r, match cmp l r with Gt => false | _ => true end).

Definition pack_class (candidate : CandidateAccumulator) : N :=
  if bool_decide (is_Some (ca_deep_rank candidate)) then 0
  else if is_authoritative_projection (ca_unit candidate) then 1 else 2.

Definition governed_order (request : RecallRequest) (fused : list CandidateAccumulator)
    : list CandidateAccumulator :=
  let fused := if rq_context_packing_abstention_enabled request
               then sort_by_cmp pack_cmp fused else fused in
  sort_by (λ l r, pack_class l <=? pack_class r) fused.

Definition recall_pack_scan_limit (request : RecallRequest) (candidate_count : nat)
    (levers : PackLevers) (recall_pool_depth : N) : N :=
  let candidate_count := N.of_nat candidate_count in
  let output_limit := N.max (rq_k request) 1 in
  let pool_floor := N.max recall_pool_depth output_limit in
  let saturating_mul a b := N.min u64_max (a * b) in
  let scan_limit :=
    match rq_mode request with
    | RecallMode.Deep =>
        N.max (N.min candidate_count (N.max (saturating_mul pool_floor 25) 25)) output_limit
    | RecallMode.Fast => N.max (N.min pool_floor candidate_count) 1
    end in
  match lv_session_quota levers with
  | Some _ => N.max scan_limit (saturating_mul pool_floor 2)
  | None => scan_limit
  end.

(** ** Submodular ordering *)

Record SubmodularPackCandidate : Type := mkSubmodular {
  sm_original_index : nat;
  sm_unit_id : UnitId;
  sm_source_id : Uuid;
  sm_relevance : spec_float;
  sm_cost : N;
  sm_terms : Terms;
}.

Definition add_mass (mass : gmap N spec_float) (candidate : SubmodularPackCandidate)
    : gmap N spec_float :=
  <[sm_source_id candidate :=
      f64_add (default f64_zero (mass !! sm_source_id candidate)) (sm_relevance candidate)]> mass.

Definition mass_diversity (mass : gmap N spec_float) : spec_float :=
  f64_sum (map (λ '(_, m), f64_sqrt m) (map_iter mass)).

(** 0.3, 0.4 and 0.5, the nearest [f64]s. *)
Definition ALPHA : spec_float := S754_finite false 5404319552844595 (-54).
Definition w_repr : spec_float := S754_finite false 7205759403792794 (-54).
Definition w_cover : spec_float := S754_finite false 4503599627370496 (-53).
Definition w_diversity : spec_float := ALPHA.

(** The items of [l] the mask selects. *)
Definition masked {A} (l : list A) (selected : list bool) : list A :=
  map fst (retain snd (zip l selected)).

Section objective.
Context (metadata : list SubmodularPackCandidate) (query_terms : Terms).

Definition similarities : list (list spec_float) :=
  map (λ left, map (λ right, jaccard (sm_terms left) (sm_terms right)) metadata) metadata.
Definition relevance_total : spec_float := f64_max (f64_sum (map sm_relevance metadata)) f64_EPSILON.
Definition repr_caps : list spec_float := map (λ row, f64_mul ALPHA (f64_sum row)) similarities.
Definition repr_total : spec_float := f64_max (f64_sum repr_caps) f64_EPSILON.
Definition diversity_total : spec_float :=
  f64_max (mass_diversity (foldl add_mass ∅ metadata)) f64_EPSILON.

Definition submodular_objective (selected : list bool) : spec_float :=
  let chosen := masked metadata selected in
  let relevance := f64_div (f64_sum (map sm_relevance chosen)) relevance_total in
  let covered_query_terms := foldl (λ covered c, covered ∪ (sm_terms c ∩ query_terms)) ∅ chosen in
  let source_mass := foldl add_mass ∅ chosen in
  let query_coverage :=
    if (size query_terms =? 0)%nat then f64_zero
    else f64_div (f64_of_N (N.of_nat (size covered_query_terms)))
           (f64_of_N (N.of_nat (size query_terms))) in
  let representativeness :=
    f64_div
      (f64_sum (zip_with (λ row cap, f64_min (f64_sum (masked row selected)) cap)
                  similarities repr_caps)) repr_total in
  let diversity := f64_div (mass_diversity source_mass) diversity_total in
  f64_add (f64_add (f64_add relevance (f64_mul w_cover query_coverage))
             (f64_mul w_repr representativeness)) (f64_mul w_diversity diversity).

(** The candidate of the best gain per token among those that fit. *)
Definition improves (best : option (nat * spec_float * spec_float))
    (index : nat) (candidate : SubmodularPackCandidate) (ratio gain : spec_float) : bool :=
  match best with
  | None => true
  | Some (best_index, best_ratio, best_gain) =>
      match metadata !! best_index with
      | Some best_candidate =>
          bool_decide (then_cmp (f64_total_cmp ratio best_ratio)
            (then_cmp (f64_total_cmp gain best_gain)
            (then_cmp (f64_total_cmp (sm_relevance candidate) (sm_relevance best_candidate))
            (then_cmp (sm_cost best_candidate ?= sm_cost candidate)
               (sm_unit_id best_candidate ?= sm_unit_id candidate)))) = Gt)
      | None => true
      end
  end.

Definition scan_step (available_budget used : N) (current : spec_float) (selected : list bool)
    (best : option (nat * spec_float * spec_float)) (entry : nat * SubmodularPackCandidate)
    : option (nat * spec_float * spec_float) :=
  let '(index, candidate) := entry in
  if is_selected selected index || (available_budget <? N.min u64_max (used + sm_cost candidate))
  then best
  else
    let next := submodular_objective (<[index := true]> selected) in
    let gain := f64_max (f64_sub next current) f64_zero in
    let ratio := f64_div gain (f64_of_N (sm_cost candidate)) in
    if improves best index candidate ratio gain then Some (index, ratio, gain) else best.

(** At most one round per slot left. *)
Fixpoint greedy (slots : nat) (available_budget used : N) (current : spec_float)
    (selected : list bool) (selected_order : list nat) : list nat * spec_float :=
  match slots with
  | 0%nat => (selected_order, current)
  | S slots =>
      match foldl (scan_step available_budget used current selected) None
              (imap pair metadata) with
      | None => (selected_order, current)
      | Some (index, _, gain) =>
          if negb (f64_gt gain f64_EPSILON) then (selected_order, current)
          else
            let selected := <[index := true]> selected in
            let cost := match metadata !! index with Some c => sm_cost c | None => 0 end in
            greedy slots available_budget (used + cost) (submodular_objective selected) selected
              (selected_order ++ [index])
      end
  end.

Definition singleton_cmp (l r : nat * spec_float * SubmodularPackCandidate) : comparison :=
  let '(_, l_score, l) := l in
  let '(_, r_score, r) := r in
  then_cmp (f64_total_cmp l_score r_score)
  (then_cmp (f64_total_cmp (sm_relevance l) (sm_relevance r))
  (then_cmp (sm_cost r ?= sm_cost l) (sm_unit_id r ?= sm_unit_id l))).

Definition best_singleton (available_budget : N) : option (nat * spec_float) :=
  match omap (λ '(index, candidate),
            if sm_cost candidate <=? available_budget
            then Some (index,
                   submodular_objective (<[index := true]> (replicate (length metadata) false)),
                   candidate)
            else None) (imap pair metadata) with
  | [] => None
  | first :: rest =>
      let '(index, score, _) := max_by singleton_cmp first rest in Some (index, score)
  end.

Definition submodular_selection (available_budget : N) (available_slots : nat) : list nat :=
  let none := replicate (length metadata) false in
  let '(selected_order, current) :=
    greedy available_slots available_budget 0 (submodular_objective none) none [] in
  match best_singleton available_budget with
  | Some (index, score) => if f64_gt score current then [index] else selected_order
  | None => selected_order
  end.
End objective.

(** [reorder_candidates]: every index is taken once. *)
Definition reorder_candidates (candidates : list CandidateAccumulator) (order : list nat)
    : list CandidateAccumulator :=
  omap (λ index, candidates !! index) order.

(** [order], then the candidates it does not name. *)
Definition complete_order (count : nat) (order : list nat) : list nat :=
  order ++ retain (λ index, negb (bool_decide (index ∈ order))) (seq 0 count).

Definition submodular_metadata (candidates : list CandidateAccumulator) (request : RecallRequest)
    (query_tokens : list (list N)) (render_cap : option N) (merge_chunk_blocks : bool)
    : list SubmodularPackCandidate :=
  omap (λ '(original_index, candidate),
      let unit := ca_unit candidate in
      if is_authoritative_projection unit then None
      else
        let '(rendered, cost, _) :=
          packed_render (mu_contextual_chunks unit) query_tokens (mu_body unit)
            (rq_budget_tokens request) render_cap merge_chunk_blocks in
        let text := match rendered with
                    | Some text => string_of_bytes text
                    | None => mu_body unit
                    end in
        Some {|
          sm_original_index := original_index;
          sm_unit_id := mu_id unit;
          sm_source_id := default (mu_id unit) (mu_source_episode_id unit);
          sm_relevance :=
            f64_of_f32 (f32_max (packing_relevance_score candidate query_tokens) f32_zero);
          sm_cost := N.max cost 1;
          sm_terms := content_terms (tokenize text) |}) (imap pair candidates).

Definition protected_indices (candidates : list CandidateAccumulator) : list nat :=
  map fst (retain (λ '(_, candidate), is_authoritative_projection (ca_unit candidate))
    (imap pair candidates)).

Definition submodular_order (candidates : list CandidateAccumulator) (request : RecallRequest)
    (query_tokens : list (list N)) (render_cap : option N) (merge_chunk_blocks : bool)
    : list nat :=
  let protected := protected_indices candidates in
  let protected_cost := sum_N (omap (λ index,
      candidate ← candidates !! index;
      Some (snd (fst (packed_render (mu_contextual_chunks (ca_unit candidate)) query_tokens
        (mu_body (ca_unit candidate)) (rq_budget_tokens request) render_cap merge_chunk_blocks))))
    protected) in
  let available_budget := rq_budget_tokens request - protected_cost in
  let available_slots := N.max (rq_k request) 1 - N.of_nat (length protected) in
  let metadata :=
    submodular_metadata candidates request query_tokens render_cap merge_chunk_blocks in
  if is_empty metadata || (available_budget =? 0) || (available_slots =? 0)
  then complete_order (length candidates) protected
  else
    let selected_order :=
      submodular_selection metadata (content_terms query_tokens) available_budget
        (N.to_nat (N.min available_slots (N.of_nat (length metadata)))) in
    complete_order (length candidates)
      (protected ++ omap (λ index, sm_original_index <$> metadata !! index) selected_order).

Definition submodular_pack_order (candidates : list CandidateAccumulator)
    (request : RecallRequest) (query_tokens : list (list N)) (render_cap : option N)
    (merge_chunk_blocks : bool) : list CandidateAccumulator :=
  reorder_candidates candidates
    (submodular_order candidates request query_tokens render_cap merge_chunk_blocks).

(** ** Packing *)

Record PackedRecallContext : Type := mkPacked {
  pk_items : list RecallContextItem;
  pk_dropped_items : list RecallDroppedItem;
  pk_token_estimate : N;
  pk_abstention : bool;
  pk_gap_cut : N;
}.

Definition pack_ctx (fused : list CandidateAccumulator) (request : RecallRequest)
    (tenant_edges : list StoredMemoryEdge) (query_tokens : list (list N))
    (levers : PackLevers) (temporal_grounding_enabled : bool) : PackCtx := {|
  px_request := request;
  px_tenant_edges := tenant_edges;
  px_query_tokens := query_tokens;
  px_output_limit := N.max (rq_k request) 1;
  px_temporal_grounding_enabled := temporal_grounding_enabled;
  px_live_candidate_ids := map ca_id fused;
  px_pack_render_cap := lv_pack_render_cap levers;
  px_merge_chunk_blocks := lv_merge_chunk_blocks levers;
|}.

Definition pack_order (fused : list CandidateAccumulator) (request : RecallRequest)
    (query_tokens : list (list N)) (levers : PackLevers) : list CandidateAccumulator :=
  let fused := governed_order request fused in
  if rq_context_packing_abstention_enabled request && lv_submodular_ordering_enabled levers
  then submodular_pack_order fused request query_tokens (lv_pack_render_cap levers)
         (lv_merge_chunk_blocks levers)
  else fused.

(** The accumulator and the drops before dates are prefixed. *)
Definition packed_state (fused : list CandidateAccumulator) (request : RecallRequest)
    (tenant_edges : list StoredMemoryEdge) (query_tokens : list (list N))
    (dropped_items : list RecallDroppedItem) (scan_limit : N) (levers : PackLevers)
    (temporal_grounding_enabled : bool) : PackState :=
  let ctx := pack_ctx fused request tenant_edges query_tokens levers temporal_grounding_enabled in
  let fused := pack_order fused request query_tokens levers in
  let scanned := take (N.to_nat (N.min scan_limit (N.of_nat (length fused)))) fused in
  fill ctx (lv_session_quota levers) scanned dropped_items
    <| ps_acc ::= chunk_completion_pass (rq_budget_tokens request) (lv_merge_chunk_blocks levers) |>.

Definition pack_recall_context (fused : list CandidateAccumulator) (request : RecallRequest)
    (tenant_edges : list StoredMemoryEdge) (query_tokens : list (list N))
    (dropped_items : list RecallDroppedItem) (scan_limit : N) (levers : PackLevers)
    (temporal_grounding_enabled : bool) : PackedRecallContext :=
  let st := packed_state fused request tenant_edges query_tokens dropped_items scan_limit levers
              temporal_grounding_enabled in
  let acc := ps_acc st in
  let items := if temporal_grounding_enabled
               then zip_with dated (pa_items acc) (pa_date_prefixes acc) else pa_items acc in
  {|
    pk_items := items;
    pk_dropped_items := ps_dropped st;
    pk_token_estimate := pa_token_estimate acc;
    pk_abstention :=
      is_empty items ||
      (rq_context_packing_abstention_enabled request &&
       existsb (λ item, existsb (λ label, bool_decide (label = "unresolved_contradiction"))
                          (it_suppression_labels item)) items);
    pk_gap_cut := pa_gap_cut acc;
  |}.

End pack.
