(* ===== verification/PackFacts.v ===== *)
(** * PackFacts: the pack keeps its limits and accounts for every candidate

    Theorems on Pack.v.  The accumulator's parallel vectors stay parallel, its
    token estimate is their sum and within the budget, its session counts are
    exact and every item's text is within what the item was charged, through
    admission, eviction, replacement and completion.  Every scanned candidate
    ends as an item or as a drop, once. *)

From S2P Require Import Prelude Text Types Float Clock Chunks Render RenderFacts Gate Pack.

(** ** Sums and counts under removal *)

#[export] Instance sum_N_perm : Proper ((≡ₚ) ==> (=)) sum_N.
Proof. intros l k H. induction H; simpl in *; lia. Qed.

Lemma sum_N_delete l i x : l !! i = Some x → sum_N l = x + sum_N (delete i l).
Proof. intros Hi. rewrite <-sum_N_cons. apply sum_N_perm. by apply delete_Permutation. Qed.

(** Occurrences of a session among the admitted. *)
Definition session_count (e : EpisodeId) (l : list (option EpisodeId)) : N :=
  N.of_nat (length (retain (λ o, bool_decide (o = Some e)) l)).

Lemma session_count_cons e o l :
  session_count e (o :: l) = (if bool_decide (o = Some e) then 1 else 0) + session_count e l.
Proof. unfold session_count. rewrite retain_cons. case_bool_decide; simpl; lia. Qed.

Lemma session_count_app e l k : session_count e (l ++ k) = session_count e l + session_count e k.
Proof. unfold session_count. rewrite retain_app, length_app. lia. Qed.

#[export] Instance session_count_perm e : Proper ((≡ₚ) ==> (=)) (session_count e).
Proof. intros l k H. induction H; rewrite ?session_count_cons in *; lia. Qed.

Lemma session_count_delete e l i o : l !! i = Some o →
  session_count e l = (if bool_decide (o = Some e) then 1 else 0) + session_count e (delete i l).
Proof.
  intros Hi. rewrite <-session_count_cons. apply session_count_perm. by apply delete_Permutation.
Qed.

Lemma Forall2_delete {A B} (P : A → B → Prop) l k i :
  Forall2 P l k → Forall2 P (delete i l) (delete i k).
Proof.
  intros H. revert i. induction H as [|a b l k Hab H IH]; intros [|i]; simpl; try done.
  by constructor.
Qed.

(** ** The texts *)

Lemma show_span_bytes a b : Forall (λ x, x < 256) (show_span a b).
Proof.
  eapply Forall_impl; [apply show_span_plain|]. intros x [Hx _]. lia.
Qed.

Lemma header_bytes chunks i : Forall (λ x, x < 256) (header chunks i).
Proof. unfold header. destruct (chunks !! i); [apply bytes_of_bound | constructor]. Qed.

Lemma run_block_bytes chunks run : Forall (λ x, x < 256) (run_block chunks (fst run) (snd run)).
Proof.
  unfold run_block. apply Forall_app. split.
  - unfold run_header. destruct (_ =? _)%nat; [apply header_bytes|].
    destruct (split_header_span (header chunks (fst run))) as [[[prefix first] l]|] eqn:Es;
      [|apply header_bytes].
    destruct (split_header_span (header chunks (snd run))) as [[[p f] last]|]; [|apply header_bytes].
    destruct (first <=? last); [|apply header_bytes].
    apply split_header_span_inv in Es as (ds & ls & He & _).
    pose proof (header_bytes chunks (fst run)) as Hb. rewrite He in Hb.
    apply Forall_app in Hb as [Hb _]. rewrite !Forall_app.
    split_and!; [done|apply show_span_bytes|by apply Forall_singleton].
  - induction (run_chunks chunks (fst run) (snd run)) as [|c l IH]; [constructor|].
    cbn [map concat]. apply Forall_app. split; [|done]. constructor; [done | apply bytes_of_bound].
Qed.

Lemma emit_bytes chunks selected merge :
  Forall (λ x, x < 256) (emit_selected_chunks chunks selected merge).
Proof.
  unfold emit_selected_chunks. induction (selected_runs chunks selected merge) as [|r l IH];
    [constructor|]. cbn [map]. pose proof (run_block_bytes chunks r).
  destruct l as [|r' l]; [done|].
  change (Forall (λ x, x < 256) (run_block chunks (fst r) (snd r) ++ [LF; LF] ++
    join_blank (map (λ run, run_block chunks (fst run) (snd run)) (r' :: l)))).
  rewrite !Forall_app. split_and!; [done|by repeat constructor|done].
Qed.

(** An emitted text, as a string, is within its charge. *)
Lemma emitted_string_estimate chunks selected merge : fits_memory chunks →
  conservative_token_estimate (string_of_bytes (emit_selected_chunks chunks selected merge)) <=
    selected_chunk_cost chunks selected merge.
Proof.
  intros Hm. unfold conservative_token_estimate. rewrite bytes_of_string by apply emit_bytes.
  by apply emitted_estimate.
Qed.

Definition rendered_string (unit : StoredMemoryUnit) (rendered : option (list N)) : string :=
  match rendered with Some text => string_of_bytes text | None => mu_body unit end.

Lemma packed_render_estimate unit query_tokens budget cap merge :
  fits_memory (mu_contextual_chunks unit) →
  let '(rendered, cost, _) :=
    packed_render (mu_contextual_chunks unit) query_tokens (mu_body unit) budget cap merge in
  conservative_token_estimate (rendered_string unit rendered) <= cost.
Proof.
  intros Hm. unfold packed_render. destruct (select_chunk_mask _ _ _) as [sel|].
  - by apply emitted_string_estimate.
  - unfold rendered_string. lia.
Qed.

(** ** The accumulator *)

Section pack.
Context `{Jiff} `{UuidParse} `{CivilDate} `{HashOrder}.

Definition item_ids (acc : PackAccumulator) : list UnitId := map it_unit_id (pa_items acc).

(** An item's text is within what the item was charged. *)
Definition within_charge (item : RecallContextItem) (tokens : N) : Prop :=
  conservative_token_estimate (it_body item) <= tokens.

Definition completion_ok (c : option ChunkCompletion) : Prop :=
  match c with Some state => fits_memory (cc_chunks state) | None => True end.

Record pack_ok (ctx : PackCtx) (acc : PackAccumulator) : Prop := {
  po_charges : Forall2 within_charge (pa_items acc) (pa_token_counts acc);
  po_scores : length (pa_relevance_scores acc) = length (pa_items acc);
  po_episodes : length (pa_episode_ids acc) = length (pa_items acc);
  po_completions : length (pa_completions acc) = length (pa_items acc);
  po_dates : length (pa_date_prefixes acc) = length (pa_items acc);
  po_restatements : length (pa_restatements acc) = length (pa_items acc);
  po_estimate : pa_token_estimate acc = sum_N (pa_token_counts acc);
  po_budget : pa_token_estimate acc <= rq_budget_tokens (px_request ctx);
  po_limit : N.of_nat (length (pa_items acc)) <= px_output_limit ctx;
  po_sessions : ∀ e, default 0 (pa_episode_counts acc !! e) = session_count e (pa_episode_ids acc);
  po_states : Forall completion_ok (pa_completions acc);
}.

Lemma empty_pack_ok ctx : pack_ok ctx empty_pack.
Proof. constructor; cbn; try done; try lia; constructor. Qed.

(** What eviction leaves. *)
Lemma evict_ok ctx acc i : pack_ok ctx acc → (i < length (pa_items acc))%nat →
  let acc' := evict i acc in
  pack_ok ctx acc' ∧ S (length (pa_items acc')) = length (pa_items acc) ∧
  pa_token_estimate acc = default 0 (pa_token_counts acc !! i) + pa_token_estimate acc' ∧
  item_ids acc ≡ₚ evicted_id i acc :: item_ids acc'.
Proof.
  intros [Hch Hsc Hep Hco Hda Hre Hest Hbud Hlim Hses Hst] Hi. cbv zeta.
  destruct (lookup_lt_is_Some_2 (pa_items acc) i Hi) as [item Hitem].
  pose proof (Forall2_length _ _ _ Hch) as Hlen.
  destruct (lookup_lt_is_Some_2 (pa_token_counts acc) i ltac:(lia)) as [tokens Htok].
  destruct (lookup_lt_is_Some_2 (pa_episode_ids acc) i ltac:(lia)) as [episode Hepi].
  pose proof (sum_N_delete _ _ _ Htok) as Hsum.
  assert (∀ {A} (l : list A), length l = length (pa_items acc) →
    length (delete i l) = length (delete i (pa_items acc))) as Hdel.
  { intros A l Hl. rewrite !length_delete by (apply lookup_lt_is_Some_2; lia). lia. }
  assert (S (length (delete i (pa_items acc))) = length (pa_items acc)) as Hs.
  { rewrite length_delete by done. lia. }
  unfold evict. rewrite Htok, Hepi. cbn [default id]. split_and!.
  - constructor; cbn [pa_items pa_token_counts pa_relevance_scores pa_episode_ids pa_completions
      pa_date_prefixes pa_restatements pa_token_estimate pa_episode_counts]; try (by apply Hdel); try lia.
    + by apply Forall2_delete.
    + intros e. specialize (Hses e). rewrite (session_count_delete e _ _ _ Hepi) in Hses.
      destruct episode as [e'|].
      * destruct (decide (e' = e)) as [->|Hne].
        -- rewrite lookup_alter_eq, bool_decide_true in * by done.
           destruct (pa_episode_counts acc !! e); simpl in *; lia.
        -- rewrite lookup_alter_ne by done. rewrite bool_decide_false in Hses by congruence. lia.
      * rewrite bool_decide_false in Hses by done. lia.
    + by apply Forall_delete.
  - cbn [pa_items]. done.
  - cbn [pa_token_estimate]. lia.
  - unfold item_ids, evicted_id. cbn [pa_items]. rewrite Hitem. cbn [default id fmap option_fmap option_map].
    by rewrite (delete_Permutation _ _ _ Hitem) at 1.
Qed.

(** What an admission within the limits leaves. *)
Lemma admit_new_ok ctx ad acc :
  pack_ok ctx acc → fits_memory (mu_contextual_chunks (ca_unit (ad_candidate ad))) →
  conservative_token_estimate (rendered_string (ca_unit (ad_candidate ad)) (ad_rendered_body ad)) <=
    ad_unit_tokens ad →
  pa_token_estimate acc + ad_unit_tokens ad <= rq_budget_tokens (px_request ctx) →
  N.of_nat (length (pa_items acc)) < px_output_limit ctx →
  let acc' := admit_new ctx ad acc in
  pack_ok ctx acc' ∧ item_ids acc' = item_ids acc ++ [ca_id (ad_candidate ad)].
Proof.
  intros [Hch Hsc Hep Hco Hda Hre Hest Hbud Hlim Hses Hst] Hm Hr Hfit Hroom. cbv zeta. split.
  - constructor; unfold admit_new; cbn [pa_items pa_token_counts pa_relevance_scores pa_episode_ids
      pa_completions pa_date_prefixes pa_restatements pa_token_estimate pa_episode_counts];
      rewrite ?length_app; cbn [length]; try lia.
    + apply Forall2_app; [done|]. constructor; [|constructor]. exact Hr.
    + rewrite sum_N_app, sum_N_cons, Hest. cbn [sum_N foldr]. lia.
    + intros e. rewrite session_count_app, session_count_cons. specialize (Hses e).
      change (session_count e []) with 0. destruct (ad_episode_id ad) as [e'|].
      * destruct (decide (e' = e)) as [->|Hne].
        -- rewrite lookup_insert_eq, bool_decide_true by done. simpl. lia.
        -- rewrite lookup_insert_ne, bool_decide_false by congruence. lia.
      * rewrite bool_decide_false by done. lia.
    + apply Forall_app. split; [done|]. apply Forall_singleton.
      destruct (ad_chunk_mask ad) as [sel|]; [|done].
      destruct (px_pack_render_cap ctx); [done|]. by destruct (existsb negb sel).
  - unfold item_ids, admit_new. cbn [pa_items]. by rewrite map_app.
Qed.

(** ** Choices of an index *)

Lemma position_lt {A} (p : A → bool) l i : position p l = Some i → (i < length l)%nat.
Proof.
  revert i. induction l as [|x l IH]; intros i; simpl; [done|].
  destruct (p x); [intros [= <-]; lia|]. destruct (position p l) as [j|]; [|done].
  intros [= <-]. specialize (IH j eq_refl). lia.
Qed.

Lemma restated_index_lt ctx acc c r i :
  pack_ok ctx acc → restated_index ctx acc c r = Some i → (i < length (pa_items acc))%nat.
Proof.
  intros Hok. unfold restated_index. destruct r as [r|]; [|done]. cbn [mbind option_bind].
  destruct (rq_context_packing_abstention_enabled _); [|done].
  destruct (position _ _) as [j|] eqn:E; [|done]. cbn [mbind option_bind].
  apply position_lt in E. rewrite (po_restatements _ _ Hok) in E.
  destruct (has_contradiction_with_any _ _ _); [done|]. by intros [= <-].
Qed.

Lemma min_by_in {A} (cmp : A → A → comparison) best l : min_by cmp best l ∈ best :: l.
Proof.
  revert best. induction l as [|x l IH]; intros best; simpl; [set_solver|].
  specialize (IH (match cmp best x with Gt => x | _ => best end)).
  destruct (cmp best x); set_solver.
Qed.

Lemma replacement_index_spec counts scores estimate tokens score budget i :
  replacement_index counts scores estimate tokens score budget = Some i →
  (i < length scores)%nat ∧ estimate - default 0 (counts !! i) + tokens <= budget.
Proof.
  unfold replacement_index. set (p := λ '(index, s), _).
  destruct (retain p (imap pair scores)) as [|x l] eqn:E; [done|]. intros [= <-].
  pose proof (min_by_in (λ a b, f32_cmp_or_equal (snd a) (snd b)) x l) as Hin. rewrite <-E in Hin.
  revert Hin. generalize (min_by (λ a b : nat * f32, f32_cmp_or_equal (snd a) (snd b)) x l).
  intros [j s] [Hj Hp]%elem_of_retain. cbn [fst] in *.
  apply list_elem_of_lookup in Hj as [k Hk]. rewrite list_lookup_imap in Hk.
  destruct (scores !! k) eqn:Ek; [|done]. simpl in Hk. injection Hk as -> ->.
  apply lookup_lt_Some in Ek. split; [done|].
  unfold p in Hp. apply andb_true_iff in Hp as [_ Hp]. by apply N.leb_le.
Qed.

(** ** Admission accounts for every candidate *)

(** The ids of items and drops, as a bag. *)
Definition accounted (st : PackState) : list UnitId :=
  item_ids (ps_acc st) ++ map dr_unit_id (ps_dropped st).

Lemma accounted_drop id reason st : accounted (drop_item id reason st) ≡ₚ id :: accounted st.
Proof.
  unfold accounted, drop_item. cbn. rewrite map_app. cbn [map].
  rewrite app_assoc. by rewrite <-Permutation_cons_append.
Qed.

Lemma accounted_acc acc st :
  accounted (st <| ps_acc := acc |>) = item_ids acc ++ map dr_unit_id (ps_dropped st).
Proof. done. Qed.

Section admission.
Context (ctx : PackCtx).

Definition step_ok (id : UnitId) (st st' : PackState) : Prop :=
  pack_ok ctx (ps_acc st') ∧ accounted st' ≡ₚ id :: accounted st ∧
  item_ids (ps_acc st') ⊆ id :: item_ids (ps_acc st).

Lemma drop_step_ok id reason st : pack_ok ctx (ps_acc st) → step_ok id st (drop_item id reason st).
Proof. intros Hok. split_and!; [done | apply accounted_drop | set_solver]. Qed.

(** A candidate that is admitted within the limits. *)
Lemma admit_step_ok ad acc st :
  pack_ok ctx acc → fits_memory (mu_contextual_chunks (ca_unit (ad_candidate ad))) →
  conservative_token_estimate (rendered_string (ca_unit (ad_candidate ad)) (ad_rendered_body ad)) <=
    ad_unit_tokens ad →
  pa_token_estimate acc + ad_unit_tokens ad <= rq_budget_tokens (px_request ctx) →
  N.of_nat (length (pa_items acc)) < px_output_limit ctx →
  pack_ok ctx (ps_acc (st <| ps_acc := admit_new ctx ad acc |>)) ∧
  accounted (st <| ps_acc := admit_new ctx ad acc |>) ≡ₚ
    ca_id (ad_candidate ad) :: item_ids acc ++ map dr_unit_id (ps_dropped st) ∧
  item_ids (ps_acc (st <| ps_acc := admit_new ctx ad acc |>)) ⊆
    ca_id (ad_candidate ad) :: item_ids acc.
Proof.
  intros. destruct (admit_new_ok ctx ad acc) as [Hok Hids]; [done..|].
  split_and!; [exact Hok| |].
  2: { change (item_ids (admit_new ctx ad acc) ⊆ ca_id (ad_candidate ad) :: item_ids acc).
       rewrite Hids. set_solver. }
  rewrite accounted_acc, Hids, <-app_assoc. cbn [app].
  by rewrite <-Permutation_middle.
Qed.

Lemma admit_within_ok ad st :
  pack_ok ctx (ps_acc st) → fits_memory (mu_contextual_chunks (ca_unit (ad_candidate ad))) →
  conservative_token_estimate (rendered_string (ca_unit (ad_candidate ad)) (ad_rendered_body ad)) <=
    ad_unit_tokens ad →
  step_ok (ca_id (ad_candidate ad)) st (admit_within ctx ad st).
Proof.
  intros Hok Hm Hr. unfold admit_within.
  destruct (N.leb_spec (px_output_limit ctx) (N.of_nat (length (pa_items (ps_acc st)))));
    [by apply drop_step_ok|].
  destruct (N.ltb_spec (rq_budget_tokens (px_request ctx))
              (pa_token_estimate (ps_acc st) + ad_unit_tokens ad)) as [Hover|Hfit].
  - destruct (rq_context_packing_abstention_enabled _); [|by apply drop_step_ok].
    destruct (replacement_index _ _ _ _ _ _) as [i|] eqn:Ei; [|by apply drop_step_ok].
    apply replacement_index_spec in Ei as [Hi Hb]. rewrite (po_scores _ _ Hok) in Hi.
    destruct (evict_ok ctx (ps_acc st) i Hok Hi) as (Hok' & Hlen & Hest & Hperm).
    destruct (admit_step_ok ad (evict i (ps_acc st))
      (drop_item (evicted_id i (ps_acc st)) RecallDropReason.Budget st)) as (G1 & G2 & G3); [done..|lia|lia|].
    split_and!; [exact G1| |].
    2: { etransitivity; [exact G3|]. rewrite Hperm. set_solver. }
    rewrite G2. f_equiv. unfold accounted at 1. rewrite Hperm.
    unfold drop_item. cbn [ps_dropped update_field]. rewrite map_app. cbn [map].
    rewrite app_assoc. by rewrite <-Permutation_cons_append.
  - by apply admit_step_ok.
Qed.

Lemma admission_of_ok c r : fits_memory (mu_contextual_chunks (ca_unit c)) →
  let ad := admission_of ctx c r in
  ad_candidate ad = c ∧
  conservative_token_estimate (rendered_string (ca_unit c) (ad_rendered_body ad)) <=
    ad_unit_tokens ad.
Proof.
  intros Hm. unfold admission_of.
  pose proof (packed_render_estimate (ca_unit c) (px_query_tokens ctx)
    (rq_budget_tokens (px_request ctx)) (px_pack_render_cap ctx) (px_merge_chunk_blocks ctx) Hm) as He.
  by destruct (packed_render _ _ _ _ _ _) as [[rendered tokens] mask].
Qed.

Lemma admit_or_drop_ok c st :
  pack_ok ctx (ps_acc st) → ca_id c ∉ item_ids (ps_acc st) → fits_memory (mu_contextual_chunks (ca_unit c)) →
  step_ok (ca_id c) st (admit_or_drop ctx st c).
Proof.
  intros Hok Hnew Hm. unfold admit_or_drop.
  destruct (subject_dedup ctx c st) as [st1|] eqn:Ed; [|by apply drop_step_ok].
  assert (ps_acc st1 = ps_acc st ∧ ps_dropped st1 = ps_dropped st) as [Ha Hd].
  { unfold subject_dedup in Ed. destruct (mu_fact_key (ca_unit c)); [|by injection Ed as <-].
    destruct (_ && _); [|by injection Ed as <-].
    destruct (_ && _); [done|]. by injection Ed as <-. }
  assert (∀ st', step_ok (ca_id c) st1 st' → step_ok (ca_id c) st st') as Hst.
  { intros st' (G1 & G2 & G3). split_and!; [done| |by rewrite <-Ha].
    rewrite G2. unfold accounted. by rewrite Ha, Hd. }
  apply Hst. rewrite <-Ha in Hok, Hnew. clear Ed Ha Hd Hst.
  set (r := restatement_of (ca_unit c)). set (i := restated_index ctx (ps_acc st1) c r).
  destruct (_ && _ && _).
  { destruct (drop_step_ok (ca_id c) RecallDropReason.Budget
      (st1 <| ps_acc ::= λ acc, acc <| pa_gap_cut ::= N.succ |> |>)) as (G1 & G2 & G3);
      [|by split_and!].
    by destruct Hok; constructor. }
  destruct (admission_of_ok c r Hm) as [Hc Hr]. set (ad := admission_of ctx c r) in *.
  rewrite <-Hc in Hm, Hr.
  assert (step_ok (ca_id c) st1 (admit_within ctx ad st1)) as Hwithin.
  { rewrite <-Hc. by apply admit_within_ok. }
  destruct i as [j|] eqn:Ej; [|done]. destruct r as [restatement|]; [|done].
  cbn [mbind option_bind]. destruct (pa_restatements (ps_acc st1) !! j) as [[seen|]|]; [|done..].
  destruct (_ && _) eqn:En; [|by apply drop_step_ok].
  apply andb_true_iff in En as [_ Hfit%N.leb_le].
  apply restated_index_lt in Ej; [|done].
  destruct (evict_ok ctx (ps_acc st1) j Hok Ej) as (Hok' & Hlen & Hest & Hperm).
  pose proof (po_limit _ _ Hok) as Hlim.
  set (st2 := drop_item _ _ _).
  assert (accounted st2 ≡ₚ accounted st1) as Hacc.
  { unfold st2. rewrite accounted_drop, accounted_acc. unfold accounted. by rewrite Hperm. }
  destruct (N.eqb_spec (evicted_id j (ps_acc st1)) (ca_id c)) as [He|He].
  - destruct Hnew. rewrite <-He, Hperm. set_solver.
  - rewrite <-Hc. assert (pack_ok ctx (ps_acc st2)) as Hok2 by exact Hok'.
    destruct (admit_within_ok ad st2 Hok2 Hm Hr) as (G1 & G2 & G3). split_and!; [done| |].
    + by rewrite G2, Hacc.
    + etransitivity; [exact G3|].
      change (item_ids (ps_acc st2)) with (item_ids (evict j (ps_acc st1))).
      rewrite Hperm. set_solver.
Qed.

(** ** The fill *)

Definition candidate_ok (c : CandidateAccumulator) : Prop :=
  fits_memory (mu_contextual_chunks (ca_unit c)).

Lemma subset_through {A} (x : A) l j k m : m ⊆ l ++ k → k ⊆ x :: j → m ⊆ (x :: l) ++ j.
Proof. set_solver. Qed.

Lemma fold_admit_ok cs st :
  pack_ok ctx (ps_acc st) → Forall candidate_ok cs → NoDup (map ca_id cs) →
  (∀ id, id ∈ map ca_id cs → id ∉ item_ids (ps_acc st)) →
  let st' := foldl (admit_or_drop ctx) st cs in
  pack_ok ctx (ps_acc st') ∧ accounted st' ≡ₚ map ca_id cs ++ accounted st ∧
  item_ids (ps_acc st') ⊆ map ca_id cs ++ item_ids (ps_acc st).
Proof.
  intros Hok Hcs. revert st Hok. induction Hcs as [|c cs Hc Hcs IH]; intros st Hok Hnd Hnew; [done|].
  cbn [map foldl] in *. apply NoDup_cons in Hnd as [Hni Hnd].
  destruct (admit_or_drop_ok c st Hok ltac:(set_solver) Hc) as (G1 & G2 & G3).
  destruct (IH _ G1 Hnd) as (G4 & G5 & G6).
  { intros id Hid Hin. apply G3, elem_of_cons in Hin as [->|Hin]; [done|].
    by apply (Hnew id); [right|]. }
  split_and!; [done| |by eapply subset_through]. rewrite G5, G2. cbn [app]. by rewrite Permutation_middle.
Qed.

Lemma fill_first_ok quota cs st deferred :
  pack_ok ctx (ps_acc st) → Forall candidate_ok cs → Forall candidate_ok deferred →
  NoDup (map ca_id (deferred ++ cs)) →
  (∀ id, id ∈ map ca_id (deferred ++ cs) → id ∉ item_ids (ps_acc st)) →
  let '(st', deferred') := foldl (fill_step ctx quota) (st, deferred) cs in
  pack_ok ctx (ps_acc st') ∧ Forall candidate_ok deferred' ∧ NoDup (map ca_id deferred') ∧
  (∀ id, id ∈ map ca_id deferred' → id ∉ item_ids (ps_acc st')) ∧
  map ca_id deferred' ++ accounted st' ≡ₚ map ca_id (deferred ++ cs) ++ accounted st ∧
  map ca_id deferred' ++ item_ids (ps_acc st') ⊆ map ca_id (deferred ++ cs) ++ item_ids (ps_acc st).
Proof.
  intros Hok Hcs. revert st deferred Hok.
  induction Hcs as [|c cs Hc Hcs IH]; intros st deferred Hok Hdef Hnd Hnew.
  { cbn [foldl]. rewrite app_nil_r in *. by split_and!. }
  cbn [foldl]. unfold fill_step at 2. set (at_quota := match quota with Some _ => _ | None => _ end).
  assert (deferred ++ c :: cs = (deferred ++ [c]) ++ cs) as Ha by (by rewrite <-app_assoc).
  destruct at_quota.
  - specialize (IH st (deferred ++ [c]) Hok). rewrite <-Ha in IH. apply IH; [|done..].
    apply Forall_app. split; [done|]. by apply Forall_singleton.
  - destruct (admit_or_drop_ok c st Hok ltac:(apply Hnew; rewrite map_app; set_solver) Hc)
      as (G1 & G2 & G3).
    rewrite map_app in Hnd. cbn [map] in Hnd. rewrite <-Permutation_middle in Hnd.
    apply NoDup_cons in Hnd as [Hni Hnd]. rewrite <-map_app in Hni, Hnd.
    specialize (IH (admit_or_drop ctx st c) deferred G1 Hdef Hnd).
    destruct (foldl (fill_step ctx quota) (admit_or_drop ctx st c, deferred) cs) as [st' deferred'].
    destruct IH as (G4 & G5 & G6 & G7 & G8 & G9).
    { intros id Hid Hin. apply G3, elem_of_cons in Hin as [->|Hin]; [done|].
      apply (Hnew id); [|done]. rewrite map_app in *. set_solver. }
    split_and!; [done..| |].
    + rewrite G8, G2, !map_app. cbn [map].
      rewrite <-!app_assoc. f_equiv. cbn [app]. by rewrite Permutation_middle.
    + etransitivity; [exact G9|]. rewrite !map_app. cbn [map]. clear -G3. set_solver.
Qed.

Lemma fill_ok quota cs dropped : Forall candidate_ok cs → NoDup (map ca_id cs) →
  let st := fill ctx quota cs dropped in
  pack_ok ctx (ps_acc st) ∧
  item_ids (ps_acc st) ++ map dr_unit_id (ps_dropped st) ≡ₚ map ca_id cs ++ map dr_unit_id dropped ∧
  item_ids (ps_acc st) ⊆ map ca_id cs.
Proof.
  intros Hcs Hnd. unfold fill.
  pose proof (fill_first_ok quota cs (mkPackState empty_pack ∅ dropped) []
    (empty_pack_ok ctx) Hcs (Forall_nil_2 _) Hnd) as Hf. specialize (Hf ltac:(set_solver)).
  destruct (foldl (fill_step ctx quota) _ cs) as [st deferred].
  destruct Hf as (G1 & G2 & G3 & G4 & G5 & G8).
  destruct (fold_admit_ok deferred st G1 G2 G3 G4) as (G6 & G7 & G9). split_and!; [done| |].
  2: { etransitivity; [exact G9|]. etransitivity; [exact G8|]. cbn. by rewrite app_nil_r. }
  change (accounted (foldl (admit_or_drop ctx) st deferred) ≡ₚ
    map ca_id cs ++ map dr_unit_id dropped). rewrite G7, G5. done.
Qed.
End admission.

(** ** Completion *)

Lemma Forall2_alter_insert {A B} (P : A → B → Prop) (f : A → A) l k i y :
  Forall2 P l k → (∀ x, l !! i = Some x → P (f x) y) → Forall2 P (alter f i l) (<[i := y]> k).
Proof.
  intros Hf. revert i. induction Hf as [|a b l k Hab Hf IH]; intros [|i] Hx; simpl; try done.
  - constructor; [by apply Hx | done].
  - constructor; [done | by apply IH].
Qed.

Lemma sum_N_insert l i x y : l !! i = Some x → x <= y →
  sum_N (<[i := y]> l) = sum_N l + (y - x).
Proof.
  revert i. induction l as [|z l IH]; intros [|i]; simpl; [done..|intros [= ->]; lia|].
  intros Hi Hle. rewrite IH by done. lia.
Qed.

Lemma complete_item_ok ctx budget merge acc i :
  budget = rq_budget_tokens (px_request ctx) → pack_ok ctx acc →
  let acc' := complete_item budget merge acc i in
  pack_ok ctx acc' ∧ item_ids acc' = item_ids acc.
Proof.
  intros -> Hok. unfold complete_item.
  destruct (pa_completions acc !! i) as [[state|]|] eqn:Ec; [|done..].
  assert (fits_memory (cc_chunks state)) as Hm.
  { pose proof (po_states _ _ Hok) as Hst. by eapply Forall_lookup_1 in Hst; [|exact Ec]. }
  assert (pack_ok ctx (acc <| pa_completions ::= <[i := None]> |>)) as Hok1.
  { destruct Hok. constructor; cbn; try done.
    - by rewrite length_insert.
    - by apply Forall_insert. }
  set (acc1 := acc <| pa_completions ::= <[i := None]> |>) in *.
  apply lookup_lt_Some in Ec. rewrite (po_completions _ _ Hok) in Ec.
  pose proof (Forall2_length _ _ _ (po_charges _ _ Hok1)) as Hlen.
  change (pa_items acc1) with (pa_items acc) in Hlen.
  destruct (lookup_lt_is_Some_2 (pa_token_counts acc1) i ltac:(lia)) as [charged Hch].
  assert (∀ body cost, conservative_token_estimate body <= cost →
    cost - charged <= rq_budget_tokens (px_request ctx) - pa_token_estimate acc1 →
    let acc' := acc1 <| pa_items ::= alter (λ item, item <| it_body := body |>) i |>
                     <| pa_token_estimate ::= λ t, t + (cost - charged) |>
                     <| pa_token_counts ::= <[i := N.max charged cost]> |> in
    pack_ok ctx acc' ∧ item_ids acc' = item_ids acc) as Hdone.
  { intros body cost Hb Hl. destruct Hok1 as [G1 G2 G3 G4 G5 G6 G7 G8 G9 G10 G11]. split.
    - constructor; cbn [pa_items pa_token_counts pa_relevance_scores pa_episode_ids pa_completions
        pa_date_prefixes pa_restatements pa_token_estimate pa_episode_counts update_field];
        rewrite ?length_alter; try done.
      + apply Forall2_alter_insert; [done|]. intros x _. unfold within_charge. cbn. lia.
      + rewrite (sum_N_insert _ _ charged) by (done || lia). lia.
      + lia.
    - unfold item_ids. cbn. apply list_eq. intros j. rewrite !list_lookup_fmap.
      destruct (decide (i = j)) as [->|Hne];
        [rewrite list_lookup_alter_eq | by rewrite list_lookup_alter_ne].
      by destruct (pa_items acc !! j). }
  rewrite Hch. cbn [default id].
  destruct (N.leb_spec (selected_chunk_cost (cc_chunks state)
    (replicate (length (cc_chunks state)) true) merge - charged)
    (rq_budget_tokens (px_request ctx) - pa_token_estimate acc1)) as [Hc|_].
  - apply Hdone; [by apply emitted_string_estimate | done].
  - destruct (N.leb_spec (conservative_token_estimate (cc_whole_body state) - charged)
      (rq_budget_tokens (px_request ctx) - pa_token_estimate acc1)) as [Hw|_]; [|done].
    by apply Hdone.
Qed.

Lemma completion_pass_ok ctx merge acc : pack_ok ctx acc →
  let acc' := chunk_completion_pass (rq_budget_tokens (px_request ctx)) merge acc in
  pack_ok ctx acc' ∧ item_ids acc' = item_ids acc.
Proof.
  unfold chunk_completion_pass. generalize (seq 0 (length (pa_items acc))). intros l.
  revert acc. induction l as [|i l IH]; intros acc Hok; [done|]. cbn [foldl].
  destruct (complete_item_ok ctx _ merge acc i eq_refl Hok) as [G1 G2].
  destruct (IH _ G1) as [G3 G4]. split; [done|]. by rewrite G4.
Qed.
End pack.

(** ** The order is a permutation *)

Lemma imap_pair_fst {A} (l : list A) k : map fst (imap (λ i x, ((k + i)%nat, x)) l) = seq k (length l).
Proof.
  revert k. induction l as [|x l IH]; intros k; [done|]. cbn [imap map length seq fst].
  rewrite Nat.add_0_r. f_equal. rewrite <-(IH (S k)). f_equal. apply imap_ext.
  intros i y _. simpl. f_equal. lia.
Qed.

Lemma map_fst_retain_NoDup {A} (p : nat * A → bool) l :
  NoDup (map fst l) → NoDup (map fst (retain p l)).
Proof.
  induction l as [|x l IH]; [done|]. cbn [map]. intros [Hx Hnd]%NoDup_cons. rewrite retain_cons.
  destruct (p x); [|by apply IH]. cbn [map]. constructor; [|by apply IH].
  intros (y & Hy & [Hin _]%elem_of_retain)%list_elem_of_fmap. apply Hx. rewrite Hy.
  by apply list_elem_of_fmap_2.
Qed.

Lemma map_fst_retain_disjoint {A} (p : nat * A → bool) l i :
  NoDup (map fst l) → i ∈ map fst (retain p l) → i ∉ map fst (retain (λ x, negb (p x)) l).
Proof.
  intros Hnd (x & -> & [Hx Hp]%elem_of_retain)%list_elem_of_fmap.
  intros (y & Hy & [Hin Hn]%elem_of_retain)%list_elem_of_fmap.
  apply list_elem_of_lookup in Hx as [a Ha], Hin as [b Hb].
  assert (a = b) as ->.
  { eapply (NoDup_lookup (map fst l) a b (fst x) Hnd);
      rewrite list_lookup_fmap; [by rewrite Ha|]. by rewrite Hb, Hy. }
  simplify_eq. by rewrite Hp in Hn.
Qed.

Lemma complete_order_perm count order :
  NoDup order → Forall (λ i, (i < count)%nat) order → complete_order count order ≡ₚ seq 0 count.
Proof.
  intros Hnd Hlt. rewrite Forall_forall in Hlt. apply NoDup_Permutation.
  - unfold complete_order. apply NoDup_app. split_and!; [done| |apply NoDup_retain, NoDup_seq].
    intros i Hi [_ Hn]%elem_of_retain. by rewrite bool_decide_true in Hn.
  - apply NoDup_seq.
  - intros i. unfold complete_order. rewrite elem_of_app, elem_of_retain, elem_of_seq.
    rewrite negb_true_iff, bool_decide_eq_false. split.
    + intros [Hi|[Hi _]]; [specialize (Hlt i Hi)|]; lia.
    + intros Hi. destruct (decide (i ∈ order)); [by left | right; split; [lia|done]].
Qed.

Lemma omap_lookup_seq {A} (l : list A) k pre : length pre = k →
  omap (λ i, (pre ++ l) !! i) (seq k (length l)) = l.
Proof.
  revert k pre. induction l as [|x l IH]; intros k pre Hk; [done|].
  cbn [length seq omap list_omap]. rewrite lookup_app_r, Hk, Nat.sub_diag by lia. cbn [lookup list_lookup].
  f_equal. specialize (IH (S k) (pre ++ [x])). rewrite <-app_assoc in IH. apply IH.
  rewrite length_app. simpl. lia.
Qed.

#[export] Instance omap_perm {A B} (f : A → option B) : Proper ((≡ₚ) ==> (≡ₚ)) (omap f).
Proof.
  intros l k H. induction H; simpl; [done| | |by etrans].
  - destruct (f x); by rewrite IHPermutation.
  - destruct (f x), (f y); [constructor|done..].
Qed.

Lemma reorder_perm cs order :
  order ≡ₚ seq 0 (length cs) → reorder_candidates cs order ≡ₚ cs.
Proof.
  intros H. unfold reorder_candidates. rewrite H.
  pose proof (omap_lookup_seq cs 0 [] eq_refl) as E. cbn [app] in E. by rewrite E.
Qed.

Section order.
Context `{HashOrder}.

Section selection.
Context (metadata : list SubmodularPackCandidate) (query_terms : gset (list N)).
Notation count := (length metadata).

Definition fresh_in (selected : list bool) (best : option (nat * SpecFloat.spec_float * SpecFloat.spec_float))
    : Prop :=
  match best with
  | Some (i, _, _) => (i < count)%nat ∧ is_selected selected i = false
  | None => True
  end.

Lemma scan_fresh budget used current selected l best :
  Forall (λ e, (fst e < count)%nat) l → fresh_in selected best →
  fresh_in selected (foldl (scan_step metadata query_terms budget used current selected) best l).
Proof.
  intros Hl. revert best. induction Hl as [|[i c] l Hi Hl IH]; intros best Hb; [done|].
  cbn [foldl]. apply IH. unfold scan_step.
  destruct (is_selected selected i) eqn:E; cbn [orb]; [done|].
  destruct (_ <? _); [done|]. destruct (improves _ _ _ _ _ _); [by split | done].
Qed.

Lemma greedy_order slots budget used current selected order :
  length selected = count → NoDup order →
  (∀ i, i ∈ order → (i < count)%nat ∧ is_selected selected i = true) →
  let out := fst (greedy metadata query_terms slots budget used current selected order) in
  NoDup out ∧ Forall (λ i, (i < count)%nat) out.
Proof.
  revert used current selected order. induction slots as [|slots IH];
    intros used current selected order Hl Hnd Ho; cbn [greedy].
  { split; [done|]. apply Forall_forall. intros i Hi. by apply Ho. }
  pose proof (scan_fresh budget used current selected (imap pair metadata) None) as Hf.
  destruct (foldl _ None _) as [[[i ratio] gain]|].
  - destruct (negb _).
    { split; [done|]. apply Forall_forall. intros j Hj. by apply Ho. }
    destruct Hf as [Hi Hn]; [|done|].
    { apply Forall_forall. intros [j c] Hj. apply list_elem_of_lookup in Hj as [k Hk].
      rewrite list_lookup_imap in Hk. destruct (metadata !! k) eqn:Ek; [|done].
      simpl in Hk. injection Hk as <- <-. by apply lookup_lt_Some in Ek. }
    apply IH.
    + by rewrite length_insert.
    + apply NoDup_app. split_and!; [done| |apply NoDup_singleton].
      intros j Hj ->%list_elem_of_singleton. apply Ho in Hj as [_ Hj]. congruence.
    + intros j [Hj| ->%list_elem_of_singleton]%elem_of_app.
      * rewrite is_selected_insert by lia. destruct (Ho j Hj) as [? ->]. by rewrite orb_true_r.
      * rewrite is_selected_insert by lia. by rewrite bool_decide_true.
  - split; [done|]. apply Forall_forall. intros j Hj. by apply Ho.
Qed.

Lemma max_by_in {A} (cmp : A → A → comparison) best l : max_by cmp best l ∈ best :: l.
Proof.
  revert best. induction l as [|x l IH]; intros best; simpl; [set_solver|].
  specialize (IH (match cmp best x with Gt => best | _ => x end)).
  destruct (cmp best x); set_solver.
Qed.

Lemma selection_order budget slots :
  let out := submodular_selection metadata query_terms budget slots in
  NoDup out ∧ Forall (λ i, (i < count)%nat) out.
Proof.
  unfold submodular_selection. cbv zeta.
  pose proof (greedy_order slots budget 0 (submodular_objective metadata query_terms
    (replicate count false)) (replicate count false) [] ltac:(apply length_replicate)
    NoDup_nil_2 ltac:(set_solver)) as Hg. cbv zeta in Hg.
  destruct (greedy _ _ _ _ _ _ _ _) as [order current]. cbn [fst] in Hg.
  destruct (best_singleton metadata query_terms budget) as [[i score]|] eqn:E; [|done].
  destruct (f64_gt score current); [|done].
  split; [apply NoDup_singleton|]. apply Forall_singleton.
  unfold best_singleton in E. set (f := λ '(index, candidate), _) in E.
  destruct (omap f (imap pair metadata)) as [|x l] eqn:Eo; [done|].
  pose proof (max_by_in singleton_cmp x l) as Hin. rewrite <-Eo in Hin.
  destruct (max_by singleton_cmp x l) as [[j s] c]. injection E as -> ->.
  apply list_elem_of_omap in Hin as ([k c'] & Hk & Hf). unfold f in Hf.
  destruct (_ <=? _); [|done]. injection Hf as -> _ _.
  apply list_elem_of_lookup in Hk as [k Hk]. rewrite list_lookup_imap in Hk.
  destruct (metadata !! k) eqn:Ek; [|done]. simpl in Hk. injection Hk as <- _.
  by apply lookup_lt_Some in Ek.
Qed.
End selection.

Lemma NoDup_omap_lookup {A} (l : list A) sel :
  NoDup l → NoDup sel → NoDup (omap (λ i, l !! i) sel).
Proof.
  intros Hl. induction 1 as [|i sel Hi Hnd IH]; [constructor|]. cbn [omap list_omap].
  destruct (l !! i) as [x|] eqn:E; [|done]. constructor; [|done].
  intros (j & Hj & Ej)%list_elem_of_omap. by rewrite (NoDup_lookup l i j x Hl E Ej) in Hi.
Qed.

Context `{Jiff} `{UuidParse}.

Lemma metadata_indices cs request query_tokens cap merge :
  map sm_original_index (submodular_metadata cs request query_tokens cap merge) =
  map fst (retain (λ x, negb (is_authoritative_projection (ca_unit (snd x)))) (imap pair cs)).
Proof.
  unfold submodular_metadata. induction (imap pair cs) as [|[i c] l IH]; [done|].
  rewrite retain_cons. cbn [omap list_omap snd].
  destruct (is_authoritative_projection (ca_unit c)); cbn [negb]; [done|].
  destruct (packed_render _ _ _ _ _ _) as [[rendered cost] mask]. cbn [map fst]. by rewrite IH.
Qed.

Lemma imap_pair_indices {A} (l : list A) : map fst (imap pair l) = seq 0 (length l).
Proof. apply (imap_pair_fst l 0). Qed.

Lemma retained_indices_lt {A} (p : nat * A → bool) (l : list A) :
  Forall (λ i, (i < length l)%nat) (map fst (retain p (imap pair l))).
Proof.
  apply Forall_forall. intros i (x & -> & [Hx _]%elem_of_retain)%list_elem_of_fmap.
  assert (fst x ∈ seq 0 (length l)) as Hs
    by (rewrite <-imap_pair_indices; by apply list_elem_of_fmap_2).
  apply elem_of_seq in Hs. lia.
Qed.

Lemma submodular_order_perm cs request query_tokens cap merge :
  submodular_order cs request query_tokens cap merge ≡ₚ seq 0 (length cs).
Proof.
  assert (NoDup (map fst (imap pair cs))) as HndL by (rewrite imap_pair_indices; apply NoDup_seq).
  set (auth := λ x : nat * CandidateAccumulator, is_authoritative_projection (ca_unit (snd x))).
  assert (protected_indices cs = map fst (retain auth (imap pair cs))) as Hp.
  { unfold protected_indices. f_equal. apply retain_ext. by intros []. }
  assert (NoDup (protected_indices cs)) as Hndp by (rewrite Hp; by apply map_fst_retain_NoDup).
  assert (Forall (λ i, (i < length cs)%nat) (protected_indices cs)) as Hltp
    by (rewrite Hp; apply retained_indices_lt).
  unfold submodular_order. destruct (_ || _); [by apply complete_order_perm|].
  pose proof (metadata_indices cs request query_tokens cap merge) as Hm.
  set (metadata := submodular_metadata cs request query_tokens cap merge) in *.
  set (sel := submodular_selection _ _ _ _).
  assert (NoDup sel) as Hnds by apply selection_order.
  assert (omap (λ i, sm_original_index <$> metadata !! i) sel =
    omap (λ i, map sm_original_index metadata !! i) sel) as ->.
  { apply list_omap_ext. apply Forall_Forall2_diag, Forall_forall. intros i _.
    by rewrite list_lookup_fmap. }
  rewrite Hm. set (free := map fst (retain (λ x, negb (auth x)) (imap pair cs))).
  assert (∀ i, i ∈ omap (λ i, free !! i) sel → i ∈ free) as Hin.
  { intros i (j & _ & Hj)%list_elem_of_omap. by eapply list_elem_of_lookup_2. }
  apply complete_order_perm.
  - apply NoDup_app. split_and!; [done| |].
    + intros i Hi Hf%Hin. rewrite Hp in Hi. revert Hf. by apply map_fst_retain_disjoint.
    + apply NoDup_omap_lookup; [|done]. by apply map_fst_retain_NoDup.
  - apply Forall_app. split; [done|]. apply Forall_forall. intros i Hf%Hin.
    pose proof (retained_indices_lt (λ x, negb (auth x)) cs) as Hlt.
    rewrite Forall_forall in Hlt. by apply Hlt.
Qed.

Lemma pack_order_perm fused request query_tokens levers :
  pack_order fused request query_tokens levers ≡ₚ fused.
Proof.
  assert (governed_order request fused ≡ₚ fused) as Hg.
  { unfold governed_order. rewrite sort_by_perm.
    destruct (rq_context_packing_abstention_enabled request); [|done]. apply sort_by_perm. }
  unfold pack_order. destruct (_ && _); [|done]. unfold submodular_pack_order.
  rewrite reorder_perm; [done|]. apply submodular_order_perm.
Qed.
End order.

(** ** The packed context *)

Section packed.
Context `{HashOrder} `{Jiff} `{UuidParse} `{CivilDate}.
Context (fused : list CandidateAccumulator) (request : RecallRequest)
  (tenant_edges : list StoredMemoryEdge) (query_tokens : list (list N))
  (dropped_items : list RecallDroppedItem) (scan_limit : N) (levers : PackLevers)
  (temporal_grounding_enabled : bool).

(** The candidates that get a chance, in order. *)
Definition scanned : list CandidateAccumulator :=
  let order := pack_order fused request query_tokens levers in
  take (N.to_nat (N.min scan_limit (N.of_nat (length order)))) order.

Notation packed := (pack_recall_context fused request tenant_edges query_tokens dropped_items
  scan_limit levers temporal_grounding_enabled).
Notation state := (packed_state fused request tenant_edges query_tokens dropped_items
  scan_limit levers temporal_grounding_enabled).
Notation ctx := (pack_ctx fused request tenant_edges query_tokens levers temporal_grounding_enabled).

Lemma scanned_ok : Forall candidate_ok fused → NoDup (map ca_id fused) →
  Forall candidate_ok scanned ∧ NoDup (map ca_id scanned).
Proof.
  intros Hok Hnd. pose proof (pack_order_perm fused request query_tokens levers) as Hp.
  unfold scanned. split.
  - apply Forall_take. by rewrite Hp.
  - rewrite <-Hp in Hnd. revert Hnd. generalize (pack_order fused request query_tokens levers).
    intros order Hnd. rewrite <-(take_drop (N.to_nat (N.min scan_limit (N.of_nat (length order)))) order)
      in Hnd. rewrite map_app in Hnd. by apply NoDup_app in Hnd as (? & _ & _).
Qed.

Lemma packed_state_ok : Forall candidate_ok fused → NoDup (map ca_id fused) →
  pack_ok ctx (ps_acc state) ∧
  item_ids (ps_acc state) ++ map dr_unit_id (ps_dropped state) ≡ₚ
    map ca_id scanned ++ map dr_unit_id dropped_items ∧
  item_ids (ps_acc state) ⊆ map ca_id scanned.
Proof.
  intros Hok Hnd. destruct (scanned_ok Hok Hnd) as [Hs Hn].
  destruct (fill_ok ctx (lv_session_quota levers) scanned dropped_items Hs Hn) as (G1 & G2 & G5).
  destruct (completion_pass_ok ctx (lv_merge_chunk_blocks levers) _ G1) as [G3 G4].
  split_and!; [exact G3| |].
  2: { change (item_ids (chunk_completion_pass (rq_budget_tokens (px_request ctx))
         (lv_merge_chunk_blocks levers)
         (ps_acc (fill ctx (lv_session_quota levers) scanned dropped_items))) ⊆ map ca_id scanned).
       by rewrite G4. }
  change (item_ids (chunk_completion_pass (rq_budget_tokens (px_request ctx))
    (lv_merge_chunk_blocks levers) (ps_acc (fill ctx (lv_session_quota levers) scanned dropped_items)))
    ++ map dr_unit_id (ps_dropped (fill ctx (lv_session_quota levers) scanned dropped_items)) ≡ₚ
    map ca_id scanned ++ map dr_unit_id dropped_items).
  by rewrite G4.
Qed.

Lemma dated_ids items prefixes : length prefixes = length items →
  map it_unit_id (zip_with dated items prefixes) = map it_unit_id items.
Proof.
  revert prefixes. induction items as [|x items IH]; intros [|p prefixes]; simpl; try done.
  intros [= Hl]. rewrite IH by done. by destruct p.
Qed.

Lemma charges_sum items counts : Forall2 within_charge items counts →
  sum_N (map (λ item, conservative_token_estimate (it_body item)) items) <= sum_N counts.
Proof. induction 1 as [|x y l k Hxy _ IH]; [done|]. cbn [map]. rewrite !sum_N_cons. unfold within_charge in Hxy. lia. Qed.

Lemma packed_items_spec : Forall candidate_ok fused → NoDup (map ca_id fused) →
  map it_unit_id (pk_items packed) = item_ids (ps_acc state) ∧
  length (pk_items packed) = length (pa_items (ps_acc state)).
Proof.
  intros Hok Hnd. destruct (packed_state_ok Hok Hnd) as (G & _ & _).
  assert (map it_unit_id (pk_items packed) = item_ids (ps_acc state)) as Hids.
  { unfold pack_recall_context. cbn [pk_items]. destruct temporal_grounding_enabled; [|done].
    apply dated_ids. apply (po_dates _ _ G). }
  split; [done|]. apply (f_equal length) in Hids. unfold item_ids in Hids.
  by rewrite !length_map in Hids.
Qed.

Lemma packed_ids_scanned : Forall candidate_ok fused → NoDup (map ca_id fused) →
  item_ids (ps_acc state) ⊆ map ca_id fused.
Proof.
  intros Hok Hnd. destruct (packed_state_ok Hok Hnd) as (_ & _ & G).
  etransitivity; [exact G|]. intros id (c & -> & Hc)%list_elem_of_fmap.
  apply list_elem_of_fmap_2. rewrite <-(pack_order_perm fused request query_tokens levers).
  unfold scanned in Hc. apply list_elem_of_lookup in Hc as [i Hi].
  apply lookup_take_Some in Hi as [Hi _]. by eapply list_elem_of_lookup_2.
Qed.

Lemma pack_limits : Forall candidate_ok fused → NoDup (map ca_id fused) →
  N.of_nat (length (pk_items packed)) <= N.max (rq_k request) 1 ∧
  pk_token_estimate packed <= rq_budget_tokens request ∧
  (temporal_grounding_enabled = false →
   sum_N (map (λ item, conservative_token_estimate (it_body item)) (pk_items packed)) <=
     pk_token_estimate packed).
Proof.
  intros Hok Hnd. destruct (packed_state_ok Hok Hnd) as (G & _ & _).
  destruct (packed_items_spec Hok Hnd) as [_ Hlen]. split_and!.
  - rewrite Hlen. apply (po_limit _ _ G).
  - apply (po_budget _ _ G).
  - intros Hoff. unfold pack_recall_context. cbn [pk_items pk_token_estimate]. rewrite Hoff in G |- *.
    rewrite (po_estimate _ _ G). apply charges_sum, (po_charges _ _ G).
Qed.

(** C22: A packed context keeps its limits: at most [max(k, 1)] items, a token
    estimate within the request's budget, and (before the optional date
    prefixes) item texts whose estimates together are within the reported
    estimate. *)
Theorem pack_within_limits : Forall candidate_ok fused → NoDup (map ca_id fused) →
  N.of_nat (length (pk_items packed)) <= N.max (rq_k request) 1 ∧
  pk_token_estimate packed <= rq_budget_tokens request ∧
  (temporal_grounding_enabled = false →
   sum_N (map (λ item, conservative_token_estimate (it_body item)) (pk_items packed)) <=
     pk_token_estimate packed).
Proof. apply pack_limits. Qed.

(** Packing accounts for every candidate it scans: the ids of the packed
    items and of the drops are, as a bag, the scanned candidates and the drops
    there were before; the scanned candidates are a prefix of a permutation of
    the fused ones. *)
Theorem pack_accounts_for_all : Forall candidate_ok fused → NoDup (map ca_id fused) →
  map it_unit_id (pk_items packed) ++ map dr_unit_id (pk_dropped_items packed) ≡ₚ
    map ca_id scanned ++ map dr_unit_id dropped_items ∧
  ∃ rest, scanned ++ rest ≡ₚ fused.
Proof.
  intros Hok Hnd. destruct (packed_state_ok Hok Hnd) as (_ & G & _).
  destruct (packed_items_spec Hok Hnd) as [-> _]. split; [exact G|].
  eexists. unfold scanned. rewrite take_drop. apply pack_order_perm.
Qed.

End packed.
