(* ===== verification/Rerank.v ===== *)
(** * Rerank: the lexical scorer and the cross-encoder stage

    Two stages of a recall in [crates/memphant-core/src/lib.rs]: Okapi BM25
    over the candidate pool, with its allocating and its borrowing tokenizer,
    and the cross-encoder rerank with its window splitter and its balanced
    promotion.  The cross-encoder is an interface, and so is the natural
    logarithm of [f32], whose precision the language does not specify. *)

From S2P Require Import Prelude Text Types Float Render Gate Pack.

(** ** BM25 tokens *)

(** The maximal non-empty runs of bytes with [p]. *)
Fixpoint pieces (p : N → bool) (word l : list N) : list (list N) :=
  let flush := if is_empty word then [] else [rev word] in
  match l with
  | [] => flush
  | a :: l => if p a then pieces p (a :: word) l else flush ++ pieces p [] l
  end.

Definition is_bm25_token_char (b : N) : bool :=
  is_ascii_alphanumeric b || (b =? 95) || (b =? 46) || (b =? 47) || (b =? 45).

Definition to_ascii_lowercase (l : list N) : list N := map ascii_lower l.

Definition bm25_control_tokens (text : list N) : list (list N) :=
  pieces is_bm25_token_char [] (to_ascii_lowercase text).

Definition alphanumeric_parts (token : list N) : list (list N) :=
  pieces is_ascii_alphanumeric [] token.

(** The parts of a token that has more than one. *)
Definition sub_tokens (token : list N) : list (list N) :=
  let parts := alphanumeric_parts token in
  if (1 <? length parts)%nat then parts else [].

Definition bm25_code_tokens (text : list N) : list (list N) :=
  flat_map (λ token, sub_tokens token ++ [token]) (bm25_control_tokens text).

Module LexicalScorer.
Inductive t : Set := Overlap | Bm25Control | Bm25Code.
#[global] Instance t_eq_dec : EqDecision t.
Proof. solve_decision. Defined.

Definition tokens (scorer : t) (text : list N) : list (list N) :=
  match scorer with
  | Overlap | Bm25Control => bm25_control_tokens text
  | Bm25Code => bm25_code_tokens text
  end.

(** On text already lowered. *)
Definition tokens_borrowed (scorer : t) (lowered : list N) : list (list N) :=
  let out := pieces is_bm25_token_char [] lowered in
  match scorer with
  | Bm25Code => out ++ flat_map sub_tokens out
  | _ => out
  end.
End LexicalScorer.

(** ** BM25 scores *)

Class LibM := f32_ln : f32 → f32.

(** 1.2 and 0.75. *)
Definition BM25_K1 : f32 := 0x3f99999a.
Definition BM25_B : f32 := 0x3f400000.

Fixpoint bytes_cmp (l k : list N) : comparison :=
  match l, k with
  | [], [] => Eq
  | [], _ => Lt
  | _, [] => Gt
  | a :: l, b :: k => match a ?= b with Eq => bytes_cmp l k | c => c end
  end.

(** [Vec::dedup]. *)
Fixpoint dedup (l : list (list N)) : list (list N) :=
  match l with
  | [] => []
  | x :: l => match dedup l with
              | y :: k => if bool_decide (x = y) then y :: k else x :: y :: k
              | [] => [x]
              end
  end.

Section bm25.
Context `{LibM}.

Definition bm25_query_terms (query : list N) (scorer : LexicalScorer.t) (content_only : bool)
    : list (list N) :=
  let tokens := LexicalScorer.tokens scorer query in
  dedup (sort_by_cmp bytes_cmp (if content_only then content_query_tokens tokens else tokens)).

(** A term's documents, and its occurrences in one. *)
Definition document_frequency (documents : list (UnitId * list (list N))) (term : list N) : nat :=
  length (retain (λ document, bool_decide (term ∈ snd document)) documents).
Definition term_frequency (tokens : list (list N)) (term : list N) : nat :=
  length (retain (λ token, bool_decide (token = term)) tokens).

Definition f32_of_nat (n : nat) : f32 := f32_of_N (N.of_nat n).
Definition f32_is_zero (x : f32) : bool :=
  match f32_partial_cmp x f32_zero with Some Eq => true | _ => false end.

Definition bm25_term_score (documents : list (UnitId * list (list N))) (average_length : f32)
    (tokens : list (list N)) (score : f32) (term : list N) : f32 :=
  let frequency := f32_of_nat (term_frequency tokens term) in
  if f32_is_zero frequency then score
  else
    let corpus := f32_of_nat (length documents) in
    let length := f32_of_nat (length tokens) in
    let df := f32_of_nat (document_frequency documents term) in
    let idf := f32_ln (f32_add f32_one
      (f32_div (f32_add (f32_sub corpus df) f32_half) (f32_add df f32_half))) in
    let denominator := f32_add frequency
      (f32_mul BM25_K1 (f32_add (f32_sub f32_one BM25_B)
         (f32_div (f32_mul BM25_B length) average_length))) in
    f32_add score
      (f32_div (f32_mul (f32_mul idf frequency) (f32_add BM25_K1 f32_one)) denominator).

Definition bm25_unit_scores (units : list StoredMemoryUnit) (query : string)
    (scorer : LexicalScorer.t) (content_only : bool) : gmap UnitId f32 :=
  let query_terms := bm25_query_terms (bytes_of query) scorer content_only in
  if is_empty units || is_empty query_terms then ∅
  else
    let documents := map (λ unit, (mu_id unit,
      LexicalScorer.tokens_borrowed scorer (to_ascii_lowercase (bytes_of (mu_body unit))))) units in
    let total_length := sum_list_with (λ document, length (snd document)) documents in
    let average_length :=
      f32_max (f32_div (f32_of_nat total_length) (f32_of_nat (length documents))) f32_one in
    foldl (λ scores '(id, tokens),
        let score := foldl (bm25_term_score documents average_length tokens) f32_zero query_terms in
        if f32_pos score then <[id := score]> scores else scores) ∅ documents.
End bm25.

(** ** Windows for the cross-encoder *)

Notation Windows := (list (list N)) (only parsing).

Definition char_count (l : list N) : N := N.of_nat (length (chars l)).

(** The open window and its characters. *)
Record SplitState : Set := mkSplit {
  sp_windows : Windows;
  sp_current : list N;
  sp_current_len : N;
}.

Definition flush_current (st : SplitState) : Windows :=
  if is_empty (sp_current st) then sp_windows st else sp_windows st ++ [sp_current st].

(** The characters of an oversized word, cut every [budget]. *)
Fixpoint hard_split (budget : N) (windows : Windows) (piece : list N) (piece_len : N)
    (cs : list (list N)) : SplitState :=
  match cs with
  | [] => mkSplit windows piece piece_len
  | c :: cs =>
      if piece_len =? budget then hard_split budget (windows ++ [piece]) c 1 cs
      else hard_split budget windows (piece ++ c) (piece_len + 1) cs
  end.

Definition split_step (budget : N) (st : SplitState) (word : list N) : SplitState :=
  let word_len := char_count word in
  if budget <? word_len then
    let windows := flush_current st in
    hard_split budget windows [] 0 (chars word)
  else
    let empty := is_empty (sp_current st) in
    let added := if empty then word_len else word_len + 1 in
    if budget <? sp_current_len st + added then
      mkSplit (sp_windows st ++ [sp_current st]) word word_len
    else if empty then mkSplit (sp_windows st) word (sp_current_len st + word_len)
    else mkSplit (sp_windows st) (sp_current st ++ [32] ++ word) (sp_current_len st + 1 + word_len).

Definition sub_split_for_rerank (text : list N) (budget : N) : Windows :=
  let trimmed := trim text in
  if is_empty trimmed then []
  else if (budget =? u64_max) || (char_count trimmed <=? budget) then [trimmed]
  else flush_current (foldl (split_step budget) (mkSplit [] [] 0) (split_words [] trimmed)).

(** ** The rerank *)

Module CrossRerankGranularity.
Inductive t : Set := UnitBody | ContextualChunks.
End CrossRerankGranularity.

Module CrossRerankFailure.
Inductive t : Set := NoFailure | Error | Empty | InvalidScoreCount | NonFiniteScore.
End CrossRerankFailure.

Record CrossRerankerConfig : Set := mkRerankConfig {
  rk_provider : string;
  rk_model : string;
  rk_candidate_limit : nat;
  rk_max_length : N;
  rk_batch_size : option N;
}.

Record CrossRerankTrace : Set := mkRerankTrace {
  xt_provider : string;
  xt_model : string;
  xt_candidate_limit : nat;
  xt_candidate_count : nat;
  xt_granularity : CrossRerankGranularity.t;
  xt_docs_scored : nat;
  xt_max_length : N;
  xt_batch_size : option N;
  xt_input_chars_p50 : nat;
  xt_input_chars_p95 : nat;
  xt_input_chars_max : nat;
  xt_failure : CrossRerankFailure.t;
}.

(** The cross-encoder. *)
Class CrossReranker := {
  reranker_config : CrossRerankerConfig;
  rerank : string → list string → result string (list f32);
}.

Definition RERANK_CHARS_PER_TOKEN : N := 3.
Definition RERANK_MAX_SUBCHUNKS_PER_CANDIDATE : nat := 16.

Definition should_rerank (fused : list CandidateAccumulator) (k : N) : bool :=
  if N.of_nat (length fused) <=? k then false
  else negb match fused with
            | top :: _ =>
                existsb (λ '(channel, _, _), bool_decide (channel = RecallChannel.Exact))
                  (ca_channels top)
            | [] => false
            end.

Definition percentile (sorted : list nat) (percentile : nat) : nat :=
  match sorted with
  | [] => 0
  | _ => default 0%nat (sorted !! ((percentile * length sorted + 99) / 100 - 1)%nat)
  end.

Definition f32_is_finite (x : f32) : bool := negb (f32_exponent x =? 255).
Definition f32_neg_infinity : f32 := 0xff800000.

Definition candidate_docs (granularity : CrossRerankGranularity.t) (char_budget : N)
    (unit : StoredMemoryUnit) : list string :=
  match granularity with
  | CrossRerankGranularity.UnitBody => [mu_body unit]
  | CrossRerankGranularity.ContextualChunks =>
      let sources := if is_empty (mu_contextual_chunks unit) then [mu_body unit]
                     else map ch_body (mu_contextual_chunks unit) in
      let docs := take RERANK_MAX_SUBCHUNKS_PER_CANDIDATE
        (map string_of_bytes
           (flat_map (λ source, sub_split_for_rerank (bytes_of source) char_budget) sources)) in
      if is_empty docs then [mu_body unit] else docs
  end.

(** The scores of each candidate's own documents. *)
Fixpoint split_ranges (lengths : list nat) (scores : list f32) : list (list f32) :=
  match lengths with
  | [] => []
  | n :: lengths => take n scores :: split_ranges lengths (drop n scores)
  end.

Fixpoint stamp_ranks (rank : N) (l : list CandidateAccumulator) : list CandidateAccumulator :=
  match l with
  | [] => []
  | c :: l => c <| ca_cross_rerank_rank := Some rank |> :: stamp_ranks (rank + 1) l
  end.

Section rerank.
Context `{CrossReranker}.

Definition rerank_char_budget : N :=
  let max_length := rk_max_length reranker_config in
  if max_length =? 0 then u64_max
  else N.max (N.min u64_max (max_length * RERANK_CHARS_PER_TOKEN)) 1.

Definition rerank_scores (query : string) (docs : list string)
    : CrossRerankFailure.t + list f32 :=
  match rerank query docs with
  | Ok scores =>
      if is_empty scores then inl CrossRerankFailure.Empty
      else if negb (length scores =? length docs)%nat then inl CrossRerankFailure.InvalidScoreCount
      else if existsb (λ score, negb (f32_is_finite score)) scores
      then inl CrossRerankFailure.NonFiniteScore
      else inr scores
  | Err _ => inl CrossRerankFailure.Error
  end.

(** The head in descending score, equal scores in fused order. *)
Definition rerank_order (candidate_scores : list f32) (head : nat) : list nat :=
  let score index := default f32_zero (candidate_scores !! index) in
  sort_by_cmp (λ l r, f32_cmp_or_equal (score r) (score l)) (seq 0 head).

Definition cross_rerank_candidates (fused : list CandidateAccumulator) (query : string)
    (pool : nat) (granularity : CrossRerankGranularity.t)
    : list CandidateAccumulator * CrossRerankTrace :=
  let config := reranker_config in
  let head := Nat.min (Nat.min pool (rk_candidate_limit config)) (length fused) in
  let doc_lists := map (λ candidate, candidate_docs granularity rerank_char_budget (ca_unit candidate))
                     (take head fused) in
  let docs := concat doc_lists in
  let input_chars :=
    sort_by Nat.leb (map (λ doc, length (chars (bytes_of doc))) docs) in
  let trace failure := {|
    xt_provider := rk_provider config;
    xt_model := rk_model config;
    xt_candidate_limit := rk_candidate_limit config;
    xt_candidate_count := head;
    xt_granularity := granularity;
    xt_docs_scored := length docs;
    xt_max_length := rk_max_length config;
    xt_batch_size := rk_batch_size config;
    xt_input_chars_p50 := percentile input_chars 50;
    xt_input_chars_p95 := percentile input_chars 95;
    xt_input_chars_max := default 0%nat (last input_chars);
    xt_failure := failure |} in
  if (head =? 0)%nat then (fused, trace CrossRerankFailure.NoFailure)
  else
    match rerank_scores query docs with
    | inl failure => (fused, trace failure)
    | inr scores =>
        let candidate_scores :=
          map (foldl f32_max f32_neg_infinity) (split_ranges (map length doc_lists) scores) in
        let reordered :=
          stamp_ranks 0 (reorder_candidates fused (rerank_order candidate_scores head)) in
        (reordered ++ drop head fused, trace CrossRerankFailure.NoFailure)
    end.
End rerank.

(** ** Balanced promotion *)

Definition pair_cmp {A B} (cmpA : A → A → comparison) (cmpB : B → B → comparison)
    (x y : A * B) : comparison :=
  then_cmp (cmpA (fst x) (fst y)) (cmpB (snd x) (snd y)).

(** A channel's candidates by their best rank in it. *)
Definition ranked_in (fused : list CandidateAccumulator) (channel : RecallChannel.t)
    : list (N * nat) :=
  sort_by_cmp (pair_cmp N.compare Nat.compare)
    (omap (λ '(index, candidate),
        match map (λ '(_, rank, _), rank)
                (retain (λ '(c, _, _), bool_decide (c = channel)) (ca_channels candidate)) with
        | [] => None
        | rank :: ranks => Some (foldl N.min rank ranks, index)
        end) (imap pair fused)).

(** Up to [quota] new indices. *)
Fixpoint add_quota (quota : nat) (selected l : list nat) : list nat :=
  match quota, l with
  | S q, index :: l =>
      if bool_decide (index ∈ selected) then add_quota quota selected l
      else add_quota q (selected ++ [index]) l
  | _, _ => selected
  end.

(** New indices until [target]. *)
Fixpoint add_until (target : nat) (selected l : list nat) : list nat :=
  match l with
  | [] => selected
  | index :: l =>
      if (length selected =? target)%nat then selected
      else if bool_decide (index ∈ selected) then add_until target selected l
      else add_until target (selected ++ [index]) l
  end.

Definition balanced_selection (fused : list CandidateAccumulator) (candidate_limit : nat)
    : list nat :=
  let target := Nat.min candidate_limit (length fused) in
  let vector := ranked_in fused RecallChannel.Vector in
  let lexical := ranked_in fused RecallChannel.Lexical in
  let selected := add_quota ((target + 1) / 2) [] (map snd vector) in
  let selected := add_quota (target / 2) selected (map snd lexical) in
  let channel_backfill :=
    sort_by_cmp (pair_cmp N.compare (pair_cmp Nat.compare Nat.compare))
      (map (λ '(rank, index), (rank, (0%nat, index))) vector ++
       map (λ '(rank, index), (rank, (1%nat, index))) lexical) in
  let selected := add_until target selected (map (λ '(_, (_, index)), index) channel_backfill) in
  add_until target selected (seq 0 (length fused)).

Definition promote_vector_lexical_balanced (fused : list CandidateAccumulator)
    (candidate_limit : nat) : list CandidateAccumulator :=
  reorder_candidates fused
    (complete_order (length fused) (balanced_selection fused candidate_limit)).
