(* ===== verification/RerankFacts.v ===== *)
(** * RerankFacts: tokenizers agree, windows fit, reranking permutes

    Theorems on Rerank.v: the borrowing tokenizer yields the token bag of the
    allocating one; the windows a cross-encoder is fed hold at most the
    character budget each and all non-white characters of the text in order; a
    rerank leaves the candidates alone or permutes the scored head; the
    balanced promotion is a permutation that fills its target. *)

From S2P Require Import Prelude Text Types Float TextFacts Render Gate Pack PackFacts Rerank.

(** ** The two tokenizers *)

(** The tokenizer that borrows slices of lowered text yields the same bag of
    tokens, with multiplicity, as the one that allocates. *)
Theorem tokens_borrowed_equiv scorer text :
  LexicalScorer.tokens_borrowed scorer (to_ascii_lowercase text) ≡ₚ
    LexicalScorer.tokens scorer text.
Proof.
  destruct scorer; [done..|]. cbn [LexicalScorer.tokens_borrowed LexicalScorer.tokens].
  unfold bm25_code_tokens, bm25_control_tokens.
  induction (pieces is_bm25_token_char [] (to_ascii_lowercase text)) as [|token l IH]; [done|].
  cbn [flat_map app]. rewrite <-IH, <-!app_assoc. cbn [app].
  rewrite <-Permutation_middle. f_equiv. rewrite !app_assoc. f_equiv. apply Permutation_app_comm.
Qed.

(** ** Windows *)

(** A window: valid text of at most [budget] characters. *)
Definition window_fits (budget : N) (w : list N) : Prop :=
  valid_utf8 w = true ∧ char_count w <= budget.

Definition total_ink (windows : list (list N)) : list (list N) := flat_map ink windows.

Lemma ink_app_valid l k :
  starts_char k → ink (l ++ k) = ink l ++ ink k.
Proof. intros Hk. unfold ink. by rewrite chars_app, retain_app. Qed.

Lemma valid_app l k : valid_utf8 l = true → valid_utf8 k = true →
  valid_utf8 (l ++ k) = true ∧ chars (l ++ k) = chars l ++ chars k.
Proof.
  intros Hl Hk. assert (chars (l ++ k) = chars l ++ chars k) as H
    by (by apply chars_app, valid_utf8_starts).
  split; [|done]. unfold valid_utf8 in *. by rewrite H, forallb_app, Hl.
Qed.

Lemma char_count_app l k : valid_utf8 l = true → valid_utf8 k = true →
  char_count (l ++ k) = char_count l + char_count k.
Proof.
  intros Hl Hk. unfold char_count. destruct (valid_app l k Hl Hk) as [_ ->].
  rewrite length_app. lia.
Qed.

Lemma char_ok_valid c : char_ok c = true → valid_utf8 c = true ∧ chars c = [c].
Proof.
  intros Hc. assert (chars (concat [c]) = [c]) as H by (apply chars_of_concat; cbn; by rewrite Hc).
  cbn [concat] in H. rewrite app_nil_r in H. split; [|done]. unfold valid_utf8. rewrite H. cbn.
  by rewrite Hc.
Qed.

Section windows.
Context (budget : N).
Hypothesis Hbudget : 0 < budget.

(** The open window is valid, its length is counted, and it fits. *)
Record split_ok (done_ : list (list N)) (st : SplitState) : Prop := {
  sk_windows : Forall (window_fits budget) (sp_windows st);
  sk_current : window_fits budget (sp_current st);
  sk_len : sp_current_len st = char_count (sp_current st);
  sk_ink : total_ink (sp_windows st) ++ ink (sp_current st) = done_;
}.

Lemma flush_current_ok done_ st : split_ok done_ st →
  Forall (window_fits budget) (flush_current st) ∧ total_ink (flush_current st) = done_.
Proof.
  intros [Hw Hc Hl Hi]. unfold flush_current. destruct (sp_current st) as [|a l] eqn:E; cbn [is_empty].
  - split; [done|]. rewrite app_nil_r in Hi. done.
  - split; [apply Forall_app; by split; [|apply Forall_singleton]|].
    unfold total_ink in *. rewrite flat_map_app. cbn [flat_map]. by rewrite app_nil_r.
Qed.

Lemma hard_split_ok cs done_ windows piece n :
  forallb char_ok cs = true → forallb nonwhite cs = true →
  split_ok done_ (mkSplit windows piece n) →
  split_ok (done_ ++ cs) (hard_split budget windows piece n cs).
Proof.
  revert done_ windows piece n. induction cs as [|c cs IH]; intros done_ windows piece n Hcs Hn Hok.
  { by rewrite app_nil_r. }
  cbn [forallb] in Hcs, Hn. apply andb_true_iff in Hcs as [Hc Hcs].
  apply andb_true_iff in Hn as [Hnc Hn]. destruct (char_ok_valid c Hc) as [Hv Hch].
  assert (ink c = [c]) as Hink by (unfold ink; rewrite Hch, retain_cons, Hnc; done).
  assert (char_count c = 1) as Hone by (unfold char_count; by rewrite Hch).
  destruct Hok as [Hw Hp Hl Hi]. cbn [sp_windows sp_current sp_current_len] in *.
  cbn [hard_split]. change (c :: cs) with ([c] ++ cs). rewrite app_assoc.
  destruct (N.eqb_spec n budget) as [->|Hne]; apply IH; try done.
  - constructor; cbn [sp_windows sp_current sp_current_len].
    + apply Forall_app. by split; [|apply Forall_singleton].
    + split; [done|]. rewrite Hone. lia.
    + by rewrite Hone.
    + unfold total_ink in *. rewrite flat_map_app. cbn [flat_map]. by rewrite app_nil_r, Hi, Hink.
  - destruct Hp as [Hpv Hpn]. constructor; cbn [sp_windows sp_current sp_current_len].
    + done.
    + split; [by apply valid_app|]. rewrite char_count_app, Hone by done. lia.
    + rewrite char_count_app, Hone by done. lia.
    + rewrite ink_app_valid by (by apply valid_utf8_starts). by rewrite Hink, app_assoc, Hi.
Qed.

Lemma split_step_ok done_ st word : split_ok done_ st → word_ok word →
  split_ok (done_ ++ chars word) (split_step budget st word).
Proof.
  intros Hok (Hne & Hwv & Hwn). unfold split_step.
  assert (ink word = chars word) as Hink.
  { unfold ink. apply retain_all. intros c Hc. rewrite forallb_forall in Hwn.
    by apply Hwn, list_elem_of_In. }
  destruct (N.ltb_spec budget (char_count word)) as [Hbig|Hsmall].
  { destruct (flush_current_ok done_ st Hok) as [Hf Hfi]. apply hard_split_ok; [done..|].
    constructor; cbn [sp_windows sp_current sp_current_len].
    - done.
    - split; [done|]. change (char_count []) with 0. lia.
    - done.
    - change (ink []) with (@nil (list N)). by rewrite app_nil_r. }
  assert (window_fits budget word) as Hword by (by split).
  destruct Hok as [Hw Hc Hl Hi]. destruct Hc as [Hcv Hcn].
  destruct (N.ltb_spec budget (sp_current_len st +
    (if is_empty (sp_current st) then char_count word else char_count word + 1))) as [Hover|Hfit].
  { constructor; cbn [sp_windows sp_current sp_current_len]; try done.
    - apply Forall_app. split; [done|]. apply Forall_singleton. by split.
    - unfold total_ink in *. rewrite flat_map_app. cbn [flat_map]. by rewrite app_nil_r, Hi, Hink. }
  destruct (sp_current st) as [|a l] eqn:E; cbn [is_empty] in *.
  - constructor; cbn [sp_windows sp_current sp_current_len]; try done.
    + rewrite Hl. change (char_count []) with 0. lia.
    + change (ink []) with (@nil (list N)) in Hi. rewrite app_nil_r in Hi. by rewrite Hi, Hink.
  - assert (valid_utf8 [32] = true) as Hsp by reflexivity.
    assert (valid_utf8 ([32] ++ word) = true) as Hsv by (by apply valid_app).
    assert (char_count ((a :: l) ++ [32] ++ word) = sp_current_len st + 1 + char_count word) as Hcount.
    { rewrite char_count_app, char_count_app by done. change (char_count [32]) with 1. lia. }
    constructor; cbn [sp_windows sp_current sp_current_len].
    + done.
    + split; [by apply valid_app|]. rewrite Hcount. lia.
    + by rewrite Hcount.
    + rewrite ink_app_valid by (by apply valid_utf8_starts).
      rewrite (ink_app_valid [32]) by (by apply valid_utf8_starts).
      change (ink [32]) with (@nil (list N)). cbn [app]. by rewrite app_assoc, Hi, Hink.
Qed.

Lemma split_words_ok words done_ st : split_ok done_ st → Forall word_ok words →
  split_ok (done_ ++ flat_map chars words) (foldl (split_step budget) st words).
Proof.
  intros Hok Hw. revert done_ st Hok. induction Hw as [|w words Hw Hws IH]; intros done_ st Hok.
  { by rewrite app_nil_r. }
  cbn [flat_map foldl]. rewrite app_assoc. apply IH. by apply split_step_ok.
Qed.

Lemma sub_split_spec text : valid_utf8 text = true → budget < u64_max →
  Forall (window_fits budget) (sub_split_for_rerank text budget) ∧
  total_ink (sub_split_for_rerank text budget) = ink text.
Proof.
  intros Hv Hb. destruct (trim_spec text Hv) as [Htv Hti]. unfold sub_split_for_rerank.
  rewrite <-Hti. revert Htv. generalize (trim text). intros t Htv.
  destruct t as [|a t]; cbn [is_empty]; [by split|]. set (l := a :: t) in *.
  rewrite (proj2 (N.eqb_neq budget u64_max)) by lia. cbn [orb].
  destruct (N.leb_spec (char_count l) budget).
  { split; [apply Forall_singleton; by split|]. unfold total_ink. cbn [flat_map]. apply app_nil_r. }
  destruct (split_words_valid l Htv) as [Hw Hi].
  pose proof (split_words_ok (split_words [] l) [] (mkSplit [] [] 0)) as Hs.
  rewrite Hi in Hs. cbn [app] in Hs. apply flush_current_ok, Hs; [|done].
  constructor; cbn [sp_windows sp_current sp_current_len]; try done.
  split; [done|]. change (char_count []) with 0. lia.
Qed.
End windows.

(** The windows fed to the cross-encoder: every window of a text is valid
    text of at most the character budget, and together they hold the text's
    non-white characters, each once and in order. *)
Theorem rerank_windows_lossless text budget :
  valid_utf8 text = true → 0 < budget → budget < u64_max →
  Forall (window_fits budget) (sub_split_for_rerank text budget) ∧
  total_ink (sub_split_for_rerank text budget) = ink text.
Proof. intros. by apply sub_split_spec. Qed.

(** ** The rerank permutes its head *)

Lemma rerank_order_perm scores head : rerank_order scores head ≡ₚ seq 0 head.
Proof. apply sort_by_perm. Qed.

Lemma reorder_head fused head order : (head <= length fused)%nat → order ≡ₚ seq 0 head →
  reorder_candidates fused order ≡ₚ take head fused.
Proof.
  intros Hh Ho. unfold reorder_candidates. rewrite Ho.
  pose proof (omap_lookup_seq (take head fused) 0 [] eq_refl) as E. cbn [app] in E.
  rewrite length_take_le in E by done. rewrite <-E.
  assert (omap (λ i, fused !! i) (seq 0 head) = omap (λ i, take head fused !! i) (seq 0 head)) as ->;
    [|done].
  apply list_omap_ext, Forall_Forall2_diag, Forall_forall. intros i Hi%elem_of_seq.
  rewrite lookup_take_lt by lia. done.
Qed.

(** Scores are used only when there is one finite score per document. *)
Lemma rerank_scores_ok `{CrossReranker} query docs scores :
  rerank_scores query docs = inr scores →
  rerank query docs = Ok scores ∧ length scores = length docs ∧
  Forall (λ score, f32_is_finite score = true) scores.
Proof.
  unfold rerank_scores. destruct (rerank query docs) as [l|]; [|done].
  destruct (is_empty l); [done|]. destruct (Nat.eqb_spec (length l) (length docs)); [|done].
  destruct (existsb _ l) eqn:E; [done|]. intros [= ->]. split_and!; [done..|].
  apply Forall_forall. intros x Hx. destruct (f32_is_finite x) eqn:Hf; [done|]. exfalso.
  assert (existsb (λ score, negb (f32_is_finite score)) scores = true); [|congruence].
  apply existsb_exists. exists x. rewrite Hf. split; [by apply list_elem_of_In|done].
Qed.

Lemma cross_rerank_spec `{CrossReranker} fused query pool granularity :
  let '(reranked, trace) := cross_rerank_candidates fused query pool granularity in
  (reranked = fused ∨
   xt_failure trace = CrossRerankFailure.NoFailure ∧ ∃ docs scores ordered,
     rerank query docs = Ok scores ∧ length scores = length docs ∧
     length docs = xt_docs_scored trace ∧
     Forall (λ score, f32_is_finite score = true) scores ∧
     ordered ≡ₚ take (xt_candidate_count trace) fused ∧
     reranked = stamp_ranks 0 ordered ++ drop (xt_candidate_count trace) fused) ∧
  (xt_failure trace ≠ CrossRerankFailure.NoFailure → reranked = fused).
Proof.
  unfold cross_rerank_candidates. set (head := Nat.min _ (length fused)).
  destruct (Nat.eqb_spec head 0) as [E|E]; cbn [xt_failure xt_candidate_count];
    [by split; [left|]|].
  destruct (rerank_scores _ _) as [failure|scores] eqn:Es;
    cbn [xt_failure xt_candidate_count xt_docs_scored]; [by split; [left|]|].
  apply rerank_scores_ok in Es as (Hr & Hl & Hf).
  split; [|done]. right. split; [done|]. do 3 eexists. split_and!; [exact Hr|done..| |reflexivity].
  apply reorder_head; [unfold head; lia | apply rerank_order_perm].
Qed.

(** A cross-encoder rerank never loses, invents or moves a candidate outside
    the head it scored: it leaves the fused order as it is (always, when the
    inference fails or returns invalid scores), or, given one finite score per
    document, permutes the head and stamps the ranks on it, the tail staying
    where it was. *)
Theorem cross_rerank_permutes `{CrossReranker} fused query pool granularity :
  let '(reranked, trace) := cross_rerank_candidates fused query pool granularity in
  (reranked = fused ∨
   xt_failure trace = CrossRerankFailure.NoFailure ∧ ∃ docs scores ordered,
     rerank query docs = Ok scores ∧ length scores = length docs ∧
     length docs = xt_docs_scored trace ∧
     Forall (λ score, f32_is_finite score = true) scores ∧
     ordered ≡ₚ take (xt_candidate_count trace) fused ∧
     reranked = stamp_ranks 0 ordered ++ drop (xt_candidate_count trace) fused) ∧
  (xt_failure trace ≠ CrossRerankFailure.NoFailure → reranked = fused).
Proof. apply cross_rerank_spec. Qed.

(** ** The balanced promotion *)

Definition selection_within (count : nat) (target : nat) (selected : list nat) : Prop :=
  NoDup selected ∧ Forall (λ i, (i < count)%nat) selected ∧ (length selected <= target)%nat.

Lemma add_quota_ok count quota selected l target :
  selection_within count target selected → Forall (λ i, (i < count)%nat) l →
  selection_within count (target + quota) (add_quota quota selected l).
Proof.
  intros Hs Hl. revert quota selected target Hs.
  induction Hl as [|i l Hi Hl IH]; intros quota selected target (Hn & Hf & Hlen);
    destruct quota as [|quota]; cbn [add_quota]; try (by split_and!; [..|lia]).
  case_bool_decide as Hin.
  - by apply IH.
  - replace (target + S quota)%nat with (S target + quota)%nat by lia. apply IH. split_and!.
    + apply NoDup_app. split_and!; [done| |apply NoDup_singleton].
      intros j Hj Hji%list_elem_of_singleton. by subst.
    + apply Forall_app. by split; [|apply Forall_singleton].
    + rewrite length_app. simpl. lia.
Qed.

Lemma add_until_ok count target selected l :
  selection_within count target selected → Forall (λ i, (i < count)%nat) l →
  selection_within count target (add_until target selected l) ∧
  (∀ i, i ∈ l → i ∈ add_until target selected l ∨ length (add_until target selected l) = target) ∧
  selected ⊆ add_until target selected l.
Proof.
  intros Hs Hl. revert selected Hs. induction Hl as [|i l Hi Hl IH]; intros selected Hs.
  { cbn [add_until]. split_and!; [done|set_solver|done]. }
  cbn [add_until]. destruct (Nat.eqb_spec (length selected) target) as [E|E].
  { split_and!; [done|by right|done]. }
  case_bool_decide as Hin.
  - destruct (IH selected Hs) as (G1 & G2 & G3). split_and!; [done| |done].
    intros j [->|Hj]%elem_of_cons; [left; by apply G3 | by apply G2].
  - destruct Hs as (Hn & Hf & Hlen). destruct (IH (selected ++ [i])) as (G1 & G2 & G3).
    { split_and!.
      - apply NoDup_app. split_and!; [done| |apply NoDup_singleton].
        intros j Hj Hji%list_elem_of_singleton. by subst.
      - apply Forall_app. by split; [|apply Forall_singleton].
      - rewrite length_app. simpl. lia. }
    split_and!; [done| |set_solver].
    intros j [->|Hj]%elem_of_cons; [left; apply G3; set_solver | by apply G2].
Qed.

Lemma ranked_in_lt fused channel : Forall (λ i, (i < length fused)%nat) (map snd (ranked_in fused channel)).
Proof.
  apply Forall_forall. intros i ([rank j] & -> & Hin)%list_elem_of_fmap. cbn [snd].
  unfold ranked_in, sort_by_cmp in Hin. rewrite elem_of_sort_by in Hin.
  apply list_elem_of_omap in Hin as ([k c] & Hk & Hf).
  destruct (map _ _) as [|rank' ranks]; [done|]. injection Hf as _ <-.
  apply list_elem_of_lookup in Hk as [n Hn]. rewrite list_lookup_imap in Hn.
  destruct (fused !! n) eqn:E; [|done]. simpl in Hn. injection Hn as <- _.
  by apply lookup_lt_Some in E.
Qed.

Lemma balanced_selection_ok fused limit :
  NoDup (balanced_selection fused limit) ∧
  Forall (λ i, (i < length fused)%nat) (balanced_selection fused limit) ∧
  length (balanced_selection fused limit) = Nat.min limit (length fused).
Proof.
  unfold balanced_selection. set (target := Nat.min limit (length fused)).
  set (count := length fused) in *.
  assert (target = (target + 1) / 2 + target / 2)%nat as Ht.
  { pose proof (Nat.div_mod target 2 ltac:(done)). pose proof (Nat.div_mod (target + 1) 2 ltac:(done)).
    pose proof (Nat.mod_upper_bound target 2 ltac:(done)).
    pose proof (Nat.mod_upper_bound (target + 1) 2 ltac:(done)). lia. }
  pose proof (ranked_in_lt fused RecallChannel.Vector) as Hv.
  pose proof (ranked_in_lt fused RecallChannel.Lexical) as Hx.
  pose proof (add_quota_ok count ((target + 1) / 2) [] _ 0 ltac:(split_and!; [constructor..|simpl; lia]) Hv) as G1.
  pose proof (add_quota_ok count (target / 2) _ _ _ G1 Hx) as G2.
  replace ((0 + (target + 1) / 2) + target / 2)%nat with target in G2 by lia.
  set (s2 := add_quota (target / 2) _ _) in *.
  set (backfill := map _ (sort_by_cmp _ _)).
  assert (Forall (λ i, (i < count)%nat) backfill) as Hb.
  { apply Forall_forall. intros i ([r [o j]] & -> & Hin)%list_elem_of_fmap.
    unfold sort_by_cmp in Hin. rewrite elem_of_sort_by in Hin.
    rewrite Forall_forall in Hv, Hx.
    apply elem_of_app in Hin as [([r' j'] & [= -> -> ->] & Hin)%list_elem_of_fmap
                                |([r' j'] & [= -> -> ->] & Hin)%list_elem_of_fmap].
    - apply Hv. by apply (list_elem_of_fmap_2 snd) in Hin.
    - apply Hx. by apply (list_elem_of_fmap_2 snd) in Hin. }
  destruct (add_until_ok count target s2 backfill G2 Hb) as (G3 & _ & _).
  assert (Forall (λ i, (i < count)%nat) (seq 0 count)) as Hseq
    by (apply Forall_forall; intros i Hi%elem_of_seq; lia).
  destruct (add_until_ok count target _ (seq 0 count) G3 Hseq) as ((G4 & G5 & G6) & G7 & _).
  split_and!; [done..|]. apply Nat.le_antisymm; [done|].
  destruct (Nat.le_gt_cases target (length (add_until target (add_until target s2 backfill) (seq 0 count))))
    as [|Hlt]; [done|]. exfalso.
  assert (seq 0 count ⊆ add_until target (add_until target s2 backfill) (seq 0 count)) as Hsub.
  { intros i Hi. destruct (G7 i Hi) as [|He]; [done|]. lia. }
  assert (seq 0 count ⊆+ add_until target (add_until target s2 backfill) (seq 0 count)) as Hle
    by (apply NoDup_submseteq; [apply NoDup_seq | done]).
  apply submseteq_length in Hle. rewrite length_seq in Hle. unfold target in *. lia.
Qed.

Lemma promotion_perm fused limit : promote_vector_lexical_balanced fused limit ≡ₚ fused.
Proof.
  destruct (balanced_selection_ok fused limit) as (Hn & Hf & Hl).
  apply reorder_perm. by apply complete_order_perm.
Qed.

(** Balancing the channels ahead of a rerank only reorders: the promoted
    candidates are a permutation of the fused ones, headed by a selection that
    fills the candidate limit (or holds every candidate). *)
Theorem promotion_permutes fused limit :
  promote_vector_lexical_balanced fused limit ≡ₚ fused ∧
  ∃ selected, NoDup selected ∧ length selected = Nat.min limit (length fused) ∧
    take (Nat.min limit (length fused)) (promote_vector_lexical_balanced fused limit) =
      reorder_candidates fused selected.
Proof.
  destruct (balanced_selection_ok fused limit) as (Hn & Hf & Hl). split.
  - apply promotion_perm.
  - exists (balanced_selection fused limit). split_and!; [done..|].
    unfold promote_vector_lexical_balanced, complete_order, reorder_candidates.
    rewrite omap_app, take_app_length'; [done|]. rewrite <-Hl. clear Hn Hl.
    induction Hf as [|i l Hi Hf IH]; [done|]. cbn [omap list_omap].
    destruct (lookup_lt_is_Some_2 fused i Hi) as [c ->]. simpl. by rewrite IH.
Qed.
