(* ===== verification/Fuse.v ===== *)
(** * Fuse: decay and the fusion of the recall channels

    The fusion stage of [crates/memphant-core/src/lib.rs]: every channel ranks
    the units it may serve, a unit's votes are summed by weighted reciprocal
    rank, the decay of its review history scales the sum, and the candidates
    are sorted.  The spaced-repetition model (the [fsrs] crate) is an
    interface; the rows of the trace are in Recall. *)

From S2P Require Import Prelude Text Types Float Clock Chunks Render Gate Pack Rerank.

(** ** Decay *)

(** A memory state: stability and difficulty. *)
Notation MemoryState := (f32 * f32)%type (only parsing).

Record NextStates : Set := mkNextStates {
  nx_again : MemoryState;
  nx_hard : MemoryState;
  nx_good : MemoryState;
}.

Class Fsrs := {
  next_states : MemoryState → f32 → N → option NextStates;
  current_retrievability : MemoryState → f32 → f32;
}.

Definition f32_clamp (x min max : f32) : f32 :=
  if f32_lt x min then min else if f32_lt max x then max else x.

Definition DEFAULT_STABILITY_DAYS : f32 := 0x40e00000.
Definition DEFAULT_DIFFICULTY : f32 := 0x40a00000.

(** 0.95, 0.9, 0.8, 0.7, 0.75. *)
Definition desired_retention_prior (unit : StoredMemoryUnit) : f32 :=
  let class_is names := match normalize_component <$> mu_churn_class unit with
                        | Some churn => bool_decide (churn ∈ (names : list string))
                        | None => false
                        end in
  if class_is ["identity"; "stable"] then 0x3f733333
  else if class_is ["slow"] then 0x3f666666
  else if class_is ["volatile"] then 0x3f4ccccd
  else if class_is ["web"; "world state"; "world-state"] then 0x3f333333
  else if bool_decide (mu_kind unit = MemoryKind.Belief) then 0x3f400000
  else 0x3f666666.

Definition days_elapsed_for_review (outcome : MarkOutcome.t) : N :=
  match outcome with
  | MarkOutcome.Success => 7
  | MarkOutcome.Corrected => 3
  | MarkOutcome.Ignored | MarkOutcome.Failure => 21
  end.

(** 14, 7 and 5 days. *)
Definition days_since_last_review (event_count : N) (last_outcome : option MarkOutcome.t) : f32 :=
  if event_count =? 0 then 0x41600000
  else match last_outcome with
       | Some MarkOutcome.Success => 0x40e00000
       | Some MarkOutcome.Corrected => 0x40a00000
       | _ => 0x41600000
       end.

(** 0.03, 0.01, -0.35 and -0.45. *)
Definition outcome_adjustment (outcome : MarkOutcome.t) : f32 :=
  match outcome with
  | MarkOutcome.Success => 0x3cf5c28f
  | MarkOutcome.Corrected => 0x3c23d70a
  | MarkOutcome.Ignored => 0xbeb33333
  | MarkOutcome.Failure => 0xbee66666
  end.

(** The events that used a unit, one per trace and caller. *)
Fixpoint first_per_source (seen : list (TraceId * string)) (events : list ReviewEvent)
    : list ReviewEvent :=
  match events with
  | [] => []
  | event :: events =>
      let source_key := (rv_trace_id event, rv_caller_id event) in
      if bool_decide (source_key ∈ seen) then first_per_source seen events
      else event :: first_per_source (source_key :: seen) events
  end.

Definition unit_events (review_events : list ReviewEvent) (unit_id : UnitId) : list ReviewEvent :=
  first_per_source [] (retain (λ event, bool_decide (unit_id ∈ rv_used_ids event)) review_events).

(** Clamped to 0.2 and 1.15. *)
Definition review_grade_adjustment (review_events : list ReviewEvent) (unit_id : UnitId) : f32 :=
  f32_clamp
    (foldl (λ adjustment event, f32_add adjustment (outcome_adjustment (rv_outcome event)))
       f32_one (unit_events review_events unit_id))
    0x3e4ccccd 0x3f933333.

Definition u32_saturating_succ (n : N) : N := N.min 4294967295 (n + 1).

Section decay.
Context `{Fsrs}.

Definition decay_step (unit : StoredMemoryUnit)
    (st : MemoryState * N * N * option MarkOutcome.t) (event : ReviewEvent)
    : MemoryState * N * N * option MarkOutcome.t :=
  let '(state, reinforcement_count, event_count, _) := st in
  let outcome := rv_outcome event in
  let '(state, reinforcement_count) :=
    match next_states state (desired_retention_prior unit) (days_elapsed_for_review outcome) with
    | Some next =>
        match outcome with
        | MarkOutcome.Success => (nx_good next, u32_saturating_succ reinforcement_count)
        | MarkOutcome.Corrected => (nx_hard next, u32_saturating_succ reinforcement_count)
        | MarkOutcome.Ignored | MarkOutcome.Failure => (nx_again next, reinforcement_count)
        end
    | None => (state, reinforcement_count)
    end in
  (state, reinforcement_count, u32_saturating_succ event_count, Some outcome).

Definition decay_score_for (unit : StoredMemoryUnit) (review_events : list ReviewEvent)
    (decay_enabled : bool) : DecayScore :=
  if negb decay_enabled then mkDecay f32_one (mu_reinforcement_count unit)
  else
    let '(state, reinforcement_count, event_count, last_outcome) :=
      foldl (decay_step unit)
        ((DEFAULT_STABILITY_DAYS, DEFAULT_DIFFICULTY), mu_reinforcement_count unit, 0, None)
        (unit_events review_events (mu_id unit)) in
    let elapsed := days_since_last_review event_count last_outcome in
    let retrievability := f32_clamp (current_retrievability state elapsed) f32_zero f32_one in
    let retrievability :=
      f32_mul retrievability (review_grade_adjustment review_events (mu_id unit)) in
    mkDecay (f32_clamp retrievability f32_zero f32_one) reinforcement_count.
End decay.

(** ** Fusion *)

Section fuse.
Context `{Jiff} `{UuidParse} `{HashOrder} `{LibM} `{Fsrs}.

Definition main_channels (bm25 vector edge_expansion_enabled : bool) : list ChannelPass.t :=
  retain (λ pass, edge_expansion_enabled || negb (bool_decide (pass = ChannelPass.Edge)))
    ([ChannelPass.Exact] ++
     (if bm25 then [ChannelPass.Bm25] else [ChannelPass.Lexical; ChannelPass.Semantic]) ++
     [ChannelPass.Temporal; ChannelPass.Edge] ++
     (if vector then [ChannelPass.Vector] else [])).

Definition channel_cmp (left right : StoredMemoryUnit * f32) : comparison :=
  then_cmp (f32_cmp_or_equal (snd right) (snd left))
    (str_cmp (mu_body (fst left)) (mu_body (fst right))).

Notation Candidates := (gmap UnitId CandidateAccumulator) (only parsing).

(** One vote: rank [channel_rank] in [pass] with [score]. *)
Definition cast_vote (pass : ChannelPass.t) (weight : f32) (score_range : f32 * f32)
    (decay : StoredMemoryUnit → DecayScore) (candidates_by_unit : Candidates)
    (vote : nat * (StoredMemoryUnit * f32)) : Candidates :=
  let '(rank, (unit, score)) := vote in
  let channel_rank := N.of_nat rank + 1 in
  let magnitude := if bool_decide (pass = ChannelPass.Exact) then score else f32_one in
  (* 60.0 + channel_rank *)
  let contribution :=
    f32_div (f32_mul magnitude weight) (f32_add 0x42700000 (f32_of_N channel_rank)) in
  let vector_strength := if bool_decide (pass = ChannelPass.Vector)
                         then Some (min_max_strength score score_range) else None in
  let channel := (ChannelPass.label pass, channel_rank, score) in
  match candidates_by_unit !! mu_id unit with
  | Some candidate =>
      <[mu_id unit :=
          candidate <| ca_fused_score ::= λ s, f32_add s contribution |>
                    <| ca_vector_strength ::= λ s, match s with
                                                   | Some s => Some s
                                                   | None => vector_strength
                                                   end |>
                    <| ca_channels ::= λ l, l ++ [channel] |>]> candidates_by_unit
  | None =>
      <[mu_id unit := mkCandidate unit contribution vector_strength None None (decay unit)
                        [channel]]> candidates_by_unit
  end.

(** One of Deep's units: rank [channel_rank]. *)
Definition cast_deep_vote (decay : StoredMemoryUnit → DecayScore)
    (candidates_by_unit : Candidates) (vote : nat * StoredMemoryUnit) : Candidates :=
  let '(rank, unit) := vote in
  let channel_rank := N.of_nat rank + 1 in
  let channel := (RecallChannel.Deep, channel_rank, f32_one) in
  match candidates_by_unit !! mu_id unit with
  | Some candidate =>
      <[mu_id unit := candidate <| ca_deep_rank := Some channel_rank |>
                                <| ca_channels ::= λ l, l ++ [channel] |>]> candidates_by_unit
  | None =>
      <[mu_id unit := mkCandidate unit f32_zero None (Some channel_rank) None (decay unit)
                        [channel]]> candidates_by_unit
  end.

(** The A-recency control: the most recent candidate of each subject key. *)
Definition supersedes_winner (candidate held : CandidateAccumulator) : bool :=
  match cmp_rfc3339 (mu_observed_at (ca_unit candidate)) (mu_observed_at (ca_unit held)) with
  | Gt => true
  | Lt => false
  | Eq => match str_cmp (mu_body (ca_unit candidate)) (mu_body (ca_unit held)) with
          | Gt => true | _ => false
          end
  end.

Definition winner_step (winner : gmap string (nat * CandidateAccumulator))
    (entry : nat * CandidateAccumulator) : gmap string (nat * CandidateAccumulator) :=
  match mu_fact_key (ca_unit (snd entry)) with
  | None => winner
  | Some key =>
      match winner !! key with
      | None => <[key := entry]> winner
      | Some held => if supersedes_winner (snd entry) (snd held) then <[key := entry]> winner
                     else winner
      end
  end.

Definition retain_most_recent_per_subject (fused : list CandidateAccumulator)
    : list CandidateAccumulator :=
  let winner := foldl winner_step ∅ (imap pair fused) in
  map snd (retain (λ '(position, candidate),
      match mu_fact_key (ca_unit candidate) with
      | None => true
      | Some key => match winner !! key with
                    | Some (index, _) => (index =? position)%nat
                    | None => false
                    end
      end) (imap pair fused)).

Record FuseInput : Type := mkFuseInput {
  fu_units : list StoredMemoryUnit;
  fu_edges : list StoredMemoryEdge;
  fu_review_events : list ReviewEvent;
  fu_vector_scores : option (gmap UnitId f32);
  fu_deep_units : list StoredMemoryUnit;
  fu_lexical_scorer : LexicalScorer.t;
  fu_time : RecallTime;
  fu_temporal_window : option DateWindow;
  fu_a_recency_control : bool;
}.

Definition run_channel (input : FuseInput) (request : RecallRequest)
    (query_tokens : list (list N)) (bm25_scores : option (gmap UnitId f32))
    (candidates_by_unit : Candidates) (pass : ChannelPass.t) : Candidates :=
  let ranked := sort_by_cmp channel_cmp
    (channel_candidates pass (fu_units input) (fu_edges input) request query_tokens
       (fu_vector_scores input) bm25_scores (fu_time input) (fu_temporal_window input)) in
  let score_range := (match last ranked with Some (_, score) => score | None => f32_zero end,
                      match ranked with (_, score) :: _ => score | [] => f32_zero end) in
  let decay unit := decay_score_for unit (fu_review_events input) (rq_decay_enabled request) in
  foldl (cast_vote pass (channel_weight pass (rq_query request) (fu_temporal_window input))
           score_range decay) candidates_by_unit (imap pair ranked).

Definition candidates_of (input : FuseInput) (request : RecallRequest)
    (query_tokens : list (list N)) (content_only : bool) : Candidates :=
  let bm25_scores :=
    if bool_decide (fu_lexical_scorer input = LexicalScorer.Overlap) then None
    else Some (bm25_unit_scores (fu_units input) (rq_query request) (fu_lexical_scorer input)
                 content_only) in
  let channels := main_channels (bool_decide (is_Some bm25_scores))
    (bool_decide (is_Some (fu_vector_scores input))) (rq_edge_expansion_enabled request) in
  let decay unit := decay_score_for unit (fu_review_events input) (rq_decay_enabled request) in
  foldl (cast_deep_vote decay)
    (foldl (run_channel input request query_tokens bm25_scores) ∅ channels)
    (imap pair (fu_deep_units input)).

Definition fused_cmp (left right : CandidateAccumulator) : comparison :=
  then_cmp (f32_cmp_or_equal (ca_fused_score right) (ca_fused_score left))
    (str_cmp (mu_body (ca_unit left)) (mu_body (ca_unit right))).

Definition fuse (input : FuseInput) (request : RecallRequest) (query_tokens : list (list N))
    (content_only : bool) : list CandidateAccumulator :=
  let fused := map snd (map_iter (candidates_of input request query_tokens content_only)) in
  let fused := if fu_a_recency_control input then retain_most_recent_per_subject fused
               else fused in
  sort_by_cmp fused_cmp
    (map (λ candidate, candidate <| ca_fused_score ::= λ s,
            f32_mul s (dc_retrievability (ca_decay candidate)) |>) fused).

(** ** From fused candidates to the items *)

(** How a recall chooses its query terms and whether it reranks. *)
Definition fused_for_rerank (input : FuseInput) (request : RecallRequest)
    (has_reranker rerank_selective : bool) : list (list N) * list CandidateAccumulator * bool :=
  let raw_query_tokens := tokenize (rq_query request) in
  let content := content_query_tokens raw_query_tokens in
  if has_reranker then
    let fused := fuse input request raw_query_tokens false in
    if negb rerank_selective || should_rerank fused (rq_k request)
    then (raw_query_tokens, fused, true)
    else (content, fuse input request content true, false)
  else (content, fuse input request content true, false).

Record RerankPlan : Type := mkRerankPlan {
  rp_reranker : CrossReranker;
  rp_balanced : bool;
  rp_granularity : CrossRerankGranularity.t;
  rp_selective : bool;
}.

Definition ranked_candidates (input : FuseInput) (request : RecallRequest)
    (plan : option RerankPlan) (recall_pool_depth : nat)
    : list (list N) * list CandidateAccumulator :=
  let '(query_tokens, fused, will_rerank) :=
    fused_for_rerank input request (bool_decide (is_Some plan))
      (match plan with Some plan => rp_selective plan | None => true end) in
  match plan with
  | Some plan =>
      if will_rerank then
        let limit := Nat.min (rk_candidate_limit (@reranker_config (rp_reranker plan)))
                       recall_pool_depth in
        let fused := if rp_balanced plan then promote_vector_lexical_balanced fused limit
                     else fused in
        (query_tokens, fst (@cross_rerank_candidates (rp_reranker plan) fused (rq_query request)
                              recall_pool_depth (rp_granularity plan)))
      else (query_tokens, fused)
  | None => (query_tokens, fused)
  end.

Context `{CivilDate}.

(** The ranked candidates, packed. *)
Definition recall_context (input : FuseInput) (request : RecallRequest)
    (plan : option RerankPlan) (levers : PackLevers) (recall_pool_depth : nat)
    (temporal_grounding_enabled : bool) : PackedRecallContext :=
  let '(query_tokens, fused) := ranked_candidates input request plan recall_pool_depth in
  pack_recall_context fused request (fu_edges input) query_tokens
    (trace_filter_drops (fu_units input) request (fu_time input))
    (recall_pack_scan_limit request (length fused) levers (N.of_nat recall_pool_depth))
    levers temporal_grounding_enabled.
End fuse.
