(* ===== verification/FuseFacts.v ===== *)
(** * FuseFacts: what a recall serves passed the gate

    The serving gate implies the policy, fusion keeps one candidate per unit
    and only candidates the gate admits, reranking and packing add none; so
    every item of a recall is a unit the policy admits.  The general lane
    serves no unconfirmed capture. *)

From S2P Require Import Prelude Text Types Float Clock Bitemporal Chunks Render RenderFacts Gate.
From S2P Require Import Pack PackFacts Rerank RerankFacts Fuse.

(** ** The gate *)

Record served_safely `{Jiff} (request : RecallRequest) (time : RecallTime)
    (unit : StoredMemoryUnit) : Prop := {
  ss_allowed :
    allows (rq_context request) (mu_kind unit) (mu_scope_id unit) (mu_agent_node_id unit) = true;
  ss_live : mu_deletion_generation unit = None ∧
    mu_state unit ∉ [UnitState.Deleted; UnitState.Invalidated; UnitState.Expired;
                     UnitState.Quarantined];
  ss_visible : transaction_visible unit (rc_transaction_as_of time) = true ∧
    valid_covers unit (rc_valid_at time) = true;
  (* unconfirmed: captured, and on a lane that serves captures *)
  ss_candidate : mu_state unit = UnitState.Candidate →
    is_Some (mu_capture unit) ∧ (rq_serve_captures request || rq_compact_only request) = true;
  ss_superseded : mu_state unit = UnitState.Superseded → is_Some (mu_transaction_to unit);
  ss_belief : mu_kind unit = MemoryKind.Belief → rq_include_beliefs request = true;
  ss_procedure : mu_kind unit = MemoryKind.Procedural →
    rq_procedure_recall_enabled request = true ∧ unsafe_procedure_step unit = false;
  ss_card : rq_compact_only request = true →
    is_Some (mu_compact unit) ∨ is_Some (mu_capture unit);
  ss_high_risk : high_risk_action_query (rq_query request) = true →
    personal_context_unit unit = false ∧ high_risk_memory_below_trust_floor unit = false;
}.

Lemma servable_safe `{Jiff} request time unit :
  servable request time unit = true → served_safely request time unit.
Proof.
  unfold servable. rewrite !andb_true_iff, bool_decide_eq_true. intros [[Hallow Hrec] Hrisk].
  unfold recallable_for, recallable in Hrec.
  destruct (bitemporally_recallable unit time) eqn:Hbt; [|done]. cbn [negb orb] in Hrec.
  destruct (valid_for_query _ _ _); [|done]. cbn [negb] in Hrec.
  unfold bitemporally_recallable in Hbt.
  destruct (bool_decide (is_Some (mu_deletion_generation unit))) eqn:Hdel; [done|].
  destruct (bool_decide (mu_state unit = UnitState.Deleted)) eqn:Hst; [done|]. cbn [orb] in Hbt.
  apply andb_true_iff in Hbt as [Htx Hval].
  apply bool_decide_eq_false in Hdel, Hst. rewrite <-eq_None_not_Some in Hdel.
  destruct (rq_compact_only request && bool_decide (mu_compact unit = None) &&
            bool_decide (mu_capture unit = None)) eqn:Hcard; [done|].
  set (captured := (rq_serve_captures request || rq_compact_only request) && _ && _) in Hrec.
  assert (captured = true → is_Some (mu_capture unit) ∧ mu_state unit = UnitState.Candidate ∧
    (rq_serve_captures request || rq_compact_only request) = true) as Hcap.
  { unfold captured. rewrite !andb_true_iff, !bool_decide_eq_true. naive_solver. }
  assert ((is_active_or_validated (mu_state unit) || captured ||
    (bool_decide (mu_state unit = UnitState.Superseded) &&
     bool_decide (is_Some (mu_transaction_to unit)))) = true) as Hstate.
  { destruct (bool_decide (mu_kind unit = MemoryKind.Procedural)).
    - apply andb_true_iff in Hrec as [[_ Hrec]%andb_true_iff _].
      destruct (rq_serve_captures request || rq_compact_only request).
      + by rewrite Hrec.
      + apply bool_decide_eq_true in Hrec. by rewrite Hrec.
    - by apply andb_true_iff in Hrec as [Hrec _]. }
  clearbody captured. constructor.
  - done.
  - split; [done|]. rewrite !not_elem_of_cons.
    split_and!; try (by apply not_elem_of_nil); intros Es; rewrite Es in Hstate, Hcap;
      cbn in Hstate; rewrite orb_false_r in Hstate; by apply Hcap in Hstate as (_ & ? & _).
  - done.
  - intros Es. rewrite Es in Hstate. cbn in Hstate. rewrite orb_false_r in Hstate.
    apply Hcap in Hstate as (? & _ & ?). done.
  - intros Es. rewrite Es in Hstate, Hcap. cbn in Hstate.
    destruct captured; [by destruct Hcap as (_ & ? & _)|]. by apply bool_decide_eq_true in Hstate.
  - intros Hk. rewrite bool_decide_false in Hrec by (by rewrite Hk).
    apply andb_true_iff in Hrec as [_ Hrec]. rewrite bool_decide_true in Hrec by done.
    by rewrite orb_false_r in Hrec.
  - intros Hk. rewrite bool_decide_true in Hrec by done.
    apply andb_true_iff in Hrec as [[Hp _]%andb_true_iff Hu%negb_true_iff]. done.
  - intros Hc. rewrite Hc in Hcard. cbn in Hcard. destruct (mu_compact unit); [by left; eexists|].
    destruct (mu_capture unit); [by right; eexists|]. by vm_compute in Hcard.
  - intros Hh. unfold high_risk_recall_drop_reason in Hrisk. rewrite Hh in Hrisk. cbn [negb] in Hrisk.
    destruct (personal_context_unit unit); [done|].
    by destruct (high_risk_memory_below_trust_floor unit).
Qed.

(** ** Fusion *)

Section fuse.
Context `{Jiff} `{UuidParse} `{HashOrder} `{LibM} `{Fsrs} `{CivilDate}.
Context (input : FuseInput) (request : RecallRequest).

(** Where a candidate's unit comes from. *)
Definition sourced (unit : StoredMemoryUnit) : Prop :=
  (unit ∈ fu_units input ∧ servable request (fu_time input) unit = true) ∨
  unit ∈ fu_deep_units input.

Definition candidates_ok (m : gmap UnitId CandidateAccumulator) : Prop :=
  map_Forall (λ id c, ca_id c = id ∧ sourced (ca_unit c)) m.

Lemma channel_candidates_in pass query_tokens bm25 unit score :
  (unit, score) ∈ channel_candidates pass (fu_units input) (fu_edges input) request query_tokens
    (fu_vector_scores input) bm25 (fu_time input) (fu_temporal_window input) →
  unit ∈ fu_units input ∧ servable request (fu_time input) unit = true.
Proof.
  intros (u & Hu & Hs)%list_elem_of_omap. cbv zeta in Hs.
  destruct (f32_pos (channel_score _ _ _ _ _ _ _ _ _ _)); [|done]. injection Hs as -> _.
  by apply elem_of_retain in Hu.
Qed.

Lemma imap_pair_elem {A} (l : list A) i x : (i, x) ∈ imap pair l → x ∈ l.
Proof.
  intros [k Hk]%list_elem_of_lookup. rewrite list_lookup_imap in Hk.
  destruct (l !! k) eqn:E; [|done]. simpl in Hk. injection Hk as _ ->.
  by eapply list_elem_of_lookup_2.
Qed.

Lemma cast_vote_ok pass weight range decay m vote :
  candidates_ok m → sourced (fst (snd vote)) →
  candidates_ok (cast_vote pass weight range decay m vote).
Proof.
  destruct vote as [rank [unit score]]. cbn [fst snd]. intros Hm Hs. unfold cast_vote.
  destruct (m !! mu_id unit) as [c|] eqn:E; apply map_Forall_insert_2; try done.
  by apply (Hm _ _ E).
Qed.

Lemma cast_deep_vote_ok decay m vote :
  candidates_ok m → snd vote ∈ fu_deep_units input → candidates_ok (cast_deep_vote decay m vote).
Proof.
  destruct vote as [rank unit]. cbn [snd]. intros Hm Hs. unfold cast_deep_vote.
  destruct (m !! mu_id unit) as [c|] eqn:E; apply map_Forall_insert_2; try done.
  - by apply (Hm _ _ E).
  - split; [done|]. by right.
Qed.

Lemma run_channel_ok query_tokens bm25 m pass :
  candidates_ok m → candidates_ok (run_channel input request query_tokens bm25 m pass).
Proof.
  unfold run_channel. set (ranked := sort_by_cmp _ _).
  assert (∀ x, x ∈ imap pair ranked → sourced (fst (snd x))) as Hr.
  { intros [i [unit score]] Hin%imap_pair_elem. left. unfold ranked, sort_by_cmp in Hin.
    rewrite elem_of_sort_by in Hin. by eapply channel_candidates_in. }
  clearbody ranked. revert m. induction (imap pair ranked) as [|x l IH]; intros m Hm; [done|].
  cbn [foldl]. apply IH; [set_solver|]. apply cast_vote_ok; [done|]. apply Hr. set_solver.
Qed.

Lemma candidates_of_ok query_tokens content_only :
  candidates_ok (candidates_of input request query_tokens content_only).
Proof.
  unfold candidates_of. set (channels := main_channels _ _ _).
  assert (∀ bm25 m, candidates_ok m →
    candidates_ok (foldl (run_channel input request query_tokens bm25) m channels)) as Hc.
  { intros bm25. induction channels as [|p l IH]; intros m Hm; [done|].
    cbn [foldl]. by apply IH, run_channel_ok. }
  set (bm25 := if bool_decide _ then None else _).
  specialize (Hc bm25 ∅ (map_Forall_empty _)). revert Hc.
  generalize (foldl (run_channel input request query_tokens bm25) ∅ channels). intros m Hm.
  assert (∀ x, x ∈ imap pair (fu_deep_units input) → snd x ∈ fu_deep_units input) as Hd
    by (intros [i u]; apply imap_pair_elem).
  revert m Hm. induction (imap pair (fu_deep_units input)) as [|x l IH]; intros m Hm; [done|].
  cbn [foldl]. apply IH; [set_solver|]. apply cast_deep_vote_ok; [done|]. apply Hd. set_solver.
Qed.

(** A sourced list of candidates, one per unit. *)
Definition fused_ok (l : list CandidateAccumulator) : Prop :=
  NoDup (map ca_id l) ∧ Forall (λ c, sourced (ca_unit c)) l.

Lemma fused_ok_sublist l k : sublist l k → fused_ok k → fused_ok l.
Proof.
  intros Hs [Hn Hf]. split.
  - eapply sublist_NoDup; [exact Hn|]. by apply fmap_sublist.
  - rewrite Forall_forall in Hf |- *. intros c Hc. apply Hf. by eapply elem_of_sublist.
Qed.

Lemma fused_ok_perm l k : l ≡ₚ k → fused_ok l → fused_ok k.
Proof. unfold fused_ok. intros Hp. by rewrite Hp. Qed.

Lemma fused_ok_units l k : map ca_unit l = map ca_unit k → fused_ok l → fused_ok k.
Proof.
  intros He [Hn Hf].
  assert (∀ l, map ca_id l = map mu_id (map ca_unit l)) as Hid by (intros; by rewrite map_map).
  split.
  - by rewrite Hid, <-He, <-Hid.
  - apply (proj2 (Forall_fmap ca_unit sourced l)) in Hf. change (ca_unit <$> l) with (map ca_unit l) in Hf.
    rewrite He in Hf. exact (proj1 (Forall_fmap ca_unit sourced k) Hf).
Qed.

Lemma values_ok m : candidates_ok m → fused_ok (map snd (map_iter m)).
Proof.
  intros Hm. pose proof (map_iter_NoDup m) as Hn.
  assert (∀ x, x ∈ map_iter m → ca_id (snd x) = fst x ∧ sourced (ca_unit (snd x))) as Hx.
  { intros [id c] Hin%elem_of_map_iter. apply (Hm _ _ Hin). }
  revert Hn Hx. generalize (map_iter m). intros l Hn Hx. split.
  - assert (map ca_id (map snd l) = map fst l) as ->; [|done].
    rewrite map_map. apply map_ext_in. intros x Hin. apply Hx. by apply list_elem_of_In.
  - apply Forall_map, Forall_forall. intros x Hin. by apply Hx.
Qed.

Lemma retain_positions_sublist {A} (p : nat * A → bool) (l : list A) k :
  sublist (map snd (retain p (imap (λ i x, ((k + i)%nat, x)) l))) l.
Proof.
  revert k. induction l as [|x l IH]; intros k; [done|]. cbn [imap].
  assert (imap ((λ i y, ((k + i)%nat, y)) ∘ S) l = imap (λ i y, ((S k + i)%nat, y)) l) as ->.
  { apply imap_ext. intros i y _. simpl. f_equal. lia. }
  rewrite retain_cons. destruct (p _); cbn [map].
  - by apply sublist_skip.
  - by apply sublist_cons.
Qed.

Lemma fuse_ok query_tokens content_only : fused_ok (fuse input request query_tokens content_only).
Proof.
  pose proof (values_ok _ (candidates_of_ok query_tokens content_only)) as Hv. unfold fuse.
  eapply fused_ok_perm; [symmetry; apply sort_by_perm|].
  revert Hv. generalize (map snd (map_iter (candidates_of input request query_tokens content_only))).
  intros l Hl. apply (fused_ok_units (if fu_a_recency_control input
    then retain_most_recent_per_subject l else l)).
  { by rewrite map_map. }
  destruct (fu_a_recency_control input); [|done].
  eapply fused_ok_sublist; [|exact Hl]. apply (retain_positions_sublist _ l 0).
Qed.

Lemma stamp_ranks_units rank l : map ca_unit (stamp_ranks rank l) = map ca_unit l.
Proof. revert rank. induction l as [|c l IH]; intros rank; [done|]. cbn. by rewrite IH. Qed.

Lemma ranked_ok plan depth : fused_ok (snd (ranked_candidates input request plan depth)).
Proof.
  unfold ranked_candidates, fused_for_rerank.
  set (sel := match plan with Some p => rp_selective p | None => true end).
  destruct plan as [plan|]; cbn [is_Some bool_decide]; [|rewrite bool_decide_false; [|by intros []];
    apply fuse_ok].
  rewrite bool_decide_true by by eexists.
  destruct (negb sel || _); [|apply fuse_ok]. cbn [snd].
  assert (fused_ok (if rp_balanced plan then promote_vector_lexical_balanced
    (fuse input request (tokenize (rq_query request)) false)
    (rk_candidate_limit (@reranker_config (rp_reranker plan)) `min` depth)
    else fuse input request (tokenize (rq_query request)) false)) as Hp.
  { destruct (rp_balanced plan); [|apply fuse_ok].
    eapply fused_ok_perm; [|apply fuse_ok]. symmetry. apply promotion_perm. }
  revert Hp. generalize (if rp_balanced plan then promote_vector_lexical_balanced
    (fuse input request (tokenize (rq_query request)) false)
    (rk_candidate_limit (@reranker_config (rp_reranker plan)) `min` depth)
    else fuse input request (tokenize (rq_query request)) false). intros fused Hp.
  pose proof (@cross_rerank_spec (rp_reranker plan) fused (rq_query request) depth
    (rp_granularity plan)) as Hr.
  destruct (cross_rerank_candidates _ _ _ _) as [reranked trace]. destruct Hr as [Hr _].
  cbn [fst]. destruct Hr as [->|(_ & docs & scores & ordered & _ & _ & _ & _ & Ho & ->)]; [done|].
  apply (fused_ok_units (ordered ++ drop (xt_candidate_count trace) fused)).
  { by rewrite !map_app, stamp_ranks_units. }
  eapply fused_ok_perm; [|exact Hp]. by rewrite Ho, take_drop.
Qed.

(** ** The recall *)

(** The chunks of every unit the recall reads are texts that fit in memory. *)
Definition units_fit : Prop :=
  Forall (λ unit, fits_memory (mu_contextual_chunks unit)) (fu_units input ++ fu_deep_units input).

Lemma ranked_candidates_ok plan depth : units_fit →
  Forall candidate_ok (snd (ranked_candidates input request plan depth)).
Proof.
  intros Hm. destruct (ranked_ok plan depth) as [_ Hf]. eapply Forall_impl; [exact Hf|].
  intros c Hc. unfold units_fit in Hm. rewrite Forall_forall in Hm. apply Hm.
  apply elem_of_app. destruct Hc as [[Hc _]|Hc]; auto.
Qed.

(** A recall serves only what the policy admits.  Every item is a unit of
    the pool that the context allows, alive and visible at the recall's times,
    no unconfirmed capture unless the lane serves captures, no belief unless
    asked for, no procedure that is unsafe or not enabled, and for a high-risk
    query no personal unit and none below the trust floor; or it is one of the
    units Deep ranked, which no channel gates.  The items keep the limits of
    the request. *)
Theorem recall_serves_safely plan levers depth temporal : units_fit →
  let packed := recall_context input request plan levers depth temporal in
  (∀ item, item ∈ pk_items packed → ∃ unit, mu_id unit = it_unit_id item ∧
     (unit ∈ fu_units input ∧ served_safely request (fu_time input) unit ∨
      unit ∈ fu_deep_units input)) ∧
  N.of_nat (length (pk_items packed)) <= N.max (rq_k request) 1 ∧
  pk_token_estimate packed <= rq_budget_tokens request.
Proof.
  intros Hm. unfold recall_context.
  pose proof (ranked_candidates_ok plan depth Hm) as Hok.
  destruct (ranked_ok plan depth) as [Hn Hf].
  destruct (ranked_candidates input request plan depth) as [query_tokens fused]. cbn [snd] in *.
  set (drops := trace_filter_drops _ _ _). set (limit := recall_pack_scan_limit _ _ _ _). split.
  - intros item Hin.
    destruct (packed_items_spec fused request (fu_edges input) query_tokens drops limit levers
      temporal Hok Hn) as [Hids _].
    pose proof (packed_ids_scanned fused request (fu_edges input) query_tokens drops limit levers
      temporal Hok Hn) as Hsub.
    assert (it_unit_id item ∈ map ca_id fused) as (c & Hid & Hc)%list_elem_of_fmap.
    { apply Hsub. rewrite <-Hids. by apply list_elem_of_fmap_2. }
    rewrite Forall_forall in Hf. exists (ca_unit c). split; [done|].
    destruct (Hf c Hc) as [[? Hs]|?]; [|by right]. left. split; [done|]. by apply servable_safe.
  - destruct (pack_limits fused request (fu_edges input) query_tokens drops limit levers
      temporal Hok Hn) as (H5 & H6 & _). by split.
Qed.
End fuse.
