(* ===== verification/Receipts.v ===== *)
(** * Receipts: the citations of a recall

    [build_recall_citations] of [crates/memphant-core/src/lib.rs]: for every
    item served from a source, the canonical citations of its unit are checked
    against the store and turned into receipts - who cited what, which bytes of
    the source, under which policy.  Any mismatch fails the whole recall.
    The theorems follow the definitions. *)

From S2P Require Import Prelude Text Types Float Clock Bitemporal Lineage Store Txn Stage Reads ReadFacts TextFacts.
From S2P Require Import Gate Pack.

Module EvidenceSourceKind.
Inductive t : Set := Episode | Resource.
#[global] Instance t_eq_dec : EqDecision t.
Proof. solve_decision. Defined.
End EvidenceSourceKind.

Module CitationUnverifiedReason.
Inductive t : Set := DerivedReference | MissingCanonicalCitation.
End CitationUnverifiedReason.

Record EvidenceReceipt : Set := mkReceipt {
  er_contract_revision : string;
  er_citation_id : Uuid;
  er_trace_id : TraceId;
  er_tenant_id : TenantId;
  er_data_subject_id : SubjectId;
  er_scope_id : ScopeId;
  er_actor_id : ActorId;
  er_agent_node_id : AgentNodeId;
  er_subject_generation : N;
  er_memory_unit_id : UnitId;
  er_source_kind : EvidenceSourceKind.t;
  er_source_id : Uuid;
  er_source_ref : string;
  er_source_revision : option string;
  er_source_body_sha256 : string;
  er_span : CitationSpan;
  er_quote_sha256 : string;
  er_source_trust : TrustLevel.t;
  er_query_hash : string;
  er_policy_revision : string;
  er_engine_version : string;
  er_schema_compat_revision : string;
  er_recalled_at : string;
}.

Module CitationVerification.
Inductive t : Set :=
| Verified (receipt : EvidenceReceipt)
| Unverified (reason : CitationUnverifiedReason.t).
End CitationVerification.

Record RecallCitation : Set := mkRecallCitation {
  rc_unit_id : UnitId;
  rc_episode_id : option EpisodeId;
  rc_resource_id : option ResourceId;
  rc_derived_from_unit_ids : list UnitId;
  rc_verification : CitationVerification.t;
}.

Definition MAX_VERIFIED_RECEIPTS : nat := 1024.
Definition MAX_VERIFIED_QUOTE_BYTES : N := 64 * 1024.
Definition EVIDENCE_RECEIPT_CONTRACT_REVISION : string := "memphant.evidence_receipt.v1".
Definition SCHEMA_COMPAT_REVISION : string := "20260817_013_drop_dead_fsrs_columns".

Definition is_direct (item : RecallContextItem) : bool :=
  bool_decide (is_Some (it_citation_episode_id item)) ||
  bool_decide (is_Some (it_citation_resource_id item)).

(** The five owner columns of a row are the context's. *)
Definition in_context (context : ResolvedMemoryContext) (tenant : TenantId)
    (subject : SubjectId) (scope : ScopeId) (agent_node : AgentNodeId) (generation : N) : bool :=
  (tenant =? cx_tenant_id context) && (subject =? cx_data_subject_id context) &&
  (scope =? cx_scope_id context) && (agent_node =? cx_agent_node_id context) &&
  (generation =? cx_subject_generation context).

Definition unit_is_bound (context : ResolvedMemoryContext) (item : RecallContextItem)
    (unit : StoredMemoryUnit) : bool :=
  in_context context (mu_tenant_id unit) (mu_data_subject_id unit) (mu_scope_id unit)
    (mu_agent_node_id unit) (mu_subject_generation unit) &&
  bool_decide (mu_actor_id unit = Some (cx_actor_id context)) &&
  bool_decide (mu_source_episode_id unit = it_citation_episode_id item) &&
  bool_decide (mu_source_resource_id unit = it_citation_resource_id item).

Definition citation_is_bound (context : ResolvedMemoryContext) (item : RecallContextItem)
    (citation : StoredCitation) : bool :=
  in_context context (ci_tenant_id citation) (ci_data_subject_id citation) (ci_scope_id citation)
    (ci_agent_node_id citation) (ci_subject_generation citation) &&
  (ci_memory_unit_id citation =? it_unit_id item) &&
  negb (eqb (bool_decide (is_Some (ci_episode_id citation)))
            (bool_decide (is_Some (ci_resource_id citation)))).

(** What a citation cites: the tuple of the source row. *)
Record CitedSource : Set := mkCitedSource {
  so_kind : EvidenceSourceKind.t;
  so_id : Uuid;
  so_ref : string;
  so_revision : option string;
  so_body : string;
  so_trust : TrustLevel.t;
}.

Section receipts.
Context `{Jiff} `{HashOrder} `{Sha256}.

Definition sha256_prefixed (s : string) : string := "sha256:" +:+ sha256_hex s.

Definition cited_source (context : ResolvedMemoryContext) (episodes : gmap N StoredEpisode)
    (resources : gmap N StoredResource) (citation : StoredCitation)
    : result CoreError.t CitedSource :=
  match ci_episode_id citation, ci_resource_id citation with
  | Some id, None =>
      episode <-? ok_or (episodes !! id)
        (CoreError.Invalid "canonical citation episode is missing");
      if negb (in_context context (ep_tenant_id episode) (ep_data_subject_id episode)
                 (ep_scope_id episode) (ep_agent_node_id episode)
                 (ep_subject_generation episode)) ||
         negb (ep_actor_id episode =? cx_actor_id context) ||
         bool_decide (ep_source_trust episode = TrustLevel.Quarantined)
      then Err (CoreError.PolicyDenied "citation episode is unauthorized for this recall")
      else Ok (mkCitedSource EvidenceSourceKind.Episode id (ep_source_ref episode) None
                 (ep_body episode) (ep_source_trust episode))
  | None, Some id =>
      resource <-? ok_or (resources !! id)
        (CoreError.Invalid "canonical citation resource is missing");
      if negb (in_context context (re_tenant_id resource) (re_data_subject_id resource)
                 (re_scope_id resource) (re_agent_node_id resource)
                 (re_subject_generation resource)) ||
         negb (re_actor_id resource =? cx_actor_id context) ||
         bool_decide (re_source_trust resource = TrustLevel.Quarantined) ||
         negb (acl_is_empty (re_acl resource))
      then Err (CoreError.PolicyDenied "citation resource is unauthorized for this recall")
      else
        body <-? ok_or (re_body resource)
          (CoreError.Invalid "canonical citation resource has no source text");
        if negb (bool_decide (re_content_hash resource = sha256_prefixed body))
        then Err (CoreError.Invalid
                    "canonical resource content hash does not match source text")
        else Ok (mkCitedSource EvidenceSourceKind.Resource id (re_source_ref resource)
                   (re_revision resource) body (re_source_trust resource))
  | _, _ => Err (CoreError.Invalid "canonical citation must identify exactly one source")
  end.

(** The bytes of the source the span names, at most 64 KiB of them. *)
Definition cited_quote (body : string) (span : CitationSpan) : result CoreError.t string :=
  if (cs_end span <? cs_start span) || (MAX_VERIFIED_QUOTE_BYTES <? cs_end span - cs_start span)
  then Err (CoreError.Invalid "citation span is malformed or exceeds the evidence limit")
  else
    quote <-? ok_or (get_slice (bytes_of body) (N.to_nat (cs_start span)) (N.to_nat (cs_end span)))
      (CoreError.Invalid "citation span is out of bounds or not on UTF-8 boundaries");
    Ok (string_of_bytes quote).

Definition receipt_of (request : RecallRequest) (recall_time : RecallTime) (trace_id : TraceId)
    (query_hash : string) (item : RecallContextItem) (citation : StoredCitation)
    (source : CitedSource) (span : CitationSpan) (quote_sha256 : string) : EvidenceReceipt := {|
  er_contract_revision := EVIDENCE_RECEIPT_CONTRACT_REVISION;
  er_citation_id := ci_id citation;
  er_trace_id := trace_id;
  er_tenant_id := cx_tenant_id (rq_context request);
  er_data_subject_id := cx_data_subject_id (rq_context request);
  er_scope_id := cx_scope_id (rq_context request);
  er_actor_id := cx_actor_id (rq_context request);
  er_agent_node_id := cx_agent_node_id (rq_context request);
  er_subject_generation := cx_subject_generation (rq_context request);
  er_memory_unit_id := it_unit_id item;
  er_source_kind := so_kind source;
  er_source_id := so_id source;
  er_source_ref := so_ref source;
  er_source_revision := so_revision source;
  er_source_body_sha256 := sha256_prefixed (so_body source);
  er_span := span;
  er_quote_sha256 := quote_sha256;
  er_source_trust := so_trust source;
  er_query_hash := query_hash;
  er_policy_revision := cx_policy_revision (rq_context request);
  er_engine_version := rq_engine_version request;
  er_schema_compat_revision := SCHEMA_COMPAT_REVISION;
  er_recalled_at := rc_evaluated_at recall_time |}.

Definition citation_for (item : RecallContextItem) (verification : CitationVerification.t)
    : RecallCitation :=
  mkRecallCitation (it_unit_id item) (it_citation_episode_id item) (it_citation_resource_id item)
    (it_derived_from_unit_ids item) verification.

(** One canonical citation, verified. *)
Definition verify_citation (request : RecallRequest) (recall_time : RecallTime)
    (trace_id : TraceId) (query_hash : string) (item : RecallContextItem)
    (episodes : gmap N StoredEpisode) (resources : gmap N StoredResource)
    (citation : StoredCitation) : result CoreError.t EvidenceReceipt :=
  let context := rq_context request in
  if negb (citation_is_bound context item citation)
  then Err (CoreError.PolicyDenied "canonical citation is not bound to the recall context")
  else
    span <-? ok_or (ci_span citation)
      (CoreError.Invalid "canonical citation is missing its source span");
    quote_sha256 <-? ok_or (ci_quote_hash citation)
      (CoreError.Invalid "canonical citation is missing its quote hash");
    source <-? cited_source context episodes resources citation;
    quote <-? cited_quote (so_body source) span;
    if negb (bool_decide (quote_sha256 = sha256_prefixed quote))
    then Err (CoreError.Invalid "citation quote hash does not match canonical source text")
    else Ok (receipt_of request recall_time trace_id query_hash item citation source span
               quote_sha256).

Fixpoint cite_matching (request : RecallRequest) (recall_time : RecallTime) (trace_id : TraceId)
    (query_hash : string) (item : RecallContextItem) (episodes : gmap N StoredEpisode)
    (resources : gmap N StoredResource) (matching : list StoredCitation)
    (output : list RecallCitation) : result CoreError.t (list RecallCitation) :=
  match matching with
  | [] => Ok output
  | citation :: matching =>
      if (MAX_VERIFIED_RECEIPTS <=? length output)%nat
      then Err (CoreError.Invalid "verified citation receipt count exceeds limit")
      else
        receipt <-? verify_citation request recall_time trace_id query_hash item episodes
                      resources citation;
        cite_matching request recall_time trace_id query_hash item episodes resources matching
          (output ++ [citation_for item (CitationVerification.Verified receipt)])
  end.

Definition matching_citations (item : RecallContextItem) (material : RecordMaterial)
    : list StoredCitation :=
  retain (λ citation,
      bool_decide (ci_episode_id citation = it_citation_episode_id item) &&
      bool_decide (ci_resource_id citation = it_citation_resource_id item))
    (rm_citations material).

(** The citations of one item. *)
Definition cite_item (request : RecallRequest) (recall_time : RecallTime) (trace_id : TraceId)
    (query_hash : string) (materials : gmap N RecordMaterial) (episodes : gmap N StoredEpisode)
    (resources : gmap N StoredResource) (item : RecallContextItem)
    (output : list RecallCitation) : result CoreError.t (list RecallCitation) :=
  if negb (is_direct item) then
    Ok (if is_empty (it_derived_from_unit_ids item) then output
        else output ++
          [mkRecallCitation (it_unit_id item) None None (it_derived_from_unit_ids item)
             (CitationVerification.Unverified CitationUnverifiedReason.DerivedReference)])
  else
    material <-? ok_or (materials !! it_unit_id item)
      (CoreError.Invalid "selected citation unit has no canonical record material");
    if negb (unit_is_bound (rq_context request) item (rm_unit material))
    then Err (CoreError.PolicyDenied "citation unit is not bound to the recall context")
    else
      let matching := matching_citations item material in
      if is_empty matching then
        Ok (output ++ [citation_for item
              (CitationVerification.Unverified CitationUnverifiedReason.MissingCanonicalCitation)])
      else cite_matching request recall_time trace_id query_hash item episodes resources matching
             output.

Fixpoint cite_items (request : RecallRequest) (recall_time : RecallTime) (trace_id : TraceId)
    (query_hash : string) (materials : gmap N RecordMaterial) (episodes : gmap N StoredEpisode)
    (resources : gmap N StoredResource) (items : list RecallContextItem)
    (output : list RecallCitation) : result CoreError.t (list RecallCitation) :=
  match items with
  | [] => Ok output
  | item :: items =>
      output <-? cite_item request recall_time trace_id query_hash materials episodes resources
                   item output;
      cite_items request recall_time trace_id query_hash materials episodes resources items output
  end.

(** [.await?] on a store read. *)
Definition from_store {A} (r : result StoreError.t A) : result CoreError.t A :=
  match r with Ok a => Ok a | Err e => Err (CoreError.Store e) end.

Definition cited_ids (field : StoredCitation → option N) (materials : gmap N RecordMaterial)
    : list N :=
  set_iter (list_to_set
    (flat_map (λ material, omap field (rm_citations material)) (map snd (map_iter materials)))
    : gset N).

Definition build_recall_citations (state : InMemoryState) (request : RecallRequest)
    (recall_time : RecallTime) (trace_id : TraceId) (query_hash : string)
    (items : list RecallContextItem) : result CoreError.t (list RecallCitation) :=
  let context := rq_context request in
  let direct_ids := map it_unit_id (retain is_direct items) in
  materials <-? from_store (fetch_record_material state context direct_ids recall_time);
  let materials := extend_map (map (λ m, (mu_id (rm_unit m), m)) materials) ∅ in
  episodes <-? from_store (fetch_episodes_by_ids state context (cited_ids ci_episode_id materials));
  let episodes := extend_map (map (λ e, (ep_id e, e)) episodes) ∅ in
  resources <-? from_store
    (fetch_resources_by_ids state context (cited_ids ci_resource_id materials));
  let resources := extend_map (map (λ r, (re_id r, r)) resources) ∅ in
  cite_items request recall_time trace_id query_hash materials episodes resources items [].
End receipts.

(** * A verified citation is evidence

    Every receipt of a recall is grounded in the store: the unit and the source
    are the context's own, the quote is the slice of the source's bytes that
    its span names, and the hashes are the hashes of those texts.  A recall
    that would cite a unit of another node fails. *)

Section receipts.
Context `{Jiff} `{HashOrder} `{Sha256}.
Context (state : InMemoryState) (request : RecallRequest) (recall_time : RecallTime).
Context (trace_id : TraceId) (query_hash : string).

Notation context := (rq_context request).

(** The source row a receipt cites, and its text. *)
Inductive cites_source (unit : StoredMemoryUnit) (receipt : EvidenceReceipt) : string → Prop :=
| cites_episode e :
    e ∈ tenant_episodes state context → owned_episode context e = true →
    er_source_kind receipt = EvidenceSourceKind.Episode → er_source_id receipt = ep_id e →
    er_source_ref receipt = ep_source_ref e → er_source_trust receipt = ep_source_trust e →
    ep_source_trust e ≠ TrustLevel.Quarantined → mu_source_episode_id unit = Some (ep_id e) →
    cites_source unit receipt (ep_body e)
| cites_resource r body :
    r ∈ tenant_resources state context → owned_resource context r = true →
    er_source_kind receipt = EvidenceSourceKind.Resource → er_source_id receipt = re_id r →
    er_source_ref receipt = re_source_ref r → er_source_trust receipt = re_source_trust r →
    re_source_trust r ≠ TrustLevel.Quarantined → acl_is_empty (re_acl r) = true →
    re_body r = Some body → re_content_hash r = sha256_prefixed body →
    mu_source_resource_id unit = Some (re_id r) → cites_source unit receipt body.

(** [receipt] is evidence for [item]: [quote] of [body], the text [unit] came
    from. *)
Record evidence (item : RecallContextItem) (receipt : EvidenceReceipt)
    (unit : StoredMemoryUnit) (body : string) (quote : list N) : Prop := {
  ev_readable : unit ∈ tenant_units state context ∧ unit_allowed context unit = true ∧
    bitemporally_recallable unit recall_time = true;
  ev_own : unit_is_bound context item unit = true ∧ mu_id unit = it_unit_id item;
  ev_source : cites_source unit receipt body;
  ev_slice : get_slice (bytes_of body) (N.to_nat (cs_start (er_span receipt)))
    (N.to_nat (cs_end (er_span receipt))) = Some quote;
  ev_length : N.of_nat (length quote) <= MAX_VERIFIED_QUOTE_BYTES;
  ev_quote_hash : er_quote_sha256 receipt = sha256_prefixed (string_of_bytes quote);
  ev_body_hash : er_source_body_sha256 receipt = sha256_prefixed body;
  ev_binding : er_memory_unit_id receipt = it_unit_id item ∧ er_trace_id receipt = trace_id ∧
    er_query_hash receipt = query_hash ∧
    er_policy_revision receipt = cx_policy_revision context ∧
    in_context context (er_tenant_id receipt) (er_data_subject_id receipt) (er_scope_id receipt)
      (er_agent_node_id receipt) (er_subject_generation receipt) = true ∧
    er_actor_id receipt = cx_actor_id context;
}.

Definition grounded (item : RecallContextItem) (receipt : EvidenceReceipt) : Prop :=
  ∃ unit body quote, evidence item receipt unit body quote.

(** ** The loaded rows *)

Definition episodes_ok (episodes : gmap N StoredEpisode) : Prop :=
  ∀ id e, episodes !! id = Some e →
    e ∈ tenant_episodes state context ∧ owned_episode context e = true ∧ ep_id e = id.
Definition resources_ok (resources : gmap N StoredResource) : Prop :=
  ∀ id r, resources !! id = Some r →
    r ∈ tenant_resources state context ∧ owned_resource context r = true ∧ re_id r = id.
Definition materials_ok (materials : gmap N RecordMaterial) : Prop :=
  ∀ id m, materials !! id = Some m → mu_id (rm_unit m) = id ∧
    rm_unit m ∈ tenant_units state context ∧ unit_allowed context (rm_unit m) = true ∧
    bitemporally_recallable (rm_unit m) recall_time = true.

Lemma fetched_episodes_ok ids episodes :
  fetch_episodes_by_ids state context ids = Ok episodes →
  episodes_ok (extend_map (map (λ e, (ep_id e, e)) episodes) ∅).
Proof.
  intros [_ <-]%reading_ok id e Hl. apply extend_map_in in Hl as [Hin Hid].
  apply elem_of_retain in Hin as [Hin [_ Ho]%andb_true_iff]. done.
Qed.

Lemma fetched_resources_ok ids resources :
  fetch_resources_by_ids state context ids = Ok resources →
  resources_ok (extend_map (map (λ r, (re_id r, r)) resources) ∅).
Proof.
  intros [_ <-]%reading_ok id r Hl. apply extend_map_in in Hl as [Hin Hid].
  apply elem_of_retain in Hin as [Hin [_ Ho]%andb_true_iff]. done.
Qed.

Lemma fetched_materials_ok ids materials :
  fetch_record_material state context ids recall_time = Ok materials →
  materials_ok (extend_map (map (λ m, (mu_id (rm_unit m), m)) materials) ∅).
Proof.
  intros [_ <-]%reading_ok id m Hl. apply (extend_map_in (λ m, mu_id (rm_unit m))) in Hl as [Hin Hid].
  split; [done|]. apply list_elem_of_fmap in Hin as (u & -> & Hin). cbn [rm_unit] in *.
  apply list_elem_of_omap in Hin as (i & _ & Hu). apply extend_map_in in Hu as [Hu _].
  apply elem_of_retain in Hu as [Hu [Ha Hb]%andb_true_iff]. done.
Qed.

(** ** One citation *)

Lemma source_cited episodes resources item unit citation source :
  episodes_ok episodes → resources_ok resources →
  unit_is_bound context item unit = true →
  ci_episode_id citation = it_citation_episode_id item →
  ci_resource_id citation = it_citation_resource_id item →
  cited_source context episodes resources citation = Ok source →
  ∀ receipt, er_source_kind receipt = so_kind source → er_source_id receipt = so_id source →
    er_source_ref receipt = so_ref source → er_source_trust receipt = so_trust source →
    cites_source unit receipt (so_body source).
Proof.
  intros He Hr Hb Hce Hcr Hs receipt E1 E2 E3 E4.
  apply andb_true_iff in Hb as [[Hb Hue%bool_decide_eq_true]%andb_true_iff Hur%bool_decide_eq_true].
  unfold cited_source in Hs. rewrite Hce, Hcr in Hs.
  destruct (it_citation_episode_id item) as [eid|], (it_citation_resource_id item) as [rid|];
    try done.
  - destruct (episodes !! eid) as [e|] eqn:El; [|done]. cbn [ok_or result_bind] in Hs.
    destruct (He _ _ El) as (Hin & Ho & Hid).
    destruct (_ || bool_decide (ep_source_trust e = _)) eqn:Eb; [done|].
    apply orb_false_iff in Eb as [_ Eb%bool_decide_eq_false]. injection Hs as <-.
    eapply cites_episode; cbn in *; try done; congruence.
  - destruct (resources !! rid) as [r|] eqn:El; [|done]. cbn [ok_or result_bind] in Hs.
    destruct (Hr _ _ El) as (Hin & Ho & Hid).
    destruct (_ || negb (acl_is_empty (re_acl r))) eqn:Eb; [done|].
    apply orb_false_iff in Eb as [Eb Ea%negb_false_iff].
    apply orb_false_iff in Eb as [_ Eb%bool_decide_eq_false].
    destruct (re_body r) as [body|] eqn:Ebody; [|done]. cbn [ok_or result_bind] in Hs.
    destruct (bool_decide (re_content_hash r = _)) eqn:Eh; [|done]. cbn [negb] in Hs.
    apply bool_decide_eq_true in Eh. injection Hs as <-.
    eapply cites_resource; cbn in *; try done; congruence.
Qed.

Lemma quote_slice body span quote : cited_quote body span = Ok quote →
  ∃ q, quote = string_of_bytes q ∧
    get_slice (bytes_of body) (N.to_nat (cs_start span)) (N.to_nat (cs_end span)) = Some q ∧
    N.of_nat (length q) <= MAX_VERIFIED_QUOTE_BYTES.
Proof.
  unfold cited_quote. destruct (_ || _) eqn:E; [done|].
  apply orb_false_iff in E as [E1%N.ltb_ge E2%N.ltb_ge].
  destruct (get_slice _ _ _) as [q|] eqn:Es; [|done]. cbn [ok_or result_bind]. intros [= <-].
  exists q. split_and!; [done..|]. apply get_slice_length in Es. lia.
Qed.

Lemma verified_citation_grounded episodes resources item unit citation receipt :
  episodes_ok episodes → resources_ok resources →
  unit ∈ tenant_units state context → unit_allowed context unit = true →
  bitemporally_recallable unit recall_time = true → mu_id unit = it_unit_id item →
  unit_is_bound context item unit = true →
  ci_episode_id citation = it_citation_episode_id item →
  ci_resource_id citation = it_citation_resource_id item →
  verify_citation request recall_time trace_id query_hash item episodes resources citation =
    Ok receipt → grounded item receipt.
Proof.
  intros He Hr Hin Hal Hrec Hid Hb Hce Hcr. unfold verify_citation.
  destruct (citation_is_bound _ _ _); [|done]. cbn [negb].
  destruct (ci_span citation) as [span|]; [|done]. cbn [ok_or result_bind].
  destruct (ci_quote_hash citation) as [hash|]; [|done]. cbn [ok_or result_bind].
  destruct (cited_source _ _ _ _) as [source|] eqn:Es; [|done]. cbn [result_bind].
  destruct (cited_quote _ _) as [quote|] eqn:Eq; [|done]. cbn [result_bind].
  destruct (bool_decide (hash = _)) eqn:Eh; [|done]. cbn [negb]. intros [= <-].
  apply bool_decide_eq_true in Eh. destruct (quote_slice _ _ _ Eq) as (q & -> & Hq & Hl).
  exists unit, (so_body source), q. constructor; cbn; try done.
  - by eapply source_cited.
  - split_and!; try done. unfold in_context. by rewrite !N.eqb_refl.
Qed.

(** ** The citations of the items *)

(** A citation of one of [items], grounded when it is verified; verified ones
    are among the first [MAX_VERIFIED_RECEIPTS]. *)
Definition sound_citation (items : list RecallContextItem) (index : nat) (c : RecallCitation) : Prop :=
  ∃ item, item ∈ items ∧ rc_unit_id c = it_unit_id item ∧
    ∀ receipt, rc_verification c = CitationVerification.Verified receipt →
      grounded item receipt ∧ (index < MAX_VERIFIED_RECEIPTS)%nat.

Definition sound_citations (items : list RecallContextItem) (output : list RecallCitation) : Prop :=
  ∀ index c, output !! index = Some c → sound_citation items index c.

Lemma sound_citations_snoc items output c :
  sound_citations items output → sound_citation items (length output) c →
  sound_citations items (output ++ [c]).
Proof.
  intros Ho Hc index c'. rewrite lookup_app_Some. intros [?|[Hi Hl]]; [by apply Ho|].
  apply list_lookup_singleton_Some in Hl as [Hl ->]. by replace index with (length output) by lia.
Qed.

Section loaded.
Context (materials : gmap N RecordMaterial) (episodes : gmap N StoredEpisode).
Context (resources : gmap N StoredResource).
Hypothesis Hmaterials : materials_ok materials.
Hypothesis Hepisodes : episodes_ok episodes.
Hypothesis Hresources : resources_ok resources.

(** The citations extend the output, and name [id] if any is added. *)
Definition extends (id : UnitId) (output output' : list RecallCitation) : Prop :=
  ∃ new, output' = output ++ new ∧ Forall (λ c, rc_unit_id c = id) new.

Lemma cite_matching_ok items item material matching output output' :
  item ∈ items → materials !! it_unit_id item = Some material →
  unit_is_bound context item (rm_unit material) = true →
  Forall (λ c, ci_episode_id c = it_citation_episode_id item ∧
               ci_resource_id c = it_citation_resource_id item) matching →
  sound_citations items output →
  cite_matching request recall_time trace_id query_hash item episodes resources matching output =
    Ok output' →
  sound_citations items output' ∧ extends (it_unit_id item) output output' ∧
  (length output' = length output + length matching)%nat.
Proof.
  intros Hitem Hmat Hbound Hmatch. destruct (Hmaterials _ _ Hmat) as (Hid & Hin & Hal & Hrec).
  revert output. induction Hmatch as [|c matching [Hce Hcr] Hmatch IH]; intros output Hok.
  { cbn [cite_matching]. intros [= <-]. split_and!; [done| |simpl; lia]. exists [].
    by rewrite app_nil_r. }
  cbn [cite_matching].
  destruct (Nat.leb_spec MAX_VERIFIED_RECEIPTS (length output)) as [|Hlt]; [done|].
  destruct (verify_citation _ _ _ _ _ _ _ _) as [receipt|] eqn:Ev; [|done]. cbn [result_bind].
  intros Hcite.
  apply verified_citation_grounded with (unit := rm_unit material) in Ev; try done.
  destruct (IH (output ++ [citation_for item (CitationVerification.Verified receipt)]))
    as (G1 & (new & -> & Hnew) & G3); [|done|].
  { apply sound_citations_snoc; [done|]. exists item. split_and!; [done..|].
    intros r [= <-]. done. }
  split_and!; [done| |rewrite G3, length_app; simpl; lia].
  exists (citation_for item (CitationVerification.Verified receipt) :: new).
  split; [by rewrite <-app_assoc|]. by constructor.
Qed.

(** The item gets a citation: when it has a source or was derived. *)
Definition is_cited (item : RecallContextItem) : bool :=
  is_direct item || negb (is_empty (it_derived_from_unit_ids item)).

Definition binds (item : RecallContextItem) : Prop :=
  is_direct item = true → ∃ unit, unit ∈ tenant_units state context ∧
    mu_id unit = it_unit_id item ∧ unit_is_bound context item unit = true.

Lemma cite_item_ok items item output output' :
  item ∈ items → sound_citations items output →
  cite_item request recall_time trace_id query_hash materials episodes resources item output =
    Ok output' →
  sound_citations items output' ∧ extends (it_unit_id item) output output' ∧ binds item ∧
  (is_cited item = true → (length output < length output')%nat).
Proof.
  intros Hitem Hok. unfold cite_item, is_cited, binds, extends.
  destruct (is_direct item) eqn:Hd; cbn [negb orb].
  - destruct (materials !! it_unit_id item) as [material|] eqn:Hmat; [|done].
    cbn [ok_or result_bind].
    destruct (unit_is_bound _ _ _) eqn:Hb; [|done]. cbn [negb].
    destruct (Hmaterials _ _ Hmat) as (Hid & Hin & Hal & Hrec).
    assert (∃ unit, unit ∈ tenant_units state context ∧ mu_id unit = it_unit_id item ∧
      unit_is_bound context item unit = true) as Hunit by eauto.
    destruct (is_empty (matching_citations item material)) eqn:Hemp.
    + intros [= <-]. split_and!; [|eexists; split; [reflexivity|by repeat constructor]|done|].
      * apply sound_citations_snoc; [done|]. exists item. split_and!; [done..|]. by intros r [=].
      * intros _. rewrite length_app. simpl. lia.
    + intros Hcite. eapply cite_matching_ok in Hcite as (G1 & G2 & G3); try done.
      * split_and!; [done..|]. intros _. rewrite G3.
        destruct (matching_citations item material); [done|]. simpl. lia.
      * apply Forall_forall. intros c Hc. apply elem_of_retain in Hc as [_ Hc].
        by apply andb_true_iff in Hc as [?%bool_decide_eq_true ?%bool_decide_eq_true].
  - destruct (is_empty (it_derived_from_unit_ids item)); cbn [negb]; intros [= <-].
    + split_and!; [done| |done|done]. exists []. by rewrite app_nil_r.
    + split_and!; [|eexists; split; [reflexivity|by repeat constructor]|done|].
      * apply sound_citations_snoc; [done|]. exists item. split_and!; [done..|]. by intros r [=].
      * intros _. rewrite length_app. simpl. lia.
Qed.

Lemma cite_items_ok all items output output' :
  items ⊆ all → sound_citations all output →
  cite_items request recall_time trace_id query_hash materials episodes resources items output =
    Ok output' →
  sound_citations all output' ∧ (∃ new, output' = output ++ new) ∧
  ∀ item, item ∈ items → binds item ∧
    (is_cited item = true → ∃ c, c ∈ output' ∧ rc_unit_id c = it_unit_id item).
Proof.
  revert output. induction items as [|item items IH]; intros output Hsub Hok.
  { cbn [cite_items]. intros [= <-]. split_and!; [done| |by intros ? ?%not_elem_of_nil].
    exists []. by rewrite app_nil_r. }
  cbn [cite_items]. destruct (cite_item _ _ _ _ _ _ _ _ _) as [mid|] eqn:Ei; [|done].
  cbn [result_bind]. intros Hcite.
  eapply (cite_item_ok all) in Ei as (G1 & (new & -> & Hnew) & G3 & G4); [|apply Hsub; left|done].
  apply IH in Hcite as (G5 & (new' & ->) & G6); [|intros i Hi; apply Hsub; by right|done].
  split_and!; [done|by eexists; rewrite <-app_assoc|].
  intros i [->|Hi]%elem_of_cons; [|by apply G6]. split; [done|]. intros Hc.
  specialize (G4 Hc). rewrite length_app in G4. destruct new as [|c new]; [simpl in G4; lia|].
  exists c. apply Forall_cons in Hnew as [Hnew _]. split; [|done].
  rewrite !elem_of_app. left. right. left.
Qed.
End loaded.

Lemma recall_citations_spec items citations :
  build_recall_citations state request recall_time trace_id query_hash items = Ok citations →
  sound_citations items citations ∧ ∀ item, item ∈ items → binds item ∧
    (is_cited item = true → ∃ c, c ∈ citations ∧ rc_unit_id c = it_unit_id item).
Proof.
  unfold build_recall_citations.
  destruct (fetch_record_material _ _ _ _) as [materials|] eqn:Em; [|done].
  apply fetched_materials_ok in Em. cbn [from_store result_bind].
  destruct (fetch_episodes_by_ids _ _ _) as [episodes|] eqn:Ee; [|done].
  apply fetched_episodes_ok in Ee. cbn [from_store result_bind].
  destruct (fetch_resources_by_ids _ _ _) as [resources|] eqn:Er; [|done].
  apply fetched_resources_ok in Er. cbn [from_store result_bind]. intros Hc.
  eapply (cite_items_ok _ _ _ Em Ee Er items) in Hc as (G1 & _ & G2); [by split| |]; done.
Qed.

(** C21: Every verified citation of a recall is evidence: its unit is the
    context's own, readable at the recall's times and the source of the item;
    the source row is the context's own, not quarantined, a resource with an
    empty ACL and the content hash of its text; the quote is the slice of that
    text's bytes named by the span, at most 64 KiB, with the recorded hash; and
    the receipt is bound to the trace, the query and the policy.  At most 1024
    citations are verified, and every item with a source or derived from units
    is cited. *)
Theorem receipts_are_grounded items citations :
  build_recall_citations state request recall_time trace_id query_hash items = Ok citations →
  (∀ index c receipt, citations !! index = Some c →
     rc_verification c = CitationVerification.Verified receipt →
     (index < MAX_VERIFIED_RECEIPTS)%nat ∧
     ∃ item, item ∈ items ∧ rc_unit_id c = it_unit_id item ∧ grounded item receipt) ∧
  ∀ item, item ∈ items → is_cited item = true →
    ∃ c, c ∈ citations ∧ rc_unit_id c = it_unit_id item.
Proof.
  intros [Hok Hall]%recall_citations_spec. split.
  - intros index c receipt Hc Hv. destruct (Hok _ _ Hc) as (item & Hin & Hid & Hg).
    destruct (Hg _ Hv) as [? ?]. eauto.
  - intros item Hin. by apply Hall.
Qed.

(** A recall cites only the context's own memory, or fails as a whole: when
    an item with a source is a unit of another scope, agent node or actor (a
    unit shared by an access policy, or one no actor wrote), there are no
    citations but an error. *)
Theorem shared_source_fails_recall items item unit :
  NoDup (map mu_id (tenant_units state context)) → unit ∈ tenant_units state context →
  item ∈ items → mu_id unit = it_unit_id item → is_direct item = true →
  mu_scope_id unit ≠ cx_scope_id context ∨ mu_agent_node_id unit ≠ cx_agent_node_id context ∨
    mu_actor_id unit ≠ Some (cx_actor_id context) →
  ∃ e, build_recall_citations state request recall_time trace_id query_hash items = Err e.
Proof.
  intros Hnd Hin Hitem Hid Hd Hforeign.
  destruct (build_recall_citations _ _ _ _ _ _) as [citations|e] eqn:E; [|by eexists].
  exfalso. apply recall_citations_spec in E as [_ E]. destruct (E item Hitem) as [Hb _].
  destruct (Hb Hd) as (u & Hu & Hiu & Hbound).
  assert (u = unit) as -> by (eapply same_id_same_unit; [exact Hnd|done|done|congruence]).
  unfold unit_is_bound, in_context in Hbound.
  rewrite !andb_true_iff, !N.eqb_eq, !bool_decide_eq_true in Hbound.
  destruct Hbound as [[[[[[[_ _] Hs] Hn] _] Ha] _] _]. by destruct Hforeign as [?|[?|?]].
Qed.
End receipts.
