(* ===== verification/Compile.v ===== *)
(** * Compile: the write compiler

    [prepare_compiled_write] of [crates/memphant-core/src/lib.rs]: the
    candidates of one reflect job are admitted one after the other into a
    working copy of the open units of the scope.  A candidate is rejected,
    appended, merged into an open unit, promotes a belief, supersedes or
    invalidates open generations, or is quarantined; then beliefs are composed
    from pairs of preferences, and the difference to the snapshot becomes one
    [CompiledWrite] with citations and embeddings.  New identifiers are drawn
    from enumerations; the process-wide recency control is an argument. *)

From S2P Require Import Prelude Text Types Float Clock Bitemporal Lineage Store Txn Stage Binding Reads.
From S2P Require Import Capture Gate.

(** ** Candidates and the input of a job *)

Record ReflectCandidate : Set := mkCandidate {
  cd_source_kind : string;
  cd_trust_level : TrustLevel.t;
  cd_actor_id : ActorId;
  cd_subject : option string;
  cd_predicate : option string;
  cd_fact_key : option string;
  cd_kind : option MemoryKind.t;
  cd_body : string;
  cd_confidence : option f32;
  cd_churn_class : option string;
  cd_admission_hint : option AdmissionAction.t;
  cd_contextual_chunks : list ContextualChunk;
  cd_valid_from : option string;
  cd_valid_to : option string;
  cd_target_unit_ids : option (list UnitId);
  cd_compact : option CompactEnvelope;
  cd_capture : option CaptureMarker;
}.

Record ReflectInput : Set := mkReflectInput {
  rx_tenant_id : TenantId;
  rx_data_subject_id : SubjectId;
  rx_scope_id : ScopeId;
  rx_agent_node_id : AgentNodeId;
  rx_subject_generation : N;
  rx_actor_id : ActorId;
  rx_source_ref : string;
  rx_observed_at : string;
  rx_source_body : option string;
  rx_episode_id : option EpisodeId;
  rx_resource_id : option ResourceId;
  rx_job_id : JobId;
  rx_compiler_version : string;
  rx_candidates : list ReflectCandidate;
}.

(** The local variables of the compilation loop. *)
Record Compilation : Set := mkCompilation {
  co_working : list StoredMemoryUnit;
  co_new_ids : gset UnitId;
  co_new_edges : list StoredMemoryEdge;
  co_minted : nat;
}.
#[export] Instance Compilation_eta : Eta Compilation := λ r,
  mkCompilation (co_working r) (co_new_ids r) (co_new_edges r) (co_minted r).

(** An earlier compilation of the job, or a write to persist. *)
Module PreparedCompiledWrite.
Inductive t : Set :=
| Existing (trace : ReflectTrace)
| Write (created_unit_ids : list UnitId) (write : CompiledWrite).
End PreparedCompiledWrite.

(** ** The write router *)

Module WriteArm.
Inductive t : Set := Episodic | Knowledge | Procedural | Belief | Resource | Preference.
#[export] Instance t_eq_dec : EqDecision t.
Proof. solve_decision. Defined.
End WriteArm.
Export (hints) WriteArm.

Definition write_router_arm (kind : MemoryKind.t) : WriteArm.t :=
  match kind with
  | MemoryKind.Episodic => WriteArm.Episodic
  | MemoryKind.Semantic => WriteArm.Knowledge
  | MemoryKind.Procedural => WriteArm.Procedural
  | MemoryKind.Belief => WriteArm.Belief
  | MemoryKind.Resource => WriteArm.Resource
  | MemoryKind.Preference => WriteArm.Preference
  end.

Definition supersedes_own_kind (a_recency_control_enabled : bool) (kind : MemoryKind.t)
    : option MemoryKind.t :=
  if a_recency_control_enabled then None
  else match write_router_arm kind with
       | WriteArm.Knowledge => Some MemoryKind.Semantic
       | WriteArm.Preference => Some MemoryKind.Preference
       | WriteArm.Episodic | WriteArm.Procedural | WriteArm.Belief | WriteArm.Resource => None
       end.

Definition trust_risk_rank (trust : TrustLevel.t) : N :=
  match trust with
  | TrustLevel.TrustedUser | TrustLevel.TrustedSystem => 0
  | TrustLevel.VerifiedTool => 1
  | TrustLevel.UnverifiedTool => 2
  | TrustLevel.WebContent => 3
  | TrustLevel.AgentOutput => 4
  | TrustLevel.ImportedExternal => 5
  | TrustLevel.Quarantined => 6
  end.

Definition is_high_trust (trust : TrustLevel.t) : bool :=
  match trust with TrustLevel.TrustedUser | TrustLevel.TrustedSystem => true | _ => false end.

Definition low_trust_projection_state (kind : MemoryKind.t) : UnitState.t :=
  match kind with
  | MemoryKind.Episodic | MemoryKind.Resource => UnitState.Active
  | _ => UnitState.Candidate
  end.

(** ** Reading a candidate *)

(** [{:?}] of a string: escapes and quotes. *)
Class StrDebug := debug_str : string → string.

(** An embedding model: vectors for texts or the text of an error. *)
Class EmbeddingProvider := {
  embed : list string → result string (list (list f32));
  dimensions : N;
  embedder_id : string;
}.

Definition is_some {A} (o : option A) : bool := match o with Some _ => true | None => false end.

Definition reject_compiler_candidate_as_noise (candidate : ReflectCandidate) : bool :=
  if trim_is_empty (cd_body candidate) then true
  else
    let raw_evidence := match cd_kind candidate with
                        | Some (MemoryKind.Episodic | MemoryKind.Resource) => true
                        | _ => false
                        end in
    negb raw_evidence && negb (is_some (cd_fact_key candidate)) &&
    (length (split_whitespace (cd_body candidate)) <? 3)%nat.

Definition non_empty_component (value : option string) : option string :=
  value ← value;
  let value := normalize_component value in
  if bool_decide (value = String.EmptyString) then None else Some value.

Definition has_explicit_subject (candidate : ReflectCandidate) : bool :=
  match cd_fact_key candidate with
  | Some key => negb (trim_is_empty key)
  | None => false
  end ||
  (is_some (non_empty_component (cd_subject candidate)) &&
   is_some (non_empty_component (cd_predicate candidate))).

Definition underscored (value : string) : string :=
  string_of_bytes (map (λ b, if b =? 32 then 95 else b) (bytes_of value)).

Definition bounded (candidate : ReflectCandidate) : bool :=
  is_some (cd_valid_from candidate) || is_some (cd_valid_to candidate).

Definition captures_from_different_sources (unit : StoredMemoryUnit) (candidate : ReflectCandidate)
    : bool :=
  match mu_capture unit, cd_capture candidate with
  | Some existing, Some incoming => negb (bool_decide (cm_source existing = cm_source incoming))
  | _, _ => false
  end.

Definition capture_bodies_agree (unit : StoredMemoryUnit) (candidate : ReflectCandidate) : bool :=
  bool_decide (mu_body unit = cd_body candidate) ||
  (is_some (cd_capture candidate) &&
   bool_decide (capture_body_key unit = normalize_component (cd_body candidate))).

Definition is_independent_source (existing : StoredMemoryUnit) (candidate : ReflectCandidate)
    : bool :=
  negb (bool_decide (mu_source_kind existing = Some (cd_source_kind candidate))) ||
  match mu_capture existing with
  | Some marker => bool_decide (CaptureWitness.WeakOutcome ∈ cm_witnesses marker)
  | None => false
  end.

Definition can_promote_belief (existing : StoredMemoryUnit) (candidate : ReflectCandidate) : bool :=
  if negb (bool_decide (mu_kind existing = MemoryKind.Belief)) ||
     bool_decide (cd_source_kind candidate = "composition")
  then false
  else is_high_trust (cd_trust_level candidate) || is_independent_source existing candidate.

(** [working.iter().enumerate().filter(..).map(|(index, _)| index)]. *)
Definition indices_where (p : StoredMemoryUnit → bool) (working : list StoredMemoryUnit)
    : list nat :=
  retain (λ i, match working !! i with Some u => p u | None => false end)
    (seq 0 (length working)).

Section validity.
Context `{Jiff}.

Definition candidate_targets_unit (candidate : ReflectCandidate) (unit : StoredMemoryUnit)
    (now : string) : bool :=
  if negb (bounded candidate) then valid_covers unit now
  else intervals_overlap (mu_valid_from unit) (mu_valid_to unit)
         (cd_valid_from candidate) (cd_valid_to candidate).

Definition candidate_validity_covered_by_unit (candidate : ReflectCandidate)
    (unit : StoredMemoryUnit) (now : string) : bool :=
  if negb (bounded candidate) then candidate_targets_unit candidate unit now
  else
    match cd_valid_from candidate, mu_valid_from unit with
    | None, unit_start => negb (is_some unit_start)
    | Some candidate_start, Some unit_start => negb (is_gt (cmp_rfc3339 unit_start candidate_start))
    | Some _, None => true
    end &&
    match cd_valid_to candidate, mu_valid_to unit with
    | None, unit_end => negb (is_some unit_end)
    | Some candidate_end, Some unit_end => negb (is_gt (cmp_rfc3339 candidate_end unit_end))
    | Some _, None => true
    end.
End validity.

Section compile.
Context `{Jiff} `{Sha256} `{StrDebug} (a_recency_control_enabled : bool).
Context (new_unit_id : nat → UnitId) (new_edge_id : nat → EdgeId) (new_citation_id : nat → Uuid).

Definition derive_fact_key (scope_id : Uuid) (subject predicate : option string) (body : string)
    : string :=
  match non_empty_component subject, non_empty_component predicate with
  | Some subject, Some predicate =>
      uuid_string scope_id +:+ ":" +:+ underscored subject +:+ ":" +:+ predicate
  | _, _ =>
      uuid_string scope_id +:+ ":auto:" +:+
      String.substring 0 16 (sha256_hex (normalize_component body))
  end.

Section job.
Context (input : ReflectInput) (now : string).

Definition fact_key_of (candidate : ReflectCandidate) : string :=
  default (derive_fact_key (rx_scope_id input) (cd_subject candidate) (cd_predicate candidate)
             (cd_body candidate))
    (cd_fact_key candidate).

Definition on_key (fact_key : string) (unit : StoredMemoryUnit) : bool :=
  (mu_scope_id unit =? rx_scope_id input) && bool_decide (mu_fact_key unit = Some fact_key).

Definition minted_unit (id : UnitId) (kind : MemoryKind.t) (state : UnitState.t)
    (fact_key : string) (candidate : ReflectCandidate) : StoredMemoryUnit := {|
  mu_id := id;
  mu_tenant_id := rx_tenant_id input;
  mu_data_subject_id := rx_data_subject_id input;
  mu_scope_id := rx_scope_id input;
  mu_agent_node_id := rx_agent_node_id input;
  mu_subject_generation := rx_subject_generation input;
  mu_kind := kind;
  mu_state := state;
  mu_fact_key := Some fact_key;
  mu_predicate := cd_predicate candidate;
  mu_body := cd_body candidate;
  mu_confidence := cd_confidence candidate;
  mu_trust_level := cd_trust_level candidate;
  mu_churn_class := cd_churn_class candidate;
  mu_freshness_due_at :=
    if negb (bool_decide (state = UnitState.Quarantined)) &&
       bool_decide (cd_churn_class candidate = Some "volatile")
    then Some now else None;
  mu_actor_id := Some (cd_actor_id candidate);
  mu_source_kind := Some (cd_source_kind candidate);
  mu_source_ref := rx_source_ref input;
  mu_observed_at := rx_observed_at input;
  mu_source_episode_id := rx_episode_id input;
  mu_source_resource_id := rx_resource_id input;
  mu_deletion_generation := None;
  mu_contextual_chunks := cd_contextual_chunks candidate;
  mu_valid_from := cd_valid_from candidate;
  mu_valid_to := cd_valid_to candidate;
  mu_transaction_from := Some now;
  mu_transaction_to := None;
  mu_last_reinforced_at := None;
  mu_reinforcement_count := 0;
  mu_compact := cd_compact candidate;
  mu_invalidation := None;
  mu_capture := cd_capture candidate;
|}.

(** ** Edits of the working state *)

(** [UnitId::new()]: the next identifier of the enumeration. *)
Definition mint (st : Compilation) : UnitId * Compilation :=
  (new_unit_id (co_minted st), st <| co_minted ::= S |>).

(** [working.push(unit); new_ids.insert(unit.id)]. *)
Definition push_unit (unit : StoredMemoryUnit) (st : Compilation) : Compilation :=
  st <| co_working ::= λ l, l ++ [unit] |> <| co_new_ids ::= λ ids, {[mu_id unit]} ∪ ids |>.

Definition push_edge (kind : MemoryEdgeKind.t) (src_id dst_id : UnitId) (st : Compilation)
    : Compilation :=
  st <| co_new_edges ::= λ edges, edges ++ [{|
    ed_id := new_edge_id (length edges);
    ed_tenant_id := rx_tenant_id input;
    ed_scope_id := rx_scope_id input;
    ed_src_id := src_id;
    ed_dst_id := dst_id;
    ed_kind := kind;
    ed_transaction_from := Some now;
    ed_transaction_to := None;
  |}] |>.

Definition edit_unit (index : nat) (f : StoredMemoryUnit → StoredMemoryUnit) (st : Compilation)
    : Compilation :=
  st <| co_working ::= alter f index |>.

(** [correction_rectangles]: the split of [old] under three fresh ids. *)
Definition correction_rectangles (old : StoredMemoryUnit) (payload : CorrectionPayload)
    (st : Compilation)
    : result CoreError.t (StoredMemoryUnit * list StoredMemoryUnit * Compilation) :=
  let n := co_minted st in
  let ids := mkCorrectionUnitIds (new_unit_id n) (new_unit_id (S n), new_unit_id (S (S n))) in
  match correction_rectangles_with_ids old payload (rx_source_ref input) (rx_observed_at input)
          (rx_actor_id input) now ids with
  | Err e => Err (CoreError.Store e)
  | Ok rectangles => Ok (rectangles, st <| co_minted := S (S (S n)) |>)
  end.

(** A remainder keeps the part of a closed unit the candidate does not claim. *)
Definition keep_remainder (old_id : UnitId) (st : Compilation) (remainder : StoredMemoryUnit)
    : Compilation :=
  push_edge MemoryEdgeKind.Supersedes (mu_id remainder) old_id (push_unit remainder st).

(** ** Targets named by id *)

Definition names_target (target_ids : list UnitId) (candidate : ReflectCandidate)
    (kind : MemoryKind.t) (unit : StoredMemoryUnit) : bool :=
  mem (mu_id unit) target_ids && (mu_scope_id unit =? rx_scope_id input) &&
  bool_decide (mu_state unit = UnitState.Active) && bool_decide (mu_kind unit = kind) &&
  bool_decide (mu_transaction_to unit = None) && candidate_targets_unit candidate unit now &&
  (trust_risk_rank (cd_trust_level candidate) <=? trust_risk_rank (mu_trust_level unit)).

Definition create_collides (target_ids : list UnitId) (candidate : ReflectCandidate)
    (kind : MemoryKind.t) (fact_key : string) (unit : StoredMemoryUnit) : bool :=
  negb (mem (mu_id unit) target_ids) && on_key fact_key unit &&
  bool_decide (mu_state unit = UnitState.Active) && bool_decide (mu_kind unit = kind) &&
  bool_decide (mu_transaction_to unit = None) && candidate_targets_unit candidate unit now.

Definition targeted_indices (st : Compilation) (candidate : ReflectCandidate) (kind : MemoryKind.t)
    (fact_key : string) : result CoreError.t (list nat) :=
  match cd_target_unit_ids candidate with
  | None => Ok []
  | Some target_ids =>
      if negb (bool_decide (NoDup target_ids))
      then Err (CoreError.ProviderInvalid "structured-state target ids are duplicated")
      else if negb (is_empty target_ids) && negb (is_high_trust (cd_trust_level candidate))
      then Err (CoreError.ProviderInvalid "structured-state target ids require a trusted actor")
      else
        let indices := indices_where (names_target target_ids candidate kind) (co_working st) in
        if negb (length indices =? length target_ids)%nat
        then Err (CoreError.ProviderInvalid (
          "structured-state mutation did not match every exact active target for subject key "
          +:+ fact_key))
        else if is_some (supersedes_own_kind a_recency_control_enabled kind) &&
                any (create_collides target_ids candidate kind fact_key) (co_working st)
        then Err (CoreError.ProviderInvalid (
          "structured-state create collided with active subject key " +:+ fact_key))
        else Ok indices
  end.

(** ** Closing the open generation *)

Definition closes (candidate : ReflectCandidate) (fact_key : string)
    (supersedable_kind : option MemoryKind.t) (existing : StoredMemoryUnit) : bool :=
  on_key fact_key existing && bool_decide (mu_state existing = UnitState.Active) &&
  bool_decide (Some (mu_kind existing) = supersedable_kind) &&
  candidate_targets_unit candidate existing now.

(** The indices an unnamed close or invalidation takes: all that overlap a
    bounded candidate, the first for an unbounded one. *)
Definition untargeted (candidate : ReflectCandidate) (indices : list nat) : list nat :=
  if negb (bounded candidate) && negb (is_some (cd_target_unit_ids candidate))
  then take 1 indices else indices.

Definition supersede_one (candidate : ReflectCandidate) (acc : Compilation * StoredMemoryUnit)
    (existing_index : nat) : result CoreError.t (Compilation * StoredMemoryUnit) :=
  let '(st, unit) := acc in
  match co_working st !! existing_index with
  | None => Ok acc
  | Some old =>
      let st := edit_unit existing_index (close_unit UnitState.Superseded now) st in
      let '(valid_from, valid_to) :=
        if bounded candidate then
          interval_intersection (mu_valid_from old) (mu_valid_to old)
            (cd_valid_from candidate) (cd_valid_to candidate)
        else (mu_valid_from unit, mu_valid_to unit) in
      let payload := {|
        cp_value := mu_body unit;
        cp_reason := "reflect_supersedence";
        cp_source_ref := rx_source_ref input;
        cp_observed_at := rx_observed_at input;
        cp_valid_from := valid_from;
        cp_valid_to := valid_to;
      |} in
      rectangles <-? correction_rectangles old payload st;
      let '(replacement, remainders, st) := rectangles in
      let unit :=
        if bounded candidate then unit
        else unit <| mu_valid_from := mu_valid_from replacement |>
                  <| mu_valid_to := mu_valid_to replacement |> in
      let st := foldl (keep_remainder (mu_id old)) st remainders in
      let st := push_edge MemoryEdgeKind.Contradicts (mu_id old) (mu_id unit) st in
      Ok (push_edge MemoryEdgeKind.Supersedes (mu_id unit) (mu_id old) st, unit)
  end.

Definition generation_indices (st : Compilation) (candidate : ReflectCandidate)
    (fact_key : string) (supersedable_kind : option MemoryKind.t) (targeted : list nat)
    : list nat :=
  untargeted candidate
    (if is_some (cd_target_unit_ids candidate) then targeted
     else indices_where (closes candidate fact_key supersedable_kind) (co_working st)).

(** Closes what [unit] replaces; whether it closed anything, and [unit] with
    the valid interval it takes over. *)
Definition close_open_generation (st : Compilation) (candidate : ReflectCandidate)
    (fact_key : string) (supersedable_kind : option MemoryKind.t) (targeted : list nat)
    (unit : StoredMemoryUnit) : result CoreError.t (bool * Compilation * StoredMemoryUnit) :=
  let existing_indices := generation_indices st candidate fact_key supersedable_kind targeted in
  closed <-? try_fold (supersede_one candidate) (st, unit) existing_indices;
  Ok (negb (is_empty existing_indices), fst closed, snd closed).

(** ** The arms of an admission *)

Definition mint_quarantined_belief (fact_key : string) (candidate : ReflectCandidate)
    (st : Compilation) : Compilation * AdmissionAction.t :=
  let '(new_id, st) := mint st in
  (push_unit (minted_unit new_id MemoryKind.Belief UnitState.Quarantined fact_key candidate) st,
   AdmissionAction.Quarantine).

Definition is_candidate_active_or_validated (state : UnitState.t) : bool :=
  match state with
  | UnitState.Candidate | UnitState.Active | UnitState.Validated => true
  | _ => false
  end.

Definition same_channel (incoming : CaptureMarker) (fact_key : string) (kind : MemoryKind.t)
    (candidate : ReflectCandidate) (unit : StoredMemoryUnit) : bool :=
  on_key fact_key unit && bool_decide (mu_kind unit = kind) &&
  bool_decide (mu_transaction_to unit = None) &&
  is_candidate_active_or_validated (mu_state unit) &&
  match mu_capture unit with
  | Some marker => bool_decide (cm_source marker = cm_source incoming)
  | None => false
  end && candidate_targets_unit candidate unit now.

Definition reinforce (unit : StoredMemoryUnit) : StoredMemoryUnit :=
  unit <| mu_reinforcement_count ::= λ n, saturating_add u32_max n 1 |>
       <| mu_last_reinforced_at := Some now |>.

Definition admit_same_channel_capture (candidate : ReflectCandidate) (fact_key : string)
    (high_trust : bool) (st : Compilation) : option (Compilation * AdmissionAction.t) :=
  incoming ← cd_capture candidate;
  let kind := default MemoryKind.Belief (cd_kind candidate) in
  existing_index ← position (same_channel incoming fact_key kind candidate) (co_working st);
  old ← co_working st !! existing_index;
  if capture_bodies_agree old candidate then
    if can_promote_belief old candidate then None
    else if negb (bool_decide (mu_source_episode_id old = rx_episode_id input))
    then Some (edit_unit existing_index reinforce st, AdmissionAction.Merge)
    else Some (st, AdmissionAction.Merge)
  else
    let '(new_id, st) := mint st in
    let state := if high_trust then UnitState.Active else low_trust_projection_state kind in
    let unit := minted_unit new_id kind state fact_key candidate
                  <| mu_reinforcement_count := mu_reinforcement_count old |>
                  <| mu_last_reinforced_at := mu_last_reinforced_at old |> in
    let st := edit_unit existing_index (close_unit UnitState.Superseded now) st in
    Some (push_edge MemoryEdgeKind.Supersedes new_id (mu_id old) (push_unit unit st),
          AdmissionAction.Supersede).

Definition is_closed_state (state : UnitState.t) : bool :=
  match state with
  | UnitState.Deleted | UnitState.Invalidated | UnitState.Superseded | UnitState.Expired => true
  | _ => false
  end.

(** The open unit a candidate repeats. *)
Definition repeats (candidate : ReflectCandidate) (fact_key : string) (unit : StoredMemoryUnit)
    : bool :=
  on_key fact_key unit && capture_bodies_agree unit candidate &&
  bool_decide (mu_transaction_to unit = None) &&
  negb (captures_from_different_sources unit candidate) &&
  negb (is_closed_state (mu_state unit)) &&
  candidate_validity_covered_by_unit candidate unit now.

(** Closes the generation if the arm may, then adds the unit. *)
Definition append_closing (may_close : bool) (candidate : ReflectCandidate) (fact_key : string)
    (supersedable_kind : option MemoryKind.t) (targeted : list nat) (unit : StoredMemoryUnit)
    (st : Compilation) : result CoreError.t (Compilation * AdmissionAction.t) :=
  closed <-? (if may_close
              then close_open_generation st candidate fact_key supersedable_kind targeted unit
              else Ok (false, st, unit));
  let '(closed, st, unit) := closed in
  Ok (push_unit unit st, if closed then AdmissionAction.Supersede else AdmissionAction.Append).

Definition promote_belief (belief_id : UnitId) (candidate : ReflectCandidate) (fact_key : string)
    (targeted : list nat) (st : Compilation) : result CoreError.t (Compilation * AdmissionAction.t) :=
  let own := supersedes_own_kind a_recency_control_enabled MemoryKind.Semantic in
  let '(semantic_id, st) := mint st in
  let unit := minted_unit semantic_id MemoryKind.Semantic UnitState.Active fact_key candidate in
  promoted <-? append_closing (has_explicit_subject candidate && is_some own)
                 candidate fact_key own targeted unit st;
  Ok (push_edge MemoryEdgeKind.DerivedFrom semantic_id belief_id (fst promoted), snd promoted).

Definition invalidate_one (candidate : ReflectCandidate) (st : Compilation) (existing_index : nat)
    : result CoreError.t Compilation :=
  match co_working st !! existing_index with
  | None => Ok st
  | Some old =>
      let state := if bounded candidate then UnitState.Superseded else UnitState.Invalidated in
      let st := edit_unit existing_index (close_unit state now) st in
      if bounded candidate then
        let '(valid_from, valid_to) :=
          interval_intersection (mu_valid_from old) (mu_valid_to old)
            (cd_valid_from candidate) (cd_valid_to candidate) in
        let payload := {|
          cp_value := mu_body old;
          cp_reason := "reflect_invalidation";
          cp_source_ref := rx_source_ref input;
          cp_observed_at := rx_observed_at input;
          cp_valid_from := valid_from;
          cp_valid_to := valid_to;
        |} in
        rectangles <-? correction_rectangles old payload st;
        let '(_, remainders, st) := rectangles in
        Ok (foldl (keep_remainder (mu_id old)) st remainders)
      else Ok st
  end.

Definition invalidate_generation (candidate : ReflectCandidate) (fact_key : string)
    (kind : MemoryKind.t) (targeted : list nat) (st : Compilation)
    : result CoreError.t (Compilation * AdmissionAction.t) :=
  let found :=
    if is_some (cd_target_unit_ids candidate) then targeted
    else indices_where (closes candidate fact_key (Some kind)) (co_working st) in
  if is_empty found
  then Err (CoreError.ProviderInvalid (
    "invalidation matched no open semantic unit for subject key " +:+ fact_key))
  else
    st <-? try_fold (invalidate_one candidate) st (untargeted candidate found);
    Ok (st, AdmissionAction.Invalidate).

Definition low_trust_kind (candidate : ReflectCandidate) : MemoryKind.t :=
  if is_some (cd_capture candidate) then
    match cd_kind candidate with
    | Some MemoryKind.Preference | None => MemoryKind.Semantic
    | Some kind => kind
    end
  else
    match cd_kind candidate with
    | Some MemoryKind.Semantic | Some MemoryKind.Preference | None => MemoryKind.Belief
    | Some kind => kind
    end.

Definition admit_trusted (candidate : ReflectCandidate) (fact_key : string) (targeted : list nat)
    (st : Compilation) : result CoreError.t (Compilation * AdmissionAction.t) :=
  let kind := default MemoryKind.Semantic (cd_kind candidate) in
  let supersedable_kind := supersedes_own_kind a_recency_control_enabled kind in
  match cd_admission_hint candidate with
  | Some AdmissionAction.Invalidate => invalidate_generation candidate fact_key kind targeted st
  | Some AdmissionAction.Quarantine => Ok (mint_quarantined_belief fact_key candidate st)
  | _ =>
      let '(new_id, st) := mint st in
      let unit := minted_unit new_id kind UnitState.Active fact_key candidate in
      append_closing
        (has_explicit_subject candidate &&
         (is_some supersedable_kind || is_some (cd_target_unit_ids candidate)))
        candidate fact_key supersedable_kind targeted unit st
  end.

Definition admit_untrusted (candidate : ReflectCandidate) (fact_key : string) (st : Compilation)
    : Compilation * AdmissionAction.t :=
  match cd_admission_hint candidate with
  | Some AdmissionAction.Quarantine => mint_quarantined_belief fact_key candidate st
  | _ =>
      let '(new_id, st) := mint st in
      let kind := low_trust_kind candidate in
      (push_unit (minted_unit new_id kind (low_trust_projection_state kind) fact_key candidate) st,
       AdmissionAction.Append)
  end.

(** One turn of the candidate loop. *)
Definition admit_candidate (st : Compilation) (candidate : ReflectCandidate)
    : result CoreError.t (Compilation * AdmissionAction.t) :=
  if reject_compiler_candidate_as_noise candidate then Ok (st, AdmissionAction.Reject)
  else
    let fact_key := fact_key_of candidate in
    let kind := default MemoryKind.Semantic (cd_kind candidate) in
    let high_trust := is_high_trust (cd_trust_level candidate) in
    targeted <-? targeted_indices st candidate kind fact_key;
    match admit_same_channel_capture candidate fact_key high_trust st with
    | Some admitted => Ok admitted
    | None =>
        match find (repeats candidate fact_key) (co_working st) with
        | Some existing =>
            if can_promote_belief existing candidate
            then promote_belief (mu_id existing) candidate fact_key targeted st
            else Ok (st, AdmissionAction.Merge)
        | None =>
            if high_trust then admit_trusted candidate fact_key targeted st
            else Ok (admit_untrusted candidate fact_key st)
        end
    end.

Definition admit_step (acc : Compilation * list AdmissionAction.t) (candidate : ReflectCandidate)
    : result CoreError.t (Compilation * list AdmissionAction.t) :=
  admitted <-? admit_candidate (fst acc) candidate;
  Ok (fst admitted, snd acc ++ [snd admitted]).

(** ** Composition of beliefs from preferences *)

Definition composable_source_unit (unit : StoredMemoryUnit) : bool :=
  match mu_kind unit with MemoryKind.Semantic | MemoryKind.Belief => true | _ => false end &&
  match mu_state unit with UnitState.Active | UnitState.Candidate => true | _ => false end &&
  bool_decide (mu_transaction_to unit = None) && bool_decide (mu_deletion_generation unit = None) &&
  negb (bool_decide (derived_by_for_unit unit = "composition")) &&
  match mu_trust_level unit with
  | TrustLevel.TrustedUser | TrustLevel.TrustedSystem | TrustLevel.VerifiedTool => true
  | _ => false
  end.

Definition COMPOSITION_RISKS : list string := [
  "always agree"; "agree with me"; "tell me i am right"; "ignore evidence"; "ignore policy";
  "bypass"; "admin"; "password"; "secret"; "token"; "delete production"; "force push";
  "force-push"; "exfiltrat"; "curl "; "rm -rf"].
Definition contains_composition_risk (value : list N) : bool :=
  existsb (λ phrase, contains_bytes value (bytes_of phrase)) COMPOSITION_RISKS.

Record PreferenceObservation : Set := mkPreference {
  po_descriptor : string;
  po_object : string;
}.

Definition parse_preference_observation (body : string) : option PreferenceObservation :=
  let normalized := trim_end_bytes (λ b, b =? 46) (bytes_of (normalize_component body)) in
  preference ←
    match strip_pat (bytes_of "the user prefers ") normalized with
    | Some preference => Some preference
    | None => strip_pat (bytes_of "user prefers ") normalized
    end;
  if contains_composition_risk preference then None
  else
    let tokens := split_words [] preference in
    if (length tokens <? 3)%nat then None
    else
      let object := join_space (drop (length tokens - 2) tokens) in
      let descriptor := join_space (take (length tokens - 2) tokens) in
      if is_empty descriptor || is_empty object then None
      else Some (mkPreference (string_of_bytes descriptor) (string_of_bytes object)).

Notation Observation := (string * StoredMemoryUnit)%type.

Definition observation_leb (left right : Observation) : bool :=
  match str_cmp left.1 right.1 with
  | Lt => true
  | Gt => false
  | Eq => negb (is_gt (str_cmp (mu_body left.2) (mu_body right.2)))
  end.

(** The observations of a scope by their object. *)
Definition add_observation (grouped : gmap string (list Observation)) (unit : StoredMemoryUnit)
    : gmap string (list Observation) :=
  if (mu_scope_id unit =? rx_scope_id input) && composable_source_unit unit then
    match parse_preference_observation (mu_body unit) with
    | Some preference => push_row (po_object preference) (po_descriptor preference, unit) grouped
    | None => grouped
    end
  else grouped.

(** A [BTreeMap] in key order. *)
Definition in_key_order {V} (m : gmap string V) : list (string * V) :=
  sort_by (λ l r, negb (is_gt (str_cmp l.1 r.1))) (map_to_list m).

Definition distinct_observations (observations : list Observation) : list Observation :=
  dedup_by (λ l r, bool_decide (l.1 = r.1)) (sort_by observation_leb observations).

Definition composed_unit (id : UnitId) (object body : string) (source : StoredMemoryUnit)
    : StoredMemoryUnit := {|
  mu_id := id;
  mu_tenant_id := rx_tenant_id input;
  mu_data_subject_id := rx_data_subject_id input;
  mu_scope_id := rx_scope_id input;
  mu_agent_node_id := rx_agent_node_id input;
  mu_subject_generation := rx_subject_generation input;
  mu_kind := MemoryKind.Belief;
  mu_state := UnitState.Candidate;
  mu_fact_key :=
    Some (derive_fact_key (rx_scope_id input) (Some "user preference") (Some object) body);
  mu_predicate := None;
  mu_body := body;
  mu_confidence := None;
  mu_trust_level := TrustLevel.AgentOutput;
  mu_churn_class := None;
  mu_freshness_due_at := None;
  mu_actor_id := Some (rx_actor_id input);
  mu_source_kind := Some "composition";
  mu_source_ref := mu_source_ref source;
  mu_observed_at := mu_observed_at source;
  mu_source_episode_id := rx_episode_id input;
  mu_source_resource_id := None;
  mu_deletion_generation := None;
  mu_contextual_chunks := [];
  mu_valid_from := None;
  mu_valid_to := None;
  mu_transaction_from := Some now;
  mu_transaction_to := None;
  mu_last_reinforced_at := None;
  mu_reinforcement_count := 0;
  mu_compact := None;
  mu_invalidation := None;
  mu_capture := None;
|}.

Definition standing_composition (unit : StoredMemoryUnit) : bool :=
  (mu_scope_id unit =? rx_scope_id input) &&
  bool_decide (derived_by_for_unit unit = "composition") &&
  match mu_state unit with
  | UnitState.Deleted | UnitState.Invalidated | UnitState.Expired => false
  | _ => true
  end && bool_decide (mu_transaction_to unit = None).

Definition composed_body (first second object : string) : string :=
  "The user prefers " +:+ first +:+ " and " +:+ second +:+ " " +:+ object +:+ ".".

(** One group: at least two descriptors of an object make one belief. *)
Definition compose_group (existing_bodies : list string)
    (acc : Compilation * list StoredMemoryUnit * list AdmissionAction.t)
    (group : string * list Observation)
    : Compilation * list StoredMemoryUnit * list AdmissionAction.t :=
  let '(st, new_units, actions) := acc in
  let '(object, observations) := group in
  match distinct_observations observations with
  | first :: second :: _ =>
      let body := composed_body first.1 second.1 object in
      if bool_decide (normalize_component body ∈
            existing_bodies ++ map (λ u, normalize_component (mu_body u)) new_units)
      then acc
      else
        let '(composed_id, st) := mint st in
        let unit := composed_unit composed_id object body first.2 in
        let st := push_edge MemoryEdgeKind.DerivedFrom composed_id (mu_id first.2) st in
        let st := push_edge MemoryEdgeKind.DerivedFrom composed_id (mu_id second.2) st in
        (st, new_units ++ [unit], actions ++ [AdmissionAction.Append])
  | _ => acc
  end.

Definition compose_inferred_beliefs (st : Compilation) : Compilation * list AdmissionAction.t :=
  let units := co_working st in
  let existing_composed_bodies :=
    map (λ u, normalize_component (mu_body u)) (retain standing_composition units) in
  let grouped := foldl add_observation ∅ units in
  let '(st, new_units, actions) :=
    foldl (compose_group existing_composed_bodies) (st, [], []) (in_key_order grouped) in
  (foldl (λ st unit, push_unit unit st) st new_units, actions).

(** ** Citations of the compiled units *)

Definition quote_hash (quote : list N) : string :=
  "sha256:" +:+ sha256_hex (string_of_bytes quote).

Definition compiled_citation (id : Uuid) (unit : StoredMemoryUnit) (start end_ : N)
    (quote : list N) : StoredCitation := {|
  ci_id := id;
  ci_tenant_id := mu_tenant_id unit;
  ci_data_subject_id := mu_data_subject_id unit;
  ci_scope_id := mu_scope_id unit;
  ci_agent_node_id := mu_agent_node_id unit;
  ci_subject_generation := mu_subject_generation unit;
  ci_memory_unit_id := mu_id unit;
  ci_episode_id := mu_source_episode_id unit;
  ci_resource_id := mu_source_resource_id unit;
  ci_span := Some (mkCitationSpan start end_);
  ci_quote_hash := Some (quote_hash quote);
|}.

Definition parse_chunk_span (span : string) : option (N * N) :=
  '(start, end_) ← split_once [45] (bytes_of span);
  start ← parse_unsigned u64_max start;
  end_ ← parse_unsigned u64_max end_;
  Some (start, end_).

Definition show (n : N) : string := string_of_bytes (show_N n).

Fixpoint take_common (l k : list (list N)) : list (list N) :=
  match l, k with
  | c :: l, d :: k => if bool_decide (c = d) then c :: take_common l k else []
  | _, _ => []
  end.
(** The number of characters two texts share at their start. *)
Definition common_chars (left right : list N) : nat :=
  length (take_common (chars left) (chars right)).

Definition span_out_of_bounds (unit : StoredMemoryUnit) (chunk : ContextualChunk) (start end_ : N)
    (source_body : string) : string :=
  "contextual chunk span is out of bounds: unit " +:+ uuid_string (mu_id unit) +:+ " chunk " +:+
  ch_id chunk +:+ " span " +:+ show start +:+ "-" +:+ show end_ +:+ " but source_body is " +:+
  show (str_len source_body) +:+ " bytes".

Definition span_mismatch (unit : StoredMemoryUnit) (chunk : ContextualChunk) (start end_ : N)
    (source_body : string) (quote : list N) : string :=
  "contextual chunk span does not match its source body: unit " +:+ uuid_string (mu_id unit) +:+
  " chunk " +:+ ch_id chunk +:+ " span " +:+ show start +:+ "-" +:+ show end_ +:+
  "; source_body " +:+ show (str_len source_body) +:+ " bytes, chunk.body " +:+
  show (str_len (ch_body chunk)) +:+ " bytes, diverge at char " +:+
  show (N.of_nat (common_chars quote (bytes_of (ch_body chunk)))) +:+ "; source_slice=" +:+
  debug_str (string_of_bytes quote) +:+ " chunk_body=" +:+ debug_str (ch_body chunk).

Definition cite_chunk (source_body : string) (unit : StoredMemoryUnit)
    (citations : list StoredCitation) (chunk_span : ContextualChunk * string)
    : result StoreError.t (list StoredCitation) :=
  let '(chunk, span) := chunk_span in
  bounds <-? ok_or (parse_chunk_span span)
               (StoreError.Conflict "contextual chunk span is invalid");
  let '(start, end_) := bounds in
  quote <-? ok_or (get_slice (bytes_of source_body) (N.to_nat start) (N.to_nat end_))
              (StoreError.Conflict (span_out_of_bounds unit chunk start end_ source_body));
  if negb (bool_decide (quote = bytes_of (ch_body chunk)))
  then Err (StoreError.Conflict (span_mismatch unit chunk start end_ source_body quote))
  else Ok (citations ++
           [compiled_citation (new_citation_id (length citations)) unit start end_ quote]).

(** The chunks of a unit with their spans. *)
Definition spanned_chunks (unit : StoredMemoryUnit) : list (ContextualChunk * string) :=
  omap (λ chunk, (λ span, (chunk, span)) <$> ch_source_span chunk) (mu_contextual_chunks unit).

Definition cite_unit (source_body : string) (citations : list StoredCitation)
    (unit : StoredMemoryUnit) : result StoreError.t (list StoredCitation) :=
  if negb (bool_decide (mu_source_episode_id unit = rx_episode_id input)) ||
     negb (bool_decide (mu_source_resource_id unit = rx_resource_id input))
  then Ok citations
  else
    let spans := spanned_chunks unit in
    if is_empty spans || negb (length spans =? length (mu_contextual_chunks unit))%nat
    then Ok (citations ++
             [compiled_citation (new_citation_id (length citations)) unit 0
                (N.of_nat (String.length source_body)) (bytes_of source_body)])
    else try_fold (cite_chunk source_body unit) citations spans.

Definition mint_compiled_citations (units : list StoredMemoryUnit)
    : result StoreError.t (list StoredCitation) :=
  match rx_source_body input with
  | None => Ok []
  | Some source_body => try_fold (cite_unit source_body) [] units
  end.

(** ** The difference to the snapshot *)

Definition unit_update (originals : gmap UnitId (UnitState.t * option string * N))
    (unit : StoredMemoryUnit) : option UnitUpdate :=
  '(original_state, original_transaction_to, original_reinforcement_count) ← originals !! mu_id unit;
  let reinforced := original_reinforcement_count <? mu_reinforcement_count unit in
  if negb (bool_decide (mu_state unit = original_state)) ||
     negb (bool_decide (mu_transaction_to unit = original_transaction_to)) || reinforced
  then Some (mkUnitUpdate (mu_id unit) (mu_state unit) (mu_transaction_to unit)
               (if reinforced then Some now else None))
  else None.

(** A later duplicate of an id would overwrite the earlier one. *)
Definition originals_of (working : list StoredMemoryUnit)
    : gmap UnitId (UnitState.t * option string * N) :=
  foldl (λ m u, <[mu_id u := (mu_state u, mu_transaction_to u, mu_reinforcement_count u)]> m)
    ∅ working.

Definition new_units_of (st : Compilation) : list StoredMemoryUnit :=
  retain (λ u, bool_decide (mu_id u ∈ co_new_ids st)) (co_working st).

Definition unit_updates_of (originals : gmap UnitId (UnitState.t * option string * N))
    (st : Compilation) : list UnitUpdate :=
  omap (unit_update originals)
    (retain (λ u, negb (bool_decide (mu_id u ∈ co_new_ids st))) (co_working st)).

Definition REFLECT_STAGES : list string :=
  ["extract"; "detect"; "corroborate"; "promote"; "decay"; "trust"].

Definition reflect_trace (actions : list AdmissionAction.t) : ReflectTrace := {|
  rt_tenant_id := rx_tenant_id input;
  rt_scope_id := rx_scope_id input;
  rt_job_id := rx_job_id input;
  rt_episode_id := rx_episode_id input;
  rt_resource_id := rx_resource_id input;
  rt_compiler_version := rx_compiler_version input;
  rt_actions := actions;
  rt_stages := map (λ stage, mkReflectStageFact stage "completed") REFLECT_STAGES;
  (* [as u32] *)
  rt_cost_units := N.land (N.max (N.of_nat (length actions)) 1) u32_max;
|}.

(** The profile row of the provider; its id is the first half of a digest. *)
Definition hex_value (b : N) : N := if is_digit b then b - 48 else b - 87.
Definition embedding_profile_for `{EmbeddingProvider} : EmbeddingProfileRow :=
  let digest := sha256_hex ("memphant-embedding-profile:" +:+ embedder_id +:+ ":" +:+
                            show dimensions) in {|
  pr_id := foldl (λ v b, 16 * v + hex_value b) 0 (take 32 (bytes_of digest));
  pr_provider := embedder_id;
  pr_model := embedder_id;
  pr_dimensions := dimensions;
  pr_distance := "cosine";
  pr_version := "1";
  pr_index_strategy := "exact";
|}.

Definition embedding_rows (profile : EmbeddingProfileRow) (new_units : list StoredMemoryUnit)
    (vectors : list (list f32)) : list EmbeddingRow :=
  map (λ '(unit, vec), mkEmbeddingRow (mu_id unit) (pr_id profile) vec)
    (retain (λ '(_, vec), negb (is_empty vec)) (zip new_units vectors)).

Definition embed_new_units `{EmbeddingProvider} (new_units : list StoredMemoryUnit)
    : result CoreError.t (option EmbeddingProfileRow * list EmbeddingRow) :=
  if (0 <? dimensions) && negb (is_empty new_units) then
    match embed (map recall_embedding_text new_units) with
    | Err error => Err (CoreError.Store (StoreError.Backend ("embedding failed: " +:+ error)))
    | Ok vectors =>
        match embedding_rows embedding_profile_for new_units vectors with
        | [] => Ok (None, [])
        | rows => Ok (Some embedding_profile_for, rows)
        end
    end
  else Ok (None, []).

(** The candidates, then the composition. *)
Definition compile_candidates (working : list StoredMemoryUnit)
    : result CoreError.t (Compilation * list AdmissionAction.t) :=
  admitted <-? try_fold admit_step (mkCompilation working ∅ [] 0, []) (rx_candidates input);
  let '(st, composed) := compose_inferred_beliefs (fst admitted) in
  Ok (st, snd admitted ++ composed).
End job.

(** ** The prepared write *)

Definition input_matches_context (input : ReflectInput) (context : ResolvedMemoryContext) : bool :=
  (cx_tenant_id context =? rx_tenant_id input) &&
  (cx_data_subject_id context =? rx_data_subject_id input) &&
  (cx_actor_id context =? rx_actor_id input) && (cx_scope_id context =? rx_scope_id input) &&
  (cx_agent_node_id context =? rx_agent_node_id input).

Definition check_input (input : ReflectInput) (context : ResolvedMemoryContext)
    : result CoreError.t () :=
  if negb (input_matches_context input context)
  then Err (CoreError.Store (StoreError.Conflict "reflect input does not match memory context"))
  else if negb (cx_subject_generation context =? rx_subject_generation input)
  then Err (CoreError.Store (StoreError.Conflict "subject generation is stale"))
  else Ok ().

Definition store_result {A} (r : result StoreError.t A) : result CoreError.t A :=
  match r with Ok a => Ok a | Err e => Err (CoreError.Store e) end.

Definition prepare_compiled_write_from_snapshot `{EmbeddingProvider} (input : ReflectInput)
    (now : string) (context : ResolvedMemoryContext) (working : list StoredMemoryUnit)
    : result CoreError.t (list UnitId * CompiledWrite) :=
  _ <-? check_input input context;
  compiled <-? compile_candidates input now working;
  let '(st, actions) := compiled in
  let new_units := new_units_of st in
  citations <-? store_result (mint_compiled_citations input new_units);
  embedded <-? embed_new_units new_units;
  Ok (map mu_id new_units, {|
    wr_job_id := rx_job_id input;
    wr_compiler_version := rx_compiler_version input;
    wr_new_units := new_units;
    wr_new_edges := co_new_edges st;
    wr_citations := citations;
    wr_unit_updates := unit_updates_of now (originals_of working) st;
    wr_trace := reflect_trace input actions;
    wr_embedding_profile := fst embedded;
    wr_embeddings := snd embedded;
  |}).

Section reflect.
Context `{HashOrder} `{EmbeddingProvider}.

Definition prepare_compiled_write (store : InMemoryState) (input : ReflectInput) (now : string)
    (context : ResolvedMemoryContext) : result CoreError.t PreparedCompiledWrite.t :=
  _ <-? check_input input context;
  existing <-? store_result
    (fetch_reflect_trace store context (rx_job_id input) (rx_compiler_version input));
  match existing with
  | Some trace => Ok (PreparedCompiledWrite.Existing trace)
  | None =>
      working <-? store_result (fetch_scope_open_units store context);
      prepared <-? prepare_compiled_write_from_snapshot input now context working;
      Ok (PreparedCompiledWrite.Write (fst prepared) (snd prepared))
  end.

Definition persist_compiled_units (store : InMemoryState) (clock : Z)
    (context : ResolvedMemoryContext) (claim : option ReflectJobRow) (write : CompiledWrite)
    : result StoreError.t (ClaimMutationOutcome.t * InMemoryState) :=
  let '(tx, staged) := stage_compiled_units store claim write (begin_at context clock) in
  outcome <-? staged;
  match outcome with
  | ClaimMutationOutcome.Stale => Ok (outcome, store)
  | ClaimMutationOutcome.Applied => store <-? commit store tx; Ok (outcome, store)
  end.

(** The trace of the compilation, the units it created and the store after. *)
Definition reflect_recorded (store : InMemoryState) (input : ReflectInput) (clock : Z)
    (now : string) (resolved_context : option ResolvedMemoryContext)
    (claim : option ReflectJobRow)
    : result CoreError.t (ReflectTrace * list UnitId * InMemoryState) :=
  context <-? match resolved_context with
              | Some context => Ok context
              | None => store_result
                  (resolve_memory_context store (rx_tenant_id input) (rx_data_subject_id input)
                     (rx_actor_id input) (rx_scope_id input) (rx_agent_node_id input))
              end;
  prepared <-? prepare_compiled_write store input now context;
  match prepared with
  | PreparedCompiledWrite.Existing trace => Ok (trace, [], store)
  | PreparedCompiledWrite.Write created write =>
      persisted <-? store_result (persist_compiled_units store clock context claim write);
      Ok (wr_trace write, created, snd persisted)
  end.
End reflect.
End compile.
