(* ===== verification/CompileFacts.v ===== *)
(** * CompileFacts: what the write compiler may do

    Every arm of an admission has an [effect] on the working state: it touches
    units in place - closes them now, or counts a reinforcement - and adds
    units born now with fresh ids, linked by edges between known units.  The
    theorems read off a whole job: history is preserved, a unit is closed only
    on authority, the prepared write is accepted by the store, and citations
    quote the source. *)

From S2P Require Import Prelude Text Types Float Clock Bitemporal Lineage Store Txn Stage Binding Reads.
From S2P Require Import Capture Gate Compile.

(** ** Lists *)

Lemma position_Some {X} (p : X → bool) l i :
  position p l = Some i → ∃ x, l !! i = Some x ∧ p x = true.
Proof.
  revert i. induction l as [|x l IH]; intros i; cbn; [done|]. destruct (p x) eqn:Ex.
  - intros [= <-]. by exists x.
  - intros (j & Hj & ->)%fmap_Some. by apply IH.
Qed.

Lemma dedup_distinct {X K} `{EqDecision K} (f : X → K) l x y r :
  dedup_by (λ a b, bool_decide (f a = f b)) l = x :: y :: r → f x ≠ f y.
Proof.
  revert x y r. induction l as [|z l IH]; intros x y r; cbn [dedup_by]; [done|].
  destruct (dedup_by _ l) as [|w r'] eqn:Ed; [done|]. case_bool_decide as Ezw.
  - intros [= <- ->]. rewrite Ezw. by eapply IH.
  - by intros [= <- <- <-].
Qed.

(** ** Touched units *)

Definition same_unit (u u' : StoredMemoryUnit) : Prop :=
  u' = u <| mu_state := mu_state u' |> <| mu_transaction_to := mu_transaction_to u' |>
         <| mu_last_reinforced_at := mu_last_reinforced_at u' |>
         <| mu_reinforcement_count := mu_reinforcement_count u' |>.

Lemma same_unit_fields u u' : same_unit u u' →
  mu_id u' = mu_id u ∧ mu_tenant_id u' = mu_tenant_id u ∧
  mu_data_subject_id u' = mu_data_subject_id u ∧ mu_scope_id u' = mu_scope_id u ∧
  mu_agent_node_id u' = mu_agent_node_id u ∧
  mu_subject_generation u' = mu_subject_generation u ∧ mu_kind u' = mu_kind u ∧
  mu_fact_key u' = mu_fact_key u ∧ mu_body u' = mu_body u ∧ mu_capture u' = mu_capture u ∧
  mu_valid_from u' = mu_valid_from u ∧ mu_valid_to u' = mu_valid_to u ∧
  mu_transaction_from u' = mu_transaction_from u ∧
  mu_source_episode_id u' = mu_source_episode_id u ∧
  mu_source_resource_id u' = mu_source_resource_id u ∧ mu_actor_id u' = mu_actor_id u ∧
  mu_deletion_generation u' = mu_deletion_generation u.
Proof. unfold same_unit. intros ->. by cbn. Qed.

Lemma same_unit_refl u : same_unit u u.
Proof. unfold same_unit. by destruct u. Qed.

Lemma same_unit_sym u v : same_unit u v → same_unit v u.
Proof. unfold same_unit. intros ->. by destruct u. Qed.

Lemma same_unit_trans u v w : same_unit u v → same_unit v w → same_unit u w.
Proof.
  unfold same_unit. destruct u, v, w; cbn. intros E1 E2. injection E1 as ->; subst.
  injection E2 as ->; subst. done.
Qed.

(** [A] says which units may be closed. *)
Section touch.
Context (now : string) (A : StoredMemoryUnit → Prop).

Inductive standing (u u' : StoredMemoryUnit) : Prop :=
| stays : mu_state u' = mu_state u → mu_transaction_to u' = mu_transaction_to u → standing u u'
| is_closed : A u → mu_transaction_to u = None → mu_transaction_to u' = Some now →
    mu_state u' ∈ [UnitState.Superseded; UnitState.Invalidated] → standing u u'.

Definition touched (u u' : StoredMemoryUnit) : Prop :=
  same_unit u u' ∧ standing u u'.

Lemma touched_refl u : touched u u.
Proof. split; [apply same_unit_refl|by apply stays]. Qed.

(** Authority is about content. *)
Hypothesis A_content : ∀ u v, same_unit u v → A v → A u.

Lemma touched_trans u v w : touched u v → touched v w → touched u w.
Proof.
  intros [C1 S1] [C2 S2]. split; [by eapply same_unit_trans|].
  destruct S1 as [E1 E2|A1 N1 T1 G1], S2 as [E3 E4|A2 N2 T2 G2].
  - apply stays; congruence.
  - apply is_closed; [by eapply A_content|congruence..|done].
  - apply is_closed; [done..|congruence|congruence].
  - congruence.
Qed.
End touch.

(** ** Effects *)

Definition ids_of (units : list StoredMemoryUnit) : list UnitId := map mu_id units.

Lemma originals_lookup working u : NoDup (ids_of working) → u ∈ working →
  originals_of working !! mu_id u =
    Some (mu_state u, mu_transaction_to u, mu_reinforcement_count u).
Proof.
  unfold originals_of.
  assert (∀ l (m : gmap UnitId (UnitState.t * option string * N)),
    NoDup (ids_of l) → u ∈ l →
    foldl (λ m u, <[mu_id u := (mu_state u, mu_transaction_to u, mu_reinforcement_count u)]> m) m l
      !! mu_id u = Some (mu_state u, mu_transaction_to u, mu_reinforcement_count u)) as Hfold;
    [|intros Hnd Hu; by apply Hfold].
  induction l as [|v l IH] using rev_ind; intros m Hnd Hu; [set_solver|].
  rewrite foldl_app. cbn [foldl]. unfold ids_of in Hnd. rewrite map_app in Hnd.
  apply NoDup_app in Hnd as (Hnd & Hnin & _). apply elem_of_app in Hu as [Hu|Hu].
  - rewrite lookup_insert_ne; [by apply IH|]. intros E. apply (Hnin (mu_id u)).
    + by apply list_elem_of_fmap_2.
    + rewrite <-E. apply list_elem_of_here.
  - apply list_elem_of_singleton in Hu as ->. by rewrite lookup_insert_eq.
Qed.

Lemma push_all_units st new :
  foldl (λ st unit, push_unit unit st) st new =
    mkCompilation (co_working st ++ new) (co_new_ids st ∪ list_to_set (ids_of new))
      (co_new_edges st) (co_minted st).
Proof.
  revert st. induction new as [|u new IH]; intros st; cbn [foldl].
  - rewrite app_nil_r. destruct st. cbn. f_equal. set_solver.
  - rewrite IH. unfold push_unit. cbn. rewrite <-app_assoc. f_equal. set_solver.
Qed.

Section effect.
Context `{Jiff} `{Sha256} `{StrDebug}.
Context (new_unit_id : nat → UnitId) (new_edge_id : nat → EdgeId).
Context (new_unit_id_inj : Inj (=) (=) new_unit_id).
Context (input : ReflectInput) (now : string).
(** Whether the units are known to be by the actor of the job. *)
Context (mine : Prop).
Context (A : StoredMemoryUnit → Prop).
Context (A_content : ∀ u v, same_unit u v → A v → A u).

Definition same_owner (u : StoredMemoryUnit) : Prop :=
  mu_tenant_id u = rx_tenant_id input ∧ mu_data_subject_id u = rx_data_subject_id input ∧
  mu_scope_id u = rx_scope_id input ∧ mu_agent_node_id u = rx_agent_node_id input ∧
  mu_subject_generation u = rx_subject_generation input ∧
  (mine → mu_actor_id u = Some (rx_actor_id input)).

(** What every unit of the working state is. *)
Definition sound (u : StoredMemoryUnit) : Prop :=
  same_owner u ∧ (mu_state u = UnitState.Active → mu_transaction_to u = None).

Definition born (u : StoredMemoryUnit) : Prop :=
  sound u ∧ mu_transaction_from u = Some now ∧ is_deleted u = false.

Lemma touched_sound u u' : touched now A u u' → sound u → sound u'.
Proof.
  intros [C S] [(? & ? & ? & ? & ? & Hm) Ho]. destruct (same_unit_fields _ _ C) as
    (_ & ? & ? & ? & ? & ? & _ & _ & _ & _ & _ & _ & _ & _ & _ & Eact & _).
  split; [unfold same_owner; rewrite Eact; split_and!; (done || congruence)|].
  destruct S as [Es Et|_ _ Et Es]; [by rewrite Es, Et|].
  intros Ea. rewrite Ea in Es. set_solver.
Qed.

Lemma touched_born u u' : touched now A u u' → born u → born u'.
Proof.
  intros T (Hs & Hf & Hd). split; [by eapply touched_sound|]. destruct T as [C S].
  apply same_unit_fields in C. destruct C as (_&_&_&_&_&_&_&_&_&_&_&_&?&_).
  split; [congruence|]. unfold is_deleted in *. destruct S as [->|_ _ _ Es]; [done|].
  apply bool_decide_eq_false. intros Ed. rewrite Ed in Es. set_solver.
Qed.

Definition good_edge (ids : list UnitId) (e : StoredMemoryEdge) : Prop :=
  ed_tenant_id e = rx_tenant_id input ∧ ed_scope_id e = rx_scope_id input ∧
  ed_src_id e ∈ ids ∧ ed_dst_id e ∈ ids.

Lemma good_edge_mono ids ids' e : ids ⊆ ids' → good_edge ids e → good_edge ids' e.
Proof. intros Hi (? & ? & ? & ?). split_and!; auto. Qed.

(** From [st] to [st'] with the units [us] added and their ids drawn from the
    enumeration; edges may name the ids [P], which are added later. *)
Record effect (P : list UnitId) (st st' : Compilation) (us : list StoredMemoryUnit) : Prop := {
  ef_working : ∃ ts, co_working st' = ts ++ us ∧ Forall2 (touched now A) (co_working st) ts;
  ef_born : Forall born us;
  ef_ids : ∀ u, u ∈ us → ∃ j, mu_id u = new_unit_id j ∧ (co_minted st <= j < co_minted st')%nat;
  ef_distinct : NoDup (ids_of us);
  ef_minted : (co_minted st <= co_minted st')%nat;
  ef_new_ids : co_new_ids st' = co_new_ids st ∪ list_to_set (ids_of us);
  ef_edges : ∃ es, co_new_edges st' = co_new_edges st ++ es ∧
    Forall (good_edge (ids_of (co_working st') ++ P)) es;
}.

Lemma touched_all_refl l : Forall2 (touched now A) l l.
Proof. apply Forall_Forall2_diag, Forall_forall. intros. apply touched_refl. Qed.

Lemma touched_ids l k : Forall2 (touched now A) l k → ids_of k = ids_of l.
Proof.
  induction 1 as [|u u' l k [C _] _ IH]; [done|]. cbn. f_equal; [|done].
  by apply same_unit_fields in C as [? _].
Qed.

Lemma touched_all_trans l k m :
  Forall2 (touched now A) l k → Forall2 (touched now A) k m → Forall2 (touched now A) l m.
Proof.
  intros T. revert m. induction T as [|u v l k T _ IH]; intros m T'; [by inversion T'|].
  inversion T' as [|? w ? ? Tw]; subst. constructor; [by eapply touched_trans|auto].
Qed.

Lemma effect_refl P st : effect P st st [].
Proof.
  split.
  - exists (co_working st). rewrite app_nil_r. split; [done|]. apply touched_all_refl.
  - constructor.
  - set_solver.
  - constructor.
  - done.
  - cbn. set_solver.
  - exists []. by rewrite app_nil_r.
Qed.

Lemma effect_known P st st' us : effect P st st' us →
  ids_of (co_working st') = ids_of (co_working st) ++ ids_of us.
Proof.
  intros [(ts & -> & Ht) _ _ _ _ _ _]. unfold ids_of. rewrite map_app. f_equal.
  by apply touched_ids.
Qed.

Lemma effect_trans P st st1 st2 us1 us2 :
  effect P st st1 us1 → effect P st1 st2 us2 → ∃ us, effect P st st2 us ∧
    ∃ vs, us = vs ++ us2 ∧ Forall2 (touched now A) us1 vs.
Proof.
  intros E1 E2. pose proof (effect_known _ _ _ _ E2) as K2.
  destruct E1 as [(ts1 & W1 & T1) B1 I1 D1 M1 N1 (es1 & Ed1 & G1)].
  destruct E2 as [(ts2 & W2 & T2) B2 I2 D2 M2 N2 (es2 & Ed2 & G2)].
  rewrite W1 in T2. apply Forall2_app_inv_l in T2 as (ts & vs & Tts & Tvs & ->).
  exists (vs ++ us2). split; [|by exists vs]. pose proof (touched_ids _ _ Tvs) as Ivs.
  assert (∀ v, v ∈ vs → ∃ u, u ∈ us1 ∧ mu_id v = mu_id u) as Hback.
  { intros v Hv. apply list_elem_of_lookup in Hv as [i Hi].
    destruct (Forall2_lookup_r _ _ _ _ _ Tvs Hi) as (u & Hu & [C _]).
    exists u. split; [by eapply list_elem_of_lookup_2|]. by apply same_unit_fields in C as [? _]. }
  split.
  - exists ts. rewrite W2, app_assoc. split; [done|].
    by eapply touched_all_trans.
  - apply Forall_app_2; [|done]. rewrite Forall_forall. intros v Hv.
    apply list_elem_of_lookup in Hv as [i Hi].
    destruct (Forall2_lookup_r _ _ _ _ _ Tvs Hi) as (u & Hu & Ht). eapply touched_born; [done|].
    rewrite Forall_forall in B1. apply B1. by eapply list_elem_of_lookup_2.
  - intros u [Hu|Hu]%elem_of_app.
    + destruct (Hback u Hu) as (w & Hw & ->). destruct (I1 w Hw) as (j & ? & ?). exists j. lia.
    + destruct (I2 u Hu) as (j & ? & ?). exists j. lia.
  - unfold ids_of. rewrite map_app. apply NoDup_app. fold (ids_of vs). rewrite Ivs.
    split_and!; [done| |done]. intros x (u & -> & Hu)%list_elem_of_fmap (v & Ev & Hv)%list_elem_of_fmap.
    destruct (I1 u Hu) as (j & Hj & ?), (I2 v Hv) as (k & Hk & ?).
    rewrite Hj, Hk in Ev. apply new_unit_id_inj in Ev. lia.
  - lia.
  - rewrite N2, N1. unfold ids_of in *. rewrite map_app, list_to_set_app_L, Ivs. set_solver.
  - exists (es1 ++ es2). rewrite Ed2, Ed1, app_assoc. split; [done|].
    apply Forall_app_2; [|done]. eapply Forall_impl; [exact G1|]. intros e.
    apply good_edge_mono. rewrite K2. set_solver.
Qed.

Definition effects P st st' : Prop := ∃ us, effect P st st' us.

Lemma effects_refl P st : effects P st st.
Proof. eexists. apply effect_refl. Qed.

Lemma effects_trans P st st1 st2 : effects P st st1 → effects P st1 st2 → effects P st st2.
Proof.
  intros [us1 E1] [us2 E2]. destruct (effect_trans _ _ _ _ _ _ E1 E2) as (us & E & _). by exists us.
Qed.

Definition all_sound st : Prop := Forall sound (co_working st).

Lemma all_sound_lookup st i u : all_sound st → co_working st !! i = Some u → sound u.
Proof. intros Hs Hi. by eapply Forall_lookup_1 in Hs. Qed.

Lemma effects_sound P st st' : effects P st st' → all_sound st → all_sound st'.
Proof.
  intros (us & [(ts & W & T) B _ _ _ _ _]) Hs. unfold all_sound in *. rewrite W.
  apply Forall_app_2.
  - rewrite Forall_forall in *. intros v Hv. apply list_elem_of_lookup in Hv as [i Hi].
    destruct (Forall2_lookup_r _ _ _ _ _ T Hi) as (u & Hu & Ht).
    eapply touched_sound; [done|]. apply Hs. by eapply list_elem_of_lookup_2.
  - eapply Forall_impl; [exact B|]. by intros u [? _].
Qed.

Lemma effects_ids P st st' : effects P st st' → ids_of (co_working st) ⊆ ids_of (co_working st').
Proof. intros [us E]. rewrite (effect_known _ _ _ _ E). set_solver. Qed.

(** *** Of the edits *)

Notation mint := (mint new_unit_id).
Notation push_edge := (push_edge new_edge_id input now).

Lemma effect_mint P st : effect P st (snd (mint st)) [].
Proof.
  split; [|constructor|set_solver|constructor|cbn; lia|cbn; set_solver|].
  - exists (co_working st). rewrite app_nil_r. split; [done|]. apply touched_all_refl.
  - exists []. by rewrite app_nil_r.
Qed.

Lemma effects_edge P st kind src dst :
  src ∈ ids_of (co_working st) ++ P → dst ∈ ids_of (co_working st) ++ P →
  effects P st (push_edge kind src dst st).
Proof.
  intros Hs Hd. exists []. split; [|constructor|set_solver|constructor|cbn; lia|cbn; set_solver|].
  - exists (co_working st). rewrite app_nil_r. split; [done|]. apply touched_all_refl.
  - eexists. cbn. split; [done|]. by repeat constructor.
Qed.

Lemma effects_edit P st i f u : co_working st !! i = Some u → touched now A u (f u) →
  effects P st (edit_unit i f st).
Proof.
  intros Hi Ht. exists []. split; [|constructor|set_solver|constructor|cbn; lia|cbn; set_solver|].
  - exists (alter f i (co_working st)). rewrite app_nil_r. split; [done|].
    apply Forall2_alter_r; [apply touched_all_refl|]. intros v w Hv Hw _.
    rewrite Hi in Hv, Hw. by simplify_eq.
  - exists []. by rewrite app_nil_r.
Qed.

(** A minted unit is pushed after the edits that close what it replaces. *)
Lemma effects_finish P st st' u :
  effects (fst (mint st) :: P) (snd (mint st)) st' → born u → mu_id u = fst (mint st) →
  effects P st (push_unit u st').
Proof.
  intros (us & E) Hb Hid. pose proof (effect_known _ _ _ _ E) as K.
  destruct E as [(ts & W & T) B I D M N (es & Ed & G)]. exists (us ++ [u]). cbn [mint fst snd] in *.
  cbn [co_minted co_working co_new_ids co_new_edges snd] in *.
  split; cbn [push_unit co_working co_minted co_new_ids co_new_edges]; cbn.
  - exists ts. rewrite W, app_assoc. done.
  - apply Forall_app_2; [done|]. by constructor.
  - intros v [Hv|Hv]%elem_of_app.
    + destruct (I v Hv) as (j & ? & ?). exists j. cbn in *. split; [done|]. lia.
    + apply list_elem_of_singleton in Hv as ->. exists (co_minted st). split; [done|]. cbn in M. lia.
  - unfold ids_of. rewrite map_app. apply NoDup_app. split_and!; [done| |apply NoDup_singleton].
    intros x (v & -> & Hv)%list_elem_of_fmap Hx. cbn in Hx. apply list_elem_of_singleton in Hx.
    destruct (I v Hv) as (j & Hj & Hr). rewrite Hid, Hj in Hx. apply new_unit_id_inj in Hx.
    cbn in Hr. lia.
  - cbn in M. lia.
  - rewrite N. unfold ids_of. rewrite map_app, list_to_set_app_L. cbn. set_solver.
  - exists es. split; [done|]. eapply Forall_impl; [exact G|]. intros e. apply good_edge_mono.
    unfold ids_of. rewrite map_app. cbn. rewrite Hid. set_solver.
Qed.

(** *** Of a split *)

Lemma remainders_ids `{Jiff} old payload ref observed actor ids repl rems :
  fst (ids_remainders ids) ≠ snd (ids_remainders ids) →
  correction_rectangles_with_ids old payload ref observed actor now ids = Ok (repl, rems) →
  NoDup (ids_of rems) ∧ ∀ r, r ∈ rems →
    ∃ id from to, r = generation actor now old id (mu_body old) from to ∧
      id ∈ [fst (ids_remainders ids); snd (ids_remainders ids)].
Proof.
  intros Hne. unfold correction_rectangles_with_ids.
  destruct (negb _); [done|]. destruct (_ || _)%bool; [done|]. intros [= <- <-].
  destruct (start_lt _ _), (end_lt _ _); cbn; (split;
    [repeat constructor; set_solver|]); intros r Hr;
    repeat (apply elem_of_cons in Hr as [->|Hr]); try set_solver;
    (do 3 eexists; split; [reflexivity|set_solver]).
Qed.

Lemma generation_born old id body from to : sound old →
  born (generation (rx_actor_id input) now old id body from to).
Proof. by intros [(? & ? & ? & ? & ? & _) Ho]. Qed.

Lemma admitted_undeleted (high_trust : bool) kind :
  (if high_trust then UnitState.Active else low_trust_projection_state kind) ≠ UnitState.Deleted.
Proof. by destruct high_trust, kind. Qed.

(** A minted unit is by the candidate's actor. *)
Definition by_job_actor (candidate : ReflectCandidate) : Prop :=
  mine → cd_actor_id candidate = rx_actor_id input.

Lemma minted_born id kind state fact_key candidate :
  by_job_actor candidate → state ≠ UnitState.Deleted →
  born (minted_unit input now id kind state fact_key candidate).
Proof.
  intros Hm Hd. split; [|by split; [|apply bool_decide_eq_false]]. split; [|done]. unfold same_owner. split_and!; try done.
  intros Hmine. cbn. by rewrite Hm.
Qed.

Lemma effects_remainders P st st1 old payload repl rems :
  sound old → mu_id old ∈ ids_of (co_working st) ++ P →
  correction_rectangles new_unit_id input now old payload st = Ok (repl, rems, st1) →
  effects P st (foldl (keep_remainder new_edge_id input now (mu_id old)) st1 rems).
Proof.
  intros Hold Hid. unfold correction_rectangles.
  destruct (correction_rectangles_with_ids _ _ _ _ _ _ _) as [[rp rs]|] eqn:Ec; [|done].
  intros [= <- <- <-]. apply remainders_ids in Ec as [Hnd Hrems];
    [|cbn; intros Heq; apply new_unit_id_inj in Heq; lia].
  cbn [ids_remainders fst snd] in Hrems. exists rs.
  assert (∀ l s, (∀ r, r ∈ l → r ∈ rs) → ∃ es,
    foldl (keep_remainder new_edge_id input now (mu_id old)) s l =
      mkCompilation (co_working s ++ l) (co_new_ids s ∪ list_to_set (ids_of l))
        (co_new_edges s ++ es) (co_minted s) ∧
    Forall (good_edge (ids_of l ++ [mu_id old])) es) as Hfold.
  { induction l as [|r l IH]; intros s Hl; cbn [foldl].
    - exists []. rewrite !app_nil_r. split; [|constructor]. destruct s; cbn. f_equal. set_solver.
    - destruct (IH (keep_remainder new_edge_id input now (mu_id old) s r)) as (es & -> & Hg);
        [set_solver|]. unfold keep_remainder, Compile.push_edge, push_unit. cbn.
      eexists (_ :: es). rewrite <-!app_assoc. cbn. split; [f_equal; set_solver|].
      constructor; [repeat split; set_solver|]. eapply Forall_impl; [exact Hg|].
      intros e. apply good_edge_mono. set_solver. }
  match goal with |- context [foldl _ ?s _] =>
    destruct (Hfold rs s (λ r Hr, Hr)) as (es & E & Hg) end.
  rewrite E. cbn. split; cbn.
  - exists (co_working st). split; [done|]. apply touched_all_refl.
  - apply Forall_forall. intros r Hr. destruct (Hrems r Hr) as (? & ? & ? & -> & _).
    by apply generation_born.
  - intros r Hr. destruct (Hrems r Hr) as (id & ? & ? & -> & Hi). cbn.
    apply elem_of_cons in Hi as [->|Hi]; [|apply list_elem_of_singleton in Hi as ->];
      (eexists; split; [done|]; lia).
  - done.
  - lia.
  - done.
  - exists es. split; [done|]. eapply Forall_impl; [exact Hg|]. intros e. apply good_edge_mono.
    unfold ids_of in *. rewrite map_app. set_solver.
Qed.

(** *** Of closing a generation *)

Definition closable (u : StoredMemoryUnit) : Prop := A u ∧ mu_transaction_to u = None.

Definition all_closable st (indices : list nat) : Prop :=
  NoDup indices ∧ ∀ i, i ∈ indices → ∃ u, co_working st !! i = Some u ∧ closable u.

Lemma touched_close u state : closable u → state ∈ [UnitState.Superseded; UnitState.Invalidated] →
  touched now A u (close_unit state now u).
Proof. intros [Ha Ho] Hs. split; [by destruct u|]. by apply is_closed. Qed.

Lemma keep_remainders_working old_id s rems :
  co_working (foldl (keep_remainder new_edge_id input now old_id) s rems) = co_working s ++ rems.
Proof.
  revert s. induction rems as [|r rems IH]; intros s; cbn [foldl]; [by rewrite app_nil_r|].
  rewrite IH. cbn. by rewrite <-app_assoc.
Qed.

Lemma elem_of_ids_of (l : list StoredMemoryUnit) i u : l !! i = Some u → mu_id u ∈ ids_of l.
Proof. intros Hi. apply list_elem_of_fmap_2. by eapply list_elem_of_lookup_2. Qed.

(** One unit is closed; the rest of the working state stays where it is. *)
Definition closes_at st st' (i : nat) : Prop :=
  ∀ j, (j < length (co_working st))%nat → j ≠ i → co_working st' !! j = co_working st !! j.

Lemma all_closable_step st st' i indices :
  all_closable st (i :: indices) → closes_at st st' i → all_closable st' indices.
Proof.
  intros [[Hi Hnd]%NoDup_cons Hall] Hkeep. split; [done|]. intros j Hj.
  destruct (Hall j) as (u & Hu & Hc); [by apply list_elem_of_further|]. exists u. split; [|done].
  rewrite Hkeep; [done| |congruence]. by eapply lookup_lt_Some.
Qed.

Lemma supersede_one_effects P st unit i st' unit' candidate u :
  all_sound st → co_working st !! i = Some u → closable u → mu_id unit ∈ P →
  supersede_one new_unit_id new_edge_id input now candidate (st, unit) i = Ok (st', unit') →
  effects P st st' ∧ closes_at st st' i ∧
  ∃ from to, unit' = unit <| mu_valid_from := from |> <| mu_valid_to := to |>.
Proof.
  intros Hs Hu Hc Hid. unfold supersede_one. rewrite Hu.
  destruct (if bounded candidate then _ else _) as [from to].
  set (st1 := edit_unit _ _ _). intros (((repl & rems) & st2) & Hr & Hok)%result_bind_ok.
  injection Hok as <- <-.
  assert (effects P st st1) as E1.
  { apply (effects_edit _ _ _ _ u); [done|]. apply touched_close; [done|set_solver]. }
  assert (mu_id u ∈ ids_of (co_working st1)) as Hin.
  { eapply effects_ids; [done|]. by eapply elem_of_ids_of. }
  assert (sound u) as Hu_sound.
  { by eapply all_sound_lookup. }
  assert (co_working st2 = co_working st1) as Hw2.
  { unfold correction_rectangles in Hr. by destruct (correction_rectangles_with_ids _ _ _ _ _ _ _);
      simplify_eq. }
  pose proof (effects_remainders P st1 st2 u _ _ _ Hu_sound
                ltac:(apply elem_of_app; by left) Hr) as E2.
  assert (∀ s k a b, a ∈ ids_of (co_working s) ++ P → b ∈ ids_of (co_working s) ++ P →
    effects P s (Compile.push_edge new_edge_id input now k a b s)) as Hedge
    by (intros; by apply effects_edge).
  split_and!.
  - eapply effects_trans; [exact E1|]. eapply effects_trans; [exact E2|].
    assert (mu_id u ∈ ids_of (co_working
      (foldl (keep_remainder new_edge_id input now (mu_id u)) st2 rems))) as Hin'
      by by eapply effects_ids.
    eapply effects_trans; [apply Hedge|apply Hedge]; apply elem_of_app; cbn;
      (destruct (bounded candidate); [|cbn]); auto.
  - intros j Hj Hne. cbn. rewrite keep_remainders_working, Hw2. cbn.
    rewrite lookup_app_l by (by rewrite length_alter). by rewrite list_lookup_alter_ne.
  - destruct (bounded candidate).
    + exists (mu_valid_from unit), (mu_valid_to unit). by destruct unit.
    + by do 2 eexists.
Qed.

Definition revalidated (u u' : StoredMemoryUnit) : Prop :=
  ∃ from to, u' = u <| mu_valid_from := from |> <| mu_valid_to := to |>.

Lemma revalidated_refl u : revalidated u u.
Proof. exists (mu_valid_from u), (mu_valid_to u). by destruct u. Qed.

Lemma revalidated_trans u v w : revalidated u v → revalidated v w → revalidated u w.
Proof. intros (? & ? & ->) (f & t & ->). by exists f, t. Qed.

Lemma revalidated_id u u' : revalidated u u' → mu_id u' = mu_id u.
Proof. by intros (from & to & ->). Qed.

Lemma revalidated_born u u' : revalidated u u' → born u → born u'.
Proof. by intros (from & to & ->). Qed.

Lemma supersede_all P candidate indices st unit st' unit' :
  all_sound st → all_closable st indices → mu_id unit ∈ P →
  try_fold (supersede_one new_unit_id new_edge_id input now candidate) (st, unit) indices =
    Ok (st', unit') →
  effects P st st' ∧ revalidated unit unit'.
Proof.
  revert st unit. induction indices as [|i indices IH]; intros st unit Hs Hc Hid.
  - cbn. intros [= <- <-]. split; [apply effects_refl|apply revalidated_refl].
  - cbn [try_fold]. intros ([st1 unit1] & G1 & G2)%result_bind_ok.
    destruct (proj2 Hc i) as (u & Hu & Hcu); [by apply list_elem_of_here|].
    destruct (supersede_one_effects P _ _ _ _ _ _ _ Hs Hu Hcu Hid G1) as (E1 & K & R1).
    destruct (IH st1 unit1 (effects_sound _ _ _ E1 Hs) (all_closable_step _ _ _ _ Hc K)) as [E2 R2];
      [by rewrite (revalidated_id _ _ R1)|done|].
    split; [by eapply effects_trans|by eapply revalidated_trans].
Qed.

Lemma indices_where_closable p st : all_sound st →
  (∀ u, sound u → p u = true → closable u) → all_closable st (indices_where p (co_working st)).
Proof.
  intros Hs Hp. split; [apply NoDup_retain, NoDup_seq|].
  intros i [_ Hi]%elem_of_retain. destruct (co_working st !! i) as [u|] eqn:Eu; [|done].
  exists u. split; [done|]. apply Hp; [|done]. by eapply all_sound_lookup.
Qed.

Lemma untargeted_closable st candidate indices :
  all_closable st indices → all_closable st (untargeted candidate indices).
Proof.
  unfold untargeted. intros [Hnd Hc]. destruct (_ && _); [|done]. split.
  - by eapply sublist_NoDup; [|apply sublist_take].
  - intros i Hi. apply Hc. eapply elem_of_sublist; [done|]. apply sublist_take.
Qed.

Section arms.
Context (candidate : ReflectCandidate) (a_recency : bool) (Hactor : by_job_actor candidate).

Definition may_take (fact_key : string) (kind : option MemoryKind.t) : Prop :=
  ∀ u, closes input now candidate fact_key kind u = true → A u.

Lemma closes_closable fact_key kind u : may_take fact_key kind → sound u →
  closes input now candidate fact_key kind u = true → closable u.
Proof.
  intros Hm [_ Ho] Hc. split; [by apply Hm|]. apply Ho. unfold closes in Hc. by bool_prop.
Qed.

Lemma close_effects P st fact_key kind targeted unit closed st' unit' :
  may_take fact_key kind → all_sound st → all_closable st targeted → mu_id unit ∈ P →
  close_open_generation new_unit_id new_edge_id input now st candidate fact_key kind targeted unit =
    Ok (closed, st', unit') →
  effects P st st' ∧ revalidated unit unit'.
Proof.
  intros Hm Hs Ht Hid. unfold close_open_generation.
  intros ([st1 unit1] & Hf & [= <- <- <-])%result_bind_ok.
  eapply supersede_all; [done| |done|done]. unfold generation_indices. apply untargeted_closable.
  destruct (is_some _); [done|]. apply indices_where_closable; [done|]. intros u. by apply closes_closable.
Qed.

(** What a minted unit becomes after its generation is closed. *)
Lemma append_effects may_close st fact_key kind targeted unit st' action :
  (may_close = true → may_take fact_key kind) → all_sound st → all_closable st targeted →
  born unit → mu_id unit = fst (mint st) →
  append_closing new_unit_id new_edge_id input now may_close candidate fact_key kind targeted unit
    (snd (mint st)) = Ok (st', action) →
  effects [] st st' ∧ mu_id unit ∈ ids_of (co_working st').
Proof.
  intros Hm Hs Ht Hb Hid. unfold append_closing.
  intros (((closed & st1) & unit1) & Hc & Hok)%result_bind_ok. injection Hok as <- _.
  assert (all_sound (snd (mint st))) as Hs1 by done.
  assert (effects [fst (mint st)] (snd (mint st)) st1 ∧ revalidated unit unit1) as [E R].
  { destruct may_close.
    - eapply close_effects; [by apply Hm|done|exact Ht| |exact Hc]. rewrite Hid.
      by apply list_elem_of_here.
    - injection Hc as <- <- <-. split; [apply effects_refl|apply revalidated_refl]. }
  split.
  - apply effects_finish; [done|by eapply revalidated_born|]. by rewrite (revalidated_id _ _ R).
  - unfold ids_of. cbn. rewrite map_app, <-(revalidated_id _ _ R). set_solver.
Qed.

Lemma invalidate_one_effects st i st' u :
  all_sound st → co_working st !! i = Some u → closable u →
  invalidate_one new_unit_id new_edge_id input now candidate st i = Ok st' →
  effects [] st st' ∧ closes_at st st' i.
Proof.
  intros Hs Hu Hc. unfold invalidate_one. rewrite Hu. set (st1 := edit_unit _ _ _).
  assert (effects [] st st1) as E1.
  { apply (effects_edit _ _ _ _ u); [done|]. apply touched_close; [done|].
    destruct (bounded candidate); set_solver. }
  assert (∀ j, j ≠ i → co_working st1 !! j = co_working st !! j) as Hkeep.
  { intros j Hj. by apply list_lookup_alter_ne. }
  assert (mu_id u ∈ ids_of (co_working st1)) as Hin.
  { eapply effects_ids; [done|]. by eapply elem_of_ids_of. }
  destruct (bounded candidate).
  - destruct (interval_intersection _ _ _ _) as [from to].
    intros (((repl & rems) & st2) & Hr & Hok)%result_bind_ok. injection Hok as <-.
    assert (co_working st2 = co_working st1) as Hw2.
    { unfold correction_rectangles in Hr. by destruct (correction_rectangles_with_ids _ _ _ _ _ _ _);
        simplify_eq. }
    split.
    + eapply effects_trans; [exact E1|]. eapply effects_remainders; [by eapply all_sound_lookup| |done].
      apply elem_of_app. by left.
    + intros j Hj Hne. rewrite keep_remainders_working, Hw2, lookup_app_l; [by apply Hkeep|].
      unfold st1, edit_unit. cbn. by rewrite length_alter.
  - intros [= <-]. split; [done|]. intros j _ Hne. by apply Hkeep.
Qed.

Lemma invalidate_effects indices st st' :
  all_sound st → all_closable st indices →
  try_fold (invalidate_one new_unit_id new_edge_id input now candidate) st indices = Ok st' →
  effects [] st st'.
Proof.
  revert st. induction indices as [|i indices IH]; intros st Hs Hc.
  - intros [= <-]. apply effects_refl.
  - cbn [try_fold]. intros (st1 & G1 & G2)%result_bind_ok.
    destruct (proj2 Hc i) as (u & Hu & Hcu); [by apply list_elem_of_here|].
    destruct (invalidate_one_effects _ _ _ _ Hs Hu Hcu G1) as (E1 & K).
    eapply effects_trans; [exact E1|]. apply IH; [by eapply effects_sound| |done].
    by eapply all_closable_step.
Qed.

Lemma quarantine_effects st fact_key :
  effects [] st (fst (mint_quarantined_belief new_unit_id input now fact_key candidate st)).
Proof. apply effects_finish; [apply effects_refl|by apply minted_born|done]. Qed.

Lemma untrusted_effects st fact_key :
  effects [] st (fst (admit_untrusted new_unit_id input now candidate fact_key st)).
Proof.
  unfold admit_untrusted. destruct (cd_admission_hint candidate) as [[]|];
    try apply quarantine_effects; (apply effects_finish;
      [apply effects_refl|by apply minted_born; [|apply (admitted_undeleted false)]|done]).
Qed.

Lemma trusted_effects st fact_key targeted st' action :
  (∀ kind, may_take fact_key kind) → all_sound st → all_closable st targeted →
  admit_trusted a_recency new_unit_id new_edge_id input now candidate fact_key targeted st =
    Ok (st', action) →
  effects [] st st'.
Proof.
  intros Hm Hs Ht. unfold admit_trusted.
  assert (∀ may kind unit st' action, born unit → mu_id unit = fst (mint st) →
    append_closing new_unit_id new_edge_id input now may candidate fact_key kind targeted unit
      (snd (mint st)) = Ok (st', action) → effects [] st st') as Happend.
  { intros may kind **. eapply (append_effects may _ fact_key kind); eauto. }
  destruct (cd_admission_hint candidate) as [[]|]; try (apply Happend; [by apply minted_born|done]).
  - unfold invalidate_generation. destruct (is_empty _); [done|].
    intros (st1 & Hf & [= <- _])%result_bind_ok. eapply invalidate_effects; [done| |exact Hf].
    apply untargeted_closable. destruct (is_some _); [done|].
    apply indices_where_closable; [done|]. intros u. by apply closes_closable.
  - intros [= <- _]. apply quarantine_effects.
Qed.

Lemma promote_effects st belief_id fact_key targeted st' action :
  may_take fact_key (Some MemoryKind.Semantic) → all_sound st → all_closable st targeted →
  belief_id ∈ ids_of (co_working st) →
  promote_belief a_recency new_unit_id new_edge_id input now belief_id candidate fact_key targeted
    st = Ok (st', action) →
  effects [] st st'.
Proof.
  intros Hm Hs Ht Hb. unfold promote_belief. cbn [mint fst snd].
  set (unit := minted_unit _ _ _ _ _ _ _).
  intros ([st1 act] & Hp & Hok)%result_bind_ok. injection Hok as <- _. cbn [fst].
  change (mkCompilation (co_working st) (co_new_ids st) (co_new_edges st) (S (co_minted st)))
    with (snd (mint st)) in Hp.
  assert (has_explicit_subject candidate &&
          is_some (supersedes_own_kind a_recency MemoryKind.Semantic) = true →
          may_take fact_key (supersedes_own_kind a_recency MemoryKind.Semantic)) as Hm'.
  { unfold supersedes_own_kind. by destruct a_recency; [rewrite andb_false_r|]. }
  eapply append_effects in Hp as [E Hin]; [|done..|by apply minted_born|done].
  eapply effects_trans; [exact E|]. apply effects_edge; rewrite app_nil_r; [done|].
  by eapply effects_ids.
Qed.

Lemma same_channel_effects st fact_key high_trust st' action :
  (∀ m u, cd_capture candidate = Some m →
     same_channel input now m fact_key (default MemoryKind.Belief (cd_kind candidate)) candidate u =
       true → A u) →
  admit_same_channel_capture new_unit_id new_edge_id input now candidate fact_key high_trust st =
    Some (st', action) →
  effects [] st st'.
Proof.
  intros Hm. unfold admit_same_channel_capture. intros (m & Em & Hok)%bind_Some.
  apply bind_Some in Hok as (i & Hi & Hok). apply bind_Some in Hok as (old & Hold & Hok).
  destruct (position_Some _ _ _ Hi) as (u & Hu & Hp). assert (u = old) as -> by congruence.
  assert (closable old) as Hc.
  { split; [by eapply Hm|]. unfold same_channel in Hp. by bool_prop. }
  destruct (capture_bodies_agree old candidate).
  - destruct (can_promote_belief old candidate); [done|]. destruct (negb _); simplify_eq.
    + eapply effects_edit; [done|]. split; [by destruct old|by apply stays].
    + apply effects_refl.
  - cbn [mint fst snd] in Hok. injection Hok as <- _.
    set (st1 := snd (mint st)).
    assert (effects [fst (mint st)] st1
              (edit_unit i (close_unit UnitState.Superseded now) st1)) as E1.
    { apply (effects_edit _ _ _ _ old); [done|]. apply touched_close; [done|set_solver]. }
    match goal with |- effects _ _ (Compile.push_edge _ _ _ _ _ _ (push_unit ?u _)) =>
      assert (effects [] st (push_unit u (edit_unit i (close_unit UnitState.Superseded now) st1)))
        as E2 by (apply effects_finish;
          [done
          |exact (minted_born (fst (mint st)) (default MemoryKind.Belief (cd_kind candidate))
                    (if high_trust then UnitState.Active else _) fact_key candidate Hactor
                    (admitted_undeleted high_trust _))
          |done]) end.
    eapply effects_trans; [exact E2|]. apply effects_edge; rewrite app_nil_r.
    + unfold ids_of. cbn. rewrite map_app. set_solver.
    + eapply effects_ids; [exact E2|]. by eapply elem_of_ids_of.
Qed.
End arms.

(** ** One candidate *)

(** Who may close a unit whose validity the candidate touches: a trusted
    candidate that names it, at no more risk than its own, or shares its key; a
    capture of the same channel and key; or a candidate that corroborates an
    open belief on the unit's key. *)
Definition authority (known : list StoredMemoryUnit) (candidate : ReflectCandidate)
    (u : StoredMemoryUnit) : Prop :=
  candidate_targets_unit candidate u now = true ∧
  ((is_high_trust (cd_trust_level candidate) = true ∧
    ((∃ ids, cd_target_unit_ids candidate = Some ids ∧ mu_id u ∈ ids ∧
        mu_scope_id u = rx_scope_id input ∧
        trust_risk_rank (cd_trust_level candidate) <= trust_risk_rank (mu_trust_level u)) ∨
     on_key input (fact_key_of input candidate) u = true)) ∨
   (∃ m m', cd_capture candidate = Some m ∧ mu_capture u = Some m' ∧ cm_source m' = cm_source m ∧
      on_key input (fact_key_of input candidate) u = true ∧
      mu_kind u = default MemoryKind.Belief (cd_kind candidate)) ∨
   (on_key input (fact_key_of input candidate) u = true ∧ mu_kind u = MemoryKind.Semantic ∧
    ∃ b, b ∈ known ∧ on_key input (fact_key_of input candidate) b = true ∧
      capture_bodies_agree b candidate = true ∧ can_promote_belief b candidate = true)).

Lemma targeted_closable st candidate kind fact_key a_recency targeted :
  (∀ u, authority (co_working st) candidate u → A u) →
  targeted_indices a_recency input now st candidate kind fact_key = Ok targeted →
  all_closable st targeted.
Proof.
  intros Ha. unfold targeted_indices. destruct (cd_target_unit_ids candidate) as [ids|] eqn:Ei;
    [|intros [= <-]; split; [constructor|set_solver]].
  destruct (negb _); [done|]. destruct (_ && negb _) eqn:Eh; [done|].
  destruct (negb (_ =? _)%nat) eqn:El; [done|]. destruct (_ && any _ _); [done|]. intros [= <-].
  split; [apply NoDup_retain, NoDup_seq|]. intros i [_ Hi]%elem_of_retain.
  destruct (co_working st !! i) as [u|]; [|done]. exists u. split; [done|].
  unfold names_target in Hi. bool_prop. split; [|done]. apply Ha. split; [done|]. left. split.
  - apply andb_false_iff in Eh as [Eh|Eh]; bool_prop; [|done].
    destruct ids; [|done]. by cbn in *.
  - left. exists ids. unfold mem in *. bool_prop. split_and!; try done. by apply N.leb_le.
Qed.

Lemma admit_effects st candidate a_recency st' action :
  by_job_actor candidate → all_sound st → (∀ u, authority (co_working st) candidate u → A u) →
  admit_candidate a_recency new_unit_id new_edge_id input now st candidate = Ok (st', action) →
  effects [] st st'.
Proof.
  intros Hactor Hs Ha. unfold admit_candidate.
  destruct (reject_compiler_candidate_as_noise candidate).
  { intros [= <- _]. apply effects_refl. }
  intros (targeted & Ht & Hok)%result_bind_ok.
  pose proof (targeted_closable _ _ _ _ _ _ Ha Ht) as Hc.
  destruct (admit_same_channel_capture _ _ _ _ _ _ _ _) as [[st1 act]|] eqn:Es.
  { injection Hok as <- _. eapply same_channel_effects; [done| |exact Es]. intros m u Em Hu. apply Ha.
    unfold same_channel in Hu. bool_prop. split; [done|]. right. left.
    destruct (mu_capture u) as [m'|] eqn:Em'; [|done]. bool_prop. by exists m, m'. }
  destruct (find _ _) as [b|] eqn:Ef.
  - apply find_Some in Ef as [Hb Hr]. destruct (can_promote_belief b candidate) eqn:Ep.
    + eapply promote_effects; [done| |done|exact Hc| |exact Hok]; [|by apply list_elem_of_fmap_2].
      intros u Hu. apply Ha. unfold closes, repeats in *. bool_prop. split; [done|]. right. right.
      split_and!; [done|congruence|]. by exists b.
    + injection Hok as <- _. apply effects_refl.
  - destruct (is_high_trust (cd_trust_level candidate)) eqn:Eh.
    + eapply trusted_effects; [done| |done|exact Hc|exact Hok]. intros kind u Hu. apply Ha.
      unfold closes in Hu. bool_prop. split; [done|]. left. auto.
    + injection Hok as Hok.
      pose proof (untrusted_effects candidate Hactor st (fact_key_of input candidate)) as E.
      by rewrite Hok in E.
Qed.

(** ** Composition *)

(** Two trusted preferences about one object, from units [l]. *)
Definition composed_from (l : list StoredMemoryUnit) (es : list StoredMemoryEdge)
    (u : StoredMemoryUnit) : Prop :=
  ∃ s1 s2 d1 d2 object, s1 ∈ l ∧ s2 ∈ l ∧ d1 ≠ d2 ∧
    mu_scope_id s1 = rx_scope_id input ∧ mu_scope_id s2 = rx_scope_id input ∧
    composable_source_unit s1 = true ∧ composable_source_unit s2 = true ∧
    parse_preference_observation (mu_body s1) = Some (mkPreference d1 object) ∧
    parse_preference_observation (mu_body s2) = Some (mkPreference d2 object) ∧
    u = composed_unit input now (mu_id u) object (composed_body d1 d2 object) s1 ∧
    ∀ s, s ∈ [s1; s2] → ∃ e, e ∈ es ∧ ed_kind e = MemoryEdgeKind.DerivedFrom ∧
      ed_src_id e = mu_id u ∧ ed_dst_id e = mu_id s.

Definition observed (l : list StoredMemoryUnit) (object : string) (o : string * StoredMemoryUnit)
    : Prop :=
  o.2 ∈ l ∧ mu_scope_id o.2 = rx_scope_id input ∧ composable_source_unit o.2 = true ∧
  parse_preference_observation (mu_body o.2) = Some (mkPreference o.1 object).

Lemma grouped_observed l object o :
  o ∈ rows (foldl (add_observation input) ∅ l) object → observed l object o.
Proof.
  assert (∀ k m, (∀ object o, o ∈ rows m object → observed l object o) → k ⊆ l →
    o ∈ rows (foldl (add_observation input) m k) object → observed l object o) as Hfold.
  { induction k as [|u k IH]; intros m Hm Hk; cbn [foldl]; [by apply Hm|].
    apply IH; [|set_solver]. clear IH. intros object' o'. unfold add_observation.
    destruct (_ && _) eqn:Ec; [|apply Hm].
    destruct (parse_preference_observation (mu_body u)) as [[d ob]|] eqn:Ep; [|apply Hm].
    cbn [po_object po_descriptor]. unfold push_row. destruct (decide (ob = object')) as [->|Hne].
    - rewrite rows_update_eq. intros [Ho| ->%list_elem_of_singleton]%elem_of_app; [by apply Hm|].
      bool_prop. repeat split; try done. apply Hk. by apply list_elem_of_here.
    - rewrite rows_update_ne by done. apply Hm. }
  apply Hfold; [|done]. intros ? ?. rewrite rows_empty. set_solver.
Qed.


(** What the composition has built so far: edges and units to push. *)
Record composing (st s : Compilation) (new : list StoredMemoryUnit) : Prop := {
  cg_working : co_working s = co_working st;
  cg_new_ids : co_new_ids s = co_new_ids st;
  cg_minted : (co_minted st <= co_minted s)%nat;
  cg_ids : ∀ u, u ∈ new → ∃ j, mu_id u = new_unit_id j ∧ (co_minted st <= j < co_minted s)%nat;
  cg_distinct : NoDup (ids_of new);
  cg_edges : ∃ es, co_new_edges s = co_new_edges st ++ es ∧
    Forall (good_edge (ids_of (co_working st) ++ ids_of new)) es ∧
    Forall (composed_from (co_working st) es) new;
}.

Lemma composed_from_mono l es es' u : es ⊆ es' → composed_from l es u → composed_from l es' u.
Proof.
  intros Hes (s1 & s2 & d1 & d2 & ob & ? & ? & ? & ? & ? & ? & ? & ? & ? & ? & He).
  exists s1, s2, d1, d2, ob. split_and!; try done. intros s Hs.
  destruct (He s Hs) as (e & ? & ?). exists e. set_solver.
Qed.

Lemma compose_group_step st existing s new acts object observations s' new' acts' :
  (∀ o, o ∈ observations → observed (co_working st) object o) →
  composing st s new →
  compose_group new_unit_id new_edge_id input now existing (s, new, acts) (object, observations) =
    (s', new', acts') →
  composing st s' new'.
Proof.
  intros Hobs Hc. unfold compose_group.
  destruct (distinct_observations observations) as [|[d1 s1] [|[d2 s2] rest]] eqn:Eo;
    [by intros [= <- <- _]..|].
  destruct (bool_decide _); [by intros [= <- <- _]|].
  cbn [Compile.mint fst snd]. intros [= <- <- _].
  assert (∀ o, o ∈ (d1, s1) :: (d2, s2) :: rest → observed (co_working st) object o) as Hin.
  { intros o Ho. apply Hobs. rewrite <-Eo in Ho. unfold distinct_observations in Ho.
    by apply elem_of_dedup_by, elem_of_sort_by in Ho. }
  destruct (Hin (d1, s1)) as (W1 & P1 & C1 & O1); [by apply list_elem_of_here|].
  destruct (Hin (d2, s2)) as (W2 & P2 & C2 & O2); [apply list_elem_of_further, list_elem_of_here|].
  assert (d1 ≠ d2) as Hd by exact (dedup_distinct fst _ _ _ _ Eo).
  destruct Hc as [W N M I D (es & Ed & G & C)]. cbn [fst snd] in *. set (u := composed_unit _ _ _ _ _ _). 
  assert (mu_id s1 ∈ ids_of (co_working st)) as I1 by by apply list_elem_of_fmap_2.
  assert (mu_id s2 ∈ ids_of (co_working st)) as I2 by by apply list_elem_of_fmap_2.
  split; cbn; [done|done|lia|..].
  - intros v [Hv|Hv]%elem_of_app.
    + destruct (I v Hv) as (j & ? & ?). exists j. split; [done|]. lia.
    + apply list_elem_of_singleton in Hv as ->. exists (co_minted s). split; [done|]. lia.
  - unfold ids_of. rewrite map_app. apply NoDup_app. split_and!; [done| |apply NoDup_singleton].
    intros x (v & -> & Hv)%list_elem_of_fmap Hx. cbn in Hx. apply list_elem_of_singleton in Hx.
    destruct (I v Hv) as (j & Hj & ?). rewrite Hj in Hx. apply new_unit_id_inj in Hx. lia.
  - rewrite Ed, <-!app_assoc. eexists. split; [reflexivity|].
    assert (ids_of (new ++ [u]) = ids_of new ++ [new_unit_id (co_minted s)]) as ->.
    { unfold ids_of. by rewrite map_app. }
    split.
    + apply Forall_app_2; [eapply Forall_impl; [exact G|]; intros e; apply good_edge_mono; set_solver|].
      repeat constructor; cbn; set_solver.
    + apply Forall_app_2.
      * eapply Forall_impl; [exact C|]. intros v. apply composed_from_mono. set_solver.
      * constructor; [|constructor]. exists s1, s2, d1, d2, object. split_and!; try done.
        intros v Hv. apply elem_of_cons in Hv as [->|Hv];
          [|apply list_elem_of_singleton in Hv as ->]; eexists; (split; [apply elem_of_app; right|]).
        -- apply list_elem_of_here.
        -- done.
        -- apply list_elem_of_further, list_elem_of_here.
        -- done.
Qed.

Lemma composed_from_born l es u : composed_from l es u → born u.
Proof. intros (s1 & s2 & d1 & d2 & ob & _ & _ & _ & _ & _ & _ & _ & _ & _ & -> & _). done. Qed.

Lemma compose_effects st st' actions :
  compose_inferred_beliefs new_unit_id new_edge_id input now st = (st', actions) →
  ∃ new es, effect [] st st' new ∧ co_working st' = co_working st ++ new ∧
    co_new_edges st' = co_new_edges st ++ es ∧ Forall (composed_from (co_working st) es) new.
Proof.
  unfold compose_inferred_beliefs. set (existing := map _ _).
  set (grouped := foldl (add_observation input) ∅ (co_working st)).
  destruct (foldl (compose_group _ _ _ _ existing) (st, [], []) (in_key_order grouped))
    as [[s new] acts] eqn:Ef. intros [= <- <-].
  assert (∀ l s0 new0 acts0, (∀ p, p ∈ l → p ∈ in_key_order grouped) → composing st s0 new0 →
    foldl (compose_group new_unit_id new_edge_id input now existing) (s0, new0, acts0) l =
      (s, new, acts) → composing st s new) as Hfold.
  { induction l as [|[object obs] l IH]; intros s0 new0 acts0 Hl Hc; cbn [foldl].
    - by intros [= <- <- _].
    - destruct (compose_group _ _ _ _ _ _ _) as [[s1 new1] acts1] eqn:Eg.
      apply IH; [set_solver|]. eapply compose_group_step; [|exact Hc|exact Eg].
      intros o Ho. apply grouped_observed. fold grouped.
      assert ((object, obs) ∈ in_key_order grouped) as Hp by (apply Hl, list_elem_of_here).
      unfold in_key_order in Hp. apply elem_of_sort_by, elem_of_map_to_list in Hp.
      unfold rows. by rewrite Hp. }
  assert (composing st s new) as [W N M I D (es & Ed & G & C)].
  { eapply Hfold; [done| |exact Ef]. split; try done; [set_solver|constructor|].
    exists []. by rewrite app_nil_r. }
  exists new, es. rewrite push_all_units. cbn. rewrite W, N, Ed. split; [|done].
  split; cbn; try done.
  - exists (co_working st). split; [done|]. apply touched_all_refl.
  - eapply Forall_impl; [exact C|]. intros u. apply composed_from_born.
  - exists es. split; [done|]. rewrite app_nil_r. unfold ids_of in *. by rewrite map_app.
Qed.

End effect.

(** ** A whole job *)

Section job.
Context `{Jiff} `{Sha256} `{StrDebug}.
Context (new_unit_id : nat → UnitId) (new_edge_id : nat → EdgeId) (new_citation_id : nat → Uuid).
Context (new_unit_id_inj : Inj (=) (=) new_unit_id).
Context (a_recency : bool) (input : ReflectInput) (now : string).
Context (mine : Prop) (Hactors : Forall (by_job_actor input mine) (rx_candidates input)).

Notation anyone := (λ _ : StoredMemoryUnit, True).
Notation admit_all := (try_fold (admit_step a_recency new_unit_id new_edge_id input now)).
Notation sound := (sound input mine).
Notation all_sound := (all_sound input mine).

Definition embeds (l k : list StoredMemoryUnit) : Prop :=
  ∀ u, u ∈ l → ∃ u', u' ∈ k ∧ same_unit u u'.

Lemma embeds_trans l k m : embeds l k → embeds k m → embeds l m.
Proof.
  intros E1 E2 u Hu. destruct (E1 u Hu) as (v & Hv & C1), (E2 v Hv) as (w & Hw & C2).
  exists w. split; [done|]. by eapply same_unit_trans.
Qed.

Lemma effects_embeds A P st st' :
  effects new_unit_id input now mine A P st st' → embeds (co_working st) (co_working st').
Proof.
  intros (us & [(ts & W & T) _ _ _ _ _ _]) u Hu. apply list_elem_of_lookup in Hu as [i Hi].
  destruct (Forall2_lookup_l _ _ _ _ _ T Hi) as (v & Hv & [C _]). exists v. split; [|done].
  rewrite W. apply elem_of_app. left. by eapply list_elem_of_lookup_2.
Qed.

Lemma admit_any st c st' action : c ∈ rx_candidates input → all_sound st →
  admit_candidate a_recency new_unit_id new_edge_id input now st c = Ok (st', action) →
  effects new_unit_id input now mine anyone [] st st'.
Proof.
  intros Hc Hs Hok. eapply admit_effects; [done|done| |done|done|exact Hok].
  by eapply Forall_forall in Hactors.
Qed.

Lemma admit_all_anyone candidates st actions st' actions' :
  candidates ⊆ rx_candidates input → all_sound st → admit_all (st, actions) candidates = Ok (st', actions') →
  effects new_unit_id input now mine anyone [] st st'.
Proof.
  revert st actions. induction candidates as [|c l IH]; intros st actions Hin Hs; cbn [try_fold].
  - intros [= <- _]. by apply effects_refl.
  - intros ([st1 acts1] & G1 & G2)%result_bind_ok. unfold admit_step in G1.
    apply result_bind_ok in G1 as ([st2 act] & G1 & [= <- _]). cbn [fst] in *.
    assert (c ∈ rx_candidates input) as Hc by set_solver.
    pose proof (admit_any _ _ _ _ Hc Hs G1) as E1.
    eapply effects_trans; [done|done|exact E1|]. eapply IH; [set_solver| |exact G2].
    by eapply effects_sound; [..|exact E1|].
Qed.

(** Authority among the units the job ends with. *)
Definition authorized (final : list StoredMemoryUnit) (u : StoredMemoryUnit) : Prop :=
  ∃ c, c ∈ rx_candidates input ∧ authority input now final c u.

Lemma on_key_content key u v : same_unit u v → on_key input key v = on_key input key u.
Proof.
  intros C. apply same_unit_fields in C as (_ & _ & _ & Es & _ & _ & _ & Ef & _).
  unfold on_key. by rewrite Es, Ef.
Qed.

Lemma authority_mono known known' c u :
  embeds known known' → authority input now known c u → authority input now known' c u.
Proof.
  intros He [Hv [Ht|[Hc|(Hk & Hs & b & Hb & Hbk & Ha & Hp)]]]; split; [done|by left|done|by right; left|done|].
  right. right. split_and!; [done..|]. destruct (He b Hb) as (b' & Hb' & C). exists b'.
  rewrite (on_key_content _ _ _ C). split_and!; [done..| |].
  - revert Ha. unfold capture_bodies_agree, capture_body_key. apply same_unit_fields in C.
    destruct C as (_&_&_&_&_&_&_&_& E &_). by rewrite E.
  - revert Hp. unfold can_promote_belief, is_independent_source. by rewrite C.
Qed.

Lemma authority_content known c u v :
  same_unit u v → authority input now known c v → authority input now known c u.
Proof.
  intros C. unfold authority, candidate_targets_unit, valid_covers, on_key.
  by rewrite C.
Qed.

Lemma authorized_content final u v : same_unit u v → authorized final v → authorized final u.
Proof. intros C (c & Hc & Ha). exists c. split; [done|]. by eapply authority_content. Qed.

Lemma admit_all_authorized candidates st actions st' actions' final :
  candidates ⊆ rx_candidates input → embeds (co_working st') final →
  all_sound st → admit_all (st, actions) candidates = Ok (st', actions') →
  effects new_unit_id input now mine (authorized final) [] st st'.
Proof.
  intros Hin Hfinal. revert st actions Hin.
  induction candidates as [|c l IH]; intros st actions Hin Hs; cbn [try_fold].
  - intros [= <- _]. apply effects_refl; [done|apply authorized_content].
  - intros ([st1 acts1] & G1 & G2)%result_bind_ok. unfold admit_step in G1.
    apply result_bind_ok in G1 as ([st2 act] & G1 & [= <- _]). cbn [fst] in *.
    assert (c ∈ rx_candidates input) as Hc by set_solver.
    assert (all_sound st2) as Hs2.
    { eapply (effects_sound new_unit_id); [done| |by eapply admit_any|done]. done. }
    assert (embeds (co_working st2) final) as He2.
    { assert (l ⊆ rx_candidates input) as Hl by set_solver. eapply embeds_trans; [|exact Hfinal]. eapply effects_embeds. exact (admit_all_anyone _ _ _ _ _ Hl Hs2 G2). }
    assert (effects new_unit_id input now mine (authorized final) [] st st2) as E1.
    { eapply admit_effects; [done|apply authorized_content| |exact Hs| |exact G1];
        [by apply (proj1 (Forall_forall _ _) Hactors)|].
      intros u Ha. exists c. split; [done|].
      eapply authority_mono; [|exact Ha]. eapply embeds_trans; [|exact He2].
      eapply effects_embeds. by eapply admit_any. }
    eapply effects_trans; [done|apply authorized_content|exact E1|].
    eapply IH; [set_solver|done|exact G2].
Qed.

(** ** The difference to the snapshot *)

Section snapshot.
Context (working : list StoredMemoryUnit) (Hsound : Forall sound working).
Context (Hfresh : ∀ i, new_unit_id i ∉ ids_of working).

Notation start := (mkCompilation working ∅ [] 0).

(** What a compiled job is: authorized touches, units born now, and the
    composed ones among them. *)
Record compiled (st : Compilation) : Prop := {
  cp_effects : ∃ us, effect new_unit_id input now mine (authorized (co_working st)) [] start st us;
  cp_composed : ∃ st1 new es, effects new_unit_id input now mine anyone [] start st1 ∧
    co_working st = co_working st1 ++ new ∧ co_new_edges st = co_new_edges st1 ++ es ∧
    Forall (composed_from input now (co_working st1) es) new;
}.

Lemma compile_compiled st actions :
  compile_candidates a_recency new_unit_id new_edge_id input now working = Ok (st, actions) →
  compiled st.
Proof.
  unfold compile_candidates. intros ([st1 acts] & Ha & Hok)%result_bind_ok. cbn [fst snd] in Hok.
  destruct (compose_inferred_beliefs _ _ _ _ st1) as [st2 composed] eqn:Ec.
  injection Hok as <- _.
  assert (all_sound start) as Hs by exact Hsound.
  pose proof (admit_all_anyone _ _ _ _ _ (reflexivity _) Hs Ha) as E1.
  split.
  - assert (embeds (co_working st1) (co_working st2)) as He.
    { apply (compose_effects _ _ _ _ _ mine anyone) in Ec as (new & es & E & _); [|done..].
      eapply effects_embeds. by exists new. }
    destruct (admit_all_authorized (rx_candidates input) _ _ _ _ (co_working st2)
                (reflexivity _) He Hs Ha) as [us1 E].
    apply (compose_effects _ _ _ _ _ mine (authorized (co_working st2))) in Ec
      as (new & es & E' & _); [|(apply authorized_content || done)..].
    destruct (effect_trans _ _ _ _ _ _ (authorized_content _) _ _ _ _ _ _ E E') as (us & Eus & _).
    by exists us.
  - apply (compose_effects _ _ _ _ _ mine anyone) in Ec as (new & es & _ & Hw & He & Hc); [|done..].
    by exists st1, new, es.
Qed.

Lemma compiled_split st : compiled st → ∃ ts,
  Forall2 (touched now (authorized (co_working st))) working ts ∧
  co_working st = ts ++ new_units_of st ∧
  effect new_unit_id input now mine (authorized (co_working st)) [] start st (new_units_of st) ∧
  unit_updates_of now (originals_of working) st = omap (unit_update now (originals_of working)) ts.
Proof.
  intros [[us E] _]. pose proof E as [(ts & W & T) _ I _ _ N _]. cbn in T, N.
  assert (ids_of ts = ids_of working) as Eids.
  { by eapply touched_ids. }
  assert (∀ u, u ∈ ts → mu_id u ∉ co_new_ids st) as Hts.
  { intros u Hu. rewrite N, union_empty_l_L, elem_of_list_to_set. intros (v & Ev & Hv)%list_elem_of_fmap.
    destruct (I v Hv) as (j & Hj & _). apply (Hfresh j). rewrite <-Eids, <-Hj, <-Ev.
    by apply list_elem_of_fmap_2. }
  assert (∀ u, u ∈ us → mu_id u ∈ co_new_ids st) as Hus.
  { intros u Hu. rewrite N, union_empty_l_L, elem_of_list_to_set. by apply list_elem_of_fmap_2. }
  assert (new_units_of st = us) as Hnew.
  { unfold new_units_of. rewrite W, retain_app, retain_none, retain_all; [done|..];
      intros u Hu; [by apply bool_decide_eq_true, Hus|by apply bool_decide_eq_false, Hts]. }
  exists ts. rewrite Hnew. split_and!; [done..|]. unfold unit_updates_of.
  rewrite W, retain_app, retain_all, retain_none, app_nil_r; [done|..]; intros u Hu.
  - apply negb_false_iff. by apply bool_decide_eq_true, Hus.
  - apply negb_true_iff. by apply bool_decide_eq_false, Hts.
Qed.
End snapshot.
End job.
