(* ===== verification/WriteFacts.v ===== *)
(** * WriteFacts: what a compiled job does to the store

    A write is prepared from the snapshot of the open units and applied by
    [stage_compiled_units].  The theorems follow a job from its candidates to
    the rows: what was heard before the job is still heard, a row is closed only
    on the authority of a candidate, the store accepts what was prepared, a
    second preparation finds the first, and citations quote the source. *)

From S2P Require Import Prelude Text TextFacts Types Float Clock Bitemporal Lineage Store Txn Stage.
From S2P Require Import StageFacts.
From S2P Require Import Binding Reads ReadFacts Capture CaptureFacts Gate Compile CompileFacts.

(** ** Updates of rows *)

Section rows.
Context `{Jiff} (now : string) (A : StoredMemoryUnit → Prop).
Context (A_content : ∀ u v, same_unit u v → A v → A u).

Lemma touched_update u u' v update : touched now A u u' → touched now A u v →
  up_state update = mu_state v → up_transaction_to update = mu_transaction_to v →
  touched now A u (apply_unit_update update u').
Proof.
  intros [C _] [_ S] Es Et. split.
  - unfold same_unit in *. rewrite C. unfold apply_unit_update.
    by destruct u, (up_reinforced_at update).
  - assert (mu_state (apply_unit_update update u') = mu_state v) as E1
      by (rewrite <-Es; unfold apply_unit_update; by destruct (up_reinforced_at update)).
    assert (mu_transaction_to (apply_unit_update update u') = mu_transaction_to v) as E2
      by (rewrite <-Et; unfold apply_unit_update; by destruct (up_reinforced_at update)).
    destruct S as [S1 S2|? ? S1 S2].
    + apply stays; congruence.
    + apply is_closed; congruence.
Qed.

(** An update that speaks about one of the rows. *)
Definition update_of (l : list StoredMemoryUnit) (update : UnitUpdate) : Prop :=
  ∃ u v, u ∈ l ∧ touched now A u v ∧ up_id update = mu_id u ∧
    up_state update = mu_state v ∧ up_transaction_to update = mu_transaction_to v.

Lemma updates_touched (tenant : N) updates (m0 m : gmap N (list StoredMemoryUnit)) :
  NoDup (ids_of (rows m0 tenant)) → Forall (update_of (rows m0 tenant)) updates →
  Forall2 (touched now A) (rows m0 tenant) (rows m tenant) →
  Forall2 (touched now A) (rows m0 tenant)
    (rows (foldl (λ m update, update_rows tenant
       (update_first (λ u, mu_id u =? up_id update) (apply_unit_update update)) m) m updates) tenant).
Proof.
  intros Hnd Hu. revert m. induction Hu as [|update updates (u & v & Hin & Ht & Eid & Es & Et) _ IH];
    intros m Hm; cbn [foldl]; [done|].
  apply IH. pose proof (touched_ids _ _ _ _ Hm) as Ei. unfold ids_of in *.
  rewrite rows_update_eq, (update_first_unique _ _ _ (up_id update)); [|by rewrite Ei|done].
  apply Forall2_same_length_lookup_2.
  { rewrite length_map. by eapply Forall2_length. }
  intros i u0 w Hu0 (u' & -> & Hu')%list_lookup_fmap_Some.
  pose proof (Forall2_lookup_lr _ _ _ _ _ _ Hm Hu0 Hu') as Hw.
  destruct (N.eqb_spec (mu_id u') (up_id update)) as [E|_]; [|done].
  assert (u0 = u) as ->.
  { eapply (same_id_same_unit (rows m0 tenant)); [done|by eapply list_elem_of_lookup_2|done|].
    destruct Hw as [C _]. apply same_unit_fields in C as [C _]. congruence. }
  eapply touched_update; [exact Hw|exact Ht|exact Es|exact Et].
Qed.
End rows.

(** ** From the snapshot to the rows *)

Section write.
Context `{HashOrder} `{Jiff} `{Sha256} `{StrDebug} `{EmbeddingProvider} (a_recency : bool).
Context (new_unit_id : nat → UnitId) (new_edge_id : nat → EdgeId) (new_citation_id : nat → Uuid).
Context (new_unit_id_inj : Inj (=) (=) new_unit_id).
Context (state : InMemoryState) (context : ResolvedMemoryContext).
Context (input : ReflectInput) (now : string).

Notation tenant := (cx_tenant_id context).
Notation stored := (rows (st_memory_units state) tenant).
Notation snapshot := (in_memory_scope_open_units state context).
Notation prepare := (prepare_compiled_write_from_snapshot a_recency new_unit_id new_edge_id
                       new_citation_id input now context snapshot).

(** A tenant's rows are its own, with distinct ids that are not drawn again,
    and no open row is deleted. *)
Record orderly : Prop := {
  or_tenant : Forall (λ u, mu_tenant_id u = tenant) stored;
  or_ids : NoDup (ids_of stored);
  or_open : Forall (λ u, mu_transaction_to u = None → is_deleted u = false) stored;
  or_fresh : ∀ i, new_unit_id i ∉ ids_of stored;
}.

(** What is prepared is the outcome of one compilation. *)
Record prepared (write : CompiledWrite) : Prop := {
  pw_input : input_matches_context input context = true;
  pw_generation : cx_subject_generation context = rx_subject_generation input;
  pw_compiled : ∃ st actions,
    compile_candidates a_recency new_unit_id new_edge_id input now snapshot = Ok (st, actions) ∧
    wr_new_units write = new_units_of st ∧ wr_new_edges write = co_new_edges st ∧
    wr_unit_updates write = unit_updates_of now (originals_of snapshot) st ∧
    wr_trace write = reflect_trace input actions;
  pw_citations :
    mint_compiled_citations new_citation_id input (wr_new_units write) = Ok (wr_citations write);
  pw_job : wr_job_id write = rx_job_id input;
  pw_version : wr_compiler_version write = rx_compiler_version input;
}.

Lemma prepare_prepared created write : prepare = Ok (created, write) →
  prepared write ∧ created = ids_of (wr_new_units write).
Proof.
  unfold prepare_compiled_write_from_snapshot, check_input.
  destruct (input_matches_context input context) eqn:Ei; [|done]. cbn [negb].
  destruct (N.eqb_spec (cx_subject_generation context) (rx_subject_generation input)); [|done].
  cbn [negb result_bind]. intros ([st actions] & Hc & Hok)%result_bind_ok.
  apply result_bind_ok in Hok as (citations & Hm & Hok).
  apply result_bind_ok in Hok as (embedded & _ & [= <- <-]).
  assert (mint_compiled_citations new_citation_id input (new_units_of st) = Ok citations) as Hm'.
  { unfold store_result in Hm. by destruct (mint_compiled_citations _ _ _); simplify_eq. }
  split; [|done]. split; try done. by exists st, actions.
Qed.

Lemma snapshot_row u : u ∈ snapshot → u ∈ stored ∧ own_node_unit context u = true ∧
  mu_transaction_to u = None.
Proof.
  unfold in_memory_scope_open_units. rewrite elem_of_sort_by, elem_of_retain.
  intros [Hu Hp]. bool_prop. unfold own_node_unit. bool_prop. split_and!; [done| |done].
  unfold own_node_unit. bool_prop. done.
Qed.

Lemma snapshot_ids : orderly → NoDup (ids_of snapshot).
Proof.
  intros [_ Hnd _ _]. unfold ids_of, in_memory_scope_open_units. rewrite sort_by_perm.
  eapply sublist_NoDup; [exact Hnd|]. apply fmap_sublist, retain_sublist.
Qed.

Lemma snapshot_fresh : orderly → ∀ i, new_unit_id i ∉ ids_of snapshot.
Proof.
  intros Ho i (u & E & [Hu _]%snapshot_row)%list_elem_of_fmap. apply (or_fresh Ho i).
  rewrite E. by apply list_elem_of_fmap_2.
Qed.

(** The open units of the node are all by the job's actor. *)
Definition own_actor : Prop :=
  Forall (λ u, mu_actor_id u = Some (rx_actor_id input)) snapshot ∧
  Forall (λ c, cd_actor_id c = rx_actor_id input) (rx_candidates input).

Lemma snapshot_sound (mine : Prop) write :
  orderly → prepared write → (mine → own_actor) →
  Forall (sound input mine) snapshot ∧ Forall (by_job_actor input mine) (rx_candidates input).
Proof.
  intros Ho [Hi Hg _ _ _ _] Hm. unfold input_matches_context in Hi. bool_prop. split.
  - apply Forall_forall. intros u Hu. destruct (snapshot_row u Hu) as (Hs & Hown & Hto).
    unfold own_node_unit in Hown. bool_prop.
    pose proof (proj1 (Forall_forall _ _) (or_tenant Ho) u Hs) as Ht. cbn in Ht.
    split; [|done]. unfold same_owner. split_and!; try congruence.
    intros [Hu' _]%Hm. by apply (proj1 (Forall_forall _ _) Hu').
  - apply Forall_forall. intros c Hc [_ Hm']%Hm. by apply (proj1 (Forall_forall _ _) Hm').
Qed.

(** The units a job knows: its snapshot and what it created. *)
Definition known (write : CompiledWrite) : list StoredMemoryUnit := snapshot ++ wr_new_units write.

Notation may_close write := (authorized input now (known write)).

Lemma prepared_split (mine : Prop) write :
  orderly → prepared write → (mine → own_actor) → ∃ st ts,
  co_working st = ts ++ wr_new_units write ∧
  Forall2 (touched now (may_close write)) snapshot ts ∧
  effect new_unit_id input now mine (may_close write) [] (mkCompilation snapshot ∅ [] 0) st
    (wr_new_units write) ∧
  co_new_edges st = wr_new_edges write ∧
  wr_unit_updates write = omap (unit_update now (originals_of snapshot)) ts ∧
  compiled new_unit_id input now mine snapshot st.
Proof.
  intros Ho Hp Hm. destruct (snapshot_sound mine write Ho Hp Hm) as [Hs Ha].
  destruct Hp as [_ _ (st & actions & Hc & Hn & He & Hu & _) _ _ _].
  pose proof (compile_compiled _ _ new_unit_id_inj _ _ _ _ Ha _ Hs _ _ Hc) as Hcomp.
  destruct (compiled_split _ _ _ _ _ (snapshot_fresh Ho) _ Hcomp) as (ts & T & W & E & U).
  exists st, ts. rewrite Hn, He, Hu.
  assert (embeds (co_working st) (known write)) as Hk.
  { intros v Hv. rewrite W in Hv. unfold known. apply elem_of_app in Hv as [Hv|Hv].
    - apply list_elem_of_lookup in Hv as [i Hi].
      destruct (Forall2_lookup_r _ _ _ _ _ T Hi) as (u & Hui & [C _]). exists u.
      split; [apply elem_of_app; left; by eapply list_elem_of_lookup_2|by apply same_unit_sym].
    - exists v. split; [by rewrite Hn; apply elem_of_app; right|apply same_unit_refl]. }
  assert (∀ u v, touched now (authorized input now (co_working st)) u v →
                 touched now (may_close write) u v) as Ht.
  { intros u v [C S]. split; [done|]. destruct S as [S1 S2|(c & Hin & Hau) S1 S2 S3];
      [by apply stays|]. apply is_closed; [|done..]. exists c. split; [done|].
    by eapply authority_mono. }
  split_and!; [done| | |done|done|done].
  - by eapply Forall2_impl.
  - destruct E as [(ts' & W' & T') B I D M N G]. split; try done.
    exists ts'. split; [done|]. by eapply Forall2_impl.
Qed.

Lemma prepared_new (mine : Prop) write : orderly → prepared write → (mine → own_actor) →
  Forall (born input now mine) (wr_new_units write) ∧ NoDup (ids_of (wr_new_units write)) ∧
  ∀ u, u ∈ wr_new_units write → mu_id u ∉ ids_of stored.
Proof.
  intros Ho Hp Hm. destruct (prepared_split mine write Ho Hp Hm) as (st & ts & _ & _ & E & _).
  destruct E as [_ B I D _ _ _]. split_and!; [done|done|]. intros u Hu.
  destruct (I u Hu) as (j & -> & _). apply (or_fresh Ho).
Qed.

Lemma prepared_updates write : orderly → prepared write →
  Forall (update_of now (may_close write) snapshot) (wr_unit_updates write).
Proof.
  intros Ho Hp. destruct (prepared_split False write Ho Hp) as (st & ts & _ & T & _ & _ & -> & _);
    [done|].
  apply Forall_forall. intros update (v & Hv & Hu)%list_elem_of_omap.
  apply list_elem_of_lookup in Hv as [i Hi].
  destruct (Forall2_lookup_r _ _ _ _ _ T Hi) as (u & Hui & Ht).
  assert (u ∈ snapshot) as Hin by (by eapply list_elem_of_lookup_2).
  exists u, v. split; [done|]. split; [done|].
  pose proof (same_unit_fields _ _ (proj1 Ht)) as (Eid & _).
  unfold unit_update in Hu. rewrite Eid, (originals_lookup snapshot u (snapshot_ids Ho) Hin) in Hu.
  cbn [mbind option_bind] in Hu. destruct (_ || _ || _); [|done]. by injection Hu as <-.
Qed.

(** The rows after the job: the rows of before, touched, and the new units
    that no forgetting bars. *)
Lemma written_rows claimed write : orderly → prepared write → ∃ ts,
  rows (st_memory_units (write_compiled context claimed write state)) tenant =
    ts ++ retain (λ u, negb (is_forgotten_source state u)) (wr_new_units write) ∧
  Forall2 (touched now (may_close write)) stored ts.
Proof.
  intros Ho Hp. eexists. split; cycle 1.
  - apply (updates_touched now _ tenant (wr_unit_updates write) (st_memory_units state));
      [by apply or_ids| |apply touched_all_refl].
    eapply Forall_impl; [by apply prepared_updates|]. intros update (u & v & Hu & ?).
    exists u, v. split; [by apply snapshot_row|done].
  - unfold write_compiled.
    destruct claimed, (wr_embedding_profile write); simpl; try (destruct (is_empty _)); simpl;
      rewrite rows_update_eq; done.
Qed.

Lemma compiled_rows claim write out state' : orderly → prepared write →
  compiled_in claim write context state = Ok (out, state') → ∃ ts new,
  rows (st_memory_units state') tenant = ts ++ new ∧
  Forall2 (touched now (may_close write)) stored ts ∧
  new `sublist_of` wr_new_units write.
Proof.
  intros Ho Hp [->|[_ ->]]%compiled_in_inv.
  - exists stored, []. rewrite app_nil_r. split_and!; [done|apply touched_all_refl|apply sublist_nil_l].
  - destruct (written_rows (bool_decide (is_Some claim)) write Ho Hp) as (ts & -> & T).
    do 2 eexists. split_and!; [done..|]. apply retain_sublist.
Qed.

(** ** What was heard is heard *)

Lemma touched_recallable A u v time : touched now A u v →
  (mu_transaction_to u = None → is_deleted u = false) →
  cmp_rfc3339 (rc_transaction_as_of time) now = Lt →
  bitemporally_recallable v time = bitemporally_recallable u time.
Proof.
  intros [C S] Hopen Hlt. unfold bitemporally_recallable, transaction_visible, valid_covers.
  pose proof (same_unit_fields _ _ C) as F. destruct F as (_&_&_&_&_&_&_&_&_&_&Evf&Evt&Etf&_&_&_&Ed).
  rewrite Ed, Evf, Evt, Etf. destruct S as [S1 S2|_ S1 S2 S3]; [by rewrite S1, S2|].
  specialize (Hopen S1). unfold is_deleted in Hopen. rewrite Hopen, S1, S2, Hlt.
  assert (bool_decide (mu_state v = UnitState.Deleted) = false) as ->
    by (apply bool_decide_eq_false; intros E; rewrite E in S3; set_solver).
  done.
Qed.

Lemma touched_heard A l k time : Forall2 (touched now A) l k →
  Forall (λ u, mu_transaction_to u = None → is_deleted u = false) l →
  cmp_rfc3339 (rc_transaction_as_of time) now = Lt → heard k time = heard l time.
Proof.
  intros T Hopen Hlt. induction T as [|u v l k Huv _ IH]; [done|].
  apply Forall_cons in Hopen as [Hu Hl]. rewrite !heard_cons, IH by done.
  rewrite (touched_recallable _ _ _ _ Huv Hu Hlt).
  destruct Huv as [C _]. apply same_unit_fields in C. destruct C as (-> & C).
  destruct C as (_&_&_&_&_&_&_&->&_). done.
Qed.

Lemma touched_tenants A (tid : N) l k : Forall2 (touched now A) l k →
  Forall (λ u, mu_tenant_id u = tid) l → Forall (λ u, mu_tenant_id u = tid) k.
Proof.
  intros T Hl. induction T as [|u v l k [C _] _ IH]; [done|].
  apply Forall_cons in Hl as [Hu Hl]. constructor; [|auto].
  apply same_unit_fields in C as (_ & C & _). congruence.
Qed.

Lemma touched_open A l k : Forall2 (touched now A) l k →
  Forall (λ u, mu_transaction_to u = None → is_deleted u = false) l →
  Forall (λ u, mu_transaction_to u = None → is_deleted u = false) k.
Proof.
  intros T Hl. induction T as [|u v l k [_ S] _ IH]; [done|].
  apply Forall_cons in Hl as [Hu Hl]. constructor; [|auto]. intros Hv. unfold is_deleted in *.
  destruct S as [S1 S2|? ? S1 ?]; [rewrite S1; apply Hu|]; congruence.
Qed.

Lemma compile_history claim created write out state' time : orderly →
  prepare = Ok (created, write) → compiled_in claim write context state = Ok (out, state') →
  cmp_rfc3339 (rc_transaction_as_of time) now = Lt →
  heard (rows (st_memory_units state') tenant) time = heard stored time.
Proof.
  intros Ho [Hp _]%prepare_prepared Hc Hlt.
  destruct (compiled_rows _ _ _ _ Ho Hp Hc) as (ts & new & -> & T & Hnew).
  rewrite heard_app, (heard_future new now), app_nil_r; [|  |done].
  - eapply touched_heard; [exact T|by apply or_open|done].
  - intros u Hu. destruct (prepared_new False write Ho Hp) as (B & _); [done|].
    by apply (proj1 (Forall_forall _ _) B u), (elem_of_sublist new).
Qed.

(** C2: a compiled job does not rewrite the past: whatever its candidates are, a
    recall at a transaction time before the job hears from the rows of the
    tenant exactly what it heard before the job. *)
Theorem compile_preserves_history claim created write out state' time : orderly →
  prepare = Ok (created, write) → compiled_in claim write context state = Ok (out, state') →
  cmp_rfc3339 (rc_transaction_as_of time) now = Lt →
  heard (rows (st_memory_units state') tenant) time = heard stored time.
Proof. apply compile_history. Qed.

(** C4: a compiled job closes a row only on authority: an open row that the job
    closed ends at the time of the job, superseded or invalidated, and one of
    its candidates touches the row's validity and is trusted and names the row
    or shares its key, or is a capture of the row's channel and key, or
    corroborates a belief on the row's key. *)
Theorem compile_closes_with_authority claim created write out state' u u' : orderly →
  prepare = Ok (created, write) → compiled_in claim write context state = Ok (out, state') →
  u ∈ stored → mu_transaction_to u = None →
  u' ∈ rows (st_memory_units state') tenant → mu_id u' = mu_id u → mu_transaction_to u' ≠ None →
  mu_transaction_to u' = Some now ∧
  mu_state u' ∈ [UnitState.Superseded; UnitState.Invalidated] ∧
  ∃ c, c ∈ rx_candidates input ∧ authority input now (known write) c u.
Proof.
  intros Ho [Hp _]%prepare_prepared Hc Hu Hopen Hu' Hid Hclosed.
  destruct (compiled_rows _ _ _ _ Ho Hp Hc) as (ts & new & E & T & Hnew).
  rewrite E in Hu'. apply elem_of_app in Hu' as [Hu'|Hu'].
  - apply list_elem_of_lookup in Hu' as [i Hi].
    destruct (Forall2_lookup_r _ _ _ _ _ T Hi) as (w & Hw & Ht).
    assert (w = u) as ->.
    { eapply same_id_same_unit; [exact (or_ids Ho)|by eapply list_elem_of_lookup_2|done|].
      destruct Ht as [C _]. apply same_unit_fields in C as [C _]. congruence. }
    destruct Ht as [_ [_ S2|A _ S2 S3]]; [congruence|done].
  - destruct (prepared_new False write Ho Hp) as (_ & _ & Hf); [done|].
    destruct (Hf u' (elem_of_sublist _ _ _ Hu' Hnew)). rewrite Hid. by apply list_elem_of_fmap_2.
Qed.

(** C32: a compiled job leaves the tenant's rows in order: they are the tenant's
    own, their ids are distinct - the new units have ids of their own - and no
    row that is open is deleted. *)
Theorem compiled_rows_stay_orderly claim created write out state' : orderly →
  prepare = Ok (created, write) → compiled_in claim write context state = Ok (out, state') →
  Forall (λ u, mu_tenant_id u = tenant) (rows (st_memory_units state') tenant) ∧
  NoDup (ids_of (rows (st_memory_units state') tenant)) ∧
  Forall (λ u, mu_transaction_to u = None → is_deleted u = false)
    (rows (st_memory_units state') tenant).
Proof.
  intros Ho [Hp _]%prepare_prepared Hc.
  destruct (compiled_rows _ _ _ _ Ho Hp Hc) as (ts & new & -> & T & Hnew).
  destruct (prepared_new False write Ho Hp) as (B & Hnd & Hfresh); [done|].
  assert (Forall (born input now False) new) as Bn.
  { apply Forall_forall. intros u Hu. apply (proj1 (Forall_forall _ _) B). by eapply elem_of_sublist. }
  assert (tenant = rx_tenant_id input) as Et.
  { pose proof (pw_input _ Hp) as Hi. unfold input_matches_context in Hi. by bool_prop. }
  split_and!.
  - apply Forall_app_2; [exact (touched_tenants _ _ _ _ T (or_tenant Ho))|].
    eapply Forall_impl; [exact Bn|]. intros u [[(Hu & _) _] _]. congruence.
  - unfold ids_of in *. rewrite map_app. apply NoDup_app. split_and!.
    + pose proof (touched_ids _ _ _ _ T) as E. unfold ids_of in E. rewrite E. apply or_ids, Ho.
    + pose proof (touched_ids _ _ _ _ T) as E. unfold ids_of in E. rewrite E.
      intros x Hx (u & -> & Hu)%list_elem_of_fmap.
      exact (Hfresh u (elem_of_sublist _ _ _ Hu Hnew) Hx).
    + eapply sublist_NoDup; [exact Hnd|]. by apply (fmap_sublist mu_id).
  - apply Forall_app_2; [exact (touched_open _ _ _ T (or_open Ho))|].
    eapply Forall_impl; [exact Bn|]. by intros u (_ & _ & ?) _.
Qed.

(** ** Citations *)

(** The unit is derived from the source the job reads. *)
Definition of_source (u : StoredMemoryUnit) : Prop :=
  mu_source_episode_id u = rx_episode_id input ∧ mu_source_resource_id u = rx_resource_id input.

(** The quoted text: all of the source, or a chunk of the unit. *)
Definition quotable (body : string) (u : StoredMemoryUnit) (start end_ : N) (quote : list N)
    : Prop :=
  (start = 0 ∧ end_ = N.of_nat (String.length body) ∧ quote = bytes_of body) ∨
  (∃ chunk span, chunk ∈ mu_contextual_chunks u ∧ ch_source_span chunk = Some span ∧
     parse_chunk_span span = Some (start, end_) ∧ bytes_of (ch_body chunk) = quote ∧
     get_slice (bytes_of body) (N.to_nat start) (N.to_nat end_) = Some quote).

Definition cites (body : string) (u : StoredMemoryUnit) (c : StoredCitation) : Prop :=
  of_source u ∧ ∃ id start end_ quote, c = compiled_citation id u start end_ quote ∧
    quotable body u start end_ quote.

Definition cited_by (body : string) (units : list StoredMemoryUnit) (cs : list StoredCitation)
    : Prop :=
  Forall (λ c, ∃ u, u ∈ units ∧ cites body u c) cs ∧
  ∀ u, u ∈ units → of_source u → ∃ c, c ∈ cs ∧ cites body u c.

Lemma cite_chunks_cites body u spans cs cs' : of_source u →
  spans ⊆ spanned_chunks u → try_fold (cite_chunk new_citation_id body u) cs spans = Ok cs' →
  ∃ new, cs' = cs ++ new ∧ Forall (cites body u) new ∧ length new = length spans.
Proof.
  clear new_unit_id_inj. intros Hsrc. revert cs. induction spans as [|[chunk span] spans IH]; intros cs Hin; cbn [try_fold].
  - intros [= <-]. exists []. by rewrite app_nil_r.
  - intros (cs1 & Hc & Hrest)%result_bind_ok. unfold cite_chunk in Hc.
    destruct (parse_chunk_span span) as [[start end_]|] eqn:Es; [|done]. cbn [ok_or result_bind] in Hc.
    destruct (get_slice _ _ _) as [quote|] eqn:Eq; [|done]. cbn [ok_or result_bind] in Hc.
    case_bool_decide as Eb; [|done]. injection Hc as <-.
    destruct (IH _ ltac:(set_solver) Hrest) as (new & -> & Hnew & Hl).
    eexists (_ :: new). rewrite <-app_assoc. split; [done|]. split; [|by cbn; f_equal].
    constructor; [|done]. split; [done|]. do 4 eexists. split; [done|]. right.
    assert ((chunk, span) ∈ spanned_chunks u) as Hcs by set_solver.
    apply list_elem_of_omap in Hcs as (chunk' & Hchunk & Hspan).
    apply fmap_Some in Hspan as (span' & Espan & [= -> ->]). by exists chunk', span'.
Qed.

Lemma cite_unit_cites body u cs cs' : cite_unit new_citation_id input body cs u = Ok cs' →
  ∃ new, cs' = cs ++ new ∧ Forall (λ c, of_source u ∧ cites body u c) new ∧
    (of_source u → new ≠ []).
Proof.
  unfold cite_unit. destruct (_ || _) eqn:Ed.
  { intros [= <-]. exists []. rewrite app_nil_r. split_and!; [done|constructor|].
    intros [E1 E2]. rewrite E1, E2, !bool_decide_true in Ed by done. done. }
  assert (of_source u) as Hsrc by (unfold of_source; by bool_prop).
  destruct (is_empty _ || _) eqn:Es.
  { intros [= <-]. eexists. split; [done|]. split; [|done]. constructor; [|done].
    split; [done|]. split; [done|]. do 4 eexists. split; [done|]. by left. }
  intros Hok. destruct (cite_chunks_cites body u _ _ _ Hsrc (reflexivity _) Hok)
    as (new & -> & Hnew & Hl). exists new. split_and!; [done|by eapply Forall_impl|].
  intros _ ->. bool_prop. by destruct (spanned_chunks u).
Qed.

Lemma mint_citations_cited units cs body : rx_source_body input = Some body →
  mint_compiled_citations new_citation_id input units = Ok cs → cited_by body units cs.
Proof.
  clear new_unit_id_inj. unfold mint_compiled_citations. intros ->.
  assert (∀ done todo cs0, cited_by body done cs0 →
    try_fold (cite_unit new_citation_id input body) cs0 todo = Ok cs →
    cited_by body (done ++ todo) cs) as Hfold.
  { intros cited todo. revert cited. induction todo as [|u todo IH]; intros cited cs0 Hc; cbn [try_fold].
    - intros [= <-]. by rewrite app_nil_r.
    - intros (cs1 & (new & -> & Hnew & Hne)%cite_unit_cites & Hrest)%result_bind_ok.
      rewrite (app_assoc cited [u] todo : cited ++ u :: todo = _). eapply IH; [|exact Hrest].
      destruct Hc as [Hs Hall]. split.
      + apply Forall_app_2.
        * eapply Forall_impl; [exact Hs|]. intros c (v & ? & ?). exists v. set_solver.
        * eapply Forall_impl; [exact Hnew|]. intros c [_ ?]. exists u. set_solver.
      + intros v [Hv| ->%list_elem_of_singleton]%elem_of_app Hsrc.
        * destruct (Hall v Hv Hsrc) as (c & ? & ?). exists c. set_solver.
        * destruct new as [|c new]; [by destruct (Hne Hsrc)|]. exists c.
          apply Forall_cons in Hnew as [[_ ?] _]. set_solver. }
  intros Hok. apply (Hfold [] units []); [|done]. split; [constructor|set_solver].
Qed.

(** the citations of a compiled job quote its source: each belongs to a new
    unit derived from the source and covers the whole body, or the span of a
    chunk of the unit whose text is that slice of the body; every such unit has
    one; and a job without a source body has none. *)
Theorem compiled_citations_quote_source created write : prepare = Ok (created, write) →
  match rx_source_body input with
  | Some body => cited_by body (wr_new_units write) (wr_citations write)
  | None => wr_citations write = []
  end.
Proof.
  intros [Hp _]%prepare_prepared. pose proof (pw_citations _ Hp) as Hc.
  destruct (rx_source_body input) as [body|] eqn:Eb; [by eapply mint_citations_cited|].
  unfold mint_compiled_citations in Hc. rewrite Eb in Hc. by injection Hc.
Qed.

(** ** Composition *)

Notation compose := (compose_inferred_beliefs new_unit_id new_edge_id input now).
Notation compose_one := (compose_group new_unit_id new_edge_id input now).

Definition body_key (u : StoredMemoryUnit) : string := normalize_component (mu_body u).

(** A group says nothing new: it has one descriptor, or its belief stands. *)
Definition group_settled (bodies : list string) (group : string * list (string * StoredMemoryUnit))
    : Prop :=
  match distinct_observations group.2 with
  | first :: second :: _ =>
      normalize_component (composed_body first.1 second.1 group.1) ∈ bodies
  | _ => True
  end.

Lemma settled_mono bodies bodies' group :
  bodies ⊆ bodies' → group_settled bodies group → group_settled bodies' group.
Proof.
  unfold group_settled. intros Hb. destruct (distinct_observations _) as [|? [|? ?]]; auto.
Qed.

Lemma settled_nothing existing st new actions group :
  group_settled (existing ++ map body_key new) group →
  compose_one existing (st, new, actions) group = (st, new, actions).
Proof.
  unfold group_settled, compose_group. destruct group as [object observations]. cbn [fst snd].
  destruct (distinct_observations observations) as [|? [|? ?]]; [done..|].
  intros Hin. by rewrite bool_decide_true.
Qed.

Lemma compose_group_settles existing st new actions group st' new' actions' :
  compose_one existing (st, new, actions) group = (st', new', actions') →
  group_settled (existing ++ map body_key new') group ∧ new ⊆ new'.
Proof.
  unfold group_settled, compose_group. destruct group as [object observations]. cbn [fst snd].
  destruct (distinct_observations observations) as [|first [|second rest]];
    [by intros [= <- <- <-]..|].
  case_bool_decide as Eb; [by intros [= <- <- <-]|]. cbn [mint]. intros [= <- <- <-].
  split; [|set_solver]. rewrite map_app, app_assoc. apply elem_of_app. right. cbn.
  by apply list_elem_of_here.
Qed.

Lemma compose_groups_settle existing groups st new actions st' new' actions' :
  foldl (compose_one existing) (st, new, actions) groups = (st', new', actions') →
  Forall (group_settled (existing ++ map body_key new')) groups ∧ new ⊆ new'.
Proof.
  revert st new actions. induction groups as [|group groups IH]; intros st new actions; cbn [foldl].
  - intros [= <- <- <-]. by split; [constructor|].
  - destruct (compose_one existing (st, new, actions) group) as [[st1 new1] actions1] eqn:E1.
    intros (Hall & Hsub)%IH. apply compose_group_settles in E1 as [Hg Hsub1].
    split; [|set_solver]. constructor; [|done]. eapply settled_mono; [|exact Hg].
    intros b. rewrite !elem_of_app, !list_elem_of_fmap. intros [?|(u & ? & ?)]; [by left|].
    right. exists u. set_solver.
Qed.

Lemma settled_groups_nothing existing groups st new actions :
  Forall (group_settled (existing ++ map body_key new)) groups →
  foldl (compose_one existing) (st, new, actions) groups = (st, new, actions).
Proof.
  induction 1 as [|group groups Hg _ IH]; cbn [foldl]; [done|]. by rewrite settled_nothing.
Qed.

Lemma composed_silent l es u : composed_from input now l es u →
  composable_source_unit u = false ∧ standing_composition input u = true.
Proof.
  intros (s1 & s2 & d1 & d2 & ob & _ & _ & _ & _ & _ & _ & _ & _ & _ & -> & _).
  unfold composable_source_unit, standing_composition. cbn.
  rewrite N.eqb_refl. done.
Qed.

Lemma compose_groups_working existing groups st new actions st' new' actions' :
  foldl (compose_one existing) (st, new, actions) groups = (st', new', actions') →
  co_working st' = co_working st.
Proof.
  revert st new actions. induction groups as [|[object observations] groups IH];
    intros st new actions; cbn [foldl]; [by intros [= <- _ _]|].
  unfold compose_group at 2. destruct (distinct_observations observations) as [|? [|? ?]];
    [by apply IH..|]. case_bool_decide; [by apply IH|]. cbn [mint]. intros Hf. by apply IH in Hf.
Qed.

Lemma observations_silent l new m :
  Forall (λ u, composable_source_unit u = false) new →
  foldl (add_observation input) m (l ++ new) = foldl (add_observation input) m l.
Proof.
  intros Hn. rewrite foldl_app. generalize (foldl (add_observation input) m l) as m'.
  induction Hn as [|u new Hu _ IH]; intros m'; cbn [foldl]; [done|].
  unfold add_observation at 2. by rewrite Hu, andb_false_r.
Qed.

(** the beliefs a job composes are grounded, and composing settles: each new
    unit is a candidate belief of the agent, linked by an edge to each of two
    units of the scope that are active or candidate, trusted, and state
    different preferences about one object; and composing again adds nothing. *)
Theorem composition_is_grounded_and_settles st st' actions : compose st = (st', actions) →
  (∃ new es, co_working st' = co_working st ++ new ∧ co_new_edges st' = co_new_edges st ++ es ∧
     Forall (composed_from input now (co_working st) es) new) ∧
  compose st' = (st', []).
Proof.
  intros Hc. pose proof (compose_effects new_unit_id new_edge_id new_unit_id_inj input now False
    (λ _, True) (λ _ _ _ _, I) _ _ _ Hc) as (new & es & _ & Hw & He & Hnew).
  split; [by exists new, es|]. unfold compose_inferred_beliefs in Hc |- *.
  set (existing := map _ (retain _ (co_working st))) in Hc.
  destruct (foldl _ _ _) as [[s newf] acts] eqn:Ef in Hc. injection Hc as Hst _.
  rewrite push_all_units, (compose_groups_working _ _ _ _ _ _ _ _ Ef) in Hst.
  assert (newf = new) as ->.
  { rewrite <-Hst in Hw. cbn in Hw. by apply app_inv_head in Hw. }
  apply compose_groups_settle in Ef as [Hset _].
  assert (Forall (λ u, composable_source_unit u = false ∧ standing_composition input u = true) new)
    as Hsil by (eapply Forall_impl; [exact Hnew|]; intros; by eapply composed_silent).
  rewrite Hw, observations_silent by (eapply Forall_impl; [exact Hsil|]; by intros ? [? _]).
  rewrite settled_groups_nothing; [done|].
  assert (retain (standing_composition input) new = new) as Er.
  { apply retain_all. intros u Hu. by apply (proj1 (Forall_forall _ _) Hsil u Hu). }
  rewrite app_nil_r, retain_app, Er, map_app. exact Hset.
Qed.

(** ** The store takes what was prepared *)

Lemma find_last {A} (p : A → bool) l x :
  p x = true → (∀ y, y ∈ l → p y = false) → find p (l ++ [x]) = Some x.
Proof.
  intros Hx Hl. induction l as [|y l IH]; cbn; [by rewrite Hx|].
  rewrite Hl by apply list_elem_of_here. apply IH. intros z Hz. apply Hl. by apply list_elem_of_further.
Qed.

Notation written claimed write := (write_compiled context claimed write state).

(** A trace is stored with the owner of its job. *)
Definition traces_owned : Prop := ∀ t, t ∈ rows (st_reflect_traces state) tenant →
  is_Some (st_reflect_trace_owners state !! (tenant, rt_job_id t, rt_compiler_version t)).

Lemma prepared_edges write : orderly → prepared write → own_actor →
  Forall (λ e, ed_tenant_id e = tenant ∧ ed_scope_id e = cx_scope_id context ∧
    ed_src_id e ∈ ids_of (known write) ∧ ed_dst_id e ∈ ids_of (known write)) (wr_new_edges write).
Proof.
  intros Ho Hp Hown. destruct (prepared_split True write Ho Hp (λ _, Hown))
    as (st & ts & W & T & [_ _ _ _ _ _ (es & Ed & G)] & <- & _).
  cbn in Ed. rewrite Ed. eapply Forall_impl; [exact G|].
  intros e (Ht & Hs & Hsrc & Hdst). rewrite W, app_nil_r in Hsrc, Hdst.
  unfold known, ids_of in *. rewrite map_app in *.
  pose proof (touched_ids _ _ _ _ T) as Ei. unfold ids_of in Ei. rewrite Ei in Hsrc, Hdst.
  pose proof (pw_input _ Hp) as Hi. unfold input_matches_context in Hi. bool_prop.
  split_and!; congruence || done.
Qed.

Lemma born_matches u : input_matches_context input context = true →
  cx_subject_generation context = rx_subject_generation input →
  born input now True u → unit_matches_context u context = true.
Proof.
  unfold input_matches_context. intros Hi Hg [[(? & ? & ? & ? & ? & Ha) _] _]. bool_prop.
  unfold unit_matches_context, owner_matches. rewrite Ha by done.
  repeat (apply andb_true_iff; split); try apply N.eqb_eq; try apply bool_decide_eq_true; congruence.
Qed.

Lemma snapshot_matches write u : orderly → prepared write → own_actor → u ∈ snapshot →
  u ∈ retain (λ u, unit_matches_context u context) stored.
Proof.
  intros Ho Hp Hown Hu. destruct (snapshot_sound True write Ho Hp (λ _, Hown)) as [Hs _].
  destruct (snapshot_row u Hu) as (Hin & _ & _). apply elem_of_retain. split; [done|].
  destruct (proj1 (Forall_forall _ _) Hs u Hu) as [Hso Hst]. destruct Hp as [Hi Hg _ _ _ _].
  unfold input_matches_context in Hi. destruct Hso as (? & ? & ? & ? & ? & Ha). bool_prop.
  unfold unit_matches_context, owner_matches. rewrite Ha by done.
  repeat (apply andb_true_iff; split); try apply N.eqb_eq; try apply bool_decide_eq_true; congruence.
Qed.

Definition one_source : Prop := rx_episode_id input = None ∨ rx_resource_id input = None.

Lemma prepared_citation_ok write c : prepared write → one_source →
  Forall (born input now True) (wr_new_units write) → c ∈ wr_citations write →
  citation_ok context (ids_of (wr_new_units write)) c = true.
Proof.
  intros Hp H1s Hb Hc. pose proof (pw_citations _ Hp) as Hm.
  destruct (rx_source_body input) as [body|] eqn:Eb; cycle 1.
  { unfold mint_compiled_citations in Hm. rewrite Eb in Hm. injection Hm as E.
    rewrite <-E in Hc. set_solver. }
  destruct (mint_citations_cited _ _ _ Eb Hm) as [Hs _].
  destruct (proj1 (Forall_forall _ _) Hs c Hc) as (u & Hu & [Se Sr] & id & start & end_ & q & -> & _).
  destruct (proj1 (Forall_forall _ _) Hb u Hu) as [[(? & ? & ? & ? & ? & _) _] _].
  destruct Hp as [Hi Hg _ _ _ _]. unfold input_matches_context in Hi. bool_prop.
  unfold citation_ok, compiled_citation. cbn. rewrite Se, Sr.
  repeat (apply andb_true_iff; split); try apply N.eqb_eq; try congruence.
  - apply mem_true. by apply list_elem_of_fmap_2.
  - apply negb_true_iff, andb_false_iff. destruct H1s as [-> | ->]; [left|right];
      by apply bool_decide_eq_false; intros [].
Qed.

Lemma prepared_checks write : orderly → prepared write → own_actor → one_source →
  any (is_blocked context stored) (wr_new_units write) = false →
  check_compiled context state write = Ok ().
Proof.
  intros Ho Hp Hown H1s Hblocked. unfold check_compiled.
  destruct (prepared_new True write Ho Hp (λ _, Hown)) as (Hb & _ & _).
  assert (∀ u, u ∈ snapshot →
    mem (mu_id u) (map mu_id (retain (λ u, unit_matches_context u context) stored)) = true) as Hsnap.
  { intros u Hu. apply mem_true, list_elem_of_fmap_2. by eapply snapshot_matches. }
  rewrite (proj2 (any_false _ (wr_new_units write))); cycle 1.
  { intros u Hu. apply negb_false_iff, born_matches; [apply Hp..|].
    by apply (proj1 (Forall_forall _ _) Hb). }
  rewrite (proj2 (any_false _ (wr_unit_updates write))); cycle 1.
  { intros update Hu. apply negb_false_iff.
    destruct (proj1 (Forall_forall _ _) (prepared_updates write Ho Hp) update Hu)
      as (u & v & Hin & _ & -> & _). by apply Hsnap. }
  rewrite (proj2 (any_false _ (wr_new_edges write))); cycle 1.
  { intros e He. destruct (proj1 (Forall_forall _ _) (prepared_edges write Ho Hp Hown) e He)
      as (-> & -> & Hsrc & Hdst). rewrite !N.eqb_refl. cbn [negb orb].
    assert (∀ id, id ∈ ids_of (known write) →
      mem id (map mu_id (wr_new_units write)) ||
      mem id (map mu_id (retain (λ u, unit_matches_context u context) stored)) = true) as Hk.
    { unfold known, ids_of. intros id (u & -> & Hu)%list_elem_of_fmap. apply orb_true_iff.
      apply elem_of_app in Hu as [Hu|Hu]; [right; by apply Hsnap|left].
      apply mem_true. by apply list_elem_of_fmap_2. }
    by rewrite (Hk _ Hsrc), (Hk _ Hdst). }
  rewrite (proj2 (any_false _ (wr_citations write))); cycle 1.
  { intros c Hc. apply negb_false_iff. by apply prepared_citation_ok. }
  by rewrite Hblocked.
Qed.

(** The claim under which a worker writes: of the context and of the job, in
    its compiler version. *)
Definition claim_of_job (claim : ReflectJobRow) : Prop :=
  owned_job context (jr_job claim) = true ∧ qj_id (jr_job claim) = rx_job_id input ∧
  qj_compiler_version (jr_job claim) = rx_compiler_version input.

Lemma written_validates claimed write cx :
  validate_context (written claimed write) cx = validate_context state cx.
Proof.
  unfold validate_context, write_compiled.
  destruct (wr_embedding_profile write), claimed; simpl; try (destruct (is_empty _)); done.
Qed.

Lemma written_traces claimed write :
  st_reflect_trace_owners (written claimed write) !! (tenant, wr_job_id write, wr_compiler_version write)
    = Some (owner_value context) ∧
  rows (st_reflect_traces (written claimed write)) tenant =
    rows (st_reflect_traces state) tenant ++ [wr_trace write].
Proof.
  unfold write_compiled, push_row.
  destruct (wr_embedding_profile write), claimed; simpl; try (destruct (is_empty _)); simpl;
    by rewrite lookup_insert_eq, rows_update_eq.
Qed.

Lemma written_job write :
  st_job_meta (written true write) !! wr_job_id write =
  Some (default JobMeta_default (st_job_meta state !! wr_job_id write)
          <| jm_completed := true |> <| jm_claimed := false |>).
Proof.
  unfold write_compiled.
  destruct (wr_embedding_profile write); simpl; try (destruct (is_empty _)); simpl;
    by rewrite lookup_insert_eq.
Qed.

(** C5: a prepared job goes through, and only once.  In a valid context, when
    the job has no trace yet in this compiler version, the open units of the
    node and the candidates are by the job's actor, the job has one source and
    no invalidation bars a new unit, the store applies the write - with no
    claim, or under the current claim of the job, which it completes.  On the
    store the write leaves, preparing the job again, with any candidates, finds
    its trace and writes nothing, and no write of the job in that version, under
    any claim or none, changes the store again. *)
Theorem prepared_write_is_applied_once claim created write input' now' : orderly → traces_owned →
  prepare = Ok (created, write) → own_actor → one_source →
  any (is_blocked context stored) (wr_new_units write) = false →
  validate_context state context = Ok () →
  st_reflect_trace_owners state !! (tenant, rx_job_id input, rx_compiler_version input) = None →
  match claim with
  | Some c => claim_is_current state c = true ∧ claim_of_job c
  | None => True
  end →
  check_input input' context = Ok () → rx_job_id input' = rx_job_id input →
  rx_compiler_version input' = rx_compiler_version input →
  ∃ state', compiled_in claim write context state = Ok (ClaimMutationOutcome.Applied, state') ∧
    match claim with
    | Some c => ∃ meta, st_job_meta state' !! qj_id (jr_job c) = Some meta ∧
        jm_completed meta = true ∧ jm_claimed meta = false
    | None => True
    end ∧
    prepare_compiled_write a_recency new_unit_id new_edge_id new_citation_id state' input' now' context =
      Ok (PreparedCompiledWrite.Existing (wr_trace write)) ∧
    ∀ claim' write' out state'', wr_job_id write' = rx_job_id input →
      wr_compiler_version write' = rx_compiler_version input →
      compiled_in claim' write' context state' = Ok (out, state'') → state'' = state'.
Proof.
  intros Ho Htr [Hp _]%prepare_prepared Hown H1s Hb Hv Hfree Hclaim Hi' Hj' Hv'.
  pose proof (prepared_checks write Ho Hp Hown H1s Hb) as Hcheck.
  assert (wr_trace write = reflect_trace input (rt_actions (wr_trace write))) as Et.
  { destruct (pw_compiled _ Hp) as (st & actions & _ & _ & _ & _ & ->). done. }
  pose proof (written_traces (bool_decide (is_Some claim)) write) as [Howner Htraces].
  rewrite (pw_job _ Hp), (pw_version _ Hp) in Howner.
  exists (written (bool_decide (is_Some claim)) write). split_and!.
  - unfold compiled_in. rewrite (pw_job _ Hp), (pw_version _ Hp), Hfree, Hcheck.
    destruct claim as [c|]; [|done]. destruct Hclaim as (-> & Hjob & Hid & Hversion).
    unfold claim_matches. rewrite (pw_job _ Hp), (pw_version _ Hp), Hjob, Hid, Hversion.
    by rewrite N.eqb_refl, bool_decide_true.
  - destruct claim as [c|]; [|done]. destruct Hclaim as (_ & _ & -> & _).
    rewrite bool_decide_true by done. rewrite <-(pw_job _ Hp), written_job. by eexists.
  - unfold prepare_compiled_write. rewrite Hi'. cbn [result_bind].
    unfold fetch_reflect_trace. rewrite written_validates, Hv, Hj', Hv'. cbn [result_bind].
    rewrite Howner, bool_decide_true, Htraces by done. cbn [store_result result_bind].
    rewrite find_last; [done|cbn|].
    + by rewrite Et, N.eqb_refl, String.eqb_refl.
    + intros t Ht. destruct (Htr t Ht) as [owner Hs]. apply andb_false_iff.
      destruct (N.eqb_spec (rt_job_id t) (rx_job_id input)) as [E1|]; [right|by left].
      apply String.eqb_neq. intros E2. rewrite E1, E2 in Hs. congruence.
  - intros claim' write' out state'' Ej Ev. unfold compiled_in. rewrite Ej, Ev, Howner.
    rewrite (bool_decide_true (owner_value context = owner_value context)) by done.
    destruct (match claim' with Some c => negb (claim_is_current _ c) | None => false end);
      [by intros [= _ <-]|].
    destruct (match claim' with Some c => negb (claim_matches _ c write') | None => false end);
      [done|by intros [= _ <-]].
Qed.
End write.
