(* ===== verification/SubjectFacts.v ===== *)
(** * SubjectFacts: one answer per subject key

    A trusted statement about a subject takes the valid interval it claims from
    the open units on its key: inside the interval the key says what the
    statement says, outside what it said before.  So a key that has at most one
    answer at every valid instant keeps at most one. *)

From S2P Require Import Prelude Text Types Float Clock Bitemporal Lineage Store Txn Stage.
From S2P Require Import Binding Reads Capture Gate Compile CompileFacts.

(** ** Intersections *)

Section intervals.
Context `{Jiff}.

Lemma intersection_covers a b s e v :
  in_interval a b v →
  in_interval (interval_intersection a b s e).1 (interval_intersection a b s e).2 v ↔
  in_interval s e v.
Proof.
  unfold interval_intersection, in_interval. intros [Ha Hb]. cbn [fst snd]. split.
  - intros [Hf Ht]. split.
    + intros y ->. destruct a as [x|]; [|by apply Hf].
      specialize (Hf _ eq_refl). destruct (is_lt (cmp_rfc3339 x y)) eqn:El; [done|].
      apply is_lt_false, stamp_nlt in El. by etrans.
    + intros y ->. destruct b as [x|]; [|by apply Ht].
      specialize (Ht _ eq_refl). destruct (is_gt (cmp_rfc3339 x y)) eqn:El; [done|].
      eapply cmp_rfc3339_lt_le_trans; [exact Ht|]. unfold stamp_le. intros E. by rewrite E in El.
  - intros [Hs He]. split.
    + intros y E. destruct a as [x|], s as [z|]; simplify_eq; auto. destruct (is_lt _); auto.
    + intros y E. destruct b as [x|], e as [z|]; simplify_eq; auto. destruct (is_gt _); auto.
Qed.

(** The interval a correction of [u] claims when it is given the part of a
    bounded interval inside [u]. *)
Lemma clipped_correction u value reason ref observed now s e v :
  is_some s || is_some e = true → valid_covers u v = true →
  let clip := interval_intersection (mu_valid_from u) (mu_valid_to u) s e in
  let cp := {| cp_value := value; cp_reason := reason; cp_source_ref := ref;
               cp_observed_at := observed; cp_valid_from := clip.1; cp_valid_to := clip.2 |} in
  interval_covers (correction_start u cp now) (correction_end u cp) v = interval_covers s e v.
Proof.
  intros Hb Hu clip cp.
  assert (correction_start u cp now = clip.1 ∧ correction_end u cp = clip.2) as [-> ->].
  { unfold correction_start, correction_end, cp, clip, interval_intersection. cbn.
    by destruct (mu_valid_from u), (mu_valid_to u), s, e. }
  apply valid_covers_interval in Hu.
  apply eq_true_iff_eq. rewrite !interval_covers_spec. by apply intersection_covers.
Qed.

Lemma common_point_overlaps a b s e v :
  in_interval a b v → in_interval s e v → intervals_overlap a b s e = true.
Proof.
  intros [Ha Hb] [Hs He]. unfold intervals_overlap. apply andb_true_iff.
  split; apply start_before_end_spec; intros x y -> ->; eapply cmp_rfc3339_le_lt_trans;
    [by apply Ha|by apply He|by apply Hs|by apply Hb].
Qed.
End intervals.

(** ** What a key says *)

Section subject.
Context `{Jiff} `{Sha256} `{StrDebug} (a_recency : bool).
Context (new_unit_id : nat → UnitId) (new_edge_id : nat → EdgeId).
Context (input : ReflectInput) (now : string).
Context (key : string) (kind : MemoryKind.t).

(** The open units that state something about the key. *)
Definition speaks (u : StoredMemoryUnit) : bool :=
  on_key input key u && bool_decide (mu_state u = UnitState.Active) && bool_decide (mu_kind u = kind).

Definition said (units : list StoredMemoryUnit) (v : string) : list string :=
  answers (retain speaks units) v.

Lemma said_app l k v : said (l ++ k) v = said l v ++ said k v.
Proof. unfold said, answers. by rewrite !retain_app, map_app. Qed.

Lemma said_cons u l v :
  said (u :: l) v = (if speaks u && valid_covers u v then [mu_body u] else []) ++ said l v.
Proof.
  unfold said, answers. rewrite retain_cons. destruct (speaks u); [|done]. rewrite retain_cons.
  by destruct (valid_covers u v).
Qed.

Lemma said_silent l v :
  (∀ u, u ∈ l → speaks u = true → valid_covers u v = false) → said l v = [].
Proof.
  intros Hl. unfold said, answers. rewrite (retain_none _ (retain speaks l)); [done|].
  intros u [Hu Hs]%elem_of_retain. auto.
Qed.

Lemma said_in u l v : u ∈ l → speaks u = true → valid_covers u v = true → mu_body u ∈ said l v.
Proof.
  intros Hu Hs Hv. unfold said, answers. apply list_elem_of_fmap_2, elem_of_retain.
  split; [|done]. by apply elem_of_retain.
Qed.

(** A closed unit is silent; the others say what they said. *)
Lemma said_close l i u v : l !! i = Some u → speaks u = true →
  said l v ≡ₚ (if valid_covers u v then [mu_body u] else []) ++
              said (alter (close_unit UnitState.Superseded now) i l) v.
Proof.
  revert i. induction l as [|w l IH]; intros [|i]; cbn [lookup]; [done|done|..].
  - intros [= ->] Hs. change (alter ?f 0%nat (u :: l)) with (f u :: l).
    rewrite !said_cons, Hs. cbn [andb]. unfold speaks. cbn.
    by rewrite (bool_decide_false (_ = UnitState.Active)), andb_false_r.
  - intros Hi Hs. change (alter ?f (S i) (w :: l)) with (w :: alter f i l).
    rewrite !said_cons, (IH i Hi Hs). rewrite !app_assoc. f_equiv. apply Permutation_app_comm.
Qed.

(** ** One unit gives way *)

Notation supersede := (supersede_one new_unit_id new_edge_id input now).
Notation said_by st v := (said (co_working st) v).

Lemma remainders_speak u cp sr oa actor ids repl rems : speaks u = true →
  correction_rectangles_with_ids u cp sr oa actor now ids = Ok (repl, rems) →
  ∀ r, r ∈ rems → speaks r = true.
Proof.
  intros Hu (_ & _ & _ & _ & _ & _ & _ & _ & id1 & id2 & ->)%correction_ok_inv r Hr.
  assert (∀ id from to, speaks (generation actor now u id (mu_body u) from to) = true) as Hg.
  { intros. unfold speaks, on_key in *. cbn. bool_prop.
    by repeat (apply andb_true_iff; split); try apply N.eqb_eq; try apply bool_decide_eq_true. }
  apply elem_of_app in Hr as [Hr|Hr]; [destruct (start_lt _ _)|destruct (end_lt _ _)];
    try (by apply elem_of_nil in Hr); apply list_elem_of_singleton in Hr as ->; apply Hg.
Qed.

Lemma said_remainders u cp sr oa actor ids repl rems v : speaks u = true →
  correction_rectangles_with_ids u cp sr oa actor now ids = Ok (repl, rems) →
  said rems v = if valid_covers repl v then [] else if valid_covers u v then [mu_body u] else [].
Proof.
  intros Hu Hr. unfold said. rewrite (retain_all speaks) by (by eapply remainders_speak).
  destruct (valid_covers repl v) eqn:Ec.
  - unfold answers. by rewrite (correction_answers_inside _ _ _ _ _ _ _ _ _ _ Hr Ec).
  - unfold answers. by rewrite (correction_answers_outside _ _ _ _ _ _ _ _ _ _ Hr Ec).
Qed.

(** What a superseded unit leaves: the unit closed, its remainders, and the
    interval [repl] that is taken from it. *)
Lemma supersede_one_inv candidate st unit i u st' unit' : co_working st !! i = Some u →
  supersede candidate (st, unit) i = Ok (st', unit') → ∃ cp ids repl rems,
  correction_rectangles_with_ids u cp (rx_source_ref input) (rx_observed_at input)
    (rx_actor_id input) now ids = Ok (repl, rems) ∧
  co_working st' = alter (close_unit UnitState.Superseded now) i (co_working st) ++ rems ∧
  if bounded candidate
  then unit' = unit ∧ ∀ v, valid_covers u v = true →
    valid_covers repl v = interval_covers (cd_valid_from candidate) (cd_valid_to candidate) v
  else unit' = unit <| mu_valid_from := mu_valid_from repl |>
                    <| mu_valid_to := mu_valid_to repl |> ∧
       cp_valid_from cp = mu_valid_from unit ∧ cp_valid_to cp = mu_valid_to unit.
Proof.
  intros Hu. unfold supersede_one. rewrite Hu.
  destruct (if bounded candidate then _ else _) as [from to] eqn:Eb.
  intros (((repl & rems) & st2) & Hr & Hok)%result_bind_ok. injection Hok as <- <-.
  unfold correction_rectangles in Hr.
  destruct (correction_rectangles_with_ids _ _ _ _ _ _ _) as [[repl' rems']|] eqn:Ec in Hr; [|done].
  injection Hr as -> -> <-. do 4 eexists. split; [exact Ec|]. split.
  - cbn. by rewrite keep_remainders_working.
  - unfold bounded in *. destruct (is_some _ || is_some _) eqn:Ebd.
    + split; [done|]. intros v Hv.
      destruct (correction_ok_inv _ _ _ _ _ _ _ _ _ Ec) as (Hf & Ht & _).
      unfold valid_covers at 1. rewrite Hf, Ht.
      rewrite <-(clipped_correction u (mu_body unit) "reflect_supersedence" (rx_source_ref input)
                   (rx_observed_at input) now _ _ v Ebd Hv). by rewrite Eb.
    + injection Eb as <- <-. done.
Qed.

(** Under a bounded candidate the unit's answers outside the claimed interval
    stay, and it has none left inside. *)
Lemma supersede_one_bounded candidate st unit i u st' unit' v : bounded candidate = true →
  co_working st !! i = Some u → speaks u = true →
  supersede candidate (st, unit) i = Ok (st', unit') →
  let claimed := interval_covers (cd_valid_from candidate) (cd_valid_to candidate) v in
  unit' = unit ∧ (claimed = false → said_by st' v ≡ₚ said_by st v) ∧
  (claimed = true → ∀ j w, co_working st' !! j = Some w → speaks w = true →
     valid_covers w v = true → j ≠ i ∧ co_working st !! j = Some w).
Proof.
  intros Hb Hu Hs Hok claimed. subst claimed.
  destruct (supersede_one_inv _ _ _ _ _ _ _ Hu Hok) as (cp & ids & repl & rems & Hr & Hw & Hcase).
  rewrite Hb in Hcase. destruct Hcase as [-> Hc]. split; [done|]. split.
  - intros Hout. rewrite Hw, said_app, (said_close _ _ _ v Hu Hs), (said_remainders _ _ _ _ _ _ _ _ v Hs Hr).
    rewrite Permutation_app_comm. f_equiv. destruct (valid_covers u v) eqn:Ev.
    + by rewrite Hc, Hout.
    + by destruct (valid_covers repl v).
  - intros Hin j w Hj Hsw Hv. rewrite Hw in Hj. apply lookup_app_Some in Hj as [Hj|[_ Hj]].
    + destruct (decide (j = i)) as [->|Hne].
      * rewrite list_lookup_alter_eq, Hu in Hj. injection Hj as <-. unfold speaks in Hsw. by bool_prop.
      * rewrite list_lookup_alter_ne in Hj by done. done.
    + exfalso. apply list_elem_of_lookup_2 in Hj.
      pose proof (said_in w rems v Hj Hsw Hv) as Hsaid.
      rewrite (said_remainders _ _ _ _ _ _ _ _ v Hs Hr) in Hsaid.
      destruct (valid_covers u v) eqn:Ev; [rewrite Hc, Hin in Hsaid by done|]; [set_solver|].
      destruct (valid_covers repl v); set_solver.
Qed.

Definition all_speak (st : Compilation) (indices : list nat) : Prop :=
  NoDup indices ∧ ∀ i, i ∈ indices → ∃ u, co_working st !! i = Some u ∧ speaks u = true.

Lemma all_speak_step candidate st unit i u st' unit' indices : co_working st !! i = Some u →
  supersede candidate (st, unit) i = Ok (st', unit') →
  all_speak st (i :: indices) → all_speak st' indices.
Proof.
  intros Hu Hok [[Hi Hnd]%NoDup_cons Hall]. split; [done|]. intros j Hj.
  destruct (Hall j) as (w & Hw & Hs); [by apply list_elem_of_further|]. exists w. split; [|done].
  destruct (supersede_one_inv _ _ _ _ _ _ _ Hu Hok) as (cp & ids & repl & rems & _ & -> & _).
  rewrite lookup_app_l by (rewrite length_alter; by eapply lookup_lt_Some).
  rewrite list_lookup_alter_ne; [done|congruence].
Qed.

Lemma supersede_all_bounded candidate indices st unit st' unit' v : bounded candidate = true →
  all_speak st indices → try_fold (supersede candidate) (st, unit) indices = Ok (st', unit') →
  let claimed := interval_covers (cd_valid_from candidate) (cd_valid_to candidate) v in
  unit' = unit ∧ (claimed = false → said_by st' v ≡ₚ said_by st v) ∧
  (claimed = true → ∀ j w, co_working st' !! j = Some w → speaks w = true →
     valid_covers w v = true → j ∉ indices ∧ co_working st !! j = Some w).
Proof.
  intros Hb Hall Hok claimed. subst claimed. revert st unit Hall Hok.
  induction indices as [|i indices IH]; intros st unit Hall; cbn [try_fold].
  - intros [= <- <-]. split_and!; [done..|]. intros. split; [set_solver|done].
  - intros ([st1 unit1] & G1 & G2)%result_bind_ok.
    destruct (proj2 Hall i) as (u & Hu & Hs); [by apply list_elem_of_here|].
    destruct (supersede_one_bounded _ _ _ _ _ _ _ v Hb Hu Hs G1) as (-> & Hout1 & Hin1).
    destruct (IH _ _ (all_speak_step _ _ _ _ _ _ _ _ Hu G1 Hall) G2) as (-> & Hout2 & Hin2).
    split_and!; [done|intros Hc; by rewrite Hout2, Hout1|].
    intros Hc j w Hj Hsw Hv. destruct (Hin2 Hc j w Hj Hsw Hv) as [Hni Hj1].
    destruct (Hin1 Hc j w Hj1 Hsw Hv) as [Hne Hj0]. split; [|done]. by apply not_elem_of_cons.
Qed.

Lemma closes_speaks candidate u :
  closes input now candidate key (Some kind) u = speaks u && candidate_targets_unit candidate u now.
Proof.
  unfold closes, speaks. do 2 f_equal. apply bool_decide_ext. naive_solver.
Qed.

Lemma indices_where_speak candidate st :
  all_speak st (indices_where (closes input now candidate key (Some kind)) (co_working st)).
Proof.
  split; [apply NoDup_retain, NoDup_seq|]. intros i [_ Hi]%elem_of_retain.
  destruct (co_working st !! i) as [u|]; [|done]. exists u. split; [done|].
  rewrite closes_speaks in Hi. by bool_prop.
Qed.

Lemma elem_of_indices_where p l i :
  i ∈ indices_where p l ↔ ∃ u, l !! i = Some u ∧ p u = true.
Proof.
  unfold indices_where. rewrite elem_of_retain, elem_of_seq. split.
  - intros [_ Hi]. destruct (l !! i) as [u|]; [by exists u|done].
  - intros (u & Hu & Hp). rewrite Hu. split; [|done]. apply lookup_lt_Some in Hu. lia.
Qed.

(** *** The generation gives way *)

(** At most one answer at any valid instant. *)
Definition exclusive (units : list StoredMemoryUnit) : Prop :=
  ∀ v, (length (said units v) <= 1)%nat.

Notation close_generation := (close_open_generation new_unit_id new_edge_id input now).

Lemma close_said_bounded candidate st unit closed st' unit' v :
  bounded candidate = true → cd_target_unit_ids candidate = None →
  mu_valid_from unit = cd_valid_from candidate → mu_valid_to unit = cd_valid_to candidate →
  close_generation st candidate key (Some kind) [] unit = Ok (closed, st', unit') →
  unit' = unit ∧ said_by st' v ≡ₚ if valid_covers unit v then [] else said_by st v.
Proof.
  intros Hb Ht Hf Hto. unfold close_open_generation, generation_indices, untargeted.
  rewrite Hb, Ht. cbn [negb is_some andb].
  intros ([st1 unit1] & Hok & [= _ <- <-])%result_bind_ok.
  destruct (supersede_all_bounded _ _ _ _ _ _ v Hb (indices_where_speak candidate st) Hok)
    as (-> & Hout & Hin). split; [done|].
  unfold valid_covers at 1. rewrite Hf, Hto. destruct (interval_covers _ _ v) eqn:Ec; [|by apply Hout].
  rewrite said_silent; [done|]. intros w [j Hj]%list_elem_of_lookup Hs. apply not_true_iff_false.
  intros Hv. destruct (Hin eq_refl j w Hj Hs Hv) as [Hni Hj0]. apply Hni.
  apply elem_of_indices_where. exists w. split; [done|]. rewrite closes_speaks, Hs. cbn [andb].
  unfold candidate_targets_unit. rewrite Hb. cbn [negb].
  apply valid_covers_interval in Hv. apply interval_covers_spec in Ec.
  by eapply common_point_overlaps.
Qed.

Lemma supersede_one_current candidate st unit i u st' unit' : bounded candidate = false →
  mu_valid_from unit = None → mu_valid_to unit = None → exclusive (co_working st) →
  co_working st !! i = Some u → speaks u = true → valid_covers u now = true →
  supersede candidate (st, unit) i = Ok (st', unit') →
  revalidated unit unit' ∧
  ∀ v, said_by st' v ≡ₚ if valid_covers unit' v then [] else said_by st v.
Proof.
  intros Hb Hf Ht Hex Hu Hs Hnow Hok.
  destruct (supersede_one_inv _ _ _ _ _ _ _ Hu Hok) as (cp & ids & repl & rems & Hr & Hw & Hcase).
  rewrite Hb in Hcase. destruct Hcase as (-> & Ecf & Ect). split; [by do 2 eexists|]. intros v.
  destruct (correction_ok_inv _ _ _ _ _ _ _ _ _ Hr) as (Erf & Ert & _).
  assert (∀ v, valid_covers repl v = true → valid_covers u v = true) as Hsub.
  { intros w. rewrite !valid_covers_interval, Erf, Ert. unfold correction_start, correction_end.
    rewrite Ecf, Ect, Hf, Ht. apply valid_covers_interval in Hnow as [Hn _]. intros [Hw1 Hw2].
    split; [|done]. intros x Hx. etrans; [by apply Hn|by apply Hw1]. }
  change (valid_covers (unit <| mu_valid_from := mu_valid_from repl |>
    <| mu_valid_to := mu_valid_to repl |>) v) with (valid_covers repl v).
  specialize (Hex v). pose proof (said_close _ _ _ v Hu Hs) as Hsaid.
  rewrite Hw, said_app, (said_remainders _ _ _ _ _ _ _ _ v Hs Hr).
  destruct (valid_covers repl v) eqn:Ev.
  - rewrite Hsaid, (Hsub v Ev) in Hex. cbn in Hex.
    destruct (said (alter _ _ _) v); [done|cbn in Hex; lia].
  - rewrite Hsaid. apply Permutation_app_comm.
Qed.

(** The key has an answer for now, or none at all. *)
Definition current (units : list StoredMemoryUnit) : Prop :=
  said units now ≠ [] ∨ ∀ v, said units v = [].

Lemma close_said_unbounded candidate st unit closed st' unit' :
  bounded candidate = false → cd_target_unit_ids candidate = None →
  mu_valid_from unit = None → mu_valid_to unit = None →
  exclusive (co_working st) → current (co_working st) →
  close_generation st candidate key (Some kind) [] unit = Ok (closed, st', unit') →
  revalidated unit unit' ∧ ∀ v, said_by st' v ≡ₚ if valid_covers unit' v then [] else said_by st v.
Proof.
  intros Hb Ht Hf Hto Hex Hcur. unfold close_open_generation, generation_indices, untargeted.
  rewrite Hb, Ht. cbn [negb is_some andb].
  intros ([st1 unit1] & Hok & [= _ <- <-])%result_bind_ok.
  destruct (indices_where _ _) as [|i indices] eqn:Ei; cbn [take try_fold] in Hok.
  - injection Hok as <- <-. split; [apply revalidated_refl|]. intros v.
    assert (said_by st now = []) as Hnow.
    { apply said_silent. intros u [j Hj]%list_elem_of_lookup Hs. apply not_true_iff_false. intros Hv.
      assert (j ∈ indices_where (closes input now candidate key (Some kind)) (co_working st)) as Hin.
      { apply elem_of_indices_where. exists u. split; [done|]. rewrite closes_speaks, Hs.
        unfold candidate_targets_unit. by rewrite Hb. }
      rewrite Ei in Hin. set_solver. }
    destruct Hcur as [?|Hnone]; [done|]. rewrite Hnone. by destruct (valid_covers unit v).
  - rewrite take_0 in Hok. apply result_bind_ok in Hok as ([st2 unit2] & Hone & [= -> ->]).
    assert (i ∈ indices_where (closes input now candidate key (Some kind)) (co_working st)) as Hin
      by (rewrite Ei; apply list_elem_of_here).
    apply elem_of_indices_where in Hin as (u & Hu & Hc). rewrite closes_speaks in Hc. bool_prop.
    unfold candidate_targets_unit in *. rewrite Hb in *. by eapply supersede_one_current.
Qed.

(** *** The statement is heard *)

Definition states (candidate : ReflectCandidate) (state : UnitState.t) (id : UnitId)
    : StoredMemoryUnit := minted_unit input now id kind state key candidate.

Lemma append_said candidate st st' action : bounded candidate = true ∨
    exclusive (co_working st) ∧ current (co_working st) →
  cd_target_unit_ids candidate = None →
  append_closing new_unit_id new_edge_id input now true candidate key (Some kind) []
    (states candidate UnitState.Active (fst (mint new_unit_id st))) (snd (mint new_unit_id st)) =
    Ok (st', action) →
  ∃ unit, unit ∈ co_working st' ∧
    revalidated (states candidate UnitState.Active (fst (mint new_unit_id st))) unit ∧
    (bounded candidate = true →
       mu_valid_from unit = cd_valid_from candidate ∧ mu_valid_to unit = cd_valid_to candidate) ∧
    ∀ v, said_by st' v ≡ₚ if valid_covers unit v then [cd_body candidate] else said_by st v.
Proof.
  intros Hcase Ht. unfold append_closing. set (unit := states _ _ _).
  intros (((closed & st1) & unit1) & Hc & Hok)%result_bind_ok. injection Hok as <- _.
  assert (revalidated unit unit1 ∧
    (bounded candidate = true → unit1 = unit) ∧
    ∀ v, said_by st1 v ≡ₚ if valid_covers unit1 v then [] else said_by st v) as (R & Hb & Hsaid).
  { destruct (bounded candidate) eqn:Eb.
    - assert (∀ v, unit1 = unit ∧ said_by st1 v ≡ₚ if valid_covers unit v then [] else said_by st v)
        as Hv by (intros v; by eapply (close_said_bounded candidate (snd (mint new_unit_id st)))).
      destruct (Hv now) as [-> _]. split; [apply revalidated_refl|]. split; [done|]. apply Hv.
    - destruct Hcase as [?|[Hex Hcur]]; [done|].
      assert (cd_valid_from candidate = None ∧ cd_valid_to candidate = None) as [Hf Hto].
      { unfold bounded in Eb. by destruct (cd_valid_from candidate), (cd_valid_to candidate). }
      eapply (close_said_unbounded candidate (snd (mint new_unit_id st))) in Hc as [R Hs]; done. }
  exists unit1. split; [cbn; set_solver|]. split; [done|]. split; [by intros ->%Hb|]. intros v.
  destruct R as (from & to & ->).
  set (said_unit := unit <| mu_valid_from := from |> <| mu_valid_to := to |>) in *.
  change (co_working (push_unit said_unit st1)) with (co_working st1 ++ [said_unit]).
  rewrite said_app, said_cons, (Hsaid v).
  assert (speaks said_unit = true) as ->.
  { unfold speaks, on_key. cbn. by rewrite N.eqb_refl, !bool_decide_true. }
  cbn [andb]. destruct (valid_covers said_unit v); [done|]. unfold said at 2. cbn. by rewrite app_nil_r.
Qed.

(** A trusted statement about an explicit subject, of a kind that supersedes
    itself, that names no targets and repeats no open unit. *)
Record statement (st : Compilation) (candidate : ReflectCandidate) : Prop := {
  sm_key : fact_key_of input candidate = key;
  sm_kind : default MemoryKind.Semantic (cd_kind candidate) = kind;
  sm_supersedes : supersedes_own_kind a_recency kind = Some kind;
  sm_trust : is_high_trust (cd_trust_level candidate) = true;
  sm_subject : has_explicit_subject candidate = true;
  sm_hint : cd_admission_hint candidate ∉
    [Some AdmissionAction.Invalidate; Some AdmissionAction.Quarantine];
  sm_targets : cd_target_unit_ids candidate = None;
  sm_capture : cd_capture candidate = None;
  sm_meant : reject_compiler_candidate_as_noise candidate = false;
  sm_new : find (repeats input now candidate key) (co_working st) = None;
}.

Lemma statement_appends st candidate : statement st candidate →
  admit_candidate a_recency new_unit_id new_edge_id input now st candidate =
  append_closing new_unit_id new_edge_id input now true candidate key (Some kind) []
    (states candidate UnitState.Active (fst (mint new_unit_id st))) (snd (mint new_unit_id st)).
Proof.
  intros [Hkey Hkind Hsup Htrust Hsub Hhint Htg Hcap Hmeant Hnew].
  unfold admit_candidate, targeted_indices, admit_same_channel_capture.
  rewrite Hmeant, Htg, Hcap, Hkey, Hnew, Htrust. cbn [result_bind mbind option_bind].
  unfold admit_trusted. rewrite Hkind, Hsup, Hsub, Htg. cbn [is_some orb andb].
  destruct (cd_admission_hint candidate) as [[]|]; (done || set_solver).
Qed.

(** C3: a trusted statement takes the valid time it claims: when it names its
    bounds, or its key has an answer for now or none at all, then after its
    admission the key says the new body, and nothing else, throughout the
    interval of the new unit - the candidate's, or from now to the end of the
    unit it replaces - and at every other instant what it said before.  So a
    key with at most one answer at each instant keeps at most one. *)
Theorem trusted_statement_takes_its_interval st candidate st' action :
  statement st candidate →
  exclusive (co_working st) → bounded candidate = true ∨ current (co_working st) →
  admit_candidate a_recency new_unit_id new_edge_id input now st candidate = Ok (st', action) →
  (∃ unit, unit ∈ co_working st' ∧ mu_body unit = cd_body candidate ∧
     mu_trust_level unit = cd_trust_level candidate ∧
     (bounded candidate = true →
        mu_valid_from unit = cd_valid_from candidate ∧ mu_valid_to unit = cd_valid_to candidate) ∧
     ∀ v, said_by st' v ≡ₚ if valid_covers unit v then [cd_body candidate] else said_by st v) ∧
  exclusive (co_working st').
Proof.
  intros Hst Hex Hcase. rewrite (statement_appends _ _ Hst). intros Hok.
  destruct (append_said candidate st st' action) as (unit & Hu & (from & to & Er) & Hb & Hs);
    [tauto|apply Hst|done|].
  split.
  - exists unit. split_and!; [done|by rewrite Er|by rewrite Er|done|done].
  - intros v. rewrite (Hs v). destruct (valid_covers unit v); [done|apply Hex].
Qed.
End subject.
