(* ===== verification/Dates.v ===== *)
(** * Dates: calendar dates in text and the windows of a query

    The date parsers of [crates/memphant-core/src/lib.rs]: the first calendar
    date of a text, and the day, month or year window a query names.  Civil
    dates are the [jiff] crate's: an interface, with its documented behaviour
    as laws.  The theorems follow the definitions. *)

From S2P Require Import Prelude Text Types Float Clock Bitemporal TextFacts Chunks Render Gate.

Class Calendar := {
  Date : Set;
  (** [Date::new]. *)
  date_new : Z → Z → Z → option Date;
  date_tomorrow : Date → option Date;
  (** [to_string]. *)
  date_string : Date → string;
}.

Section dates.
Context `{Calendar}.
Implicit Types (bytes text : list N).

Definition civil_date_of (year month day : N) : option Date :=
  if (year <=? 32767) && (month <=? 127) && (day <=? 127)
  then date_new (Z.of_N year) (Z.of_N month) (Z.of_N day) else None.

Definition midnight_utc (date : Date) : string := date_string date +:+ "T00:00:00Z".

Definition MONTHS : list (string * string * N) := [
  ("january", "jan", 1); ("february", "feb", 2); ("march", "mar", 3); ("april", "apr", 4);
  ("may", "may", 5); ("june", "jun", 6); ("july", "jul", 7); ("august", "aug", 8);
  ("september", "sep", 9); ("october", "oct", 10); ("november", "nov", 11);
  ("december", "dec", 12)].

Definition month_from_name (word : list N) : option N :=
  let word := string_of_bytes (map ascii_lower word) in
  match find (λ '(full, abbr, number),
          bool_decide (word = full) || bool_decide (word = abbr) ||
          ((number =? 9) && bool_decide (word = "sept"))) MONTHS with
  | Some (_, _, number) => Some number
  | None => None
  end.

(** The digits at the head of [l], at most [max] of them: value and count. *)
Fixpoint take_digits (max : nat) (l : list N) (value : N) (count : nat) : N * nat :=
  match max, l with
  | S max, b :: l =>
      if is_digit b then take_digits max l (value * 10 + (b - 48)) (S count) else (value, count)
  | _, _ => (value, count)
  end.

Definition ascii_digits bytes (start min max : nat) : option (N * nat) :=
  let '(value, count) := take_digits max (drop start bytes) 0 0 in
  if (min <=? count)%nat then Some (value, count) else None.

Definition is_ascii_whitespace (b : N) : bool :=
  (b =? 32) || (b =? 9) || (b =? 10) || (b =? 12) || (b =? 13).

Fixpoint count_while (p : N → bool) (l : list N) : nat :=
  match l with
  | b :: l => if p b then S (count_while p l) else 0
  | [] => 0
  end.

Definition skip_required_spaces bytes (start : nat) : option nat :=
  match count_while is_ascii_whitespace (drop start bytes) with
  | 0%nat => None
  | n => Some (start + n)%nat
  end.

Definition byte_at (p : N → bool) bytes (i : nat) : bool :=
  match bytes !! i with Some b => p b | None => false end.

(** [p] of the byte before [at]. *)
Definition byte_before (p : N → bool) bytes (at_ : nat) : bool :=
  match at_ with S i => byte_at p bytes i | 0%nat => false end.

Definition no_leading_digit bytes (at_ : nat) : bool := negb (byte_before is_digit bytes at_).
Definition no_trailing_digit bytes (at_ : nat) : bool := negb (byte_at is_digit bytes at_).

Definition numeric_date_at bytes (i : nat) : option (Date * nat) :=
  if negb (no_leading_digit bytes i) then None
  else
    '(year, ylen) ← ascii_digits bytes i 4 4;
    let pos := (i + ylen)%nat in
    separator ← bytes !! pos;
    if negb (separator =? 45) && negb (separator =? 47) then None
    else
      let pos := S pos in
      '(month, mlen) ← ascii_digits bytes pos 1 2;
      let pos := (pos + mlen)%nat in
      next ← bytes !! pos;
      if negb (next =? separator) then None
      else
        let pos := S pos in
        '(day, dlen) ← ascii_digits bytes pos 1 2;
        let pos := (pos + dlen)%nat in
        if negb (no_trailing_digit bytes pos) then None
        else
          date ← civil_date_of year month day;
          Some (date, pos).

Definition is_ascii_alphabetic (b : N) : bool :=
  ((65 <=? b) && (b <=? 90)) || ((97 <=? b) && (b <=? 122)).

(** The month named at [i], on a word boundary, and the position after the
    spaces that follow it. *)
Definition month_word_at text (i : nat) : option (N * nat) :=
  if byte_before is_ascii_alphabetic text i then None
  else
    rest ← get_slice text i (length text);
    let word_len := count_while is_ascii_alphabetic rest in
    month ← month_from_name (take word_len rest);
    pos ← skip_required_spaces text (i + word_len);
    Some (month, pos).

Definition month_name_date_at text (i : nat) : option (Date * nat) :=
  '(month, pos) ← month_word_at text i;
  '(day, dlen) ← ascii_digits text pos 1 2;
  let pos := (pos + dlen)%nat in
  let pos := if byte_at (N.eqb 44) text pos then S pos else pos in
  pos ← skip_required_spaces text pos;
  '(year, ylen) ← ascii_digits text pos 4 4;
  let end_ := (pos + ylen)%nat in
  if negb (no_trailing_digit text end_) then None
  else
    date ← civil_date_of year month day;
    Some (date, end_).

Definition month_year_at text (i : nat) : option (N * N * nat) :=
  '(month, pos) ← month_word_at text i;
  '(year, ylen) ← ascii_digits text pos 4 4;
  let end_ := (pos + ylen)%nat in
  if negb (no_trailing_digit text end_) then None
  else
    _ ← civil_date_of year month 1;
    Some (year, month, end_).

Definition year_only_at bytes (i : nat) : option (N * nat) :=
  if byte_before is_ascii_alphanumeric bytes i then None
  else
    '(year, ylen) ← ascii_digits bytes i 4 4;
    let end_ := (i + ylen)%nat in
    if byte_at is_ascii_alphanumeric bytes end_ then None
    else if negb ((1000 <=? year) && (year <=? 2999)) then None
    else
      _ ← civil_date_of year 1 1;
      Some (year, end_).

(** The first position of [l] where [f] finds something. *)
Fixpoint first_at {A B} (f : A → option B) (l : list A) : option B :=
  match l with
  | i :: l => match f i with Some b => Some b | None => first_at f l end
  | [] => None
  end.

Definition char_positions text : list nat :=
  retain (is_char_boundary text) (seq 0 (length text)).

Definition full_date_at text (i : nat) : option Date :=
  match numeric_date_at text i with
  | Some (date, _) => Some date
  | None => fst <$> month_name_date_at text i
  end.

Definition parse_content_date text : option Date := first_at (full_date_at text) (char_positions text).

Definition month_window (year month : N) : option DateWindow :=
  start ← civil_date_of year month 1;
  let '(next_year, next_month) := if month =? 12 then (year + 1, 1) else (year, month + 1) in
  end_ ← civil_date_of next_year next_month 1;
  Some (mkDateWindow (midnight_utc start) (midnight_utc end_)).

Definition year_window (year : N) : option DateWindow :=
  start ← civil_date_of year 1 1;
  end_ ← civil_date_of (year + 1) 1 1;
  Some (mkDateWindow (midnight_utc start) (midnight_utc end_)).

Definition day_window (date : Date) : option DateWindow :=
  end_ ← date_tomorrow date;
  Some (mkDateWindow (midnight_utc date) (midnight_utc end_)).

Definition extract_query_date text : option DateWindow :=
  match parse_content_date text with
  | Some date => day_window date
  | None =>
      match first_at (month_year_at text) (char_positions text) with
      | Some (year, month, _) => month_window year month
      | None => '(year, _) ← first_at (year_only_at text) (seq 0 (length text)); year_window year
      end
  end.
End dates.

(** * Dates read back, and windows are exact

    A date written in a text is found and read back; the window of a query's
    day, month or year admits exactly the midnights of that day, month or
    year. *)

(** ** The Gregorian calendar *)

Definition leap (y : Z) : bool :=
  ((y mod 4 =? 0) && negb (y mod 100 =? 0) || (y mod 400 =? 0))%Z.

Definition month_days (y m : Z) : Z :=
  (if m =? 2 then if leap y then 29 else 28
   else if (m =? 4) || (m =? 6) || (m =? 9) || (m =? 11) then 30 else 31)%Z.

Definition valid_civil (y m d : Z) : Prop :=
  (-9999 <= y <= 9999 ∧ 1 <= m <= 12 ∧ 1 <= d <= month_days y m)%Z.

(** Days before month [m] of a year, and the number of a day. *)
Fixpoint days_to_month (y : Z) (n : nat) : Z :=
  match n with
  | O => 0
  | S n => (days_to_month y n + month_days y (Z.of_nat n + 1))%Z
  end.

Definition day_number (y m d : Z) : Z :=
  (365 * (y - 1) + (y - 1) / 4 - (y - 1) / 100 + (y - 1) / 400 +
   days_to_month y (Z.to_nat (m - 1)) + d)%Z.

(** The last [width] decimal digits of [n]. *)
Fixpoint pad (width : nat) (n : N) : list N :=
  match width with
  | O => []
  | S width => pad width (n / 10) ++ [48 + n mod 10]
  end.

(** Documented behaviour of [jiff]: a date is a valid Gregorian triple, printed
    [YYYY-MM-DD]; tomorrow is the next day; stamps at midnight are ordered as
    their days. *)
Class CalendarLaws `{Jiff} `{Calendar} := {
  date_fields : Date → Z * Z * Z;
  date_new_spec y m d t :
    date_new y m d = Some t ↔ valid_civil y m d ∧ date_fields t = (y, m, d);
  date_string_spec t y m d : date_fields t = (y, m, d) → (0 <= y)%Z →
    bytes_of (date_string t) =
      pad 4 (Z.to_N y) ++ [45] ++ pad 2 (Z.to_N m) ++ [45] ++ pad 2 (Z.to_N d);
  date_of_day t : Z := let '(y, m, d) := date_fields t in day_number y m d;
  tomorrow_spec t t' : date_tomorrow t = Some t' → date_of_day t' = (date_of_day t + 1)%Z;
  date_valid t : let '(y, m, d) := date_fields t in valid_civil y m d;
  midnight_order t t' : cmp_rfc3339 (midnight_utc t) (midnight_utc t') =
    (date_of_day t ?= date_of_day t')%Z;
}.

(** ** Days are ordered as their fields *)

Lemma month_days_bound y m : (28 <= month_days y m <= 31)%Z.
Proof. unfold month_days. repeat case_match; lia. Qed.

Lemma days_to_month_le y n : (0 <= days_to_month y n <= 31 * Z.of_nat n)%Z.
Proof.
  induction n as [|n IH]; cbn [days_to_month]; [lia|].
  pose proof (month_days_bound y (Z.of_nat n + 1)). lia.
Qed.

Lemma days_to_month_mono y n k : (n <= k)%nat → (days_to_month y n <= days_to_month y k)%Z.
Proof.
  induction 1 as [|k Hk IH]; [lia|]. cbn [days_to_month].
  pose proof (month_days_bound y (Z.of_nat k + 1)). lia.
Qed.

(** The days of the whole year. *)
Lemma days_of_year y : days_to_month y 12 = (if leap y then 366 else 365)%Z.
Proof. unfold days_to_month, month_days. by destruct (leap y). Qed.

Lemma div_succ x k : (0 < k)%Z →
  ((x + 1) / k = x / k + (if (x + 1) mod k =? 0 then 1 else 0))%Z.
Proof.
  intros Hk. destruct (Z.eqb_spec ((x + 1) mod k) 0); Z.to_euclidean_division_equations; nia.
Qed.

(** The first of the next year is the day after the last. *)
Lemma year_step y : day_number (y + 1) 1 1 = (day_number y 1 1 + days_to_month y 12)%Z.
Proof.
  unfold day_number. rewrite days_of_year. change (Z.to_nat (1 - 1)) with 0%nat.
  cbn [days_to_month]. unfold leap.
  replace (y + 1 - 1)%Z with (y - 1 + 1)%Z by lia.
  replace (y mod 4)%Z with ((y - 1 + 1) mod 4)%Z by (f_equal; lia).
  replace (y mod 100)%Z with ((y - 1 + 1) mod 100)%Z by (f_equal; lia).
  replace (y mod 400)%Z with ((y - 1 + 1) mod 400)%Z by (f_equal; lia).
  generalize (y - 1)%Z. intros x. rewrite !div_succ by lia.
  assert ((x + 1) mod 400 = 0 → (x + 1) mod 100 = 0)%Z as H1
    by (Z.to_euclidean_division_equations; lia).
  assert ((x + 1) mod 100 = 0 → (x + 1) mod 4 = 0)%Z as H2
    by (Z.to_euclidean_division_equations; lia).
  revert H1 H2. generalize ((x + 1) mod 4)%Z ((x + 1) mod 100)%Z ((x + 1) mod 400)%Z.
  intros a b c H1 H2. generalize (x / 4)%Z (x / 100)%Z (x / 400)%Z. intros q4 q100 q400.
  destruct (Z.eqb_spec a 0), (Z.eqb_spec b 0), (Z.eqb_spec c 0); cbn [andb orb negb];
    try lia; exfalso; auto.
Qed.

Lemma year_mono y k : (0 <= k)%Z → (day_number y 1 1 <= day_number (y + k) 1 1)%Z.
Proof.
  intros Hk. revert k Hk. apply natlike_ind; [by rewrite Z.add_0_r|]. intros k Hk IH.
  replace (y + Z.succ k)%Z with (y + k + 1)%Z by lia. rewrite year_step.
  pose proof (days_to_month_le (y + k) 12). lia.
Qed.

Definition next_month (y m : Z) : Z * Z := if (m =? 12)%Z then ((y + 1)%Z, 1%Z) else (y, (m + 1)%Z).

Lemma month_step y m : (1 <= m <= 12)%Z →
  let '(y', m') := next_month y m in day_number y' m' 1 = (day_number y m 1 + month_days y m)%Z.
Proof.
  intros Hm. unfold next_month. destruct (Z.eqb_spec m 12) as [->|Hne].
  - rewrite year_step. unfold day_number. change (Z.to_nat (12 - 1)) with 11%nat.
    change (Z.to_nat (1 - 1)) with 0%nat.
    change (days_to_month y 12) with (days_to_month y 11 + month_days y (Z.of_nat 11 + 1))%Z.
    cbn [days_to_month]. change (Z.of_nat 11 + 1)%Z with 12%Z. lia.
  - unfold day_number. replace (Z.to_nat (m + 1 - 1)) with (S (Z.to_nat (m - 1))) by lia.
    cbn [days_to_month]. replace (Z.of_nat (Z.to_nat (m - 1)) + 1)%Z with m by lia. lia.
Qed.

(** First days of months are ordered as the months. *)
Lemma month_mono y m y' m' : (1 <= m <= 12)%Z → (1 <= m' <= 12)%Z →
  (12 * y + m <= 12 * y' + m')%Z → (day_number y m 1 <= day_number y' m' 1)%Z.
Proof.
  intros Hm Hm' Hle. destruct (Z.eq_dec y y') as [->|Hne].
  - unfold day_number. pose proof (days_to_month_mono y' (Z.to_nat (m - 1)) (Z.to_nat (m' - 1))). lia.
  - pose proof (year_mono (y + 1) (y' - (y + 1)) ltac:(lia)) as Hy.
    replace (y + 1 + (y' - (y + 1)))%Z with y' in Hy by lia. rewrite year_step in Hy.
    unfold day_number in *. change (Z.to_nat (1 - 1)) with 0%nat in *.
    pose proof (days_to_month_mono y (Z.to_nat (m - 1)) 12 ltac:(lia)).
    pose proof (days_to_month_le y' (Z.to_nat (m' - 1))).
    change (days_to_month y 0) with 0%Z in *. change (days_to_month y' 0) with 0%Z in *. lia.
Qed.

Lemma day_split y m d : day_number y m d = (day_number y m 1 + (d - 1))%Z.
Proof. unfold day_number. lia. Qed.

(** A valid day lies in its month, and in no other. *)
Lemma day_in_month y m d y' m' : valid_civil y m d → (1 <= m' <= 12)%Z →
  let '(y'', m'') := next_month y' m' in
  (day_number y' m' 1 <= day_number y m d < day_number y'' m'' 1)%Z ↔ y = y' ∧ m = m'.
Proof.
  intros (_ & Hm & Hd) Hm'.
  pose proof (month_step y m Hm) as Hs. pose proof (month_step y' m' Hm') as Hs'.
  destruct (next_month y' m') as [y'' m''] eqn:En. rewrite (day_split y m d). split.
  - intros Hin. destruct (Z.lt_trichotomy (12 * y + m) (12 * y' + m')) as [Hlt|[Heq|Hlt]].
    + exfalso. destruct (next_month y m) as [z n] eqn:En'.
      assert (day_number z n 1 <= day_number y' m' 1)%Z; [|lia].
      apply month_mono; [| |]; unfold next_month in En'; destruct (Z.eqb_spec m 12);
        injection En' as <- <-; lia.
    + lia.
    + exfalso. assert (day_number y'' m'' 1 <= day_number y m 1)%Z; [|lia].
      apply month_mono; [| |]; unfold next_month in En; destruct (Z.eqb_spec m' 12);
        injection En as <- <-; lia.
  - intros [-> ->]. lia.
Qed.

Lemma first_valid y m : (-9999 <= y <= 9999)%Z → (1 <= m <= 12)%Z → valid_civil y m 1.
Proof. intros Hy Hm. pose proof (month_days_bound y m). by repeat split; lia. Qed.

Lemma first_at_some {A B} (f : A → option B) l b :
  first_at f l = Some b → ∃ i, i ∈ l ∧ f i = Some b.
Proof.
  induction l as [|i l IH]; cbn [first_at]; [done|]. destruct (f i) eqn:E; [|set_solver].
  intros [= ->]. exists i. split; [left|done].
Qed.

Section windows.
Context `{Jiff} `{Calendar} `{!CalendarLaws}.

Lemma civil_date_spec year month day t : civil_date_of year month day = Some t →
  valid_civil (Z.of_N year) (Z.of_N month) (Z.of_N day) ∧
  date_fields t = (Z.of_N year, Z.of_N month, Z.of_N day).
Proof. unfold civil_date_of. destruct (_ && _); [|done]. by intros [? ?]%date_new_spec. Qed.

Lemma date_day t y m d : date_fields t = (y, m, d) → date_of_day t = day_number y m d.
Proof. intros E. unfold date_of_day. by rewrite E. Qed.

Lemma date_fields_valid t y m d : date_fields t = (y, m, d) → valid_civil y m d.
Proof. intros E. pose proof (date_valid t) as Hv. by rewrite E in Hv. Qed.

(** The midnights of a window are those of its days. *)
Lemma in_window_days t a b :
  valid_from_in_window (midnight_utc t) (mkDateWindow (midnight_utc a) (midnight_utc b)) = true ↔
  (date_of_day a <= date_of_day t < date_of_day b)%Z.
Proof.
  unfold valid_from_in_window. cbn [dw_start dw_end]. rewrite !midnight_order.
  destruct (Z.compare_spec (date_of_day t) (date_of_day a)),
    (Z.compare_spec (date_of_day t) (date_of_day b)); cbn; split; intros; try done; lia.
Qed.

Lemma date_inj t t' : date_of_day t = date_of_day t' → t = t'.
Proof.
  destruct (date_fields t) as [[y m] d] eqn:E, (date_fields t') as [[y' m'] d'] eqn:E'.
  rewrite (date_day _ _ _ _ E), (date_day _ _ _ _ E'). intros Heq.
  pose proof (date_fields_valid _ _ _ _ E) as Hv. pose proof (date_fields_valid _ _ _ _ E') as Hv'.
  pose proof (day_in_month y m d y' m' Hv ltac:(apply Hv')) as Hin.
  pose proof (day_in_month y' m' d' y' m' Hv' ltac:(apply Hv')) as Hin'.
  destruct (next_month y' m') as [z n]. destruct Hin as [Hin _], Hin' as [_ Hin'].
  rewrite <-Heq in Hin'. destruct (Hin (Hin' (conj eq_refl eq_refl))) as [-> ->].
  assert (d = d') as -> by (rewrite (day_split y' m' d), (day_split y' m' d') in Heq; lia).
  assert (date_new y' m' d' = Some t) as Ht by (by apply date_new_spec).
  assert (date_new y' m' d' = Some t') as Ht' by (by apply date_new_spec). congruence.
Qed.

Lemma day_window_exact t w : day_window t = Some w →
  ∀ t', valid_from_in_window (midnight_utc t') w = true ↔ t' = t.
Proof.
  unfold day_window. intros Hw t'. destruct (date_tomorrow t) as [next|] eqn:En; [|done].
  injection Hw as <-. rewrite in_window_days, (tomorrow_spec _ _ En). split; [|intros ->; lia].
  intros. apply date_inj. lia.
Qed.

Lemma month_window_exact year month w : month_window year month = Some w →
  ∀ t' y m d, date_fields t' = (y, m, d) →
    valid_from_in_window (midnight_utc t') w = true ↔ y = Z.of_N year ∧ m = Z.of_N month.
Proof.
  unfold month_window. intros Hw t' y m d Ef.
  destruct (civil_date_of year month 1) as [start|] eqn:Es; [|done]. cbn in Hw.
  apply civil_date_spec in Es as [Hv Es].
  assert (∃ end_, w = mkDateWindow (midnight_utc start) (midnight_utc end_) ∧
    let '(y', m') := next_month (Z.of_N year) (Z.of_N month) in
    date_of_day end_ = day_number y' m' 1) as (end_ & -> & He).
  { unfold next_month. destruct (N.eqb_spec month 12) as [->|Hne];
      [rewrite Z.eqb_refl | destruct (Z.eqb_spec (Z.of_N month) 12); [lia|]];
      (destruct (civil_date_of _ _ 1) as [end_|] eqn:Ee in Hw; [|done]); injection Hw as <-;
      exists end_; (split; [done|]); apply civil_date_spec in Ee as [_ Ee];
      rewrite (date_day _ _ _ _ Ee); f_equal; lia. }
  rewrite in_window_days, (date_day _ _ _ _ Es), (date_day _ _ _ _ Ef).
  pose proof (day_in_month y m d (Z.of_N year) (Z.of_N month)
    (date_fields_valid _ _ _ _ Ef) ltac:(apply Hv)) as Hin.
  destruct (next_month _ _) as [y' m']. rewrite He. exact Hin.
Qed.

Lemma year_window_exact year w : year_window year = Some w →
  ∀ t' y m d, date_fields t' = (y, m, d) →
    valid_from_in_window (midnight_utc t') w = true ↔ y = Z.of_N year.
Proof.
  unfold year_window. intros Hw t' y m d Ef.
  destruct (civil_date_of year 1 1) as [start|] eqn:Es; [|done]. cbn in Hw.
  destruct (civil_date_of (year + 1) 1 1) as [end_|] eqn:Ee; [|done]. injection Hw as <-.
  apply civil_date_spec in Es as [_ Es], Ee as [_ Ee].
  rewrite in_window_days, (date_day _ _ _ _ Es), (date_day _ _ _ _ Ee), (date_day _ _ _ _ Ef).
  pose proof (date_fields_valid _ _ _ _ Ef) as (Hy & Hm & Hd).
  pose proof (month_step y m Hm) as Hs. destruct (next_month y m) as [y' m'] eqn:En.
  change (Z.of_N 1) with 1%Z. rewrite (day_split y m d). split.
  - intros Hin. destruct (Z.lt_trichotomy y (Z.of_N year)) as [Hlt|[Heq|Hlt]]; [exfalso|lia|exfalso].
    + assert (day_number y' m' 1 <= day_number (Z.of_N year) 1 1)%Z; [|lia].
      unfold next_month in En. destruct (Z.eqb_spec m 12); injection En as <- <-;
        apply month_mono; lia.
    + assert (day_number (Z.of_N (year + 1)) 1 1 <= day_number y m 1)%Z; [|lia].
      apply month_mono; lia.
  - intros ->. split.
    + assert (day_number (Z.of_N year) 1 1 <= day_number (Z.of_N year) m 1)%Z; [|lia].
      apply month_mono; lia.
    + assert (day_number y' m' 1 <= day_number (Z.of_N (year + 1)) 1 1)%Z; [|lia].
      unfold next_month in En. destruct (Z.eqb_spec m 12); injection En as <- <-;
        apply month_mono; lia.
Qed.

(** The window of a query is exact: the midnight of a date lies in it iff the
    date is the first full date of the query; without one, iff it is in the
    first month the query names; without one, iff it is in the first year. *)
Theorem query_window_exact text w : extract_query_date text = Some w →
  (∃ t, parse_content_date text = Some t ∧
     ∀ t', valid_from_in_window (midnight_utc t') w = true ↔ t' = t) ∨
  parse_content_date text = None ∧
  ((∃ year month p, first_at (month_year_at text) (char_positions text) = Some (year, month, p) ∧
      ∀ t' y m d, date_fields t' = (y, m, d) →
      valid_from_in_window (midnight_utc t') w = true ↔ y = Z.of_N year ∧ m = Z.of_N month) ∨
   first_at (month_year_at text) (char_positions text) = None ∧
   (∃ year p, first_at (year_only_at text) (seq 0 (length text)) = Some (year, p) ∧
      1000 <= year <= 2999 ∧ ∀ t' y m d, date_fields t' = (y, m, d) →
      valid_from_in_window (midnight_utc t') w = true ↔ y = Z.of_N year)).
Proof.
  unfold extract_query_date. destruct (parse_content_date text) as [t|].
  { intros Hw. left. exists t. split; [done|]. by apply day_window_exact. }
  destruct (first_at (month_year_at text) _) as [[[year month] p]|].
  { intros Hw. right. split; [done|]. left. exists year, month, p. split; [done|]. by apply month_window_exact. }
  destruct (first_at (year_only_at text) _) as [[year p]|] eqn:Ey; [|done]. cbn [mbind option_bind].
  intros Hw. right. split; [done|]. right. split; [done|]. exists year, p. split; [done|].
  split; [|by apply year_window_exact].
  apply first_at_some in Ey as (i & _ & Ey). unfold year_only_at in Ey.
  destruct (byte_before _ _ _); [done|]. destruct (ascii_digits text i 4 4) as [[v n]|]; [|done].
  cbn [mbind option_bind] in Ey. destruct (byte_at _ _ _); [done|].
  destruct ((1000 <=? v) && (v <=? 2999)) eqn:Er; [|done]. cbn [negb] in Ey.
  destruct (civil_date_of v 1 1); [|done]. injection Ey as -> _.
  apply andb_true_iff in Er as [?%N.leb_le ?%N.leb_le]. lia.
Qed.

(** ** A printed date reads back *)

Lemma pad_spec w n : n < 10 ^ N.of_nat w →
  length (pad w n) = w ∧ forallb is_digit (pad w n) = true ∧ digits_value (pad w n) = n.
Proof.
  revert n. induction w as [|w IH]; intros n Hn; [cbn in *; split_and!; try done; lia|].
  rewrite Nat2N.inj_succ, N.pow_succ_r' in Hn.
  assert (n / 10 < 10 ^ N.of_nat w) as Hq by (apply N.Div0.div_lt_upper_bound; lia).
  destruct (IH _ Hq) as (Hl & Hd & Hv). cbn [pad].
  pose proof (N.mod_lt n 10 ltac:(lia)) as Hm. pose proof (N.div_mod' n 10) as Hdm.
  split_and!.
  - rewrite length_app, Hl. simpl. lia.
  - rewrite forallb_app, Hd. cbn [forallb andb]. unfold is_digit. rewrite andb_true_r.
    clear -Hm. revert Hm. generalize (n mod 10). intros m Hm.
    apply andb_true_iff. rewrite !N.leb_le. lia.
  - rewrite digits_value_app, Hv. cbn [length]. unfold digits_value. cbn [foldl].
    change (10 ^ N.of_nat 1) with 10. clear -Hdm. revert Hdm. generalize (n mod 10) (n / 10). lia.
Qed.

Lemma take_digits_run max l rest v c :
  forallb is_digit l = true → (length l <= max)%nat →
  length l = max ∨ byte_at is_digit rest 0 = false →
  take_digits max (l ++ rest) v c = (v * 10 ^ N.of_nat (length l) + digits_value l, (c + length l)%nat).
Proof.
  revert max v c. induction l as [|b l IH]; intros max v c Hd Hl Hr; cbn [app].
  - cbn [length]. rewrite N.mul_1_r, Nat.add_0_r.
    change (digits_value []) with 0. rewrite N.add_0_r.
    destruct max as [|max]; [by destruct rest|]. destruct Hr as [Hr|Hr]; [done|].
    destruct rest as [|b rest]; [done|]. change (is_digit b = false) in Hr. cbn [take_digits]. by rewrite Hr.
  - cbn [forallb length] in *. apply andb_true_iff in Hd as [Hb Hd].
    destruct max as [|max]; [lia|]. cbn [take_digits].
    rewrite Hb, IH by (done || lia || (destruct Hr; [left; lia|by right])).
    f_equal; [|lia]. change (b :: l) with ([b] ++ l). rewrite digits_value_app.
    unfold digits_value at 2. cbn [foldl]. rewrite Nat2N.inj_succ, N.pow_succ_r'. lia.
Qed.

(** Digits at a position of a text. *)
Lemma ascii_digits_run pre l rest min max :
  forallb is_digit l = true → (min <= length l <= max)%nat →
  length l = max ∨ byte_at is_digit rest 0 = false →
  ascii_digits (pre ++ l ++ rest) (length pre) min max = Some (digits_value l, length l).
Proof.
  intros Hd Hl Hr. unfold ascii_digits. rewrite drop_app_length, take_digits_run by (done || lia).
  by destruct (Nat.leb_spec min (0 + length l)); [|lia].
Qed.

Lemma byte_at_app p pre l i : byte_at p (pre ++ l) (length pre + i) = byte_at p l i.
Proof. unfold byte_at. by rewrite lookup_app_r, Nat.add_comm, Nat.add_sub by lia. Qed.

Lemma numeric_date_reads pre suffix t year month day :
  byte_before is_digit pre (length pre) = false → byte_at is_digit suffix 0 = false →
  date_fields t = (Z.of_N year, Z.of_N month, Z.of_N day) →
  numeric_date_at (pre ++ bytes_of (date_string t) ++ suffix) (length pre) =
    Some (t, (length pre + 10)%nat).
Proof.
  intros Hpre Hsuf Hf. rewrite (date_string_spec _ _ _ _ Hf) by lia. rewrite !N2Z.id.
  destruct (date_fields_valid _ _ _ _ Hf) as (Hy & Hm & Hd).
  pose proof (month_days_bound (Z.of_N year) (Z.of_N month)) as Hb.
  destruct (pad_spec 4 year) as (Ly & Dy & Vy); [change (10 ^ N.of_nat 4) with 10000; lia|].
  destruct (pad_spec 2 month) as (Lm & Dm & Vm); [change (10 ^ N.of_nat 2) with 100; lia|].
  destruct (pad_spec 2 day) as (Ld & Dd & Vd); [change (10 ^ N.of_nat 2) with 100; lia|].
  revert Ly Dy Vy Lm Dm Vm Ld Dd Vd. generalize (pad 4 year) (pad 2 month) (pad 2 day).
  intros py pm pd Ly Dy Vy Lm Dm Vm Ld Dd Vd. unfold numeric_date_at, no_leading_digit.
  assert (byte_before is_digit (pre ++ (py ++ [45] ++ pm ++ [45] ++ pd) ++ suffix) (length pre) =
    false) as ->.
  { destruct (length pre) as [|n] eqn:El; [done|]. cbn [byte_before] in *. unfold byte_at in *.
    by rewrite lookup_app_l by lia. }
  cbn [negb]. rewrite <-!app_assoc. rewrite (ascii_digits_run pre py) by (done || lia || auto).
  cbn [mbind option_bind]. rewrite Vy, Ly.
  rewrite lookup_app_r, lookup_app_r by lia. replace (length pre + 4 - length pre - length py)%nat
    with 0%nat by lia. cbn [app lookup list_lookup mbind option_bind].
  change (negb (45 =? 45) && negb (45 =? 47)) with false. cbn match.
  replace (pre ++ py ++ 45 :: pm ++ 45 :: pd ++ suffix) with
    ((pre ++ py ++ [45]) ++ pm ++ 45 :: pd ++ suffix) by (by rewrite <-!app_assoc).
  replace (S (length pre + 4)) with (length (pre ++ py ++ [45%N]))
    by (rewrite !length_app; simpl; lia).
  rewrite (ascii_digits_run _ pm) by (done || lia || auto). cbn [mbind option_bind]. rewrite Vm, Lm.
  rewrite lookup_app_r by lia.
  replace (length (pre ++ py ++ [45%N]) + 2 - length (pre ++ py ++ [45%N]))%nat with (length pm) by lia.
  rewrite lookup_app_r, Nat.sub_diag by lia. cbn [lookup list_lookup mbind option_bind].
  change (negb (45 =? 45)) with false. cbn match.
  replace ((pre ++ py ++ [45]) ++ pm ++ 45 :: pd ++ suffix) with
    ((pre ++ py ++ [45] ++ pm ++ [45]) ++ pd ++ suffix) by (by rewrite <-!app_assoc).
  replace (S (length (pre ++ py ++ [45%N]) + 2)) with (length (pre ++ py ++ [45%N] ++ pm ++ [45%N]))
    by (rewrite !length_app; simpl; lia).
  rewrite (ascii_digits_run _ pd) by (done || lia || auto). cbn [mbind option_bind]. rewrite Vd, Ld.
  unfold no_trailing_digit. rewrite byte_at_app.
  replace (byte_at is_digit (pd ++ suffix) 2) with (byte_at is_digit (pd ++ suffix) (length pd + 0))
    by (f_equal; lia). rewrite byte_at_app, Hsuf. cbn [negb].
  assert (civil_date_of year month day = Some t) as ->.
  { unfold civil_date_of. rewrite (proj2 (N.leb_le year 32767)), (proj2 (N.leb_le month 127)),
      (proj2 (N.leb_le day 127)) by lia. cbn [andb]. apply date_new_spec. by split. }
  cbn [mbind option_bind]. do 2 f_equal. rewrite !length_app. simpl. lia.
Qed.

(** No date starts before the first digit. *)
Lemma count_while_spec p l j : (j < count_while p l)%nat → byte_at p l j = true.
Proof.
  revert j. induction l as [|b l IH]; intros j Hj; cbn [count_while] in Hj; [lia|].
  destruct (p b) eqn:Hb; [|lia]. destruct j as [|j]; [by cbn|]. apply (IH j). lia.
Qed.

Lemma byte_at_drop p l n j : byte_at p (drop n l) j = byte_at p l (n + j).
Proof. unfold byte_at. by rewrite lookup_drop. Qed.

Lemma byte_at_excl p q l i :
  (∀ b, p b = true → q b = true → False) → byte_at p l i = true → byte_at q l i = false.
Proof. unfold byte_at. intros Hex. destruct (l !! i) as [b|]; [|done]. intros Hp.
  destruct (q b) eqn:Hq; [|done]. by destruct (Hex b).
Qed.

Lemma spaces_between text start pos : skip_required_spaces text start = Some pos →
  ∀ j, (start <= j < pos)%nat → byte_at is_ascii_whitespace text j = true.
Proof.
  unfold skip_required_spaces. intros Hs j Hj.
  destruct (count_while _ _) as [|n] eqn:E; [done|]. injection Hs as <-.
  replace j with (start + (j - start))%nat by lia. rewrite <-byte_at_drop. apply count_while_spec. lia.
Qed.

Lemma alpha_no_digit b : is_ascii_alphabetic b = true → is_digit b = true → False.
Proof.
  unfold is_ascii_alphabetic, is_digit.
  rewrite orb_true_iff, !andb_true_iff, !N.leb_le. lia.
Qed.
Lemma white_no_digit b : is_ascii_whitespace b = true → is_digit b = true → False.
Proof.
  unfold is_ascii_whitespace, is_digit.
  rewrite !orb_true_iff, !andb_true_iff, !N.leb_le, !N.eqb_eq. lia.
Qed.

(** A month name and the spaces after it hold no digit. *)
Lemma month_word_digits text i month pos : month_word_at text i = Some (month, pos) →
  ∀ j, (i <= j < pos)%nat → byte_at is_digit text j = false.
Proof.
  unfold month_word_at. destruct (byte_before _ _ _); [done|].
  destruct (get_slice text i (length text)) as [rest|] eqn:Er; [|done]. cbn [mbind option_bind].
  destruct (month_from_name _); [|done]. cbn [mbind option_bind].
  destruct (skip_required_spaces _ _) as [p|] eqn:Es; [|done]. cbn [mbind option_bind].
  intros [= -> ->] j Hj.
  destruct (Nat.lt_ge_cases j (i + count_while is_ascii_alphabetic rest)) as [Hlt|Hge].
  - assert (rest = drop i text) as ->.
    { unfold get_slice in Er. destruct (_ && _) eqn:Eb; [|done]. injection Er as <-.
      unfold slice. rewrite <-length_drop. apply firstn_all. }
    apply (byte_at_excl _ _ _ _ alpha_no_digit).
    replace j with (i + (j - i))%nat by lia. rewrite <-byte_at_drop. apply count_while_spec. lia.
  - apply (byte_at_excl _ _ _ _ white_no_digit). eapply spaces_between; [exact Es|]. lia.
Qed.

(** No digit at [start]: no digits are read. *)
Lemma ascii_digits_none bytes start min max : (0 < min)%nat →
  byte_at is_digit bytes start = false → ascii_digits bytes start min max = None.
Proof.
  intros Hmin Hb. unfold ascii_digits.
  assert (byte_at is_digit (drop start bytes) 0 = false) as Hd
    by (by rewrite byte_at_drop, Nat.add_0_r).
  assert (take_digits max (drop start bytes) 0 0 = (0, 0%nat)) as ->.
  { destruct max, (drop start bytes) as [|b l]; try done. change (is_digit b = false) in Hd.
    cbn [take_digits]. by rewrite Hd. }
  by destruct min; [lia|].
Qed.

(** No full date starts in a digit-free prefix of a four-digit run. *)
Lemma no_date_before pre rest i :
  Forall (λ b, is_digit b = false) pre → (i < length pre)%nat →
  (∀ j, (j < 4)%nat → byte_at is_digit rest j = true) →
  full_date_at (pre ++ rest) i = None.
Proof.
  intros Hpre Hi Hrest.
  assert (∀ j, (j < length pre)%nat → byte_at is_digit (pre ++ rest) j = false) as Hno.
  { intros j Hj. unfold byte_at. rewrite lookup_app_l by done.
    destruct (pre !! j) as [b|] eqn:Eb; [|done]. rewrite Forall_forall in Hpre.
    apply Hpre. by eapply list_elem_of_lookup_2. }
  assert (∀ j, (j < 4)%nat → byte_at is_digit (pre ++ rest) (length pre + j) = true) as Hyes
    by (intros j Hj; rewrite byte_at_app; by apply Hrest).
  unfold full_date_at.
  assert (numeric_date_at (pre ++ rest) i = None) as ->.
  { unfold numeric_date_at. destruct (negb _); [done|]. by rewrite ascii_digits_none; [| lia | auto]. }
  unfold month_name_date_at.
  destruct (month_word_at (pre ++ rest) i) as [[month pos]|] eqn:Em; [|done].
  pose proof (month_word_digits _ _ _ _ Em) as Hm. cbn [mbind option_bind].
  destruct (Nat.lt_ge_cases pos (length pre)) as [Hlt|Hge].
  { rewrite ascii_digits_none; [done|lia|auto]. }
  assert (pos = length pre) as ->.
  { destruct (Nat.eq_dec pos (length pre)); [done|]. specialize (Hm (length pre) ltac:(lia)).
    specialize (Hyes 0%nat ltac:(lia)). rewrite Nat.add_0_r in Hyes. congruence. }
  clear Hm Em. assert (∃ v, ascii_digits (pre ++ rest) (length pre) 1 2 = Some (v, 2%nat)) as [v ->].
  { unfold ascii_digits. rewrite drop_app_length.
    pose proof (Hrest 0%nat ltac:(lia)) as H0'. pose proof (Hrest 1%nat ltac:(lia)) as H1'.
    destruct rest as [|a [|b rest]]; try done. change (is_digit a = true) in H0'.
    change (is_digit b = true) in H1'. cbn [take_digits]. rewrite H0', H1'. by eexists. }
  cbn [mbind option_bind].
  assert (byte_at (N.eqb 44) (pre ++ rest) (length pre + 2) = false) as ->.
  { rewrite byte_at_app. apply (byte_at_excl is_digit); [|apply Hrest; lia].
    intros b Hd <-%N.eqb_eq. done. }
  assert (skip_required_spaces (pre ++ rest) (length pre + 2) = None) as ->; [|done].
  unfold skip_required_spaces.
  destruct (count_while _ _) as [|n] eqn:Ec; [done|].
  pose proof (count_while_spec is_ascii_whitespace (drop (length pre + 2) (pre ++ rest)) 0
    ltac:(lia)) as Hw. rewrite byte_at_drop, Nat.add_0_r in Hw.
  apply (byte_at_excl _ is_digit) in Hw; [|apply white_no_digit].
  rewrite (Hyes 2%nat) in Hw by lia. done.
Qed.

Lemma first_at_least {B} (f : nat → option B) p n i b :
  (i < n)%nat → p i = true → f i = Some b → (∀ j, (j < i)%nat → f j = None) →
  first_at f (retain p (seq 0 n)) = Some b.
Proof.
  intros Hi Hp Hf Hno. replace n with (i + S (n - i - 1))%nat by lia.
  rewrite seq_app, retain_app. cbn [seq]. rewrite Nat.add_0_l, retain_cons, Hp.
  assert (∀ l, Forall (λ j, (j < i)%nat) l →
    first_at f (retain p l ++ i :: retain p (seq (S i) (n - i - 1))) = Some b) as Hl.
  { induction 1 as [|j l Hj Hl IH]; [cbn; by rewrite Hf|]. rewrite retain_cons.
    destruct (p j); [|done]. cbn [app first_at]. by rewrite (Hno j). }
  apply Hl, Forall_forall. intros j Hj%elem_of_seq. lia.
Qed.

(** A date written in a text is grounded: after a prefix without digits, and
    not followed by a digit, a printed date of the years 0 to 9999 is what
    [parse_content_date] finds. *)
Theorem content_date_round_trip pre suffix t year month day :
  Forall (λ b, is_digit b = false) pre → byte_at is_digit suffix 0 = false →
  date_fields t = (Z.of_N year, Z.of_N month, Z.of_N day) →
  parse_content_date (pre ++ bytes_of (date_string t) ++ suffix) = Some t.
Proof.
  intros Hpre Hsuf Hf. set (text := pre ++ _).
  destruct (date_fields_valid _ _ _ _ Hf) as (Hy & Hm & Hd).
  destruct (pad_spec 4 year) as (Ly & Dy & Vy); [change (10 ^ N.of_nat 4) with 10000; lia|].
  assert (∃ rest, bytes_of (date_string t) ++ suffix = pad 4 year ++ rest) as [rest Er].
  { rewrite (date_string_spec _ _ _ _ Hf) by lia. rewrite !N2Z.id. eexists.
    by rewrite <-app_assoc. }
  assert (∀ j, (j < 4)%nat → byte_at is_digit (pad 4 year ++ rest) j = true) as Hdig.
  { intros j Hj. unfold byte_at. rewrite lookup_app_l by lia.
    destruct (lookup_lt_is_Some_2 (pad 4 year) j) as [b Hb]; [lia|]. rewrite Hb.
    rewrite forallb_forall in Dy. apply Dy, list_elem_of_In. by eapply list_elem_of_lookup_2. }
  assert (byte_before is_digit pre (length pre) = false) as Hbefore.
  { destruct (length pre) as [|n] eqn:El; [done|]. cbn [byte_before]. unfold byte_at.
    destruct (pre !! n) as [b|] eqn:Eb; [|done]. rewrite Forall_forall in Hpre.
    apply Hpre. by eapply list_elem_of_lookup_2. }
  unfold parse_content_date, char_positions.
  apply (first_at_least _ _ _ (length pre)).
  - unfold text. rewrite length_app, Er, length_app, Ly. lia.
  - unfold is_char_boundary. destruct (length pre) eqn:El; [done|]. rewrite <-El.
    pose proof (Hdig 0%nat ltac:(lia)) as Hb. unfold text. rewrite Er. unfold byte_at in Hb.
    rewrite lookup_app_r, Nat.sub_diag by lia.
    destruct ((pad 4 year ++ rest) !! 0%nat) as [b|]; [|done].
    unfold is_digit, is_cont in *. apply andb_true_iff in Hb as [_ Hb%N.leb_le].
    apply negb_true_iff, andb_false_iff. left. apply N.leb_gt. lia.
  - unfold full_date_at, text. by rewrite (numeric_date_reads pre suffix t year month day).
  - intros j Hj. unfold text. rewrite Er. by apply no_date_before.
Qed.
End windows.
