(* ===== verification/Decimal.v ===== *)
(** * Decimal: exact decimal arithmetic of quantity rollups

    [ExactDecimal] of [crates/memphant-core/src/lib.rs] and [valid_decimal] of
    [structured_state.rs]: a decimal is a 128-bit coefficient and a scale;
    every operation is checked, so it is exact or gives nothing.  The
    theorems on them follow the definitions. *)

From S2P Require Import Prelude Text.

(** ** [i128] *)

Definition i128_min : Z := - 2 ^ 127.
Definition i128_max : Z := 2 ^ 127 - 1.

Definition i128 (z : Z) : option Z :=
  if ((i128_min <=? z) && (z <=? i128_max))%Z then Some z else None.
Definition i128_mul (a b : Z) : option Z := i128 (a * b).
Definition i128_add (a b : Z) : option Z := i128 (a + b).
(** [10_i128.checked_pow(n)]. *)
Definition i128_pow10 (n : N) : option Z := i128 (10 ^ Z.of_N n).
(** The unary minus of the release profile. *)
Definition i128_neg (a : Z) : Z := if (a =? i128_min)%Z then a else (- a)%Z.

(** [str::parse::<i128>]. *)
Definition parse_i128 (l : list N) : option Z :=
  let '(negative, digits) := match l with
    | b :: r => if b =? 43 then (false, r) else if b =? 45 then (true, r) else (false, l)
    | [] => (false, [])
    end in
  if is_empty digits || negb (forallb is_digit digits) then None
  else i128 (if negative : bool then (- Z.of_N (digits_value digits))%Z
             else Z.of_N (digits_value digits)).

(** ** Decimals *)

Record ExactDecimal : Set := mkDecimal {
  xd_coefficient : Z;
  xd_scale : N;
}.

Definition strip_prefix (pat : N) (l : list N) : option (list N) :=
  match l with b :: r => if b =? pat then Some r else None | [] => None end.

Definition split_point (l : list N) : list N * list N :=
  default (l, []) (split_once [46] l).

Module ExactDecimal.

Definition parse (value : list N) : option ExactDecimal :=
  let negative := starts_with [45] value in
  let unsigned := default value (strip_prefix 45 value) in
  let '(whole, fraction) := split_point unsigned in
  let scale := N.of_nat (length fraction) in
  if scale <=? u32_max then
    coefficient ← parse_i128 (whole ++ fraction);
    Some (mkDecimal (if negative then i128_neg coefficient else coefficient) scale)
  else None.

Definition rescale (self : ExactDecimal) (scale : N) : option Z :=
  if scale <? xd_scale self then None
  else
    power ← i128_pow10 (scale - xd_scale self);
    i128_mul (xd_coefficient self) power.

(** [format!("{digits:0>width$}")]. *)
Definition pad_left (width : nat) (digits : list N) : list N :=
  replicate (width - length digits) 48 ++ digits.

Fixpoint trim_end_zeros (l : list N) : list N :=
  match l with
  | [] => []
  | b :: l =>
      let rest := trim_end_zeros l in
      if is_empty rest && (b =? 48) then [] else b :: rest
  end.

Definition format (coefficient : Z) (scale : N) : list N :=
  let sign := if (coefficient <? 0)%Z then [45] else [] in
  let digits := show_N (Z.to_N (Z.abs coefficient)) in
  if scale =? 0 then sign ++ digits
  else
    let width := (N.to_nat scale + 1)%nat in
    let padded := pad_left width digits in
    let split := (length padded - N.to_nat scale)%nat in
    let fraction := trim_end_zeros (drop split padded) in
    if is_empty fraction then sign ++ take split padded
    else sign ++ take split padded ++ [46] ++ fraction.

Definition PRECISION : N := 6.

Definition average (total : Z) (scale : N) (count : Z) : option (list N) :=
  if (Z.rem total count =? 0)%Z then Some (format (Z.quot total count) scale)
  else
    '(numerator, denominator) ←
      (if scale <=? PRECISION then
         power ← i128_pow10 (PRECISION - scale);
         numerator ← i128_mul total power;
         Some (numerator, count)
       else
         power ← i128_pow10 (scale - PRECISION);
         denominator ← i128_mul count power;
         Some (total, denominator));
    let quotient := Z.quot numerator denominator in
    let remainder := Z.rem numerator denominator in
    (* remainder.unsigned_abs().saturating_mul(2) *)
    rounded ←
      (if (Z.abs denominator <=? Z.min (2 ^ 128 - 1) (2 * Z.abs remainder))%Z
       then i128_add quotient (if (numerator <? 0)%Z then -1 else 1)
       else Some quotient);
    Some (format rounded PRECISION).
End ExactDecimal.

(** ** The decimals of quantity events *)

Definition valid_decimal (value : list N) : bool :=
  let value := default value (strip_prefix 45 value) in
  if is_empty value then false
  else
    let '(whole, fraction) := split_point value in
    negb (is_empty whole) && forallb is_digit whole &&
    (bool_decide (whole = [48]) || negb (starts_with [48] whole)) &&
    (length fraction <=? 18)%nat && forallb is_digit fraction &&
    negb (starts_with [46] (rev value)).

(** * Decimals read back, averages are nearest

    A formatted decimal parses to the same number; an average is within half a
    unit of the sixth decimal, exact when the division is. *)

(** ** Digits of decimals *)

Lemma trim_end_zeros_spec l :
  ∃ n, l = ExactDecimal.trim_end_zeros l ++ replicate n 48.
Proof.
  induction l as [|b l [n IH]]; [by exists 0%nat|]. cbn [ExactDecimal.trim_end_zeros].
  destruct (ExactDecimal.trim_end_zeros l) as [|c r] eqn:E; cbn [is_empty andb].
  - destruct (N.eqb_spec b 48) as [->|Hb]; [exists (S n) | exists n]; cbn [app] in *; by rewrite IH at 1.
  - exists n. cbn [app]. by rewrite IH at 1.
Qed.

Lemma zeros_value n : digits_value (replicate n 48) = 0.
Proof.
  induction n as [|n IH]; [done|]. replace (S n) with (n + 1)%nat by lia.
  rewrite replicate_add, digits_value_app, IH. done.
Qed.

Lemma zeros_digits n : forallb is_digit (replicate n 48) = true.
Proof. induction n as [|n IH]; [done|]. cbn [replicate forallb]. by rewrite IH. Qed.

Lemma digits_app l k : forallb is_digit (l ++ k) = forallb is_digit l && forallb is_digit k.
Proof. apply forallb_app. Qed.

Lemma digit_not_point b : is_digit b = true → (b =? 46) = false ∧ (b =? 45) = false ∧ (b =? 43) = false.
Proof.
  unfold is_digit. intros [Hb%N.leb_le _]%andb_true_iff.
  by rewrite !N.eqb_neq; split_and!; lia.
Qed.

(** Digits hold no point. *)
Lemma split_point_digits whole rest :
  forallb is_digit whole = true → split_once [46] (whole ++ 46 :: rest) = Some (whole, rest).
Proof.
  induction whole as [|b whole IH]; intros Hd; cbn [app]; [done|].
  cbn [forallb] in Hd. apply andb_true_iff in Hd as [Hb Hd].
  cbn [split_once starts_with]. destruct (digit_not_point b Hb) as [Hn _].
  rewrite N.eqb_sym in Hn. rewrite Hn. cbn [andb]. by rewrite IH.
Qed.

Lemma split_none_digits l : forallb is_digit l = true → split_once [46] l = None.
Proof.
  induction l as [|b l IH]; intros Hd; [done|].
  cbn [forallb] in Hd. apply andb_true_iff in Hd as [Hb Hd].
  cbn [split_once starts_with]. destruct (digit_not_point b Hb) as [Hn _].
  rewrite N.eqb_sym in Hn. rewrite Hn. cbn [andb]. by rewrite IH.
Qed.

Lemma parse_i128_digits l : l ≠ [] → forallb is_digit l = true →
  (Z.of_N (digits_value l) <= i128_max)%Z → parse_i128 l = Some (Z.of_N (digits_value l)).
Proof.
  intros Hne Hd Hm. unfold parse_i128. destruct l as [|b r] eqn:E; [done|]. rewrite <-E in *.
  assert (is_digit b = true) as Hb by (subst l; by apply andb_true_iff in Hd as [? _]).
  destruct (digit_not_point b Hb) as (_ & -> & ->).
  assert (is_empty l = false) as -> by (by subst l). cbn [orb]. rewrite Hd. cbn [negb].
  unfold i128. rewrite (proj2 (Z.leb_le i128_min _)), (proj2 (Z.leb_le _ i128_max)); [done|lia|].
  unfold i128_min. lia.
Qed.

(** ** Parsing what [format] prints *)

Definition decimal_text (negative : bool) (whole fraction : list N) : list N :=
  (if negative then [45] else []) ++ whole ++ (if is_empty fraction then [] else 46 :: fraction).

Lemma parse_text negative whole fraction :
  whole ≠ [] → forallb is_digit whole = true → forallb is_digit fraction = true →
  N.of_nat (length fraction) <= u32_max →
  (Z.of_N (digits_value (whole ++ fraction)) <= i128_max)%Z →
  ExactDecimal.parse (decimal_text negative whole fraction) =
    Some (mkDecimal ((if negative then -1 else 1) * Z.of_N (digits_value (whole ++ fraction)))
            (N.of_nat (length fraction))).
Proof.
  intros Hne Hw Hf Hl Hm. unfold ExactDecimal.parse, decimal_text.
  set (body := whole ++ (if is_empty fraction then [] else 46 :: fraction)).
  assert (split_point body = (whole, fraction)) as Hs.
  { unfold split_point, body. destruct fraction as [|b fraction]; cbn [is_empty].
    - rewrite app_nil_r, split_none_digits by done. done.
    - rewrite split_point_digits by done. done. }
  assert (starts_with [45] body = false ∧ strip_prefix 45 body = None) as [Hst Hsp].
  { unfold body. destruct whole as [|b whole]; [done|]. cbn [app].
    cbn [forallb] in Hw. apply andb_true_iff in Hw as [Hb _].
    destruct (digit_not_point b Hb) as (_ & Hn & _). cbn [starts_with strip_prefix].
    rewrite Hn, N.eqb_sym, Hn. done. }
  assert (whole ++ fraction ≠ []) as Hne' by (by destruct whole).
  assert (forallb is_digit (whole ++ fraction) = true) as Hd by (by rewrite digits_app, Hw, Hf).
  destruct negative.
  - cbn [app starts_with strip_prefix]. change (45 =? 45) with true. cbn [andb default id].
    rewrite Hs, (proj2 (N.leb_le _ _) Hl), parse_i128_digits by done. cbn [mbind option_bind].
    do 2 f_equal. unfold i128_neg. destruct (Z.eqb_spec (Z.of_N (digits_value (whole ++ fraction)))
      i128_min) as [E|_]; [unfold i128_min in E; lia|lia].
  - cbn [app]. rewrite Hst, Hsp. cbn [default id].
    rewrite Hs, (proj2 (N.leb_le _ _) Hl), parse_i128_digits by done. cbn [mbind option_bind].
    do 2 f_equal. lia.
Qed.

(** What [format] prints. *)
Lemma format_text c s : ∃ whole fraction n,
  ExactDecimal.format c s = decimal_text (c <? 0)%Z whole fraction ∧
  whole ≠ [] ∧ forallb is_digit whole = true ∧ forallb is_digit fraction = true ∧
  (N.of_nat (length fraction) + n = s) ∧
  Z.to_N (Z.abs c) = digits_value (whole ++ fraction) * 10 ^ n.
Proof.
  destruct (show_N_spec (Z.to_N (Z.abs c))) as (Hv & Hne & Hd). unfold ExactDecimal.format.
  destruct (N.eqb_spec s 0) as [->|Hs].
  { exists (show_N (Z.to_N (Z.abs c))), [], 0. unfold decimal_text. cbn [is_empty length].
    rewrite !app_nil_r. change (10 ^ 0) with 1. rewrite Hv.
    split_and!; try done; lia. }
  set (digits := show_N _) in *. set (padded := ExactDecimal.pad_left _ digits).
  set (split := (length padded - N.to_nat s)%nat).
  assert (N.to_nat s + 1 <= length padded)%nat as Hlen.
  { unfold padded, ExactDecimal.pad_left. rewrite length_app, length_replicate. lia. }
  assert (forallb is_digit padded = true) as Hpd.
  { unfold padded, ExactDecimal.pad_left. by rewrite digits_app, zeros_digits, Hd. }
  assert (digits_value padded = Z.to_N (Z.abs c)) as Hpv.
  { unfold padded, ExactDecimal.pad_left. rewrite digits_value_app, zeros_value, Hv. lia. }
  destruct (trim_end_zeros_spec (drop split padded)) as [n Hn].
  set (fraction := ExactDecimal.trim_end_zeros _) in *.
  exists (take split padded), fraction, (N.of_nat n).
  assert (padded = (take split padded ++ fraction) ++ replicate n 48) as Hsplit
    by (by rewrite <-app_assoc, <-Hn, take_drop).
  assert (forallb is_digit ((take split padded ++ fraction) ++ replicate n 48) = true) as Hall
    by (by rewrite <-Hsplit).
  rewrite !digits_app in Hall. apply andb_true_iff in Hall as [[Ht Hfr]%andb_true_iff _].
  assert (length (drop split padded) = N.to_nat s) as Hdl by (rewrite length_drop; lia).
  rewrite Hn, length_app, length_replicate in Hdl.
  split_and!; [|..].
  - unfold decimal_text. destruct (c <? 0)%Z, (is_empty fraction); by rewrite ?app_nil_r.
  - destruct (take split padded) eqn:E; [|done]. exfalso.
    assert (length (take split padded) = split) as Hl by (rewrite length_take; lia).
    rewrite E in Hl. simpl in Hl. lia.
  - done.
  - done.
  - lia.
  - rewrite <-Hpv, Hsplit at 1. rewrite digits_value_app, zeros_value, length_replicate. lia.
Qed.

Lemma format_parse c s : (i128_min < c <= i128_max)%Z → s <= u32_max → ∃ d,
  ExactDecimal.parse (ExactDecimal.format c s) = Some d ∧ xd_scale d <= s ∧
  (xd_coefficient d * 10 ^ Z.of_N (s - xd_scale d) = c)%Z.
Proof.
  intros Hc Hs. destruct (format_text c s) as (whole & fraction & n & -> & Hne & Hw & Hf & Hl & Hv).
  assert (10 ^ n ≠ 0) as Hp by (apply N.pow_nonzero; lia).
  assert (Z.of_N (digits_value (whole ++ fraction)) <= Z.abs c)%Z as Hle.
  { assert (digits_value (whole ++ fraction) <= Z.to_N (Z.abs c)); [rewrite Hv; nia|lia]. }
  rewrite parse_text; try done; [|lia|unfold i128_min, i128_max in *; lia].
  eexists. split; [reflexivity|]. cbn [xd_scale xd_coefficient]. split; [lia|].
  replace (s - N.of_nat (length fraction)) with n by lia.
  assert (Z.abs c = Z.of_N (digits_value (whole ++ fraction)) * 10 ^ Z.of_N n)%Z as Habs.
  { rewrite <-(Z2N.id (Z.abs c)), Hv, N2Z.inj_mul, N2Z.inj_pow by lia. done. }
  destruct (Z.ltb_spec c 0); lia.
Qed.

(** A formatted decimal reads back: for a coefficient above the least 128-bit
    integer, [parse] of [format] is the same number, at a scale no longer than
    the given one. *)
Theorem decimal_round_trip c s : (i128_min < c <= i128_max)%Z → s <= u32_max → ∃ d,
  ExactDecimal.parse (ExactDecimal.format c s) = Some d ∧ xd_scale d <= s ∧
  (xd_coefficient d * 10 ^ Z.of_N (s - xd_scale d) = c)%Z.
Proof. apply format_parse. Qed.

(** ** Averages *)

(** The code's rounding: the quotient, one further from zero when twice the
    remainder reaches the denominator. *)
Definition rounded (numerator denominator : Z) : Z :=
  let quotient := Z.quot numerator denominator in
  let remainder := Z.rem numerator denominator in
  (if Z.abs denominator <=? Z.min (2 ^ 128 - 1) (2 * Z.abs remainder)
   then quotient + (if numerator <? 0 then -1 else 1) else quotient)%Z.

Lemma rounded_nearest numerator denominator :
  (0 < denominator <= i128_max)%Z →
  (2 * Z.abs (rounded numerator denominator * denominator - numerator) <= denominator)%Z.
Proof.
  intros Hd. unfold rounded, i128_max in *.
  pose proof (Z.quot_rem' numerator denominator) as Hqr.
  pose proof (Z.rem_bound_abs numerator denominator ltac:(lia)) as Hr.
  assert (0 <= Z.rem numerator denominator ∧ 0 <= numerator ∨
          Z.rem numerator denominator <= 0 ∧ numerator < 0)%Z as Hsign.
  { destruct (Z.lt_ge_cases numerator 0); [right|left]; (split; [|done]).
    - pose proof (Z.rem_nonneg (- numerator) denominator ltac:(lia) ltac:(lia)) as Hn.
      rewrite Z.rem_opp_l in Hn by lia. lia.
    - apply Z.rem_nonneg; lia. }
  revert Hqr Hr Hsign. generalize (Z.quot numerator denominator) (Z.rem numerator denominator).
  intros q r Hqr Hr Hsign. rewrite (Z.abs_eq denominator) in * by lia.
  destruct (Z.leb_spec denominator (Z.min (2 ^ 128 - 1) (2 * Z.abs r))) as [Hle|Hlt];
    destruct (Z.ltb_spec numerator 0); nia.
Qed.

Lemma rounded_bound numerator denominator :
  (1 < denominator)%Z → (Z.abs (rounded numerator denominator) <= Z.abs numerator)%Z.
Proof.
  intros Hd. unfold rounded. pose proof (Z.quot_rem' numerator denominator) as Hqr.
  pose proof (Z.rem_bound_abs numerator denominator ltac:(lia)) as Hr.
  assert (0 <= Z.rem numerator denominator ∧ 0 <= numerator ∧ 0 <= Z.quot numerator denominator ∨
          Z.rem numerator denominator <= 0 ∧ numerator < 0 ∧ Z.quot numerator denominator <= 0)%Z
    as Hsign.
  { destruct (Z.lt_ge_cases numerator 0); [right|left].
    - pose proof (Z.rem_nonneg (- numerator) denominator ltac:(lia) ltac:(lia)) as Hn.
      rewrite Z.rem_opp_l in Hn by lia.
      pose proof (Z.quot_pos (- numerator) denominator ltac:(lia) ltac:(lia)) as Hq.
      rewrite Z.quot_opp_l in Hq by lia. lia.
    - split_and!; [apply Z.rem_nonneg; lia|lia|apply Z.quot_pos; lia]. }
  revert Hqr Hr Hsign. generalize (Z.quot numerator denominator) (Z.rem numerator denominator).
  intros q r Hqr Hr Hsign. rewrite (Z.abs_eq denominator) in * by lia.
  destruct (Z.leb_spec denominator (Z.min (2 ^ 128 - 1) (2 * Z.abs r)));
    destruct (Z.ltb_spec numerator 0); nia.
Qed.

(** [d] is within half a unit of the sixth decimal of [total / (10^s count)]. *)
Definition within_half (d : ExactDecimal) (total : Z) (s : N) (count : Z) : Prop :=
  (2 * 10 ^ 6 *
     Z.abs (xd_coefficient d * 10 ^ Z.of_N s * count - total * 10 ^ Z.of_N (xd_scale d)) <=
   10 ^ Z.of_N (xd_scale d) * 10 ^ Z.of_N s * count)%Z.

Lemma pow10_pos n : (0 < 10 ^ Z.of_N n)%Z.
Proof. apply Z.pow_pos_nonneg; lia. Qed.

(** From a rounded millionth to the decimal it prints as. *)
Lemma within_half_of R d total s count : (0 < count)%Z → xd_scale d <= 6 →
  (xd_coefficient d * 10 ^ Z.of_N (6 - xd_scale d) = R)%Z →
  (2 * Z.abs (R * 10 ^ Z.of_N s * count - total * 10 ^ 6) <= 10 ^ Z.of_N s * count)%Z →
  within_half d total s count.
Proof.
  intros Hc Hle HR Hb. unfold within_half.
  assert (10 ^ 6 = 10 ^ Z.of_N (6 - xd_scale d) * 10 ^ Z.of_N (xd_scale d))%Z as Hsix.
  { rewrite <-Z.pow_add_r by lia. f_equal. lia. }
  pose proof (pow10_pos (xd_scale d)) as Hk. pose proof (pow10_pos (6 - xd_scale d)) as Hk'.
  pose proof (pow10_pos s) as Hs. rewrite Hsix, <-HR in *.
  revert Hk Hk' Hs Hb. generalize (10 ^ Z.of_N (xd_scale d))%Z (10 ^ Z.of_N (6 - xd_scale d))%Z
    (10 ^ Z.of_N s)%Z (xd_coefficient d). intros K K' S c Hk Hk' Hs Hb.
  replace (c * K' * S * count - total * (K' * K))%Z with (K' * (c * S * count - total * K))%Z in Hb
    by ring.
  rewrite Z.abs_mul, (Z.abs_eq K') in Hb by lia.
  revert Hb. generalize (Z.abs (c * S * count - total * K)). intros X Hb. nia.
Qed.

Lemma i128_some z y : i128 z = Some y → y = z ∧ (i128_min <= z <= i128_max)%Z.
Proof.
  unfold i128. destruct (_ && _)%Z eqn:E; [|done]. intros [= <-].
  apply andb_true_iff in E as [?%Z.leb_le ?%Z.leb_le]. done.
Qed.

Lemma average_spec total s count text :
  (i128_min < total <= i128_max)%Z → (0 < count <= i128_max)%Z → s <= u32_max →
  ExactDecimal.average total s count = Some text → ∃ d,
  ExactDecimal.parse text = Some d ∧ within_half d total s count ∧
  ((count | total)%Z →
   (xd_coefficient d * 10 ^ Z.of_N s * count = total * 10 ^ Z.of_N (xd_scale d))%Z).
Proof.
  intros Ht Hc Hs. unfold ExactDecimal.average.
  destruct (Z.eqb_spec (Z.rem total count) 0) as [Hz|Hnz].
  - intros [= <-]. pose proof (Z.quot_rem' total count) as Hqr. rewrite Hz in Hqr.
    revert Hqr. generalize (Z.quot total count). intros q Hqr.
    destruct (format_parse q s) as (d & Hp & Hle & Hv); [unfold i128_min, i128_max in *; nia|done|].
    assert (xd_coefficient d * 10 ^ Z.of_N s * count = total * 10 ^ Z.of_N (xd_scale d))%Z as Heq.
    { replace (Z.of_N s) with (Z.of_N (s - xd_scale d) + Z.of_N (xd_scale d))%Z by lia.
      rewrite Z.pow_add_r by lia. rewrite Hqr, <-Hv. ring. }
    exists d. split_and!; [done| |done]. unfold within_half. rewrite Heq, Z.sub_diag.
    pose proof (pow10_pos s). pose proof (pow10_pos (xd_scale d)). change (Z.abs 0) with 0%Z. nia.
  - assert (¬ (count | total)%Z) as Hndiv.
    { intros Hdiv. apply Hnz. by apply Z.rem_divide; [lia|]. }
    assert (1 < count)%Z as Hc1.
    { destruct (Z.eq_dec count 1) as [->|]; [|lia]. destruct Hndiv. apply Z.divide_1_l. }
    destruct (if s <=? _ then _ else _) as [[num den]|] eqn:Ef; [|done]. cbn [mbind option_bind].
    assert ((1 < den <= i128_max)%Z ∧ (i128_min < num <= i128_max)%Z ∧
      ∃ f, (0 < f)%Z ∧ (total * 10 ^ 6 = f * num)%Z ∧ (10 ^ Z.of_N s * count = f * den)%Z)
      as (Hden & Hnum & f & Hf & Hfn & Hfd).
    { unfold i128_pow10, i128_mul, ExactDecimal.PRECISION in Ef.
      destruct (N.leb_spec s 6) as [Hle|Hgt].
      - destruct (i128 _) as [power|] eqn:Ep in Ef; [|done]. cbn [mbind option_bind] in Ef.
        destruct (i128 _) as [n|] eqn:En in Ef; [|done]. cbn [mbind option_bind] in Ef.
        injection Ef as <- <-. apply i128_some in Ep as [-> _], En as [-> Hn].
        split_and!; [lia..| |lia|].
        + pose proof (pow10_pos (6 - s)). assert (total ≠ i128_min)%Z by lia.
          destruct (Z.eq_dec (total * 10 ^ Z.of_N (6 - s)) i128_min) as [E|]; [|lia]. exfalso.
          assert ((5 | i128_min)%Z ∨ 10 ^ Z.of_N (6 - s) = 1)%Z as [[k Hk]|E1].
          { destruct (N.eq_dec s 6) as [->|]; [by right|]. left. rewrite <-E.
            apply Z.divide_mul_r. replace (Z.of_N (6 - s)) with (1 + Z.of_N (5 - s))%Z by lia.
            rewrite Z.pow_add_r by lia. exists (2 * 10 ^ Z.of_N (5 - s))%Z. lia. }
          * unfold i128_min in Hk. lia.
          * rewrite E1 in E. lia.
        + exists (10 ^ Z.of_N s)%Z. split; [apply pow10_pos|]. split; [|done].
          rewrite Z.mul_comm. replace 6%Z with (Z.of_N s + Z.of_N (6 - s))%Z by lia.
          rewrite Z.pow_add_r by lia. ring.
      - destruct (i128 _) as [power|] eqn:Ep in Ef; [|done]. cbn [mbind option_bind] in Ef.
        destruct (i128 _) as [n|] eqn:En in Ef; [|done]. cbn [mbind option_bind] in Ef.
        injection Ef as <- <-. apply i128_some in Ep as [-> _], En as [-> Hn].
        pose proof (pow10_pos (s - 6)). split_and!; [nia|lia..|].
        exists (10 ^ 6)%Z. split; [lia|]. split; [ring|].
        replace (Z.of_N s) with (6 + Z.of_N (s - 6))%Z by lia. rewrite Z.pow_add_r by lia. ring. }
    destruct (if (_ <=? _)%Z then _ else _) as [R|] eqn:ER; [|done]. cbn [mbind option_bind].
    intros [= <-].
    assert (R = rounded num den) as ->.
    { unfold rounded. destruct (_ <=? _)%Z; [|by injection ER].
      unfold i128_add in ER. by apply i128_some in ER as [-> _]. }
    pose proof (rounded_nearest num den ltac:(lia)) as Hnear.
    pose proof (rounded_bound num den ltac:(lia)) as Hbound.
    destruct (format_parse (rounded num den) ExactDecimal.PRECISION) as (d & Hp & Hle & Hv);
      [unfold i128_min, i128_max in *; lia|done|].
    exists d. split_and!; [done| |done].
    apply (within_half_of (rounded num den)); [lia|exact Hle|exact Hv|].
    revert Hnear. generalize (rounded num den). intros R Hnear.
    rewrite Hfd, Hfn, <-Z.mul_assoc, Hfd.
    replace (R * (f * den) - f * num)%Z with (f * (R * den - num))%Z by ring.
    rewrite Z.abs_mul, (Z.abs_eq f) by lia. nia.
Qed.

(** The average a rollup reports is the nearest one at six decimals: within
    half a millionth of [total / (10^scale * count)], and exactly that when the
    count divides the total.  Overflow gives no average, never a wrong one. *)
Theorem average_is_nearest total s count text :
  (i128_min < total <= i128_max)%Z → (0 < count <= i128_max)%Z → s <= u32_max →
  ExactDecimal.average total s count = Some text → ∃ d,
  ExactDecimal.parse text = Some d ∧ within_half d total s count ∧
  ((count | total)%Z →
   (xd_coefficient d * 10 ^ Z.of_N s * count = total * 10 ^ Z.of_N (xd_scale d))%Z).
Proof. apply average_spec. Qed.

(** ** At concrete inputs *)

(** [-1.250] reads back as [-1.25]. *)
Lemma decimal_round_trip_witness : ∃ d,
  ExactDecimal.parse (ExactDecimal.format (-1250) 3) = Some d ∧ xd_scale d <= 3 ∧
  (xd_coefficient d * 10 ^ Z.of_N (3 - xd_scale d) = -1250)%Z.
Proof. apply (decimal_round_trip (-1250) 3); [unfold i128_min, i128_max|unfold u32_max]; lia. Defined.

(** Two thirds at six decimals. *)
Lemma average_is_nearest_witness : ∃ d,
  ExactDecimal.parse (bytes_of "0.666667") = Some d ∧ within_half d 2 0 3.
Proof.
  destruct (average_is_nearest 2 0 3 (bytes_of "0.666667")) as (d & Hd & Hw & _);
    [unfold i128_min, i128_max; lia | unfold i128_max; lia | unfold u32_max; lia | by vm_compute |].
  by exists d.
Defined.
