(* ===== verification/Structured.v ===== *)
(** * Structured: grounded state extracted from a source

    [crates/memphant-core/src/structured_state.rs]: the evidence slices of a
    source, the grounding of the observations a provider makes about them, the
    fold of grounded observations into operations on the active state, and the
    projection of operations into compiler candidates.  JSON values are their
    serialized text, read through an interface; a [BTreeMap] of fields is the
    list of its entries. *)

From S2P Require Import Prelude Text Types Float Clock Bitemporal Lineage Store Chunks Render Gate Dates Decimal.
From S2P Require Import Compile.

(** The [serde_json] crate: a value is its serialized text. *)
Class SerdeJson := {
  json_as_str : string → option string;
  json_as_object : string → option (list (string * string));
  (** [Value::String(_) | Value::Number(_) | Value::Bool(_)]. *)
  json_is_scalar : string → bool;
  fields_to_json : list (string * string) → string;
  fields_of_json : string → option (list (string * string));
}.

(** ** Data *)

Module StructuredStateOperation.
Inductive t : Set := Create | Replace | Delete | Append.
#[export] Instance t_eq_dec : EqDecision t.
Proof. solve_decision. Defined.
End StructuredStateOperation.
Export (hints) StructuredStateOperation.

Module StructuredSourceKind.
Inductive t : Set := Episode | Resource.
#[export] Instance t_eq_dec : EqDecision t.
Proof. solve_decision. Defined.

Definition as_str (kind : t) : string :=
  match kind with Episode => "episode" | Resource => "resource" end.
End StructuredSourceKind.
Export (hints) StructuredSourceKind.

Notation Fields := (list (string * string)).

Record QuantityEvent : Set := mkQuantityEvent {
  qe_namespace : string;
  qe_item_key : string;
  qe_measure : string;
  qe_value : string;
  qe_unit : string;
  qe_occurred_at : string;
  qe_dimensions : Fields;
}.

Record StructuredStateOp : Set := mkStructuredStateOp {
  so_operation : StructuredStateOperation.t;
  so_namespace : string;
  so_item_key : string;
  so_target_unit_ids : list UnitId;
  so_fields : Fields;
  so_evidence_quote : string;
  so_source_span : string;
  so_valid_from : option string;
  so_valid_to : option string;
}.

Record ActiveStructuredState : Set := mkActiveStructuredState {
  as_unit_id : UnitId;
  as_namespace : string;
  as_item_key : string;
  as_fields : Fields;
  as_valid_from : option string;
  as_valid_to : option string;
}.

Record StructuredStateProviderIdentity : Set := mkProviderIdentity {
  pi_model : string;
  pi_prompt_hash : string;
  pi_schema_hash : string;
}.

Record EvidenceSlice : Set := mkEvidenceSlice {
  es_id : string;
  es_body : string;
  es_source_span : string;
}.
#[export] Instance EvidenceSlice_eq_dec : EqDecision EvidenceSlice.
Proof. solve_decision. Defined.

Record StructuredStateRequest : Set := mkStructuredStateRequest {
  sr_source_kind : StructuredSourceKind.t;
  sr_source_body_sha256 : string;
  sr_batch_index : N;
  sr_evidence_slices : list EvidenceSlice;
}.

Module StructuredStateProviderError.
Inductive t : Set :=
| Unavailable (why : string)
| InvalidOutput (why : string).
End StructuredStateProviderError.

Record ProjectedStructuredState : Set := mkProjectedStructuredState {
  ps_subject : string;
  ps_predicate : string;
  ps_body : string;
  ps_admission_hint : option AdmissionAction.t;
  ps_contextual_chunks : list ContextualChunk;
  ps_valid_from : option string;
  ps_valid_to : option string;
  ps_target_unit_ids : option (list UnitId);
}.

Definition QUANTITY_EVENT_TYPE : string := "quantity_event.v1".

Definition invalid_output (message : string) : StructuredStateProviderError.t :=
  StructuredStateProviderError.InvalidOutput message.

(** [fields.get(key)]. *)
Definition field (key : string) (fields : Fields) : option string :=
  snd <$> find (λ entry, String.eqb entry.1 key) fields.

(** ** Keys and spans *)

(** Every character that is no ASCII letter or digit separates; the pieces, in
    lower case, are joined by underscores. *)
Fixpoint join_underscore (words : list (list N)) : list N :=
  match words with
  | [] => []
  | [w] => w
  | w :: ws => w ++ [95] ++ join_underscore ws
  end.
Definition canonical_key (value : string) : string :=
  string_of_bytes (join_underscore (split_tokens [] (map ascii_lower (trim (bytes_of value))))).

Definition parse_span (span : string) : option (nat * nat) :=
  '(start, end_) ← split_once [45] (bytes_of span);
  start ← parse_unsigned u64_max start;
  end_ ← parse_unsigned u64_max end_;
  Some (N.to_nat start, N.to_nat end_).

(** [str::match_indices]: the starts of the occurrences that do not overlap an
    earlier one, of a pattern that is not empty; the length of [l] is enough
    fuel. *)
Fixpoint match_from (fuel : nat) (pat l : list N) (i : nat) : list nat :=
  match fuel, l with
  | S fuel, _ :: rest =>
      if starts_with pat l
      then i :: match_from fuel pat (drop (length pat) l) (i + length pat)
      else match_from fuel pat rest (S i)
  | _, _ => []
  end.
Definition match_indices (l pat : list N) : list nat := match_from (length l) pat l 0.

(** ** The turns of the user *)

Definition is_role_byte (b : N) : bool := ((97 <=? b) && (b <=? 122)) || is_digit b || (b =? 95).

(** [role: content] at the head of a line: the role. *)
Definition role_prefix (line : list N) : option (list N) :=
  '(role, content) ← split_once [58] line;
  match role with
  | [] => None
  | b :: _ =>
      if negb ((97 <=? b) && (b <=? 122)) || negb (forallb is_role_byte role) ||
         match content with [] => false | c :: _ => negb (is_ascii_whitespace c) end
      then None else Some role
  end.

Definition is_user_role (role : list N) : bool :=
  bool_decide (role = bytes_of "user") || bool_decide (role = bytes_of "user_agent").

(** [line.strip_suffix('\n')]. *)
Definition strip_newline (raw : list N) : list N :=
  match rev raw with a :: r => if a =? LF then rev r else raw | [] => [] end.

Record TurnScan : Set := mkTurnScan {
  ts_ranges : list (nat * nat);
  ts_user_start : option nat;
  ts_offset : nat;
}.

Definition scan_line (st : TurnScan) (inclusive_line : list N) : TurnScan :=
  let line := strip_newline inclusive_line in
  let trimmed_start := (length line - length (trim_start line))%nat in
  let trimmed := trim line in
  let offset := ts_offset st in
  let next := (offset + length inclusive_line)%nat in
  match role_prefix trimmed with
  | None => mkTurnScan (ts_ranges st) (ts_user_start st) next
  | Some role =>
      let ranges := match ts_user_start st with
                    | Some start => if (start <? offset)%nat
                                    then ts_ranges st ++ [(start, offset)] else ts_ranges st
                    | None => ts_ranges st
                    end in
      let content := drop (length role + 1) trimmed in
      let leading := (length content - length (trim_start content))%nat in
      let user_start := if is_user_role role
                        then Some (offset + trimmed_start + length role + 1 + leading)%nat
                        else None in
      mkTurnScan ranges user_start next
  end.

Definition user_turn_ranges (body : list N) : list (nat * nat) :=
  let st := foldl scan_line (mkTurnScan [] None 0) (split_inclusive_nl body) in
  match ts_user_start st with
  | Some start => if (start <? length body)%nat
                  then ts_ranges st ++ [(start, length body)] else ts_ranges st
  | None => ts_ranges st
  end.

Definition within (start end_ : nat) (range : nat * nat) : bool :=
  (range.1 <=? start)%nat && (end_ <=? range.2)%nat.

Definition ground_user_evidence_quote (body quote : string) : option string :=
  if bool_decide (quote = String.EmptyString) then None
  else
    let ranges := user_turn_ranges (bytes_of body) in
    let matches :=
      retain (λ start, any (within start (start + String.length quote)) ranges)
        (match_indices (bytes_of body) (bytes_of quote)) in
    match matches with
    | [start] => Some (span_string (start, start + String.length quote)%nat)
    | _ => None
    end.

Definition add_turn (turns : list (list N)) (turn : list N) : list (list N) :=
  if bool_decide (turn ∈ turns) then turns else turns ++ [turn].
Definition user_evidence_turns (body : string) : list (list N) :=
  foldl add_turn []
    (retain (λ turn, negb (is_empty turn))
       (map trim_end
          (omap (λ range, get_slice (bytes_of body) range.1 range.2)
             (user_turn_ranges (bytes_of body))))).

(** ** Evidence *)

Section structured.
Context `{Jiff} `{Sha256} `{Calendar} `{SerdeJson}.

(** A component of a digest: its length in eight big-endian bytes, then it. *)
Definition be_bytes (n : N) : list N :=
  map (λ i, N.land (N.shiftr n (8 * i)) 255) [7; 6; 5; 4; 3; 2; 1; 0].
Definition framed (component : string) : list N :=
  be_bytes (N.of_nat (String.length component)) ++ bytes_of component.
Definition framed_sha256 (components : list string) : string :=
  sha256_hex (string_of_bytes (concat (map framed components))).

(** Twelve bytes of the digest are twenty-four hexadecimal digits. *)
Definition structured_compiler_identity (compiler : string)
    (identity : StructuredStateProviderIdentity) : string :=
  compiler +:+ "+structured-" +:+
  String.substring 0 24 (framed_sha256 [pi_model identity; pi_prompt_hash identity;
                                        pi_schema_hash identity]).

Definition neutral_slice_id (source_kind : StructuredSourceKind.t) (source_span body : string)
    : string :=
  "slice-" +:+
  framed_sha256 [StructuredSourceKind.as_str source_kind; source_span; sha256_hex body].

Definition evidence_slice (source_kind : StructuredSourceKind.t) (source_body : string)
    (start end_ : nat) : result StructuredStateProviderError.t EvidenceSlice :=
  let body := '(body) ← get_slice (bytes_of source_body) start end_;
              if is_empty body then None else Some (string_of_bytes body) in
  match body with
  | None => Err (invalid_output "evidence slice has invalid UTF-8 source span")
  | Some body =>
      let source_span := span_string (start, end_) in
      Ok (mkEvidenceSlice (neutral_slice_id source_kind source_span body) body source_span)
  end.

(** [iter().map(f).collect::<Result<Vec<_>, _>>()]. *)
Definition try_map {E A B} (f : A → result E B) (l : list A) : result E (list B) :=
  try_fold (λ acc x, y <-? f x; Ok (acc ++ [y])) [] l.

Definition evidence_slices_for_episode (source_body : string)
    : result StructuredStateProviderError.t (list EvidenceSlice) :=
  try_map (λ range, evidence_slice StructuredSourceKind.Episode source_body range.1 range.2)
    (retain (λ range, (range.1 <? range.2)%nat) (user_turn_ranges (bytes_of source_body))).

Definition resource_slice (source_body : string) (chunk : ContextualChunk)
    : result StructuredStateProviderError.t EvidenceSlice :=
  span <-? ok_or (ch_source_span chunk) (invalid_output "resource evidence slice has no source span");
  range <-? ok_or (parse_span span)
              (invalid_output "resource evidence slice has invalid source span");
  if negb (bool_decide (get_slice (bytes_of source_body) range.1 range.2 =
                        Some (bytes_of (ch_body chunk))))
  then Err (invalid_output "resource evidence slice does not match its parent source")
  else evidence_slice StructuredSourceKind.Resource source_body range.1 range.2.

Definition slice_range (slice : EvidenceSlice) : nat * nat :=
  default (0, 0)%nat (parse_span (es_source_span slice)).

Definition range_leb (left right : nat * nat) : bool :=
  (left.1 <? right.1)%nat || ((left.1 =? right.1)%nat && (left.2 <=? right.2)%nat).

(** [windows(2)]. *)
Fixpoint slices_overlap (slices : list EvidenceSlice) : bool :=
  match slices with
  | first :: ((second :: _) as rest) =>
      ((slice_range second).1 <? (slice_range first).2)%nat || slices_overlap rest
  | _ => false
  end.

Definition evidence_slices_for_resource (source_body : string) (chunks : list ContextualChunk)
    : result StructuredStateProviderError.t (list EvidenceSlice) :=
  if is_empty chunks then
    if bool_decide (source_body = String.EmptyString) then Ok []
    else slice <-? evidence_slice StructuredSourceKind.Resource source_body 0
                     (String.length source_body);
         Ok [slice]
  else
    slices <-? try_map (resource_slice source_body) chunks;
    let slices := sort_by (λ l r, range_leb (slice_range l) (slice_range r)) slices in
    if slices_overlap slices then Err (invalid_output "resource evidence slices overlap")
    else Ok slices.

(** [StructuredStateProvider::plan_batches] as the trait provides it. *)
Definition plan_batches (source_kind : StructuredSourceKind.t) (source_body_sha256 : string)
    (evidence_slices : list EvidenceSlice) : list StructuredStateRequest :=
  imap (λ batch_index slice,
      mkStructuredStateRequest source_kind source_body_sha256 (N.of_nat batch_index) [slice])
    evidence_slices.

(** ** Observations *)

Definition RESERVED_FIELDS : list string := [
  "batch_index"; "disposition"; "episode_id"; "evidence_quote"; "evidence_slice_id"; "fields";
  "item_key"; "namespace"; "operation"; "resource_id"; "source_body_sha256"; "source_kind";
  "source_span"; "target_unit_ids"; "tenant_id"; "unit_id"; "valid_from"; "valid_to"].

Definition core_error_string (error : CoreError.t) : string :=
  match error with
  | CoreError.Invalid why => "invalid request: " +:+ why
  | _ => String.EmptyString
  end.

(** [validate_valid_interval] fails only with [CoreError::Invalid]. *)
Definition validate_interval (valid_from valid_to : option string)
    : result StructuredStateProviderError.t () :=
  match validate_valid_interval valid_from valid_to with
  | Ok _ => Ok ()
  | Err error => Err (invalid_output (core_error_string error))
  end.

Definition validate_structured_observation (observation : StructuredObservation)
    : result StructuredStateProviderError.t () :=
  let namespace := canonical_key (ob_namespace observation) in
  let item_key := canonical_key (ob_item_key observation) in
  if bool_decide (namespace = String.EmptyString) || bool_decide (item_key = String.EmptyString)
  then Err (invalid_output "structured-state identity is not canonicalizable")
  else if bool_decide (ob_evidence_slice_id observation = String.EmptyString) ||
          bool_decide (ob_evidence_quote observation = String.EmptyString)
  then Err (invalid_output "structured observation evidence is empty")
  else if any (λ entry, negb (bool_decide (canonical_key entry.1 = entry.1)) ||
                        bool_decide (entry.1 ∈ RESERVED_FIELDS)) (ob_fields observation)
  then Err (invalid_output "structured observation field key is not canonical or is reserved")
  else if bool_decide (ob_disposition observation = ObservationDisposition.Event) &&
          is_empty (ob_fields observation)
  then Err (invalid_output "structured event fields are empty")
  else validate_interval (ob_valid_from observation) (ob_valid_to observation).

Record GroundedObservation : Set := mkGroundedObservation {
  go_observation : StructuredObservation;
  go_namespace : string;
  go_item_key : string;
  go_start : nat;
  go_end : nat;
}.

(** The slices of the request by id, with their starts. *)
Definition check_slice (request : StructuredStateRequest) (source_body : string)
    (canonical : option (list EvidenceSlice)) (slices : gmap string (EvidenceSlice * nat))
    (slice : EvidenceSlice)
    : result StructuredStateProviderError.t (gmap string (EvidenceSlice * nat)) :=
  range <-? ok_or (parse_span (es_source_span slice))
              (invalid_output "evidence slice has invalid source span");
  expected <-? evidence_slice (sr_source_kind request) source_body range.1 range.2;
  if negb (bool_decide (expected = slice)) ||
     match canonical with Some slices => negb (bool_decide (slice ∈ slices)) | None => false end ||
     is_some (slices !! es_id slice)
  then Err (invalid_output "evidence slice does not match its parent source")
  else Ok (<[es_id slice := (slice, range.1)]> slices).

Definition ground_observation (source_body : string) (slices : gmap string (EvidenceSlice * nat))
    (observation : StructuredObservation)
    : result StructuredStateProviderError.t GroundedObservation :=
  _ <-? validate_structured_observation observation;
  found <-? ok_or (slices !! ob_evidence_slice_id observation)
              (invalid_output "observation names an unknown evidence slice");
  let '(slice, parent_start) := found in
  match match_indices (bytes_of (es_body slice)) (bytes_of (ob_evidence_quote observation)) with
  | [] => Err (invalid_output "observation evidence quote does not match its slice")
  | _ :: _ :: _ => Err (invalid_output "observation evidence quote is ambiguous in its slice")
  | [slice_start] =>
      let start := (parent_start + slice_start)%nat in
      let end_ := (start + String.length (ob_evidence_quote observation))%nat in
      if negb (bool_decide (get_slice (bytes_of source_body) start end_ =
                            Some (bytes_of (ob_evidence_quote observation))))
      then Err (invalid_output "observation evidence quote does not match its source")
      else Ok (mkGroundedObservation observation (canonical_key (ob_namespace observation))
                 (canonical_key (ob_item_key observation)) start end_)
  end.

Definition grounded_leb (l r : GroundedObservation) : bool :=
  range_leb (go_start l, go_end l) (go_start r, go_end r).

Definition grounded_structured_observations (source_body : string)
    (request : StructuredStateRequest) (observations : list StructuredObservation)
    : result StructuredStateProviderError.t (list GroundedObservation) :=
  if negb (bool_decide (sr_source_body_sha256 request = sha256_hex source_body))
  then Err (invalid_output "structured source body hash changed")
  else
    canonical <-? (if bool_decide (sr_source_kind request = StructuredSourceKind.Episode)
                   then slices <-? evidence_slices_for_episode source_body; Ok (Some slices)
                   else Ok None);
    slices <-? try_fold (check_slice request source_body canonical) ∅ (sr_evidence_slices request);
    grounded <-? try_map (ground_observation source_body slices) observations;
    Ok (sort_by grounded_leb grounded).

Definition validate_structured_observations_for_request (source_body : string)
    (request : StructuredStateRequest) (observations : list StructuredObservation)
    : result StructuredStateProviderError.t () :=
  _ <-? grounded_structured_observations source_body request observations; Ok ().

(** ** Quantity events *)

Definition digit_at (bytes : list N) (i : nat) : bool :=
  match bytes !! i with Some b => is_digit b | None => false end.

Definition without_commas (value : list N) : list N := retain (λ b, negb (b =? 44)) value.

Definition valid_grouped_decimal (value : list N) : bool :=
  let unsigned := default value (strip_prefix 45 value) in
  let '(whole, fraction) := split_point unsigned in
  if (1 <? length (retain (λ b, (b =? 46)%N) unsigned))%nat || starts_with [46] (rev value) ||
     (18 <? length fraction)%nat || (negb (is_empty fraction) && negb (forallb is_digit fraction))
  then false
  else
    match split_at 44 whole with
    | [] => false
    | leading :: trailing =>
        (1 <=? length leading)%nat && (length leading <=? 3)%nat && forallb is_digit leading &&
        negb (is_empty trailing) &&
        forallb (λ group, (length group =? 3)%nat && forallb is_digit group) trailing &&
        valid_decimal (without_commas value)
    end.

Definition numeric_lexeme_matches (value lexeme : list N) : bool :=
  if negb (valid_decimal value) then false
  else if bool_decide (lexeme = value) then true
  else valid_grouped_decimal lexeme && bool_decide (without_commas lexeme = value).

Fixpoint number_end (fuel : nat) (bytes : list N) (index : nat) : nat :=
  match fuel with
  | O => index
  | S fuel =>
      if digit_at bytes index ||
         (match bytes !! index with Some b => (b =? 46) || (b =? 44) | None => false end &&
          digit_at bytes (S index))
      then number_end fuel bytes (S index) else index
  end.

Definition word_edge (byte : option N) : bool :=
  match byte with Some b => negb (is_ascii_alphanumeric b) && negb (b =? 95) | None => true end.

Fixpoint grounded_from (fuel : nat) (value bytes : list N) (index : nat) : bool :=
  match fuel with
  | O => false
  | S fuel =>
      if (length bytes <=? index)%nat then false
      else
        let starts_number :=
          digit_at bytes index ||
          (match bytes !! index with Some b => b =? 45 | None => false end &&
           digit_at bytes (S index)) in
        if negb starts_number then grounded_from fuel value bytes (S index)
        else
          let finish := number_end (length bytes) bytes (S index) in
          let before := match index with O => None | S i => bytes !! i end in
          if word_edge before && word_edge (bytes !! finish) &&
             numeric_lexeme_matches value (slice index finish bytes)
          then true
          else grounded_from fuel value bytes finish
  end.

(** Every turn of the loop moves on, so the length is enough fuel. *)
Definition quantity_value_is_grounded (value evidence : string) : bool :=
  let bytes := bytes_of evidence in grounded_from (length bytes) (bytes_of value) bytes 0.

Definition QUANTITY_KEYS : list string :=
  ["dimensions"; "measure"; "occurred_at"; "type"; "unit"; "value"].

Definition str_field (key : string) (fields : Fields) : option string :=
  value ← field key fields; json_as_str value.

Definition valid_dimension (entry : string * string) : bool :=
  negb (bool_decide (entry.1 = String.EmptyString)) &&
  bool_decide (canonical_key entry.1 = entry.1) && json_is_scalar entry.2.

Definition quantity_event_from_fields (fields : Fields) : option QuantityEvent :=
  if negb (length fields =? length QUANTITY_KEYS)%nat ||
     negb (forallb (λ key, is_some (field key fields)) QUANTITY_KEYS)
  then None
  else
    type ← str_field "type" fields;
    if negb (bool_decide (type = QUANTITY_EVENT_TYPE)) then None
    else
      measure ← str_field "measure" fields;
      unit ← str_field "unit" fields;
      if bool_decide (measure = String.EmptyString) || bool_decide (unit = String.EmptyString) ||
         negb (bool_decide (canonical_key measure = measure)) ||
         negb (bool_decide (canonical_key unit = unit))
      then None
      else
        value ← str_field "value" fields;
        if negb (valid_decimal (bytes_of value)) then None
        else
          occurred_at ← str_field "occurred_at" fields;
          _ ← parse_timestamp occurred_at;
          dimensions ← field "dimensions" fields;
          dimensions ← json_as_object dimensions;
          if forallb valid_dimension dimensions
          then Some (mkQuantityEvent String.EmptyString String.EmptyString measure value unit
                       occurred_at dimensions)
          else None.

(** A [": "] ends the identity of a projected body and an [" item "] the
    namespace in it. *)
Definition body_parts (body : string) : option (string * string * string) :=
  '(identity, fields) ← split_once (bytes_of ": ") (bytes_of body);
  '(namespace, item_key) ← split_once (bytes_of " item ") identity;
  Some (string_of_bytes namespace, string_of_bytes item_key, string_of_bytes fields).

Definition quantity_event_from_body (body : string) : option QuantityEvent :=
  '(namespace, item_key, fields) ← body_parts body;
  fields ← fields_of_json fields;
  event ← quantity_event_from_fields fields;
  Some (mkQuantityEvent namespace item_key (qe_measure event) (qe_value event) (qe_unit event)
          (qe_occurred_at event) (qe_dimensions event)).

Definition is_quantity (fields : Fields) : bool :=
  bool_decide (str_field "type" fields = Some QUANTITY_EVENT_TYPE).

(** The occurrence date is that of the source or stands in the quote. *)
Definition date_is_grounded (source_body quote : string) (event : QuantityEvent) : bool :=
  match parse_content_date (bytes_of source_body) with
  | Some date => starts_with (bytes_of (date_string date)) (bytes_of (qe_occurred_at event))
  | None => false
  end || contains_bytes (bytes_of quote) (bytes_of (qe_occurred_at event)).

(** ** The fold *)

Definition string_lt (left right : string) : bool := is_lt (str_cmp left right).

(** Stamps are compared as strings. *)
Definition state_intervals_overlap (observation : StructuredObservation)
    (active : ActiveStructuredState) : bool :=
  match ob_valid_from observation, ob_valid_to observation with
  | None, None => negb (is_some (as_valid_to active))
  | valid_from, valid_to =>
      match valid_from, as_valid_to active with
      | Some start, Some end_ => string_lt start end_
      | _, _ => true
      end &&
      match valid_to, as_valid_from active with
      | Some end_, Some start => string_lt start end_
      | _, _ => true
      end
  end.

Definition is_state (item : GroundedObservation) : bool :=
  bool_decide (ob_disposition (go_observation item) = ObservationDisposition.State).
Definition go_identity (item : GroundedObservation) : string * string :=
  (go_namespace item, go_item_key item).

Definition last_states (grounded : list GroundedObservation) : gmap (string * string) nat :=
  foldl (λ m '(index, item), if is_state item then <[go_identity item := index]> m else m) ∅
    (imap pair grounded).

Definition targets_of (active_items : list ActiveStructuredState) (item : GroundedObservation)
    : list UnitId :=
  sort_by N.leb (map as_unit_id
    (retain (λ active,
       bool_decide (canonical_key (as_namespace active) = go_namespace item) &&
       bool_decide (canonical_key (as_item_key active) = go_item_key item) &&
       state_intervals_overlap (go_observation item) active) active_items)).

(** The operation of an observation and the units it is about. *)
Definition operation_of (item : GroundedObservation) (targets : list UnitId)
    : result StructuredStateProviderError.t (StructuredStateOperation.t * list UnitId) :=
  match ob_disposition (go_observation item) with
  | ObservationDisposition.Event => Ok (StructuredStateOperation.Append, [])
  | ObservationDisposition.State =>
      if is_empty (ob_fields (go_observation item)) then
        if is_empty targets
        then Err (invalid_output "structured-state delete has no active target")
        else Ok (StructuredStateOperation.Delete, targets)
      else if is_empty targets then Ok (StructuredStateOperation.Create, targets)
      else Ok (StructuredStateOperation.Replace, targets)
  end.

Definition check_quantity (source_body : string) (operation : StructuredStateOperation.t)
    (observation : StructuredObservation) : result StructuredStateProviderError.t () :=
  if is_quantity (ob_fields observation) then
    event <-? ok_or (quantity_event_from_fields (ob_fields observation))
                (invalid_output "quantity fields violate the canonical contract");
    if negb (quantity_value_is_grounded (qe_value event) (ob_evidence_quote observation))
    then Err (invalid_output "quantity value is not grounded")
    else if negb (bool_decide (operation = StructuredStateOperation.Append)) ||
            negb (date_is_grounded source_body (ob_evidence_quote observation) event)
    then Err (invalid_output "quantity occurrence date is not grounded")
    else Ok ()
  else Ok ().

Definition folded_op (item : GroundedObservation) (operation : StructuredStateOperation.t)
    (target_unit_ids : list UnitId) : StructuredStateOp :=
  let observation := go_observation item in {|
  so_operation := operation;
  so_namespace := go_namespace item;
  so_item_key := go_item_key item;
  so_target_unit_ids := target_unit_ids;
  so_fields := ob_fields observation;
  so_evidence_quote := ob_evidence_quote observation;
  so_source_span := span_string (go_start item, go_end item);
  so_valid_from := ob_valid_from observation;
  so_valid_to := ob_valid_to observation;
|}.

Definition fold_step (source_body : string) (active_items : list ActiveStructuredState)
    (last_state : gmap (string * string) nat) (operations : list StructuredStateOp)
    (indexed : nat * GroundedObservation)
    : result StructuredStateProviderError.t (list StructuredStateOp) :=
  let '(index, item) := indexed in
  let observation := go_observation item in
  if is_state item && negb (bool_decide (last_state !! go_identity item = Some index))
  then Ok operations
  else
    planned <-? operation_of item (targets_of active_items item);
    let '(operation, target_unit_ids) := planned in
    _ <-? check_quantity source_body operation observation;
    Ok (operations ++ [folded_op item operation target_unit_ids]).

Definition fold_structured_observations (source_body : string) (request : StructuredStateRequest)
    (observations : list StructuredObservation) (active_items : list ActiveStructuredState)
    : result StructuredStateProviderError.t (list StructuredStateOp) :=
  grounded <-? grounded_structured_observations source_body request observations;
  try_fold (fold_step source_body active_items (last_states grounded)) [] (imap pair grounded).

(** ** The projection *)

Definition validate_operation_shape (operation : StructuredStateOp)
    : result StructuredStateProviderError.t () :=
  let targets := so_target_unit_ids operation in
  let fields := so_fields operation in
  let valid := match so_operation operation with
               | StructuredStateOperation.Create | StructuredStateOperation.Append =>
                   is_empty targets && negb (is_empty fields)
               | StructuredStateOperation.Replace => negb (is_empty targets) && negb (is_empty fields)
               | StructuredStateOperation.Delete => negb (is_empty targets) && is_empty fields
               end in
  if negb valid then Err (invalid_output "structured-state operation shape is invalid")
  else if negb (bool_decide (NoDup targets))
  then Err (invalid_output "structured-state target ids are duplicated")
  else Ok ().

Record Projection : Set := mkProjection {
  pj_projected : list ProjectedStructuredState;
  pj_identities : gset (string * string);
  pj_used_targets : gset UnitId;
}.

Definition use_target (used : gset UnitId) (target : UnitId)
    : result StructuredStateProviderError.t (gset UnitId) :=
  if bool_decide (target ∈ used)
  then Err (invalid_output "structured-state target is reused in one episode")
  else Ok ({[target]} ∪ used).

(** The quote stands at its span, inside a turn of the user for an episode. *)
Definition quote_in_place (source_body : string) (user_ranges : option (list (nat * nat)))
    (operation : StructuredStateOp) (range : nat * nat) : bool :=
  (range.1 <? range.2)%nat && (range.2 <=? String.length source_body)%nat &&
  bool_decide (get_slice (bytes_of source_body) range.1 range.2 =
               Some (bytes_of (so_evidence_quote operation))) &&
  match user_ranges with Some ranges => any (within range.1 range.2) ranges | None => true end.

Definition check_projected_quantity (source_body : string) (operation : StructuredStateOp)
    : result StructuredStateProviderError.t () :=
  if is_quantity (so_fields operation) then
    event <-? ok_or (quantity_event_from_fields (so_fields operation))
                (invalid_output "quantity fields violate the canonical contract");
    if negb (bool_decide (so_operation operation = StructuredStateOperation.Append)) ||
       negb (date_is_grounded source_body (so_evidence_quote operation) event)
    then Err (invalid_output "quantity occurrence date is not grounded")
    else Ok ()
  else Ok ().

Definition evidence_chunk (source_kind : StructuredSourceKind.t) (local_source_id : string)
    (operation : StructuredStateOp) (range : nat * nat) : ContextualChunk := {|
  ch_id := "evidence-" +:+ StructuredSourceKind.as_str source_kind +:+ "-" +:+ local_source_id +:+
           "-" +:+ span_string range;
  ch_header := "[structured-state evidence]";
  ch_body := so_evidence_quote operation;
  ch_source_span := Some (so_source_span operation);
|}.

Definition predicate_of (source_kind : StructuredSourceKind.t) (local_source_id item_key : string)
    (operation : StructuredStateOp) (range : nat * nat) : string :=
  match so_operation operation with
  | StructuredStateOperation.Append =>
      item_key +:+ "@" +:+ StructuredSourceKind.as_str source_kind +:+ ":" +:+ local_source_id +:+
      ":" +:+ span_string range
  | _ => item_key
  end.

Definition state_body (namespace item_key : string) (fields : Fields) : string :=
  namespace +:+ " item " +:+ item_key +:+ ": " +:+ fields_to_json fields.

Definition projected_state (source_kind : StructuredSourceKind.t)
    (local_source_id namespace item_key : string) (operation : StructuredStateOp)
    (range : nat * nat) : ProjectedStructuredState := {|
  ps_subject := namespace;
  ps_predicate := predicate_of source_kind local_source_id item_key operation range;
  ps_body :=
    match so_operation operation with
    | StructuredStateOperation.Delete =>
        "Deleted structured item " +:+ namespace +:+ "/" +:+ item_key +:+ " from memory"
    | _ => state_body namespace item_key (so_fields operation)
    end;
  ps_admission_hint :=
    match so_operation operation with
    | StructuredStateOperation.Delete => Some AdmissionAction.Invalidate
    | _ => None
    end;
  ps_contextual_chunks := [evidence_chunk source_kind local_source_id operation range];
  ps_valid_from := so_valid_from operation;
  ps_valid_to := so_valid_to operation;
  ps_target_unit_ids :=
    match so_operation operation with
    | StructuredStateOperation.Create => Some []
    | StructuredStateOperation.Replace | StructuredStateOperation.Delete =>
        Some (so_target_unit_ids operation)
    | StructuredStateOperation.Append => None
    end;
|}.

Definition project_step (source_kind : StructuredSourceKind.t) (local_source_id source_body : string)
    (user_ranges : option (list (nat * nat))) (acc : Projection) (operation : StructuredStateOp)
    : result StructuredStateProviderError.t Projection :=
  range <-? ok_or (parse_span (so_source_span operation))
              (invalid_output "evidence span is not an exact user quote");
  if negb (quote_in_place source_body user_ranges operation range)
  then Err (invalid_output "evidence span is not an exact user quote")
  else
    _ <-? validate_operation_shape operation;
    _ <-? validate_interval (so_valid_from operation) (so_valid_to operation);
    used <-? try_fold use_target (pj_used_targets acc) (so_target_unit_ids operation);
    let namespace := canonical_key (so_namespace operation) in
    let item_key := canonical_key (so_item_key operation) in
    if bool_decide (namespace = String.EmptyString) || bool_decide (item_key = String.EmptyString)
    then Err (invalid_output "structured-state identity is not canonicalizable")
    else if bool_decide (so_operation operation = StructuredStateOperation.Create) &&
            bool_decide ((namespace, item_key) ∈ pj_identities acc)
    then Err (invalid_output "duplicate structured-state identity in one episode")
    else
      let identities :=
        if bool_decide (so_operation operation = StructuredStateOperation.Append)
        then pj_identities acc else {[(namespace, item_key)]} ∪ pj_identities acc in
      _ <-? check_projected_quantity source_body operation;
      Ok (mkProjection
            (pj_projected acc ++
             [projected_state source_kind local_source_id namespace item_key operation range])
            identities used).

Definition project_structured_state (source_kind : StructuredSourceKind.t)
    (local_source_id source_body : string) (operations : list StructuredStateOp)
    : result StructuredStateProviderError.t (list ProjectedStructuredState) :=
  let user_ranges := match source_kind with
                     | StructuredSourceKind.Episode => Some (user_turn_ranges (bytes_of source_body))
                     | StructuredSourceKind.Resource => None
                     end in
  projection <-? try_fold (project_step source_kind local_source_id source_body user_ranges)
                   (mkProjection [] ∅ ∅) operations;
  Ok (pj_projected projection).

(** ** The active state *)

Definition active_structured_state (unit : StoredMemoryUnit) : option ActiveStructuredState :=
  let semantic_or_procedural := match mu_kind unit with
                                | MemoryKind.Semantic | MemoryKind.Procedural => true
                                | _ => false
                                end in
  if negb (bool_decide (mu_state unit = UnitState.Active)) || negb semantic_or_procedural ||
     is_some (mu_transaction_to unit)
  then None
  else
    chunk ← head (mu_contextual_chunks unit);
    if negb (bool_decide (ch_header chunk = "[structured-state evidence]")) then None
    else
      '(namespace, item_key, fields) ← body_parts (mu_body unit);
      if bool_decide (namespace = QUANTITY_EVENT_TYPE) then None
      else
        fields ← fields_of_json fields;
        Some (mkActiveStructuredState (mu_id unit) namespace item_key fields
                (mu_valid_from unit) (mu_valid_to unit)).
End structured.
