(* ===== verification/StructuredFacts.v ===== *)
(** * StructuredFacts: extracted state is grounded and consistent

    What a provider observes becomes state only where its quote stands in the
    source.  The fold of observations keeps the last statement about each item
    and every event, the projector takes whatever the fold made, and a
    projected state reads back as the state it was. *)

From S2P Require Import Prelude Text TextFacts Types Float Clock Bitemporal Lineage Store Chunks ChunkFacts.
From S2P Require Import Render Gate Dates Decimal Compile Structured.

(** ** Keys *)

Definition is_key_byte (b : N) : bool := is_digit b || ((97 <=? b) && (b <=? 122)).
Notation key_bytes := (Forall (λ b, is_key_byte b = true)).

(** The pieces of a key, and its text. *)
Definition key_word (w : list N) : Prop := w ≠ [] ∧ key_bytes w.
Definition key_text (l : list N) : Prop := Forall (λ b, is_key_byte b = true ∨ b = 95) l.

Ltac byte_cases :=
  unfold is_key_byte, is_ascii_alphanumeric, ascii_lower, is_digit, ascii_white, is_cont in *;
  repeat match goal with
  | |- context [N.leb ?a ?b] => destruct (N.leb_spec a b)
  | H : context [N.leb ?a ?b] |- _ => destruct (N.leb_spec a b)
  | |- context [N.eqb ?a ?b] => destruct (N.eqb_spec a b)
  | H : context [N.eqb ?a ?b] |- _ => destruct (N.eqb_spec a b)
  end; cbn in *; try done; try lia.

Lemma lower_alphanumeric a :
  is_ascii_alphanumeric (ascii_lower a) = true → is_key_byte (ascii_lower a) = true.
Proof. intros Ha. byte_cases. Qed.

Lemma key_byte_plain b : is_key_byte b = true ∨ b = 95 → ascii_lower b = b ∧ b < 0x80 ∧ b ≠ 32 ∧ b ≠ 58
  ∧ ascii_white b = false.
Proof. intros [Hb| ->]; [|done]. byte_cases. Qed.

Lemma key_byte_alphanumeric b : is_key_byte b = true → is_ascii_alphanumeric b = true.
Proof. intros Hb. byte_cases. Qed.

Lemma split_tokens_words word l : key_bytes word →
  Forall key_word (split_tokens word (map ascii_lower l)).
Proof.
  revert word. induction l as [|a l IH]; intros word Hw; cbn [map split_tokens].
  - destruct word as [|b word]; cbn [is_empty]; [constructor|]. constructor; [|constructor].
    split; [|by apply Forall_rev]. intros E%(f_equal (@length N)). rewrite length_rev in E. done.
  - destruct (is_ascii_alphanumeric (ascii_lower a)) eqn:Ea.
    + apply IH. constructor; [by apply lower_alphanumeric|done].
    + apply Forall_app_2; [|by apply IH]. destruct word as [|b word]; cbn [is_empty]; [constructor|].
      constructor; [|constructor]. split; [|by apply Forall_rev].
      intros E%(f_equal (@length N)). rewrite length_rev in E. done.
Qed.

Lemma split_tokens_word word w rest : key_bytes w →
  split_tokens word (w ++ rest) = split_tokens (rev w ++ word) rest.
Proof.
  intros Hw. revert word. induction Hw as [|b w Hb _ IH]; intros word; [done|].
  cbn [app split_tokens]. rewrite (key_byte_alphanumeric b Hb), IH. cbn [rev].
  by rewrite <-app_assoc.
Qed.

Lemma flush_one (w : list N) : w ≠ [] → (if is_empty (rev w) then [] else [rev (rev w)]) = [w].
Proof.
  intros Hne. rewrite rev_involutive. destruct (rev w) eqn:Er; [|done].
  apply (f_equal (@rev N)) in Er. by rewrite rev_involutive in Er.
Qed.

Lemma split_join words : Forall key_word words → split_tokens [] (join_underscore words) = words.
Proof.
  induction 1 as [|w words [Hne Hw] Hws IH]; [done|].
  assert (∀ rest, split_tokens [] (w ++ 95 :: rest) = w :: split_tokens [] rest) as Hstep.
  { intros rest. rewrite split_tokens_word, app_nil_r by done. cbn [split_tokens].
    by rewrite flush_one. }
  destruct words as [|w' words].
  - cbn [join_underscore]. rewrite <-(app_nil_r w) at 1. rewrite split_tokens_word, app_nil_r by done.
    cbn [split_tokens]. by rewrite flush_one.
  - change (join_underscore (w :: w' :: words)) with (w ++ 95 :: join_underscore (w' :: words)).
    by rewrite Hstep, IH.
Qed.

Lemma join_key_text words : Forall key_word words → key_text (join_underscore words).
Proof.
  induction 1 as [|w words [_ Hw] _ IH]; [constructor|].
  assert (key_text w) as Hk by (eapply Forall_impl; [exact Hw|]; auto).
  destruct words; [done|]. cbn [join_underscore]. apply Forall_app_2; [done|].
  constructor; [by right|done].
Qed.

Lemma chars_ascii l : Forall (λ b, b < 0x80) l → chars l = map (λ b, [b]) l.
Proof.
  induction 1 as [|b l Hb Hl IH]; [done|]. rewrite chars_cons, IH. destruct l as [|c l]; [done|].
  apply Forall_cons in Hl as [Hc _]. cbn [map].
  assert (head_cont [c] = false) as ->; [|done].
  cbn [head_cont]. unfold is_cont. apply andb_false_iff. left. by apply N.leb_gt.
Qed.

Lemma trim_key l : key_text l → trim l = l.
Proof.
  intros Hl. assert (Forall (λ b, b < 0x80) l) as Ha
    by (eapply Forall_impl; [exact Hl|]; intros b ?%key_byte_plain; tauto).
  assert (∀ k, key_text k → drop_while is_whitespace (map (λ b, [b]) k) = map (λ b, [b]) k) as Hdrop.
  { intros k [|b k' Hb Hk]; [done|]. cbn [map drop_while]. unfold is_whitespace.
    destruct (key_byte_plain b Hb) as (_ & _ & _ & _ & ->). done. }
  assert (concat (map (λ b, [b]) l) = l) as Hc by (rewrite <-(chars_ascii l Ha); apply chars_concat).
  unfold trim, trim_start, trim_end. rewrite (chars_ascii l Ha), Hdrop, Hc by done.
  rewrite (chars_ascii l Ha), <-map_rev, Hdrop by (by apply Forall_rev).
  by rewrite map_rev, rev_involutive.
Qed.

Lemma lower_key l : key_text l → map ascii_lower l = l.
Proof.
  induction 1 as [|b l Hb _ IH]; [done|]. cbn [map]. rewrite IH.
  by destruct (key_byte_plain b Hb) as [-> _].
Qed.

Lemma canonical_key_text v : key_text (bytes_of (canonical_key v)).
Proof.
  unfold canonical_key.
  assert (key_text (join_underscore (split_tokens [] (map ascii_lower (trim (bytes_of v)))))) as Hk
    by (by apply join_key_text, split_tokens_words).
  rewrite bytes_of_string; [done|]. eapply Forall_impl; [exact Hk|].
  intros b Hb%key_byte_plain. lia.
Qed.

(** A canonical key is its own canonical key. *)
Lemma canonical_key_idem v : canonical_key (canonical_key v) = canonical_key v.
Proof.
  pose proof (canonical_key_text v) as Hk. unfold canonical_key at 1.
  rewrite trim_key, lower_key by done. f_equal. revert Hk. unfold canonical_key.
  set (words := split_tokens _ _). intros Hk.
  assert (Forall key_word words) as Hw by (by apply split_tokens_words).
  assert (Forall (λ b, b < 256) (join_underscore words)) as Hb.
  { eapply Forall_impl; [by apply join_key_text|]. intros b ?%key_byte_plain. lia. }
  by rewrite bytes_of_string, split_join.
Qed.

(** ** Spans and slices *)

Definition addressable (body : string) : Prop := N.of_nat (String.length body) <= u64_max.

Lemma parse_span_string start end_ :
  N.of_nat start <= u64_max → N.of_nat end_ <= u64_max →
  parse_span (span_string (start, end_)) = Some (start, end_).
Proof.
  intros Hs He. unfold parse_span, span_string. cbn [fst snd]. rewrite bytes_of_string.
  - unfold show_span. cbn [app]. rewrite split_once_digits by apply show_N_spec.
    cbn [mbind option_bind]. rewrite !parse_show_N by done. cbn [mbind option_bind].
    by rewrite !Nat2N.id.
  - unfold show_span. rewrite !Forall_app. split_and!; [apply show_N_bytes| |apply show_N_bytes].
    by apply Forall_singleton.
Qed.

Lemma length_bytes_of s : length (bytes_of s) = String.length s.
Proof.
  unfold bytes_of. rewrite length_map. induction s as [|a s IH]; [done|]. cbn. by f_equal.
Qed.

Lemma get_slice_bounds l i j s : get_slice l i j = Some s →
  (i <= j)%nat ∧ (j <= length l)%nat ∧ s = slice i j l.
Proof.
  unfold get_slice. destruct (_ && _) eqn:E; [|done]. intros [= <-].
  apply andb_true_iff in E as [[[Hi%Nat.leb_le Hj%Nat.leb_le]%andb_true_iff _]%andb_true_iff _].
  done.
Qed.

(** An occurrence lies inside the text. *)
Lemma match_from_bounds fuel pat l i k : k ∈ match_from fuel pat l i →
  (i <= k)%nat ∧ (k + length pat <= i + length l)%nat.
Proof.
  revert l i. induction fuel as [|fuel IH]; intros l i; cbn [match_from]; [set_solver|].
  destruct l as [|b l]; [set_solver|]. destruct (starts_with pat (b :: l)) eqn:Es.
  - assert (length pat <= length (b :: l))%nat as Hl.
    { clear -Es. revert Es. generalize (b :: l). induction pat as [|p pat IHp]; intros k Es; [cbn; lia|].
      destruct k as [|c k]; [done|]. cbn in Es. apply andb_true_iff in Es as [_ Es].
      specialize (IHp k Es). cbn. lia. }
    intros [->|Hk]%elem_of_cons; [lia|]. apply IH in Hk. rewrite length_drop in Hk. lia.
  - intros Hk%IH. cbn. lia.
Qed.

Lemma try_map_Forall2 {E A B} (f : A → result E B) l ys :
  try_map f l = Ok ys → Forall2 (λ x y, f x = Ok y) l ys.
Proof.
  unfold try_map. intros Hf. cut (∀ acc, try_fold (λ acc x, y <-? f x; Ok (acc ++ [y])) acc l = Ok ys →
    ∃ zs, ys = acc ++ zs ∧ Forall2 (λ x y, f x = Ok y) l zs).
  { intros Hc. by destruct (Hc [] Hf) as (zs & -> & ?). }
  clear Hf. induction l as [|x l IH]; intros acc; cbn [try_fold].
  - intros [= <-]. exists []. by rewrite app_nil_r.
  - intros (acc' & (y & Hy & [= <-])%result_bind_ok & Hrest)%result_bind_ok.
    destruct (IH _ Hrest) as (zs & -> & Hz). exists (y :: zs). rewrite <-app_assoc. by split; [|constructor].
Qed.

Lemma elem_of_imap_pair {A} (l : list A) i x : (i, x) ∈ imap pair l → l !! i = Some x.
Proof.
  intros (j & Hj)%list_elem_of_lookup. rewrite list_lookup_imap in Hj.
  apply fmap_Some in Hj as (y & Hy & [= -> ->]). done.
Qed.

Section structured_facts.
Context `{Jiff} `{Sha256} `{Calendar} `{SerdeJson}.

Lemma evidence_slice_ok kind body i j s : evidence_slice kind body i j = Ok s →
  get_slice (bytes_of body) i j = Some (bytes_of (es_body s)) ∧ (i < j)%nat ∧
  (j <= String.length body)%nat ∧ es_source_span s = span_string (i, j).
Proof.
  unfold evidence_slice. destruct (get_slice (bytes_of body) i j) as [q|] eqn:Eq; [|done].
  cbn [mbind option_bind]. destruct (is_empty q) eqn:Ee; [done|]. intros [= <-].
  destruct (get_slice_bounds _ _ _ _ Eq) as (Hij & Hj & ->).
  rewrite length_bytes_of in Hj. split_and!; [|..|done|done].
  - cbn [es_body]. f_equal. symmetry. apply bytes_of_string. unfold slice.
    apply Forall_take, Forall_drop, bytes_of_bound.
  - apply get_slice_length in Eq. destruct (slice i j (bytes_of body)); [done|cbn in Eq; lia].
Qed.

(** A slice of an episode is a turn of the user. *)
Lemma episode_slice body slices s i j : addressable body →
  evidence_slices_for_episode body = Ok slices → s ∈ slices →
  parse_span (es_source_span s) = Some (i, j) → (i, j) ∈ user_turn_ranges (bytes_of body).
Proof.
  intros Hb Hs%try_map_Forall2 Hin Hp. apply list_elem_of_lookup in Hin as [k Hk].
  destruct (Forall2_lookup_r _ _ _ _ _ Hs Hk) as ([a b] & Hab & Hok).
  apply evidence_slice_ok in Hok as (_ & Hlt & Hle & Hspan). cbn [fst snd] in *.
  unfold addressable in Hb. rewrite Hspan, parse_span_string in Hp by lia. injection Hp as <- <-.
  apply list_elem_of_lookup_2, elem_of_retain in Hab as [Hab _]. done.
Qed.

(** ** Grounded observations *)

Definition ranges_of (kind : StructuredSourceKind.t) (body : string) : option (list (nat * nat)) :=
  match kind with
  | StructuredSourceKind.Episode => Some (user_turn_ranges (bytes_of body))
  | StructuredSourceKind.Resource => None
  end.

Record grounded_in (kind : StructuredSourceKind.t) (body : string) (item : GroundedObservation)
    : Prop := {
  gi_valid : validate_structured_observation (go_observation item) = Ok ();
  gi_namespace : go_namespace item = canonical_key (ob_namespace (go_observation item));
  gi_item_key : go_item_key item = canonical_key (ob_item_key (go_observation item));
  gi_bounds : (go_start item < go_end item)%nat ∧ (go_end item <= String.length body)%nat;
  gi_quote : get_slice (bytes_of body) (go_start item) (go_end item) =
    Some (bytes_of (ob_evidence_quote (go_observation item)));
  gi_turn : match ranges_of kind body with
            | Some ranges => any (within (go_start item) (go_end item)) ranges = true
            | None => True
            end;
}.

(** What the table of slices knows. *)
Definition slices_sound (kind : StructuredSourceKind.t) (body : string)
    (slices : gmap string (EvidenceSlice * nat)) : Prop :=
  ∀ id s i, slices !! id = Some (s, i) → ∃ j,
    get_slice (bytes_of body) i j = Some (bytes_of (es_body s)) ∧
    match ranges_of kind body with Some ranges => (i, j) ∈ ranges | None => True end.

Lemma check_slice_sound request body canonical slices s slices' : addressable body →
  match sr_source_kind request with
  | StructuredSourceKind.Episode =>
      ∃ l, canonical = Some l ∧ evidence_slices_for_episode body = Ok l
  | StructuredSourceKind.Resource => canonical = None
  end →
  slices_sound (sr_source_kind request) body slices →
  check_slice request body canonical slices s = Ok slices' →
  slices_sound (sr_source_kind request) body slices'.
Proof.
  intros Hb Hcan Hs. unfold check_slice. destruct (parse_span (es_source_span s)) as [[i j]|] eqn:Ep;
    [|done]. cbn [ok_or result_bind fst snd].
  intros (expected & He & Hok)%result_bind_ok.
  destruct (negb _ || _ || _) eqn:Ec in Hok; [done|]. injection Hok as <-.
  apply orb_false_iff in Ec as [[Eexp Ecan]%orb_false_iff _]. apply negb_false_iff, bool_decide_eq_true in Eexp.
  subst expected. intros id s' i' Hl. destruct (decide (id = es_id s)) as [->|Hne].
  - rewrite lookup_insert_eq in Hl. injection Hl as <- <-. exists j.
    destruct (evidence_slice_ok _ _ _ _ _ He) as (Hq & _). split; [done|].
    destruct (sr_source_kind request); cbn [ranges_of]; [|done].
    destruct Hcan as (l & -> & Hl). apply negb_false_iff, bool_decide_eq_true in Ecan.
    by eapply episode_slice.
  - rewrite lookup_insert_ne in Hl by done. by eapply Hs.
Qed.

Lemma ground_observation_grounded kind body slices o item : slices_sound kind body slices →
  ground_observation body slices o = Ok item → go_observation item = o ∧ grounded_in kind body item.
Proof.
  intros Hs. unfold ground_observation.
  intros ([] & Hv & Hok)%result_bind_ok.
  destruct (slices !! _) as [[s parent]|] eqn:El; [|done]. cbn [ok_or result_bind] in Hok.
  destruct (match_indices _ _) as [|k [|? ?]] eqn:Em; [done| |done].
  case_bool_decide as Eq; [|done]. cbn [negb] in Hok. injection Hok as <-.
  assert (ob_evidence_quote o ≠ String.EmptyString) as Hne.
  { intros E. unfold validate_structured_observation in Hv.
    destruct (_ || _); [done|]. rewrite E, orb_true_r in Hv. done. }
  assert (String.length (ob_evidence_quote o) ≠ 0%nat) as Hlen by (by destruct (ob_evidence_quote o)).
  destruct (get_slice_bounds _ _ _ _ Eq) as (_ & Hj & _). rewrite length_bytes_of in Hj.
  split; [done|]. split; cbn [go_observation go_namespace go_item_key go_start go_end];
    [done|done|done|lia|done|].
  destruct (Hs _ _ _ El) as (j & Hslice & Hr). destruct (ranges_of kind body) as [ranges|]; [|done].
  apply any_true. exists (parent, j). split; [done|]. unfold within. cbn [fst snd].
  assert (k ∈ match_indices (bytes_of (es_body s)) (bytes_of (ob_evidence_quote o))) as Hk
    by (rewrite Em; by apply list_elem_of_here).
  apply match_from_bounds in Hk as [_ Hk]. rewrite length_bytes_of in Hk.
  apply get_slice_length in Hslice. apply andb_true_iff. rewrite !Nat.leb_le. lia.
Qed.

(** The observations at their places, then in the order of the places. *)
Lemma grounded_placed request body observations grounded : addressable body →
  grounded_structured_observations body request observations = Ok grounded →
  ∃ placed, map go_observation placed = observations ∧
    Forall (grounded_in (sr_source_kind request) body) placed ∧
    grounded = sort_by grounded_leb placed.
Proof.
  intros Hb. unfold grounded_structured_observations. destruct (negb _); [done|].
  intros (canonical & Hcan & Hok)%result_bind_ok.
  apply result_bind_ok in Hok as (slices & Hs & Hok).
  apply result_bind_ok in Hok as (items & Hi%try_map_Forall2 & [= <-]).
  assert (slices_sound (sr_source_kind request) body slices) as Hsound.
  { eapply (try_fold_ind _ (slices_sound (sr_source_kind request) body)); [| |exact Hs].
    - intros s m m' _ Hm Hc. eapply check_slice_sound; [done| |exact Hm|exact Hc].
      destruct (sr_source_kind request); cbn in Hcan.
      + apply result_bind_ok in Hcan as (l & Hl & [= <-]). by exists l.
      + by injection Hcan as <-.
    - intros id s i Hl. by rewrite lookup_empty in Hl. }
  assert (Forall2 (λ o item, go_observation item = o ∧ grounded_in (sr_source_kind request) body item)
            observations items) as Hg.
  { eapply Forall2_impl; [exact Hi|]. intros o item. by apply ground_observation_grounded. }
  exists items. split; [|split; [|done]].
  - clear -Hg. induction Hg as [|o item os items [<- _] _ IH]; [done|]. cbn [map]. by rewrite IH.
  - apply Forall_forall. intros item Hin. apply list_elem_of_lookup in Hin as [k Hk].
    by destruct (Forall2_lookup_r _ _ _ _ _ Hg Hk) as (o & _ & _ & ?).
Qed.

Lemma grounded_observations request body observations grounded : addressable body →
  grounded_structured_observations body request observations = Ok grounded →
  map go_observation grounded ≡ₚ observations ∧
  Forall (grounded_in (sr_source_kind request) body) grounded.
Proof.
  intros Hb Hg. destruct (grounded_placed _ _ _ _ Hb Hg) as (placed & <- & Hplaced & ->).
  by rewrite sort_by_perm.
Qed.

(** ** The fold *)

Definition same_state (item other : GroundedObservation) : bool :=
  is_state other && bool_decide (go_identity other = go_identity item).

(** The reference: events stay, and of the states of one item the last. *)
Fixpoint kept (grounded : list GroundedObservation) : list GroundedObservation :=
  match grounded with
  | [] => []
  | item :: rest =>
      if is_state item && any (same_state item) rest then kept rest else item :: kept rest
  end.

Lemma last_states_snoc l x : last_states (l ++ [x]) =
  if is_state x then <[go_identity x := length l]> (last_states l) else last_states l.
Proof.
  unfold last_states. rewrite imap_app, foldl_app. cbn. by rewrite Nat.add_0_r.
Qed.

Lemma any_app {A} (p : A → bool) l k : any p (l ++ k) = any p l || any p k.
Proof. apply existsb_app. Qed.

Lemma last_states_spec l i item : l !! i = Some item → is_state item = true →
  (last_states l !! go_identity item = Some i ↔ any (same_state item) (drop (S i) l) = false).
Proof.
  revert i. induction l as [|x l IH] using rev_ind; intros i Hi Hs; [done|].
  rewrite last_states_snoc. apply lookup_app_Some in Hi as [Hi|[Hge Hi]].
  - pose proof (lookup_lt_Some _ _ _ Hi) as Hlt.
    rewrite drop_app_le, any_app by lia.
    assert (any (same_state item) [x] = same_state item x) as -> by apply orb_false_r.
    unfold same_state at 2. destruct (is_state x) eqn:Ex; cbn [andb]; [|rewrite orb_false_r; by apply IH].
    case_bool_decide as Eid.
    + rewrite Eid, lookup_insert_eq, orb_true_r. split; [|done]. intros [= E]. lia.
    + rewrite lookup_insert_ne, orb_false_r by done. by apply IH.
  - apply list_lookup_singleton_Some in Hi as [Hz ->]. assert (i = length l) as -> by lia.
    rewrite Hs, lookup_insert_eq, drop_ge by (rewrite length_app; cbn; lia). done.
Qed.

(** The operation of a kept observation. *)
Definition op_for (source_body : string) (active_items : list ActiveStructuredState)
    (item : GroundedObservation) (op : StructuredStateOp) : Prop :=
  ∃ operation targets, operation_of item (targets_of active_items item) = Ok (operation, targets) ∧
    check_quantity source_body operation (go_observation item) = Ok () ∧
    op = folded_op item operation targets.

Lemma fold_keeps source_body active_items pre rest ops ops' :
  try_fold (fold_step source_body active_items (last_states (pre ++ rest))) ops
    (imap (λ i x, ((length pre + i)%nat, x)) rest) = Ok ops' →
  ∃ new, ops' = ops ++ new ∧ Forall2 (op_for source_body active_items) (kept rest) new.
Proof.
  revert pre ops. induction rest as [|item rest IH]; intros pre ops.
  - cbn. intros [= <-]. exists []. by rewrite app_nil_r.
  - cbn [imap try_fold]. rewrite Nat.add_0_r. intros (ops1 & Hstep & Hrest)%result_bind_ok.
    replace (imap _ rest) with (imap (λ i x, ((length (pre ++ [item]) + i)%nat, x)) rest) in Hrest
      by (apply imap_ext; intros; cbn; rewrite length_app; cbn; f_equal; lia).
    replace (pre ++ item :: rest) with ((pre ++ [item]) ++ rest) in Hrest, Hstep by (by rewrite <-app_assoc).
    destruct (IH _ _ Hrest) as (new & -> & Hnew). cbn [kept].
    assert (is_state item && negb (bool_decide (last_states ((pre ++ [item]) ++ rest) !!
              go_identity item = Some (length pre))) = is_state item && any (same_state item) rest) as Ekeep.
    { destruct (is_state item) eqn:Es; [|done]. cbn [andb].
      assert (((pre ++ [item]) ++ rest) !! length pre = Some item) as Hl
        by (rewrite <-app_assoc; by apply list_lookup_middle).
      pose proof (last_states_spec _ _ _ Hl Es) as Hspec.
      replace (drop (S (length pre)) ((pre ++ [item]) ++ rest)) with rest in Hspec
        by (rewrite drop_app_length'; [done|rewrite length_app; cbn; lia]).
      case_bool_decide as Eb; cbn [negb]; [by rewrite (proj1 Hspec Eb)|].
      destruct (any _ rest) eqn:Ea; [done|]. by destruct Eb; apply Hspec. }
    unfold fold_step in Hstep. rewrite Ekeep in Hstep.
    destruct (is_state item && any (same_state item) rest).
    + injection Hstep as <-. by exists new.
    + apply result_bind_ok in Hstep as ([operation targets] & Hop & Hstep).
      apply result_bind_ok in Hstep as ([] & Hq & [= <-]).
      exists (folded_op item operation targets :: new). rewrite <-app_assoc. split; [done|].
      constructor; [|done]. by exists operation, targets.
Qed.

Lemma kept_sub l item : item ∈ kept l → item ∈ l.
Proof.
  induction l as [|x l IH]; [done|]. cbn [kept]. destruct (_ && _); [set_solver|].
  intros [->|Hi]%elem_of_cons; set_solver.
Qed.

Lemma kept_identities l : NoDup (map go_identity (retain is_state (kept l))).
Proof.
  induction l as [|x l IH]; [constructor|]. cbn [kept].
  destruct (is_state x) eqn:Ex; cbn [andb]; [|by rewrite retain_cons, Ex].
  destruct (any (same_state x) l) eqn:Ea; [done|]. rewrite retain_cons, Ex. cbn [map].
  constructor; [|done]. intros (y & Ey & [Hy Hs]%elem_of_retain)%list_elem_of_fmap.
  apply kept_sub in Hy. rewrite any_false in Ea. specialize (Ea y Hy). unfold same_state in Ea.
  rewrite Hs, bool_decide_true in Ea; done.
Qed.

(** *** The operation of an observation, told apart from the fold *)

(** Where an observation stands in the source. *)
Definition place (item : GroundedObservation) : nat * nat := (go_start item, go_end item).
Definition no_later (a b : nat * nat) : Prop := (a.1 < b.1)%nat ∨ (a.1 = b.1 ∧ (a.2 ≤ b.2)%nat).

(** Neither the fact observed ends before the unit begins, nor the unit before
    the fact: intervals are half open, an absent end is no end.  A fact of no
    date meets the units that have not ended. *)
Definition meets (o : StructuredObservation) (a : ActiveStructuredState) : Prop :=
  match ob_valid_from o, ob_valid_to o with
  | None, None => as_valid_to a = None
  | _, _ =>
      (∀ start end_, ob_valid_from o = Some start → as_valid_to a = Some end_ →
         str_cmp start end_ = Lt) ∧
      (∀ start end_, as_valid_from a = Some start → ob_valid_to o = Some end_ →
         str_cmp start end_ = Lt)
  end.

(** The active units of the item that a fact meets. *)
Definition targeted (active : list ActiveStructuredState) (o : StructuredObservation)
    (a : ActiveStructuredState) : Prop :=
  a ∈ active ∧ canonical_key (as_namespace a) = canonical_key (ob_namespace o) ∧
  canonical_key (as_item_key a) = canonical_key (ob_item_key o) ∧ meets o a.

Record operation_for (body : string) (active : list ActiveStructuredState)
    (item : GroundedObservation) (op : StructuredStateOp) : Prop := {
  of_content : let o := go_observation item in
    so_namespace op = canonical_key (ob_namespace o) ∧
    so_item_key op = canonical_key (ob_item_key o) ∧ so_fields op = ob_fields o ∧
    so_evidence_quote op = ob_evidence_quote o ∧ so_valid_from op = ob_valid_from o ∧
    so_valid_to op = ob_valid_to o ∧ parse_span (so_source_span op) = Some (place item);
  of_kind : match ob_disposition (go_observation item) with
    | ObservationDisposition.Event =>
        so_operation op = StructuredStateOperation.Append ∧ so_target_unit_ids op = []
    | ObservationDisposition.State =>
        StronglySorted N.le (so_target_unit_ids op) ∧
        (NoDup (map as_unit_id active) → NoDup (so_target_unit_ids op)) ∧
        (∀ t, t ∈ so_target_unit_ids op ↔
           ∃ a, targeted active (go_observation item) a ∧ as_unit_id a = t) ∧
        (so_operation op = StructuredStateOperation.Create ∧ so_fields op ≠ [] ∧
           so_target_unit_ids op = [] ∨
         so_operation op = StructuredStateOperation.Replace ∧ so_fields op ≠ [] ∧
           so_target_unit_ids op ≠ [] ∨
         so_operation op = StructuredStateOperation.Delete ∧ so_fields op = [] ∧
           so_target_unit_ids op ≠ [])
    end;
  of_quantity : str_field "type" (so_fields op) = Some QUANTITY_EVENT_TYPE →
    so_operation op = StructuredStateOperation.Append ∧
    ∃ event, quantity_event_from_fields (so_fields op) = Some event ∧
      quantity_value_is_grounded (qe_value event) (so_evidence_quote op) = true ∧
      date_is_grounded body (so_evidence_quote op) event = true;
}.

Lemma state_intervals_overlap_iff o a : state_intervals_overlap o a = true ↔ meets o a.
Proof.
  unfold state_intervals_overlap, meets, string_lt, is_lt.
  destruct (ob_valid_from o) as [from|], (ob_valid_to o) as [to|],
    (as_valid_from a) as [afrom|], (as_valid_to a) as [ato|]; cbn; rewrite ?andb_true_iff;
    try (destruct (str_cmp from ato) eqn:E1); try (destruct (str_cmp afrom to) eqn:E2);
    split; intros Hm; repeat split; try done; try (intros; naive_solver congruence);
    try (by destruct Hm as [Hm _]; specialize (Hm _ _ eq_refl eq_refl); congruence);
    try (by destruct Hm as [_ Hm]; specialize (Hm _ _ eq_refl eq_refl); congruence).
Qed.

Lemma targets_of_iff active item t : t ∈ targets_of active item ↔
  ∃ a, a ∈ active ∧ as_unit_id a = t ∧ canonical_key (as_namespace a) = go_namespace item ∧
    canonical_key (as_item_key a) = go_item_key item ∧
    state_intervals_overlap (go_observation item) a = true.
Proof.
  unfold targets_of. rewrite elem_of_sort_by, list_elem_of_fmap. split.
  - intros (a & -> & [Ha Hp]%elem_of_retain). bool_prop. by exists a.
  - intros (a & Ha & <- & Hn & Hk & Ho). exists a. split; [done|]. apply elem_of_retain.
    split; [done|]. by rewrite Hn, Hk, Ho, !bool_decide_true.
Qed.

Lemma targets_of_NoDup active item : NoDup (map as_unit_id active) → NoDup (targets_of active item).
Proof.
  intros Hnd. unfold targets_of. rewrite sort_by_perm. eapply sublist_NoDup; [exact Hnd|].
  apply (fmap_sublist as_unit_id), retain_sublist.
Qed.

Lemma StronglySorted_weaken {A} (R Q : A → A → Prop) l :
  (∀ x y, R x y → Q x y) → StronglySorted R l → StronglySorted Q l.
Proof.
  intros HRQ. induction 1 as [|x l _ IH Hx]; constructor; [done|].
  eapply Forall_impl; [exact Hx|]. auto.
Qed.

Lemma targets_of_sorted active item : StronglySorted N.le (targets_of active item).
Proof.
  unfold targets_of. eapply StronglySorted_weaken; [|apply (sort_by_sorted N.leb)].
  - intros x y. apply N.leb_le.
  - intros x y. rewrite !N.leb_le. lia.
  - intros x y z. rewrite !N.leb_le. lia.
Qed.

Lemma op_for_spec kind body active item op : addressable body → grounded_in kind body item →
  op_for body active item op → operation_for body active item op.
Proof.
  intros Hb Hg (operation & ts & Hop & Hq & ->). pose proof Hg as [_ Hn Hk [Hlt Hle] _ _].
  unfold addressable in Hb. split; cbn [folded_op so_namespace so_item_key so_fields so_evidence_quote
    so_valid_from so_valid_to so_source_span so_operation so_target_unit_ids].
  - rewrite parse_span_string by lia. done.
  - unfold operation_of in Hop. destruct (ob_disposition _); [|by injection Hop as <- <-].
    assert (ts = targets_of active item) as ->.
    { destruct (is_empty (ob_fields _)), (is_empty (targets_of _ _)); congruence. }
    split; [apply targets_of_sorted|]. split; [apply targets_of_NoDup|]. split.
    + intros t. rewrite targets_of_iff, Hn, Hk. unfold targeted.
      setoid_rewrite state_intervals_overlap_iff. naive_solver.
    + destruct (ob_fields (go_observation item)) as [|f fs], (targets_of active item) as [|u us];
        cbn [is_empty] in Hop; [done|injection Hop as <-..]; auto 8.
  - intros Ht. unfold check_quantity, is_quantity in Hq. rewrite bool_decide_true in Hq by done.
    apply result_bind_ok in Hq as (event & He & Hq).
    destruct (quantity_value_is_grounded _ _) eqn:Ev; [|done]. cbn [negb] in Hq.
    destruct (bool_decide (operation = _)) eqn:Eo; [|done].
    destruct (date_is_grounded _ _ _) eqn:Ed; [|done].
    split; [by apply bool_decide_eq_true in Eo|]. exists event. split; [|done].
    by destruct (quantity_event_from_fields _); [injection He as ->|].
Qed.

Lemma grounded_leb_iff l r : grounded_leb l r = true ↔ no_later (place l) (place r).
Proof.
  unfold grounded_leb, range_leb, no_later, place. cbn [fst snd].
  rewrite orb_true_iff, andb_true_iff, Nat.ltb_lt, Nat.eqb_eq, Nat.leb_le. done.
Qed.

Lemma sort_by_ties {A} (leb : A → A → bool) k l :
  (∀ x y z, leb x y = true → leb y z = true → leb x z = true) →
  let tied y := leb k y && leb y k in
  retain tied (sort_by leb l) = retain tied l.
Proof.
  intros Htrans tied. induction l as [|x l IH]; [done|]. cbn [sort_by].
  assert (∀ m, retain tied (insert_sorted leb x m) = retain tied (x :: m)) as ->.
  { induction m as [|y m IHm]; [done|]. cbn [insert_sorted]. destruct (leb x y) eqn:E; [done|].
    rewrite !retain_cons in *. rewrite IHm. unfold tied.
    destruct (leb k x && leb x k) eqn:Ex, (leb k y && leb y k) eqn:Ey; try done. exfalso.
    bool_prop. assert (leb x y = true) by eauto. congruence. }
  by rewrite !retain_cons, IH.
Qed.

(** C34: the fold of a provider's observations keeps every event and of the
    states of one item the last in the source.  The observations, each at the
    place of its exact quote, are taken in the order of their places, those at
    one place in the order given; the operations are those of the kept ones, in
    that order: an event appends; a state creates, replaces or, without
    fields, deletes, and its targets are exactly the active units of its item
    whose interval it meets. *)
Theorem fold_keeps_last_states body request observations active ops : addressable body →
  fold_structured_observations body request observations active = Ok ops →
  ∃ placed grounded, map go_observation placed = observations ∧
    Forall (grounded_in (sr_source_kind request) body) placed ∧
    grounded ≡ₚ placed ∧
    StronglySorted (λ a b, no_later (place a) (place b)) grounded ∧
    (∀ at_, let tied item := bool_decide (place item = at_) in
       retain tied grounded = retain tied placed) ∧
    Forall2 (operation_for body active) (kept grounded) ops.
Proof.
  intros Hb. unfold fold_structured_observations. intros (grounded & Hg & Hf)%result_bind_ok.
  destruct (grounded_placed _ _ _ _ Hb Hg) as (placed & Hobs & Hplaced & ->).
  destruct (fold_keeps body active [] _ [] ops Hf) as (new & -> & Hnew). cbn [app].
  exists placed, (sort_by grounded_leb placed).
  assert (∀ x y z, grounded_leb x y = true → grounded_leb y z = true → grounded_leb x z = true) as Ht
    by (intros x y z; rewrite !grounded_leb_iff; unfold no_later; lia).
  split_and!; [done|done|apply sort_by_perm| | |].
  - eapply StronglySorted_weaken; [|apply (sort_by_sorted grounded_leb); [intros x y|exact Ht]].
    + intros x y. by rewrite grounded_leb_iff.
    + rewrite !grounded_leb_iff. unfold no_later. lia.
  - intros at_. set (tied item := bool_decide (place item = at_)). 
    change (retain tied (sort_by grounded_leb placed) = retain tied placed).
    destruct (retain tied placed) as [|k rest] eqn:Ek.
    + apply retain_none. intros y Hy%elem_of_sort_by. apply not_true_iff_false. intros Hp.
      apply (not_elem_of_nil y). rewrite <-Ek. by apply elem_of_retain.
    + assert (k ∈ retain tied placed) as [_ Hk]%elem_of_retain by (rewrite Ek; left).
      rewrite <-Ek. clear Ek. apply bool_decide_eq_true in Hk.
      assert (∀ l, retain tied l = retain (λ y, grounded_leb k y && grounded_leb y k) l) as Hext.
      { intros l. apply retain_ext. intros y _. apply eq_bool_prop_intro. unfold tied.
        rewrite !Is_true_true, bool_decide_eq_true, andb_true_iff, !grounded_leb_iff, <-Hk.
        unfold no_later, place. cbn. split; [intros [= -> ->]; lia|intros ?; f_equal; lia]. }
      rewrite !Hext. by apply sort_by_ties.
  - assert (Forall (grounded_in (sr_source_kind request) body) (kept (sort_by grounded_leb placed))) as Hk.
    { apply Forall_forall. intros item Hin%kept_sub%elem_of_sort_by.
      by apply (proj1 (Forall_forall _ _) Hplaced). }
    clear -Hb Hk Hnew. induction Hnew as [|item op items ops Ho _ IH]; [constructor|].
    apply Forall_cons in Hk as [Hi Hk]. constructor; [by eapply op_for_spec|by apply IH].
Qed.

(** ** The projection of what was folded *)

Section project.
Context (kind : StructuredSourceKind.t) (source_id body : string) (Hbody : addressable body).
Context (active : list ActiveStructuredState) (Hactive : NoDup (map as_unit_id active)).

Notation targets := (targets_of active).
Notation project := (project_step kind source_id body (ranges_of kind body)).

Lemma as_unit_id_inj a b : a ∈ active → b ∈ active → as_unit_id a = as_unit_id b → a = b.
Proof.
  clear -Hactive. induction active as [|c l IH]; [by intros ?%elem_of_nil|].
  cbn in Hactive. apply NoDup_cons in Hactive as [Hni Hnd].
  intros [->|Ha]%elem_of_cons [->|Hb]%elem_of_cons E; [done|..|by apply IH].
  - destruct Hni. rewrite E. by apply list_elem_of_fmap_2.
  - destruct Hni. rewrite <-E. by apply list_elem_of_fmap_2.
Qed.

Lemma targets_disjoint t item other :
  t ∈ targets item → t ∈ targets other → go_identity item = go_identity other.
Proof.
  intros (a & Ha & <- & Hn & Hk & _)%targets_of_iff (b & Hb & E & Hn' & Hk' & _)%targets_of_iff.
  rewrite (as_unit_id_inj a b Ha Hb (eq_sym E)) in Hn, Hk. unfold go_identity. congruence.
Qed.

Lemma use_targets used ids : NoDup ids → (∀ t, t ∈ ids → t ∉ used) →
  try_fold use_target used ids = Ok (list_to_set ids ∪ used).
Proof.
  revert used. induction ids as [|t ids IH]; intros used Hnd Hu; cbn [try_fold].
  - f_equal. set_solver.
  - apply NoDup_cons in Hnd as [Hni Hnd]. unfold use_target at 1.
    rewrite bool_decide_false by set_solver. cbn [result_bind]. rewrite IH; [|done|set_solver].
    f_equal. set_solver.
Qed.

(** What the fold decided, as the projector checks it. *)
Lemma op_for_shape item op : grounded_in kind body item → op_for body active item op →
  validate_operation_shape op = Ok () ∧
  so_target_unit_ids op = (if is_state item then targets item else []) ∧
  (so_operation op = StructuredStateOperation.Append ↔ is_state item = false) ∧
  check_projected_quantity body op = Ok ().
Proof.
  intros [Hv _ _ _ _ _] (operation & ts & Hop & Hq & ->). unfold operation_of in Hop.
  pose proof (targets_of_NoDup active item Hactive) as Hnd.
  assert (check_projected_quantity body (folded_op item operation ts) = Ok ()) as Hq'.
  { unfold check_quantity, check_projected_quantity in *. cbn [so_fields so_operation so_evidence_quote folded_op].
    destruct (is_quantity _); [|done]. destruct (quantity_event_from_fields _) as [event|]; [|done].
    cbn [ok_or result_bind] in *. destruct (negb (quantity_value_is_grounded _ _)); [done|exact Hq]. }
  unfold is_state. destruct (ob_disposition (go_observation item)) eqn:Ed.
  - rewrite bool_decide_true by done.
    destruct (is_empty (ob_fields _)) eqn:Ef; [destruct (is_empty (targets item)) eqn:Et; [done|]|
      destruct (is_empty (targets item)) eqn:Et]; injection Hop as <- <-;
      (split; [|split; [done|split; [done|exact Hq']]]); unfold validate_operation_shape;
      cbn [so_target_unit_ids so_fields so_operation folded_op]; rewrite Ef, Et; cbn [negb andb];
      by rewrite bool_decide_true.
  - rewrite bool_decide_false by done. injection Hop as <- <-.
    split; [|split; [done|split; [done|exact Hq']]]. unfold validate_operation_shape.
    cbn [so_target_unit_ids so_fields so_operation folded_op is_empty andb].
    unfold validate_structured_observation in Hv.
    destruct (_ || _) in Hv; [done|]. destruct (_ || _) in Hv; [done|]. destruct (any _ _) in Hv; [done|].
    rewrite Ed, bool_decide_true in Hv by done. cbn [andb] in Hv.
    by destruct (is_empty (ob_fields (go_observation item))).
Qed.

Lemma validated_interval item : grounded_in kind body item →
  validate_interval (ob_valid_from (go_observation item)) (ob_valid_to (go_observation item)) = Ok () ∧
  go_namespace item ≠ String.EmptyString ∧ go_item_key item ≠ String.EmptyString.
Proof.
  intros [Hv Hn Hk _ _ _]. rewrite Hn, Hk. unfold validate_structured_observation in Hv.
  destruct (_ || _) eqn:E1 in Hv; [done|]. destruct (_ || _) in Hv; [done|].
  destruct (any _ _) in Hv; [done|]. destruct (_ && _) in Hv; [done|]. split; [done|].
  by apply orb_false_iff in E1 as [?%bool_decide_eq_false ?%bool_decide_eq_false].
Qed.

Lemma quote_stands item op : grounded_in kind body item → op_for body active item op →
  parse_span (so_source_span op) = Some (go_start item, go_end item) ∧
  quote_in_place body (ranges_of kind body) op (go_start item, go_end item) = true.
Proof.
  intros [_ _ _ [Hlt Hle] Hq Ht] (operation & ts & _ & _ & ->). unfold addressable in Hbody.
  cbn [so_source_span folded_op]. rewrite parse_span_string by lia. split; [done|].
  unfold quote_in_place. cbn [fst snd so_evidence_quote folded_op].
  rewrite (proj2 (Nat.ltb_lt _ _) Hlt), (proj2 (Nat.leb_le _ _) Hle), bool_decide_true by done.
  cbn [andb]. by destruct (ranges_of kind body).
Qed.

Lemma project_folded_step acc item op : grounded_in kind body item → op_for body active item op →
  (is_state item = true → go_identity item ∉ pj_identities acc) →
  (is_state item = true → ∀ t, t ∈ targets item → t ∉ pj_used_targets acc) →
  project acc op = Ok (mkProjection
    (pj_projected acc ++ [projected_state kind source_id (go_namespace item) (go_item_key item) op
                            (go_start item, go_end item)])
    (if is_state item then {[go_identity item]} ∪ pj_identities acc else pj_identities acc)
    (list_to_set (so_target_unit_ids op) ∪ pj_used_targets acc)).
Proof.
  intros Hg Hop Hid Hused. destruct (quote_stands _ _ Hg Hop) as [Hspan Hquote].
  destruct (op_for_shape _ _ Hg Hop) as (Hshape & Htargets & Happend & Hquantity).
  destruct (validated_interval _ Hg) as (Hint & Hns & Hkey).
  unfold project_step. rewrite Hspan. cbn [ok_or result_bind]. rewrite Hquote, Hshape. cbn [negb result_bind].
  pose proof Hop as (operation & ts & _ & _ & Eop).
  assert (validate_interval (so_valid_from op) (so_valid_to op) = Ok ()) as -> by (by rewrite Eop).
  cbn [result_bind]. rewrite use_targets; cycle 1.
  { rewrite Htargets. destruct (is_state item); [by apply targets_of_NoDup|constructor]. }
  { rewrite Htargets. destruct (is_state item); [by apply Hused|set_solver]. }
  cbn [result_bind].
  assert (canonical_key (so_namespace op) = go_namespace item ∧
          canonical_key (so_item_key op) = go_item_key item) as [-> ->].
  { destruct Hg as [_ Hn Hk _ _ _]. rewrite Eop. cbn [so_namespace so_item_key folded_op].
    by rewrite Hn, Hk, !canonical_key_idem. }
  rewrite !bool_decide_false by done. cbn [orb]. fold (go_identity item).
  destruct (is_state item) eqn:Es.
  - rewrite (bool_decide_false (go_identity item ∈ _)), andb_false_r by auto.
    rewrite (bool_decide_false (so_operation op = StructuredStateOperation.Append))
      by (intros ?%Happend; done).
    rewrite Hquantity. done.
  - rewrite (bool_decide_true (so_operation op = StructuredStateOperation.Append)) by by apply Happend.
    rewrite (bool_decide_false (so_operation op = StructuredStateOperation.Create))
      by (rewrite (proj2 Happend) by done; done).
    cbn [andb]. rewrite Hquantity. done.
Qed.

Lemma project_folded items ops acc :
  Forall (grounded_in kind body) items → Forall2 (op_for body active) items ops →
  NoDup (map go_identity (retain is_state items)) →
  (∀ item, item ∈ items → is_state item = true →
     go_identity item ∉ pj_identities acc ∧ ∀ t, t ∈ targets item → t ∉ pj_used_targets acc) →
  ∃ acc', try_fold project acc ops = Ok acc' ∧
    length (pj_projected acc') = (length (pj_projected acc) + length ops)%nat.
Proof.
  intros Hg Hops. revert acc. induction Hops as [|item op items ops Hop _ IH]; intros acc Hnd Hfree.
  { exists acc. split; [done|]. cbn. lia. }
  apply Forall_cons in Hg as [Hitem Hg]. cbn [try_fold].
  rewrite (project_folded_step acc item op Hitem Hop) by (intros Hs; by apply Hfree; [left|]).
  cbn [result_bind]. rewrite retain_cons in Hnd.
  edestruct IH as (acc' & Hok & Hl); [done| | |exists acc'; split; [exact Hok|]].
  - by destruct (is_state item); [apply NoDup_cons in Hnd as [_ Hnd]|].
  - intros other Hin Hs. destruct (Hfree other) as [Hid Hused]; [by right|done|].
    destruct (op_for_shape _ _ Hitem Hop) as (_ & -> & _ & _). cbn [pj_identities pj_used_targets].
    destruct (is_state item); [|split; [done|set_solver]]. cbn in Hnd.
    apply NoDup_cons in Hnd as [Hni _].
    assert (go_identity item ≠ go_identity other) as Hne.
    { intros E. apply Hni. rewrite E. apply list_elem_of_fmap_2. by apply elem_of_retain. }
    split; [set_solver|]. intros t Ht. rewrite elem_of_union, elem_of_list_to_set.
    intros [Ht'|Ht']; [|by eapply Hused]. by apply Hne, (targets_disjoint t).
  - rewrite Hl. cbn [pj_projected]. rewrite length_app. cbn. lia.
Qed.

(** what the fold makes, the projector takes: the operations folded from a
    request project to one candidate each, for every state of active units
    with distinct ids. *)
Theorem folded_operations_project request observations ops : sr_source_kind request = kind →
  fold_structured_observations body request observations active = Ok ops →
  ∃ projected, project_structured_state kind source_id body ops = Ok projected ∧
    length projected = length ops.
Proof.
  intros Hkind. unfold fold_structured_observations. intros (grounded & Hg & Hf)%result_bind_ok.
  destruct (grounded_observations _ _ _ _ Hbody Hg) as [_ Hgrounded]. rewrite Hkind in Hgrounded.
  destruct (fold_keeps body active [] grounded [] ops Hf) as (new & -> & Hnew). cbn [app].
  destruct (project_folded (kept grounded) new (mkProjection [] ∅ ∅)) as (acc & Hok & Hl).
  - apply Forall_forall. intros item Hin%kept_sub. by apply (proj1 (Forall_forall _ _) Hgrounded).
  - done.
  - apply kept_identities.
  - intros item _ _. cbn. split; [set_solver|intros; set_solver].
  - exists (pj_projected acc). split; [|exact Hl]. unfold project_structured_state.
    change (match kind with StructuredSourceKind.Episode => _ | _ => _ end) with (ranges_of kind body).
    by rewrite Hok.
Qed.
End project.

(** ** What is projected stands in the source *)

(** The candidate of an operation carries its quote as evidence, which is the
    text at its span, in a turn of the user for an episode. *)
Definition projects (kind : StructuredSourceKind.t) (source_id body : string)
    (op : StructuredStateOp) (p : ProjectedStructuredState) : Prop :=
  ∃ i j, (i < j)%nat ∧ parse_span (so_source_span op) = Some (i, j) ∧
    get_slice (bytes_of body) i j = Some (bytes_of (so_evidence_quote op)) ∧
    match ranges_of kind body with
    | Some ranges => any (within i j) ranges = true
    | None => True
    end ∧
    p = projected_state kind source_id (canonical_key (so_namespace op))
          (canonical_key (so_item_key op)) op (i, j).

Lemma use_targets_inv used ids used' : try_fold use_target used ids = Ok used' →
  NoDup ids ∧ (∀ t, t ∈ ids → t ∉ used) ∧ used' = list_to_set ids ∪ used.
Proof.
  revert used. induction ids as [|t ids IH]; intros used; cbn [try_fold].
  - intros [= <-]. split_and!; [constructor|set_solver|set_solver].
  - intros (used1 & G1 & G2)%result_bind_ok. unfold use_target in G1.
    case_bool_decide as Et; [done|]. injection G1 as <-.
    destruct (IH _ G2) as (Hnd & Hd & ->). split_and!; [constructor; [|done]|..].
    + intros Hin. specialize (Hd t Hin). set_solver.
    + intros t' [->|Ht']%elem_of_cons; [done|]. specialize (Hd t' Ht'). set_solver.
    + set_solver.
Qed.

Lemma project_step_inv kind source_id body acc op acc' :
  project_step kind source_id body (ranges_of kind body) acc op = Ok acc' →
  ∃ p, projects kind source_id body op p ∧ pj_projected acc' = pj_projected acc ++ [p] ∧
    NoDup (so_target_unit_ids op) ∧ (∀ t, t ∈ so_target_unit_ids op → t ∉ pj_used_targets acc) ∧
    pj_used_targets acc' = list_to_set (so_target_unit_ids op) ∪ pj_used_targets acc.
Proof.
  unfold project_step. destruct (parse_span _) as [[i j]|] eqn:Es; [|done]. cbn [ok_or result_bind].
  destruct (quote_in_place _ _ _ _) eqn:Eq; [|done]. cbn [negb].
  intros ([] & _ & Hok)%result_bind_ok. apply result_bind_ok in Hok as ([] & _ & Hok).
  apply result_bind_ok in Hok as (used & Hu & Hok). destruct (_ || _) in Hok; [done|].
  destruct (_ && _) in Hok; [done|]. apply result_bind_ok in Hok as ([] & _ & [= <-]).
  apply use_targets_inv in Hu as (Hnd & Hd & ->).
  eexists. split; [|split; [reflexivity|done]].
  exists i, j. unfold quote_in_place in Eq. cbn [fst snd] in Eq.
  apply andb_true_iff in Eq as [[[G1%Nat.ltb_lt _]%andb_true_iff G2%bool_decide_eq_true]%andb_true_iff G3].
  split_and!; try done. by destruct (ranges_of kind body).
Qed.

Lemma project_all kind source_id body ops acc acc' :
  try_fold (project_step kind source_id body (ranges_of kind body)) acc ops = Ok acc' →
  ∃ new, pj_projected acc' = pj_projected acc ++ new ∧
    Forall2 (projects kind source_id body) ops new ∧
    NoDup (concat (map so_target_unit_ids ops)) ∧
    (∀ t, t ∈ concat (map so_target_unit_ids ops) → t ∉ pj_used_targets acc).
Proof.
  revert acc. induction ops as [|op ops IH]; intros acc; cbn [try_fold].
  - intros [= <-]. exists []. rewrite app_nil_r. split_and!; [done|constructor|constructor|set_solver].
  - intros (acc1 & (p & Hp & Epj & Hnd & Hd & Eu)%project_step_inv & G2)%result_bind_ok.
    destruct (IH _ G2) as (new & Enew & Hnew & Hnd2 & Hd2). exists (p :: new).
    rewrite Enew, Epj, <-app_assoc. split; [done|]. split; [by constructor|]. cbn [map concat].
    rewrite Eu in Hd2. split.
    + apply NoDup_app. split_and!; [done| |done]. intros t Ht Ht'. specialize (Hd2 t Ht').
      set_solver.
    + intros t [Ht|Ht]%elem_of_app; [by apply Hd|]. specialize (Hd2 t Ht). set_solver.
Qed.

(** C33: only an exact quote becomes state: every candidate the projector makes
    has as evidence the text at the span of its operation - within a turn of
    the user when the source is an episode -, its subject and key are the
    canonical ones, and no unit is the target of two operations. *)
Theorem projected_states_are_grounded kind source_id body ops projected :
  project_structured_state kind source_id body ops = Ok projected →
  Forall2 (projects kind source_id body) ops projected ∧
  NoDup (concat (map so_target_unit_ids ops)).
Proof.
  unfold project_structured_state.
  change (match kind with StructuredSourceKind.Episode => _ | _ => _ end) with (ranges_of kind body).
  intros (acc & Hok & [= <-])%result_bind_ok.
  destruct (project_all _ _ _ _ _ _ Hok) as (new & -> & Hnew & Hnd & _). done.
Qed.

(** ** A projected state reads back *)

Lemma split_once_first b pat pre rest : Forall (λ c, c ≠ b) pre →
  split_once (b :: pat) (pre ++ (b :: pat) ++ rest) = Some (pre, rest).
Proof.
  assert (∀ p, starts_with p (p ++ rest) = true) as Hstarts
    by (intros p; induction p as [|c p IHp]; [done|]; cbn; by rewrite N.eqb_refl).
  induction 1 as [|c pre Hc _ IH].
  - change ([] ++ (b :: pat) ++ rest) with ((b :: pat) ++ rest).
    assert (split_once (b :: pat) ((b :: pat) ++ rest) =
            Some ([], drop (length (b :: pat)) ((b :: pat) ++ rest))) as ->.
    { cbn [app split_once]. pose proof (Hstarts (b :: pat)) as Hs. cbn [app] in Hs. by rewrite Hs. }
    by rewrite drop_app_length.
  - cbn [app split_once starts_with]. destruct (N.eqb_spec b c) as [E|_]; [by destruct Hc|].
    cbn [andb]. cbn [app] in IH. by rewrite IH.
Qed.

Lemma key_avoids v b : b = 32 ∨ b = 58 → Forall (λ c, c ≠ b) (bytes_of (canonical_key v)).
Proof.
  intros Hb. eapply Forall_impl; [apply canonical_key_text|].
  intros c (_ & _ & ? & ? & _)%key_byte_plain. destruct Hb; congruence.
Qed.

Lemma body_parts_of_state namespace item_key fields :
  body_parts (state_body (canonical_key namespace) (canonical_key item_key) fields) =
  Some (canonical_key namespace, canonical_key item_key, fields_to_json fields).
Proof.
  unfold body_parts, state_body. rewrite !bytes_of_app.
  set (n := bytes_of (canonical_key namespace)). set (k := bytes_of (canonical_key item_key)).
  set (f := bytes_of (fields_to_json fields)).
  change (bytes_of ": ") with (58 :: [32]). change (bytes_of " item ") with (32 :: bytes_of "item ").
  replace (n ++ (32 :: bytes_of "item ") ++ k ++ (58 :: [32]) ++ f)
    with ((n ++ (32 :: bytes_of "item ") ++ k) ++ (58 :: [32]) ++ f) by (by rewrite <-!app_assoc).
  rewrite split_once_first.
  - cbn [mbind option_bind]. rewrite split_once_first by (apply key_avoids; auto).
    cbn [mbind option_bind]. unfold n, k, f. by rewrite !string_of_bytes_of.
  - apply Forall_app_2; [apply key_avoids; auto|]. apply Forall_app_2; [|apply key_avoids; auto].
    repeat constructor; done.
Qed.

(** The unit of an operation, as the compiler stores its candidate; it may
    since have been superseded or closed. *)
Definition holds_state (unit : StoredMemoryUnit) (p : ProjectedStructuredState) : Prop :=
  (mu_kind unit = MemoryKind.Semantic ∨ mu_kind unit = MemoryKind.Procedural) ∧
  mu_body unit = ps_body p ∧ mu_contextual_chunks unit = ps_contextual_chunks p ∧
  mu_valid_from unit = ps_valid_from p ∧ mu_valid_to unit = ps_valid_to p.

Lemma projection_reads_back kind source_id body op p unit :
  fields_of_json (fields_to_json (so_fields op)) = Some (so_fields op) →
  projects kind source_id body op p → so_operation op ≠ StructuredStateOperation.Delete →
  holds_state unit p →
  mu_state unit = UnitState.Active → mu_transaction_to unit = None →
  active_structured_state unit = Some (mkActiveStructuredState (mu_id unit)
    (canonical_key (so_namespace op)) (canonical_key (so_item_key op)) (so_fields op)
    (so_valid_from op) (so_valid_to op)).
Proof.
  intros Hjson (i & j & _ & _ & _ & _ & ->) Hop (Hkind & Hb & Hc & Hf & Ht) Hstate Hopen.
  unfold active_structured_state. rewrite Hstate, Hopen, Hc, Hf, Ht, bool_decide_true by done.
  assert (match mu_kind unit with
          | MemoryKind.Semantic | MemoryKind.Procedural => true | _ => false end = true) as ->
    by (by destruct Hkind as [-> | ->]).
  cbn [negb orb is_some projected_state ps_contextual_chunks ps_valid_from ps_valid_to head mbind
       option_bind evidence_chunk ch_header]. rewrite bool_decide_true by done. cbn [negb].
  assert (ps_body (projected_state kind source_id (canonical_key (so_namespace op))
            (canonical_key (so_item_key op)) op (i, j)) =
          state_body (canonical_key (so_namespace op)) (canonical_key (so_item_key op)) (so_fields op))
    as Ebody by (cbn [projected_state ps_body]; by destruct (so_operation op)).
  rewrite Hb, Ebody, body_parts_of_state. cbn [mbind option_bind].
  rewrite bool_decide_false.
  - cbn [mbind option_bind]. by rewrite Hjson.
  - intros E. pose proof (canonical_key_text (so_namespace op)) as Hk. rewrite E in Hk.
    assert (46 ∈ bytes_of QUANTITY_EVENT_TYPE) as Hin by (by apply (bool_decide_unpack (46 ∈ bytes_of QUANTITY_EVENT_TYPE)); vm_compute).
    destruct (proj1 (Forall_forall _ _) Hk 46 Hin) as [Hd|Hd]; by vm_compute in Hd.
Qed.

Lemma only_open_active_reads unit :
  mu_state unit ≠ UnitState.Active ∨ mu_transaction_to unit ≠ None →
  active_structured_state unit = None.
Proof.
  intros Hno. unfold active_structured_state.
  destruct Hno as [Hs|Ho]; [by rewrite bool_decide_false by done|].
  destruct (mu_transaction_to unit); [|done]. cbn [is_some]. by rewrite orb_true_r.
Qed.

(** An appended event of a semantic or procedural unit is read as a state too:
    the namespace that is left out is no canonical key. *)
Lemma appended_event_reads_back kind source_id body op p unit :
  fields_of_json (fields_to_json (so_fields op)) = Some (so_fields op) →
  projects kind source_id body op p → so_operation op = StructuredStateOperation.Append →
  holds_state unit p → mu_state unit = UnitState.Active → mu_transaction_to unit = None →
  is_Some (active_structured_state unit).
Proof.
  intros Hjson Hp Hop Hu Hs Ho. eexists. eapply projection_reads_back; [done..| |done|done|done].
  by rewrite Hop.
Qed.

(** C35: a created or replaced state reads back: while the unit that stores its
    candidate is active and open it is read as the state with the canonical
    keys, the fields and the interval of the operation; once it is superseded,
    invalidated or closed it is no active state. *)
Theorem projected_state_reads_back kind source_id body op p unit :
  fields_of_json (fields_to_json (so_fields op)) = Some (so_fields op) →
  projects kind source_id body op p →
  so_operation op = StructuredStateOperation.Create ∨
    so_operation op = StructuredStateOperation.Replace →
  holds_state unit p →
  (mu_state unit = UnitState.Active → mu_transaction_to unit = None →
   active_structured_state unit = Some (mkActiveStructuredState (mu_id unit)
     (canonical_key (so_namespace op)) (canonical_key (so_item_key op)) (so_fields op)
     (so_valid_from op) (so_valid_to op))) ∧
  (mu_state unit ≠ UnitState.Active ∨ mu_transaction_to unit ≠ None →
   active_structured_state unit = None).
Proof.
  intros Hjson Hp Hop Hu. split; [|apply only_open_active_reads].
  intros Hs Ho. eapply projection_reads_back; [done..| |done|done|done].
  by destruct Hop as [-> | ->].
Qed.
End structured_facts.
