(* ===== verification/Rollup.v ===== *)
(** * Rollup: synthetic units of a recall

    [quantity_rollups] and [artifact_bundle] of
    [crates/memphant-core/src/lib.rs].  A recall over an aggregation window adds
    one unit per series of quantity events, whose body holds exact totals; a
    query that names an artifact replaces the structured states of its
    namespaces by one unit that holds them all.  Both take an identifier from a
    digest of their sources, and the trust of the riskiest of them. *)

From S2P Require Import Prelude Text Types Float Clock Bitemporal Lineage Store Stage Chunks Render Gate Pack Dates Decimal Compile Structured.

(** [char::to_lowercase] outside ASCII follows Unicode's tables. *)
Class UnicodeLowercase := wide_lowercase : list N → list N.

Definition validate_aggregation_window `{Jiff} (window : AggregationWindow)
    : result CoreError.t () :=
  from <-? ok_or (parse_timestamp (aw_from window))
             (CoreError.Invalid "aggregation_window.from must be RFC 3339");
  to <-? ok_or (parse_timestamp (aw_to window))
           (CoreError.Invalid "aggregation_window.to must be RFC 3339");
  if (to <=? from)%Z
  then Err (CoreError.Invalid "aggregation_window.from must be before aggregation_window.to")
  else Ok ().

(** ** What both kinds share *)

Record SyntheticUnit : Set := mkSynthetic {
  sy_unit : StoredMemoryUnit;
  sy_source_unit_ids : list UnitId;
}.

(** The bytes of a UUID, and the UUID in the first half of a digest. *)
Definition uuid_bytes (id : Uuid) : list N :=
  map (λ i, N.land (N.shiftr id (8 * i)) 255)
    [15; 14; 13; 12; 11; 10; 9; 8; 7; 6; 5; 4; 3; 2; 1; 0].
Definition digest_uuid (digest : string) : Uuid :=
  foldl (λ v b, 16 * v + hex_value b) 0 (take 32 (bytes_of digest)).

Definition sorted_ids (ids : list UnitId) : list UnitId := sort_by N.leb ids.

Definition riskier (left right : StoredMemoryUnit) : comparison :=
  N.compare (trust_risk_rank (mu_trust_level left)) (trust_risk_rank (mu_trust_level right)).
(** [max_by_key]: the trust of the last unit of the greatest risk. *)
Definition riskiest_trust (first : StoredMemoryUnit) (rest : list StoredMemoryUnit)
    : TrustLevel.t :=
  mu_trust_level (max_by riskier first rest).

Definition synthetic_unit (request : RecallRequest) (id : UnitId) (fact_key body : string)
    (trust_level : TrustLevel.t) (actor_id : option ActorId) (source_kind : string)
    (first : StoredMemoryUnit) : StoredMemoryUnit := {|
  mu_id := id;
  mu_tenant_id := cx_tenant_id (rq_context request);
  mu_data_subject_id := mu_data_subject_id first;
  mu_scope_id := cx_scope_id (rq_context request);
  mu_agent_node_id := mu_agent_node_id first;
  mu_subject_generation := mu_subject_generation first;
  mu_kind := MemoryKind.Semantic;
  mu_state := UnitState.Active;
  mu_fact_key := Some fact_key;
  mu_predicate := None;
  mu_body := body;
  mu_confidence := None;
  mu_trust_level := trust_level;
  mu_churn_class := None;
  mu_freshness_due_at := None;
  mu_actor_id := actor_id;
  mu_source_kind := Some source_kind;
  mu_source_ref := mu_source_ref first;
  mu_observed_at := mu_observed_at first;
  mu_source_episode_id := None;
  mu_source_resource_id := None;
  mu_deletion_generation := None;
  mu_contextual_chunks := [];
  mu_valid_from := None;
  mu_valid_to := None;
  mu_transaction_from := None;
  mu_transaction_to := None;
  mu_last_reinforced_at := None;
  mu_reinforcement_count := 0;
  mu_compact := None;
  mu_invalidation := None;
  mu_capture := None;
|}.

(** ** Quantity rollups *)

(** Namespace, item, measure and unit. *)
Notation Series := (string * string * string * string)%type.
Notation RollupEvent := (StoredMemoryUnit * QuantityEvent)%type.

Definition series_of (event : RollupEvent) : Series :=
  (qe_namespace event.2, qe_item_key event.2, qe_measure event.2, qe_unit event.2).

Definition series_cmp (left right : Series) : comparison :=
  then_cmp (str_cmp left.1.1.1 right.1.1.1)
    (then_cmp (str_cmp left.1.1.2 right.1.1.2)
       (then_cmp (str_cmp left.1.2 right.1.2) (str_cmp left.2 right.2))).

(** The totals of one selection, at the largest scale of its values. *)
Record RollupTotals : Set := mkTotals {
  qt_total : Z;
  qt_scale : N;
  qt_min : Z;
  qt_max : Z;
  qt_average : list N;
}.

Definition decimal_of (event : RollupEvent) : option ExactDecimal :=
  ExactDecimal.parse (bytes_of (qe_value event.2)).

Definition max_scale (decimals : list ExactDecimal) : option N :=
  match decimals with
  | [] => None
  | first :: rest => Some (foldl N.max (xd_scale first) (map xd_scale rest))
  end.

Definition checked_sum (values : list Z) : option Z :=
  foldl (λ sum value, sum ← sum; i128_add sum value) (Some 0%Z) values.

Definition rollup_totals (events : list RollupEvent) : option RollupTotals :=
  decimals ← mapM decimal_of events;
  scale ← max_scale decimals;
  values ← mapM (λ value, ExactDecimal.rescale value scale) decimals;
  total ← checked_sum values;
  match values with
  | [] => None
  | first :: rest =>
      average ← ExactDecimal.average total scale (Z.of_nat (length values));
      Some (mkTotals total scale (foldl Z.min first rest) (foldl Z.max first rest) average)
  end.

Section rollup.
Context `{Jiff} `{Sha256} `{SerdeJson}.

(** The event a unit contributes, if any. *)
Definition rollup_event (request : RecallRequest) (window : AggregationWindow) (time : RecallTime)
    (unit : StoredMemoryUnit) : option RollupEvent :=
  if negb (mu_scope_id unit =? cx_scope_id (rq_context request)) ||
     negb (bool_decide (mu_kind unit = MemoryKind.Semantic)) ||
     negb match mu_state unit with UnitState.Active | UnitState.Superseded => true | _ => false end ||
     negb (bitemporally_recallable unit time)
  then None
  else
    event ← quantity_event_from_body (mu_body unit);
    if is_lt (cmp_rfc3339 (qe_occurred_at event) (aw_from window)) ||
       negb (is_lt (cmp_rfc3339 (qe_occurred_at event) (aw_to window)))
    then None
    else Some (unit, event).

Definition group_events (events : list RollupEvent) : gmap Series (list RollupEvent) :=
  foldl (λ groups event, push_row (series_of event) event groups) ∅ events.

(** A [BTreeMap] in the order of its keys. *)
Definition ordered_groups (groups : gmap Series (list RollupEvent))
    : list (Series * list RollupEvent) :=
  sort_by_cmp (λ l r, series_cmp l.1 r.1) (map_to_list groups).

Definition shares_token (query_tokens : list (list N)) (text : string) : bool :=
  existsb (λ token, bool_decide (token ∈ query_tokens)) (tokenize text).

Definition rendered_value (value : string) : string := default value (json_as_str value).

Definition add_filter (filters : gmap string (gset string)) (entry : string * string)
    : gmap string (gset string) :=
  <[entry.1 := {[entry.2]} ∪ default ∅ (filters !! entry.1)]> filters.

(** The dimensions whose value the query names. *)
Definition matched_dimensions (query_tokens : list (list N)) (events : list RollupEvent)
    : gmap string (gset string) :=
  foldl add_filter ∅
    (retain (λ '(_, rendered), shares_token query_tokens rendered)
       (flat_map (λ event, map (λ '(key, value), (key, rendered_value value))
                             (qe_dimensions event.2)) events)).

Definition series_relevant (query_tokens : list (list N)) (series : Series) : bool :=
  let '(namespace, item_key, measure, _) := series in
  shares_token query_tokens (namespace +:+ " " +:+ item_key +:+ " " +:+ measure).

Definition selected_by (filters : gmap string (gset string)) (event : RollupEvent) : bool :=
  forallb (λ '(key, values),
    match field key (qe_dimensions event.2) with
    | Some candidate => bool_decide (rendered_value candidate ∈ (values : gset string))
    | None => false
    end) (map_to_list filters).

Definition filter_text (filters : gmap string (gset string)) : string :=
  if bool_decide (filters = ∅) then "all"
  else String.concat ","
         (sort_by str_leb
            (map (λ '(key, values), key +:+ "=" +:+
                    String.concat "|" (sort_by str_leb (elements (values : gset string))))
               (map_to_list filters))).

Definition rollup_body (window : AggregationWindow) (series : Series) (filters : string)
    (totals : RollupTotals) (count : nat) : string :=
  let '(namespace, item_key, measure, unit_name) := series in
  let shown coefficient := string_of_bytes (ExactDecimal.format coefficient (qt_scale totals)) in
  "quantity rollup " +:+ namespace +:+ "/" +:+ item_key +:+ "/" +:+ measure +:+ " (" +:+
  unit_name +:+ "); window=[" +:+ aw_from window +:+ "," +:+ aw_to window +:+ "); filter=" +:+
  filters +:+ "; total=" +:+ shown (qt_total totals) +:+ "; average=" +:+
  string_of_bytes (qt_average totals) +:+
  " (rounded to 6 decimal places when needed); count=" +:+
  string_of_bytes (show_N (N.of_nat count)) +:+ "; min=" +:+ shown (qt_min totals) +:+
  "; max=" +:+ shown (qt_max totals).

Definition rollup_id (request : RecallRequest) (window : AggregationWindow) (series : Series)
    (filters : string) (source_unit_ids : list UnitId) : UnitId :=
  let '(namespace, item_key, measure, unit_name) := series in
  digest_uuid (sha256_hex (string_of_bytes
    (concat (map framed
       [uuid_string (cx_tenant_id (rq_context request));
        uuid_string (cx_scope_id (rq_context request));
        aw_from window; aw_to window; namespace; item_key; measure; unit_name; filters]) ++
     concat (map uuid_bytes source_unit_ids)))).

Definition rollup_fact_key (request : RecallRequest) (series : Series) : string :=
  let '(namespace, item_key, measure, unit_name) := series in
  uuid_string (cx_scope_id (rq_context request)) +:+ ":quantity_rollup:" +:+ namespace +:+ ":" +:+
  item_key +:+ ":" +:+ measure +:+ ":" +:+ unit_name.

Definition rollup_of (request : RecallRequest) (window : AggregationWindow)
    (query_tokens : list (list N)) (group : Series * list RollupEvent) : option SyntheticUnit :=
  let '(series, events) := group in
  let matched := matched_dimensions query_tokens events in
  if negb (series_relevant query_tokens series) && bool_decide (matched = ∅) then None
  else
    match retain (selected_by matched) events with
    | [] => None
    | ((first, _) :: rest) as selected =>
        totals ← rollup_totals selected;
        let source_unit_ids := sorted_ids (map (λ event, mu_id event.1) selected) in
        let filters := filter_text matched in
        Some (mkSynthetic
          (synthetic_unit request (rollup_id request window series filters source_unit_ids)
             (rollup_fact_key request series)
             (rollup_body window series filters totals (length source_unit_ids))
             (riskiest_trust first (map fst rest))
             (Some (cx_actor_id (rq_context request))) "quantity_rollup" first)
          source_unit_ids)
    end.

Definition quantity_rollups (units : list StoredMemoryUnit) (request : RecallRequest)
    (window : AggregationWindow) (time : RecallTime) : list SyntheticUnit :=
  let query_tokens := tokenize (rq_query request) in
  omap (rollup_of request window query_tokens)
    (ordered_groups (group_events (omap (rollup_event request window time) units))).
End rollup.

(** ** Artifact bundles *)

Section artifact.
Context `{Jiff} `{Sha256} `{SerdeJson} `{UnicodeAlphanumeric} `{UnicodeLowercase}.

Definition is_quote_char (c : list N) : bool := bool_decide (c = [39]) || bool_decide (c = [34]).

(** The passages between quotation marks that open before a word and close
    after one; [open] is the mark and what follows it, last character first. *)
Fixpoint quoted_passages (previous : option (list N)) (open : option (list N * list (list N)))
    (cs : list (list N)) : list (list N) :=
  match cs with
  | [] => []
  | c :: rest =>
      let extended := (λ '(quote, body), (quote, c :: body)) <$> open in
      if negb (is_quote_char c) then quoted_passages (Some c) extended rest
      else
        let previous_is_word := match previous with Some p => is_alphanumeric p | None => false end in
        let next_is_word := match rest with n :: _ => is_alphanumeric n | [] => false end in
        match open with
        | Some (quote, body) =>
            if bool_decide (quote = c) && negb next_is_word
            then trim (concat (rev body)) :: quoted_passages (Some c) None rest
            else quoted_passages (Some c) extended rest
        | None =>
            if negb previous_is_word && next_is_word
            then quoted_passages (Some c) (Some (c, [])) rest
            else quoted_passages (Some c) None rest
        end
  end.

Definition lower_char (c : list N) : list N :=
  match c with [a] => [ascii_lower a] | _ => wide_lowercase c end.

Definition normalize_artifact_text (value : list N) : list N :=
  join_space (split_words []
    (concat (map (λ c, if is_alphanumeric c then lower_char c else [32]) (chars value)))).

Definition longer (left right : list N) : comparison :=
  Nat.compare (length left) (length right).

Definition explicit_artifact_anchor (query : string) : option (list N) :=
  anchor ← match quoted_passages None None (chars (bytes_of query)) with
           | first :: rest => Some (max_by longer first rest)
           | [] => (λ '(_, suffix), trim suffix) <$> rsplit_once 58 (bytes_of query)
           end;
  let anchor := normalize_artifact_text anchor in
  if (3 <=? length (split_words [] anchor))%nat then Some anchor else None.

Definition artifact_state_identity (unit : StoredMemoryUnit) : option (string * string) :=
  if negb (bool_decide (mu_kind unit = MemoryKind.Semantic)) ||
     bool_decide (is_Some (mu_deletion_generation unit)) ||
     negb (bool_decide (mu_state unit = UnitState.Active) ||
           bool_decide (mu_state unit = UnitState.Superseded) &&
           bool_decide (is_Some (mu_transaction_to unit)))
  then None
  else
    chunk ← head (mu_contextual_chunks unit);
    if negb (bool_decide (ch_header chunk = "[structured-state evidence]")) then None
    else
      '(namespace, item_key, fields) ← body_parts (mu_body unit);
      if bool_decide (namespace = QUANTITY_EVENT_TYPE) || negb (is_some (fields_of_json fields))
      then None
      else Some (namespace, item_key).

(** A unit with its namespace and its item. *)
Notation Member := (StoredMemoryUnit * (string * string))%type.

Definition in_scope (request : RecallRequest) (unit : StoredMemoryUnit) : bool :=
  mu_scope_id unit =? cx_scope_id (rq_context request).

Definition seed_episodes (units : list StoredMemoryUnit) (request : RecallRequest)
    (anchor : list N) : gset EpisodeId :=
  list_to_set (omap mu_source_episode_id
    (retain (λ unit, contains_bytes (normalize_artifact_text (bytes_of (mu_body unit))) anchor)
       (retain (in_scope request) units))).

Definition structured_members (units : list StoredMemoryUnit) (request : RecallRequest)
    : list Member :=
  omap (λ unit, (λ identity, (unit, identity)) <$> artifact_state_identity unit)
    (retain (in_scope request) units).

Definition seeded (seeds : gset EpisodeId) (member : Member) : bool :=
  match mu_source_episode_id member.1 with
  | Some episode => bool_decide (episode ∈ seeds)
  | None => false
  end.

Definition bundle_members (seeds : gset EpisodeId) (structured : list Member) : list Member :=
  let namespaces : gset string :=
    list_to_set (map (λ member, member.2.1) (retain (seeded seeds) structured)) in
  retain (λ member, bool_decide (member.2.1 ∈ namespaces)) structured.

Definition member_cmp (left right : Member) : comparison :=
  then_cmp (str_cmp left.2.1 right.2.1)
    (then_cmp (str_cmp left.2.2 right.2.2) (N.compare (mu_id left.1) (mu_id right.1))).

Definition bundle_body (members : list Member) : string :=
  let newline := string_of_bytes [LF] in
  "[artifact state]" +:+ newline +:+
  String.concat newline (map (λ member, mu_body member.1) members).

Definition bundle_id (request : RecallRequest) (source_unit_ids : list UnitId) : UnitId :=
  digest_uuid (sha256_hex (string_of_bytes
    (bytes_of "artifact_bundle_v1" ++ uuid_bytes (cx_tenant_id (rq_context request)) ++
     uuid_bytes (cx_scope_id (rq_context request)) ++ concat (map uuid_bytes source_unit_ids)))).

(** The actor all members share. *)
Definition common_actor (first : StoredMemoryUnit) (members : list Member) : option ActorId :=
  actor ← mu_actor_id first;
  if forallb (λ member, bool_decide (mu_actor_id member.1 = Some actor)) members
  then Some actor else None.

Definition bundle_of (request : RecallRequest) (members : list Member) : option SyntheticUnit :=
  match members with
  | [] => None
  | (first, _) :: rest =>
      let source_unit_ids := sorted_ids (map (λ member, mu_id member.1) members) in
      let id := bundle_id request source_unit_ids in
      Some (mkSynthetic
        (synthetic_unit request id
           (uuid_string (cx_scope_id (rq_context request)) +:+ ":artifact_bundle:" +:+ uuid_string id)
           (bundle_body members) (riskiest_trust first (map fst rest))
           (common_actor first members) "artifact_bundle" first)
        source_unit_ids)
  end.

Definition artifact_bundle (units : list StoredMemoryUnit) (request : RecallRequest)
    : option SyntheticUnit :=
  anchor ← explicit_artifact_anchor (rq_query request);
  let seeds := seed_episodes units request anchor in
  if bool_decide (seeds = ∅) then None
  else
    let members := bundle_members seeds (structured_members units request) in
    if (length members <? 2)%nat then None
    else bundle_of request (sort_by_cmp member_cmp members).
End artifact.
