(* ===== verification/RollupFacts.v ===== *)
(** * RollupFacts: what a synthetic unit stands for

    A quantity rollup counts exactly the events of its series that the query's
    filter selects, and its totals are exact; an artifact bundle holds exactly
    the states of the namespaces its anchor was seen with.  Both are as risky as
    their riskiest source, so the gate treats them no better. *)

From S2P Require Import Prelude Text Types Float Clock Bitemporal Lineage Store Stage TextFacts Chunks Render Gate.
From S2P Require Import Pack PackFacts Compile Dates Decimal Structured StructuredFacts Rollup.

(** ** Orders *)

(** A comparison that is a strict total order. *)
Class CmpOrder {A} (cmp : A → A → comparison) : Prop := {
  cmp_eq x y : cmp x y = Eq ↔ x = y;
  cmp_antisym x y : cmp x y = CompOpp (cmp y x);
  cmp_lt_trans x y z : cmp x y = Lt → cmp y z = Lt → cmp x z = Lt;
}.

#[export] Instance str_cmp_order : CmpOrder str_cmp.
Proof. split; [apply str_cmp_eq | apply str_cmp_antisym | apply str_cmp_lt_trans]. Qed.

#[export] Instance lex_order {A B} (c : A → A → comparison) (d : B → B → comparison) :
  CmpOrder c → CmpOrder d → CmpOrder (λ x y : A * B, then_cmp (c x.1 y.1) (d x.2 y.2)).
Proof.
  intros Hc Hd. split.
  - intros [a b] [a' b']. simpl. destruct (c a a') eqn:E; simpl.
    + apply cmp_eq in E as ->. rewrite cmp_eq. naive_solver.
    + split; [done|]. intros [= <- <-]. assert (c a a = Eq) by by apply cmp_eq. congruence.
    + split; [done|]. intros [= <- <-]. assert (c a a = Eq) by by apply cmp_eq. congruence.
  - intros [a b] [a' b']. simpl. rewrite (cmp_antisym (cmp := c) a a'), (cmp_antisym (cmp := d) b b').
    by destruct (c a' a).
  - intros [a b] [a' b'] [a'' b'']. simpl.
    destruct (c a a') eqn:E1; simpl; [| |done]; destruct (c a' a'') eqn:E2; simpl; try done.
    + apply cmp_eq in E1 as ->. rewrite E2. simpl. apply cmp_lt_trans.
    + apply cmp_eq in E1 as ->. by rewrite E2.
    + apply cmp_eq in E2 as ->. by rewrite E1.
    + by rewrite (cmp_lt_trans _ _ _ E1 E2).
Qed.

Lemma then_cmp_assoc a b c : then_cmp a (then_cmp b c) = then_cmp (then_cmp a b) c.
Proof. by destruct a. Qed.

#[export] Instance series_order : CmpOrder series_cmp.
Proof.
  pose proof (lex_order _ _ (lex_order _ _ (lex_order _ _ str_cmp_order str_cmp_order)
    str_cmp_order) str_cmp_order) as HO.
  assert (HE : ∀ l r, series_cmp l r = then_cmp (then_cmp (then_cmp (str_cmp l.1.1.1 r.1.1.1)
      (str_cmp l.1.1.2 r.1.1.2)) (str_cmp l.1.2 r.1.2)) (str_cmp l.2 r.2)).
  { intros l r. unfold series_cmp. by rewrite !then_cmp_assoc. }
  destruct HO as [H1 H2 H3]. split; intros; rewrite ?HE in *; eauto.
Qed.

(** Sorting entries with distinct keys by an order of the keys leaves them in
    strictly increasing order. *)
Lemma sorted_keys {A K} (cmp : K → K → comparison) `{!CmpOrder cmp} (key : A → K) l :
  NoDup (map key l) →
  StronglySorted (λ x y, cmp x y = Lt)
    (map key (sort_by_cmp (λ x y, cmp (key x) (key y)) l)).
Proof.
  intros Hnd. unfold sort_by_cmp.
  set (leb := λ x y, match cmp (key x) (key y) with Gt => false | _ => true end).
  assert (Hs : StronglySorted (λ x y, leb x y = true) (sort_by leb l)).
  { apply sort_by_sorted.
    - intros x y. unfold leb. rewrite (cmp_antisym (key x)). by destruct (cmp (key y) (key x)); auto.
    - intros x y z. unfold leb.
      destruct (cmp (key x) (key y)) eqn:E1; [| |done];
        destruct (cmp (key y) (key z)) eqn:E2; try done; intros _ _.
      + apply cmp_eq in E1 as ->. by rewrite E2.
      + apply cmp_eq in E1 as ->. by rewrite E2.
      + apply cmp_eq in E2 as <-. by rewrite E1.
      + by rewrite (cmp_lt_trans _ _ _ E1 E2). }
  assert (Hnd' : NoDup (map key (sort_by leb l))) by by rewrite sort_by_perm.
  induction Hs as [|x r Hr IH Hx]; simpl in *; [constructor|].
  apply NoDup_cons in Hnd' as [Hni Hnd'].
  constructor; [by apply IH|]. apply Forall_fmap. rewrite Forall_forall in Hx.
  apply Forall_forall. intros y Hy. specialize (Hx y Hy). unfold leb in Hx. simpl.
  destruct (cmp (key x) (key y)) eqn:E; [|done|done].
  apply cmp_eq in E. rewrite E in Hni. destruct Hni. by apply list_elem_of_fmap_2.
Qed.

Lemma omap_map {A B C} (f : B → option C) (g : A → B) l : omap f (map g l) = omap (λ x, f (g x)) l.
Proof. induction l as [|x l IH]; [done|]. cbn. destruct (f (g x)); [f_equal|]; exact IH. Qed.

Lemma max_by_key {A} (key : A → N) best l x :
  x ∈ best :: l → key x <= key (max_by (λ a b, N.compare (key a) (key b)) best l).
Proof.
  revert best x. induction l as [|y l IH]; intros best x Hx; simpl.
  - apply list_elem_of_singleton in Hx as ->. lia.
  - destruct (N.compare (key best) (key y)) eqn:E.
    + apply N.compare_eq_iff in E.
      apply elem_of_cons in Hx as [->|Hx]; [rewrite E|]; apply IH; set_solver.
    + apply N.compare_lt_iff in E.
      apply elem_of_cons in Hx as [->|Hx]; [|by apply IH].
      etrans; [apply N.lt_le_incl, E|]. apply IH. set_solver.
    + apply N.compare_gt_iff in E.
      apply elem_of_cons in Hx as [->|Hx]; [apply IH; set_solver|].
      apply elem_of_cons in Hx as [->|Hx]; [|apply IH; set_solver].
      etrans; [apply N.lt_le_incl, E|]. apply IH. set_solver.
Qed.

(** The trust of a synthetic unit is that of its riskiest source. *)
Lemma riskiest_trust_max first rest unit :
  unit ∈ first :: rest →
  trust_risk_rank (mu_trust_level unit) <= trust_risk_rank (riskiest_trust first rest).
Proof. apply (max_by_key (λ u, trust_risk_rank (mu_trust_level u))). Qed.

(** ** Groups *)

Lemma rows_group_events events series :
  rows (group_events events) series = retain (λ e, bool_decide (series_of e = series)) events.
Proof.
  unfold group_events.
  enough (HG : ∀ m : gmap Series (list RollupEvent),
    rows (foldl (λ groups event, push_row (series_of event) event groups) m events) series =
    rows m series ++ retain (λ e, bool_decide (series_of e = series)) events).
  { rewrite HG. by rewrite rows_empty. }
  induction events as [|e events IH]; intros m; cbn [foldl]; [by rewrite app_nil_r|].
  rewrite IH, retain_cons. unfold push_row.
  case_bool_decide as HE.
  - rewrite <-HE, rows_update_eq, <-app_assoc. done.
  - by rewrite rows_update_ne.
Qed.

Lemma group_events_present events series :
  is_Some (group_events events !! series) ↔ ∃ e, e ∈ events ∧ series_of e = series.
Proof.
  unfold group_events.
  enough (HG : ∀ m : gmap Series (list RollupEvent),
    is_Some (foldl (λ groups event, push_row (series_of event) event groups) m events !! series) ↔
    is_Some (m !! series) ∨ ∃ e, e ∈ events ∧ series_of e = series).
  { rewrite HG, lookup_empty. split; [intros [[? [=]]|?]|]; auto. }
  induction events as [|e events IH]; intros m; cbn [foldl].
  { split; [auto|]. intros [?|(e & He & _)]; [done|]. by apply elem_of_nil in He. }
  rewrite IH. unfold push_row, update_rows.
  destruct (decide (series_of e = series)) as [HE|HE].
  - rewrite HE, lookup_insert_eq. split; [|eauto]. intros _. right. exists e. set_solver.
  - rewrite lookup_insert_ne by done. setoid_rewrite elem_of_cons. naive_solver.
Qed.

(** The groups, in the order of their series, hold each event of a series. *)
Lemma ordered_groups_spec events :
  ordered_groups (group_events events) =
  map (λ series, (series, retain (λ e, bool_decide (series_of e = series)) events))
    (map fst (ordered_groups (group_events events))).
Proof.
  rewrite map_map. rewrite <-(map_id (ordered_groups _)) at 1. apply map_ext_in.
  intros [series es] Hin. apply list_elem_of_In in Hin.
  unfold ordered_groups, sort_by_cmp in Hin. rewrite elem_of_sort_by in Hin.
  apply elem_of_map_to_list in Hin. simpl. f_equal.
  rewrite <-rows_group_events. unfold rows. by rewrite Hin.
Qed.

(** ** Totals *)

(** A decimal in units of the [scale]-th decimal place. *)
Definition in_units (scale : N) (d : ExactDecimal) : Z :=
  (xd_coefficient d * 10 ^ Z.of_N (scale - xd_scale d))%Z.

Lemma rescale_some d scale z :
  ExactDecimal.rescale d scale = Some z →
  xd_scale d <= scale ∧ z = in_units scale d ∧ (i128_min <= z <= i128_max)%Z.
Proof.
  unfold ExactDecimal.rescale. destruct (N.ltb_spec scale (xd_scale d)) as [|Hle]; [done|].
  intros (p & Hp & Hz)%bind_Some. unfold i128_pow10 in Hp. apply i128_some in Hp as [-> _].
  unfold i128_mul in Hz. apply i128_some in Hz as [-> Hr]. done.
Qed.

Lemma checked_sum_some values z :
  checked_sum values = Some z → z = foldr Z.add 0%Z values.
Proof.
  unfold checked_sum.
  enough (HG : ∀ acc, foldl (λ sum value, sum ← sum; i128_add sum value) (Some acc) values = Some z →
                 z = (acc + foldr Z.add 0 values)%Z).
  { intros Hs%HG. lia. }
  induction values as [|v values IH]; intros acc; simpl; [intros [= ->]; lia|].
  destruct (i128_add acc v) as [s|] eqn:E.
  - intros Hs%IH. unfold i128_add in E. apply i128_some in E as [-> _]. lia.
  - intros Hs. exfalso. clear -Hs. induction values; simpl in *; [done|auto].
Qed.

Lemma checked_sum_range values z :
  values ≠ [] → checked_sum values = Some z → (i128_min <= z <= i128_max)%Z.
Proof.
  intros Hne. unfold checked_sum. destruct (exists_last Hne) as (init & v & ->).
  rewrite foldl_app. simpl. intros (s & _ & Hs)%bind_Some. unfold i128_add in Hs.
  by apply i128_some in Hs as [-> ?].
Qed.

Lemma fold_extremum (op : Z → Z → Z) (R : Z → Z → Prop) first rest :
  (∀ a b, (op a b = a ∨ op a b = b) ∧ R (op a b) a ∧ R (op a b) b) →
  (∀ a, R a a) → (∀ a b c, R a b → R b c → R a c) →
  foldl op first rest ∈ first :: rest ∧ ∀ v, v ∈ first :: rest → R (foldl op first rest) v.
Proof.
  intros Hop Hrefl Htr. revert first. induction rest as [|x rest IH]; intros first; simpl.
  - split; [set_solver|]. intros v ->%list_elem_of_singleton. done.
  - destruct (IH (op first x)) as [Hin Hall]. destruct (Hop first x) as (Hor & Ha & Hb).
    split.
    { apply elem_of_cons in Hin as [->|Hin]; [|by do 2 apply list_elem_of_further].
      destruct Hor as [-> | ->]; [apply list_elem_of_here|].
      apply list_elem_of_further, list_elem_of_here. }
    intros v Hv.
    assert (Htop := Hall (op first x) (list_elem_of_here _ _)).
    apply elem_of_cons in Hv as [->|[->|Hv]%elem_of_cons]; [by eapply Htr..|].
    by apply Hall, list_elem_of_further.
Qed.

Lemma max_scale_some decimals scale :
  max_scale decimals = Some scale →
  (∃ d, d ∈ decimals ∧ xd_scale d = scale) ∧ ∀ d, d ∈ decimals → xd_scale d <= scale.
Proof.
  destruct decimals as [|first rest]; simpl; [done|]. intros [= <-].
  revert first. induction rest as [|x rest IH]; intros first; simpl.
  - split; [exists first; set_solver|]. intros d ->%list_elem_of_singleton. done.
  - destruct (IH (if xd_scale first <? xd_scale x then x else first)) as [(d & Hd & Hs) Hall].
    assert (HE : xd_scale (if xd_scale first <? xd_scale x then x else first) =
                 N.max (xd_scale first) (xd_scale x)).
    { destruct (N.ltb_spec (xd_scale first) (xd_scale x)); lia. }
    rewrite HE in Hs, Hall. split.
    + exists d. split; [|done]. destruct (xd_scale first <? xd_scale x); set_solver.
    + intros e [->|[->|He]%elem_of_cons]%elem_of_cons;
        [| |apply Hall; set_solver];
        (etrans; [|apply Hall, list_elem_of_here]); rewrite HE; lia.
Qed.

Lemma parse_scale value d : ExactDecimal.parse value = Some d → xd_scale d <= u32_max.
Proof.
  unfold ExactDecimal.parse. destruct (split_point _) as [whole fraction].
  destruct (N.leb_spec (N.of_nat (length fraction)) u32_max); [|done].
  by intros (c & _ & [= <-])%bind_Some.
Qed.

Lemma mapM_rescale decimals scale values :
  mapM (λ value, ExactDecimal.rescale value scale) decimals = Some values →
  values = map (in_units scale) decimals ∧ ∀ v, v ∈ values → (i128_min <= v <= i128_max)%Z.
Proof.
  intros HF%mapM_Some. induction HF as [|d v decimals values Hv _ [IH1 IH2]]; simpl; [set_solver|].
  apply rescale_some in Hv as (_ & -> & Hr). split; [by f_equal|].
  intros w [->|Hw]%elem_of_cons; auto.
Qed.

(** The totals of a selection are exact in units of its largest scale. *)
Lemma rollup_totals_spec events totals :
  rollup_totals events = Some totals → ∃ decimals,
  let values := map (in_units (qt_scale totals)) decimals in
  mapM decimal_of events = Some decimals ∧
  (∀ d, d ∈ decimals → xd_scale d <= qt_scale totals) ∧ qt_scale totals <= u32_max ∧
  qt_total totals = foldr Z.add 0%Z values ∧ (i128_min <= qt_total totals <= i128_max)%Z ∧
  (qt_min totals ∈ values ∧ ∀ v, v ∈ values → (qt_min totals <= v)%Z) ∧
  (qt_max totals ∈ values ∧ ∀ v, v ∈ values → (v <= qt_max totals)%Z) ∧
  ExactDecimal.average (qt_total totals) (qt_scale totals) (Z.of_nat (length events)) =
    Some (qt_average totals).
Proof.
  unfold rollup_totals. intros (decimals & Hd & Ht)%bind_Some.
  apply bind_Some in Ht as (scale & Hs & Ht). apply bind_Some in Ht as (values & Hv & Ht).
  apply bind_Some in Ht as (total & Hsum & Ht).
  destruct values as [|first rest] eqn:EV; [done|]. rewrite <-EV in *.
  apply bind_Some in Ht as (average & Ha & [= <-]). simpl.
  assert (HL : length values = length events).
  { apply mapM_Some, Forall2_length in Hv, Hd. lia. }
  apply max_scale_some in Hs as [(d0 & Hd0 & Hs0) Hmax].
  apply mapM_rescale in Hv as [Hvals _]. rewrite <-HL.
  destruct (fold_extremum Z.min Z.le first rest) as [Hmin Hmins]; [intros; lia|lia|lia|].
  destruct (fold_extremum Z.max (λ a b, (b <= a)%Z) first rest) as [Hmx Hmxs];
    [intros; lia|lia|lia|]. rewrite <-EV in Hmin, Hmins, Hmx, Hmxs.
  exists decimals. rewrite <-Hvals. split_and!; try done.
  - subst scale. apply mapM_Some in Hd. apply list_elem_of_lookup in Hd0 as [i Hi].
    destruct (Forall2_lookup_r _ _ _ _ _ Hd Hi) as (e & _ & He). by apply parse_scale in He.
  - by apply checked_sum_some.
  - by apply (checked_sum_range values); [rewrite EV|].
  - by apply (checked_sum_range values); [rewrite EV|].
Qed.

Section rollup_facts.
Context `{Jiff} `{Sha256} `{SerdeJson}.
Implicit Types (units : list StoredMemoryUnit) (request : RecallRequest).
Implicit Types (window : AggregationWindow) (time : RecallTime).

(** The events of a series among the units. *)
Definition series_events units request window time (series : Series) : list RollupEvent :=
  retain (λ e, bool_decide (series_of e = series)) (omap (rollup_event request window time) units).

(** When a unit is an event of a series: a current or superseded fact of the
    scope, visible at the recall's times, whose body is a quantity event of the
    series inside the window. *)
Definition counts request window time (series : Series) (u : StoredMemoryUnit)
    (event : QuantityEvent) : Prop :=
  mu_scope_id u = cx_scope_id (rq_context request) ∧ mu_kind u = MemoryKind.Semantic ∧
  (mu_state u = UnitState.Active ∨ mu_state u = UnitState.Superseded) ∧
  bitemporally_recallable u time = true ∧ quantity_event_from_body (mu_body u) = Some event ∧
  series = (qe_namespace event, qe_item_key event, qe_measure event, qe_unit event) ∧
  cmp_rfc3339 (qe_occurred_at event) (aw_from window) ≠ Lt ∧
  cmp_rfc3339 (qe_occurred_at event) (aw_to window) = Lt.

Lemma elem_of_series_events units request window time series u event :
  (u, event) ∈ series_events units request window time series ↔
  u ∈ units ∧ counts request window time series u event.
Proof.
  unfold series_events. rewrite elem_of_retain, bool_decide_eq_true, list_elem_of_omap.
  unfold counts, rollup_event. split.
  - intros [(v & Hv & He) Hs].
    destruct (_ || _) eqn:E1 in He; [done|]. rewrite !orb_false_iff, !negb_false_iff, N.eqb_eq,
      bool_decide_eq_true in E1. destruct E1 as [[[Hsc Hk] Hst] Hb].
    apply bind_Some in He as (q & Hq & He). destruct (_ || _) eqn:E2 in He; [done|].
    injection He as -> ->. apply orb_false_iff in E2 as [Hfrom Hto]. apply negb_false_iff in Hto.
    unfold is_lt in Hfrom, Hto. split_and!; try done.
    + destruct (mu_state u); try done; auto.
    + intros E. by rewrite E in Hfrom.
    + by destruct (cmp_rfc3339 _ (aw_to window)).
  - intros (Hu & Hsc & Hk & Hst & Hb & Hq & Hs & Hfrom & Hto). split; [|by symmetry].
    exists u. split; [done|]. rewrite Hsc, Hk, Hb, Hq, N.eqb_refl. unfold is_lt.
    replace (match mu_state u with UnitState.Active | UnitState.Superseded => true | _ => false end)
      with true by (by destruct Hst as [-> | ->]).
    cbn. rewrite Hto. by destruct (cmp_rfc3339 _ (aw_from window)).
Qed.

Lemma series_events_le units request window time series :
  (length (series_events units request window time series) <= length units)%nat.
Proof.
  unfold series_events. etrans; [apply sublist_length, retain_sublist|].
  induction units as [|u units IH]; [done|]. cbn. destruct (rollup_event _ _ _ u); cbn in *; lia.
Qed.

Lemma rollup_event_unit units request window time u e :
  (u, e) ∈ omap (rollup_event request window time) units → u ∈ units.
Proof.
  intros (w & Hw & He)%list_elem_of_omap. unfold rollup_event in He.
  destruct (_ || _); [done|]. apply bind_Some in He as (q & _ & He).
  destruct (_ || _); [done|]. by injection He as -> _.
Qed.

Lemma rollup_of_some request window tokens group rollup :
  rollup_of request window tokens group = Some rollup →
  let filters := matched_dimensions tokens group.2 in
  let selected := retain (selected_by filters) group.2 in
  ∃ first rest totals, selected = first :: rest ∧ rollup_totals selected = Some totals ∧
    (series_relevant tokens group.1 = true ∨ filters ≠ ∅) ∧
    sy_source_unit_ids rollup = sorted_ids (map (λ e, mu_id e.1) selected) ∧
    sy_unit rollup =
      synthetic_unit request
        (rollup_id request window group.1 (filter_text filters) (sy_source_unit_ids rollup))
        (rollup_fact_key request group.1)
        (rollup_body window group.1 (filter_text filters) totals (length selected))
        (riskiest_trust first.1 (map fst rest)) (Some (cx_actor_id (rq_context request)))
        "quantity_rollup" first.1.
Proof.
  destruct group as [series events]. unfold rollup_of. cbv zeta. simpl.
  destruct (negb _ && _) eqn:ER; [done|].
  destruct (retain _ events) as [|[first fe] rest] eqn:ES; [done|].
  intros (totals & Ht & [= <-])%bind_Some. exists (first, fe), rest, totals.
  split; [done|]. split; [done|]. split; [|split; [done|]].
  - apply andb_false_iff in ER as [ER|ER].
    + left. by apply negb_false_iff in ER.
    + right. by apply bool_decide_eq_false in ER.
  - simpl. do 2 f_equal. unfold sorted_ids. rewrite sort_by_perm. simpl. by rewrite length_map.
Qed.

Lemma elem_of_quantity_rollups units request window time rollup :
  rollup ∈ quantity_rollups units request window time → ∃ series,
  rollup_of request window (tokenize (rq_query request))
    (series, series_events units request window time series) = Some rollup.
Proof.
  unfold quantity_rollups. intros ([series es] & Hin & Hr)%list_elem_of_omap.
  rewrite ordered_groups_spec in Hin. apply list_elem_of_fmap in Hin as (s & [= -> ->] & _).
  by exists s.
Qed.

(** Quantity rollups are a grouping: their series are those of the window's
    events, each once and in order, and the rollup of a series is made from
    all the events the series has among the units. *)
Theorem rollups_group_by_series units request window time : ∃ keys,
  StronglySorted (λ s s', series_cmp s s' = Lt) keys ∧
  (∀ series, series ∈ keys ↔ series_events units request window time series ≠ []) ∧
  quantity_rollups units request window time =
    omap (λ series, rollup_of request window (tokenize (rq_query request))
                      (series, series_events units request window time series)) keys.
Proof.
  set (events := omap (rollup_event request window time) units).
  exists (map fst (ordered_groups (group_events events))). split_and!.
  - apply (sorted_keys series_cmp fst). apply NoDup_fst_map_to_list.
  - intros series.
    assert (HK : series ∈ map fst (ordered_groups (group_events events)) ↔
                 is_Some (group_events events !! series)).
    { unfold ordered_groups, sort_by_cmp. rewrite list_elem_of_fmap. split.
      - intros ([s es] & -> & Hin). rewrite elem_of_sort_by, elem_of_map_to_list in Hin. eauto.
      - intros [es Hes]. exists (series, es). split; [done|].
        by rewrite elem_of_sort_by, elem_of_map_to_list. }
    rewrite HK, group_events_present. unfold series_events. fold events. split.
    + intros (e & He & Hs) HN. eapply (not_elem_of_nil e). rewrite <-HN, elem_of_retain.
      by rewrite bool_decide_eq_true.
    + destruct (retain _ events) as [|e es] eqn:E; [done|]. intros _. exists e.
      assert (Hin : e ∈ e :: es) by apply list_elem_of_here.
      rewrite <-E, elem_of_retain in Hin. by rewrite bool_decide_eq_true in Hin.
  - unfold quantity_rollups. fold events. rewrite ordered_groups_spec at 1.
    by rewrite omap_map.
Qed.

(** C29: A quantity rollup is exact.  Its sources are the events of one series,
    in the scope and window of the request, that the filter of the query
    selects; its body gives their number, their exact sum, minimum and maximum
    in units of the smallest decimal place, and an average within half a
    millionth of the true one. *)
Theorem rollups_are_exact units request window time rollup :
  (Z.of_nat (length units) <= i128_max)%Z →
  rollup ∈ quantity_rollups units request window time → ∃ series totals decimals,
  let events := series_events units request window time series in
  let filters := matched_dimensions (tokenize (rq_query request)) events in
  let selected := retain (selected_by filters) events in
  let values := map (in_units (qt_scale totals)) decimals in
  (∀ u event, (u, event) ∈ events ↔ u ∈ units ∧ counts request window time series u event) ∧
  sy_source_unit_ids rollup ≡ₚ map (λ e, mu_id e.1) selected ∧
  mapM decimal_of selected = Some decimals ∧
  (∀ d, d ∈ decimals → xd_scale d <= qt_scale totals) ∧
  qt_total totals = foldr Z.add 0%Z values ∧
  (qt_min totals ∈ values ∧ ∀ v, v ∈ values → (qt_min totals <= v)%Z) ∧
  (qt_max totals ∈ values ∧ ∀ v, v ∈ values → (v <= qt_max totals)%Z) ∧
  ((i128_min < qt_total totals)%Z → ∃ average,
     ExactDecimal.parse (qt_average totals) = Some average ∧
     within_half average (qt_total totals) (qt_scale totals) (Z.of_nat (length selected))) ∧
  mu_body (sy_unit rollup) =
    rollup_body window series (filter_text filters) totals (length selected).
Proof.
  intros HL (series & Hr)%elem_of_quantity_rollups.
  apply rollup_of_some in Hr as (first & rest & totals & Hsel & Ht & _ & Hids & Hu).
  simpl in *. pose proof Ht as Ht'.
  apply rollup_totals_spec in Ht' as (decimals & Hd & Hle & Hscale & Hsum & Hrange & [Hmin ?] & [Hmax ?] & Ha).
  exists series, totals, decimals.
  split; [intros u event; apply elem_of_series_events|]. split_and!; try done.
  - rewrite Hids. apply sort_by_perm.
  - intros Hlow. match type of Ha with _ _ _ (Z.of_nat ?n) = _ => set (count := n) in * end.
    assert (Hc : (0 < Z.of_nat count <= i128_max)%Z).
    { unfold count. rewrite Hsel at 1. split; [simpl; lia|]. etrans; [|exact HL].
      apply inj_le. etrans; [apply sublist_length, retain_sublist|]. apply series_events_le. }
    destruct (average_spec _ _ _ _ (conj Hlow (proj2 Hrange)) Hc Hscale Ha) as (d & ? & ? & _).
    by exists d.
  - by rewrite Hu.
Qed.
End rollup_facts.

(** ** Bundles *)

Section bundle_facts.
Context `{Jiff} `{Sha256} `{SerdeJson} `{UnicodeAlphanumeric} `{UnicodeLowercase}.
Implicit Types (units : list StoredMemoryUnit) (request : RecallRequest).

Lemma elem_of_structured_members units request u identity :
  (u, identity) ∈ structured_members units request ↔
  u ∈ units ∧ in_scope request u = true ∧ artifact_state_identity u = Some identity.
Proof.
  unfold structured_members. rewrite list_elem_of_omap. split.
  - intros (v & [Hv Hs]%elem_of_retain & (i & Hi & [= <- <-])%fmap_Some). done.
  - intros (Hu & Hs & Hi). exists u. rewrite elem_of_retain, Hi. done.
Qed.

Lemma seeded_spec seeds (member : StoredMemoryUnit * (string * string)) :
  seeded seeds member = true ↔ ∃ e, mu_source_episode_id member.1 = Some e ∧ e ∈ seeds.
Proof.
  unfold seeded. destruct (mu_source_episode_id member.1) as [e|].
  - rewrite bool_decide_eq_true. naive_solver.
  - naive_solver.
Qed.

Lemma elem_of_bundle_members seeds structured member :
  member ∈ bundle_members seeds structured ↔
  member ∈ structured ∧ ∃ other, other ∈ structured ∧ other.2.1 = member.2.1 ∧
    ∃ e, mu_source_episode_id other.1 = Some e ∧ e ∈ seeds.
Proof.
  unfold bundle_members. rewrite elem_of_retain, bool_decide_eq_true, elem_of_list_to_set,
    list_elem_of_fmap. split.
  - intros [Hm (o & Ho & [Hin Hs]%elem_of_retain)]. split; [done|]. exists o.
    rewrite seeded_spec in Hs. done.
  - intros [Hm (o & Ho & Hn & He)]. split; [done|]. exists o.
    rewrite elem_of_retain, seeded_spec. done.
Qed.

Lemma bundle_of_some request members bundle :
  bundle_of request members = Some bundle → ∃ first rest id fact_key, members = first :: rest ∧
    sy_source_unit_ids bundle = sorted_ids (map (λ m, mu_id m.1) members) ∧
    sy_unit bundle =
      synthetic_unit request id fact_key (bundle_body members)
        (riskiest_trust first.1 (map fst rest)) (common_actor first.1 members)
        "artifact_bundle" first.1.
Proof.
  destruct members as [|[first identity] rest]; [done|]. intros [= <-].
  exists (first, identity), rest. by do 2 eexists.
Qed.

Lemma artifact_bundle_some units request bundle :
  artifact_bundle units request = Some bundle → ∃ anchor,
  explicit_artifact_anchor (rq_query request) = Some anchor ∧
  let members := bundle_members (seed_episodes units request anchor)
                   (structured_members units request) in
  (2 <= length members)%nat ∧
  bundle_of request (sort_by_cmp member_cmp members) = Some bundle.
Proof.
  unfold artifact_bundle. intros (anchor & Ha & Hb)%bind_Some. exists anchor.
  split; [done|]. cbv zeta in *. case_bool_decide; [done|].
  destruct (Nat.ltb_spec (length (bundle_members (seed_episodes units request anchor)
    (structured_members units request))) 2); [done|]. done.
Qed.

(** What a namespace must have to enter a bundle: one of its states was
    derived from an episode that also left a unit with the anchor in it. *)
Definition bundled units request (anchor : list N) (u : StoredMemoryUnit) : Prop :=
  u ∈ units ∧ in_scope request u = true ∧
  ∃ namespace item other other_item seed episode,
    artifact_state_identity u = Some (namespace, item) ∧
    (other ∈ units ∧ in_scope request other = true ∧
     artifact_state_identity other = Some (namespace, other_item) ∧
     mu_source_episode_id other = Some episode) ∧
    (seed ∈ units ∧ in_scope request seed = true ∧ mu_source_episode_id seed = Some episode ∧
     contains_bytes (normalize_artifact_text (bytes_of (mu_body seed))) anchor = true).

Lemma elem_of_seed_episodes units request anchor episode :
  episode ∈ seed_episodes units request anchor ↔ ∃ seed,
    seed ∈ units ∧ in_scope request seed = true ∧ mu_source_episode_id seed = Some episode ∧
    contains_bytes (normalize_artifact_text (bytes_of (mu_body seed))) anchor = true.
Proof.
  unfold seed_episodes. rewrite elem_of_list_to_set, list_elem_of_omap.
  setoid_rewrite elem_of_retain. setoid_rewrite elem_of_retain. naive_solver.
Qed.

Lemma bundled_members units request anchor u :
  bundled units request anchor u ↔ ∃ identity,
    (u, identity) ∈ bundle_members (seed_episodes units request anchor)
                      (structured_members units request).
Proof.
  unfold bundled. setoid_rewrite elem_of_bundle_members.
  setoid_rewrite elem_of_structured_members. setoid_rewrite elem_of_seed_episodes. split.
  - intros (Hu & Hs & n & i & o & oi & seed & e & Hi & (Ho & Hos & Hoi & He) & Hseed).
    exists (n, i). split; [done|]. exists (o, (n, oi)). rewrite elem_of_structured_members.
    split; [done|]. split; [done|]. exists e. split; [done|]. by exists seed.
  - intros ([n i] & (Hu & Hs & Hi) & [o [on oi]] & Ho & Hn & e & He & seed & Hseed).
    apply elem_of_structured_members in Ho as (Ho & Hos & Hoi). simpl in *. subst on.
    split; [done|]. split; [done|]. by exists n, i, o, oi, seed, e.
Qed.

(** An artifact bundle holds exactly the current structured states, at least
    two, of the namespaces that share an episode with the query's anchor: its
    sources are their identifiers, its body their bodies in order, its trust is
    that of the riskiest, and it has an actor only if they all have that one. *)
Theorem bundle_holds_the_states units request bundle :
  artifact_bundle units request = Some bundle → ∃ anchor members,
  explicit_artifact_anchor (rq_query request) = Some anchor ∧
  (∀ u, u ∈ members ↔ bundled units request anchor u) ∧ (2 <= length members)%nat ∧
  sy_source_unit_ids bundle ≡ₚ map mu_id members ∧
  mu_body (sy_unit bundle) =
    "[artifact state]" +:+ string_of_bytes [LF] +:+
    String.concat (string_of_bytes [LF]) (map mu_body members) ∧
  (∀ u, u ∈ members →
     trust_risk_rank (mu_trust_level u) <= trust_risk_rank (mu_trust_level (sy_unit bundle))) ∧
  (∀ actor, mu_actor_id (sy_unit bundle) = Some actor →
     ∀ u, u ∈ members → mu_actor_id u = Some actor).
Proof.
  intros (anchor & Ha & Hlen & Hb)%artifact_bundle_some.
  set (members := bundle_members _ _) in *. exists anchor.
  exists (map fst (sort_by_cmp member_cmp members)).
  apply bundle_of_some in Hb as (first & rest & id & fact_key & Hm & Hids & Hu).
  split; [done|]. split_and!.
  - intros u. rewrite bundled_members. fold members. rewrite list_elem_of_fmap.
    unfold sort_by_cmp. setoid_rewrite elem_of_sort_by. split.
    + intros ([v i] & -> & Hin). by exists i.
    + intros [i Hi]. by exists (u, i).
  - rewrite length_map. unfold sort_by_cmp. by rewrite sort_by_perm.
  - rewrite Hids. unfold sorted_ids. by rewrite sort_by_perm, map_map.
  - rewrite Hu, map_map. done.
  - intros u Hin. rewrite Hu. apply riskiest_trust_max. by rewrite Hm in Hin.
  - intros actor. rewrite Hu. simpl. unfold common_actor.
    intros (a & _ & Hall)%bind_Some u ([v i] & -> & Hin)%list_elem_of_fmap.
    destruct (forallb _ _) eqn:E; [|done]. injection Hall as ->.
    rewrite forallb_forall in E. apply list_elem_of_In in Hin. specialize (E _ Hin).
    by apply bool_decide_eq_true in E.
Qed.

(** ** Trust *)

Lemma floor_rank trust :
  match trust with
  | TrustLevel.TrustedUser | TrustLevel.TrustedSystem | TrustLevel.VerifiedTool => true
  | _ => false
  end = (trust_risk_rank trust <=? 1).
Proof. by destruct trust. Qed.

(** A synthetic unit never lifts its sources over the trust floor: a query
    for a high-risk action drops a rollup or a bundle that has a source which
    it would drop as untrusted. *)
Theorem synthetic_units_keep_the_floor units request window time synthetic u :
  NoDup (map mu_id units) → u ∈ units →
  synthetic ∈ quantity_rollups units request window time ∨
    artifact_bundle units request = Some synthetic →
  mu_id u ∈ sy_source_unit_ids synthetic →
  high_risk_action_query (rq_query request) = true →
  trust_risk_rank (mu_trust_level u) <=? 1 = false →
  is_Some (high_risk_recall_drop_reason (sy_unit synthetic) request).
Proof.
  intros Hnd Hu Hsyn Hsrc Hq Hrank.
  assert (HR : trust_risk_rank (mu_trust_level u) <=
               trust_risk_rank (mu_trust_level (sy_unit synthetic))).
  { destruct Hsyn as [(series & Hr)%elem_of_quantity_rollups|Hb].
    - apply rollup_of_some in Hr as ([first fe] & rest & totals & Hsel & _ & _ & Hids & Hun).
      simpl in *. rewrite Hun. apply riskiest_trust_max. rewrite Hids in Hsrc.
      unfold sorted_ids in Hsrc. rewrite elem_of_sort_by, Hsel in Hsrc.
      apply list_elem_of_fmap in Hsrc as ([v ev] & Hid & Hin). simpl in Hid.
      assert (Hv : v ∈ units).
      { rewrite <-Hsel in Hin. apply elem_of_retain in Hin as [Hin _].
        unfold series_events in Hin. apply elem_of_retain in Hin as [Hin _].
        by eapply rollup_event_unit. }
      rewrite (NoDup_map_inj mu_id units u v) by done.
      change (v ∈ map fst ((first, fe) :: rest)). apply list_elem_of_fmap. by exists (v, ev).
    - apply artifact_bundle_some in Hb as (anchor & Ha & _ & Hb).
      apply bundle_of_some in Hb as ([first fe] & rest & id & fact_key & Hm & Hids & Hun).
      rewrite Hun. apply riskiest_trust_max. rewrite Hids in Hsrc.
      unfold sorted_ids in Hsrc. rewrite elem_of_sort_by, Hm in Hsrc.
      apply list_elem_of_fmap in Hsrc as ([v i] & Hid & Hin). simpl in Hid.
      assert (Hv : v ∈ units).
      { rewrite <-Hm in Hin. unfold sort_by_cmp in Hin. rewrite elem_of_sort_by in Hin.
        apply elem_of_bundle_members in Hin as [Hin _].
        by apply elem_of_structured_members in Hin as (? & _). }
      rewrite (NoDup_map_inj mu_id units u v) by done.
      change (v ∈ map fst ((first, fe) :: rest)). apply list_elem_of_fmap. by exists (v, i). }
  unfold high_risk_recall_drop_reason. rewrite Hq. simpl.
  destruct (personal_context_unit _); [done|].
  unfold high_risk_memory_below_trust_floor. rewrite floor_rank.
  apply N.leb_gt in Hrank. destruct (N.leb_spec (trust_risk_rank (mu_trust_level (sy_unit synthetic))) 1); [lia|].
  by rewrite orb_true_r.
Qed.
End bundle_facts.
