(* ===== verification/DeepFacts.v ===== *)
(** * DeepFacts: what a deep run may see, spend and serve

    The framing of the workspace digest is unambiguous; the checks of a
    provider's output are an equivalence with what it must satisfy; a deep run
    serves only units the policy of the request admits. *)

From S2P Require Import Prelude Text TextFacts Types Float Clock Bitemporal Lineage Store Stage Reads ReadFacts Chunks Render Gate Pack Rerank Fuse Receipts Dates Structured StructuredFacts Deep.

(** ** Framing *)

Lemma high_bit n i : n <= u64_max → 64 <= i → N.testbit n i = false.
Proof.
  intros Hn Hi. rewrite <-(N.mod_small n (2 ^ 64)); [by apply N.mod_pow2_bits_high|].
  unfold u64_max in Hn. lia.
Qed.

Lemma be_bytes_inj n m : n <= u64_max → m <= u64_max → be_bytes n = be_bytes m → n = m.
Proof.
  intros Hn Hm HE.
  assert (HB : ∀ k, k < 8 → N.land (N.shiftr n (8 * k)) 255 = N.land (N.shiftr m (8 * k)) 255).
  { intros k Hk. injection HE as H7 H6 H5 H4 H3 H2 H1 H0.
    assert (k = 0 ∨ k = 1 ∨ k = 2 ∨ k = 3 ∨ k = 4 ∨ k = 5 ∨ k = 6 ∨ k = 7) as Hc by lia.
    destruct Hc as [->|[->|[->|[->|[->|[->|[->| ->]]]]]]]; assumption. }
  apply N.bits_inj. intros i. destruct (N.lt_ge_cases i 64) as [Hi|Hi]; [|by rewrite !high_bit].
  pose proof (N.div_mod i 8 ltac:(done)) as Hdiv.
  pose proof (N.mod_lt i 8 ltac:(done)) as Hr.
  assert (Hk : i / 8 < 8) by (apply N.Div0.div_lt_upper_bound; lia).
  specialize (HB (i / 8) Hk). apply (f_equal (λ v, N.testbit v (i mod 8))) in HB.
  rewrite !N.land_spec, !N.shiftr_spec in HB by apply N.le_0_l.
  change 255 with (N.ones 8) in HB. rewrite N.ones_spec_low, !andb_true_r in HB by done.
  replace (i mod 8 + 8 * (i / 8)) with i in HB by lia. done.
Qed.

Definition fits (s : string) : Prop := str_len s <= u64_max.

(** A frame ends where it says. *)
Lemma framed_inj s t rest rest' :
  fits s → fits t → framed s ++ rest = framed t ++ rest' → s = t ∧ rest = rest'.
Proof.
  unfold framed, fits, str_len. intros Hs Ht HE. rewrite <-!app_assoc in HE.
  apply app_inj_1 in HE as [Hlen HE]; [|done].
  apply be_bytes_inj in Hlen; [|done|done]. apply Nat2N.inj in Hlen.
  apply app_inj_1 in HE as [Hb ->]; [|by rewrite !length_bytes_of].
  split; [|done]. by rewrite <-(string_of_bytes_of s), Hb, string_of_bytes_of.
Qed.

(** The digest of a workspace commits to its files: the bytes it hashes
    determine every path and every body, so two workspaces with the same hashed
    bytes are the same list of files. *)
Theorem workspace_bytes_commit files files' :
  Forall (λ file, fits (df_path file) ∧ fits (df_body file)) (files ++ files') →
  workspace_bytes files = workspace_bytes files' → files = files'.
Proof.
  intros [HF HF']%Forall_app. revert files' HF'.
  unfold workspace_bytes. induction HF as [|[p b] files [Hp Hb] _ IH];
    intros [|[p' b'] files'] HF' HE; cbn [flat_map df_path df_body] in *; [done..|].
  inversion_clear HF' as [|? ? [Hp' Hb'] HF'']. simpl in *.
  rewrite <-!app_assoc in HE.
  apply framed_inj in HE as [-> HE]; [|done|done]. apply framed_inj in HE as [-> HE]; [|done|done].
  f_equal. by apply IH.
Qed.

(** ** The checks of an output *)

Lemma generation_ids_spec seen ids :
  generation_ids_valid seen ids = true ↔
  (∀ id, id ∈ ids → trim_is_empty id = false ∧ id ∉ seen) ∧ NoDup ids.
Proof.
  revert seen. induction ids as [|id ids IH]; intros seen; simpl.
  { split; [|done]. intros _. split; [|constructor]. by intros ? ?%elem_of_nil. }
  rewrite !andb_true_iff, !negb_true_iff, bool_decide_eq_false, IH, NoDup_cons. split.
  - intros ([Ht Hs] & Hall & Hnd). split_and!; [| |done].
    + intros id' [->|Hin]%elem_of_cons; [done|]. destruct (Hall id' Hin). set_solver.
    + intros Hin. destruct (Hall id Hin). set_solver.
  - intros (Hall & Hni & Hnd). destruct (Hall id (list_elem_of_here _ _)) as [? ?].
    split_and!; try done. intros id' Hin. destruct (Hall id' (list_elem_of_further _ _ _ Hin)).
    split; [done|]. set_solver.
Qed.

Lemma within_spec limit a b :
  usage_within limit (checked_add u64_max a b) = true ↔ a + b <= limit ∧ a + b <= u64_max.
Proof.
  unfold usage_within, checked_add. destruct (N.leb_spec (a + b) u64_max); [|split; [done|lia]].
  rewrite N.leb_le. lia.
Qed.

(** What the source ids of an output must be: distinct, each the id of exactly
    one entry, which has units; the units are those of the entries, in the
    order of the ids and by id within an entry. *)
Definition ranked_by (entries : list DeepSnapshotEntry) (source_ids : list Uuid)
    (units : list StoredMemoryUnit) : Prop :=
  NoDup source_ids ∧ ∃ chosen,
    Forall2 (λ source_id entry, retain (λ e, de_source_id e =? source_id) entries = [entry] ∧
                                de_bound_units entry ≠ []) source_ids chosen ∧
    units = flat_map (λ entry, sort_by unit_id_leb (de_bound_units entry)) chosen.

Lemma ranked_units_spec entries seen source_ids units :
  ranked_units entries seen source_ids = Ok units ↔
  (∀ id, id ∈ source_ids → id ∉ seen) ∧ ranked_by entries source_ids units.
Proof.
  revert seen units. induction source_ids as [|id ids IH]; intros seen units; cbn [ranked_units].
  { split.
    - intros [= <-]. split; [by intros ? ?%elem_of_nil|]. split; [constructor|].
      exists []. split; [constructor|done].
    - intros (_ & _ & chosen & HF & ->). by inversion HF. }
  case_bool_decide as Hs.
  { split; [done|]. intros [Hall _]. by destruct (Hall id (list_elem_of_here _ _)). }
  split.
  - destruct (retain _ entries) as [|entry [|]] eqn:ER; [done| |done].
    destruct (is_empty _) eqn:EU; [done|].
    intros (rest & Hr & [= <-])%result_bind_ok.
    apply IH in Hr as (Hall & Hnd & chosen & HF & ->). split.
    + intros id' [->|Hin]%elem_of_cons; [done|]. specialize (Hall id' Hin). set_solver.
    + split.
      * constructor; [|done]. intros Hin. specialize (Hall id Hin). set_solver.
      * exists (entry :: chosen). split; [|done]. constructor; [|done]. split; [done|].
        by intros E; rewrite E in EU.
  - intros (Hall & Hnd & chosen & HF & ->). apply NoDup_cons in Hnd as [Hni Hnd].
    inversion HF as [|? entry ? chosen' [Hone Hne] HF' E1 E2]; subst.
    rewrite Hone. destruct (de_bound_units entry) as [|u us] eqn:EU; [done|]. cbn [is_empty].
    assert (HR : ranked_units entries (id :: seen) ids =
      Ok (flat_map (λ entry, sort_by unit_id_leb (de_bound_units entry)) chosen')).
    { apply IH. split; [|split; [done|by exists chosen']].
      intros id' Hin. specialize (Hall id' (list_elem_of_further _ _ _ Hin)). set_solver. }
    rewrite HR. cbn [result_bind flat_map]. by rewrite EU.
Qed.

(** What a provider must return. *)
Record deep_output_valid (output : DeepRecallProviderResult) (limits : DeepRecallLimits)
    (identity : DeepProviderIdentity) : Prop := {
  ov_stop : status_matches (gr_status output) (gr_stop_reason output) = true;
  ov_time : du_wall_time_ms (gr_usage output) <= dl_wall_time_ms limits;
  ov_tools : du_tool_iterations (gr_usage output) <= dl_max_tool_iterations limits;
  (** What was spent and what may still be billed, together. *)
  ov_context : du_context_tokens (gr_usage output) +
      du_unsettled_context_tokens_upper_bound (gr_usage output)
    <= N.min (dl_max_context_tokens limits) u64_max;
  ov_spend : du_spend_micros (gr_usage output) +
      du_unsettled_spend_micros_upper_bound (gr_usage output)
    <= N.min (dl_max_spend_micros limits) u64_max;
  ov_route : observed_route_valid (gr_observed_provider output) (gr_observed_model output) = true;
  ov_generations : NoDup (gr_generation_ids output) ∧
    ∀ id, id ∈ gr_generation_ids output → trim_is_empty id = false;
  ov_contract : di_contract_revision (gr_evidence output) = EVIDENCE_DISPOSITION_CONTRACT_REVISION;
  ov_policy : di_answer_policy (gr_evidence output) = answer_policy (di_status (gr_evidence output));
  ov_reason : trim_is_empty (di_reason (gr_evidence output)) = false;
  (** Evidence is claimed only of sources, and only by a completed run. *)
  ov_evidence : di_status (gr_evidence output) ≠ EvidenceStatus.Insufficient →
    gr_source_ids output ≠ [] ∧ gr_status output = DeepRecallStatus.Completed;
  ov_identity : validate_deep_provider_identity identity = Ok ();
}.

Lemma evidence_valid_spec output :
  evidence_valid output = true ↔
  di_contract_revision (gr_evidence output) = EVIDENCE_DISPOSITION_CONTRACT_REVISION ∧
  di_answer_policy (gr_evidence output) = answer_policy (di_status (gr_evidence output)) ∧
  trim_is_empty (di_reason (gr_evidence output)) = false ∧
  (di_status (gr_evidence output) ≠ EvidenceStatus.Insufficient →
    gr_source_ids output ≠ [] ∧ gr_status output = DeepRecallStatus.Completed).
Proof.
  unfold evidence_valid. rewrite !andb_true_iff, !bool_decide_eq_true, !negb_true_iff, orb_true_iff,
    !bool_decide_eq_true, andb_false_iff.
  destruct (di_status (gr_evidence output)) eqn:ES; destruct (gr_source_ids output) eqn:EI;
    cbn [requires_sources is_empty]; intuition congruence.
Qed.

Lemma deep_output_check output limits identity entries units :
  validate_deep_provider_result output limits identity entries = Ok units ↔
  deep_output_valid output limits identity ∧ ranked_by entries (gr_source_ids output) units.
Proof.
  unfold validate_deep_provider_result.
  assert (HN : ∀ id, id ∈ gr_source_ids output → id ∉ ([] : list Uuid)) by (intros ? _ []%elem_of_nil).
  assert (HU : usage_fits (gr_usage output) limits = true ↔
    du_wall_time_ms (gr_usage output) <= dl_wall_time_ms limits ∧
    du_tool_iterations (gr_usage output) <= dl_max_tool_iterations limits ∧
    du_context_tokens (gr_usage output) + du_unsettled_context_tokens_upper_bound (gr_usage output)
      <= N.min (dl_max_context_tokens limits) u64_max ∧
    du_spend_micros (gr_usage output) + du_unsettled_spend_micros_upper_bound (gr_usage output)
      <= N.min (dl_max_spend_micros limits) u64_max).
  { unfold usage_fits. rewrite !andb_true_iff, !within_spec, !N.leb_le, !N.min_glb_iff. tauto. }
  pose proof (generation_ids_spec [] (gr_generation_ids output)) as HG.
  pose proof (evidence_valid_spec output) as HE.
  split.
  + destruct (negb _ || _ || _ || _) eqn:E1; [done|].
    rewrite !orb_false_iff, !negb_false_iff in E1. destruct E1 as [[[Hst Hus] Hro] Hge].
    destruct (negb (evidence_valid output)) eqn:E2; [done|]. apply negb_false_iff in E2.
    intros ([] & Hid & Hr)%result_bind_ok. apply ranked_units_spec in Hr as [_ Hr].
    split; [|done]. apply HU in Hus as (? & ? & ? & ?). apply HG in Hge as [Hge ?].
    apply HE in E2 as (? & ? & ? & ?). constructor; try done.
    split; [done|]. intros id Hin. by apply Hge.
  + intros [[Hst ? ? ? ? Hro [Hnd Hne] ? ? ? ? Hid] Hr].
    rewrite Hst, Hro, Hid, (proj2 HU) by (split_and!; auto).
    rewrite (proj2 HG) by (split; [|done]; intros id Hin; split; [auto|by intros ?%elem_of_nil]).
    rewrite (proj2 HE) by (split_and!; auto).
    cbn [negb orb result_bind]. by apply ranked_units_spec.
Qed.

Lemma deep_output_error output limits identity entries error :
  validate_deep_provider_result output limits identity entries = Err error →
  error = CoreError.DeepProviderInvalidOutput.
Proof.
  unfold validate_deep_provider_result.
  destruct (_ || _); [by intros [= <-]|]. destruct (negb _); [by intros [= <-]|].
  unfold validate_deep_provider_identity. destruct (_ || _); [by intros [= <-]|]. cbn [result_bind].
  generalize ([] : list Uuid). generalize (gr_source_ids output). intros ids.
  induction ids as [|id ids IH]; intros seen; cbn [ranked_units]; [done|].
  case_bool_decide; [by intros [= <-]|].
  destruct (retain _ entries) as [|entry [|]]; [by intros [= <-]| |by intros [= <-]].
  destruct (is_empty _); [by intros [= <-]|].
  destruct (ranked_units entries (id :: seen) ids) as [r|e] eqn:ER; [done|].
  cbn. intros [= <-]. by apply (IH (id :: seen)).
Qed.

(** C28: The check of a deep output is exact: an output passes if and only if its
    stop reason fits its status, what it used and may still be billed is within
    the limits without overflow, its ids are distinct, evidence is claimed only
    by a completed run with sources, and every source is one admitted entry,
    whose units are returned in the order of the sources.  Whatever fails, the
    error is the same. *)
Theorem deep_output_check_is_exact output limits identity entries :
  (∀ units, validate_deep_provider_result output limits identity entries = Ok units ↔
     deep_output_valid output limits identity ∧ ranked_by entries (gr_source_ids output) units) ∧
  (∀ error, validate_deep_provider_result output limits identity entries = Err error →
     error = CoreError.DeepProviderInvalidOutput).
Proof. split; [apply deep_output_check | apply deep_output_error]. Qed.

(** ** The run *)

Section run.
Context `{HashOrder} `{Jiff} `{Sha256} `{DeepJson}.

Lemma elem_of_flat_map {A B} (f : A → list B) l y : y ∈ flat_map f l ↔ ∃ x, x ∈ l ∧ y ∈ f x.
Proof.
  induction l as [|x l IH]; simpl; [by set_solver|]. rewrite elem_of_app, IH.
  setoid_rewrite elem_of_cons. naive_solver.
Qed.

(** The units an output ranks belong to entries it names. *)
Lemma ranked_by_elem entries source_ids units u :
  ranked_by entries source_ids units → u ∈ units →
  ∃ entry, entry ∈ entries ∧ de_source_id entry ∈ source_ids ∧ u ∈ de_bound_units entry.
Proof.
  intros (_ & chosen & HF & ->) Hu. apply elem_of_flat_map in Hu as (entry & Hin & Hu).
  rewrite elem_of_sort_by in Hu. apply list_elem_of_lookup in Hin as [i Hi].
  destruct (Forall2_lookup_r _ _ _ _ _ HF Hi) as (id & Hid & HR & _).
  assert (HE : entry ∈ retain (λ e, de_source_id e =? id) entries) by (rewrite HR; apply list_elem_of_here).
  apply elem_of_retain in HE as [HE Heq%N.eqb_eq]. exists entry. split_and!; [done| |done].
  rewrite Heq. by eapply list_elem_of_lookup_2.
Qed.

(** The entries a workspace leaves behind are those it was built from, without
    their bodies. *)
Lemma elem_of_workspace_entries entries entry :
  entry ∈ snd (build_deep_workspace_owned entries) → ∃ original, original ∈ entries ∧
    de_source_kind entry = de_source_kind original ∧ de_source_id entry = de_source_id original ∧
    de_bound_units entry ≡ₚ de_bound_units original.
Proof.
  unfold build_deep_workspace_owned, ordered_entries. simpl.
  intros (e & -> & (o & -> & Ho)%list_elem_of_fmap)%list_elem_of_fmap.
  rewrite elem_of_sort_by in Ho. exists o. split_and!; try done. apply sort_by_perm.
Qed.

(** Each source of the workspace is a file under its own path, and there is no
    other beside the three the builder writes. *)
Lemma workspace_sources entries file :
  file ∈ dw_files (build_deep_workspace entries) →
  df_path file ∈ ["WORKFLOW.md"; "manifest.jsonl"; "state/compiled_units.jsonl"] ∨
  ∃ entry, entry ∈ entries ∧ df_body file = de_body entry ∧
    df_path file = deep_source_path (de_source_kind entry) (de_source_id entry).
Proof.
  unfold build_deep_workspace, build_deep_workspace_owned, workspace_files, ordered_entries. simpl.
  intros [->|[->|[->|(e & -> & (o & -> & Ho)%list_elem_of_fmap)%list_elem_of_fmap]%elem_of_cons]%elem_of_cons]%elem_of_cons;
    [left; set_solver..|]. right. rewrite elem_of_sort_by in Ho. by exists o.
Qed.

(** What a deep run that returns has done. *)
Lemma deep_run_inv state provider request time facts :
  deep_run state provider request time = Ok (Some facts) → ∃ provider' entries output,
  provider = Some provider' ∧ rq_mode request = RecallMode.Deep ∧
  fetch_deep_snapshot state (rq_context request) time = Ok entries ∧
  let kept := retain (entry_admitted request time) entries in
  dv_gather provider' (mkDeepRequest (rq_query request) (build_deep_workspace kept)) = Ok output ∧
  validate_deep_provider_result output (dv_limits provider') (dv_identity provider')
    (snd (build_deep_workspace_owned kept)) = Ok (run_ranked_units facts) ∧
  run_source_ids facts = gr_source_ids output ∧
  run_summary facts = mkDeepSummary (gr_status output) (gr_stop_reason output)
    (dv_limits provider') (gr_usage output) (gr_generation_ids output) (gr_evidence output).
Proof.
  unfold deep_run. case_bool_decide as Hmode; [|done].
  destruct provider as [provider|]; [|done].
  intros ([] & _ & Hr)%result_bind_ok. apply result_bind_ok in Hr as (entries & Hf & Hr).
  apply result_bind_ok in Hr as (facts' & Hg & [= ->]).
  unfold from_store in Hf. destruct (fetch_deep_snapshot _ _ _) as [es|] eqn:ES; [|done].
  injection Hf as ->. unfold deep_gather in Hg.
  destruct (build_deep_workspace_owned _) as [workspace left_] eqn:EW.
  apply result_bind_ok in Hg as (output & Ho & Hg). apply result_bind_ok in Hg as (units & Hv & [= <-]).
  exists provider, entries, output. unfold build_deep_workspace. cbv zeta. rewrite EW. cbn [fst snd].
  destruct (dv_gather _ _) as [o|]; [|done]. injection Ho as ->. done.
Qed.

Lemma kept_admitted request time entries entry u :
  entry ∈ retain (entry_admitted request time) entries → u ∈ de_bound_units entry →
  servable request time u = true.
Proof.
  intros [_ HE]%elem_of_retain Hu. unfold entry_admitted in HE.
  apply andb_true_iff in HE as [_ HE]. rewrite forallb_forall in HE. by apply HE, list_elem_of_In.
Qed.

(** A deep run serves only what its request may see. *)
Lemma deep_units_admitted state provider request time facts u :
  deep_run state provider request time = Ok (Some facts) → u ∈ run_ranked_units facts →
  servable request time u = true ∧ u ∈ tenant_units state (rq_context request) ∧
  unit_readable (rq_context request) u ∧
  mu_trust_level u ≠ TrustLevel.Quarantined ∧ is_forgotten_source state u = false ∧
  ∃ id, id ∈ run_source_ids facts ∧
    (mu_source_episode_id u = Some id ∨ mu_source_resource_id u = Some id).
Proof.
  intros (provider' & entries & output & _ & _ & Hf & _ & Hv & Hids & _)%deep_run_inv Hu.
  apply deep_output_check in Hv as [_ Hranked].
  destruct (ranked_by_elem _ _ _ _ Hranked Hu) as (entry & Hin & Hid & Hbu).
  apply elem_of_workspace_entries in Hin as (original & Hor & _ & Hsid & Hperm).
  rewrite Hperm in Hbu. split; [by eapply kept_admitted|].
  apply elem_of_retain in Hor as [Hor _].
  destruct (deep_snapshot_is_authorized _ _ _ _ _ u Hf Hor Hbu) as (Hread & _ & Hq & Hfs & Hsrc).
  split.
  { destruct (deep_snapshot_groups_sources _ _ _ _ Hf) as (_ & _ & HF & _).
    rewrite Forall_forall in HF. destruct (HF _ Hor) as (_ & _ & _ & _ & HP).
    rewrite HP, elem_of_retain in Hbu. by destruct Hbu. }
  split_and!; [done..|]. exists (de_source_id entry). rewrite Hids. split; [done|]. rewrite Hsid.
  destruct (de_source_kind original).
  - left. by destruct Hsrc as (? & _ & _ & _ & ? & _).
  - right. by destruct Hsrc as (? & _ & _ & _ & ? & _).
Qed.

(** C27: A deep run is confined.  The files its provider reads are the three the
    builder writes and the bodies of sources all of whose units the policy of
    the request admits; what comes back names distinct sources, claims evidence
    only of them, and spent no more than the limits; each unit it ranks is
    admitted, readable, not quarantined, not of a forgotten source, and bound
    to a source that was named. *)
Theorem deep_run_is_confined state provider request time facts :
  deep_run state provider request time = Ok (Some facts) → ∃ provider' kept output,
  provider = Some provider' ∧ rq_mode request = RecallMode.Deep ∧
  dv_gather provider' (mkDeepRequest (rq_query request) (build_deep_workspace kept)) = Ok output ∧
  (∀ file, file ∈ dw_files (build_deep_workspace kept) →
     df_path file ∈ ["WORKFLOW.md"; "manifest.jsonl"; "state/compiled_units.jsonl"] ∨
     ∃ entry, entry ∈ kept ∧ df_body file = de_body entry ∧
       ∀ u, u ∈ de_bound_units entry → servable request time u = true) ∧
  deep_output_valid output (dv_limits provider') (dv_identity provider') ∧
  NoDup (run_source_ids facts) ∧
  ∀ u, u ∈ run_ranked_units facts →
    servable request time u = true ∧ unit_readable (rq_context request) u ∧
    mu_trust_level u ≠ TrustLevel.Quarantined ∧ is_forgotten_source state u = false ∧
    ∃ id, id ∈ run_source_ids facts ∧
      (mu_source_episode_id u = Some id ∨ mu_source_resource_id u = Some id).
Proof.
  intros Hrun. pose proof Hrun as Hinv.
  apply deep_run_inv in Hinv as (provider' & entries & output & Hp & Hm & Hf & Hg & Hv & Hids & _).
  apply deep_output_check in Hv as [Hvalid [Hnd _]].
  exists provider', (retain (entry_admitted request time) entries), output.
  split_and!; try done.
  - intros file [?|(entry & Hin & Hbody & _)]%workspace_sources; [by left|]. right.
    exists entry. split_and!; [done..|]. intros u Hu. by eapply kept_admitted.
  - by rewrite Hids.
  - intros u Hu. by destruct (deep_units_admitted _ _ _ _ _ u Hrun Hu) as (? & _ & ?).
Qed.
End run.
