(* ===== verification/Recall.v ===== *)
(** * Recall: one recall, from the request to the stored trace

    [recall_with_pool_and_selection_impl] of
    [crates/memphant-core/src/lib.rs]: the times and the window of a request are
    checked, a scope the policy does not admit leaves a trace and an error, a
    deep run comes first, the pool is read and extended by synthetic and vector
    units, the candidates are fused, reranked and packed, the items are cited,
    and the trace is stored before the response is returned.  Each read of the
    store is made of a state of its own, since other operations may run between
    two of them; the elapsed times and the identifier of the trace are
    arguments. *)

From S2P Require Import Prelude Text Types Float Clock Bitemporal Lineage Store Stage Reads Chunks Render Gate Pack Rerank Fuse Receipts Dates Structured Rollup Deep.

(** ** Data *)

Record VectorQuery : Set := mkVectorQuery {
  vq_vec : list f32;
  vq_profile_id : Uuid;
}.

(** What a service was built with. *)
Record RecallConfig : Type := mkRecallConfig {
  rg_recall_pool_depth : nat;
  rg_pack_levers : PackLevers;
  rg_lexical_scorer : LexicalScorer.t;
  rg_temporal_grounding_enabled : bool;
  rg_rerank_plan : option RerankPlan;
  rg_deep_provider : option DeepRecallProvider;
  rg_a_recency_control : bool;
}.

(** The state each read of the store finds. *)
Record RecallReads : Type := mkRecallReads {
  at_snapshot : InMemoryState;
  at_candidates : InMemoryState;
  at_vectors : InMemoryState;
  at_edges : InMemoryState;
  at_reviews : InMemoryState;
  at_citations : InMemoryState;
}.

(** The wall clock of one recall. *)
Record RecallTimings : Set := mkTimings {
  tg_latency_ms : N;
  tg_cross_rerank_ms : N;
}.

Record RecallCandidateTrace : Set := mkCandidateTrace {
  ct_unit_id : UnitId;
  ct_channel : RecallChannel.t;
  ct_channel_rank : N;
  ct_channel_score : f32;
  ct_derived_by : string;
  ct_fused_rank : option N;
  ct_fused_score : option f32;
  ct_cross_rerank_rank : option N;
  ct_decay_retrievability : f32;
  ct_dsr_reinforcement_count : N;
  ct_trust_level : TrustLevel.t;
  ct_state : UnitState.t;
  ct_discard_reason : option RecallDropReason.t;
  ct_valid_from : option string;
  ct_valid_to : option string;
  ct_transaction_from : option string;
  ct_transaction_to : option string;
}.
#[export] Instance RecallCandidateTrace_eta : Eta RecallCandidateTrace := λ r,
  mkCandidateTrace (ct_unit_id r) (ct_channel r) (ct_channel_rank r) (ct_channel_score r)
    (ct_derived_by r) (ct_fused_rank r) (ct_fused_score r) (ct_cross_rerank_rank r)
    (ct_decay_retrievability r) (ct_dsr_reinforcement_count r) (ct_trust_level r) (ct_state r)
    (ct_discard_reason r) (ct_valid_from r) (ct_valid_to r) (ct_transaction_from r)
    (ct_transaction_to r).

Record RecallPolicyFilter : Set := mkPolicyFilter {
  pv_reason : RecallDropReason.t;
  pv_detail : string;
}.

(** A recall that drew on episodes not yet reflected; the reason has one value. *)
Record RecallDegradationDiagnostic : Set := mkDegradation {
  dg_consolidation_lag_ms : N;
  dg_items : list (string * MemoryKind.t);
}.

(** The columns of a trace the store keeps without reading them. *)
Record TraceColumns : Type := mkTraceColumns {
  tc_query_hash : string;
  tc_engine_version : string;
  tc_feature_flags : list string;
  tc_channel_runs : list ReflectStageFact;
  tc_candidates : list RecallCandidateTrace;
  tc_policy_filters : list RecallPolicyFilter;
  tc_context_items : list RecallContextItem;
  tc_dropped_items : list RecallDroppedItem;
  tc_citations : list RecallCitation;
  tc_filter_selectivity : option f32;
  tc_iterative_scan_depth : option N;
  tc_recall_pool_depth : N;
  tc_cross_rerank_ms : N;
  tc_cross_rerank : option CrossRerankTrace;
  tc_consolidation_lag_ms : N;
  tc_degradation : option RecallDegradationDiagnostic;
  tc_mode_requested : RecallMode.t;
  tc_mode_executed : RecallMode.t;
  tc_escalation_reason : string;
  tc_procedure_ids : list UnitId;
  tc_procedure_validation_states : list ProcedureTraceFact;
  tc_abstention_signal : bool;
  tc_latency_ms : N;
  tc_token_estimate : N;
  tc_cost_micros : N;
  tc_decay_model_id : string;
  tc_deep : option DeepRunFacts;
  tc_recall_time : RecallTime;
}.

(** The row of those columns. *)
Class TraceRow := trace_columns : TraceColumns → string.

Record RecallResponse : Type := mkRecallResponse {
  rsp_trace_id : TraceId;
  rsp_items : list RecallContextItem;
  rsp_candidate_whitelist : list UnitId;
  rsp_citations : list RecallCitation;
  rsp_abstention : bool;
  rsp_degraded : bool;
  rsp_consolidation_lag_ms : N;
  rsp_suppression_labels : list string;
  rsp_deep : option DeepRecallSummary;
  rsp_recall_time : RecallTime;
}.

(** ** Small parts *)

Definition recall_scope_admitted (context : ResolvedMemoryContext) : bool :=
  existsb (λ '(_, sources),
      bool_decide (mkSource (cx_scope_id context) (cx_agent_node_id context) ∈ (sources : list _)))
    (map_to_list (cx_sources_by_kind context)).

Definition hash_query (query : string) : string :=
  hex_from 16 (stable_hash (bytes_of (normalize_component query))).

Definition DECAY_MODEL_ID : string := "fixed-prior-dsr-v1".
Definition decay_model_id (request : RecallRequest) : string :=
  if rq_decay_enabled request then DECAY_MODEL_ID else "none".

Definition recall_feature_flags (request : RecallRequest) (vector_enabled deep_enabled : bool)
    : list string :=
  let flag (b : bool) (name : string) := if b then [name] else [] in
  ["entity_exact_enabled"; "fts_enabled";
   if vector_enabled then "vector_enabled" else "vector_disabled";
   "temporal_enabled"; "contextual_chunks_enabled"] ++
  flag (rq_edge_expansion_enabled request) "edge_expansion_enabled" ++
  flag (rq_context_packing_abstention_enabled request) "context_packing_abstention_enabled" ++
  flag (rq_procedure_recall_enabled request) "procedure_recall_enabled" ++
  flag (rq_decay_enabled request) "decay_enabled" ++
  flag deep_enabled "l4_exhaustive_enabled" ++
  flag (bool_decide (is_Some (rq_transaction_as_of request))) "transaction_snapshot_requested" ++
  flag (bool_decide (is_Some (rq_valid_at request))) "valid_time_override_requested".

Definition show_count (n : N) : string := string_of_bytes (show_N n).

Definition pack_feature_flags (levers : PackLevers) : list string :=
  match lv_pack_render_cap levers with
  | Some cap => ["pack_render_cap:" +:+ show_count cap] | None => [] end ++
  match lv_session_quota levers with
  | Some quota => ["pack_session_quota:" +:+ show_count quota] | None => [] end ++
  (if lv_merge_chunk_blocks levers then [] else ["pack_merge_chunk_blocks_disabled"]) ++
  (if lv_submodular_ordering_enabled levers then ["pack_submodular_ordering_enabled"] else []).

Definition lexical_flag (scorer : LexicalScorer.t) : option string :=
  match scorer with
  | LexicalScorer.Overlap => None
  | LexicalScorer.Bm25Control => Some "lexical_scorer:bm25-control"
  | LexicalScorer.Bm25Code => Some "lexical_scorer:bm25-code"
  end.

Definition deep_stop_reason_name (reason : DeepRecallStopReason.t) : string :=
  match reason with
  | DeepRecallStopReason.Completed => "completed"
  | DeepRecallStopReason.WallTime => "wall_time"
  | DeepRecallStopReason.ToolIterations => "tool_iterations"
  | DeepRecallStopReason.ContextTokens => "context_tokens"
  | DeepRecallStopReason.Spend => "spend"
  | DeepRecallStopReason.ProviderError => "provider_error"
  | DeepRecallStopReason.InvalidOutput => "invalid_output"
  end.

(** The [debug_assert] of an impossible pair is not part of a release. *)
Definition deep_stage_detail (deep : option DeepRunFacts) : string :=
  match deep with
  | None => "disabled"
  | Some run =>
      let reason := dm_stop_reason (run_summary run) in
      match dm_status (run_summary run), reason with
      | DeepRecallStatus.Completed, DeepRecallStopReason.Completed => "completed"
      | DeepRecallStatus.Capped, _ => "capped_" +:+ deep_stop_reason_name reason
      | DeepRecallStatus.Partial, _ => "partial_" +:+ deep_stop_reason_name reason
      | DeepRecallStatus.Completed, _ => "invalid_" +:+ deep_stop_reason_name reason
      end
  end.

Definition recall_stage_facts (vector_enabled : bool) (deep : option DeepRunFacts)
    : list ReflectStageFact :=
  map (λ stage : string, mkReflectStageFact stage
         (if bool_decide (stage = "vector") && negb vector_enabled then "disabled"
          else if bool_decide (stage = "l4_exhaustive") then deep_stage_detail deep
          else "completed"))
    ["stage0_policy"; "procedure_recall"; "l4_exhaustive"; "exact"; "lexical"; "vector";
     "temporal"; "edge"; "fusion"; "assemble"; "trace"].

(** ** The pool *)

Record RecallPool : Type := mkRecallPool {
  pl_units : list StoredMemoryUnit;
  pl_vector_scores : option (gmap UnitId f32);
  pl_synthetic_sources : gmap UnitId (list UnitId);
}.

(** 0.62 *)
Definition PROCEDURAL_RELEVANCE_FLOOR : f32 := 0x3f1eb852.

Definition ids_of_units (units : list StoredMemoryUnit) : gset UnitId :=
  list_to_set (map mu_id units).

(** One vector hit: its score is one less its distance, a unit keeps its best,
    and a unit not yet in the pool is added. *)
Definition add_vector_hit
    (acc : list StoredMemoryUnit * gset UnitId * gmap UnitId f32)
    (hit : StoredMemoryUnit * f32) : list StoredMemoryUnit * gset UnitId * gmap UnitId f32 :=
  let '(units, seen, scores) := acc in
  let '(unit, distance) := hit in
  let score := f32_sub f32_one distance in
  let best := match scores !! mu_id unit with Some best => f32_max best score | None => score end in
  let scores := <[mu_id unit := best]> scores in
  if bool_decide (mu_id unit ∈ seen) then (units, seen, scores)
  else (units ++ [unit], {[mu_id unit]} ∪ seen, scores).

(** The units of [extra] whose identifiers are not yet in the pool. *)
Definition extend_pool (units extra : list StoredMemoryUnit) : list StoredMemoryUnit :=
  fst (foldl (λ '(units, seen) unit,
      if bool_decide (mu_id unit ∈ (seen : gset UnitId)) then (units, seen)
      else (units ++ [unit], {[mu_id unit]} ∪ seen))
    (units, ids_of_units units) extra).

(** A procedure enters only if the query triggers it. *)
Definition passes_procedural_floor `{UuidParse} (content_query : list (list N)) (scores : gmap UnitId f32)
    (unit : StoredMemoryUnit) : bool :=
  let has_lexical_signal :=
    f32_pos (exact_score unit content_query) || f32_pos (lexical_score unit content_query) in
  procedural_relevance_admits (mu_kind unit) (scores !! mu_id unit) PROCEDURAL_RELEVANCE_FLOOR
    has_lexical_signal.

Section recall.
Context `{HashOrder} `{Jiff} `{Sha256} `{Calendar} `{SerdeJson} `{DeepJson} `{TraceRow}.
Context `{UnicodeAlphanumeric} `{UnicodeLowercase} `{UuidParse} `{LibM} `{Fsrs} `{CivilDate}.

Definition vector_hits (config : RecallConfig) (reads : RecallReads) (request : RecallRequest)
    (time : RecallTime) (vector_query : option VectorQuery)
    : result CoreError.t (option (list (StoredMemoryUnit * f32))) :=
  match vector_query with
  | Some query =>
      if is_empty (vq_vec query) then Ok None
      else
        pairs <-? from_store (fetch_vector_candidates (at_vectors reads) (rq_context request)
                                (vq_vec query) (vq_profile_id query) time
                                (rg_recall_pool_depth config));
        Ok (Some pairs)
  | None => Ok None
  end.

Definition with_bundle (request : RecallRequest) (pool : RecallPool) : RecallPool :=
  match artifact_bundle (pl_units pool) request with
  | None => pool
  | Some bundle =>
      mkRecallPool
        (retain (λ unit, negb (bool_decide (mu_id unit ∈ sy_source_unit_ids bundle)))
           (pl_units pool) ++ [sy_unit bundle])
        (pl_vector_scores pool)
        (<[mu_id (sy_unit bundle) := sy_source_unit_ids bundle]> (pl_synthetic_sources pool))
  end.

(** The pool of a request, without the units of a deep run.  The limit of the
    candidate read, [usize::MAX], is none. *)
Definition recall_pool (config : RecallConfig) (reads : RecallReads) (request : RecallRequest)
    (time : RecallTime) (vector_query : option VectorQuery) : result CoreError.t RecallPool :=
  let context := rq_context request in
  candidates <-? from_store (fetch_recall_candidates (at_candidates reads) context [] time
                               (length (tenant_units (at_candidates reads) context)));
  let rollups := match rq_aggregation_window request with
                 | Some window => quantity_rollups candidates request window time
                 | None => []
                 end in
  let synthetic := extend_map (map (λ r, (mu_id (sy_unit r), sy_source_unit_ids r)) rollups) ∅ in
  let units := candidates ++ map sy_unit rollups in
  hits <-? vector_hits config reads request time vector_query;
  Ok (with_bundle request
    match hits with
    | None => mkRecallPool units None synthetic
    | Some pairs =>
        let '(units, _, scores) := foldl add_vector_hit (units, ids_of_units units, ∅) pairs in
        let content_query := content_query_tokens (tokenize (rq_query request)) in
        mkRecallPool (retain (passes_procedural_floor content_query scores) units) (Some scores)
          synthetic
    end).

(** ** The rows of the trace *)

Definition candidate_row (decay : StoredMemoryUnit → DecayScore) (channel : RecallChannel.t)
    (rank : nat) (score : f32) (unit : StoredMemoryUnit) : RecallCandidateTrace := {|
  ct_unit_id := mu_id unit;
  ct_channel := channel;
  ct_channel_rank := N.of_nat rank + 1;
  ct_channel_score := score;
  ct_derived_by := derived_by_for_unit unit;
  ct_fused_rank := None;
  ct_fused_score := None;
  ct_cross_rerank_rank := None;
  ct_decay_retrievability := dc_retrievability (decay unit);
  ct_dsr_reinforcement_count := dc_reinforcement_count (decay unit);
  ct_trust_level := mu_trust_level unit;
  ct_state := mu_state unit;
  ct_discard_reason := None;
  ct_valid_from := mu_valid_from unit;
  ct_valid_to := mu_valid_to unit;
  ct_transaction_from := mu_transaction_from unit;
  ct_transaction_to := mu_transaction_to unit;
|}.

(** The rows of one fusion: every vote of every channel, then Deep's. *)
Definition candidate_rows (input : FuseInput) (request : RecallRequest)
    (query_tokens : list (list N)) (content_only : bool) : list RecallCandidateTrace :=
  let bm25_scores :=
    if bool_decide (fu_lexical_scorer input = LexicalScorer.Overlap) then None
    else Some (bm25_unit_scores (fu_units input) (rq_query request) (fu_lexical_scorer input)
                 content_only) in
  let decay unit := decay_score_for unit (fu_review_events input) (rq_decay_enabled request) in
  let ranked pass := sort_by_cmp channel_cmp
    (channel_candidates pass (fu_units input) (fu_edges input) request query_tokens
       (fu_vector_scores input) bm25_scores (fu_time input) (fu_temporal_window input)) in
  flat_map (λ pass, imap (λ rank '(unit, score),
                        candidate_row decay (ChannelPass.label pass) rank score unit) (ranked pass))
    (main_channels (bool_decide (is_Some bm25_scores))
       (bool_decide (is_Some (fu_vector_scores input))) (rq_edge_expansion_enabled request)) ++
  imap (λ rank unit, candidate_row decay RecallChannel.Deep rank f32_one unit) (fu_deep_units input).

Definition stamp_fused (fused : list CandidateAccumulator) (rows : list RecallCandidateTrace)
    : list RecallCandidateTrace :=
  foldl (λ rows '(rank, candidate),
      update_where (λ row, ct_unit_id row =? ca_id candidate)
        (λ row, row <| ct_fused_rank := Some (N.of_nat rank + 1) |>
                    <| ct_fused_score := Some (ca_fused_score candidate) |>) rows)
    rows (imap pair fused).

Definition stamp_cross_rerank (fused : list CandidateAccumulator)
    (rows : list RecallCandidateTrace) : list RecallCandidateTrace :=
  foldl (λ rows candidate,
      match ca_cross_rerank_rank candidate with
      | None => rows
      | Some rank =>
          update_where (λ row, ct_unit_id row =? ca_id candidate)
            (λ row, row <| ct_cross_rerank_rank := Some (rank + 1) |>) rows
      end) rows fused.

(** The rows of the fusion the recall kept, stamped with the fused order and
    with that of the rerank, and what the rerank reports. *)
Definition traced_candidates (input : FuseInput) (request : RecallRequest)
    (plan : option RerankPlan) (recall_pool_depth : nat)
    : list RecallCandidateTrace * option CrossRerankTrace :=
  let '(query_tokens, fused, will_rerank) :=
    fused_for_rerank input request (bool_decide (is_Some plan))
      (match plan with Some plan => rp_selective plan | None => true end) in
  let rows := stamp_fused fused
    (candidate_rows input request query_tokens (negb will_rerank)) in
  match plan with
  | Some plan =>
      if will_rerank then
        let limit := Nat.min (rk_candidate_limit (@reranker_config (rp_reranker plan)))
                       recall_pool_depth in
        let fused := if rp_balanced plan then promote_vector_lexical_balanced fused limit
                     else fused in
        let '(reranked, report) :=
          @cross_rerank_candidates (rp_reranker plan) fused (rq_query request) recall_pool_depth
            (rp_granularity plan) in
        (stamp_cross_rerank reranked rows, Some report)
      else (rows, None)
  | None => (rows, None)
  end.

Definition recall_trace (request : RecallRequest) (trace_id : TraceId)
    (items : list RecallContextItem) (columns : TraceColumns) : RetrievalTrace :=
  let context := rq_context request in {|
  tr_id := trace_id;
  tr_tenant_id := cx_tenant_id context;
  tr_data_subject_id := cx_data_subject_id context;
  tr_scope_id := cx_scope_id context;
  tr_actor_id := cx_actor_id context;
  tr_agent_node_id := cx_agent_node_id context;
  tr_subject_generation := cx_subject_generation context;
  tr_policy_revision := cx_policy_revision context;
  tr_context_items :=
    map (λ item, mkRecallItemIds (it_unit_id item) (it_derived_from_unit_ids item)) items;
  tr_columns := trace_columns columns;
|}.

(** The trace of a recall the policy does not admit. *)
Definition denied_trace (config : RecallConfig) (request : RecallRequest) (trace_id : TraceId)
    (time : RecallTime) : RetrievalTrace :=
  recall_trace request trace_id [] {|
    tc_query_hash := hash_query (rq_query request);
    tc_engine_version := rq_engine_version request;
    tc_feature_flags :=
      recall_feature_flags request false false ++ pack_feature_flags (rg_pack_levers config);
    tc_channel_runs := [mkReflectStageFact "stage0_policy" "denied_scope"];
    tc_candidates := [];
    tc_policy_filters :=
      [mkPolicyFilter RecallDropReason.Scope "scope is not admitted by the resolved context"];
    tc_context_items := [];
    tc_dropped_items := [];
    tc_citations := [];
    tc_filter_selectivity := None;
    tc_iterative_scan_depth := None;
    tc_recall_pool_depth := N.land (N.of_nat (rg_recall_pool_depth config)) u32_max;
    tc_cross_rerank_ms := 0;
    tc_cross_rerank := None;
    tc_consolidation_lag_ms := 0;
    tc_degradation := None;
    tc_mode_requested := rq_mode request;
    tc_mode_executed := rq_mode request;
    tc_escalation_reason := "none";
    tc_procedure_ids := [];
    tc_procedure_validation_states := [];
    tc_abstention_signal := true;
    tc_latency_ms := 0;
    tc_token_estimate := 0;
    tc_cost_micros := 0;
    tc_decay_model_id := decay_model_id request;
    tc_deep := None;
    tc_recall_time := time;
  |}.

(** ** The recall *)

Definition with_sources (synthetic_sources : gmap UnitId (list UnitId))
    (item : RecallContextItem) : RecallContextItem :=
  match synthetic_sources !! it_unit_id item with
  | Some source_ids => item <| it_derived_from_unit_ids := source_ids |>
  | None => item
  end.

(** Each label once, where it first occurs. *)
Definition suppression_labels (items : list RecallContextItem) : list string :=
  foldl (λ labels label, if bool_decide (label ∈ labels) then labels else labels ++ [label]) []
    (flat_map it_suppression_labels items).

Definition is_verified (citation : RecallCitation) : bool :=
  match rc_verification citation with
  | CitationVerification.Verified _ => true
  | CitationVerification.Unverified _ => false
  end.

(** A deep run without evidence abstains, and one that claims evidence must
    come with a verified citation. *)
Definition deep_abstention (deep : option DeepRunFacts) (citations : list RecallCitation)
    (abstention : bool) : result CoreError.t bool :=
  match deep with
  | None => Ok abstention
  | Some run =>
      let status := di_status (dm_evidence (run_summary run)) in
      if requires_sources status && negb (existsb is_verified citations)
      then Err CoreError.DeepProviderInvalidOutput
      else Ok (if bool_decide (status = EvidenceStatus.Insufficient) then true else abstention)
  end.

(** What the recall computes before it stores its trace. *)
Definition recall_body (config : RecallConfig) (reads : RecallReads) (request : RecallRequest)
    (vector_query : option VectorQuery) (time : RecallTime) (trace_id : TraceId)
    (timings : RecallTimings) : result CoreError.t (RetrievalTrace * RecallResponse) :=
  let context := rq_context request in
  let levers := rg_pack_levers config in
  let depth := rg_recall_pool_depth config in
  let temporal_window :=
    if rg_temporal_grounding_enabled config then extract_query_date (bytes_of (rq_query request))
    else None in
  deep <-? deep_run (at_snapshot reads) (rg_deep_provider config) request time;
  pool <-? recall_pool config reads request time vector_query;
  let deep_units := match deep with Some run => run_ranked_units run | None => [] end in
  let units := extend_pool (pl_units pool) deep_units in
  let unit_ids := map mu_id units in
  edges <-? from_store (fetch_edges (at_edges reads) context unit_ids time);
  review_events <-? from_store (fetch_review_events (at_reviews reads) context unit_ids time);
  let dropped := trace_filter_drops units request time in
  let surviving := (length units - length dropped)%nat in
  let input := mkFuseInput units edges review_events (pl_vector_scores pool) deep_units
    (rg_lexical_scorer config) time temporal_window (rg_a_recency_control config) in
  let '(rows, cross_rerank) := traced_candidates input request (rg_rerank_plan config) depth in
  let fused := snd (ranked_candidates input request (rg_rerank_plan config) depth) in
  let packed := recall_context input request (rg_rerank_plan config) levers depth
                  (rg_temporal_grounding_enabled config) in
  let items := map (with_sources (pl_synthetic_sources pool)) (pk_items packed) in
  let query_hash := hash_query (rq_query request) in
  citations <-? build_recall_citations (at_citations reads) request time trace_id query_hash items;
  abstention <-? deep_abstention deep citations (pk_abstention packed);
  let composed derived_by := bool_decide (derived_by = "composition") in
  let feature_flags :=
    recall_feature_flags request (bool_decide (is_Some (pl_vector_scores pool)))
      (bool_decide (is_Some deep)) ++
    (if existsb (λ row, composed (ct_derived_by row)) rows ||
        existsb (λ item, composed (it_derived_by item)) items
     then ["inferred_belief_composition_enabled"] else []) ++
    (if bool_decide (is_Some (rg_rerank_plan config)) then ["cross_rerank_enabled"] else []) ++
    pack_feature_flags levers ++
    (if 0 <? pk_gap_cut packed then ["pack_gap_cutoff:" +:+ show_count (pk_gap_cut packed)] else []) ++
    match lexical_flag (rg_lexical_scorer config) with Some flag => [flag] | None => [] end in
  let trace := recall_trace request trace_id items {|
    tc_query_hash := query_hash;
    tc_engine_version := rq_engine_version request;
    tc_feature_flags := feature_flags;
    tc_channel_runs := recall_stage_facts (bool_decide (is_Some (pl_vector_scores pool))) deep;
    tc_candidates := rows;
    tc_policy_filters := [];
    tc_context_items := items;
    tc_dropped_items := pk_dropped_items packed;
    tc_citations := citations;
    tc_filter_selectivity := Some (f32_ratio surviving (Nat.max (length units) 1));
    tc_iterative_scan_depth :=
      Some (N.land (recall_pack_scan_limit request (length fused) levers (N.of_nat depth)) u32_max);
    tc_recall_pool_depth := N.land (N.of_nat depth) u32_max;
    tc_cross_rerank_ms := match cross_rerank with Some _ => tg_cross_rerank_ms timings | None => 0 end;
    tc_cross_rerank := cross_rerank;
    tc_consolidation_lag_ms := 0;
    tc_degradation := None;
    tc_mode_requested := rq_mode request;
    tc_mode_executed := rq_mode request;
    tc_escalation_reason := "none";
    tc_procedure_ids :=
      map it_unit_id (retain (λ item, bool_decide (it_kind item = MemoryKind.Procedural)) items);
    tc_procedure_validation_states := procedure_trace_facts units request;
    tc_abstention_signal := abstention;
    tc_latency_ms := if bool_decide (rq_mode request = RecallMode.Deep) then tg_latency_ms timings else 0;
    tc_token_estimate := pk_token_estimate packed;
    tc_cost_micros :=
      match deep with Some run => du_spend_micros (dm_usage (run_summary run)) | None => 0 end;
    tc_decay_model_id := decay_model_id request;
    tc_deep := deep;
    tc_recall_time := time;
  |} in
  Ok (trace, {|
    rsp_trace_id := trace_id;
    rsp_items := items;
    rsp_candidate_whitelist := map it_unit_id items;
    rsp_citations := citations;
    rsp_abstention := abstention;
    rsp_degraded := false;
    rsp_consolidation_lag_ms := 0;
    rsp_suppression_labels := suppression_labels items;
    rsp_deep := run_summary <$> deep;
    rsp_recall_time := time;
  |}).

Definition check_window (request : RecallRequest) : result CoreError.t () :=
  match rq_aggregation_window request with
  | Some window => validate_aggregation_window window
  | None => Ok ()
  end.

(** The recall: the state with its trace, and the response. *)
Definition recall_with_pool_and_selection_impl (config : RecallConfig) (reads : RecallReads)
    (request : RecallRequest) (vector_query : option VectorQuery) (now : Z) (trace_id : TraceId)
    (timings : RecallTimings) (state : InMemoryState)
    : InMemoryState * result CoreError.t RecallResponse :=
  let context := rq_context request in
  match (time <-? resolve_recall_time (rq_transaction_as_of request) (rq_valid_at request) now;
         _ <-? check_window request; Ok time) with
  | Err error => (state, Err error)
  | Ok time =>
      if negb (recall_scope_admitted context) then
        match store_trace state context (denied_trace config request trace_id time) with
        | Err error => (state, Err (CoreError.Store error))
        | Ok state => (state, Err (CoreError.PolicyDenied "scope"))
        end
      else
        match recall_body config reads request vector_query time trace_id timings with
        | Err error => (state, Err error)
        | Ok (trace, response) =>
            match store_trace state context trace with
            | Err error => (state, Err (CoreError.Store error))
            | Ok state => (state, Ok response)
            end
        end
  end.
End recall.
