(* ===== verification/RecallFacts.v ===== *)
(** * RecallFacts: what a recall serves, records and refuses

    Every item of a recall is a unit the policy of the request admits, stored or
    made of stored units; the trace that is kept admits exactly the marks the
    response invites; a denied recall reads nothing; and a deep claim comes with
    a verified citation. *)

From S2P Require Import Prelude Text TextFacts Types Float Clock Bitemporal Lineage Store Stage Reads ReadFacts Chunks Render RenderFacts Gate Pack PackFacts Rerank Fuse FuseFacts Receipts Dates Structured Rollup RollupFacts Deep DeepFacts Recall.

Lemma from_store_ok {A} (r : result StoreError.t A) a : from_store r = Ok a ↔ r = Ok a.
Proof. destruct r; simpl; naive_solver. Qed.

Lemma extend_map_present `{Countable K} {V} (kvs : list (K * V)) (m : gmap K V) k :
  k ∈ map fst kvs → is_Some (extend_map kvs m !! k).
Proof.
  unfold extend_map. induction kvs as [|[k' v'] kvs IH] using rev_ind; simpl; [by intros ?%elem_of_nil|].
  rewrite map_app, foldl_app, elem_of_app. simpl. intros Hk.
  destruct (decide (k' = k)) as [->|Hne]; [rewrite lookup_insert_eq; by eexists|].
  rewrite lookup_insert_ne by done. apply IH.
  destruct Hk as [?|Hk]; [done|]. by apply list_elem_of_singleton in Hk as ->.
Qed.

Lemma extend_map_from `{Countable K} {V} (kvs : list (K * V)) (m : gmap K V) k v :
  extend_map kvs m !! k = Some v → (k, v) ∈ kvs ∨ m !! k = Some v.
Proof.
  unfold extend_map. induction kvs as [|[k' v'] kvs IH] using rev_ind; simpl; [auto|].
  rewrite foldl_app, elem_of_app. simpl. rewrite lookup_insert_Some.
  intros [[<- <-]|[_ HL]]; [left; right; apply list_elem_of_here|].
  destruct (IH HL); auto.
Qed.

(** ** The pool *)

Section pool.
Context `{HashOrder} `{Jiff} `{Sha256} `{Calendar} `{SerdeJson} `{DeepJson} `{TraceRow}.
Context `{UnicodeAlphanumeric} `{UnicodeLowercase} `{UuidParse} `{LibM} `{Fsrs} `{CivilDate}.
Context (config : RecallConfig) (reads : RecallReads) (request : RecallRequest).
Context (time : RecallTime) (vector_query : option VectorQuery).

(** A row of the tenant, in a state the recall read. *)
Definition stored (u : StoredMemoryUnit) : Prop :=
  u ∈ tenant_units (at_candidates reads) (rq_context request) ∨
  u ∈ tenant_units (at_vectors reads) (rq_context request) ∨
  u ∈ tenant_units (at_snapshot reads) (rq_context request).

(** A unit of the pool is stored, or was made by this recall of stored ones. *)
Definition pool_unit (pool : RecallPool) (u : StoredMemoryUnit) : Prop :=
  stored u ∨ (mu_contextual_chunks u = [] ∧ is_Some (pl_synthetic_sources pool !! mu_id u)).

Record pool_ok (pool : RecallPool) : Prop := {
  pk_sound : ∀ u, u ∈ pl_units pool → pool_unit pool u;
  pk_sources : ∀ id sources, pl_synthetic_sources pool !! id = Some sources →
    sources ≠ [] ∧ ∀ source, source ∈ sources → ∃ v, stored v ∧ mu_id v = source;
}.

Lemma rollup_sources units window rollup :
  rollup ∈ quantity_rollups units request window time →
  mu_contextual_chunks (sy_unit rollup) = [] ∧ sy_source_unit_ids rollup ≠ [] ∧
  ∀ id, id ∈ sy_source_unit_ids rollup → ∃ v, v ∈ units ∧ mu_id v = id.
Proof.
  intros (series & Hr)%elem_of_quantity_rollups.
  apply rollup_of_some in Hr as (first & rest & totals & Hsel & _ & _ & Hids & Hu).
  simpl in *. rewrite Hu. split; [done|]. rewrite Hids. split.
  - rewrite Hsel. intros HN. apply (f_equal length) in HN. revert HN.
    unfold sorted_ids. by rewrite sort_by_perm.
  - unfold sorted_ids. intros id. rewrite elem_of_sort_by.
    intros ([v e] & -> & Hin)%list_elem_of_fmap. exists v. split; [|done].
    apply elem_of_retain in Hin as [Hin _]. unfold series_events in Hin.
    apply elem_of_retain in Hin as [Hin _]. by eapply rollup_event_unit.
Qed.

Lemma bundle_sources units bundle :
  artifact_bundle units request = Some bundle →
  mu_contextual_chunks (sy_unit bundle) = [] ∧ sy_source_unit_ids bundle ≠ [] ∧
  ∀ id, id ∈ sy_source_unit_ids bundle →
    ∃ v, v ∈ units ∧ mu_contextual_chunks v ≠ [] ∧ mu_id v = id.
Proof.
  intros (anchor & _ & Hlen & Hb)%artifact_bundle_some.
  apply bundle_of_some in Hb as (first & rest & id & fact_key & Hm & Hids & Hu).
  rewrite Hu. split; [done|]. rewrite Hids. split.
  - rewrite Hm. intros HN. apply (f_equal length) in HN. revert HN.
    unfold sorted_ids. by rewrite sort_by_perm.
  - unfold sorted_ids, sort_by_cmp. intros i. rewrite elem_of_sort_by.
    intros ([v ident] & -> & Hin)%list_elem_of_fmap. rewrite elem_of_sort_by in Hin.
    apply elem_of_bundle_members in Hin as [Hin _].
    apply elem_of_structured_members in Hin as (Hv & _ & Hi). exists v. split_and!; [done| |done].
    unfold artifact_state_identity in Hi. destruct (_ || _); [done|].
    by destruct (mu_contextual_chunks v).
Qed.

Lemma vector_fold_units hits acc units' seen' scores' :
  foldl add_vector_hit acc hits = (units', seen', scores') →
  ∀ u, u ∈ units' → u ∈ acc.1.1 ∨ u ∈ map fst hits.
Proof.
  revert acc. induction hits as [|[v d] hits IH]; intros [[units seen] scores]; simpl.
  { intros [= -> -> ->]. auto. }
  intros Hf u Hu. specialize (IH _ Hf u Hu). revert IH.
  case_bool_decide; simpl; rewrite ?elem_of_app, ?list_elem_of_singleton, ?elem_of_cons; naive_solver.
Qed.

Lemma extend_pool_units units extra u : u ∈ extend_pool units extra → u ∈ units ∨ u ∈ extra.
Proof.
  unfold extend_pool. generalize (ids_of_units units). revert units.
  induction extra as [|v extra IH]; intros units seen; simpl; [auto|].
  case_bool_decide; intros Hu%IH; revert Hu;
    rewrite ?elem_of_app, ?list_elem_of_singleton, ?elem_of_cons; naive_solver.
Qed.

Lemma with_bundle_ok pool : pool_ok pool → pool_ok (with_bundle request pool).
Proof.
  intros [Hs Hsrc]. unfold with_bundle.
  destruct (artifact_bundle (pl_units pool) request) as [bundle|] eqn:EB; [|by constructor].
  destruct (bundle_sources _ _ EB) as (Hch & Hne & Hids). constructor; simpl.
  - intros u [[Hu _]%elem_of_retain|Hu]%elem_of_app.
    + destruct (Hs u Hu) as [?|[Hc HS]]; [by left|]. right. split; [done|]. simpl.
      destruct (decide (mu_id (sy_unit bundle) = mu_id u)) as [->|?];
        [rewrite lookup_insert_eq|rewrite lookup_insert_ne by done]; [by eexists|done].
    + apply list_elem_of_singleton in Hu as ->. right. split; [done|]. simpl.
      rewrite lookup_insert_eq. by eexists.
  - intros id sources. rewrite lookup_insert_Some. intros [[<- <-]|[_ HL]]; [|by eapply Hsrc].
    split; [done|]. intros i Hi. destruct (Hids i Hi) as (v & Hv & Hcv & <-). exists v.
    split; [|done]. destruct (Hs v Hv) as [?|[? _]]; done.
Qed.

Lemma recall_pool_ok pool :
  recall_pool config reads request time vector_query = Ok pool → pool_ok pool.
Proof.
  unfold recall_pool. intros (candidates & Hc & Hr)%result_bind_ok.
  apply result_bind_ok in Hr as (hits & Hh & [= <-]). apply with_bundle_ok.
  apply from_store_ok, reading_ok in Hc as [_ <-].
  set (candidates := take _ _).
  assert (HC : ∀ u, u ∈ candidates → stored u).
  { intros u Hu%elem_of_take. destruct Hu as (i & Hu & _). left.
    apply list_elem_of_lookup_2 in Hu. by apply elem_of_retain in Hu as [? _]. }
  set (rollups := match rq_aggregation_window request with Some w => _ | None => [] end).
  assert (HR : ∀ r, r ∈ rollups → mu_contextual_chunks (sy_unit r) = [] ∧ sy_source_unit_ids r ≠ [] ∧
    ∀ id, id ∈ sy_source_unit_ids r → ∃ v, v ∈ candidates ∧ mu_id v = id).
  { intros r. unfold rollups. destruct (rq_aggregation_window request); [|by intros ?%elem_of_nil].
    apply rollup_sources. }
  set (synthetic := extend_map _ _).
  assert (HP : ∀ u, u ∈ candidates ++ map sy_unit rollups →
    stored u ∨ (mu_contextual_chunks u = [] ∧ is_Some (synthetic !! mu_id u))).
  { intros u [Hu|(r & -> & Hin)%list_elem_of_fmap]%elem_of_app; [by left; apply HC|].
    right. destruct (HR r Hin) as [? _]. split; [done|].
    unfold synthetic. apply extend_map_present. rewrite map_map. simpl.
    apply list_elem_of_fmap. by exists r. }
  assert (HS : ∀ id sources, synthetic !! id = Some sources →
    sources ≠ [] ∧ ∀ source, source ∈ sources → ∃ v, stored v ∧ mu_id v = source).
  { intros id sources HL. unfold synthetic in HL. apply extend_map_from in HL as [HL|HL]; [|done].
    apply list_elem_of_fmap in HL as (r & [= -> ->] & Hin). destruct (HR r Hin) as (_ & Hne & Hids).
    split; [done|]. intros s Hs. destruct (Hids s Hs) as (v & Hv & <-). exists v. auto. }
  destruct hits as [hits|]; [|by constructor].
  assert (HV : ∀ v, v ∈ map fst hits → stored v).
  { unfold vector_hits in Hh. destruct vector_query as [q|]; [|done].
    destruct (is_empty _); [done|]. apply result_bind_ok in Hh as (pairs & Hp & [= ->]).
    apply from_store_ok, reading_ok in Hp as [_ <-].
    intros v ([w d] & -> & Hin)%list_elem_of_fmap. right. left.
    apply elem_of_take in Hin as (i & Hin & _). apply list_elem_of_lookup_2 in Hin.
    rewrite elem_of_sort_by in Hin. apply list_elem_of_omap in Hin as (x & Hx & Hd).
    apply bind_Some in Hd as (d' & _ & [= -> ->]). by apply elem_of_retain in Hx as [? _]. }
  destruct (foldl add_vector_hit _ hits) as [[units seen] scores] eqn:EF.
  constructor; simpl; [|done]. intros u [Hu _]%elem_of_retain.
  destruct (vector_fold_units _ _ _ _ _ EF u Hu) as [Hin|Hin]; [by apply HP|].
  left. by apply HV.
Qed.
End pool.

(** ** Inversion *)

Section recall_facts.
Context `{HashOrder} `{Jiff} `{Sha256} `{Calendar} `{SerdeJson} `{DeepJson} `{TraceRow}.
Context `{UnicodeAlphanumeric} `{UnicodeLowercase} `{UuidParse} `{LibM} `{Fsrs} `{CivilDate}.
Context (config : RecallConfig) (reads : RecallReads) (request : RecallRequest).
Context (vector_query : option VectorQuery) (now : Z) (trace_id : TraceId).
Context (timings : RecallTimings).

Notation context := (rq_context request).
Notation recall := (recall_with_pool_and_selection_impl config reads request vector_query now
  trace_id timings).

(** The items a response may have. *)
Definition recalled (time : RecallTime) (deep : option DeepRunFacts) (pool : RecallPool)
    (items : list RecallContextItem) : Prop :=
  ∃ input, let packed := recall_context input request (rg_rerank_plan config)
      (rg_pack_levers config) (rg_recall_pool_depth config) (rg_temporal_grounding_enabled config) in
  let deep_units := match deep with Some run => run_ranked_units run | None => [] end in
  fu_units input = extend_pool (pl_units pool) deep_units ∧ fu_deep_units input = deep_units ∧
  fu_time input = time ∧ items = map (with_sources (pl_synthetic_sources pool)) (pk_items packed).

Lemma recall_body_inv time trace response :
  recall_body config reads request vector_query time trace_id timings = Ok (trace, response) →
  ∃ deep pool citations packed_abstention columns,
  deep_run (at_snapshot reads) (rg_deep_provider config) request time = Ok deep ∧
  recall_pool config reads request time vector_query = Ok pool ∧
  recalled time deep pool (rsp_items response) ∧
  build_recall_citations (at_citations reads) request time trace_id
    (hash_query (rq_query request)) (rsp_items response) = Ok citations ∧
  deep_abstention deep citations packed_abstention = Ok (rsp_abstention response) ∧
  rsp_citations response = citations ∧ rsp_deep response = run_summary <$> deep ∧
  rsp_trace_id response = trace_id ∧ rsp_recall_time response = time ∧
  rsp_candidate_whitelist response = map it_unit_id (rsp_items response) ∧
  trace = recall_trace request trace_id (rsp_items response) columns.
Proof.
  unfold recall_body. intros (deep & Hd & Hr)%result_bind_ok.
  apply result_bind_ok in Hr as (pool & Hp & Hr). cbv zeta in Hr.
  apply result_bind_ok in Hr as (edges & _ & Hr). apply result_bind_ok in Hr as (reviews & _ & Hr).
  set (input := mkFuseInput _ edges _ _ _ _ _ _ _) in Hr.
  destruct (traced_candidates _ _ _ _) as [rows cross_rerank].
  apply result_bind_ok in Hr as (citations & Hc & Hr).
  apply result_bind_ok in Hr as (abstention & Ha & [= <- <-]).
  exists deep, pool, citations. do 2 eexists. cbn.
  split; [done|]. split; [done|]. split; [by exists input|].
  split; [exact Hc|]. split; [exact Ha|]. done.
Qed.

Lemma recall_inv state s' response :
  recall state = (s', Ok response) → ∃ time trace,
  resolve_recall_time (rq_transaction_as_of request) (rq_valid_at request) now = Ok time ∧
  check_window request = Ok () ∧ recall_scope_admitted context = true ∧
  recall_body config reads request vector_query time trace_id timings = Ok (trace, response) ∧
  store_trace state context trace = Ok s'.
Proof.
  unfold recall_with_pool_and_selection_impl.
  destruct (resolve_recall_time _ _ _) as [time|]; [|done]. cbn [result_bind].
  destruct (check_window request) as [[]|] eqn:Ew; [|done]. cbn [result_bind].
  destruct (negb _) eqn:Ead; [by destruct (store_trace _ _ _)|]. apply negb_false_iff in Ead.
  destruct (recall_body _ _ _ _ _ _ _) as [[trace r]|] eqn:EB; [|done].
  destruct (store_trace _ _ trace) as [s|] eqn:ES; [|done]. intros [= <- <-].
  by exists time, trace.
Qed.

(** ** What is served *)

(** The items of a response, from units the gate admits. *)
Lemma recalled_items time deep pool items :
  (∀ u, stored reads request u → fits_memory (mu_contextual_chunks u)) →
  recall_pool config reads request time vector_query = Ok pool →
  deep_run (at_snapshot reads) (rg_deep_provider config) request time = Ok deep →
  recalled time deep pool items →
  (∀ item, item ∈ items → ∃ u, mu_id u = it_unit_id item ∧ served_safely request time u ∧
     (stored reads request u ∨
      (is_Some (pl_synthetic_sources pool !! mu_id u) ∧
       pl_synthetic_sources pool !! mu_id u = Some (it_derived_from_unit_ids item)))) ∧
  N.of_nat (length items) <= N.max (rq_k request) 1.
Proof.
  intros Hfit Hpool Hdeep (input & Hu & Hd & Ht & ->).
  pose proof (recall_pool_ok _ _ _ _ _ _ Hpool) as [Hsound _].
  assert (HD : ∀ u, u ∈ fu_deep_units input → servable request time u = true ∧ stored reads request u).
  { intros u. rewrite Hd. destruct deep as [run|]; [|by intros ?%elem_of_nil]. intros Hin.
    destruct (deep_units_admitted _ _ _ _ _ u Hdeep Hin) as (? & ? & _). split; [done|].
    right. by right. }
  assert (HU : ∀ u, u ∈ fu_units input → pool_unit reads request pool u).
  { intros u Hin. rewrite Hu in Hin. apply extend_pool_units in Hin as [Hin|Hin]; [by apply Hsound|].
    left. apply HD. by rewrite Hd. }
  assert (HF : units_fit input).
  { unfold units_fit. apply Forall_app. split; apply Forall_forall; intros u Hin.
    - destruct (HU u Hin) as [?|[-> _]]; [by apply Hfit|done].
    - by apply Hfit, HD. }
  destruct (recall_serves_safely input request (rg_rerank_plan config) (rg_pack_levers config)
    (rg_recall_pool_depth config) (rg_temporal_grounding_enabled config) HF) as (Hs & Hn & _).
  split; [|by rewrite length_map]. intros item' (item & -> & Hin)%list_elem_of_fmap.
  destruct (Hs item Hin) as (u & Hid & Hcase). exists u.
  assert (Hid' : it_unit_id (with_sources (pl_synthetic_sources pool) item) = it_unit_id item).
  { unfold with_sources. by destruct (_ !! _). }
  split; [by rewrite Hid'|]. rewrite Ht in Hcase.
  destruct Hcase as [[Hin' Hsafe]|Hin'].
  - split; [done|]. destruct (HU u Hin') as [?|[_ HS]]; [by left|]. right. split; [done|].
    unfold with_sources. rewrite Hid in HS |- *. destruct HS as [sources HS]. by rewrite HS.
  - destruct (HD u Hin') as [Hserv ?]. split; [by apply servable_safe|by left].
Qed.

(** C24: A recall serves only what the policy admits, deep or not.  At the times
    it resolved, every item is a unit the context allows, alive and visible, no
    unconfirmed capture unless asked for, no belief unless asked for, no unsafe
    procedure, and for a high-risk query none that is personal or below the
    trust floor; it is a row of the tenant in a state the recall read, or made
    by the recall of such rows, which it names.  There are at most [k] items, where a [k] of
    zero counts as one. *)
Theorem recall_serves_only_admitted state s' response :
  (∀ u, stored reads request u → fits_memory (mu_contextual_chunks u)) →
  recall state = (s', Ok response) →
  resolve_recall_time (rq_transaction_as_of request) (rq_valid_at request) now =
    Ok (rsp_recall_time response) ∧
  (∀ item, item ∈ rsp_items response → ∃ u, mu_id u = it_unit_id item ∧
     served_safely request (rsp_recall_time response) u ∧
     (stored reads request u ∨
      it_derived_from_unit_ids item ≠ [] ∧
      ∀ id, id ∈ it_derived_from_unit_ids item → ∃ v, stored reads request v ∧ mu_id v = id)) ∧
  N.of_nat (length (rsp_items response)) <= N.max (rq_k request) 1.
Proof.
  intros Hfit (time & trace & Ht & _ & _ & Hb & _)%recall_inv.
  apply recall_body_inv in Hb as (deep & pool & citations & abst & columns & Hd & Hp & Hr & _ & _ & _ &
    _ & _ & Htime & _). rewrite Htime. split; [done|].
  destruct (recalled_items _ _ _ _ Hfit Hp Hd Hr) as [Hitems Hn]. split; [|done].
  pose proof (recall_pool_ok _ _ _ _ _ _ Hp) as [_ Hsrc].
  intros item Hin. destruct (Hitems item Hin) as (u & Hid & Hsafe & Hcase). exists u.
  split; [done|]. split; [done|]. destruct Hcase as [?|[_ HS]]; [by left|]. right.
  by apply Hsrc in HS.
Qed.

(** ** What is refused *)

(** A recall the policy does not admit reads nothing: its result does not
    depend on any state it could read, on the providers or on the query vector.
    It leaves a trace without items or candidates and returns a policy error,
    unless the trace itself cannot be stored; a recall that fails later leaves
    the store as it was. *)
Theorem refused_recall_is_inert state time :
  resolve_recall_time (rq_transaction_as_of request) (rq_valid_at request) now = Ok time →
  check_window request = Ok () →
  (recall_scope_admitted context = false →
   recall state =
     match store_trace state context (denied_trace config request trace_id time) with
     | Ok state => (state, Err (CoreError.PolicyDenied "scope"))
     | Err error => (state, Err (CoreError.Store error))
     end ∧
   tr_context_items (denied_trace config request trace_id time) = []) ∧
  (∀ s' error, recall_scope_admitted context = true → recall state = (s', Err error) → s' = state).
Proof.
  intros Ht Hw. unfold recall_with_pool_and_selection_impl. rewrite Ht, Hw. cbn [result_bind]. split.
  - intros ->. cbn [negb]. split; [|done]. by destruct (store_trace _ _ _).
  - intros s' error ->. cbn [negb].
    destruct (recall_body _ _ _ _ _ _ _) as [[trace r]|]; [|by intros [= <- _]].
    destruct (store_trace _ _ trace); [done|]. by intros [= <- _].
Qed.

(** ** What is recorded *)

Lemma find_snoc_reverse {A} (p : A → bool) l x : p x = true → find p (reverse (l ++ [x])) = Some x.
Proof. intros Hp. rewrite reverse_snoc. simpl. by rewrite Hp. Qed.

Lemma recall_trace_owned items columns :
  owned_trace context (recall_trace request trace_id items columns) = true.
Proof. unfold owned_trace, owns. simpl. by rewrite !N.eqb_refl. Qed.

(** A fresh trace is the last of its tenant. *)
Lemma store_fresh_trace state s' trace :
  trace_id ∉ map tr_id (rows (st_retrieval_traces state) (cx_tenant_id context)) →
  tr_id trace = trace_id → store_trace state context trace = Ok s' →
  rows (st_retrieval_traces s') (cx_tenant_id context) =
    rows (st_retrieval_traces state) (cx_tenant_id context) ++ [trace].
Proof.
  intros Hfresh Hid. unfold store_trace. destruct (negb _); [done|].
  intros [_ <-]%reading_ok. cbn. rewrite rows_update_eq. unfold put_trace.
  replace (any _ _) with false; [done|]. symmetry. apply any_false. intros t Ht.
  apply N.eqb_neq. intros HE. apply Hfresh. rewrite <-Hid, <-HE. by apply list_elem_of_fmap_2.
Qed.

(** C25: What a recall served can be marked, and nothing else.  In the state a
    recall with a fresh trace leaves, a review of that trace passes the store's
    check if and only if it is the tenant's and every identifier it uses is an
    item of the response or a source that an item names. *)
Theorem trace_admits_what_was_served state s' response event :
  trace_id ∉ map tr_id (rows (st_retrieval_traces state) (cx_tenant_id context)) →
  recall state = (s', Ok response) → rv_trace_id event = rsp_trace_id response →
  check_review_event s' context event = Ok () ↔
  rv_tenant_id event = cx_tenant_id context ∧
  ∀ id, id ∈ rv_used_ids event → ∃ item, item ∈ rsp_items response ∧
    (id = it_unit_id item ∨ id ∈ it_derived_from_unit_ids item).
Proof.
  intros Hfresh (time & trace & _ & _ & _ & Hb & Hst)%recall_inv Hev.
  apply recall_body_inv in Hb as (? & ? & ? & ? & columns & _ & _ & _ & _ & _ & _ & _ & Hid & _ & _ & ->).
  set (trace := recall_trace _ _ _ _) in *.
  pose proof (store_fresh_trace _ _ trace Hfresh eq_refl Hst) as Hrows.
  unfold check_review_event. rewrite Hrows, retain_app, retain_cons.
  assert (HO : owned_trace context trace = true) by apply recall_trace_owned. rewrite HO.
  change (retain (owned_trace context) []) with (@nil RetrievalTrace).
  rewrite find_snoc_reverse by (rewrite Hev, Hid; apply N.eqb_refl).
  assert (HW : ∀ id, mem id (trace_whitelist trace) = true ↔ ∃ item, item ∈ rsp_items response ∧
    (id = it_unit_id item ∨ id ∈ it_derived_from_unit_ids item)).
  { intros id. unfold mem. rewrite bool_decide_eq_true. unfold trace_whitelist. rewrite elem_of_flat_map.
    cbn [tr_context_items trace recall_trace]. split.
    - intros (i & (item & -> & Hin)%list_elem_of_fmap & Hi). exists item. split; [done|].
      cbn [ri_unit_id ri_derived_from_unit_ids] in Hi. by apply elem_of_cons in Hi.
    - intros (item & Hin & Hi). eexists. split; [by apply list_elem_of_fmap_2|].
      cbn [ri_unit_id ri_derived_from_unit_ids]. by apply elem_of_cons. }
  destruct (N.eqb_spec (rv_tenant_id event) (cx_tenant_id context)) as [HT|HT]; cbn [negb orb].
  - destruct (any _ _) eqn:EA.
    + split; [done|]. intros [_ Hall]. apply any_true in EA as (id & Hin & Hno).
      apply negb_true_iff in Hno. by rewrite (proj2 (HW id) (Hall id Hin)) in Hno.
    + split; [|done]. intros _. split; [done|]. intros id Hin. apply HW.
      rewrite any_false in EA. specialize (EA id Hin). by apply negb_false_iff in EA.
  - split; [done|]. by intros [? _].
Qed.

(** ** What a deep recall claims *)

(** C26: A deep claim is evidenced.  The provider runs exactly in deep mode; when
    it found too little the response abstains, and otherwise its run completed
    and the response carries a verified citation. *)
Theorem deep_claims_are_cited state s' response :
  recall state = (s', Ok response) →
  (rq_mode request = RecallMode.Fast → rsp_deep response = None) ∧
  (rq_mode request = RecallMode.Deep → ∃ summary, rsp_deep response = Some summary ∧
     (di_status (dm_evidence summary) = EvidenceStatus.Insufficient → rsp_abstention response = true) ∧
     (di_status (dm_evidence summary) ≠ EvidenceStatus.Insufficient →
        dm_status summary = DeepRecallStatus.Completed ∧
        ∃ citation, citation ∈ rsp_citations response ∧ is_verified citation = true)).
Proof.
  intros (time & trace & _ & _ & _ & Hb & _)%recall_inv.
  apply recall_body_inv in Hb as (deep & pool & citations & abst & columns & Hd & _ & _ & _ & Ha & Hc &
    Hdeep & _). rewrite Hc, Hdeep. split.
  - intros Hmode. unfold deep_run in Hd. rewrite Hmode in Hd. cbn in Hd. by injection Hd as <-.
  - intros Hmode. destruct deep as [run|].
    2: { unfold deep_run in Hd. rewrite Hmode in Hd. cbn in Hd.
         destruct (rg_deep_provider config); [|done].
         apply result_bind_ok in Hd as (? & _ & Hd). apply result_bind_ok in Hd as (? & _ & Hd).
         by apply result_bind_ok in Hd as (? & _ & Hd). }
    exists (run_summary run). split; [done|]. unfold deep_abstention in Ha.
    destruct (_ && _) eqn:EE; [done|]. injection Ha as <-. split.
    + intros ->. by rewrite bool_decide_true.
    + intros Hne. apply deep_run_inv in Hd as (provider & entries & output & _ & _ & _ & _ & Hv & _ & Hs).
      apply deep_output_check in Hv as [[] _]. rewrite Hs in Hne |- *. cbn in Hne |- *.
      destruct (ov_evidence Hne) as [_ ?]. split; [done|].
      rewrite Hs in EE. cbn in EE. apply andb_false_iff in EE as [EE|EE].
      * by destruct (di_status _).
      * apply negb_false_iff, existsb_exists in EE as (c & Hin & Hver). exists c.
        split; [by apply list_elem_of_In|done].
Qed.
End recall_facts.
