(* ===== verification/Mining.v ===== *)
(** * Mining: facts and captures of an episode

    [crates/memphant-core/src/service.rs]: the pattern miner that turns the
    user's sentences of an episode into keyed facts, and the one candidate a
    captured episode becomes, cut to the size of a card.  Tokens are lists of
    bytes.  The theorems follow the definitions. *)

From S2P Require Import Prelude Text Types Float Clock Bitemporal Lineage Store TextFacts Chunks Render Gate Compile.

(** ** Words *)

Definition MAX_EXTRACTED_FACTS : nat := 8.
Definition MIN_FACT_SENTENCE_WORDS : nat := 4.

Definition PRONOUN_STOPS : list string := ["it"; "that"; "this"; "these"; "those"; "them";
  "they"; "he"; "she"; "him"; "her"; "you"; "us"; "me"; "myself"; "one"; "ones"; "everything";
  "anything"; "something"; "nothing"; "everyone"; "anyone"; "someone"; "itself"; "here";
  "there"; "who"; "what"; "which"].
Definition NOUN_STOPS : list string := ["point"; "question"; "guess"; "concern"; "answer";
  "goal"; "issue"; "problem"; "idea"; "opinion"; "view"; "take"; "understanding"; "assumption";
  "mistake"; "bad"; "apologies"; "sense"; "hope"; "plan"; "thought"; "thoughts"; "feeling";
  "feelings"; "response"; "reply"; "suggestion"; "recommendation"; "advice"; "impression";
  "worry"; "fear"].
Definition IDENTITY_STOPS : list string := ["bit"; "little"; "tad"; "lot"; "fan"; "huge"; "big";
  "couple"; "few"; "sort"; "kind"; "loyal"].
Definition PREF_FILLERS : list string := ["do"; "don't"; "dont"; "did"; "didn't"; "not";
  "never"; "really"; "no"; "longer"; "just"; "also"; "still"; "actually"; "totally";
  "absolutely"; "genuinely"; "truly"; "simply"; "so"; "much"; "always"; "generally"; "usually";
  "kinda"; "sort"; "of"].
Definition PREF_VERBS : list string := ["love"; "loved"; "like"; "liked"; "prefer"; "preferred";
  "enjoy"; "enjoyed"; "hate"; "hated"; "dislike"; "disliked"; "adore"; "adored"; "fancy"].
Definition OBJECT_TRAILERS : list string := ["anymore"; "now"; "today"; "currently"; "lately";
  "recently"; "nowadays"; "days"; "these"; "any"; "more"; "longer"; "too"; "though"; "either";
  "here"].
Definition CLAUSE_STOPS : list string := ["and"; "but"; "because"; "so"; "although"; "though";
  "however"; "yet"; "while"; "whereas"].
(** The words skipped between the pronoun and the article. *)
Definition IDENTITY_HEDGES : list string := [
  "not"; "no"; "longer"; "really"; "actually"; "also"; "still"].

Definition word_in (stops : list string) (word : list N) : bool :=
  any (λ stop, bool_decide (bytes_of stop = word)) stops.

(** Characters outside ASCII are stripped like punctuation, so bytes do. *)
Definition is_punct (b : N) : bool := negb (is_ascii_alphanumeric b) && negb (b =? 39).
Definition strip_punct (token : list N) : list N :=
  trim_end_bytes is_punct (drop_while is_punct token).

Definition is_word (word : string) (token : list N) : bool :=
  bool_decide (strip_punct token = bytes_of word).

(** [sentence] holds the bytes since the last stop, the last first. *)
Definition sentence_of (sentence : list N) : list (list N) :=
  let text := trim (rev sentence) in if is_empty text then [] else [text].
Fixpoint sentences_from (sentence l : list N) : list (list N) :=
  match l with
  | [] => sentence_of sentence
  | b :: l =>
      if (b =? 46) || (b =? 33) || (b =? 63) then sentence_of sentence ++ sentences_from [] l
      else sentences_from (b :: sentence) l
  end.
Definition split_sentences (text : list N) : list (list N) := sentences_from [] text.

(** ** Phrases *)

Definition ends_clause (token : list N) : bool :=
  match rev token with b :: _ => (b =? 44) || (b =? 59) || (b =? 58) | [] => false end.

Fixpoint clause_trim (tokens : list (list N)) : list (list N) :=
  match tokens with
  | [] => []
  | token :: rest =>
      if word_in CLAUSE_STOPS (strip_punct token) then []
      else if ends_clause token then [token] else token :: clause_trim rest
  end.

Definition clause_words (tokens : list (list N)) : list (list N) :=
  retain (λ word, negb (is_empty word)) (map strip_punct (clause_trim tokens)).

(** The phrase of some words, unless they start with a pronoun. *)
Definition phrase_of (words : list (list N)) : option string :=
  first ← head words;
  if word_in PRONOUN_STOPS first then None
  else
    let phrase := normalize_component (string_of_bytes (join_space words)) in
    if bool_decide (phrase = String.EmptyString) then None else Some phrase.

Definition without_article (words : list (list N)) : list (list N) :=
  match words with
  | first :: rest => if word_in ["a"; "an"; "the"] first then rest else words
  | [] => []
  end.
Definition without_trailers (words : list (list N)) : list (list N) :=
  rev (drop_while (word_in OBJECT_TRAILERS) (rev words)).

Definition clean_object (tokens : list (list N)) : option string :=
  phrase_of (without_trailers (without_article (clause_words tokens))).
Definition clean_subject_phrase (tokens : list (list N)) : option string :=
  phrase_of (clause_words tokens).

(** ** Patterns *)

(** The family of a fact and its subject. *)
Notation FactKey := (string * string)%type.

(** The tokens before and after the first [is]. *)
Definition around_is (tokens : list (list N)) : option (list (list N) * list (list N)) :=
  index ← position (is_word "is") tokens;
  Some (take index tokens, drop (S index) tokens).

Definition match_superlative (tokens : list (list N)) : option FactKey :=
  fav ← position (is_word "favorite") tokens;
  let before (offset : nat) (word : string) :=
    if (offset <=? fav)%nat
    then match tokens !! (fav - offset)%nat with Some token => is_word word token | None => false end
    else false in
  if negb (before 1%nat "my" ||
           (before 1%nat "all-time" && before 2%nat "my") ||
           (before 1%nat "time" && before 2%nat "all" && before 3%nat "my"))
  then None
  else
    '(noun, value) ← around_is (drop (S fav) tokens);
    noun ← clean_subject_phrase noun;
    _ ← clean_subject_phrase value;
    Some ("preference", "favorite " +:+ noun).

Definition match_my_new_noun (tokens : list (list N)) : option FactKey :=
  my ← position (is_word "my") tokens;
  new ← tokens !! S my;
  if negb (is_word "new" new) then None
  else
    '(noun, value) ← around_is (drop (my + 2) tokens);
    noun ← clean_subject_phrase noun;
    _ ← clean_subject_phrase value;
    if word_in NOUN_STOPS (bytes_of noun) then None else Some ("attribute", noun).

Definition match_my_noun_is (tokens : list (list N)) : option FactKey :=
  my ← position (is_word "my") tokens;
  '(noun_tokens, value) ← around_is (drop (S my) tokens);
  if is_empty noun_tokens || (3 <? length noun_tokens)%nat then None
  else
    noun ← clean_subject_phrase noun_tokens;
    _ ← clean_subject_phrase value;
    if any (word_in NOUN_STOPS) (split_at 32 (bytes_of noun)) then None
    else Some ("attribute", noun).

(** The tokens after the first "I'm" or "I am". *)
Fixpoint identity_anchor (tokens : list (list N)) : option (list (list N)) :=
  match tokens with
  | [] => None
  | token :: rest =>
      if is_word "i'm" token then Some rest
      else match rest with
           | next :: after =>
               if is_word "i" token && is_word "am" next then Some after else identity_anchor rest
           | [] => None
           end
  end.

Definition match_identity (tokens : list (list N)) : option FactKey :=
  after ← identity_anchor tokens;
  match drop_while (λ token, word_in IDENTITY_HEDGES (strip_punct token)) after with
  | [] => None
  | article :: desc_tokens =>
      if negb (is_word "a" article || is_word "an" article) || is_empty desc_tokens then None
      else
        desc ← clean_subject_phrase desc_tokens;
        let words := split_at 32 (bytes_of desc) in
        if word_in IDENTITY_STOPS (default [] (head words)) || (4 <? length words)%nat then None
        else Some ("attribute", desc)
  end.

Definition preference_of (tokens : list (list N)) : option FactKey :=
  object ← clean_object tokens; Some ("preference", object).

(** The tokens after a preference verb at the head of some tokens. *)
Definition after_verb (tokens : list (list N)) : option (list (list N)) :=
  match tokens with
  | [] => None
  | verb :: after =>
      let next (word : string) :=
        match after with token :: _ => is_word word token | [] => false end in
      if ((is_word "can't" verb || is_word "cannot" verb || is_word "can" verb) && next "stand") ||
         (is_word "switched" verb && next "to")
      then Some (drop 1 after)
      else if word_in PREF_VERBS (strip_punct verb) then Some after else None
  end.

Definition is_filler (token : list N) : bool := word_in PREF_FILLERS (strip_punct token).

Fixpoint match_preference_verb (tokens : list (list N)) : option FactKey :=
  match tokens with
  | [] => None
  | token :: rest =>
      if negb (is_word "i" token) then match_preference_verb rest
      else match after_verb (drop_while is_filler rest) with
           | Some object => preference_of object
           | None => match_preference_verb rest
           end
  end.

(** ** The miner *)

Record ExtractedFact : Set := mkFact {
  fc_family : string;
  fc_subject_phrase : string;
  fc_body : string;
}.

Definition or_else {A} (o p : option A) : option A :=
  match o with Some _ => o | None => p end.

Definition match_fact (sentence : list N) : option ExtractedFact :=
  if (length (split_words [] sentence) <? MIN_FACT_SENTENCE_WORDS)%nat then None
  else
    let tokens := split_words [] (map ascii_lower sentence) in
    '(family, subject_phrase) ←
      or_else (match_superlative tokens)
        (or_else (match_my_new_noun tokens)
           (or_else (match_my_noun_is tokens)
              (or_else (match_identity tokens) (match_preference_verb tokens))));
    Some (mkFact family subject_phrase (string_of_bytes sentence)).

Section mining.
Context `{UnicodeAlphanumeric}.

(** The text of a line that is the user's. *)
Definition user_text (line : list N) : option (list N) :=
  let content := trim line in
  if is_empty content then None
  else match parse_turn content with
       | Some (role, turn) =>
           if bool_decide (normalize_component (string_of_bytes role) = "user")
           then Some turn else None
       | None => Some content
       end.

Definition mined_facts (body : list N) : list ExtractedFact :=
  concat (map (λ line, match user_text line with
                       | Some text => omap match_fact (split_sentences text)
                       | None => []
                       end) (split_inclusive_nl body)).

Definition same_fact (fact kept : ExtractedFact) : bool :=
  bool_decide (fc_family kept = fc_family fact) &&
  bool_decide (fc_subject_phrase kept = fc_subject_phrase fact).

(** [position] and [remove]. *)
Fixpoint remove_first {A} (p : A → bool) (l : list A) : list A :=
  match l with
  | [] => []
  | x :: l => if p x then l else x :: remove_first p l
  end.
Definition keep_fact (deduped : list ExtractedFact) (fact : ExtractedFact) : list ExtractedFact :=
  remove_first (same_fact fact) deduped ++ [fact].

Definition date_fact (content_date : option string) (fact : ExtractedFact) : ExtractedFact :=
  match content_date with
  | Some date =>
      mkFact (fc_family fact) (fc_subject_phrase fact)
        ("[date " +:+ date +:+ "]" +:+ string_of_bytes [LF] +:+ fc_body fact)
  | None => fact
  end.

Definition extract_facts (body : string) (content_date : option string) : list ExtractedFact :=
  let deduped := foldl keep_fact [] (mined_facts (bytes_of body)) in
  map (date_fact content_date) (drop (length deduped - MAX_EXTRACTED_FACTS) deduped).

Definition extract_fact_candidates (episode : StoredEpisode) (content_date : option string)
    : list ReflectCandidate :=
  map (λ fact, {|
    cd_source_kind := ep_source_kind episode;
    cd_trust_level := ep_source_trust episode;
    cd_actor_id := ep_actor_id episode;
    cd_subject := Some (fc_family fact);
    cd_predicate := Some (fc_subject_phrase fact);
    cd_fact_key := None;
    cd_kind := None;
    cd_body := fc_body fact;
    cd_confidence := None;
    cd_churn_class := None;
    cd_admission_hint := None;
    cd_contextual_chunks := [];
    cd_valid_from := None;
    cd_valid_to := None;
    cd_target_unit_ids := None;
    cd_compact := None;
    cd_capture := None;
  |}) (extract_facts (ep_body episode) content_date).
End mining.

(** ** Captures *)

Definition MCP_COMPACT_TOKEN_CEILING : N := 512.
Definition CAPTURE_SOURCE_SCHEME : string := "capture://".

Definition capture_episode_source (source_ref : string) : option CaptureSource.t :=
  rest ← strip_pat (bytes_of CAPTURE_SOURCE_SCHEME) (bytes_of source_ref);
  let family := default [] (head (split_at 47 rest)) in
  if bool_decide (family = bytes_of "mirror") then Some CaptureSource.Mirror
  else if bool_decide (family = bytes_of "summary") then Some CaptureSource.Summary
  else if bool_decide (family = bytes_of "errfix") then Some CaptureSource.ErrFix
  else if bool_decide (family = bytes_of "directive") then Some CaptureSource.Directive
  else None.

Definition capture_kind (source : CaptureSource.t) : MemoryKind.t :=
  match source with
  | CaptureSource.ErrFix | CaptureSource.Directive => MemoryKind.Procedural
  | CaptureSource.Mirror | CaptureSource.Summary => MemoryKind.Semantic
  end.

(** A line joins what is kept. *)
Definition add_line (kept line : list N) : list N :=
  if is_empty kept then line else kept ++ [LF] ++ line.

Fixpoint fit_lines (kept : list N) (l : list (list N)) : list N :=
  match l with
  | [] => kept
  | line :: l =>
      let candidate := add_line kept line in
      if MCP_COMPACT_TOKEN_CEILING <? token_estimate candidate then kept else fit_lines candidate l
  end.

Definition fit_capture_body_to_ceiling (body : string) : option (string * bool) :=
  if conservative_token_estimate body <=? MCP_COMPACT_TOKEN_CEILING then Some (body, false)
  else
    let kept := fit_lines [] (lines (bytes_of body)) in
    if is_empty (trim kept) then None else Some (string_of_bytes kept, true).

Definition capture_episode_candidate (episode : StoredEpisode) (subject : option string)
    (source : CaptureSource.t) : option ReflectCandidate :=
  '(body, truncated) ← fit_capture_body_to_ceiling (ep_body episode);
  Some {|
    cd_source_kind := ep_source_kind episode;
    cd_trust_level := ep_source_trust episode;
    cd_actor_id := ep_actor_id episode;
    cd_subject := subject;
    cd_predicate := None;
    cd_fact_key := subject;
    cd_kind := Some (capture_kind source);
    cd_body := body;
    cd_confidence := Some f32_half;
    cd_churn_class := None;
    cd_admission_hint := None;
    cd_contextual_chunks := [];
    cd_valid_from := None;
    cd_valid_to := None;
    cd_target_unit_ids := None;
    cd_compact := None;
    cd_capture := Some (captured source <| cm_truncated := truncated |>);
  |}.

(** * What is mined is what the user said last

    A mined fact quotes a sentence of the user's own lines, keeps the trust of
    its episode, and of the statements about one subject the last is kept; the
    words of negation do not change the subject.  A captured body becomes a
    card of its longest run of lines under the ceiling. *)

(** ** Parts of a text *)

Definition part_of (s l : list N) : Prop := ∃ p q, l = p ++ s ++ q.

Lemma part_refl l : part_of l l.
Proof. exists [], []. by rewrite app_nil_r. Qed.

Lemma part_trans s t l : part_of s t → part_of t l → part_of s l.
Proof.
  intros (p & q & ->) (p' & q' & ->). exists (p' ++ p), (q ++ q'). by rewrite <-!app_assoc.
Qed.

Lemma part_app_l s p l : part_of s l → part_of s (p ++ l).
Proof. intros (p' & q & ->). exists (p ++ p'), q. by rewrite <-app_assoc. Qed.

Lemma part_app_r s l q : part_of s l → part_of s (l ++ q).
Proof. intros (p & q' & ->). exists p, (q' ++ q). by rewrite <-!app_assoc. Qed.

Lemma trim_part l : part_of (trim l) l.
Proof.
  assert (∀ k, part_of (trim_start k) k) as Hstart.
  { intros k. destruct (drop_while_split is_whitespace (chars k)) as (w & E & _).
    exists (concat w), []. rewrite app_nil_r. unfold trim_start.
    by rewrite <-concat_app, <-E, chars_concat. }
  assert (∀ k, part_of (trim_end k) k) as Hend.
  { intros k. destruct (drop_while_split is_whitespace (rev (chars k))) as (w & E & _).
    exists [], (concat (rev w)). unfold trim_end. cbn [app].
    rewrite <-concat_app, <-rev_app_distr, <-E, rev_involutive. by rewrite chars_concat. }
  eapply part_trans; [apply Hend|apply Hstart].
Qed.

Lemma split_once_part pat l x y : split_once pat l = Some (x, y) → part_of y l.
Proof.
  revert x y. induction l as [|b l IH]; intros x y; cbn [split_once].
  - destruct (starts_with pat []); [|done]. intros [= _ <-]. destruct (length pat); apply part_refl.
  - destruct (starts_with pat (b :: l)).
    + intros [= _ <-]. rewrite <-(take_drop (length pat) (b :: l)) at 2.
      apply part_app_l, part_refl.
    + destruct (split_once pat l) as [[x' y']|] eqn:E; [|done]. intros [= _ <-].
      apply (part_app_l _ [b]). by eapply IH.
Qed.

Lemma inclusive_part raw l : raw ∈ split_inclusive_nl l → part_of raw l.
Proof.
  remember (split_inclusive_nl l) as raws eqn:E. symmetry in E. revert l E.
  induction raws as [|r raws IH]; intros l E Hin; [by apply elem_of_nil in Hin|].
  apply split_inclusive_inv in E as (k & -> & Ek & _).
  apply elem_of_cons in Hin as [->|Hin]; [apply part_app_r, part_refl|by apply part_app_l, IH].
Qed.

Lemma sentence_part word l s : s ∈ sentences_from word l → part_of s (rev word ++ l).
Proof.
  assert (∀ w, s ∈ sentence_of w → part_of s (rev w)) as Hone.
  { intros w. unfold sentence_of. destruct (is_empty _); [by intros ?%elem_of_nil|].
    intros ->%list_elem_of_singleton. apply trim_part. }
  revert word. induction l as [|b l IH]; intros word; cbn [sentences_from].
  - rewrite app_nil_r. apply Hone.
  - destruct (_ || _).
    + intros [Hs|Hs]%elem_of_app; [by apply part_app_r, Hone|].
      apply part_app_l, (part_app_l _ [b]). by apply (IH []).
    + intros Hs%IH. cbn [rev] in Hs. by rewrite <-app_assoc in Hs.
Qed.

(** ** Facts *)

Lemma elem_of_concat {A} (x : A) ls : x ∈ concat ls ↔ ∃ l, x ∈ l ∧ l ∈ ls.
Proof.
  rewrite list_elem_of_In, in_concat. split; intros (l & H1 & H2); exists l;
    by rewrite ?list_elem_of_In in *.
Qed.

Section mining_facts.
Context `{UnicodeAlphanumeric}.

Lemma user_text_part line text : user_text line = Some text → part_of text line ∧
  (parse_turn (trim line) = None ∨
   ∃ role, parse_turn (trim line) = Some (role, text) ∧
     normalize_component (string_of_bytes role) = "user").
Proof.
  unfold user_text. destruct (is_empty (trim line)); [done|].
  destruct (parse_turn (trim line)) as [[role turn]|] eqn:Et.
  - case_bool_decide as Er; [|done]. intros [= <-]. split; [|by right; exists role].
    unfold parse_turn in Et. destruct (split_once _ _) as [[x y]|] eqn:E; [|done].
    destruct (_ && _) in Et; [|done]. injection Et as <- <-.
    eapply part_trans; [by eapply split_once_part|].
    eapply part_trans; [apply trim_part|apply trim_part].
  - intros [= <-]. split; [apply trim_part|by left].
Qed.

(** The user's sentences of a body. *)
Definition said_by_user (body sentence : list N) : Prop :=
  ∃ line text, line ∈ split_inclusive_nl body ∧ user_text line = Some text ∧
    sentence ∈ split_sentences text.

Lemma said_part body sentence : said_by_user body sentence → part_of sentence body.
Proof.
  intros (line & text & Hl & [Ht _]%user_text_part & Hs). apply (sentence_part []) in Hs.
  cbn [rev app] in Hs. eapply part_trans; [exact Hs|]. eapply part_trans; [exact Ht|].
  by apply inclusive_part.
Qed.

Lemma mined_said body fact : fact ∈ mined_facts body →
  ∃ sentence, said_by_user body sentence ∧ fc_body fact = string_of_bytes sentence ∧
    (MIN_FACT_SENTENCE_WORDS <= length (split_words [] sentence))%nat.
Proof.
  unfold mined_facts. intros (fs & Hf & (line & -> & Hl)%list_elem_of_fmap)%elem_of_concat.
  destruct (user_text line) as [text|] eqn:Et; [|by apply elem_of_nil in Hf].
  apply list_elem_of_omap in Hf as (sentence & Hs & Hm).
  exists sentence. split; [by exists line, text|]. unfold match_fact in Hm.
  destruct (Nat.ltb_spec (length (split_words [] sentence)) MIN_FACT_SENTENCE_WORDS); [done|].
  destruct (or_else _ _) as [[family phrase]|]; [|done]. by injection Hm as <-.
Qed.

(** The reference: of the facts of one subject the last. *)
Fixpoint last_said (l : list ExtractedFact) : list ExtractedFact :=
  match l with
  | [] => []
  | fact :: l => if any (same_fact fact) l then last_said l else fact :: last_said l
  end.
Definition fact_subject (fact : ExtractedFact) : string * string :=
  (fc_family fact, fc_subject_phrase fact).

Lemma same_fact_spec f g : same_fact f g = true ↔ fact_subject g = fact_subject f.
Proof.
  unfold same_fact, fact_subject. rewrite andb_true_iff, !bool_decide_eq_true.
  split; [by intros [-> ->]|by intros [= -> ->]].
Qed.

Lemma last_said_sub l f : f ∈ last_said l → f ∈ l.
Proof.
  induction l as [|g l IH]; [done|]. cbn [last_said]. destruct (any _ l); [set_solver|].
  intros [->|?]%elem_of_cons; set_solver.
Qed.

Lemma last_said_distinct l : NoDup (map fact_subject (last_said l)).
Proof.
  induction l as [|f l IH]; [constructor|]. cbn [last_said]. destruct (any _ l) eqn:Ea; [done|].
  cbn [map]. constructor; [|done]. intros (g & E & Hg%last_said_sub)%list_elem_of_fmap.
  rewrite any_false in Ea. specialize (Ea g Hg). by rewrite (proj2 (same_fact_spec f g)) in Ea.
Qed.

Lemma remove_first_distinct f l : NoDup (map fact_subject l) →
  remove_first (same_fact f) l = retain (λ g, negb (same_fact f g)) l.
Proof.
  induction l as [|g l IH]; [done|]. cbn [map remove_first]. rewrite retain_cons.
  intros [Hni Hnd]%NoDup_cons. destruct (same_fact f g) eqn:Es; cbn [negb]; [|by rewrite IH].
  symmetry. apply retain_all. intros h Hh. destruct (same_fact f h) eqn:Eh; [|done].
  apply same_fact_spec in Es, Eh. destruct Hni. rewrite Es, <-Eh. by apply list_elem_of_fmap_2.
Qed.

Lemma last_said_snoc l f :
  last_said (l ++ [f]) = retain (λ g, negb (same_fact f g)) (last_said l) ++ [f].
Proof.
  induction l as [|g l IH]; [done|]. cbn [app last_said]. rewrite IH.
  assert (any (same_fact g) (l ++ [f]) = any (same_fact g) l || same_fact f g) as ->.
  { unfold any. rewrite existsb_app. cbn. rewrite orb_false_r. f_equal.
    apply eq_true_iff_eq. rewrite !same_fact_spec. split; congruence. }
  destruct (any (same_fact g) l); [done|]. cbn [orb]. rewrite retain_cons.
  by destruct (same_fact f g).
Qed.

Lemma keep_facts l : foldl keep_fact [] l = last_said l.
Proof.
  induction l as [|f l IH] using rev_ind; [done|].
  rewrite foldl_app, IH, last_said_snoc. cbn [foldl]. unfold keep_fact.
  by rewrite remove_first_distinct by apply last_said_distinct.
Qed.

(** the facts of an episode are, of the facts the user states, the last
    about each subject, and of these the eight most recent: no two are about
    one subject. *)
Theorem mined_facts_are_last_said body date :
  let said := last_said (mined_facts (bytes_of body)) in
  extract_facts body date = map (date_fact date) (drop (length said - MAX_EXTRACTED_FACTS) said) ∧
  NoDup (map fact_subject (extract_facts body date)) ∧
  (length (extract_facts body date) <= MAX_EXTRACTED_FACTS)%nat.
Proof.
  intros said. unfold extract_facts. rewrite keep_facts. fold said. split; [done|]. split.
  - assert (map fact_subject (map (date_fact date) (drop (length said - MAX_EXTRACTED_FACTS) said))
            = drop (length said - MAX_EXTRACTED_FACTS) (map fact_subject said)) as ->.
    { rewrite map_map, <-skipn_map. f_equal. apply map_ext. intros f. by destruct date. }
    eapply sublist_NoDup; [apply last_said_distinct|apply sublist_drop].
  - rewrite length_map, length_drop. lia.
Qed.

Definition with_date (date : option string) (text : string) : string :=
  match date with
  | Some date => "[date " +:+ date +:+ "]" +:+ string_of_bytes [LF] +:+ text
  | None => text
  end.

(** only what the user says is mined: the body of a fact is a sentence of
    four words or more out of a line of the episode that no other role speaks,
    after the date if there is one, and the fact keeps the actor and the trust
    of its episode. *)
Theorem facts_quote_the_user episode date candidate :
  candidate ∈ extract_fact_candidates episode date →
  (∃ sentence, said_by_user (bytes_of (ep_body episode)) sentence ∧
     part_of sentence (bytes_of (ep_body episode)) ∧
     (MIN_FACT_SENTENCE_WORDS <= length (split_words [] sentence))%nat ∧
     cd_body candidate = with_date date (string_of_bytes sentence)) ∧
  cd_actor_id candidate = ep_actor_id episode ∧
  cd_trust_level candidate = ep_source_trust episode ∧ cd_target_unit_ids candidate = None.
Proof.
  unfold extract_fact_candidates, extract_facts. rewrite keep_facts.
  intros (fact & -> & (f & -> & Hf)%list_elem_of_fmap)%list_elem_of_fmap.
  split; [|done]. cbn [cd_body].
  apply (sublist_subseteq _ _ (sublist_drop _ _)), last_said_sub, mined_said in Hf
    as (sentence & Hs & Hb & Hw).
  exists sentence. split_and!; [done|by apply said_part|done|].
  rewrite <-Hb. by destruct date.
Qed.
End mining_facts.

(** ** Subjects *)

(** hedges and negations do not change what a preference is about: the
    match after the pronoun is the same with any of them before the verb. *)
Theorem hedges_keep_the_subject pronoun fillers tokens :
  is_word "i" pronoun = true → Forall (λ t, is_filler t = true) fillers →
  match_preference_verb (pronoun :: fillers ++ tokens) = match_preference_verb (pronoun :: tokens).
Proof.
  intros Hi Hf.
  assert (∀ t, is_filler t = true → is_word "i" t = false) as Hnot.
  { intros t Ht. unfold is_word. apply bool_decide_eq_false. intros E.
    unfold is_filler in Ht. rewrite E in Ht. by vm_compute in Ht. }
  assert (drop_while is_filler (fillers ++ tokens) = drop_while is_filler tokens) as Hd.
  { induction Hf as [|t fillers Ht _ IH]; [done|]. cbn [app drop_while]. by rewrite Ht. }
  assert (match_preference_verb (fillers ++ tokens) = match_preference_verb tokens) as Hm.
  { induction Hf as [|t fillers Ht Hts IH]; [done|]. cbn [app match_preference_verb].
    rewrite Hnot by done. apply IH. cbn [app drop_while] in Hd. by rewrite Ht in Hd. }
  cbn [match_preference_verb]. rewrite Hi. cbn [negb]. rewrite Hd, Hm. done.
Qed.

(** ** Cards *)

Lemma fit_lines_spec kept l : token_estimate kept <= MCP_COMPACT_TOKEN_CEILING →
  ∃ n, (n <= length l)%nat ∧ fit_lines kept l = foldl add_line kept (take n l) ∧
    token_estimate (fit_lines kept l) <= MCP_COMPACT_TOKEN_CEILING ∧
    ∀ line, l !! n = Some line →
      MCP_COMPACT_TOKEN_CEILING < token_estimate (add_line (fit_lines kept l) line).
Proof.
  revert kept. induction l as [|line l IH]; intros kept Hk; cbn [fit_lines].
  { exists 0%nat. split_and!; [done..|]. intros line. by rewrite lookup_nil. }
  destruct (N.ltb_spec MCP_COMPACT_TOKEN_CEILING (token_estimate (add_line kept line))) as [Hl|Hl].
  - exists 0%nat. split_and!; [cbn; lia|done..|]. by intros ? [= <-].
  - destruct (IH (add_line kept line) Hl) as (n & Hn & Hfit & Hsmall & Hnext).
    exists (S n). split_and!; [cbn; lia|done..].
Qed.

(** a captured body fits a card: what is kept is within the ceiling and is
    the whole body, or the longest run of its first lines within it and not
    blank; nothing is kept only where that run is blank. *)
Theorem capture_fits_a_card body :
  match fit_capture_body_to_ceiling body with
  | Some (kept, false) => kept = body ∧ conservative_token_estimate kept <= MCP_COMPACT_TOKEN_CEILING
  | kept =>
      MCP_COMPACT_TOKEN_CEILING < conservative_token_estimate body ∧
      ∃ n, let run := foldl add_line [] (take n (lines (bytes_of body))) in
        token_estimate run <= MCP_COMPACT_TOKEN_CEILING ∧
        (∀ line, lines (bytes_of body) !! n = Some line →
           MCP_COMPACT_TOKEN_CEILING < token_estimate (add_line run line)) ∧
        match kept with
        | Some (kept, _) => kept = string_of_bytes run ∧ trim run ≠ []
        | None => trim run = []
        end
  end.
Proof.
  unfold fit_capture_body_to_ceiling.
  destruct (N.leb_spec (conservative_token_estimate body) MCP_COMPACT_TOKEN_CEILING) as [Hs|Hl]; [done|].
  destruct (fit_lines_spec [] (lines (bytes_of body))) as (n & _ & Hrun & Hfit & Hnext);
    [by vm_compute|].
  destruct (trim (fit_lines [] _)) eqn:Et; cbn [is_empty]; (split; [done|]); exists n;
    rewrite <-Hrun; split_and!; try done; by rewrite Et.
Qed.
