(* ===== verification/Prepare.v ===== *)
(** * Prepare: the structured state of one reflect job

    [prepare_structured_state] of [crates/memphant-core/src/service.rs]: the
    source of the job is cut into evidence slices, the provider extracts
    observations batch by batch unless a prepared extraction is recorded for
    the job, and the observations are folded on the open units and projected
    into candidates.  Recording and fetching of the prepared extraction, which
    binds it to the batches and to the provider, are those of
    [crates/memphant-core/src/lib.rs].  The provider is an argument, the
    serialization of what is hashed an interface. *)

From S2P Require Import Prelude Text Types Float Clock Bitemporal Lineage Store Txn Stage Jobs Reads TextFacts Chunks.
From S2P Require Import Gate Compile Dates Decimal Structured StructuredFacts.

(** ** Operations on the store that may fail after they wrote *)

Definition Op (E A : Type) : Type := InMemoryState → InMemoryState * result E A.

Definition op_result {E A} (r : result E A) : Op E A := λ state, (state, r).
Definition op_bind {E A B} (m : Op E A) (k : A → Op E B) : Op E B := λ state,
  let '(state, r) := m state in
  match r with Ok a => k a state | Err e => (state, Err e) end.

Notation "x <~ m ; k" := (op_bind m (λ x, k))
  (at level 100, m at next level, right associativity) : mem_scope.

(** A read of the store. *)
Definition op_read {A} (f : InMemoryState → result StoreError.t A) : Op CoreError.t A :=
  λ state, (state, store_result (f state)).

(** ** The provider *)

Record StructuredStateProvider : Type := mkProvider {
  provider_identity : StructuredStateProviderIdentity;
  provider_plan_batches : StructuredSourceKind.t → string → list EvidenceSlice →
    result StructuredStateProviderError.t (list StructuredStateRequest);
  provider_extract : StructuredStateRequest →
    result StructuredStateProviderError.t (list StructuredObservation);
}.

(** The bytes that [serde_json] writes for the batches and for a receipt. *)
Class BatchJson := {
  batches_json : list StructuredStateRequest → string;
  receipt_json : StructuredStateProviderIdentity → StructuredStateRequest →
    list StructuredObservation → string;
}.

(** [to_string] of a provider error. *)
Definition provider_error_string (error : StructuredStateProviderError.t) : string :=
  match error with
  | StructuredStateProviderError.Unavailable why =>
      "structured-state provider unavailable: " +:+ why
  | StructuredStateProviderError.InvalidOutput why =>
      "structured-state provider returned invalid output: " +:+ why
  end.

(** The error of a call of the provider, and that of a check of its output. *)
Definition provider_call_error (error : StructuredStateProviderError.t) : CoreError.t :=
  match error with
  | StructuredStateProviderError.Unavailable message => CoreError.ProviderUnavailable message
  | StructuredStateProviderError.InvalidOutput message => CoreError.ProviderInvalid message
  end.
Definition provider_output_error (error : StructuredStateProviderError.t) : CoreError.t :=
  CoreError.ProviderInvalid (provider_error_string error).

(** [map_err]. *)
Definition map_err {E F A} (f : E → F) (r : result E A) : result F A :=
  match r with Ok a => Ok a | Err e => Err (f e) end.

Section prepare.
Context `{HashOrder} `{Jiff} `{Sha256} `{Calendar} `{SerdeJson} `{BatchJson} `{UnicodeAlphanumeric}.

(** ** Prepared extractions *)

Definition structured_input_manifest_sha256 (batches : list StructuredStateRequest) : string :=
  sha256_hex (batches_json batches).
Definition structured_extraction_receipt_sha256 (identity : StructuredStateProviderIdentity)
    (batch : StructuredStateRequest) (observations : list StructuredObservation) : string :=
  sha256_hex (receipt_json identity batch observations).

(** One packet against its batch, at its index. *)
Definition check_packet (identity : StructuredStateProviderIdentity)
    (indexed : nat * (StructuredStateRequest * StructuredExtractionPacket))
    : result StoreError.t () :=
  let '(index, (batch, packet)) := indexed in
  if negb (sr_batch_index batch =? N.of_nat index) || negb (pk_batch_index packet =? N.of_nat index)
  then Err (StoreError.Conflict "prepared structured-state extraction packet order changed")
  else if negb (bool_decide (pk_receipt_sha256 packet =
              structured_extraction_receipt_sha256 identity batch (pk_observations packet)))
  then Err (StoreError.Conflict "prepared structured-state extraction receipt changed")
  else Ok ().

Definition validate_prepared_structured_state_binding
    (expected_batches : list StructuredStateRequest) (identity : StructuredStateProviderIdentity)
    (input_manifest_sha256 : string) (extraction_packets : list StructuredExtractionPacket)
    : result StoreError.t () :=
  if any (λ '(index, batch), negb (sr_batch_index batch =? N.of_nat index))
       (imap pair expected_batches)
  then Err (StoreError.Conflict "structured-state input batches are not in canonical index order")
  else if negb (bool_decide (input_manifest_sha256 =
                             structured_input_manifest_sha256 expected_batches))
  then Err (StoreError.Conflict "prepared structured-state input manifest changed")
  else if negb (length extraction_packets =? length expected_batches)%nat
  then Err (StoreError.Conflict "prepared structured-state extraction packet count changed")
  else try_fold (λ _ indexed, check_packet identity indexed) ()
         (imap pair (zip expected_batches extraction_packets)).

Definition job_key (claim : ReflectJobRow) : TenantId * JobId :=
  (qj_tenant_id (jr_job claim), qj_id (jr_job claim)).

Definition fetch_prepared_structured_state (claim : ReflectJobRow)
    (expected_batches : list StructuredStateRequest) (identity : StructuredStateProviderIdentity)
    (state : InMemoryState) : result StoreError.t (option (list StructuredExtractionPacket)) :=
  if negb (claim_is_current state claim) then Ok None
  else match st_prepared_structured_state state !! job_key claim with
       | Some (ReflectJobResult.Prepared input_manifest_sha256 extraction_packets) =>
           _ <-? validate_prepared_structured_state_binding expected_batches identity
                   input_manifest_sha256 extraction_packets;
           Ok (Some extraction_packets)
       | Some (ReflectJobResult.Completed _) | None => Ok None
       end.

(** [entry(key).or_insert(value)]. *)
Definition or_insert {K V} `{Countable K} (key : K) (value : V) (m : gmap K V) : gmap K V :=
  match m !! key with Some _ => m | None => <[key := value]> m end.

Definition store_prepared_structured_state (claim : ReflectJobRow)
    (expected_batches : list StructuredStateRequest) (identity : StructuredStateProviderIdentity)
    (extraction_packets : list StructuredExtractionPacket)
    (state : InMemoryState) : InMemoryState * result StoreError.t () :=
  let input_manifest_sha256 := structured_input_manifest_sha256 expected_batches in
  match validate_prepared_structured_state_binding expected_batches identity input_manifest_sha256
          extraction_packets with
  | Err e => (state, Err e)
  | Ok _ =>
      if negb (claim_is_current state claim) then (state, Ok ())
      else (state <| st_prepared_structured_state ::=
                       or_insert (job_key claim)
                         (ReflectJobResult.Prepared input_manifest_sha256 extraction_packets) |>,
            Ok ())
  end.

(** ** The sources of a job *)

(** The chunks are made under a fresh identifier, which no slice carries. *)
Definition structured_state_slices_for_resource (body : string)
    : result StructuredStateProviderError.t (list EvidenceSlice) :=
  evidence_slices_for_resource body
    (resource_contextual_chunks 0 (bytes_of "census://resource") (bytes_of body)).

Record PreparedSource : Set := mkPreparedSource {
  pp_source_kind : StructuredSourceKind.t;
  pp_local_source_id : string;
  pp_source_body : string;
  pp_evidence_slices : list EvidenceSlice;
}.

(** [resource.body.filter(|body| !body.trim().is_empty())]. *)
Definition nonblank_body (resource : StoredResource) : option string :=
  body ← re_body resource; if trim_is_empty body then None else Some body.

Definition structured_source (job : QueuedReflectJob) (context : ResolvedMemoryContext)
    (state : InMemoryState) : result CoreError.t (option PreparedSource) :=
  match qj_kind job with
  | ReflectJobKind.ReflectEpisode =>
      match qj_episode_id job with
      | None => Ok None
      | Some episode_id =>
          found <-? store_result (fetch_episode state context episode_id);
          match found with
          | None => Ok None
          | Some episode =>
              slices <-? map_err provider_output_error (evidence_slices_for_episode (ep_body episode));
              Ok (Some (mkPreparedSource StructuredSourceKind.Episode (uuid_string episode_id)
                          (ep_body episode) slices))
          end
      end
  | ReflectJobKind.ReflectResource =>
      match qj_resource_id job with
      | None => Ok None
      | Some resource_id =>
          found <-? store_result (fetch_resource state context resource_id);
          match resource ← found; nonblank_body resource with
          | None => Ok None
          | Some body =>
              slices <-? map_err provider_output_error (structured_state_slices_for_resource body);
              Ok (Some (mkPreparedSource StructuredSourceKind.Resource (uuid_string resource_id)
                          body slices))
          end
      end
  | ReflectJobKind.ReflectScope => Ok None
  end.

(** ** The preparation *)

Definition check_observations (source_body : string) (batch : StructuredStateRequest)
    (observations : list StructuredObservation) : result CoreError.t () :=
  map_err provider_output_error
    (validate_structured_observations_for_request source_body batch observations).

Definition extract_packet (provider : StructuredStateProvider) (source_body : string)
    (batch : StructuredStateRequest) : result CoreError.t StructuredExtractionPacket :=
  observations <-? map_err provider_call_error (provider_extract provider batch);
  _ <-? check_observations source_body batch observations;
  Ok (mkPacket (sr_batch_index batch)
        (structured_extraction_receipt_sha256 (provider_identity provider) batch observations)
        observations).

(** The recorded packets, or those of the provider, which are recorded. *)
Definition extraction_packets_of (provider : StructuredStateProvider) (job : ReflectJobRow)
    (source_body : string) (batches : list StructuredStateRequest)
    : Op CoreError.t (list StructuredExtractionPacket) :=
  found <~ op_read (fetch_prepared_structured_state job batches (provider_identity provider));
  match found with
  | Some prepared => op_result (Ok prepared)
  | None =>
      packets <~ op_result (try_map (extract_packet provider source_body) batches);
      _ <~ (λ state, let '(state, r) := store_prepared_structured_state job batches
                                           (provider_identity provider) packets state in
                      (state, store_result r));
      op_result (Ok packets)
  end.

(** The fold on the open units and its projection. *)
Definition project_observations (source : PreparedSource) (request : StructuredStateRequest)
    (observations : list StructuredObservation) (units : list StoredMemoryUnit)
    : result StructuredStateProviderError.t (list ProjectedStructuredState) :=
  operations <-? fold_structured_observations (pp_source_body source) request observations
                   (omap active_structured_state units);
  project_structured_state (pp_source_kind source) (pp_local_source_id source)
    (pp_source_body source) operations.

Definition prepare_structured_state (structured_state_provider : option StructuredStateProvider)
    (job : ReflectJobRow) (context : ResolvedMemoryContext)
    : Op CoreError.t (list ProjectedStructuredState) :=
  match structured_state_provider with
  | None => op_result (Ok [])
  | Some provider => λ state,
      match structured_source (jr_job job) context state with
      | Err e => (state, Err e)
      | Ok None => (state, Ok [])
      | Ok (Some source) =>
          let source_body := pp_source_body source in
          let source_body_sha256 := sha256_hex source_body in
          let request := mkStructuredStateRequest (pp_source_kind source) source_body_sha256 0
                           (pp_evidence_slices source) in
          (batches <~ op_result (map_err provider_call_error
              (provider_plan_batches provider (pp_source_kind source) source_body_sha256
                 (pp_evidence_slices source)));
           packets <~ extraction_packets_of provider job source_body batches;
           _ <~ op_result (try_fold (λ _ '(batch, packet),
               check_observations source_body batch (pk_observations packet)) ()
               (zip batches packets));
           units <~ op_read (λ state, fetch_scope_open_units state context);
           op_result (map_err provider_output_error
             (project_observations source request (concat (map pk_observations packets)) units)))
          state
      end
  end.
End prepare.

(** * An extraction is checked, recorded once and reused

    Only the complete, checked extraction of a current claim is recorded, and
    once it is recorded the preparation of the job no longer asks the provider:
    a redelivered job sees the structured state it saw before. *)

(** ** The monad of operations *)

Lemma op_bind_ok {E A B} (m : Op E A) (k : A → Op E B) s s' b :
  op_bind m k s = (s', Ok b) ↔ ∃ s1 a, m s = (s1, Ok a) ∧ k a s1 = (s', Ok b).
Proof.
  unfold op_bind. destruct (m s) as [s1 [a|e]].
  - split; [intros Hk; by exists s1, a|]. by intros (s2 & a2 & [= <- <-] & ?).
  - split; [done|]. by intros (s2 & a2 & [=] & ?).
Qed.

Lemma op_read_ok {A} (f : InMemoryState → result StoreError.t A) s s' a :
  op_read f s = (s', Ok a) ↔ s' = s ∧ f s = Ok a.
Proof.
  unfold op_read. destruct (f s); cbn; split; try (by intros [= -> ->]); by intros [-> [= ->]].
Qed.

Lemma op_result_ok {E A} (r : result E A) s s' a :
  op_result r s = (s', Ok a) ↔ s' = s ∧ r = Ok a.
Proof. unfold op_result. split; [by intros [= -> ->]|by intros [-> ->]]. Qed.

Lemma map_err_ok {E F A} (f : E → F) (r : result E A) a : map_err f r = Ok a ↔ r = Ok a.
Proof. destruct r; cbn; split; congruence. Qed.

Lemma store_result_ok {A} (r : result StoreError.t A) a : store_result r = Ok a ↔ r = Ok a.
Proof. destruct r; cbn; split; congruence. Qed.

Section prepare_facts.
Context `{HashOrder} `{Jiff} `{Sha256} `{Calendar} `{SerdeJson} `{BatchJson} `{UnicodeAlphanumeric}.

(** ** What is recorded *)

(** The packet of a batch holds what the provider said, checked against the
    source, with its receipt. *)
Definition checked_packet (provider : StructuredStateProvider) (source_body : string)
    (batch : StructuredStateRequest) (packet : StructuredExtractionPacket) : Prop :=
  provider_extract provider batch = Ok (pk_observations packet) ∧
  validate_structured_observations_for_request source_body batch (pk_observations packet) = Ok () ∧
  pk_batch_index packet = sr_batch_index batch ∧
  pk_receipt_sha256 packet =
    structured_extraction_receipt_sha256 (provider_identity provider) batch (pk_observations packet).

Lemma extract_packet_checked provider body batch packet :
  extract_packet provider body batch = Ok packet → checked_packet provider body batch packet.
Proof.
  unfold extract_packet. intros (obs & He%map_err_ok & Hok)%result_bind_ok.
  apply result_bind_ok in Hok as ([] & Hc%map_err_ok & [= <-]). done.
Qed.

(** The state after an extraction is recorded under the job. *)
Definition record_extraction (job : ReflectJobRow) (batches : list StructuredStateRequest)
    (packets : list StructuredExtractionPacket) (state : InMemoryState) : InMemoryState :=
  state <| st_prepared_structured_state ::=
    <[job_key job := ReflectJobResult.Prepared (structured_input_manifest_sha256 batches) packets]> |>.

Lemma store_prepared_cases job batches identity packets s :
  let '(s', r) := store_prepared_structured_state job batches identity packets s in
  s' = s ∨
  (s' = record_extraction job batches packets s ∧ claim_is_current s job = true ∧
   st_prepared_structured_state s !! job_key job = None ∧ r = Ok () ∧
   validate_prepared_structured_state_binding batches identity
     (structured_input_manifest_sha256 batches) packets = Ok ()).
Proof.
  unfold store_prepared_structured_state.
  destruct (validate_prepared_structured_state_binding _ _ _ _) as [[]|e] eqn:Ev; [|by left].
  destruct (claim_is_current s job) eqn:Ec; cbn [negb]; [|by left].
  unfold or_insert. destruct (st_prepared_structured_state s !! job_key job) as [v|] eqn:El.
  - left. destruct s. cbn in El |- *. unfold update_field. cbn. by rewrite El.
  - right. unfold record_extraction. split_and!; try done. unfold update_field. cbn. by rewrite El.
Qed.

Lemma record_source job batches packets context state :
  structured_source (jr_job job) context (record_extraction job batches packets state) =
  structured_source (jr_job job) context state.
Proof. reflexivity. Qed.

Lemma fetch_recorded job batches identity packets s :
  claim_is_current s job = true →
  validate_prepared_structured_state_binding batches identity
    (structured_input_manifest_sha256 batches) packets = Ok () →
  fetch_prepared_structured_state job batches identity (record_extraction job batches packets s) =
  Ok (Some packets).
Proof.
  intros Hc Hv. unfold fetch_prepared_structured_state.
  change (claim_is_current (record_extraction job batches packets s) job) with (claim_is_current s job).
  rewrite Hc. cbn [negb].
  change (st_prepared_structured_state (record_extraction job batches packets s)) with
    (<[job_key job := ReflectJobResult.Prepared (structured_input_manifest_sha256 batches) packets]>
       (st_prepared_structured_state s)).
  rewrite lookup_insert_eq, Hv. done.
Qed.

(** How the packets of a preparation come about. *)
Lemma extraction_packets_cases provider job body batches s s' r :
  extraction_packets_of provider job body batches s = (s', r) →
  s' = s ∨ ∃ packets, Forall2 (checked_packet provider body) batches packets ∧
    claim_is_current s job = true ∧ st_prepared_structured_state s !! job_key job = None ∧
    s' = record_extraction job batches packets s.
Proof.
  unfold extraction_packets_of, op_bind, op_read, op_result.
  destruct (store_result _) as [[prepared|]|e]; [by intros [= -> _]; left| |by intros [= -> _]; left].
  destruct (try_map _ batches) as [packets|e] eqn:Em; [|by intros [= -> _]; left].
  pose proof (store_prepared_cases job batches (provider_identity provider) packets s) as Hs.
  destruct (store_prepared_structured_state _ _ _ _ _) as [s1 r1].
  assert (Forall2 (checked_packet provider body) batches packets) as Hp.
  { eapply Forall2_impl; [exact (try_map_Forall2 _ _ _ Em)|]. intros b p. apply extract_packet_checked. }
  destruct (store_result r1); intros [= <- _];
    (destruct Hs as [->|(-> & Hc & Hn & _)]; [by left|right; by exists packets]).
Qed.

(** only a checked extraction is recorded: a preparation leaves the store as
    it is, whatever the provider answers and whatever fails, or records under
    the job of a current claim, which had none, one packet for each batch of
    its source, each the provider's answer that the checks against the source
    passed, with its receipt. *)
Theorem recorded_extractions_are_checked provider job context s s' r :
  prepare_structured_state (Some provider) job context s = (s', r) →
  s' = s ∨ ∃ source batches packets,
    structured_source (jr_job job) context s = Ok (Some source) ∧
    provider_plan_batches provider (pp_source_kind source) (sha256_hex (pp_source_body source))
      (pp_evidence_slices source) = Ok batches ∧
    Forall2 (checked_packet provider (pp_source_body source)) batches packets ∧
    claim_is_current s job = true ∧ st_prepared_structured_state s !! job_key job = None ∧
    s' = record_extraction job batches packets s.
Proof.
  unfold prepare_structured_state.
  destruct (structured_source _ _ _) as [[source|]|e]; [|by intros [= <- _]; left..].
  unfold op_bind at 1, op_result at 1.
  destruct (provider_plan_batches _ _ _ _) as [batches|e] eqn:Eb; cbn [map_err];
    [|by intros [= <- _]; left].
  unfold op_bind at 1. destruct (extraction_packets_of _ _ _ _ _) as [s1 r1] eqn:Ex.
  intros Hrest. assert (s' = s1) as ->.
  { destruct r1 as [packets|e]; [|by injection Hrest as <- _].
    unfold op_bind, op_result, op_read in Hrest. destruct (try_fold _ _ _); [|by injection Hrest as <- _].
    destruct (store_result _); by injection Hrest as <- _. }
  destruct (extraction_packets_cases _ _ _ _ _ _ _ Ex) as [->|(packets & Hp & Hc & Hn & ->)]; [by left|].
  right. by exists source, batches, packets.
Qed.

(** After an extraction came out under a current claim it is there to fetch. *)
Lemma extraction_recorded provider job body batches s s' packets :
  claim_is_current s job = true →
  (∀ trace, st_prepared_structured_state s !! job_key job ≠ Some (ReflectJobResult.Completed trace)) →
  extraction_packets_of provider job body batches s = (s', Ok packets) →
  claim_is_current s' job = true ∧
  fetch_prepared_structured_state job batches (provider_identity provider) s' = Ok (Some packets).
Proof.
  intros Hc Hnot. unfold extraction_packets_of.
  intros (s1 & found & [-> Hf]%op_read_ok & Hrest)%op_bind_ok.
  destruct found as [prepared|].
  - by apply op_result_ok in Hrest as [-> [= ->]].
  - apply op_bind_ok in Hrest as (s1 & ps & [-> _]%op_result_ok & Hrest).
    apply op_bind_ok in Hrest as (s1 & [] & Hs & Hrest). apply op_result_ok in Hrest as [-> [= ->]].
    pose proof (store_prepared_cases job batches (provider_identity provider) packets s) as Hcases.
    destruct (store_prepared_structured_state _ _ _ _ _) as [s2 r2] eqn:Est.
    destruct r2; [|done]. injection Hs as ->.
    destruct Hcases as [->|(-> & _ & _ & _ & Hv)].
    + exfalso. unfold store_prepared_structured_state in Est.
      destruct (validate_prepared_structured_state_binding _ _ _ _); [|done].
      rewrite Hc in Est. cbn [negb] in Est. injection Est as Est.
      apply (f_equal (λ st, st_prepared_structured_state st !! job_key job)) in Est.
      unfold fetch_prepared_structured_state in Hf. rewrite Hc in Hf. cbn [negb] in Hf.
      unfold update_field, or_insert in Est. cbn in Est.
      destruct (st_prepared_structured_state s !! job_key job) as [[m ps|trace]|] eqn:El.
      * destruct (validate_prepared_structured_state_binding _ _ _ _); done.
      * by eapply Hnot.
      * by rewrite lookup_insert_eq in Est.
    + split; [exact Hc|]. by apply fetch_recorded.
Qed.

(** What a claim may fetch depends on its being current and on the entry of
    its job. *)
Lemma fetch_redelivered job job2 batches identity s s2 :
  jr_job job2 = jr_job job → claim_is_current s job = true → claim_is_current s2 job2 = true →
  st_prepared_structured_state s2 !! job_key job = st_prepared_structured_state s !! job_key job →
  fetch_prepared_structured_state job2 batches identity s2 =
  fetch_prepared_structured_state job batches identity s.
Proof.
  intros Hjob Hc Hc2 He. unfold fetch_prepared_structured_state. rewrite Hc, Hc2. cbn [negb].
  assert (job_key job2 = job_key job) as -> by (unfold job_key; by rewrite Hjob). by rewrite He.
Qed.

(** The request that the observations of a source are folded for. *)
Definition source_request (source : PreparedSource) : StructuredStateRequest :=
  mkStructuredStateRequest (pp_source_kind source) (sha256_hex (pp_source_body source)) 0
    (pp_evidence_slices source).

(** The structured state of recorded packets on the open units of a store. *)
Definition restated (source : PreparedSource) (packets : list StructuredExtractionPacket)
    (context : ResolvedMemoryContext) (s : InMemoryState)
    : result CoreError.t (list ProjectedStructuredState) :=
  units <-? store_result (fetch_scope_open_units s context);
  map_err provider_output_error
    (project_observations source (source_request source) (concat (map pk_observations packets)) units).

(** Claiming, releasing, failing and completing jobs keep every recorded
    extraction and every source. *)
Lemma queue_keeps_extractions s s' : queue_step s s' →
  (∀ claim version, s' ≠ (requeue_reflect_job_with_compiler claim version s).1) →
  st_prepared_structured_state s' = st_prepared_structured_state s ∧
  ∀ job context, structured_source job context s' = structured_source job context s.
Proof.
  assert (∀ id f s, st_prepared_structured_state (set_meta id f s) = st_prepared_structured_state s ∧
    ∀ job context, structured_source job context (set_meta id f s) = structured_source job context s)
    as Hset by done.
  intros Hstep Hno. destruct Hstep as [filter limit|claim|claim v|claim|claim].
  - unfold claim_reflect_jobs. generalize (candidates s filter limit). clear Hno. intros jobs.
    revert s. induction jobs as [|job jobs IH]; intros s; [done|]. cbn [claim_all].
    specialize (IH (set_meta (qj_id job) claim_meta s)).
    destruct (claim_all jobs _) as [s1 rows]. exact IH.
  - unfold complete_reflect_job. destruct (_ && _)%bool; [done|]. by destruct (negb _).
  - by destruct (Hno claim v).
  - unfold release_reflect_job. by destruct (negb _).
  - unfold fail_reflect_job. by destruct (negb _).
Qed.

(** C37: a redelivered job asks the provider nothing.  Once a preparation under a
    current claim came out of a source, its packets are recorded; from then on,
    in every store that still has the source and the entry of the job, and
    under every current claim of the job, whatever its token, and in any context
    of it, a preparation changes nothing and gives the structured state of the
    same packets on the open units of that store - whatever a provider of the
    same identity and plan would answer. *)
Theorem prepared_state_survives_redelivery provider job context s s' source projected :
  prepare_structured_state (Some provider) job context s = (s', Ok projected) →
  claim_is_current s job = true →
  (∀ trace, st_prepared_structured_state s !! job_key job ≠ Some (ReflectJobResult.Completed trace)) →
  structured_source (jr_job job) context s = Ok (Some source) →
  ∃ packets, restated source packets context s' = Ok projected ∧
    ∀ provider' job2 context2 s2,
      provider_identity provider' = provider_identity provider →
      provider_plan_batches provider' = provider_plan_batches provider →
      jr_job job2 = jr_job job → claim_is_current s2 job2 = true →
      structured_source (jr_job job) context2 s2 = Ok (Some source) →
      st_prepared_structured_state s2 !! job_key job = st_prepared_structured_state s' !! job_key job →
      prepare_structured_state (Some provider') job2 context2 s2 =
        (s2, restated source packets context2 s2).
Proof.
  intros Hok Hc Hnot Hs. revert Hok. unfold prepare_structured_state at 1. rewrite Hs.
  intros (s1 & batches & [-> Hb]%op_result_ok & Hok)%op_bind_ok.
  apply op_bind_ok in Hok as (s1 & packets & Hx & Hok).
  apply op_bind_ok in Hok as (s2 & [] & [-> Hcheck]%op_result_ok & Hok).
  apply op_bind_ok in Hok as (s2 & units & [-> Hunits]%op_read_ok & Hok).
  apply op_result_ok in Hok as [-> Hproj].
  destruct (extraction_recorded _ _ _ _ _ _ _ Hc Hnot Hx) as [Hc1 Hfetch].
  exists packets. unfold restated. split; [by rewrite Hunits|].
  intros provider' job2 context2 s2 Hid Hplan Hjob Hc2 Hs2 Hentry.
  unfold prepare_structured_state. rewrite Hjob, Hs2, Hplan.
  unfold op_bind at 1. rewrite Hb. unfold op_result at 1.
  unfold extraction_packets_of, op_bind at 1. unfold op_bind at 1, op_read at 1.
  rewrite Hid, (fetch_redelivered job job2 _ _ s1 s2 Hjob Hc1 Hc2 Hentry), Hfetch.
  cbn [store_result]. unfold op_result at 1.
  unfold op_bind at 1, op_result at 1. rewrite Hcheck.
  unfold op_bind, op_read, op_result. by destruct (fetch_scope_open_units s2 context2).
Qed.
End prepare_facts.
