(* ===== verification/Reflect.v ===== *)
(** * Reflect: compiling the jobs of a worker

    [compile_job] of [crates/memphant-core/src/service.rs]: the candidates of a
    claimed job are made from its source - a capture, the raw episode with its
    mined facts and its structured state, or a resource -, phrases are given the
    subject of the open unit they restate, the write compiler runs, and the
    captures are cross-checked.  The tick that runs claimed jobs is in Worker. *)

From S2P Require Import Prelude Text Types Float Clock Bitemporal Lineage Store Txn Stage Jobs Binding.
From S2P Require Import Reads Capture Chunks Gate Dates Decimal Compile Structured Mining Prepare.

Module ServiceError.
Inductive t : Set :=
| Core (error : CoreError.t)
| Invalid (why : string)
| SyncInvalid (why : string)
| SyncConflict (why : string)
| ProjectionTooLarge (max_bytes : N).
End ServiceError.

Definition op_core {A} (m : Op CoreError.t A) : Op ServiceError.t A := λ state,
  let '(state, r) := m state in (state, map_err ServiceError.Core r).

Definition COMPILER_VERSION : string := "compiler-0.1.0-ws0".

(** The settings of the service that the reflect path reads. *)
Record MemoryService : Type := mkMemoryService {
  sv_structured_state_provider : option StructuredStateProvider;
  sv_temporal_grounding_enabled : bool;
  sv_contextual_chunks_write_enabled : bool;
  sv_resource_chunks_write_enabled : bool;
  sv_fact_extraction_enabled : bool;
  sv_subject_resolution_threshold : option f32;
  sv_capture_crosscheck_enabled : bool;
}.

Definition structured_projection_kind (namespace : string) : option MemoryKind.t :=
  if bool_decide (namespace ∈ ["workflow"; "procedure"; "gotcha"])
  then Some MemoryKind.Procedural else None.

(** ** Subjects of phrases *)

(** An open unit with a subject of its own: family, phrase and key. *)
Record OpenSubject : Set := mkOpenSubject {
  os_family : string;
  os_phrase : string;
  os_fact_key : string;
}.

(** Strings of more than no character. *)
Definition non_empty (value : option string) : option string :=
  value ← value; if bool_decide (value = String.EmptyString) then None else Some value.

Definition open_subject (scope_id : ScopeId) (unit : StoredMemoryUnit) : option OpenSubject :=
  if negb (bool_decide (mu_state unit = UnitState.Active)) then None
  else
    fact_key ← mu_fact_key unit;
    rest ← strip_pat (bytes_of (uuid_string scope_id +:+ ":")) (bytes_of fact_key);
    '(family, _) ← split_once [58] rest;
    let family := string_of_bytes family in
    if bool_decide (family = "auto") then None
    else
      phrase ← non_empty (mu_predicate unit);
      Some (mkOpenSubject family phrase fact_key).

Definition alias_eligible (candidate : ReflectCandidate) : bool :=
  negb (is_some (cd_fact_key candidate)) && negb (is_some (cd_target_unit_ids candidate)) &&
  is_some (cd_subject candidate) && is_some (non_empty (cd_predicate candidate)).

Definition better_alias (best : option (f32 * string)) (current : f32 * string)
    : option (f32 * string) :=
  match best with
  | Some best =>
      if match f32_partial_cmp best.1 current.1 with
         | Some Gt => true
         | Some Eq => negb (is_gt (str_cmp best.2 current.2))
         | _ => false
         end
      then Some best else Some current
  | None => Some current
  end.

(** The key a phrase adopts, among those of its family that nobody claims. *)
Definition best_alias (threshold : f32) (existing : list (OpenSubject * list f32))
    (claimed : gset string) (candidate : ReflectCandidate) (vector : list f32) : option string :=
  let family := match cd_subject candidate with
                | Some subject => underscored (normalize_component subject)
                | None => String.EmptyString
                end in
  let phrase := default String.EmptyString (cd_predicate candidate) in
  let open :=
    retain (λ '(subject, _), bool_decide (os_family subject = family) &&
              negb (bool_decide (os_phrase subject = phrase)) &&
              negb (bool_decide (os_fact_key subject ∈ claimed))) existing in
  let scored :=
    retain (λ '(score, _), f32_ge score threshold)
      (map (λ '(subject, existing_vector),
          (cosine_similarity vector existing_vector, os_fact_key subject)) open) in
  snd <$> foldl better_alias None scored.

#[export] Instance ReflectCandidate_eta : Eta ReflectCandidate := λ r,
  mkCandidate (cd_source_kind r) (cd_trust_level r) (cd_actor_id r) (cd_subject r)
    (cd_predicate r) (cd_fact_key r) (cd_kind r) (cd_body r) (cd_confidence r)
    (cd_churn_class r) (cd_admission_hint r) (cd_contextual_chunks r) (cd_valid_from r)
    (cd_valid_to r) (cd_target_unit_ids r) (cd_compact r) (cd_capture r).

(** One eligible candidate, at its index and with its vector. *)
Definition resolve_alias (threshold : f32) (existing : list (OpenSubject * list f32))
    (acc : list ReflectCandidate * gset string) (slot : nat * list f32)
    : list ReflectCandidate * gset string :=
  let '(candidates, claimed) := acc in
  let '(index, vector) := slot in
  match candidates !! index with
  | None => acc
  | Some candidate =>
      match best_alias threshold existing claimed candidate vector with
      | None => acc
      | Some fact_key =>
          (alter (λ c, c <| cd_fact_key := Some fact_key |>) index candidates,
           {[fact_key]} ∪ claimed)
      end
  end.

Section reflect_job.
Context `{HashOrder} `{Jiff} `{Sha256} `{Calendar} `{SerdeJson} `{BatchJson} `{UnicodeAlphanumeric}.
Context `{StrDebug} `{EmbeddingProvider} `{PolicyJson} (a_recency_control_enabled : bool).
Context (new_unit_id : nat → UnitId) (new_edge_id : nat → EdgeId) (new_citation_id : nat → Uuid).

Definition owned_key (scope_id : ScopeId) (candidate : ReflectCandidate) : string :=
  match cd_fact_key candidate with
  | Some key => key
  | None => derive_fact_key scope_id (cd_subject candidate) (cd_predicate candidate)
              (cd_body candidate)
  end.

Definition eligible_indices (candidates : list ReflectCandidate) : list nat :=
  map fst (retain (λ '(_, candidate), alias_eligible candidate) (imap pair candidates)).

Definition resolve_subject_aliases (subject_resolution_threshold : option f32)
    (context : ResolvedMemoryContext) (candidates : list ReflectCandidate)
    (state : InMemoryState) : result ServiceError.t (list ReflectCandidate) :=
  match subject_resolution_threshold with
  | None => Ok candidates
  | Some threshold =>
      if dimensions =? 0 then Ok candidates
      else
        let eligible := eligible_indices candidates in
        if is_empty eligible then Ok candidates
        else
          units <-? map_err (λ e, ServiceError.Core (CoreError.Store e))
                      (fetch_scope_open_units state context);
          let existing := omap (open_subject (cx_scope_id context)) units in
          if is_empty existing then Ok candidates
          else
            let texts :=
              map (λ index, default String.EmptyString
                              (candidate ← candidates !! index; cd_predicate candidate)) eligible ++
              map os_phrase existing in
            match embed texts with
            | Err error => Err (ServiceError.Invalid ("subject embedding failed: " +:+ error))
            | Ok vectors =>
                if negb (length vectors =? length texts)%nat then Ok candidates
                else
                  let claimed :=
                    list_to_set (map (owned_key (cx_scope_id context)) candidates) in
                  let subjects := zip existing (drop (length eligible) vectors) in
                  Ok (fst (foldl (resolve_alias threshold subjects) (candidates, claimed)
                             (zip eligible (take (length eligible) vectors))))
            end
  end.

(** ** The candidates of a job *)

(** What is compiled: the source of the job and its candidates. *)
Record JobInput : Set := mkJobInput {
  ji_episode_id : option EpisodeId;
  ji_resource_id : option ResourceId;
  ji_source_ref : string;
  ji_observed_at : string;
  ji_source_body : option string;
  ji_candidates : list ReflectCandidate;
}.

Definition source_candidate (source_kind : string) (trust_level : TrustLevel.t)
    (actor_id : ActorId) (subject predicate : option string) (kind : option MemoryKind.t)
    (body : string) (chunks : list ContextualChunk) (valid_from : option string)
    : ReflectCandidate := {|
  cd_source_kind := source_kind;
  cd_trust_level := trust_level;
  cd_actor_id := actor_id;
  cd_subject := subject;
  cd_predicate := predicate;
  cd_fact_key := None;
  cd_kind := kind;
  cd_body := body;
  cd_confidence := None;
  cd_churn_class := None;
  cd_admission_hint := None;
  cd_contextual_chunks := chunks;
  cd_valid_from := valid_from;
  cd_valid_to := None;
  cd_target_unit_ids := None;
  cd_compact := None;
  cd_capture := None;
|}.

Definition projection_candidate (source_kind : string) (trust_level : TrustLevel.t)
    (actor_id : ActorId) (projection : ProjectedStructuredState) : ReflectCandidate := {|
  cd_source_kind := source_kind;
  cd_trust_level := trust_level;
  cd_actor_id := actor_id;
  cd_subject := Some (ps_subject projection);
  cd_predicate := Some (ps_predicate projection);
  cd_fact_key := None;
  cd_kind := structured_projection_kind (ps_subject projection);
  cd_body := ps_body projection;
  cd_confidence := None;
  cd_churn_class := None;
  cd_admission_hint := ps_admission_hint projection;
  cd_contextual_chunks := ps_contextual_chunks projection;
  cd_valid_from := ps_valid_from projection;
  cd_valid_to := ps_valid_to projection;
  cd_target_unit_ids := ps_target_unit_ids projection;
  cd_compact := None;
  cd_capture := None;
|}.

(** The date of an episode: for the headers, and as an instant; without one
    the instant is the first observation. *)
Definition content_date_of (service : MemoryService) (episode : StoredEpisode)
    : option string * option string :=
  if sv_temporal_grounding_enabled service then
    match parse_content_date (bytes_of (ep_body episode)) with
    | Some date => (Some (date_string date), Some (midnight_utc date))
    | None => (None, Some (ep_first_observed_at episode))
    end
  else (None, None).

Definition episode_candidates (service : MemoryService) (job : QueuedReflectJob)
    (episode : StoredEpisode) : list ReflectCandidate :=
  let '(content_date_header, valid_from) := content_date_of service episode in
  let contextual_chunks :=
    if sv_contextual_chunks_write_enabled service
    then episode_contextual_chunks (ep_id episode) (ep_source_kind episode)
           (bytes_of (ep_body episode)) content_date_header
    else [] in
  source_candidate (ep_source_kind episode) (ep_source_trust episode) (ep_actor_id episode)
    (qj_subject job) (qj_predicate job) (Some MemoryKind.Episodic) (ep_body episode)
    contextual_chunks valid_from ::
  (if sv_fact_extraction_enabled service
   then extract_fact_candidates episode content_date_header else []).

Definition resource_candidates (service : MemoryService) (resource : StoredResource)
    (body : string) : list ReflectCandidate :=
  let contextual_chunks :=
    if sv_resource_chunks_write_enabled service &&
       bool_decide (re_kind resource = ResourceKind.Document)
    then resource_contextual_chunks (re_id resource) (bytes_of (re_uri resource)) (bytes_of body)
    else [] in
  [source_candidate "resource" (re_source_trust resource) (re_actor_id resource) None None
     (Some MemoryKind.Resource) body contextual_chunks None].

(** The structured state that was prepared, or is prepared now. *)
Definition structured_candidates (service : MemoryService) (job : ReflectJobRow)
    (context : ResolvedMemoryContext)
    (prepared_structured_state : option (list ProjectedStructuredState)) (source_kind : string)
    (trust_level : TrustLevel.t) (actor_id : ActorId) : Op ServiceError.t (list ReflectCandidate) :=
  match sv_structured_state_provider service with
  | None => op_result (Ok [])
  | Some _ =>
      projections <~ match prepared_structured_state with
                      | Some projections => op_result (Ok projections)
                      | None => op_core (prepare_structured_state
                                           (sv_structured_state_provider service) job context)
                      end;
      op_result (Ok (map (projection_candidate source_kind trust_level actor_id) projections))
  end.

Definition op_store {A} (f : InMemoryState → result StoreError.t A) : Op ServiceError.t A :=
  op_core (op_read f).

(** [None]: the source is gone or has no text, and there is nothing to do. *)
Definition job_input (service : MemoryService) (now : string) (job : ReflectJobRow)
    (context : ResolvedMemoryContext)
    (prepared_structured_state : option (list ProjectedStructuredState))
    : Op ServiceError.t (option JobInput) :=
  let queued := jr_job job in
  match qj_kind queued with
  | ReflectJobKind.ReflectEpisode =>
      match qj_episode_id queued with
      | None => op_result (Ok None)
      | Some episode_id =>
          found <~ op_store (λ state, fetch_episode state context episode_id);
          match found with
          | None => op_result (Ok None)
          | Some episode =>
              candidates <~
                match capture_episode_source (ep_source_ref episode) with
                | Some capture_source =>
                    op_result (Ok (option_list
                      (capture_episode_candidate episode (qj_subject queued) capture_source)))
                | None =>
                    structured <~ structured_candidates service job context
                      prepared_structured_state (ep_source_kind episode)
                      (ep_source_trust episode) (ep_actor_id episode);
                    op_result (Ok (episode_candidates service queued episode ++ structured))
                end;
              op_result (Ok (Some (mkJobInput (Some (ep_id episode)) None (ep_source_ref episode)
                (ep_last_observed_at episode) (Some (ep_body episode)) candidates)))
          end
      end
  | ReflectJobKind.ReflectResource =>
      match qj_resource_id queued with
      | None => op_result (Ok None)
      | Some resource_id =>
          found <~ op_store (λ state, fetch_resource state context resource_id);
          match resource ← found; body ← nonblank_body resource; Some (resource, body) with
          | None => op_result (Ok None)
          | Some (resource, body) =>
              structured <~ structured_candidates service job context prepared_structured_state
                "resource" (re_source_trust resource) (re_actor_id resource);
              op_result (Ok (Some (mkJobInput None (Some (re_id resource)) (re_source_ref resource)
                (re_observed_at resource) (Some body)
                (resource_candidates service resource body ++ structured))))
          end
      end
  | ReflectJobKind.ReflectScope =>
      op_result (Ok (Some (mkJobInput None None
        ("memphant:reflect_scope:" +:+ uuid_string (qj_id queued)) now None [])))
  end.

(** ** Compilation *)

Definition job_actor (job : QueuedReflectJob) (candidates : list ReflectCandidate)
    : option ActorId :=
  match qj_kind job with
  | ReflectJobKind.ReflectScope => Some (qj_actor_id job)
  | _ => cd_actor_id <$> head candidates
  end.

Definition reflect_input (job : QueuedReflectJob) (actor_id : ActorId) (input : JobInput)
    (candidates : list ReflectCandidate) : ReflectInput := {|
  rx_tenant_id := qj_tenant_id job;
  rx_data_subject_id := qj_data_subject_id job;
  rx_scope_id := qj_scope_id job;
  rx_agent_node_id := qj_agent_node_id job;
  rx_subject_generation := qj_subject_generation job;
  rx_actor_id := actor_id;
  rx_source_ref := ji_source_ref input;
  rx_observed_at := ji_observed_at input;
  rx_source_body := ji_source_body input;
  rx_episode_id := ji_episode_id input;
  rx_resource_id := ji_resource_id input;
  rx_job_id := qj_id job;
  rx_compiler_version := qj_compiler_version job;
  rx_candidates := candidates;
|}.

Definition crosscheck (service : MemoryService) (now : string) (context : ResolvedMemoryContext)
    : Op ServiceError.t () := λ state,
  let '(state, r) := run_capture_crosscheck (sv_capture_crosscheck_enabled service) now state
                       context in
  (state, map_err (λ e, ServiceError.Core (CoreError.Store e)) (_ <-? r; Ok ())).

Definition compile_job (service : MemoryService) (clock : Z) (now : string) (job : ReflectJobRow)
    (context : ResolvedMemoryContext) (compiler_override : option string)
    (prepared_structured_state : option (list ProjectedStructuredState))
    : Op ServiceError.t () :=
  let queued := jr_job job in
  if match compiler_override with
     | Some version => negb (bool_decide (version = qj_compiler_version queued))
     | None => false
     end
  then op_result (Err (ServiceError.Invalid
         "reflect compiler override must match the queued compiler version"))
  else
    found <~ job_input service now job context prepared_structured_state;
    match found with
    | None => op_result (Ok ())
    | Some input =>
        candidates <~ (λ state, (state,
          resolve_subject_aliases (sv_subject_resolution_threshold service) context
            (ji_candidates input) state));
        match job_actor queued candidates with
        | None => op_result (Ok ())
        | Some actor_id =>
            _ <~ (λ state,
              match reflect_recorded a_recency_control_enabled new_unit_id new_edge_id
                      new_citation_id state (reflect_input queued actor_id input candidates) clock
                      now (Some context) (Some job) with
              | Ok (_, _, state) => (state, Ok ())
              | Err e => (state, Err (ServiceError.Core e))
              end);
            crosscheck service now context
        end
    end.

(** ** The worker *)

Definition resolve_job_context (job : QueuedReflectJob) (state : InMemoryState)
    : result CoreError.t ResolvedMemoryContext :=
  context <-? store_result (resolve_memory_context state (qj_tenant_id job)
    (qj_data_subject_id job) (qj_actor_id job) (qj_scope_id job) (qj_agent_node_id job));
  if negb (cx_subject_generation context =? qj_subject_generation job)
  then Err (CoreError.Store (StoreError.Conflict "subject generation is stale"))
  else Ok context.

Definition service_structured_compiler_identity (compiler : string)
    (provider : StructuredStateProvider) : string :=
  structured_compiler_identity (compiler +:+ "+source-slice-greedy-batches-v2")
    (provider_identity provider).

Definition live_structured_compiler_identity (service : MemoryService) (kind : ReflectJobKind.t)
    : option string :=
  match kind, sv_structured_state_provider service with
  | ReflectJobKind.ReflectEpisode, Some provider
  | ReflectJobKind.ReflectResource, Some provider =>
      Some (service_structured_compiler_identity COMPILER_VERSION provider)
  | _, _ => None
  end.
End reflect_job.
