(* ===== verification/Worker.v ===== *)
(** * Worker: one tick over the lanes of a claim

    [run_worker_tick_scoped] of [crates/memphant-core/src/service.rs].  A tick
    claims jobs, puts them in lanes and runs the lanes side by side: within a
    lane one job after the other, and after a job that did not complete the rest
    of the lane is released.  The lanes share the store.  A lane is a thread:
    between two calls of the store any other lane may run, so the store a call
    meets is whatever the calls of all lanes have made of it.  Which lane runs
    next is given by a schedule. *)

From S2P Require Import Prelude Text Types Float Clock Bitemporal Lineage Store Txn Stage Jobs Binding.
From S2P Require Import Reads Capture Chunks Gate Dates Decimal Compile Structured Mining Prepare Reflect.

(** ** Threads

    A thread is through with its answer, or it is before its next call of the
    store, which leaves another store and the rest of the thread. *)
Inductive Thread (A : Type) : Type :=
| Through (a : A)
| Call (call : InMemoryState → InMemoryState * Thread A).
Arguments Through {A}.
Arguments Call {A}.

Definition call {A} (f : InMemoryState → InMemoryState * A) : Thread A :=
  Call (λ state, let '(state, a) := f state in (state, Through a)).

Fixpoint thread_bind {A B} (m : Thread A) (k : A → Thread B) : Thread B :=
  match m with
  | Through a => k a
  | Call f => Call (λ state, let '(state, m) := f state in (state, thread_bind m k))
  end.

(** The thread with nobody else on the store. *)
Fixpoint run_thread {A} (m : Thread A) (state : InMemoryState) : InMemoryState * A :=
  match m with
  | Through a => (state, a)
  | Call f => let '(state, m) := f state in run_thread m state
  end.

(** Threads that may fail. *)
Definition TryThread (E A : Type) : Type := Thread (result E A).
Definition through {E A} (r : result E A) : TryThread E A := Through r.
Definition try_bind {E A B} (m : TryThread E A) (k : A → TryThread E B) : TryThread E B :=
  thread_bind m (λ r, match r with Ok a => k a | Err e => Through (Err e) end).
Notation "x ⇠ m ; k" := (try_bind m (λ x, k))
  (at level 100, m at next level, right associativity) : mem_scope.

(** ** The worker *)

Definition is_terminal_provider_error (error : ServiceError.t) : bool :=
  match error with
  | ServiceError.Core (CoreError.ProviderUnavailable _ | CoreError.ProviderInvalid _) => true
  | _ => false
  end.

(** In seconds: the store of the worker delays a released job by it. *)
Definition retry_backoff_seconds (attempts : N) : N := N.shiftl 1 (N.min (attempts - 1) 6).

#[export] Instance WorkerTickOutcome_eta : Eta WorkerTickOutcome := λ r,
  mkWorkerTickOutcome (wt_completed r) (wt_failed r) (wt_retried r) (wt_deferred r).
Definition WorkerTickOutcome_default : WorkerTickOutcome := mkWorkerTickOutcome 0 0 0 0.

Definition add_outcome (total lane : WorkerTickOutcome) : WorkerTickOutcome :=
  mkWorkerTickOutcome (wt_completed total + wt_completed lane) (wt_failed total + wt_failed lane)
    (wt_retried total + wt_retried lane) (wt_deferred total + wt_deferred lane).

(** The jobs of a claim by lane, in the order of their first jobs. *)
Fixpoint push_lane (job : ReflectJobRow) (lanes : list (list ReflectJobRow))
    : list (list ReflectJobRow) :=
  match lanes with
  | [] => [[job]]
  | jobs :: lanes =>
      match jobs with
      | first :: _ =>
          if bool_decide (lane (jr_job first) = lane (jr_job job)) then (jobs ++ [job]) :: lanes
          else jobs :: push_lane job lanes
      | [] => jobs :: push_lane job lanes
      end
  end.
Definition lanes_of (jobs : list ReflectJobRow) : list (list ReflectJobRow) :=
  foldl (λ lanes job, push_lane job lanes) [] jobs.

(** The state of a lane: its counts, and whether a job did not complete. *)
Record LaneRun : Set := mkLaneRun {
  lr_outcome : WorkerTickOutcome;
  lr_blocked : bool;
}.

Section worker.
(** What a job does; [None] is a panic, which [CatchUnwind] catches. *)
Context {P : Type} (live_compiler_version : ReflectJobKind.t → option string).
Context (prepare : ReflectJobRow → Thread (option (result ServiceError.t P))).
Context (compile : ReflectJobRow → P → Thread (option (result ServiceError.t ()))).

(** After an error of the job, or a panic. *)
Definition fail_or_requeue (job : ReflectJobRow) (error : option ServiceError.t) (run : LaneRun)
    : TryThread ServiceError.t LaneRun :=
  let outcome := lr_outcome run in
  if match error with Some error => is_terminal_provider_error error | None => false end
  then call (λ state, (fail_reflect_job job state,
                       Ok (mkLaneRun (outcome <| wt_failed ::= N.succ |>) true)))
  else call (λ state, (release_reflect_job job state,
                       Ok (mkLaneRun (outcome <| wt_retried ::= N.succ |>) true))).

Definition stale_compiler (job : QueuedReflectJob) : option string :=
  match live_compiler_version (qj_kind job) with
  | Some live => if bool_decide (qj_compiler_version job = live) then None else Some live
  | None => None
  end.

Definition lane_step (run : LaneRun) (job : ReflectJobRow) : TryThread ServiceError.t LaneRun :=
  let outcome := lr_outcome run in
  if lr_blocked run
  then call (λ state, (release_reflect_job job state,
                       Ok (mkLaneRun (outcome <| wt_deferred ::= N.succ |>) true)))
  else match stale_compiler (jr_job job) with
  | Some live =>
      call (λ state,
        let '(state, r) := requeue_reflect_job_with_compiler job live state in
        (state, match r with
                | Ok _ => Ok (mkLaneRun (outcome <| wt_deferred ::= N.succ |>) true)
                | Err e => Err (ServiceError.Core (CoreError.Store e))
                end))
  | None =>
      thread_bind (prepare job) (λ prepared,
      match prepared with
      | Some (Ok prepared) =>
          thread_bind (compile job prepared) (λ compiled,
          match compiled with
          | Some (Ok _) =>
              call (λ state,
                let '(state, completed) := complete_reflect_job job state in
                (state, Ok (if bool_decide (completed = ClaimMutationOutcome.Applied)
                            then mkLaneRun (outcome <| wt_completed ::= N.succ |>) false else run)))
          | Some (Err e) => fail_or_requeue job (Some e) run
          | None => fail_or_requeue job None run
          end)
      | Some (Err e) => fail_or_requeue job (Some e) run
      | None => fail_or_requeue job None run
      end)
  end.

Fixpoint run_lane (run : LaneRun) (jobs : list ReflectJobRow)
    : TryThread ServiceError.t WorkerTickOutcome :=
  match jobs with
  | [] => through (Ok (lr_outcome run))
  | job :: jobs => run ⇠ lane_step run job; run_lane run jobs
  end.

(** [buffer_unordered]: of the lanes that are not through the first [limit], in
    the order of the claim, are in flight; a lane that is through makes room,
    and its answer joins those before it. *)
Record Lanes : Type := mkLanes {
  ln_threads : list (TryThread ServiceError.t WorkerTickOutcome);
  ln_state : InMemoryState;
  ln_outcomes : list (result ServiceError.t WorkerTickOutcome);
}.

Definition poll (limit index : nat) (lanes : Lanes) : Lanes :=
  match (if (index <? limit)%nat then ln_threads lanes !! index else None) with
  | None => lanes
  | Some (Through outcome) =>
      mkLanes (delete index (ln_threads lanes)) (ln_state lanes) (ln_outcomes lanes ++ [outcome])
  | Some (Call f) =>
      let '(state, thread) := f (ln_state lanes) in
      mkLanes (<[index := thread]> (ln_threads lanes)) state (ln_outcomes lanes)
  end.

(** The lanes that are left run to their ends in order. *)
Fixpoint drain_lanes (threads : list (TryThread ServiceError.t WorkerTickOutcome))
    (state : InMemoryState) : InMemoryState * list (result ServiceError.t WorkerTickOutcome) :=
  match threads with
  | [] => (state, [])
  | thread :: threads =>
      let '(state, outcome) := run_thread thread state in
      let '(state, outcomes) := drain_lanes threads state in
      (state, outcome :: outcomes)
  end.

(** The schedule says which of the lanes in flight is polled next; where it ends
    the lanes that are left run in order.  Every way the lanes may take turns
    is a schedule, as long as need be. *)
Definition run_lanes (limit : nat) (schedule : list nat)
    (threads : list (TryThread ServiceError.t WorkerTickOutcome)) (state : InMemoryState)
    : InMemoryState * list (result ServiceError.t WorkerTickOutcome) :=
  let lanes := foldl (λ lanes index, poll limit index lanes) (mkLanes threads state []) schedule in
  let '(state, outcomes) := drain_lanes (ln_threads lanes) (ln_state lanes) in
  (state, ln_outcomes lanes ++ outcomes).

Definition lane_thread (jobs : list ReflectJobRow) : TryThread ServiceError.t WorkerTickOutcome :=
  run_lane (mkLaneRun WorkerTickOutcome_default false) jobs.

Definition worker_tick `{HashOrder} (limit : nat) (schedule : list nat) (filter : JobFilter)
    (batch : nat) : Op ServiceError.t WorkerTickOutcome := λ state,
  let '(state, jobs) := claim_reflect_jobs filter batch state in
  let '(state, outcomes) := run_lanes limit schedule (map lane_thread (lanes_of jobs)) state in
  (state, try_fold (λ total outcome, lane <-? outcome; Ok (add_outcome total lane))
            WorkerTickOutcome_default outcomes).
End worker.

(** ** The threads of a job *)

Definition thread_op {A} (m : Op CoreError.t A) : TryThread ServiceError.t A := call (op_core m).
Definition thread_pure {A} (r : result CoreError.t A) : TryThread ServiceError.t A :=
  through (map_err ServiceError.Core r).
Definition thread_read {A} (f : InMemoryState → result StoreError.t A) : TryThread ServiceError.t A :=
  thread_op (op_read f).

(** No definition of the model panics. *)
Definition unwound {A} (m : TryThread ServiceError.t A)
    : Thread (option (result ServiceError.t A)) := thread_bind m (λ r, Through (Some r)).

Section tick.
Context `{HashOrder} `{Jiff} `{Sha256} `{Calendar} `{SerdeJson} `{BatchJson} `{UnicodeAlphanumeric}.
Context `{StrDebug} `{EmbeddingProvider} `{PolicyJson} (a_recency_control_enabled : bool).
(** Every claim of a job draws identifiers of its own. *)
Context (new_unit_id : ReflectJobRow → nat → UnitId) (new_edge_id : ReflectJobRow → nat → EdgeId).
Context (new_citation_id : ReflectJobRow → nat → Uuid).

(** [prepare_structured_state], call by call. *)
Definition extraction_packets_thread (provider : StructuredStateProvider) (job : ReflectJobRow)
    (source_body : string) (batches : list StructuredStateRequest)
    : TryThread ServiceError.t (list StructuredExtractionPacket) :=
  found ⇠ thread_read (fetch_prepared_structured_state job batches (provider_identity provider));
  match found with
  | Some prepared => through (Ok prepared)
  | None =>
      packets ⇠ thread_pure (try_map (extract_packet provider source_body) batches);
      _ ⇠ thread_op (λ state,
            let '(state, r) := store_prepared_structured_state job batches
                                 (provider_identity provider) packets state in
            (state, store_result r));
      through (Ok packets)
  end.

Definition prepare_structured_state_thread (structured_state_provider : option StructuredStateProvider)
    (job : ReflectJobRow) (context : ResolvedMemoryContext)
    : TryThread ServiceError.t (list ProjectedStructuredState) :=
  match structured_state_provider with
  | None => through (Ok [])
  | Some provider =>
      found ⇠ thread_op (λ state, (state, structured_source (jr_job job) context state));
      match found with
      | None => through (Ok [])
      | Some source =>
          let source_body := pp_source_body source in
          let source_body_sha256 := sha256_hex source_body in
          let request := mkStructuredStateRequest (pp_source_kind source) source_body_sha256 0
                           (pp_evidence_slices source) in
          batches ⇠ thread_pure (map_err provider_call_error
              (provider_plan_batches provider (pp_source_kind source) source_body_sha256
                 (pp_evidence_slices source)));
          packets ⇠ extraction_packets_thread provider job source_body batches;
          _ ⇠ thread_pure (try_fold (λ _ '(batch, packet),
               check_observations source_body batch (pk_observations packet)) ()
               (zip batches packets));
          units ⇠ thread_read (λ state, fetch_scope_open_units state context);
          thread_pure (map_err provider_output_error
             (project_observations source request (concat (map pk_observations packets)) units))
      end
  end.

(** The context of a job and its structured state. *)
Definition prepare_job (service : MemoryService) (job : ReflectJobRow)
    : TryThread ServiceError.t (ResolvedMemoryContext * list ProjectedStructuredState) :=
  context ⇠ thread_op (λ state, (state, resolve_job_context (jr_job job) state));
  projections ⇠ prepare_structured_state_thread (sv_structured_state_provider service) job context;
  through (Ok (context, projections)).

(** [persist_compiled_units]: the write is staged on one store and committed on
    another. *)
Definition persist_thread (clock : Z) (context : ResolvedMemoryContext) (claim : ReflectJobRow)
    (write : CompiledWrite) : TryThread ServiceError.t () :=
  staged ⇠ thread_read (λ state,
    let '(tx, staged) := stage_compiled_units state (Some claim) write (begin_at context clock) in
    outcome <-? staged; Ok (tx, outcome));
  let '(tx, outcome) := staged in
  match outcome with
  | ClaimMutationOutcome.Stale => through (Ok ())
  | ClaimMutationOutcome.Applied =>
      thread_op (λ state, match commit state tx with
                          | Ok state => (state, Ok ())
                          | Err e => (state, Err (CoreError.Store e))
                          end)
  end.

(** [reflect_recorded_claimed_owned]. *)
Definition reflect_thread (clock : Z) (now : string) (context : ResolvedMemoryContext)
    (claim : ReflectJobRow) (input : ReflectInput) : TryThread ServiceError.t () :=
  _ ⇠ thread_pure (check_input input context);
  existing ⇠ thread_read (λ state,
    fetch_reflect_trace state context (rx_job_id input) (rx_compiler_version input));
  match existing with
  | Some _ => through (Ok ())
  | None =>
      working ⇠ thread_read (λ state, fetch_scope_open_units state context);
      prepared ⇠ thread_pure
        (prepare_compiled_write_from_snapshot a_recency_control_enabled (new_unit_id claim)
           (new_edge_id claim) (new_citation_id claim) input now context working);
      persist_thread clock context claim prepared.2
  end.

(** [run_capture_crosscheck]. *)
Definition crosscheck_thread (service : MemoryService) (now : string)
    (context : ResolvedMemoryContext) : TryThread ServiceError.t () :=
  if negb (sv_capture_crosscheck_enabled service) then through (Ok ())
  else
    units ⇠ thread_read (λ state, fetch_scope_open_units state context);
    let captured_ids := map mu_id (retain (λ u, bool_decide (is_Some (mu_capture u))) units) in
    if is_empty captured_ids then through (Ok ())
    else
      review_events ⇠ thread_read (λ state,
        fetch_review_events state context captured_ids (mkRecallTime now now now));
      let transitions := compute_capture_crosscheck units review_events in
      if is_empty transitions then through (Ok ())
      else thread_op (λ state,
        let '(state, r) := apply_capture_transitions state context transitions in
        (state, store_result (_ <-? r; Ok ()))).

(** [compile_job], with the structured state prepared and no other compiler. *)
Definition compile_thread (service : MemoryService) (clock : Z) (now : string) (job : ReflectJobRow)
    (context : ResolvedMemoryContext) (projections : list ProjectedStructuredState)
    : TryThread ServiceError.t () :=
  let queued := jr_job job in
  found ⇠ call (job_input service now job context (Some projections));
  match found with
  | None => through (Ok ())
  | Some input =>
      candidates ⇠ call (λ state, (state,
        resolve_subject_aliases (sv_subject_resolution_threshold service) context
          (ji_candidates input) state));
      match job_actor queued candidates with
      | None => through (Ok ())
      | Some actor_id =>
          _ ⇠ reflect_thread clock now context job (reflect_input queued actor_id input candidates);
          crosscheck_thread service now context
      end
  end.

(** [limit]: [structured_state_prefetch_concurrency] with a provider, else
    [worker_compile_concurrency]; at least one. *)
Definition run_worker_tick_scoped (service : MemoryService) (clock : Z) (now : string)
    (limit : nat) (schedule : list nat) (filter : JobFilter) (batch : nat)
    : Op ServiceError.t WorkerTickOutcome :=
  worker_tick (live_structured_compiler_identity service)
    (λ job, unwound (prepare_job service job))
    (λ job prepared, unwound (compile_thread service clock now job prepared.1 prepared.2))
    limit schedule filter batch.
End tick.

(** The exit of a loop of ticks. *)
Definition drain_finished (pending : nat) (dead_letters_before dead_letters_after : nat)
    : result string bool :=
  if (dead_letters_before <? dead_letters_after)%nat then Err "drain produced dead-lettered jobs"
  else Ok (pending =? 0)%nat.
