(* ===== verification/WorkerFacts.v ===== *)
(** * WorkerFacts: what the lanes of a tick do, in whatever order they take turns

    The calls a thread makes on its way to its answer, the interleavings of
    several threads on one store, and the calls of a lane: it completes a prefix
    of its jobs, stops at the next one and releases the rest. *)

From S2P Require Import Prelude Text Types Float Clock Bitemporal Lineage Store Txn Stage Jobs Binding.
From S2P Require Import Reads Capture Chunks Gate Dates Decimal Compile Structured Mining Prepare Reflect Worker.

(** ** Threads and their calls *)

(** A call of the store: the store before it and the store after it. *)
Notation StoreCall := (InMemoryState * InMemoryState)%type (only parsing).

(** The calls a thread makes, whatever happens to the store between them, and
    the answer it comes to. *)
Inductive thread_ran {A} : Thread A → list StoreCall → A → Prop :=
| ran_through a : thread_ran (Through a) [] a
| ran_call f s s' m calls a :
    f s = (s', m) → thread_ran m calls a → thread_ran (Call f) ((s, s') :: calls) a.

Fixpoint Thread_nested_ind {A} (Q : Thread A → Prop) (Hthrough : ∀ a, Q (Through a))
    (Hcall : ∀ f, (∀ s, Q (f s).2) → Q (Call f)) (m : Thread A) : Q m :=
  match m with
  | Through a => Hthrough a
  | Call f => Hcall f (λ s,
      match f s as r return Q r.2 with
      | (_, m) => Thread_nested_ind Q Hthrough Hcall m
      end)
  end.

Lemma ran_through_inv {A} (a b : A) calls : thread_ran (Through a) calls b → calls = [] ∧ b = a.
Proof. inversion 1. done. Qed.

Lemma ran_bind {A B} (m : Thread A) (k : A → Thread B) calls b :
  thread_ran (thread_bind m k) calls b →
  ∃ a c1 c2, thread_ran m c1 a ∧ thread_ran (k a) c2 b ∧ calls = c1 ++ c2.
Proof.
  revert calls. induction m as [a|f IH] using Thread_nested_ind; intros calls Hr.
  - exists a, [], calls. split_and!; [constructor|exact Hr|done].
  - cbn in Hr. inversion Hr as [|f' s s' m' calls' b' Hf Hm]; subst.
    specialize (IH s). destruct (f s) as [s1 m1] eqn:Ef. injection Hf as <- <-.
    destruct (IH _ Hm) as (a & c1 & c2 & H1 & H2 & ->).
    exists a, ((s, s1) :: c1), c2. split_and!; [by econstructor|done|done].
Qed.

Lemma ran_one {A} (f : InMemoryState → InMemoryState * A) calls a :
  thread_ran (call f) calls a → ∃ s s', f s = (s', a) ∧ calls = [(s, s')].
Proof.
  inversion 1 as [|f' s s' m calls' a' Hf Hm]; subst. exists s, s'.
  destruct (f s) as [s1 a1]. injection Hf as <- <-. by apply ran_through_inv in Hm as [-> ->].
Qed.

Lemma ran_try_bind {E A B} (m : TryThread E A) (k : A → TryThread E B) calls r :
  thread_ran (try_bind m k) calls r →
  (∃ a c1 c2, thread_ran m c1 (Ok a) ∧ thread_ran (k a) c2 r ∧ calls = c1 ++ c2) ∨
  (∃ e, thread_ran m calls (Err e) ∧ r = Err e).
Proof.
  intros ([a|e] & c1 & c2 & H1 & H2 & ->)%ran_bind; [left; by exists a, c1, c2|right].
  apply ran_through_inv in H2 as [-> ->]. exists e. by rewrite app_nil_r.
Qed.

(** ** Interleavings *)

(** Threads on one store: in each step one of them makes its next call; in the
    end all are through.  [runs] gathers, for each thread, its calls and its
    answer. *)
Inductive interleaves {A} : list (Thread A) → InMemoryState → InMemoryState →
    list (list StoreCall * A) → Prop :=
| il_through answers s :
    interleaves (map Through answers) s s (map (pair []) answers)
| il_call i f s s1 s' m threads runs calls a :
    threads !! i = Some (Call f) → f s = (s1, m) →
    interleaves (<[i := m]> threads) s1 s' runs → runs !! i = Some (calls, a) →
    interleaves threads s s' (<[i := ((s, s1) :: calls, a)]> runs).

Lemma interleaves_ran {A} (threads : list (Thread A)) s s' runs :
  interleaves threads s s' runs → Forall2 (λ thread run, thread_ran thread run.1 run.2) threads runs.
Proof.
  induction 1 as [answers s|i f s s1 s' m threads runs calls a Hi Hf _ IH Hr].
  - induction answers as [|a answers IH]; constructor; [constructor|done].
  - apply Forall2_same_length_lookup. rewrite length_insert.
    pose proof (Forall2_length _ _ _ IH) as Hl. rewrite length_insert in Hl. split; [done|].
    intros k thread run Hk Hrun. destruct (decide (i = k)) as [<-|Hne].
    + rewrite Hi in Hk. injection Hk as <-.
      rewrite list_lookup_insert_eq in Hrun by (by eapply lookup_lt_Some).
      injection Hrun as <-. cbn. econstructor; [exact Hf|].
      refine (Forall2_lookup_lr _ _ _ _ _ _ IH _ Hr).
      apply list_lookup_insert_eq. by eapply lookup_lt_Some.
    + rewrite list_lookup_insert_ne in Hrun by done.
      refine (Forall2_lookup_lr _ _ _ _ _ _ IH _ Hrun).
      by rewrite list_lookup_insert_ne.
Qed.

(** A thread that is through takes no part. *)
Lemma interleaves_add {A} (l k : list (Thread A)) a s s' runs :
  interleaves (l ++ k) s s' runs →
  ∃ r1 r2, runs = r1 ++ r2 ∧ length r1 = length l ∧
    interleaves (l ++ Through a :: k) s s' (r1 ++ ([], a) :: r2).
Proof.
  remember (l ++ k) as threads eqn:E. intros Hi. revert l k E.
  induction Hi as [answers s|i f s s1 s' m threads runs calls b Hl Hf Hi IH Hr]; intros l k E.
  - apply map_eq_app in E as (al & ak & -> & <- & <-).
    exists (map (pair []) al), (map (pair []) ak). rewrite map_app, !length_map. split_and!; [done..|].
    change (([], a) :: map (pair []) ak) with (map (pair (@nil StoreCall)) (a :: ak)).
    change (Through a :: map Through ak) with (map (@Through A) (a :: ak)).
    rewrite <-!map_app. constructor.
  - subst threads. destruct (decide (i < length l)%nat) as [Hlt|Hge].
    + rewrite lookup_app_l in Hl by done.
      destruct (IH (<[i := m]> l) k) as (r1 & r2 & -> & Hr1 & Hrest); [by apply insert_app_l|].
      rewrite length_insert in Hr1. rewrite lookup_app_l in Hr by lia.
      exists (<[i := ((s, s1) :: calls, b)]> r1), r2. rewrite length_insert.
      split_and!; [by rewrite insert_app_l by lia|done|]. rewrite <-insert_app_l by lia.
      eapply il_call; [by rewrite lookup_app_l|exact Hf|by rewrite insert_app_l|].
      by rewrite lookup_app_l by lia.
    + rewrite lookup_app_r in Hl by lia.
      destruct (IH l (<[(i - length l)%nat := m]> k)) as (r1 & r2 & -> & Hr1 & Hrest);
        [by rewrite insert_app_r_alt by lia|].
      rewrite lookup_app_r, Hr1 in Hr by lia.
      exists r1, (<[(i - length l)%nat := ((s, s1) :: calls, b)]> r2).
      split_and!; [by rewrite insert_app_r_alt, Hr1 by lia|done|].
      replace (r1 ++ ([], a) :: <[(i - length l)%nat := ((s, s1) :: calls, b)]> r2)
        with (<[S i := ((s, s1) :: calls, b)]> (r1 ++ ([], a) :: r2)); cycle 1.
      { rewrite insert_app_r_alt, Hr1 by lia. by replace (S i - length l)%nat with (S (i - length l)) by lia. }
      eapply il_call; [|exact Hf| |].
      * rewrite lookup_app_r by lia. by replace (S i - length l)%nat with (S (i - length l)) by lia.
      * rewrite insert_app_r_alt by lia. replace (S i - length l)%nat with (S (i - length l)) by lia.
        exact Hrest.
      * rewrite lookup_app_r, Hr1 by lia. by replace (S i - length l)%nat with (S (i - length l)) by lia.
Qed.

(** A thread run to its end goes first. *)
Lemma interleaves_run {A} (m : Thread A) threads s s1 s' a runs :
  run_thread m s = (s1, a) → interleaves threads s1 s' runs →
  ∃ calls, interleaves (m :: threads) s s' ((calls, a) :: runs).
Proof.
  intros Hm Hi. revert s Hm. induction m as [b|f IH] using Thread_nested_ind; intros s.
  - intros [= -> ->]. exists []. by destruct (interleaves_add [] threads a _ _ _ Hi)
      as ([|] & r2 & -> & Hl & Hr).
  - cbn. specialize (IH s). destruct (f s) as [s2 m] eqn:Ef. intros Hm.
    destruct (IH s2 Hm) as (calls & Hrest). exists ((s, s2) :: calls).
    exact (il_call 0 f s s2 s' m (Call f :: threads) _ calls a eq_refl Ef Hrest eq_refl).
Qed.

(** ** The lanes in flight *)

Lemma drain_lanes_interleaves threads s s' outcomes :
  drain_lanes threads s = (s', outcomes) →
  ∃ runs, interleaves threads s s' runs ∧ map snd runs = outcomes.
Proof.
  revert s outcomes. induction threads as [|m threads IH]; intros s outcomes; cbn [drain_lanes].
  - intros [= <- <-]. exists []. split; [|done].
    exact (il_through [] s).
  - destruct (run_thread m s) as [s1 outcome] eqn:Em.
    destruct (drain_lanes threads s1) as [s2 rest] eqn:Ed. intros [= <- <-].
    destruct (IH _ _ Ed) as (runs & Hi & <-).
    destruct (interleaves_run _ _ _ _ _ _ _ Em Hi) as (calls & Hrun). by eexists.
Qed.

(** What the lanes in flight and those before them come to in the end. *)
Definition lanes_end (lanes : Lanes) (s' : InMemoryState)
    (outcomes : list (result ServiceError.t WorkerTickOutcome)) : Prop :=
  ∃ runs, interleaves (ln_threads lanes) (ln_state lanes) s' runs ∧
    outcomes ≡ₚ ln_outcomes lanes ++ map snd runs.

Lemma poll_end limit index lanes s' outcomes :
  lanes_end (poll limit index lanes) s' outcomes → lanes_end lanes s' outcomes.
Proof.
  unfold poll. destruct (if (index <? limit)%nat then _ else None) as [[outcome|f]|] eqn:Ei; [| |done].
  - destruct (index <? limit)%nat; [|done]. intros (runs & Hi & Hp). cbn in Hi, Hp.
    pose proof (take_drop_middle _ _ _ Ei) as Hsplit. rewrite delete_take_drop in Hi.
    destruct (interleaves_add _ _ outcome _ _ _ Hi) as (r1 & r2 & -> & _ & Hadd).
    eexists. split; [rewrite <-Hsplit; exact Hadd|]. rewrite Hp, !map_app. cbn.
    by rewrite <-app_assoc, <-Permutation_middle.
  - destruct (index <? limit)%nat; [|done]. destruct (f (ln_state lanes)) as [s1 m] eqn:Ef.
    intros (runs & Hi & Hp). cbn in Hi, Hp.
    pose proof (Forall2_length _ _ _ (interleaves_ran _ _ _ _ Hi)) as Hl. rewrite length_insert in Hl.
    destruct (lookup_lt_is_Some_2 runs index) as [[calls a] Hr];
      [rewrite <-Hl; by eapply lookup_lt_Some|].
    exists (<[index := ((ln_state lanes, s1) :: calls, a)]> runs). split; [by eapply il_call|].
    rewrite Hp. f_equiv. apply reflexive_eq.
    change (map snd (<[index := ((ln_state lanes, s1) :: calls, a)]> runs))
      with (snd <$> <[index := ((ln_state lanes, s1) :: calls, a)]> runs).
    rewrite list_fmap_insert. symmetry. apply list_insert_id.
    by rewrite list_lookup_fmap, Hr.
Qed.

Lemma run_lanes_interleaves limit schedule threads s s' outcomes :
  run_lanes limit schedule threads s = (s', outcomes) →
  ∃ runs, interleaves threads s s' runs ∧ outcomes ≡ₚ map snd runs.
Proof.
  unfold run_lanes.
  assert (∀ lanes s' outcomes,
    lanes_end (foldl (λ lanes index, poll limit index lanes) lanes schedule) s' outcomes →
    lanes_end lanes s' outcomes) as Hfold.
  { induction schedule as [|index schedule IH]; [done|]. intros lanes s2 o2 Hend.
    eapply poll_end, IH, Hend. }
  destruct (drain_lanes _ _) as [s1 rest] eqn:Ed. intros [= <- <-].
  apply (Hfold (mkLanes threads s [])). apply drain_lanes_interleaves in Ed as (runs & Hi & <-).
  by exists runs.
Qed.

(** ** A job with nobody else on the store

    Run alone, the threads of a job are the operations of [Prepare] and
    [Reflect], which the verbs run too. *)

Lemma run_bind {A B} (m : Thread A) (k : A → Thread B) s :
  run_thread (thread_bind m k) s = let '(s', a) := run_thread m s in run_thread (k a) s'.
Proof.
  revert s. induction m as [a|f IH] using Thread_nested_ind; intros s; [done|].
  cbn. specialize (IH s). destruct (f s) as [s1 m]. apply IH.
Qed.

Lemma run_try_bind {E A B} (m : TryThread E A) (k : A → TryThread E B) s :
  run_thread (try_bind m k) s =
  let '(s', r) := run_thread m s in
  match r with Ok a => run_thread (k a) s' | Err e => (s', Err e) end.
Proof.
  unfold try_bind. rewrite run_bind. destruct (run_thread m s) as [s' [a|e]]; done.
Qed.

Lemma run_thread_call {A} (f : InMemoryState → InMemoryState * A) s : run_thread (call f) s = f s.
Proof. cbn. by destruct (f s). Qed.

Section alone.
Context `{HashOrder} `{Jiff} `{Sha256} `{Calendar} `{SerdeJson} `{BatchJson} `{UnicodeAlphanumeric}.
Context `{StrDebug} `{EmbeddingProvider} `{PolicyJson} (a_recency : bool).
Context (new_unit_id : ReflectJobRow → nat → UnitId) (new_edge_id : ReflectJobRow → nat → EdgeId).
Context (new_citation_id : ReflectJobRow → nat → Uuid).

Lemma extraction_alone provider job body batches s :
  run_thread (extraction_packets_thread provider job body batches) s =
  op_core (extraction_packets_of provider job body batches) s.
Proof.
  unfold extraction_packets_thread, extraction_packets_of, thread_read, thread_op, thread_pure,
    op_core, op_read, op_bind, op_result, through.
  rewrite run_try_bind, run_thread_call. destruct (store_result _) as [[prepared|]|e]; cbn [map_err]; [done| |done].
  rewrite run_try_bind. cbn [run_thread]. destruct (try_map _ batches) as [packets|e]; cbn [map_err]; [|done].
  rewrite run_try_bind, run_thread_call.
  destruct (store_prepared_structured_state _ _ _ _ _) as [s1 r].
  by destruct (store_result r) as [[]|e].
Qed.

Lemma prepare_alone provider job context s :
  run_thread (prepare_structured_state_thread provider job context) s =
  op_core (prepare_structured_state provider job context) s.
Proof.
  unfold prepare_structured_state_thread, prepare_structured_state. destruct provider as [provider|]; [|done].
  rewrite run_try_bind. unfold thread_op at 1. rewrite run_thread_call. unfold op_core at 1 2.
  destruct (structured_source _ _ _) as [[source|]|e]; cbn [map_err]; [|done|done].
  rewrite run_try_bind. unfold thread_pure at 1, through. cbn [run_thread].
  unfold op_bind at 1, op_result at 1.
  destruct (map_err provider_call_error _) as [batches|e]; cbn [map_err]; [|done].
  rewrite run_try_bind, extraction_alone. unfold op_core, op_bind at 1.
  destruct (extraction_packets_of _ _ _ _ _) as [s1 [packets|e]]; cbn [map_err]; [|done].
  rewrite run_try_bind. unfold thread_pure at 1, through. cbn [run_thread].
  unfold op_bind at 1, op_result at 1. destruct (try_fold _ _ _) as [[]|e]; cbn [map_err]; [|done].
  rewrite run_try_bind. unfold thread_read, thread_op. rewrite run_thread_call. unfold op_core, op_read, op_bind.
  by destruct (store_result _).
Qed.

Lemma persist_alone clock context claim write s :
  run_thread (persist_thread clock context claim write) s =
  match persist_compiled_units s clock context (Some claim) write with
  | Ok (_, s') => (s', Ok ())
  | Err e => (s, Err (ServiceError.Core (CoreError.Store e)))
  end.
Proof.
  unfold persist_thread, persist_compiled_units. rewrite run_try_bind. unfold thread_read, thread_op at 1.
  rewrite run_thread_call. unfold op_core, op_read.
  destruct (stage_compiled_units _ _ _ _) as [tx [outcome|e]]; cbn [result_bind store_result map_err]; [|done].
  destruct outcome; cbn [result_bind]; [|done].
  unfold thread_op. rewrite run_thread_call. unfold op_core. by destruct (commit s tx).
Qed.

Lemma crosscheck_alone service now context s :
  run_thread (crosscheck_thread service now context) s = crosscheck service now context s.
Proof.
  unfold crosscheck_thread, crosscheck, run_capture_crosscheck.
  destruct (sv_capture_crosscheck_enabled service); cbn [negb]; [|done].
  rewrite run_try_bind. unfold thread_read at 1, thread_op. rewrite run_thread_call. unfold op_core at 1, op_read.
  destruct (fetch_scope_open_units s context) as [units|e]; cbn [store_result map_err]; [|done].
  destruct (is_empty (map mu_id _)); [done|].
  rewrite run_try_bind. unfold thread_read at 1, thread_op. rewrite run_thread_call. unfold op_core at 1, op_read.
  destruct (fetch_review_events _ _ _ _) as [events|e]; cbn [store_result map_err]; [|done].
  destruct (is_empty (compute_capture_crosscheck _ _)); [done|].
  rewrite run_thread_call. unfold op_core. destruct (apply_capture_transitions _ _ _) as [s1 [r|e]]; done.
Qed.

Lemma compile_alone service clock now job context projections s :
  run_thread (compile_thread a_recency new_unit_id new_edge_id new_citation_id service clock now job
                context projections) s =
  compile_job a_recency (new_unit_id job) (new_edge_id job) (new_citation_id job) service clock now job
    context None (Some projections) s.
Proof.
  unfold compile_thread, compile_job. rewrite run_try_bind, run_thread_call. unfold op_bind at 1.
  destruct (job_input _ _ _ _ _ _) as [s1 [[input|]|e]]; [|done|done].
  rewrite run_try_bind, run_thread_call. unfold op_bind at 1.
  destruct (resolve_subject_aliases _ _ _ _) as [candidates|e]; [|done].
  destruct (job_actor _ _) as [actor|]; [|done].
  rewrite run_try_bind. unfold op_bind, reflect_recorded, prepare_compiled_write, reflect_thread.
  rewrite run_try_bind. unfold thread_pure at 1, through. cbn [run_thread result_bind].
  destruct (check_input _ _) as [[]|e]; cbn [map_err result_bind]; [|done].
  rewrite run_try_bind. unfold thread_read at 1, thread_op. rewrite run_thread_call. unfold op_core at 1, op_read.
  destruct (store_result (fetch_reflect_trace _ _ _ _)) as [[trace|]|e]; cbn [map_err result_bind]; [| |done].
  { cbn [run_thread through]. by apply crosscheck_alone. }
  rewrite run_try_bind. unfold thread_read at 1, thread_op. rewrite run_thread_call. unfold op_core at 1, op_read.
  destruct (store_result (fetch_scope_open_units _ _)) as [working|e]; cbn [map_err result_bind]; [|done].
  rewrite run_try_bind. unfold thread_pure, through. cbn [run_thread].
  destruct (prepare_compiled_write_from_snapshot _ _ _ _ _ _ _ _) as [prepared|e];
    cbn [map_err result_bind]; [|done].
  rewrite persist_alone.
  destruct (persist_compiled_units _ _ _ _ _) as [[outcome s2]|e]; cbn [store_result result_bind]; [|done].
  apply crosscheck_alone.
Qed.
End alone.

(** ** What a lane does *)

(** The claim has no hold on its job any more. *)
Lemma settled_release job s : claim_is_current (release_reflect_job job s) job = false.
Proof.
  unfold release_reflect_job. destruct (claim_is_current s job) eqn:Ec; cbn [negb]; [|exact Ec].
  apply not_true_iff_false. intros (_ & (Hc & _) & _)%claim_is_current_inv.
  rewrite job_meta_set, bool_decide_true in Hc by done. done.
Qed.

Lemma settled_fail job s : claim_is_current (fail_reflect_job job s) job = false.
Proof.
  unfold fail_reflect_job. destruct (claim_is_current s job) eqn:Ec; cbn [negb]; [|exact Ec].
  apply not_true_iff_false. intros (_ & (Hc & _) & _)%claim_is_current_inv.
  rewrite job_meta_set, bool_decide_true in Hc by done. done.
Qed.

Lemma settled_complete job s : claim_is_current (complete_reflect_job job s).1 job = false.
Proof.
  unfold complete_reflect_job. destruct (_ && match _ with Some _ => _ | None => _ end)%bool eqn:E.
  - cbn [fst]. apply not_true_iff_false. intros (_ & (_ & Hd & _) & _)%claim_is_current_inv.
    apply andb_true_iff in E as [_ E]. unfold job_meta in Hd.
    destruct (st_job_meta s !! _); [|done]. cbn in Hd. by rewrite Hd in E.
  - destruct (claim_is_current s job) eqn:Ec; cbn [negb fst]; [|exact Ec].
    apply not_true_iff_false. intros (_ & (Hc & _) & _)%claim_is_current_inv.
    rewrite job_meta_set, bool_decide_true in Hc by done. done.
Qed.

Lemma settled_requeue job version s s' outcome :
  requeue_reflect_job_with_compiler job version s = (s', Ok outcome) →
  claim_is_current s' job = false.
Proof.
  unfold requeue_reflect_job_with_compiler. destruct (trim_is_empty version); [done|].
  destruct (claim_is_current s job) eqn:Ec; cbn [negb]; [|by intros [= <- _]].
  destruct (position _ _) as [i|]; [|done]. intros [= <- _].
  apply not_true_iff_false. intros (_ & (Hc & _) & _)%claim_is_current_inv.
  destruct (position (same_source _ _) _); unfold job_meta in Hc; simpl in Hc;
    rewrite lookup_insert_eq in Hc; done.
Qed.

Section lanes.
Context {P : Type} (live : ReflectJobKind.t → option string).
Context (prepare : ReflectJobRow → Thread (option (result ServiceError.t P))).
Context (compile : ReflectJobRow → P → Thread (option (result ServiceError.t ()))).

(** A job is compiled under the live compiler and completed, if its claim still
    holds. *)
Definition compiles (job : ReflectJobRow) (calls : list StoreCall) (completed : N) : Prop :=
  stale_compiler live (jr_job job) = None ∧
  ∃ prep p comp s s' outcome, calls = prep ++ comp ++ [(s, s')] ∧
    thread_ran (prepare job) prep (Some (Ok p)) ∧ thread_ran (compile job p) comp (Some (Ok ())) ∧
    complete_reflect_job job s = (s', outcome) ∧ claim_is_current s' job = false ∧
    completed = if bool_decide (outcome = ClaimMutationOutcome.Applied) then 1 else 0.

(** The error of an outcome, [None] inside for a panic. *)
Definition failure {A} (r : option (result ServiceError.t A)) : option (option ServiceError.t) :=
  match r with Some (Ok _) => None | Some (Err e) => Some (Some e) | None => Some None end.

Definition fails_with (job : ReflectJobRow) (calls : list StoreCall) (error : option ServiceError.t)
    : Prop :=
  (∃ r, thread_ran (prepare job) calls r ∧ failure r = Some error) ∨
  (∃ prep p comp r, calls = prep ++ comp ∧ thread_ran (prepare job) prep (Some (Ok p)) ∧
     thread_ran (compile job p) comp r ∧ failure r = Some error).

Definition of_the_provider (error : option ServiceError.t) : Prop :=
  ∃ why, error = Some (ServiceError.Core (CoreError.ProviderUnavailable why)) ∨
         error = Some (ServiceError.Core (CoreError.ProviderInvalid why)).

(** A job is handed back by one call: queued by another compiler it is requeued
    for the live one; after an error of the provider it is failed; after any
    other error, or a panic, it is released.  (What the queue then makes of it -
    a job released on its fifth attempt is dead, a requeued one may be retired -
    is the life of a job in [Jobs].) *)
Definition hands_back (job : ReflectJobRow) (calls : list StoreCall) (outcome : WorkerTickOutcome)
    : Prop :=
  ∃ tried s s', calls = tried ++ [(s, s')] ∧ claim_is_current s' job = false ∧
    ((∃ version r, tried = [] ∧ stale_compiler live (jr_job job) = Some version ∧
        requeue_reflect_job_with_compiler job version s = (s', Ok r) ∧
        outcome = mkWorkerTickOutcome 0 0 0 1) ∨
     (stale_compiler live (jr_job job) = None ∧ ∃ error, fails_with job tried error ∧
        ((of_the_provider error ∧ s' = fail_reflect_job job s ∧
          outcome = mkWorkerTickOutcome 0 1 0 0) ∨
         (¬ of_the_provider error ∧ s' = release_reflect_job job s ∧
          outcome = mkWorkerTickOutcome 0 0 1 0)))).

Inductive compile_run : list ReflectJobRow → list StoreCall → N → Prop :=
| cr_done : compile_run [] [] 0
| cr_job job jobs calls rest n m :
    compiles job calls n → compile_run jobs rest m →
    compile_run (job :: jobs) (calls ++ rest) (n + m).

Definition released_call (job : ReflectJobRow) (c : StoreCall) : Prop :=
  c.2 = release_reflect_job job c.1 ∧ claim_is_current c.2 job = false.

(** What a lane does: it completes a prefix of its jobs; the next is handed
    back and the later ones are released; or the queue refuses to take the next
    one back, and the lane ends there. *)
Definition lane_spec (jobs : list ReflectJobRow) (calls : list StoreCall)
    (answer : result ServiceError.t WorkerTickOutcome) : Prop :=
  ∃ ran_ rest c1 c2 n, jobs = ran_ ++ rest ∧ calls = c1 ++ c2 ∧ compile_run ran_ c1 n ∧
    match rest with
    | [] => c2 = [] ∧ answer = Ok (mkWorkerTickOutcome n 0 0 0)
    | job :: later =>
        (∃ c3 c4 stop, c2 = c3 ++ c4 ∧ hands_back job c3 stop ∧ Forall2 released_call later c4 ∧
           answer = Ok (add_outcome (mkWorkerTickOutcome n 0 0 0)
             (add_outcome stop (mkWorkerTickOutcome 0 0 0 (N.of_nat (length later)))))) ∨
        (∃ s s' version e, c2 = [(s, s')] ∧ stale_compiler live (jr_job job) = Some version ∧
           requeue_reflect_job_with_compiler job version s = (s', Err e) ∧
           answer = Err (ServiceError.Core (CoreError.Store e)))
    end.

Lemma tick_outcome_eq o p : wt_completed o = wt_completed p → wt_failed o = wt_failed p →
  wt_retried o = wt_retried p → wt_deferred o = wt_deferred p → o = p.
Proof. destruct o, p. cbn. congruence. Qed.

Ltac same_counts := apply tick_outcome_eq; cbn; lia.

Lemma blocked_lane jobs outcome calls answer :
  thread_ran (run_lane live prepare compile (mkLaneRun outcome true) jobs) calls answer →
  Forall2 released_call jobs calls ∧
  answer = Ok (add_outcome outcome (mkWorkerTickOutcome 0 0 0 (N.of_nat (length jobs)))).
Proof.
  revert outcome calls. induction jobs as [|job jobs IH]; intros outcome calls; cbn [run_lane].
  - intros [-> ->]%ran_through_inv. split; [constructor|]. cbn. f_equal. same_counts.
  - unfold lane_step. cbn [lr_blocked lr_outcome].
    intros [(run & c1 & c2 & Hc & Hrest & ->)|(e & Hc & _)]%ran_try_bind;
      apply ran_one in Hc as (s & s' & [= <- Hrun] & ->).
    subst run. apply IH in Hrest as [Hrest ->]. cbn. split; [|f_equal; same_counts].
    constructor; [|done]. split; [done|apply settled_release].
Qed.

Lemma terminal_iff error :
  match error with Some error => is_terminal_provider_error error | None => false end = true ↔
  of_the_provider error.
Proof.
  unfold of_the_provider. split.
  - destruct error as [[[]| | | |]|]; try done; intros _; eexists; eauto.
  - by intros (why & [-> | ->]).
Qed.

Lemma hand_back job tried error outcome calls answer :
  stale_compiler live (jr_job job) = None → fails_with job tried error →
  thread_ran (fail_or_requeue job error (mkLaneRun outcome false)) calls answer →
  ∃ stop, hands_back job (tried ++ calls) stop ∧
    answer = Ok (mkLaneRun (add_outcome outcome stop) true).
Proof.
  intros Hs Hf. unfold fail_or_requeue. cbn [lr_outcome].
  destruct (match error with Some _ => _ | None => _ end) eqn:Et;
    intros (s & s' & [= <- <-] & ->)%ran_one.
  - exists (mkWorkerTickOutcome 0 1 0 0). split; [|do 2 f_equal; same_counts].
    exists tried, s, (fail_reflect_job job s). split_and!; [done|apply settled_fail|].
    right. split; [done|]. exists error. split; [done|]. left. by apply terminal_iff in Et.
  - exists (mkWorkerTickOutcome 0 0 1 0). split; [|do 2 f_equal; same_counts].
    exists tried, s, (release_reflect_job job s). split_and!; [done|apply settled_release|].
    right. split; [done|]. exists error. split; [done|]. right.
    split; [|done]. rewrite <-terminal_iff. by rewrite Et.
Qed.

Lemma lane_step_cases job outcome calls answer :
  thread_ran (lane_step live prepare compile (mkLaneRun outcome false) job) calls answer →
  (∃ n, compiles job calls n ∧
     answer = Ok (mkLaneRun (add_outcome outcome (mkWorkerTickOutcome n 0 0 0)) false)) ∨
  (∃ stop, hands_back job calls stop ∧ answer = Ok (mkLaneRun (add_outcome outcome stop) true)) ∨
  (∃ s s' version e, calls = [(s, s')] ∧ stale_compiler live (jr_job job) = Some version ∧
     requeue_reflect_job_with_compiler job version s = (s', Err e) ∧
     answer = Err (ServiceError.Core (CoreError.Store e))).
Proof.
  unfold lane_step. cbn [lr_blocked lr_outcome].
  destruct (stale_compiler live (jr_job job)) as [version|] eqn:Ev.
  { intros (s & s' & Hc & ->)%ran_one.
    destruct (requeue_reflect_job_with_compiler job version s) as [s1 [r|e]] eqn:Er; injection Hc as <- <-.
    - right; left. exists (mkWorkerTickOutcome 0 0 0 1). split; [|do 2 f_equal; same_counts].
      exists [], s, s1. split_and!; [done|by eapply settled_requeue|]. left. by exists version, r.
    - right; right. by exists s, s1, version, e. }
  intros (prepared & prep & c1 & Hp & Hrest & ->)%ran_bind.
  assert (∀ tried error, fails_with job tried error → ∀ c,
    thread_ran (fail_or_requeue job error (mkLaneRun outcome false)) c answer →
    ∃ stop, hands_back job (tried ++ c) stop ∧
      answer = Ok (mkLaneRun (add_outcome outcome stop) true)) as Hgive
    by (intros tried error Hf c; by apply hand_back).
  destruct prepared as [[p|e]|].
  - apply ran_bind in Hrest as (compiled & comp & c2 & Hc & Hrest & ->).
    destruct compiled as [[[]|e]|].
    + left. apply ran_one in Hrest as (s & s' & Hd & ->).
      pose proof (settled_complete job s) as Hsettled.
      destruct (complete_reflect_job job s) as [s1 completed] eqn:Ed. injection Hd as <- <-.
      eexists. split; [split; [done|]; exists prep, p, comp, s, s1, completed; by split_and!|].
      case_bool_decide; do 2 f_equal; same_counts.
    + right; left. rewrite app_assoc. apply (Hgive _ (Some e)); [|done]. right.
      by exists prep, p, comp, (Some (Err e)).
    + right; left. rewrite app_assoc. apply (Hgive _ None); [|done]. right. by exists prep, p, comp, None.
  - right; left. apply (Hgive _ (Some e)); [|done]. left. by exists (Some (Err e)).
  - right; left. apply (Hgive _ None); [|done]. left. by exists None.
Qed.

Lemma run_lane_spec jobs outcome calls answer :
  thread_ran (run_lane live prepare compile (mkLaneRun outcome false) jobs) calls answer →
  ∃ lane, lane_spec jobs calls lane ∧
    answer = match lane with Ok o => Ok (add_outcome outcome o) | Err e => Err e end.
Proof.
  revert outcome calls. induction jobs as [|job jobs IH]; intros outcome calls; cbn [run_lane].
  - intros [-> ->]%ran_through_inv. exists (Ok WorkerTickOutcome_default). split; [|cbn; f_equal; same_counts].
    exists [], [], [], [], 0. split_and!; [done|done|constructor|done|done].
  - intros [(run & c1 & c2 & Hstep & Hrest & ->)|(e & Hstep & ->)]%ran_try_bind;
      apply lane_step_cases in Hstep as [(n & Hc & Ha)|[(stop & Hh & Ha)|(s & s' & version & e' & -> & Hv & Hr & Ha)]];
      try done; injection Ha as ->.
    + apply IH in Hrest as (lane & (through_ & rest & d1 & d2 & m & -> & -> & Hrun & Hend) & ->).
      exists match lane with Ok o => Ok (add_outcome (mkWorkerTickOutcome n 0 0 0) o) | Err e => Err e end.
      split; [|destruct lane; [f_equal; same_counts|done]].
      exists (job :: through_), rest, (c1 ++ d1), d2, (n + m). split; [done|]. split; [by rewrite app_assoc|].
      split; [by constructor|]. destruct rest as [|stopped later].
      * destruct Hend as [-> ->]. split; [done|f_equal; same_counts].
      * destruct Hend as [(c3 & c4 & stop & -> & Hh & Hl & ->)|(s & s' & version & e & -> & Hv & Hr & ->)].
        -- left. exists c3, c4, stop. split_and!; [done..|f_equal; same_counts].
        -- right. by exists s, s', version, e.
    + apply blocked_lane in Hrest as [Hl ->].
      exists (Ok (add_outcome stop (mkWorkerTickOutcome 0 0 0 (N.of_nat (length jobs))))).
      split; [|f_equal; same_counts].
      exists [], (job :: jobs), [], (c1 ++ c2), 0. split_and!; [done|done|constructor|].
      left. exists c1, c2, stop. split_and!; [done..|f_equal; same_counts].
    + exists (Err (ServiceError.Core (CoreError.Store e'))). split; [|done].
      exists [], (job :: jobs), [], [(s, s')], 0. split_and!; [done|done|constructor|].
      right. by exists s, s', version, e'.
Qed.

Definition total_of (outcomes : list WorkerTickOutcome) : WorkerTickOutcome :=
  foldr add_outcome WorkerTickOutcome_default outcomes.

Lemma total_of_perm outcomes outcomes' : outcomes ≡ₚ outcomes' → total_of outcomes = total_of outcomes'.
Proof.
  unfold total_of. induction 1 as [|o l k _ IH|o p l|? ? ? _ -> _ ->]; cbn [foldr]; [done|by rewrite IH| |done].
  same_counts.
Qed.

Lemma total_ok acc outcomes total :
  try_fold (λ total outcome, lane <-? outcome; Ok (add_outcome total lane)) acc outcomes = Ok total →
  ∃ oks, outcomes = map (@Ok ServiceError.t _) oks ∧ total = add_outcome acc (total_of oks).
Proof.
  revert acc. induction outcomes as [|o outcomes IH]; intros acc; cbn [try_fold].
  - intros [= <-]. exists []. split; [done|]. unfold total_of. same_counts.
  - intros (acc1 & (lane & -> & [= <-])%result_bind_ok & Hrest)%result_bind_ok.
    apply IH in Hrest as (oks & -> & ->). exists (lane :: oks). split; [done|]. 
    change (total_of (lane :: oks)) with (add_outcome lane (total_of oks)). same_counts.
Qed.

Lemma total_err acc (outcomes : list (result ServiceError.t WorkerTickOutcome)) e :
  try_fold (λ total outcome, lane <-? outcome; Ok (add_outcome total lane)) acc outcomes = Err e →
  Err e ∈ outcomes.
Proof.
  revert acc. induction outcomes as [|o outcomes IH]; intros acc; cbn [try_fold]; [done|].
  destruct o as [lane|e']; cbn [result_bind]; [intros ?; right; eauto|intros [= ->]; left].
Qed.
End lanes.

(** The lane of a group of jobs. *)
Definition group_lane (jobs : list ReflectJobRow) : option (N * N * N * N * N) :=
  (λ job, lane (jr_job job)) <$> head jobs.

(** The claim in groups: each of the jobs of one lane, in the order of the
    claim, and every lane in one group. *)
Record grouped (jobs : list ReflectJobRow) (groups : list (list ReflectJobRow)) : Prop := {
  gr_all : concat groups ≡ₚ jobs;
  gr_order : Forall (λ group, group `sublist_of` jobs) groups;
  gr_lane : Forall (λ group, ∃ key, group_lane group = Some key ∧
                      Forall (λ job, lane (jr_job job) = key) group) groups;
  gr_once : NoDup (map group_lane groups);
}.

Lemma push_lane_keys job groups : Forall (λ group, group ≠ []) groups →
  map group_lane (push_lane job groups) = map group_lane groups ∨
  (map group_lane (push_lane job groups) = map group_lane groups ++ [Some (lane (jr_job job))] ∧
   Some (lane (jr_job job)) ∉ map group_lane groups).
Proof.
  induction 1 as [|group groups Hne _ IH]; cbn [push_lane].
  - right. split; [done|]. apply not_elem_of_nil.
  - destruct group as [|first group]; [done|].
    case_bool_decide as Ek; cbn [map]; [by left|].
    destruct IH as [->|[-> Hni]]; [by left|right]. split; [done|].
    intros [E|E]%elem_of_cons; [|done]. by apply Ek, eq_sym, (inj Some).
Qed.

Lemma push_lane_grouped job jobs groups :
  grouped jobs groups → grouped (jobs ++ [job]) (push_lane job groups).
Proof.
  intros [Hall Horder Hlane Honce].
  assert (Forall (λ group, group ≠ []) groups) as Hne.
  { eapply Forall_impl; [exact Hlane|]. by intros [|] (key & Hkey & _). }
  split.
  - rewrite <-Hall. clear. induction groups as [|[|first group] groups IH]; cbn [push_lane concat app].
    + done.
    + by rewrite IH.
    + case_bool_decide; cbn [concat].
      * cbn. apply Permutation_skip. rewrite <-!app_assoc. apply Permutation_app_head. apply (Permutation_app_comm [job]).
      * cbn. by rewrite IH, app_assoc.
  - assert (∀ group, group `sublist_of` jobs → group `sublist_of` jobs ++ [job]) as Hmore
      by (intros group; apply sublist_inserts_r).
    clear -Horder Hmore. induction groups as [|[|first group] groups IH]; cbn [push_lane].
    + constructor; [|constructor]. apply sublist_inserts_l. done.
    + apply Forall_cons in Horder as [Hg Hr]. constructor; [by apply Hmore|by apply IH].
    + apply Forall_cons in Horder as [Hg Hr]. case_bool_decide.
      * constructor; [|by eapply Forall_impl]. by apply sublist_app.
      * constructor; [by apply Hmore|by apply IH].
  - clear -Hlane. induction groups as [|[|first group] groups IH]; cbn [push_lane].
    + constructor; [|constructor]. eexists. split; [done|]. by apply Forall_singleton.
    + apply Forall_cons in Hlane as [(key & Hkey & _) _]. done.
    + apply Forall_cons in Hlane as [(key & Hkey & Hg) Hr]. case_bool_decide as Ek.
      * constructor; [|done]. exists key. split; [done|]. apply Forall_app_2; [done|].
        apply Forall_singleton. rewrite <-Ek. exact (inj Some _ _ Hkey).
      * constructor; [by exists key|by apply IH].
  - destruct (push_lane_keys job groups Hne) as [->|[-> Hni]]; [done|].
    apply NoDup_app. split_and!; [done| |apply NoDup_singleton]. set_solver.
Qed.

Lemma lanes_of_grouped jobs : grouped jobs (lanes_of jobs).
Proof.
  unfold lanes_of. induction jobs as [|job jobs IH] using rev_ind.
  - split; constructor.
  - rewrite foldl_app. by apply push_lane_grouped.
Qed.

(** C36: in whatever order the lanes of a tick take turns on the store - any
    schedule, any number in flight -, a tick hands its claim out to lanes, each
    job to the lane of its key and in the order of the claim; and it ends as an
    interleaving of the calls of its lanes, each of which completes a prefix of
    its jobs, hands the next one back - requeued for the live compiler, failed
    for an error of the provider, else released - and releases the later ones
    uncompiled; after the last call for a job its claim is no longer current.
    The tick counts what all lanes did, or fails as one of them did, because
    the queue would not take a job back. *)
Theorem tick_stops_lanes_in_order {P} `{HashOrder} live
    (prepare : ReflectJobRow → Thread (option (result ServiceError.t P)))
    compile limit schedule filter batch s s' r :
  worker_tick live prepare compile limit schedule filter batch s = (s', r) →
  let '(claimed, jobs) := claim_reflect_jobs filter batch s in
  ∃ groups runs, grouped jobs groups ∧
    interleaves (map (lane_thread live prepare compile) groups) claimed s' runs ∧
    Forall2 (λ group run, lane_spec live prepare compile group run.1 run.2) groups runs ∧
    match r with
    | Ok total => ∃ oks, map snd runs = map Ok oks ∧ total = total_of oks
    | Err e => Err e ∈ map snd runs
    end.
Proof.
  unfold worker_tick. destruct (claim_reflect_jobs filter batch s) as [claimed jobs].
  destruct (run_lanes _ _ _ _) as [s1 outcomes] eqn:Er. intros [= <- Hr].
  destruct (run_lanes_interleaves _ _ _ _ _ _ Er) as (runs & Hi & Hperm).
  exists (lanes_of jobs), runs. split; [apply lanes_of_grouped|]. split; [exact Hi|]. split.
  - apply interleaves_ran, Forall2_fmap_l in Hi. eapply Forall2_impl; [exact Hi|].
    intros group run Hrun. cbn in Hrun.
    apply run_lane_spec in Hrun as (lane & Hspec & ->).
    assert (∀ l, match l with Ok o => Ok (add_outcome WorkerTickOutcome_default o) | Err e => Err e end = l)
      as -> by (intros [[]|e]; done). exact Hspec.
  - destruct r as [total|e].
    + destruct (total_ok _ _ _ Hr) as (oks & -> & ->).
      symmetry in Hperm. apply Permutation_map_inv in Hperm as (oks' & E & Hoks).
      exists oks'. split; [exact E|]. rewrite (total_of_perm _ _ (Permutation_sym Hoks)).
      destruct (total_of _). done.
    + apply total_err in Hr. by rewrite <-Hperm.
Qed.
