(* ===== verification/ReflectFacts.v ===== *)
(** * ReflectFacts: subjects stay apart, trust is kept

    Phrases adopt the keys of open subjects one to one; no candidate of a job
    has more trust than its source. *)

From S2P Require Import Prelude Text Types Float Clock Bitemporal Lineage Store Txn Stage Jobs Binding Reads Capture.
From S2P Require Import TextFacts Chunks Gate Compile Dates Decimal Structured StructuredFacts Mining Prepare Reflect.

(** ** Aliases *)

(** The key of an open subject of the candidate's family, in other words. *)
Definition alias_of (existing : list OpenSubject) (candidate : ReflectCandidate) (key : string)
    : Prop :=
  ∃ subject, subject ∈ existing ∧ os_fact_key subject = key ∧
    os_family subject = match cd_subject candidate with
                        | Some subject => underscored (normalize_component subject)
                        | None => String.EmptyString
                        end ∧
    os_phrase subject ≠ default String.EmptyString (cd_predicate candidate).

Lemma better_alias_in l best r : foldl better_alias best l = Some r → best = Some r ∨ r ∈ l.
Proof.
  revert best. induction l as [|x l IH]; intros best; cbn [foldl]; [by left|].
  intros [Hb|Hr]%IH; [|right; by apply list_elem_of_further].
  unfold better_alias in Hb. assert (best = Some r ∨ x = r) as [->| ->]; [|by left|right; by left].
  destruct best as [b|]; [|right; by injection Hb].
  revert Hb. match goal with |- context [if ?b then _ else _] => destruct b end;
    intros [= <-]; [by left|by right].
Qed.

Lemma best_alias_spec threshold existing claimed candidate vector key :
  best_alias threshold existing claimed candidate vector = Some key →
  key ∉ claimed ∧ alias_of (map fst existing) candidate key.
Proof.
  unfold best_alias. intros ([score k] & Hf & [= <-])%fmap_Some.
  apply better_alias_in in Hf as [Hf|[Hf _]%elem_of_retain]; [done|].
  apply list_elem_of_fmap in Hf as ([subject v] & [= _ ->] & [Hin Hp]%elem_of_retain).
  apply andb_true_iff in Hp as [[Hfam Hph]%andb_true_iff Hcl].
  apply bool_decide_eq_true in Hfam. apply negb_true_iff, bool_decide_eq_false in Hph, Hcl.
  cbn [snd]. split; [done|]. exists subject. split_and!; [|done..].
  apply list_elem_of_fmap. by exists (subject, v).
Qed.

(** What a resolution leaves of the candidates, and whose keys it gave out:
    [keys] are the keys adopted so far. *)
Record aliases_resolved (existing : list OpenSubject) (owned : ReflectCandidate → string)
    (before after : list ReflectCandidate) (claimed : gset string) : Prop := {
  rs_length : length after = length before;
  rs_each : ∀ i c, before !! i = Some c → ∃ c', after !! i = Some c' ∧
    (c' = c ∨ ∃ key, c' = c <| cd_fact_key := Some key |> ∧ alias_eligible c = true ∧
       alias_of existing c key ∧ key ∈ claimed ∧ ∀ d, d ∈ before → owned d ≠ key);
  rs_claimed : ∀ c, c ∈ before → owned c ∈ claimed;
  rs_apart : ∀ i j c c' k, i ≠ j → after !! i = Some c → after !! j = Some c' →
    cd_fact_key c = Some k → (∀ d, d ∈ before → owned d ≠ k) → cd_fact_key c' ≠ Some k;
}.

Lemma resolve_alias_step existing owned before after claimed threshold slot vector candidates' claimed' :
  (∀ c k, cd_fact_key c = Some k → owned c = k) →
  aliases_resolved (map fst existing) owned before after claimed →
  (∀ c, before !! slot = Some c → after !! slot = Some c ∧ alias_eligible c = true) →
  resolve_alias threshold existing (after, claimed) (slot, vector) = (candidates', claimed') →
  aliases_resolved (map fst existing) owned before candidates' claimed' ∧
  ∀ j, j ≠ slot → candidates' !! j = after !! j.
Proof.
  intros Howned [Hlen Heach Hcl Hapart] Hslot. unfold resolve_alias.
  destruct (after !! slot) as [candidate|] eqn:Ea; [|by intros [= <- <-]].
  destruct (best_alias _ _ _ _ _) as [key|] eqn:Eb; [|by intros [= <- <-]].
  intros [= <- <-]. apply best_alias_spec in Eb as [Hfresh Halias].
  assert (∀ d, d ∈ before → owned d ≠ key) as Hnot by (intros d Hd <-; by apply Hfresh, Hcl).
  assert (before !! slot = Some candidate) as Eb.
  { destruct (before !! slot) as [c|] eqn:E; [destruct (Hslot c eq_refl); congruence|].
    apply lookup_lt_Some in Ea. apply lookup_ge_None in E. lia. }
  split; [|intros j Hj; by rewrite list_lookup_alter_ne].
  split.
  - by rewrite length_alter.
  - intros i c Hi. destruct (decide (i = slot)) as [->|Hne].
    + rewrite list_lookup_alter_eq, Ea. assert (c = candidate) as -> by congruence.
      eexists. split; [done|]. right. exists key.
      split_and!; [done|by apply Hslot|done|set_solver|done].
    + rewrite list_lookup_alter_ne by done. destruct (Heach i c Hi) as (c' & Hc' & Hor).
      exists c'. split; [done|]. destruct Hor as [->|(k & -> & He & Hk & Hin & Hd)]; [by left|].
      right. exists k. split_and!; [done..|set_solver|done].
  - intros c Hc. specialize (Hcl c Hc). set_solver.
  - assert (∀ j c, j ≠ slot → after !! j = Some c → cd_fact_key c ≠ Some key) as Hother.
    { intros j c Hj Hc Hk. pose proof (lookup_lt_Some _ _ _ Hc) as Hlt. rewrite Hlen in Hlt.
      apply lookup_lt_is_Some_2 in Hlt as [b Hb].
      destruct (Heach j b Hb) as (c' & Hc' & Hor). assert (c' = c) as -> by congruence.
      destruct Hor as [->|(k & -> & _ & _ & Hin & _)].
      - apply (Hnot b); [by eapply list_elem_of_lookup_2|]. by apply Howned.
      - injection Hk as ->. done. }
    intros i j c c' k Hij Hi Hj Hk Hd Hk'.
    destruct (decide (i = slot)) as [->|Hi'].
    + rewrite list_lookup_alter_eq, Ea in Hi. injection Hi as <-. injection Hk as <-.
      rewrite list_lookup_alter_ne in Hj by done. by eapply Hother.
    + rewrite list_lookup_alter_ne in Hi by done. destruct (decide (j = slot)) as [->|Hj'].
      * rewrite list_lookup_alter_eq, Ea in Hj. injection Hj as <-. injection Hk' as <-.
        by eapply (Hother i).
      * rewrite list_lookup_alter_ne in Hj by done. by eapply (Hapart i j).
Qed.

Lemma resolve_all existing owned before threshold slots after claimed candidates' claimed' :
  (∀ c k, cd_fact_key c = Some k → owned c = k) →
  NoDup (map fst slots) →
  (∀ slot c, slot ∈ map fst slots → before !! slot = Some c →
     after !! slot = Some c ∧ alias_eligible c = true) →
  aliases_resolved (map fst existing) owned before after claimed →
  foldl (resolve_alias threshold existing) (after, claimed) slots = (candidates', claimed') →
  aliases_resolved (map fst existing) owned before candidates' claimed'.
Proof.
  intros Howned. revert after claimed. induction slots as [|[slot vector] slots IH];
    intros after claimed Hnd Hslots Hres; cbn [foldl].
  { by intros [= <- <-]. }
  apply NoDup_cons in Hnd as [Hni Hnd]. destruct (resolve_alias _ _ _ _) as [after1 claimed1] eqn:E1.
  edestruct resolve_alias_step as [Hres1 Hframe]; [exact Howned|exact Hres| |exact E1|].
  { intros c Hc. apply Hslots; [by left|done]. }
  apply IH; [done| |done]. intros s c Hin Hc. rewrite Hframe by (by intros ->).
  apply Hslots; [by right|done].
Qed.

Section aliases.
Context `{HashOrder} `{Jiff} `{Sha256} `{EmbeddingProvider}.

Lemma eligible_spec candidates i : i ∈ eligible_indices candidates →
  ∃ c, candidates !! i = Some c ∧ alias_eligible c = true.
Proof.
  unfold eligible_indices. intros ([j c] & -> & [Hin He]%elem_of_retain)%list_elem_of_fmap.
  apply elem_of_imap_pair in Hin. by exists c.
Qed.

Lemma eligible_distinct candidates : NoDup (eligible_indices candidates).
Proof.
  unfold eligible_indices. eapply sublist_NoDup; [|apply (fmap_sublist fst), retain_sublist].
  assert (∀ n (l : list ReflectCandidate), map fst (imap (λ i x, (n + i, x)%nat) l) = seq n (length l)) as Hseq.
  { intros n l. revert n. induction l as [|x l IH]; intros n; [done|]. cbn. rewrite Nat.add_0_r. f_equal.
    rewrite <-IH. f_equal. apply imap_ext. intros. cbn. by rewrite Nat.add_succ_r. }
  assert (fst <$> imap pair candidates = seq 0 (length candidates)) as -> by exact (Hseq 0%nat candidates).
  apply NoDup_seq.
Qed.

Lemma owned_key_given scope c k : cd_fact_key c = Some k → owned_key scope c = k.
Proof. unfold owned_key. by intros ->. Qed.

Lemma resolution_start existing owned (candidates : list ReflectCandidate) :
  (∀ c k, cd_fact_key c = Some k → owned c = k) →
  aliases_resolved existing owned candidates candidates (list_to_set (map owned candidates)).
Proof.
  intros Howned. split.
  - done.
  - intros i c Hc. exists c. by split; [|left].
  - intros c Hc. rewrite elem_of_list_to_set. by apply list_elem_of_fmap_2.
  - intros i j c c' k _ Hi _ Hk Hd. exfalso. apply (Hd c); [by eapply list_elem_of_lookup_2|].
    by apply Howned.
Qed.

(** the resolution of subjects keeps them apart: each candidate is as it
    was, or is a phrase without key and targets that took the key of an open
    unit of its family with another phrase; and two candidates own one key
    afterwards only if they are unchanged and owned it before. *)
Theorem aliases_keep_subjects_apart threshold context candidates state after :
  resolve_subject_aliases threshold context candidates state = Ok after →
  let owned := owned_key (cx_scope_id context) in
  length after = length candidates ∧
  (∀ i c, candidates !! i = Some c → ∃ c', after !! i = Some c' ∧
     (c' = c ∨ ∃ key units, c' = c <| cd_fact_key := Some key |> ∧ alias_eligible c = true ∧
        fetch_scope_open_units state context = Ok units ∧
        alias_of (omap (open_subject (cx_scope_id context)) units) c key)) ∧
  (∀ i j c c', i ≠ j → after !! i = Some c → after !! j = Some c' → owned c = owned c' →
     candidates !! i = Some c ∧ candidates !! j = Some c').
Proof.
  intros Hok owned.
  assert (after = candidates ∨ ∃ units (existing : list (OpenSubject * list f32)) claimed,
            fetch_scope_open_units state context = Ok units ∧
            map fst existing `sublist_of` omap (open_subject (cx_scope_id context)) units ∧
            aliases_resolved (map fst existing) owned candidates after claimed) as Hcases.
  { revert Hok. unfold resolve_subject_aliases. destruct threshold as [threshold|]; [|by intros [= ->]; left].
    destruct (dimensions =? 0); [by intros [= ->]; left|].
    destruct (is_empty (eligible_indices _)); [by intros [= ->]; left|].
    intros (units & Hu%map_err_ok & Hok)%result_bind_ok.
    destruct (is_empty (omap _ _)); [by injection Hok as ->; left|].
    destruct (embed _) as [vectors|]; [|done].
    destruct (negb _) eqn:El; [by injection Hok as ->; left|]. injection Hok as <-. right.
    apply negb_false_iff, Nat.eqb_eq in El. rewrite length_app, !length_map in El.
    assert (map fst (zip (eligible_indices candidates)
              (take (length (eligible_indices candidates)) vectors)) = eligible_indices candidates) as Eslots
      by (apply fst_zip; rewrite length_take; lia).
    match goal with |- context [foldl ?f ?acc ?l] => destruct (foldl f acc l) as [after claimed'] eqn:Ef end.
    eexists units, _, claimed'. split; [done|]. split; cycle 1.
    - eapply resolve_all; [apply owned_key_given| | |apply resolution_start, owned_key_given|exact Ef].
      + rewrite Eslots. apply eligible_distinct.
      + intros slot c Hs Hc. rewrite Eslots in Hs.
        apply eligible_spec in Hs as (c' & Hc' & He). split; [done|]. congruence.
    - apply reflexive_eq, fst_zip. rewrite length_drop. lia. }
  destruct Hcases as [->|(units & existing & claimed & Hu & Hsub & [Hlen Heach Hcl Hapart])].
  { split_and!; [done| |by intros]. intros i c Hc. exists c. by split; [|left]. }
  split; [done|]. split.
  - intros i c Hc. destruct (Heach i c Hc) as (c' & Hc' & Hor). exists c'. split; [done|].
    destruct Hor as [->|(key & -> & He & (subject & Hin & Hrest) & _)]; [by left|].
    right. exists key, units. split_and!; [done..|]. exists subject. split; [|done].
    by eapply sublist_subseteq.
  - intros i j c c' Hij Hi Hj Hown.
    assert (∀ i j c c', i ≠ j → after !! i = Some c → after !! j = Some c' → owned c = owned c' →
              candidates !! i = Some c) as Hhalf; [|by split; [eapply Hhalf|eapply (Hhalf j i)]].
    clear i j c c' Hij Hi Hj Hown. intros i j c c' Hij Hi Hj Hown.
    assert (∀ i c, after !! i = Some c → ∃ b, candidates !! i = Some b ∧ (c = b ∨ ∃ key,
              cd_fact_key c = Some key ∧ owned c = key ∧ ∀ d, d ∈ candidates → owned d ≠ key)) as Hback.
    { intros k d Hk. pose proof (lookup_lt_Some _ _ _ Hk) as Hlt. rewrite Hlen in Hlt.
      apply lookup_lt_is_Some_2 in Hlt as [b Hb]. exists b. split; [done|].
      destruct (Heach k b Hb) as (d' & Hd' & Hor). assert (d' = d) as -> by congruence.
      destruct Hor as [->|(key & -> & _ & _ & _ & Hno)]; [by left|]. right. by exists key. }
    destruct (Hback i c Hi) as (b & Hb & [->|(key & Hk & Ho & Hno)]); [done|]. exfalso.
    destruct (Hback j c' Hj) as (b' & Hb' & [->|(key' & Hk' & Ho' & Hno')]).
    + apply (Hno b'); [by eapply list_elem_of_lookup_2|congruence].
    + apply (Hapart i j c c' key Hij Hi Hj Hk Hno). congruence.
Qed.
End aliases.

(** ** Candidates *)

Section candidates.
Context `{HashOrder} `{Jiff} `{Sha256} `{Calendar} `{SerdeJson} `{BatchJson} `{UnicodeAlphanumeric}.
Context `{StrDebug} `{EmbeddingProvider} `{PolicyJson}.

(** A prepared state is the projection of operations whose quotes stand in the
    source of the job. *)
Lemma prepared_is_projected provider job context s s' projected :
  prepare_structured_state (Some provider) job context s = (s', Ok projected) →
  projected = [] ∨ ∃ source ops,
    structured_source (jr_job job) context s = Ok (Some source) ∧
    Forall2 (projects (pp_source_kind source) (pp_local_source_id source) (pp_source_body source))
      ops projected.
Proof.
  unfold prepare_structured_state. destruct (structured_source _ _ _) as [[source|]|]; [|by intros [= _ <-]; left|done].
  intros (s1 & batches & _ & Hok)%op_bind_ok. apply op_bind_ok in Hok as (s2 & packets & _ & Hok).
  apply op_bind_ok in Hok as (s3 & [] & _ & Hok). apply op_bind_ok in Hok as (s4 & units & _ & Hok).
  apply op_result_ok in Hok as [_ Hok%map_err_ok]. right. exists source.
  unfold project_observations in Hok. apply result_bind_ok in Hok as (ops & _ & Hp). exists ops.
  split; [done|]. unfold project_structured_state in Hp.
  change (match pp_source_kind source with StructuredSourceKind.Episode => _ | _ => _ end)
    with (ranges_of (pp_source_kind source) (pp_source_body source)) in Hp.
  apply result_bind_ok in Hp as (acc & Hacc & [= <-]).
  destruct (project_all _ _ _ _ _ _ Hacc) as (new & -> & Hnew & _). done.
Qed.

(** The prepared state that is handed to the compilation, if it is: made by a
    preparation of the job on a store with the same source. *)
Definition prepared_for (service : MemoryService) (job : ReflectJobRow)
    (context : ResolvedMemoryContext) (state : InMemoryState)
    (prepared : option (list ProjectedStructuredState)) : Prop :=
  match prepared with
  | None => True
  | Some projected => ∃ s s',
      prepare_structured_state (sv_structured_state_provider service) job context s =
        (s', Ok projected) ∧
      structured_source (jr_job job) context s = structured_source (jr_job job) context state
  end.

(** The candidate of a projected state of the source. *)
Definition projected_candidate (job : ReflectJobRow) (context : ResolvedMemoryContext)
    (state : InMemoryState) (source_kind : string) (trust : TrustLevel.t) (actor : ActorId)
    (candidate : ReflectCandidate) : Prop :=
  ∃ source op p, structured_source (jr_job job) context state = Ok (Some source) ∧
    projects (pp_source_kind source) (pp_local_source_id source) (pp_source_body source) op p ∧
    candidate = projection_candidate source_kind trust actor p.

Lemma structured_candidates_grounded service job context prepared kind trust actor s s' cs :
  prepared_for service job context s prepared →
  structured_candidates service job context prepared kind trust actor s = (s', Ok cs) →
  Forall (projected_candidate job context s kind trust actor) cs.
Proof.
  intros Hfor. unfold structured_candidates.
  destruct (sv_structured_state_provider service) as [provider|] eqn:Ep.
  2:{ intros [_ [= <-]]%op_result_ok. constructor. }
  intros (s1 & projected & Hp & [_ [= <-]]%op_result_ok)%op_bind_ok.
  assert (∃ s0 s0', prepare_structured_state (Some provider) job context s0 = (s0', Ok projected) ∧
            structured_source (jr_job job) context s0 = structured_source (jr_job job) context s)
    as (s0 & s0' & Hprep & Hsame).
  { destruct prepared as [ps|].
    - apply op_result_ok in Hp as [_ [= ->]]. cbn in Hfor. by rewrite Ep in Hfor.
    - unfold op_core in Hp. destruct (prepare_structured_state _ _ _ s) as [s2 r] eqn:E.
      injection Hp as _ Hr%map_err_ok. subst r. by exists s, s2. }
  apply prepared_is_projected in Hprep as [->|(source & ops & Hsrc & Hall)]; [constructor|].
  apply Forall_map, Forall_forall. intros p Hin.
  apply list_elem_of_lookup in Hin as [i Hi].
  destruct (Forall2_lookup_r _ _ _ _ _ Hall Hi) as (op & _ & Hop).
  exists source, op, p. rewrite <-Hsame. done.
Qed.

(** What a candidate of an episode says. *)
Definition grounded_in_episode (service : MemoryService) (job : ReflectJobRow)
    (context : ResolvedMemoryContext) (state : InMemoryState) (episode : StoredEpisode)
    (candidate : ReflectCandidate) : Prop :=
  cd_actor_id candidate = ep_actor_id episode ∧
  cd_trust_level candidate = ep_source_trust episode ∧
  (cd_body candidate = ep_body episode ∨
   (∃ truncated, fit_capture_body_to_ceiling (ep_body episode) = Some (cd_body candidate, truncated)) ∨
   (∃ date, candidate ∈ extract_fact_candidates episode date) ∨
   projected_candidate job context state (ep_source_kind episode) (ep_source_trust episode)
     (ep_actor_id episode) candidate).

Lemma fact_candidate_source episode date candidate :
  candidate ∈ extract_fact_candidates episode date →
  cd_actor_id candidate = ep_actor_id episode ∧ cd_trust_level candidate = ep_source_trust episode.
Proof. intros (fact & -> & _)%list_elem_of_fmap. done. Qed.

Lemma projected_candidate_source job context s kind trust actor c :
  projected_candidate job context s kind trust actor c →
  cd_actor_id c = actor ∧ cd_trust_level c = trust.
Proof. by intros (source & op & p & _ & _ & ->). Qed.

(** C38: no candidate of a job has more trust than its source, or another actor,
    and each says what the source says: of an episode the body, the card of a
    capture, a mined fact, or a projected state whose quote stands in it. *)
Theorem episode_candidates_are_grounded service now job context prepared state state' input episode :
  qj_kind (jr_job job) = ReflectJobKind.ReflectEpisode →
  (∃ id, qj_episode_id (jr_job job) = Some id ∧ fetch_episode state context id = Ok (Some episode)) →
  prepared_for service job context state prepared →
  job_input service now job context prepared state = (state', Ok (Some input)) →
  ji_source_body input = Some (ep_body episode) ∧ ji_episode_id input = Some (ep_id episode) ∧
  Forall (grounded_in_episode service job context state episode) (ji_candidates input).
Proof.
  intros Hkind (id & Hid & Hfetch) Hfor. unfold job_input. rewrite Hkind, Hid.
  intros (s1 & found & Hread & Hok)%op_bind_ok.
  unfold op_store, op_core, op_read in Hread. rewrite Hfetch in Hread. injection Hread as <- <-.
  apply op_bind_ok in Hok as (s2 & candidates & Hcs & [_ [= <-]]%op_result_ok).
  split; [done|]. split; [done|]. cbn [ji_candidates].
  destruct (capture_episode_source (ep_source_ref episode)) as [source|].
  - apply op_result_ok in Hcs as [_ [= <-]].
    destruct (capture_episode_candidate _ _ _) as [c|] eqn:Ec; [|constructor].
    cbn. apply Forall_singleton. unfold capture_episode_candidate in Ec.
    destruct (fit_capture_body_to_ceiling _) as [[body truncated]|] eqn:Ef; [|done].
    injection Ec as <-. split; [done|]. split; [done|]. right. left. by exists truncated.
  - apply op_bind_ok in Hcs as (s3 & structured & Hst & [_ [= <-]]%op_result_ok).
    apply structured_candidates_grounded in Hst; [|done].
    unfold episode_candidates. destruct (content_date_of service episode) as [date valid_from].
    cbn [app]. apply Forall_cons. split; [split; [done|]; split; [done|]; by left|].
    apply Forall_app_2.
    + destruct (sv_fact_extraction_enabled service); [|constructor].
      apply Forall_forall. intros c Hc. destruct (fact_candidate_source _ _ _ Hc) as [Ha Ht].
      split_and!; [done|done|]. right. right. left. by exists date.
    + eapply Forall_impl; [exact Hst|]. intros c Hc.
      destruct (projected_candidate_source _ _ _ _ _ _ _ Hc) as [Ha Ht].
      split_and!; [done|done|]. by right; right; right.
Qed.
End candidates.
