(* ===== verification/Requests.v ===== *)
(** * Requests: what the verbs of the service are called with

    The request and result types of [crates/memphant-types/src/lib.rs] for the
    mutations, the canonical hash of a request
    ([crates/memphant-core/src/mutation_contract.rs]), and the checks of
    [crates/memphant-core/src/service.rs] that verbs share.  A request names
    its identity in five fields, here one record.  How a value is turned into
    JSON and JSON into bytes is [serde]'s, an interface; that the keys of an
    object are put in order before hashing is the code's. *)

From S2P Require Import Prelude Text Types Clock Bitemporal Store Txn Compile Prepare Reflect.

(** ** JSON *)

Inductive JsonValue : Set :=
| JNull
| JBool (b : bool)
| JNumber (text : string)
| JString (s : string)
| JArray (values : list JsonValue)
| JObject (entries : list (string * JsonValue)).

(** [serde_json::to_value] and [serde_json::to_vec] of a type. *)
Class Serialize (A : Type) := {
  to_value : A → result string JsonValue;
  to_vec : A → result string string;
}.

(** [serde_json::to_vec] of a value. *)
Class JsonWriter := write_value : JsonValue → result string string.

Definition member_leb (a b : string * JsonValue) : bool := negb (is_gt (str_cmp a.1 b.1)).

(** The code sorts the entries and then canonicalizes their values; the order
    depends on the keys alone. *)
Fixpoint canonicalize (value : JsonValue) : JsonValue :=
  match value with
  | JArray values => JArray (map canonicalize values)
  | JObject entries => JObject (sort_by member_leb (map (λ '(key, value), (key, canonicalize value)) entries))
  | scalar => scalar
  end.

(** ** Requests *)

Record RequestIdentity : Set := mkIdentity {
  id_subject_id : SubjectId;
  id_scope_id : ScopeId;
  id_actor_id : ActorId;
  id_agent_node_id : AgentNodeId;
  id_subject_generation : N;
}.

Record RetainEpisodePayload : Set := mkRetainEpisode {
  ple_source_kind : string;
  ple_body : string;
  ple_subject : option string;
  ple_predicate : option string;
}.

Record RetainResourcePayload : Set := mkRetainResource {
  plr_uri : string;
  plr_mime_type : string;
  plr_content_hash : string;
  plr_kind : option ResourceKind.t;
  plr_revision : option string;
  plr_body : option string;
}.

Record RetainUnitPayload : Set := mkRetainUnit {
  plu_kind : MemoryKind.t;
  plu_fact_key : option string;
  plu_subject : option string;
  plu_predicate : string;
  plu_body : string;
  plu_confidence : f32;
  plu_valid_from : option string;
  plu_valid_to : option string;
  plu_target_unit_ids : option (list UnitId);
}.

Module RetainPayload.
Inductive t : Set :=
| Episode (episode : RetainEpisodePayload)
| Resource (resource : RetainResourcePayload)
| Unit (unit : RetainUnitPayload).
End RetainPayload.

Record RetainEpisodeHttpRequest : Set := mkRetainRequest {
  rn_identity : RequestIdentity;
  rn_source_ref : string;
  rn_observed_at : string;
  rn_payload : RetainPayload.t;
}.
#[export] Instance RetainEpisodeHttpRequest_eta : Eta RetainEpisodeHttpRequest := λ r,
  mkRetainRequest (rn_identity r) (rn_source_ref r) (rn_observed_at r) (rn_payload r).

Record RetainEpisodeHttpResponse : Set := mkRetainResponse {
  rnr_episode_id : option EpisodeId;
  rnr_resource_id : option ResourceId;
  rnr_unit_ids : list UnitId;
  rnr_dedup : option DedupOutcome;
  rnr_assigned_trust : option TrustLevel.t;
  rnr_enqueued : list string;
  rnr_trace_ref : option string;
}.

Record ReflectRequest : Set := mkReflectRequest { rfq_identity : RequestIdentity }.
Record ReflectAccepted : Set := mkReflectAccepted { rfa_job_id : JobId }.

Record CorrectRequest : Set := mkCorrectRequest {
  crq_identity : RequestIdentity;
  crq_memory_unit_id : UnitId;
  crq_correction : CorrectionPayload;
}.
#[export] Instance CorrectRequest_eta : Eta CorrectRequest := λ r,
  mkCorrectRequest (crq_identity r) (crq_memory_unit_id r) (crq_correction r).

Record ForgetRequest : Set := mkForgetRequest {
  fgq_identity : RequestIdentity;
  fgq_selector : ForgetSelector;
  fgq_reason : string;
}.

Record ForgetResult : Set := mkForgetResult {
  fgr_deletion_generation : N;
  fgr_policy : string;
  fgr_invalidated_units : list UnitId;
  fgr_verification : string;
  fgr_trace_ref : option string;
}.

Record EraseSubjectRequest : Set := mkEraseRequest {
  erq_identity : RequestIdentity;
  erq_reason : string;
}.

Record EraseSubjectResult : Set := mkEraseResult {
  err_generation : N;
  err_erased_at : string;
}.

Record MarkRequest : Set := mkMarkRequest {
  mkq_identity : RequestIdentity;
  mkq_trace_id : TraceId;
  mkq_caller_id : string;
  mkq_used_ids : list UnitId;
  mkq_outcome : MarkOutcome.t;
}.

Record MarkResult : Set := mkMarkResult {
  mkr_accepted : bool;
  mkr_trace_id : TraceId;
}.

(** The identity-free requests of a coding agent. *)
Record MemorySourceInput : Set := mkMemorySource {
  src_kind : string;
  src_ref : string;
  src_observed_at : string;
  src_episode_id : option EpisodeId;
  src_resource_id : option ResourceId;
}.

Record RememberRequest : Set := mkRememberRequest {
  rmb_kind : MemoryKind.t;
  rmb_body : string;
  rmb_trigger : string;
  rmb_verification : string;
  rmb_target_scope_id : option ScopeId;
  rmb_valid_from : option string;
  rmb_valid_to : option string;
  rmb_source : MemorySourceInput;
}.

Record CorrectMemoryRequest : Set := mkCorrectMemory {
  cmq_memory_unit_id : UnitId;
  cmq_body : string;
  cmq_trigger : string;
  cmq_verification : string;
  cmq_reason : string;
  cmq_valid_from : option string;
  cmq_valid_to : option string;
  cmq_source : MemorySourceInput;
}.

Record InvalidateMemoryRequest : Set := mkInvalidateMemory {
  ivq_memory_unit_id : UnitId;
  ivq_reason_kind : InvalidationReason.t;
  ivq_reason : string;
  ivq_source : MemorySourceInput;
}.

Record ReportMemoryUseRequest : Set := mkReportUse {
  rpu_trace_id : TraceId;
  rpu_outcome : MarkOutcome.t;
  rpu_used_ids : list UnitId;
}.

Definition COMPACT_ENVELOPE_SCHEMA_VERSION : N := 1.
Definition COMPACT_WRITE_CHANNEL_AGENT : string := "agent_memory".

(** ** Shared checks *)

Definition core_error (error : CoreError.t) : ServiceError.t := ServiceError.Core error.
Definition store_error (error : StoreError.t) : ServiceError.t :=
  ServiceError.Core (CoreError.Store error).

(** [if condition { return Err(error) }]. *)
Definition reject_if {E} (condition : bool) (error : E) : result E () :=
  if condition then Err error else Ok ().

(** The request names the resolved context. *)
Definition identity_matches (identity : RequestIdentity) (context : ResolvedMemoryContext) : bool :=
  (id_subject_id identity =? cx_data_subject_id context) &&
  (id_scope_id identity =? cx_scope_id context) &&
  (id_actor_id identity =? cx_actor_id context) &&
  (id_agent_node_id identity =? cx_agent_node_id context) &&
  (id_subject_generation identity =? cx_subject_generation context).

Definition identity_of (context : ResolvedMemoryContext) : RequestIdentity :=
  mkIdentity (cx_data_subject_id context) (cx_scope_id context) (cx_actor_id context)
    (cx_agent_node_id context) (cx_subject_generation context).

Definition non_blank (value : option string) : option string :=
  value ← value;
  let value := trim (bytes_of value) in
  if is_empty value then None else Some (string_of_bytes value).

(** The first of the named fields that is blank. *)
Fixpoint check_not_blank (fields : list (string * string)) : result ServiceError.t () :=
  match fields with
  | [] => Ok ()
  | (field, value) :: fields =>
      _ <-? reject_if (trim_is_empty value)
              (ServiceError.Invalid (field +:+ " must not be blank"));
      check_not_blank fields
  end.

Section requests.
Context `{Jiff}.

Definition ends_with (suffix value : string) : bool :=
  starts_with (rev (bytes_of suffix)) (rev (bytes_of value)).

Definition canonical_utc_timestamp (value field : string) : result ServiceError.t string :=
  _ <-? reject_if (negb (ends_with "Z" value || ends_with "+00:00" value))
          (ServiceError.Invalid (field +:+ " must use a UTC offset"));
  match parse_timestamp value with
  | Some instant => Ok (fmt_rfc3339 instant)
  | None => Err (ServiceError.Invalid (field +:+ " must be RFC3339"))
  end.

(** A blank stamp stands for the clock of the server. *)
Definition resolve_source_observed_at (value now : string) : result ServiceError.t string :=
  if trim_is_empty value then Ok now else canonical_utc_timestamp value "source.observed_at".

(** The one-card render of a compact memory. *)
Definition rendered_card (body trigger verification : string) (source : MemorySourceInput) : string :=
  let eol := String.String (Ascii.ascii_of_nat 10) String.EmptyString in
  body +:+ eol +:+ trigger +:+ eol +:+ verification +:+ eol +:+
  src_kind source +:+ ":" +:+ src_ref source.
End requests.

(** ** The hash of a request *)

Definition nul : string := String.String (Ascii.ascii_of_nat 0) String.EmptyString.
Definition HASH_DOMAIN : string := "memphant-mutation-v1" +:+ nul.

Definition invalid_request (error : string) : StoreError.t :=
  StoreError.Conflict ("invalid mutation request: " +:+ error).

(** The digest is held as its hexadecimal text. *)
Definition canonical_mutation_request_hash {A} `{Sha256} `{JsonWriter} `{Serialize A}
    (verb : MutationVerb.t) (request : A) : result StoreError.t string :=
  value <-? map_err invalid_request (to_value request);
  bytes <-? map_err invalid_request (write_value (canonicalize value));
  Ok (sha256_hex (HASH_DOMAIN +:+ MutationVerb.as_str verb +:+ nul +:+ bytes)).

Definition claim_for {A} `{Sha256} `{JsonWriter} `{Serialize A} (context : ResolvedMemoryContext)
    (verb : MutationVerb.t) (idempotency_key : string) (request : A)
    : result ServiceError.t MutationClaim :=
  request_hash <-? map_err store_error (canonical_mutation_request_hash verb request);
  map_err store_error (MutationClaim_new context verb idempotency_key request_hash).

Definition serialized_mutation_response {A} `{Serialize A} (status : N) (value : A)
    : result ServiceError.t MutationResponse :=
  body <-? map_err (λ error, store_error (StoreError.Backend
             ("mutation response serialization failed: " +:+ error))) (to_vec value);
  map_err store_error (MutationResponse_success status body).
