(* ===== verification/Verbs.v ===== *)
(** * Verbs: the mutations of the service

    [retain], [remember], [reflect], [correct], [correct_memory],
    [invalidate_memory], [forget], [erase_subject], [mark] and
    [report_memory_use] of [crates/memphant-core/src/service.rs], and
    [record_mark] of [crates/memphant-core/src/lib.rs].  A verb checks its
    request, hashes it into a claim, and then runs one transaction: it stages
    the claim, answers a replay from the ledger, or stages its rows and its
    response and commits.  [remember], [correct] and a direct unit first probe
    the ledger in a transaction of its own and prepare their rows outside of
    any.  Other callers run while a verb prepares and before it commits: what
    they do to the store is an argument.  Fresh identifiers and the readings of
    the clocks are arguments. *)

From S2P Require Import Prelude Text Types Float Clock Bitemporal Lineage Store Txn Stage Binding Reads Capture.
From S2P Require Import Gate Rerank Structured Compile Mining Prepare Reflect Requests.

(** ** Operations of a transaction *)

Definition TxOp (A : Type) : Type :=
  InMemoryState → InMemoryTxn → InMemoryTxn * result ServiceError.t A.

Definition tx_result {A} (r : result ServiceError.t A) : TxOp A := λ _ tx, (tx, r).
Definition tx_bind {A B} (m : TxOp A) (k : A → TxOp B) : TxOp B := λ store tx,
  let '(tx, r) := m store tx in
  match r with Ok a => k a store tx | Err e => (tx, Err e) end.

Notation "x <# m ; k" := (tx_bind m (λ x, k))
  (at level 100, m at next level, right associativity) : mem_scope.

(** A staging operation of the store. *)
Definition staging_by {A} (error : StoreError.t → ServiceError.t)
    (f : InMemoryState → InMemoryTxn → InMemoryTxn * result StoreError.t A) : TxOp A := λ store tx,
  let '(tx, r) := f store tx in (tx, map_err error r).

Definition staged {A} (f : InMemoryState → InMemoryTxn → InMemoryTxn * result StoreError.t A)
    : TxOp A := staging_by store_error f.

(** A missing target is reported as such. *)
Definition target_error (error : StoreError.t) : ServiceError.t :=
  match error with
  | StoreError.NotFound entity => core_error (CoreError.NotFound entity)
  | other => store_error other
  end.

(** A read of the committed store. *)
Definition tx_read {A} (f : InMemoryState → result StoreError.t A) : TxOp A := λ store tx,
  (tx, map_err store_error (f store)).

(** ** What a verb is given *)

(** When other callers get their turn: after a lookup of the ledger, between
    two reads, while a verb prepares and before it commits. *)
Module Window.
Inductive t : Set := Looking | Reading | Preparing | Committing | Viewing.
End Window.

(** The clock of the store when the probe and the transaction begin, and the
    clock of the service. *)
Record Instants : Set := mkInstants {
  in_probe : Z;
  in_begin : Z;
  in_now : string;
}.

Record VerbIds : Set := mkVerbIds {
  fresh_episode : EpisodeId;
  fresh_resource : ResourceId;
  fresh_job : JobId;
  fresh_reinforcement : JobId;
  fresh_unit : nat → UnitId;
  fresh_edge : nat → EdgeId;
  fresh_citation : nat → Uuid;
}.

(** [CorrectionUnitIds::new]. *)
Definition correction_ids (fresh : VerbIds) : CorrectionUnitIds :=
  mkCorrectionUnitIds (fresh_unit fresh 0) (fresh_unit fresh 1, fresh_unit fresh 2).

(** ** Deduplication of episodes *)

Definition derive_episode_dedup_key `{Sha256} (source_kind source_ref body : string) : string :=
  framed_sha256 [normalize_component source_kind; source_ref; normalize_component body].

(** ** Reinforcement of captured units *)

Definition reinforced_unit (episode_id : EpisodeId) (unit : StoredMemoryUnit) : bool :=
  is_some (mu_capture unit) && bool_decide (mu_source_episode_id unit = Some episode_id) &&
  is_candidate_active_or_validated (mu_state unit).

Definition reinforcement_write (context : ResolvedMemoryContext) (job_id : JobId)
    (episode_id : EpisodeId) (unit_updates : list UnitUpdate) : CompiledWrite := {|
  wr_job_id := job_id;
  wr_compiler_version := COMPILER_VERSION;
  wr_new_units := [];
  wr_new_edges := [];
  wr_citations := [];
  wr_unit_updates := unit_updates;
  wr_trace := {|
    rt_tenant_id := cx_tenant_id context;
    rt_scope_id := cx_scope_id context;
    rt_job_id := job_id;
    rt_episode_id := Some episode_id;
    rt_resource_id := None;
    rt_compiler_version := COMPILER_VERSION;
    rt_cost_units := N.land (N.of_nat (length unit_updates)) u32_max;
    rt_actions := repeat AdmissionAction.Merge (length unit_updates);
    rt_stages := [] |};
  wr_embedding_profile := None;
  wr_embeddings := [];
|}.

Section verbs.
Context `{HashOrder} `{Jiff} `{Sha256} `{StrDebug} `{EmbeddingProvider} `{ReceiptJson} `{JsonWriter}.
Context `{Serialize RetainEpisodeHttpRequest} `{Serialize ReflectRequest} `{Serialize CorrectRequest}.
Context `{Serialize ForgetRequest} `{Serialize EraseSubjectRequest} `{Serialize MarkRequest}.
Context `{Serialize RememberRequest} `{Serialize CorrectMemoryRequest} `{Serialize InvalidateMemoryRequest}.
Context `{Serialize RetainEpisodeHttpResponse} `{Serialize ReflectAccepted} `{Serialize CorrectResult}.
Context `{Serialize ForgetResult} `{Serialize EraseSubjectResult} `{Serialize MarkResult}.
Context (a_recency_control_enabled : bool) (meanwhile : Window.t → InMemoryState → InMemoryState).

Definition reinforce_captured_episode_units (context : ResolvedMemoryContext) (now : string)
    (job_id : JobId) (episode_id : EpisodeId) : TxOp () :=
  units <# staged fetch_scope_open_units_in_tx;
  let unit_updates :=
    map (λ unit, mkUnitUpdate (mu_id unit) (mu_state unit) None (Some now))
      (retain (reinforced_unit episode_id) units) in
  if is_empty unit_updates then tx_result (Ok ())
  else
    _ <# staged (λ store, stage_compiled_units store None
                   (reinforcement_write context job_id episode_id unit_updates));
    tx_result (Ok ()).

(** ** The transaction of a verb *)

(** Serializes the result and stages it as the response. *)
Definition respond {A} `{Serialize A} (status : N) (value : A) : TxOp MutationResponse :=
  response <# tx_result (serialized_mutation_response status value);
  _ <# staged (λ _, stage_mutation_response response);
  tx_result (Ok response).

(** The probe: a transaction that only asks the ledger. *)
Definition probe (context : ResolvedMemoryContext) (clock : Z) (claim : MutationClaim)
    : Op ServiceError.t (option MutationResponse) := λ store,
  let '(store, tx, claimed) := stage_mutation_claim store claim (begin_at context clock) in
  match claimed with
  | Err error => (store, Err (store_error error))
  | Ok (MutationClaimOutcome.Replay response) =>
      match commit store tx with
      | Err error => (store, Err (store_error error))
      | Ok store => (store, Ok (Some response))
      end
  | Ok MutationClaimOutcome.Execute => (store, Ok None)
  end.

(** Begin, claim, then replay or stage, and commit; [after] follows the commit
    of an execution.  How errors of the store are reported is the verb's. *)
Definition transact_by (claim_error commit_error : StoreError.t → ServiceError.t)
    (context : ResolvedMemoryContext) (clock : Z) (claim : MutationClaim)
    (execute : TxOp MutationResponse) (after : Op ServiceError.t ())
    : Op ServiceError.t MutationResponse := λ store,
  let '(store, tx, claimed) := stage_mutation_claim store claim (begin_at context clock) in
  match claimed with
  | Err error => (store, Err (claim_error error))
  | Ok (MutationClaimOutcome.Replay response) =>
      match commit store tx with
      | Err error => (store, Err (commit_error error))
      | Ok store => (store, Ok response)
      end
  | Ok MutationClaimOutcome.Execute =>
      let '(tx, executed) := execute store tx in
      match executed with
      | Err error => (store, Err error)
      | Ok response =>
          let store := meanwhile Window.Committing store in
          match commit store tx with
          | Err error => (store, Err (commit_error error))
          | Ok store => (_ <~ after; op_result (Ok response)) store
          end
      end
  end.

Definition transact_then : ResolvedMemoryContext → Z → MutationClaim → TxOp MutationResponse →
    Op ServiceError.t () → Op ServiceError.t MutationResponse :=
  transact_by store_error store_error.

Definition transact (context : ResolvedMemoryContext) (clock : Z) (claim : MutationClaim)
    (execute : TxOp MutationResponse) : Op ServiceError.t MutationResponse :=
  transact_then context clock claim execute (op_result (Ok ())).

(** The probe answers, or the rows are prepared on the store of that time and
    written by [execute]. *)
Definition probe_then {A} (context : ResolvedMemoryContext) (at_ : Instants) (claim : MutationClaim)
    (prepare : InMemoryState → result ServiceError.t A) (execute : A → TxOp MutationResponse)
    : Op ServiceError.t MutationResponse :=
  probed <~ probe context (in_probe at_) claim;
  match probed with
  | Some response => op_result (Ok response)
  | None => λ store,
      match prepare store with
      | Err error => (store, Err error)
      | Ok prepared =>
          transact context (in_begin at_) claim (execute prepared) (meanwhile Window.Preparing store)
      end
  end.

(** ** Retain *)

Definition is_source_kind (source_kind : string) : bool :=
  bool_decide (source_kind ∈ ["user"; "agent"; "tool"; "web"; "resource"; "system"]).

Definition confidence_ok (confidence : f32) : bool :=
  f32_is_finite confidence && f32_le f32_zero confidence && f32_le confidence f32_one.

(** The trust of an episode is no higher than its source kind earns. *)
Definition floored_trust (source_kind : string) (assigned_trust : TrustLevel.t) : TrustLevel.t :=
  let source_ceiling := actor_kind_trust source_kind in
  if trust_risk_rank assigned_trust <? trust_risk_rank source_ceiling
  then source_ceiling else assigned_trust.

Definition check_retain_payload (assigned_trust : TrustLevel.t) (payload : RetainPayload.t)
    : result ServiceError.t TrustLevel.t :=
  match payload with
  | RetainPayload.Episode episode =>
      _ <-? reject_if (negb (is_source_kind (ple_source_kind episode)))
              (ServiceError.Invalid
                 "episode source_kind must be one of user, agent, tool, web, resource, system");
      _ <-? reject_if (trim_is_empty (ple_body episode)) (core_error CoreError.EmptyBody);
      Ok (floored_trust (ple_source_kind episode) assigned_trust)
  | RetainPayload.Unit unit =>
      _ <-? reject_if (trim_is_empty (plu_body unit)) (core_error CoreError.EmptyBody);
      let keyed := is_some (non_blank (plu_fact_key unit)) || is_some (non_blank (plu_subject unit)) in
      _ <-? reject_if (negb keyed || trim_is_empty (plu_predicate unit))
              (ServiceError.Invalid
                 "unit retain requires a predicate and either a subject or a fact_key");
      _ <-? reject_if (negb (confidence_ok (plu_confidence unit)))
              (ServiceError.Invalid "unit confidence must be finite and between 0 and 1");
      _ <-? map_err core_error (validate_valid_interval (plu_valid_from unit) (plu_valid_to unit));
      Ok assigned_trust
  | RetainPayload.Resource _ => Ok assigned_trust
  end.

(** The checked request: its stamp is canonical and its trust settled. *)
Definition check_retain (context : ResolvedMemoryContext) (assigned_trust : TrustLevel.t)
    (request : RetainEpisodeHttpRequest)
    : result ServiceError.t (TrustLevel.t * RetainEpisodeHttpRequest) :=
  _ <-? reject_if (negb (identity_matches (rn_identity request) context))
          (ServiceError.Invalid "retain request identity must match the resolved context");
  _ <-? reject_if (trim_is_empty (rn_source_ref request))
          (ServiceError.Invalid "source_ref must not be blank");
  observed_at <-? canonical_utc_timestamp (rn_observed_at request) "observed_at";
  assigned_trust <-? check_retain_payload assigned_trust (rn_payload request);
  Ok (assigned_trust, request <| rn_observed_at := observed_at |>).

(** The compiler version the job of a source is queued under. *)
Definition source_compiler_version (service : MemoryService) : string :=
  match sv_structured_state_provider service with
  | Some provider => service_structured_compiler_identity COMPILER_VERSION provider
  | None => COMPILER_VERSION
  end.

Definition context_job (context : ResolvedMemoryContext) (kind : ReflectJobKind.t)
    (episode_id : option EpisodeId) (resource_id : option ResourceId) (compiler_version : string)
    (subject predicate : option string) : ReflectJob := {|
  rj_tenant_id := cx_tenant_id context;
  rj_data_subject_id := cx_data_subject_id context;
  rj_scope_id := cx_scope_id context;
  rj_actor_id := cx_actor_id context;
  rj_agent_node_id := cx_agent_node_id context;
  rj_subject_generation := cx_subject_generation context;
  rj_episode_id := episode_id;
  rj_resource_id := resource_id;
  rj_kind := kind;
  rj_compiler_version := compiler_version;
  rj_subject := subject;
  rj_predicate := predicate;
|}.

Definition retained_resource (context : ResolvedMemoryContext) (assigned_trust : TrustLevel.t)
    (request : RetainEpisodeHttpRequest) (resource : RetainResourcePayload) : NewResource := {|
  nr_tenant_id := cx_tenant_id context;
  nr_data_subject_id := cx_data_subject_id context;
  nr_scope_id := cx_scope_id context;
  nr_actor_id := cx_actor_id context;
  nr_agent_node_id := cx_agent_node_id context;
  nr_subject_generation := cx_subject_generation context;
  nr_uri := plr_uri resource;
  nr_source_ref := rn_source_ref request;
  nr_observed_at := rn_observed_at request;
  nr_kind := default ResourceKind.Other (plr_kind resource);
  nr_content_hash := plr_content_hash resource;
  nr_mime_type := plr_mime_type resource;
  nr_revision := plr_revision resource;
  nr_body := plr_body resource;
  nr_source_trust := assigned_trust;
  nr_acl := mkResourceAcl [] None None;
|}.

Definition retain_resource (service : MemoryService) (fresh : VerbIds)
    (context : ResolvedMemoryContext) (assigned_trust : TrustLevel.t)
    (request : RetainEpisodeHttpRequest) (resource : RetainResourcePayload)
    : TxOp MutationResponse :=
  resource_id <# staged (λ _, stage_resource (fresh_resource fresh)
                           (retained_resource context assigned_trust request resource));
  _ <# staged (λ store, enqueue_reflect store (fresh_job fresh)
         (context_job context ReflectJobKind.ReflectResource None (Some resource_id)
            (source_compiler_version service) None None));
  respond 200 {|
    rnr_episode_id := None; rnr_resource_id := Some resource_id; rnr_unit_ids := [];
    rnr_dedup := None; rnr_assigned_trust := Some assigned_trust;
    rnr_enqueued := ["reflect_resource"]; rnr_trace_ref := None |}.

Definition retained_episode (context : ResolvedMemoryContext) (assigned_trust : TrustLevel.t)
    (request : RetainEpisodeHttpRequest) (episode : RetainEpisodePayload) : NewEpisode := {|
  ne_tenant_id := cx_tenant_id context;
  ne_data_subject_id := cx_data_subject_id context;
  ne_scope_id := cx_scope_id context;
  ne_actor_id := cx_actor_id context;
  ne_agent_node_id := cx_agent_node_id context;
  ne_subject_generation := cx_subject_generation context;
  ne_source_kind := ple_source_kind episode;
  ne_source_ref := rn_source_ref request;
  ne_observed_at := rn_observed_at request;
  ne_source_trust := assigned_trust;
  ne_dedup_key := derive_episode_dedup_key (ple_source_kind episode) (rn_source_ref request)
                    (ple_body episode);
  ne_body := ple_body episode;
|}.

Definition retain_episode (service : MemoryService) (at_ : Instants) (fresh : VerbIds)
    (context : ResolvedMemoryContext) (assigned_trust : TrustLevel.t)
    (request : RetainEpisodeHttpRequest) (episode : RetainEpisodePayload)
    : TxOp MutationResponse :=
  outcome <# staged (λ store, stage_episode store (fresh_episode fresh)
                       (retained_episode context assigned_trust request episode));
  _ <# (if do_matched (ro_dedup outcome) && is_some (capture_episode_source (rn_source_ref request))
        then reinforce_captured_episode_units context (in_now at_) (fresh_reinforcement fresh)
               (ro_episode_id outcome)
        else tx_result (Ok ()));
  _ <# staged (λ store, enqueue_reflect store (fresh_job fresh)
         (context_job context ReflectJobKind.ReflectEpisode (Some (ro_episode_id outcome)) None
            (source_compiler_version service) (non_blank (ple_subject episode))
            (non_blank (ple_predicate episode))));
  respond 200 {|
    rnr_episode_id := Some (ro_episode_id outcome); rnr_resource_id := None; rnr_unit_ids := [];
    rnr_dedup := Some (ro_dedup outcome); rnr_assigned_trust := Some assigned_trust;
    rnr_enqueued := ["reflect_episode"]; rnr_trace_ref := None |}.

(** The input of a write that no source stands behind. *)
Definition direct_input (context : ResolvedMemoryContext) (job_id : JobId)
    (source_ref observed_at body : string) (candidate : ReflectCandidate) : ReflectInput := {|
  rx_tenant_id := cx_tenant_id context;
  rx_data_subject_id := cx_data_subject_id context;
  rx_scope_id := cx_scope_id context;
  rx_agent_node_id := cx_agent_node_id context;
  rx_subject_generation := cx_subject_generation context;
  rx_actor_id := cx_actor_id context;
  rx_source_ref := source_ref;
  rx_observed_at := observed_at;
  rx_source_body := Some body;
  rx_episode_id := None;
  rx_resource_id := None;
  rx_job_id := job_id;
  rx_compiler_version := COMPILER_VERSION;
  rx_candidates := [candidate];
|}.

Definition unit_candidate (context : ResolvedMemoryContext) (assigned_trust : TrustLevel.t)
    (unit : RetainUnitPayload) : ReflectCandidate := {|
  cd_source_kind := "direct";
  cd_trust_level := assigned_trust;
  cd_actor_id := cx_actor_id context;
  cd_subject := non_blank (plu_subject unit);
  cd_predicate := Some (plu_predicate unit);
  cd_fact_key := non_blank (plu_fact_key unit);
  cd_kind := Some (plu_kind unit);
  cd_body := plu_body unit;
  cd_confidence := Some (plu_confidence unit);
  cd_churn_class := None;
  cd_admission_hint := None;
  cd_contextual_chunks := [];
  cd_valid_from := plu_valid_from unit;
  cd_valid_to := plu_valid_to unit;
  cd_target_unit_ids := plu_target_unit_ids unit;
  cd_compact := None;
  cd_capture := None;
|}.

(** Compiles the input outside of a transaction; an earlier compilation of a
    fresh job is an error. *)
Definition prepare_direct (fresh : VerbIds) (now : string) (context : ResolvedMemoryContext)
    (input : ReflectInput) (unexpected : string) (store : InMemoryState)
    : result ServiceError.t (list UnitId * CompiledWrite) :=
  prepared <-? map_err core_error
    (prepare_compiled_write a_recency_control_enabled (fresh_unit fresh) (fresh_edge fresh)
       (fresh_citation fresh) store input now context);
  match prepared with
  | PreparedCompiledWrite.Write created write => Ok (created, write)
  | PreparedCompiledWrite.Existing _ => Err (store_error (StoreError.Conflict unexpected))
  end.

(** Stages a prepared write and reports what it created. *)
Definition write_direct (assigned_trust : TrustLevel.t) (prepared : list UnitId * CompiledWrite)
    : TxOp MutationResponse :=
  let '(unit_ids, write) := prepared in
  _ <# staged (λ store, stage_compiled_units store None write);
  respond 200 {|
    rnr_episode_id := None; rnr_resource_id := None; rnr_unit_ids := unit_ids;
    rnr_dedup := None; rnr_assigned_trust := Some assigned_trust; rnr_enqueued := [];
    rnr_trace_ref := Some ("memphant://trace/" +:+ uuid_string (rt_job_id (wr_trace write))) |}.

Definition retain_unit (at_ : Instants) (fresh : VerbIds) (context : ResolvedMemoryContext)
    (claim : MutationClaim) (assigned_trust : TrustLevel.t) (request : RetainEpisodeHttpRequest)
    (unit : RetainUnitPayload) : Op ServiceError.t MutationResponse :=
  probe_then context at_ claim
    (prepare_direct fresh (in_now at_) context
       (direct_input context (fresh_job fresh) (rn_source_ref request) (rn_observed_at request)
          (plu_body unit) (unit_candidate context assigned_trust unit))
       "new direct retain unexpectedly matched an existing reflect trace")
    (write_direct assigned_trust).

Definition retain_verb (service : MemoryService) (at_ : Instants) (fresh : VerbIds)
    (context : ResolvedMemoryContext) (idempotency_key : string) (assigned_trust : TrustLevel.t)
    (request : RetainEpisodeHttpRequest) : Op ServiceError.t MutationResponse :=
  checked <~ op_result (check_retain context assigned_trust request);
  let '(assigned_trust, request) := checked in
  claim <~ op_result (claim_for context MutationVerb.Retain idempotency_key request);
  match rn_payload request with
  | RetainPayload.Resource resource =>
      transact context (in_begin at_) claim
        (retain_resource service fresh context assigned_trust request resource)
  | RetainPayload.Unit unit => retain_unit at_ fresh context claim assigned_trust request unit
  | RetainPayload.Episode episode =>
      transact context (in_begin at_) claim
        (retain_episode service at_ fresh context assigned_trust request episode)
  end.

(** ** Remember *)

Definition check_remember (at_ : Instants) (context : ResolvedMemoryContext)
    (request : RememberRequest) : result ServiceError.t string :=
  let source := rmb_source request in
  _ <-? check_not_blank [("body", rmb_body request); ("trigger", rmb_trigger request);
          ("verification", rmb_verification request); ("source.kind", src_kind source);
          ("source.ref", src_ref source)];
  _ <-? reject_if (is_some (src_episode_id source) && is_some (src_resource_id source))
          (ServiceError.Invalid
             "source may carry at most one canonical id (episode_id XOR resource_id)");
  _ <-? reject_if (bool_decide (rmb_kind request = MemoryKind.Preference) &&
                   negb (bool_decide (src_kind source ∈ ["user"; "correction"])))
          (ServiceError.Invalid
             "preference memory requires a source.kind of 'user' or 'correction'");
  _ <-? map_err core_error (validate_valid_interval (rmb_valid_from request) (rmb_valid_to request));
  _ <-? reject_if (match rmb_target_scope_id request with
                   | Some target => negb (target =? cx_scope_id context)
                   | None => false
                   end)
          (ServiceError.Invalid
             "cross-scope remember requires an owner-created allow_write grant (not yet supported); omit target_scope_id to write to the bound scope");
  observed_at <-? resolve_source_observed_at (src_observed_at source) (in_now at_);
  _ <-? reject_if (MCP_COMPACT_TOKEN_CEILING <?
                   conservative_token_estimate
                     (rendered_card (rmb_body request) (rmb_trigger request)
                        (rmb_verification request) source))
          (ServiceError.Invalid
             "compact memory renders to more than 512 tokens; split it or shorten body/trigger/verification");
  Ok observed_at.

Definition compact_envelope (verification body : string) : CompactEnvelope := {|
  ce_schema_version := COMPACT_ENVELOPE_SCHEMA_VERSION;
  ce_verification := verification;
  ce_body_sha256 := sha256_hex body;
  ce_write_channel := COMPACT_WRITE_CHANNEL_AGENT;
|}.

(** Routed as a trusted statement, whatever the trust of the caller. *)
Definition remember_candidate (context : ResolvedMemoryContext) (request : RememberRequest)
    : ReflectCandidate := {|
  cd_source_kind := src_kind (rmb_source request);
  cd_trust_level := TrustLevel.TrustedSystem;
  cd_actor_id := cx_actor_id context;
  cd_subject := non_blank (Some (normalize_component (rmb_trigger request)));
  cd_predicate := Some (rmb_trigger request);
  cd_fact_key := None;
  cd_kind := Some (rmb_kind request);
  cd_body := rmb_body request;
  cd_confidence := Some f32_one;
  cd_churn_class := None;
  cd_admission_hint := None;
  cd_contextual_chunks := [];
  cd_valid_from := rmb_valid_from request;
  cd_valid_to := rmb_valid_to request;
  cd_target_unit_ids := None;
  cd_compact := Some (compact_envelope (rmb_verification request) (rmb_body request));
  cd_capture := None;
|}.

(** The new units carry the trust of the caller. *)
Definition with_trust (assigned_trust : TrustLevel.t) (prepared : list UnitId * CompiledWrite)
    : list UnitId * CompiledWrite :=
  let '(unit_ids, write) := prepared in
  (unit_ids, write <| wr_new_units ::= map (λ unit, unit <| mu_trust_level := assigned_trust |>) |>).

Definition remember (at_ : Instants) (fresh : VerbIds) (context : ResolvedMemoryContext)
    (idempotency_key : string) (assigned_trust : TrustLevel.t) (request : RememberRequest)
    : Op ServiceError.t MutationResponse :=
  observed_at <~ op_result (check_remember at_ context request);
  claim <~ op_result (claim_for context MutationVerb.Retain idempotency_key request);
  probe_then context at_ claim
    (prepare_direct fresh (in_now at_) context
       (direct_input context (fresh_job fresh) (src_ref (rmb_source request)) observed_at
          (rmb_body request) (remember_candidate context request))
       "compact remember unexpectedly matched an existing reflect trace")
    (λ prepared, write_direct assigned_trust (with_trust assigned_trust prepared)).

(** ** Reflect *)

Definition reflect (at_ : Instants) (fresh : VerbIds) (context : ResolvedMemoryContext)
    (idempotency_key : string) (request : ReflectRequest) : Op ServiceError.t MutationResponse :=
  _ <~ op_result (reject_if (negb (identity_matches (rfq_identity request) context))
         (ServiceError.Invalid "reflect request identity must match the resolved context"));
  claim <~ op_result (claim_for context MutationVerb.Reflect idempotency_key request);
  transact context (in_begin at_) claim
    (job_id <# staged (λ store, enqueue_reflect store (fresh_job fresh)
                (context_job context ReflectJobKind.ReflectScope None None COMPILER_VERSION None None));
     respond 202 (mkReflectAccepted job_id)).

(** ** Corrections *)

(** The embedding of a corrected text. *)
Definition correction_embedding (text : string)
    : result ServiceError.t (option (EmbeddingProfileRow * list f32)) :=
  if 0 <? dimensions then
    vectors <-? map_err (λ error, store_error (StoreError.Backend ("embedding failed: " +:+ error)))
                  (embed [text]);
    Ok (match vectors with
        | (_ :: _) as vector :: _ => Some (embedding_profile_for, vector)
        | _ => None
        end)
  else Ok None.

Definition correct_with (fresh : VerbIds) (write : CorrectionWrite) : TxOp MutationResponse :=
  result <# staging_by target_error (λ store, stage_correction store (fresh_edge fresh) write);
  respond 200 result.

Definition check_correct (request : CorrectRequest) : result ServiceError.t CorrectRequest :=
  let correction := crq_correction request in
  _ <-? reject_if (trim_is_empty (cp_value correction))
          (core_error (CoreError.Invalid "correction value cannot be empty"));
  _ <-? reject_if (trim_is_empty (cp_source_ref correction))
          (ServiceError.Invalid "correction source_ref must not be blank");
  observed_at <-? canonical_utc_timestamp (cp_observed_at correction) "correction observed_at";
  _ <-? map_err core_error (validate_valid_interval (cp_valid_from correction) (cp_valid_to correction));
  Ok (request <| crq_correction := correction <| cp_observed_at := observed_at |> |>).

Definition correction_write (at_ : Instants) (fresh : VerbIds) (memory_unit_id : UnitId)
    (correction : CorrectionPayload) (compact_refresh : option CompactRefresh)
    (embedding : option (EmbeddingProfileRow * list f32)) : CorrectionWrite := {|
  cw_memory_unit_id := memory_unit_id;
  cw_correction := correction;
  cw_source_ref := cp_source_ref correction;
  cw_observed_at := cp_observed_at correction;
  cw_now := in_now at_;
  cw_embedding := embedding;
  cw_unit_ids := correction_ids fresh;
  cw_compact_refresh := compact_refresh;
|}.

Definition correct (at_ : Instants) (fresh : VerbIds) (context : ResolvedMemoryContext)
    (idempotency_key : string) (request : CorrectRequest) : Op ServiceError.t MutationResponse :=
  request <~ op_result (check_correct request);
  claim <~ op_result (claim_for context MutationVerb.Correct idempotency_key request);
  probe_then context at_ claim
    (λ _, correction_embedding (cp_value (crq_correction request)))
    (λ embedding, correct_with fresh
       (correction_write at_ fresh (crq_memory_unit_id request) (crq_correction request) None
          embedding)).

Definition check_correct_memory (at_ : Instants) (request : CorrectMemoryRequest)
    : result ServiceError.t string :=
  let source := cmq_source request in
  _ <-? check_not_blank [("body", cmq_body request); ("trigger", cmq_trigger request);
          ("verification", cmq_verification request); ("reason", cmq_reason request);
          ("source.ref", src_ref source)];
  _ <-? map_err core_error (validate_valid_interval (cmq_valid_from request) (cmq_valid_to request));
  _ <-? reject_if (MCP_COMPACT_TOKEN_CEILING <?
                   conservative_token_estimate
                     (rendered_card (cmq_body request) (cmq_trigger request)
                        (cmq_verification request) source))
          (ServiceError.Invalid "corrected compact memory renders to more than 512 tokens");
  resolve_source_observed_at (src_observed_at source) (in_now at_).

(** The text is embedded before the only transaction; no probe comes first. *)
Definition correct_memory (at_ : Instants) (fresh : VerbIds) (context : ResolvedMemoryContext)
    (idempotency_key : string) (assigned_trust : TrustLevel.t) (request : CorrectMemoryRequest)
    : Op ServiceError.t MutationResponse :=
  observed_at <~ op_result (check_correct_memory at_ request);
  claim <~ op_result (claim_for context MutationVerb.Correct idempotency_key request);
  embedding <~ op_result (correction_embedding (cmq_body request));
  let correction := {|
    cp_value := cmq_body request; cp_reason := cmq_reason request;
    cp_source_ref := src_ref (cmq_source request); cp_observed_at := observed_at;
    cp_valid_from := cmq_valid_from request; cp_valid_to := cmq_valid_to request |} in
  let refresh := {|
    rf_envelope := compact_envelope (cmq_verification request) (cmq_body request);
    rf_trust_ceiling := assigned_trust |} in
  transact context (in_begin at_) claim
    (correct_with fresh (correction_write at_ fresh (cmq_memory_unit_id request) correction
                           (Some refresh) embedding)).

(** ** Invalidation *)

Definition check_invalidate_memory (at_ : Instants) (request : InvalidateMemoryRequest)
    : result ServiceError.t string :=
  _ <-? check_not_blank [("reason", ivq_reason request);
                         ("source.ref", src_ref (ivq_source request))];
  resolve_source_observed_at (src_observed_at (ivq_source request)) (in_now at_).

Definition invalidate_memory (at_ : Instants) (fresh : VerbIds) (context : ResolvedMemoryContext)
    (idempotency_key : string) (request : InvalidateMemoryRequest)
    : Op ServiceError.t MutationResponse :=
  observed_at <~ op_result (check_invalidate_memory at_ request);
  claim <~ op_result (claim_for context MutationVerb.Invalidate idempotency_key request);
  let write := {|
    iw_target := ivq_memory_unit_id request; iw_reason_kind := ivq_reason_kind request;
    iw_reason := ivq_reason request; iw_source_ref := src_ref (ivq_source request);
    iw_observed_at := observed_at; iw_now := in_now at_; iw_tombstone_id := fresh_unit fresh 0 |} in
  transact context (in_begin at_) claim
    (result <# staging_by target_error (λ store, stage_invalidation store (fresh_edge fresh 0) write);
     respond 200 result).

(** ** Forget and erase *)

Definition forget (at_ : Instants) (context : ResolvedMemoryContext) (idempotency_key : string)
    (request : ForgetRequest) : Op ServiceError.t MutationResponse :=
  target <~ op_result (map_err (λ why, core_error (CoreError.Invalid why))
                         (exactly_one_target (fgq_selector request)));
  claim <~ op_result (claim_for context MutationVerb.Forget idempotency_key request);
  transact context (in_begin at_) claim
    (outcome <# staged (λ store, stage_forget store (mkForgetWrite target (in_now at_)));
     respond 200 {|
       fgr_deletion_generation := fo_deletion_generation outcome; fgr_policy := "hard_delete";
       fgr_invalidated_units := fo_invalidated_units outcome;
       fgr_verification := "authorized_transaction_committed"; fgr_trace_ref := None |}).

(** The store stages the response of an erasure itself. *)
Definition erase_subject_verb (at_ : Instants) (context : ResolvedMemoryContext)
    (idempotency_key : string) (request : EraseSubjectRequest)
    : Op ServiceError.t MutationResponse :=
  claim <~ op_result (claim_for context MutationVerb.EraseSubject idempotency_key request);
  transact context (in_begin at_) claim
    (receipt <# staged (λ _, stage_subject_erasure);
     tx_result (serialized_mutation_response 200
                  (mkEraseResult (rr_generation receipt) (rr_erased_at receipt)))).

(** ** Marks *)

(** [sort_unstable] and [dedup] of identifiers. *)
Definition distinct_ids (ids : list N) : list N := dedup_by N.eqb (sort_by N.leb ids).

Definition check_mark (trace : RetrievalTrace) (used_ids : list UnitId) : result CoreError.t () :=
  reject_if (any (λ id, negb (mem id (map ri_unit_id (tr_context_items trace)))) used_ids)
    (CoreError.Invalid "marked units must belong to the trace canonical inclusion whitelist").

Definition marked_trace (context : ResolvedMemoryContext) (trace_id : TraceId)
    (store : InMemoryState) : result CoreError.t RetrievalTrace :=
  found <-? store_result (trace_by_id store context trace_id);
  ok_or found (CoreError.NotFound "retrieval trace").

Definition mark_event (at_ : Instants) (context : ResolvedMemoryContext) (request : MarkRequest)
    (used_ids : list UnitId) : ReviewEvent := {|
  rv_tenant_id := cx_tenant_id context;
  rv_trace_id := mkq_trace_id request;
  rv_caller_id := mkq_caller_id request;
  rv_used_ids := used_ids;
  rv_outcome := mkq_outcome request;
  rv_recorded_at := in_now at_;
|}.

Definition check_caller_id (request : MarkRequest) : result CoreError.t () :=
  reject_if (trim_is_empty (mkq_caller_id request)) (CoreError.Invalid "caller_id cannot be empty").

Definition mark_in (at_ : Instants) (context : ResolvedMemoryContext) (request : MarkRequest)
    : TxOp MutationResponse :=
  let used_ids := distinct_ids (mkq_used_ids request) in
  _ <# (λ store tx, (tx, map_err core_error
          (trace <-? marked_trace context (mkq_trace_id request) store;
           check_mark trace used_ids)));
  _ <# staged (λ store, stage_review_events store [mark_event at_ context request used_ids]);
  respond 200 (mkMarkResult true (mkq_trace_id request)).

(** A mark that was executed is followed by the cross-check of captures; a
    replayed one is not. *)
Definition mark_verb (service : MemoryService) (at_ : Instants) (context : ResolvedMemoryContext)
    (idempotency_key : string) (request : MarkRequest) : Op ServiceError.t MutationResponse :=
  _ <~ op_result (map_err core_error (check_caller_id request));
  claim <~ op_result (claim_for context MutationVerb.Mark idempotency_key request);
  transact_then context (in_begin at_) claim (mark_in at_ context request)
    (crosscheck service (in_now at_) context).

Definition report_memory_use (service : MemoryService) (at_ : Instants)
    (context : ResolvedMemoryContext) (idempotency_key reporter_id : string)
    (request : ReportMemoryUseRequest) : Op ServiceError.t MutationResponse :=
  mark_verb service at_ context idempotency_key {|
    mkq_identity := identity_of context; mkq_trace_id := rpu_trace_id request;
    mkq_caller_id := reporter_id; mkq_used_ids := rpu_used_ids request;
    mkq_outcome := rpu_outcome request |}.

(** [record_mark] of the library, which takes no idempotency key.  The credit
    for a synthetic item goes to the units it was derived from. *)
Definition credited_ids (trace : RetrievalTrace) (unit_id : UnitId) : list UnitId :=
  match find (λ item, (ri_unit_id item =? unit_id) && negb (is_empty (ri_derived_from_unit_ids item)))
          (tr_context_items trace) with
  | Some item => ri_derived_from_unit_ids item
  | None => [unit_id]
  end.

Definition record_mark (at_ : Instants) (context : ResolvedMemoryContext) (request : MarkRequest)
    : Op CoreError.t MarkResult := λ store,
  match (_ <-? check_caller_id request;
         trace <-? marked_trace context (mkq_trace_id request) store;
         _ <-? check_mark trace (mkq_used_ids request);
         Ok trace) with
  | Err error => (store, Err error)
  | Ok trace =>
      let used_ids := distinct_ids (flat_map (credited_ids trace) (mkq_used_ids request)) in
      let '(tx, reviewed) := stage_review_events store [mark_event at_ context request used_ids]
                               (begin_at context (in_begin at_)) in
      match reviewed with
      | Err error => (store, Err (CoreError.Store error))
      | Ok _ =>
          let store := meanwhile Window.Committing store in
          match commit store tx with
          | Err error => (store, Err (CoreError.Store error))
          | Ok store => (store, Ok (mkMarkResult true (mkq_trace_id request)))
          end
      end
  end.
End verbs.
