(* ===== verification/FileSync.v ===== *)
(** * FileSync: a plan of the file plane as one mutation

    [file_sync], [canonical_projection] and their helpers of
    [crates/memphant-core/src/service.rs], with the types of
    [crates/memphant-types/src/lib.rs].  A plan is checked, prepared on a copy
    of the units and edges it starts from, and staged in one transaction that
    first finds the projection and the copy as they were; the receipt reports
    the projection after the plan.  Other callers run between the reads, while
    the plan is prepared and before the commit. *)

From S2P Require Import Prelude Text Types Float Clock Bitemporal Lineage Store Txn Stage Binding Reads.
From S2P Require Import Chunks Gate Rerank Structured Compile Mining Prepare Reflect Requests Verbs.

(** ** Projections and plans *)

Record CanonicalProjectionUnit : Set := mkProjectionUnit {
  pj_unit_id : UnitId;
  pj_kind : MemoryKind.t;
  pj_fact_key : option string;
  pj_predicate : option string;
  pj_body : string;
  pj_confidence : option f32;
  pj_valid_from : option string;
  pj_valid_to : option string;
  pj_body_sha256 : string;
  pj_state : UnitState.t;
  pj_source_span : option string;
}.

Record CanonicalProjectionResponse : Set := mkProjectionResponse {
  cpr_tenant_id : TenantId;
  cpr_subject_id : SubjectId;
  cpr_actor_id : ActorId;
  cpr_scope_id : ScopeId;
  cpr_agent_node_id : AgentNodeId;
  cpr_subject_generation : N;
  cpr_evaluated_at : string;
  cpr_items : list CanonicalProjectionUnit;
  cpr_fingerprint : string;
}.

Record FileSyncUnitMetadata : Set := mkSyncMetadata {
  fm_unit_id : UnitId;
  fm_kind : MemoryKind.t;
  fm_fact_key : option string;
  fm_predicate : option string;
  fm_confidence : option f32;
  fm_valid_from : option string;
  fm_valid_to : option string;
  fm_body_sha256 : string;
}.
#[export] Instance FileSyncUnitMetadata_eta : Eta FileSyncUnitMetadata := λ r,
  mkSyncMetadata (fm_unit_id r) (fm_kind r) (fm_fact_key r) (fm_predicate r) (fm_confidence r)
    (fm_valid_from r) (fm_valid_to r) (fm_body_sha256 r).

Module FileSyncOperation.
Inductive t : Set :=
| Correct (base : FileSyncUnitMetadata) (body : string)
| Retain (fact_key predicate body : string) (confidence : f32) (valid_from valid_to : option string)
| Forget (base : FileSyncUnitMetadata).
End FileSyncOperation.

Record FileSyncRequest : Set := mkSyncRequest {
  fs_identity : RequestIdentity;
  fs_base_fingerprint : string;
  fs_plan_sha256 : string;
  fs_observed_at : string;
  fs_operations : list FileSyncOperation.t;
}.
#[export] Instance FileSyncRequest_eta : Eta FileSyncRequest := λ r,
  mkSyncRequest (fs_identity r) (fs_base_fingerprint r) (fs_plan_sha256 r) (fs_observed_at r)
    (fs_operations r).

Module FileSyncOperationResult.
Inductive t : Set :=
| Correct (memory_unit_id : UnitId) (created : list UnitId)
| Retain (created : list UnitId)
| Forget (memory_unit_id : UnitId) (deletion_generation : N) (invalidated : list UnitId).
End FileSyncOperationResult.

Record FileSyncResult : Set := mkSyncResult {
  fsr_base_fingerprint : string;
  fsr_fingerprint : string;
  fsr_evaluated_at : string;
  fsr_plan_sha256 : string;
  fsr_operations : list FileSyncOperationResult.t;
}.

Module PreparedFileSyncOperation.
Inductive t : Set :=
| Correct (memory_unit_id : UnitId) (write : CorrectionWrite)
| Retain (created : list UnitId) (write : CompiledWrite)
| Forget (memory_unit_id : UnitId) (write : ForgetWrite).
End PreparedFileSyncOperation.

(** ** Errors *)

Definition store_error_text (error : StoreError.t) : string :=
  match error with
  | StoreError.TransactionAlreadyCommitted => "transaction already committed"
  | StoreError.Poisoned => "store mutex poisoned"
  | StoreError.NotFound what => "not found: " +:+ what
  | StoreError.Conflict why => "conflict: " +:+ why
  | StoreError.PolicyDenied why => "policy denied: " +:+ why
  | StoreError.IdempotencyConflict => "idempotency key conflicts with a different mutation"
  | StoreError.StaleSubjectGeneration => "subject generation is stale"
  | StoreError.SubjectErased => "subject has been erased"
  | StoreError.SerializationConflict => "serializable transaction conflicted"
  | StoreError.Backend why => "backend error: " +:+ why
  end.

Definition core_error_text (error : CoreError.t) : string :=
  match error with
  | CoreError.EmptyBody => "retain body cannot be empty"
  | CoreError.NotFound what => "not found: " +:+ what
  | CoreError.Invalid why => "invalid request: " +:+ why
  | CoreError.PolicyDenied why => "policy denied: " +:+ why
  | CoreError.ProviderUnavailable why =>
      "structured-state provider unavailable after provider-owned retries: " +:+ why
  | CoreError.ProviderInvalid why =>
      "structured-state provider returned terminal invalid output: " +:+ why
  | CoreError.DeepUnavailable => "deep recall is unavailable"
  | CoreError.DeepProviderInvalidOutput => "deep recall provider returned invalid output"
  | CoreError.Store error => store_error_text error
  end.

Definition service_error_text (error : ServiceError.t) : string :=
  match error with
  | ServiceError.Core error => core_error_text error
  | ServiceError.Invalid why => "invalid request: " +:+ why
  | ServiceError.SyncInvalid why => "invalid file sync: " +:+ why
  | ServiceError.SyncConflict why => "file sync conflict: " +:+ why
  | ServiceError.ProjectionTooLarge max_bytes =>
      "canonical projection exceeds " +:+ string_of_bytes (show_N max_bytes) +:+ " encoded bytes"
  end.

Definition sync_invalid (error : ServiceError.t) : ServiceError.t :=
  ServiceError.SyncInvalid (service_error_text error).

Definition serialization_conflict : ServiceError.t :=
  ServiceError.SyncConflict "serializable transaction conflicted".

Definition sync_store_error (error : StoreError.t) : ServiceError.t :=
  match error with
  | StoreError.SerializationConflict => serialization_conflict
  | other => store_error other
  end.

Definition sync_operation_error (error : StoreError.t) : ServiceError.t :=
  match error with
  | StoreError.SerializationConflict => serialization_conflict
  | StoreError.Conflict message => ServiceError.SyncInvalid message
  | StoreError.NotFound entity => ServiceError.SyncInvalid ("file sync target not found: " +:+ entity)
  | other => store_error other
  end.

Definition sync_commit_error (error : StoreError.t) : ServiceError.t :=
  match error with
  | StoreError.SerializationConflict | StoreError.Conflict _ => serialization_conflict
  | other => store_error other
  end.

Definition MAX_CANONICAL_PROJECTION_ENCODED_BYTES : N := 1048576.
Definition MAX_CANONICAL_PROJECTION_TIMESTAMP : string := "9999-12-30T22:00:00.999999999Z".

Definition is_sha256 (value : string) : bool :=
  (String.length value =? 64)%nat &&
  forallb (λ b, is_digit b || ((97 <=? b) && (b <=? 102))) (bytes_of value).

(** [==] of floats: bit patterns of zero are equal, a NaN is not itself. *)
Definition f32_eq (x y : f32) : bool := f32_le x y && f32_le y x.
Definition confidence_eq (x y : option f32) : bool :=
  match x, y with
  | Some x, Some y => f32_eq x y
  | None, None => true
  | _, _ => false
  end.

Definition metadata_matches (base : FileSyncUnitMetadata) (current : CanonicalProjectionUnit) : bool :=
  (fm_unit_id base =? pj_unit_id current) &&
  bool_decide (fm_kind base = pj_kind current) &&
  bool_decide (fm_fact_key base = pj_fact_key current) &&
  bool_decide (fm_predicate base = pj_predicate current) &&
  confidence_eq (fm_confidence base) (pj_confidence current) &&
  bool_decide (fm_valid_from base = pj_valid_from current) &&
  bool_decide (fm_valid_to base = pj_valid_to current) &&
  bool_decide (fm_body_sha256 base = pj_body_sha256 current).

(** ** What a file sync is given *)

(** The system clock when the ledger is looked up and when the transaction
    begins, and the clock of the service: when the projection is evaluated,
    when the write of an operation is compiled, and at the end. *)
Record SyncInstants : Set := mkSyncInstants {
  sy_lookup : Z;
  sy_begin : Z;
  sy_evaluated_at : string;
  sy_compiled_at : nat → string;
  sy_final : string;
}.

(** Fresh identifiers of an operation, and those of the edges its staging
    makes. *)
Record SyncIds : Set := mkSyncIds {
  sf_ids : nat → VerbIds;
  sf_staged_edge : nat → nat → EdgeId;
}.

Section sync.
Context `{HashOrder} `{Jiff} `{Sha256} `{StrDebug} `{EmbeddingProvider} `{ReceiptJson} `{JsonWriter}.
Context `{Serialize (list CanonicalProjectionUnit)} `{Serialize CanonicalProjectionResponse}.
Context `{Serialize (list FileSyncOperation.t)} `{Serialize FileSyncRequest} `{Serialize FileSyncResult}.
Context `{Serialize (list StoredMemoryUnit * list StoredMemoryEdge)}.
Context (a_recency_control_enabled : bool) (meanwhile : Window.t → InMemoryState → InMemoryState).

(** ** The projection *)

Definition canonicalize_optional_timestamp (value : option string) (field : string)
    : result ServiceError.t (option string) :=
  match value with
  | None => Ok None
  | Some timestamp => canonical <-? canonical_utc_timestamp timestamp field; Ok (Some canonical)
  end.

Definition projection_item (unit : StoredMemoryUnit) : result ServiceError.t CanonicalProjectionUnit :=
  valid_from <-? canonicalize_optional_timestamp (mu_valid_from unit) "projection.valid_from";
  valid_to <-? canonicalize_optional_timestamp (mu_valid_to unit) "projection.valid_to";
  _ <-? map_err core_error (validate_valid_interval valid_from valid_to);
  Ok {|
    pj_unit_id := mu_id unit;
    pj_kind := mu_kind unit;
    pj_fact_key := mu_fact_key unit;
    pj_predicate := mu_predicate unit;
    pj_body := mu_body unit;
    pj_confidence := mu_confidence unit;
    pj_valid_from := valid_from;
    pj_valid_to := valid_to;
    pj_body_sha256 := sha256_hex (mu_body unit);
    pj_state := mu_state unit;
    pj_source_span := covering_source_span (mu_contextual_chunks unit);
  |}.

Fixpoint projection_items (units : list StoredMemoryUnit)
    : result ServiceError.t (list CanonicalProjectionUnit) :=
  match units with
  | [] => Ok []
  | unit :: units =>
      item <-? projection_item unit;
      items <-? projection_items units;
      Ok (item :: items)
  end.

Definition projection_not_encoded (error : string) : ServiceError.t :=
  ServiceError.Invalid ("canonical projection cannot be encoded: " +:+ error).

Definition canonical_projection_fingerprint (items : list CanonicalProjectionUnit)
    : result ServiceError.t string :=
  encoded <-? map_err projection_not_encoded (to_vec items);
  Ok (sha256_hex encoded).

Definition canonical_projection_response (context : ResolvedMemoryContext) (evaluated_at : string)
    (items : list CanonicalProjectionUnit) : result ServiceError.t CanonicalProjectionResponse :=
  fingerprint <-? canonical_projection_fingerprint items;
  let response := {|
    cpr_tenant_id := cx_tenant_id context;
    cpr_subject_id := cx_data_subject_id context;
    cpr_actor_id := cx_actor_id context;
    cpr_scope_id := cx_scope_id context;
    cpr_agent_node_id := cx_agent_node_id context;
    cpr_subject_generation := cx_subject_generation context;
    cpr_evaluated_at := evaluated_at;
    cpr_items := items;
    cpr_fingerprint := fingerprint |} in
  encoded <-? map_err projection_not_encoded (to_vec response);
  if MAX_CANONICAL_PROJECTION_ENCODED_BYTES <? str_len encoded
  then Err (ServiceError.ProjectionTooLarge MAX_CANONICAL_PROJECTION_ENCODED_BYTES)
  else Ok response.

Definition canonical_projection (evaluated_at : string) (context : ResolvedMemoryContext)
    (store : InMemoryState) : result ServiceError.t CanonicalProjectionResponse :=
  units <-? map_err store_error (canonical_projection_units store context evaluated_at);
  items <-? projection_items units;
  canonical_projection_response context evaluated_at items.

(** ** The checks of a plan *)

Definition file_sync_plan_sha256 (operations : list FileSyncOperation.t) : result string string :=
  encoded <-? to_vec operations; Ok (sha256_hex encoded).

Definition file_sync_admission_snapshot_sha256 (snapshot : FileSyncTransitionSnapshot)
    : result string string :=
  let ordered := FileSyncTransitionSnapshot_new (sn_units snapshot) (sn_edges snapshot) in
  encoded <-? to_vec (sn_units ordered, sn_edges ordered); Ok (sha256_hex encoded).

Definition is_blank_some (value : option string) : bool :=
  match value with Some value => trim_is_empty value | None => false end.

Definition validate_file_sync_metadata (base : FileSyncUnitMetadata) (field : string)
    : result ServiceError.t FileSyncUnitMetadata :=
  _ <-? reject_if (negb (is_sha256 (fm_body_sha256 base)))
          (ServiceError.SyncInvalid (field +:+ ".body_sha256 must be a lowercase SHA-256 digest"));
  _ <-? reject_if (is_blank_some (fm_fact_key base) || is_blank_some (fm_predicate base))
          (ServiceError.SyncInvalid (field +:+ " optional fact_key and predicate must not be blank"));
  _ <-? reject_if (match fm_confidence base with Some value => negb (confidence_ok value) | None => false end)
          (ServiceError.SyncInvalid (field +:+ ".confidence must be finite and between 0 and 1"));
  valid_from <-? map_err sync_invalid
    (canonicalize_optional_timestamp (fm_valid_from base) (field +:+ ".valid_from"));
  valid_to <-? map_err sync_invalid
    (canonicalize_optional_timestamp (fm_valid_to base) (field +:+ ".valid_to"));
  _ <-? map_err sync_invalid (map_err core_error (validate_valid_interval valid_from valid_to));
  Ok (base <| fm_valid_from := valid_from |> <| fm_valid_to := valid_to |>).

(** The units and keys the plan has named so far. *)
Record PlanState : Type := mkPlanState {
  pl_touched : gset UnitId;
  pl_fact_keys : gset string;
}.

Definition take_unit (plan : PlanState) (id : UnitId) : result ServiceError.t PlanState :=
  if bool_decide (id ∈ pl_touched plan)
  then Err (ServiceError.SyncInvalid "one file sync plan cannot touch a unit more than once")
  else Ok (mkPlanState ({[id]} ∪ pl_touched plan) (pl_fact_keys plan)).

Definition take_key (plan : PlanState) (fact_key : string) : result ServiceError.t PlanState :=
  if bool_decide (fact_key ∈ pl_fact_keys plan)
  then Err (ServiceError.SyncInvalid "one file sync plan cannot use the same fact_key more than once")
  else Ok (mkPlanState (pl_touched plan) ({[fact_key]} ∪ pl_fact_keys plan)).

(** A unit of the projection and, where it has one, its key. *)
Definition take_base (plan : PlanState) (base : FileSyncUnitMetadata) : result ServiceError.t PlanState :=
  plan <-? take_unit plan (fm_unit_id base);
  match fm_fact_key base with Some key => take_key plan key | None => Ok plan end.

Definition operation_field (index : nat) (field : string) : string :=
  "operations[" +:+ string_of_bytes (show_N (N.of_nat index)) +:+ "]." +:+ field.

Definition trimmed (value : string) : bool := bool_decide (trim (bytes_of value) = bytes_of value).

Definition check_operation (context : ResolvedMemoryContext) (index : nat) (plan : PlanState)
    (operation : FileSyncOperation.t) : result ServiceError.t (PlanState * FileSyncOperation.t) :=
  match operation with
  | FileSyncOperation.Correct base body =>
      base <-? validate_file_sync_metadata base (operation_field index "base");
      plan <-? take_base plan base;
      _ <-? reject_if (trim_is_empty body) (ServiceError.SyncInvalid "correct body must not be blank");
      _ <-? reject_if (bool_decide (sha256_hex body = fm_body_sha256 base))
              (ServiceError.SyncInvalid "correct body must differ from the base unit");
      Ok (plan, FileSyncOperation.Correct base body)
  | FileSyncOperation.Retain fact_key predicate body confidence valid_from valid_to =>
      _ <-? reject_if (negb (allows context MemoryKind.Semantic (cx_scope_id context)
                               (cx_agent_node_id context)))
              (ServiceError.SyncInvalid "resolved context does not allow semantic memory");
      _ <-? reject_if (negb (is_high_trust (cx_actor_trust context)))
              (ServiceError.SyncInvalid "retain requires trusted direct provenance");
      _ <-? reject_if (trim_is_empty fact_key || trim_is_empty predicate)
              (ServiceError.SyncInvalid "retain fact_key and predicate must not be blank");
      _ <-? reject_if (negb (trimmed fact_key) || negb (trimmed predicate))
              (ServiceError.SyncInvalid
                 "retain fact_key and predicate must not contain surrounding whitespace");
      plan <-? take_key plan fact_key;
      _ <-? reject_if (trim_is_empty body) (ServiceError.SyncInvalid "retain body must not be blank");
      _ <-? reject_if (negb (confidence_ok confidence))
              (ServiceError.SyncInvalid "retain confidence must be finite and between 0 and 1");
      valid_from <-? map_err sync_invalid
        (canonicalize_optional_timestamp valid_from (operation_field index "valid_from"));
      valid_to <-? map_err sync_invalid
        (canonicalize_optional_timestamp valid_to (operation_field index "valid_to"));
      _ <-? map_err sync_invalid (map_err core_error (validate_valid_interval valid_from valid_to));
      Ok (plan, FileSyncOperation.Retain fact_key predicate body confidence valid_from valid_to)
  | FileSyncOperation.Forget base =>
      base <-? validate_file_sync_metadata base (operation_field index "base");
      plan <-? take_base plan base;
      Ok (plan, FileSyncOperation.Forget base)
  end.

Fixpoint check_operations (context : ResolvedMemoryContext) (index : nat) (plan : PlanState)
    (operations : list FileSyncOperation.t) : result ServiceError.t (list FileSyncOperation.t) :=
  match operations with
  | [] => Ok []
  | operation :: operations =>
      checked <-? check_operation context index plan operation;
      rest <-? check_operations context (S index) (fst checked) operations;
      Ok (snd checked :: rest)
  end.

Definition check_file_sync (context : ResolvedMemoryContext) (request : FileSyncRequest)
    : result ServiceError.t FileSyncRequest :=
  _ <-? reject_if (negb (identity_matches (fs_identity request) context))
          (ServiceError.SyncInvalid "file sync request identity must match the resolved context");
  _ <-? reject_if (is_empty (fs_operations request))
          (ServiceError.SyncInvalid "file sync operations must not be empty");
  _ <-? reject_if (negb (is_sha256 (fs_base_fingerprint request)))
          (ServiceError.SyncInvalid "base_fingerprint must be a lowercase SHA-256 digest");
  _ <-? reject_if (negb (is_sha256 (fs_plan_sha256 request)))
          (ServiceError.SyncInvalid "plan_sha256 must be a lowercase SHA-256 digest");
  observed_at <-? map_err sync_invalid (canonical_utc_timestamp (fs_observed_at request) "observed_at");
  operations <-? check_operations context 0 (mkPlanState ∅ ∅) (fs_operations request);
  actual <-? map_err (λ error, ServiceError.SyncInvalid
                        ("file sync plan cannot be encoded: " +:+ error))
               (file_sync_plan_sha256 operations);
  _ <-? reject_if (negb (bool_decide (fs_plan_sha256 request = actual)))
          (ServiceError.SyncInvalid "plan_sha256 does not match the canonical ordered operations");
  Ok (request <| fs_observed_at := observed_at |> <| fs_operations := operations |>).

(** ** Preparation *)

Definition apply_update (units : list StoredMemoryUnit) (update : UnitUpdate) : list StoredMemoryUnit :=
  update_first (λ unit, mu_id unit =? up_id update)
    (λ unit, unit <| mu_state := up_state update |>
                  <| mu_transaction_to := up_transaction_to update |>) units.

Definition apply_compiled_write_to_snapshot (working : FileSyncTransitionSnapshot)
    (write : CompiledWrite) : FileSyncTransitionSnapshot :=
  FileSyncTransitionSnapshot_new
    (foldl apply_update (sn_units working) (wr_unit_updates write) ++ wr_new_units write)
    (sn_edges working ++ wr_new_edges write).

(** What a plan changes is what the projection shows. *)
Definition base_of (operation : FileSyncOperation.t) : option FileSyncUnitMetadata :=
  match operation with
  | FileSyncOperation.Correct base _ | FileSyncOperation.Forget base => Some base
  | FileSyncOperation.Retain _ _ _ _ _ _ => None
  end.

Definition base_is_current (current : list CanonicalProjectionUnit) (operation : FileSyncOperation.t) : bool :=
  match base_of operation with
  | None => true
  | Some base =>
      match find (λ item, pj_unit_id item =? fm_unit_id base) current with
      | Some item => metadata_matches base item
      | None => false
      end
  end.

Definition retain_input (context : ResolvedMemoryContext) (job_id : JobId)
    (source_ref observed_at fact_key predicate body : string) (confidence : f32)
    (valid_from valid_to : option string) : ReflectInput :=
  direct_input context job_id source_ref observed_at body {|
    cd_source_kind := "direct";
    cd_trust_level := cx_actor_trust context;
    cd_actor_id := cx_actor_id context;
    cd_subject := None;
    cd_predicate := Some predicate;
    cd_fact_key := Some fact_key;
    cd_kind := Some MemoryKind.Semantic;
    cd_body := body;
    cd_confidence := Some confidence;
    cd_churn_class := None;
    cd_admission_hint := None;
    cd_contextual_chunks := [];
    cd_valid_from := valid_from;
    cd_valid_to := valid_to;
    cd_target_unit_ids := None;
    cd_compact := None;
    cd_capture := None |}.

Section plan.
Context (at_ : SyncInstants) (fresh : SyncIds) (context : ResolvedMemoryContext).
Context (request : FileSyncRequest).

Definition prepare_operation (index : nat) (working : FileSyncTransitionSnapshot)
    (operation : FileSyncOperation.t)
    : result ServiceError.t (PreparedFileSyncOperation.t * FileSyncTransitionSnapshot) :=
  let ids := sf_ids fresh index in
  let source_ref := "file-sync:" +:+ fs_plan_sha256 request +:+ ":" +:+
                    string_of_bytes (show_N (N.of_nat index)) in
  match operation with
  | FileSyncOperation.Correct base body =>
      embedding <-? correction_embedding body;
      let unit_ids := correction_ids ids in
      let correction := {|
        cp_value := body; cp_reason := "file_sync"; cp_source_ref := source_ref;
        cp_observed_at := fs_observed_at request;
        cp_valid_from := fm_valid_from base; cp_valid_to := fm_valid_to base |} in
      old <-? ok_or (find (λ unit, mu_id unit =? fm_unit_id base) (open_units working context))
                (ServiceError.SyncInvalid
                   "file sync correction target is absent from admission snapshot");
      rectangles <-? map_err sync_operation_error
        (correction_rectangles_with_ids old correction source_ref (fs_observed_at request)
           (cx_actor_id context) (sy_evaluated_at at_) unit_ids);
      applied <-? map_err sync_operation_error
        (apply_correction_transition (fresh_edge ids) (sn_units working) (sn_edges working) context
           (fm_unit_id base) (fst rectangles) (snd rectangles) (sy_evaluated_at at_));
      Ok (PreparedFileSyncOperation.Correct (fm_unit_id base) {|
            cw_memory_unit_id := fm_unit_id base;
            cw_correction := correction;
            cw_source_ref := source_ref;
            cw_observed_at := fs_observed_at request;
            cw_now := sy_evaluated_at at_;
            cw_embedding := embedding;
            cw_unit_ids := unit_ids;
            cw_compact_refresh := None |},
          mkSnapshot (fst applied) (snd applied))
  | FileSyncOperation.Retain fact_key predicate body confidence valid_from valid_to =>
      compiled <-? map_err core_error
        (prepare_compiled_write_from_snapshot a_recency_control_enabled (fresh_unit ids)
           (fresh_edge ids) (fresh_citation ids)
           (retain_input context (fresh_job ids) source_ref (fs_observed_at request) fact_key
              predicate body confidence valid_from valid_to)
           (sy_compiled_at at_ index) context (open_units working context));
      let '(created, write) := compiled in
      _ <-? reject_if (is_empty created)
              (ServiceError.SyncInvalid "retain operation did not create a semantic unit");
      Ok (PreparedFileSyncOperation.Retain created write,
          apply_compiled_write_to_snapshot working write)
  | FileSyncOperation.Forget base =>
      forgotten <-? map_err sync_operation_error
        (apply_unit_forget_transition (sn_units working) (sn_edges working) context
           (fm_unit_id base) (sy_evaluated_at at_) None);
      Ok (PreparedFileSyncOperation.Forget (fm_unit_id base) {|
            fw_target := ForgetTarget.MemoryUnit (fm_unit_id base);
            fw_now := sy_evaluated_at at_ |},
          mkSnapshot (fst forgotten) (sn_edges working))
  end.

Fixpoint prepare_operations (index : nat) (working : FileSyncTransitionSnapshot)
    (operations : list FileSyncOperation.t)
    : result ServiceError.t (list PreparedFileSyncOperation.t) :=
  match operations with
  | [] => Ok []
  | operation :: operations =>
      prepared <-? prepare_operation index working operation;
      rest <-? prepare_operations (S index) (snd prepared) operations;
      Ok (fst prepared :: rest)
  end.

Definition drifted (current : string) : ServiceError.t :=
  ServiceError.SyncConflict ("base_fingerprint " +:+ fs_base_fingerprint request +:+
    " no longer matches canonical projection " +:+ current).

Definition snapshot_digest (snapshot : FileSyncTransitionSnapshot) : result ServiceError.t string :=
  map_err (λ error, ServiceError.SyncInvalid
             ("file sync admission snapshot cannot be encoded: " +:+ error))
    (file_sync_admission_snapshot_sha256 snapshot).

(** The projection is the one the plan starts from. *)
Definition check_base (units : list StoredMemoryUnit)
    : result ServiceError.t (list CanonicalProjectionUnit) :=
  current <-? projection_items units;
  fingerprint <-? canonical_projection_fingerprint current;
  _ <-? reject_if (negb (bool_decide (fingerprint = fs_base_fingerprint request)))
          (drifted fingerprint);
  Ok current.

(** Reads the projection, checks the bases of the plan against it and prepares
    its operations on the copy. *)
Definition prepare_plan (admission : FileSyncTransitionSnapshot) (store : InMemoryState)
    : result ServiceError.t (list PreparedFileSyncOperation.t) :=
  units <-? map_err sync_store_error
    (canonical_projection_units store context (sy_evaluated_at at_));
  current <-? check_base units;
  _ <-? reject_if (negb (forallb (base_is_current current) (fs_operations request)))
          (ServiceError.SyncInvalid
             "file sync immutable unit metadata does not match the canonical projection");
  prepare_operations 0 admission (fs_operations request).

(** ** The transaction *)

Definition stage_prepared (index : nat) (operation : PreparedFileSyncOperation.t)
    : TxOp FileSyncOperationResult.t :=
  match operation with
  | PreparedFileSyncOperation.Correct memory_unit_id write =>
      outcome <# staging_by sync_operation_error
        (λ store, stage_correction store (sf_staged_edge fresh index) write);
      tx_result (Ok (FileSyncOperationResult.Correct memory_unit_id (cr_created outcome)))
  | PreparedFileSyncOperation.Retain created write =>
      outcome <# staging_by sync_operation_error (λ store, stage_compiled_units store None write);
      tx_result match outcome with
                | ClaimMutationOutcome.Applied => Ok (FileSyncOperationResult.Retain created)
                | ClaimMutationOutcome.Stale => Err serialization_conflict
                end
  | PreparedFileSyncOperation.Forget memory_unit_id write =>
      outcome <# staging_by sync_operation_error (λ store, stage_forget store write);
      tx_result (Ok (FileSyncOperationResult.Forget memory_unit_id
                       (fo_deletion_generation outcome) (fo_invalidated_units outcome)))
  end.

Fixpoint stage_all (index : nat) (prepared : list PreparedFileSyncOperation.t)
    : TxOp (list FileSyncOperationResult.t) :=
  match prepared with
  | [] => tx_result (Ok [])
  | operation :: prepared =>
      staged <# stage_prepared index operation;
      rest <# stage_all (S index) prepared;
      tx_result (Ok (staged :: rest))
  end.

(** The units the projection shows inside of the transaction. *)
Definition projected_in_tx (evaluated_at : string) : TxOp (list StoredMemoryUnit) :=
  staging_by sync_store_error (canonical_projection_units_in_tx evaluated_at).

Definition sync_receipt (fingerprint : string) (operations : list FileSyncOperationResult.t)
    : FileSyncResult := {|
  fsr_base_fingerprint := fs_base_fingerprint request;
  fsr_fingerprint := fingerprint;
  fsr_evaluated_at := sy_final at_;
  fsr_plan_sha256 := fs_plan_sha256 request;
  fsr_operations := operations;
|}.

Definition sync_body (initial_digest : string) (prepared : list PreparedFileSyncOperation.t)
    : TxOp MutationResponse :=
  units <# projected_in_tx (sy_evaluated_at at_);
  _ <# tx_result (check_base units);
  admission <# staging_by sync_store_error fetch_file_sync_transition_snapshot_in_tx;
  digest <# tx_result (snapshot_digest admission);
  _ <# tx_result (reject_if (negb (bool_decide (digest = initial_digest)))
         (ServiceError.SyncConflict
            "full unit/edge transition snapshot changed during file sync preparation"));
  results <# stage_all 0 prepared;
  final_units <# projected_in_tx (sy_final at_);
  final_projection <# tx_result
    (items <-? projection_items final_units;
     canonical_projection_response context MAX_CANONICAL_PROJECTION_TIMESTAMP items);
  response <# tx_result (serialized_mutation_response 200
                           (sync_receipt (cpr_fingerprint final_projection) results));
  _ <# staging_by sync_operation_error (λ _, stage_mutation_response response);
  tx_result (Ok response).
End plan.

(** Other callers run after the lookup, between the two reads, while the plan
    is prepared and before the commit. *)
Definition file_sync (at_ : SyncInstants) (fresh : SyncIds) (context : ResolvedMemoryContext)
    (idempotency_key : string) (request : FileSyncRequest) : Op ServiceError.t MutationResponse :=
  request <~ op_result (check_file_sync context request);
  claim <~ op_result (claim_for context MutationVerb.FileSync idempotency_key request);
  λ store,
  match lookup_mutation_replay store (sy_lookup at_) context claim with
  | Err error => (store, Err (sync_store_error error))
  | Ok (Some response) => (store, Ok response)
  | Ok None =>
      let store := meanwhile Window.Looking store in
      match (admission <-? map_err sync_store_error
               (fetch_file_sync_transition_snapshot store context);
             digest <-? snapshot_digest admission;
             Ok (admission, digest)) with
      | Err error => (store, Err error)
      | Ok (admission, digest) =>
          let store := meanwhile Window.Reading store in
          match prepare_plan at_ fresh context request admission store with
          | Err error => (store, Err error)
          | Ok prepared =>
              transact_by meanwhile sync_store_error sync_commit_error context (sy_begin at_) claim
                (sync_body at_ fresh context request digest prepared) (op_result (Ok ()))
                (meanwhile Window.Preparing store)
          end
      end
  end.
End sync.
