(* ===== verification/Tasks.v ===== *)
(** * Tasks: outcomes of tasks and the evidence they leave

    [record_task_outcome] and [record_task_memory_events] of
    [crates/memphant-core/src/service.rs]: the paths of a task are normalized,
    how well its plan met its files is measured, and what it showed, activated
    or found helpful is recorded against the units. *)

From S2P Require Import Prelude Text Types Float Clock Bitemporal Lineage Store Txn Stage Gate Pack Compile.
From S2P Require Import Prepare Reflect Requests Verbs.
From Stdlib Require Import SpecFloat.

(** ** Paths *)

(** [str::split] at an ASCII character. *)
Fixpoint split_on (b : N) (part l : list N) : list (list N) :=
  match l with
  | [] => [rev part]
  | a :: l' => if a =? b then rev part :: split_on b [] l' else split_on b (a :: part) l'
  end.

Fixpoint join_on (b : N) (parts : list (list N)) : list N :=
  match parts with
  | [] => []
  | [p] => p
  | p :: parts => p ++ [b] ++ join_on b parts
  end.

(** [char::is_control]: U+0000 to U+001F and U+007F to U+009F. *)
Definition is_control (c : list N) : bool :=
  match c with
  | [a] => (a <? 32) || (a =? 127)
  | [a; b] => (a =? 0xc2) && (b <? 0xa0)
  | _ => false
  end.

Definition slash : N := 47.
Definition backslash : N := 92.
Definition dot : list N := [46].
Definition dot_dot : list N := [46; 46].

Definition invalid_path (why : string) : ServiceError.t := core_error (CoreError.Invalid why).

(** The parts of a path, without the empty ones and the dots. *)
Fixpoint path_parts (parts : list (list N)) : result ServiceError.t (list (list N)) :=
  match parts with
  | [] => Ok []
  | part :: parts =>
      if is_empty part || bool_decide (part = dot) then path_parts parts
      else if bool_decide (part = dot_dot)
      then Err (invalid_path "paths may not escape the repository")
      else rest <-? path_parts parts; Ok (part :: rest)
  end.

Definition normalized_path (path : string) : result ServiceError.t string :=
  let bytes := bytes_of path in
  _ <-? reject_if (is_empty bytes || starts_with [slash] bytes ||
                   bool_decide (backslash ∈ bytes) || existsb is_control (chars bytes))
          (invalid_path "paths must be repo-relative POSIX paths");
  parts <-? path_parts (split_on slash [] bytes);
  _ <-? reject_if (is_empty parts) (invalid_path "path cannot normalize to empty");
  Ok (string_of_bytes (join_on slash parts)).

Fixpoint each_path (paths : list string) : result ServiceError.t (list string) :=
  match paths with
  | [] => Ok []
  | path :: paths =>
      path <-? normalized_path path;
      rest <-? each_path paths;
      Ok (path :: rest)
  end.

Definition string_leb (a b : string) : bool := negb (is_gt (str_cmp a b)).

Definition normalized_paths (paths : list string) : result ServiceError.t (list string) :=
  normalized <-? each_path paths;
  Ok (dedup_by String.eqb (sort_by string_leb normalized)).

Definition normalized_optional (paths : option (list string))
    : result ServiceError.t (option (list string)) :=
  match paths with
  | None => Ok None
  | Some paths => normalized <-? normalized_paths paths; Ok (Some normalized)
  end.

(** ** How well a plan met its files *)

Definition f64_encode (x : spec_float) : f64 :=
  let sign s := if s : bool then 0x8000000000000000 else 0 in
  match x with
  | S754_zero s => sign s
  | S754_infinity s => sign s + 0x7ff0000000000000
  | S754_nan => 0x7ff8000000000000
  | S754_finite s p e =>
      sign s +
      (if N.pos p <? 0x10000000000000 then N.pos p
       else Z.to_N (e + 1075) * 0x10000000000000 + (N.pos p - 0x10000000000000))
  end.

(** [a as f64 / b as f64], and one when there is nothing to divide by. *)
Definition ratio (a b : nat) : f64 :=
  f64_encode (if (b =? 0)%nat then f64_one
              else f64_div (f64_of_N (N.of_nat a)) (f64_of_N (N.of_nat b))).

Definition scope_metrics (planned : option (list string)) (actual : list string)
    : option f64 * option f64 * option f64 :=
  match planned with
  | None => (None, None, None)
  | Some planned =>
      let p : gset string := list_to_set planned in
      let a : gset string := list_to_set actual in
      let intersection := size (p ∩ a) in
      let union := size (p ∪ a) in
      (Some (ratio intersection (size p)), Some (ratio intersection (size a)),
       Some (ratio intersection union))
  end.

(** ** Requests *)

Record TaskOutcomeRequest : Set := mkTaskOutcome {
  tq_identity : RequestIdentity;
  tq_task_id : TaskId;
  tq_harness_id : string;
  tq_model_id : string;
  tq_started_at : string;
  tq_ended_at : string;
  tq_completion_status : TaskCompletionStatus.t;
  tq_validator_status : TaskValidatorStatus.t;
  tq_tool_count : N;
  tq_failure_count : N;
  tq_retry_count : N;
  tq_planned_files : option (list string);
  tq_actual_files : list string;
  tq_transcript_sha256 : string;
  tq_shown_unit_ids : list UnitId;
  tq_activated_unit_ids : list UnitId;
}.
#[export] Instance TaskOutcomeRequest_eta : Eta TaskOutcomeRequest := λ r,
  mkTaskOutcome (tq_identity r) (tq_task_id r) (tq_harness_id r) (tq_model_id r) (tq_started_at r)
    (tq_ended_at r) (tq_completion_status r) (tq_validator_status r) (tq_tool_count r)
    (tq_failure_count r) (tq_retry_count r) (tq_planned_files r) (tq_actual_files r)
    (tq_transcript_sha256 r) (tq_shown_unit_ids r) (tq_activated_unit_ids r).

Record TaskOutcomeResult : Set := mkTaskOutcomeResult {
  tr_accepted : bool;
  tr_task_id : TaskId;
  tr_scope_recall : option f64;
  tr_scope_precision : option f64;
  tr_scope_jaccard : option f64;
}.

Record TaskMemoryEventInput : Set := mkTaskEvent {
  ti_unit_id : UnitId;
  ti_event : TaskMemoryEventKind.t;
  ti_attribution : TaskMemoryAttribution.t;
}.
#[export] Instance TaskMemoryEventInput_eq_dec : EqDecision TaskMemoryEventInput.
Proof. solve_decision. Defined.

Record TaskMemoryEventsRequest : Set := mkTaskEvents {
  tv_identity : RequestIdentity;
  tv_task_id : TaskId;
  tv_events : list TaskMemoryEventInput;
}.
#[export] Instance TaskMemoryEventsRequest_eta : Eta TaskMemoryEventsRequest := λ r,
  mkTaskEvents (tv_identity r) (tv_task_id r) (tv_events r).

Record TaskMemoryEventsResult : Set := mkTaskEventsResult {
  ts_accepted : bool;
  ts_task_id : TaskId;
  ts_recorded : N;
}.

(** The discriminants, by which events are ordered. *)
Definition event_rank (event : TaskMemoryEventKind.t) : N :=
  match event with
  | TaskMemoryEventKind.Shown => 0 | TaskMemoryEventKind.Activated => 1
  | TaskMemoryEventKind.Helpful => 2 | TaskMemoryEventKind.Harmful => 3
  | TaskMemoryEventKind.Silenced => 4
  end.
Definition attribution_rank (attribution : TaskMemoryAttribution.t) : N :=
  match attribution with
  | TaskMemoryAttribution.ExplicitUser => 0 | TaskMemoryAttribution.DeterministicScorer => 1
  | TaskMemoryAttribution.RandomizedCounterfactual => 2 | TaskMemoryAttribution.Observational => 3
  end.
Definition event_leb (a b : TaskMemoryEventInput) : bool :=
  (ti_unit_id a <? ti_unit_id b) ||
  (ti_unit_id a =? ti_unit_id b) &&
  ((event_rank (ti_event a) <? event_rank (ti_event b)) ||
   (event_rank (ti_event a) =? event_rank (ti_event b)) &&
   (attribution_rank (ti_attribution a) <=? attribution_rank (ti_attribution b))).

Definition is_lower_hex (b : N) : bool := is_digit b || ((97 <=? b) && (b <=? 102)).
Definition is_sha256_text (value : string) : bool :=
  (String.length value =? 64)%nat && forallb is_lower_hex (bytes_of value).

Section tasks.
Context `{HashOrder} `{Jiff} `{Sha256} `{ReceiptJson} `{JsonWriter}.
Context `{Serialize TaskOutcomeRequest} `{Serialize TaskOutcomeResult}.
Context `{Serialize TaskMemoryEventsRequest} `{Serialize TaskMemoryEventsResult}.
Context (meanwhile : Window.t → InMemoryState → InMemoryState).

Definition invalid {A} (why : string) : result ServiceError.t A := Err (core_error (CoreError.Invalid why)).

Definition task_instant (field value : string) : result ServiceError.t Z :=
  match parse_timestamp value with
  | Some instant => Ok instant
  | None => invalid (field +:+ " must be RFC3339")
  end.

Definition check_task_outcome (request : TaskOutcomeRequest) : result ServiceError.t TaskOutcomeRequest :=
  _ <-? reject_if (trim_is_empty (tq_harness_id request) || trim_is_empty (tq_model_id request))
          (core_error (CoreError.Invalid "harness_id and model_id cannot be empty"));
  _ <-? reject_if (negb (is_sha256_text (tq_transcript_sha256 request)))
          (core_error (CoreError.Invalid "transcript_sha256 must be 64 lowercase hex characters"));
  started <-? task_instant "started_at" (tq_started_at request);
  ended <-? task_instant "ended_at" (tq_ended_at request);
  _ <-? reject_if (ended <? started)%Z
          (core_error (CoreError.Invalid "ended_at cannot precede started_at"));
  planned_files <-? normalized_optional (tq_planned_files request);
  actual_files <-? normalized_paths (tq_actual_files request);
  Ok (request <| tq_planned_files := planned_files |> <| tq_actual_files := actual_files |>
              <| tq_shown_unit_ids ::= distinct_ids |> <| tq_activated_unit_ids ::= distinct_ids |>).

Definition task_event (context : ResolvedMemoryContext) (task_id : TaskId) (recorded_at : string)
    (unit_id : UnitId) (event : TaskMemoryEventKind.t) (attribution : TaskMemoryAttribution.t)
    : TaskMemoryEventRow := {|
  te_tenant_id := cx_tenant_id context;
  te_data_subject_id := cx_data_subject_id context;
  te_subject_generation := cx_subject_generation context;
  te_scope_id := cx_scope_id context;
  te_agent_node_id := cx_agent_node_id context;
  te_actor_id := cx_actor_id context;
  te_task_id := task_id;
  te_unit_id := unit_id;
  te_event := event;
  te_attribution := attribution;
  te_recorded_at := recorded_at;
|}.

Definition outcome_events (context : ResolvedMemoryContext) (recorded_at : string)
    (request : TaskOutcomeRequest) : list TaskMemoryEventRow :=
  let event kind id :=
    task_event context (tq_task_id request) recorded_at id kind TaskMemoryAttribution.Observational in
  map (event TaskMemoryEventKind.Shown) (tq_shown_unit_ids request) ++
  map (event TaskMemoryEventKind.Activated) (tq_activated_unit_ids request).

Definition outcome_row (context : ResolvedMemoryContext) (recorded_at : string)
    (request : TaskOutcomeRequest) : TaskOutcomeRow :=
  let '(scope_recall, scope_precision, scope_jaccard) :=
    scope_metrics (tq_planned_files request) (tq_actual_files request) in {|
  to_tenant_id := cx_tenant_id context;
  to_data_subject_id := cx_data_subject_id context;
  to_subject_generation := cx_subject_generation context;
  to_scope_id := cx_scope_id context;
  to_agent_node_id := cx_agent_node_id context;
  to_actor_id := cx_actor_id context;
  to_task_id := tq_task_id request;
  to_harness_id := tq_harness_id request;
  to_model_id := tq_model_id request;
  to_started_at := tq_started_at request;
  to_ended_at := tq_ended_at request;
  to_completion_status := tq_completion_status request;
  to_validator_status := tq_validator_status request;
  to_tool_count := tq_tool_count request;
  to_failure_count := tq_failure_count request;
  to_retry_count := tq_retry_count request;
  to_planned_files := tq_planned_files request;
  to_actual_files := tq_actual_files request;
  to_scope_recall := scope_recall;
  to_scope_precision := scope_precision;
  to_scope_jaccard := scope_jaccard;
  to_transcript_sha256 := tq_transcript_sha256 request;
  to_recorded_at := recorded_at;
|}.

Definition record_task_outcome (at_ : Instants) (context : ResolvedMemoryContext)
    (idempotency_key : string) (request : TaskOutcomeRequest)
    : Op ServiceError.t MutationResponse :=
  request <~ op_result (check_task_outcome request);
  claim <~ op_result (claim_for context MutationVerb.TaskOutcome idempotency_key request);
  let row := outcome_row context (in_now at_) request in
  transact meanwhile context (in_begin at_) claim
    (_ <# staged (λ store, stage_task_outcome store row
                    (outcome_events context (in_now at_) request));
     respond 200 (mkTaskOutcomeResult true (tq_task_id request) (to_scope_recall row)
                    (to_scope_precision row) (to_scope_jaccard row))).

(** ** Evidence *)

Definition is_causal (attribution : TaskMemoryAttribution.t) : bool :=
  match attribution with
  | TaskMemoryAttribution.Observational => false
  | _ => true
  end.

Definition check_task_events (request : TaskMemoryEventsRequest)
    : result ServiceError.t TaskMemoryEventsRequest :=
  let events := tv_events request in
  _ <-? reject_if (is_empty events) (core_error (CoreError.Invalid "events cannot be empty"));
  _ <-? reject_if (existsb (λ e, is_evidence (ti_event e) && negb (is_causal (ti_attribution e))) events)
          (core_error (CoreError.Invalid "helpful or harmful evidence requires causal attribution"));
  _ <-? reject_if (existsb (λ e,
            bool_decide (ti_event e = TaskMemoryEventKind.Silenced) &&
            negb (bool_decide (ti_attribution e = TaskMemoryAttribution.ExplicitUser))) events)
          (core_error (CoreError.Invalid "silenced evidence requires explicit_user attribution"));
  Ok (request <| tv_events ::= λ events,
        dedup_by (λ a b, bool_decide (a = b)) (sort_by event_leb events) |>).

Definition event_rows (context : ResolvedMemoryContext) (recorded_at : string)
    (request : TaskMemoryEventsRequest) : list TaskMemoryEventRow :=
  map (λ e, task_event context (tv_task_id request) recorded_at (ti_unit_id e) (ti_event e)
              (ti_attribution e)) (tv_events request).

Definition record_task_memory_events (at_ : Instants) (context : ResolvedMemoryContext)
    (idempotency_key : string) (request : TaskMemoryEventsRequest)
    : Op ServiceError.t MutationResponse :=
  request <~ op_result (check_task_events request);
  claim <~ op_result (claim_for context MutationVerb.TaskMemoryEvent idempotency_key request);
  transact meanwhile context (in_begin at_) claim
    (_ <# staged (λ store, stage_task_memory_events store (event_rows context (in_now at_) request));
     respond 200 (mkTaskEventsResult true (tv_task_id request)
                    (N.of_nat (length (tv_events request))))).
End tasks.
