(* ===== verification/VerbFacts.v ===== *)
(** * VerbFacts: what every verb of the service keeps

    A verb that fails has done nothing, a verb that succeeds has committed one
    transaction or replayed one, and a request that is sent again gets the
    answer it got. *)

From S2P Require Import Prelude Text Types Float Clock Bitemporal Lineage Store Isolation Txn Stage Binding Ledger.
From S2P Require Import Reads Capture CaptureFacts Gate Structured Compile Mining Prepare Reflect Requests Verbs Tasks.

(** ** Operations that leave the claim alone *)

(** What a staging operation does not change of its transaction. *)
Definition same_claim (tx tx' : InMemoryTxn) : Prop :=
  tx_mutation tx' = tx_mutation tx ∧ tx_context tx' = tx_context tx ∧
  tx_transaction_time tx' = tx_transaction_time tx ∧ tx_committed tx' = tx_committed tx ∧
  tx_memory_units tx' = tx_memory_units tx.

Definition keeps_claim {A} (m : TxOp A) : Prop := ∀ store tx, same_claim tx (m store tx).1.

Lemma same_claim_refl tx : same_claim tx tx.
Proof. done. Qed.

Lemma same_claim_trans tx1 tx2 tx3 : same_claim tx1 tx2 → same_claim tx2 tx3 → same_claim tx1 tx3.
Proof. intros (?&?&?&?&?) (?&?&?&?&?). repeat split; congruence. Qed.

Lemma keeps_result {A} (r : result ServiceError.t A) : keeps_claim (tx_result r).
Proof. done. Qed.

Lemma keeps_bind {A B} (m : TxOp A) (k : A → TxOp B) :
  keeps_claim m → (∀ a, keeps_claim (k a)) → keeps_claim (tx_bind m k).
Proof.
  intros Hm Hk store tx. unfold tx_bind. specialize (Hm store tx).
  destruct (m store tx) as [tx1 [a|e]]; [|done]. eapply same_claim_trans; [done|]. apply Hk.
Qed.

Lemma keeps_staged {A} error (f : InMemoryState → InMemoryTxn → InMemoryTxn * result StoreError.t A) :
  (∀ store tx, same_claim tx (f store tx).1) → keeps_claim (staging_by error f).
Proof.
  intros Hf store tx. unfold staging_by. specialize (Hf store tx). by destruct (f store tx).
Qed.

Lemma keeps_if {A} (b : bool) (m m' : TxOp A) :
  keeps_claim m → keeps_claim m' → keeps_claim (if b then m else m').
Proof. by destruct b. Qed.

(** Case analysis of a staging operation. *)
Ltac staging :=
  repeat (case_match; subst; try apply same_claim_refl); try (repeat split; reflexivity).

Section staging.
Context `{HashOrder} `{Jiff} `{Sha256}.

Lemma with_staged_claim {A} store (op : ResolvedMemoryContext → InMemoryState → result StoreError.t (A * InMemoryState)) tx :
  same_claim tx (with_staged store op tx).1.
Proof.
  unfold with_staged. destruct (staged_state store tx) as [[baseline scratch]|]; [|done].
  by destruct (op _ _) as [[]|].
Qed.

Lemma stage_episode_claim store id episode tx : same_claim tx (stage_episode store id episode tx).1.
Proof. unfold stage_episode. staging. Qed.

Lemma stage_resource_claim id resource tx : same_claim tx (stage_resource id resource tx).1.
Proof. unfold stage_resource. staging. Qed.

Lemma enqueue_reflect_claim store id job tx : same_claim tx (enqueue_reflect store id job tx).1.
Proof. unfold enqueue_reflect. staging. Qed.

Lemma stage_task_outcome_claim store row events tx :
  same_claim tx (stage_task_outcome store row events tx).1.
Proof. unfold stage_task_outcome. staging. Qed.

Lemma stage_task_memory_events_claim store events tx :
  same_claim tx (stage_task_memory_events store events tx).1.
Proof. unfold stage_task_memory_events. staging. Qed.

(** The operations on the staged state. *)
Lemma stage_correction_claim store new_edge_id write tx :
  same_claim tx (stage_correction store new_edge_id write tx).1.
Proof. apply with_staged_claim. Qed.

Lemma stage_invalidation_claim store new_edge_id write tx :
  same_claim tx (stage_invalidation store new_edge_id write tx).1.
Proof. apply with_staged_claim. Qed.

Lemma stage_forget_claim store write tx : same_claim tx (stage_forget store write tx).1.
Proof. apply with_staged_claim. Qed.

Lemma stage_review_events_claim store events tx :
  same_claim tx (stage_review_events store events tx).1.
Proof. apply with_staged_claim. Qed.

Lemma stage_compiled_units_claim store claim write tx :
  same_claim tx (stage_compiled_units store claim write tx).1.
Proof. apply with_staged_claim. Qed.

Lemma fetch_open_units_claim store tx : same_claim tx (fetch_scope_open_units_in_tx store tx).1.
Proof. apply with_staged_claim. Qed.
End staging.

#[export] Hint Resolve same_claim_refl with_staged_claim stage_episode_claim stage_resource_claim
  enqueue_reflect_claim stage_task_outcome_claim stage_task_memory_events_claim
  stage_correction_claim stage_invalidation_claim stage_forget_claim stage_review_events_claim
  stage_compiled_units_claim fetch_open_units_claim : staging.
#[export] Hint Resolve keeps_result keeps_bind keeps_staged keeps_if : staging.
(** ** One transaction *)

Section transactions.
Context `{HashOrder} `{Jiff} `{ReceiptJson} (meanwhile : Window.t → InMemoryState → InMemoryState).

(** The verb itself did nothing but drop expired ledger entries. *)
Inductive untouched (s : InMemoryState) : InMemoryState → Prop :=
| untouched_refl : untouched s s
| untouched_prune now s' : untouched s s' → untouched s (prune_ledger now s')
| untouched_others w s' : untouched s s' → untouched s (meanwhile w s').

Lemma untouched_trans s1 s2 s3 : untouched s1 s2 → untouched s2 s3 → untouched s1 s3.
Proof. induction 2; eauto using untouched. Qed.

Definition claimed_tx (context : ResolvedMemoryContext) (clock : Z) (claim : MutationClaim)
    (response : option MutationResponse) (replay : bool) : InMemoryTxn :=
  begin_at context clock <| tx_mutation := Some (mkStagedMutation claim response replay) |>.

(** The entry of a claim that is on record and not expired. *)
Definition on_record (s : InMemoryState) (claim : MutationClaim) (response : MutationResponse)
    (now : Z) : Prop :=
  ∃ expires, st_mutation_ledger s !! claim_key claim = Some (mkLedgerEntry claim response expires) ∧
             (now < expires)%Z.

Lemma claim_begin context clock claim s s' tx r :
  stage_mutation_claim s claim (begin_at context clock) = (s', tx, r) →
  untouched s s' ∧
  match r with
  | Err _ => True
  | Ok outcome => ∃ now, mutation_second (fmt_rfc3339 clock) = Ok now ∧ s' = prune_ledger now s ∧
      mc_tenant_id claim = cx_tenant_id context ∧
      mc_data_subject_id claim = cx_data_subject_id context ∧
      match outcome with
      | MutationClaimOutcome.Execute =>
          tx = claimed_tx context clock claim None false ∧
          st_mutation_ledger s' !! claim_key claim = None
      | MutationClaimOutcome.Replay response =>
          tx = claimed_tx context clock claim (Some response) true ∧ on_record s' claim response now
      end
  end.
Proof.
  unfold stage_mutation_claim. change (tx_committed (begin_at context clock)) with false.
  change (tx_context (begin_at context clock)) with context.
  change (tx_mutation (begin_at context clock)) with (@None StagedMutation). cbv iota.
  destruct (negb _); [by intros [= <- _ <-]; eauto using untouched|].
  destruct (negb _ || negb _) eqn:Et; [by intros [= <- _ <-]; eauto using untouched|].
  apply orb_false_iff in Et as [Et Es]. rewrite negb_false_iff in Et, Es.
  apply N.eqb_eq in Et, Es. change (tx_transaction_time (begin_at context clock)) with (fmt_rfc3339 clock).
  destruct (mutation_second _) as [now|] eqn:Enow; [|by intros [= <- _ <-]; eauto using untouched].
  assert (untouched s (prune_ledger now s)) as Hu by eauto using untouched.
  destruct (st_mutation_ledger (prune_ledger now s) !! claim_key claim) as [entry|] eqn:El.
  - case_bool_decide as Hc; [|by intros [= <- _ <-]].
    intros [= <- <- <-]. split; [done|]. exists now. repeat split; try done.
    destruct entry as [c response expires]. simpl in Hc. subst c. exists expires. split; [done|].
    simpl in El. apply lookup_retain_map in El as [_ Hlt]. by apply Z.ltb_lt in Hlt.
  - destruct (validate_context _ _); simpl; intros [= <- <- <-]; [|done].
    split; [done|]. by exists now.
Qed.

(** Committing a replay leaves the store. *)
Lemma commit_replay context clock claim response now s :
  mutation_second (fmt_rfc3339 clock) = Ok now →
  commit s (claimed_tx context clock claim (Some response) true) = Ok s.
Proof.
  intros Hnow. unfold commit, claimed_tx, commit_mutation. simpl. by rewrite Hnow.
Qed.

(** A claim on record answers. *)
Lemma claim_on_record context clock claim response now expires s :
  mutation_second (fmt_rfc3339 clock) = Ok now → (now < expires)%Z →
  mc_tenant_id claim = cx_tenant_id context →
  mc_data_subject_id claim = cx_data_subject_id context →
  mc_subject_generation claim = cx_subject_generation context →
  st_mutation_ledger s !! claim_key claim = Some (mkLedgerEntry claim response expires) →
  stage_mutation_claim s claim (begin_at context clock) =
    (prune_ledger now s, claimed_tx context clock claim (Some response) true,
     Ok (MutationClaimOutcome.Replay response)).
Proof.
  intros Hnow Hlt Ht Hs Hg Hl. unfold stage_mutation_claim, claimed_tx. simpl.
  rewrite Ht, Hs, Hg, !N.eqb_refl, Hnow. simpl.
  assert (retain_map (λ _ entry, (now <? le_expires_at_second entry)%Z) (st_mutation_ledger s)
            !! claim_key claim = Some (mkLedgerEntry claim response expires)) as ->.
  { apply lookup_retain_map. split; [done|]. by apply Z.ltb_lt. }
  simpl. by rewrite bool_decide_true.
Qed.

(** A body that stages its answer. *)
Definition answers (m : TxOp MutationResponse) (claim : MutationClaim) : Prop :=
  ∀ store tx tx' response,
    tx_mutation tx = Some (mkStagedMutation claim None false) → tx_committed tx = false →
    m store tx = (tx', Ok response) →
    tx_mutation tx' = Some (mkStagedMutation claim (Some response) false) ∧
    tx_context tx' = tx_context tx ∧ tx_transaction_time tx' = tx_transaction_time tx ∧
    tx_memory_units tx' = tx_memory_units tx.

Lemma answers_bind {A} (m : TxOp A) k claim :
  keeps_claim m → (∀ a, answers (k a) claim) → answers (tx_bind m k) claim.
Proof.
  intros Hm Hk store tx tx' response Hmut Hcom. unfold tx_bind. specialize (Hm store tx).
  destruct (m store tx) as [tx1 [a|e]]; [|done].
  destruct Hm as (Hm & Hc & Ht & Hd & Hu). simpl in Hm, Hc, Ht, Hd, Hu. intros Ho.
  apply Hk in Ho as (? & ? & ? & ?); [|congruence..]. repeat split; congruence.
Qed.

Lemma answers_respond {A} `{Serialize A} status (value : A) claim :
  answers (respond status value) claim.
Proof.
  intros store tx tx' response Hmut Hcom. unfold respond, tx_bind, tx_result, staged, staging_by.
  destruct (serialized_mutation_response status value) as [r|]; [|done].
  unfold stage_mutation_response. rewrite Hcom, Hmut. simpl. case_bool_decide; [done|].
  simpl. by intros [= <- <-].
Qed.

Lemma answers_erase `{Serialize EraseSubjectResult} claim :
  (∀ generation erased_at, to_vec (mkEraseResult generation erased_at) =
                           Ok (Txn.receipt_json {| rr_generation := generation; rr_erased_at := erased_at |})) →
  answers (receipt <# staged (λ _, stage_subject_erasure);
           tx_result (serialized_mutation_response 200
                        (mkEraseResult (rr_generation receipt) (rr_erased_at receipt)))) claim.
Proof.
  intros Hjson store tx tx' response Hmut Hcom. unfold tx_bind, tx_result, staged, staging_by.
  unfold stage_subject_erasure. rewrite Hcom, Hmut. simpl.
  destruct (_ || _ || _); [done|]. destruct (negb _); [done|]. destruct (negb _); [done|].
  case_bool_decide; [done|]. destruct (checked_add _ _ _) as [generation|]; [|done]. simpl.
  unfold serialized_mutation_response. rewrite Hjson. unfold MutationResponse_success. simpl.
  by intros [= <- <-].
Qed.

(** How a verb ends. *)
Inductive outcome (context : ResolvedMemoryContext) (clock : Z) (claim : MutationClaim)
    (bodies : TxOp MutationResponse → Prop) (after : Op ServiceError.t ()) (s : InMemoryState)
    : InMemoryState * result ServiceError.t MutationResponse → Prop :=
| refused s' error : untouched s s' → outcome context clock claim bodies after s (s', Err error)
| replayed s' response now :
    untouched s s' → on_record s' claim response now →
    outcome context clock claim bodies after s (s', Ok response)
| executed s0 body s1 tx now s2 response :
    untouched s s0 → bodies body →
    body s0 (claimed_tx context clock claim None false) = (tx, Ok response) →
    s1 = meanwhile Window.Committing s0 → tx_context tx = context → tx_memory_units tx = [] → executes s1 tx claim response now →
    mutation_second (fmt_rfc3339 clock) = Ok now → commit s1 tx = Ok s2 →
    outcome context clock claim bodies after s
      (let '(s3, followed) := after s2 in
       (s3, match followed with Ok _ => Ok response | Err error => Err error end)).

(** Other callers do not take the key of a claim that a transaction holds. *)
Definition lock_held (claim : MutationClaim) : Prop := ∀ s,
  st_mutation_ledger s !! claim_key claim = None →
  st_mutation_ledger (meanwhile Window.Committing s) !! claim_key claim = None.

Lemma transact_by_outcome claim_error commit_error context clock claim
    (bodies : TxOp MutationResponse → Prop) execute after s :
  lock_held claim → answers execute claim → bodies execute →
  outcome context clock claim bodies after s
    (transact_by meanwhile claim_error commit_error context clock claim execute after s).
Proof.
  intros Hlock Hans Hbody. unfold transact_by.
  destruct (stage_mutation_claim s claim _) as [[s1 tx] claimed] eqn:Ec.
  apply claim_begin in Ec as [Hu Hc]. destruct claimed as [[|response]|error].
  - destruct Hc as (now & Hnow & _ & _ & _ & -> & Hl).
    destruct (execute s1 _) as [tx' [response|error]] eqn:Ee; [|by apply refused].
    pose proof Ee as Hrun. apply Hans in Ee as (Hmut & Hcx & Ht & Hun); [|done..].
    destruct (commit _ tx') as [s2|error] eqn:Eco; [|by apply refused, untouched_others].
    pose proof (executed context clock claim bodies after s s1 execute
      (meanwhile Window.Committing s1) tx' now s2 response) as Ho. unfold op_bind, op_result.
    destruct (after s2) as [s3 [[]|error]]; apply Ho; try done;
      (split; [done|]; split; [by rewrite Ht|]; by rewrite Hlock).
  - destruct Hc as (now & Hnow & _ & _ & _ & -> & Hrec).
    rewrite (commit_replay _ _ _ _ now) by done. by eapply replayed.
  - by apply refused.
Qed.

Lemma transact_outcome context clock claim (bodies : TxOp MutationResponse → Prop) execute after s :
  lock_held claim → answers execute claim → bodies execute →
  outcome context clock claim bodies after s (transact_then meanwhile context clock claim execute after s).
Proof. apply transact_by_outcome. Qed.

Lemma outcome_before context clock claim bodies after s1 s2 r : untouched s1 s2 →
  outcome context clock claim bodies after s2 r → outcome context clock claim bodies after s1 r.
Proof.
  intros Hu [s' error Hs|s' response now Hs Hr|s0 body s' tx now s3 response Hs Hb Hrun Hs' Hc Hun He Hn Hco].
  - by apply refused, (untouched_trans _ s2).
  - eapply replayed; [by eapply untouched_trans | done].
  - eapply executed; [by eapply untouched_trans | try done..]; done.
Qed.

Lemma probe_then_outcome {A} context at_ claim (bodies : TxOp MutationResponse → Prop)
    (prepare : InMemoryState → result ServiceError.t A) execute s :
  lock_held claim → (∀ a, answers (execute a) claim) →
  (∀ s a, prepare s = Ok a → bodies (execute a)) →
  outcome context (in_begin at_) claim bodies (op_result (Ok ())) s
    (probe_then meanwhile context at_ claim prepare execute s).
Proof.
  intros Hlock Hans Hbody. unfold probe_then, probe, op_bind.
  destruct (stage_mutation_claim s claim _) as [[s1 tx] claimed] eqn:Ec.
  apply claim_begin in Ec as [Hu Hc]. destruct claimed as [[|response]|error].
  - destruct (prepare s1) as [a|error] eqn:Ep; [|by apply refused].
    apply (outcome_before _ _ _ _ _ _ (meanwhile Window.Preparing s1)); [by apply untouched_others|].
    apply transact_outcome; [done..|]. by eapply Hbody.
  - destruct Hc as (now & Hnow & _ & _ & _ & -> & Hrec).
    rewrite (commit_replay _ _ _ _ now) by done. by eapply replayed.
  - by apply refused.
Qed.

(** ** Replays *)

(** Retries of a claim on record are answered and do nothing. *)
Definition answers_with (op : Op ServiceError.t MutationResponse) (s : InMemoryState)
    (response : MutationResponse) : Prop :=
  (op s).2 = Ok response ∧ untouched s (op s).1.

Lemma transact_replays claim_error commit_error context clock claim execute after response now expires s :
  mutation_second (fmt_rfc3339 clock) = Ok now → (now < expires)%Z →
  mc_tenant_id claim = cx_tenant_id context →
  mc_data_subject_id claim = cx_data_subject_id context →
  mc_subject_generation claim = cx_subject_generation context →
  st_mutation_ledger s !! claim_key claim = Some (mkLedgerEntry claim response expires) →
  answers_with (transact_by meanwhile claim_error commit_error context clock claim execute after) s
    response.
Proof.
  intros Hnow Hlt Ht Hs Hg Hl. unfold answers_with, transact_by.
  rewrite (claim_on_record _ _ _ _ now expires) by done. rewrite (commit_replay _ _ _ _ now) by done.
  split; [done|]. apply untouched_prune, untouched_refl.
Qed.

Lemma probe_replays {A} context at_ claim (prepare : InMemoryState → result ServiceError.t A)
    execute response now expires s :
  mutation_second (fmt_rfc3339 (in_probe at_)) = Ok now → (now < expires)%Z →
  mc_tenant_id claim = cx_tenant_id context →
  mc_data_subject_id claim = cx_data_subject_id context →
  mc_subject_generation claim = cx_subject_generation context →
  st_mutation_ledger s !! claim_key claim = Some (mkLedgerEntry claim response expires) →
  answers_with (probe_then meanwhile context at_ claim prepare execute) s response.
Proof.
  intros Hnow Hlt Ht Hs Hg Hl. unfold answers_with, probe_then, probe, op_bind.
  rewrite (claim_on_record _ _ _ _ now expires) by done. rewrite (commit_replay _ _ _ _ now) by done.
  split; [done|]. apply untouched_prune, untouched_refl.
Qed.
End transactions.

(** ** Every verb *)

(** The mutations a client may ask for.  [report_memory_use] is a mark. *)
Module Call.
Inductive t : Set :=
| Retain (assigned_trust : TrustLevel.t) (request : RetainEpisodeHttpRequest)
| Remember (assigned_trust : TrustLevel.t) (request : RememberRequest)
| Reflect (request : ReflectRequest)
| Correct (request : CorrectRequest)
| CorrectMemory (assigned_trust : TrustLevel.t) (request : CorrectMemoryRequest)
| InvalidateMemory (request : InvalidateMemoryRequest)
| Forget (request : ForgetRequest)
| EraseSubject (request : EraseSubjectRequest)
| Mark (request : MarkRequest)
| TaskOutcome (request : TaskOutcomeRequest)
| TaskMemoryEvents (request : TaskMemoryEventsRequest).
End Call.

Section calls.
Context `{HashOrder} `{Jiff} `{Sha256} `{StrDebug} `{EmbeddingProvider} `{ReceiptJson} `{JsonWriter}.
Context `{Serialize RetainEpisodeHttpRequest} `{Serialize ReflectRequest} `{Serialize CorrectRequest}.
Context `{Serialize ForgetRequest} `{Serialize EraseSubjectRequest} `{Serialize MarkRequest}.
Context `{Serialize RememberRequest} `{Serialize CorrectMemoryRequest} `{Serialize InvalidateMemoryRequest}.
Context `{Serialize RetainEpisodeHttpResponse} `{Serialize ReflectAccepted} `{Serialize CorrectResult}.
Context `{Serialize ForgetResult} `{Serialize EraseSubjectResult} `{Serialize MarkResult}.
Context `{Serialize TaskOutcomeRequest} `{Serialize TaskOutcomeResult}.
Context `{Serialize TaskMemoryEventsRequest} `{Serialize TaskMemoryEventsResult}.
Context (a_recency_control_enabled : bool) (meanwhile : Window.t → InMemoryState → InMemoryState).
Context (service : MemoryService) (context : ResolvedMemoryContext) (idempotency_key : string).

Definition run_call (at_ : Instants) (fresh : VerbIds) (c : Call.t)
    : Op ServiceError.t MutationResponse :=
  match c with
  | Call.Retain trust request =>
      retain_verb a_recency_control_enabled meanwhile service at_ fresh context idempotency_key trust request
  | Call.Remember trust request =>
      remember a_recency_control_enabled meanwhile at_ fresh context idempotency_key trust request
  | Call.Reflect request => reflect meanwhile at_ fresh context idempotency_key request
  | Call.Correct request => correct meanwhile at_ fresh context idempotency_key request
  | Call.CorrectMemory trust request =>
      correct_memory meanwhile at_ fresh context idempotency_key trust request
  | Call.InvalidateMemory request =>
      invalidate_memory meanwhile at_ fresh context idempotency_key request
  | Call.Forget request => forget meanwhile at_ context idempotency_key request
  | Call.EraseSubject request => erase_subject_verb meanwhile at_ context idempotency_key request
  | Call.Mark request => mark_verb meanwhile service at_ context idempotency_key request
  | Call.TaskOutcome request => record_task_outcome meanwhile at_ context idempotency_key request
  | Call.TaskMemoryEvents request =>
      record_task_memory_events meanwhile at_ context idempotency_key request
  end.

(** What a verb does before it comes to the store: its checks and its claim. *)
Definition call_claim (at_ : Instants) (c : Call.t) : result ServiceError.t MutationClaim :=
  match c with
  | Call.Retain trust request =>
      checked <-? check_retain context trust request;
      claim_for context MutationVerb.Retain idempotency_key checked.2
  | Call.Remember _ request =>
      _ <-? check_remember at_ context request;
      claim_for context MutationVerb.Retain idempotency_key request
  | Call.Reflect request =>
      _ <-? reject_if (negb (identity_matches (rfq_identity request) context))
              (ServiceError.Invalid "reflect request identity must match the resolved context");
      claim_for context MutationVerb.Reflect idempotency_key request
  | Call.Correct request =>
      request <-? check_correct request;
      claim_for context MutationVerb.Correct idempotency_key request
  | Call.CorrectMemory _ request =>
      _ <-? check_correct_memory at_ request;
      claim <-? claim_for context MutationVerb.Correct idempotency_key request;
      _ <-? correction_embedding (cmq_body request);
      Ok claim
  | Call.InvalidateMemory request =>
      _ <-? check_invalidate_memory at_ request;
      claim_for context MutationVerb.Invalidate idempotency_key request
  | Call.Forget request =>
      _ <-? map_err (λ why, core_error (CoreError.Invalid why))
              (exactly_one_target (fgq_selector request));
      claim_for context MutationVerb.Forget idempotency_key request
  | Call.EraseSubject request => claim_for context MutationVerb.EraseSubject idempotency_key request
  | Call.Mark request =>
      _ <-? map_err core_error (check_caller_id request);
      claim_for context MutationVerb.Mark idempotency_key request
  | Call.TaskOutcome request =>
      request <-? check_task_outcome request;
      claim_for context MutationVerb.TaskOutcome idempotency_key request
  | Call.TaskMemoryEvents request =>
      request <-? check_task_events request;
      claim_for context MutationVerb.TaskMemoryEvent idempotency_key request
  end.

(** What follows the commit of a verb. *)
Definition call_after (at_ : Instants) (c : Call.t) : Op ServiceError.t () :=
  match c with
  | Call.Mark _ => crosscheck service (in_now at_) context
  | _ => op_result (Ok ())
  end.

(** The transaction a verb runs: what it stages before its answer. *)
Definition call_body (at_ : Instants) (fresh : VerbIds) (c : Call.t)
    (body : TxOp MutationResponse) : Prop :=
  match c with
  | Call.Retain trust request => ∃ checked, check_retain context trust request = Ok checked ∧
      match rn_payload checked.2 with
      | RetainPayload.Episode episode =>
          body = retain_episode service at_ fresh context checked.1 checked.2 episode
      | RetainPayload.Resource resource =>
          body = retain_resource service fresh context checked.1 checked.2 resource
      | RetainPayload.Unit unit => ∃ prepared, body = write_direct checked.1 prepared
      end
  | Call.Remember trust request => ∃ s observed_at prepared,
      prepare_direct a_recency_control_enabled fresh (in_now at_) context
        (direct_input context (fresh_job fresh) (src_ref (rmb_source request)) observed_at
           (rmb_body request) (remember_candidate context request))
        "compact remember unexpectedly matched an existing reflect trace" s = Ok prepared ∧
      body = write_direct trust (with_trust trust prepared)
  | Call.Reflect _ => body =
      (job_id <# staged (λ store, enqueue_reflect store (fresh_job fresh)
         (context_job context ReflectJobKind.ReflectScope None None COMPILER_VERSION None None));
       respond 202 (mkReflectAccepted job_id))
  | Call.Correct _ | Call.CorrectMemory _ _ => ∃ write, body = correct_with fresh write
  | Call.InvalidateMemory _ => ∃ write, body =
      (result <# staging_by target_error (λ store, stage_invalidation store (fresh_edge fresh 0) write);
       respond 200 result)
  | Call.Forget _ => ∃ target, body =
      (outcome <# staged (λ store, stage_forget store (mkForgetWrite target (in_now at_)));
       respond 200 {|
         fgr_deletion_generation := fo_deletion_generation outcome; fgr_policy := "hard_delete";
         fgr_invalidated_units := fo_invalidated_units outcome;
         fgr_verification := "authorized_transaction_committed"; fgr_trace_ref := None |})
  | Call.EraseSubject _ => body =
      (receipt <# staged (λ _, stage_subject_erasure);
       tx_result (serialized_mutation_response 200
                    (mkEraseResult (rr_generation receipt) (rr_erased_at receipt))))
  | Call.Mark request => body = mark_in at_ context request
  | Call.TaskOutcome _ => ∃ row events result, body =
      (_ <# staged (λ store, stage_task_outcome store row events);
       respond (A := TaskOutcomeResult) 200 result)
  | Call.TaskMemoryEvents _ => ∃ rows result, body =
      (_ <# staged (λ store, stage_task_memory_events store rows);
       respond (A := TaskMemoryEventsResult) 200 result)
  end.

Lemma claim_for_context {A} `{Serialize A} verb (request : A) claim :
  claim_for context verb idempotency_key request = Ok claim →
  mc_tenant_id claim = cx_tenant_id context ∧
  mc_data_subject_id claim = cx_data_subject_id context ∧
  mc_subject_generation claim = cx_subject_generation context.
Proof.
  unfold claim_for, MutationClaim_new. destruct (canonical_mutation_request_hash _ _); simpl; [|done].
  destruct (validate_idempotency_key _); simpl; [|done]. by intros [= <-].
Qed.

(** The equations of a result that is [Ok]. *)
Ltac oks :=
  repeat match goal with
  | H : result_bind ?m _ = Ok _ |- _ =>
      let E := fresh "Eok" in destruct m eqn:E; simpl in H; [|discriminate H]
  end.

Lemma call_claim_context at_ c claim : call_claim at_ c = Ok claim →
  mc_tenant_id claim = cx_tenant_id context ∧
  mc_data_subject_id claim = cx_data_subject_id context ∧
  mc_subject_generation claim = cx_subject_generation context.
Proof.
  intros Hc. destruct c; simpl in Hc; oks; try injection Hc as <-; 
    match goal with H : claim_for _ _ _ _ = _ |- _ => exact (claim_for_context _ _ _ H) end.
Qed.

(** A claim does not depend on when it is made. *)
Lemma call_claim_stable at1 at2 c claim : call_claim at1 c = Ok claim → call_claim at2 c = Ok claim.
Proof.
  assert (∀ value now1 now2 (o : string), resolve_source_observed_at value now1 = Ok o →
    ∃ o', resolve_source_observed_at value now2 = Ok o') as Hr.
  { intros value now1 now2 o. unfold resolve_source_observed_at. destruct (trim_is_empty value); eauto. }
  destruct c; simpl; try done; intros Hc; oks.
  - destruct (check_remember at2 context request) eqn:E; [done|]. exfalso.
    unfold check_remember in Eok, E. revert Eok E.
    repeat (destruct (_ : result _ ()); simpl; [|done]).
    destruct (resolve_source_observed_at _ (in_now at1)) as [o|] eqn:Eo; simpl; [|done].
    destruct (Hr _ _ (in_now at2) _ Eo) as [o' ->]. simpl. by destruct (reject_if _ _).
  - destruct (check_correct_memory at2 request) eqn:E; [done|]. exfalso.
    unfold check_correct_memory in Eok, E. revert Eok E.
    repeat (destruct (_ : result _ ()); simpl; [|done]). intros (o' & ->)%(Hr _ _ (in_now at2)). done.
  - destruct (check_invalidate_memory at2 request) eqn:E; [done|]. exfalso.
    unfold check_invalidate_memory in Eok, E. revert Eok E.
    repeat (destruct (_ : result _ ()); simpl; [|done]). intros (o' & ->)%(Hr _ _ (in_now at2)). done.
Qed.

(** The body of every verb stages its answer. *)
Ltac keeps := solve [unfold staged; eauto 20 with staging nocore].

Lemma reinforce_keeps_claim now job_id episode_id :
  keeps_claim (reinforce_captured_episode_units context now job_id episode_id).
Proof.
  unfold reinforce_captured_episode_units. apply keeps_bind; [keeps|]. intros units.
  apply keeps_if; keeps.
Qed.

Lemma write_direct_answers trust prepared claim : answers (write_direct trust prepared) claim.
Proof.
  destruct prepared as [created write]. apply answers_bind; [keeps|].
  intros _. apply answers_respond.
Qed.

Lemma correct_with_answers fresh write claim : answers (correct_with fresh write) claim.
Proof. apply answers_bind; [keeps|]. intros r. apply answers_respond. Qed.

Lemma retain_resource_answers fresh trust request resource claim :
  answers (retain_resource service fresh context trust request resource) claim.
Proof.
  apply answers_bind; [keeps|]. intros resource_id.
  apply answers_bind; [keeps|]. intros _. apply answers_respond.
Qed.

Lemma retain_episode_answers at_ fresh trust request episode claim :
  answers (retain_episode service at_ fresh context trust request episode) claim.
Proof.
  apply answers_bind; [keeps|]. intros o.
  apply answers_bind; [apply keeps_if; [apply reinforce_keeps_claim | keeps]|]. intros _.
  apply answers_bind; [keeps|]. intros _. apply answers_respond.
Qed.

Lemma mark_in_answers at_ request claim : answers (mark_in at_ context request) claim.
Proof.
  apply answers_bind; [done|]. intros _.
  apply answers_bind; [keeps|]. intros _. apply answers_respond.
Qed.

Ltac calls :=
  unfold retain_verb, remember, reflect, correct, correct_memory, invalidate_memory, forget,
    erase_subject_verb, mark_verb, record_task_outcome, record_task_memory_events, op_bind, op_result.

Lemma call_refused at_ fresh c error s :
  call_claim at_ c = Err error → run_call at_ fresh c s = (s, Err error).
Proof.
  intros Hc. destruct c; simpl in *; calls;
    try destruct (check_retain _ _ _) as [[]|]; simpl in *;
    repeat match type of Hc with
    | result_bind ?m _ = _ => destruct m; simpl in *; [|congruence]
    end; try discriminate Hc; simpl in *; try rewrite Hc; congruence.
Qed.

(** The checks and the claim of a call went through. *)
Ltac claimed Hc :=
  calls; try (destruct (check_retain _ _ _) as [[]|]; simpl in *; [|discriminate Hc]);
  repeat match type of Hc with
  | result_bind ?m _ = _ => destruct m eqn:?; simpl in *; [|discriminate Hc]
  end; try rewrite Hc; try (injection Hc as ->).

(** What the store serializes for an erasure is what the verb answers with. *)
Context (erase_json : ∀ generation erased_at, to_vec (mkEraseResult generation erased_at) =
           Ok (Txn.receipt_json {| rr_generation := generation; rr_erased_at := erased_at |})).

Lemma call_outcome at_ fresh c claim s :
  call_claim at_ c = Ok claim → lock_held meanwhile claim →
  outcome meanwhile context (in_begin at_) claim (call_body at_ fresh c) (call_after at_ c) s
    (run_call at_ fresh c s).
Proof.
  intros Hc Hlock. destruct c; simpl in *.
  - destruct (check_retain context assigned_trust request) as [checked|] eqn:Ech;
      simpl in *; [|discriminate Hc].
    assert (∀ body, match rn_payload checked.2 with
      | RetainPayload.Episode episode =>
          body = retain_episode service at_ fresh context checked.1 checked.2 episode
      | RetainPayload.Resource resource =>
          body = retain_resource service fresh context checked.1 checked.2 resource
      | RetainPayload.Unit unit => ∃ prepared, body = write_direct checked.1 prepared
      end → call_body at_ fresh (Call.Retain assigned_trust request) body) as Hbody by (intros body ?; by exists checked).
    calls. rewrite Ech. destruct checked as [trust checked]. simpl in *. rewrite Hc.
    destruct (rn_payload checked) as [episode|resource|unit].
    + apply transact_outcome; [done|apply retain_episode_answers|by apply Hbody].
    + apply transact_outcome; [done|apply retain_resource_answers|by apply Hbody].
    + apply probe_then_outcome; [done|intros ?; apply write_direct_answers|].
      intros s' prepared _. apply Hbody. by exists prepared.
  - claimed Hc. apply probe_then_outcome; [done|intros ?; apply write_direct_answers|].
    intros s' prepared Hp. by eexists s', _, prepared.
  - claimed Hc. apply transact_outcome; [done| |done]. apply answers_bind; [keeps|].
    intros ?. apply answers_respond.
  - claimed Hc. apply probe_then_outcome; [done|intros ?; apply correct_with_answers|].
    intros s' write _. by eexists.
  - claimed Hc. apply transact_outcome; [done|apply correct_with_answers|by eexists].
  - claimed Hc. apply transact_outcome; [done| |by repeat eexists]. apply answers_bind; [keeps|].
    intros ?. apply answers_respond.
  - claimed Hc. apply transact_outcome; [done| |by repeat eexists]. apply answers_bind; [keeps|].
    intros ?. apply answers_respond.
  - claimed Hc. apply transact_outcome; [done|by apply answers_erase|done].
  - claimed Hc. apply transact_outcome; [done|apply mark_in_answers|done].
  - claimed Hc. apply transact_outcome; [done| |by repeat eexists]. apply answers_bind; [keeps|].
    intros ?. apply answers_respond.
  - claimed Hc. apply transact_outcome; [done| |by repeat eexists]. apply answers_bind; [keeps|].
    intros ?. apply answers_respond.
Qed.

Lemma call_replays at_ fresh c claim response n1 n2 expires s :
  call_claim at_ c = Ok claim →
  mutation_second (fmt_rfc3339 (in_probe at_)) = Ok n1 → (n1 < expires)%Z →
  mutation_second (fmt_rfc3339 (in_begin at_)) = Ok n2 → (n2 < expires)%Z →
  st_mutation_ledger s !! claim_key claim = Some (mkLedgerEntry claim response expires) →
  answers_with meanwhile (run_call at_ fresh c) s response.
Proof.
  intros Hc Hn1 Hlt1 Hn2 Hlt2 Hl. pose proof (call_claim_context at_ c claim Hc) as (Ht & Hs & Hg).
  destruct c; simpl in *; unfold answers_with; claimed Hc;
    [destruct (rn_payload _) as [episode|resource|unit]|..];
    (eapply transact_replays || eapply probe_replays); eassumption.
Qed.

Lemma crosscheck_frame now s :
  st_mutation_ledger (crosscheck service now context s).1 = st_mutation_ledger s ∧
  st_subject_tombstones (crosscheck service now context s).1 = st_subject_tombstones s.
Proof.
  unfold crosscheck, run_capture_crosscheck, apply_capture_transitions.
  repeat case_match; simplify_eq; simpl; done.
Qed.

Lemma call_after_ledger at_ c s :
  st_mutation_ledger (call_after at_ c s).1 = st_mutation_ledger s.
Proof. destruct c; simpl; try done. apply crosscheck_frame. Qed.

(** The call committed one transaction, and after it whatever follows. *)
Definition committed_once (at_ : Instants) (c : Call.t) (s s' : InMemoryState)
    (followed : result ServiceError.t ()) : Prop :=
  ∃ s1 tx s2, untouched meanwhile s s1 ∧ tx_context tx = context ∧ commit s1 tx = Ok s2 ∧
    call_after at_ c s2 = (s', followed).

(** C6: Every verb is atomic.  A call that succeeds has committed one transaction
    of its context, or replayed one and done nothing; a call that fails has
    done nothing - but for a mark, whose cross-check may fail after the commit.
    Nothing means: whatever other callers did meanwhile, and expired entries
    dropped from the ledger. *)
Theorem calls_are_atomic at_ fresh c s s' r :
  (∀ claim, call_claim at_ c = Ok claim → lock_held meanwhile claim) →
  run_call at_ fresh c s = (s', r) →
  match r with
  | Ok _ => untouched meanwhile s s' ∨ committed_once at_ c s s' (Ok ())
  | Err error =>
      untouched meanwhile s s' ∨
      (∃ request, c = Call.Mark request) ∧ committed_once at_ c s s' (Err error)
  end.
Proof.
  intros Hlock Hrun. destruct (call_claim at_ c) as [claim|error] eqn:Hc.
  - pose proof (call_outcome at_ fresh c claim s Hc (Hlock _ eq_refl)) as Ho. rewrite Hrun in Ho.
    inversion Ho as [? error Hu|? response now Hu Hr|s0 body s1 tx now s2 response Hu Hb Hrun' Hs1 Hcx Hun He Hn Hco Heq];
      subst; [by left..|].
    destruct (call_after at_ c s2) as [s3 followed] eqn:Ea. injection Heq as -> <-.
    assert (committed_once at_ c s s' followed) as Hone
      by (eexists _, tx, s2; eauto using untouched).
    destruct followed as [[]|error]; right; [done|]. split; [|done].
    destruct c; simpl in Ea; try done. eauto.
  - rewrite (call_refused _ _ _ error) in Hrun by done. injection Hrun as <- <-.
    left. apply untouched_refl.
Qed.

(** C7: A request that is sent again gets the answer it got.  When a call
    succeeded, its response is on record until a day after it executed; before
    that, and unless the subject was erased, the same request under the same
    key - at whatever clock and with whatever fresh identifiers - is answered
    with the same response and does nothing, whatever other transactions were
    committed in between. *)
Theorem retried_calls_are_answered at1 fresh1 c s0 s1 response now1 :
  (∀ claim, call_claim at1 c = Ok claim → lock_held meanwhile claim) →
  mutation_second (fmt_rfc3339 (in_begin at1)) = Ok now1 →
  run_call at1 fresh1 c s0 = (s1, Ok response) →
  ∃ claim expires, call_claim at1 c = Ok claim ∧
  st_mutation_ledger s1 !! claim_key claim = Some (mkLedgerEntry claim response expires) ∧
  (expires = (now1 + DAY_SECONDS)%Z ∨ untouched meanwhile s0 s1) ∧
  ∀ s2 at2 fresh2 n1 n2, rtc (store_step expires) s1 s2 →
    st_subject_tombstones s2 !! (cx_tenant_id context, cx_data_subject_id context) = None →
    mutation_second (fmt_rfc3339 (in_probe at2)) = Ok n1 → (n1 < expires)%Z →
    mutation_second (fmt_rfc3339 (in_begin at2)) = Ok n2 → (n2 < expires)%Z →
    answers_with meanwhile (run_call at2 fresh2 c) s2 response.
Proof.
  intros Hlock Hnow Hrun. destruct (call_claim at1 c) as [claim|error] eqn:Hc;
    [|by rewrite (call_refused _ _ _ error) in Hrun by done].
  assert (∃ expires,
    st_mutation_ledger s1 !! claim_key claim = Some (mkLedgerEntry claim response expires) ∧
    (expires = (now1 + DAY_SECONDS)%Z ∨ untouched meanwhile s0 s1)) as (expires & Hl & He).
  { pose proof (call_outcome at1 fresh1 c claim s0 Hc (Hlock _ eq_refl)) as Ho. rewrite Hrun in Ho.
    inversion Ho as [|s' r now Hu (expires & Hl & _)|s body s' tx now s2 r Hu Hb Hrun' Hs1 Hcx Hun He Hn Hco Heq]; subst.
    { exists expires. eauto. }
    destruct (call_after at1 c s2) as [s3 followed] eqn:Ea.
    destruct followed as [[]|]; [|done]. injection Heq as -> ->.
    exists (now + DAY_SECONDS)%Z. split; [|left; congruence].
    pose proof (call_after_ledger at1 c s2) as Hkept. rewrite Ea in Hkept. simpl in Hkept.
    rewrite Hkept. by eapply executes_recorded. }
  exists claim, expires. split_and!; [done..|]. intros s2 at2 fresh2 n1 n2 Hsteps Hnt Hn1 Hlt1 Hn2 Hlt2.
  apply (call_claim_stable _ at2) in Hc as Hc2.
  destruct (call_claim_context _ _ _ Hc) as (Ht & Hs & _).
  assert (settled claim response expires s2) as [Hset|Hset].
  { eapply settled_steps; [done|]. by right. }
  { rewrite Ht, Hs, Hnt in Hset. by destruct Hset. }
  by eapply call_replays.
Qed.


(** ** Other subjects *)

Lemma crosscheck_keeps_subjects now s tenant subject : other_subject context tenant subject →
  subject_units (crosscheck service now context s).1 tenant subject = subject_units s tenant subject.
Proof.
  intros Hne. unfold crosscheck, run_capture_crosscheck. destruct (negb _); [done|].
  destruct (fetch_scope_open_units s context) as [units|]; [|done].
  destruct (is_empty _); [done|]. destruct (fetch_review_events _ _ _ _) as [events|]; [|done].
  destruct (is_empty _); [done|]. unfold apply_capture_transitions.
  destruct (validate_context s context); [|done].
  destruct (apply_transitions _ _ _ _) as [units' r] eqn:Ha.
  unfold subject_units, subject_view. cbn [sv_units]. simpl.
  destruct (decide (cx_tenant_id context = tenant)) as [Ht|Ht]; [|by rewrite rows_update_ne by done].
  rewrite <-Ht, rows_update_eq. replace units' with (units', r).1 by done. rewrite <-Ha.
  apply apply_transitions_frame. intros ->. apply Hne. by rewrite Ht.
Qed.

Lemma untouched_units s s' tenant subject :
  (∀ w s, subject_units (meanwhile w s) tenant subject = subject_units s tenant subject) →
  untouched meanwhile s s' → subject_units s' tenant subject = subject_units s tenant subject.
Proof. intros Hw. induction 1 as [|now s' _ IH|w s' _ IH]; [done|done|by rewrite Hw]. Qed.

(** The identifiers of the units of the context's tenant are distinct. *)
Definition distinct_units (s : InMemoryState) : Prop :=
  NoDup (map mu_id (rows (st_memory_units s) (cx_tenant_id context))).

Lemma untouched_distinct s s' : (∀ w s, distinct_units s → distinct_units (meanwhile w s)) →
  untouched meanwhile s s' → distinct_units s → distinct_units s'.
Proof. intros Hw. induction 1; intros Hd; auto. Qed.

(** C8: No verb writes a unit of another subject.  However a call ends, and
    whatever other callers do that leave those units alone, the units of every
    other subject of this tenant, and of every subject of any other tenant, are
    the rows they were, in the order they were. *)
Theorem calls_keep_other_subjects at_ fresh c s tenant subject :
  (∀ claim, call_claim at_ c = Ok claim → lock_held meanwhile claim) →
  (∀ w s, subject_units (meanwhile w s) tenant subject = subject_units s tenant subject) →
  (∀ w s, distinct_units s → distinct_units (meanwhile w s)) →
  other_subject context tenant subject → distinct_units s →
  subject_units (run_call at_ fresh c s).1 tenant subject = subject_units s tenant subject.
Proof.
  intros Hlock Hw Hwd Hne Hnd. destruct (call_claim at_ c) as [claim|error] eqn:Hc;
    [|by rewrite (call_refused _ _ _ error)].
  destruct (call_outcome at_ fresh c claim s Hc (Hlock _ eq_refl))
    as [s' error Hu|s' response now Hu _|s0 body s1 tx now s2 response Hu _ _ -> Hcx Hun (Hm & _) _ Hco];
    [by apply untouched_units..|].
  assert (subject_units s2 tenant subject = subject_units s tenant subject) as <-.
  { apply (untouched_others meanwhile _ Window.Committing) in Hu.
    transitivity (subject_units (meanwhile Window.Committing s0) tenant subject);
      [|by apply untouched_units].
    apply (commit_keeps_subjects _ tx); [|done|by rewrite Hcx| |done].
    - intros staged Hs. rewrite Hm in Hs. injection Hs as <-. rewrite Hcx.
      by apply (call_claim_context at_ c).
    - rewrite Hcx. by apply (untouched_distinct s). }
  assert (subject_units (call_after at_ c s2).1 tenant subject = subject_units s2 tenant subject) as Ha.
  { destruct c; try done. by apply crosscheck_keeps_subjects. }
  by destruct (call_after at_ c s2) as [s3 []].
Qed.
End calls.
