(* ===== verification/VerbEffects.v ===== *)
(** * VerbEffects: what the verbs do

    An episode keeps the trust its source earns, whoever retained it; the
    report of a mark; the paths of a task. *)

From S2P Require Import Prelude Text Types Float Clock Bitemporal Lineage Store Isolation Txn Stage Binding Ledger.
From S2P Require Import Reads Capture CaptureFacts TextFacts Gate Pack Compile Structured Mining Prepare Reflect.
From S2P Require Import Requests Verbs Tasks VerbFacts.

(** ** The trust of episodes *)

(** An episode carries at least the risk of its source kind. *)
Definition earned (e : StoredEpisode) : Prop :=
  trust_risk_rank (actor_kind_trust (ep_source_kind e)) <= trust_risk_rank (ep_source_trust e).

Definition all_earned (m : gmap TenantId (list StoredEpisode)) : Prop :=
  ∀ tenant, Forall earned (rows m tenant).

Definition episodes_earned (s : InMemoryState) : Prop := all_earned (st_episodes s).

Definition tx_earned (tx : InMemoryTxn) : Prop :=
  Forall earned (tx_episodes tx) ∧
  ∀ baseline staged, tx_state_snapshot tx = Some (baseline, staged) → episodes_earned staged.

Definition earns {A} (m : TxOp A) : Prop := ∀ store tx,
  episodes_earned store → tx_earned tx → tx_earned (m store tx).1.

Lemma earned_observe at_ e `{Jiff} : earned e → earned (observe_episode at_ e).
Proof.
  unfold observe_episode, earned. destruct (is_lt _); simpl; by destruct (is_gt _).
Qed.

Lemma Forall_update_first {A} (P : A → Prop) p f l :
  (∀ x, P x → P (f x)) → Forall P l → Forall P (update_first p f l).
Proof.
  intros Hf. induction 1 as [|x l Hx Hl IH]; [constructor|]. cbn [update_first].
  destruct (p x); constructor; auto.
Qed.

Lemma Forall_kept {A} (P : A → Prop) p l : Forall P l → Forall P (retain p l).
Proof.
  rewrite !Forall_forall. intros Hl x [Hx _]%elem_of_retain. auto.
Qed.

Lemma all_earned_update tenant f m : (∀ l, Forall earned l → Forall earned (f l)) →
  all_earned m → all_earned (update_rows tenant f m).
Proof.
  intros Hf Hm t. destruct (decide (tenant = t)) as [->|Hne].
  - rewrite rows_update_eq. auto.
  - by rewrite rows_update_ne.
Qed.

Lemma all_earned_push l m : Forall earned l → all_earned m → all_earned (push_all ep_tenant_id l m).
Proof.
  unfold push_all. intros Hl. revert m. induction Hl as [|e l He Hl IH]; intros m Hm; [done|].
  simpl. apply IH. apply all_earned_update; [|done]. intros l' Hl'. by apply Forall_app_2; [|constructor].
Qed.

Lemma all_earned_alter tenant p m : all_earned m →
  all_earned (alter (retain p) tenant m).
Proof.
  intros Hm t. specialize (Hm t). unfold rows in *. destruct (decide (tenant = t)) as [->|Hne].
  - rewrite lookup_alter_eq. destruct (m !! t); simpl in *; [by apply Forall_kept|done].
  - by rewrite lookup_alter_ne.
Qed.

Section earned.
Context `{HashOrder} `{Jiff} `{Sha256}.

Lemma all_earned_insert tenant l : Forall earned l →
  all_earned (<[tenant := l]> (∅ : gmap TenantId (list StoredEpisode))).
Proof.
  intros Hl t. unfold rows. destruct (decide (tenant = t)) as [->|Hne].
  - by rewrite lookup_insert_eq.
  - rewrite lookup_insert_ne, lookup_empty by done. constructor.
Qed.

Lemma with_staged_earns {A} store
    (op : ResolvedMemoryContext → InMemoryState → result StoreError.t (A * InMemoryState)) tx :
  (∀ cx s a s', op cx s = Ok (a, s') → episodes_earned s → episodes_earned s') →
  episodes_earned store → tx_earned tx → tx_earned (with_staged store op tx).1.
Proof.
  intros Hop Hs [He Hsnap]. unfold with_staged.
  destruct (staged_state store tx) as [[baseline scratch]|] eqn:Est; [|done].
  assert (episodes_earned scratch) as Hscratch.
  { unfold staged_state in Est. destruct (tx_committed tx); [done|].
    destruct (tx_state_snapshot tx) as [snapshot|] eqn:Esnap.
    - injection Est as ->. by eapply Hsnap.
    - destruct (validate_context _ _); simpl in Est; [|done]. injection Est as <- <-.
      unfold episodes_earned, into_scratch. simpl. apply all_earned_insert, Forall_kept, Hs. }
  destruct (op (tx_context tx) scratch) as [[a scratch']|] eqn:Eop; simpl;
    (split; [done|]); intros b st [= <- <-]; [by eapply Hop|done].
Qed.

(** The operations on the staged state, by the episodes they leave. *)
Lemma correct_in_episodes new_edge_id write cx s r s' :
  correct_in new_edge_id write cx s = Ok (r, s') → st_episodes s' = st_episodes s.
Proof.
  unfold correct_in. destruct (find _ _) as [old|]; [|done]. cbn [ok_or result_bind].
  destruct (correction_rectangles_with_ids _ _ _ _ _ _ _) as [rectangles|]; [|done]. cbn [result_bind].
  destruct (apply_correction_transition _ _ _ _ _ _ _ _) as [applied|]; [|done]. cbn [result_bind].
  intros [= _ <-]. by destruct (cw_embedding write) as [[profile [|x vec]]|].
Qed.

Lemma invalidate_in_episodes new_edge_id write cx s r s' :
  invalidate_in new_edge_id write cx s = Ok (r, s') → st_episodes s' = st_episodes s.
Proof. unfold invalidate_in. destruct (find _ _); [|done]. by intros [= _ <-]. Qed.

Lemma review_in_episodes events cx s r s' :
  review_in events cx s = Ok (r, s') → st_episodes s' = st_episodes s.
Proof.
  unfold review_in. destruct (check_all _ _); [|done]. cbn [result_bind]. intros Hr. by injection Hr as _ <-.
Qed.

Lemma compiled_in_episodes claim write cx s r s' :
  compiled_in claim write cx s = Ok (r, s') → st_episodes s' = st_episodes s.
Proof.
  unfold compiled_in. destruct (match claim with Some _ => negb (claim_is_current _ _) | None => _ end);
    [by intros [= _ <-]|].
  destruct (match claim with Some _ => _ | None => _ end); [done|].
  destruct (st_reflect_trace_owners s !! _) as [owner|].
  { case_bool_decide; [by intros [= _ <-]|done]. }
  destruct (check_compiled _ _ _); [|done]. cbn [result_bind]. intros [= _ <-].
  unfold write_compiled. destruct (bool_decide _), (wr_embedding_profile write); simpl; try done;
    by destruct (is_empty _).
Qed.

Lemma forget_in_episodes write cx s r s' :
  forget_in write cx s = Ok (r, s') → episodes_earned s → episodes_earned s'.
Proof.
  intros Hf Hs. unfold forget_in in Hf. destruct (negb _); [done|].
  destruct (fw_target write) as [id|id|id];
    [destruct (apply_unit_forget_transition _ _ _ _ _ _) as [[units ids]|]; [|done]
    |destruct (forget_derived _ _ _ _ _ _) as [units ids]..]; cbn [result_bind] in Hf;
    injection Hf as _ <-; [done| |done].
  unfold episodes_earned. simpl. by apply all_earned_alter.
Qed.

(** ** Bodies *)

Lemma earns_result {A} (r : result ServiceError.t A) : earns (tx_result r).
Proof. intros store tx _ Htx. exact Htx. Qed.

Lemma earns_bind {A B} (m : TxOp A) (k : A → TxOp B) :
  earns m → (∀ a, earns (k a)) → earns (tx_bind m k).
Proof.
  intros Hm Hk store tx Hs Htx. unfold tx_bind. specialize (Hm store tx Hs Htx).
  destruct (m store tx) as [tx1 [a|e]]; [|done]. by apply Hk.
Qed.

Lemma earns_if {A} (b : bool) (m m' : TxOp A) : earns m → earns m' → earns (if b then m else m').
Proof. by destruct b. Qed.

Lemma earns_staged {A} error (f : InMemoryState → InMemoryTxn → InMemoryTxn * result StoreError.t A) :
  (∀ store tx, episodes_earned store → tx_earned tx → tx_earned (f store tx).1) →
  earns (staging_by error f).
Proof.
  intros Hf store tx Hs Htx. unfold staging_by. specialize (Hf store tx Hs Htx). by destruct (f store tx).
Qed.

(** An operation that leaves episodes and snapshot alone. *)
Definition keeps_episodes {A} (f : InMemoryState → InMemoryTxn → InMemoryTxn * result StoreError.t A)
    : Prop := ∀ store tx,
  tx_episodes (f store tx).1 = tx_episodes tx ∧
  tx_state_snapshot (f store tx).1 = tx_state_snapshot tx.

Lemma earns_keeps {A} error (f : InMemoryState → InMemoryTxn → InMemoryTxn * result StoreError.t A) :
  keeps_episodes f → earns (staging_by error f).
Proof.
  intros Hf. apply earns_staged. intros store tx Hs [He Hsnap]. destruct (Hf store tx) as [E1 E2].
  split; [by rewrite E1|]. intros b st. rewrite E2. apply Hsnap.
Qed.

Ltac keeps_rows := intros store tx; split; repeat (case_match; subst); reflexivity.

Lemma stage_resource_keeps id resource : keeps_episodes (λ _, stage_resource id resource).
Proof. unfold stage_resource. keeps_rows. Qed.

Lemma enqueue_reflect_keeps id job : keeps_episodes (λ store, enqueue_reflect store id job).
Proof. unfold enqueue_reflect. keeps_rows. Qed.

Lemma stage_task_outcome_keeps row events :
  keeps_episodes (λ store, stage_task_outcome store row events).
Proof. unfold stage_task_outcome. keeps_rows. Qed.

Lemma stage_task_memory_events_keeps events :
  keeps_episodes (λ store, stage_task_memory_events store events).
Proof. unfold stage_task_memory_events. keeps_rows. Qed.

Lemma stage_mutation_response_keeps response :
  keeps_episodes (λ _, stage_mutation_response response).
Proof. unfold stage_mutation_response. keeps_rows. Qed.

Lemma stage_subject_erasure_keeps `{ReceiptJson} : keeps_episodes (λ _, stage_subject_erasure).
Proof. unfold stage_subject_erasure. keeps_rows. Qed.

Lemma respond_earns {A} `{Serialize A} status (value : A) : earns (respond status value).
Proof.
  apply earns_bind; [apply earns_result|]. intros response.
  apply earns_bind; [apply earns_keeps, stage_mutation_response_keeps|]. intros _. apply earns_result.
Qed.

Lemma stage_episode_earns id episode :
  trust_risk_rank (actor_kind_trust (ne_source_kind episode)) <=
    trust_risk_rank (ne_source_trust episode) →
  earns (staged (λ store, stage_episode store id episode)).
Proof.
  intros Hnew. apply earns_staged. intros store tx Hs [He Hsnap]. unfold stage_episode.
  destruct (tx_committed tx); [done|]. destruct (validate_context_identity _ _ _ _ _ _ _); [|done].
  destruct (find _ (tx_episodes tx)).
  { split; [|done]. simpl. apply Forall_update_first; [|done]. intros x. by apply earned_observe. }
  destruct (find _ (rows _ _)); [done|]. split; [|done]. simpl.
  apply Forall_app_2; [done|]. by constructor.
Qed.

Lemma floored_trust_earns kind trust :
  trust_risk_rank (actor_kind_trust kind) <= trust_risk_rank (floored_trust kind trust).
Proof. unfold floored_trust. destruct (N.ltb_spec (trust_risk_rank trust) (trust_risk_rank (actor_kind_trust kind))); lia. Qed.

Lemma with_staged_earns_op {A} error
    (op : ResolvedMemoryContext → InMemoryState → result StoreError.t (A * InMemoryState)) :
  (∀ cx s a s', op cx s = Ok (a, s') → st_episodes s' = st_episodes s) →
  earns (staging_by error (λ store, with_staged store op)).
Proof.
  intros Hop. apply earns_staged. intros store tx. apply with_staged_earns.
  intros cx s a s' Ho. unfold episodes_earned. by rewrite (Hop _ _ _ _ Ho).
Qed.

Lemma stage_compiled_earns claim write :
  earns (staged (λ store, stage_compiled_units store claim write)).
Proof. apply with_staged_earns_op. intros ????. apply compiled_in_episodes. Qed.

Lemma reinforce_earns cx now job_id episode_id :
  earns (reinforce_captured_episode_units cx now job_id episode_id).
Proof.
  apply earns_bind; [apply with_staged_earns_op; by intros ???? [= <- <-]|]. intros units.
  apply earns_if; [apply earns_result|]. apply earns_bind; [apply stage_compiled_earns|].
  intros _. apply earns_result.
Qed.
End earned.

(** ** Marks *)

(** What is stored after a commit of a snapshot of review events. *)
Lemma commit_shows_events `{HashOrder} `{Jiff} `{ReceiptJson} s tx s' claim response now baseline staged e :
  executes s tx claim response now → mc_verb claim ≠ MutationVerb.EraseSubject →
  tx_state_snapshot tx = Some (baseline, staged) → commit s tx = Ok s' →
  e ∈ ic_review_events (capture staged (tx_context tx)) →
  e ∈ rows (st_review_events s') (cx_tenant_id (tx_context tx)).
Proof.
  intros Hex Hverb Hsnap Hc He.
  destruct (commit_installs _ _ _ _ _ _ Hex Hverb Hc) as (next & Hn & _ & ->).
  unfold commit_snapshot in Hn. rewrite Hsnap in Hn. destruct (negb _); [done|]. injection Hn as <-.
  unfold replace_in. simpl. rewrite rows_update_eq. apply elem_of_app. by right.
Qed.

Lemma claim_for_verb {A} `{Sha256} `{JsonWriter} `{Serialize A} context verb key (request : A) claim :
  claim_for context verb key request = Ok claim → mc_verb claim = verb.
Proof.
  unfold claim_for, MutationClaim_new. destruct (canonical_mutation_request_hash _ _); simpl; [|done].
  destruct (validate_idempotency_key _); simpl; [|done]. by intros [= <-].
Qed.

Lemma elem_of_dedup_ids l x : x ∈ dedup_by N.eqb l ↔ x ∈ l.
Proof.
  split; [apply elem_of_dedup_by|]. revert x. induction l as [|y l IH]; simpl; [done|]. intros x.
  destruct (dedup_by N.eqb l) as [|z r] eqn:E; [set_solver|].
  destruct (N.eqb_spec y z); subst; set_solver.
Qed.

Lemma elem_of_distinct_ids l x : x ∈ distinct_ids l ↔ x ∈ l.
Proof. unfold distinct_ids. by rewrite elem_of_dedup_ids, elem_of_sort_by. Qed.

Lemma crosscheck_events `{HashOrder} `{Jiff} service now context s :
  st_review_events (crosscheck service now context s).1 = st_review_events s.
Proof.
  unfold crosscheck, run_capture_crosscheck, apply_capture_transitions.
  repeat (case_match; simplify_eq/=; try done).
Qed.

Section marks.
Context `{HashOrder} `{Jiff} `{Sha256} `{StrDebug} `{EmbeddingProvider} `{ReceiptJson} `{JsonWriter}.
Context `{Serialize MarkRequest} `{Serialize MarkResult}.
Context (meanwhile : Window.t → InMemoryState → InMemoryState) (service : MemoryService).
Context (context : ResolvedMemoryContext) (idempotency_key : string).

(** The event of a mark is among the events of the staged state, or one of the
    same trace and caller was there. *)
Lemma mark_in_stages at_ request claim store tx response :
  mark_in at_ context request store (claimed_tx context (in_begin at_) claim None false) =
    (tx, Ok response) →
  ∃ trace baseline staged event,
    trace_by_id store context (mkq_trace_id request) = Ok (Some trace) ∧
    (∀ id, id ∈ distinct_ids (mkq_used_ids request) → id ∈ map ri_unit_id (tr_context_items trace)) ∧
    tx_state_snapshot tx = Some (baseline, staged) ∧
    event ∈ ic_review_events (capture staged context) ∧
    rv_trace_id event = mkq_trace_id request ∧ rv_caller_id event = mkq_caller_id request ∧
    (event = mark_event at_ context request (distinct_ids (mkq_used_ids request)) ∨
     event ∈ rows (st_review_events store) (cx_tenant_id context)).
Proof.
  unfold mark_in, tx_bind.
  destruct (map_err core_error _) as [[]|error] eqn:Echeck; [|done].
  assert (∃ trace, trace_by_id store context (mkq_trace_id request) = Ok (Some trace) ∧
    ∀ id, id ∈ distinct_ids (mkq_used_ids request) → id ∈ map ri_unit_id (tr_context_items trace))
    as (trace & Ht & Hids).
  { unfold marked_trace, check_mark, store_result in Echeck.
    destruct (trace_by_id _ _ _) as [[trace|]|]; [|done..]. exists trace. split; [done|].
    cbn [map_err ok_or result_bind] in Echeck.
    destruct (any _ _) eqn:Ea; [done|]. rewrite any_false in Ea. intros id Hid.
    specialize (Ea id Hid). apply negb_false_iff, mem_true in Ea. done. }
  unfold staged, staging_by, stage_review_events, with_staged.
  destruct (staged_state store _) as [[baseline scratch]|] eqn:Est; [|done].
  unfold staged_state in Est. simpl in Est.
  destruct (validate_context store context); simpl in Est; [|done]. injection Est as <- <-.
  unfold review_in. set (scratch := into_scratch _ _ _). simpl.
  set (event := mark_event at_ context request (distinct_ids (mkq_used_ids request))).
  destruct (check_review_event scratch context event) as [[]|] eqn:Ec; [|done]. simpl.
  unfold respond, tx_bind, tx_result, staged, staging_by.
  destruct (serialized_mutation_response _ _) as [r|]; [|done].
  unfold stage_mutation_response. simpl. intros [= <- <-].
  assert (rows (st_review_events scratch) (cx_tenant_id context) = ic_review_events (capture store context))
    as Hrows by (unfold rows, scratch, into_scratch; simpl; by rewrite lookup_insert_eq).
  assert (mem (mkq_trace_id request) (map tr_id (ic_retrieval_traces (capture scratch context))) = true)
    as Hmem.
  { unfold check_review_event in Ec. destruct (find _ _) as [t|] eqn:Ef; [|done].
    apply find_Some in Ef as [Hin Hid%N.eqb_eq]. apply mem_true, list_elem_of_fmap. exists t.
    split; [by rewrite Hid|]. rewrite elem_of_reverse in Hin. exact Hin. }
  exists trace, (capture store context). eexists.
  assert (∃ e, e ∈ add_review_event (ic_review_events (capture store context)) event ∧
    rv_trace_id e = mkq_trace_id request ∧ rv_caller_id e = mkq_caller_id request ∧
    (e = event ∨ e ∈ rows (st_review_events store) (cx_tenant_id context)))
    as (e & He & Htrace & Hcaller & Hor).
  { unfold add_review_event. destruct (any _ _) eqn:Ea.
    - apply any_true in Ea as (e & He & Hp). bool_prop. exists e. split_and!; [done..|].
      right. by apply elem_of_retain in He as [? _].
    - exists event. split_and!; [|done..|by left]. apply elem_of_app. right. by apply list_elem_of_singleton. }
  exists e. split_and!; [done..| | |done|done|done]; [reflexivity|].
  unfold capture. cbn [ic_review_events]. apply elem_of_retain. split.
  - simpl. rewrite rows_update_eq.
    change (e ∈ add_review_event (rows (st_review_events scratch) (cx_tenant_id context)) event).
    by rewrite Hrows.
  - rewrite Htrace. exact Hmem.
Qed.

End marks.

Section calls.
Context `{HashOrder} `{Jiff} `{Sha256} `{StrDebug} `{EmbeddingProvider} `{ReceiptJson} `{JsonWriter}.
Context `{Serialize RetainEpisodeHttpRequest} `{Serialize ReflectRequest} `{Serialize CorrectRequest}.
Context `{Serialize ForgetRequest} `{Serialize EraseSubjectRequest} `{Serialize MarkRequest}.
Context `{Serialize RememberRequest} `{Serialize CorrectMemoryRequest} `{Serialize InvalidateMemoryRequest}.
Context `{Serialize RetainEpisodeHttpResponse} `{Serialize ReflectAccepted} `{Serialize CorrectResult}.
Context `{Serialize ForgetResult} `{Serialize EraseSubjectResult} `{Serialize MarkResult}.
Context `{Serialize TaskOutcomeRequest} `{Serialize TaskOutcomeResult}.
Context `{Serialize TaskMemoryEventsRequest} `{Serialize TaskMemoryEventsResult}.
Context (a_recency_control_enabled : bool) (meanwhile : Window.t → InMemoryState → InMemoryState).
Context (service : MemoryService) (context : ResolvedMemoryContext) (idempotency_key : string).
Context (erase_json : ∀ generation erased_at, to_vec (mkEraseResult generation erased_at) =
           Ok (Txn.receipt_json {| rr_generation := generation; rr_erased_at := erased_at |})).

Notation call_body := (call_body a_recency_control_enabled service context).
Notation run_call := (run_call a_recency_control_enabled meanwhile service context idempotency_key).

Lemma check_retain_episode trust request checked episode :
  check_retain context trust request = Ok checked → rn_payload checked.2 = RetainPayload.Episode episode →
  checked.1 = floored_trust (ple_source_kind episode) trust.
Proof.
  unfold check_retain. destruct (reject_if _ _); [|done]. cbn [result_bind].
  destruct (reject_if _ _); [|done]. cbn [result_bind].
  destruct (canonical_utc_timestamp _ _); [|done]. cbn [result_bind].
  destruct (check_retain_payload trust (rn_payload request)) as [floored|] eqn:Ep; [|done].
  cbn [result_bind]. intros [= <-]. simpl. intros Hp. rewrite Hp in Ep.
  unfold check_retain_payload in Ep. destruct (reject_if _ _); [|done]. cbn [result_bind] in Ep.
  destruct (reject_if _ _); [|done]. cbn [result_bind] in Ep. by injection Ep as <-.
Qed.

Lemma call_body_earns at_ fresh c body : call_body at_ fresh c body → earns body.
Proof.
  assert (∀ {A} `{Serialize A} {B} (m : TxOp B) status (k : B → A), earns m →
    earns (tx_bind m (λ b, respond status (k b)))) as Hr.
  { intros A ? B m status k Hm. apply earns_bind; [done|]. intros b. apply respond_earns. }
  assert (∀ trust prepared, earns (write_direct trust prepared)) as Hw.
  { intros trust [created write]. apply Hr, stage_compiled_earns. }
  destruct c; simpl.
  - intros (checked & Hch & Hb). destruct (rn_payload checked.2) as [episode|resource|unit] eqn:Ep.
    + subst body. apply earns_bind; [|intros outcome; apply earns_bind].
      * apply stage_episode_earns. simpl. rewrite (check_retain_episode _ _ _ _ Hch Ep).
        apply floored_trust_earns.
      * apply earns_if; [apply reinforce_earns|apply earns_result].
      * intros _. apply Hr, earns_keeps, enqueue_reflect_keeps.
    + subst body. apply earns_bind; [apply earns_keeps, stage_resource_keeps|]. intros id.
      apply Hr, earns_keeps, enqueue_reflect_keeps.
    + destruct Hb as [prepared ->]. apply Hw.
  - intros (s & observed_at & prepared & _ & ->). apply Hw.
  - intros ->. apply Hr, earns_keeps, enqueue_reflect_keeps.
  - intros [write ->]. apply Hr, with_staged_earns_op. intros ????. apply correct_in_episodes.
  - intros [write ->]. apply Hr, with_staged_earns_op. intros ????. apply correct_in_episodes.
  - intros [write ->]. apply Hr, with_staged_earns_op. intros ????. apply invalidate_in_episodes.
  - intros [target ->]. apply Hr, earns_staged. intros store tx. apply with_staged_earns.
    intros cx s a s'. apply forget_in_episodes.
  - intros ->. apply earns_bind; [apply earns_keeps, stage_subject_erasure_keeps|]. intros receipt.
    apply earns_result.
  - intros ->. apply earns_bind; [intros store tx _ Htx; exact Htx|]. intros _.
    apply Hr, with_staged_earns_op. intros ????. apply review_in_episodes.
  - intros (row & events & result & ->). apply Hr, earns_keeps, stage_task_outcome_keeps.
  - intros (rows & result & ->). apply Hr, earns_keeps, stage_task_memory_events_keeps.
Qed.

Lemma all_earned_observed updates m : all_earned m →
  all_earned (foldl (λ m '(tenant, id, observed_at),
                       update_rows tenant (update_first (λ e, ep_id e =? id) (observe_episode observed_at)) m)
                m updates).
Proof.
  revert m. induction updates as [|[[tenant id] at_] l IH]; intros m Hm; [done|]. simpl. apply IH.
  apply all_earned_update; [|done]. intros l'. apply Forall_update_first.
  intros x. by apply earned_observe.
Qed.

(** A commit installs episodes of the store and of the transaction. *)
Lemma commit_earned s tx s' : episodes_earned s → tx_earned tx → commit s tx = Ok s' →
  episodes_earned s'.
Proof.
  intros Hs [He Hsnap] Hc.
  assert (∀ next, commit_snapshot s tx = Ok next → episodes_earned next) as Hnext.
  { intros next. unfold commit_snapshot. destruct (tx_state_snapshot tx) as [[baseline staged]|];
      [|by intros [= <-]].
    destruct (negb _); [done|]. intros [= <-]. unfold episodes_earned, replace_in. simpl.
    apply all_earned_update; [|done]. intros l Hl.
    apply Forall_app_2; apply Forall_kept; [done|]. by eapply Hsnap. }
  apply commit_inv in Hc as [ -> |now mutation next _ _ Hn _ _ _ ->
    |now claim response next receipt _ _ Hn _ _ _ _ ->]; [done|..]; apply Hnext in Hn.
  - assert (episodes_earned (apply_rows tx next)) as Ha.
    { unfold episodes_earned, apply_rows. simpl. apply all_earned_push; [done|].
      by apply all_earned_observed. }
    by destruct mutation as [[claim response]|].
  - unfold episodes_earned, record_mutation, erase_subject. simpl.
    apply all_earned_update; [|done]. intros l. apply Forall_kept.
Qed.

(** C9: No verb lifts an episode above what its source earns.  In every state
    that verbs and other callers with the same property lead to, an episode
    carries at least the risk of its source kind: a key of a trusted system
    that retains what an agent wrote retains an agent's episode. *)
Theorem episodes_keep_the_floor at_ fresh c s :
  (∀ claim, call_claim context idempotency_key at_ c = Ok claim → lock_held meanwhile claim) →
  (∀ w s, episodes_earned s → episodes_earned (meanwhile w s)) →
  episodes_earned s → episodes_earned (run_call at_ fresh c s).1.
Proof.
  intros Hlock Hw Hs.
  destruct (call_claim context idempotency_key at_ c) as [claim|error] eqn:Hc;
    [|rewrite (call_refused _ _ _ _ _ at_ fresh c error s Hc); exact Hs].
  assert (∀ s', untouched meanwhile s s' → episodes_earned s') as Hu
    by (induction 1; auto).
  destruct (call_outcome a_recency_control_enabled meanwhile service context idempotency_key
              erase_json at_ fresh c claim s Hc (Hlock _ eq_refl))
    as [s' error Hun|s' response now Hun _|s0 body s1 tx now s2 response Hun Hb Hrun -> _ _ _ _ Hco];
    [by apply Hu..|].
  assert (episodes_earned s2) as Hafter.
  { apply (commit_earned (meanwhile Window.Committing s0) tx); [by auto| |done].
    replace tx with (body s0 (claimed_tx context (in_begin at_) claim None false)).1 by (by rewrite Hrun).
    apply (call_body_earns _ _ _ _ Hb); [by auto|]. by split. }
  assert (episodes_earned (call_after service context at_ c s2).1) as Ha.
  { destruct c; simpl; try done. unfold crosscheck, run_capture_crosscheck, apply_capture_transitions.
    repeat (case_match; simplify_eq/=; try done). }
  by destruct (call_after service context at_ c s2) as [s3 []].
Qed.

(** A mark is recorded as it was made.  An executed mark read the trace of its
    context and found every identifier it reports among the items of the trace;
    afterwards the store holds an event of that trace and caller, and it is
    this report - its identifiers in order and without repetition - or the one
    the caller made before. *)
Theorem marks_are_recorded at_ request claim s s' response :
  call_claim context idempotency_key at_ (Call.Mark request) = Ok claim →
  lock_held meanwhile claim →
  mark_verb meanwhile service at_ context idempotency_key request s = (s', Ok response) →
  untouched meanwhile s s' ∨
  ∃ store trace event, untouched meanwhile s store ∧
    trace_by_id store context (mkq_trace_id request) = Ok (Some trace) ∧
    (∀ id, id ∈ mkq_used_ids request → id ∈ map ri_unit_id (tr_context_items trace)) ∧
    event ∈ rows (st_review_events s') (cx_tenant_id context) ∧
    rv_trace_id event = mkq_trace_id request ∧ rv_caller_id event = mkq_caller_id request ∧
    (event = mark_event at_ context request (distinct_ids (mkq_used_ids request)) ∨
     event ∈ rows (st_review_events store) (cx_tenant_id context)).
Proof.
  intros Hc Hlock Hrun.
  set (fresh := mkVerbIds 0 0 0 0 (λ _, 0) (λ _, 0) (λ _, 0)).
  pose proof (call_outcome a_recency_control_enabled meanwhile service context idempotency_key
                erase_json at_ fresh (Call.Mark request) claim s Hc Hlock) as Ho.
  cbn [VerbFacts.run_call] in Ho. rewrite Hrun in Ho.
  inversion Ho as [|? ? now Hun _|s0 body s1 tx now s2 ? Hun -> Hbody -> Hcx _ Hex _ Hco Heq];
    subst; [by left|right].
  apply mark_in_stages in Hbody
    as (trace & baseline & staged & event & Ht & Hids & Hsnap & He & Htrace & Hcaller & Hor).
  assert (event ∈ rows (st_review_events s2) (cx_tenant_id (tx_context tx))) as Hstored.
  { eapply commit_shows_events; [exact Hex| |exact Hsnap|exact Hco|exact He].
    simpl in Hc. destruct (map_err core_error _); simpl in Hc; [|done].
    by rewrite (claim_for_verb _ _ _ _ _ Hc). }
  exists s0, trace, event. split_and!; [done..| | |done|done|done].
  - intros id Hid. by apply Hids, elem_of_distinct_ids.
  - cbn [call_after] in Heq. pose proof (crosscheck_events service (in_now at_) (tx_context tx) s2) as Hkept.
    destruct (crosscheck _ _ _ s2) as [s3 [[]|]]; [|done]. injection Heq as <- _. simpl in Hkept. by rewrite Hkept.
Qed.
End calls.

(** * The paths of a task

    What a recorded task says it planned and touched are files of the
    repository, each once and in order. *)

(** The part of a path is a name. *)
Definition name_part (part : list N) : Prop :=
  part ≠ [] ∧ part ≠ dot ∧ part ≠ dot_dot ∧ slash ∉ part.

(** A path that stays below the root it is relative to. *)
Definition inside_path (path : string) : Prop :=
  ∃ parts, parts ≠ [] ∧ Forall name_part parts ∧ path = string_of_bytes (join_on slash parts).

Definition strictly_before (a b : string) : Prop := str_cmp a b = Lt.

Lemma elem_of_rev {A} (x : A) l : x ∈ rev l ↔ x ∈ l.
Proof. by rewrite !list_elem_of_In, <-in_rev. Qed.

Lemma split_on_parts b part l : b ∉ part → Forall (λ p, b ∉ p) (split_on b part l).
Proof.
  revert part. induction l as [|a l IH]; intros part Hp; simpl.
  - constructor; [by rewrite elem_of_rev|constructor].
  - destruct (N.eqb_spec a b) as [->|Hne].
    + constructor; [by rewrite elem_of_rev|]. apply IH. set_solver.
    + apply IH. set_solver.
Qed.

Lemma path_parts_names parts r : Forall (λ p, slash ∉ p) parts → path_parts parts = Ok r →
  Forall name_part r.
Proof.
  intros Hall. revert r. induction Hall as [|p parts Hp Hall IH]; intros r; simpl;
    [intros [= <-]; constructor|].
  destruct (is_empty p || bool_decide (p = dot)) eqn:Ed; [apply IH|].
  destruct (bool_decide (p = dot_dot)) eqn:E2; [done|]. destruct (path_parts parts) as [rest|]; simpl; [|done]. intros [= <-].
  constructor; [|by apply IH]. bool_prop. split_and!; [|done..]. by intros ->.
Qed.

Lemma normalized_path_inside path r : normalized_path path = Ok r → inside_path r.
Proof.
  unfold normalized_path. destruct (reject_if _ _); [|done]. cbn [result_bind].
  destruct (path_parts _) as [parts|] eqn:Ep; [|done]. cbn [result_bind].
  unfold reject_if. destruct (is_empty parts) eqn:Ee; [done|]. cbn [result_bind]. intros [= <-].
  exists parts. split_and!; [by intros ->| |done].
  eapply path_parts_names; [|done]. apply split_on_parts. set_solver.
Qed.

Lemma each_path_inside paths r : each_path paths = Ok r → Forall inside_path r.
Proof.
  revert r. induction paths as [|path paths IH]; intros r; simpl; [intros [= <-]; constructor|].
  destruct (normalized_path path) as [q|] eqn:Eq; [|done]. cbn [result_bind].
  destruct (each_path paths) as [rest|]; [|done]. cbn [result_bind]. intros [= <-].
  constructor; [by eapply normalized_path_inside|by apply IH].
Qed.

(** ** Order *)

Lemma dedup_strict l : StronglySorted (λ a b, string_leb a b = true) l →
  StronglySorted strictly_before (dedup_by String.eqb l).
Proof.
  induction 1 as [|x l Hl IH Hx]; simpl; [constructor|].
  assert (Forall (λ b, string_leb x b = true) (dedup_by String.eqb l)) as Hd.
  { rewrite Forall_forall in *. intros y Hy. apply Hx. by eapply elem_of_dedup_by. }
  destruct (dedup_by String.eqb l) as [|y r]; [repeat constructor|].
  inversion IH as [|?? Hr Hy]; subst. inversion Hd as [|?? Hxy _]; subst.
  destruct (String.eqb_spec x y) as [->|Hne]; [by constructor|].
  assert (strictly_before x y) as Hlt.
  { unfold strictly_before, string_leb in *. destruct (str_cmp x y) eqn:E; [|done|done].
    by apply str_cmp_eq in E. }
  constructor; [done|]. constructor; [done|]. eapply Forall_impl; [exact Hy|].
  intros z. by apply str_cmp_lt_trans.
Qed.

Lemma normalized_paths_canonical paths r : normalized_paths paths = Ok r →
  Forall inside_path r ∧ StronglySorted strictly_before r.
Proof.
  unfold normalized_paths. destruct (each_path paths) as [l|] eqn:El; [|done]. cbn [result_bind].
  intros [= <-]. split.
  - apply each_path_inside in El. rewrite Forall_forall in *. intros x Hx%elem_of_dedup_by.
    apply El. by rewrite elem_of_sort_by in Hx.
  - apply dedup_strict, sort_by_sorted; unfold string_leb.
    + intros x y. rewrite (str_cmp_antisym y x). destruct (str_cmp x y); auto.
    + intros x y z Hxy Hyz. destruct (str_cmp x z) eqn:E; [done..|].
      exfalso. apply (str_cmp_le_trans x y z); [by destruct (str_cmp x y)|by destruct (str_cmp y z)|done].
Qed.

(** The files of a recorded task are files of its repository.  When an
    outcome passes its checks, every file it planned and every file it touched
    is a relative path that never leaves the root, and either list is in order
    and names no file twice; the plan is measured against exactly those. *)
Theorem task_files_are_canonical `{Jiff} request checked :
  check_task_outcome request = Ok checked →
  (Forall inside_path (tq_actual_files checked) ∧
   StronglySorted strictly_before (tq_actual_files checked)) ∧
  ∀ planned, tq_planned_files checked = Some planned →
    Forall inside_path planned ∧ StronglySorted strictly_before planned.
Proof.
  unfold check_task_outcome. destruct (reject_if _ _); [|done]. cbn [result_bind].
  destruct (reject_if _ _); [|done]. cbn [result_bind].
  destruct (task_instant _ (tq_started_at request)) as [started|]; [|done]. cbn [result_bind].
  destruct (task_instant _ _) as [ended|]; [|done]. cbn [result_bind].
  destruct (reject_if _ _); [|done]. cbn [result_bind].
  destruct (normalized_optional _) as [planned|] eqn:Ep; [|done]. cbn [result_bind].
  destruct (normalized_paths _) as [actual|] eqn:Ea; [|done]. cbn [result_bind].
  intros [= <-]. split; [by eapply normalized_paths_canonical|]. cbn. intros p ->.
  unfold normalized_optional in Ep. destruct (tq_planned_files request) as [paths|]; [|done].
  destruct (normalized_paths paths) as [r|] eqn:Er; [|done]. cbn [result_bind] in Ep.
  injection Ep as ->. by eapply normalized_paths_canonical.
Qed.
