(* ===== verification/FileSyncFacts.v ===== *)
(** * FileSyncFacts: what a plan of the file plane leaves

    A plan is committed whole or not at all, starts from the projection it
    names, and its receipt tells the projection that is read back. *)

From S2P Require Import Prelude Text TextFacts Types Float Clock Bitemporal Lineage Store Isolation Txn Stage Binding Ledger.
From S2P Require Import Reads ReadFacts Chunks Gate Rerank Structured Compile Mining Prepare Reflect Requests Verbs.
From S2P Require Import Tasks VerbFacts FileSync.

(** ** Steps of a transaction that succeeded *)

Lemma tx_bind_ok {A B} (m : TxOp A) (k : A → TxOp B) store tx tx' b :
  tx_bind m k store tx = (tx', Ok b) →
  ∃ tx1 a, m store tx = (tx1, Ok a) ∧ k a store tx1 = (tx', Ok b).
Proof. unfold tx_bind. destruct (m store tx) as [tx1 [a|e]]; [|done]. eauto. Qed.

Lemma tx_result_ok {A} (r : result ServiceError.t A) store tx tx' a :
  tx_result r store tx = (tx', Ok a) → tx' = tx ∧ r = Ok a.
Proof. unfold tx_result. by intros [= <- ->]. Qed.

Section projection.
Context `{HashOrder} `{Jiff}.

(** ** Projections *)

(** The projection reads the captured part. *)
Definition projects (context : ResolvedMemoryContext) (time : RecallTime) (u : StoredMemoryUnit) : bool :=
  unit_matches_context u context &&
  allows context (mu_kind u) (mu_scope_id u) (mu_agent_node_id u) &&
  bool_decide (mu_deletion_generation u = None) &&
  negb (bool_decide (mu_trust_level u = TrustLevel.Quarantined)) &&
  bitemporally_recallable u time && is_canonical_kind (mu_kind u) (mu_state u).

Lemma projection_captured s context t :
  in_memory_canonical_projection_units s context t =
  sort_by unit_id_leb (retain (projects context (mkRecallTime t t t)) (ic_units (capture s context))).
Proof.
  unfold in_memory_canonical_projection_units, tenant_units, capture. cbn [ic_units].
  rewrite retain_retain. f_equal. apply retain_ext. intros u _. unfold projects.
  destruct (unit_matches_context u context); [done|]. by rewrite andb_false_r.
Qed.

Lemma captured_scratch s context :
  ic_units (capture (into_scratch (capture s context) s context) context) = ic_units (capture s context).
Proof.
  unfold capture at 1. cbn [ic_units]. unfold into_scratch, rows. simpl. rewrite lookup_insert_eq. simpl.
  rewrite retain_retain. apply retain_ext. intros u _. apply andb_diag.
Qed.

Lemma captured_replaced staged s context :
  ic_units (capture (replace_in (capture staged context) s context) context) =
  ic_units (capture staged context).
Proof.
  unfold capture at 1. cbn [ic_units]. unfold replace_in. simpl. rewrite rows_update_eq, retain_app.
  rewrite retain_none, app_nil_l.
  - unfold capture. cbn [ic_units]. rewrite retain_retain. apply retain_ext. intros u _. apply andb_diag.
  - intros u [Hu Hn]%elem_of_retain. apply negb_true_iff, mem_false in Hn.
    destruct (unit_matches_context u context) eqn:E; [|done]. exfalso. apply Hn.
    apply list_elem_of_fmap. exists u. split; [done|]. unfold capture. cbn [ic_units].
    by apply elem_of_retain.
Qed.
End projection.

Section sync.
Context `{HashOrder} `{Jiff} `{Sha256} `{StrDebug} `{EmbeddingProvider} `{ReceiptJson} `{JsonWriter}.
Context `{Serialize (list CanonicalProjectionUnit)} `{Serialize CanonicalProjectionResponse}.
Context `{Serialize (list FileSyncOperation.t)} `{Serialize FileSyncRequest} `{Serialize FileSyncResult}.
Context `{Serialize (list StoredMemoryUnit * list StoredMemoryEdge)}.
Context (a_recency_control_enabled : bool) (meanwhile : Window.t → InMemoryState → InMemoryState).

(** ** Plans *)

Definition named_unit (operation : FileSyncOperation.t) : option UnitId :=
  option_map fm_unit_id (base_of operation).

Definition named_key (operation : FileSyncOperation.t) : option string :=
  match operation with
  | FileSyncOperation.Correct base _ | FileSyncOperation.Forget base => fm_fact_key base
  | FileSyncOperation.Retain fact_key _ _ _ _ _ => Some fact_key
  end.

(** A plan grows by what an operation names, which it did not hold. *)
Definition grows (plan plan' : PlanState) (operation : FileSyncOperation.t) : Prop :=
  (∀ id, named_unit operation = Some id → id ∉ pl_touched plan) ∧
  (∀ key, named_key operation = Some key → key ∉ pl_fact_keys plan) ∧
  (∀ id, id ∈ pl_touched plan' ↔ named_unit operation = Some id ∨ id ∈ pl_touched plan) ∧
  (∀ key, key ∈ pl_fact_keys plan' ↔ named_key operation = Some key ∨ key ∈ pl_fact_keys plan).

Lemma take_base_grows plan plan' base : take_base plan base = Ok plan' →
  fm_unit_id base ∉ pl_touched plan ∧
  (∀ key, fm_fact_key base = Some key → key ∉ pl_fact_keys plan) ∧
  (∀ id, id ∈ pl_touched plan' ↔ fm_unit_id base = id ∨ id ∈ pl_touched plan) ∧
  (∀ key, key ∈ pl_fact_keys plan' ↔ fm_fact_key base = Some key ∨ key ∈ pl_fact_keys plan).
Proof.
  unfold take_base, take_unit, take_key. case_bool_decide as Hu; [done|]. cbn [result_bind].
  destruct (fm_fact_key base) as [key|]; [case_bool_decide as Hk; [done|]|]; intros [= <-]; cbn in *.
  - split_and!; [done|by intros k [= <-]| |].
    + intros id. rewrite elem_of_union, elem_of_singleton. naive_solver.
    + intros k. rewrite elem_of_union, elem_of_singleton. naive_solver.
  - split_and!; [done|done| |naive_solver].
    intros id. rewrite elem_of_union, elem_of_singleton. naive_solver.
Qed.

Lemma base_grows plan plan' base operation : take_base plan base = Ok plan' →
  named_unit operation = Some (fm_unit_id base) → named_key operation = fm_fact_key base →
  grows plan plan' operation.
Proof.
  intros (Hu & Hk & Hu' & Hk')%take_base_grows Eu Ek. unfold grows. rewrite Eu, Ek.
  split_and!; [by intros id [= <-]|done| |done]. intros id. rewrite Hu'. naive_solver.
Qed.

Lemma key_grows plan plan' key operation : take_key plan key = Ok plan' →
  named_unit operation = None → named_key operation = Some key → grows plan plan' operation.
Proof.
  unfold take_key. case_bool_decide as Hk; [done|]. intros [= <-] Eu Ek. unfold grows. rewrite Eu, Ek.
  cbn. split_and!; [done|by intros k [= <-]|naive_solver|].
  intros k. rewrite elem_of_union, elem_of_singleton. naive_solver.
Qed.

Lemma check_operation_grows context index plan operation plan' operation' :
  check_operation context index plan operation = Ok (plan', operation') → grows plan plan' operation'.
Proof.
  destruct operation as [base body|fact_key predicate body confidence valid_from valid_to|base];
    cbn [check_operation]; intros Hc; repeat (apply result_bind_ok in Hc as (? & ? & Hc));
    injection Hc as <- <-; 
    first [eapply base_grows; [eassumption|done..] | eapply key_grows; [eassumption|done..]].
Qed.

Lemma named_once {A} `{Countable K} (f : A → option K) x l (seen seen' : gset K) :
  (∀ k, f x = Some k → k ∉ seen) → (∀ k, k ∈ seen' ↔ f x = Some k ∨ k ∈ seen) →
  NoDup (omap f l) → (∀ k, k ∈ omap f l → k ∉ seen') →
  NoDup (omap f (x :: l)) ∧ ∀ k, k ∈ omap f (x :: l) → k ∉ seen.
Proof.
  intros Hx Hs Hnd Hl. cbn [omap list_omap]. fold (omap f l).
  destruct (f x) as [k|] eqn:E.
  - split.
    + apply NoDup_cons. split; [|done]. intros Hin%Hl. apply Hin, Hs. by left.
    + intros k' [->|Hin]%elem_of_cons; [by apply Hx|]. apply Hl in Hin. rewrite Hs in Hin. naive_solver.
  - split; [done|]. intros k Hin%Hl. rewrite Hs in Hin. naive_solver.
Qed.

Lemma check_operations_disjoint context index plan operations checked :
  check_operations context index plan operations = Ok checked →
  NoDup (omap named_unit checked) ∧ NoDup (omap named_key checked) ∧
  (∀ id, id ∈ omap named_unit checked → id ∉ pl_touched plan) ∧
  (∀ key, key ∈ omap named_key checked → key ∉ pl_fact_keys plan).
Proof.
  revert index plan checked. induction operations as [|operation operations IH];
    intros index plan checked Hc; simpl in Hc.
  { injection Hc as <-. simpl. split_and!; try apply NoDup_nil_2; set_solver. }
  apply result_bind_ok in Hc as ([plan' operation'] & Ho & Hc).
  apply result_bind_ok in Hc as (rest & Hr & Hc). injection Hc as <-. simpl in Hr.
  apply check_operation_grows in Ho as (Hu & Hk & Hu' & Hk').
  apply IH in Hr as (Hnu & Hnk & Hou & Hok).
  destruct (named_once named_unit operation' rest _ _ Hu Hu' Hnu Hou) as [? ?].
  destruct (named_once named_key operation' rest _ _ Hk Hk' Hnk Hok) as [? ?]. done.
Qed.

(** A plan that passes its checks names no unit and no key twice, has the
    digest it claims, and retains only where the context may and is trusted. *)
Lemma checked_plans_are_disjoint context request checked :
  check_file_sync context request = Ok checked →
  NoDup (omap named_unit (fs_operations checked)) ∧ NoDup (omap named_key (fs_operations checked)) ∧
  file_sync_plan_sha256 (fs_operations checked) = Ok (fs_plan_sha256 checked).
Proof.
  unfold check_file_sync. intros Hc. do 5 (apply result_bind_ok in Hc as (? & _ & Hc)).
  apply result_bind_ok in Hc as (operations & Ho & Hc).
  apply result_bind_ok in Hc as (actual & Ha & Hc). apply result_bind_ok in Hc as ([] & Hs & Hc).
  injection Hc as <-. simpl. apply check_operations_disjoint in Ho as (? & ? & _).
  split_and!; [done..|]. destruct (file_sync_plan_sha256 operations); [|done]. injection Ha as ->.
  unfold reject_if in Hs. case_bool_decide; [congruence|done].
Qed.

(** ** The body *)

Lemma projected_keeps at_ : keeps_claim (projected_in_tx at_).
Proof. apply keeps_staged. intros store tx. apply with_staged_claim. Qed.

Lemma admission_keeps : keeps_claim (staging_by sync_store_error fetch_file_sync_transition_snapshot_in_tx).
Proof. apply keeps_staged. intros store tx. apply with_staged_claim. Qed.

Lemma stage_prepared_keeps fresh index operation : keeps_claim (stage_prepared fresh index operation).
Proof.
  destruct operation; (apply keeps_bind; [apply keeps_staged; intros store tx; apply with_staged_claim
                                         |intros ?; apply keeps_result]).
Qed.

Lemma stage_all_keeps fresh index prepared : keeps_claim (stage_all fresh index prepared).
Proof.
  revert index. induction prepared as [|operation prepared IH]; intros index; [apply keeps_result|].
  apply keeps_bind; [apply stage_prepared_keeps|]. intros r.
  apply keeps_bind; [apply IH|]. intros rs. apply keeps_result.
Qed.

(** A response that is staged under whatever error mapping. *)
Lemma answers_staged error response claim :
  answers (_ <# staging_by error (λ _, stage_mutation_response response); tx_result (Ok response)) claim.
Proof.
  intros store tx tx' r Hmut Hcom. unfold tx_bind, tx_result, staging_by.
  unfold stage_mutation_response. rewrite Hcom, Hmut. simpl. case_bool_decide; [done|].
  simpl. by intros [= <- <-].
Qed.

Ltac steps := repeat (apply answers_bind;
  [solve [apply projected_keeps|apply keeps_result|apply admission_keeps|apply stage_all_keeps]|intros ?]).

Lemma sync_body_answers at_ fresh context request digest prepared claim :
  answers (sync_body at_ fresh context request digest prepared) claim.
Proof. unfold sync_body. steps. apply answers_staged. Qed.

(** The snapshot of a read of the transaction. *)
Lemma projected_ok at_ store tx tx' units :
  projected_in_tx at_ store tx = (tx', Ok units) →
  ∃ baseline staged, staged_state store tx = Ok (baseline, staged) ∧
    tx' = tx <| tx_state_snapshot := Some (baseline, staged) |> ∧
    units = in_memory_canonical_projection_units staged (tx_context tx) at_.
Proof.
  unfold projected_in_tx, staging_by, canonical_projection_units_in_tx, reading_in_tx, with_staged.
  destruct (staged_state store tx) as [[baseline staged]|]; [|done].
  cbn [map_err]. intros [= <- <-]. eauto.
Qed.

Lemma staged_response error response store tx tx' :
  staging_by error (λ _, stage_mutation_response response) store tx = (tx', Ok ()) →
  tx_state_snapshot tx' = tx_state_snapshot tx ∧ tx_context tx' = tx_context tx.
Proof.
  unfold staging_by, stage_mutation_response. destruct (tx_committed tx); [done|].
  destruct (tx_mutation tx) as [staged|]; [|done]. destruct (sm_replay staged); [done|].
  case_bool_decide; [done|]. by intros [= <-].
Qed.

(** The captured part a transaction started from stays. *)
Definition keeps_baseline {A} (m : TxOp A) : Prop := ∀ store tx baseline staged,
  tx_state_snapshot tx = Some (baseline, staged) →
  ∃ staged', tx_state_snapshot (m store tx).1 = Some (baseline, staged').

Lemma baseline_result {A} (r : result ServiceError.t A) : keeps_baseline (tx_result r).
Proof. intros store tx baseline staged Hs. by exists staged. Qed.

Lemma baseline_bind {A B} (m : TxOp A) (k : A → TxOp B) :
  keeps_baseline m → (∀ a, keeps_baseline (k a)) → keeps_baseline (tx_bind m k).
Proof.
  intros Hm Hk store tx baseline staged Hs. unfold tx_bind.
  destruct (Hm store tx baseline staged Hs) as [staged' Hs'].
  destruct (m store tx) as [tx1 [a|e]]; [by eapply Hk|by exists staged'].
Qed.

Lemma baseline_staged {A} error
    (op : ResolvedMemoryContext → InMemoryState → result StoreError.t (A * InMemoryState)) :
  keeps_baseline (staging_by error (λ store, with_staged store op)).
Proof.
  intros store tx baseline staged Hs. unfold staging_by, with_staged, staged_state. rewrite Hs.
  destruct (tx_committed tx); [simpl; eauto|]. destruct (op _ staged) as [[]|]; simpl; eauto.
Qed.

Lemma stage_prepared_baseline fresh index prepared : keeps_baseline (stage_prepared fresh index prepared).
Proof. destruct prepared; (apply baseline_bind; [apply baseline_staged|intros ?; apply baseline_result]). Qed.

Lemma stage_all_baseline fresh index prepared : keeps_baseline (stage_all fresh index prepared).
Proof.
  revert index. induction prepared as [|operation prepared IH]; intros index; [apply baseline_result|].
  apply baseline_bind; [apply stage_prepared_baseline|]. intros r.
  apply baseline_bind; [apply IH|]. intros rs. apply baseline_result.
Qed.

(** ** Receipts of operations *)

(** The receipt of an operation names its unit. *)
Definition reports (operation : FileSyncOperation.t) (result : FileSyncOperationResult.t) : Prop :=
  match operation, result with
  | FileSyncOperation.Correct base _, FileSyncOperationResult.Correct id _ => id = fm_unit_id base
  | FileSyncOperation.Retain _ _ _ _ _ _, FileSyncOperationResult.Retain created => created ≠ []
  | FileSyncOperation.Forget base, FileSyncOperationResult.Forget id _ _ => id = fm_unit_id base
  | _, _ => False
  end.

Definition prepares (operation : FileSyncOperation.t) (prepared : PreparedFileSyncOperation.t) : Prop :=
  match operation, prepared with
  | FileSyncOperation.Correct base _, PreparedFileSyncOperation.Correct id _ => id = fm_unit_id base
  | FileSyncOperation.Retain _ _ _ _ _ _, PreparedFileSyncOperation.Retain created _ => created ≠ []
  | FileSyncOperation.Forget base, PreparedFileSyncOperation.Forget id _ => id = fm_unit_id base
  | _, _ => False
  end.

Lemma prepare_operation_prepares at_ fresh context request index working operation prepared working' :
  prepare_operation a_recency_control_enabled at_ fresh context request index working operation =
    Ok (prepared, working') → prepares operation prepared.
Proof.
  destruct operation; simpl; intros Ho; repeat (apply result_bind_ok in Ho as (? & ? & Ho)).
  - by injection Ho as <- _.
  - match type of Ho with (let '(_, _) := ?c in _) = _ => destruct c as [created write] end.
    apply result_bind_ok in Ho as ([] & Hr & Ho). injection Ho as <- _. by destruct created.
  - by injection Ho as <- _.
Qed.

Lemma prepare_operations_prepare at_ fresh context request index working operations prepared :
  prepare_operations a_recency_control_enabled at_ fresh context request index working operations =
    Ok prepared → Forall2 prepares operations prepared.
Proof.
  revert index working prepared. induction operations as [|operation operations IH];
    intros index working prepared Ho; simpl in Ho.
  - injection Ho as <-. constructor.
  - apply result_bind_ok in Ho as ([first working'] & Hf & Ho).
    apply result_bind_ok in Ho as (rest & Hr & Ho). injection Ho as <-.
    constructor; [by eapply prepare_operation_prepares|by eapply IH].
Qed.

Lemma stage_prepared_reports fresh index operation prepared store tx tx' result :
  prepares operation prepared → stage_prepared fresh index prepared store tx = (tx', Ok result) →
  reports operation result.
Proof.
  intros Hp Hs. destruct prepared; apply tx_bind_ok in Hs as (tx1 & outcome & _ & Hs);
    apply tx_result_ok in Hs as [_ Hs]; try destruct outcome; try discriminate Hs;
    injection Hs as <-; by destruct operation.
Qed.

Lemma stage_all_reports fresh index operations prepared store tx tx' results :
  Forall2 prepares operations prepared → stage_all fresh index prepared store tx = (tx', Ok results) →
  Forall2 reports operations results.
Proof.
  intros Hp. revert index tx results. induction Hp as [|operation p operations prepared Ho Hp IH];
    intros index tx results Hs; simpl in Hs.
  - apply tx_result_ok in Hs as [_ [= <-]]. constructor.
  - apply tx_bind_ok in Hs as (tx1 & r & Hr & Hs). apply tx_bind_ok in Hs as (tx2 & rs & Hrs & Hs).
    apply tx_result_ok in Hs as [-> [= <-]].
    constructor; [by eapply stage_prepared_reports|by eapply IH].
Qed.

(** What a body that succeeded found and reports. *)
Lemma sync_body_ok at_ fresh context request digest prepared claim store tx response :
  Forall2 prepares (fs_operations request) prepared →
  sync_body at_ fresh context request digest prepared store
    (claimed_tx context (sy_begin at_) claim None false) = (tx, Ok response) →
  ∃ staged results items,
    tx_state_snapshot tx = Some (capture store context, staged) ∧ tx_context tx = context ∧
    Forall2 reports (fs_operations request) results ∧
    check_base request (in_memory_canonical_projection_units store context (sy_evaluated_at at_)) = Ok items ∧
    snapshot_digest (in_memory_file_sync_transition_snapshot
      (into_scratch (capture store context) store context) context) = Ok digest ∧
    ∃ final fingerprint,
      projection_items (in_memory_canonical_projection_units staged context (sy_final at_)) = Ok final ∧
      canonical_projection_fingerprint final = Ok fingerprint ∧
      to_vec (sync_receipt at_ request fingerprint results) = Ok (mr_body response).
Proof.
  intros Hprep. unfold sync_body. set (tx0 := claimed_tx _ _ _ _ _). intros Hb.
  apply tx_bind_ok in Hb as (tx1 & units & Hr1 & Hb).
  apply projected_ok in Hr1 as (baseline & scratch & Hst & -> & ->).
  unfold staged_state, tx0 in Hst. simpl in Hst.
  destruct (validate_context store context) as [[]|] eqn:Hv; simpl in Hst; [|done]. injection Hst as <- <-.
  apply tx_bind_ok in Hb as (tx2 & items & Hr2 & Hb). apply tx_result_ok in Hr2 as [-> Hbase].
  apply tx_bind_ok in Hb as (tx3 & admission & Hr3 & Hb).
  unfold staging_by, fetch_file_sync_transition_snapshot_in_tx, reading_in_tx, with_staged in Hr3.
  unfold staged_state in Hr3. cbn in Hr3. injection Hr3 as <- <-.
  apply tx_bind_ok in Hb as (tx4 & found & Hr4 & Hb). apply tx_result_ok in Hr4 as [-> Hdigest].
  apply tx_bind_ok in Hb as (tx5 & [] & Hr5 & Hb). apply tx_result_ok in Hr5 as [-> Hsame].
  assert (found = digest) as -> by (unfold reject_if in Hsame; by case_bool_decide).
  apply tx_bind_ok in Hb as (tx6 & results & Hr6 & Hb).
  match type of Hr6 with stage_all _ _ _ _ ?t = _ => pose proof (stage_all_keeps fresh 0 prepared store t) as Hk end.
  rewrite Hr6 in Hk. destruct Hk as (_ & Hcx & _). simpl in Hcx.
  apply tx_bind_ok in Hb as (tx7 & finals & Hr7 & Hb).
  match type of Hr6 with stage_all _ _ _ _ ?t = _ =>
    destruct (stage_all_baseline fresh 0 prepared store t _ _ eq_refl) as [staged Hbaseline] end.
  rewrite Hr6 in Hbaseline. simpl in Hbaseline.
  apply projected_ok in Hr7 as (baseline & staged' & Hst & -> & ->).
  unfold staged_state in Hst. rewrite Hbaseline in Hst. destruct (tx_committed tx6); [done|].
  injection Hst as <- <-.
  apply tx_bind_ok in Hb as (tx8 & projection & Hr8 & Hb). apply tx_result_ok in Hr8 as [-> Hproj].
  apply tx_bind_ok in Hb as (tx9 & r & Hr9 & Hb). apply tx_result_ok in Hr9 as [-> Hresp].
  apply tx_bind_ok in Hb as (tx10 & [] & Hr10 & Hb). apply tx_result_ok in Hb as [-> [= ->]].
  apply staged_response in Hr10 as [Hsnap Hcx']. simpl in Hsnap, Hcx'.
  apply result_bind_ok in Hproj as (final & Hfinal & Hproj).
  unfold canonical_projection_response in Hproj.
  apply result_bind_ok in Hproj as (fingerprint & Hfp & Hproj).
  apply result_bind_ok in Hproj as (encoded & _ & Hproj). destruct (_ <? _); [done|].
  injection Hproj as <-. cbn [cpr_fingerprint] in Hresp.
  unfold serialized_mutation_response in Hresp. apply result_bind_ok in Hresp as (body & Hbody & Hresp).
  unfold MutationResponse_success in Hresp. simpl in Hresp. injection Hresp as <-.
  destruct (to_vec (sync_receipt at_ request fingerprint results)) as [encoded'|] eqn:Hvec; [|done].
  injection Hbody as <-.
  exists staged, results, items.
  split_and!; [done|congruence|by eapply stage_all_reports| |done|].
  - rewrite <-Hbase. by rewrite !projection_captured, captured_scratch.
  - exists final, fingerprint. rewrite Hcx in Hfinal. done.
Qed.

(** ** The whole *)

Lemma sync_verb {A} `{Serialize A} context key (request : A) claim :
  claim_for context MutationVerb.FileSync key request = Ok claim →
  mc_verb claim ≠ MutationVerb.EraseSubject.
Proof.
  unfold claim_for, MutationClaim_new. destruct (canonical_mutation_request_hash _ _); simpl; [|done].
  destruct (validate_idempotency_key _); simpl; [|done]. by intros [= <-].
Qed.

Section file_sync.
Context (at_ : SyncInstants) (fresh : SyncIds) (context : ResolvedMemoryContext).
Context (idempotency_key : string).

Notation run request := (file_sync a_recency_control_enabled meanwhile at_ fresh context idempotency_key request).

(** The body a checked plan runs. *)
Definition sync_bodies (request : FileSyncRequest) (body : TxOp MutationResponse) : Prop :=
  ∃ store admission digest prepared,
    prepare_plan a_recency_control_enabled at_ fresh context request admission store = Ok prepared ∧
    snapshot_digest admission = Ok digest ∧
    body = sync_body at_ fresh context request digest prepared.

Lemma prepare_plan_prepares request admission store prepared :
  prepare_plan a_recency_control_enabled at_ fresh context request admission store = Ok prepared →
  Forall2 prepares (fs_operations request) prepared.
Proof.
  unfold prepare_plan. intros Hp. repeat (apply result_bind_ok in Hp as (? & _ & Hp)).
  by eapply prepare_operations_prepare.
Qed.

Lemma file_sync_outcome request checked claim s :
  check_file_sync context request = Ok checked →
  claim_for context MutationVerb.FileSync idempotency_key checked = Ok claim →
  lock_held meanwhile claim →
  outcome meanwhile context (sy_begin at_) claim (sync_bodies checked) (op_result (Ok ())) s (run request s).
Proof.
  intros Hch Hcl Hlock. unfold file_sync, op_bind, op_result. rewrite Hch. cbn. rewrite Hcl. cbn.
  destruct (lookup_mutation_replay s (sy_lookup at_) context claim) as [[response|]|error] eqn:El;
    [| |by apply refused, untouched_refl].
  - unfold lookup_mutation_replay in El. destruct (_ || _ || _); [done|].
    destruct (validate_context s context); simpl in El; [|done].
    destruct (st_mutation_ledger s !! claim_key claim) as [[c r expires]|] eqn:Er; [|done]. simpl in El.
    destruct (Z.ltb_spec (sy_lookup at_) expires) as [Hlt|]; [|done].
    case_bool_decide as Hc; [|done]. injection El as ->. subst c.
    eapply replayed; [apply untouched_refl|]. by exists expires.
  - assert (∀ w s', untouched meanwhile s s' → untouched meanwhile s (meanwhile w s')) as Hw
      by (intros; by apply untouched_others).
    destruct (fetch_file_sync_transition_snapshot _ context) as [admission|error];
      [|by apply refused, Hw, untouched_refl]. cbn.
    destruct (snapshot_digest admission) as [digest|error] eqn:Ed;
      [|by apply refused, Hw, untouched_refl]. cbn.
    destruct (prepare_plan _ _ _ _ _ _ _) as [prepared|error] eqn:Ep;
      [|by apply refused, Hw, Hw, untouched_refl].
    eapply outcome_before; [by apply Hw, Hw, Hw, untouched_refl|].
    apply transact_by_outcome; [done|apply sync_body_answers|]. by eexists _, admission, digest, prepared.
Qed.

Lemma validate_recorded claim response now tx next :
  validate_context (record_mutation claim response now (apply_rows tx next)) context =
  validate_context next context.
Proof. reflexivity. Qed.

Lemma captured_recorded claim response now tx next : tx_memory_units tx = [] →
  ic_units (capture (record_mutation claim response now (apply_rows tx next)) context) =
  ic_units (capture next context).
Proof. intros Hu. unfold capture, record_mutation, apply_rows. cbn [ic_units]. simpl. by rewrite Hu. Qed.

(** A sync that succeeds did nothing, or ran a body that found what the plan
    starts from, and committed what it staged. *)
Lemma file_sync_ok request checked claim s s' response :
  check_file_sync context request = Ok checked →
  claim_for context MutationVerb.FileSync idempotency_key checked = Ok claim →
  lock_held meanwhile claim →
  run request s = (s', Ok response) →
  untouched meanwhile s s' ∨
  ∃ s1 base results staged tx now final fingerprint, untouched meanwhile s s1 ∧
    let s2 := replace_in (capture staged context) (meanwhile Window.Committing s1) context in
    projection_items (in_memory_canonical_projection_units s1 context (sy_evaluated_at at_)) = Ok base ∧
    canonical_projection_fingerprint base = Ok (fs_base_fingerprint checked) ∧
    context_state_eqb (capture (meanwhile Window.Committing s1) context) (capture s1 context) = true ∧
    Forall2 reports (fs_operations checked) results ∧
    to_vec (sync_receipt at_ checked fingerprint results) = Ok (mr_body response) ∧
    tx_memory_units tx = [] ∧ validate_context s2 context = Ok () ∧
    s' = record_mutation claim response now (apply_rows tx s2) ∧
    projection_items (in_memory_canonical_projection_units staged context (sy_final at_)) = Ok final ∧
    canonical_projection_fingerprint final = Ok fingerprint.
Proof.
  intros Hch Hcl Hlock Hrun. pose proof (file_sync_outcome request checked claim s Hch Hcl Hlock) as Ho.
  rewrite Hrun in Ho.
  inversion Ho as [|? ? now Hun _|s0 body s1 tx now s2 r Hun Hbody Hb -> Hcx Hunits Hex _ Hco Heq]; [by left|].
  right. clear Heq Ho.
  destruct Hbody as (at_store & admission & digest & prepared & Hplan & _ & ->).
  apply sync_body_ok in Hb as (staged & results & items & Hsnap & _ & Hreports & Hbase & _ &
    final & fingerprint & Hfinal & Hfp & Hvec); [|by eapply prepare_plan_prepares].
  destruct (commit_installs _ _ _ _ _ _ Hex (sync_verb _ _ _ _ Hcl) Hco) as (next & Hn & Hv & ->).
  unfold commit_snapshot in Hn. rewrite Hsnap, Hcx in Hn.
  destruct (context_state_eqb _ _) eqn:Eeq; [|done]. injection Hn as <-. rewrite Hcx in Hv.
  apply result_bind_ok in Hbase as (base & Hitems & Hbase).
  apply result_bind_ok in Hbase as (found & Hfound & Hbase).
  apply result_bind_ok in Hbase as ([] & Hsame & _).
  assert (found = fs_base_fingerprint checked) as -> by (unfold reject_if in Hsame; by case_bool_decide).
  by exists s0, base, results, staged, tx, now, final, fingerprint.
Qed.

(** C10: The receipt of a plan tells the truth.  A file sync that succeeds was
    answered from the ledger and did nothing, or it read a projection with the
    fingerprint the plan names, nothing of its context changed until it was
    committed, and it answers each operation in order; and reading the projection back from the store it left
    gives the fingerprint of the receipt. *)
Theorem synced_projection_is_read_back request checked claim s s' response :
  check_file_sync context request = Ok checked →
  claim_for context MutationVerb.FileSync idempotency_key checked = Ok claim →
  lock_held meanwhile claim →
  run request s = (s', Ok response) →
  untouched meanwhile s s' ∨
  ∃ s1 base results final fingerprint, untouched meanwhile s s1 ∧
    projection_items (in_memory_canonical_projection_units s1 context (sy_evaluated_at at_)) = Ok base ∧
    canonical_projection_fingerprint base = Ok (fs_base_fingerprint checked) ∧
    context_state_eqb (capture (meanwhile Window.Committing s1) context) (capture s1 context) = true ∧
    Forall2 reports (fs_operations checked) results ∧
    to_vec (sync_receipt at_ checked fingerprint results) = Ok (mr_body response) ∧
    (units <-? map_err store_error (canonical_projection_units s' context (sy_final at_));
     projection_items units) = Ok final ∧
    canonical_projection_fingerprint final = Ok fingerprint.
Proof.
  intros Hch Hcl Hlock Hrun.
  destruct (file_sync_ok request checked claim s s' response Hch Hcl Hlock Hrun)
    as [Hun|(s1 & base & results & staged & tx & now & final & fingerprint & Hun & Hbase & Hfound & Heq &
             Hreports & Hvec & Hunits & Hv & -> & Hfinal & Hfp)]; [by left|right].
  exists s1, base, results, final, fingerprint. split_and!; [done..| |done].
  unfold canonical_projection_units, reading. rewrite validate_recorded, Hv.
  cbn [result_bind map_err]. rewrite <-Hfinal, !projection_captured. do 3 f_equal.
  by rewrite captured_recorded, captured_replaced.
Qed.
End file_sync.
End sync.
