(* ===== verification/FileTool.v ===== *)
(** * FileTool: the memory of a model as files

    [crates/memphant-mcp/src/file_memory.rs]: the canonical projection of a
    context shown as files below one root, and the commands of a model's memory
    tool - view, create, replace, insert, delete, rename -, each of which reads
    the projection, turns into a plan and is applied by [file_sync].  Texts are
    strings of UTF-8 bytes; a [BTreeMap] is the list of its entries in order.
    Other callers run between the read of the projection and the sync. *)

From S2P Require Import Prelude Text Types Float Clock Bitemporal Lineage Store Txn Stage Binding Reads.
From S2P Require Import Chunks Gate Rerank Structured Compile Mining Prepare Reflect Requests Verbs Tasks FileSync.

(** ** Strings *)

Definition line_feed : string := string_of_bytes [LF].
Definition tab : string := string_of_bytes [9].

(** [str::starts_with]. *)
Definition begins (prefix value : string) : bool := starts_with (bytes_of prefix) (bytes_of value).

(** [str::strip_prefix]. *)
Definition strip_prefix_str (prefix value : string) : option string :=
  string_of_bytes <$> strip_pat (bytes_of prefix) (bytes_of value).

(** [str::trim_start_matches] of a string. *)
Fixpoint trim_start_matches (fuel : nat) (pat l : list N) : list N :=
  match fuel with
  | 0%nat => l
  | S fuel => match strip_pat pat l with Some l' => trim_start_matches fuel pat l' | None => l end
  end.

(** [str::split] at an ASCII character, and [join]. *)
Definition parts_of (b : N) (value : string) : list (list N) := split_on b [] (bytes_of value).

(** [str::replacen] with one replacement. *)
Definition replace_first (pat new l : list N) : list N :=
  match split_once pat l with
  | Some (before, after) => before ++ new ++ after
  | None => l
  end.

(** [str::replace] of an ASCII character. *)
Definition replace_byte (b : N) (new l : list N) : list N :=
  flat_map (λ a, if a =? b then new else [a]) l.

(** [{:>6}] of a number. *)
Definition pad6 (n : N) : string :=
  let digits := show_N n in
  string_of_bytes (repeat 32 (6 - length digits) ++ digits).

Definition count_lf (l : list N) : N := N.of_nat (length (retain (λ b, b =? LF) l)).

(** [BTreeMap] of strings. *)
Fixpoint btree_insert {V} (key : string) (value : V) (entries : list (string * V))
    : list (string * V) :=
  match entries with
  | [] => [(key, value)]
  | (k, v) :: rest =>
      match str_cmp key k with
      | Lt => (key, value) :: entries
      | Eq => (key, value) :: rest
      | Gt => (k, v) :: btree_insert key value rest
      end
  end.
Definition btree_collect {V} (pairs : list (string * V)) : list (string * V) :=
  foldl (λ entries pair, btree_insert pair.1 pair.2 entries) [] pairs.
Fixpoint btree_get {V} (key : string) (entries : list (string * V)) : option V :=
  match entries with
  | [] => None
  | (k, v) :: rest => if String.eqb k key then Some v else btree_get key rest
  end.

(** ** Constants and commands *)

Definition MEMORY_ROOT : string := "/memories".
Definition MAX_MEMORY_INDEX_BYTES : N := 25 * 1024.
Definition MAX_MEMORY_INDEX_LINES : N := 200.
Definition MAX_TOPIC_BYTES : N := 64 * 1024.
Definition MAX_VIEW_CHARACTERS : nat := N.to_nat 16000.
Definition MAX_DIRECTORY_BYTES : N := 64 * 1024.
Definition MAX_DIRECTORY_ENTRIES : nat := N.to_nat 1000.
Definition MAX_RESOURCE_BYTES : N := 64 * 1024.
Definition MEMORY_PATH_FACT_KEY_PREFIX : string := "memory_path:".
Definition MAX_MEMORY_PATH_BYTES : nat := 512.

Module MemoryCommand.
Inductive t : Set :=
| View (path : string) (view_range : option (Z * Z))
| Create (path file_text : string)
| StrReplace (path old_str : string) (new_str : option string)
| Insert (path : string) (insert_line : Z) (insert_text : string)
| Delete (path : string)
| Rename (old_path new_path : string).
End MemoryCommand.

Record MemoryToolError : Set := mkToolError { te_code : string; te_message : string }.

Record MemoryResourceContent : Set := mkResourceContent {
  rc_uri : string;
  rc_mime_type : string;
  rc_text : string;
}.

Definition tool_error {A} (code message : string) : result MemoryToolError A :=
  Err (mkToolError code message).

(** ** Paths *)

Definition INDEX_PATH : string := MEMORY_ROOT +:+ "/MEMORY.md".

Definition visible_byte (b : N) : bool :=
  is_ascii_alphanumeric b || (b =? 46) || (b =? 95) || (b =? 45).

Definition valid_component (component : list N) : bool :=
  negb (is_empty component) && (length component <=? 128)%nat &&
  negb (starts_with [46] component) &&
  negb (bool_decide (component = bytes_of "node_modules")) &&
  forallb visible_byte component.

Definition valid_relative_memory_path (value : string) : bool :=
  negb (is_empty (bytes_of value)) && (String.length value <=? MAX_MEMORY_PATH_BYTES)%nat &&
  forallb valid_component (parts_of slash value).

Definition valid_topic_stem (value : string) : bool :=
  negb (is_empty (bytes_of value)) && (String.length value <=? 128)%nat &&
  negb (begins "." value) && negb (String.eqb value ".") && negb (String.eqb value "..") &&
  forallb visible_byte (bytes_of value).

(** The path below the root a unit was filed under. *)
Definition filed_path (item : CanonicalProjectionUnit) : option string :=
  if bool_decide (pj_predicate item = Some "memory_file") then
    key ← pj_fact_key item;
    relative ← strip_prefix_str MEMORY_PATH_FACT_KEY_PREFIX key;
    if valid_relative_memory_path relative then Some relative else None
  else None.

Definition topic_path (item : CanonicalProjectionUnit) : string :=
  match filed_path item with
  | Some relative => MEMORY_ROOT +:+ "/" +:+ relative
  | None =>
      let stem :=
        match pj_fact_key item with
        | Some key => if negb (String.eqb key "MEMORY") && valid_topic_stem key then key
                      else uuid_string (pj_unit_id item)
        | None => uuid_string (pj_unit_id item)
        end in
      MEMORY_ROOT +:+ "/" +:+ stem +:+ ".md"
  end.

Definition topic_map (items : list CanonicalProjectionUnit)
    : list (string * CanonicalProjectionUnit) :=
  btree_collect (map (λ item, (topic_path item, item)) items).

(** One path is the other, or a directory above it. *)
Definition below (path candidate : string) : bool := begins (path +:+ "/") candidate.
Definition path_conflicts (topics : list (string * CanonicalProjectionUnit)) (path : string) : bool :=
  any (λ topic, String.eqb topic.1 path || below path topic.1 || below topic.1 path) topics.

Definition has_byte (b : N) (value : string) : bool := bool_decide (b ∈ bytes_of value).

Definition validate_path (path : string) : result MemoryToolError () :=
  if has_byte 0 path || has_byte backslash path || has_byte 37 path || has_byte 63 path ||
     has_byte 35 path ||
     existsb (λ part, bool_decide (part = dot) || bool_decide (part = dot_dot)) (parts_of slash path) ||
     negb (String.eqb path MEMORY_ROOT || begins (MEMORY_ROOT +:+ "/") path)
  then tool_error "invalid_path" ("path must remain within " +:+ MEMORY_ROOT)
  else Ok ().

(** The fact key a path is filed under. *)
Definition writable_memory_path (path : string) : result MemoryToolError string :=
  _ <-? validate_path path;
  match strip_prefix_str (MEMORY_ROOT +:+ "/") path with
  | None => tool_error "read_only_path" "memory writes must target a file below /memories"
  | Some filename =>
      if String.eqb filename "MEMORY.md"
      then tool_error "read_only_path" "/memories/MEMORY.md is a generated read-only index"
      else if negb (valid_relative_memory_path filename)
      then tool_error "invalid_path" "memory paths must use bounded visible ASCII file components"
      else Ok (MEMORY_PATH_FACT_KEY_PREFIX +:+ filename)
  end.

Definition ensure_topic_body (body : string) : result MemoryToolError () :=
  if is_empty (bytes_of body)
  then tool_error "empty_content" "memory topic content must not be empty; delete the topic instead"
  else if MAX_TOPIC_BYTES <? str_len body
  then tool_error "content_too_large"
         ("memory topic is " +:+ show (str_len body) +:+ " bytes and exceeds the " +:+
          show MAX_TOPIC_BYTES +:+ " byte limit")
  else Ok ().

Definition not_found (path : string) : MemoryToolError :=
  mkToolError "not_found" ("Error: The path " +:+ path +:+ " does not exist").

Definition topic (items : list CanonicalProjectionUnit) (path : string)
    : result MemoryToolError CanonicalProjectionUnit :=
  _ <-? validate_path path;
  ok_or (btree_get path (topic_map items)) (not_found path).

(** ** Rendering *)

Definition escape_link_text (value : string) : string :=
  string_of_bytes
    (replace_byte 93 [backslash; 93]
       (replace_byte 91 [backslash; 91]
          (replace_byte backslash [backslash; backslash] (bytes_of value)))).

(** [format!("{:.1}K", bytes as f64 / 1024.0)]: a tenth is rounded to the
    nearest, ties to even; the quotient is exact. *)
Definition kibibytes (bytes : N) : string :=
  let tenths := bytes * 10 / 1024 in
  let rest := (bytes * 10) `mod` 1024 in
  let rounded :=
    if (512 <? rest) || (rest =? 512) && N.odd tenths then tenths + 1 else tenths in
  show (rounded / 10) +:+ "." +:+ show (rounded `mod` 10) +:+ "K".

Definition format_size (bytes : N) (path : string) : string :=
  if bytes <? 1024 then show bytes +:+ "B" +:+ tab +:+ path
  else kibibytes bytes +:+ tab +:+ path.

Definition index_line (topic : string * CanonicalProjectionUnit) : string :=
  let '(path, item) := topic in
  let file := string_of_bytes (default [] (last (parts_of slash path))) in
  let title :=
    match pj_fact_key item with
    | Some key => if begins MEMORY_PATH_FACT_KEY_PREFIX key then file else key
    | None => file
    end in
  "- [" +:+ escape_link_text title +:+ "](" +:+
  string_of_bytes (trim_start_matches (String.length path) (bytes_of "/memories/") (bytes_of path)) +:+
  ")" +:+ line_feed.

Definition line_count (text : string) : N := N.of_nat (length (lines (bytes_of text))).

(** Adds lines while they fit; the text and how many were added. *)
Fixpoint index_lines (output : string) (included : nat)
    (topics : list (string * CanonicalProjectionUnit)) : string * nat :=
  match topics with
  | [] => (output, included)
  | topic :: topics =>
      let line := index_line topic in
      if (MAX_MEMORY_INDEX_LINES <? line_count output + 1) ||
         (MAX_MEMORY_INDEX_BYTES <? str_len output + str_len line)
      then (output, included)
      else index_lines (output +:+ line) (S included) topics
  end.

Definition index_header (snapshot : CanonicalProjectionResponse) : string :=
  "# Memory" +:+ line_feed +:+ line_feed +:+
  "Scope: `" +:+ uuid_string (cpr_scope_id snapshot) +:+ "`" +:+ line_feed +:+
  "Snapshot: `" +:+ cpr_fingerprint snapshot +:+ "`" +:+ line_feed +:+ line_feed.

Definition memory_index (snapshot : CanonicalProjectionResponse) : string :=
  let '(output, included) := index_lines (index_header snapshot) 0 (topic_map (cpr_items snapshot)) in
  let omitted := (length (cpr_items snapshot) - included)%nat in
  let notice := line_feed +:+ show (N.of_nat omitted) +:+
                " additional topic files are available on demand." +:+ line_feed in
  if (0 <? omitted)%nat && (str_len output + str_len notice <=? MAX_MEMORY_INDEX_BYTES) &&
     (line_count output + 2 <=? MAX_MEMORY_INDEX_LINES)
  then output +:+ notice else output.

(** Adds a line if it fits. *)
Definition push_directory_line (output line : string) : option string :=
  let required := (if is_empty (bytes_of output) then 0 else 1) + str_len line in
  if MAX_DIRECTORY_BYTES <? str_len output + required then None
  else Some (if is_empty (bytes_of output) then line else output +:+ line_feed +:+ line).
Definition push_line (output line : string) : string :=
  default output (push_directory_line output line).

Definition OMITTED : string := "additional topic files omitted; use MEMORY.md or MCP pagination".

Fixpoint directory_lines (index : nat) (output : string) (entries : list (string * N)) : string :=
  match entries with
  | [] => output
  | (path, bytes) :: entries =>
      if (MAX_DIRECTORY_ENTRIES <=? index)%nat then push_line output OMITTED
      else match push_directory_line output (format_size bytes path) with
           | Some output => directory_lines (S index) output entries
           | None => push_line output OMITTED
           end
  end.

(** What a topic contributes to the listing of a directory two levels deep. *)
Definition directory_entry (path : string) (entries : list (string * N))
    (topic : string * CanonicalProjectionUnit) : list (string * N) :=
  match strip_prefix_str (path +:+ "/") topic.1 with
  | None => entries
  | Some relative =>
      match parts_of slash relative with
      | [] | [_] => btree_insert topic.1 (str_len (pj_body topic.2)) entries
      | first :: second :: rest =>
          let directory := path +:+ "/" +:+ string_of_bytes first +:+ "/" in
          let entries := btree_insert directory 0 entries in
          if is_empty rest then btree_insert topic.1 (str_len (pj_body topic.2)) entries
          else btree_insert (directory +:+ string_of_bytes second +:+ "/") 0 entries
      end
  end.

Definition directory_view (snapshot : CanonicalProjectionResponse) (path : string) : string :=
  let output := "Here're the files and directories up to 2 levels deep in " +:+ path +:+
                ", excluding hidden items and node_modules:" in
  let output := push_line output (format_size 0 path) in
  let output :=
    if String.eqb path MEMORY_ROOT
    then push_line output (format_size (str_len (memory_index snapshot)) INDEX_PATH)
    else output in
  directory_lines 0 output (foldl (directory_entry path) [] (topic_map (cpr_items snapshot))).

Definition numbered_line (index : nat) (line : list N) : string :=
  pad6 (N.of_nat index + 1) +:+ tab +:+ string_of_bytes line +:+ line_feed.

(** The lines from one on, each with its number. *)
Fixpoint numbered (index : nat) (lines : list (list N)) : string :=
  match lines with
  | [] => String.EmptyString
  | line :: lines => numbered_line index line +:+ numbered (S index) lines
  end.

Definition viewed_lines (count : nat) (view_range : option (Z * Z)) : option (nat * nat) :=
  match view_range with
  | None => Some (1%nat, count)
  | Some (start, end_) =>
      if (1 <=? start)%Z && ((end_ =? -1)%Z || (start <=? end_)%Z)
      then Some (Z.to_nat start, Nat.min (if (end_ =? -1)%Z then count else Z.to_nat end_) count)
      else None
  end.

Definition numbered_view (path body : string) (view_range : option (Z * Z))
    : result MemoryToolError string :=
  let body :=
    if bool_decide (view_range = None) &&
       (MAX_VIEW_CHARACTERS <? length (chars (bytes_of body)))%nat
    then concat (take MAX_VIEW_CHARACTERS (chars (bytes_of body)))
    else bytes_of body in
  let lines := split_on LF [] body in
  if 999999 <? N.of_nat (length lines)
  then tool_error "too_many_lines"
         ("File " +:+ path +:+ " exceeds maximum line limit of 999,999 lines.")
  else
    match viewed_lines (length lines) view_range with
    | None => tool_error "invalid_range"
        "view_range must be [start_line, end_line] with 1-based lines and -1 allowed only as the end"
    | Some (start, end_) =>
        if (Nat.max (length lines) 1 <? start)%nat
        then tool_error "invalid_range" ("view_range starts after the end of " +:+ path)
        else Ok ("Here's the content of " +:+ path +:+ " with line numbers:" +:+ line_feed +:+
                 numbered (start - 1) (take (end_ - start + 1) (drop (start - 1) lines)))
    end.

Definition view (snapshot : CanonicalProjectionResponse) (path : string)
    (view_range : option (Z * Z)) : result MemoryToolError string :=
  _ <-? validate_path path;
  if String.eqb path MEMORY_ROOT ||
     any (λ topic, below path topic.1) (topic_map (cpr_items snapshot))
  then
    match view_range with
    | Some _ => tool_error "invalid_request" "view_range applies only to files"
    | None => Ok (directory_view snapshot path)
    end
  else
    body <-? (if String.eqb path INDEX_PATH then Ok (memory_index snapshot)
              else item <-? topic (cpr_items snapshot) path;
                   _ <-? ensure_topic_body (pj_body item);
                   Ok (pj_body item));
    numbered_view path body view_range.

(** ** Commands *)

Definition metadata (item : CanonicalProjectionUnit) : FileSyncUnitMetadata := {|
  fm_unit_id := pj_unit_id item;
  fm_kind := pj_kind item;
  fm_fact_key := pj_fact_key item;
  fm_predicate := pj_predicate item;
  fm_confidence := pj_confidence item;
  fm_valid_from := pj_valid_from item;
  fm_valid_to := pj_valid_to item;
  fm_body_sha256 := pj_body_sha256 item;
|}.

Definition correct_file (item : CanonicalProjectionUnit) (body : list N) : FileSyncOperation.t :=
  FileSyncOperation.Correct (metadata item) (string_of_bytes body).

Definition insert_at {A} (index : nat) (x : A) (l : list A) : list A := take index l ++ x :: drop index l.

Definition show_Z (n : Z) : string :=
  if (n <? 0)%Z then "-" +:+ show (Z.to_N (- n)) else show (Z.to_N n).

Definition insert_after_line (body : string) (insert_line : Z) (insert_text : string)
    : result MemoryToolError (list N) :=
  let lines := parts_of LF body in
  if (insert_line <? 0)%Z || (Z.of_nat (length lines) <? insert_line)%Z
  then tool_error "invalid_line"
         ("Error: Invalid `insert_line` parameter: " +:+ show_Z insert_line +:+
          ". It should be within the range of lines of the file: [0, " +:+
          show (N.of_nat (length lines)) +:+ "]")
  else Ok (join_on LF (insert_at (Z.to_nat insert_line) (strip_newline (bytes_of insert_text)) lines)).

(** Lines while the answer stays within the size of a topic. *)
Fixpoint snippet_lines (output : string) (index : nat) (lines : list (list N)) : string :=
  match lines with
  | [] => output
  | line :: lines =>
      let rendered := numbered_line index line in
      if MAX_TOPIC_BYTES <? str_len output + str_len rendered then output
      else snippet_lines (output +:+ rendered) (S index) lines
  end.

Definition replacement_response (body : list N) (changed_line : nat) : string :=
  let lines := split_on LF [] body in
  let start := (changed_line - 3)%nat in
  let end_ := Nat.min (changed_line + 2) (length lines) in
  snippet_lines
    ("The memory file has been edited. Here is the snippet showing the change (with line numbers):"
       +:+ line_feed) start (drop start (take end_ lines)).

Definition line_of (body : list N) (offset : nat) : N := count_lf (take offset body) + 1.

Definition joined (separator : string) (texts : list string) : string := String.concat separator texts.

Definition replaced (path old_str : string) (new_str : option string)
    (item : CanonicalProjectionUnit)
    : result MemoryToolError (list FileSyncOperation.t * string) :=
  if is_empty (bytes_of old_str)
  then tool_error "invalid_request" "old_str must not be empty"
  else
    match match_indices (bytes_of (pj_body item)) (bytes_of old_str) with
    | [] => tool_error "text_not_found"
              ("No replacement was performed, old_str `" +:+ old_str +:+
               "` did not appear verbatim in " +:+ path +:+ ".")
    | [offset] =>
        let body := replace_first (bytes_of old_str)
                      (bytes_of (default String.EmptyString new_str)) (bytes_of (pj_body item)) in
        _ <-? ensure_topic_body (string_of_bytes body);
        Ok ([correct_file item body],
            replacement_response body (N.to_nat (line_of (bytes_of (pj_body item)) offset)))
    | offsets =>
        tool_error "ambiguous_match"
          ("No replacement was performed. Multiple occurrences of old_str `" +:+ old_str +:+
           "` in lines: " +:+
           joined ", " (map (λ offset, show (line_of (bytes_of (pj_body item)) offset)) offsets) +:+
           ". Please ensure it is unique")
    end.

(** A file, or else what is below a directory; never empty. *)
Definition at_or_below (topics : list (string * CanonicalProjectionUnit)) (path : string)
    : result MemoryToolError (list (string * CanonicalProjectionUnit)) :=
  match btree_get path topics with
  | Some item => Ok [(path, item)]
  | None =>
      let descendants := retain (λ topic, below path topic.1) topics in
      if is_empty descendants then Err (not_found path) else Ok descendants
  end.

Definition retained_file (fact_key body : string) (confidence : f32)
    (valid_from valid_to : option string) : FileSyncOperation.t :=
  FileSyncOperation.Retain fact_key "memory_file" body confidence valid_from valid_to.

(** Each source is forgotten and retained under its new path. *)
Fixpoint renames (old_path new_path : string) (sources : list (string * CanonicalProjectionUnit))
    : result MemoryToolError (list FileSyncOperation.t) :=
  match sources with
  | [] => Ok []
  | (source_path, item) :: sources =>
      let suffix := default String.EmptyString (strip_prefix_str old_path source_path) in
      fact_key <-? writable_memory_path (new_path +:+ suffix);
      rest <-? renames old_path new_path sources;
      Ok (FileSyncOperation.Forget (metadata item) ::
          retained_file fact_key (pj_body item) (default f32_one (pj_confidence item))
            (pj_valid_from item) (pj_valid_to item) :: rest)
  end.

(** The plan of a command, if it changes something, and its answer. *)
Definition edit (snapshot : CanonicalProjectionResponse) (command : MemoryCommand.t)
    : result MemoryToolError (option (list FileSyncOperation.t) * string) :=
  let items := cpr_items snapshot in
  let topics := topic_map items in
  match command with
  | MemoryCommand.View path view_range =>
      text <-? view snapshot path view_range; Ok (None, text)
  | MemoryCommand.Create path file_text =>
      name <-? writable_memory_path path;
      _ <-? ensure_topic_body file_text;
      if path_conflicts topics path
      then tool_error "already_exists" ("Error: File " +:+ path +:+ " already exists")
      else Ok (Some [retained_file name file_text f32_one None None],
               "File created successfully at: " +:+ path)
  | MemoryCommand.StrReplace path old_str new_str =>
      item <-? topic items path;
      replaced <-? replaced path old_str new_str item;
      Ok (Some (fst replaced), snd replaced)
  | MemoryCommand.Insert path insert_line insert_text =>
      item <-? topic items path;
      body <-? insert_after_line (pj_body item) insert_line insert_text;
      _ <-? ensure_topic_body (string_of_bytes body);
      Ok (Some [correct_file item body], "The file " +:+ path +:+ " has been edited.")
  | MemoryCommand.Delete path =>
      if String.eqb path MEMORY_ROOT
      then tool_error "root_protected" "the memory root cannot be deleted"
      else
        _ <-? validate_path path;
        sources <-? at_or_below topics path;
        Ok (Some (map (λ source, FileSyncOperation.Forget (metadata source.2)) sources),
            "Successfully deleted " +:+ path)
  | MemoryCommand.Rename old_path new_path =>
      if String.eqb old_path MEMORY_ROOT
      then tool_error "root_protected" "the memory root cannot be renamed"
      else
        _ <-? validate_path old_path;
        _ <-? writable_memory_path new_path;
        if below old_path new_path
        then tool_error "invalid_path" "a memory directory cannot be moved inside itself"
        else if path_conflicts topics new_path
        then tool_error "already_exists"
               ("Error: The destination " +:+ new_path +:+ " already exists")
        else
          sources <-? at_or_below topics old_path;
          operations <-? renames old_path new_path sources;
          Ok (Some operations, "Successfully renamed " +:+ old_path +:+ " to " +:+ new_path)
  end.

(** ** The tool *)

(** Adjacent paths that collide. *)
Fixpoint colliding (paths : list string) : bool :=
  match paths with
  | first :: (second :: _) as rest =>
      String.eqb first second || below first second || colliding rest
  | _ => false
  end.

Definition invalid_projection (items : list CanonicalProjectionUnit) : bool :=
  let paths := sort_by string_leb (map topic_path items) in
  existsb (λ path, String.eqb path INDEX_PATH) paths || colliding paths.

Definition unavailable : MemoryToolError := mkToolError "backend_unavailable" "memory store unavailable".

Definition sync_failure (error : ServiceError.t) : MemoryToolError :=
  let text := bytes_of (service_error_text error) in
  let says word := contains_bytes text (bytes_of word) in
  if says "conflict" || says "fingerprint"
  then mkToolError "sync_conflict" "memory changed; retry the operation"
  else if says "policy" || says "scope"
  then mkToolError "scope_denied" "memory operation is not authorized"
  else mkToolError "mutation_failed" "memory mutation failed".

(** ** Resources *)

(** [Uuid::parse_str]. *)
Class UuidText := parse_uuid : list N → option Uuid.

(** A trace as indented JSON. *)
Class TraceText := trace_text : RetrievalTrace → result string string.

Definition invalid_uri {A} : result MemoryToolError A :=
  tool_error "invalid_uri" "invalid MemPhant resource URI".

Module ResourceUri.
Inductive t : Set := Memory | Episode | Resource | Trace.
#[global] Instance t_eq_dec : EqDecision t.
Proof. solve_decision. Defined.
End ResourceUri.

Definition resource_kind (kind : list N) : option ResourceUri.t :=
  if bool_decide (kind = bytes_of "memory") then Some ResourceUri.Memory
  else if bool_decide (kind = bytes_of "episode") then Some ResourceUri.Episode
  else if bool_decide (kind = bytes_of "resource") then Some ResourceUri.Resource
  else if bool_decide (kind = bytes_of "trace") then Some ResourceUri.Trace
  else None.

Definition parse_resource_uri `{UuidText} (uri : string)
    : result MemoryToolError (ResourceUri.t * Uuid) :=
  if has_byte 63 uri || has_byte 35 uri || has_byte 37 uri || has_byte backslash uri then invalid_uri
  else match strip_prefix_str "memphant://" uri with
       | None => invalid_uri
       | Some path =>
           match parts_of slash path with
           | [kind; raw] =>
               match resource_kind kind, parse_uuid raw with
               | Some kind, Some id => Ok (kind, id)
               | _, _ => invalid_uri
               end
           | _ => invalid_uri
           end
       end.

Definition memory_resource_uri (unit_id : UnitId) : string :=
  "memphant://memory/" +:+ uuid_string unit_id.

Definition parse_memory_resource_uri `{UuidText} (uri : string) : result MemoryToolError Uuid :=
  parsed <-? parse_resource_uri uri;
  if bool_decide (fst parsed = ResourceUri.Memory) then Ok (snd parsed)
  else tool_error "invalid_uri" "invalid memory resource URI".

Definition ends (suffix l : list N) : bool := starts_with (rev suffix) (rev l).

Definition is_textual_mime (mime_type : string) : bool :=
  let essence :=
    map ascii_lower (trim (default [] (head (split_on 59 [] (bytes_of mime_type))))) in
  starts_with (bytes_of "text/") essence ||
  existsb (λ name, bool_decide (essence = bytes_of name))
    ["application/json"; "application/xml"; "application/yaml"; "application/x-yaml"] ||
  ends (bytes_of "+json") essence || ends (bytes_of "+xml") essence.

(** [str::parse::<usize>]. *)
Definition parse_usize (l : list N) : option N := parse_unsigned u64_max l.

Definition resource_page (snapshot : CanonicalProjectionResponse) (cursor : option string) (limit : N)
    : result MemoryToolError (list CanonicalProjectionUnit * option string) :=
  let limit := N.max 1 (N.min limit 100) in
  let count := N.of_nat (length (cpr_items snapshot)) in
  start <-?
    match cursor with
    | None => Ok 0
    | Some cursor =>
        match split_on 58 [] (bytes_of cursor) with
        | [version; fingerprint; offset] =>
            if negb (bool_decide (version = bytes_of "v1")) ||
               negb (bool_decide (fingerprint = bytes_of (cpr_fingerprint snapshot)))
            then tool_error "stale_cursor" "resource cursor is stale"
            else match parse_usize offset with
                 | Some offset =>
                     if offset <=? count then Ok offset
                     else tool_error "invalid_cursor" "invalid resource cursor"
                 | None => tool_error "invalid_cursor" "invalid resource cursor"
                 end
        | _ => tool_error "invalid_cursor" "invalid resource cursor"
        end
    end;
  let end_ := N.min (start + limit) count in
  let next := if end_ <? count
              then Some ("v1:" +:+ cpr_fingerprint snapshot +:+ ":" +:+ show end_) else None in
  Ok (take (N.to_nat (end_ - start)) (drop (N.to_nat start) (cpr_items snapshot)), next).

Section tool.
Context `{HashOrder} `{Jiff} `{Sha256} `{StrDebug} `{EmbeddingProvider} `{ReceiptJson} `{JsonWriter}.
Context `{Serialize (list CanonicalProjectionUnit)} `{Serialize CanonicalProjectionResponse}.
Context `{Serialize (list FileSyncOperation.t)} `{Serialize FileSyncRequest} `{Serialize FileSyncResult}.
Context `{Serialize (list StoredMemoryUnit * list StoredMemoryEdge)} `{Serialize ResolvedMemoryContext}.
Context (a_recency_control_enabled : bool) (meanwhile : Window.t → InMemoryState → InMemoryState).

Definition snapshot (context : ResolvedMemoryContext) (evaluated_at : string) (store : InMemoryState)
    : result MemoryToolError CanonicalProjectionResponse :=
  match canonical_projection evaluated_at context store with
  | Err _ => Err unavailable
  | Ok snapshot =>
      if invalid_projection (cpr_items snapshot)
      then tool_error "invalid_projection"
             "canonical memory contains a reserved or colliding memory path"
      else Ok snapshot
  end.

Section apply.
Context (at_ : SyncInstants) (fresh : SyncIds) (context : ResolvedMemoryContext).

Definition tool_request (snapshot : CanonicalProjectionResponse) (plan_sha256 : string)
    (operations : list FileSyncOperation.t) : FileSyncRequest := {|
  fs_identity := identity_of context;
  fs_base_fingerprint := cpr_fingerprint snapshot;
  fs_plan_sha256 := plan_sha256;
  fs_observed_at := cpr_evaluated_at snapshot;
  fs_operations := operations;
|}.

Definition tool_key (context_bytes : string) (snapshot : CanonicalProjectionResponse)
    (plan_sha256 : string) : string :=
  "memory-tool:" +:+ sha256_hex context_bytes +:+ ":" +:+ cpr_fingerprint snapshot +:+ ":" +:+ plan_sha256.

Definition apply_plan (snapshot : CanonicalProjectionResponse) (operations : list FileSyncOperation.t)
    : Op MemoryToolError () :=
  λ store,
  match file_sync_plan_sha256 operations with
  | Err _ => (store, tool_error "invalid_request" "invalid memory mutation")
  | Ok plan_sha256 =>
      match to_vec context with
      | Err _ => (store, tool_error "invalid_request" "invalid memory context")
      | Ok context_bytes =>
          let '(store, synced) :=
            file_sync a_recency_control_enabled meanwhile at_ fresh context
              (tool_key context_bytes snapshot plan_sha256) (tool_request snapshot plan_sha256 operations) store in
          (store, match synced with Ok _ => Ok () | Err error => Err (sync_failure error) end)
      end
  end.

(** The projection is shown at [evaluated_at]; others run before the sync. *)
Definition handle (evaluated_at : string) (command : MemoryCommand.t) : Op MemoryToolError string :=
  λ store,
  match (shown <-? snapshot context evaluated_at store;
         planned <-? edit shown command; Ok (shown, planned)) with
  | Err error => (store, Err error)
  | Ok (_, (None, answer)) => (store, Ok answer)
  | Ok (shown, (Some operations, answer)) =>
      let '(store, applied) := apply_plan shown operations (meanwhile Window.Viewing store) in
      (store, match applied with Ok _ => Ok answer | Err error => Err error end)
  end.
End apply.

(** ** Reading a resource *)

Context `{UuidText} `{TraceText}.

Definition found {A} (read : result StoreError.t (option A)) : result MemoryToolError A :=
  match read with
  | Err _ => Err unavailable
  | Ok None => tool_error "not_found" "resource not found"
  | Ok (Some a) => Ok a
  end.

Definition resource_text (context : ResolvedMemoryContext) (evaluated_at : string)
    (kind : ResourceUri.t) (id : Uuid) (store : InMemoryState) : result MemoryToolError (string * string) :=
  match kind with
  | ResourceUri.Memory =>
      shown <-? snapshot context evaluated_at store;
      item <-? ok_or (find (λ item, pj_unit_id item =? id) (cpr_items shown))
                 (mkToolError "not_found" "resource not found");
      Ok ("text/markdown", pj_body item)
  | ResourceUri.Episode =>
      episode <-? found (fetch_episode store context id);
      Ok ("text/markdown", ep_body episode)
  | ResourceUri.Resource =>
      resource <-? found (fetch_resource store context id);
      _ <-? (if acl_is_empty (re_acl resource) then Ok ()
             else tool_error "scope_denied" "resource access is not authorized");
      _ <-? (if is_textual_mime (re_mime_type resource) then Ok ()
             else tool_error "unsupported_content" "resource is not available as text");
      body <-? ok_or (re_body resource) (mkToolError "not_found" "resource body is unavailable");
      Ok (re_mime_type resource, body)
  | ResourceUri.Trace =>
      trace <-? found (trace_by_id store context id);
      match trace_text trace with
      | Err _ => tool_error "backend_unavailable" "trace encoding failed"
      | Ok body => Ok ("application/json", body +:+ line_feed)
      end
  end.

Definition read_resource (context : ResolvedMemoryContext) (evaluated_at uri : string)
    (store : InMemoryState) : result MemoryToolError MemoryResourceContent :=
  parsed <-? parse_resource_uri uri;
  read <-? resource_text context evaluated_at (fst parsed) (snd parsed) store;
  if MAX_RESOURCE_BYTES <? str_len (snd read)
  then tool_error "content_too_large" "resource exceeds the configured read bound"
  else Ok {| rc_uri := uri; rc_mime_type := fst read; rc_text := snd read |}.
End tool.
