(* ===== verification/FileToolFacts.v ===== *)
(** * FileToolFacts: what the memory tool does to the files it shows

    A command plans edits of the files it was shown, exactly where its text
    says, and the sync applies them to the projection they were planned on.
    Following the cursors of the resources lists every file once. *)

From S2P Require Import Prelude Text Types Float Clock Bitemporal Lineage Store Txn Stage Binding Ledger Reads.
From S2P Require Import TextFacts Chunks Gate Rerank Compile Structured Mining Prepare Reflect Requests Verbs.
From S2P Require Import FileSync Tasks VerbFacts VerbEffects FileSyncFacts FileTool.

(** ** Occurrences *)

Lemma starts_with_app pat l : starts_with pat (pat ++ l) = true.
Proof. induction pat as [|a pat IH]; simpl; [done|]. by rewrite N.eqb_refl. Qed.

Lemma starts_with_split pat l : starts_with pat l = true → l = pat ++ drop (length pat) l.
Proof.
  revert l. induction pat as [|a pat IH]; intros [|b l]; simpl; try done.
  intros [->%N.eqb_eq Hs]%andb_true_iff. by rewrite <-IH.
Qed.

Lemma match_from_none fuel pat l i : pat ≠ [] → (length l <= fuel)%nat →
  match_from fuel pat l i = [] → contains_bytes l pat = false.
Proof.
  intros Hne. revert l i. induction fuel as [|fuel IH]; intros [|a l] i Hl; simpl in Hl; try lia;
    try by destruct pat.
  cbn [match_from contains_bytes]. destruct (starts_with pat (a :: l)); [done|].
  intros Hm. apply (IH l (S i)); [lia|done].
Qed.

(** A single match is the first occurrence, and none follows it. *)
Lemma match_from_single fuel pat l i o : pat ≠ [] → (length l <= fuel)%nat →
  match_from fuel pat l i = [o] →
  ∃ before after, split_once pat l = Some (before, after) ∧ contains_bytes after pat = false.
Proof.
  intros Hne. revert l i. induction fuel as [|fuel IH]; intros [|a l] i Hl; simpl in Hl; try done; try lia.
  cbn [match_from split_once]. destruct (starts_with pat (a :: l)).
  - intros [= -> Hrest]. exists [], (drop (length pat) (a :: l)). split; [done|].
    eapply match_from_none; [done| |exact Hrest]. rewrite length_drop.
    destruct pat; [done|]. simpl. lia.
  - intros Hm. apply IH in Hm as (before & after & -> & Hc); [|lia]. by exists (a :: before), after.
Qed.

Lemma split_once_at pat l before after : split_once pat l = Some (before, after) →
  l = before ++ pat ++ after ∧
  ∀ i, (i < length before)%nat → starts_with pat (drop i l) = false.
Proof.
  revert before. induction l as [|a l IH]; intros before; cbn [split_once].
  - destruct (starts_with pat []) eqn:Es; [|done]. intros [= <- <-].
    split; [by apply starts_with_split|simpl; lia].
  - destruct (starts_with pat (a :: l)) eqn:Es.
    + intros [= <- <-]. split; [by apply starts_with_split|simpl; lia].
    + destruct (split_once pat l) as [[b k]|]; [|done]. intros [= <- <-].
      destruct (IH b eq_refl) as [-> Hb]. split; [done|].
      intros [|i] Hi; [done|]. apply (Hb i). simpl in Hi. lia.
Qed.

(** ** Lines *)

Lemma split_on_shift b part l : split_on b part l =
  match split_on b [] l with first :: rest => (rev part ++ first) :: rest | [] => [] end.
Proof.
  revert part. induction l as [|a l IH]; intros part; simpl; [by rewrite app_nil_r|].
  destruct (a =? b); [by rewrite app_nil_r|]. rewrite IH, (IH [a]).
  destruct (split_on b [] l); [done|]. simpl. by rewrite <-app_assoc.
Qed.

Lemma split_on_nonempty b part l : split_on b part l ≠ [].
Proof. revert part. induction l as [|a l IH]; intros part; simpl; [done|]. by destruct (a =? b). Qed.

Lemma split_on_join b l : join_on b (split_on b [] l) = l.
Proof.
  induction l as [|a l IH]; [done|]. simpl. destruct (N.eqb_spec a b) as [->|Hne].
  - pose proof (split_on_nonempty b [] l). destruct (split_on b [] l); [done|]. simpl in *. by rewrite IH.
  - rewrite split_on_shift. pose proof (split_on_nonempty b [] l) as Hn.
    destruct (split_on b [] l) as [|p [|q parts]]; [done|simpl in *; by rewrite IH..].
Qed.

Lemma split_on_plain b p : b ∉ p → split_on b [] p = [p].
Proof.
  induction p as [|a p IH]; [done|]. intros [Hne Hp]%not_elem_of_cons. simpl.
  rewrite (proj2 (N.eqb_neq a b)) by done. rewrite split_on_shift, IH by done. done.
Qed.

Lemma split_on_app b p l : b ∉ p → split_on b [] (p ++ b :: l) = p :: split_on b [] l.
Proof.
  induction p as [|a p IH]; intros Hp; simpl; [by rewrite N.eqb_refl|].
  apply not_elem_of_cons in Hp as [Hne Hp].
  rewrite (proj2 (N.eqb_neq a b)) by done. rewrite split_on_shift, IH by done. done.
Qed.

(** Joining parts and splitting again, parts that hold breaks included. *)
Lemma split_on_joined b parts : parts ≠ [] →
  split_on b [] (join_on b parts) = concat (map (split_on b []) parts).
Proof.
  assert (∀ p l, split_on b [] (p ++ b :: l) = split_on b [] p ++ split_on b [] l) as Happ.
  { induction p as [|a p IH]; intros l; simpl; [by rewrite N.eqb_refl|].
    destruct (a =? b); simpl; [by rewrite IH|]. rewrite (split_on_shift b [a]), IH.
    rewrite (split_on_shift b [a] p). pose proof (split_on_nonempty b [] p).
    by destruct (split_on b [] p). }
  induction parts as [|p [|q parts] IH]; intros Hne; [done|by cbn; rewrite app_nil_r|].
  change (join_on b (p :: q :: parts)) with (p ++ b :: join_on b (q :: parts)).
  rewrite Happ, IH by done. done.
Qed.

Lemma split_parts_plain b l : Forall (λ p, split_on b [] p = [p]) (split_on b [] l).
Proof.
  apply Forall_forall. intros p Hp. apply split_on_plain.
  pose proof (split_on_parts b [] l (not_elem_of_nil b)) as Hall. rewrite Forall_forall in Hall.
  by apply Hall.
Qed.

Lemma concat_plain b parts : Forall (λ p, split_on b [] p = [p]) parts →
  concat (map (split_on b []) parts) = parts.
Proof. induction 1 as [|p parts Hp _ IH]; [done|]. simpl. by rewrite Hp, IH. Qed.

(** Inserting a text after a line puts its lines there. *)
Lemma inserted_lines b n text l : (n <= length (split_on b [] l))%nat →
  split_on b [] (join_on b (insert_at n text (split_on b [] l))) =
  take n (split_on b [] l) ++ split_on b [] text ++ drop n (split_on b [] l).
Proof.
  intros Hn. unfold insert_at. rewrite split_on_joined by by destruct (take n _).
  rewrite map_app, concat_app. simpl.
  pose proof (split_parts_plain b l) as Hall. rewrite !concat_plain; [done|..].
  - by apply Forall_drop.
  - by apply Forall_take.
Qed.

(** ** Ordered maps *)

Lemma btree_insert_fresh {V} key (value : V) entries : key ∉ entries.*1 →
  btree_insert key value entries ≡ₚ (key, value) :: entries.
Proof.
  induction entries as [|[k v] entries IH]; intros Hk; [done|]. simpl in Hk.
  apply not_elem_of_cons in Hk as [Hne Hk]. cbn [btree_insert].
  destruct (str_cmp key k) eqn:Ec; [by apply str_cmp_eq in Ec|done|].
  rewrite IH by done. apply perm_swap.
Qed.

Lemma btree_collect_from {V} (pairs entries : list (string * V)) :
  NoDup (pairs ++ entries).*1 →
  foldl (λ entries pair, btree_insert pair.1 pair.2 entries) entries pairs ≡ₚ pairs ++ entries.
Proof.
  revert entries. induction pairs as [|[k v] pairs IH]; intros entries Hn; [done|]. simpl.
  simpl in Hn. apply NoDup_cons in Hn as [Hk Hn]. rewrite fmap_app, not_elem_of_app in Hk.
  assert (btree_insert k v entries ≡ₚ (k, v) :: entries) as Hp
    by (apply btree_insert_fresh; tauto).
  rewrite IH; [by rewrite Hp, <-Permutation_middle|].
  rewrite Hp, <-Permutation_middle. simpl. constructor; [by rewrite fmap_app, not_elem_of_app|done].
Qed.

Lemma btree_collect_perm {V} (pairs : list (string * V)) :
  NoDup pairs.*1 → btree_collect pairs ≡ₚ pairs.
Proof. intros Hn. unfold btree_collect. rewrite btree_collect_from; by rewrite app_nil_r. Qed.

Lemma btree_get_Some {V} key (entries : list (string * V)) v :
  btree_get key entries = Some v → (key, v) ∈ entries.
Proof.
  induction entries as [|[k w] entries IH]; [done|]. cbn [btree_get].
  destruct (String.eqb_spec k key) as [->|]; [intros [= ->]; by left|]. intros Hg. right. by apply IH.
Qed.

Lemma btree_get_None {V} key (entries : list (string * V)) :
  btree_get key entries = None → key ∉ entries.*1.
Proof.
  induction entries as [|[k w] entries IH]; [by intros _ ?%elem_of_nil|]. cbn [btree_get].
  destruct (String.eqb_spec k key) as [->|Hne]; [done|]. intros Hg. simpl.
  apply not_elem_of_cons. split; [done|by apply IH].
Qed.

(** ** Paths *)

Lemma string_of_bytes_app l k : string_of_bytes (l ++ k) = string_of_bytes l +:+ string_of_bytes k.
Proof. unfold string_of_bytes. induction l as [|b l IH]; [done|]. simpl. by rewrite IH. Qed.

Lemma append_assoc (a b c : string) : (a +:+ b) +:+ c = a +:+ b +:+ c.
Proof.
  induction a as [|x a IH]; [done|].
  change (String.String x ((a +:+ b) +:+ c) = String.String x (a +:+ b +:+ c)). by f_equal.
Qed.

Lemma starts_with_strip prefix value : strip_prefix_str prefix (prefix +:+ value) = Some value.
Proof.
  unfold strip_prefix_str, strip_pat. rewrite bytes_of_app, starts_with_app, drop_app_length. simpl.
  by rewrite string_of_bytes_of.
Qed.

Lemma strip_prefix_Some prefix value rest :
  strip_prefix_str prefix value = Some rest → value = prefix +:+ rest.
Proof.
  unfold strip_prefix_str, strip_pat. destruct (starts_with _ _) eqn:Es; [|done]. intros [= <-].
  apply starts_with_split, (f_equal string_of_bytes) in Es.
  by rewrite string_of_bytes_app, !string_of_bytes_of in Es.
Qed.

Lemma begins_spec prefix value : begins prefix value = true ↔ ∃ rest, value = prefix +:+ rest.
Proof.
  split.
  - intros Hb. exists (string_of_bytes (drop (length (bytes_of prefix)) (bytes_of value))).
    apply strip_prefix_Some. unfold strip_prefix_str, strip_pat. unfold begins in Hb. by rewrite Hb.
  - intros [rest ->]. unfold begins. by rewrite bytes_of_app, starts_with_app.
Qed.

Lemma below_spec path candidate :
  below path candidate = true ↔ ∃ suffix, candidate = path +:+ "/" +:+ suffix.
Proof.
  unfold below. rewrite begins_spec. by setoid_rewrite append_assoc.
Qed.

(** The path below the root a file may be written to. *)
Definition writable (path key : string) : Prop :=
  ∃ relative, path = MEMORY_ROOT +:+ "/" +:+ relative ∧ key = MEMORY_PATH_FACT_KEY_PREFIX +:+ relative ∧
    valid_relative_memory_path relative = true ∧ path ≠ INDEX_PATH.

Lemma writable_ok path key : writable_memory_path path = Ok key → writable path key.
Proof.
  unfold writable_memory_path. intros ([] & _ & Hw)%result_bind_ok.
  destruct (strip_prefix_str _ path) as [relative|] eqn:Es; [|done]. apply strip_prefix_Some in Es.
  destruct (String.eqb_spec relative "MEMORY.md") as [|Hne]; [done|].
  destruct (valid_relative_memory_path relative) eqn:Ev; [|done]. injection Hw as <-.
  exists relative. subst path. split_and!; [done..|]. intros Heq. apply Hne.
  by apply (f_equal (strip_prefix_str (MEMORY_ROOT +:+ "/"))) in Heq; rewrite starts_with_strip in Heq;
    injection Heq.
Qed.

(** A unit retained under the key of a path is shown at this path. *)
Lemma filed_topic_path item path key : writable path key →
  pj_predicate item = Some "memory_file" → pj_fact_key item = Some key → topic_path item = path.
Proof.
  intros (relative & -> & -> & Hv & _) Hp Hk. unfold topic_path, filed_path. rewrite Hp, Hk.
  rewrite bool_decide_true by done. cbn [mbind option_bind]. rewrite starts_with_strip. cbn [mbind option_bind]. by rewrite Hv.
Qed.

(** ** Topics *)

Lemma colliding_strict paths : StronglySorted (λ a b, string_leb a b = true) paths →
  colliding paths = false → StronglySorted strictly_before paths.
Proof.
  induction 1 as [|first paths Hs IH Hall]; [constructor|].
  destruct paths as [|second paths]; [by repeat constructor|]. cbn [colliding].
  intros [[Hne%String.eqb_neq _]%orb_false_iff Hc]%orb_false_iff. specialize (IH Hc).
  constructor; [done|]. apply StronglySorted_inv in IH as [_ Hsecond].
  assert (strictly_before first second) as Hlt.
  { apply Forall_cons in Hall as [Hle _]. unfold string_leb in Hle. unfold strictly_before.
    destruct (str_cmp first second) eqn:Ec; [by apply str_cmp_eq in Ec|done|done]. }
  constructor; [done|]. eapply Forall_impl; [exact Hsecond|]. intros x Hx.
  by eapply str_cmp_lt_trans.
Qed.

Lemma strictly_sorted_nodup paths : StronglySorted strictly_before paths → NoDup paths.
Proof.
  induction 1 as [|a paths _ IH Hall]; constructor; [|done]. intros Hin.
  rewrite Forall_forall in Hall. specialize (Hall a Hin). unfold strictly_before in Hall.
  by rewrite str_cmp_refl in Hall.
Qed.

Lemma string_leb_total a b : string_leb a b = true ∨ string_leb b a = true.
Proof. unfold string_leb. rewrite (str_cmp_antisym b a). destruct (str_cmp a b); auto. Qed.

(** What is shown has a path of its own, and none is the index. *)
Lemma shown_paths items : invalid_projection items = false →
  NoDup (map topic_path items) ∧ INDEX_PATH ∉ map topic_path items.
Proof.
  unfold invalid_projection. intros [Hi Hc]%orb_false_iff. split.
  - eapply NoDup_Permutation_proper; [symmetry; apply sort_by_perm|].
    apply strictly_sorted_nodup, colliding_strict; [|done].
    apply sort_by_sorted; [apply string_leb_total|].
    intros a b c. unfold string_leb. intros Hab Hbc.
    destruct (str_cmp a c) eqn:E; try done. exfalso.
    apply (str_cmp_le_trans a b c); [by destruct (str_cmp a b)|by destruct (str_cmp b c)|done].
  - intros Hin. apply (elem_of_sort_by string_leb) in Hin.
    assert (existsb (λ path, String.eqb path INDEX_PATH) (sort_by string_leb (map topic_path items)) = true) as Ht;
      [|by rewrite Ht in Hi].
    apply existsb_exists. exists INDEX_PATH. split; [by apply list_elem_of_In|apply String.eqb_refl].
Qed.

Definition filed (item : CanonicalProjectionUnit) : string * CanonicalProjectionUnit :=
  (topic_path item, item).

Lemma topic_map_perm items : NoDup (map topic_path items) → topic_map items ≡ₚ map filed items.
Proof.
  intros Hn. apply btree_collect_perm. rewrite <-list_fmap_compose.
  change ((fst ∘ (λ item, (topic_path item, item))) <$> items) with (map topic_path items). done.
Qed.

Lemma topic_map_elem items path item : NoDup (map topic_path items) →
  (path, item) ∈ topic_map items ↔ item ∈ items ∧ path = topic_path item.
Proof.
  intros Hn. rewrite (topic_map_perm items Hn), list_elem_of_fmap. unfold filed.
  split; [by intros (x & [= -> ->] & Hx)|]. intros [Hi ->]. by exists item.
Qed.

Lemma topic_ok items path item : NoDup (map topic_path items) → topic items path = Ok item →
  item ∈ items ∧ topic_path item = path.
Proof.
  intros Hn. unfold topic. intros ([] & _ & Ht)%result_bind_ok.
  destruct (btree_get path (topic_map items)) as [i|] eqn:Eg; [|done]. injection Ht as <-.
  apply btree_get_Some, topic_map_elem in Eg as [Hi ->]; done.
Qed.

(** No file is at the path, above or below it. *)
Definition free (items : list CanonicalProjectionUnit) (path : string) : Prop :=
  ∀ item, item ∈ items →
    topic_path item ≠ path ∧ below path (topic_path item) = false ∧ below (topic_path item) path = false.

Lemma no_conflict_free items path : NoDup (map topic_path items) →
  path_conflicts (topic_map items) path = false → free items path.
Proof.
  intros Hn Hc item Hi. unfold path_conflicts in Hc. rewrite any_false in Hc.
  specialize (Hc (topic_path item, item)). simpl in Hc.
  rewrite !orb_false_iff, String.eqb_neq in Hc.
  destruct Hc as [[? ?] ?]; [by apply topic_map_elem|done].
Qed.

(** The file at a path, or else the files below it. *)
Definition stands_at (items : list CanonicalProjectionUnit) (path : string)
    (sources : list CanonicalProjectionUnit) : Prop :=
  (∃ item, item ∈ items ∧ topic_path item = path ∧ sources = [item]) ∨
  path ∉ map topic_path items ∧ sources ≠ [] ∧
  sources ≡ₚ retain (λ item, below path (topic_path item)) items.

Lemma retain_map_filed (p : string → bool) items :
  retain (λ topic, p topic.1) (map filed items) = map filed (retain (λ item, p (topic_path item)) items).
Proof.
  induction items as [|item items IH]; [done|]. cbn [map]. rewrite !retain_cons. cbn [fst filed].
  destruct (p (topic_path item)); [by rewrite IH|done].
Qed.

#[local] Instance retain_perm {A} (p : A → bool) : Proper ((≡ₚ) ==> (≡ₚ)) (retain p).
Proof.
  intros l k Hp. induction Hp as [|x l k _ IH|x y l|l k m _ IH1 _ IH2];
    rewrite ?retain_cons; [done|by destruct (p x); rewrite IH| |by rewrite IH1].
  destruct (p x), (p y); try done. apply perm_swap.
Qed.

Lemma at_or_below_ok items path sources : NoDup (map topic_path items) →
  at_or_below (topic_map items) path = Ok sources →
  Forall (λ source, source.1 = topic_path source.2) sources ∧ stands_at items path sources.*2.
Proof.
  intros Hn. unfold at_or_below. destruct (btree_get path _) as [item|] eqn:Eg.
  - intros [= <-]. apply btree_get_Some, topic_map_elem in Eg as [Hi ->]; [|done].
    split; [by repeat constructor|]. left. by exists item.
  - destruct (is_empty _) eqn:Ee; [done|]. intros [= <-].
    assert (Hperm : retain (λ topic, below path topic.1) (topic_map items) ≡ₚ
                    map filed (retain (λ item, below path (topic_path item)) items)).
    { by rewrite (topic_map_perm items Hn), retain_map_filed. }
    split.
    + apply Forall_forall. intros [q item] Hin. rewrite Hperm in Hin.
      by apply list_elem_of_fmap in Hin as (x & [= -> ->] & _).
    + right. split_and!.
      * apply btree_get_None in Eg. intros (item & -> & Hi)%list_elem_of_fmap. apply Eg.
        apply list_elem_of_fmap. exists (topic_path item, item). split; [done|]. by apply topic_map_elem.
      * by destruct (retain _ (topic_map items)).
      * rewrite Hperm. rewrite <-list_fmap_compose. unfold filed. simpl.
        by rewrite (list_fmap_id (retain _ items)).
Qed.

(** What a rename does to a file: it is forgotten, and retained where it goes. *)
Definition renamed (old_path new_path : string) (item : CanonicalProjectionUnit)
    (operations : list FileSyncOperation.t) : Prop :=
  ∃ suffix key, topic_path item = old_path +:+ suffix ∧ writable (new_path +:+ suffix) key ∧
    operations = [FileSyncOperation.Forget (metadata item);
                  retained_file key (pj_body item) (default f32_one (pj_confidence item))
                    (pj_valid_from item) (pj_valid_to item)].

Lemma renames_ok old_path new_path sources operations :
  Forall (λ source, source.1 = topic_path source.2 ∧ ∃ suffix, source.1 = old_path +:+ suffix) sources →
  renames old_path new_path sources = Ok operations →
  ∃ each, operations = concat each ∧ Forall2 (renamed old_path new_path) sources.*2 each.
Proof.
  intros Hall. revert operations.
  induction Hall as [|[path item] sources [Hpath [suffix Hsuffix]] _ IH]; intros operations; cbn [renames].
  { intros [= <-]. by exists []. }
  simpl in Hpath, Hsuffix. intros (key & Hkey & (rest & Hrest & [= <-])%result_bind_ok)%result_bind_ok.
  rewrite Hsuffix, starts_with_strip in Hkey. apply writable_ok in Hkey.
  destruct (IH _ Hrest) as (each & -> & Heach). exists ([FileSyncOperation.Forget (metadata item);
           retained_file key (pj_body item) (default f32_one (pj_confidence item))
             (pj_valid_from item) (pj_valid_to item)] :: each).
  split; [done|]. constructor; [|done]. exists suffix, key. split_and!; [exact (eq_trans (eq_sym Hpath) Hsuffix)|done..].
Qed.

Lemma sources_below items path sources :
  Forall (λ source : string * CanonicalProjectionUnit, source.1 = topic_path source.2) sources →
  stands_at items path sources.*2 →
  Forall (λ source, source.1 = topic_path source.2 ∧ ∃ suffix, source.1 = path +:+ suffix) sources.
Proof.
  intros Hall Hat. rewrite !Forall_forall in *. intros [q item] Hin. specialize (Hall _ Hin). simpl in *.
  split; [done|]. subst q. assert (Hi : item ∈ sources.*2) by (apply list_elem_of_fmap; by exists (topic_path item, item)).
  destruct Hat as [(i & _ & <- & Heq)|(_ & _ & Hperm)].
  - rewrite Heq, list_elem_of_singleton in Hi. subst i. exists String.EmptyString.
    clear. induction (topic_path item) as [|a s IH]; [done|].
    change (String.String a s = String.String a (s +:+ String.EmptyString)). by f_equal.
  - rewrite Hperm, elem_of_retain in Hi. destruct Hi as [_ Hb]. apply below_spec in Hb as [suffix ->].
    by eexists.
Qed.

(** ** Plans *)

Definition lines_of (body : string) : list (list N) := parts_of LF body.

(** What a command plans, on the files it was shown. *)
Definition plans (items : list CanonicalProjectionUnit) (command : MemoryCommand.t)
    (operations : list FileSyncOperation.t) : Prop :=
  match command with
  | MemoryCommand.View _ _ => False
  | MemoryCommand.Create path file_text => ∃ key, writable path key ∧ free items path ∧
      operations = [retained_file key file_text f32_one None None]
  | MemoryCommand.StrReplace path old_str new_str => ∃ item before after,
      item ∈ items ∧ topic_path item = path ∧
      bytes_of (pj_body item) = before ++ bytes_of old_str ++ after ∧
      (∀ i, (i < length before)%nat → starts_with (bytes_of old_str) (drop i (bytes_of (pj_body item))) = false) ∧
      contains_bytes after (bytes_of old_str) = false ∧
      operations = [correct_file item (before ++ bytes_of (default String.EmptyString new_str) ++ after)]
  | MemoryCommand.Insert path insert_line insert_text => ∃ item body n,
      item ∈ items ∧ topic_path item = path ∧ insert_line = Z.of_nat n ∧
      split_on LF [] body =
        take n (lines_of (pj_body item)) ++ split_on LF [] (strip_newline (bytes_of insert_text)) ++
        drop n (lines_of (pj_body item)) ∧
      operations = [correct_file item body]
  | MemoryCommand.Delete path => ∃ sources, stands_at items path sources ∧
      operations = map (λ item, FileSyncOperation.Forget (metadata item)) sources
  | MemoryCommand.Rename old_path new_path => ∃ sources each, stands_at items old_path sources ∧
      free items new_path ∧ below old_path new_path = false ∧
      Forall2 (renamed old_path new_path) sources each ∧ operations = concat each
  end.

Lemma replaced_ok path old_str new_str item operations answer :
  replaced path old_str new_str item = Ok (operations, answer) →
  ∃ before after, bytes_of (pj_body item) = before ++ bytes_of old_str ++ after ∧
    (∀ i, (i < length before)%nat → starts_with (bytes_of old_str) (drop i (bytes_of (pj_body item))) = false) ∧
    contains_bytes after (bytes_of old_str) = false ∧
    operations = [correct_file item (before ++ bytes_of (default String.EmptyString new_str) ++ after)].
Proof.
  unfold replaced. destruct (is_empty (bytes_of old_str)) eqn:Eo; [done|].
  destruct (match_indices _ _) as [|o [|o' os]] eqn:Em; [done| |done].
  apply match_from_single in Em as (before & after & Hs & Hc); [|by intros Hn; rewrite Hn in Eo|done].
  intros ([] & _ & [= <- _])%result_bind_ok. unfold replace_first. rewrite Hs.
  apply split_once_at in Hs as [Hbody Hfirst]. by exists before, after.
Qed.

Lemma inserted_ok body insert_line text result :
  insert_after_line body insert_line text = Ok result → ∃ n, insert_line = Z.of_nat n ∧
  split_on LF [] result =
    take n (lines_of body) ++ split_on LF [] (strip_newline (bytes_of text)) ++ drop n (lines_of body).
Proof.
  unfold insert_after_line. destruct (_ || _) eqn:Er; [done|]. intros [= <-].
  apply orb_false_iff in Er as [Hlo%Z.ltb_ge Hhi%Z.ltb_ge]. exists (Z.to_nat insert_line).
  split; [lia|]. apply inserted_lines. unfold parts_of in Hhi. lia.
Qed.

Lemma edit_plans shown command operations answer :
  invalid_projection (cpr_items shown) = false →
  edit shown command = Ok (Some operations, answer) → plans (cpr_items shown) command operations.
Proof.
  intros [Hn _]%shown_paths. destruct command as [path range|path text|path old new|path n text|path|old new];
    cbn [edit plans].
  - by intros (text & _ & [=])%result_bind_ok.
  - intros (key & Hkey & ([] & _ & He)%result_bind_ok)%result_bind_ok.
    destruct (path_conflicts _ _) eqn:Ec; [done|]. injection He as <- _.
    exists key. split_and!; [by apply writable_ok|by apply no_conflict_free|done].
  - intros (item & Hi & ([ops ans] & Hr & [= <- _])%result_bind_ok)%result_bind_ok.
    apply topic_ok in Hi as [? ?]; [|done].
    apply replaced_ok in Hr as (before & after & ? & ? & ? & ?). by exists item, before, after.
  - intros (item & Hi & (body & Hb & ([] & _ & [= <- _])%result_bind_ok)%result_bind_ok)%result_bind_ok.
    apply topic_ok in Hi as [? ?]; [|done]. apply inserted_ok in Hb as (k & ? & ?). by exists item, body, k.
  - destruct (String.eqb path MEMORY_ROOT); [done|].
    intros ([] & _ & (sources & Hs & [= <- _])%result_bind_ok)%result_bind_ok.
    apply at_or_below_ok in Hs as [_ Hs]; [|done]. exists sources.*2. split; [done|].
    by rewrite <-list_fmap_compose.
  - destruct (String.eqb old MEMORY_ROOT); [done|].
    intros ([] & _ & (key & _ & He)%result_bind_ok)%result_bind_ok.
    destruct (below old new) eqn:Eb; [done|]. destruct (path_conflicts _ _) eqn:Ec; [done|].
    apply result_bind_ok in He as (sources & Hs & (ops & Hr & [= <- _])%result_bind_ok).
    apply at_or_below_ok in Hs as [Hall Hs]; [|done].
    apply renames_ok in Hr as (each & -> & Heach); [|by eapply sources_below].
    exists sources.*2, each. split_and!; [done|by apply no_conflict_free|done..].
Qed.

Lemma edit_view shown command text : edit shown command = Ok (None, text) →
  ∃ path range, command = MemoryCommand.View path range ∧ view shown path range = Ok text.
Proof.
  destruct command as [path range|path body|path old new|path n body|path|old new]; cbn [edit];
    [intros (t & Hv & [= ->])%result_bind_ok; by exists path, range|intros He; exfalso..];
    repeat (match type of He with
            | result_bind ?r _ = _ => destruct r
            | (if ?b then _ else _) = _ => destruct b
            end; try discriminate He; cbn [result_bind] in He).
Qed.

(** ** Pages of resources *)

(** Following the cursors from one page to the last. *)
Inductive paged (shown : CanonicalProjectionResponse) (limit : N)
    : option string → list (list CanonicalProjectionUnit) → Prop :=
| last_page cursor page : resource_page shown cursor limit = Ok (page, None) →
    paged shown limit cursor [page]
| next_page cursor page next pages : resource_page shown cursor limit = Ok (page, Some next) →
    paged shown limit (Some next) pages → paged shown limit cursor (page :: pages).

Definition page_limit (limit : N) : nat := N.to_nat (N.max 1 (N.min limit 100)).

(** The page from an offset on. *)
Definition page_from (shown : CanonicalProjectionResponse) (limit : N) (start : nat)
    : list CanonicalProjectionUnit * option string :=
  let items := cpr_items shown in
  (take (page_limit limit) (drop start items),
   if (start + page_limit limit <? length items)%nat
   then Some ("v1:" +:+ cpr_fingerprint shown +:+ ":" +:+ show (N.of_nat (start + page_limit limit)))
   else None).

Lemma page_window (items : list CanonicalProjectionUnit) limit start : (start <= length items)%nat →
  let count := N.of_nat (length items) in
  let width := N.max 1 (N.min limit 100) in
  let end_ := N.min (N.of_nat start + width) count in
  take (N.to_nat (end_ - N.of_nat start)) (drop start items) = take (page_limit limit) (drop start items) ∧
  (end_ <? count) = (start + page_limit limit <? length items)%nat ∧
  ((end_ <? count) = true → end_ = N.of_nat (start + page_limit limit)).
Proof.
  intros Hs count width end_. unfold end_, width, count, page_limit. split_and!.
  - destruct (decide (start + N.to_nat (N.max 1 (N.min limit 100)) <= length items)%nat).
    + f_equal. lia.
    + rewrite !take_ge by (rewrite length_drop; lia). done.
  - apply eq_true_iff_eq. rewrite N.ltb_lt, Nat.ltb_lt. lia.
  - rewrite N.ltb_lt. lia.
Qed.

Lemma show_bytes n : bytes_of (show n) = show_N n ∧ 58 ∉ show_N n.
Proof.
  assert (Hd : Forall (λ b, is_digit b = true) (show_N n)).
  { destruct (show_N_spec n) as (_ & _ & Hd). apply Forall_forall. intros b Hb. rewrite forallb_forall in Hd.
    by apply Hd, list_elem_of_In. }
  unfold show. rewrite bytes_of_string; [split; [done|]|].
  - intros Hin. rewrite Forall_forall in Hd. by apply Hd in Hin.
  - eapply Forall_impl; [exact Hd|]. intros b [_ Hb%N.leb_le]%andb_true_iff. lia.
Qed.

Lemma resource_page_from shown limit start :
  (start <= length (cpr_items shown))%nat → N.of_nat (length (cpr_items shown)) <= u64_max →
  58 ∉ bytes_of (cpr_fingerprint shown) →
  resource_page shown (Some ("v1:" +:+ cpr_fingerprint shown +:+ ":" +:+ show (N.of_nat start))) limit =
    Ok (page_from shown limit start).
Proof.
  intros Hs Hmax Hfp. destruct (show_bytes (N.of_nat start)) as [Hshow Hno].
  assert (Hsplit : split_on 58 [] (bytes_of ("v1:" +:+ cpr_fingerprint shown +:+ ":" +:+ show (N.of_nat start))) =
                   [bytes_of "v1"; bytes_of (cpr_fingerprint shown); show_N (N.of_nat start)]).
  { rewrite !bytes_of_app. change (bytes_of "v1:") with (bytes_of "v1" ++ [58]).
    change (bytes_of ":") with [58]. rewrite <-app_assoc. cbn [app].
    rewrite split_on_app by (vm_compute; set_solver). rewrite split_on_app by done.
    by rewrite Hshow, split_on_plain. }
  unfold resource_page. rewrite Hsplit. rewrite !bool_decide_true by done. cbn [negb orb].
  unfold parse_usize. rewrite parse_show_N by lia.
  rewrite (proj2 (N.leb_le _ _)) by lia. cbn [result_bind]. rewrite Nat2N.id.
  destruct (page_window (cpr_items shown) limit start Hs) as (Ht & Hb & He). unfold page_from.
  rewrite Ht. rewrite <-Hb. destruct (_ <? _) eqn:E; [|done]. by rewrite He.
Qed.

Lemma resource_first_page shown limit :
  resource_page shown None limit = Ok (page_from shown limit 0).
Proof.
  unfold resource_page. cbn [result_bind].
  destruct (page_window (cpr_items shown) limit 0) as (Ht & Hb & He); [lia|]. unfold page_from.
  change (N.of_nat 0) with 0 in Ht, Hb, He. cbv zeta in Ht, Hb, He |- *. change (N.to_nat 0) with 0%nat.
  rewrite Ht, <-Hb. destruct (_ <? _) eqn:E; [|done]. by rewrite He.
Qed.

Lemma pages_from shown limit n cursor start :
  N.of_nat (length (cpr_items shown)) <= u64_max → 58 ∉ bytes_of (cpr_fingerprint shown) →
  (length (cpr_items shown) - start <= n)%nat → (start <= length (cpr_items shown))%nat →
  resource_page shown cursor limit = Ok (page_from shown limit start) →
  ∃ pages, paged shown limit cursor pages ∧ concat pages = drop start (cpr_items shown) ∧
    Forall (λ page, (length page <= page_limit limit)%nat) pages.
Proof.
  intros Hmax Hfp. revert cursor start. induction n as [|n IH]; intros cursor start Hn Hs Hp;
    unfold page_from in Hp;
    destruct (Nat.ltb_spec (start + page_limit limit) (length (cpr_items shown))) as [Hlt|Hge]; [lia| | |].
  2: { assert (1 <= page_limit limit)%nat by (unfold page_limit; lia).
    destruct (IH _ (start + page_limit limit)%nat ltac:(lia) ltac:(lia)
                (resource_page_from shown limit (start + page_limit limit) ltac:(lia) Hmax Hfp))
      as (pages & Hpages & Hconcat & Hall).
    eexists (_ :: pages). split; [by eapply next_page|]. split.
    - simpl. rewrite Hconcat. rewrite <-drop_drop, take_drop. done.
    - constructor; [|done]. rewrite length_take. lia. }
  all: eexists [_]; (split; [by apply last_page|]); split;
    [simpl; rewrite app_nil_r, take_ge by (rewrite length_drop; lia); done|repeat constructor; rewrite length_take; lia].
Qed.

(** The resource pages list every file once.  Following the cursors of
    [resource_page] from the first page ends, the pages together are the files
    of the projection in order, and none is longer than the limit, which is
    between one and a hundred. *)
Theorem resource_pages_cover shown limit :
  N.of_nat (length (cpr_items shown)) <= u64_max → 58 ∉ bytes_of (cpr_fingerprint shown) →
  ∃ pages, paged shown limit None pages ∧ concat pages = cpr_items shown ∧
    Forall (λ page, (length page <= page_limit limit)%nat) pages.
Proof.
  intros Hmax Hfp.
  destruct (pages_from shown limit (length (cpr_items shown)) None 0 Hmax Hfp) as (pages & Hp & Hc & Hl);
    [lia|lia|apply resource_first_page|]. by exists pages.
Qed.

(** ** The tool *)

Section tool.
Context `{HashOrder} `{Jiff} `{Sha256} `{StrDebug} `{EmbeddingProvider} `{ReceiptJson} `{JsonWriter}.
Context `{Serialize (list CanonicalProjectionUnit)} `{Serialize CanonicalProjectionResponse}.
Context `{Serialize (list FileSyncOperation.t)} `{Serialize FileSyncRequest} `{Serialize FileSyncResult}.
Context `{Serialize (list StoredMemoryUnit * list StoredMemoryEdge)} `{Serialize ResolvedMemoryContext}.
Context (a_recency_control_enabled : bool) (meanwhile : Window.t → InMemoryState → InMemoryState).
Context (at_ : SyncInstants) (fresh : SyncIds) (context : ResolvedMemoryContext) (evaluated_at : string).

Lemma file_sync_checked key request s s' response :
  file_sync a_recency_control_enabled meanwhile at_ fresh context key request s = (s', Ok response) →
  ∃ checked claim, check_file_sync context request = Ok checked ∧
    claim_for context MutationVerb.FileSync key checked = Ok claim.
Proof.
  unfold file_sync, op_bind, op_result. destruct (check_file_sync context request) as [checked|] eqn:Hch; [|done].
  cbn. destruct (claim_for _ _ _ checked) as [claim|] eqn:Hcl; [|done]. intros _. by exists checked, claim.
Qed.

Lemma checked_base request checked : check_file_sync context request = Ok checked →
  fs_base_fingerprint checked = fs_base_fingerprint request.
Proof.
  unfold check_file_sync. intros Hc. do 8 (apply result_bind_ok in Hc as (? & _ & Hc)).
  by injection Hc as <-.
Qed.

Lemma snapshot_ok s shown : snapshot context evaluated_at s = Ok shown →
  invalid_projection (cpr_items shown) = false ∧
  canonical_projection_fingerprint (cpr_items shown) = Ok (cpr_fingerprint shown) ∧
  (units <-? map_err store_error (canonical_projection_units s context evaluated_at);
   projection_items units) = Ok (cpr_items shown).
Proof.
  unfold snapshot, canonical_projection. destruct (result_bind _ _) as [r|] eqn:Er; [|done].
  apply result_bind_ok in Er as (units & Hu & (items & Hi & Hr)%result_bind_ok).
  unfold canonical_projection_response in Hr. apply result_bind_ok in Hr as (fp & Hfp & Hr).
  apply result_bind_ok in Hr as (encoded & _ & Hr). destruct (_ <? _); [done|]. injection Hr as <-.
  cbn [cpr_items]. destruct (invalid_projection items) eqn:Ev; [done|]. intros [= <-].
  cbn [cpr_items cpr_fingerprint]. rewrite Hu. by split_and!.
Qed.

(** The claim under which the sync of a command runs. *)
Definition tool_claim (command : MemoryCommand.t) (s : InMemoryState) (claim : MutationClaim) : Prop :=
  ∃ shown operations answer plan_sha256 context_bytes checked,
    snapshot context evaluated_at s = Ok shown ∧ edit shown command = Ok (Some operations, answer) ∧
    check_file_sync context (tool_request context shown plan_sha256 operations) = Ok checked ∧
    claim_for context MutationVerb.FileSync (tool_key context_bytes shown plan_sha256) checked = Ok claim.

(** C12: A command edits the files it was shown.  A command of the memory tool
    that succeeds was answered from one projection of the context, whose files
    have distinct paths.  A view leaves the store; any other command plans
    exactly the edit it describes - one new file at a free path, the first
    occurrence of a text replaced that does not recur behind it, lines put in
    after a line, the file or the files below a path forgotten or moved -, and
    its sync was answered from the ledger and did nothing, or ran while the
    projection still had the fingerprint of the one shown, nothing of the
    context changed before the commit, and it reports each operation. *)
Theorem tool_edits_what_it_showed command s s' answer :
  (∀ claim, tool_claim command s claim → lock_held meanwhile claim) →
  handle a_recency_control_enabled meanwhile at_ fresh context evaluated_at command s = (s', Ok answer) →
  ∃ shown, snapshot context evaluated_at s = Ok shown ∧ NoDup (map topic_path (cpr_items shown)) ∧
    ((∃ path range, command = MemoryCommand.View path range ∧ view shown path range = Ok answer ∧ s' = s) ∨
     ∃ operations, plans (cpr_items shown) command operations ∧
       (untouched meanwhile s s' ∨
        ∃ plan_sha256 checked s1 base results, untouched meanwhile s s1 ∧
          check_file_sync context (tool_request context shown plan_sha256 operations) = Ok checked ∧
          projection_items (in_memory_canonical_projection_units s1 context (sy_evaluated_at at_)) = Ok base ∧
          canonical_projection_fingerprint base = canonical_projection_fingerprint (cpr_items shown) ∧
          context_state_eqb (capture (meanwhile Window.Committing s1) context) (capture s1 context) = true ∧
          Forall2 reports (fs_operations checked) results)).
Proof.
  intros Hlock. unfold handle. destruct (snapshot context evaluated_at s) as [shown|] eqn:Es; [|done].
  cbn [result_bind]. destruct (edit shown command) as [[plan text]|] eqn:Ee; [|done]. cbn [result_bind].
  pose proof (snapshot_ok _ _ Es) as (Hvalid & Hfp & _). pose proof (shown_paths _ Hvalid) as [Hn _].
  destruct plan as [operations|]; intros Hrun; exists shown; (split; [done|]); (split; [done|]).
  - right. exists operations. split; [by eapply edit_plans|]. unfold apply_plan in Hrun.
    destruct (file_sync_plan_sha256 operations) as [sha|]; [|done].
    destruct (to_vec context) as [bytes|]; [|done].
    destruct (file_sync _ _ _ _ _ _ _ _) as [s2 [response|]] eqn:Er; [|done]. injection Hrun as <- <-.
    destruct (file_sync_checked _ _ _ _ _ Er) as (checked & claim & Hch & Hcl).
    assert (lock_held meanwhile claim) as Hl.
    { apply Hlock. by exists shown, operations, text, sha, bytes, checked. }
    destruct (file_sync_ok _ _ _ _ _ _ _ _ _ _ _ _ Hch Hcl Hl Er) as
      [Hun|(s1 & base & results & staged & tx & now & final & fp & Hun & Hb & Hf & Heq & Hrep & _)];
      [left|right].
    + eapply untouched_trans; [|exact Hun]. apply untouched_others, untouched_refl.
    + exists sha, checked, s1, base, results. split_and!; [|done|done| |done..].
      * eapply untouched_trans; [|exact Hun]. apply untouched_others, untouched_refl.
      * rewrite Hf, Hfp. f_equal. by rewrite (checked_base _ _ Hch).
  - left. injection Hrun as <- <-. apply edit_view in Ee as (path & range & -> & Hv). by exists path, range.
Qed.
End tool.
