(* ===== verification/Plane.v ===== *)
(** * Plane: the canonical projection as files

    From [crates/memphant-cli/src/file_plane.rs]: the data of the file plane, a
    projection rendered as unit files, an index and a manifest, the checks of a
    manifest, and the readers of a unit file and of an inbox file.  The bytes of
    a file are a string; a panic is [None]. *)

From S2P Require Import Prelude Text Types Float Clock Bitemporal Lineage Store Txn Stage Binding Reads.
From S2P Require Import Chunks Gate Rerank Structured Compile Mining Prepare Reflect Requests Verbs FileSync Tasks FileTool.

(** ** Constants *)

Definition DEFAULT_URL : string := "http://127.0.0.1:8080".
Definition SCHEMA_VERSION : N := 2.
Definition PLANE_COMPILER_VERSION : string := "b2-file-plane-v1".
Definition MEMORY_FILE : string := "MEMORY.md".
Definition MANIFEST_FILE : string := "memphant-export.json".
Definition UNITS_DIR : string := "units".
Definition INBOX_DIR : string := "inbox".
Definition MAX_MANIFEST_BYTES : N := 4 * 1024 * 1024.
Definition MAX_MANAGED_FILE_BYTES : N := 2 * 1024 * 1024.
Definition MAX_DIRECTORY_ENTRIES_READ : N := 100000.
Definition DEFAULT_HTTP_TIMEOUT_MS : N := 30000.
Definition MAX_HTTP_TIMEOUT_MS : N := 300000.
Definition MAX_FILE_SYNC_REQUEST_ENCODED_BYTES : N := 2097152.

(** ** Strings *)

Definition ends_str (suffix value : string) : bool := ends (bytes_of suffix) (bytes_of value).
Definition contains_str (pat value : string) : bool := contains_bytes (bytes_of value) (bytes_of pat).

(** [str::rfind]: the last position at which [pat] occurs. *)
Fixpoint rfind (pat l : list N) : option nat :=
  match l with
  | [] => if starts_with pat [] then Some 0%nat else None
  | _ :: l' =>
      match rfind pat l' with
      | Some i => Some (S i)
      | None => if starts_with pat l then Some 0%nat else None
      end
  end.

(** [&text[start..end]] at character boundaries: panics when they are out of
    order. *)
Definition str_slice (start end_ : nat) (text : string) : option string :=
  if (start <=? end_)%nat && (end_ <=? String.length text)%nat
  then Some (string_of_bytes (slice start end_ (bytes_of text))) else None.

(** [findings.sort(); findings.dedup()]. *)
Definition sorted_findings (findings : list string) : list string := dedup_by String.eqb (sort_by str_leb findings).

(** The [ParseIntError] of [str::parse::<u64>]. *)
Fixpoint parse_digits (max value : N) (l : list N) : result string N :=
  match l with
  | [] => Ok value
  | b :: l =>
      if negb (is_digit b) then Err "invalid digit found in string"
      else let value := 10 * value + (b - 48) in
           if max <? value then Err "number too large to fit in target type"
           else parse_digits max value l
  end.
Definition parse_u64 (value : string) : result string N :=
  match bytes_of value with
  | [] => Err "cannot parse integer from empty string"
  | [b] => parse_digits u64_max 0 [b]
  | b :: l => if b =? 43 then parse_digits u64_max 0 l else parse_digits u64_max 0 (b :: l)
  end.

(** [{value:.2}] of a float: exact, ties to even. *)
Definition hundredths (m : N) (e : Z) : N :=
  if (0 <=? e)%Z then m * 2 ^ Z.to_N e * 100
  else let unit := 2 ^ Z.to_N (- e) in
       let floor := m * 100 / unit in
       let rest := 2 * ((m * 100) `mod` unit) in
       if (unit <? rest) || (rest =? unit) && N.odd floor then floor + 1 else floor.
Definition two_digits (n : N) : string := if n <? 10 then "0" +:+ show n else show n.
Definition fixed2 (negative : bool) (value : N) : string :=
  (if negative then "-" else String.EmptyString) +:+ show (value / 100) +:+ "." +:+ two_digits (value `mod` 100).
Definition show_f32_2 (value : f32) : string :=
  match f32_decode value with
  | SpecFloat.S754_nan => "NaN"
  | SpecFloat.S754_infinity s => if s then "-inf" else "inf"
  | SpecFloat.S754_zero s => fixed2 s 0
  | SpecFloat.S754_finite s m e => fixed2 s (hundredths (N.pos m) e)
  end.

(** ** Data *)

Record FileIdentity : Set := mkFileIdentity { fi_device : N; fi_inode : N }.
#[export] Instance FileIdentity_eq_dec : EqDecision FileIdentity.
Proof. solve_decision. Defined.

Record ManagedFileSnapshot : Set := mkManagedFile {
  mf_identity : FileIdentity;
  mf_bytes : string;
}.
#[export] Instance ManagedFileSnapshot_eq_dec : EqDecision ManagedFileSnapshot.
Proof. solve_decision. Defined.

Record UnitFooter : Set := mkUnitFooter {
  uf_unit_id : string;
  uf_body_sha256 : string;
  uf_subject_generation : N;
  uf_kind : MemoryKind.t;
  uf_fact_key : option string;
  uf_predicate : option string;
  uf_confidence : option f32;
  uf_state : UnitState.t;
  uf_valid_from : option string;
  uf_valid_to : option string;
  uf_source_span : option string;
}.

Record ManifestEntry : Set := mkManifestEntry {
  me_unit_id : string;
  me_path : string;
  me_kind : MemoryKind.t;
  me_fact_key : option string;
  me_predicate : option string;
  me_confidence : option f32;
  me_valid_from : option string;
  me_valid_to : option string;
  me_state : UnitState.t;
  me_source_span : option string;
  me_body_sha256 : string;
  me_file_sha256 : string;
}.

Record ExportManifest : Set := mkExportManifest {
  em_schema_version : N;
  em_compiler_version : string;
  em_tenant_id : string;
  em_subject_id : string;
  em_actor_id : string;
  em_scope_id : string;
  em_agent_node_id : string;
  em_subject_generation : N;
  em_snapshot_sha256 : string;
  em_memory_sha256 : string;
  em_entries : list ManifestEntry;
}.

Record RenderedProjection : Set := mkRendered {
  rp_memory : string;
  rp_units : list (string * string);
  rp_manifest : ExportManifest;
  rp_manifest_bytes : string;
}.

Record CompileArgs : Set := mkCompileArgs {
  ca_subject_id : Uuid;
  ca_scope_id : Uuid;
  ca_actor_id : Uuid;
  ca_agent_node_id : Uuid;
  ca_subject_generation : N;
  ca_out : string;
}.

Record SyncArgs : Set := mkSyncArgs { sa_context : CompileArgs; sa_apply : bool }.

Record SyncSnapshot : Set := mkSyncSnapshot {
  sy_manifest : ExportManifest;
  sy_managed_files : list (string * ManagedFileSnapshot);
  sy_inbox_files : list (string * ManagedFileSnapshot);
  sy_operations : list FileSyncOperation.t;
}.

Record SyncPlan : Set := mkSyncPlan {
  sp_schema_version : N;
  sp_subject_id : string;
  sp_scope_id : string;
  sp_actor_id : string;
  sp_agent_node_id : string;
  sp_subject_generation : N;
  sp_base_fingerprint : string;
  sp_plan_sha256 : string;
  sp_operations : list FileSyncOperation.t;
  sp_destructive : list string;
  sp_consumed_inbox : list string;
}.

Module SyncFailure.
Inductive t : Set :=
| Invalid (findings : list string)
| Conflict (error : string)
| Unavailable (error : string)
| OutcomeUnknown (error : string)
| PostCommit (error : string)
| Error (error : string).
End SyncFailure.

Module ProjectionFetchFailure.
Inductive t : Set :=
| Unavailable (error : string)
| Status (status : N) (code : string)
| Invalid (error : string).
End ProjectionFetchFailure.

Module CompileFailure.
Inductive t : Set := Dirty (findings : list string) | Error (error : string).
End CompileFailure.

(** The derived equalities: floats are compared as floats. *)
Definition footer_eq (a b : UnitFooter) : bool :=
  bool_decide (uf_unit_id a = uf_unit_id b) &&
  bool_decide (uf_body_sha256 a = uf_body_sha256 b) &&
  (uf_subject_generation a =? uf_subject_generation b) &&
  bool_decide (uf_kind a = uf_kind b) &&
  bool_decide (uf_fact_key a = uf_fact_key b) &&
  bool_decide (uf_predicate a = uf_predicate b) &&
  confidence_eq (uf_confidence a) (uf_confidence b) &&
  bool_decide (uf_state a = uf_state b) &&
  bool_decide (uf_valid_from a = uf_valid_from b) &&
  bool_decide (uf_valid_to a = uf_valid_to b) &&
  bool_decide (uf_source_span a = uf_source_span b).

Definition entry_eq (a b : ManifestEntry) : bool :=
  bool_decide (me_unit_id a = me_unit_id b) &&
  bool_decide (me_path a = me_path b) &&
  bool_decide (me_kind a = me_kind b) &&
  bool_decide (me_fact_key a = me_fact_key b) &&
  bool_decide (me_predicate a = me_predicate b) &&
  confidence_eq (me_confidence a) (me_confidence b) &&
  bool_decide (me_valid_from a = me_valid_from b) &&
  bool_decide (me_valid_to a = me_valid_to b) &&
  bool_decide (me_state a = me_state b) &&
  bool_decide (me_source_span a = me_source_span b) &&
  bool_decide (me_body_sha256 a = me_body_sha256 b) &&
  bool_decide (me_file_sha256 a = me_file_sha256 b).

(** [Vec]'s equality. *)
Fixpoint vec_eq {A} (eq : A → A → bool) (a b : list A) : bool :=
  match a, b with
  | [], [] => true
  | x :: a, y :: b => eq x y && vec_eq eq a b
  | _, _ => false
  end.

Definition manifest_eq (a b : ExportManifest) : bool :=
  (em_schema_version a =? em_schema_version b) &&
  bool_decide (em_compiler_version a = em_compiler_version b) &&
  bool_decide (em_tenant_id a = em_tenant_id b) &&
  bool_decide (em_subject_id a = em_subject_id b) &&
  bool_decide (em_actor_id a = em_actor_id b) &&
  bool_decide (em_scope_id a = em_scope_id b) &&
  bool_decide (em_agent_node_id a = em_agent_node_id b) &&
  (em_subject_generation a =? em_subject_generation b) &&
  bool_decide (em_snapshot_sha256 a = em_snapshot_sha256 b) &&
  bool_decide (em_memory_sha256 a = em_memory_sha256 b) &&
  vec_eq entry_eq (em_entries a) (em_entries b).

Definition base_eq (a b : FileSyncUnitMetadata) : bool :=
  (fm_unit_id a =? fm_unit_id b) &&
  bool_decide (fm_kind a = fm_kind b) &&
  bool_decide (fm_fact_key a = fm_fact_key b) &&
  bool_decide (fm_predicate a = fm_predicate b) &&
  confidence_eq (fm_confidence a) (fm_confidence b) &&
  bool_decide (fm_valid_from a = fm_valid_from b) &&
  bool_decide (fm_valid_to a = fm_valid_to b) &&
  bool_decide (fm_body_sha256 a = fm_body_sha256 b).

Definition operation_eq (a b : FileSyncOperation.t) : bool :=
  match a, b with
  | FileSyncOperation.Correct base body, FileSyncOperation.Correct base' body' =>
      base_eq base base' && bool_decide (body = body')
  | FileSyncOperation.Retain key predicate body confidence from to,
    FileSyncOperation.Retain key' predicate' body' confidence' from' to' =>
      bool_decide (key = key') && bool_decide (predicate = predicate') && bool_decide (body = body') &&
      f32_eq confidence confidence' && bool_decide (from = from') && bool_decide (to = to')
  | FileSyncOperation.Forget base, FileSyncOperation.Forget base' => base_eq base base'
  | _, _ => false
  end.

Definition snapshot_eq (a b : SyncSnapshot) : bool :=
  manifest_eq (sy_manifest a) (sy_manifest b) &&
  bool_decide (sy_managed_files a = sy_managed_files b) &&
  bool_decide (sy_inbox_files a = sy_inbox_files b) &&
  vec_eq operation_eq (sy_operations a) (sy_operations b).

(** ** Checks of strings *)

Definition require_single_line (field value : string) : result string () :=
  if is_empty (bytes_of value) || has_byte LF value || has_byte CR value
  then Err (field +:+ " must be one non-empty line") else Ok ().

Definition require_sha256 (field value : string) : result string () :=
  if is_sha256 value then Ok () else Err (field +:+ " must be a lowercase SHA-256 digest").

Definition says_utc (value : string) : bool := ends_str "Z" value || ends_str "+00:00" value.

Definition require_rfc3339_utc `{Jiff} (field value : string) : result string () :=
  if says_utc value && bool_decide (is_Some (parse_timestamp value)) then Ok ()
  else Err (field +:+ " must be RFC3339 UTC").

(** [Path::components] on Unix. *)
Module Component.
Inductive t : Set := RootDir | CurDir | ParentDir | Normal (name : list N).
End Component.

Definition component (part : list N) : option Component.t :=
  if is_empty part || bool_decide (part = [46]) then None
  else if bool_decide (part = [46; 46]) then Some Component.ParentDir
  else Some (Component.Normal part).

Definition components (path : string) : list Component.t :=
  let parts := parts_of slash path in
  let rest := omap component parts in
  if begins "/" path then Component.RootDir :: rest
  else match parts with
       | [46] :: _ => Component.CurDir :: rest
       | _ => rest
       end.

Definition is_safe_relative_unit_path (value : string) : bool :=
  match components value with
  | [Component.Normal name; Component.Normal _] => bool_decide (name = bytes_of UNITS_DIR)
  | _ => false
  end.

Definition numbered_device (prefix : string) (stem : list N) : bool :=
  match strip_pat (bytes_of prefix) stem with
  | Some [digit] => (49 <=? digit) && (digit <=? 57)
  | _ => false
  end.

Definition is_safe_inbox_name (name : string) : bool :=
  let lowercase := map ascii_lower (bytes_of name) in
  let stem := default [] (head (split_on 46 [] lowercase)) in
  let windows_device :=
    existsb (λ device, bool_decide (stem = bytes_of device)) ["con"; "prn"; "aux"; "nul"; "clock$"] ||
    numbered_device "com" stem || numbered_device "lpt" stem in
  negb (is_empty (bytes_of name)) && ends_str ".md" name && negb (begins "." name) &&
  negb (bool_decide (lowercase = bytes_of "memory.md") ||
        bool_decide (lowercase = bytes_of "memphant-export.json")) &&
  negb windows_device &&
  forallb (λ b, is_ascii_alphanumeric b || (b =? 45) || (b =? 95) || (b =? 46)) (bytes_of name).

(** ** JSON *)

(** [serde_json] on the footer of a unit and on a manifest: compact and
    indented text, and the readers behind [strict_from_slice], which refuse
    duplicate keys and unknown fields. *)
Class PlaneJson := {
  footer_text : UnitFooter → result string string;
  read_footer : string → result string UnitFooter;
  manifest_text : ExportManifest → result string string;
  read_manifest : string → result string ExportManifest;
}.

Section plane.
Context `{Jiff} `{Sha256} `{UuidText} `{PlaneJson}.
Context `{Serialize (list CanonicalProjectionUnit)}.
Context `{Serialize (list FileSyncOperation.t)} `{Serialize FileSyncRequest}.

(** ** Rendering *)

Definition footer_of (generation : N) (item : CanonicalProjectionUnit) : UnitFooter := {|
  uf_unit_id := uuid_string (pj_unit_id item);
  uf_body_sha256 := pj_body_sha256 item;
  uf_subject_generation := generation;
  uf_kind := pj_kind item;
  uf_fact_key := pj_fact_key item;
  uf_predicate := pj_predicate item;
  uf_confidence := pj_confidence item;
  uf_state := pj_state item;
  uf_valid_from := pj_valid_from item;
  uf_valid_to := pj_valid_to item;
  uf_source_span := pj_source_span item;
|}.

Definition unit_title (item : CanonicalProjectionUnit) : string :=
  default (uuid_string (pj_unit_id item)) (pj_fact_key item).

Definition render_unit (generation : N) (item : CanonicalProjectionUnit) : result string string :=
  let title := unit_title item in
  _ <-? require_single_line "unit title" title;
  footer <-? map_err (λ error, "footer serialization failed: " +:+ error)
               (footer_text (footer_of generation item));
  Ok ("# " +:+ title +:+ line_feed +:+ line_feed +:+ pj_body item +:+ line_feed +:+ line_feed +:+
      "<!-- memphant " +:+ footer +:+ " -->" +:+ line_feed).

(** The name [serde] gives a state. *)
Definition state_label (state : UnitState.t) : string :=
  match state with
  | UnitState.Candidate => "candidate"
  | UnitState.Active => "active"
  | UnitState.Superseded => "superseded"
  | UnitState.Invalidated => "invalidated"
  | UnitState.Deleted => "deleted"
  | UnitState.Quarantined => "quarantined"
  | UnitState.Expired => "expired"
  | UnitState.Validated => "validated"
  end.

Definition escape_cell (value : string) : string :=
  string_of_bytes
    (replace_byte CR [32] (replace_byte LF [32]
       (replace_byte 124 [backslash; 124]
          (replace_byte backslash [backslash; backslash] (bytes_of value))))).

Definition memory_row (entry : ManifestEntry) : string :=
  "| [" +:+ escape_link_text (default (me_unit_id entry) (me_fact_key entry)) +:+ "](" +:+
  me_path entry +:+ ") | " +:+
  escape_cell (state_label (me_state entry)) +:+ " | " +:+
  escape_cell (default "—" (me_valid_from entry)) +:+ " | " +:+
  escape_cell (default "—" (me_valid_to entry)) +:+ " | " +:+
  match me_confidence entry with Some value => show_f32_2 value | None => "—" end +:+
  " |" +:+ line_feed.

Definition render_memory (scope_id : Uuid) (fingerprint : string) (entries : list ManifestEntry)
    : string :=
  let heading :=
    "# MemPhant Memory" +:+ line_feed +:+ line_feed +:+
    "Scope: `" +:+ uuid_string scope_id +:+ "`" +:+ line_feed +:+
    "Snapshot: `" +:+ fingerprint +:+ "`" +:+ line_feed +:+ line_feed in
  match entries with
  | [] => heading
  | _ =>
      heading +:+ "| Memory | State | Since | Until | Confidence |" +:+ line_feed +:+
      "| --- | --- | --- | --- | --- |" +:+ line_feed +:+ String.concat String.EmptyString (map memory_row entries)
  end.

Definition canonical_manifest_bytes (manifest : ExportManifest) : result string string :=
  bytes <-? map_err (λ error, "manifest serialization failed: " +:+ error) (manifest_text manifest);
  Ok (bytes +:+ line_feed).

(** ** The fields of a manifest *)

Definition is_canonical_uuid (value : string) : bool :=
  bool_decide (uuid_string <$> parse_uuid (bytes_of value) = Some value).

Definition editable_kind (kind : MemoryKind.t) : bool :=
  bool_decide (kind = MemoryKind.Semantic) || bool_decide (kind = MemoryKind.Procedural).

(** A timestamp of an entry, with what is found wrong with it. *)
Definition validate_timestamp (value : option string) (field : string) (entry : ManifestEntry)
    : option Z * list string :=
  match value with
  | None => (None, [])
  | Some value =>
      if negb (says_utc value) then (None, [me_path entry +:+ ": " +:+ field +:+ " must use UTC"])
      else match parse_timestamp value with
           | Some instant => (Some instant, [])
           | None => (None, [me_path entry +:+ ": " +:+ field +:+ " must be RFC3339"])
           end
  end.

Definition when (condition : bool) (finding : string) : list string :=
  if condition then [finding] else [].

Definition fails {E A} (r : result E A) : bool := match r with Ok _ => false | Err _ => true end.

Definition within_unit (value : f32) : bool :=
  f32_is_finite value && f32_le f32_zero value && f32_le value f32_one.

Record EntriesSeen : Type := mkEntriesSeen {
  es_ids : gset string;
  es_paths : gset string;
  es_fact_keys : gset string;
  es_previous : option string;
}.

Definition seen (key : string) (keys : gset string) : bool := bool_decide (key ∈ keys).

Definition validate_entry (before : EntriesSeen) (entry : ManifestEntry) : EntriesSeen * list string :=
  let '(valid_from, from_findings) := validate_timestamp (me_valid_from entry) "valid_from" entry in
  let '(valid_to, to_findings) := validate_timestamp (me_valid_to entry) "valid_to" entry in
  let at_path finding := me_path entry +:+ ": " +:+ finding in
  ({| es_ids := {[me_unit_id entry]} ∪ es_ids before;
      es_paths := {[me_path entry]} ∪ es_paths before;
      es_fact_keys := match me_fact_key entry with
                      | Some key => {[key]} ∪ es_fact_keys before
                      | None => es_fact_keys before
                      end;
      es_previous := Some (me_unit_id entry) |},
   when (negb (is_canonical_uuid (me_unit_id entry))) (at_path "unit_id must be a lowercase canonical UUID") ++
   when (seen (me_unit_id entry) (es_ids before)) ("duplicate unit_id: " +:+ me_unit_id entry) ++
   when (negb (editable_kind (me_kind entry))) (at_path "unsupported memory kind") ++
   match me_fact_key entry with
   | Some value => when (fails (require_single_line "fact_key" value))
                     (at_path "fact_key must be one non-empty line")
   | None => []
   end ++
   match me_predicate entry with
   | Some value => when (fails (require_single_line "predicate" value))
                     (at_path "predicate must be one non-empty line")
   | None => []
   end ++
   match me_confidence entry with
   | Some value => when (negb (within_unit value)) (at_path "confidence must be finite and within 0..=1")
   | None => []
   end ++
   from_findings ++ to_findings ++
   match valid_from, valid_to with
   | Some from, Some to => when (to <=? from)%Z (at_path "valid_from must be earlier than valid_to")
   | _, _ => []
   end ++
   when (seen (me_path entry) (es_paths before)) ("duplicate path: " +:+ me_path entry) ++
   match me_fact_key entry with
   | Some key => when (seen key (es_fact_keys before)) ("duplicate fact_key: " +:+ key)
   | None => []
   end ++
   match es_previous before with
   | Some id => when (str_leb (me_unit_id entry) id) "entries must be strictly ordered by unit_id"
   | None => []
   end ++
   when (fails (require_sha256 "body_sha256" (me_body_sha256 entry))) (at_path "invalid body_sha256") ++
   when (fails (require_sha256 "file_sha256" (me_file_sha256 entry))) (at_path "invalid file_sha256")).

Fixpoint validate_entries (before : EntriesSeen) (entries : list ManifestEntry) : list string :=
  match entries with
  | [] => []
  | entry :: entries =>
      let '(after, findings) := validate_entry before entry in
      findings ++ validate_entries after entries
  end.

Definition validate_manifest_fields (manifest : ExportManifest) : list string :=
  when (negb (em_schema_version manifest =? SCHEMA_VERSION))
    ("schema_version: expected " +:+ show SCHEMA_VERSION +:+ ", got " +:+ show (em_schema_version manifest)) ++
  when (negb (bool_decide (em_compiler_version manifest = PLANE_COMPILER_VERSION)))
    ("compiler_version: expected " +:+ PLANE_COMPILER_VERSION +:+ ", got " +:+ em_compiler_version manifest) ++
  flat_map (λ '(name, value), when (negb (is_canonical_uuid value))
                                (name +:+ ": must be a lowercase canonical UUID"))
    [("tenant_id", em_tenant_id manifest); ("subject_id", em_subject_id manifest);
     ("actor_id", em_actor_id manifest); ("scope_id", em_scope_id manifest);
     ("agent_node_id", em_agent_node_id manifest)] ++
  when (fails (require_sha256 "snapshot_sha256" (em_snapshot_sha256 manifest)))
    "snapshot_sha256: must be a lowercase SHA-256 digest" ++
  when (fails (require_sha256 "memory_sha256" (em_memory_sha256 manifest)))
    "memory_sha256: must be a lowercase SHA-256 digest" ++
  validate_entries (mkEntriesSeen ∅ ∅ ∅ None) (em_entries manifest).

(** ** A projection as files *)

Definition unit_path (id : string) : string := UNITS_DIR +:+ "/" +:+ id +:+ ".md".

Record ItemsSeen : Type := mkItemsSeen {
  is_ids : gset string;
  is_fact_keys : gset string;
  is_last_id : option string;
}.

Definition entry_of (id path file_sha256 : string) (item : CanonicalProjectionUnit) : ManifestEntry := {|
  me_unit_id := id;
  me_path := path;
  me_kind := pj_kind item;
  me_fact_key := pj_fact_key item;
  me_predicate := pj_predicate item;
  me_confidence := pj_confidence item;
  me_valid_from := pj_valid_from item;
  me_valid_to := pj_valid_to item;
  me_state := pj_state item;
  me_source_span := pj_source_span item;
  me_body_sha256 := pj_body_sha256 item;
  me_file_sha256 := file_sha256;
|}.

(** The checks of one item before it is rendered. *)
Definition check_item (before : ItemsSeen) (id : string) (item : CanonicalProjectionUnit)
    : result string ItemsSeen :=
  _ <-? (if match is_last_id before with Some previous => str_leb id previous | None => false end
         then Err "projection items are not strictly ordered by unit_id" else Ok ());
  _ <-? (if seen id (is_ids before) then Err ("projection contains duplicate unit_id " +:+ id) else Ok ());
  _ <-? match pj_fact_key item with
        | Some key => if seen key (is_fact_keys before)
                      then Err ("projection contains duplicate fact_key " +:+ key) else Ok ()
        | None => Ok ()
        end;
  _ <-? (if editable_kind (pj_kind item) then Ok ()
         else Err ("projection contains unsupported kind for unit " +:+ id));
  _ <-? require_single_line "fact_key" (default id (pj_fact_key item));
  _ <-? require_sha256 "body_sha256" (pj_body_sha256 item);
  _ <-? (if bool_decide (pj_body_sha256 item = sha256_hex (pj_body item)) then Ok ()
         else Err ("projection body hash mismatch for unit " +:+ id));
  Ok {| is_ids := {[id]} ∪ is_ids before;
        is_fact_keys := match pj_fact_key item with
                        | Some key => {[key]} ∪ is_fact_keys before
                        | None => is_fact_keys before
                        end;
        is_last_id := Some id |}.

(** The files and entries of the items, in their order. *)
Fixpoint render_items (generation : N) (before : ItemsSeen) (items : list CanonicalProjectionUnit)
    : result string (list (string * string) * list ManifestEntry) :=
  match items with
  | [] => Ok ([], [])
  | item :: items =>
      let id := uuid_string (pj_unit_id item) in
      after <-? check_item before id item;
      bytes <-? render_unit generation item;
      rest <-? render_items generation after items;
      Ok ((unit_path id, bytes) :: fst rest,
          entry_of id (unit_path id) (sha256_hex bytes) item :: snd rest)
  end.

Definition manifest_of (response : CanonicalProjectionResponse) (entries : list ManifestEntry)
    : ExportManifest := {|
  em_schema_version := SCHEMA_VERSION;
  em_compiler_version := PLANE_COMPILER_VERSION;
  em_tenant_id := uuid_string (cpr_tenant_id response);
  em_subject_id := uuid_string (cpr_subject_id response);
  em_actor_id := uuid_string (cpr_actor_id response);
  em_scope_id := uuid_string (cpr_scope_id response);
  em_agent_node_id := uuid_string (cpr_agent_node_id response);
  em_subject_generation := cpr_subject_generation response;
  em_snapshot_sha256 := cpr_fingerprint response;
  em_memory_sha256 := sha256_hex (render_memory (cpr_scope_id response) (cpr_fingerprint response) entries);
  em_entries := entries;
|}.

Definition render_projection (response : CanonicalProjectionResponse) : result string RenderedProjection :=
  rendered <-? render_items (cpr_subject_generation response) (mkItemsSeen ∅ ∅ None) (cpr_items response);
  let '(units, entries) := rendered in
  let manifest := manifest_of response entries in
  let findings := validate_manifest_fields manifest in
  _ <-? (if is_empty findings then Ok ()
         else Err ("projection metadata is invalid: " +:+ joined "; " (sorted_findings findings)));
  manifest_bytes <-? canonical_manifest_bytes manifest;
  Ok {| rp_memory := render_memory (cpr_scope_id response) (cpr_fingerprint response) entries;
        rp_units := btree_collect units;
        rp_manifest := manifest;
        rp_manifest_bytes := manifest_bytes |}.

(** ** Files back to units *)

Definition unit_marker : list N := [LF; LF] ++ bytes_of "<!-- memphant ".
Definition unit_end : list N := bytes_of " -->" ++ [LF].

Definition not_utf8 {A} : result string A := Err "file is not UTF-8".

(** [None] is the panic of a slice whose end is before its start. *)
Definition parse_unit (bytes : string) : option (result string (string * UnitFooter)) :=
  let text := bytes_of bytes in
  if negb (valid_utf8 text) then Some not_utf8
  else if negb (ends unit_end text) then Some (Err "missing exact final memphant footer")
  else match rfind unit_marker text with
       | None => Some (Err "missing exact final memphant footer")
       | Some footer_start =>
           footer_json ← str_slice (footer_start + length unit_marker) (length text - length unit_end) bytes;
           match map_err (λ error, "invalid footer JSON: " +:+ error) (read_footer footer_json) with
           | Err error => Some (Err error)
           | Ok footer =>
               match split_once [LF; LF] text with
               | None => Some (Err "missing H1/body separator")
               | Some (title, _) =>
                   match strip_pat (bytes_of "# ") title with
                   | None => Some (Err "unit must start with one H1 display key")
                   | Some key =>
                       if bool_decide (LF ∈ key) then Some (Err "unit must start with one H1 display key")
                       else if negb (bool_decide (string_of_bytes key =
                                                  default (uf_unit_id footer) (uf_fact_key footer)))
                       then Some (Err "H1 display key differs from footer")
                       else body ← str_slice (length title + 2) footer_start bytes;
                            Some (Ok (body, footer))
                   end
               end
           end
       end.

Definition inbox_shape {A} : result string A :=
  Err "inbox file must contain an H1, one blank line, then a body".

Definition parse_inbox (bytes : string) : result string (string * string) :=
  let text := bytes_of bytes in
  if negb (valid_utf8 text) then not_utf8
  else if has_byte CR bytes then Err "inbox files must use LF line endings"
  else if negb (ends [LF] text) || ends [LF; LF] text
  then Err "inbox file must end in exactly one LF"
  else if contains_str "<!-- memphant" bytes then Err "inbox file must be footer-free"
  else match split_once [LF; LF] (take (length text - 1) text) with
       | None => inbox_shape
       | Some (heading, body) =>
           match strip_pat (bytes_of "# ") heading with
           | None => Err "inbox file must start with one H1 fact key"
           | Some key =>
               _ <-? require_single_line "inbox fact key" (string_of_bytes key);
               if negb (bool_decide (trim key = key))
               then Err "inbox fact key must not contain surrounding whitespace"
               else if starts_with [LF] body ||
                       match lines body with line :: _ => is_empty (trim line) | [] => false end
               then Err "inbox body must begin immediately after exactly one blank separator line"
               else if is_empty (trim body) then Err "inbox body must not be blank"
               else Ok (string_of_bytes key, string_of_bytes body)
           end
       end.

End plane.
