(* ===== verification/PlaneScan.v ===== *)
(** * PlaneScan: the tree of a projection and the plan it comes to

    From [crates/memphant-cli/src/file_plane.rs]: the scan of an edited tree
    into a plan ([scan_sync_handles]) and the verification of an export
    ([validate_export_handles]).  A directory is the answers its handle gives to
    the calls of [cap_std], whatever they are: an inspection of a tree that
    changes meanwhile is included.  Panics of [parse_unit] are [None]. *)

From S2P Require Import Prelude Text Types Float Clock Bitemporal Lineage Store Txn Stage Binding Reads.
From S2P Require Import Chunks Gate Rerank Structured Compile Mining Prepare Reflect Requests Verbs FileSync Tasks FileTool Plane.

(** ** Directories *)

(** What a handle answers: the metadata of a name without following links, a
    file opened without following links, the names of the directory ([None]
    for a name that is not UTF-8). *)
Module Inspected.
Inductive t : Set := NotFound | Failed (error : string) | Found (is_file is_symlink : bool).
End Inspected.

Record OpenFile : Set := mkOpenFile {
  of_metadata : result string (bool * N * FileIdentity);
  of_contents : result string string;
}.

Record Directory : Set := mkDirectory {
  dir_metadata : string → Inspected.t;
  dir_open : string → result string OpenFile;
  dir_entries : result string (list (result string (option string)));
}.

(** The three directories of a tree, whether their handles are still bound to
    their paths when an inspection starts and when it ends, and their
    identities. *)
Record TreeHandles : Set := mkTreeHandles {
  th_bound_before : result string ();
  th_root : Directory;
  th_units : Directory;
  th_inbox : Directory;
  th_bound_after : result string ();
  th_identities : list FileIdentity;
}.

Section scan.
Context `{Jiff} `{Sha256} `{UuidText} `{PlaneJson}.
Context `{Serialize (list CanonicalProjectionUnit)}.

(** ** Reading directories *)

Definition read_regular_at (dir : Directory) (name : string) (max_bytes : N)
    : result string (string * FileIdentity) :=
  file <-? map_err (λ error, "refusing symlink or unreadable file: " +:+ error) (dir_open dir name);
  metadata <-? of_metadata file;
  let '(is_file, len, identity) := metadata in
  if negb is_file then Err "expected a regular file"
  else if max_bytes <? len then Err ("file exceeds " +:+ show max_bytes +:+ " bytes")
  else
    bytes <-? of_contents file;
    if max_bytes <? str_len bytes then Err ("file exceeds " +:+ show max_bytes +:+ " bytes")
    else Ok (bytes, identity).

Fixpoint names_from (read : list string) (entries : list (result string (option string)))
    : result string (list string) :=
  match entries with
  | [] => Ok read
  | Err error :: _ => Err error
  | Ok None :: _ => Err "non-UTF-8 path is forbidden"
  | Ok (Some name) :: entries =>
      let read := read ++ [name] in
      if MAX_DIRECTORY_ENTRIES_READ <? N.of_nat (length read)
      then Err ("directory exceeds " +:+ show MAX_DIRECTORY_ENTRIES_READ +:+ " entries")
      else names_from read entries
  end.

Definition directory_names (directory : Directory) : result string (list string) :=
  entries <-? dir_entries directory;
  names <-? names_from [] entries;
  Ok (sort_by str_leb names).

(** The names, or none and a finding. *)
Definition names_or_finding (label : string) (directory : Directory) : list string * list string :=
  match directory_names directory with
  | Ok names => (names, [])
  | Err error => ([], [label +:+ ": " +:+ error])
  end.

Definition collect_name_mismatches (names : list string) (expected : gset string)
    (allow_regular_files : bool) (label : string) : list string :=
  flat_map (λ name, when (negb (seen name expected || allow_regular_files && is_safe_inbox_name name))
                      (label +:+ "/" +:+ name +:+ ": unexpected path")) names ++
  flat_map (λ name, when (negb (bool_decide (name ∈ names))) (label +:+ "/" +:+ name +:+ ": missing path"))
    (sort_by str_leb (elements expected)).

Definition root_names : gset string := {[MEMORY_FILE; MANIFEST_FILE; UNITS_DIR; INBOX_DIR]}.

Definition validate_footer (entry : ManifestEntry) (subject_generation : N) (footer : UnitFooter)
    : list string :=
  let expected := {|
    uf_unit_id := me_unit_id entry;
    uf_body_sha256 := me_body_sha256 entry;
    uf_subject_generation := subject_generation;
    uf_kind := me_kind entry;
    uf_fact_key := me_fact_key entry;
    uf_predicate := me_predicate entry;
    uf_confidence := me_confidence entry;
    uf_state := me_state entry;
    uf_valid_from := me_valid_from entry;
    uf_valid_to := me_valid_to entry;
    uf_source_span := me_source_span entry |} in
  when (negb (footer_eq footer expected)) (me_path entry +:+ ": footer metadata differs from manifest").

Definition projected_unit (entry : ManifestEntry) (unit_id : Uuid) (body : string)
    : CanonicalProjectionUnit := {|
  pj_unit_id := unit_id;
  pj_kind := me_kind entry;
  pj_fact_key := me_fact_key entry;
  pj_predicate := me_predicate entry;
  pj_body := body;
  pj_confidence := me_confidence entry;
  pj_valid_from := me_valid_from entry;
  pj_valid_to := me_valid_to entry;
  pj_body_sha256 := me_body_sha256 entry;
  pj_state := me_state entry;
  pj_source_span := me_source_span entry;
|}.

(** The manifest of a tree: [Err] ends the inspection, the findings do not. *)
Definition open_manifest (handles : TreeHandles)
    : result (list string) (string * FileIdentity * ExportManifest * list string) :=
  _ <-? map_err (λ error, [error]) (th_bound_before handles);
  read <-? map_err (λ error, [MANIFEST_FILE +:+ ": " +:+ error])
             (read_regular_at (th_root handles) MANIFEST_FILE MAX_MANIFEST_BYTES);
  let '(manifest_bytes, identity) := read in
  manifest <-? map_err (λ error, [MANIFEST_FILE +:+ ": invalid JSON: " +:+ error])
                 (read_manifest manifest_bytes);
  Ok (manifest_bytes, identity, manifest,
      validate_manifest_fields manifest ++
      match canonical_manifest_bytes manifest with
      | Ok canonical =>
          when (negb (bool_decide (canonical = manifest_bytes)))
            (MANIFEST_FILE +:+ ": bytes are not the canonical generated serialization")
      | Err error => [MANIFEST_FILE +:+ ": " +:+ error]
      end).

Definition bound_findings (handles : TreeHandles) : list string :=
  match th_bound_after handles with Ok _ => [] | Err error => [error] end.

(** ** The plan a tree comes to *)

Definition file_sync_metadata (entry : ManifestEntry) (unit_id : UnitId) : FileSyncUnitMetadata := {|
  fm_unit_id := unit_id;
  fm_kind := me_kind entry;
  fm_fact_key := me_fact_key entry;
  fm_predicate := me_predicate entry;
  fm_confidence := me_confidence entry;
  fm_valid_from := me_valid_from entry;
  fm_valid_to := me_valid_to entry;
  fm_body_sha256 := me_body_sha256 entry;
|}.

Record SyncScan : Set := mkSyncScan {
  sc_findings : list string;
  sc_managed : list (string * ManagedFileSnapshot);
  sc_operations : list FileSyncOperation.t;
  sc_expected : gset string;
  sc_fact_keys : gset string;
}.
#[global] Instance SyncScan_eta : Eta SyncScan := λ r,
  mkSyncScan (sc_findings r) (sc_managed r) (sc_operations r) (sc_expected r) (sc_fact_keys r).

Definition find_that (findings : list string) (scan : SyncScan) : SyncScan :=
  scan <| sc_findings ::= (λ before, before ++ findings) |>.

Definition planned (entry : ManifestEntry) (operation : FileSyncOperation.t) (scan : SyncScan) : SyncScan :=
  scan <| sc_operations ::= (λ before, before ++ [operation]) |>
       <| sc_fact_keys ::= (λ keys, match me_fact_key entry with
                                    | Some key => {[key]} ∪ keys
                                    | None => keys
                                    end) |>.

Definition managed (path bytes : string) (identity : FileIdentity) (scan : SyncScan) : SyncScan :=
  scan <| sc_managed ::= btree_insert path (mkManagedFile identity bytes) |>.

(** A unit file that was read and parsed. *)
Definition scan_parsed (generation : N) (entry : ManifestEntry) (base : FileSyncUnitMetadata)
    (bytes body : string) (footer : UnitFooter) (scan : SyncScan) : SyncScan :=
  let at_path finding := me_path entry +:+ ": " +:+ finding in
  let scan := find_that (validate_footer entry generation footer) scan in
  let scan :=
    match render_unit generation (projected_unit entry (fm_unit_id base) body) with
    | Ok expected =>
        find_that (when (negb (bool_decide (expected = bytes)))
                     (at_path "only the exact semantic body may change")) scan
    | Err error => find_that [at_path error] scan
    end in
  if negb (bool_decide (sha256_hex body = me_body_sha256 entry))
  then if trim_is_empty body then find_that [at_path "corrected body must not be blank"] scan
       else planned entry (FileSyncOperation.Correct base body) scan
  else find_that (when (negb (bool_decide (sha256_hex bytes = me_file_sha256 entry)))
                    (at_path "bytes differ without a semantic body change")) scan.

Definition scan_file (handles : TreeHandles) (generation : N) (entry : ManifestEntry) (unit_id : Uuid)
    (scan : SyncScan) : option SyncScan :=
  let at_path finding := me_path entry +:+ ": " +:+ finding in
  let name := me_unit_id entry +:+ ".md" in
  let base := file_sync_metadata entry unit_id in
  match dir_metadata (th_units handles) name with
  | Inspected.NotFound => Some (planned entry (FileSyncOperation.Forget base) scan)
  | Inspected.Failed error => Some (find_that [at_path ("cannot inspect: " +:+ error)] scan)
  | Inspected.Found is_file is_symlink =>
      if negb is_file || is_symlink
      then Some (find_that [at_path "expected a non-symlink regular file"] scan)
      else match read_regular_at (th_units handles) name MAX_MANAGED_FILE_BYTES with
           | Err error => Some (find_that [at_path error] scan)
           | Ok (bytes, identity) =>
               parsed ← parse_unit bytes;
               let scan := managed (me_path entry) bytes identity scan in
               Some match parsed with
                    | Err error => find_that [at_path error] scan
                    | Ok (body, footer) => scan_parsed generation entry base bytes body footer scan
                    end
           end
  end.

Definition misplaced (entry : ManifestEntry) : option string :=
  let expected := unit_path (me_unit_id entry) in
  if negb (bool_decide (me_path entry = expected)) || negb (is_safe_relative_unit_path (me_path entry))
  then Some (me_path entry +:+ ": path must be " +:+ expected) else None.

Definition scan_entry (handles : TreeHandles) (generation : N) (scan : SyncScan) (entry : ManifestEntry)
    : option SyncScan :=
  match misplaced entry with
  | Some finding => Some (find_that [finding] scan)
  | None =>
      let scan := scan <| sc_expected ::= union {[me_unit_id entry +:+ ".md"]} |> in
      match parse_uuid (bytes_of (me_unit_id entry)) with
      | None => Some scan
      | Some unit_id => scan_file handles generation entry unit_id scan
      end
  end.

Fixpoint scan_entries (handles : TreeHandles) (generation : N) (scan : SyncScan)
    (entries : list ManifestEntry) : option SyncScan :=
  match entries with
  | [] => Some scan
  | entry :: entries =>
      scan ← scan_entry handles generation scan entry;
      scan_entries handles generation scan entries
  end.

Record InboxScan : Set := mkInboxScan {
  ib_findings : list string;
  ib_files : list (string * ManagedFileSnapshot);
  ib_operations : list FileSyncOperation.t;
  ib_fact_keys : gset string;
}.
#[global] Instance InboxScan_eta : Eta InboxScan := λ r,
  mkInboxScan (ib_findings r) (ib_files r) (ib_operations r) (ib_fact_keys r).

(** What an inbox file says of a fact; a fact the manifest knows hands on its
    predicate and confidence, the last entry of the key. *)
Definition retained (manifest : ExportManifest) (fact_key body : string) : FileSyncOperation.t :=
  let inherited :=
    btree_get fact_key
      (btree_collect (omap (λ entry, key ← me_fact_key entry; Some (key, entry)) (em_entries manifest))) in
  FileSyncOperation.Retain fact_key (default "states" (entry ← inherited; me_predicate entry)) body
    (default f32_one (entry ← inherited; me_confidence entry)) None None.

Definition scan_inbox_file (handles : TreeHandles) (manifest : ExportManifest) (taken : gset string)
    (scan : InboxScan) (name : string) : InboxScan :=
  let path := INBOX_DIR +:+ "/" +:+ name in
  let found finding scan := scan <| ib_findings ::= (λ before, before ++ [path +:+ ": " +:+ finding]) |> in
  if negb (is_safe_inbox_name name) then found "unexpected or reserved path" scan
  else match read_regular_at (th_inbox handles) name MAX_MANAGED_FILE_BYTES with
       | Err error => found error scan
       | Ok (bytes, identity) =>
           let scan := scan <| ib_files ::= btree_insert path (mkManagedFile identity bytes) |> in
           match parse_inbox bytes with
           | Err error => found error scan
           | Ok (fact_key, body) =>
               if seen fact_key (ib_fact_keys scan)
               then found ("duplicate inbox fact_key " +:+ fact_key) scan
               else
                 let scan := scan <| ib_fact_keys ::= union {[fact_key]} |> in
                 if seen fact_key taken
                 then found ("fact_key " +:+ fact_key +:+
                             " is already corrected or forgotten by this plan") scan
                 else scan <| ib_operations ::= (λ before, before ++ [retained manifest fact_key body]) |>
           end
       end.

(** What is found of the index, and the index when it could be read. *)
Definition scan_memory (handles : TreeHandles) (manifest : ExportManifest)
    : list string * option (string * FileIdentity) :=
  match read_regular_at (th_root handles) MEMORY_FILE MAX_MANAGED_FILE_BYTES with
  | Err error => ([MEMORY_FILE +:+ ": " +:+ error], None)
  | Ok (bytes, identity) =>
      let rendered :=
        (λ scope, render_memory scope (em_snapshot_sha256 manifest) (em_entries manifest)) <$>
        parse_uuid (bytes_of (em_scope_id manifest)) in
      (when (negb (bool_decide (sha256_hex bytes = em_memory_sha256 manifest)) ||
             negb (bool_decide (rendered = Some bytes)))
         (MEMORY_FILE +:+ ": immutable generated index differs from manifest"),
       Some (bytes, identity))
  end.

Definition scan_sync_handles (handles : TreeHandles) : option (result (list string) SyncSnapshot) :=
  match open_manifest handles with
  | Err findings => Some (Err findings)
  | Ok (manifest_bytes, manifest_identity, manifest, findings) =>
      let '(memory_findings, memory) := scan_memory handles manifest in
      let managed_files := [(MANIFEST_FILE, mkManagedFile manifest_identity manifest_bytes)] in
      let managed_files :=
        match memory with
        | Some (bytes, identity) => btree_insert MEMORY_FILE (mkManagedFile identity bytes) managed_files
        | None => managed_files
        end in
      scan ← scan_entries handles (em_subject_generation manifest)
               (mkSyncScan (findings ++ memory_findings) managed_files [] ∅ ∅) (em_entries manifest);
      let '(units_names, units_findings) := names_or_finding UNITS_DIR (th_units handles) in
      let unexpected :=
        flat_map (λ name, when (negb (seen name (sc_expected scan)))
                            (UNITS_DIR +:+ "/" +:+ name +:+ ": unexpected path")) units_names in
      let '(inbox_names, inbox_findings) := names_or_finding INBOX_DIR (th_inbox handles) in
      let inbox := foldl (scan_inbox_file handles manifest (sc_fact_keys scan))
                     (mkInboxScan [] [] [] ∅) inbox_names in
      let '(names, root_findings) := names_or_finding "output root" (th_root handles) in
      let findings :=
        sc_findings scan ++ units_findings ++ unexpected ++ inbox_findings ++ ib_findings inbox ++
        root_findings ++ collect_name_mismatches names root_names false "." ++ bound_findings handles in
      Some (if is_empty findings
            then Ok {| sy_manifest := manifest;
                       sy_managed_files := sc_managed scan;
                       sy_inbox_files := ib_files inbox;
                       sy_operations := sc_operations scan ++ ib_operations inbox |}
            else Err (sorted_findings findings))
  end.

(** ** Verifying an export *)

(** [to_be_bytes] of a [u64]. *)
Definition be_string (n : N) : string := string_of_bytes (be_bytes n).

Definition tree_snapshot_sha256 (handles : TreeHandles) (root units inbox : list string)
    (manifest memory : string) (unit_bytes : list (string * string)) : string :=
  let named '(label, names) :=
    label +:+ String.concat String.EmptyString
                (map (λ name, be_string (str_len name) +:+ name) names) in
  let filed '(name, bytes) := name +:+ be_string (str_len bytes) +:+ bytes in
  sha256_hex (String.concat String.EmptyString
    (map (λ identity, be_string (fi_device identity) +:+ be_string (fi_inode identity))
       (th_identities handles) ++
     map named [("root", root); ("units", units); ("inbox", inbox)] ++
     map filed ([(MANIFEST_FILE, manifest); (MEMORY_FILE, memory)] ++ unit_bytes))).

Record ExportScan : Set := mkExportScan {
  ex_findings : list string;
  ex_managed : list (string * ManagedFileSnapshot);
  ex_expected : gset string;
  ex_items : list CanonicalProjectionUnit;
  ex_units : list (string * string);
}.
#[global] Instance ExportScan_eta : Eta ExportScan := λ r,
  mkExportScan (ex_findings r) (ex_managed r) (ex_expected r) (ex_items r) (ex_units r).

Definition export_found (findings : list string) (scan : ExportScan) : ExportScan :=
  scan <| ex_findings ::= (λ before, before ++ findings) |>.

Definition validate_export_entry (handles : TreeHandles) (generation : N) (scan : ExportScan)
    (entry : ManifestEntry) : option ExportScan :=
  let at_path finding := me_path entry +:+ ": " +:+ finding in
  match misplaced entry with
  | Some finding => Some (export_found [finding] scan)
  | None =>
      let name := me_unit_id entry +:+ ".md" in
      let scan := scan <| ex_expected ::= union {[name]} |> in
      match read_regular_at (th_units handles) name MAX_MANAGED_FILE_BYTES with
      | Err error => Some (export_found [at_path error] scan)
      | Ok (bytes, identity) =>
          parsed ← parse_unit bytes;
          let scan :=
            scan <| ex_managed ::= btree_insert (me_path entry) (mkManagedFile identity bytes) |>
                 <| ex_units ::= btree_insert name bytes |> in
          let scan :=
            export_found (when (negb (bool_decide (sha256_hex bytes = me_file_sha256 entry)))
                            (at_path "file hash differs from manifest")) scan in
          Some match parsed with
               | Err error => export_found [at_path error] scan
               | Ok (body, footer) =>
                   let scan := export_found (validate_footer entry generation footer) scan in
                   let scan :=
                     export_found (when (negb (bool_decide (sha256_hex body = me_body_sha256 entry)))
                                     (at_path "body hash differs from manifest")) scan in
                   match parse_uuid (bytes_of (me_unit_id entry)) with
                   | Some unit_id =>
                       scan <| ex_items ::= (λ items, items ++ [projected_unit entry unit_id body]) |>
                   | None => scan
                   end
               end
      end
  end.

Fixpoint validate_export_entries (handles : TreeHandles) (generation : N) (scan : ExportScan)
    (entries : list ManifestEntry) : option ExportScan :=
  match entries with
  | [] => Some scan
  | entry :: entries =>
      scan ← validate_export_entry handles generation scan entry;
      validate_export_entries handles generation scan entries
  end.

Definition inbox_readable (handles : TreeHandles) (name : string) : list string :=
  if is_safe_inbox_name name
  then match read_regular_at (th_inbox handles) name MAX_MANAGED_FILE_BYTES with
       | Err error => [INBOX_DIR +:+ "/" +:+ name +:+ ": " +:+ error]
       | Ok _ => []
       end
  else [].

(** What the index and the fingerprint of an export say. *)
Definition export_agrees (manifest : ExportManifest) (memory_bytes : string)
    (items : list CanonicalProjectionUnit) : list string :=
  match parse_uuid (bytes_of (em_scope_id manifest)) with
  | Some scope_id =>
      when (negb (bool_decide (memory_bytes =
                    render_memory scope_id (em_snapshot_sha256 manifest) (em_entries manifest))))
        (MEMORY_FILE +:+ ": content does not match the canonical manifest index")
  | None => []
  end ++
  if (length items =? length (em_entries manifest))%nat
  then match canonical_projection_fingerprint items with
       | Ok actual =>
           when (negb (bool_decide (actual = em_snapshot_sha256 manifest)))
             ("snapshot_sha256: canonical entries hash to " +:+ actual +:+ ", not " +:+
              em_snapshot_sha256 manifest)
       | Err error => ["snapshot_sha256: cannot fingerprint: " +:+ service_error_text error]
       end
  else [].

Definition validate_export_handles (handles : TreeHandles) (allow_inbox_files : bool)
    : option (result (list string) (ExportManifest * string * list (string * ManagedFileSnapshot))) :=
  match open_manifest handles with
  | Err findings => Some (Err findings)
  | Ok (manifest_bytes, manifest_identity, manifest, findings) =>
      let managed_files := [(MANIFEST_FILE, mkManagedFile manifest_identity manifest_bytes)] in
      let '(memory_bytes, memory_findings, managed_files) :=
        match read_regular_at (th_root handles) MEMORY_FILE MAX_MANAGED_FILE_BYTES with
        | Ok (bytes, identity) =>
            (bytes, [], btree_insert MEMORY_FILE (mkManagedFile identity bytes) managed_files)
        | Err error => (String.EmptyString, [MEMORY_FILE +:+ ": " +:+ error], managed_files)
        end in
      let hash_findings :=
        when (negb (bool_decide (sha256_hex memory_bytes = em_memory_sha256 manifest)))
          (MEMORY_FILE +:+ ": content hash differs from manifest") in
      scan ← validate_export_entries handles (em_subject_generation manifest)
               (mkExportScan (findings ++ memory_findings ++ hash_findings) managed_files ∅ [] [])
               (em_entries manifest);
      let '(units_names, units_findings) := names_or_finding UNITS_DIR (th_units handles) in
      let '(inbox_names, inbox_findings) := names_or_finding INBOX_DIR (th_inbox handles) in
      let '(names, root_findings) := names_or_finding "output root" (th_root handles) in
      let findings :=
        ex_findings scan ++ units_findings ++
        collect_name_mismatches units_names (ex_expected scan) false UNITS_DIR ++
        inbox_findings ++ collect_name_mismatches inbox_names ∅ allow_inbox_files INBOX_DIR ++
        (if allow_inbox_files then flat_map (inbox_readable handles) inbox_names else []) ++
        root_findings ++ collect_name_mismatches names root_names false "." ++
        export_agrees manifest memory_bytes (ex_items scan) ++ bound_findings handles in
      Some (if is_empty findings
            then Ok (manifest,
                     tree_snapshot_sha256 handles names units_names inbox_names manifest_bytes
                       memory_bytes (ex_units scan),
                     ex_managed scan)
            else Err (sorted_findings findings))
  end.

End scan.
