(* ===== verification/PlaneSync.v ===== *)
(** * PlaneSync: the compile and sync commands

    From [crates/memphant-cli/src/file_plane.rs]: arguments, requests to the
    server and what their answers mean, and the commands [compile] and [sync]
    from the tree to the outcome.  The answers of the server, the tree each time
    it is looked at, and the installation of rendered files (with its recovery
    areas) are arguments; [None] is a panic. *)

From S2P Require Import Prelude Text Types Float Clock Bitemporal Lineage Store Txn Stage Binding Reads.
From S2P Require Import Chunks Gate Rerank Structured Compile Mining Prepare Reflect Requests Verbs FileSync Tasks FileTool Plane PlaneScan.

(** ** Requests and answers *)

(** The environment variables: [None] when unset or, for the first two, not
    UTF-8; a timeout that is not UTF-8 is [Some None]. *)
Record Environment : Set := mkEnvironment {
  MEMPHANT_URL : option string;
  MEMPHANT_API_KEY : option string;
  MEMPHANT_HTTP_TIMEOUT_MS : option (option string);
}.

(** A response: its status, the [code] and [message] of an error body, and the
    body as JSON of the type that is read. *)
Record HttpResponse (A : Type) : Type := mkResponse {
  hr_status : N;
  hr_code : option string;
  hr_message : option string;
  hr_body : result string A;
}.
#[global] Arguments hr_status {A} _. #[global] Arguments hr_code {A} _.
#[global] Arguments hr_message {A} _. #[global] Arguments hr_body {A} _.

Section commands.
Context `{Jiff} `{Sha256} `{UuidText} `{PlaneJson}.
Context `{Serialize (list CanonicalProjectionUnit)}.
Context `{Serialize (list FileSyncOperation.t)} `{Serialize FileSyncRequest}.

(** ** Agreement of tree, arguments and server *)

Definition context_mismatch (field expected actual : string) : string :=
  field +:+ " expected=" +:+ expected +:+ " actual=" +:+ actual.

Definition unless_none (findings : list string) : result (list string) () :=
  if is_empty findings then Ok () else Err findings.

Definition validate_manifest_binding (manifest : ExportManifest) (args : CompileArgs)
    : result (list string) () :=
  unless_none
    (flat_map (λ '(field, actual, expected),
                 when (negb (bool_decide (actual = uuid_string expected)))
                   ("manifest context mismatch: " +:+ context_mismatch field (uuid_string expected) actual))
       [("subject_id", em_subject_id manifest, ca_subject_id args);
        ("actor_id", em_actor_id manifest, ca_actor_id args);
        ("scope_id", em_scope_id manifest, ca_scope_id args);
        ("agent_node_id", em_agent_node_id manifest, ca_agent_node_id args)] ++
     when (negb (em_subject_generation manifest =? ca_subject_generation args))
       ("manifest context mismatch: " +:+
        context_mismatch "subject_generation" (show (ca_subject_generation args))
          (show (em_subject_generation manifest)))).

Definition validate_manifest_response_context (manifest : ExportManifest)
    (response : CanonicalProjectionResponse) : result (list string) () :=
  unless_none
    (flat_map (λ '(field, actual, expected),
                 when (negb (bool_decide (actual = uuid_string expected)))
                   ("server context differs from manifest: " +:+
                    context_mismatch field actual (uuid_string expected)))
       [("tenant_id", em_tenant_id manifest, cpr_tenant_id response);
        ("subject_id", em_subject_id manifest, cpr_subject_id response);
        ("actor_id", em_actor_id manifest, cpr_actor_id response);
        ("scope_id", em_scope_id manifest, cpr_scope_id response);
        ("agent_node_id", em_agent_node_id manifest, cpr_agent_node_id response)]).

Definition require_binding (field : string) (actual expected : Uuid) : result string () :=
  if actual =? expected then Ok ()
  else Err ("projection context mismatch: " +:+
            context_mismatch field (uuid_string expected) (uuid_string actual)).

Definition validate_response_binding (response : CanonicalProjectionResponse) (args : CompileArgs)
    : result string () :=
  _ <-? require_binding "subject_id" (cpr_subject_id response) (ca_subject_id args);
  _ <-? require_binding "actor_id" (cpr_actor_id response) (ca_actor_id args);
  _ <-? require_binding "scope_id" (cpr_scope_id response) (ca_scope_id args);
  _ <-? require_binding "agent_node_id" (cpr_agent_node_id response) (ca_agent_node_id args);
  _ <-? (if cpr_subject_generation response =? ca_subject_generation args then Ok ()
         else Err ("projection context mismatch: " +:+
                   context_mismatch "subject_generation" (show (ca_subject_generation args))
                     (show (cpr_subject_generation response))));
  _ <-? require_rfc3339_utc "projection evaluated_at" (cpr_evaluated_at response);
  _ <-? require_sha256 "projection fingerprint" (cpr_fingerprint response);
  actual <-? map_err (λ error, "cannot fingerprint projection response: " +:+ service_error_text error)
               (canonical_projection_fingerprint (cpr_items response));
  if bool_decide (cpr_fingerprint response = actual) then Ok ()
  else Err ("projection fingerprint mismatch: expected=" +:+ cpr_fingerprint response +:+
            " actual=" +:+ actual).

Definition validate_sync_base (manifest : ExportManifest) (projection : CanonicalProjectionResponse)
    : result SyncFailure.t () :=
  _ <-? map_err SyncFailure.Invalid (validate_manifest_response_context manifest projection);
  if negb (bool_decide (em_snapshot_sha256 manifest = cpr_fingerprint projection))
  then Err (SyncFailure.Conflict ("manifest base " +:+ em_snapshot_sha256 manifest +:+
              " no longer matches canonical projection " +:+ cpr_fingerprint projection))
  else
    canonical <-? map_err (λ error, SyncFailure.Invalid
                    ["canonical base projection cannot be rendered: " +:+ error])
                    (render_projection projection);
    if manifest_eq manifest (rp_manifest canonical) then Ok ()
    else Err (SyncFailure.Invalid ["manifest differs from the complete canonical base projection"]).

Definition sync_plan (snapshot : SyncSnapshot) : result string SyncPlan :=
  plan_sha256 <-? file_sync_plan_sha256 (sy_operations snapshot);
  let manifest := sy_manifest snapshot in
  Ok {| sp_schema_version := SCHEMA_VERSION;
        sp_subject_id := em_subject_id manifest;
        sp_scope_id := em_scope_id manifest;
        sp_actor_id := em_actor_id manifest;
        sp_agent_node_id := em_agent_node_id manifest;
        sp_subject_generation := em_subject_generation manifest;
        sp_base_fingerprint := em_snapshot_sha256 manifest;
        sp_plan_sha256 := plan_sha256;
        sp_operations := sy_operations snapshot;
        sp_destructive :=
          omap (λ operation, match operation with
                             | FileSyncOperation.Forget base => Some ("forget:" +:+ uuid_string (fm_unit_id base))
                             | _ => None
                             end) (sy_operations snapshot);
        sp_consumed_inbox := (sy_inbox_files snapshot).*1 |}.

Definition encode_file_sync_request (request : FileSyncRequest) : result SyncFailure.t string :=
  encoded <-? map_err (λ error, SyncFailure.Error ("cannot encode file-sync request: " +:+ error))
                (to_vec request);
  if MAX_FILE_SYNC_REQUEST_ENCODED_BYTES <? str_len encoded
  then Err (SyncFailure.Invalid
              ["file-sync request is " +:+ show (str_len encoded) +:+ " bytes and exceeds the " +:+
               show MAX_FILE_SYNC_REQUEST_ENCODED_BYTES +:+ " byte limit"])
  else Ok encoded.

(** Marks the identifiers as created; [None] when one already was. *)
Fixpoint take_created (created : gset Uuid) (ids : list UnitId) : option (gset Uuid) :=
  match ids with
  | [] => Some created
  | id :: ids => if bool_decide (id ∈ created) then None else take_created ({[id]} ∪ created) ids
  end.

Definition receipt_matches (created : gset Uuid)
    (operation_and_result : FileSyncOperation.t * FileSyncOperationResult.t) : option (gset Uuid) :=
  match operation_and_result with
  | (FileSyncOperation.Correct base _, FileSyncOperationResult.Correct id ids) =>
      if is_empty ids then None
      else taken ← take_created created ids;
           if fm_unit_id base =? id then Some taken else None
  | (FileSyncOperation.Retain _ _ _ _ _ _, FileSyncOperationResult.Retain ids) =>
      if is_empty ids then None else take_created created ids
  | (FileSyncOperation.Forget base, FileSyncOperationResult.Forget id _ _) =>
      if fm_unit_id base =? id then Some created else None
  | _ => None
  end.

Fixpoint receipts_match (created : gset Uuid)
    (pairs : list (FileSyncOperation.t * FileSyncOperationResult.t)) : bool :=
  match pairs with
  | [] => true
  | first :: pairs =>
      match receipt_matches created first with
      | Some created => receipts_match created pairs
      | None => false
      end
  end.

Definition validate_sync_receipt (request : FileSyncRequest) (receipt : FileSyncResult)
    : result string () :=
  if negb (bool_decide (fsr_base_fingerprint receipt = fs_base_fingerprint request)) ||
     negb (bool_decide (fsr_plan_sha256 receipt = fs_plan_sha256 request)) ||
     negb (length (fsr_operations receipt) =? length (fs_operations request))%nat
  then Err "committed receipt does not match the submitted batch"
  else
    _ <-? require_sha256 "receipt fingerprint" (fsr_fingerprint receipt);
    _ <-? require_rfc3339_utc "committed receipt evaluated_at" (fsr_evaluated_at receipt);
    if receipts_match ∅ (zip (fs_operations request) (fsr_operations receipt)) then Ok ()
    else Err "committed receipt operation variants do not match the plan".

(** ** Requests to the server *)

Definition base_url (environment : Environment) : string :=
  let url :=
    match MEMPHANT_URL environment with
    | Some url => if trim_is_empty url then DEFAULT_URL else url
    | None => DEFAULT_URL
    end in
  string_of_bytes (trim_end_bytes (λ b, b =? slash) (bytes_of url)).

Definition authorization (environment : Environment) : option string :=
  key ← MEMPHANT_API_KEY environment;
  if is_empty (bytes_of key) then None else Some ("Bearer " +:+ key).

(** The timeout of a request in milliseconds. *)
Definition http_agent (environment : Environment) : result string N :=
  timeout_ms <-?
    match MEMPHANT_HTTP_TIMEOUT_MS environment with
    | Some None => Err "MEMPHANT_HTTP_TIMEOUT_MS must be valid UTF-8"
    | Some (Some value) => map_err (λ _, "MEMPHANT_HTTP_TIMEOUT_MS must be an integer number of milliseconds")
                      (parse_u64 value)
    | None => Ok DEFAULT_HTTP_TIMEOUT_MS
    end;
  if (1 <=? timeout_ms) && (timeout_ms <=? MAX_HTTP_TIMEOUT_MS) then Ok timeout_ms
  else Err ("MEMPHANT_HTTP_TIMEOUT_MS must be between 1 and " +:+ show MAX_HTTP_TIMEOUT_MS +:+ " milliseconds").

Definition projection_url (environment : Environment) (args : CompileArgs) : string :=
  base_url environment +:+ "/v1/scopes/" +:+ uuid_string (ca_scope_id args) +:+
  "/projection?subject_id=" +:+ uuid_string (ca_subject_id args) +:+
  "&actor_id=" +:+ uuid_string (ca_actor_id args) +:+
  "&agent_node_id=" +:+ uuid_string (ca_agent_node_id args) +:+
  "&subject_generation=" +:+ show (ca_subject_generation args).

(** [get] sends a request to a URL with an authorization and a timeout. *)
Definition fetch_projection (environment : Environment)
    (get : string → option string → N → result string (HttpResponse CanonicalProjectionResponse))
    (args : CompileArgs) : result ProjectionFetchFailure.t CanonicalProjectionResponse :=
  timeout_ms <-? map_err ProjectionFetchFailure.Invalid (http_agent environment);
  response <-? map_err (λ error, ProjectionFetchFailure.Unavailable
                         ("projection request unavailable: " +:+ error))
                 (get (projection_url environment args) (authorization environment) timeout_ms);
  let status := hr_status response in
  if negb (status =? 200) then
    let code := default "remote_error" (hr_code response) in
    if 500 <=? status
    then Err (ProjectionFetchFailure.Unavailable
                ("projection request unavailable: status=" +:+ show status +:+ " code=" +:+ code))
    else Err (ProjectionFetchFailure.Status status code)
  else map_err (λ error, ProjectionFetchFailure.Invalid
                 ("projection response was not valid JSON: " +:+ error)) (hr_body response).

Definition fetch_failure_text (error : ProjectionFetchFailure.t) : string :=
  match error with
  | ProjectionFetchFailure.Unavailable error | ProjectionFetchFailure.Invalid error => error
  | ProjectionFetchFailure.Status status code =>
      "projection request failed: status=" +:+ show status +:+ " code=" +:+ code
  end.

Definition classify_projection_failure (error : ProjectionFetchFailure.t) : SyncFailure.t :=
  match error with
  | ProjectionFetchFailure.Unavailable error => SyncFailure.Unavailable error
  | ProjectionFetchFailure.Status status code =>
      SyncFailure.Error ("projection request failed: status=" +:+ show status +:+ " code=" +:+ code)
  | ProjectionFetchFailure.Invalid error => SyncFailure.Error error
  end.

(** What is known of a plan once its request was answered, or was not. *)
Definition sync_answer (request : FileSyncRequest) (answer : result string (HttpResponse FileSyncResult))
    : result SyncFailure.t FileSyncResult :=
  response <-? map_err (λ error, SyncFailure.OutcomeUnknown
                         ("file-sync transport failed for plan " +:+ fs_plan_sha256 request +:+ ": " +:+ error))
                 answer;
  let status := hr_status response in
  if status =? 200
  then map_err (λ error, SyncFailure.OutcomeUnknown
                 ("file-sync returned 200 with an invalid receipt for plan " +:+
                  fs_plan_sha256 request +:+ ": " +:+ error)) (hr_body response)
  else
    let code := default "remote_error" (hr_code response) in
    let message := default "file-sync request failed" (hr_message response) in
    Err (if (200 <=? status) && (status <? 300)
         then SyncFailure.OutcomeUnknown
                ("file-sync returned non-contract success status=" +:+ show status +:+
                 " plan=" +:+ fs_plan_sha256 request)
         else if String.eqb code "sync_conflict" then SyncFailure.Conflict message
         else if String.eqb code "sync_invalid" then SyncFailure.Invalid [message]
         else if 500 <=? status
         then SyncFailure.OutcomeUnknown
                ("file-sync server failed after dispatch: status=" +:+ show status +:+
                 " code=" +:+ code +:+ " plan=" +:+ fs_plan_sha256 request)
         else SyncFailure.Error
                ("file-sync request failed: status=" +:+ show status +:+ " code=" +:+ code)).

(** A request that was sent. *)
Record Posted : Set := mkPosted {
  po_url : string;
  po_idempotency_key : string;
  po_authorization : option string;
  po_timeout_ms : N;
  po_encoded : string;
}.

Definition post_file_sync (environment : Environment)
    (post : Posted → result string (HttpResponse FileSyncResult))
    (request : FileSyncRequest) (encoded idempotency_key : string)
    : option Posted * result SyncFailure.t FileSyncResult :=
  match http_agent environment with
  | Err error => (None, Err (SyncFailure.Error error))
  | Ok timeout_ms =>
      let posted := {|
        po_url := base_url environment +:+ "/v1/file-sync";
        po_idempotency_key := idempotency_key;
        po_authorization := authorization environment;
        po_timeout_ms := timeout_ms;
        po_encoded := encoded |} in
      (Some posted, sync_answer request (post posted))
  end.

(** ** The commands *)

(** [parse_context_args]: pairs of a flag and its value. *)
Definition context_flags : list string :=
  ["subject-id"; "scope"; "actor"; "agent-node"; "subject-generation"; "out"].

Fixpoint parse_flags (flags : list (string * string)) (args : list string)
    : result string (list (string * string)) :=
  match args with
  | [] => Ok flags
  | flag :: rest =>
      match strip_prefix_str "--" flag with
      | None => Err ("unexpected positional argument " +:+ flag)
      | Some name =>
          match rest with
          | value :: args =>
              if begins "--" value then Err ("missing value for --" +:+ name)
              else if negb (bool_decide (name ∈ context_flags)) then Err ("unknown flag --" +:+ name)
              else if bool_decide (is_Some (btree_get name flags)) then Err ("duplicate flag --" +:+ name)
              else parse_flags (btree_insert name value flags) args
          | [] => Err ("missing value for --" +:+ name)
          end
      end
  end.

Definition required (flags : list (string * string)) (name : string) : result string string :=
  ok_or (btree_get name flags) ("missing required flag --" +:+ name).
Definition required_uuid (flags : list (string * string)) (name : string) : result string Uuid :=
  value <-? required flags name;
  ok_or (parse_uuid (bytes_of value)) ("--" +:+ name +:+ " must be a canonical UUID").

Definition parse_context_args (args : list string) : result string CompileArgs :=
  flags <-? parse_flags [] args;
  subject_id <-? required_uuid flags "subject-id";
  scope_id <-? required_uuid flags "scope";
  actor_id <-? required_uuid flags "actor";
  agent_node_id <-? required_uuid flags "agent-node";
  generation <-? required flags "subject-generation";
  subject_generation <-? map_err (λ error, "--subject-generation: " +:+ error) (parse_u64 generation);
  out <-? required flags "out";
  Ok {| ca_subject_id := subject_id; ca_scope_id := scope_id; ca_actor_id := actor_id;
        ca_agent_node_id := agent_node_id; ca_subject_generation := subject_generation; ca_out := out |}.

Fixpoint split_apply (context : list string) (apply : bool) (args : list string)
    : result string (list string * bool) :=
  match args with
  | [] => Ok (context, apply)
  | arg :: rest =>
      if String.eqb arg "--apply"
      then if apply then Err "duplicate flag --apply" else split_apply context true rest
      else match rest with
           | value :: rest => split_apply (context ++ [arg; value]) apply rest
           | [] => Err ("missing value for " +:+ arg)
           end
  end.

Definition parse_sync_args (args : list string) : result string SyncArgs :=
  split <-? split_apply [] false args;
  context <-? parse_context_args (fst split);
  Ok {| sa_context := context; sa_apply := snd split |}.

Definition post_commit_failure (receipt : FileSyncResult) (error : string) : SyncFailure.t :=
  SyncFailure.PostCommit ("committed_snapshot=" +:+ fsr_fingerprint receipt +:+ "; " +:+ error).

Definition display_sync_failure (error : SyncFailure.t) : string :=
  match error with
  | SyncFailure.Invalid findings => joined "; " findings
  | SyncFailure.Conflict error | SyncFailure.Unavailable error | SyncFailure.OutcomeUnknown error
  | SyncFailure.PostCommit error | SyncFailure.Error error => error
  end.

Definition revalidate_sync_state (snapshot : SyncSnapshot) (now : TreeHandles)
    : option (result SyncFailure.t ()) :=
  scanned ← scan_sync_handles now;
  Some match scanned with
       | Err findings => Err (SyncFailure.Invalid findings)
       | Ok current =>
           if snapshot_eq current snapshot then Ok ()
           else Err (SyncFailure.Invalid
                       ["local projection changed during sync; rerun sync from the new tree"])
       end.

Inductive SyncRun : Set :=
| Planned (plan : SyncPlan)
| Noop (plan : SyncPlan)
| Applied (scope_id : Uuid) (plan_sha256 committed_fingerprint final_fingerprint : string)
    (operations : nat) (created : list string) (recovery : option string).

(** What a [sync] meets, in the order of its calls: the tree when it is opened,
    the server, the tree each of the three times it is looked at again, the
    fresh identifier of the key, and the installation of the rendered files. *)
Record SyncWorld : Type := mkSyncWorld {
  sw_environment : Environment;
  sw_opened : result string TreeHandles;
  sw_get : string → option string → N → result string (HttpResponse CanonicalProjectionResponse);
  sw_planned_on : TreeHandles;
  sw_applied_on : TreeHandles;
  sw_nonce : Uuid;
  sw_post : Posted → result string (HttpResponse FileSyncResult);
  sw_get_final : string → option string → N → result string (HttpResponse CanonicalProjectionResponse);
  sw_committed_on : TreeHandles;
  sw_install : SyncSnapshot → RenderedProjection → result string (option string);
}.

Definition created_units (receipt : FileSyncResult) : list string :=
  flat_map (λ operation, match operation with
                         | FileSyncOperationResult.Correct _ created
                         | FileSyncOperationResult.Retain created => map uuid_string created
                         | FileSyncOperationResult.Forget _ _ _ => []
                         end) (fsr_operations receipt).

Definition sync_request (projection : CanonicalProjectionResponse) (plan : SyncPlan) : FileSyncRequest := {|
  fs_identity := {|
    id_subject_id := cpr_subject_id projection;
    id_scope_id := cpr_scope_id projection;
    id_actor_id := cpr_actor_id projection;
    id_agent_node_id := cpr_agent_node_id projection;
    id_subject_generation := cpr_subject_generation projection |};
  fs_base_fingerprint := sp_base_fingerprint plan;
  fs_plan_sha256 := sp_plan_sha256 plan;
  fs_observed_at := cpr_evaluated_at projection;
  fs_operations := sp_operations plan;
|}.

(** The plan of [sync], before anything is sent: the snapshot of the tree, the
    plan, the request and its encoding. *)
Definition prepare_sync (world : SyncWorld) (args : SyncArgs)
    : option (result SyncFailure.t (SyncSnapshot * SyncPlan * FileSyncRequest * string)) :=
  match map_err (λ error, SyncFailure.Invalid ["output root: " +:+ error]) (sw_opened world) with
  | Err error => Some (Err error)
  | Ok opened =>
      scanned ← scan_sync_handles opened;
      match (snapshot <-? map_err SyncFailure.Invalid scanned;
             _ <-? map_err SyncFailure.Invalid
                     (validate_manifest_binding (sy_manifest snapshot) (sa_context args));
             projection <-? map_err classify_projection_failure
                              (fetch_projection (sw_environment world) (sw_get world) (sa_context args));
             _ <-? map_err (λ error, SyncFailure.Invalid [error])
                     (validate_response_binding projection (sa_context args));
             _ <-? validate_sync_base (sy_manifest snapshot) projection;
             Ok (snapshot, projection)) with
      | Err error => Some (Err error)
      | Ok (snapshot, projection) =>
          revalidated ← revalidate_sync_state snapshot (sw_planned_on world);
          Some (_ <-? revalidated;
                plan <-? map_err SyncFailure.Error (sync_plan snapshot);
                let request := sync_request projection plan in
                encoded <-? encode_file_sync_request request;
                Ok (snapshot, plan, request, encoded))
      end
  end.

(** From the receipt of a commit to the files. *)
Definition finish_sync (world : SyncWorld) (args : SyncArgs) (snapshot : SyncSnapshot) (plan : SyncPlan)
    (receipt : FileSyncResult) : option (result SyncFailure.t SyncRun) :=
  match (final <-? map_err (λ error, post_commit_failure receipt (fetch_failure_text error))
                     (fetch_projection (sw_environment world) (sw_get_final world) (sa_context args));
         _ <-? map_err (post_commit_failure receipt) (validate_response_binding final (sa_context args));
         Ok final) with
  | Err error => Some (Err error)
  | Ok final =>
      revalidated ← revalidate_sync_state snapshot (sw_committed_on world);
      Some (_ <-? map_err (λ error, post_commit_failure receipt
                            ("local projection changed while the committed batch was in flight: " +:+
                             display_sync_failure error)) revalidated;
            rendered <-? map_err (post_commit_failure receipt) (render_projection final);
            recovery <-? map_err (λ error, post_commit_failure receipt
                                    ("local projection update failed: " +:+ error))
                           (sw_install world snapshot rendered);
            Ok (Applied (ca_scope_id (sa_context args)) (sp_plan_sha256 plan) (fsr_fingerprint receipt)
                  (cpr_fingerprint final) (length (fsr_operations receipt)) (created_units receipt)
                  recovery))
  end.

Definition sync_key (world : SyncWorld) (plan : SyncPlan) : string :=
  "file-sync:" +:+ sp_plan_sha256 plan +:+ ":" +:+ uuid_string (sw_nonce world).

(** The request that was sent, if one was, and the outcome; [None] is a panic. *)
Definition apply_sync (world : SyncWorld) (args : SyncArgs) (snapshot : SyncSnapshot) (plan : SyncPlan)
    (request : FileSyncRequest) (encoded : string) : option Posted * option (result SyncFailure.t SyncRun) :=
  match revalidate_sync_state snapshot (sw_applied_on world) with
  | None => (None, None)
  | Some (Err error) => (None, Some (Err error))
  | Some (Ok _) =>
      let '(posted, answer) :=
        post_file_sync (sw_environment world) (sw_post world) request encoded (sync_key world plan) in
      (posted,
       match (receipt <-? answer;
              _ <-? map_err (λ error, SyncFailure.OutcomeUnknown
                              ("file-sync returned 200 but the receipt did not prove commit for plan " +:+
                               fs_plan_sha256 request +:+ ": " +:+ error))
                      (validate_sync_receipt request receipt);
              Ok receipt) with
       | Err error => Some (Err error)
       | Ok receipt => finish_sync world args snapshot plan receipt
       end)
  end.

Definition sync (world : SyncWorld) (args : list string)
    : option Posted * option (result SyncFailure.t SyncRun) :=
  match map_err SyncFailure.Error (parse_sync_args args) with
  | Err error => (None, Some (Err error))
  | Ok args =>
      match prepare_sync world args with
      | None => (None, None)
      | Some (Err error) => (None, Some (Err error))
      | Some (Ok (snapshot, plan, request, encoded)) =>
          if negb (sa_apply args) then (None, Some (Ok (Planned plan)))
          else if is_empty (sp_operations plan) then (None, Some (Ok (Noop plan)))
          else apply_sync world args snapshot plan request encoded
      end
  end.

(** ** Compile *)

(** What a [compile] meets: the output, absent or empty ([None]) or a tree; the
    server; the output again - the checks of an absent or empty one, the tree of
    an export - and the installation of the rendered files. *)
Record CompileWorld : Type := mkCompileWorld {
  cw_environment : Environment;
  cw_output : result CompileFailure.t (option TreeHandles);
  cw_get : string → option string → N → result string (HttpResponse CanonicalProjectionResponse);
  cw_still_fresh : result (list string) ();
  cw_still : TreeHandles;
  cw_install : RenderedProjection → result string (option string);
}.

(** [ValidatedExport]: a manifest, the digest of the tree and its files. *)
Definition ValidatedExport : Set := ExportManifest * string * list (string * ManagedFileSnapshot).

Definition inspect_output (world : CompileWorld) : option (result CompileFailure.t (option ValidatedExport)) :=
  match cw_output world with
  | Err error => Some (Err error)
  | Ok None => Some (Ok None)
  | Ok (Some handles) =>
      validated ← validate_export_handles handles false;
      Some (previous <-? map_err CompileFailure.Dirty validated; Ok (Some previous))
  end.

Definition revalidate (world : CompileWorld) (output : option ValidatedExport)
    : option (result (list string) ()) :=
  match output with
  | None => Some (cw_still_fresh world)
  | Some (manifest, snapshot_sha256, managed_files) =>
      validated ← validate_export_handles (cw_still world) false;
      Some (now <-? validated;
            let '(manifest', snapshot_sha256', managed_files') := now in
            if negb (manifest_eq manifest' manifest) ||
               negb (bool_decide (snapshot_sha256' = snapshot_sha256)) ||
               negb (bool_decide (managed_files' = managed_files))
            then Err ["projection changed while the canonical snapshot was being fetched"]
            else Ok ())
  end.

Definition existing (output : option ValidatedExport) (check : ExportManifest → result (list string) ())
    : result CompileFailure.t () :=
  match output with
  | Some (manifest, _, _) => map_err CompileFailure.Dirty (check manifest)
  | None => Ok ()
  end.

Definition compile (world : CompileWorld) (args : list string)
    : option (result CompileFailure.t (Uuid * string * string * nat * option string)) :=
  match map_err CompileFailure.Error (parse_context_args args) with
  | Err error => Some (Err error)
  | Ok args =>
      inspected ← inspect_output world;
      match (output <-? inspected;
             _ <-? existing output (λ manifest, validate_manifest_binding manifest args);
             projection <-? map_err (λ error, CompileFailure.Error (fetch_failure_text error))
                              (fetch_projection (cw_environment world) (cw_get world) args);
             _ <-? map_err CompileFailure.Error (validate_response_binding projection args);
             _ <-? existing output (λ manifest, validate_manifest_response_context manifest projection);
             rendered <-? map_err CompileFailure.Error (render_projection projection);
             Ok (output, projection, rendered)) with
      | Err error => Some (Err error)
      | Ok (output, projection, rendered) =>
          revalidated ← revalidate world output;
          Some (_ <-? map_err CompileFailure.Dirty revalidated;
                recovery <-? map_err CompileFailure.Error (cw_install world rendered);
                Ok (ca_scope_id args, ca_out args, cpr_fingerprint projection,
                    length (cpr_items projection), recovery))
      end
  end.

End commands.
