(* ===== verification/PlaneFacts.v ===== *)
(** * PlaneFacts: files of a projection and the outcome of their sync

    A rendered unit reads back ([unit_file_reads_back]), and an inbox file is
    exactly a heading, a blank line and a body.  What a sync of the files sends
    and reports ([sync_reports_its_outcome]). *)

From S2P Require Import Prelude Text Types Float Clock Bitemporal Lineage Store Txn Stage Binding Ledger Reads.
From S2P Require Import TextFacts Chunks Gate Rerank Compile Structured StructuredFacts Mining Prepare Reflect.
From S2P Require Import Requests Verbs FileSync Tasks VerbFacts VerbEffects FileSyncFacts FileTool FileToolFacts.
From S2P Require Import Plane PlaneScan PlaneSync.

(** ** Bytes *)

Lemma strip_pat_app pat l : strip_pat pat (pat ++ l) = Some l.
Proof. unfold strip_pat. by rewrite starts_with_app, drop_app_length. Qed.

Lemma str_slice_middle text a b c i j : bytes_of text = a ++ bytes_of b ++ c →
  i = length a → j = (i + length (bytes_of b))%nat → str_slice i j text = Some b.
Proof.
  intros Htext -> ->. unfold str_slice. rewrite <-(length_bytes_of text), Htext, !length_app.
  replace ((_ <=? _)%nat && (_ <=? _)%nat) with true
    by (symmetry; apply andb_true_iff; split; apply Nat.leb_le; lia).
  f_equal. unfold slice. rewrite drop_app_length, take_app_length' by lia. apply string_of_bytes_of.
Qed.

(** The marker of a footer does not occur in a text of one line. *)
Lemma rfind_one_line p l : Forall (λ b, b ≠ LF) l → rfind (LF :: p) l = None.
Proof.
  induction 1 as [|b l Hb _ IH]; [done|]. cbn [rfind starts_with]. rewrite IH.
  by destruct (N.eqb_spec LF b) as [E|_]; [destruct Hb|].
Qed.

Lemma rfind_shift pat a l i : rfind pat l = Some i → rfind pat (a ++ l) = Some (length a + i)%nat.
Proof. intros Hl. induction a as [|b a IH]; [done|]. cbn [app rfind length]. by rewrite IH. Qed.

Lemma rfind_last p m : p ≠ [] → m ≠ [] → Forall (λ b, b ≠ LF) p → Forall (λ b, b ≠ LF) m →
  rfind (LF :: LF :: p) ([LF; LF] ++ p ++ m ++ [LF]) = Some 0%nat.
Proof.
  intros Hp Hm Hpl Hml.
  assert (∀ l, l ≠ [] → Forall (λ b, b ≠ LF) l → rfind (LF :: LF :: p) (l ++ [LF]) = None) as Hline.
  { intros l Hl Hf. clear Hl. induction Hf as [|b l Hb _ IH].
    - cbn [app rfind starts_with]. by rewrite N.eqb_refl.
    - cbn [app rfind starts_with]. rewrite IH.
      by destruct (N.eqb_spec LF b) as [E|_]; [destruct Hb|]. }
  rewrite (app_assoc p). assert (p ++ m ≠ []) as Hne by (by destruct p).
  assert (Forall (λ b, b ≠ LF) (p ++ m)) as Hall by by apply Forall_app.
  assert (starts_with (LF :: LF :: p) (LF :: LF :: (p ++ m) ++ [LF]) = true) as Hs.
  { change (starts_with (([LF; LF] ++ p)) ([LF; LF] ++ (p ++ m) ++ [LF]) = true).
    rewrite <-(app_assoc p), (app_assoc [LF; LF] p). apply starts_with_app. }
  change ([LF; LF] ++ (p ++ m) ++ [LF]) with (LF :: LF :: (p ++ m) ++ [LF]).
  set (l := (p ++ m) ++ [LF]) in *.
  assert (rfind (LF :: LF :: p) l = None) as Hl by by apply Hline.
  assert (starts_with (LF :: LF :: p) (LF :: l) = false) as Hsecond.
  { subst l. destruct (p ++ m) as [|b r]; [done|]. cbn [app starts_with].
    destruct (N.eqb_spec LF b) as [E|_]; [by destruct (Forall_inv Hall)|]. by rewrite andb_false_r. }
  remember (LF :: LF :: p) as pat. cbn [rfind]. by rewrite Hl, Hsecond, Hs.
Qed.

Lemma split_once_blank t r : Forall (λ b, b ≠ LF) t → split_once [LF; LF] (t ++ [LF; LF] ++ r) = Some (t, r).
Proof. apply (split_once_first LF [LF]). Qed.

(** ** Unit files *)

Section units.
Context `{Jiff} `{Sha256} `{UuidText} `{PlaneJson}.

(** The same unit with another body. *)
Definition with_body (item : CanonicalProjectionUnit) (body : string) : CanonicalProjectionUnit := {|
  pj_unit_id := pj_unit_id item;
  pj_kind := pj_kind item;
  pj_fact_key := pj_fact_key item;
  pj_predicate := pj_predicate item;
  pj_body := body;
  pj_confidence := pj_confidence item;
  pj_valid_from := pj_valid_from item;
  pj_valid_to := pj_valid_to item;
  pj_body_sha256 := pj_body_sha256 item;
  pj_state := pj_state item;
  pj_source_span := pj_source_span item;
|}.

(** The JSON of a unit's footer is one line of text that reads back. *)
Definition footer_reads_back (generation : N) (item : CanonicalProjectionUnit) : Prop :=
  ∃ footer,
    footer_text (footer_of generation item) = Ok footer ∧
    Forall (λ b, b ≠ LF) (bytes_of footer) ∧
    read_footer footer = Ok (footer_of generation item).

Lemma single_line field value u : require_single_line field value = Ok u →
  Forall (λ b, b ≠ LF) (bytes_of value) ∧ Forall (λ b, b ≠ CR) (bytes_of value) ∧ bytes_of value ≠ [].
Proof.
  unfold require_single_line, has_byte. destruct (is_empty (bytes_of value)) eqn:E; [done|].
  destruct (bool_decide (LF ∈ bytes_of value)) eqn:El; [done|].
  destruct (bool_decide (CR ∈ bytes_of value)) eqn:Er; [done|]. intros _.
  apply bool_decide_eq_false in El, Er. setoid_rewrite Forall_forall.
  split_and!; [by intros b Hb ->..|intros Hn; by rewrite Hn in E].
Qed.

Lemma rendered_unit generation item bytes : render_unit generation item = Ok bytes →
  ∃ footer, footer_text (footer_of generation item) = Ok footer ∧
    require_single_line "unit title" (unit_title item) = Ok () ∧
    bytes_of bytes = (bytes_of "# " ++ bytes_of (unit_title item)) ++ [LF; LF] ++
      bytes_of (pj_body item) ++ unit_marker ++ bytes_of footer ++ unit_end.
Proof.
  unfold render_unit. intros ([] & Ht & Hb)%result_bind_ok.
  apply result_bind_ok in Hb as (footer & Hf & Hb).
  destruct (footer_text (footer_of generation item)) as [text|] eqn:E; [|done].
  injection Hf as ->. injection Hb as <-. exists footer. split_and!; [done..|].
  rewrite !bytes_of_app. change (bytes_of line_feed) with [LF].
  unfold unit_marker, unit_end. by rewrite <-!app_assoc.
Qed.

Lemma ends_app suffix l : ends suffix (l ++ suffix) = true.
Proof. unfold ends. rewrite rev_app_distr. apply starts_with_app. Qed.

(** A rendered unit file reads back as its body and its footer, whatever the
    body holds: the last marker is the footer's. *)
Lemma unit_file_reads_back generation item bytes : render_unit generation item = Ok bytes →
  footer_reads_back generation item →
  valid_utf8 (bytes_of bytes) = true →
  parse_unit bytes = Some (Ok (pj_body item, footer_of generation item)).
Proof.
  intros Hr (footer & Hf & Hline & Hread) Hutf8.
  destruct (rendered_unit generation item bytes Hr) as (footer' & Hf' & Ht & Hbytes).
  assert (footer' = footer) as -> by congruence. clear Hf' Hf Hr.
  destruct (single_line _ _ _ Ht) as (Htl & _ & _).
  set (head := bytes_of "# " ++ bytes_of (unit_title item)) in *.
  set (body := bytes_of (pj_body item)) in *.
  assert (Forall (λ b, b ≠ LF) head) as Hhead by (apply Forall_app; split; [repeat constructor; done|done]).
  assert (rfind unit_marker (bytes_of bytes) = Some (length head + 2 + length body)%nat) as Hfind.
  { rewrite Hbytes.
    replace (length head + 2 + length body)%nat with (length (head ++ [LF; LF] ++ body) + 0)%nat
      by (rewrite !length_app; simpl; lia).
    replace (head ++ [LF; LF] ++ body ++ unit_marker ++ bytes_of footer ++ unit_end)
      with ((head ++ [LF; LF] ++ body) ++
            ([LF; LF] ++ bytes_of "<!-- memphant " ++ (bytes_of footer ++ bytes_of " -->") ++ [LF]))
      by (unfold unit_marker, unit_end; by rewrite <-!app_assoc).
    apply rfind_shift.
    change unit_marker with (LF :: LF :: bytes_of "<!-- memphant "). apply rfind_last; [done| | |].
    - by destruct (bytes_of footer).
    - repeat constructor; done.
    - apply Forall_app. split; [done|]. repeat constructor; done. }
  assert (ends unit_end (bytes_of bytes) = true) as Hends.
  { rewrite Hbytes. rewrite !app_assoc. apply ends_app. }
  unfold parse_unit. rewrite Hutf8, Hends, Hfind. cbn [negb].
  rewrite (str_slice_middle bytes (head ++ [LF; LF] ++ body ++ unit_marker) footer unit_end);
    [|by rewrite Hbytes, <-!app_assoc|rewrite !length_app; simpl; lia
     |rewrite Hbytes, !length_app; simpl; lia].
  cbn [mbind option_bind]. rewrite Hread. cbn [map_err].
  assert (split_once [LF; LF] (bytes_of bytes) =
          Some (head, body ++ unit_marker ++ bytes_of footer ++ unit_end)) as Hsplit.
  { rewrite Hbytes. by apply split_once_blank. }
  rewrite Hsplit. subst head. rewrite strip_pat_app.
  rewrite bool_decide_eq_false_2 by (rewrite Forall_forall in Htl; intros Hlf; by destruct (Htl LF Hlf)).
  rewrite string_of_bytes_of, bool_decide_eq_true_2 by done. cbn [negb].
  rewrite (str_slice_middle bytes ((bytes_of "# " ++ bytes_of (unit_title item)) ++ [LF; LF]) (pj_body item)
             (unit_marker ++ bytes_of footer ++ unit_end)); [done| | |].
  - by rewrite Hbytes, <-!app_assoc.
  - rewrite !length_app. simpl. lia.
  - subst body. rewrite !length_app. simpl. lia.
Qed.

End units.

(** ** Inbox files *)

Definition first_line_blank (body : list N) : bool :=
  match lines body with line :: _ => is_empty (trim line) | [] => false end.

(** The files the inbox takes: a heading with the key, a blank line, a body
    that starts with text, and one final newline. *)
Record InboxFile (bytes key body : string) : Prop := mkInboxFile {
  if_layout : bytes_of bytes = bytes_of "# " ++ bytes_of key ++ [LF; LF] ++ bytes_of body ++ [LF];
  if_utf8 : valid_utf8 (bytes_of bytes) = true;
  if_lf_only : CR ∉ bytes_of bytes;
  if_no_footer : contains_str "<!-- memphant" bytes = false;
  if_key_line : bytes_of key ≠ [] ∧ LF ∉ bytes_of key;
  if_key_trimmed : trim (bytes_of key) = bytes_of key;
  if_one_final_lf : ends [LF] (bytes_of body) = false;
  if_body_starts : first_line_blank (bytes_of body) = false;
  if_body_text : trim (bytes_of body) ≠ [];
}.

Lemma ends_inv suffix l : ends suffix l = true → ∃ r, l = r ++ suffix.
Proof.
  intros Hl%starts_with_split. exists (rev (drop (length (rev suffix)) (rev l))).
  apply (f_equal (@rev N)) in Hl. by rewrite rev_involutive, rev_app_distr, rev_involutive in Hl.
Qed.

Lemma ends_snoc l : ends [LF; LF] (l ++ [LF]) = ends [LF] l.
Proof. unfold ends. by rewrite rev_app_distr. Qed.

Lemma ends_last l k : k ≠ [] → ends [LF] (l ++ k) = ends [LF] k.
Proof.
  intros Hk. unfold ends. rewrite rev_app_distr. destruct (rev k) eqn:E; [|done].
  destruct Hk. by rewrite <-(rev_involutive k), E.
Qed.

Lemma starts_lf_blank body : starts_with [LF] body = true → first_line_blank body = true.
Proof.
  intros ->%starts_with_split. unfold first_line_blank, lines. cbn [app drop length split_inclusive_nl].
  rewrite N.eqb_refl. reflexivity.
Qed.

Lemma bytes_bound_part a b text : bytes_of text = a ++ b → bytes_of (string_of_bytes b) = b.
Proof.
  intros Ht. apply bytes_of_string. pose proof (bytes_of_bound text) as Hb. rewrite Ht in Hb.
  by apply Forall_app in Hb as [_ ?].
Qed.

Lemma inbox_file_parses bytes key body : InboxFile bytes key body → parse_inbox bytes = Ok (key, body).
Proof.
  intros [Hl Hv Hcr Hfoot [Hk Hklf] Htrim Hend Hfirst Htext]. unfold parse_inbox.
  rewrite Hv, Hfoot. unfold has_byte at 1. rewrite bool_decide_eq_false_2 by done. cbn [negb].
  assert (bytes_of body ≠ []) as Hne by (intros Hn; by rewrite Hn in Htext).
  assert (Forall (λ b, b ≠ LF) (bytes_of "# " ++ bytes_of key)) as Hhead.
  { apply Forall_app. split; [repeat constructor; done|]. apply Forall_forall. by intros b Hb ->. }
  assert (bytes_of bytes = ((bytes_of "# " ++ bytes_of key) ++ [LF; LF] ++ bytes_of body) ++ [LF]) as Hb
    by (rewrite Hl; by rewrite <-!app_assoc).
  rewrite Hb, ends_app, ends_snoc. set (head := bytes_of "# " ++ bytes_of key) in *.
  assert (ends [LF] (head ++ [LF; LF] ++ bytes_of body) = false) as Hlast
    by (rewrite app_assoc; rewrite (ends_last _ _ Hne); exact Hend).
  rewrite Hlast.
  cbn [negb orb]. rewrite length_app, Nat.add_sub, take_app_length.
  rewrite split_once_blank by done. subst head.
  rewrite strip_pat_app. rewrite string_of_bytes_of.
  unfold require_single_line, has_byte.
  destruct (is_empty (bytes_of key)) eqn:Ek; [by destruct (bytes_of key)|].
  assert (CR ∉ bytes_of key) as Hkcr by (intros Hc; apply Hcr; rewrite Hl, !elem_of_app; auto).
  rewrite (bool_decide_eq_false_2 (LF ∈ _)), (bool_decide_eq_false_2 (CR ∈ _)) by done.
  cbn [orb result_bind]. rewrite Htrim, bool_decide_eq_true_2 by done. cbn [negb].
  fold (first_line_blank (bytes_of body)). rewrite Hfirst, orb_false_r.
  destruct (starts_with [LF] (bytes_of body)) eqn:Es; [apply starts_lf_blank in Es; congruence|].
  destruct (trim (bytes_of body)) eqn:Et; [done|]. cbn [is_empty]. by rewrite string_of_bytes_of.
Qed.

Lemma inbox_file_parsed bytes key body : parse_inbox bytes = Ok (key, body) → InboxFile bytes key body.
Proof.
  unfold parse_inbox. destruct (valid_utf8 (bytes_of bytes)) eqn:Hv; [|done]. cbn [negb].
  unfold has_byte at 1. destruct (bool_decide (CR ∈ bytes_of bytes)) eqn:Hcr; [done|].
  apply bool_decide_eq_false in Hcr.
  destruct (ends [LF] (bytes_of bytes)) eqn:Hend; [|done]. cbn [negb orb].
  destruct (ends [LF; LF] (bytes_of bytes)) eqn:Hend2; [done|].
  destruct (contains_str "<!-- memphant" bytes) eqn:Hf; [done|].
  destruct (ends_inv _ _ Hend) as (text & Ht). rewrite Ht, length_app, Nat.add_sub, take_app_length.
  destruct (split_once [LF; LF] text) as [[heading body']|] eqn:Es; [|done].
  destruct (split_once_at _ _ _ _ Es) as [-> _].
  unfold strip_pat. destruct (starts_with (bytes_of "# ") heading) eqn:Eh; [|done].
  apply starts_with_split in Eh. set (key' := drop (length (bytes_of "# ")) heading) in *. clearbody key'.
  subst heading. intros ([] & Hs & Hr)%result_bind_ok.
  assert (bytes_of (string_of_bytes key') = key') as Hkb.
  { apply bytes_of_string. pose proof (bytes_of_bound bytes) as Hb. rewrite Ht in Hb.
    repeat (apply Forall_app in Hb as [Hb ?]). done. }
  assert (bytes_of (string_of_bytes body') = body') as Hbb.
  { apply bytes_of_string. pose proof (bytes_of_bound bytes) as Hb. rewrite Ht in Hb.
    apply Forall_app in Hb as [Hb _]. rewrite app_assoc in Hb. by apply Forall_app in Hb as [_ ?]. }
  destruct (single_line _ _ _ Hs) as (Hlf & _ & Hne). rewrite Hkb in Hlf, Hne.
  destruct (bool_decide (trim key' = key')) eqn:Et; [|done]. apply bool_decide_eq_true in Et. cbn [negb] in Hr.
  fold (first_line_blank body') in Hr.
  destruct (starts_with [LF] body' || first_line_blank body') eqn:Eb; [done|].
  apply orb_false_iff in Eb as [_ Eb].
  destruct (is_empty (trim body')) eqn:Eb2; [done|]. injection Hr as <- <-.
  assert (trim body' ≠ []) as Hnb by by intros Hn; rewrite Hn in Eb2.
  assert (body' ≠ []) as Hne' by (intros ->; by apply Hnb).
  split; rewrite ?Hkb, ?Hbb; try done.
  - rewrite Ht. by rewrite <-!app_assoc.
  - split; [done|]. rewrite Forall_forall in Hlf. intros Hin. by destruct (Hlf _ Hin).
  - rewrite Ht, ends_snoc, app_assoc in Hend2. by rewrite (ends_last _ _ Hne') in Hend2.
Qed.

(** The inbox takes exactly the files of this shape, and reads their key and
    body. *)
Theorem inbox_files_are_exact bytes key body :
  parse_inbox bytes = Ok (key, body) ↔ InboxFile bytes key body.
Proof. split; [apply inbox_file_parsed|apply inbox_file_parses]. Qed.

(** * What a sync sends and what it reports

    A sync sends at most one request, for the plan of the tree it was shown and
    on the projection the server has, and its outcome says what is known of the
    commit. *)

Section facts.
Context `{Jiff} `{Sha256} `{UuidText} `{PlaneJson}.
Context `{Serialize (list CanonicalProjectionUnit)}.
Context `{Serialize (list FileSyncOperation.t)} `{Serialize FileSyncRequest}.

(** An outcome that claims nothing was committed. *)
Definition claims_no_commit (outcome : result SyncFailure.t SyncRun) : Prop :=
  match outcome with
  | Ok (Applied _ _ _ _ _ _ _) | Err (SyncFailure.PostCommit _) | Err (SyncFailure.OutcomeUnknown _) => False
  | _ => True
  end.

(** An outcome that says the plan was committed. *)
Definition says_committed (outcome : result SyncFailure.t SyncRun) : Prop :=
  match outcome with
  | Ok (Applied _ _ _ _ _ _ _) | Err (SyncFailure.PostCommit _) => True
  | _ => False
  end.

(** The server's answer proves the commit of the request. *)
Definition committed (request : FileSyncRequest) (answer : result string (HttpResponse FileSyncResult)) : Prop :=
  ∃ receipt, sync_answer request answer = Ok receipt ∧ validate_sync_receipt request receipt = Ok ().

(** What a request was sent for. *)
Record SentFor (world : SyncWorld) (args : SyncArgs) (request : FileSyncRequest) (posted : Posted) : Prop :=
  mkSentFor {
  sf_asked : sa_apply args = true;
  sf_plan : ∃ tree snapshot now,
    sw_opened world = Ok tree ∧ scan_sync_handles tree = Some (Ok snapshot) ∧
    scan_sync_handles (sw_applied_on world) = Some (Ok now) ∧ snapshot_eq now snapshot = true ∧
    fs_operations request = sy_operations snapshot ∧ sy_operations snapshot ≠ [] ∧
    fs_base_fingerprint request = em_snapshot_sha256 (sy_manifest snapshot);
  sf_projection : ∃ projection,
    fetch_projection (sw_environment world) (sw_get world) (sa_context args) = Ok projection ∧
    validate_response_binding projection (sa_context args) = Ok () ∧
    fs_base_fingerprint request = cpr_fingerprint projection ∧
    id_scope_id (fs_identity request) = ca_scope_id (sa_context args) ∧
    id_subject_id (fs_identity request) = ca_subject_id (sa_context args);
  sf_digest : file_sync_plan_sha256 (fs_operations request) = Ok (fs_plan_sha256 request);
  sf_encoded : to_vec request = Ok (po_encoded posted) ∧
    str_len (po_encoded posted) <= MAX_FILE_SYNC_REQUEST_ENCODED_BYTES;
}.

Lemma map_err_err {A E F} (f : E → F) (r : result E A) e : map_err f r = Err e → ∃ e', r = Err e' ∧ e = f e'.
Proof. destruct r; simpl; [done|]. intros [= <-]. by eexists. Qed.

(** An error of a bind is the error of one of its parts. *)
Lemma bind_err {E A B} (r : result E A) (k : A → result E B) e :
  result_bind r k = Err e → r = Err e ∨ ∃ x, r = Ok x ∧ k x = Err e.
Proof. destruct r as [x|e']; simpl; [right; by exists x|]. by intros [= ->]; left. Qed.

Lemma binding_ok response args u : validate_response_binding response args = Ok u →
  cpr_subject_id response = ca_subject_id args ∧ cpr_scope_id response = ca_scope_id args.
Proof.
  unfold validate_response_binding, require_binding. intros (? & Hs & Hr)%result_bind_ok.
  apply result_bind_ok in Hr as (? & _ & Hr). apply result_bind_ok in Hr as (? & Hc & _).
  destruct (N.eqb_spec (cpr_subject_id response) (ca_subject_id args)); [|done].
  by destruct (N.eqb_spec (cpr_scope_id response) (ca_scope_id args)).
Qed.

Lemma sync_base_ok manifest projection u : validate_sync_base manifest projection = Ok u →
  em_snapshot_sha256 manifest = cpr_fingerprint projection.
Proof.
  unfold validate_sync_base. intros (? & _ & Hr)%result_bind_ok.
  destruct (bool_decide (em_snapshot_sha256 manifest = cpr_fingerprint projection)) eqn:E; [|done].
  by apply bool_decide_eq_true in E.
Qed.

Lemma revalidate_ok snapshot now u : revalidate_sync_state snapshot now = Some (Ok u) →
  ∃ current, scan_sync_handles now = Some (Ok current) ∧ snapshot_eq current snapshot = true.
Proof.
  unfold revalidate_sync_state. destruct (scan_sync_handles now) as [[current|]|]; cbn; [|done..].
  destruct (snapshot_eq current snapshot) eqn:E; [|done]. intros _. by exists current.
Qed.

Lemma revalidate_err snapshot now error : revalidate_sync_state snapshot now = Some (Err error) →
  ∃ findings, error = SyncFailure.Invalid findings.
Proof.
  unfold revalidate_sync_state. destruct (scan_sync_handles now) as [[current|]|]; cbn; [| |done].
  - destruct (snapshot_eq current snapshot); [done|]. intros [= <-]. by eexists.
  - intros [= <-]. by eexists.
Qed.

(** A failure that is not a claim on the outcome of a request. *)
Definition quiet_failure (error : SyncFailure.t) : Prop :=
  match error with SyncFailure.PostCommit _ | SyncFailure.OutcomeUnknown _ => False | _ => True end.

Lemma prepare_err world args error : prepare_sync world args = Some (Err error) → quiet_failure error.
Proof.
  unfold prepare_sync. destruct (sw_opened world) as [opened|]; cbn [map_err]; [|by intros [= <-]].
  destruct (scan_sync_handles opened) as [[snapshot|]|]; cbn [mbind option_bind map_err result_bind]; [|by intros [= <-]|done].
  match goal with |- context [match ?r with Ok _ => _ | Err _ => _ end] => destruct r as [[s p]|e] eqn:E end.
  - destruct (revalidate_sync_state s (sw_planned_on world)) as [[u|e]|] eqn:Er; cbn [mbind option_bind result_bind]; [| |done].
    + intros [= He]. apply bind_err in He as [(? & _ & ->)%map_err_err|(plan & _ & He)]; [done|].
      apply bind_err in He as [He|(? & _ & ?)]; [|done]. unfold encode_file_sync_request in He.
      apply bind_err in He as [(? & _ & ->)%map_err_err|(? & _ & He)]; [done|].
      destruct (MAX_FILE_SYNC_REQUEST_ENCODED_BYTES <? _); [|done]. by injection He as <-.
    + intros [= <-]. by destruct (revalidate_err _ _ _ Er) as (? & ->).
  - intros [= <-]. apply bind_err in E as [(? & _ & ->)%map_err_err|(? & _ & E)]; [done|].
    apply bind_err in E as [(f & _ & ->)%map_err_err|(? & _ & E)]; [by destruct f|].
    apply bind_err in E as [(? & _ & ->)%map_err_err|(? & _ & E)]; [done|].
    apply bind_err in E as [E|(? & _ & ?)]; [|done]. unfold validate_sync_base in E.
    apply bind_err in E as [(? & _ & ->)%map_err_err|(? & _ & E)]; [done|].
    destruct (negb _); [by injection E as <-|].
    apply bind_err in E as [(? & _ & ->)%map_err_err|(? & _ & E)]; [done|].
    destruct (manifest_eq _ _); [done|]. by injection E as <-.
Qed.

(** What [prepare_sync] gives, with the later look at the tree still to come. *)
Lemma prepare_ok world args snapshot plan request encoded :
  prepare_sync world args = Some (Ok (snapshot, plan, request, encoded)) →
  (∃ tree, sw_opened world = Ok tree ∧ scan_sync_handles tree = Some (Ok snapshot)) ∧
  fs_operations request = sy_operations snapshot ∧ sp_operations plan = sy_operations snapshot ∧
  fs_base_fingerprint request = em_snapshot_sha256 (sy_manifest snapshot) ∧
  (∃ projection,
    fetch_projection (sw_environment world) (sw_get world) (sa_context args) = Ok projection ∧
    validate_response_binding projection (sa_context args) = Ok () ∧
    fs_base_fingerprint request = cpr_fingerprint projection ∧
    id_scope_id (fs_identity request) = ca_scope_id (sa_context args) ∧
    id_subject_id (fs_identity request) = ca_subject_id (sa_context args)) ∧
  file_sync_plan_sha256 (fs_operations request) = Ok (fs_plan_sha256 request) ∧
  to_vec request = Ok encoded ∧ str_len encoded <= MAX_FILE_SYNC_REQUEST_ENCODED_BYTES.
Proof.
  unfold prepare_sync. destruct (sw_opened world) as [opened|]; cbn [map_err]; [|done].
  destruct (scan_sync_handles opened) as [[scanned|]|] eqn:Hs; cbn [mbind option_bind map_err result_bind]; [|done..].
  match goal with |- context [match ?r with Ok _ => _ | Err _ => _ end] => destruct r as [[s p]|e] eqn:E end; [|done].
  apply result_bind_ok in E as (? & _ & E). apply result_bind_ok in E as (projection & Hp%map_err_ok & E).
  apply result_bind_ok in E as ([] & Hb%map_err_ok & E). apply result_bind_ok in E as (? & Hbase & [= <- <-]).
  destruct (revalidate_sync_state scanned (sw_planned_on world)) as [[u|e]|]; cbn [mbind option_bind result_bind]; [|done..].
  intros [= Hr]. apply result_bind_ok in Hr as (plan' & Hplan%map_err_ok & Hr).
  apply result_bind_ok in Hr as (encoded' & He & [= <- <- <- <-]).
  unfold sync_plan in Hplan. apply result_bind_ok in Hplan as (digest & Hd & [= <-]).
  unfold encode_file_sync_request in He. apply result_bind_ok in He as (text & Ht%map_err_ok & He).
  destruct (N.ltb_spec MAX_FILE_SYNC_REQUEST_ENCODED_BYTES (str_len text)) as [|Hlen]; [done|]. injection He as <-.
  destruct (binding_ok _ _ _ Hb) as [Hsub Hsc]. pose proof (sync_base_ok _ _ _ Hbase) as Hfp. cbn.
  split_and!; try done.
  - by exists opened.
  - by exists projection.
Qed.

Lemma finish_commits world args snapshot plan receipt outcome :
  finish_sync world args snapshot plan receipt = Some outcome → says_committed outcome.
Proof.
  unfold finish_sync.
  match goal with |- context [match ?r with Ok _ => _ | Err _ => _ end] => destruct r as [final|e] eqn:E end.
  - destruct (revalidate_sync_state snapshot (sw_committed_on world)) as [revalidated|]; cbn [mbind option_bind]; [|done].
    intros [= <-]. destruct revalidated; cbn [map_err result_bind]; [|done].
    destruct (render_projection final); cbn [map_err result_bind]; [|done].
    by destruct (sw_install world snapshot _).
  - intros [= <-]. apply bind_err in E as [(? & _ & ->)%map_err_err|(? & _ & E)]; [done|].
    by apply bind_err in E as [(? & _ & ->)%map_err_err|(? & _ & ?)].
Qed.

(** A failure after dispatch: unknown, or the server answered with a refusal. *)
Lemma answer_err request answer error : sync_answer request answer = Err error →
  (∃ text, error = SyncFailure.OutcomeUnknown text) ∨
  (quiet_failure error ∧ ∃ response, answer = Ok response ∧ (hr_status response < 200 ∨ 300 <= hr_status response)).
Proof.
  unfold sync_answer. intros [(? & _ & ->)%map_err_err|(response & Ha%map_err_ok & He)]%bind_err; [left; by eexists|].
  destruct (N.eqb_spec (hr_status response) 200) as [_|Hne].
  - apply map_err_err in He as (? & _ & ->). left. by eexists.
  - injection He as <-.
    destruct (N.leb_spec 200 (hr_status response)), (N.ltb_spec (hr_status response) 300); cbn [andb];
      [left; by eexists| | |];
      (destruct (String.eqb _ "sync_conflict"); [right; split; [done|exists response; split; [done|lia]]|];
       destruct (String.eqb _ "sync_invalid"); [right; split; [done|exists response; split; [done|lia]]|];
       destruct (500 <=? hr_status response); [left; by eexists|right; split; [done|exists response; split; [done|lia]]]).
Qed.

Lemma apply_outcome world args snapshot plan request encoded posted outcome :
  apply_sync world args snapshot plan request encoded = (posted, Some outcome) →
  match posted with
  | None => claims_no_commit outcome
  | Some sent =>
      po_encoded sent = encoded ∧
      (∃ now, scan_sync_handles (sw_applied_on world) = Some (Ok now) ∧ snapshot_eq now snapshot = true) ∧
      (says_committed outcome ↔ committed request (sw_post world sent)) ∧
      (claims_no_commit outcome → ∃ response, sw_post world sent = Ok response ∧
         (hr_status response < 200 ∨ 300 <= hr_status response))
  end.
Proof.
  unfold apply_sync.
  destruct (revalidate_sync_state snapshot (sw_applied_on world)) as [[u|e]|] eqn:Hr; [| |done].
  2:{ intros [= <- <-]. by destruct (revalidate_err _ _ _ Hr) as (? & ->). }
  apply revalidate_ok in Hr. unfold post_file_sync.
  destruct (http_agent (sw_environment world)) as [timeout|e]; [|by intros [= <- <-]].
  match goal with |- context [Some ?p] => set (sent := p) end. intros [= <- Ho]. split; [done|]. split; [done|].
  destruct (sync_answer request (sw_post world sent)) as [receipt|error] eqn:Ha; cbn [result_bind] in Ho.
  - destruct (validate_sync_receipt request receipt) as [[]|bad] eqn:Hv; cbn [map_err result_bind] in Ho.
    + pose proof (finish_commits _ _ _ _ _ _ Ho) as Hs. split.
      * split; [|done]. intros _. by exists receipt.
      * intros Hc. destruct outcome as [[| |]|[]]; done.
    + injection Ho as <-. split; [|done]. split; [done|]. intros (receipt' & Ha' & Hv'). congruence.
  - injection Ho as <-. destruct (answer_err _ _ _ Ha) as [(text & ->)|(Hq & Hresponse)].
    + split; [|done]. split; [done|]. intros (receipt' & Ha' & _). congruence.
    + split; [|done]. split; [by destruct error|]. intros (receipt' & Ha' & _). congruence.
Qed.

(** C13: A sync that sent nothing does not say that anything was or may have been
    committed.  A request is sent only when [--apply] was asked for, for a plan
    with operations: those of the tree, which was read again and had not
    changed, on the projection that the server has and the tree was compiled
    from, with the plan's digest and within the size limit.  Then the sync says
    that the plan was committed exactly when the server's receipt proves it,
    and says that it was not only when the server refused. *)
Theorem sync_reports_its_outcome world args posted outcome :
  sync world args = (posted, Some outcome) →
  match posted with
  | None => claims_no_commit outcome
  | Some sent =>
      ∃ sync_args request, parse_sync_args args = Ok sync_args ∧
        SentFor world sync_args request sent ∧
        (says_committed outcome ↔ committed request (sw_post world sent)) ∧
        (claims_no_commit outcome → ∃ response, sw_post world sent = Ok response ∧
           (hr_status response < 200 ∨ 300 <= hr_status response))
  end.
Proof.
  unfold sync. destruct (parse_sync_args args) as [sync_args|] eqn:Hargs; cbn [map_err]; [|by intros [= <- <-]].
  destruct (prepare_sync world sync_args) as [[[[[snapshot plan] request] encoded]|error]|] eqn:Hp; [| |done].
  2:{ intros [= <- <-]. by destruct error; try done; apply prepare_err in Hp. }
  destruct (sa_apply sync_args) eqn:Happly; cbn [negb]; [|by intros [= <- <-]].
  destruct (is_empty (sp_operations plan)) eqn:He; [by intros [= <- <-]|].
  destruct (prepare_ok _ _ _ _ _ _ Hp) as ((tree & Ht & Hs) & Hops & Hplan & Hbase & Hproj & Hd & Hto & Hlen).
  intros Ho. apply apply_outcome in Ho. destruct posted as [sent|]; [|done].
  destruct Ho as (Henc & (now & Hnow & Heq) & Hsays & Hclaims).
  exists sync_args, request. split_and!; [done| |done|done].
  split; [done| |done|done|by rewrite Henc].
  exists tree, snapshot, now. split_and!; try done. intros Hn. by rewrite Hplan, Hn in He.
Qed.

End facts.
