(* ===== verification/PlaneScanFacts.v ===== *)
(** * PlaneScanFacts: a tree plans the edits it shows

    A scan without findings plans, for every entry of the manifest, what its
    file shows, and a fact for every inbox file; a compiled tree that was
    edited plans its edits. *)

From S2P Require Import Prelude Text Types Float Clock Bitemporal Lineage Store Txn Stage Binding Ledger Reads.
From S2P Require Import TextFacts Chunks Gate Rerank Compile Structured StructuredFacts Mining Prepare Reflect.
From S2P Require Import Requests Verbs FileSync Tasks VerbFacts VerbEffects FileSyncFacts FileTool FileToolFacts.
From S2P Require Import Plane PlaneScan PlaneFacts.

Section facts.
Context `{Jiff} `{Sha256} `{UuidText} `{PlaneJson}.

(** ** What a tree shows *)

Definition unit_name (entry : ManifestEntry) : string := me_unit_id entry +:+ ".md".

(** The file of an entry holds the unit with some body. *)
Record FileShows (handles : TreeHandles) (generation : N) (entry : ManifestEntry) (id : Uuid)
    (bytes body : string) : Prop := mkFileShows {
  sh_regular : dir_metadata (th_units handles) (unit_name entry) = Inspected.Found true false;
  sh_read : ∃ identity,
    read_regular_at (th_units handles) (unit_name entry) MAX_MANAGED_FILE_BYTES = Ok (bytes, identity);
  sh_rendered : render_unit generation (projected_unit entry id body) = Ok bytes;
  sh_utf8 : valid_utf8 (bytes_of bytes) = true;
}.

(** What an entry's file says of its unit: it is gone, as it was, or rewritten. *)
Inductive EntryShows (handles : TreeHandles) (generation : N) (entry : ManifestEntry)
  : option FileSyncOperation.t → Prop :=
| shows_removed id :
    parse_uuid (bytes_of (me_unit_id entry)) = Some id →
    dir_metadata (th_units handles) (unit_name entry) = Inspected.NotFound →
    EntryShows handles generation entry (Some (FileSyncOperation.Forget (file_sync_metadata entry id)))
| shows_kept id bytes body :
    parse_uuid (bytes_of (me_unit_id entry)) = Some id →
    FileShows handles generation entry id bytes body →
    sha256_hex body = me_body_sha256 entry → sha256_hex bytes = me_file_sha256 entry →
    EntryShows handles generation entry None
| shows_rewritten id bytes body :
    parse_uuid (bytes_of (me_unit_id entry)) = Some id →
    FileShows handles generation entry id bytes body →
    sha256_hex body ≠ me_body_sha256 entry → trim_is_empty body = false →
    EntryShows handles generation entry (Some (FileSyncOperation.Correct (file_sync_metadata entry id) body)).

(** An inbox file with its key and body. *)
Definition InboxShows (handles : TreeHandles) (name : string) (fact : string * string) : Prop :=
  is_safe_inbox_name name = true ∧
  ∃ bytes identity,
    read_regular_at (th_inbox handles) name MAX_MANAGED_FILE_BYTES = Ok (bytes, identity) ∧
    InboxFile bytes (fst fact) (snd fact).

(** The fact keys of the units that are removed or rewritten. *)
Definition changed_keys (entries : list ManifestEntry) (shown : list (option FileSyncOperation.t))
    : list string :=
  omap (λ '(entry, operation), (operation : option FileSyncOperation.t) ≫= λ _, me_fact_key entry) (zip entries shown).

(** ** Findings *)

Lemma when_nil condition finding : when condition finding = [] ↔ condition = false.
Proof. by destruct condition. Qed.

Lemma negb_decide_false P `{Decision P} : negb (bool_decide P) = false ↔ P.
Proof. rewrite negb_false_iff. apply bool_decide_eq_true. Qed.

Ltac quiet :=
  repeat match goal with
         | Hf : _ ++ _ = [] |- _ => apply app_eq_nil in Hf as [? ?]
         | Hf : when _ _ = [] |- _ => apply when_nil in Hf
         | Hf : negb (bool_decide _) = false |- _ => apply negb_decide_false in Hf
         | Hf : _ || _ = false |- _ => apply orb_false_iff in Hf as [? ?]
         end.

Lemma flat_map_nil {A B} (f : A → list B) l : flat_map f l = [] ↔ ∀ x, x ∈ l → f x = [].
Proof.
  induction l as [|x l IH]; simpl; [split; [by intros _ x Hx%elem_of_nil|done]|]. split.
  - intros [Hx Hl]%app_eq_nil y [->|Hy]%elem_of_cons; [done|]. by apply IH.
  - intros Hall. rewrite (Hall x) by by left. apply IH. intros y Hy. apply Hall. by right.
Qed.

Lemma mismatches_nil names expected allowed label :
  (∀ name, name ∈ names ↔ name ∈ expected) → collect_name_mismatches names expected allowed label = [].
Proof.
  intros Hn. unfold collect_name_mismatches. rewrite (proj2 (flat_map_nil _ _)).
  - apply flat_map_nil. intros name Hname. apply when_nil, negb_decide_false, Hn.
    rewrite elem_of_sort_by in Hname. apply elem_of_elements in Hname. exact Hname.
  - intros name Hname%Hn. apply when_nil. unfold seen. by rewrite bool_decide_eq_true_2.
Qed.

(** ** Entries *)

Lemma scan_parsed_quiet generation entry base bytes body footer scan :
  sc_findings (scan_parsed generation entry base bytes body footer scan) = [] →
  sc_findings scan = [] ∧
  render_unit generation (projected_unit entry (fm_unit_id base) body) = Ok bytes ∧
  ((sha256_hex body = me_body_sha256 entry ∧ sha256_hex bytes = me_file_sha256 entry ∧
    sc_operations (scan_parsed generation entry base bytes body footer scan) = sc_operations scan ∧
    sc_fact_keys (scan_parsed generation entry base bytes body footer scan) = sc_fact_keys scan) ∨
   (sha256_hex body ≠ me_body_sha256 entry ∧ trim_is_empty body = false ∧
    sc_operations (scan_parsed generation entry base bytes body footer scan) =
      sc_operations scan ++ [FileSyncOperation.Correct base body] ∧
    sc_fact_keys (scan_parsed generation entry base bytes body footer scan) =
      match me_fact_key entry with Some key => {[key]} ∪ sc_fact_keys scan | None => sc_fact_keys scan end)) ∧
  sc_expected (scan_parsed generation entry base bytes body footer scan) = sc_expected scan.
Proof.
  unfold scan_parsed.
  destruct (render_unit generation (projected_unit entry (fm_unit_id base) body)) as [expected|error];
    (destruct (decide (sha256_hex body = me_body_sha256 entry)) as [Hd|Hd];
     [rewrite (bool_decide_eq_true_2 _ Hd)|rewrite (bool_decide_eq_false_2 _ Hd); destruct (trim_is_empty body) eqn:Hb]);
    cbn; intros Hf; quiet; try done; subst; split_and!; try done; try by left.
  by right.
Qed.

(** The state of a scan after an entry showed [operation]. *)
Definition showed (entry : ManifestEntry) (operation : option FileSyncOperation.t) (scan scan' : SyncScan)
    : Prop :=
  sc_findings scan = [] ∧
  sc_operations scan' = sc_operations scan ++ option_list operation ∧
  sc_expected scan' = {[unit_name entry]} ∪ sc_expected scan ∧
  sc_fact_keys scan' =
    match operation, me_fact_key entry with
    | Some _, Some key => {[key]} ∪ sc_fact_keys scan
    | _, _ => sc_fact_keys scan
    end.

Lemma scan_entry_quiet handles generation scan entry scan' :
  is_canonical_uuid (me_unit_id entry) = true →
  scan_entry handles generation scan entry = Some scan' → sc_findings scan' = [] →
  ∃ operation, EntryShows handles generation entry operation ∧ showed entry operation scan scan'.
Proof.
  unfold scan_entry, is_canonical_uuid. intros Hc%bool_decide_eq_true.
  destruct (misplaced entry) as [finding|].
  { intros [= <-]. cbn. by intros [_ ?]%app_eq_nil. }
  destruct (parse_uuid (bytes_of (me_unit_id entry))) as [id|] eqn:Hid; [|done].
  unfold scan_file. fold (unit_name entry).
  destruct (dir_metadata (th_units handles) (unit_name entry)) as [|error|is_file is_symlink] eqn:Hm.
  - intros [= <-]. cbn. intros Hf.
    exists (Some (FileSyncOperation.Forget (file_sync_metadata entry id))).
    split; [by apply shows_removed|]. by split_and!.
  - intros [= <-]. cbn. by intros [_ ?]%app_eq_nil.
  - destruct (negb is_file || is_symlink) eqn:Hk.
    { intros [= <-]. cbn. by intros [_ ?]%app_eq_nil. }
    apply orb_false_iff in Hk as [->%negb_false_iff ->].
    destruct (read_regular_at (th_units handles) (unit_name entry) MAX_MANAGED_FILE_BYTES)
      as [[bytes identity]|error] eqn:Hr.
    2:{ intros [= <-]. cbn. by intros [_ ?]%app_eq_nil. }
    destruct (parse_unit bytes) as [[[body footer]|error]|] eqn:Hp; cbn [mbind option_bind]; [| |done].
    2:{ intros [= <-]. cbn. by intros [_ ?]%app_eq_nil. }
    assert (valid_utf8 (bytes_of bytes) = true) as Hutf8
      by (revert Hp; unfold parse_unit; by destruct (valid_utf8 (bytes_of bytes))).
    intros [= <-] Hf. apply scan_parsed_quiet in Hf as (Hf & Hrender & Hcase & Hexp). cbn in Hf, Hrender.
    assert (FileShows handles generation entry id bytes body) as Hs by (split; eauto).
    destruct Hcase as [(Hb & Hw & Ho & Hkeys)|(Hb & Ht & Ho & Hkeys)].
    + exists None. split; [by eapply shows_kept|].
      split_and!; [done|by rewrite Ho, app_nil_r|by rewrite Hexp|by rewrite Hkeys].
    + exists (Some (FileSyncOperation.Correct (file_sync_metadata entry id) body)).
      split; [by eapply shows_rewritten|].
      split_and!; [done|by rewrite Ho|by rewrite Hexp|]. rewrite Hkeys. by destruct (me_fact_key entry).
Qed.

Lemma changed_keys_cons entry entries operation shown k :
  k ∈ changed_keys (entry :: entries) (operation :: shown) ↔
  (is_Some operation ∧ me_fact_key entry = Some k) ∨ k ∈ changed_keys entries shown.
Proof.
  unfold changed_keys. cbn [zip zip_with omap list_omap].
  destruct operation as [operation|]; cbn [mbind option_bind].
  - destruct (me_fact_key entry) as [key|]; cbn [omap list_omap].
    + rewrite elem_of_cons. split; [intros [->|?]; [left; by split; [eexists|]|by right]|].
      intros [[_ [= ->]]|?]; [by left|by right].
    + split; [by right|]. by intros [[_ ?]|?].
  - split; [by right|]. by intros [[[? ?] _]|?].
Qed.

Lemma scan_entries_quiet handles generation entries scan scan' :
  Forall (λ entry, is_canonical_uuid (me_unit_id entry) = true) entries →
  scan_entries handles generation scan entries = Some scan' → sc_findings scan' = [] →
  ∃ shown,
    sc_findings scan = [] ∧ Forall2 (EntryShows handles generation) entries shown ∧
    sc_operations scan' = sc_operations scan ++ omap id shown ∧
    (∀ name, name ∈ sc_expected scan' ↔ name ∈ sc_expected scan ∨ ∃ entry, entry ∈ entries ∧ name = unit_name entry) ∧
    (∀ k, k ∈ sc_fact_keys scan' ↔ k ∈ sc_fact_keys scan ∨ k ∈ changed_keys entries shown).
Proof.
  intros Hc. revert scan. induction Hc as [|entry entries Hc Hcs IH]; cbn [scan_entries]; intros scan Hs Hf.
  - injection Hs as <-. exists []. split_and!; [done|constructor|by rewrite app_nil_r| |].
    + intros name. split; [by left|]. intros [?|(? & Hn%elem_of_nil & _)]; done.
    + intros k. split; [by left|]. intros [?|Hn]; [done|]. by apply elem_of_nil in Hn.
  - destruct (scan_entry handles generation scan entry) as [scan1|] eqn:Hs1; [|done].
    cbn [mbind option_bind] in Hs.
    destruct (IH scan1 Hs Hf) as (shown & Hf1 & Hshown & Hops & Hexp & Hkeys).
    destruct (scan_entry_quiet _ _ _ _ _ Hc Hs1 Hf1) as (operation & Ho & Hf0 & Hops1 & Hexp1 & Hkeys1).
    exists (operation :: shown). split_and!; [done|by constructor| | |].
    + rewrite Hops, Hops1, <-app_assoc. f_equal. by destruct operation.
    + intros name. rewrite Hexp, Hexp1, elem_of_union, elem_of_singleton. split.
      * intros [[->|?]|(e & He & ->)]; [right; exists entry; split; [left|]; done|by left|].
        right. exists e. split; [by right|done].
      * intros [?|(e & [->|He]%elem_of_cons & ->)]; [left; by right|left; by left|right; by exists e].
    + intros k. rewrite Hkeys, changed_keys_cons, Hkeys1.
      destruct operation as [operation|], (me_fact_key entry) as [key|]; rewrite ?elem_of_union, ?elem_of_singleton.
      all: naive_solver.
Qed.

(** ** The inbox *)

Lemma scan_inbox_quiet handles manifest taken names scan :
  ib_findings (foldl (scan_inbox_file handles manifest taken) scan names) = [] →
  ib_findings scan = [] ∧ ∃ facts,
    Forall2 (InboxShows handles) names facts ∧
    ib_operations (foldl (scan_inbox_file handles manifest taken) scan names) =
      ib_operations scan ++ map (λ fact, retained manifest (fst fact) (snd fact)) facts ∧
    NoDup facts.*1 ∧ (∀ key, key ∈ facts.*1 → key ∉ ib_fact_keys scan ∧ key ∉ taken).
Proof.
  revert scan. induction names as [|name names IH]; intros scan Hf; cbn [foldl] in *.
  - split; [done|]. exists []. split_and!; [constructor|by rewrite app_nil_r|constructor|].
    by intros key Hk%elem_of_nil.
  - apply IH in Hf as (Hf & facts & Hshows & Hops & Hnd & Hfresh). rewrite Hops. clear Hops.
    revert Hf Hfresh. unfold scan_inbox_file.
    destruct (is_safe_inbox_name name) eqn:Hsafe; cbn [negb].
    2:{ cbn. by intros [_ ?]%app_eq_nil. }
    destruct (read_regular_at (th_inbox handles) name MAX_MANAGED_FILE_BYTES) as [[bytes identity]|] eqn:Hr.
    2:{ cbn. by intros [_ ?]%app_eq_nil. }
    destruct (parse_inbox bytes) as [[key body]|] eqn:Hp.
    2:{ cbn. by intros [_ ?]%app_eq_nil. }
    unfold seen. cbn. destruct (bool_decide (key ∈ ib_fact_keys scan)) eqn:Hk.
    { cbn. by intros [_ ?]%app_eq_nil. }
    destruct (bool_decide (key ∈ taken)) eqn:Ht.
    { cbn. by intros [_ ?]%app_eq_nil. }
    apply bool_decide_eq_false in Hk, Ht. cbn. intros Hf Hfresh. split; [done|].
    exists ((key, body) :: facts). split_and!.
    + constructor; [|done]. split; [done|]. exists bytes, identity. split; [done|].
      by apply inbox_file_parsed.
    + by rewrite <-app_assoc.
    + cbn. constructor; [|done]. intros Hin. destruct (Hfresh key Hin) as [Hnot _].
      apply Hnot. by apply elem_of_union_l, elem_of_singleton.
    + cbn. intros k [->|Hin]%elem_of_cons; [done|]. destruct (Hfresh k Hin) as [Hnot ?]. split; [|done].
      intros Hin'. apply Hnot. by apply elem_of_union_r.
Qed.

(** ** Manifests *)

Definition entry_checked (entry : ManifestEntry) : Prop :=
  is_canonical_uuid (me_unit_id entry) = true ∧
  ∀ value, me_confidence entry = Some value → within_unit value = true.

Lemma entries_checked before entries : validate_entries before entries = [] → Forall entry_checked entries.
Proof.
  revert before. induction entries as [|entry entries IH]; intros before; [constructor|].
  cbn [validate_entries]. unfold validate_entry.
  destruct (validate_timestamp (me_valid_from entry) "valid_from" entry) as [from from_findings].
  destruct (validate_timestamp (me_valid_to entry) "valid_to" entry) as [to to_findings].
  intros [Hf Hrest]%app_eq_nil. constructor; [|by eapply IH]. quiet.
  split; [by apply negb_false_iff|]. intros value Hv.
  match goal with Hc : match me_confidence entry with _ => _ end = [] |- _ => rewrite Hv in Hc end.
  quiet. by apply negb_false_iff.
Qed.

Lemma manifest_checked manifest : validate_manifest_fields manifest = [] →
  Forall entry_checked (em_entries manifest).
Proof. unfold validate_manifest_fields. intros Hf. quiet. by eapply entries_checked. Qed.

Lemma names_quiet label directory names : names_or_finding label directory = (names, []) →
  directory_names directory = Ok names.
Proof. unfold names_or_finding. destruct (directory_names directory); [|done]. by intros [= ->]. Qed.

Lemma scan_entry_findings handles generation scan entry scan' :
  scan_entry handles generation scan entry = Some scan' → sc_findings scan' = [] → sc_findings scan = [].
Proof.
  assert (∀ findings s, sc_findings (find_that findings s) = [] → sc_findings s = []) as Hfind
    by by intros findings s [? _]%app_eq_nil.
  assert (∀ e op s, sc_findings (planned e op s) = [] → sc_findings s = []) as Hplanned by done.
  unfold scan_entry. destruct (misplaced entry); [intros [= <-]; apply Hfind|].
  destruct (parse_uuid (bytes_of (me_unit_id entry))) as [id|]; [|by intros [= <-]].
  unfold scan_file. destruct (dir_metadata _ _) as [|error|is_file is_symlink]; [by intros [= <-]|by intros [= <-] ?%Hfind|].
  destruct (negb is_file || is_symlink); [by intros [= <-] ?%Hfind|].
  destruct (read_regular_at _ _ _) as [[bytes identity]|]; [|by intros [= <-] ?%Hfind].
  destruct (parse_unit bytes) as [[[body footer]|]|]; cbn [mbind option_bind]; [| |done].
  - intros [= <-] Hf%scan_parsed_quiet. by destruct Hf.
  - by intros [= <-] ?%Hfind.
Qed.

Lemma scan_entries_findings handles generation entries scan scan' :
  scan_entries handles generation scan entries = Some scan' → sc_findings scan' = [] → sc_findings scan = [].
Proof.
  revert scan. induction entries as [|entry entries IH]; intros scan; cbn [scan_entries]; [by intros [= <-]|].
  destruct (scan_entry handles generation scan entry) as [scan1|] eqn:Hs; [|done]. cbn [mbind option_bind].
  intros Hrest Hf. eapply scan_entry_findings; [exact Hs|]. by eapply IH.
Qed.

(** What a scan without findings has seen. *)
Lemma scan_quiet handles snapshot : scan_sync_handles handles = Some (Ok snapshot) →
  ∃ shown facts names units,
    Forall2 (EntryShows handles (em_subject_generation (sy_manifest snapshot)))
      (em_entries (sy_manifest snapshot)) shown ∧
    directory_names (th_inbox handles) = Ok names ∧ Forall2 (InboxShows handles) names facts ∧
    NoDup facts.*1 ∧
    (∀ key, key ∈ facts.*1 → key ∉ changed_keys (em_entries (sy_manifest snapshot)) shown) ∧
    sy_operations snapshot = omap id shown ++
      map (λ fact, retained (sy_manifest snapshot) (fst fact) (snd fact)) facts ∧
    directory_names (th_units handles) = Ok units ∧
    (∀ name, name ∈ units → ∃ entry, entry ∈ em_entries (sy_manifest snapshot) ∧ name = unit_name entry).
Proof.
  unfold scan_sync_handles. destruct (open_manifest handles) as [[[[bytes identity] manifest] findings]|] eqn:Ho; [|done].
  destruct (scan_memory handles manifest) as [memory_findings memory].
  match goal with |- context [scan_entries handles _ ?scan0 _] => set (scan := scan0) end.
  destruct (scan_entries handles (em_subject_generation manifest) scan (em_entries manifest)) as [scan'|] eqn:Hs; [|done].
  cbn [mbind option_bind].
  destruct (names_or_finding UNITS_DIR (th_units handles)) as [units units_findings] eqn:Hu.
  destruct (names_or_finding INBOX_DIR (th_inbox handles)) as [inbox inbox_findings] eqn:Hi.
  destruct (names_or_finding "output root" (th_root handles)) as [names root_findings] eqn:Hr.
  match goal with |- context [is_empty ?fs] => destruct fs eqn:Hf end; [|done]. cbn [is_empty].
  intros [= <-]. cbn [sy_manifest sy_operations]. quiet. subst units_findings inbox_findings.
  assert (sc_findings scan' = []) as Hquiet by done.
  pose proof (scan_entries_findings _ _ _ _ _ Hs Hquiet) as Hfirst. subst scan. cbn [sc_findings] in Hfirst.
  apply app_eq_nil in Hfirst as [-> _].
  assert (Forall entry_checked (em_entries manifest)) as Hchecked.
  { revert Ho. unfold open_manifest.
    intros (_ & _ & Ho)%result_bind_ok. apply result_bind_ok in Ho as ([mb mi] & _ & Ho).
    apply result_bind_ok in Ho as (m & _ & Ho). injection Ho as -> -> -> Hfs. quiet.
    by apply manifest_checked. }
  destruct (scan_entries_quiet _ _ _ _ _ (Forall_impl _ _ _ Hchecked (λ e He, proj1 He)) Hs Hquiet)
    as (shown & _ & Hshown & Hops & Hexp & Hkeys).
  destruct (scan_inbox_quiet handles manifest (sc_fact_keys scan') inbox (mkInboxScan [] [] [] ∅))
    as (_ & facts & Hfacts & Hinbox & Hnd & Hfresh); [done|].
  exists shown, facts, inbox, units. split_and!.
  - done.
  - by eapply names_quiet.
  - done.
  - done.
  - intros key Hkey Hin. destruct (Hfresh key Hkey) as [_ Hnot]. apply Hnot, Hkeys. by right.
  - by rewrite Hops, Hinbox.
  - by eapply names_quiet.
  - intros name Hname.
    match goal with Hunexpected : flat_map _ units = [] |- _ =>
      rewrite flat_map_nil in Hunexpected; specialize (Hunexpected name Hname) end.
    quiet. match goal with Hseen : negb (seen _ _) = false |- _ =>
      apply negb_false_iff, bool_decide_eq_true, Hexp in Hseen as [Hn|?] end; [|done].
    by apply elem_of_empty in Hn.
Qed.

(** ** The other way: what is shown is planned *)

Lemma finite_compare x : f32_is_finite x = true → f32_partial_cmp x x = Some Eq.
Proof.
  unfold f32_is_finite, f32_partial_cmp, f32_decode. intros ->%negb_true_iff.
  assert (∀ s m e, SpecFloat.SFcompare (SpecFloat.S754_finite s m e) (SpecFloat.S754_finite s m e) = Some Eq) as Hfin.
  { intros [] m e; simpl; rewrite Z.compare_refl, Pos.compare_cont_refl; done. }
  assert (∀ s n e, SpecFloat.SFcompare (finite_of s n e) (finite_of s n e) = Some Eq) as Hof.
  { intros s [|p] e; simpl finite_of; [by destruct s|apply Hfin]. }
  destruct (f32_exponent x =? 0); apply Hof.
Qed.

Lemma confidence_eq_refl c : (∀ value, c = Some value → within_unit value = true) → confidence_eq c c = true.
Proof.
  destruct c as [value|]; [|done]. intros Hc. specialize (Hc value eq_refl). unfold within_unit in Hc.
  apply andb_true_iff in Hc as [[Hfin _]%andb_true_iff _]. simpl. unfold f32_eq, f32_le.
  by rewrite (finite_compare _ Hfin).
Qed.

Lemma validate_footer_own generation entry id body : entry_checked entry →
  parse_uuid (bytes_of (me_unit_id entry)) = Some id →
  validate_footer entry generation (footer_of generation (projected_unit entry id body)) = [].
Proof.
  intros [Hc Hconf] Hid. unfold is_canonical_uuid in Hc. rewrite Hid in Hc.
  apply bool_decide_eq_true in Hc. injection Hc as Hc.
  unfold validate_footer, footer_eq, footer_of, projected_unit. cbn. rewrite Hc.
  rewrite !bool_decide_eq_true_2, N.eqb_refl, confidence_eq_refl by done. done.
Qed.

(** The footer of an entry's unit reads back, and its file is where it should be. *)
Definition entry_readable (generation : N) (entry : ManifestEntry) : Prop :=
  entry_checked entry ∧ misplaced entry = None ∧
  ∀ id body, parse_uuid (bytes_of (me_unit_id entry)) = Some id →
    footer_reads_back generation (projected_unit entry id body).

Lemma shown_file_parses handles generation entry id bytes body :
  entry_readable generation entry → parse_uuid (bytes_of (me_unit_id entry)) = Some id →
  FileShows handles generation entry id bytes body →
  parse_unit bytes = Some (Ok (body, footer_of generation (projected_unit entry id body))).
Proof.
  intros (_ & _ & Hread) Hid [_ _ Hr Hu].
  exact (unit_file_reads_back generation (projected_unit entry id body) bytes Hr (Hread id body Hid) Hu).
Qed.

Lemma scan_entry_shown handles generation scan entry operation :
  entry_readable generation entry → EntryShows handles generation entry operation →
  sc_findings scan = [] →
  ∃ scan', scan_entry handles generation scan entry = Some scan' ∧ sc_findings scan' = [].
Proof.
  intros Hread Hshows Hf. unfold scan_entry. destruct Hread as (Hchecked & Hplace & Hfooter) eqn:Hr. rewrite Hplace.
  destruct Hshows as [id Hid Hm|id bytes body Hid Hfile Hb Hw|id bytes body Hid Hfile Hb Ht]; rewrite Hid;
    unfold scan_file; fold (unit_name entry).
  { rewrite Hm. by eexists. }
  all: pose proof (shown_file_parses _ _ _ _ _ _ Hread Hid Hfile) as Hp;
    destruct Hfile as [Hm [identity Hrd] Hrender _]; rewrite Hm; cbn [negb orb]; rewrite Hrd, Hp;
    cbn [mbind option_bind]; eexists; (split; [done|]);
    unfold scan_parsed; rewrite validate_footer_own by done;
    change (fm_unit_id (file_sync_metadata entry id)) with id; rewrite Hrender;
    rewrite (bool_decide_eq_true_2 (bytes = bytes)) by done.
  - rewrite Hb, Hw, !bool_decide_eq_true_2 by done. cbn. by rewrite Hf.
  - rewrite bool_decide_eq_false_2, Ht by done. cbn. by rewrite Hf.
Qed.

Lemma scan_entries_shown handles generation entries shown scan :
  Forall (entry_readable generation) entries →
  Forall2 (EntryShows handles generation) entries shown → sc_findings scan = [] →
  ∃ scan', scan_entries handles generation scan entries = Some scan' ∧ sc_findings scan' = [].
Proof.
  intros Hread Hshown. revert scan. induction Hshown as [|entry operation entries shown Ho _ IH];
    intros scan Hf; cbn [scan_entries]; [by exists scan|].
  apply Forall_cons in Hread as [Hr Hread].
  destruct (scan_entry_shown _ _ scan _ _ Hr Ho Hf) as (scan1 & -> & Hf1). cbn [mbind option_bind].
  by apply IH.
Qed.

(** An entry shows one thing, so what is shown determines the plan. *)
Lemma entry_shows_one handles generation entry a b : entry_readable generation entry →
  EntryShows handles generation entry a → EntryShows handles generation entry b → a = b.
Proof.
  intros Hread Ha Hb.
  assert (∀ id bytes body id' bytes' body',
    parse_uuid (bytes_of (me_unit_id entry)) = Some id → parse_uuid (bytes_of (me_unit_id entry)) = Some id' →
    FileShows handles generation entry id bytes body → FileShows handles generation entry id' bytes' body' →
    body = body') as Hbody.
  { intros id bytes body id' bytes' body' Hid Hid' Hs Hs'.
    pose proof (shown_file_parses _ _ _ _ _ _ Hread Hid Hs) as Hp.
    pose proof (shown_file_parses _ _ _ _ _ _ Hread Hid' Hs') as Hp'.
    destruct Hs as [_ [? Hr] _ _], Hs' as [_ [? Hr'] _ _]. rewrite Hr in Hr'. injection Hr' as -> _. congruence. }
  destruct Ha as [id Hid Hm|id bytes body Hid Hs Hsha Hw|id bytes body Hid Hs Hsha Ht];
    destruct Hb as [id' Hid' Hm'|id' bytes' body' Hid' Hs' Hsha' Hw'|id' bytes' body' Hid' Hs' Hsha' Ht'];
    try congruence; try (destruct Hs as [Hm0 _ _ _]; congruence); try (destruct Hs' as [Hm0 _ _ _]; congruence).
  - pose proof (Hbody _ _ _ _ _ _ Hid Hid' Hs Hs'). congruence.
  - pose proof (Hbody _ _ _ _ _ _ Hid Hid' Hs Hs'). congruence.
  - pose proof (Hbody _ _ _ _ _ _ Hid Hid' Hs Hs'). congruence.
Qed.

Lemma inbox_shows_one handles name a b : InboxShows handles name a → InboxShows handles name b → a = b.
Proof.
  intros (_ & bytes & i & Hr & Hf%inbox_file_parses) (_ & bytes' & i' & Hr' & Hf'%inbox_file_parses).
  destruct a, b. simpl in *. congruence.
Qed.

Lemma scan_inbox_shown handles manifest taken names facts scan :
  Forall2 (InboxShows handles) names facts → NoDup facts.*1 →
  (∀ key, key ∈ facts.*1 → key ∉ ib_fact_keys scan ∧ key ∉ taken) → ib_findings scan = [] →
  ib_findings (foldl (scan_inbox_file handles manifest taken) scan names) = [].
Proof.
  intros Hshown. revert scan. induction Hshown as [|name [key body] names facts Hs _ IH];
    intros scan Hnd Hfresh Hf; cbn [foldl]; [done|].
  cbn in Hnd, Hfresh. apply NoDup_cons in Hnd as [Hnew Hnd].
  destruct (Hfresh key) as [Hk Ht]; [by left|].
  assert (∃ files, scan_inbox_file handles manifest taken scan name =
    mkInboxScan [] files (ib_operations scan ++ [retained manifest key body]) ({[key]} ∪ ib_fact_keys scan))
    as (files & ->).
  { destruct Hs as (Hsafe & bytes & identity & Hr & Hp%inbox_file_parses). unfold scan_inbox_file.
    rewrite Hsafe, Hr. cbn [negb]. rewrite Hp. unfold seen. cbn.
    rewrite !bool_decide_eq_false_2 by done. cbn. destruct scan. cbn in *. subst. by eexists. }
  apply IH; [done| |done]. cbn. intros k Hin. destruct (Hfresh k) as [Hk' Ht']; [by right|]. split; [|done].
  intros [->%elem_of_singleton|?]%elem_of_union; done.
Qed.

Lemma forall2_one {A B} (R : A → B → Prop) l k k' :
  (∀ x y y', x ∈ l → R x y → R x y' → y = y') → Forall2 R l k → Forall2 R l k' → k = k'.
Proof.
  intros Hone Hk. revert k'. induction Hk as [|x y l k Hxy _ IH]; intros k' Hk'.
  - by inversion Hk'.
  - apply Forall2_cons_inv_l in Hk' as (y' & k2 & Hxy' & Hk2 & ->). f_equal.
    + by eapply (Hone x); [left| |].
    + apply IH; [|done]. intros z ? ? Hz. apply Hone. by right.
Qed.

(** The frame of a tree: its generated files are as compiled, the directories
    hold nothing else. *)
Record HoldsExport (handles : TreeHandles) (rendered : RenderedProjection) (inbox : list string)
    : Prop := mkHoldsExport {
  he_before : th_bound_before handles = Ok ();
  he_after : th_bound_after handles = Ok ();
  he_manifest : ∃ identity, read_regular_at (th_root handles) MANIFEST_FILE MAX_MANIFEST_BYTES =
    Ok (rp_manifest_bytes rendered, identity);
  he_memory : ∃ identity, read_regular_at (th_root handles) MEMORY_FILE MAX_MANAGED_FILE_BYTES =
    Ok (rp_memory rendered, identity);
  he_root : ∃ names, directory_names (th_root handles) = Ok names ∧ ∀ name, name ∈ names ↔ name ∈ root_names;
  he_units : ∃ names, directory_names (th_units handles) = Ok names ∧
    ∀ name, name ∈ names → ∃ entry, entry ∈ em_entries (rp_manifest rendered) ∧ name = unit_name entry;
  he_inbox : directory_names (th_inbox handles) = Ok inbox;
}.

Lemma scan_shown handles rendered scope inbox shown facts :
  read_manifest (rp_manifest_bytes rendered) = Ok (rp_manifest rendered) →
  validate_manifest_fields (rp_manifest rendered) = [] →
  canonical_manifest_bytes (rp_manifest rendered) = Ok (rp_manifest_bytes rendered) →
  parse_uuid (bytes_of (em_scope_id (rp_manifest rendered))) = Some scope →
  rp_memory rendered = render_memory scope (em_snapshot_sha256 (rp_manifest rendered))
                         (em_entries (rp_manifest rendered)) →
  sha256_hex (rp_memory rendered) = em_memory_sha256 (rp_manifest rendered) →
  Forall (entry_readable (em_subject_generation (rp_manifest rendered))) (em_entries (rp_manifest rendered)) →
  HoldsExport handles rendered inbox →
  Forall2 (EntryShows handles (em_subject_generation (rp_manifest rendered)))
    (em_entries (rp_manifest rendered)) shown →
  Forall2 (InboxShows handles) inbox facts → NoDup facts.*1 →
  (∀ key, key ∈ facts.*1 → key ∉ changed_keys (em_entries (rp_manifest rendered)) shown) →
  ∃ snapshot, scan_sync_handles handles = Some (Ok snapshot) ∧ sy_manifest snapshot = rp_manifest rendered ∧
    sy_operations snapshot = omap id shown ++
      map (λ fact, retained (rp_manifest rendered) (fst fact) (snd fact)) facts.
Proof.
  intros Hread Hfields Hcanon Hscope Hmem Hsha Hreadable Htree Hshown Hfacts Hnd Hfresh.
  assert (∃ snapshot, scan_sync_handles handles = Some (Ok snapshot) ∧
                      sy_manifest snapshot = rp_manifest rendered) as (snapshot & Hs & Hm).
  { destruct Htree as [Hb Ha [mi Hmr] [yi Hyr] (rnames & Hroot & Hrn) (unames & Hunits & Hun) Hin].
    unfold scan_sync_handles.
    assert (open_manifest handles = Ok (rp_manifest_bytes rendered, mi, rp_manifest rendered, [])) as ->.
    { unfold open_manifest. rewrite Hb, Hmr. cbn [map_err result_bind]. rewrite Hread. cbn [map_err result_bind].
      by rewrite Hfields, Hcanon, bool_decide_eq_true_2. }
    unfold scan_memory. rewrite Hyr, Hscope. cbn [fmap option_fmap option_map].
    rewrite <-Hmem, Hsha, !bool_decide_eq_true_2 by done. cbn [negb orb when app].
    match goal with |- context [scan_entries handles _ ?scan0 _] => set (scan := scan0) end.
    destruct (scan_entries_shown handles _ _ shown scan Hreadable Hshown eq_refl) as (scan' & Hs' & Hf').
    rewrite Hs'. cbn [mbind option_bind].
    assert (Forall (λ entry, is_canonical_uuid (me_unit_id entry) = true) (em_entries (rp_manifest rendered))) as Hcan
      by (eapply Forall_impl; [exact Hreadable|]; by intros entry [[? _] _]).
    destruct (scan_entries_quiet _ _ _ _ _ Hcan Hs' Hf') as (shown' & _ & Hshown' & _ & Hexp & Hkeys).
    assert (shown' = shown) as ->.
    { eapply forall2_one; [|exact Hshown'|exact Hshown]. intros entry a b Hin'. apply entry_shows_one.
      by eapply Forall_forall in Hin'. }
    unfold names_or_finding. rewrite Hunits, Hin, Hroot. cbn [app].
    rewrite (scan_inbox_shown handles _ (sc_fact_keys scan') inbox facts (mkInboxScan [] [] [] ∅));
      [|done|done| |done].
    2:{ intros key Hkey. split; [by apply not_elem_of_empty|]. rewrite Hkeys. subst scan. cbn [sc_fact_keys].
        intros [Hno|Hc]; [by apply not_elem_of_empty in Hno|by apply (Hfresh key)]. }
    rewrite Hf'. unfold bound_findings. rewrite Ha.
    assert (flat_map (λ name, when (negb (seen name (sc_expected scan')))
                               (UNITS_DIR +:+ "/" +:+ name +:+ ": unexpected path")) unames = []) as ->.
    { apply flat_map_nil. intros name Hname. apply when_nil, negb_false_iff, bool_decide_eq_true, Hexp.
      right. by apply Hun. }
    rewrite (mismatches_nil rnames root_names) by done.
    cbn [app is_empty]. by eexists. }
  exists snapshot. split_and!; [done|done|].
  destruct (scan_quiet _ _ Hs) as (shown' & facts' & names & units & Hsh' & Hn & Hf' & _ & _ & Hops & _).
  rewrite Hm in Hsh', Hops. rewrite Hops.
  rewrite (he_inbox _ _ _ Htree) in Hn. injection Hn as <-.
  assert (shown' = shown) as ->.
  { eapply forall2_one; [|exact Hsh'|exact Hshown]. intros entry a b Hin'. apply entry_shows_one.
    by eapply Forall_forall in Hin'. }
  assert (facts' = facts) as ->; [|done].
  eapply forall2_one; [|exact Hf'|exact Hfacts]. intros name a b _. apply inbox_shows_one.
Qed.

(** ** Compiled trees *)

Lemma hex_from_bytes d n : Forall (λ b, 48 <= b) (bytes_of (hex_from d n)) ∧
  length (bytes_of (hex_from d n)) = d.
Proof.
  induction d as [|d [IHf IHl]]; [done|]. cbn [hex_from].
  change (bytes_of (String.String ?a ?s)) with (Ascii.N_of_ascii a :: bytes_of s). cbn [length].
  rewrite IHl. split; [|done]. constructor; [|done]. unfold hex_digit.
  set (digit := N.land (N.shiftr n (4 * N.of_nat d)) 15).
  assert (digit < 16) as Hd.
  { subst digit. change 15 with (N.ones 4). rewrite N.land_ones. by apply N.mod_lt. }
  rewrite Ascii.N_ascii_embedding; destruct (digit <? 10); lia.
Qed.

Lemma uuid_string_bytes id : Forall (λ b, b ≠ 47 ∧ b ≠ 46) (bytes_of (uuid_string id)) ∧
  length (bytes_of (uuid_string id)) = 36%nat.
Proof.
  unfold uuid_string. rewrite !bytes_of_app, !length_app.
  rewrite !(proj2 (hex_from_bytes _ _)). split; [|done].
  assert (∀ d n, Forall (λ b, b ≠ 47 ∧ b ≠ 46) (bytes_of (hex_from d n))) as Hhex.
  { intros d n. eapply Forall_impl; [apply hex_from_bytes|]. cbn. intros b Hb. lia. }
  repeat (apply Forall_app; split); try apply Hhex; by repeat constructor.
Qed.

Lemma avoids (x : N) l : Forall (λ a, a ≠ x) l ↔ x ∉ l.
Proof. rewrite Forall_forall. split; [by intros Hl Hx; destruct (Hl x Hx)|]. by intros Hx a Ha ->. Qed.

Lemma unit_path_safe id : is_safe_relative_unit_path (unit_path (uuid_string id)) = true.
Proof.
  destruct (uuid_string_bytes id) as [Hb Hlen]. unfold is_safe_relative_unit_path, components.
  assert (parts_of slash (unit_path (uuid_string id)) =
          [bytes_of UNITS_DIR; bytes_of (uuid_string id) ++ bytes_of ".md"]) as ->.
  { unfold parts_of, unit_path. rewrite !bytes_of_app.
    change (bytes_of "/" ++ ?r) with (slash :: r).
    assert (slash ∉ bytes_of UNITS_DIR) as Hdir by (rewrite <-avoids; repeat constructor; done).
    rewrite split_on_app by exact Hdir. f_equal. apply split_on_plain. intros [Hin|Hin]%elem_of_app.
    - rewrite Forall_forall in Hb. by destruct (Hb _ Hin).
    - revert Hin. apply avoids. repeat constructor; done. }
  assert (begins "/" (unit_path (uuid_string id)) = false) as -> by done.
  assert (component (bytes_of (uuid_string id) ++ bytes_of ".md") =
          Some (Component.Normal (bytes_of (uuid_string id) ++ bytes_of ".md"))) as Hc.
  { unfold component.
    rewrite !bool_decide_eq_false_2 by (intros E%(f_equal length); by rewrite length_app, Hlen in E).
    by destruct (bytes_of (uuid_string id)). }
  cbn [omap list_omap]. rewrite Hc. done.
Qed.

(** The entry of an item, with the hash of its file. *)
Definition EntryOf (generation : N) (item : CanonicalProjectionUnit) (entry : ManifestEntry) : Prop :=
  ∃ bytes, render_unit generation item = Ok bytes ∧ sha256_hex (pj_body item) = pj_body_sha256 item ∧
    entry = entry_of (uuid_string (pj_unit_id item)) (unit_path (uuid_string (pj_unit_id item)))
              (sha256_hex bytes) item.

Lemma rendered_items generation before items units entries :
  render_items generation before items = Ok (units, entries) → Forall2 (EntryOf generation) items entries.
Proof.
  revert before units entries. induction items as [|item items IH]; intros before units entries; cbn [render_items].
  - intros [= _ <-]. constructor.
  - intros (after & Hc & Hr)%result_bind_ok. apply result_bind_ok in Hr as (bytes & Hb & Hr).
    apply result_bind_ok in Hr as ([units' entries'] & Hrest & [= _ <-]). constructor; [|by eapply IH].
    exists bytes. split_and!; [done| |done].
    revert Hc. unfold check_item. intros (_ & _ & Hc)%result_bind_ok.
    do 5 (apply result_bind_ok in Hc as (? & _ & Hc)).
    apply result_bind_ok in Hc as (? & Hsha & _).
    destruct (bool_decide (pj_body_sha256 item = sha256_hex (pj_body item))) eqn:E; [|done].
    by apply bool_decide_eq_true in E.
Qed.

Lemma rendered_projection response rendered : render_projection response = Ok rendered →
  validate_manifest_fields (rp_manifest rendered) = [] ∧
  canonical_manifest_bytes (rp_manifest rendered) = Ok (rp_manifest_bytes rendered) ∧
  rp_memory rendered = render_memory (cpr_scope_id response) (em_snapshot_sha256 (rp_manifest rendered))
                         (em_entries (rp_manifest rendered)) ∧
  sha256_hex (rp_memory rendered) = em_memory_sha256 (rp_manifest rendered) ∧
  em_scope_id (rp_manifest rendered) = uuid_string (cpr_scope_id response) ∧
  em_subject_generation (rp_manifest rendered) = cpr_subject_generation response ∧
  Forall2 (EntryOf (cpr_subject_generation response)) (cpr_items response) (em_entries (rp_manifest rendered)).
Proof.
  unfold render_projection. intros ([units entries] & Hitems & Hr)%result_bind_ok.
  destruct (validate_manifest_fields (manifest_of response entries)) eqn:Hf; [|done].
  cbn [is_empty result_bind] in Hr. apply result_bind_ok in Hr as (bytes & Hb & [= <-]).
  cbn. split_and!; try done. by eapply rendered_items.
Qed.

(** What an item needs to be edited as a file: its identifier is a UUID and its
    footer reads back. *)
Definition item_readable (generation : N) (item : CanonicalProjectionUnit) : Prop :=
  parse_uuid (bytes_of (uuid_string (pj_unit_id item))) = Some (pj_unit_id item) ∧
  footer_reads_back generation item.

Lemma rendered_readable generation items entries :
  Forall2 (EntryOf generation) items entries → Forall (item_readable generation) items →
  Forall entry_checked entries → Forall (entry_readable generation) entries.
Proof.
  induction 1 as [|item entry items entries (bytes & Hr & Hsha & ->) _ IH]; [constructor|].
  intros [[Hid Hfooter] Hitems]%Forall_cons [Hc Hcs]%Forall_cons. constructor; [|by apply IH].
  split; [done|]. split.
  - unfold misplaced. cbn [me_path me_unit_id entry_of].
    by rewrite bool_decide_eq_true_2, unit_path_safe by done.
  - cbn [me_unit_id entry_of]. intros id body Hid'. rewrite Hid in Hid'. injection Hid' as <-.
    exact Hfooter.
Qed.

Lemma export_scan response rendered handles inbox shown facts :
  render_projection response = Ok rendered →
  read_manifest (rp_manifest_bytes rendered) = Ok (rp_manifest rendered) →
  parse_uuid (bytes_of (uuid_string (cpr_scope_id response))) = Some (cpr_scope_id response) →
  Forall (item_readable (cpr_subject_generation response)) (cpr_items response) →
  HoldsExport handles rendered inbox →
  Forall2 (EntryShows handles (cpr_subject_generation response)) (em_entries (rp_manifest rendered)) shown →
  Forall2 (InboxShows handles) inbox facts → NoDup facts.*1 →
  (∀ key, key ∈ facts.*1 → key ∉ changed_keys (em_entries (rp_manifest rendered)) shown) →
  ∃ snapshot, scan_sync_handles handles = Some (Ok snapshot) ∧ sy_manifest snapshot = rp_manifest rendered ∧
    sy_operations snapshot = omap id shown ++
      map (λ fact, retained (rp_manifest rendered) (fst fact) (snd fact)) facts.
Proof.
  intros Hr Hread Hscope Hitems Htree Hshown.
  destruct (rendered_projection _ _ Hr) as (Hf & Hc & Hm & Hsha & Hsc & Hg & Hentries).
  rewrite <-Hg in *. rewrite <-Hsc in Hscope.
  apply (scan_shown handles rendered (cpr_scope_id response)); try done.
  eapply rendered_readable; [done|done|]. by apply manifest_checked.
Qed.

(** The tree a compile leaves: its unit files are the rendered ones. *)
Record FreshTree (handles : TreeHandles) (response : CanonicalProjectionResponse)
    (rendered : RenderedProjection) : Prop := mkFreshTree {
  ft_holds : HoldsExport handles rendered [];
  ft_names : ∃ names, directory_names (th_units handles) = Ok names ∧
    ∀ entry, entry ∈ em_entries (rp_manifest rendered) → unit_name entry ∈ names;
  ft_units : ∀ item bytes, item ∈ cpr_items response →
    render_unit (cpr_subject_generation response) item = Ok bytes →
    dir_metadata (th_units handles) (uuid_string (pj_unit_id item) +:+ ".md") = Inspected.Found true false ∧
    (∃ identity, read_regular_at (th_units handles) (uuid_string (pj_unit_id item) +:+ ".md")
                   MAX_MANAGED_FILE_BYTES = Ok (bytes, identity)) ∧
    valid_utf8 (bytes_of bytes) = true;
}.

Lemma fresh_shows generation handles items entries :
  Forall2 (EntryOf generation) items entries → Forall (item_readable generation) items →
  (∀ item bytes, item ∈ items → render_unit generation item = Ok bytes →
    dir_metadata (th_units handles) (uuid_string (pj_unit_id item) +:+ ".md") = Inspected.Found true false ∧
    (∃ identity, read_regular_at (th_units handles) (uuid_string (pj_unit_id item) +:+ ".md")
                   MAX_MANAGED_FILE_BYTES = Ok (bytes, identity)) ∧
    valid_utf8 (bytes_of bytes) = true) →
  Forall2 (EntryShows handles generation) entries (map (λ _, None) entries).
Proof.
  induction 1 as [|item entry items entries (bytes & Hr & Hsha & ->) _ IH]; [constructor|].
  intros [[Hid _] Hitems]%Forall_cons Hfiles. constructor.
  - destruct (Hfiles item bytes) as (Hm & Hread & Hu); [by left|done|].
    eapply (shows_kept _ _ _ (pj_unit_id item) bytes (pj_body item)); [exact Hid| |exact Hsha|done].
    split; [done..| |done]. by destruct item.
  - apply IH; [done|]. intros item' bytes' Hin. apply Hfiles. by right.
Qed.

Lemma omap_none {A B} (l : list A) : omap id (map (λ _, None) l) = @nil B.
Proof. induction l as [|x l IH]; [done|]. exact IH. Qed.

Lemma fresh_scan response rendered handles :
  render_projection response = Ok rendered →
  read_manifest (rp_manifest_bytes rendered) = Ok (rp_manifest rendered) →
  parse_uuid (bytes_of (uuid_string (cpr_scope_id response))) = Some (cpr_scope_id response) →
  Forall (item_readable (cpr_subject_generation response)) (cpr_items response) →
  FreshTree handles response rendered →
  ∃ snapshot, scan_sync_handles handles = Some (Ok snapshot) ∧ sy_manifest snapshot = rp_manifest rendered ∧
    sy_operations snapshot = [].
Proof.
  intros Hr Hread Hscope Hitems [Htree _ Hfiles].
  destruct (rendered_projection _ _ Hr) as (_ & _ & _ & _ & _ & _ & Hentries).
  destruct (export_scan _ _ handles [] (map (λ _, None) (em_entries (rp_manifest rendered))) [] Hr Hread Hscope
              Hitems Htree) as (snapshot & Hs & Hm & Ho).
  - by eapply fresh_shows.
  - constructor.
  - constructor.
  - by intros key Hk%elem_of_nil.
  - exists snapshot. split_and!; [done..|]. by rewrite Ho, omap_none.
Qed.

(** ** A compiled tree verifies *)

Lemma export_entry_fresh handles generation item entry scan :
  EntryOf generation item entry → entry_readable generation entry → item_readable generation item →
  (∀ bytes, render_unit generation item = Ok bytes →
    (∃ identity, read_regular_at (th_units handles) (uuid_string (pj_unit_id item) +:+ ".md")
                   MAX_MANAGED_FILE_BYTES = Ok (bytes, identity)) ∧
    valid_utf8 (bytes_of bytes) = true) →
  ∃ managed units, validate_export_entry handles generation scan entry =
    Some (mkExportScan (ex_findings scan) managed ({[unit_name entry]} ∪ ex_expected scan)
            (ex_items scan ++ [item]) units).
Proof.
  intros (bytes & Hr & Hsha & ->) (Hchecked & Hplace & _) [Hid Hfooter] Hfile.
  destruct (Hfile bytes Hr) as ([identity Hrd] & Hu).
  pose proof (unit_file_reads_back _ _ _ Hr Hfooter Hu) as Hp.
  set (entry := entry_of _ _ _ item) in *.
  assert (Hown : projected_unit entry (pj_unit_id item) (pj_body item) = item) by by destruct item.
  assert (Hid' : parse_uuid (bytes_of (me_unit_id entry)) = Some (pj_unit_id item)) by exact Hid.
  pose proof (validate_footer_own generation entry _ (pj_body item) Hchecked Hid') as Hv. rewrite Hown in Hv.
  unfold validate_export_entry. rewrite Hplace.
  change (me_unit_id entry) with (uuid_string (pj_unit_id item)). rewrite Hrd, Hp.
  cbn [mbind option_bind]. rewrite Hv, Hid.
  change (me_file_sha256 entry) with (sha256_hex bytes).
  change (me_body_sha256 entry) with (pj_body_sha256 item).
  rewrite Hsha, !bool_decide_eq_true_2, Hown by done.
  unfold export_found. cbn. rewrite !app_nil_r. by do 2 eexists.
Qed.

Lemma export_entries_fresh handles generation items entries scan :
  Forall2 (EntryOf generation) items entries → Forall (entry_readable generation) entries →
  Forall (item_readable generation) items →
  (∀ item bytes, item ∈ items → render_unit generation item = Ok bytes →
    (∃ identity, read_regular_at (th_units handles) (uuid_string (pj_unit_id item) +:+ ".md")
                   MAX_MANAGED_FILE_BYTES = Ok (bytes, identity)) ∧
    valid_utf8 (bytes_of bytes) = true) →
  ∃ scan', validate_export_entries handles generation scan entries = Some scan' ∧
    ex_findings scan' = ex_findings scan ∧ ex_items scan' = ex_items scan ++ items ∧
    (∀ name, name ∈ ex_expected scan' ↔ name ∈ ex_expected scan ∨ ∃ entry, entry ∈ entries ∧ name = unit_name entry).
Proof.
  intros He. revert scan. induction He as [|item entry items entries He _ IH]; intros scan Hre Hri Hfiles;
    cbn [validate_export_entries].
  - exists scan. split_and!; [done|done|by rewrite app_nil_r|]. intros name. split; [by left|].
    intros [?|(? & Hn%elem_of_nil & _)]; done.
  - apply Forall_cons in Hre as [Hre Hres], Hri as [Hri Hris].
    destruct (export_entry_fresh handles generation item entry scan He Hre Hri) as (managed & units & ->).
    { intros bytes. apply Hfiles. by left. }
    cbn [mbind option_bind].
    match goal with |- context [validate_export_entries _ _ ?s _] => set (scan1 := s) end.
    destruct (IH scan1 Hres Hris) as (scan' & Hs & Hf & Hi & Hexp).
    { intros it bytes Hin. apply Hfiles. by right. }
    exists scan'. split_and!; [done|done| |].
    + rewrite Hi. subst scan1. cbn [ex_items]. by rewrite <-app_assoc.
    + intros name. rewrite Hexp. subst scan1. cbn [ex_expected].
      rewrite elem_of_union, elem_of_singleton. setoid_rewrite elem_of_cons. naive_solver.
Qed.

Context `{Serialize (list CanonicalProjectionUnit)}.

Lemma fresh_verifies response rendered handles :
  render_projection response = Ok rendered →
  read_manifest (rp_manifest_bytes rendered) = Ok (rp_manifest rendered) →
  parse_uuid (bytes_of (uuid_string (cpr_scope_id response))) = Some (cpr_scope_id response) →
  Forall (item_readable (cpr_subject_generation response)) (cpr_items response) →
  canonical_projection_fingerprint (cpr_items response) = Ok (cpr_fingerprint response) →
  FreshTree handles response rendered →
  ∃ digest managed, validate_export_handles handles false = Some (Ok (rp_manifest rendered, digest, managed)).
Proof.
  intros Hr Hread Hscope Hitems Hprint [[Hb Ha [mi Hmr] [yi Hyr] (rnames & Hroot & Hrn) (unames & Hunits & Hun) Hin]
    (unames' & Hunits' & Hun') Hfiles].
  assert (unames' = unames) as -> by congruence.
  destruct (rendered_projection _ _ Hr) as (Hf & Hc & Hm & Hsha & Hsc & Hg & Hentries).
  assert (em_snapshot_sha256 (rp_manifest rendered) = cpr_fingerprint response) as Hsnap.
  { revert Hr. unfold render_projection. intros ([units entries] & _ & Hr)%result_bind_ok.
    apply result_bind_ok in Hr as (? & _ & Hr). by apply result_bind_ok in Hr as (? & _ & [= <-]). }
  unfold validate_export_handles.
  assert (open_manifest handles = Ok (rp_manifest_bytes rendered, mi, rp_manifest rendered, [])) as ->.
  { unfold open_manifest. rewrite Hb, Hmr. cbn [map_err result_bind]. rewrite Hread. cbn [map_err result_bind].
    by rewrite Hf, Hc, bool_decide_eq_true_2. }
  rewrite Hyr, Hsha, bool_decide_eq_true_2 by done. cbn [negb when app].
  match goal with |- context [validate_export_entries _ _ ?s _] => set (scan := s) end.
  rewrite Hg.
  destruct (export_entries_fresh handles (cpr_subject_generation response) _ _ scan Hentries) as
    (scan' & -> & Hf' & Hi' & Hexp').
  { eapply rendered_readable; [done|done|]. by apply manifest_checked. }
  { done. }
  { intros item bytes Hitem Hrender. by destruct (Hfiles item bytes Hitem Hrender) as (_ & ? & ?). }
  cbn [mbind option_bind]. unfold names_or_finding. rewrite Hunits, Hin, Hroot.
  rewrite Hf', Hi'. subst scan. cbn [ex_findings ex_items ex_expected] in *. cbn [app].
  rewrite (mismatches_nil rnames root_names) by done.
  rewrite (mismatches_nil [] ∅).
  2:{ intros name. split; [by intros ?%elem_of_nil|by intros ?%not_elem_of_empty]. }
  rewrite (mismatches_nil unames (ex_expected scan')).
  2:{ intros name. rewrite Hexp'. split; [intros Hname; right; by apply Hun|].
      intros [Hno|(entry & He & ->)]; [by apply not_elem_of_empty in Hno|by apply Hun']. }
  unfold export_agrees, bound_findings. rewrite Hsc, Hscope, Ha, <-Hm, bool_decide_eq_true_2 by done.
  cbn [negb when app].
  assert ((length (cpr_items response) =? length (em_entries (rp_manifest rendered)))%nat = true) as ->
    by (apply Nat.eqb_eq; by eapply Forall2_length).
  rewrite Hprint, Hsnap, bool_decide_eq_true_2 by done. cbn. by do 2 eexists.
Qed.

(** ** The properties *)

(** C15: A scan that finds nothing wrong plans exactly what the tree shows: for
    each entry of the manifest its file is gone and the unit is forgotten, or
    it is the compiled file and nothing is planned, or it is the unit with
    another body that is not blank and the unit is corrected; each inbox file
    is a well-formed fact with a key of its own that no corrected or forgotten
    unit has, and is retained; no other file is in the units directory. *)
Theorem scan_plans_only_what_it_shows handles snapshot :
  scan_sync_handles handles = Some (Ok snapshot) →
  ∃ shown facts names units,
    Forall2 (EntryShows handles (em_subject_generation (sy_manifest snapshot)))
      (em_entries (sy_manifest snapshot)) shown ∧
    directory_names (th_inbox handles) = Ok names ∧ Forall2 (InboxShows handles) names facts ∧
    NoDup facts.*1 ∧
    (∀ key, key ∈ facts.*1 → key ∉ changed_keys (em_entries (sy_manifest snapshot)) shown) ∧
    sy_operations snapshot = omap id shown ++
      map (λ fact, retained (sy_manifest snapshot) (fst fact) (snd fact)) facts ∧
    directory_names (th_units handles) = Ok units ∧
    (∀ name, name ∈ units → ∃ entry, entry ∈ em_entries (sy_manifest snapshot) ∧ name = unit_name entry).
Proof. apply scan_quiet. Qed.

(** C14: A compiled tree in which unit files were rewritten or removed and inbox
    files added is accepted, and its plan is those edits: the round trip from a
    projection to files, edits and back. *)
Theorem edited_export_plans_its_edits response rendered handles inbox shown facts :
  render_projection response = Ok rendered →
  read_manifest (rp_manifest_bytes rendered) = Ok (rp_manifest rendered) →
  parse_uuid (bytes_of (uuid_string (cpr_scope_id response))) = Some (cpr_scope_id response) →
  Forall (item_readable (cpr_subject_generation response)) (cpr_items response) →
  HoldsExport handles rendered inbox →
  Forall2 (EntryShows handles (cpr_subject_generation response)) (em_entries (rp_manifest rendered)) shown →
  Forall2 (InboxShows handles) inbox facts → NoDup facts.*1 →
  (∀ key, key ∈ facts.*1 → key ∉ changed_keys (em_entries (rp_manifest rendered)) shown) →
  ∃ snapshot, scan_sync_handles handles = Some (Ok snapshot) ∧ sy_manifest snapshot = rp_manifest rendered ∧
    sy_operations snapshot = omap id shown ++
      map (λ fact, retained (rp_manifest rendered) (fst fact) (snd fact)) facts.
Proof. apply export_scan. Qed.

(** The tree a compile leaves verifies, and a sync of it plans nothing. *)
Theorem fresh_export_is_clean response rendered handles :
  render_projection response = Ok rendered →
  read_manifest (rp_manifest_bytes rendered) = Ok (rp_manifest rendered) →
  parse_uuid (bytes_of (uuid_string (cpr_scope_id response))) = Some (cpr_scope_id response) →
  Forall (item_readable (cpr_subject_generation response)) (cpr_items response) →
  canonical_projection_fingerprint (cpr_items response) = Ok (cpr_fingerprint response) →
  FreshTree handles response rendered →
  (∃ digest managed, validate_export_handles handles false = Some (Ok (rp_manifest rendered, digest, managed))) ∧
  ∃ snapshot, scan_sync_handles handles = Some (Ok snapshot) ∧ sy_operations snapshot = [].
Proof.
  intros Hr Hread Hscope Hitems Hprint Hfresh. split; [by eapply fresh_verifies|].
  destruct (fresh_scan _ _ _ Hr Hread Hscope Hitems Hfresh) as (snapshot & ? & _ & ?). by exists snapshot.
Qed.

End facts.
