(* ===== verification/ServiceRecall.v ===== *)
(** * ServiceRecall: the recall of the service

    [recall], [recall_internal] and [scope_core] of
    [crates/memphant-core/src/service.rs]: the defaults of a request, the
    embedding of its query, the recall of the library, and the fallback to raw
    episodes when nothing was found and reflect jobs are pending.  Other
    callers run between the reads.  The embedding of a query, and what a trace
    row becomes when it is marked degraded, are interfaces.  The theorems follow
    the definitions. *)

From S2P Require Import Prelude Text Types Float Clock Bitemporal Lineage Store Stage Jobs Reads ReadFacts TextFacts.
From S2P Require Import Chunks Render Gate Pack Rerank Fuse Receipts Compile Dates Structured Rollup Deep Recall.
From S2P Require Import RecallFacts Prepare Reflect Requests Verbs FileSync.

Class QueryEmbedding := embed_query : list string → result string (list (list f32)).

(** The row of a trace with its [degradation] and [consolidation_lag_ms]. *)
Class DegradedRow := degraded_row : RecallDegradationDiagnostic → string → string.

Definition ENGINE_VERSION : string := "0.1.0-ws0".
Definition MAX_RECALL_LIMIT : N := 1000.
Definition MAX_RECALL_BUDGET_TOKENS : N := 1000000.

Record RecallHttpRequest : Set := mkRecallHttp {
  hq_identity : RequestIdentity;
  hq_query : string;
  hq_limit : option N;
  hq_budget_tokens : option N;
  hq_mode : option RecallMode.t;
  hq_include_beliefs : option bool;
  hq_compact_only : bool;
  hq_serve_captures : bool;
  hq_transaction_as_of : option string;
  hq_valid_at : option string;
  hq_aggregation_window : option AggregationWindow;
}.

Record ScopeCoreResponse : Set := mkScopeCore {
  scr_tenant_id : TenantId;
  scr_subject_id : SubjectId;
  scr_actor_id : ActorId;
  scr_scope_id : ScopeId;
  scr_agent_node_id : AgentNodeId;
  scr_subject_generation : N;
  scr_evaluated_at : string;
  scr_fingerprint : string;
  scr_token_budget : N;
  scr_items : list RecallContextItem;
  scr_trace_id : TraceId;
  scr_degraded : bool;
  scr_abstention : bool;
}.

Definition clamp (low high n : N) : N := N.max low (N.min n high).

(** The request of the library, with the defaults of the service. *)
Definition recall_request (context : ResolvedMemoryContext) (request : RecallHttpRequest)
    : RecallRequest := {|
  rq_context := context;
  rq_query := hq_query request;
  rq_k := clamp 1 MAX_RECALL_LIMIT (default 8 (hq_limit request));
  rq_budget_tokens := clamp 1 MAX_RECALL_BUDGET_TOKENS (default 512 (hq_budget_tokens request));
  rq_mode := default RecallMode.Fast (hq_mode request);
  rq_include_beliefs := default false (hq_include_beliefs request);
  rq_edge_expansion_enabled := false;
  rq_context_packing_abstention_enabled := true;
  rq_procedure_recall_enabled := true;
  rq_decay_enabled := true;
  rq_compact_only := hq_compact_only request;
  rq_serve_captures := hq_serve_captures request;
  rq_engine_version := ENGINE_VERSION;
  rq_transaction_as_of := hq_transaction_as_of request;
  rq_valid_at := hq_valid_at request;
  rq_aggregation_window := hq_aggregation_window request;
|}.

(** ** Raw episodes *)

Definition scored_episode (query_tokens : list (list N)) (episode : StoredEpisode)
    : option (StoredEpisode * f32) :=
  let score := token_set_overlap_text_score (ep_body episode) query_tokens in
  if f32_pos score then Some (episode, score) else None.

(** Higher scores first, then by body and by deduplication key. *)
Definition episode_order (left right : StoredEpisode * f32) : comparison :=
  match f32_cmp_or_equal right.2 left.2 with
  | Eq =>
      match str_cmp (ep_body left.1) (ep_body right.1) with
      | Eq => str_cmp (ep_dedup_key left.1) (ep_dedup_key right.1)
      | order => order
      end
  | order => order
  end.
Definition episode_leb (left right : StoredEpisode * f32) : bool := negb (is_gt (episode_order left right)).

(** The identifier mirrors the episode's. *)
Definition unit_id_for_episode (id : EpisodeId) : UnitId := id.

Definition degraded_item (episode : StoredEpisode) : RecallContextItem := {|
  it_unit_id := unit_id_for_episode (ep_id episode);
  it_body := ep_body episode;
  it_kind := MemoryKind.Episodic;
  it_derived_by := "raw_episode";
  it_inclusion_reason := "degraded_read_your_own_writes";
  it_citation_episode_id := None;
  it_citation_resource_id := None;
  it_derived_from_unit_ids := [];
  it_suppression_labels := [];
  it_correction := None;
|}.

Definition degraded_episode_items (episodes : list StoredEpisode) (query : string) (k : nat)
    : list RecallContextItem :=
  let query_tokens := content_query_tokens (tokenize query) in
  let scored := omap (scored_episode query_tokens) episodes in
  map (λ scored, degraded_item scored.1) (take k (sort_by episode_leb scored)).

(** In order, up to the item that would exceed the budget. *)
Fixpoint budget_fit_from (total budget_tokens : N) (items : list RecallContextItem)
    : list RecallContextItem :=
  match items with
  | [] => []
  | item :: items =>
      let cost := conservative_token_estimate (it_body item) in
      if budget_tokens <? total + cost then []
      else item :: budget_fit_from (total + cost) budget_tokens items
  end.
Definition budget_fit_items (items : list RecallContextItem) (budget_tokens : N)
    : list RecallContextItem := budget_fit_from 0 budget_tokens items.

Definition CONSOLIDATION_LAG_MS : N := 1.
Definition DEGRADED_EPISODE_LIMIT : nat := 256.

Definition diagnostic (items : list RecallContextItem) : RecallDegradationDiagnostic :=
  mkDegradation CONSOLIDATION_LAG_MS (map (λ item, (it_body item, it_kind item)) items).

Definition degraded_response (items : list RecallContextItem) (response : RecallResponse)
    : RecallResponse := {|
  rsp_trace_id := rsp_trace_id response;
  rsp_items := items;
  rsp_candidate_whitelist := [];
  rsp_citations := [];
  rsp_abstention := false;
  rsp_degraded := true;
  rsp_consolidation_lag_ms := CONSOLIDATION_LAG_MS;
  rsp_suppression_labels := rsp_suppression_labels response;
  rsp_deep := rsp_deep response;
  rsp_recall_time := rsp_recall_time response;
|}.

(** A response that is final, whatever is pending. *)
Definition is_final (request : RecallRequest) (response : RecallResponse) : bool :=
  negb (is_empty (rsp_items response)) ||
  bool_decide (rq_mode request = RecallMode.Deep) ||
  is_some (rq_transaction_as_of request) || is_some (rq_valid_at request) ||
  rq_compact_only request.

Section service.
Context `{HashOrder} `{Jiff} `{Sha256} `{Calendar} `{SerdeJson} `{DeepJson} `{TraceRow} `{DegradedRow}.
Context `{UnicodeAlphanumeric} `{UnicodeLowercase} `{UuidParse} `{LibM} `{Fsrs} `{CivilDate}.
Context `{EmbeddingProvider} `{QueryEmbedding} `{Serialize (list CanonicalProjectionUnit)}.
Context (meanwhile : Window.t → InMemoryState → InMemoryState).

(** The embedding of the query under the profile of the embedder. *)
Definition query_vector (query : string) : result ServiceError.t (option VectorQuery) :=
  if 0 <? dimensions then
    vectors <-? map_err (λ error, store_error (StoreError.Backend ("query embedding failed: " +:+ error)))
                  (embed_query [query]);
    Ok (match vectors with
        | (_ :: _) as vector :: _ => Some (mkVectorQuery vector (pr_id embedding_profile_for))
        | _ => None
        end)
  else Ok None.

(** Marks the trace of a response as degraded. *)
Definition mark_degraded (context : ResolvedMemoryContext) (items : list RecallContextItem)
    (response : RecallResponse) : Op ServiceError.t RecallResponse := λ store,
  let store := meanwhile Window.Preparing store in
  match trace_by_id store context (rsp_trace_id response) with
  | Err error => (store, Err (store_error error))
  | Ok None => (store, Err (store_error (StoreError.NotFound "retrieval trace")))
  | Ok (Some trace) =>
      let store := meanwhile Window.Committing store in
      match store_trace store context
              (trace <| tr_columns ::= degraded_row (diagnostic items) |>) with
      | Err error => (store, Err (store_error error))
      | Ok store => (store, Ok (degraded_response items response))
      end
  end.

(** The fallback of a response without items. *)
Definition fall_back (request : RecallRequest) (response : RecallResponse)
    : Op ServiceError.t RecallResponse := λ store,
  let context := rq_context request in
  let store := meanwhile Window.Looking store in
  match pending_job_count store context with
  | Err error => (store, Err (store_error error))
  | Ok 0%nat => (store, Ok response)
  | Ok _ =>
      let store := meanwhile Window.Reading store in
      match fetch_episodes_for_scope store context DEGRADED_EPISODE_LIMIT with
      | Err error => (store, Err (store_error error))
      | Ok episodes =>
          let items :=
            degraded_episode_items episodes (rq_query request)
              (Nat.max (N.to_nat (rq_k request)) 1) in
          if is_empty items then (store, Ok response)
          else mark_degraded context items response store
      end
  end.

Definition recall_internal (config : RecallConfig) (reads : RecallReads) (request : RecallRequest)
    (now : Z) (trace_id : TraceId) (timings : RecallTimings) : Op ServiceError.t RecallResponse :=
  λ store,
  let run vector_query store :=
    let '(store, response) :=
      recall_with_pool_and_selection_impl config reads request vector_query now trace_id timings store in
    (store, map_err core_error response) in
  if negb (recall_scope_admitted (rq_context request)) ||
     bool_decide (rq_mode request = RecallMode.Deep) && negb (is_some (rg_deep_provider config))
  then run None store
  else
    match query_vector (rq_query request) with
    | Err error => (store, Err error)
    | Ok vector_query =>
        let '(store, response) := run vector_query store in
        match response with
        | Err error => (store, Err error)
        | Ok response =>
            if is_final request response then (store, Ok response)
            else fall_back request response store
        end
    end.

Definition recall (config : RecallConfig) (reads : RecallReads) (context : ResolvedMemoryContext)
    (request : RecallHttpRequest) (now : Z) (trace_id : TraceId) (timings : RecallTimings)
    : Op ServiceError.t RecallResponse :=
  recall_internal config reads (recall_request context request) now trace_id timings.

(** ** The core of a scope *)

Definition core_request (context : ResolvedMemoryContext) (query : string) (budget : N)
    (serve_captures : bool) : RecallHttpRequest := {|
  hq_identity := identity_of context;
  hq_query := query;
  hq_limit := Some MAX_RECALL_LIMIT;
  hq_budget_tokens := Some budget;
  hq_mode := Some RecallMode.Fast;
  hq_include_beliefs := None;
  hq_compact_only := false;
  hq_serve_captures := serve_captures;
  hq_transaction_as_of := None;
  hq_valid_at := None;
  hq_aggregation_window := None;
|}.

Definition projection_fingerprint (context : ResolvedMemoryContext) (evaluated_at : string)
    (store : InMemoryState) : result ServiceError.t string :=
  units <-? map_err store_error (canonical_projection_units store context evaluated_at);
  items <-? projection_items units;
  canonical_projection_fingerprint items.

Definition scope_core (config : RecallConfig) (reads : RecallReads) (evaluated_at : string)
    (context : ResolvedMemoryContext) (query : string) (token_budget : N) (serve_captures : bool)
    (now : Z) (trace_id : TraceId) (timings : RecallTimings) : Op ServiceError.t ScopeCoreResponse :=
  λ store,
  if token_budget =? 0
  then (store, Err (ServiceError.Invalid "token_budget must be at least 1"))
  else
    let budget := N.min token_budget MAX_RECALL_BUDGET_TOKENS in
    match projection_fingerprint context evaluated_at store with
    | Err error => (store, Err error)
    | Ok fingerprint =>
        let '(store, response) :=
          recall config reads context (core_request context query budget serve_captures) now trace_id
            timings store in
        match response with
        | Err error => (store, Err error)
        | Ok response =>
            let items := if rsp_degraded response then budget_fit_items (rsp_items response) budget
                         else rsp_items response in
            (store, Ok {|
              scr_tenant_id := cx_tenant_id context;
              scr_subject_id := cx_data_subject_id context;
              scr_actor_id := cx_actor_id context;
              scr_scope_id := cx_scope_id context;
              scr_agent_node_id := cx_agent_node_id context;
              scr_subject_generation := cx_subject_generation context;
              scr_evaluated_at := evaluated_at;
              scr_fingerprint := fingerprint;
              scr_token_budget := token_budget;
              scr_items := items;
              scr_trace_id := rsp_trace_id response;
              scr_degraded := rsp_degraded response;
              scr_abstention := rsp_abstention response |})
        end
    end.
End service.

(** * What the fallback of a recall serves

    A response is the library's, or it serves raw episodes of the context and
    says so; the core of a scope cuts them to its budget. *)

(** ** Cutting to a budget *)

Definition estimates (items : list RecallContextItem) : N :=
  foldr N.add 0 (map (λ item, conservative_token_estimate (it_body item)) items).

Lemma budget_fit_from_spec total budget items : total <= budget →
  ∃ rest, items = budget_fit_from total budget items ++ rest ∧
    total + estimates (budget_fit_from total budget items) <= budget ∧
    ∀ next rest', rest = next :: rest' →
      budget < total + estimates (budget_fit_from total budget items) +
               conservative_token_estimate (it_body next).
Proof.
  revert total. induction items as [|item items IH]; intros total Ht; simpl.
  { exists []. split_and!; [done|unfold estimates; simpl; lia|done]. }
  destruct (N.ltb_spec budget (total + conservative_token_estimate (it_body item))) as [Hlt|Hle].
  { exists (item :: items). unfold estimates. simpl. split_and!; [done|lia|].
    intros next rest' [= <- _]. lia. }
  destruct (IH _ Hle) as (rest & Hitems & Hsum & Hnext). exists rest. unfold estimates in *. simpl.
  split_and!; [by rewrite <-Hitems|lia|]. intros next rest' Hr. specialize (Hnext next rest' Hr). lia.
Qed.

(** ** Raw episodes *)

(** The item shows an episode word for word, and a word of the query is in it. *)
Definition shows_episode (query : string) (episodes : list StoredEpisode) (item : RecallContextItem) : Prop :=
  ∃ episode, episode ∈ episodes ∧ item = degraded_item episode ∧
    f32_pos (token_set_overlap_text_score (ep_body episode)
               (content_query_tokens (tokenize query))) = true.

Lemma degraded_items_show episodes query k :
  Forall (shows_episode query episodes) (degraded_episode_items episodes query k) ∧
  (length (degraded_episode_items episodes query k) <= k)%nat.
Proof.
  unfold degraded_episode_items. split.
  - apply Forall_forall. intros item ([episode score] & -> & Hin)%list_elem_of_fmap.
    apply elem_of_take in Hin as (i & Hi & _). apply list_elem_of_lookup_2 in Hi.
    apply elem_of_sort_by, list_elem_of_omap in Hi as (episode' & He & Hs).
    unfold scored_episode in Hs. destruct (f32_pos _) eqn:Ep; [|done]. injection Hs as <- <-.
    by exists episode'.
  - rewrite length_map, length_take. lia.
Qed.

Section service.
Context `{HashOrder} `{Jiff} `{Sha256} `{Calendar} `{SerdeJson} `{DeepJson} `{TraceRow} `{DegradedRow}.
Context `{UnicodeAlphanumeric} `{UnicodeLowercase} `{UuidParse} `{LibM} `{Fsrs} `{CivilDate}.
Context `{EmbeddingProvider} `{QueryEmbedding} `{Serialize (list CanonicalProjectionUnit)}.
Context (meanwhile : Window.t → InMemoryState → InMemoryState).
Context (config : RecallConfig) (reads : RecallReads) (now : Z) (trace_id : TraceId) (timings : RecallTimings).

(** The library recalled, with some vector of the query. *)
Definition library_recalled (request : RecallRequest) (store store' : InMemoryState)
    (response : RecallResponse) : Prop :=
  ∃ vector_query,
    recall_with_pool_and_selection_impl config reads request vector_query now trace_id timings store =
      (store', Ok response).

(** The library never calls a response degraded. *)
Lemma library_is_not_degraded request s s' response :
  library_recalled request s s' response → rsp_degraded response = false.
Proof.
  intros (vector_query & (time & trace & _ & _ & _ & Hb & _)%recall_inv). unfold recall_body in Hb.
  apply result_bind_ok in Hb as (deep & _ & Hb). apply result_bind_ok in Hb as (pool & _ & Hb).
  cbv zeta in Hb. apply result_bind_ok in Hb as (edges & _ & Hb).
  apply result_bind_ok in Hb as (reviews & _ & Hb). destruct (traced_candidates _ _ _ _) as [rows cross].
  apply result_bind_ok in Hb as (citations & _ & Hb).
  by apply result_bind_ok in Hb as (abstention & _ & [= _ <-]).
Qed.

(** A request the fallback is for. *)
Definition falls_back (request : RecallRequest) : Prop :=
  rq_mode request ≠ RecallMode.Deep ∧ rq_transaction_as_of request = None ∧
  rq_valid_at request = None ∧ rq_compact_only request = false.

Lemma is_final_false request response : is_final request response = false →
  rsp_items response = [] ∧ falls_back request.
Proof.
  unfold is_final, falls_back. intros Hf. bool_prop.
  destruct (rsp_items response), (rq_transaction_as_of request), (rq_valid_at request); done.
Qed.

(** How a recall of the service that succeeds ends. *)
Lemma recall_internal_ok request s s' response :
  recall_internal meanwhile config reads request now trace_id timings s = (s', Ok response) →
  ∃ s1 found, library_recalled request s s1 found ∧
    (response = found ∨
     rsp_items found = [] ∧ falls_back request ∧
     ∃ s2 pending s3 episodes items,
       pending_job_count s2 (rq_context request) = Ok (S pending) ∧
       fetch_episodes_for_scope s3 (rq_context request) DEGRADED_EPISODE_LIMIT = Ok episodes ∧
       items = degraded_episode_items episodes (rq_query request) (Nat.max (N.to_nat (rq_k request)) 1) ∧
       items ≠ [] ∧ response = degraded_response items found ∧
       ∃ s4 s5 trace, trace_by_id s4 (rq_context request) (rsp_trace_id found) = Ok (Some trace) ∧
         store_trace s5 (rq_context request)
           (trace <| tr_columns ::= degraded_row (diagnostic items) |>) = Ok s').
Proof.
  unfold recall_internal. destruct (negb _ || _).
  { destruct (recall_with_pool_and_selection_impl _ _ _ _ _ _ _ s) as [s1 [found|]] eqn:Er; [|done].
    intros [= <- <-]. exists s1, found. split; [by eexists|by left]. }
  destruct (query_vector _) as [vector_query|]; [|done].
  destruct (recall_with_pool_and_selection_impl _ _ _ _ _ _ _ s) as [s1 [found|]] eqn:Er; [|done].
  cbn [map_err]. destruct (is_final request found) eqn:Ef.
  { intros [= <- <-]. exists s1, found. split; [by eexists|by left]. }
  unfold fall_back. destruct (pending_job_count _ _) as [[|pending]|] eqn:Ep; [| |done].
  { intros [= _ <-]. exists s1, found. split; [by eexists|by left]. }
  destruct (fetch_episodes_for_scope _ _ _) as [episodes|] eqn:Ee; [|done].
  destruct (is_empty _) eqn:Ei.
  { intros [= _ <-]. exists s1, found. split; [by eexists|by left]. }
  unfold mark_degraded. destruct (trace_by_id _ _ _) as [[trace|]|] eqn:Et; [|done..].
  destruct (store_trace _ _ _) as [s5|] eqn:Es; [|done]. intros [= <- <-].
  exists s1, found. split; [by eexists|right]. apply is_final_false in Ef as [Hnil Hfalls].
  split; [done|]. split; [done|]. eexists _, pending, _, episodes, _. split_and!; [done..| |done|].
  - intros Hn. by rewrite Hn in Ei.
  - eauto.
Qed.

(** C11: A recall falls back to raw episodes only for want of anything else, and
    says so.  The response of the service is the library's, or the library
    found nothing for a request without deep mode, past times or the compact
    lane while reflect jobs of the context were pending; then it is marked
    degraded, cites nothing and whitelists nothing, and its items, at most as
    many as asked for, are bodies of the episodes of the subject in granted
    scopes that share a word with the query. *)
Theorem fallback_serves_raw_episodes context http s s' response :
  recall meanwhile config reads context http now trace_id timings s = (s', Ok response) →
  let request := recall_request context http in
  ∃ s1 found, library_recalled request s s1 found ∧
    (response = found ∧ rsp_degraded response = false ∨
     rsp_items found = [] ∧ falls_back request ∧
     rsp_degraded response = true ∧ rsp_citations response = [] ∧
     rsp_candidate_whitelist response = [] ∧ rsp_abstention response = false ∧
     (N.of_nat (length (rsp_items response)) <= rq_k request) ∧
     ∃ s2 pending s3,
       pending_job_count s2 context = Ok (S pending) ∧
       Forall (shows_episode (hq_query http)
                 (retain (λ e, (ep_data_subject_id e =? cx_data_subject_id context) &&
                               (ep_subject_generation e =? cx_subject_generation context) &&
                               allows context MemoryKind.Episodic (ep_scope_id e) (ep_agent_node_id e))
                    (rows (st_episodes s3) (cx_tenant_id context)))) (rsp_items response)).
Proof.
  intros Hr request. apply recall_internal_ok in Hr as (s1 & found & Hlib & Hor).
  exists s1, found. split; [done|].
  destruct Hor as [->|(Hnil & Hfalls & s2 & pending & s3 & episodes & items & Hp & He & -> & Hne & -> & _)];
    [left; split; [done|by eapply library_is_not_degraded]|right].
  destruct (degraded_items_show episodes (rq_query request) (Nat.max (N.to_nat (rq_k request)) 1))
    as [Hshow Hlen].
  assert (1 <= rq_k request) as Hk by (unfold request, recall_request, clamp; simpl; lia).
  split_and!; [done..| |].
  - change (rsp_items (degraded_response ?i found)) with i. cbn [rsp_items degraded_response].
    fold request. lia.
  - exists s2, pending, s3. split; [done|]. cbn [rsp_items degraded_response].
    apply reading_ok in He as [_ <-]. eapply Forall_impl; [exact Hshow|].
    intros item (episode & Hin & Hitem & Hscore). exists episode. split_and!; [|done..].
    apply elem_of_take in Hin as (i & Hi & _). by apply list_elem_of_lookup_2 in Hi.
Qed.

(** The core of a scope keeps its budget also when it falls back.  Its items
    are a prefix of what the recall served; when that was degraded they fit the
    budget by the conservative estimate, and the first one left out would not
    have. *)
Theorem core_of_raw_episodes_fits evaluated_at context query token_budget serve_captures s s' core :
  scope_core meanwhile config reads evaluated_at context query token_budget serve_captures now
    trace_id timings s = (s', Ok core) →
  ∃ response rest,
    recall meanwhile config reads context
      (core_request context query (N.min token_budget MAX_RECALL_BUDGET_TOKENS) serve_captures)
      now trace_id timings s = (s', Ok response) ∧
    rsp_items response = scr_items core ++ rest ∧ scr_degraded core = rsp_degraded response ∧
    (rsp_degraded response = false → rest = []) ∧
    (rsp_degraded response = true →
      estimates (scr_items core) <= token_budget ∧
      ∀ next rest', rest = next :: rest' →
        N.min token_budget MAX_RECALL_BUDGET_TOKENS <
          estimates (scr_items core) + conservative_token_estimate (it_body next)).
Proof.
  unfold scope_core. destruct (token_budget =? 0); [done|].
  destruct (projection_fingerprint _ _ _) as [fingerprint|]; [|done].
  set (budget := N.min token_budget MAX_RECALL_BUDGET_TOKENS).
  destruct (recall _ _ _ _ _ _ _ _ s) as [s1 [response|]] eqn:Er; [|done]. intros [= <- <-].
  exists response. cbn [scr_items scr_degraded]. destruct (rsp_degraded response).
  - destruct (budget_fit_from_spec 0 budget (rsp_items response)) as (rest & Hitems & Hsum & Hnext); [lia|].
    exists rest. split_and!; [done|exact Hitems|done|done|]. intros _. fold (budget_fit_items (rsp_items response) budget) in *.
    split; [unfold budget in *; lia|]. intros next rest' Hrest. specialize (Hnext next rest' Hrest). lia.
  - exists []. by rewrite app_nil_r.
Qed.
End service.
