(* ===== verification/Fixtures.v ===== *)
(** * Fixtures: a concrete store to evaluate the model on

    Instances of the parameters (a clock whose stamps are decimal nanoseconds,
    a digest, renderings) and a small store reached by the model's own
    operations: two subjects registered in one tenant, units, a source, an
    edge and a job committed by a transaction of the first. *)

From Stdlib Require DecimalString DecimalZ.
From S2P Require Import Prelude Types Float Clock Bitemporal Lineage Store Txn Stage Jobs.
From S2P Require Import Binding Reads Capture.

(** ** The parameters *)

#[export] Instance decimal_clock : Jiff := {|
  parse_timestamp s := option_map Z.of_int (DecimalString.NilZero.int_of_string s);
  fmt_rfc3339 t := DecimalString.NilZero.string_of_int (Z.to_int t);
  as_second t := (t / 1000000000)%Z;
|}.

#[export] Instance decimal_clock_laws : JiffLaws.
Proof.
  split. intros t. simpl. rewrite DecimalString.NilZero.isi.
  - simpl. by rewrite DecimalZ.of_to.
  - intros E. pose proof (DecimalZ.of_to t) as Ht. rewrite E in Ht. simpl in Ht. by subst t.
  - intros E. pose proof (DecimalZ.of_to t) as Ht. rewrite E in Ht. simpl in Ht. by subst t.
Qed.

#[export] Instance length_digest : Sha256 := λ s, hex_from 8 (str_len s).
#[export] Instance fixed_receipt : ReceiptJson := λ receipt,
  hex_from 8 (rr_generation receipt) +:+ ":" +:+ rr_erased_at receipt.
#[export] Instance fixed_policy : PolicyJson := {|
  policy_json p := ContextBindingAccessPolicy.source_scope_external_ref p +:+ "/" +:+
    ContextBindingAccessPolicy.source_agent_node_external_ref p;
  policies_json l := hex_from 8 (N.of_nat (length l));
|}.

Definition from_ok {E A} (d : A) (r : result E A) : A :=
  match r with Ok a => a | Err _ => d end.

(** ** Two subjects of tenant 1 *)

Definition request_of (subject actor scope agent : string) : ContextBindingRequest :=
  mkBindingRequest (mkEntityRef subject "person") (mkEntityRef actor "user")
    (mkScopeRef scope "user_root" None) (mkAgentRef agent None) [].

Definition registered (s : InMemoryState) (ref : string) (fresh : FreshIds)
    (request : ContextBindingRequest) : ContextBindingResponse * InMemoryState :=
  from_ok (mkBindingResponse 0 0 0 0 0 String.EmptyString 0, s)
    (resolve_context_binding s 1 ref fresh request).

Definition ana : ContextBindingRequest := request_of "ana" "ana" "home" "assistant".
Definition bob : ContextBindingRequest := request_of "bob" "bob" "office" "helper".
Definition s_ana : InMemoryState :=
  Eval vm_compute in (registered InMemoryState_default "ana" (mkFreshIds 10 20 30 40) ana).2.
Definition s_both : InMemoryState :=
  Eval vm_compute in (registered s_ana "bob" (mkFreshIds 11 21 31 41) bob).2.

Definition no_context : ResolvedMemoryContext :=
  mkContext 0 0 0 TrustLevel.Quarantined 0 0 0 0 String.EmptyString ∅.
Definition cx_ana : ResolvedMemoryContext :=
  Eval vm_compute in from_ok no_context (resolve_memory_context s_both 1 10 20 30 40).
Definition cx_bob : ResolvedMemoryContext :=
  Eval vm_compute in from_ok no_context (resolve_memory_context s_both 1 11 21 31 41).

(** ** Rows *)

Definition blank_unit (id : UnitId) (kind : MemoryKind.t) (body : string) : StoredMemoryUnit := {|
  mu_id := id; mu_tenant_id := 1; mu_data_subject_id := 10; mu_scope_id := 30;
  mu_agent_node_id := 40; mu_subject_generation := 0; mu_kind := kind;
  mu_state := UnitState.Active; mu_fact_key := None; mu_predicate := None; mu_body := body;
  mu_confidence := None; mu_trust_level := TrustLevel.TrustedUser; mu_churn_class := None;
  mu_freshness_due_at := None; mu_actor_id := Some 20; mu_source_kind := None;
  mu_source_ref := "test"; mu_observed_at := "100"; mu_source_episode_id := None;
  mu_source_resource_id := None; mu_deletion_generation := None; mu_contextual_chunks := [];
  mu_valid_from := Some "100"; mu_valid_to := None; mu_transaction_from := Some "100";
  mu_transaction_to := None; mu_last_reinforced_at := None; mu_reinforcement_count := 0;
  mu_compact := None; mu_invalidation := None; mu_capture := None |}.

Definition u_fact : StoredMemoryUnit :=
  blank_unit 100 MemoryKind.Semantic "likes tea" <| mu_fact_key := Some "drink" |>.
Definition u_source : StoredMemoryUnit :=
  blank_unit 101 MemoryKind.Semantic "met Eve" <| mu_source_episode_id := Some 500 |>.
Definition u_composed : StoredMemoryUnit :=
  blank_unit 102 MemoryKind.Semantic "met Eve over tea" <| mu_source_kind := Some "composition" |>.
(** Another actor's unit on the same node. *)
Definition u_foreign : StoredMemoryUnit :=
  blank_unit 103 MemoryKind.Semantic "salary" <| mu_actor_id := Some 22 |>.
(** Two hooks report the same preference, and one of them was marked a failure. *)
Definition u_mirror : StoredMemoryUnit :=
  blank_unit 104 MemoryKind.Preference "dark  mode" <| mu_fact_key := Some "theme" |>
    <| mu_state := UnitState.Candidate |>
    <| mu_capture := Some (captured CaptureSource.Mirror) |>.
Definition u_summary : StoredMemoryUnit :=
  blank_unit 105 MemoryKind.Preference "Dark mode" <| mu_fact_key := Some "theme" |>
    <| mu_state := UnitState.Candidate |>
    <| mu_capture := Some (captured CaptureSource.Summary) |>.
Definition u_bob : StoredMemoryUnit :=
  blank_unit 106 MemoryKind.Semantic "likes coffee" <| mu_data_subject_id := 11 |>
    <| mu_scope_id := 31 |> <| mu_agent_node_id := 41 |> <| mu_actor_id := Some 21 |>.

Definition e_derived : StoredMemoryEdge :=
  mkStoredMemoryEdge 300 1 30 102 101 MemoryEdgeKind.DerivedFrom (Some "100") None.

Definition ep_eve : StoredEpisode :=
  mkStoredEpisode 500 1 10 30 20 40 0 "chat" "chat-1" TrustLevel.TrustedUser "chat-1" "met Eve" 1
    "100" "100".

Definition job (id : JobId) (scope : ScopeId) : QueuedReflectJob :=
  mkQueuedReflectJob id 1 10 scope 20 40 0 (Some 500) None ReflectJobKind.ReflectEpisode "v1"
    None None.

Definition trace (id : TraceId) (subject scope actor agent : N) : RetrievalTrace :=
  mkRetrievalTrace id 1 subject scope actor agent 0 (cx_policy_revision cx_ana)
    [mkRecallItemIds 104 []] "columns".

(** ** The store the witnesses read *)

Definition store : InMemoryState := s_both
  <| st_memory_units :=
       {[1 := [u_fact; u_source; u_composed; u_foreign; u_mirror; u_summary; u_bob]]} |>
  <| st_memory_edges := {[1 := [e_derived]]} |>
  <| st_episodes := {[1 := [ep_eve]]} |>
  <| st_reflect_jobs := {[1 := [job 600 30; job 601 30; job 602 33]]} |>
  <| st_retrieval_traces := {[1 := [trace 700 10 30 20 40]]} |>
  <| st_review_events := {[1 := [mkReviewEvent 1 700 "cli" [104] MarkOutcome.Success "150"]]} |>
  <| st_embeddings := {[1 := [mkEmbeddingRow 100 9 [f32_one; f32_zero];
                              mkEmbeddingRow 103 9 [f32_zero; f32_one]]]} |>.

Definition at_time (t : string) : RecallTime := mkRecallTime t t t.

Example store_knows_contexts :
  validate_context store cx_ana = Ok () ∧ validate_context store cx_bob = Ok ().
Proof. split; vm_compute; reflexivity. Qed.

(** A statement about a computed result holds of it. *)
Lemma from_ok_is {E A} (d : A) (r : result E A) :
  match r with Ok _ => true | Err _ => false end = true → r = Ok (from_ok d r).
Proof. by destruct r. Qed.
