(* ===== verification/Witnesses.v ===== *)
(** * Witnesses: the theorems at concrete inputs

    For each theorem with hypotheses, its application to the store of
    [Fixtures] or to a small input, where every hypothesis is discharged by
    evaluation. *)

From S2P Require Import Prelude Types Float Clock Bitemporal Lineage Store Isolation Txn Stage.
From S2P Require Import StageFacts Jobs Binding BindingFacts Ledger Reads ReadFacts Capture CaptureFacts Fixtures.

(** [run t as H] evaluates [t] and records the equation as [H]. *)
Tactic Notation "run" constr(t) "as" ident(H) :=
  let v := eval vm_compute in t in assert (H : t = v) by (vm_compute; reflexivity).

(** ** Reads *)

Lemma recall_returns_visible_witness :
  ∃ units, fetch_recall_candidates store cx_ana [MemoryKind.Semantic] (at_time "200") 2 = Ok units ∧
    map mu_id units = [100; 101] ∧
    ∀ u, u ∈ units → u ∈ tenant_units store cx_ana ∧ ¬ foreign_on_own_node cx_ana u.
Proof.
  run (fetch_recall_candidates store cx_ana [MemoryKind.Semantic] (at_time "200") 2) as H.
  eexists. split_and!; [exact H|reflexivity|].
  destruct (recall_returns_visible _ _ _ _ _ _ H) as (rest & _ & _ & Hin).
  intros u Hu. specialize (proj1 (Hin u) (proj2 (elem_of_app _ _ _) (or_introl Hu))).
  intros (? & _ & ? & _). split; assumption.
Defined.

Lemma vector_candidates_unfenced_witness :
  ∃ scored,
    fetch_vector_candidates store cx_ana [f32_zero; f32_one] 9 (at_time "200") 8 = Ok scored ∧
    map (λ ud, mu_id ud.1) scored = [103; 100] ∧
    ∀ units, fetch_recall_candidates store cx_ana [] (at_time "200") 8 = Ok units →
      u_foreign ∉ units.
Proof.
  run (fetch_vector_candidates store cx_ana [f32_zero; f32_one] 9 (at_time "200") 8) as H.
  eexists. split_and!; [exact H|reflexivity|].
  destruct (vector_candidates_unfenced _ _ _ _ _ _ _ H) as [_ Hno]; [simpl; lia|].
  intros units. apply Hno. split_and!; [reflexivity|reflexivity|].
  exists 22. split; [reflexivity|]. simpl. lia.
Defined.

Lemma edges_join_readable_units_witness :
  fetch_edges store cx_ana [101] (at_time "200") = Ok [e_derived] ∧
  readable_id store cx_ana (ed_dst_id e_derived).
Proof.
  assert (fetch_edges store cx_ana [101] (at_time "200") = Ok [e_derived]) as H
    by (vm_compute; reflexivity).
  split; [exact H|].
  destruct (edges_join_readable_units _ _ _ _ _ H) as [_ Hin].
  destruct (proj1 (Hin e_derived) (list_elem_of_here _ _)) as (_ & _ & _ & Hr & _).
  exact Hr.
Defined.

Lemma pages_cover_scope_witness :
  ∃ pages,
    collect_pages 7 (λ c, scope_memory_page store cx_ana c 4) None = Some (Ok pages) ∧
    map mu_id (concat (map pg_items pages)) = [100; 101; 102; 103; 104; 105].
Proof.
  run (validate_context store cx_ana) as Hv.
  assert (NoDup (map mu_id (page_units store cx_ana))) as Hn
    by (apply (bool_decide_unpack _); vm_compute; exact I).
  destruct (pages_cover_scope store cx_ana 4 Hv Hn) as (pages & Hp & Hc & _).
  exists pages. split; [exact Hp|]. rewrite Hc. vm_compute. reflexivity.
Defined.

Lemma deep_snapshot_groups_sources_witness :
  ∃ entries, fetch_deep_snapshot store cx_ana (at_time "200") = Ok entries ∧
    map entry_key entries = [(DeepSnapshotSourceKind.Episode, 500)] ∧ NoDup (map entry_key entries).
Proof.
  run (fetch_deep_snapshot store cx_ana (at_time "200")) as H.
  eexists. split_and!; [exact H|reflexivity|].
  exact (proj1 (deep_snapshot_groups_sources _ _ _ _ H)).
Defined.

Lemma deep_snapshot_is_authorized_witness :
  ∃ entries e, fetch_deep_snapshot store cx_ana (at_time "200") = Ok entries ∧
    e ∈ entries ∧ u_source ∈ de_bound_units e ∧ unit_readable cx_ana u_source.
Proof.
  run (fetch_deep_snapshot store cx_ana (at_time "200")) as H.
  eexists. eexists. split_and!; [exact H|left|left|].
  exact (proj1 (deep_snapshot_is_authorized _ _ _ _ _ u_source H
                  (list_elem_of_here _ _) (list_elem_of_here _ _))).
Defined.

Lemma trace_round_trip_witness :
  ∃ s', store_trace store cx_ana (trace 701 10 30 20 40) = Ok s' ∧
    trace_by_id s' cx_ana 701 = Ok (Some (trace 701 10 30 20 40)).
Proof.
  run (store_trace store cx_ana (trace 701 10 30 20 40)) as H.
  eexists. split; [exact H|].
  exact (proj1 (proj2 (trace_round_trip _ _ _ _ H))).
Defined.

Definition embedding_batch : list EmbeddingRow :=
  [mkEmbeddingRow 100 9 [f32_one]; mkEmbeddingRow 100 9 [f32_half]].

Lemma embeddings_replace_by_key_witness :
  ∃ s', upsert_embeddings store cx_ana embedding_batch = Ok s' ∧
    retain (has_key 100 9) (rows (st_embeddings s') 1) = [mkEmbeddingRow 100 9 [f32_half]].
Proof.
  run (upsert_embeddings store cx_ana embedding_batch) as H.
  eexists. split; [exact H|].
  exact (proj1 (proj2 (embeddings_replace_by_key _ _ _ _ H)) 100 9).
Defined.

(** ** Capture *)

Definition mark (outcome : MarkOutcome.t) (id : UnitId) : ReviewEvent :=
  mkReviewEvent 1 700 "cli" [id] outcome "150".

Lemma crosscheck_is_justified_witness :
  let ts := compute_capture_crosscheck [u_mirror; u_summary] [] in
  map tn_kind ts = [CaptureTransitionKind.Promote; CaptureTransitionKind.Promote] ∧
  ∀ t, t ∈ ts → ∃ u, u ∈ [u_mirror; u_summary] ∧ tn_id t = mu_id u.
Proof.
  split; [vm_compute; reflexivity|]. intros t Ht.
  destruct (crosscheck_is_justified _ _ _ Ht) as (u & m & Hu & Hid & _).
  exists u. split; assumption.
Defined.

Lemma crosscheck_settles_witness :
  ∃ s' report, run_capture_crosscheck true "200" store cx_ana = (s', Ok report) ∧
    run_capture_crosscheck true "200" s' cx_ana = (s', Ok CaptureCrossCheckReport_default).
Proof.
  run (validate_context store cx_ana) as Hv.
  assert (NoDup (map mu_id (tenant_units store cx_ana))) as Hn
    by (apply (bool_decide_unpack _); vm_compute; exact I).
  refine (crosscheck_settles store cx_ana "200" Hv Hn _ _).
  - assert (Forall (λ u, mu_confidence u = None) (tenant_units store cx_ana)) as Hall
      by (apply (bool_decide_unpack _); vm_compute; exact I).
    intros u c Hu Hc. rewrite Forall_forall in Hall. rewrite (Hall u Hu) in Hc. discriminate Hc.
  - assert (Forall (λ e, rv_outcome e ≠ MarkOutcome.Failure)
              (rows (st_review_events store) (cx_tenant_id cx_ana))) as Hall
      by (apply (bool_decide_unpack _); vm_compute; exact I).
    intros e He. rewrite Forall_forall in Hall. exact (Hall e He).
Defined.

Definition u_lone : StoredMemoryUnit :=
  blank_unit 107 MemoryKind.Preference "tabs" <| mu_capture := Some (captured CaptureSource.ErrFix) |>.

Lemma failure_demotes_again_witness :
  ∃ t t', compute_capture_crosscheck [u_lone] [mark MarkOutcome.Failure 107] = [t] ∧
    tn_confidence t = Some f32_half ∧
    compute_capture_crosscheck [apply_transition t u_lone] [mark MarkOutcome.Failure 107] = [t'] ∧
    tn_confidence t' = Some 0x3e800000 ∧ tn_kind t' = CaptureTransitionKind.Demote.
Proof.
  apply (failure_demotes_again u_lone (captured CaptureSource.ErrFix)); try reflexivity. left.
Defined.

(** ** Corrections *)

Definition correction (value : string) (from to : option string) : CorrectionPayload :=
  mkCorrectionPayload value "wrong" "user" "300" from to.
Definition new_ids : CorrectionUnitIds := mkCorrectionUnitIds 110 (111, 112).

Lemma correction_partitions_valid_time_witness :
  ∃ repl rems,
    correction_rectangles_with_ids u_fact (correction "likes juice" (Some "150") (Some "250"))
      "user" "300" 20 "300" new_ids = Ok (repl, rems) ∧
    map mu_body (retain (λ u, valid_covers u "120") (repl :: rems)) = ["likes tea"] ∧
    map mu_body (retain (λ u, valid_covers u "200") (repl :: rems)) = ["likes juice"].
Proof.
  run (correction_rectangles_with_ids u_fact
         (correction "likes juice" (Some "150") (Some "250")) "user" "300" 20 "300" new_ids) as H.
  do 2 eexists. split_and!; [exact H| |].
  - rewrite (correction_partitions_valid_time _ _ _ _ _ _ _ _ _ "120" H). vm_compute. reflexivity.
  - rewrite (correction_partitions_valid_time _ _ _ _ _ _ _ _ _ "200" H). vm_compute. reflexivity.
Defined.

Definition correct_fact : CorrectionWrite :=
  mkCorrectionWrite 100 (correction "likes juice" (Some "150") (Some "250")) "user" "300" "300"
    None new_ids None.

Lemma staged_correction_preserves_history_witness :
  ∃ res s', correct_in (λ n, 900 + N.of_nat n) correct_fact cx_ana store = Ok (res, s') ∧
    heard (rows (st_memory_units s') 1) (at_time "299") =
    heard (rows (st_memory_units store) 1) (at_time "299").
Proof.
  run (correct_in (λ n, 900 + N.of_nat n) correct_fact cx_ana store) as H.
  do 2 eexists. split; [exact H|].
  exact (staged_correction_preserves_history _ _ _ _ _ _ (at_time "299") H eq_refl).
Defined.

Lemma staged_correction_takes_effect_witness :
  ∃ res s' kept created,
    correct_in (λ n, 900 + N.of_nat n) correct_fact cx_ana store = Ok (res, s') ∧
    rows (st_memory_units s') 1 = kept ++ created ∧
    map snd (heard created (mkRecallTime "400" "400" "200")) = ["likes juice"].
Proof.
  run (correct_in (λ n, 900 + N.of_nat n) correct_fact cx_ana store) as H.
  assert (NoDup (map mu_id (rows (st_memory_units store) (cx_tenant_id cx_ana)))) as Hn
    by (apply (bool_decide_unpack _); vm_compute; exact I).
  assert (stamp_le "300" "400") as Hle by (vm_compute; discriminate).
  destruct (staged_correction_takes_effect _ _ _ _ _ _ (mkRecallTime "400" "400" "200") Hn H Hle)
    as (old & kept & created & Hf & Hr & _ & _ & Hs).
  do 2 eexists. exists kept, created. split_and!; [exact H|exact Hr|]. rewrite Hs.
  vm_compute in Hf. injection Hf as <-. vm_compute. reflexivity.
Defined.

(** ** Invalidation, forgetting, review events *)

Definition invalidate_fact : InvalidationWrite :=
  mkInvalidationWrite 100 InvalidationReason.Harmful "unsafe" "user" "300" "300" 120.

Definition claim_of (s : InMemoryState) : ReflectJobRow :=
  default (mkReflectJobRow (job 0 0) 0 0)
    (head (claim_reflect_jobs (mkJobFilter None None) 1 s).2).

Definition compile_trace : ReflectTrace :=
  mkReflectTrace 1 30 600 (Some 500) None "v1" [] [] 0.
Definition compile_unit (unit : StoredMemoryUnit) : CompiledWrite :=
  mkCompiledWrite 600 "v1" [unit] [] [] [] compile_trace None [].

(** The same fact, compiled again under a new id. *)
Definition u_again : StoredMemoryUnit :=
  blank_unit 121 MemoryKind.Semantic "likes tea" <| mu_fact_key := Some "drink" |>
    <| mu_source_episode_id := Some 500 |>.

Lemma invalidation_blocks_recompilation_witness :
  ∃ res s',
    invalidate_in 901 invalidate_fact cx_ana (claim_reflect_jobs (mkJobFilter None None) 1 store).1
      = Ok (res, s') ∧
    ∃ error, compiled_in (Some (claim_of store)) (compile_unit u_again) cx_ana s' = Err error.
Proof.
  run (invalidate_in 901 invalidate_fact cx_ana
         (claim_reflect_jobs (mkJobFilter None None) 1 store).1) as H.
  do 2 eexists. split; [exact H|].
  refine (proj2 (invalidation_blocks_recompilation 901 invalidate_fact cx_ana _ _ _ u_fact "drink"
                   (Some (claim_of store)) (compile_unit u_again) u_again H _ _ _ _ _ _) _ _);
    try reflexivity; try (vm_compute; reflexivity). left.
Defined.

Lemma forget_derived_erases_witness :
  ∃ units' ids,
    forget_derived [u_fact; u_source; u_composed] [e_derived] cx_ana (ForgetTarget.Episode 500) 1 "300"
      = (units', ids) ∧
    map mu_body units' = ["likes tea"; String.EmptyString; "met Eve over tea"] ∧ 102 ∈ ids.
Proof.
  run (forget_derived [u_fact; u_source; u_composed] [e_derived] cx_ana
         (ForgetTarget.Episode 500) 1 "300") as H.
  do 2 eexists. split_and!; [exact H|reflexivity|].
  destruct (forget_derived_erases _ _ _ _ _ _ _ _ H) as [_ Hids].
  destruct (proj1 (Hids 102)) as (u & _ & _ & _); [|]; right; left.
Defined.

Definition forget_eve : ForgetWrite := mkForgetWrite (ForgetTarget.Episode 500) "300".

Lemma forgotten_source_stays_blank_witness :
  ∃ o s1 out s2,
    forget_in forget_eve cx_ana (claim_reflect_jobs (mkJobFilter None None) 1 store).1 = Ok (o, s1) ∧
    compiled_in (Some (claim_of store)) (compile_unit u_again) cx_ana s1 = Ok (out, s2) ∧
    ∀ u, u ∈ rows (st_memory_units s2) 1 → unit_matches_context u cx_ana = true →
      from_target (ForgetTarget.Episode 500) u = true →
      mu_body u = String.EmptyString ∨
      ∃ u0, u0 ∈ rows (st_memory_units store) 1 ∧ mu_id u0 = mu_id u ∧ is_deleted u0 = true.
Proof.
  run (forget_in forget_eve cx_ana (claim_reflect_jobs (mkJobFilter None None) 1 store).1) as H.
  match type of H with _ = Ok (_, ?s1) =>
    run (compiled_in (Some (claim_of store)) (compile_unit u_again) cx_ana s1) as H2 end.
  do 4 eexists. split_and!; [exact H|exact H2|]. intros u Hu Hm Ht.
  exact (forgotten_source_stays_blank _ _ _ _ _ _ _ _ _ u H H2 Hu Hm Ht).
Defined.

Lemma review_events_once_witness :
  ∃ s1, review_in [mark MarkOutcome.Success 104] cx_ana store = Ok ((), s1) ∧
    review_in [mark MarkOutcome.Success 104] cx_ana s1 = Ok ((), s1).
Proof.
  run (review_in [mark MarkOutcome.Success 104] cx_ana store) as H.
  assert (NoDup (map review_key (rows (st_review_events store) (cx_tenant_id cx_ana)))) as Hn
    by (apply (bool_decide_unpack _); vm_compute; exact I).
  eexists. split; [exact H|]. exact (proj2 (review_events_once _ _ _ _ Hn H)).
Defined.

(** ** Erasure *)

Definition erased_store : InMemoryState :=
  Eval vm_compute in erase_subject 1 10 (mkReceipt 1 "400") store.

Lemma erase_subject_frame_witness :
  subject_view (erase_subject 1 10 (mkReceipt 1 "400") store) 1 11 = subject_view store 1 11.
Proof.
  refine (proj1 (erase_subject_frame store 1 10 (mkReceipt 1 "400") 1 11 _)). intros [=].
Defined.

(** ** Transactions *)

Definition correct_claim : MutationClaim :=
  mkMutationClaim 1 MutationVerb.Correct "key-1" 10 0 "hash-1".
Definition response_ok : MutationResponse := mkMutationResponse 200 "done".

Definition claimed (now : Z) (s : InMemoryState) : InMemoryTxn :=
  (stage_mutation_response response_ok
     (stage_mutation_claim s correct_claim (begin_at cx_ana now)).1.2).1.
Definition replaying (now : Z) : InMemoryTxn :=
  begin_at cx_ana now <| tx_mutation := Some (mkStagedMutation correct_claim (Some response_ok) true) |>.

Definition second (n : Z) : Z := (n * 1000000000)%Z.

Lemma erased_subject_is_frozen_witness :
  commit erased_store (replaying (second 5)) = Ok erased_store ∧
  commit_mutation (replaying (second 5)) = Ok None.
Proof.
  assert (commit erased_store (replaying (second 5)) = Ok erased_store) as H
    by (vm_compute; reflexivity).
  split; [exact H|].
  refine (proj2 (erased_subject_is_frozen _ _ _ _ H)). vm_compute. eexists. reflexivity.
Defined.

Definition executed_store : InMemoryState :=
  Eval vm_compute in from_ok store (commit store (claimed (second 5) store)).

Lemma executed : commit store (claimed (second 5) store) = Ok executed_store.
Proof. vm_compute. reflexivity. Qed.
Lemma executes_first : executes store (claimed (second 5) store) correct_claim response_ok 5.
Proof.
  split_and!; [vm_compute; reflexivity|vm_compute; reflexivity|].
  intros entry. vm_compute. discriminate.
Qed.

Lemma mutation_executes_once_witness :
  ∃ s3, commit executed_store (claimed (second 6) store) = Ok s3 ∧ s3 = executed_store.
Proof.
  run (commit executed_store (claimed (second 6) store)) as H.
  eexists. split; [exact H|].
  refine (mutation_executes_once _ _ _ _ _ _ _ (claimed (second 6) store)
            (mkStagedMutation correct_claim (Some response_ok) false) 6 _
            executes_first executed (rtc_refl _ _) _ _ _ _ _ H); try (vm_compute; reflexivity).
  apply tx_wf_response, tx_wf_claim, tx_wf_begin.
Defined.

Lemma mutation_retry_replays_witness :
  (stage_mutation_claim executed_store correct_claim (begin_at cx_ana (second 6))).2 =
  Ok (MutationClaimOutcome.Replay response_ok).
Proof.
  refine (mutation_retry_replays _ _ _ _ _ _ _ (begin_at cx_ana (second 6)) 6 correct_claim
            executes_first executed (rtc_refl _ _) _ _ _ _ _ _ _ _ _); vm_compute; reflexivity.
Defined.

(** ** Isolation *)

Ltac by_listing :=
  intros x Hx; pattern x; revert x Hx; apply Forall_forall;
  apply (bool_decide_unpack _); vm_compute; exact I.

Lemma subjects_disjoint : disjoint_ids (capture store cx_bob) (capture store cx_ana).
Proof. split; by_listing. Qed.

Definition corrected : InMemoryState :=
  Eval vm_compute in
    (from_ok (mkCorrectResult String.EmptyString [] [] String.EmptyString None, store)
       (correct_in (λ n, 900 + N.of_nat n) correct_fact cx_ana store)).2.

Lemma corrected_staged : staged_by cx_ana (capture corrected cx_ana).
Proof. apply capture_staged_by. Qed.
Lemma corrected_disjoint : disjoint_ids (capture store cx_bob) (capture corrected cx_ana).
Proof. split; by_listing. Qed.
Lemma corrected_fresh : fresh_ids store cx_ana (capture corrected cx_ana).
Proof. split; try by_listing; intros k v; vm_compute; discriminate. Qed.

Lemma replace_in_isolates_witness :
  without_profiles (capture (replace_in (capture corrected cx_ana) store cx_ana) cx_bob) ≡
  without_profiles (capture store cx_bob).
Proof.
  apply (replace_in_isolates store cx_ana cx_bob (capture corrected cx_ana));
    [intros [=]|exact corrected_staged|exact subjects_disjoint|exact corrected_disjoint].
Defined.

Lemma replace_in_installs_witness :
  without_profiles (capture (replace_in (capture corrected cx_ana) store cx_ana) cx_ana) ≡
  without_profiles (capture corrected cx_ana).
Proof. exact (replace_in_installs store corrected cx_ana corrected_fresh). Defined.

(** A transaction that corrected a fact in its private state. *)
Definition correcting : InMemoryTxn :=
  begin_at cx_ana (second 5) <| tx_state_snapshot := Some (capture store cx_ana, corrected) |>.

Lemma commit_serializes_witness :
  ∃ s', commit store correcting = Ok s' ∧
    (s' = store ∨ context_state_eqb (capture store cx_ana) (capture store cx_ana) = true ∧
      without_profiles (capture s' cx_ana) ≡ without_profiles (capture corrected cx_ana)).
Proof.
  run (commit store correcting) as H.
  eexists. split; [exact H|].
  refine (commit_serializes store correcting _ (capture store cx_ana) corrected _ _ _ _ H);
    [reflexivity|reflexivity|reflexivity|exact corrected_fresh].
Defined.

(** ** Jobs *)

Definition any_job : JobFilter := mkJobFilter None None.

Lemma store_unique_jobs : unique_jobs store.
Proof. apply (bool_decide_unpack _). vm_compute. exact I. Qed.
Lemma store_meta_wf j : meta_wf (job_meta store j).
Proof.
  unfold job_meta. change (st_job_meta store) with (∅ : gmap JobId JobMeta).
  rewrite lookup_empty. apply meta_wf_default.
Qed.

Lemma attempts_bounded_witness :
  meta_wf (job_meta store 600) ∧
  Forall (λ row, jr_attempts row ≤ JOB_DEAD_LETTER_ATTEMPTS)
    (claim_reflect_jobs any_job 3 store).2.
Proof.
  destruct (attempts_bounded store store 600 any_job 3 store_unique_jobs store_meta_wf
              (rtc_refl _ _)) as [Hwf Hrows].
  split; [exact Hwf|]. apply Forall_forall. intros row Hrow. exact (proj2 (proj1 (Hrows row Hrow))).
Defined.

Definition first_claim : ReflectJobRow := Eval vm_compute in claim_of store.
Definition released : InMemoryState :=
  release_reflect_job first_claim (claim_reflect_jobs any_job 1 store).1.
Definition second_claim : ReflectJobRow := Eval vm_compute in claim_of released.

Lemma queue_lives_its_jobs_witness :
  let claimed := (claim_reflect_jobs any_job 1 store).1 in
  job_life store 600 = mkJobLife JobPhase.Waiting 0 0 ∧
  job_life claimed 600 = mkJobLife JobPhase.Running 1 0 ∧
  rtc job_moves (job_life store 600) (job_life claimed 600) ∧
  only_job 600 JobEvent.Completed claimed (complete_reflect_job first_claim claimed).1 ∧
  only_job 600 JobEvent.Released claimed (release_reflect_job first_claim claimed) ∧
  job_life (release_reflect_job first_claim claimed) 600 = mkJobLife JobPhase.Waiting 1 0.
Proof.
  destruct (queue_lives_its_jobs store (claim_reflect_jobs any_job 1 store).1 store_unique_jobs
    store_meta_wf (rtc_once _ _ (qs_claim store any_job 1))) as (_ & Hmoves & _ & _ & Hworker).
  assert (holds (claim_reflect_jobs any_job 1 store).1 first_claim) as Hholds.
  { apply holds_current. vm_compute. reflexivity. }
  destruct (Hworker first_claim "live") as [Hheld _].
  destruct (Hheld Hholds) as ((_ & Hc) & Hr & _).
  split_and!; [vm_compute; reflexivity|vm_compute; reflexivity|apply Hmoves|exact Hc|exact Hr|
    vm_compute; reflexivity].
Defined.

Lemma stale_claim_is_inert_witness :
  let s3 := (claim_reflect_jobs any_job 1 released).1 in
  claim_is_current s3 second_claim = true ∧
  claim_is_current s3 first_claim = false ∧
  complete_reflect_job first_claim s3 = (s3, ClaimMutationOutcome.Stale).
Proof.
  assert (claim_is_current (claim_reflect_jobs any_job 1 released).1 first_claim = false ∧
    complete_reflect_job first_claim (claim_reflect_jobs any_job 1 released).1 =
      ((claim_reflect_jobs any_job 1 released).1, ClaimMutationOutcome.Stale) ∧
    release_reflect_job first_claim (claim_reflect_jobs any_job 1 released).1 =
      (claim_reflect_jobs any_job 1 released).1 ∧
    fail_reflect_job first_claim (claim_reflect_jobs any_job 1 released).1 =
      (claim_reflect_jobs any_job 1 released).1) as Hold.
  { refine (stale_claim_is_inert store any_job 1 first_claim released any_job 1 second_claim _
              store_unique_jobs store_meta_wf _ _ _ _ (rtc_refl _ _) _).
    - assert ((claim_reflect_jobs any_job 1 store).2 = [first_claim]) as ->
        by (vm_compute; reflexivity). left.
    - apply rtc_once. apply qs_release.
    - assert ((claim_reflect_jobs any_job 1 released).2 = [second_claim]) as ->
        by (vm_compute; reflexivity). left.
    - reflexivity.
    - vm_compute. reflexivity. }
  destruct Hold as (H1 & H2 & _). split_and!; [vm_compute; reflexivity|exact H1|exact H2].
Defined.

Lemma single_claims_keep_lanes_witness :
  lanes_exclusive (claim_reflect_jobs any_job 1 store).1.
Proof.
  apply (single_claims_keep_lanes store any_job store_unique_jobs).
  intros a b _ _ _ Hrun. exfalso. revert Hrun. unfold is_running, job_meta.
  change (st_job_meta store) with (∅ : gmap JobId JobMeta). rewrite lookup_empty. discriminate.
Defined.

(** ** Bindings *)

Lemma reach_both : rtc binding_step InMemoryState_default s_both.
Proof.
  apply (rtc_l _ _ s_ana).
  - apply (bstep_resolve _ 1 "ana" (mkFreshIds 10 20 30 40) ana
             (registered InMemoryState_default "ana" (mkFreshIds 10 20 30 40) ana).1).
    vm_compute. reflexivity.
  - apply rtc_once. apply (bstep_resolve _ 1 "bob" (mkFreshIds 11 21 31 41) bob
             (registered s_ana "bob" (mkFreshIds 11 21 31 41) bob).1).
    vm_compute. reflexivity.
Qed.

Lemma ancestor_walk_terminates_witness :
  in_memory_scope_is_strict_ancestor s_both 1 "ana" "home" ana = false.
Proof.
  destruct (ancestor_walk_terminates s_both 1 "ana" "home" ana reach_both) as [_ Hiff].
  destruct (in_memory_scope_is_strict_ancestor s_both 1 "ana" "home" ana); [|reflexivity].
  destruct (proj1 Hiff eq_refl) as (p & Hp & _). discriminate Hp.
Defined.

Lemma binding_is_stable_witness :
  ∃ response s', resolve_context_binding s_ana 1 "bob" (mkFreshIds 11 21 31 41) bob = Ok (response, s') ∧
    resolve_context_binding s' 1 "bob" (mkFreshIds 12 22 32 42) bob = Ok (response, s').
Proof.
  run (resolve_context_binding s_ana 1 "bob" (mkFreshIds 11 21 31 41) bob) as H.
  do 2 eexists. split; [exact H|].
  exact (proj1 (binding_is_stable _ _ _ _ _ _ _ H) (mkFreshIds 12 22 32 42)).
Defined.

Lemma resolved : resolve_memory_context s_both 1 10 20 30 40 = Ok cx_ana.
Proof. vm_compute. reflexivity. Qed.

Lemma resolved_context_is_valid_witness : validate_context s_both cx_ana = Ok ().
Proof. exact (resolved_context_is_valid _ _ _ _ _ _ _ resolved). Defined.

Lemma resolved_sources_are_authorized_witness :
  allows cx_ana MemoryKind.Semantic 30 40 = true.
Proof.
  refine (proj2 (resolved_sources_are_authorized s_both 1 10 20 30 40 cx_ana MemoryKind.Semantic
                   30 40 reach_both resolved) _). reflexivity.
Defined.
