(* ===== verification/RecallWitnesses.v ===== *)
(** * RecallWitnesses: the theorems of the recall path at concrete inputs

    Instances of the interfaces of the chunkers, the gate, fusion and packing,
    a document and an episode to chunk, and a recall over the units of
    [Fixtures]; each theorem with hypotheses is applied to them. *)

From S2P Require Import Prelude Text TextFacts Types Float Clock Bitemporal Store Chunks ChunkFacts.
From S2P Require Import Render RenderFacts.
From S2P Require Import Txn Stage Reads ReadFacts Gate Pack PackFacts Rerank RerankFacts Fuse FuseFacts.
From S2P Require Import Receipts Fixtures Witnesses.

(** ** The parameters *)

#[export] Instance ascii_only : UnicodeAlphanumeric := λ _, false.
#[export] Instance long_uuid : UuidParse := λ token, (length token =? 36)%nat.
#[export] Instance first_ten : CivilDate := λ l, Some (take 10 l).
#[export] Instance flat_ln : LibM := λ _, f32_one.
#[export] Instance steady_memory : Fsrs := {|
  next_states state _ _ := Some (mkNextStates state state state);
  current_retrievability _ _ := f32_one;
|}.

(** ** Chunks *)

Fixpoint repeated (n : nat) (s : string) : string :=
  match n with
  | O => String.EmptyString
  | S n => s +:+ repeated n s
  end.

(** Two paragraphs of 900 characters: each gets its own window. *)
Definition newline : string := String (Ascii.ascii_of_nat 10) String.EmptyString.
Definition document : list N :=
  bytes_of (repeated 150 "alpha " +:+ newline +:+ newline +:+ repeated 150 "omega ").

Definition log : list N := bytes_of (repeated 60 ("user: hello" +:+ newline)).

Lemma resource_chunks_cover_witness :
  ∃ spans, laid_out document 0 spans ∧ Forall (span_fits document) spans ∧
    Forall2 (chunk_at document) spans (resource_contextual_chunks 7 (bytes_of "doc.md") document).
Proof.
  assert (valid_utf8 document = true) as Hv by (vm_compute; reflexivity).
  destruct (resource_chunks_cover 7 (bytes_of "doc.md") document Hv) as (spans & Hl & Hf & Hc).
  exists spans. split_and!; [exact Hl|exact Hf|]. destruct Hc as [[Hnil _]|Hc]; [|exact Hc].
  exfalso. revert Hnil. vm_compute. discriminate.
Defined.

Lemma episode_chunks_cover_witness : ∃ windows spans,
  concat windows = (segment_episode_body log).1 ∧ (length windows <= 32)%nat ∧
  map window_span windows = map Some spans ∧
  Forall2 (chunk_at log) spans (episode_contextual_chunks 7 "chat" log None).
Proof.
  assert (valid_utf8 log = true) as Hv by (vm_compute; reflexivity).
  pose proof (episode_chunks_cover 7 "chat" log None Hv) as Hc.
  destruct (segment_episode_body log) as [segments turns] eqn:E. cbv zeta in Hc.
  destruct Hc as [[_ Hnil]|(windows & spans & ? & ? & ? & ? & _)].
  - exfalso. revert Hnil. vm_compute. discriminate.
  - exists windows, spans. split_and!; assumption.
Defined.

Lemma covering_span_round_trip_witness : ∃ start end_,
  covering_source_span (resource_contextual_chunks 7 (bytes_of "doc.md") document) =
    Some (span_string (start, end_)) ∧ (start <= end_ <= length document)%nat.
Proof.
  destruct (covering_span_round_trip 7 (bytes_of "doc.md") document) as (start & end_ & H & _ & Hl & _).
  - vm_compute. reflexivity.
  - vm_compute. discriminate.
  - vm_compute. discriminate.
  - exists start, end_. split; assumption.
Defined.

(** ** Selection and rendering *)

Definition tea_chunks : list ContextualChunk := [
  mkContextualChunk "c1" "[turns 1-2]" "green tea every morning" (Some "0:23");
  mkContextualChunk "c2" "[turns 3-4]" "the train to work" (Some "24:41");
  mkContextualChunk "c3" "[turns 5-6]" "black tea on Sunday" (Some "42:61")].
Definition tea_tokens : list (list N) := [bytes_of "tea"; bytes_of "sunday"].

Lemma selection_is_maximal_witness : ∃ selected,
  select_chunk_mask tea_chunks tea_tokens 30 = Some selected ∧
  indices_cost tea_chunks (selected_indices tea_chunks selected) <= 30.
Proof.
  run (select_chunk_mask tea_chunks tea_tokens 30) as H. eexists. split; [exact H|].
  exact (proj1 (proj2 (selection_is_maximal _ _ _ _ H))).
Defined.

Lemma packed_render_fits_charge_witness :
  match packed_render tea_chunks tea_tokens (repeated 40 "tea ") 100 None true with
  | (Some text, charged, Some _) => token_estimate text <= charged
  | _ => False
  end.
Proof.
  pose proof (packed_render_fits_charge tea_chunks tea_tokens (repeated 40 "tea ") 100 None true)
    as H. specialize (H ltac:(vm_compute; reflexivity)).
  vm_compute in H |- *. exact (proj1 H).
Defined.

(** ** A recall *)

Definition tea_request : RecallRequest := {|
  rq_context := cx_ana; rq_query := "who likes tea"; rq_k := 2; rq_budget_tokens := 200;
  rq_mode := RecallMode.Fast; rq_include_beliefs := false; rq_edge_expansion_enabled := true;
  rq_context_packing_abstention_enabled := false; rq_procedure_recall_enabled := false;
  rq_decay_enabled := true; rq_compact_only := false; rq_serve_captures := false;
  rq_engine_version := "1"; rq_transaction_as_of := None; rq_valid_at := None;
  rq_aggregation_window := None |}.
Definition plain_levers : PackLevers := mkLevers None None true true.

Definition tea_input : FuseInput := {|
  fu_units := [u_fact; u_source; u_composed; u_mirror]; fu_edges := [e_derived];
  fu_review_events := [mkReviewEvent 1 700 "cli" [100] MarkOutcome.Success "150"];
  fu_vector_scores := None; fu_deep_units := []; fu_lexical_scorer := LexicalScorer.Overlap;
  fu_time := at_time "200"; fu_temporal_window := None; fu_a_recency_control := false |}.

Lemma recall_serves_safely_witness :
  let packed := recall_context tea_input tea_request None plain_levers 50 false in
  pk_items packed ≠ [] ∧
  ∀ item, item ∈ pk_items packed → ∃ unit,
    unit ∈ [u_fact; u_source; u_composed; u_mirror] ∧ mu_id unit = it_unit_id item ∧
    mu_state unit ≠ UnitState.Candidate.
Proof.
  pose proof (recall_serves_safely tea_input tea_request None plain_levers 50 false) as H.
  split; [vm_compute; discriminate|]. intros item Hitem.
  destruct H as [H _]; [repeat constructor|].
  destruct (H item Hitem) as (unit & Hid & [[Hin Hsafe]|Hdeep]); [|inversion Hdeep].
  exists unit. split_and!; [exact Hin|exact Hid|].
  intros Hc. destruct (ss_candidate _ _ _ Hsafe Hc) as [_ Hlane]. discriminate Hlane.
Defined.

(** The candidates of the recall, packed on their own. *)
Definition tea_fused : list CandidateAccumulator :=
  Eval vm_compute in fuse tea_input tea_request (tokenize "who likes tea") false.

Lemma tea_fused_ok : Forall candidate_ok tea_fused ∧ NoDup (map ca_id tea_fused).
Proof.
  split.
  - repeat (apply Forall_cons; split; [vm_compute; reflexivity|]). apply Forall_nil. exact I.
  - apply (bool_decide_unpack (NoDup (map ca_id tea_fused))). vm_compute. exact I.
Qed.

Lemma pack_within_limits_witness :
  let packed := pack_recall_context tea_fused tea_request [e_derived] (tokenize "who likes tea") []
                  10 plain_levers false in
  pk_items packed ≠ [] ∧ N.of_nat (length (pk_items packed)) <= 2 ∧
  pk_token_estimate packed <= 200.
Proof.
  destruct tea_fused_ok as [Hok Hnd]. split; [vm_compute; discriminate|].
  destruct (pack_within_limits tea_fused tea_request [e_derived] (tokenize "who likes tea") []
              10 plain_levers false Hok Hnd) as (H1 & H2 & _).
  split; [exact H1|exact H2].
Defined.

Lemma pack_accounts_for_all_witness :
  let packed := pack_recall_context tea_fused tea_request [e_derived] (tokenize "who likes tea") []
                  10 plain_levers false in
  ∃ scanned rest : list CandidateAccumulator,
    map it_unit_id (pk_items packed) ++ map dr_unit_id (pk_dropped_items packed) ≡ₚ
      map ca_id scanned ++ [] ∧ scanned ++ rest ≡ₚ tea_fused.
Proof.
  destruct tea_fused_ok as [Hok Hnd].
  destruct (pack_accounts_for_all tea_fused tea_request [e_derived] (tokenize "who likes tea") []
              10 plain_levers false Hok Hnd) as [H1 (rest & H2)].
  do 2 eexists. split; [exact H1|exact H2].
Defined.

(** ** Reranking windows *)

Lemma rerank_windows_lossless_witness :
  Forall (window_fits 100) (sub_split_for_rerank document 100) ∧
  total_ink (sub_split_for_rerank document 100) = ink document.
Proof.
  apply (rerank_windows_lossless document 100); [vm_compute; reflexivity|lia|].
  vm_compute. reflexivity.
Defined.

(** ** Receipts *)

(** The item of a unit served from the episode "met Eve". *)
Definition cited_item (unit : UnitId) : RecallContextItem :=
  mkContextItem unit "met Eve" MemoryKind.Semantic "reflect" "fused_top_k" (Some 500) None [] []
    None.

Definition cited_store : InMemoryState := store <| st_citations := {[1 :=
  [mkStoredCitation 900 1 10 30 40 0 101 (Some 500) None (Some (mkCitationSpan 0 3))
     (Some (sha256_prefixed "met"))]]} |>.

Lemma receipts_are_grounded_witness : ∃ receipt,
  build_recall_citations cited_store tea_request (at_time "200") 700 "hash" [cited_item 101] =
    Ok [citation_for (cited_item 101) (CitationVerification.Verified receipt)] ∧
  grounded cited_store tea_request (at_time "200") 700 "hash" (cited_item 101) receipt.
Proof.
  run (build_recall_citations cited_store tea_request (at_time "200") 700 "hash" [cited_item 101])
    as H. eexists. split; [exact H|].
  destruct (receipts_are_grounded _ _ _ _ _ _ _ H) as [Hg _].
  destruct (Hg 0%nat _ _ eq_refl eq_refl) as (_ & item & Hin & _ & Hitem).
  apply list_elem_of_singleton in Hin. subst item. exact Hitem.
Defined.

Lemma shared_source_fails_recall_witness : ∃ e,
  build_recall_citations cited_store tea_request (at_time "200") 700 "hash" [cited_item 103] =
    Err e.
Proof.
  apply (shared_source_fails_recall cited_store tea_request (at_time "200") 700 "hash"
           [cited_item 103] (cited_item 103) u_foreign).
  - apply (bool_decide_unpack (NoDup (map mu_id (tenant_units cited_store cx_ana)))).
    vm_compute. exact I.
  - apply (bool_decide_unpack (u_foreign ∈ tenant_units cited_store cx_ana)). vm_compute. exact I.
  - left.
  - reflexivity.
  - reflexivity.
  - right. right. discriminate.
Defined.
