(* ===== verification/DateWitnesses.v ===== *)
(** * DateWitnesses: a calendar, and the date theorems on it

    An instance of [Calendar] for the years 0 to 9999 with a clock that reads
    its midnights, its laws, and the theorems of [Dates] at concrete
    texts. *)

From S2P Require Import Prelude Text TextFacts Types Float Clock Bitemporal Chunks Render Gate Dates.

Definition civil_ok (x : Z * Z * Z) : bool :=
  let '(y, m, d) := x in
  ((0 <=? y) && (y <=? 9999) && (1 <=? m) && (m <=? 12) && (1 <=? d) && (d <=? month_days y m))%Z.

Definition CivilDay : Set := { x : Z * Z * Z | civil_ok x = true }.

Lemma civil_day_eq (t t' : CivilDay) : proj1_sig t = proj1_sig t' → t = t'.
Proof.
  destruct t as [x Hx], t' as [x' Hx']. simpl. intros ->. f_equal. apply (proof_irrel Hx Hx').
Qed.

Definition day_of (x : Z * Z * Z) : option CivilDay :=
  match bool_dec (civil_ok x) true with left H => Some (exist _ x H) | right _ => None end.

Lemma day_of_spec x t : day_of x = Some t ↔ civil_ok x = true ∧ proj1_sig t = x.
Proof.
  unfold day_of. destruct (bool_dec (civil_ok x) true) as [Hx|Hx]; split.
  - intros [= <-]. done.
  - intros [_ <-]. f_equal. by apply civil_day_eq.
  - done.
  - by intros [? _].
Qed.

Lemma civil_ok_spec y m d : civil_ok (y, m, d) = true ↔ (0 <= y)%Z ∧ valid_civil y m d.
Proof. unfold civil_ok, valid_civil. rewrite !andb_true_iff, !Z.leb_le. lia. Qed.

Definition day_bytes (x : Z * Z * Z) : list N :=
  let '(y, m, d) := x in
  pad 4 (Z.to_N y) ++ [45] ++ pad 2 (Z.to_N m) ++ [45] ++ pad 2 (Z.to_N d).

Definition next_day (x : Z * Z * Z) : Z * Z * Z :=
  let '(y, m, d) := x in
  if (d <? month_days y m)%Z then (y, m, (d + 1)%Z)
  else let '(y', m') := next_month y m in (y', m', 1%Z).

#[export] Instance civil_calendar : Calendar := {|
  Date := CivilDay;
  date_new y m d := day_of (y, m, d);
  date_tomorrow t := day_of (next_day (proj1_sig t));
  date_string t := string_of_bytes (day_bytes (proj1_sig t));
|}.

(** Reads midnights only; a stamp is its day. *)
Definition read_midnight (s : string) : option Z :=
  let l := bytes_of s in
  if bool_decide (drop 10 l = bytes_of "T00:00:00Z") then
    Some (day_number (Z.of_N (digits_value (take 4 l))) (Z.of_N (digits_value (take 2 (drop 5 l))))
            (Z.of_N (digits_value (take 2 (drop 8 l)))))
  else None.

#[export] Instance midnight_clock : Jiff := {|
  parse_timestamp := read_midnight;
  fmt_rfc3339 _ := "?";
  as_second t := t;
|}.

Lemma pad_bytes w n : n < 10 ^ N.of_nat w → Forall (λ b, b < 256) (pad w n).
Proof.
  intros Hn. destruct (pad_spec w n Hn) as (_ & Hd & _). apply Forall_forall. intros b Hb.
  rewrite forallb_forall in Hd. specialize (Hd b (proj1 (list_elem_of_In _ _) Hb)).
  unfold is_digit in Hd. apply andb_true_iff in Hd as [_ Hd%N.leb_le]. lia.
Qed.

Section day.
Context (t : CivilDay) (y m d : Z) (Hf : proj1_sig t = (y, m, d)).

Lemma fields_range : (0 <= y <= 9999 ∧ 1 <= m <= 12 ∧ 1 <= d <= 31)%Z ∧ valid_civil y m d.
Proof.
  destruct t as [x Hx]. simpl in Hf. subst x. apply civil_ok_spec in Hx as [Hy Hv].
  pose proof (month_days_bound y m). destruct Hv as (? & ? & ?). by repeat split; lia.
Qed.

Lemma day_string : bytes_of (date_string t) = day_bytes (y, m, d).
Proof.
  destruct fields_range as [(Hy & Hm & Hd) _]. cbn [date_string civil_calendar]. rewrite Hf.
  apply bytes_of_string. unfold day_bytes.
  rewrite !Forall_app. split_and!; try (by repeat constructor); apply pad_bytes;
    [change (10 ^ N.of_nat 4) with 10000 | change (10 ^ N.of_nat 2) with 100..]; lia.
Qed.

Lemma midnight_reads : parse_timestamp (midnight_utc t) = Some (day_number y m d).
Proof.
  destruct fields_range as [(Hy & Hm & Hd) _].
  cbn [parse_timestamp midnight_clock]. unfold read_midnight, midnight_utc.
  rewrite bytes_of_app, day_string. unfold day_bytes.
  destruct (pad_spec 4 (Z.to_N y)) as (Ly & _ & Vy); [change (10 ^ N.of_nat 4) with 10000; lia|].
  destruct (pad_spec 2 (Z.to_N m)) as (Lm & _ & Vm); [change (10 ^ N.of_nat 2) with 100; lia|].
  destruct (pad_spec 2 (Z.to_N d)) as (Ld & _ & Vd); [change (10 ^ N.of_nat 2) with 100; lia|].
  revert Ly Vy Lm Vm Ld Vd. generalize (pad 4 (Z.to_N y)) (pad 2 (Z.to_N m)) (pad 2 (Z.to_N d)).
  intros [|a0 [|a1 [|a2 [|a3 [|]]]]]; try done. intros [|b0 [|b1 [|]]]; try done.
  intros [|c0 [|c1 [|]]]; try done. intros _ Vy _ Vm _ Vd.
  cbn [app]. generalize (bytes_of "T00:00:00Z") as tail. intros tail. cbn [drop take].
  rewrite bool_decide_true by done. rewrite take_0, Vy, Vm, Vd. do 2 f_equal; lia.
Qed.
End day.

#[export] Program Instance civil_laws : CalendarLaws := {|
  date_fields t := proj1_sig (t : CivilDay);
|}.
Next Obligation.
  intros y m d t. cbn [date_new civil_calendar]. rewrite day_of_spec, civil_ok_spec. split.
  - intros [[_ Hv] Hf]. done.
  - intros [Hv Hf]. split; [|done]. split; [|done].
    destruct (fields_range t y m d Hf) as [(Hy & _) _]. lia.
Qed.
Next Obligation. intros t y m d Hf Hy. by apply day_string. Qed.
Next Obligation.
  intros t t'. cbn [date_tomorrow civil_calendar]. rewrite day_of_spec. intros [_ E].
  destruct (proj1_sig t) as [[y m] d] eqn:Ef. destruct (fields_range t y m d Ef) as [_ Hv].
  rewrite E. unfold next_day. destruct (Z.ltb_spec d (month_days y m)) as [Hlt|Hge].
  - rewrite (day_split y m d), (day_split y m (d + 1)). lia.
  - destruct Hv as (_ & Hm & Hd). pose proof (month_step y m Hm) as Hs.
    destruct (next_month y m) as [y' m']. rewrite (day_split y m d). lia.
Qed.
Next Obligation.
  intros t. destruct (proj1_sig t) as [[y m] d] eqn:Ef. by destruct (fields_range t y m d Ef).
Qed.
Next Obligation.
  intros t t'. unfold cmp_rfc3339.
  destruct (proj1_sig t) as [[y m] d] eqn:Ef, (proj1_sig t') as [[y' m'] d'] eqn:Ef'.
  by rewrite (midnight_reads t y m d Ef), (midnight_reads t' y' m' d' Ef').
Qed.

(** 30 May 2023. *)
Definition may_30 : Date := exist _ (2023, 5, 30)%Z eq_refl.

Lemma content_date_round_trip_witness :
  parse_content_date (bytes_of "[date " ++ bytes_of (date_string may_30) ++ bytes_of "] hello") =
    Some may_30.
Proof.
  apply (content_date_round_trip (bytes_of "[date ") (bytes_of "] hello") may_30 2023 5 30).
  - vm_compute. repeat constructor.
  - reflexivity.
  - reflexivity.
Defined.

Lemma query_window_exact_witness : ∃ w,
  extract_query_date (bytes_of "what happened on May 30, 2023?") = Some w ∧
  valid_from_in_window (midnight_utc may_30) w = true.
Proof.
  destruct (extract_query_date (bytes_of "what happened on May 30, 2023?")) as [w|] eqn:E;
    [|vm_compute in E; discriminate E].
  exists w. split; [reflexivity|].
  assert (parse_content_date (bytes_of "what happened on May 30, 2023?") = Some may_30) as Ht
    by (vm_compute; reflexivity).
  destruct (query_window_exact _ _ E) as [(t & Ht' & Hw)|[Hnone _]]; [|congruence].
  apply Hw. congruence.
Defined.
