(* ===== verification/WriteWitnesses.v ===== *)
(** * WriteWitnesses: the write compiler at concrete inputs

    A job with three trusted statements on the store of [Fixtures]: one takes
    part of the valid time of an open unit, two are preferences about one
    object. *)

From S2P Require Import Prelude Text TextFacts Types Float Clock Bitemporal Lineage Store Isolation Txn Stage.
From S2P Require Import Jobs StageFacts Binding Reads ReadFacts Capture Gate Compile CompileFacts WriteFacts SubjectFacts.
From S2P Require Import Fixtures Witnesses.

#[export] Instance plain_debug : StrDebug := λ s, s.
#[export] Instance axis_embedder : EmbeddingProvider := {|
  embed texts := Ok (map (λ _, [f32_one; f32_zero]) texts);
  dimensions := 2;
  embedder_id := "axis";
|}.

Definition unit_from (n : nat) : UnitId := 800 + N.of_nat n.
Definition edge_from (n : nat) : EdgeId := 900 + N.of_nat n.
Definition citation_from (n : nat) : Uuid := 1000 + N.of_nat n.
#[export] Instance unit_from_inj : Inj (=) (=) unit_from.
Proof. intros x y. unfold unit_from. lia. Qed.

Definition says (key body : string) (from to : option string) : ReflectCandidate := {|
  cd_source_kind := "chat"; cd_trust_level := TrustLevel.TrustedUser; cd_actor_id := 20;
  cd_subject := None; cd_predicate := None; cd_fact_key := Some key;
  cd_kind := Some MemoryKind.Semantic; cd_body := body; cd_confidence := None;
  cd_churn_class := None; cd_admission_hint := None;
  cd_contextual_chunks := [{| ch_id := "c0"; ch_header := "h"; ch_body := "juice";
                              ch_source_span := Some "10-15" |}];
  cd_valid_from := from; cd_valid_to := to; cd_target_unit_ids := None; cd_compact := None;
  cd_capture := None |}.

Definition juice : ReflectCandidate := says "drink" "likes juice now" (Some "150") (Some "250").
Definition chat_job : ReflectInput := {|
  rx_tenant_id := 1; rx_data_subject_id := 10; rx_scope_id := 30; rx_agent_node_id := 40;
  rx_subject_generation := 0; rx_actor_id := 20; rx_source_ref := "chat-2"; rx_observed_at := "300";
  rx_source_body := Some "ana likes juice these days"; rx_episode_id := Some 501;
  rx_resource_id := None; rx_job_id := 610; rx_compiler_version := "v1";
  rx_candidates := [juice;
    says "p1" "The user prefers short written replies." None None;
    says "p2" "The user prefers friendly written replies." None None] |}.

(** The store with the units of one actor. *)
Definition own_store : InMemoryState :=
  store <| st_memory_units := {[1 := [u_fact; u_source; u_bob]]} |>.
Definition drink_units : list StoredMemoryUnit :=
  Eval vm_compute in in_memory_scope_open_units own_store cx_ana.

Notation prepare_job :=
  (prepare_compiled_write_from_snapshot false unit_from edge_from citation_from chat_job "300" cx_ana
     (in_memory_scope_open_units own_store cx_ana)).
Definition no_write : list UnitId * CompiledWrite := ([], compile_unit u_again).
Definition chat_write : CompiledWrite := Eval vm_compute in (from_ok no_write prepare_job).2.

Example chat_job_compiles :
  match prepare_job with Ok _ => true | Err _ => false end = true ∧
  map mu_body (wr_new_units chat_write) =
    ["likes tea"; "likes tea"; "likes juice now"; "The user prefers short written replies.";
     "The user prefers friendly written replies.";
     "The user prefers friendly and short written replies."] ∧
  length (wr_citations chat_write) = 4%nat ∧ map up_id (wr_unit_updates chat_write) = [100].
Proof. vm_compute. done. Qed.

Lemma own_orderly : orderly unit_from own_store cx_ana.
Proof.
  split; [repeat constructor|apply (bool_decide_unpack (NoDup _)); vm_compute; exact I
         |repeat constructor|].
  intros i Hi. assert (ids_of (rows (st_memory_units own_store) (cx_tenant_id cx_ana)) = [100; 101; 106])
    as E by (vm_compute; reflexivity).
  rewrite E in Hi. unfold unit_from in Hi. set_unfold in Hi. lia.
Qed.

Lemma chat_prepared : prepare_job = Ok (ids_of (wr_new_units chat_write), chat_write).
Proof. vm_compute. reflexivity. Qed.

Notation chat_applied :=
  (compiled_in None chat_write cx_ana own_store).

Lemma compile_preserves_history_witness :
  ∃ out state', chat_applied = Ok (out, state') ∧
    heard (rows (st_memory_units state') 1) (at_time "299") =
    heard (rows (st_memory_units own_store) 1) (at_time "299").
Proof.
  run (chat_applied) as H.
  do 2 eexists. split; [exact H|].
  exact (compile_preserves_history false unit_from edge_from citation_from unit_from_inj own_store cx_ana
           chat_job "300" None _ _ _ _ (at_time "299") own_orderly chat_prepared H eq_refl).
Defined.

Lemma compiled_rows_stay_orderly_witness :
  ∃ out state', chat_applied = Ok (out, state') ∧
    length (rows (st_memory_units state') 1) = 9%nat ∧
    NoDup (ids_of (rows (st_memory_units state') 1)).
Proof.
  run (chat_applied) as H.
  do 2 eexists. split; [exact H|]. split; [reflexivity|].
  exact (proj1 (proj2 (compiled_rows_stay_orderly false unit_from edge_from citation_from unit_from_inj
           own_store cx_ana chat_job "300" None _ _ _ _ own_orderly chat_prepared H))).
Defined.

Definition u_fact_closed : StoredMemoryUnit := close_unit UnitState.Superseded "300" u_fact.

Lemma compile_closes_with_authority_witness :
  ∃ out state', chat_applied = Ok (out, state') ∧
    u_fact_closed ∈ rows (st_memory_units state') 1 ∧
    ∃ c, c ∈ rx_candidates chat_job ∧
      authority chat_job "300" (known own_store cx_ana chat_write) c u_fact.
Proof.
  run (chat_applied) as H.
  match type of H with _ = Ok (_, ?s) =>
    assert (u_fact_closed ∈ rows (st_memory_units s) 1) as Hin
      by (apply (bool_decide_unpack _); vm_compute; exact I) end.
  do 2 eexists. split; [exact H|]. split; [exact Hin|].
  destruct (compile_closes_with_authority false unit_from edge_from citation_from unit_from_inj own_store
              cx_ana chat_job "300" None _ _ _ _ u_fact u_fact_closed own_orderly chat_prepared H)
    as (_ & _ & Hc); [left|reflexivity|exact Hin|reflexivity|discriminate|exact Hc].
Defined.

Lemma compiled_citations_quote_source_witness :
  prepare_job = Ok (ids_of (wr_new_units chat_write), chat_write) ∧
  cited_by chat_job "ana likes juice these days" (wr_new_units chat_write) (wr_citations chat_write).
Proof.
  split; [exact chat_prepared|].
  exact (compiled_citations_quote_source false unit_from edge_from citation_from own_store cx_ana chat_job
           "300" _ _ chat_prepared).
Defined.

Definition two_preferences : Compilation := mkCompilation
  [blank_unit 120 MemoryKind.Semantic "The user prefers short written replies.";
   blank_unit 121 MemoryKind.Semantic "The user prefers friendly written replies."] ∅ [] 0.

Lemma composition_is_grounded_and_settles_witness :
  ∃ st', compose_inferred_beliefs unit_from edge_from chat_job "300" two_preferences =
      (st', [AdmissionAction.Append]) ∧
    length (co_working st') = 3%nat ∧
    compose_inferred_beliefs unit_from edge_from chat_job "300" st' = (st', []).
Proof.
  run (compose_inferred_beliefs unit_from edge_from chat_job "300" two_preferences) as H.
  eexists. split; [exact H|]. split; [reflexivity|].
  exact (proj2 (composition_is_grounded_and_settles unit_from edge_from unit_from_inj chat_job "300"
                  _ _ _ H)).
Defined.

(** The store with the job of the write in its queue, and its claim. *)
Definition chat_queued : QueuedReflectJob :=
  job 610 30 <| qj_episode_id := Some 501 |> <| qj_compiler_version := "v1" |>.
Definition claimed_own_store : InMemoryState :=
  Eval vm_compute in
    (claim_reflect_jobs (mkJobFilter None None) 1 (own_store <| st_reflect_jobs := {[1 := [chat_queued]]} |>)).1.
Definition chat_claim : ReflectJobRow := mkReflectJobRow chat_queued 1 0.

Lemma prepared_write_is_applied_once_witness :
  ∃ state', compiled_in (Some chat_claim) chat_write cx_ana claimed_own_store =
      Ok (ClaimMutationOutcome.Applied, state') ∧
    (∃ meta, st_job_meta state' !! 610 = Some meta ∧ jm_completed meta = true ∧
       jm_claimed meta = false) ∧
    prepare_compiled_write false unit_from edge_from citation_from state' chat_job "400" cx_ana =
      Ok (PreparedCompiledWrite.Existing (wr_trace chat_write)) ∧
    ∀ claim' write' out state'', wr_job_id write' = 610 → wr_compiler_version write' = "v1" →
      compiled_in claim' write' cx_ana state' = Ok (out, state'') → state'' = state'.
Proof.
  apply (prepared_write_is_applied_once false unit_from edge_from citation_from unit_from_inj
           claimed_own_store cx_ana chat_job "300" (Some chat_claim) _ _ chat_job "400") with (3 := chat_prepared);
    try reflexivity; try (vm_compute; reflexivity).
  - destruct own_orderly as [H1 H2 H3 H4]. split; [exact H1|exact H2|exact H3|exact H4].
  - intros t Ht. vm_compute in Ht. by apply elem_of_nil in Ht.
  - split; repeat constructor.
  - right. reflexivity.
  - split; [vm_compute; reflexivity|]. split_and!; reflexivity.
Defined.

Definition drink_starts : Compilation := mkCompilation drink_units ∅ [] 0.

Lemma trusted_statement_takes_its_interval_witness :
  ∃ st' action,
    admit_candidate false unit_from edge_from chat_job "300" drink_starts juice = Ok (st', action) ∧
    said chat_job "drink" MemoryKind.Semantic (co_working st') "200" ≡ₚ ["likes juice now"] ∧
    said chat_job "drink" MemoryKind.Semantic (co_working st') "280" ≡ₚ ["likes tea"] ∧
    exclusive chat_job "drink" MemoryKind.Semantic (co_working st').
Proof.
  run (admit_candidate false unit_from edge_from chat_job "300" drink_starts juice) as H.
  do 2 eexists. split; [exact H|].
  assert (statement false chat_job "300" "drink" MemoryKind.Semantic drink_starts juice) as Hst.
  { split; try reflexivity.
    apply (bool_decide_unpack (None ∉ _)). vm_compute. exact I. }
  assert (exclusive chat_job "drink" MemoryKind.Semantic (co_working drink_starts)) as Hstart.
  { intros v. unfold said.
    assert (retain (speaks chat_job "drink" MemoryKind.Semantic) (co_working drink_starts) = [u_fact])
      as -> by (vm_compute; reflexivity).
    unfold answers. rewrite retain_cons. destruct (valid_covers u_fact v); cbn; lia. }
  destruct (trusted_statement_takes_its_interval _ _ _ _ _ _ _ _ _ _ _ Hst Hstart (or_introl eq_refl) H)
    as [(u & _ & _ & _ & Hb & Hs) Hex].
  destruct (Hb eq_refl) as [Ef Et]. split; [|split; [|exact Hex]].
  - rewrite (Hs "200"). unfold valid_covers. rewrite Ef, Et. vm_compute. reflexivity.
  - rewrite (Hs "280"). unfold valid_covers. rewrite Ef, Et. vm_compute. reflexivity.
Defined.
