(* ===== verification/StructuredWitnesses.v ===== *)
(** * StructuredWitnesses: the theorems on structured state at an episode

    A JSON reader for one-line objects, and an episode in which the user says
    where they live twice and what they bought once. *)

From S2P Require Import Prelude Text Types Float Clock Bitemporal Lineage Store Chunks Render Gate Dates.
From S2P Require Import Decimal Compile Structured StructuredFacts Fixtures DateWitnesses.

(** ** The parameters: one line per key and one per value *)

Definition unquoted (value : string) : option string :=
  match bytes_of value with
  | 34 :: rest => match rev rest with
                  | 34 :: text => Some (string_of_bytes (rev text))
                  | _ => None
                  end
  | _ => None
  end.
Fixpoint pairs_of (l : list string) : option Fields :=
  match l with
  | [] => Some []
  | k :: v :: rest => pairs ← pairs_of rest; Some ((k, v) :: pairs)
  | _ => None
  end.
Definition lines_to_fields (text : string) : option Fields :=
  pairs_of (map string_of_bytes (lines (bytes_of text))).
Definition fields_to_lines (fields : Fields) : string :=
  string_of_bytes (concat (map (λ entry, bytes_of entry.1 ++ [LF] ++ bytes_of entry.2 ++ [LF]) fields)).
#[export] Instance line_json : SerdeJson := {|
  json_as_str := unquoted;
  json_as_object := lines_to_fields;
  json_is_scalar value := negb (String.eqb value "null");
  fields_to_json := fields_to_lines;
  fields_of_json := lines_to_fields;
|}.

Definition quoted (text : string) : string := string_of_bytes ([34] ++ bytes_of text ++ [34]).

(** ** The episode *)

Definition first_line : string := "user: I live in Rome".
Definition second_line : string := "assistant: noted".
Definition third_line : string := "user: I live in Oslo and bought a red lamp".
Definition eol : string := string_of_bytes [LF].
Definition moved : string :=
  first_line +:+ eol +:+ second_line +:+ eol +:+ third_line.

Definition moved_slices : list EvidenceSlice :=
  match evidence_slices_for_episode moved with Ok slices => slices | Err _ => [] end.
Definition moved_request : StructuredStateRequest :=
  mkStructuredStateRequest StructuredSourceKind.Episode (sha256_hex moved) 0 moved_slices.
Definition slice_id (i : nat) : string :=
  default String.EmptyString (es_id <$> moved_slices !! i).

Definition lives (i : nat) (city quote : string) : StructuredObservation :=
  mkStructuredObservation "Home" "City" [("name", quoted city)] ObservationDisposition.State
    (slice_id i) quote None None.
Definition bought : StructuredObservation :=
  mkStructuredObservation "purchases" "lamp" [("colour", quoted "red")] ObservationDisposition.Event
    (slice_id 1) "bought a red lamp" None None.
Definition moved_observations : list StructuredObservation :=
  [bought; lives 1 "Oslo" "I live in Oslo"; lives 0 "Rome" "I live in Rome"].
Definition known_home : list ActiveStructuredState :=
  [mkActiveStructuredState 7 "home" "city" [("name", quoted "Bern")] None None].

Definition moved_ops : list StructuredStateOp :=
  Eval vm_compute in
  match fold_structured_observations moved moved_request moved_observations known_home with
  | Ok ops => ops | Err _ => [] end.
Definition moved_projected : list ProjectedStructuredState :=
  Eval vm_compute in
  match project_structured_state StructuredSourceKind.Episode "9" moved moved_ops with
  | Ok projected => projected | Err _ => [] end.

Example two_operations : map so_operation moved_ops =
  [StructuredStateOperation.Replace; StructuredStateOperation.Append].
Proof. reflexivity. Qed.

(** ** Witnesses *)

Lemma moved_addressable : addressable moved.
Proof. unfold addressable. by vm_compute. Qed.

Lemma fold_keeps_last_states_witness : ∃ placed grounded,
  map go_observation placed = moved_observations ∧ grounded ≡ₚ placed ∧
  StronglySorted (λ a b, no_later (place a) (place b)) grounded ∧
  Forall2 (operation_for moved known_home) (kept grounded) moved_ops.
Proof.
  destruct (fold_keeps_last_states moved moved_request moved_observations known_home moved_ops)
    as (placed & grounded & Hobs & _ & Hperm & Hsorted & _ & Hops).
  - exact moved_addressable.
  - vm_compute. reflexivity.
  - by exists placed, grounded.
Defined.

Lemma folded_operations_project_witness : ∃ projected,
  project_structured_state StructuredSourceKind.Episode "9" moved moved_ops = Ok projected ∧
  length projected = length moved_ops.
Proof.
  apply (folded_operations_project StructuredSourceKind.Episode "9" moved moved_addressable
           known_home (NoDup_singleton 7) moved_request moved_observations moved_ops eq_refl).
  vm_compute. reflexivity.
Defined.

Lemma projected_states_are_grounded_witness :
  Forall2 (projects StructuredSourceKind.Episode "9" moved) moved_ops moved_projected ∧
  NoDup (concat (map so_target_unit_ids moved_ops)).
Proof.
  apply (projected_states_are_grounded StructuredSourceKind.Episode "9" moved moved_ops moved_projected).
  vm_compute. reflexivity.
Defined.

Definition no_projected : ProjectedStructuredState :=
  mkProjectedStructuredState String.EmptyString String.EmptyString String.EmptyString None [] None None None.
Definition no_op : StructuredStateOp :=
  mkStructuredStateOp StructuredStateOperation.Delete String.EmptyString String.EmptyString [] []
    String.EmptyString String.EmptyString None None.
Definition home_state : ProjectedStructuredState :=
  Eval vm_compute in default no_projected (head moved_projected).
Definition home_op : StructuredStateOp := Eval vm_compute in default no_op (head moved_ops).
Definition home_unit : StoredMemoryUnit :=
  let unit := blank_unit 50 MemoryKind.Semantic (ps_body home_state) in
  unit <| mu_contextual_chunks := ps_contextual_chunks home_state |> <| mu_valid_from := None |>.

Lemma projected_state_reads_back_witness :
  active_structured_state home_unit = Some (mkActiveStructuredState 50
    (canonical_key (so_namespace home_op)) (canonical_key (so_item_key home_op)) (so_fields home_op)
    (so_valid_from home_op) (so_valid_to home_op)).
Proof.
  apply (projected_state_reads_back StructuredSourceKind.Episode "9" moved home_op home_state home_unit).
  - vm_compute. reflexivity.
  - exists 44%nat, 58%nat. split; [lia|]. split_and!; by vm_compute.
  - by right.
  - unfold holds_state. split_and!; try done. by left.
  - done.
  - done.
Defined.
