(* ===== verification/ReflectWitnesses.v ===== *)
(** * ReflectWitnesses: a worker on the store of the fixtures

    The episode of [StructuredWitnesses] as a queued job, a provider that
    provider_answers its two batches, and the theorems on mining, preparation and the
    worker at them. *)

From S2P Require Import Prelude Text TextFacts Types Float Clock Bitemporal Lineage Store Txn Stage Jobs.
From S2P Require Import Binding Reads Capture Chunks Gate Dates Decimal Compile Structured StructuredFacts.
From S2P Require Import Mining Prepare Reflect ReflectFacts Worker WorkerFacts.
From S2P Require Import DateWitnesses Fixtures Witnesses RecallWitnesses WriteWitnesses StructuredWitnesses.

#[export] Instance size_batch_json : BatchJson := {|
  batches_json batches := hex_from 8 (N.of_nat (length batches));
  receipt_json _ batch observations :=
    hex_from 4 (sr_batch_index batch) +:+ hex_from 4 (N.of_nat (length observations));
|}.

(** ** Mining *)

Definition chat : StoredEpisode :=
  mkStoredEpisode 502 1 10 30 20 40 0 "chat" "chat-3" TrustLevel.TrustedUser "chat-3"
    (first_line +:+ eol +:+ "user: I really love hiking now. My name is Ana Lind." +:+ eol +:+
     "assistant: my favorite colour is blue" +:+ eol +:+ "user: I never love hiking anymore!")
    1 "100" "100".
Definition hiking : ReflectCandidate :=
  Eval vm_compute in default juice (extract_fact_candidates chat None !! 1%nat).

Example chat_facts :
  map (λ c, (cd_predicate c, cd_body c)) (extract_fact_candidates chat None) =
  [(Some "name", "My name is Ana Lind"); (Some "hiking", "I never love hiking anymore")].
Proof. vm_compute. reflexivity. Qed.

Lemma facts_quote_the_user_witness :
  (∃ sentence, said_by_user (bytes_of (ep_body chat)) sentence ∧
     part_of sentence (bytes_of (ep_body chat)) ∧
     (MIN_FACT_SENTENCE_WORDS <= length (split_words [] sentence))%nat ∧
     cd_body hiking = with_date None (string_of_bytes sentence)) ∧
  cd_actor_id hiking = ep_actor_id chat ∧
  cd_trust_level hiking = ep_source_trust chat ∧ cd_target_unit_ids hiking = None.
Proof.
  apply (facts_quote_the_user chat None hiking). apply list_elem_of_lookup. exists 1%nat.
  vm_compute. reflexivity.
Defined.

Lemma hedges_keep_the_subject_witness :
  match_preference_verb (split_words [] (bytes_of "i don't really like rain")) =
  match_preference_verb (split_words [] (bytes_of "i like rain")).
Proof.
  apply (hedges_keep_the_subject (bytes_of "i") [bytes_of "don't"; bytes_of "really"]
           [bytes_of "like"; bytes_of "rain"]).
  - vm_compute. reflexivity.
  - repeat constructor.
Defined.

(** ** The job *)

Definition ep_moved : StoredEpisode :=
  mkStoredEpisode 501 1 10 30 20 40 0 "chat" "chat-2" TrustLevel.TrustedUser "chat-2" moved 1
    "100" "100".
Definition moved_job : QueuedReflectJob :=
  mkQueuedReflectJob 620 1 10 30 20 40 0 (Some 501) None ReflectJobKind.ReflectEpisode "v1" None None.
Definition queue_store : InMemoryState := store
  <| st_episodes := {[1 := [ep_eve; ep_moved]]} |>
  <| st_reflect_jobs := {[1 := [moved_job]]} |>.
Definition claimed_store : InMemoryState :=
  Eval vm_compute in (claim_reflect_jobs (mkJobFilter None None) 4 queue_store).1.
Definition claim : ReflectJobRow := mkReflectJobRow moved_job 1 0.

Definition provider_answers (batch : StructuredStateRequest)
    : result StructuredStateProviderError.t (list StructuredObservation) :=
  Ok (if sr_batch_index batch =? 0 then [lives 0 "Rome" "I live in Rome"]
      else [bought; lives 1 "Oslo" "I live in Oslo"]).
Definition silent (batch : StructuredStateRequest)
    : result StructuredStateProviderError.t (list StructuredObservation) :=
  Err (StructuredStateProviderError.Unavailable "must not run").
Definition test_identity : StructuredStateProviderIdentity := mkProviderIdentity "m" "p" "s".
Definition provider (extract : StructuredStateRequest →
    result StructuredStateProviderError.t (list StructuredObservation)) : StructuredStateProvider :=
  mkProvider test_identity (λ kind sha slices, Ok (plan_batches kind sha slices)) extract.

Definition prepared_store : InMemoryState :=
  Eval vm_compute in
    (prepare_structured_state (Some (provider provider_answers)) claim cx_ana claimed_store).1.
Definition prepared_state : list ProjectedStructuredState :=
  Eval vm_compute in
    from_ok [] (prepare_structured_state (Some (provider provider_answers)) claim cx_ana claimed_store).2.

Example prepared_bodies : map ps_subject prepared_state = ["home"; "purchases"].
Proof. vm_compute. reflexivity. Qed.

Lemma recorded_extractions_are_checked_witness :
  prepared_store = claimed_store ∨ ∃ source batches packets,
    structured_source moved_job cx_ana claimed_store = Ok (Some source) ∧
    provider_plan_batches (provider provider_answers) (pp_source_kind source)
      (sha256_hex (pp_source_body source)) (pp_evidence_slices source) = Ok batches ∧
    Forall2 (checked_packet (provider provider_answers) (pp_source_body source)) batches packets ∧
    claim_is_current claimed_store claim = true ∧
    st_prepared_structured_state claimed_store !! job_key claim = None ∧
    prepared_store = record_extraction claim batches packets claimed_store.
Proof.
  apply (recorded_extractions_are_checked (provider provider_answers) claim cx_ana claimed_store
           prepared_store (Ok prepared_state)).
  vm_compute. reflexivity.
Defined.

(** The job is released, the scope learns a home, and the job is claimed again. *)
Definition known_unit : StoredMemoryUnit := home_unit <| mu_id := 130 |>.
Definition redelivered_store : InMemoryState :=
  Eval vm_compute in
    (claim_reflect_jobs (mkJobFilter None None) 4
       (release_reflect_job claim prepared_store
          <| st_memory_units := {[1 := [known_unit]]} |>)).1.
Definition second_delivery : ReflectJobRow := mkReflectJobRow moved_job 2 0.
Definition moved_source : PreparedSource :=
  Eval vm_compute in
    default (mkPreparedSource StructuredSourceKind.Episode String.EmptyString String.EmptyString [])
      (from_ok None (structured_source moved_job cx_ana claimed_store)).

Lemma prepared_state_survives_redelivery_witness :
  claim_is_current redelivered_store claim = false ∧
  ∃ packets, restated moved_source packets cx_ana prepared_store = Ok prepared_state ∧
    prepare_structured_state (Some (provider silent)) second_delivery cx_ana redelivered_store =
    (redelivered_store, restated moved_source packets cx_ana redelivered_store).
Proof.
  split; [vm_compute; reflexivity|].
  destruct (prepared_state_survives_redelivery (provider provider_answers) claim cx_ana claimed_store
    prepared_store moved_source prepared_state) as (packets & Hfirst & Hlater);
    [vm_compute; reflexivity|vm_compute; reflexivity|done|vm_compute; reflexivity|].
  exists packets. split; [exact Hfirst|].
  apply Hlater; vm_compute; reflexivity.
Defined.

(** The second delivery replaces the home that the scope learned. *)
Example redelivery_replaces :
  map ps_target_unit_ids
    (from_ok [] (prepare_structured_state (Some (provider silent)) second_delivery cx_ana
                   redelivered_store).2) = [Some [130]; None].
Proof. vm_compute. reflexivity. Qed.

(** ** The candidates of the job *)

Definition plain_service : MemoryService :=
  mkMemoryService (Some (provider provider_answers)) false true true true (Some f32_half) true.
Definition moved_input : JobInput :=
  Eval vm_compute in
    default (mkJobInput None None String.EmptyString String.EmptyString None [])
      (from_ok None (job_input plain_service "400" claim cx_ana None claimed_store).2).

Lemma episode_candidates_are_grounded_witness :
  ji_source_body moved_input = Some (ep_body ep_moved) ∧
  ji_episode_id moved_input = Some (ep_id ep_moved) ∧
  Forall (grounded_in_episode plain_service claim cx_ana claimed_store ep_moved)
    (ji_candidates moved_input).
Proof.
  apply (episode_candidates_are_grounded plain_service "400" claim cx_ana None claimed_store
           prepared_store moved_input ep_moved).
  - reflexivity.
  - exists 501. split; [reflexivity|]. vm_compute. reflexivity.
  - exact I.
  - vm_compute. reflexivity.
Defined.

(** ** Subjects *)

(** An open unit that says the user's home in other words. *)
Definition scope_key (rest : string) : string := uuid_string 30 +:+ ":" +:+ rest.
Definition u_home : StoredMemoryUnit :=
  blank_unit 110 MemoryKind.Semantic "home town is Bern"
    <| mu_fact_key := Some (scope_key "home:home town") |> <| mu_predicate := Some "home town" |>.
Definition home_store : InMemoryState :=
  claimed_store <| st_memory_units := {[1 := [u_fact; u_home]]} |>.
Definition phrases : list ReflectCandidate :=
  map (λ phrase, source_candidate "chat" TrustLevel.TrustedUser 20 (Some "Home") (Some phrase) None
                   "I live in Oslo" [] None) ["city"; "place"].
Definition resolved_phrases : list ReflectCandidate :=
  Eval vm_compute in
    from_ok [] (resolve_subject_aliases (Some f32_half) cx_ana phrases home_store).

Example one_phrase_adopts :
  map cd_fact_key resolved_phrases = [Some (scope_key "home:home town"); None].
Proof. vm_compute. reflexivity. Qed.

Lemma aliases_keep_subjects_apart_witness :
  let owned := owned_key (cx_scope_id cx_ana) in
  length resolved_phrases = length phrases ∧
  (∀ i c, phrases !! i = Some c → ∃ c', resolved_phrases !! i = Some c' ∧
     (c' = c ∨ ∃ key units, c' = c <| cd_fact_key := Some key |> ∧ alias_eligible c = true ∧
        fetch_scope_open_units home_store cx_ana = Ok units ∧
        alias_of (omap (open_subject (cx_scope_id cx_ana)) units) c key)) ∧
  (∀ i j c c', i ≠ j → resolved_phrases !! i = Some c → resolved_phrases !! j = Some c' →
     owned c = owned c' → phrases !! i = Some c ∧ phrases !! j = Some c').
Proof.
  apply (aliases_keep_subjects_apart (Some f32_half) cx_ana phrases home_store resolved_phrases).
  vm_compute. reflexivity.
Defined.

(** An appended event has a subject of its own and may adopt another's. *)
Example events_are_eligible :
  map (λ p, alias_eligible (projection_candidate "chat" TrustLevel.TrustedUser 20 p)) prepared_state =
  [false; true].
Proof. vm_compute. reflexivity. Qed.

(** ** A tick *)

(** Two lanes: the episode of [moved_job], and a job of the other subject whose
    episode is gone. *)
Definition gone_job : QueuedReflectJob :=
  mkQueuedReflectJob 621 1 11 31 21 41 0 (Some 999) None ReflectJobKind.ReflectEpisode "v1" None None.
Definition tick_store : InMemoryState := queue_store
  <| st_reflect_jobs := {[1 := [moved_job; gone_job]]} |>.

Definition row_ids {A} (make : nat → A) (row : ReflectJobRow) (n : nat) : A :=
  make (n + 16 * N.to_nat (qj_id (jr_job row)))%nat.
Definition no_provider : MemoryService := mkMemoryService None false true true true None true.
Notation tick_prepare := (λ job, unwound (Worker.prepare_job no_provider job)).
Notation tick_compile := (λ job prepared, unwound (compile_thread false (row_ids unit_from)
  (row_ids edge_from) (row_ids citation_from) no_provider 400 "400" job prepared.1 prepared.2)).
(** The lanes take turns call by call. *)
Definition by_turns : list nat := [0; 1; 0; 1; 1; 0; 0; 1; 0; 0; 0]%nat.
Definition ticked :=
  Eval vm_compute in
    worker_tick (live_structured_compiler_identity no_provider) tick_prepare tick_compile
      2 by_turns (mkJobFilter None None) 4 tick_store.

Example tick_completes : ticked.2 = Ok (mkWorkerTickOutcome 2 0 0 0).
Proof. reflexivity. Qed.
Example two_lanes :
  map (map (λ job, qj_id (jr_job job)))
    (lanes_of (claim_reflect_jobs (mkJobFilter None None) 4 tick_store).2) = [[620]; [621]].
Proof. vm_compute. reflexivity. Qed.

Lemma tick_stops_lanes_in_order_witness :
  let '(claimed, jobs) := claim_reflect_jobs (mkJobFilter None None) 4 tick_store in
  ∃ groups runs, grouped jobs groups ∧
    interleaves (map (lane_thread (live_structured_compiler_identity no_provider) tick_prepare
                        tick_compile) groups) claimed ticked.1 runs ∧
    Forall2 (λ group run, lane_spec (live_structured_compiler_identity no_provider) tick_prepare
               tick_compile group run.1 run.2) groups runs ∧
    ∃ oks, map snd runs = map Ok oks ∧ mkWorkerTickOutcome 2 0 0 0 = total_of oks.
Proof.
  apply (tick_stops_lanes_in_order (live_structured_compiler_identity no_provider) tick_prepare
           tick_compile 2 by_turns (mkJobFilter None None) 4 tick_store ticked.1
           (Ok (mkWorkerTickOutcome 2 0 0 0))).
  vm_compute. reflexivity.
Defined.
