(* ===== verification/OrchestrationWitnesses.v ===== *)
(** * OrchestrationWitnesses: rollups, bundles, deep runs and recalls at a store

    The store of [Fixtures] with two quantity events, two structured states and
    the note that names them; a provider that answers about the episode; and
    the theorems on synthetic units, deep runs and whole recalls applied to
    them. *)

From S2P Require Import Prelude Text Types Float Clock Bitemporal Lineage Store Stage Reads ReadFacts Chunks Render RenderFacts.
From S2P Require Import Gate Pack PackFacts Rerank Fuse FuseFacts Receipts Dates Decimal Compile Structured Rollup RollupFacts.
From S2P Require Import Deep DeepFacts Recall RecallFacts Fixtures Witnesses RecallWitnesses DateWitnesses StructuredWitnesses.

#[local] Existing Instance decimal_clock.

#[export] Instance plain_lowercase : UnicodeLowercase := λ c, c.
#[export] Instance line_deep_json : DeepJson := {|
  manifest_line_json := ml_path;
  compiled_unit_line_json := ul_body;
|}.
#[export] Instance fixed_columns : TraceRow := λ _, "columns".

(** ** Quantities and states *)

Definition json_line (key value : string) : string := key +:+ eol +:+ value +:+ eol.

Definition ran (id : UnitId) (value at_ : string) (trust : TrustLevel.t) : StoredMemoryUnit :=
  blank_unit id MemoryKind.Semantic
    ("health item run: " +:+ json_line "type" (quoted QUANTITY_EVENT_TYPE) +:+
     json_line "measure" (quoted "distance") +:+ json_line "value" (quoted value) +:+
     json_line "unit" (quoted "km") +:+ json_line "occurred_at" (quoted at_) +:+
     json_line "dimensions" String.EmptyString)
    <| mu_trust_level := trust |>.

Definition house (id : UnitId) (item value : string) : StoredMemoryUnit :=
  blank_unit id MemoryKind.Semantic ("house item " +:+ item +:+ ": " +:+ json_line "name" (quoted value))
    <| mu_source_episode_id := Some 500 |>
    <| mu_contextual_chunks := [mkContextualChunk "c1" "[structured-state evidence]" value None] |>.

Definition u_named : StoredMemoryUnit :=
  blank_unit 114 MemoryKind.Semantic "We drew the Grey house plan." <| mu_source_episode_id := Some 500 |>.

Definition pool_units : list StoredMemoryUnit :=
  [u_fact; u_source; ran 110 "1.5" "120" TrustLevel.TrustedUser;
   ran 111 "2.25" "130" TrustLevel.WebContent; ran 112 "9" "300" TrustLevel.TrustedUser;
   house 113 "roof" "slate"; house 115 "door" "oak"; u_named].

Definition run_window : AggregationWindow := mkWindow "100" "200".
Definition with_query (mode : RecallMode.t) (query : string) : RecallRequest := {|
  rq_context := cx_ana; rq_query := query; rq_k := 5; rq_budget_tokens := 400;
  rq_mode := mode; rq_include_beliefs := false; rq_edge_expansion_enabled := true;
  rq_context_packing_abstention_enabled := false; rq_procedure_recall_enabled := false;
  rq_decay_enabled := true; rq_compact_only := false; rq_serve_captures := false;
  rq_engine_version := "1"; rq_transaction_as_of := Some "200"; rq_valid_at := None;
  rq_aggregation_window := Some run_window |}.
Definition plan_query : string := "how far did I run for 'the grey house plan'".
Definition plan_request : RecallRequest := with_query RecallMode.Fast plan_query.

Definition run_rollup : SyntheticUnit :=
  Eval vm_compute in
  match quantity_rollups pool_units plan_request run_window (at_time "200") with
  | r :: _ => r | [] => mkSynthetic u_fact [] end.

(** The event of time 300 is outside the window. *)
Example two_runs_are_summed : mu_body (sy_unit run_rollup) =
  "quantity rollup health/run/distance (km); window=[100,200); filter=all; total=3.75; average=1.875 (rounded to 6 decimal places when needed); count=2; min=1.5; max=2.25".
Proof. reflexivity. Qed.

Lemma run_rollup_in :
  run_rollup ∈ quantity_rollups pool_units plan_request run_window (at_time "200").
Proof.
  replace (quantity_rollups pool_units plan_request run_window (at_time "200")) with [run_rollup]
    by (vm_compute; reflexivity).
  apply list_elem_of_here.
Qed.

Lemma rollups_are_exact_witness : ∃ totals decimals,
  qt_total totals = foldr Z.add 0%Z (map (in_units (qt_scale totals)) decimals) ∧
  sy_source_unit_ids run_rollup ≡ₚ [110; 111].
Proof.
  assert (Hlen : (Z.of_nat (length pool_units) <= i128_max)%Z) by (vm_compute; discriminate).
  destruct (rollups_are_exact pool_units plan_request run_window (at_time "200") run_rollup Hlen
    run_rollup_in) as (series & totals & decimals & _ & _ & _ & _ & Hsum & _).
  exists totals, decimals. split; [exact Hsum|]. vm_compute. reflexivity.
Defined.

Definition plan_bundle : SyntheticUnit :=
  Eval vm_compute in
  match artifact_bundle pool_units plan_request with Some b => b | None => run_rollup end.

Lemma bundle_holds_the_states_witness : ∃ members,
  sy_source_unit_ids plan_bundle ≡ₚ map mu_id members ∧ (2 <= length members)%nat ∧
  sy_source_unit_ids plan_bundle = [113; 115].
Proof.
  assert (HB : artifact_bundle pool_units plan_request = Some plan_bundle)
    by (vm_compute; reflexivity).
  destruct (bundle_holds_the_states pool_units plan_request plan_bundle HB)
    as (anchor & members & _ & _ & Hlen & Hids & _).
  exists members. split; [exact Hids|]. split; [exact Hlen|]. reflexivity.
Defined.

(** A query for a high-risk action over a run reported by a web page. *)
Definition risky_request : RecallRequest :=
  with_query RecallMode.Fast "how far did I run to forge the grey house plan".
Definition risky_rollup : SyntheticUnit :=
  Eval vm_compute in
  match quantity_rollups pool_units risky_request run_window (at_time "200") with
  | r :: _ => r | [] => mkSynthetic u_fact [] end.

Lemma synthetic_units_keep_the_floor_witness :
  is_Some (high_risk_recall_drop_reason (sy_unit risky_rollup) risky_request).
Proof.
  apply (synthetic_units_keep_the_floor pool_units risky_request run_window (at_time "200")
    risky_rollup (ran 111 "2.25" "130" TrustLevel.WebContent)).
  - apply (bool_decide_unpack (NoDup (map mu_id pool_units))). vm_compute. exact I.
  - do 3 apply list_elem_of_further. apply list_elem_of_here.
  - left. replace (quantity_rollups pool_units risky_request run_window (at_time "200"))
      with [risky_rollup] by (vm_compute; reflexivity). apply list_elem_of_here.
  - apply (bool_decide_unpack (111 ∈ sy_source_unit_ids risky_rollup)). vm_compute. exact I.
  - vm_compute. reflexivity.
  - reflexivity.
Defined.

(** ** A deep run *)

Definition deep_evidence (status : EvidenceStatus.t) : EvidenceDisposition :=
  mkEvidenceDisposition EVIDENCE_DISPOSITION_CONTRACT_REVISION status (answer_policy status)
    "read the episode".
Definition deep_output (status : EvidenceStatus.t) : DeepRecallProviderResult := {|
  gr_status := DeepRecallStatus.Completed;
  gr_stop_reason := DeepRecallStopReason.Completed;
  gr_source_ids := [500];
  gr_usage := mkDeepUsage 10 1 900 40 100 5;
  gr_generation_ids := ["g1"; "g2"];
  gr_observed_provider := Some "host";
  gr_observed_model := Some "model";
  gr_evidence := deep_evidence status;
|}.
Definition deep_limits_1 : DeepRecallLimits := mkDeepLimits 1000 4 1000 50.
Definition deep_identity_1 : DeepProviderIdentity := mkDeepIdentity "host" "model" "p" "c".
Definition deep_provider_1 (status : EvidenceStatus.t) : DeepRecallProvider := {|
  dv_identity := deep_identity_1;
  dv_limits := deep_limits_1;
  dv_gather _ := Ok (deep_output status);
|}.

Definition plan_store : InMemoryState :=
  store <| st_memory_units := {[1 := pool_units]} |>.
Definition deep_request : RecallRequest := with_query RecallMode.Deep plan_query.

Definition deep_entries : list DeepSnapshotEntry :=
  Eval vm_compute in from_ok [] (fetch_deep_snapshot plan_store cx_ana (at_time "200")).

Lemma deep_output_check_is_exact_witness :
  validate_deep_provider_result (deep_output EvidenceStatus.Supported) deep_limits_1 deep_identity_1
    (snd (build_deep_workspace_owned deep_entries)) =
    Ok [u_source; house 113 "roof" "slate"; u_named; house 115 "door" "oak"] ∧
  ranked_by (snd (build_deep_workspace_owned deep_entries)) [500]
    [u_source; house 113 "roof" "slate"; u_named; house 115 "door" "oak"] ∧
  validate_deep_provider_result (deep_output EvidenceStatus.Supported)
    (mkDeepLimits 1000 4 999 50) deep_identity_1 deep_entries =
    Err CoreError.DeepProviderInvalidOutput.
Proof.
  assert (HV : validate_deep_provider_result (deep_output EvidenceStatus.Supported) deep_limits_1
    deep_identity_1 (snd (build_deep_workspace_owned deep_entries)) =
    Ok [u_source; house 113 "roof" "slate"; u_named; house 115 "door" "oak"])
    by (vm_compute; reflexivity).
  split; [exact HV|]. split.
  - exact (proj2 (proj1 (proj1 (deep_output_check_is_exact _ _ _ _) _) HV)).
  - vm_compute. reflexivity.
Defined.

Lemma workspace_bytes_commit_witness : ∀ files,
  Forall (λ file, fits (df_path file) ∧ fits (df_body file)) files →
  workspace_bytes files = workspace_bytes (dw_files (build_deep_workspace deep_entries)) →
  files = dw_files (build_deep_workspace deep_entries).
Proof.
  intros files Hfits. apply workspace_bytes_commit. apply Forall_app. split; [exact Hfits|].
  repeat (apply Forall_cons; split; [split; vm_compute; discriminate|]). apply Forall_nil. exact I.
Defined.

Lemma deep_run_is_confined_witness : ∃ facts kept,
  deep_run plan_store (Some (deep_provider_1 EvidenceStatus.Supported)) deep_request (at_time "200") =
    Ok (Some facts) ∧
  (∀ u, u ∈ run_ranked_units facts → servable deep_request (at_time "200") u = true) ∧
  length (run_ranked_units facts) = 4%nat ∧ length (dw_files (build_deep_workspace kept)) = 4%nat.
Proof.
  run (deep_run plan_store (Some (deep_provider_1 EvidenceStatus.Supported)) deep_request
    (at_time "200")) as H.
  match type of H with _ = Ok (Some ?f) => exists f end.
  destruct (deep_run_is_confined _ _ _ _ _ H) as (p & kept & output & _ & _ & _ & _ & _ & _ & Hu).
  exists deep_entries. split; [exact H|]. split; [|split; vm_compute; reflexivity].
  intros u Hin. exact (proj1 (Hu u Hin)).
Defined.

(** ** Recalls *)

Definition plan_config (status : EvidenceStatus.t) : RecallConfig := {|
  rg_recall_pool_depth := 50;
  rg_pack_levers := plain_levers;
  rg_lexical_scorer := LexicalScorer.Overlap;
  rg_temporal_grounding_enabled := false;
  rg_rerank_plan := None;
  rg_deep_provider := Some (deep_provider_1 status);
  rg_a_recency_control := false;
|}.
Definition plan_reads : RecallReads :=
  mkRecallReads plan_store plan_store plan_store plan_store plan_store plan_store.
Definition recall_at (status : EvidenceStatus.t) (request : RecallRequest)
    : InMemoryState * result CoreError.t RecallResponse :=
  recall_with_pool_and_selection_impl (plan_config status) plan_reads request
    (Some (mkVectorQuery [f32_one; f32_zero] 9)) 200 701 (mkTimings 7 0) plan_store.

Definition no_response : RecallResponse :=
  mkRecallResponse 0 [] [] [] false false 0 [] None (at_time "0").

Definition plan_response : RecallResponse :=
  Eval vm_compute in from_ok no_response (recall_at EvidenceStatus.Insufficient plan_request).2.
Definition plan_after : InMemoryState := (recall_at EvidenceStatus.Insufficient plan_request).1.

Example plan_items :
  map it_unit_id (rsp_items plan_response) =
    [mu_id (sy_unit plan_bundle); mu_id (sy_unit run_rollup); 114; 112; 110].
Proof. reflexivity. Qed.

Lemma plan_recalled : recall_at EvidenceStatus.Insufficient plan_request =
  (plan_after, Ok plan_response).
Proof.
  unfold plan_after. rewrite (surjective_pairing (recall_at _ _)) at 1. apply (f_equal (pair _)).
  vm_compute. reflexivity.
Qed.

Lemma plan_units_fit : ∀ u, stored plan_reads plan_request u → fits_memory (mu_contextual_chunks u).
Proof.
  assert (HF : Forall (λ u, fits_memory (mu_contextual_chunks u)) pool_units)
    by (repeat constructor).
  rewrite Forall_forall in HF. intros u [Hu|[Hu|Hu]]; apply HF; exact Hu.
Qed.

Lemma recall_serves_only_admitted_witness : Forall (λ item, ∃ u,
  mu_id u = it_unit_id item ∧ mu_state u ≠ UnitState.Candidate ∧
  transaction_visible u "200" = true) (rsp_items plan_response).
Proof.
  apply Forall_forall. intros item Hitem.
  destruct (recall_serves_only_admitted (plan_config EvidenceStatus.Insufficient) plan_reads
    plan_request (Some (mkVectorQuery [f32_one; f32_zero] 9)) 200 701 (mkTimings 7 0) plan_store
    plan_after plan_response plan_units_fit plan_recalled) as (_ & Hall & _).
  destruct (Hall item Hitem) as (u & Hid & Hsafe & _). exists u.
  split; [exact Hid|]. split; [|exact (proj1 (ss_visible _ _ _ Hsafe))].
  intros Hc. destruct (ss_candidate _ _ _ Hsafe Hc) as [_ Hlane]. discriminate Hlane.
Defined.

Lemma trace_admits_what_was_served_witness :
  check_review_event plan_after cx_ana
    (mkReviewEvent 1 701 "cli" [114; 110; 113] MarkOutcome.Success "210") = Ok () ∧
  check_review_event plan_after cx_ana
    (mkReviewEvent 1 701 "cli" [101] MarkOutcome.Success "210") ≠ Ok ().
Proof.
  pose proof (λ event, trace_admits_what_was_served (plan_config EvidenceStatus.Insufficient) plan_reads
    plan_request (Some (mkVectorQuery [f32_one; f32_zero] 9)) 200 701 (mkTimings 7 0) plan_store
    plan_after plan_response event ltac:(apply (bool_decide_unpack (701 ∉ _)); vm_compute; exact I)
    plan_recalled) as H.
  split.
  - apply H; [reflexivity|]. split; [reflexivity|]. intros id Hid.
    assert (Hsub : Forall (λ id, existsb (λ item, (id =? it_unit_id item) ||
      bool_decide (id ∈ it_derived_from_unit_ids item)) (rsp_items plan_response) = true) [114; 110; 113])
      by (repeat constructor).
    rewrite Forall_forall in Hsub. specialize (Hsub id Hid).
    apply existsb_exists in Hsub as (item & Hin & Hor). exists item.
    split; [by apply list_elem_of_In|]. apply orb_true_iff in Hor as [Hor|Hor].
    + left. by apply N.eqb_eq.
    + right. by apply bool_decide_eq_true in Hor.
  - intros Hok. apply H in Hok; [|reflexivity]. destruct Hok as [_ Hall].
    destruct (Hall 101 ltac:(apply list_elem_of_here)) as (item & Hin & Hor).
    assert (Hno : Forall (λ item, (101 =? it_unit_id item) ||
      bool_decide (101 ∈ it_derived_from_unit_ids item) = false) (rsp_items plan_response))
      by (repeat constructor).
    rewrite Forall_forall in Hno. specialize (Hno item Hin). apply orb_false_iff in Hno as [H1 H2].
    destruct Hor as [Hor|Hor]; [by rewrite <-Hor in H1|]. by apply bool_decide_eq_false in H2.
Defined.

Definition unscoped_request : RecallRequest :=
  mkRecallRequest (cx_ana <| cx_sources_by_kind := ∅ |>) plan_query 5 400 RecallMode.Fast false true
    false false true false false "1" (Some "200") None None.

Lemma refused_recall_is_inert_witness :
  (recall_at EvidenceStatus.Supported unscoped_request).2 = Err (CoreError.PolicyDenied "scope") ∧
  (recall_at EvidenceStatus.Supported unscoped_request).1 ≠ plan_store.
Proof.
  assert (Ht : resolve_recall_time (rq_transaction_as_of unscoped_request)
    (rq_valid_at unscoped_request) 200 = Ok (at_time "200")) by (vm_compute; reflexivity).
  destruct (refused_recall_is_inert (plan_config EvidenceStatus.Supported) plan_reads unscoped_request
    (Some (mkVectorQuery [f32_one; f32_zero] 9)) 200 701 (mkTimings 7 0) plan_store (at_time "200")
    Ht eq_refl) as [Hdenied _].
  destruct (Hdenied ltac:(vm_compute; reflexivity)) as [HE _]. unfold recall_at. rewrite HE. clear HE.
  split; [vm_compute; reflexivity|]. intros HE.
  apply (f_equal (λ s, length (tenant_traces s cx_ana))) in HE. vm_compute in HE. discriminate HE.
Defined.

Definition deep_response : RecallResponse :=
  Eval vm_compute in from_ok no_response (recall_at EvidenceStatus.Insufficient deep_request).2.
Definition deep_after : InMemoryState := (recall_at EvidenceStatus.Insufficient deep_request).1.

Lemma deep_claims_are_cited_witness :
  recall_at EvidenceStatus.Insufficient deep_request = (deep_after, Ok deep_response) ∧
  rsp_abstention deep_response = true ∧ rsp_items deep_response ≠ [].
Proof.
  assert (HE : recall_at EvidenceStatus.Insufficient deep_request = (deep_after, Ok deep_response)).
  { unfold deep_after. rewrite (surjective_pairing (recall_at _ _)) at 1. apply (f_equal (pair _)).
    vm_compute. reflexivity. }
  split; [exact HE|]. split; [|discriminate].
  destruct (deep_claims_are_cited (plan_config EvidenceStatus.Insufficient) plan_reads deep_request
    (Some (mkVectorQuery [f32_one; f32_zero] 9)) 200 701 (mkTimings 7 0) plan_store
    deep_after deep_response HE) as [_ Hdeep].
  destruct (Hdeep eq_refl) as (summary & Hsum & Habs & _).
  apply Habs. injection Hsum as <-. reflexivity.
Defined.
