(* ===== verification/VerbWitnesses.v ===== *)
(** * VerbWitnesses: the verbs of the service at a store

    Instances for JSON and a clock whose stamps end in [Z]; a store with a note
    of a trusted user and a trace that served it; and the theorems on the verbs
    applied there. *)

From Stdlib Require DecimalString DecimalZ.
From S2P Require Import Prelude Text Types Float Clock Bitemporal Lineage Store Txn Stage Binding Ledger.
From S2P Require Import Reads Capture CaptureFacts Gate Dates Decimal Structured Compile Mining Prepare Reflect Requests Verbs Tasks.
From S2P Require Import VerbFacts VerbEffects Fixtures Witnesses WriteWitnesses ReflectWitnesses.

(** ** JSON *)

Fixpoint written (value : JsonValue) : string :=
  match value with
  | JNull => "null"
  | JBool b => if b then "true" else "false"
  | JNumber text => text
  | JString s => "'" +:+ s +:+ "'"
  | JArray values => "[" +:+ foldr (λ v rest, written v +:+ "," +:+ rest) "]" values
  | JObject entries => "{" +:+ foldr (λ '(k, v) rest, k +:+ ":" +:+ written v +:+ "," +:+ rest) "}" entries
  end.

Definition number (n : N) : JsonValue := JNumber (DecimalString.NilZero.string_of_uint (N.to_uint n)).
Definition numbers (l : list N) : JsonValue := JArray (map number l).
Definition plain {A} (f : A → JsonValue) : Serialize A := {|
  to_value a := Ok (f a);
  to_vec a := Ok (written (f a));
|}.

#[export] Instance plain_writer : JsonWriter := λ value, Ok (written value).

Definition retain_json (r : RetainEpisodeHttpRequest) : JsonValue :=
  JObject [("source_ref", JString (rn_source_ref r)); ("observed_at", JString (rn_observed_at r));
    ("payload", match rn_payload r with
     | RetainPayload.Episode e => JString (ple_body e)
     | RetainPayload.Resource u => JString (plr_uri u)
     | RetainPayload.Unit u => JString (plu_body u)
     end)].
#[export] Instance retain_serialize : Serialize RetainEpisodeHttpRequest := plain retain_json.
#[export] Instance remember_serialize : Serialize RememberRequest :=
  plain (λ r, JObject [("trigger", JString (rmb_trigger r)); ("body", JString (rmb_body r))]).
#[export] Instance reflect_serialize : Serialize ReflectRequest :=
  plain (λ r, JObject [("scope_id", number (id_scope_id (rfq_identity r)))]).
#[export] Instance correct_serialize : Serialize CorrectRequest :=
  plain (λ r, JObject [("id", number (crq_memory_unit_id r));
                       ("value", JString (cp_value (crq_correction r)))]).
#[export] Instance correct_memory_serialize : Serialize CorrectMemoryRequest :=
  plain (λ r, JObject [("id", number (cmq_memory_unit_id r)); ("body", JString (cmq_body r))]).
#[export] Instance invalidate_serialize : Serialize InvalidateMemoryRequest :=
  plain (λ r, JObject [("id", number (ivq_memory_unit_id r)); ("reason", JString (ivq_reason r))]).
#[export] Instance forget_serialize : Serialize ForgetRequest :=
  plain (λ r, JObject [("reason", JString (fgq_reason r))]).
#[export] Instance erase_serialize : Serialize EraseSubjectRequest :=
  plain (λ r, JObject [("reason", JString (erq_reason r))]).
#[export] Instance mark_serialize : Serialize MarkRequest :=
  plain (λ r, JObject [("used_ids", numbers (mkq_used_ids r)); ("trace_id", number (mkq_trace_id r))]).
#[export] Instance outcome_serialize : Serialize TaskOutcomeRequest :=
  plain (λ r, JObject [("task_id", number (tq_task_id r))]).
#[export] Instance events_serialize : Serialize TaskMemoryEventsRequest :=
  plain (λ r, JObject [("task_id", number (tv_task_id r))]).

#[export] Instance retained_serialize : Serialize RetainEpisodeHttpResponse :=
  plain (λ r, JObject [("unit_ids", numbers (rnr_unit_ids r))]).
#[export] Instance accepted_serialize : Serialize ReflectAccepted :=
  plain (λ r, JObject [("job_id", number (rfa_job_id r))]).
#[export] Instance corrected_serialize : Serialize CorrectResult := plain (λ _, JObject []).
#[export] Instance forgotten_serialize : Serialize ForgetResult :=
  plain (λ r, JObject [("invalidated", numbers (fgr_invalidated_units r))]).
#[export] Instance erased_serialize : Serialize EraseSubjectResult := {|
  to_value r := Ok (JObject [("generation", number (err_generation r))]);
  to_vec r := Ok (Txn.receipt_json {| rr_generation := err_generation r; rr_erased_at := err_erased_at r |});
|}.
#[export] Instance marked_serialize : Serialize MarkResult :=
  plain (λ r, JObject [("trace_id", number (mkr_trace_id r))]).
#[export] Instance task_serialize : Serialize TaskOutcomeResult :=
  plain (λ r, JObject [("task_id", number (tr_task_id r))]).
#[export] Instance evidence_serialize : Serialize TaskMemoryEventsResult :=
  plain (λ r, JObject [("recorded", number (ts_recorded r))]).

Lemma erasures_serialize generation erased_at :
  to_vec (mkEraseResult generation erased_at) =
  Ok (Txn.receipt_json {| rr_generation := generation; rr_erased_at := erased_at |}).
Proof. reflexivity. Qed.

(** The keys of an object are hashed in order. *)
Example keys_are_sorted :
  canonicalize (JObject [("used_ids", JNull); ("trace_id", JObject [("b", JNull); ("a", JNull)])]) =
  JObject [("trace_id", JObject [("a", JNull); ("b", JNull)]); ("used_ids", JNull)].
Proof. reflexivity. Qed.

(** ** The clock *)

(** A stamp is a number of nanoseconds and a [Z]. *)
Definition read_zulu (s : string) : option Z :=
  let n := (String.length s - 1)%nat in
  if bool_decide (String.substring n 1 s = "Z")
  then option_map Z.of_int (DecimalString.NilZero.int_of_string (String.substring 0 n s))
  else None.

#[local] Instance zulu_clock : Jiff := {|
  parse_timestamp := read_zulu;
  fmt_rfc3339 t := DecimalString.NilZero.string_of_int (Z.to_int t) +:+ "Z";
  as_second t := (t / 1000000000)%Z;
|}.

(** ** The store *)

Definition later (clock : Z) : Instants := mkInstants clock clock (fmt_rfc3339 clock).
Definition fresh_1 : VerbIds := mkVerbIds 2000 2001 2002 2003 (λ n, 2100 + N.of_nat n)
  (λ n, 2200 + N.of_nat n) (λ n, 2300 + N.of_nat n).
Definition fresh_2 : VerbIds := mkVerbIds 3000 3001 3002 3003 (λ n, 3100 + N.of_nat n)
  (λ n, 3200 + N.of_nat n) (λ n, 3300 + N.of_nat n).

Definition note : StoredMemoryUnit :=
  blank_unit 120 MemoryKind.Semantic "deploys are on fridays"
    <| mu_fact_key := Some (uuid_string 30 +:+ ":deploys:deploys") |> <| mu_predicate := Some "deploys" |>
    <| mu_observed_at := "100Z" |> <| mu_valid_from := Some "100Z" |>
    <| mu_transaction_from := Some "100Z" |>.

Definition met_eve : StoredEpisode :=
  mkStoredEpisode 500 1 10 30 20 40 0 "user" "chat-1" TrustLevel.TrustedUser "chat-1" "met Eve" 1
    "100Z" "100Z".

Definition verb_store : InMemoryState := s_both
  <| st_memory_units := {[1 := [note; u_bob]]} |>
  <| st_episodes := {[1 := [met_eve]]} |>
  <| st_retrieval_traces := {[1 := [trace 700 10 30 20 40]]} |>.

Definition alone (_ : Window.t) (s : InMemoryState) : InMemoryState := s.
Lemma alone_holds claim : lock_held alone claim.
Proof. by intros s. Qed.

Notation call := (run_call false alone plain_service cx_ana "key-1").
Notation claim_of := (call_claim cx_ana "key-1").

(** ** Calls *)

Definition chat_line : Call.t := Call.Retain TrustLevel.TrustedSystem
  (mkRetainRequest (identity_of cx_ana) "chat-9" "900Z"
     (RetainPayload.Episode (mkRetainEpisode "agent" "the build is green" None None))).
Definition card : RememberRequest :=
  mkRememberRequest MemoryKind.Semantic "deploys are on mondays" "deploys" "asked the team" None None None
    (mkMemorySource "agent" "session-1" String.EmptyString None None).
Definition report : MarkRequest :=
  mkMarkRequest (identity_of cx_ana) 700 "cli" [104; 104] MarkOutcome.Success.

Definition s_retained : InMemoryState :=
  Eval vm_compute in (call (later 1000000000000) fresh_1 chat_line verb_store).1.
Definition r_retained : MutationResponse :=
  Eval vm_compute in from_ok (mkMutationResponse 0 String.EmptyString)
    (call (later 1000000000000) fresh_1 chat_line verb_store).2.

Definition s_marked : InMemoryState :=
  Eval vm_compute in (call (later 1000000000000) fresh_1 (Call.Mark report) verb_store).1.
Definition r_marked : MutationResponse :=
  Eval vm_compute in from_ok (mkMutationResponse 0 String.EmptyString)
    (call (later 1000000000000) fresh_1 (Call.Mark report) verb_store).2.

Lemma retained_runs :
  call (later 1000000000000) fresh_1 chat_line verb_store = (s_retained, Ok r_retained).
Proof. vm_compute. reflexivity. Qed.

Lemma marked_runs :
  mark_verb alone plain_service (later 1000000000000) cx_ana "key-1" report verb_store = (s_marked, Ok r_marked).
Proof. vm_compute. reflexivity. Qed.

Lemma calls_are_atomic_witness :
  untouched alone verb_store s_retained ∨
  committed_once alone plain_service cx_ana (later 1000000000000) chat_line verb_store s_retained (Ok ()).
Proof.
  apply (calls_are_atomic false alone plain_service cx_ana "key-1" erasures_serialize
           (later 1000000000000) fresh_1 chat_line verb_store s_retained (Ok r_retained)).
  - intros claim _. apply alone_holds.
  - exact retained_runs.
Defined.

(** An hour later, with other identifiers. *)
Lemma retried_calls_are_answered_witness :
  answers_with alone (call (later 4600000000000) fresh_2 chat_line) s_retained r_retained.
Proof.
  assert (mutation_second (fmt_rfc3339 (in_begin (later 1000000000000))) = Ok 1000%Z) as Hsec
    by (vm_compute; reflexivity).
  destruct (retried_calls_are_answered false alone plain_service cx_ana "key-1" erasures_serialize
    (later 1000000000000) fresh_1 chat_line verb_store s_retained r_retained 1000
    (λ claim _, alone_holds claim) Hsec retained_runs)
    as (claim & expires & Hc & Hl & Hex & Hretry).
  assert (expires = 87400%Z) as ->.
  { vm_compute in Hc. injection Hc as <-. vm_compute in Hl. by injection Hl. }
  apply (Hretry s_retained (later 4600000000000) fresh_2 4600%Z 4600%Z);
    [apply rtc_refl|vm_compute; reflexivity..].
Defined.

Lemma calls_keep_other_subjects_witness : subject_units s_retained 1 11 = [u_bob].
Proof.
  change s_retained with (s_retained, Ok (E := ServiceError.t) r_retained).1.
  rewrite <-retained_runs. transitivity (subject_units verb_store 1 11); [|vm_compute; reflexivity].
  apply (calls_keep_other_subjects false alone plain_service cx_ana "key-1" erasures_serialize).
  - intros claim _. apply alone_holds.
  - done.
  - done.
  - by vm_compute.
  - apply (bool_decide_unpack (NoDup (map mu_id (rows (st_memory_units verb_store) 1)))). vm_compute. exact I.
Defined.

(** A key of a trusted system retains what an agent wrote. *)
Lemma episodes_keep_the_floor_witness :
  episodes_earned s_retained ∧
  map ep_source_trust (rows (st_episodes s_retained) 1) = [TrustLevel.TrustedUser; TrustLevel.AgentOutput].
Proof.
  split; [|vm_compute; reflexivity].
  change s_retained with (s_retained, Ok (E := ServiceError.t) r_retained).1.
  rewrite <-retained_runs.
  apply (episodes_keep_the_floor false alone plain_service cx_ana "key-1" erasures_serialize).
  - intros claim _. apply alone_holds.
  - done.
  - intros t. unfold rows. simpl. destruct (decide (t = 1)) as [->|Hne].
    + simpl. constructor; [|constructor]. vm_compute. discriminate.
    + rewrite lookup_singleton_ne by congruence. constructor.
Defined.

Lemma marks_are_recorded_witness :
  untouched alone verb_store s_marked ∨
  ∃ event, event ∈ rows (st_review_events s_marked) 1 ∧ rv_caller_id event = "cli".
Proof.
  destruct (call_claim cx_ana "key-1" (later 1000000000000) (Call.Mark report)) as [claim|error] eqn:Hc;
    [|vm_compute in Hc; discriminate Hc].
  destruct (marks_are_recorded false alone plain_service cx_ana "key-1" erasures_serialize
    (later 1000000000000) report claim verb_store s_marked r_marked Hc (alone_holds claim) marked_runs)
    as [Hu|(s & t & event & _ & _ & _ & He & _ & Hcaller & _)]; [by left|right].
  exists event. split; [exact He|exact Hcaller].
Defined.

(** ** Compact memory *)

(** The note as a page of the web left it, and as a trusted user did. *)
Definition store_with (trust : TrustLevel.t) : InMemoryState :=
  verb_store <| st_memory_units := {[1 := [note <| mu_trust_level := trust |>]]} |>.
Definition remembered (trust : TrustLevel.t) (s : InMemoryState) : list (UnitState.t * TrustLevel.t * string) :=
  map (λ u, (mu_state u, mu_trust_level u, mu_body u))
    (rows (st_memory_units (call (later 1000000000000) fresh_1 (Call.Remember trust card) s).1) 1).

(** A card is routed as a trusted statement: the card of a quarantined caller
    closes the note of a trusted user, and what is left of the note - its time
    before the card - carries the trust of the caller. *)
Example a_card_closes_trusted_notes :
  remembered TrustLevel.Quarantined (store_with TrustLevel.TrustedUser) =
  [(UnitState.Superseded, TrustLevel.TrustedUser, "deploys are on fridays");
   (UnitState.Active, TrustLevel.Quarantined, "deploys are on fridays");
   (UnitState.Active, TrustLevel.Quarantined, "deploys are on mondays")].
Proof. vm_compute. reflexivity. Qed.

(** And the other way around: the card of a trusted caller lifts what is left
    of a note of the web to its own trust. *)
Example a_card_lifts_web_notes :
  remembered TrustLevel.TrustedUser (store_with TrustLevel.WebContent) =
  [(UnitState.Superseded, TrustLevel.WebContent, "deploys are on fridays");
   (UnitState.Active, TrustLevel.TrustedUser, "deploys are on fridays");
   (UnitState.Active, TrustLevel.TrustedUser, "deploys are on mondays")].
Proof. vm_compute. reflexivity. Qed.

(** ** The credit of a synthetic item *)

Definition trace_synthetic : RetrievalTrace :=
  trace 700 10 30 20 40 <| tr_context_items := [mkRecallItemIds 990 [100; 101]] |>.
Definition rollup_store : InMemoryState :=
  verb_store <| st_retrieval_traces := {[1 := [trace_synthetic]]} |>.
Definition rollup_report : MarkRequest :=
  mkMarkRequest (identity_of cx_ana) 700 "cli" [990] MarkOutcome.Success.
Definition credited (s : InMemoryState) : list (list UnitId) :=
  map rv_used_ids (rows (st_review_events s) 1).

(** The library credits the units a synthetic item was derived from; the
    service records the item, which no unit answers to. *)
Example the_service_credits_no_source :
  credited (record_mark alone (later 1000000000000) cx_ana rollup_report rollup_store).1 = [[100; 101]] ∧
  credited (mark_verb alone plain_service (later 1000000000000) cx_ana "key-1" rollup_report rollup_store).1 = [[990]].
Proof. split; vm_compute; reflexivity. Qed.

(** ** Tasks *)

Definition a_task : TaskOutcomeRequest := {|
  tq_identity := identity_of cx_ana; tq_task_id := 77; tq_harness_id := "h"; tq_model_id := "m";
  tq_started_at := "1Z"; tq_ended_at := "2Z";
  tq_completion_status := TaskCompletionStatus.Completed;
  tq_validator_status := TaskValidatorStatus.Passed; tq_tool_count := 0; tq_failure_count := 0;
  tq_retry_count := 0; tq_planned_files := Some ["src/./b.rs"; "src//a.rs"];
  tq_actual_files := ["src/a.rs"; "README.md"; "src/a.rs"];
  tq_transcript_sha256 := String.concat String.EmptyString (repeat "0f" 32);
  tq_shown_unit_ids := []; tq_activated_unit_ids := [] |}.
Definition checked_task : TaskOutcomeRequest := Eval vm_compute in from_ok a_task (check_task_outcome a_task).

Lemma task_files_are_canonical_witness :
  tq_actual_files checked_task = ["README.md"; "src/a.rs"] ∧
  Forall inside_path (tq_actual_files checked_task).
Proof.
  assert (Hok : check_task_outcome a_task = Ok checked_task) by (vm_compute; reflexivity).
  split; [reflexivity|]. exact (proj1 (proj1 (task_files_are_canonical a_task checked_task Hok))).
Defined.
