(* ===== verification/SyncWitnesses.v ===== *)
(** * SyncWitnesses: plans of the file plane and the memory tool at a store

    A digest of sixty-four digits, a plan that corrects the note of
    [VerbWitnesses] and retains another, and the theorem on its receipt; then
    the commands of the memory tool. *)

From Stdlib Require DecimalString DecimalZ.
From S2P Require Import Prelude Text Types Float Clock Bitemporal Lineage Store Txn Stage Binding Ledger Reads.
From S2P Require Import Capture Chunks Gate Compile Structured Mining Prepare Reflect Requests Verbs FileSync Tasks.
From S2P Require Import VerbFacts FileSyncFacts FileTool FileToolFacts Fixtures Witnesses WriteWitnesses.
From S2P Require Import ReflectWitnesses VerbWitnesses.

#[local] Existing Instance zulu_clock.
#[local] Instance wide_digest : Sha256 := λ s,
  String.concat String.EmptyString (repeat "0" 56) +:+ hex_from 8 (str_len s).

Definition item_json (u : CanonicalProjectionUnit) : JsonValue :=
  JObject [("unit_id", number (pj_unit_id u)); ("body", JString (pj_body u))].
Definition sync_json (o : FileSyncOperation.t) : JsonValue :=
  match o with
  | FileSyncOperation.Correct base body => JObject [("correct", number (fm_unit_id base)); ("body", JString body)]
  | FileSyncOperation.Retain key _ body _ _ _ => JObject [("retain", JString key); ("body", JString body)]
  | FileSyncOperation.Forget base => JObject [("forget", number (fm_unit_id base))]
  end.
#[local] Instance items_serialize : Serialize (list CanonicalProjectionUnit) :=
  plain (λ l, JArray (map item_json l)).
#[local] Instance projection_serialize : Serialize CanonicalProjectionResponse :=
  plain (λ r, JObject [("items", JArray (map item_json (cpr_items r)))]).
#[local] Instance plan_serialize : Serialize (list FileSyncOperation.t) :=
  plain (λ l, JArray (map sync_json l)).
#[local] Instance sync_serialize : Serialize FileSyncRequest :=
  plain (λ r, JObject [("plan", JString (fs_plan_sha256 r))]).
#[local] Instance receipt_serialize : Serialize FileSyncResult :=
  plain (λ r, JObject [("fingerprint", JString (fsr_fingerprint r))]).
#[local] Instance rows_serialize : Serialize (list StoredMemoryUnit * list StoredMemoryEdge) :=
  plain (λ r, JObject [("units", JArray (map (λ u, JString (mu_body u)) r.1));
                       ("edges", numbers (map ed_id r.2))]).

Definition sync_at : SyncInstants :=
  mkSyncInstants 1000 1000000000000 "1000000000000Z" (λ _, "1000000000000Z") "1000000000001Z".
Definition sync_ids : SyncIds :=
  mkSyncIds (λ index, mkVerbIds 0 0 (5000 + N.of_nat index) 0 (λ n, 5100 + 100 * N.of_nat index + N.of_nat n)
               (λ n, 6100 + 100 * N.of_nat index + N.of_nat n) (λ n, 7100 + 100 * N.of_nat index + N.of_nat n))
    (λ index n, 8100 + 100 * N.of_nat index + N.of_nat n).

Definition shown : list CanonicalProjectionUnit :=
  Eval vm_compute in
  from_ok [] (projection_items (in_memory_canonical_projection_units verb_store cx_ana "1000000000000Z")).
Definition note_base : FileSyncUnitMetadata :=
  mkSyncMetadata 120 MemoryKind.Semantic (mu_fact_key note) (mu_predicate note) None (Some "100Z") None
    (sha256_hex (mu_body note)).
Definition plan : list FileSyncOperation.t :=
  [FileSyncOperation.Correct note_base "deploys are on mondays, at noon";
   FileSyncOperation.Retain "team:size" "size" "the team has five members" f32_one None None].
Definition note_sync : FileSyncRequest :=
  mkSyncRequest (identity_of cx_ana) (from_ok String.EmptyString (canonical_projection_fingerprint shown))
    (from_ok String.EmptyString (file_sync_plan_sha256 plan)) "900Z" plan.
Notation synced := (file_sync false alone sync_at sync_ids cx_ana "key-2" note_sync verb_store).

Definition s_synced : InMemoryState := Eval vm_compute in synced.1.
Definition r_synced : MutationResponse :=
  Eval vm_compute in from_ok (mkMutationResponse 0 String.EmptyString) synced.2.
Definition checked_plan : FileSyncRequest :=
  Eval vm_compute in from_ok note_sync (check_file_sync cx_ana note_sync).
Definition sync_claim : MutationClaim :=
  Eval vm_compute in from_ok (mkMutationClaim 0 MutationVerb.FileSync String.EmptyString 0 0 String.EmptyString)
    (claim_for cx_ana MutationVerb.FileSync "key-2" checked_plan).

(** The plan leaves the note closed and two new units. *)
Example plan_is_applied :
  map (λ u, (mu_id u, mu_state u)) (rows (st_memory_units s_synced) 1) =
  [(106, UnitState.Active); (120, UnitState.Superseded); (5100, UnitState.Active); (5200, UnitState.Active)].
Proof. vm_compute. reflexivity. Qed.

Lemma synced_projection_is_read_back_witness :
  untouched alone verb_store s_synced ∨
  ∃ results final fingerprint, Forall2 reports (fs_operations checked_plan) results ∧
    to_vec (sync_receipt sync_at checked_plan fingerprint results) = Ok (mr_body r_synced) ∧
    (units <-? map_err store_error (canonical_projection_units s_synced cx_ana (sy_final sync_at));
     projection_items units) = Ok final ∧
    canonical_projection_fingerprint final = Ok fingerprint.
Proof.
  assert (Hch : check_file_sync cx_ana note_sync = Ok checked_plan) by (vm_compute; reflexivity).
  assert (Hcl : claim_for cx_ana MutationVerb.FileSync "key-2" checked_plan = Ok sync_claim)
    by (vm_compute; reflexivity).
  assert (Hrun : synced = (s_synced, Ok r_synced)) by (vm_compute; reflexivity).
  destruct (synced_projection_is_read_back false alone sync_at sync_ids cx_ana "key-2" note_sync
    checked_plan sync_claim verb_store s_synced r_synced Hch Hcl (alone_holds sync_claim) Hrun)
    as [Hu|(s1 & base & results & final & fingerprint & _ & _ & _ & _ & Hreports & Hvec & Hback & Hfp)];
    [left; exact Hu|right].
  exists results, final, fingerprint. repeat split; assumption.
Defined.

(** * The memory tool at a store

    A file is created, changed, deleted and created again on the store of
    [VerbWitnesses]; the theorems on the tool are applied to it. *)

#[local] Instance mixed_digest : Sha256 := λ s,
  String.concat String.EmptyString (repeat "0" 56) +:+
  hex_from 8 (foldl (λ h b, (31 * h + b) `mod` 65521) 7 (bytes_of s)).
#[local] Instance observed_serialize : Serialize FileSyncRequest :=
  plain (λ r, JObject [("observed_at", JString (fs_observed_at r)); ("plan", JString (fs_plan_sha256 r))]).
#[local] Instance context_serialize : Serialize ResolvedMemoryContext :=
  plain (λ c, JObject [("subject", number (cx_data_subject_id c))]).

Definition stamp (second : N) : string := show (second * 1000000000) +:+ "Z".
Definition tool_at (second : N) : SyncInstants :=
  mkSyncInstants (Z.of_N second) (Z.of_N second * 1000000000) (stamp second) (λ _, stamp second) (stamp second).
Definition tool_ids (base : N) : SyncIds :=
  mkSyncIds (λ index, mkVerbIds 0 0 (base + N.of_nat index) 0 (λ n, base + 100 + 100 * N.of_nat index + N.of_nat n)
               (λ n, base + 1100 + 100 * N.of_nat index + N.of_nat n)
               (λ n, base + 2100 + 100 * N.of_nat index + N.of_nat n))
    (λ index n, base + 3100 + 100 * N.of_nat index + N.of_nat n).
Definition use (second base : N) (command : MemoryCommand.t) (s : InMemoryState) :=
  handle false alone (tool_at second) (tool_ids base) cx_ana (stamp second) command s.

Definition plan_path : string := "/memories/plans/launch.md".
Definition create_plan : MemoryCommand.t := MemoryCommand.Create plan_path "ship on monday".

Definition created := use 1000 50000 create_plan verb_store.
Definition revised := use 1001 60000
  (MemoryCommand.StrReplace plan_path "monday" (Some "tuesday")) created.1.
Definition extended := use 1002 70000 (MemoryCommand.Insert plan_path 1 "bring cake") revised.1.
Definition moved := use 1003 80000 (MemoryCommand.Rename "/memories/plans" "/memories/done") extended.1.

(** The commands leave what they say. *)
Example the_tool_edits_files :
  (use 1004 90000 (MemoryCommand.View "/memories/done/launch.md" None) moved.1).2 =
  Ok ("Here's the content of /memories/done/launch.md with line numbers:" +:+ line_feed +:+
      "     1" +:+ tab +:+ "ship on tuesday" +:+ line_feed +:+
      "     2" +:+ tab +:+ "bring cake" +:+ line_feed).
Proof. vm_compute. reflexivity. Qed.

(** A file that was deleted cannot be created again with the same text for a
    day: the projection and the plan are those of the first time, so the claim
    is too, and the later request conflicts with the entry of the ledger. *)
Definition deleted := use 1001 60000 (MemoryCommand.Delete plan_path) created.1.
Example a_deleted_file_is_not_created_again :
  created.2 = Ok ("File created successfully at: " +:+ plan_path) ∧
  deleted.2 = Ok ("Successfully deleted " +:+ plan_path) ∧
  (use 80000 70000 create_plan deleted.1).2 =
    Err (mkToolError "sync_conflict" "memory changed; retry the operation").
Proof. vm_compute. repeat split. Qed.

(** Only neighbours in the order of paths are compared: the file [a] and the
    file [x] below it pass when [a-b] stands between them. *)
Definition filed_at (id : UnitId) (relative body : string) : CanonicalProjectionUnit :=
  mkProjectionUnit id MemoryKind.Semantic (Some (MEMORY_PATH_FACT_KEY_PREFIX +:+ relative))
    (Some "memory_file") body None None None "digest" UnitState.Active None.
Example a_file_hides_among_its_neighbours :
  invalid_projection [filed_at 1 "a" "text"; filed_at 2 "a/x" "text"] = true ∧
  invalid_projection [filed_at 1 "a" "text"; filed_at 3 "a-b" "text"; filed_at 2 "a/x" "text"] = false.
Proof. vm_compute. split; reflexivity. Qed.

(** Occurrences that overlap count as one. *)
Example overlapping_text_is_unique :
  map fst (omap (λ r, match r with Ok p => Some p | Err _ => None end)
    [replaced "/memories/a" "aa" (Some "b") (filed_at 1 "a" "aaa")]) =
  [[correct_file (filed_at 1 "a" "aaa") (bytes_of "ba")]].
Proof. vm_compute. reflexivity. Qed.

Definition revision : string := Eval vm_compute in from_ok String.EmptyString revised.2.
Lemma revised_runs :
  handle false alone (tool_at 1001) (tool_ids 60000) cx_ana (stamp 1001)
    (MemoryCommand.StrReplace plan_path "monday" (Some "tuesday")) created.1 = (revised.1, Ok revision).
Proof.
  change (revised = (revised.1, Ok revision)).
  assert (Hr : revised.2 = Ok revision) by (vm_compute; reflexivity).
  rewrite <-Hr. apply surjective_pairing.
Qed.

Lemma tool_edits_what_it_showed_witness :
  ∃ shown operations, snapshot cx_ana (stamp 1001) created.1 = Ok shown ∧
    plans (cpr_items shown) (MemoryCommand.StrReplace plan_path "monday" (Some "tuesday")) operations.
Proof.
  destruct (tool_edits_what_it_showed false alone (tool_at 1001) (tool_ids 60000) cx_ana (stamp 1001)
    (MemoryCommand.StrReplace plan_path "monday" (Some "tuesday")) created.1 revised.1 _
    (λ claim _, alone_holds claim) revised_runs)
    as (shown & Hshown & _ & [(path & range & Hc & _)|(operations & Hplans & _)]).
  - discriminate Hc.
  - exists shown, operations. exact (conj Hshown Hplans).
Defined.

Definition three_files : CanonicalProjectionResponse :=
  mkProjectionResponse 1 10 20 30 40 0 "200" [filed_at 1 "a" "text"; filed_at 2 "b" "text"; filed_at 3 "c" "text"] "f1".

Lemma resource_pages_cover_witness :
  ∃ pages, paged three_files 2 None pages ∧ concat pages = cpr_items three_files ∧
    Forall (λ page, (length page <= page_limit 2)%nat) pages.
Proof.
  apply (resource_pages_cover three_files 2).
  - vm_compute. discriminate.
  - intros Hin. vm_compute in Hin. repeat (apply elem_of_cons in Hin as [Hin|Hin]; [discriminate Hin|]).
    by apply elem_of_nil in Hin.
Defined.

(** Sizes have one digit, rounded half to even. *)
Example sizes_are_kibibytes :
  kibibytes 1024 = "1.0K" ∧ kibibytes 1280 = "1.2K" ∧ kibibytes 1792 = "1.8K" ∧ kibibytes 2047 = "2.0K" ∧
  format_size 1023 "x" = "1023B" +:+ tab +:+ "x".
Proof. vm_compute. split_and!; reflexivity. Qed.
