(* ===== verification/PlaneWitnesses.v ===== *)
(** * PlaneWitnesses: a compiled tree, its edits and their sync

    Three units are compiled into a tree; one is rewritten, one removed and a
    fact is put in the inbox.  The theorems on the file plane are applied to
    that tree, and files that the readers do not take are shown. *)

From S2P Require Import Prelude Text Types Float Clock Bitemporal Lineage Store Txn Stage Binding Reads.
From S2P Require Import Chunks Gate Rerank Structured Compile Mining Prepare Reflect Requests Verbs Tasks.
From S2P Require Import FileSync FileTool Plane PlaneScan PlaneSync PlaneFacts PlaneScanFacts.
From S2P Require Import Fixtures VerbWitnesses SyncWitnesses.

#[local] Existing Instance zulu_clock.
#[local] Existing Instance mixed_digest.
#[local] Existing Instance items_serialize.
#[local] Existing Instance plan_serialize.
#[local] Existing Instance observed_serialize.

(** ** Identifiers and JSON *)

Definition hex_nibble (b : N) : option N :=
  if is_digit b then Some (b - 48) else if (97 <=? b) && (b <=? 102) then Some (b - 87) else None.
Fixpoint hex_number (value : N) (digits : list N) : option N :=
  match digits with
  | [] => Some value
  | b :: digits => digit ← hex_nibble b; hex_number (16 * value + digit) digits
  end.
#[local] Instance hyphenated : UuidText := λ text,
  if (length text =? 36)%nat then hex_number 0 (retain (λ b, negb (b =? 45)) text) else None.

(** A footer and a manifest as text; a reader knows the texts of a table. *)
Definition footer_line (f : UnitFooter) : result string string :=
  Ok ("{unit " +:+ uf_unit_id f +:+ " body " +:+ uf_body_sha256 f +:+ " of " +:+
      show (uf_subject_generation f) +:+ "}").
Definition manifest_lines (m : ExportManifest) : result string string :=
  Ok ("{snapshot " +:+ em_snapshot_sha256 m +:+ " index " +:+ em_memory_sha256 m +:+ line_feed +:+
      String.concat line_feed (map (λ e, me_path e +:+ " " +:+ me_file_sha256 e) (em_entries m)) +:+ "}").
Definition table_reader {A} (table : list (string * A)) (text : string) : result string A :=
  ok_or (btree_get text (btree_collect table)) "expected value".
Definition writer : PlaneJson := {|
  footer_text := footer_line; read_footer _ := Err "expected value";
  manifest_text := manifest_lines; read_manifest _ := Err "expected value" |}.

(** ** The projection and its files *)

Definition unit_with (id : N) (key : option string) (body : string) : CanonicalProjectionUnit := {|
  pj_unit_id := id; pj_kind := MemoryKind.Semantic; pj_fact_key := key; pj_predicate := None;
  pj_body := body; pj_confidence := Some f32_one; pj_valid_from := None; pj_valid_to := None;
  pj_body_sha256 := sha256_hex body; pj_state := UnitState.Active; pj_source_span := None |}.
Definition day : CanonicalProjectionUnit := unit_with 1 None "Deploys are on friday.".
Definition engine : CanonicalProjectionUnit := unit_with 2 (Some "db") "The database is Postgres.".
Definition office : CanonicalProjectionUnit := unit_with 3 (Some "office") "The office is in Vienna.".
Definition units_shown : list CanonicalProjectionUnit := [day; engine; office].

Definition projection_of (items : list CanonicalProjectionUnit) : CanonicalProjectionResponse := {|
  cpr_tenant_id := 10; cpr_subject_id := 11; cpr_actor_id := 12; cpr_scope_id := 13; cpr_agent_node_id := 14;
  cpr_subject_generation := 0; cpr_evaluated_at := "7Z"; cpr_items := items;
  cpr_fingerprint := match canonical_projection_fingerprint items with Ok f => f | Err _ => String.EmptyString end |}.
Definition shown_projection : CanonicalProjectionResponse := projection_of units_shown.

Definition manifest_in (response : CanonicalProjectionResponse) : list (string * ExportManifest) :=
  match render_projection (H2 := writer) response with
  | Ok rendered => [(rp_manifest_bytes rendered, rp_manifest rendered)]
  | Err _ => []
  end.
Definition footer_in (item : CanonicalProjectionUnit) : list (string * UnitFooter) :=
  match footer_line (footer_of 0 item) with Ok text => [(text, footer_of 0 item)] | Err _ => [] end.
#[local] Instance tables : PlaneJson := {|
  footer_text := footer_line; read_footer := table_reader (flat_map footer_in units_shown);
  manifest_text := manifest_lines; read_manifest := table_reader (manifest_in shown_projection) |}.

Definition rendered_of (response : CanonicalProjectionResponse) : RenderedProjection :=
  match render_projection response with
  | Ok rendered => rendered
  | Err _ => mkRendered String.EmptyString [] (manifest_of response []) String.EmptyString
  end.
Definition compiled : RenderedProjection := rendered_of shown_projection.

(** ** Directories *)

Definition file_of (index : N) (bytes : string) : OpenFile :=
  {| of_metadata := Ok (true, str_len bytes, mkFileIdentity 1 index); of_contents := Ok bytes |}.
Definition directory_of (files : list (string * string)) (others : list string) : Directory := {|
  dir_metadata name := match btree_get name files with
                       | Some _ => Inspected.Found true false
                       | None => if bool_decide (name ∈ others) then Inspected.Found false false
                                 else Inspected.NotFound
                       end;
  dir_open name := match btree_get name files with
                   | Some bytes => Ok (file_of (str_len name) bytes)
                   | None => Err "no such file"
                   end;
  dir_entries := Ok (map (λ name, Ok (Some name)) (files.*1 ++ others)) |}.
Definition tree_of (rendered : RenderedProjection) (units inbox : list (string * string)) : TreeHandles := {|
  th_bound_before := Ok ();
  th_root := directory_of [(MEMORY_FILE, rp_memory rendered); (MANIFEST_FILE, rp_manifest_bytes rendered)]
               [UNITS_DIR; INBOX_DIR];
  th_units := directory_of units []; th_inbox := directory_of inbox [];
  th_bound_after := Ok (); th_identities := [mkFileIdentity 1 1; mkFileIdentity 1 2; mkFileIdentity 1 3] |}.

Definition file_name (item : CanonicalProjectionUnit) : string := uuid_string (pj_unit_id item) +:+ ".md".
Definition text_of (item : CanonicalProjectionUnit) : string :=
  match render_unit 0 item with Ok bytes => bytes | Err error => error end.
Definition fresh_tree : TreeHandles :=
  tree_of compiled (map (λ item, (file_name item, text_of item)) units_shown) [].

Definition new_day : string := "Deploys are on monday.".
Definition team_file : string :=
  "# team" +:+ line_feed +:+ line_feed +:+ "We are four." +:+ line_feed.
Definition edited_tree : TreeHandles :=
  tree_of compiled [(file_name day, text_of (with_body day new_day)); (file_name engine, text_of engine)]
    [("team.md", team_file)].

Definition entry_at (index : nat) : ManifestEntry :=
  default (entry_of String.EmptyString String.EmptyString String.EmptyString day)
    (em_entries (rp_manifest compiled) !! index).
Definition edits_shown : list (option FileSyncOperation.t) :=
  [Some (FileSyncOperation.Correct (file_sync_metadata (entry_at 0) 1) new_day); None;
   Some (FileSyncOperation.Forget (file_sync_metadata (entry_at 2) 3))].
Definition edits : list FileSyncOperation.t :=
  omap id edits_shown ++ [FileSyncOperation.Retain "team" "states" "We are four." f32_one None None].

(** The tree plans the edits that were made in it. *)
Example the_edits_are_the_plan :
  match scan_sync_handles edited_tree with
  | Some (Ok snapshot) => sy_operations snapshot
  | _ => []
  end = edits.
Proof. vm_compute. reflexivity. Qed.

(** ** The edited tree *)

Lemma no_line_feed l : forallb (λ b, negb (b =? LF)) l = true → Forall (λ b, b ≠ LF) l.
Proof.
  rewrite forallb_forall, Forall_forall. intros Hl b Hb%list_elem_of_In%Hl.
  by apply negb_true_iff, N.eqb_neq in Hb.
Qed.

Lemma shown_readable : Forall (item_readable 0) units_shown.
Proof.
  unfold units_shown, item_readable, footer_reads_back.
  repeat constructor; try (vm_compute; reflexivity);
    eexists; (split; [reflexivity|]); (split; [apply no_line_feed; vm_compute; reflexivity|]);
    vm_compute; reflexivity.
Qed.

Lemma same_names names : list_to_set names = root_names → ∀ name, name ∈ names ↔ name ∈ root_names.
Proof. intros <- name. by rewrite elem_of_list_to_set. Qed.

Definition names_known (directory : Directory) : bool :=
  match directory_names directory with
  | Ok names => forallb (λ name, bool_decide (name ∈ map unit_name (em_entries (rp_manifest compiled)))) names
  | Err _ => false
  end.

Lemma tree_holds units inbox inbox_names :
  directory_names (directory_of inbox []) = Ok inbox_names → names_known (directory_of units []) = true →
  HoldsExport (tree_of compiled units inbox) compiled inbox_names.
Proof.
  intros Hi Hn. split; [reflexivity|reflexivity| | | | |exact Hi].
  - eexists. vm_compute. reflexivity.
  - eexists. vm_compute. reflexivity.
  - eexists. split; [vm_compute; reflexivity|]. apply same_names. vm_compute. reflexivity.
  - unfold names_known in Hn.
    change (th_units (tree_of compiled units inbox)) with (directory_of units []).
    destruct (directory_names (directory_of units [])) as [names|]; [|discriminate].
    exists names. split; [reflexivity|]. intros name Hin. rewrite forallb_forall in Hn.
    apply list_elem_of_In, Hn, bool_decide_eq_true, list_elem_of_fmap in Hin as (entry & -> & He). by exists entry.
Qed.

Lemma edited_holds : HoldsExport edited_tree compiled ["team.md"].
Proof.
  apply tree_holds; vm_compute; reflexivity.
Qed.

Lemma edited_shows :
  Forall2 (EntryShows edited_tree 0) (em_entries (rp_manifest compiled)) edits_shown.
Proof.
  assert (em_entries (rp_manifest compiled) = [entry_at 0; entry_at 1; entry_at 2]) as -> by (vm_compute; reflexivity).
  constructor; [|constructor; [|constructor; [|constructor]]].
  - apply (shows_rewritten edited_tree 0 (entry_at 0) 1 (text_of (with_body day new_day)) new_day);
      [vm_compute; reflexivity| | |vm_compute; reflexivity].
    + split; [|eexists| |]; vm_compute; reflexivity.
    + intros Heq. vm_compute in Heq. discriminate.
  - apply (shows_kept edited_tree 0 (entry_at 1) 2 (text_of engine) (pj_body engine));
      [vm_compute; reflexivity| |vm_compute; reflexivity|vm_compute; reflexivity].
    split; [|eexists| |]; vm_compute; reflexivity.
  - apply shows_removed; vm_compute; reflexivity.
Qed.

Lemma edited_inbox : Forall2 (InboxShows edited_tree) ["team.md"] [("team", "We are four.")].
Proof.
  constructor; [|constructor]. split; [vm_compute; reflexivity|].
  exists team_file. eexists. split; [vm_compute; reflexivity|].
  apply inbox_file_parsed. vm_compute. reflexivity.
Qed.

Lemma edited_export_plans_its_edits_witness :
  ∃ snapshot, scan_sync_handles edited_tree = Some (Ok snapshot) ∧ sy_manifest snapshot = rp_manifest compiled ∧
    sy_operations snapshot = edits.
Proof.
  destruct (edited_export_plans_its_edits shown_projection compiled edited_tree ["team.md"] edits_shown
              [("team", "We are four.")]) as (snapshot & Hs & Hm & Ho).
  - vm_compute. reflexivity.
  - vm_compute. reflexivity.
  - vm_compute. reflexivity.
  - exact shown_readable.
  - exact edited_holds.
  - exact edited_shows.
  - exact edited_inbox.
  - apply NoDup_singleton.
  - intros key Hkey%list_elem_of_singleton. subst key. vm_compute.
    intros Hin. repeat apply elem_of_cons in Hin as [Hin|Hin]; try discriminate. by apply elem_of_nil in Hin.
  - exists snapshot. split; [exact Hs|]. split; [exact Hm|]. exact Ho.
Defined.

Definition edited_snapshot : SyncSnapshot :=
  match scan_sync_handles edited_tree with
  | Some (Ok snapshot) => snapshot
  | _ => mkSyncSnapshot (rp_manifest compiled) [] [] []
  end.

Lemma scan_plans_only_what_it_shows_witness :
  ∃ shown facts,
    Forall2 (EntryShows edited_tree (em_subject_generation (sy_manifest edited_snapshot)))
      (em_entries (sy_manifest edited_snapshot)) shown ∧
    sy_operations edited_snapshot = omap id shown ++
      map (λ fact, retained (sy_manifest edited_snapshot) (fst fact) (snd fact)) facts.
Proof.
  destruct (scan_plans_only_what_it_shows edited_tree edited_snapshot)
    as (shown & facts & _ & _ & Hs & _ & _ & _ & _ & Ho & _).
  - vm_compute. reflexivity.
  - exists shown, facts. split; [exact Hs|exact Ho].
Defined.

(** ** The fresh tree *)

Lemma fresh_holds : FreshTree fresh_tree shown_projection compiled.
Proof.
  split.
  - apply tree_holds; vm_compute; reflexivity.
  - exists (map file_name units_shown). split; [vm_compute; reflexivity|].
    assert (map unit_name (em_entries (rp_manifest compiled)) = map file_name units_shown) as <-
      by (vm_compute; reflexivity).
    intros entry He. apply list_elem_of_fmap. by exists entry.
  - intros item bytes Hitem Hr. change (render_unit 0 item = Ok bytes) in Hr. assert (bytes = text_of item) as -> by (unfold text_of; by rewrite Hr).
    repeat apply elem_of_cons in Hitem as [->|Hitem]; [..|by apply elem_of_nil in Hitem];
      (split; [vm_compute; reflexivity|]); (split; [eexists|]; vm_compute; reflexivity).
Qed.

Lemma fresh_export_is_clean_witness :
  (∃ digest managed, validate_export_handles fresh_tree false = Some (Ok (rp_manifest compiled, digest, managed))) ∧
  ∃ snapshot, scan_sync_handles fresh_tree = Some (Ok snapshot) ∧ sy_operations snapshot = [].
Proof.
  apply (fresh_export_is_clean shown_projection compiled fresh_tree).
  - vm_compute. reflexivity.
  - vm_compute. reflexivity.
  - vm_compute. reflexivity.
  - exact shown_readable.
  - vm_compute. reflexivity.
  - exact fresh_holds.
Defined.

(** ** A sync of the edited tree *)

Definition id_text (id : Uuid) : string := uuid_string id.
Definition sync_arguments : list string :=
  ["--subject-id"; id_text 11; "--scope"; id_text 13; "--apply"; "--actor"; id_text 12;
   "--agent-node"; id_text 14; "--subject-generation"; "0"; "--out"; "memory"].
Definition plan_digest : string :=
  match file_sync_plan_sha256 edits with Ok digest => digest | Err error => error end.
Definition sync_receipt_for (created : list UnitId) : FileSyncResult := {|
  fsr_base_fingerprint := cpr_fingerprint shown_projection;
  fsr_fingerprint := cpr_fingerprint shown_projection;
  fsr_evaluated_at := "8Z"; fsr_plan_sha256 := plan_digest;
  fsr_operations := [FileSyncOperationResult.Correct 1 created; FileSyncOperationResult.Forget 3 1 [3];
                     FileSyncOperationResult.Retain [21]] |}.
Definition answered {A} (body : A) : result string (HttpResponse A) :=
  Ok (mkResponse A 200 None None (Ok body)).
Definition at_home : Environment := mkEnvironment None (Some "key") None.
Definition world_with (answer : result string (HttpResponse FileSyncResult)) : SyncWorld := {|
  sw_environment := at_home; sw_opened := Ok edited_tree; sw_get _ _ _ := answered shown_projection;
  sw_planned_on := edited_tree; sw_applied_on := edited_tree; sw_nonce := 99; sw_post _ := answer;
  sw_get_final _ _ _ := answered shown_projection; sw_committed_on := edited_tree;
  sw_install _ _ := Ok None |}.
Definition good_world : SyncWorld := world_with (answered (sync_receipt_for [20])).
Definition sent_request : Posted :=
  default (mkPosted String.EmptyString String.EmptyString None 0 String.EmptyString)
    (sync good_world sync_arguments).1.

(** The commit is reported; a receipt that names no new unit, or no answer,
    leaves the outcome unknown; a conflict is a refusal. *)
Example syncs_of_the_edited_tree :
  (sync good_world sync_arguments).2 =
    Some (Ok (Applied 13 plan_digest (cpr_fingerprint shown_projection) (cpr_fingerprint shown_projection)
                3 [id_text 20; id_text 21] None)) ∧
  (match (sync (world_with (answered (sync_receipt_for []))) sync_arguments).2 with
   | Some (Err (SyncFailure.OutcomeUnknown _)) => True | _ => False end) ∧
  (match (sync (world_with (Err "reset")) sync_arguments).2 with
   | Some (Err (SyncFailure.OutcomeUnknown _)) => True | _ => False end) ∧
  (sync (world_with (Ok (mkResponse _ 409 (Some "sync_conflict") (Some "moved on") (Err "no"%string)))) sync_arguments).2 =
    Some (Err (SyncFailure.Conflict "moved on")).
Proof. vm_compute. split_and!; try reflexivity; exact I. Qed.

Lemma sync_reports_its_outcome_witness :
  ∃ sync_args request, parse_sync_args sync_arguments = Ok sync_args ∧
    SentFor good_world sync_args request sent_request ∧ committed request (sw_post good_world sent_request).
Proof.
  destruct (sync_reports_its_outcome good_world sync_arguments (Some sent_request)
    (Ok (Applied 13 plan_digest (cpr_fingerprint shown_projection) (cpr_fingerprint shown_projection)
           3 [id_text 20; id_text 21] None))) as (sync_args & request & Hargs & Hsent & Hcommitted & _).
  - vm_compute. reflexivity.
  - exists sync_args, request. split; [exact Hargs|]. split; [exact Hsent|]. apply Hcommitted. exact I.
Defined.

(** ** Files the readers do not expect *)

Definition footer_text_of (item : CanonicalProjectionUnit) : string :=
  match footer_line (footer_of 0 item) with Ok text => text | Err error => error end.

(** A unit file whose body was deleted along with its blank line: the body ends
    before it starts, and the scan panics instead of reporting the file. *)
Definition emptied : string :=
  "# db" +:+ line_feed +:+ line_feed +:+ "<!-- memphant " +:+ footer_text_of engine +:+ " -->" +:+ line_feed.
Example an_emptied_unit_panics :
  parse_unit emptied = None ∧
  scan_sync_handles (tree_of compiled [(file_name engine, emptied)] []) = None ∧
  validate_export_handles (tree_of compiled [(file_name engine, emptied)] []) false = None.
Proof. vm_compute. split_and!; reflexivity. Qed.

(** So does a footer without its JSON: the marker and the end overlap. *)
Example a_bare_footer_panics :
  parse_unit ("# db" +:+ line_feed +:+ line_feed +:+ "<!-- memphant -->" +:+ line_feed) = None.
Proof. vm_compute. reflexivity. Qed.

(** Two open units of one fact key cannot be compiled. *)
Example one_fact_key_twice_is_not_compiled :
  render_projection (projection_of [engine; unit_with 4 (Some "db") "The database is MySQL."]) =
  Err "projection contains duplicate fact_key db".
Proof. vm_compute. reflexivity. Qed.

(** Inbox files that are taken and that are not. *)
Example inbox_files :
  parse_inbox team_file = Ok ("team", "We are four.") ∧
  parse_inbox ("# team" +:+ line_feed +:+ "We are four." +:+ line_feed) =
    Err "inbox file must contain an H1, one blank line, then a body" ∧
  is_safe_inbox_name "team.md" = true ∧ is_safe_inbox_name "con.md" = false ∧
  is_safe_inbox_name "MEMORY.md" = false ∧ is_safe_inbox_name ".team.md" = false.
Proof. vm_compute. split_and!; reflexivity. Qed.

(** A confidence in the index has two digits, rounded half to even. *)
Example confidences_in_the_index :
  show_f32_2 f32_one = "1.00" ∧ show_f32_2 0x3f333333 = "0.70" ∧ show_f32_2 0x3e000000 = "0.12" ∧
  show_f32_2 0x3ec00000 = "0.38" ∧ show_f32_2 0x7fc00000 = "NaN".
Proof. vm_compute. split_and!; reflexivity. Qed.
